(* ===== verification/_CoqProject ===== *)
-Q . S2P
Prelude.v
Wire.v
OutputBuffer.v
OutputBufferFacts.v
OutputConsume.v
OutputWorld.v
OutputWorldFacts.v
OutputTheorems.v
GoStd.v
Limiter.v
LoginLimiter.v
EdgeState.v
Relay.v
EdgeWorld.v
EdgeFacts.v
EdgeInv.v
RelayFacts.v
EdgeTheorems.v
RelayTheorems.v
EdgeActor.v
ActorTheorems.v
Journal.v
JournalTheorems.v
SplitTree.v
SplitLayout.v
SplitFacts.v
SplitLayoutFacts.v
SplitGroupFacts.v
SplitDragFacts.v
SplitTheorems.v
VtScrollback.v
VtScrollbackTheorems.v
VtReflow.v
VtReflowTheorems.v
VtDamage.v
VtDamageTheorems.v
VtScreen.v
VtScreenTheorems.v
HistLine.v
HistLineTheorems.v
HistCodec.v
HistCodecTheorems.v
HistFile.v
HistFileRead.v
HistFileWrite.v
HistFileTheorems.v
HistFileBounds.v
HistEngine.v
HistStore.v
HistCopy.v
HistSearch.v
HistEngineFacts.v
HistPages.v
HistPaging.v
HistCopyFacts.v
HistStoreTheorems.v
HistTimeline.v
HistSearchTheorems.v
Directory.v
DirectoryInv.v
DirectoryTheorems.v
EdgeLink.v
EdgeMirror.v
EdgeSync.v
GoText.v
RemoteGrant.v
RemoteGrantTheorems.v
EndpointContracts.v
Pairing.v
PairingFacts.v
AccessStore.v
AccessFacts.v
AccessWorld.v
AccessSteps.v
AccessTheorems.v
EndpointRegistry.v
EndpointPlanner.v
EndpointAssembler.v
EndpointTheorems.v
EndpointWire.v
