(* ===== verification/Prelude.v ===== *)
(** * AnyTTY: a verification development for the terminal core, the history, the layout and the Cloud

    AnyTTY (the Go module under [src/], also called termx) keeps terminals alive in a daemon: it reads their
    pseudo-terminals, emulates them ([vterm]), keeps their scrollback history ([core/history]), shows them in a tiled
    terminal user interface ([tui]) and reaches daemons on other machines through a Cloud of Edge servers and one
    Controller ([cloud]). This library models the parts of the Go code that hold state under rules and proves the rules.
    Paths below are relative to [src/].

    ** The parts and how they are connected

    - From the PTY to the consumers. [OutputBuffer] is the bounded queue of [core/terminal_output_buffer.go], one function
      per critical section; [OutputWorld] runs any number of buffers with their writers, consumers and closers under one
      resident budget as a step relation. [OutputBufferFacts], [OutputConsume] and [OutputWorldFacts] hold
      the invariants, [OutputTheorems] the properties: what a consumer is told is exactly what was written, each byte
      either delivered or counted as a gap; memory is bounded; the block policy loses nothing; the loops end.
    - The emulator's screen. [VtScrollback], [VtReflow], [VtDamage] and [VtScreen] model [vterm/internal/vt]: the ring of
      rows that left the screen, the cutting of wrapped lines at a new width, the recorder of what changed (with the
      arrays it shares between frames) and the screen over a render buffer. The [...Theorems] files show that the ring is
      a bounded list, that reflowing keeps the text and the place of the cursor in it, that replaying the recorded damage
      on the old screen gives the new one, and what a resize puts on the screen, cell by cell, and into the scrollback.
    - The history. [HistLine] (rows joined to lines), [HistCodec] (their encoding), [HistFile] (the block file with failing
      writes, rewrites and recovery), [HistEngine] (the assembler before any storage), [HistStore] (windows, frozen views,
      the live rows), [HistCopy] and [HistSearch] model [core/history/linehist]. [HistEngine] states what a line storage
      promises as the class [LineStorage] with its laws; [HistEngineFacts] proves that the block file is one, and
      everything above is proved against the class. The theorems: assembling and encoding lose nothing; the file reads as
      exactly the lines it took whatever fails, recovers to a prefix when cut and stays within its limit; a view is the
      rows that left the screen followed by the rows on it; paging, copying in chunks and searching a frozen view are
      exact, or say that the view is stale.
    - The layout. [SplitTree] and [SplitLayout] model the tree of panes, the rectangles it gives them, the hit regions of
      the dividers and the drag of a divider ([tui/state/shell_pane_tree.go], [tui/render], [tui/app/runtime_mouse.go]);
      [SplitTheorems] shows that the panes tile the body (one without a column or row apart, which the code lays over the
      whole body), that edits keep the panes, and that throughout a drag of a divider of three panes or more exactly the
      edges on it move, by the distance of the mouse. A divider of two panes is moved through its path, by steps.
    - The wire. [Wire] is the frame format of [proto/wire/frame.go], with its round trips.
    - The Edge. [EdgeState] and [Relay] are the state the Edge's goroutine owns ([cloud/edge/runtime]), [EdgeWorld] its
      requests, [EdgeFacts] and [EdgeInv] the invariants, [EdgeActor] the mailbox, cancellation and shutdown as a step
      relation. [Limiter] is the traffic limiter of one reservation ([cloud/edge/policy]), [Journal] the durable stages of
      a reservation ([cloud/edge/reservation/journal.go]) over a key-value store given as a class with laws.
      [EdgeTheorems], [RelayTheorems], [ActorTheorems] and [JournalTheorems] hold the properties: only attached daemons
      that are active are shown; nothing outlives a detach; counters of a reservation are exact and final when settled;
      a cancelled call has no effect.
    - The Controller. [Directory] is [cloud/controller/directory/directory.go] with every request it serves,
      [DirectoryInv] its invariant, [DirectoryTheorems] what locations and the daemon limit promise.
      [LoginLimiter] is [cloud/controller/apihttp/login_limiter.go].
    - Edge and Controller together. [EdgeLink] has both ends of the control stream ([cloud/edge/controllerlink/link.go],
      [cloud/controller/control/service.go]); [EdgeMirror] says what feeds and events do; [EdgeSync] runs
      the whole: requests to the Edge, both ends, what is on its way and everything else the directory is asked for, as a
      step relation. [directory_mirrors_edge] composes the theorems of both sides: the published snapshot is the state of
      the Edge.

    - Remote access. [RemoteGrant] has the scopes, claims and signed grants of [shared/remoteauth/grant.go],
      [EndpointContracts] the bootstrap bundle of [client/endpoint/contracts.go], [Pairing] the one-time tickets of
      [shared/remoteauth/pairing.go] and [AccessStore] the store of tickets, grants and revocations in
      [shared/remoteauth/access_store.go], with its signed file and every way a write can end. [AccessWorld] runs a daemon
      with such a store through requests, failing writes, restarts and power losses; [AccessSteps] holds
      the invariant, and [AccessTheorems] shows that a restart gives back what was in memory, that a ticket is redeemed
      once, that a revocation stays (through a power loss too, once the file with it is synced), and that a grant admits
      exactly what the ticket that was redeemed for it allowed. [GoText] is UTF-8, base64 and splitting.
    - The endpoints of a client. [EndpointRegistry] is the registry of daemons and routes with its checks and
      normalization ([client/endpoint/registry.go]), [EndpointPlanner] the plan of route attempts, what the user is shown
      as available and the edits ([planner.go], [policy.go]), [EndpointAssembler] the merge of candidates from the Cloud,
      bootstrap bundles and shares ([assembler.go]). [EndpointTheorems]: normalizing is a projection that keeps
      identities apart; a plan covers every route exactly once; what is shown as available is what can be selected; a
      merge never changes a pin, and leaves the client's policy alone unless a candidate owns it. [EndpointWire] has the
      registry as messages ([proto_config.go]), shares ([share.go]) and the candidates of bundles ([contracts.go]): what is
      written is read back, and a share gives the other client the portable routes without a reference to a secret.

    [Prelude] has the notations, tactics and lemmas that the files share, and [GoStd] the functions of Go's standard
    library that the Cloud uses.

    ** How Go is read

    Integers are [Z]; an operation that wraps is followed by [u64], [u32], [i64] and so on. A slice or string is a list;
    a slice whose sharing matters ([VtDamage]) lives in a store of arrays. A map is a [gmap]; ranging over it takes an
    order as an argument, and theorems hold for every order; where no order can show, as in the loops of the endpoint
    registry that only check or copy, it ranges over [map_to_list]. An operation on state that a mutex or a goroutine protects
    is one function from state to state; where operations interleave inside, they are steps of a relation. ([captureLive] is
    one function too, though the code reads the offsets of the gaps just after it has released its gate.) [(T, error)]
    is [result T], and an error that changes state is returned beside the new state. Clocks, the outcome of disk writes,
    the answers of peers and of the operating system are arguments.

    ** Fuel

    Only loops without a structural argument have fuel, and theorems are about what the code returns, not about what it
    would if it returned: [snapshot_chunks] takes one object per round at least, so the number of objects is enough
    ([chunks_run]); recovering a file consumes a header per round, so its length is enough; a variable-length integer has
    at most ten bytes; a binary search halves; the batches of a long read, the pages of a reader and the chunks of a copy
    advance by a row at least, and the theorems ask for more fuel than rows ([read_backwards_spec],
    [clientCopyRange_spec]); the names derived from a digest grow by four digits a round, so its length is enough. The
    waiting loop of the
    output buffer is shown to terminate by a measure ([capacity_loop_terminates]).

    ** Parameters

    Code that is not in the repository is an argument with named laws: SHA-256 and the deterministic protobuf bytes behind
    digests; the bbolt store (class [Store], laws [StoreLaws]); [golang.org/x/time/rate]; the growth of [append]; zstd, S2
    and the checksum (class [Codecs], laws [CodecLaws]); the cells, styles and the render buffer of ultraviolet (class
    [Ultraviolet]; what setting a cell does, in [UvBufferLaws]); grapheme
    clusters and widths of text; Ed25519 (class [RemoteCrypto]), JSON ([AccessJson]) and the generated messages of the
    bootstrap bundle with the check of one route ([EndpointProto]; [EndpointWire] instantiates the check). The JSON
    text that breaks ties between endpoint candidates is an argument too. Where two digests matter, the theorem asks that the
    payloads of the run differ in theirs; where random identifiers matter, that none is drawn twice. Witnesses instantiate them with concrete functions.

    ** What is not modelled

    The interpretation of escape sequences ([vterm/vterm], the handlers) and rendering to cells build on third-party
    parsers and Unicode tables. Process, PTY, file, socket and WebRTC code is calls into the operating system and
    libraries. The Controller's accounts, enrollment and commerce are SQL transactions. Of the TUI, the event loop and the
    reducers of its stores are left for later, beside the split tree; so are the YAML file of the
    registry, the preview of a share, the session ownership of the client, the multiplexing of requests over one stream, the handshake of remote authentication and the file transfer. Of the control
    stream, the handshake, certificates, Relay calls and commands are left out: they do not touch the runtime snapshot. *)

From Stdlib Require Strings.Byte.
From coqutil Require Export Byte.
From Stdlib Require Export ZArith Lia.
From stdpp Require Export base tactics gmap strings fin_maps numbers sorting list.

(** ** Results

    A Go function returning [(T, error)] is a [result T]; the error is the text
    of the Go error value (a sentinel variable is named by its text). *)
Definition goerr := string.

Inductive result (A : Type) : Type :=
| Ok (a : A)
| Err (e : goerr).
Arguments Ok {A} _.
Arguments Err {A} _.

#[export] Instance result_eq_dec {A} `{EqDecision A} : EqDecision (result A).
Proof. solve_decision. Defined.

Definition result_bind {A B} (r : result A) (k : A → result B) : result B :=
  match r with Ok a => k a | Err e => Err e end.

Definition is_ok {A} (r : result A) : bool :=
  match r with Ok _ => true | Err _ => false end.

Declare Scope go_scope.
Delimit Scope go_scope with go.
Notation "'let?' x := r 'in' k" := (result_bind r (λ x, k))
  (at level 10, x name, r at level 100, k at level 200) : go_scope.
Open Scope go_scope.

(** ** Record update

    [r <| f := v |>] is [r] with field [f] replaced. A record type opts in with an
    [Eta] instance that rebuilds it from its projections. *)
Class Eta (R : Type) := eta : R → R.
Class Setter {R E : Type} (getter : R → E) := set_field : E → R → R.
Arguments set_field {R E} getter {_} _ _.
#[export] Hint Extern 1 (@Setter ?R ?E ?g) =>
  (let inst := constr:(_ : Eta R) in
   let f := eval hnf in inst in
   exact (λ (v : E) (r : R), ltac:(
     let b := eval cbv beta in (f r) in
     match b with context C [g r] => let b' := context C [v] in exact b' end)))
  : typeclass_instances.
Notation "r <| f := v |>" := (set_field f v r)
  (at level 1, f constr at level 9, v at level 200, left associativity,
   format "r  <| f  :=  v |>") : go_scope.

(** ** Machine integers

    [int], [int64] and friends are [Z] values; the conversions below are the
    wrap-around conversions of Go. *)
Definition u8 (z : Z) : Z := z `mod` 2 ^ 8.
Definition u16 (z : Z) : Z := z `mod` 2 ^ 16.
Definition u32 (z : Z) : Z := z `mod` 2 ^ 32.
Definition u64 (z : Z) : Z := z `mod` 2 ^ 64.
Definition i32 (z : Z) : Z := (z + 2 ^ 31) `mod` 2 ^ 32 - 2 ^ 31.
Definition i64 (z : Z) : Z := (z + 2 ^ 63) `mod` 2 ^ 64 - 2 ^ 63.
Definition MaxUint64 : Z := 2 ^ 64 - 1.

Abbreviation bytes := (list Byte.byte).
#[export] Instance byte_eq_dec : EqDecision Byte.byte := Stdlib.Strings.Byte.byte_eq_dec.
Definition len {A} (l : list A) : Z := Z.of_nat (length l).

Lemma len_nonneg {A} (l : list A) : (0 ≤ len l)%Z.
Proof. unfold len. lia. Qed.

Lemma len_app {A} (l k : list A) : len (l ++ k) = (len l + len k)%Z.
Proof. unfold len. rewrite length_app. lia. Qed.

Lemma len_nil {A} : len (@nil A) = 0%Z.
Proof. done. Qed.

Lemma len_fmap {A B} (f : A → B) (l : list A) : len (f <$> l) = len l.
Proof. unfold len. by rewrite length_fmap. Qed.

Lemma len_rev {A} (l : list A) : len (rev l) = len l.
Proof. unfold len. by rewrite length_rev. Qed.

Lemma fmap_rev_list {A B} (f : A → B) (l : list A) : f <$> rev l = rev (f <$> l).
Proof. induction l as [|x l IH]; [done|]. cbn [rev]. by rewrite fmap_app, IH. Qed.

(** ** Tactics *)
Ltac inv_ok :=
  repeat match goal with
  | H : Ok _ = Ok _ |- _ => injection H as H; subst
  | H : Err _ = Ok _ |- _ => discriminate H
  | H : Ok _ = Err _ |- _ => discriminate H
  | H : result_bind _ _ = Ok _ |- _ => unfold result_bind in H
  end.

(** Splits every [if] and [match] of a hypothesis, closing the branches whose
    result contradicts it. *)
Ltac split_result H :=
  repeat (first [ discriminate H
                | match type of H with
                  | context [match ?x with _ => _ end] => destruct x eqn:?
                  end ]).

(** ** Integer lemmas *)
Lemma i32_u32 z : (- 2 ^ 31 ≤ z < 2 ^ 31)%Z → i32 (u32 z) = z.
Proof.
  intros Hz. unfold i32, u32.
  rewrite Z.add_mod_idemp_l by lia. rewrite Z.mod_small by lia. lia.
Qed.

Lemma u16_small z : (0 ≤ z < 2 ^ 16)%Z → u16 z = z.
Proof. apply Z.mod_small. Qed.
Lemma u32_small z : (0 ≤ z < 2 ^ 32)%Z → u32 z = z.
Proof. apply Z.mod_small. Qed.
Lemma u64_small z : (0 ≤ z < 2 ^ 64)%Z → u64 z = z.
Proof. apply Z.mod_small. Qed.

Create HintDb go discriminated.
#[export] Hint Resolve u16_small u32_small u64_small i32_u32 : go.

Lemma i64_small z : (- 2 ^ 63 ≤ z < 2 ^ 63)%Z → i64 z = z.
Proof. intros H. unfold i64. rewrite Z.mod_small; lia. Qed.
Lemma u32_u32 z : u32 (u32 z) = u32 z.
Proof. apply Z.mod_mod. lia. Qed.
Lemma i32_range z : (- 2 ^ 31 ≤ i32 z < 2 ^ 31)%Z.
Proof. unfold i32. pose proof (Z.mod_pos_bound (z + 2 ^ 31) (2 ^ 32)). lia. Qed.
(** Go's [if v < 0 { v = 0 }]. *)
Lemma clamp_max v : (if v <? 0 then 0 else v)%Z = Z.max 0 v.
Proof. destruct (Z.ltb_spec v 0); lia. Qed.
Lemma leb_negb_ltb a b : (a <=? b)%Z = negb (b <? a)%Z.
Proof. by rewrite Z.leb_antisym. Qed.

(** ** List lemmas *)
Lemma list_filter_all {A} (P : A → Prop) `{∀ x, Decision (P x)} (l : list A) :
  (∀ x, x ∈ l → P x) → filter P l = l.
Proof.
  induction l as [|x l IH]; intros Hl; [done|].
  rewrite filter_cons_True by (apply Hl; set_solver). f_equal. apply IH. set_solver.
Qed.

Lemma list_filter_none {A} (P : A → Prop) `{∀ x, Decision (P x)} (l : list A) :
  (∀ x, x ∈ l → ¬ P x) → filter P l = [].
Proof.
  induction l as [|x l IH]; intros Hl; [done|].
  rewrite filter_cons_False by (apply Hl; set_solver). apply IH. set_solver.
Qed.

(** ** Sums over finite maps *)
Section msum.
Context {K A : Type} `{Countable K}.
Implicit Types (f : A → Z) (m : gmap K A).

Definition msum f m : Z := map_fold (λ _ x acc, f x + acc)%Z 0%Z m.

Lemma msum_empty f : msum f ∅ = 0%Z.
Proof. apply map_fold_empty. Qed.

Lemma msum_insert_fresh f m i x : m !! i = None → msum f (<[i := x]> m) = (f x + msum f m)%Z.
Proof.
  intros Hi. unfold msum. apply (map_fold_insert_L (λ _ x acc, f x + acc)%Z); [|done].
  intros. lia.
Qed.

Lemma msum_delete f m i x : m !! i = Some x → msum f m = (f x + msum f (delete i m))%Z.
Proof.
  intros Hi. rewrite <- (insert_delete_id m i x) at 1 by done.
  by rewrite msum_insert_fresh by apply lookup_delete_eq.
Qed.

Lemma msum_insert f m i x y :
  m !! i = Some x → msum f (<[i := y]> m) = (msum f m - f x + f y)%Z.
Proof.
  intros Hi. rewrite (msum_delete f m i x Hi), <- insert_delete_eq.
  rewrite msum_insert_fresh by apply lookup_delete_eq. lia.
Qed.

Lemma msum_nonneg f m : (∀ i x, m !! i = Some x → 0 ≤ f x)%Z → (0 ≤ msum f m)%Z.
Proof.
  induction m as [|i x m Hi IH] using map_ind; intros Hf; [by rewrite msum_empty|].
  rewrite msum_insert_fresh by done.
  assert (0 ≤ f x)%Z by (apply (Hf i); by rewrite lookup_insert_eq).
  assert (0 ≤ msum f m)%Z; [|lia]. apply IH. intros j y Hj. apply (Hf j).
  by rewrite lookup_insert_ne by congruence.
Qed.

Lemma msum_elem_le f m i x :
  (∀ i x, m !! i = Some x → 0 ≤ f x)%Z → m !! i = Some x → (f x ≤ msum f m)%Z.
Proof.
  intros Hf Hi. rewrite (msum_delete f m i x Hi).
  assert (0 ≤ msum f (delete i m))%Z; [|lia]. apply msum_nonneg. intros j y Hj.
  apply lookup_delete_Some in Hj as [_ Hj]. eauto.
Qed.

Lemma msum_mono f g m :
  (∀ i x, m !! i = Some x → f x ≤ g x)%Z → (msum f m ≤ msum g m)%Z.
Proof.
  induction m as [|i x m Hi IH] using map_ind; intros Hf; [by rewrite !msum_empty|].
  rewrite !msum_insert_fresh by done.
  assert (f x ≤ g x)%Z by (apply (Hf i); by rewrite lookup_insert_eq).
  assert (msum f m ≤ msum g m)%Z; [|lia]. apply IH. intros j y Hj. apply (Hf j).
  by rewrite lookup_insert_ne by congruence.
Qed.

(** A sum of zero terms is zero. *)
Lemma msum_zero f m : (∀ i x, m !! i = Some x → f x = 0%Z) → msum f m = 0%Z.
Proof.
  induction m as [|i x m Hi IH] using map_ind; intros Hf; [by rewrite msum_empty|].
  rewrite msum_insert_fresh, (Hf i x) by (try rewrite lookup_insert_eq; done).
  rewrite IH; [done|]. intros j y Hj. apply (Hf j). by rewrite lookup_insert_ne by congruence.
Qed.
End msum.

(** Pointwise related lists. *)
Lemma Forall2_impl_in {A B} (P Q : A → B → Prop) l k :
  Forall2 P l k → (∀ x y, x ∈ l → P x y → Q x y) → Forall2 Q l k.
Proof.
  induction 1 as [|x y l k Hxy _ IH]; intros HQ; constructor; [apply HQ; [left|done]|].
  apply IH. intros. apply HQ; [by right|done].
Qed.

Lemma Forall2_in_l {A B} (P : A → B → Prop) l k x :
  Forall2 P l k → x ∈ l → ∃ y, y ∈ k ∧ P x y.
Proof.
  induction 1 as [|a b l k Hab _ IH]; intros Hx; [by apply not_elem_of_nil in Hx|].
  apply elem_of_cons in Hx as [->|Hx]; [exists b; split; [left|done]|].
  destruct (IH Hx) as (y & Hy & Hp). exists y. split; [by right|done].
Qed.
