(* ===== verification/Wire.v ===== *)
(** * Wire frames

    The framing of [proto/wire/frame.go]: a seven byte header (channel, type,
    big-endian payload length) followed by the payload, the stream reader and
    writer built on it, and the fixed-layout payloads of the control frames. *)
From coqutil Require Import Word.LittleEndianList.
From S2P Require Import Prelude.
Local Open Scope Z_scope.

(** ** encoding/binary

    [binary.BigEndian.PutUintN] and [binary.BigEndian.UintN] of the Go standard
    library on a slice of exactly [n] bytes. *)
Definition be_put (n : nat) (v : Z) : bytes := rev (le_split n v).
Definition be_get (b : bytes) : Z := le_combine (rev b).

(** ** Constants *)
Definition MaxFrameSize : Z := Z.shiftl 4 20.
Definition MaxEncodedFrameSize : Z := MaxFrameSize + 7.
Definition ErrFrameTooLarge : goerr := "wire: frame too large".
Definition ErrShortPayload : goerr := "wire: short payload".
Definition ErrMalformedLength : goerr := "wire: malformed frame length".
(** [io.EOF] and [io.ErrUnexpectedEOF] of the Go standard library. *)
Definition EOF : goerr := "EOF".
Definition ErrUnexpectedEOF : goerr := "unexpected EOF".

Arguments be_put : simpl never.
Arguments be_get : simpl never.

(** ** Frames *)
Definition frame_header (channel typ : Z) (n : Z) : bytes :=
  be_put 2 channel ++ [byte.of_Z typ] ++ be_put 4 (u32 n).

Arguments frame_header : simpl never.

Definition EncodeFrame (channel typ : Z) (payload : bytes) : result bytes :=
  if len payload >? MaxFrameSize then Err ErrFrameTooLarge
  else Ok (frame_header channel typ (len payload) ++ payload).

Definition DecodeFrame (frame : bytes) : result (Z * Z * bytes) :=
  if len frame <? 7 then Err ErrShortPayload
  else
    let channel := be_get (take 2 frame) in
    let typ := be_get (take 1 (drop 2 frame)) in
    let length := be_get (take 4 (drop 3 frame)) in
    if length >? MaxFrameSize then Err ErrFrameTooLarge
    else if negb (length =? len (drop 7 frame)) then Err ErrMalformedLength
    else Ok (channel, typ, drop 7 frame).

(** [io.ReadFull]: the reader is the bytes it still has to deliver. It returns
    the bytes read and the rest, or [io.EOF] when nothing could be read and
    [io.ErrUnexpectedEOF] when the stream ends early; a failing read has
    consumed the stream. *)
Definition ReadFull (r : bytes) (n : nat) : bytes * result bytes :=
  if Nat.leb n (length r) then (drop n r, Ok (take n r))
  else ([], Err (if Nat.eqb (length r) 0 then EOF else ErrUnexpectedEOF)).

(** [Decoder.ReadFrame]: the reader's rest and the frame or the error. *)
Definition ReadFrame (r : bytes) : bytes * result (Z * Z * bytes) :=
  match ReadFull r 7 with
  | (r1, Err e) => (r1, Err e)
  | (r1, Ok header) =>
      let channel := be_get (take 2 header) in
      let typ := be_get (take 1 (drop 2 header)) in
      let length := be_get (drop 3 header) in
      if length >? MaxFrameSize then (r1, Err ErrFrameTooLarge)
      else match ReadFull r1 (Z.to_nat length) with
           | (r2, Err e) => (r2, Err e)
           | (r2, Ok payload) => (r2, Ok (channel, typ, payload))
           end
  end.

(** [Encoder.WriteFrame] over an arbitrary [io.Writer]: [write] is the writer's
    [Write] method, on the writer's state. *)
Section Writer.
Context {W : Type} (write : W → bytes → W * option goerr).

Definition WriteFrame (w : W) (channel typ : Z) (payload : bytes) : W * option goerr :=
  match EncodeFrame channel typ payload with
  | Err e => (w, Some e)
  | Ok frame => write w frame
  end.

End Writer.

(** Reads frames until the first error, at most [fuel] of them. *)
Fixpoint read_frames (fuel : nat) (r : bytes) : list (Z * Z * bytes) * option goerr :=
  match fuel with
  | O => ([], None)
  | S fuel =>
      match ReadFrame r with
      | (_, Err e) => ([], Some e)
      | (r', Ok f) => let '(fs, e) := read_frames fuel r' in (f :: fs, e)
      end
  end.

(** ** Payloads *)
Definition EncodeResizePayload (cols rows : Z) : bytes := be_put 2 cols ++ be_put 2 rows.

Definition DecodeResizePayload (payload : bytes) : result (Z * Z) :=
  if negb (len payload =? 4) then Err ErrShortPayload
  else Ok (be_get (take 2 payload), be_get (drop 2 payload)).

Definition EncodeStreamReadyPayload (screenSequence : Z) : bytes := be_put 8 screenSequence.

Definition DecodeStreamReadyPayload (payload : bytes) : result Z :=
  if len payload =? 0 then Ok 0
  else if negb (len payload =? 8) then Err ErrShortPayload
  else Ok (be_get payload).

Definition EncodeSyncLostPayload (dropped : Z) : bytes := be_put 4 (u32 dropped).

Definition DecodeSyncLostPayload (payload : bytes) : result Z :=
  if negb (len payload =? 4) then Err ErrShortPayload
  else Ok (be_get payload).

Definition EncodeClosedPayload (code : Z) : bytes := be_put 4 (u32 (i32 code)).

Definition DecodeClosedPayload (payload : bytes) : result Z :=
  if negb (len payload =? 4) then Err ErrShortPayload
  else Ok (i32 (be_get payload)).

Definition EncodeHistoryRequestPayload (beforeOffset limit : Z) : bytes :=
  let beforeOffset := if beforeOffset <? 0 then 0 else beforeOffset in
  let limit := if limit <? 0 then 0 else limit in
  be_put 4 (u32 beforeOffset) ++ be_put 4 (u32 limit).

Definition DecodeHistoryRequestPayload (payload : bytes) : result (Z * Z) :=
  if negb (len payload =? 8) && negb (len payload =? 9) then Err ErrShortPayload
  else Ok (be_get (take 4 payload), be_get (take 4 (drop 4 payload))).

Definition EncodeHistoryReplayPayload (rows : Z) (hasMore : bool) (replay : bytes) : result bytes :=
  let rows := if rows <? 0 then 0 else rows in
  Ok (be_put 4 (u32 rows) ++ [byte.of_Z (if hasMore then 1 else 0)] ++ replay).

Definition DecodeHistoryReplayPayload (payload : bytes) : result (Z * bool * bytes) :=
  if len payload <? 5 then Err ErrShortPayload
  else Ok (be_get (take 4 payload),
           be_get (take 1 (drop 4 payload)) =? 1,
           drop 5 payload).

(** ** Byte order lemmas *)
Lemma be_put_length n v : length (be_put n v) = n.
Proof. unfold be_put. by rewrite length_rev, length_le_split. Qed.

Lemma be_get_put n v : be_get (be_put n v) = v mod 2 ^ (Z.of_nat n * 8).
Proof. unfold be_get, be_put. by rewrite rev_involutive, le_combine_split. Qed.

Lemma be_put_get b n : length b = n → be_put n (be_get b) = b.
Proof.
  intros <-. unfold be_get, be_put.
  rewrite <- (length_rev b), split_le_combine. apply rev_involutive.
Qed.

Lemma be_get_bound b : 0 ≤ be_get b < 2 ^ (8 * Z.of_nat (length b)).
Proof. unfold be_get. rewrite <- (length_rev b). apply le_combine_bound. Qed.

Lemma be_put_1 v : [byte.of_Z v] = be_put 1 v.
Proof. reflexivity. Qed.

Lemma be_get_put16 v : be_get (be_put 2 v) = u16 v.
Proof. apply be_get_put. Qed.
Lemma be_get_put32 v : be_get (be_put 4 v) = u32 v.
Proof. apply be_get_put. Qed.
Lemma be_get_put64 v : be_get (be_put 8 v) = u64 v.
Proof. apply be_get_put. Qed.

Lemma be_get_put_small n v : 0 ≤ v < 2 ^ (Z.of_nat n * 8) → be_get (be_put n v) = v.
Proof. intros. rewrite be_get_put. by apply Z.mod_small. Qed.

Lemma frame_header_length c t n : length (frame_header c t n) = 7%nat.
Proof. unfold frame_header. by rewrite !length_app, !be_put_length. Qed.

Lemma take_be_put n v r : take n (be_put n v ++ r) = be_put n v.
Proof. apply take_app_length'. by rewrite be_put_length. Qed.

Lemma drop_be_put n v r : drop n (be_put n v ++ r) = r.
Proof. apply drop_app_length'. by rewrite be_put_length. Qed.

Lemma drop_add {A} n m (l : list A) : drop (n + m) l = drop m (drop n l).
Proof. by rewrite drop_drop. Qed.

(** The three fields of a header, read back from any buffer that starts with it. *)
Lemma header_fields c t n rest :
  take 2 (frame_header c t n ++ rest) = be_put 2 c ∧
  take 1 (drop 2 (frame_header c t n ++ rest)) = be_put 1 t ∧
  take 4 (drop 3 (frame_header c t n ++ rest)) = be_put 4 (u32 n) ∧
  drop 7 (frame_header c t n ++ rest) = rest.
Proof.
  unfold frame_header. rewrite be_put_1, <- !app_assoc.
  change 7%nat with (2 + (1 + 4))%nat. change 3%nat with (2 + 1)%nat.
  by rewrite !drop_add, !drop_be_put, !take_be_put.
Qed.

Lemma MaxFrameSize_lt : MaxFrameSize < 2 ^ 32.
Proof. reflexivity. Qed.

(** The header of a buffer of at least seven bytes, reassembled from its fields. *)
Lemma header_split f :
  (7 <= length f)%nat →
  f = be_put 2 (be_get (take 2 f)) ++ be_put 1 (be_get (take 1 (drop 2 f))) ++
      be_put 4 (be_get (take 4 (drop 3 f))) ++ drop 7 f.
Proof.
  intros Hf.
  rewrite !be_put_get by (rewrite length_take, ?length_drop; lia).
  replace (drop 7 f) with (drop 4 (drop 3 f)) by (rewrite drop_drop; done).
  rewrite take_drop.
  replace (drop 3 f) with (drop 1 (drop 2 f)) by (rewrite drop_drop; done).
  by rewrite take_drop, take_drop.
Qed.

Lemma DecodeFrame_encode c t p :
  0 ≤ c < 2 ^ 16 → 0 ≤ t < 2 ^ 8 → len p ≤ MaxFrameSize →
  DecodeFrame (frame_header c t (len p) ++ p) = Ok (c, t, p).
Proof.
  intros Hc Ht Hp. pose proof MaxFrameSize_lt as Hm.
  assert (0 ≤ len p) by (unfold len; lia).
  unfold DecodeFrame.
  destruct (header_fields c t (len p) p) as (-> & -> & -> & ->).
  rewrite !be_get_put_small by (rewrite ?u32_small by lia; simpl; lia).
  rewrite u32_small by lia.
  unfold len in *. rewrite length_app, frame_header_length.
  destruct (Z.ltb_spec (Z.of_nat (7 + length p)) 7); [lia|].
  destruct (Z.gtb_spec (Z.of_nat (length p)) MaxFrameSize); [lia|].
  by rewrite Z.eqb_refl.
Qed.

Lemma DecodeFrame_ok f c t p :
  DecodeFrame f = Ok (c, t, p) →
  f = frame_header c t (len p) ++ p ∧ 0 ≤ c < 2 ^ 16 ∧ 0 ≤ t < 2 ^ 8 ∧ len p ≤ MaxFrameSize.
Proof.
  unfold DecodeFrame, len. intros H.
  destruct (Z.ltb_spec (Z.of_nat (length f)) 7) as [|Hf]; [done|].
  destruct (Z.gtb_spec (be_get (take 4 (drop 3 f))) MaxFrameSize) as [|Hm]; [done|].
  destruct (Z.eqb_spec (be_get (take 4 (drop 3 f))) (Z.of_nat (length (drop 7 f)))) as [Hl|]; [|done].
  simpl in H. injection H as <- <- <-.
  pose proof (be_get_bound (take 2 f)) as B1.
  pose proof (be_get_bound (take 1 (drop 2 f))) as B2.
  pose proof (be_get_bound (take 4 (drop 3 f))) as B3.
  rewrite length_take_le in B1, B2, B3 by (rewrite ?length_drop; lia).
  repeat split; try lia; unfold len in *.
  unfold frame_header. rewrite be_put_1, <- !app_assoc, <- Hl, u32_small by lia.
  apply header_split. lia.
Qed.

Lemma ReadFull_app h r n : length h = n → ReadFull (h ++ r) n = (r, Ok h).
Proof.
  intros <-. unfold ReadFull. rewrite length_app.
  rewrite (proj2 (Nat.leb_le _ _)) by lia.
  by rewrite drop_app_length, take_app_length.
Qed.

Lemma EncodeFrame_ok c t p f :
  EncodeFrame c t p = Ok f ↔ f = frame_header c t (len p) ++ p ∧ len p ≤ MaxFrameSize.
Proof.
  unfold EncodeFrame. destruct (Z.gtb_spec (len p) MaxFrameSize).
  - split; [done | lia].
  - split; [intros [= <-]; auto | intros [-> _]; done].
Qed.

Definition frame_in_range (f : Z * Z * bytes) : Prop :=
  let '(c, t, p) := f in 0 ≤ c < 2 ^ 16 ∧ 0 ≤ t < 2 ^ 8 ∧ len p ≤ MaxFrameSize.

(** The header of a frame in range, as [ReadFrame] parses it. *)
Lemma header_values c t p :
  frame_in_range (c, t, p) →
  be_get (take 2 (frame_header c t (len p))) = c ∧
  be_get (take 1 (drop 2 (frame_header c t (len p)))) = t ∧
  be_get (drop 3 (frame_header c t (len p))) = len p ∧
  (len p >? MaxFrameSize) = false.
Proof.
  intros (Hc & Ht & Hp). pose proof MaxFrameSize_lt.
  assert (0 ≤ len p) by (unfold len; lia).
  destruct (header_fields c t (len p) []) as (E1 & E2 & E3 & _).
  rewrite app_nil_r in E1, E2, E3.
  rewrite take_ge in E3 by (rewrite length_drop, frame_header_length; lia).
  rewrite E1, E2, E3.
  rewrite !be_get_put_small by (rewrite ?u32_small by lia; simpl; lia).
  rewrite u32_small by lia.
  destruct (Z.gtb_spec (len p) MaxFrameSize); [lia|done].
Qed.

Lemma ReadFrame_encode c t p r :
  frame_in_range (c, t, p) →
  ReadFrame (frame_header c t (len p) ++ p ++ r) = (r, Ok (c, t, p)).
Proof.
  intros Hr. unfold ReadFrame. rewrite ReadFull_app by apply frame_header_length.
  destruct (header_values c t p Hr) as (-> & -> & -> & ->).
  by rewrite ReadFull_app by (unfold len; lia).
Qed.

Definition encode_stream (fs : list (Z * Z * bytes)) : bytes :=
  concat (map (λ '(c, t, p), frame_header c t (len p) ++ p) fs).

(** A prefix of a frame that is not the whole frame reads as an error. *)
Lemma ReadFrame_truncated c t p k :
  frame_in_range (c, t, p) →
  (k < 7 + length p)%nat →
  ReadFrame (take k (frame_header c t (len p) ++ p)) =
    ([], Err (if Nat.eqb k 0 || Nat.eqb k 7 then EOF else ErrUnexpectedEOF)).
Proof.
  intros Hr Hk. unfold ReadFrame.
  destruct (decide (k < 7)%nat) as [Hlt|Hge].
  - unfold ReadFull.
    rewrite length_take, length_app, frame_header_length.
    rewrite (proj2 (Nat.leb_gt _ _)) by lia.
    replace (Nat.eqb k 7) with false by (symmetry; apply Nat.eqb_neq; lia).
    rewrite orb_false_r, Nat.min_l by lia. done.
  - rewrite take_app_ge by (rewrite frame_header_length; lia).
    rewrite frame_header_length, ReadFull_app by apply frame_header_length.
    destruct (header_values c t p Hr) as (-> & -> & -> & ->).
    unfold ReadFull, len. rewrite Nat2Z.id, length_take.
    rewrite (proj2 (Nat.leb_gt _ _)) by lia.
    rewrite Nat.min_l by lia.
    replace (Nat.eqb k 0) with false by (symmetry; apply Nat.eqb_neq; lia).
    destruct (Nat.eqb_spec k 7), (Nat.eqb_spec (k - 7) 0); try lia; done.
Qed.

(** A sequence of [WriteFrame] calls on one writer, up to the first error. *)
Fixpoint write_frames {W} (write : W → bytes → W * option goerr) (w : W)
    (fs : list (Z * Z * bytes)) : W * option goerr :=
  match fs with
  | [] => (w, None)
  | (c, t, p) :: fs =>
      match WriteFrame write w c t p with
      | (w', None) => write_frames write w' fs
      | (w', Some e) => (w', Some e)
      end
  end.

(** A writer that never fails: it collects what is written. *)
Definition append_writer (w b : bytes) : bytes * option goerr := (w ++ b, None).

Lemma write_frames_append fs w :
  Forall frame_in_range fs →
  write_frames append_writer w fs = (w ++ encode_stream fs, None).
Proof.
  unfold encode_stream. revert w. induction fs as [|[[c t] p] fs IH]; intros w Hf;
    cbn [write_frames map concat].
  { by rewrite app_nil_r. }
  apply Forall_cons_1 in Hf as [(Hc & Ht & Hp) Hf].
  unfold WriteFrame.
  rewrite (proj2 (EncodeFrame_ok c t p _) (conj eq_refl Hp)).
  unfold append_writer at 1. by rewrite IH, <- !app_assoc.
Qed.

Lemma read_frames_stream fs r e :
  Forall frame_in_range fs →
  ReadFrame r = ([], Err e) →
  read_frames (S (length fs)) (encode_stream fs ++ r) = (fs, Some e).
Proof.
  unfold encode_stream. intros Hf Hr. induction fs as [|[[c t] p] fs IH].
  { cbn [length read_frames map concat app]. by rewrite Hr. }
  apply Forall_cons_1 in Hf as [Hp Hf]. specialize (IH Hf).
  cbn [length read_frames map concat].
  rewrite <- !app_assoc, (ReadFrame_encode c t p _ Hp).
  cbn [length read_frames] in IH. by rewrite IH.
Qed.

(** ** Properties *)

(** [DecodeFrame] and [EncodeFrame] are inverse bijections: a buffer decodes
    to a frame exactly when that frame (with a 16-bit channel and an 8-bit type)
    encodes to that buffer, so no two buffers decode alike, nothing is accepted
    that the encoder cannot produce, and payloads up to [MaxFrameSize] survive. *)
Theorem decode_frame_iff_encode f c t p :
  DecodeFrame f = Ok (c, t, p) ↔
  EncodeFrame c t p = Ok f ∧ 0 ≤ c < 2 ^ 16 ∧ 0 ≤ t < 2 ^ 8.
Proof.
  rewrite EncodeFrame_ok. split.
  - intros H%DecodeFrame_ok. tauto.
  - intros ((-> & Hp) & Hc & Ht). by apply DecodeFrame_encode.
Qed.

(** C36: a stream of frames written by [WriteFrame] is read back by [ReadFrame]
    frame by frame, whatever the frame boundaries; if the stream is cut inside
    the following frame, every complete frame is still delivered and the reader
    then reports an error. The error is [io.EOF] when the cut is at a frame
    boundary, but also when it falls right after a header. *)
Theorem stream_roundtrip fs c t p k :
  Forall frame_in_range (fs ++ [(c, t, p)]) →
  (k < 7 + length p)%nat →
  write_frames append_writer [] fs = (encode_stream fs, None) ∧
  read_frames (S (length fs)) (encode_stream fs ++ take k (frame_header c t (len p) ++ p)) =
    (fs, Some (if Nat.eqb k 0 || Nat.eqb k 7 then EOF else ErrUnexpectedEOF)).
Proof.
  intros [Hf Hl]%Forall_app Hk. apply Forall_cons_1 in Hl as [Hl _]. split.
  - by apply write_frames_append.
  - apply read_frames_stream; [done|]. by apply ReadFrame_truncated.
Qed.

Lemma stream_roundtrip_witness :
  read_frames 3 (encode_stream [(1, 2, [Byte.x07]); (3, 20, [])] ++
                 take 8 (frame_header 4 5 2 ++ [Byte.x01; Byte.x02])) =
    ([(1, 2, [Byte.x07]); (3, 20, [])], Some ErrUnexpectedEOF).
Proof.
  apply (stream_roundtrip [(1, 2, [Byte.x07]); (3, 20, [])] 4 5 [Byte.x01; Byte.x02] 8).
  - repeat constructor; vm_compute; discriminate.
  - vm_compute. repeat constructor.
Defined.

(** Every fixed-layout payload decodes to the value that was encoded, reduced
    to the width it has on the wire: resize dimensions to 16 bits, the screen
    sequence to 64, the dropped count to 32 unsigned bits, the exit code to 32
    signed bits, history offsets, limits and row counts to 32 bits after negative
    values are replaced by zero; the replay bytes are unchanged. *)
Theorem payload_roundtrip cols rows seq dropped code off lim nrows more replay :
  DecodeResizePayload (EncodeResizePayload cols rows) = Ok (u16 cols, u16 rows) ∧
  DecodeStreamReadyPayload (EncodeStreamReadyPayload seq) = Ok (u64 seq) ∧
  DecodeSyncLostPayload (EncodeSyncLostPayload dropped) = Ok (u32 dropped) ∧
  DecodeClosedPayload (EncodeClosedPayload code) = Ok (i32 code) ∧
  DecodeHistoryRequestPayload (EncodeHistoryRequestPayload off lim) =
    Ok (u32 (Z.max 0 off), u32 (Z.max 0 lim)) ∧
  (let? b := EncodeHistoryReplayPayload nrows more replay in DecodeHistoryReplayPayload b) =
    Ok (u32 (Z.max 0 nrows), more, replay).
Proof.
  repeat split.
  - unfold DecodeResizePayload, EncodeResizePayload, len.
    by rewrite length_app, !be_put_length, take_be_put, drop_be_put, !be_get_put16.
  - unfold DecodeStreamReadyPayload, EncodeStreamReadyPayload, len.
    by rewrite be_put_length, be_get_put64.
  - unfold DecodeSyncLostPayload, EncodeSyncLostPayload, len.
    by rewrite be_put_length, be_get_put32, u32_u32.
  - unfold DecodeClosedPayload, EncodeClosedPayload, len.
    by rewrite be_put_length, be_get_put32, u32_u32, i32_u32 by apply i32_range.
  - unfold DecodeHistoryRequestPayload, EncodeHistoryRequestPayload, len.
    rewrite length_app, !be_put_length, take_be_put, drop_be_put, !clamp_max.
    rewrite (take_ge (be_put 4 _)) by (rewrite be_put_length; lia).
    by rewrite !be_get_put32, !u32_u32.
  - cbn [EncodeHistoryReplayPayload result_bind].
    unfold DecodeHistoryReplayPayload, len. rewrite !length_app, be_put_length.
    destruct (Z.ltb_spec (Z.of_nat (4 + (length [byte.of_Z (if more then 1 else 0)] +
      length replay))) 5). { cbn [length] in *; lia. }
    rewrite take_be_put, be_get_put32, u32_u32, clamp_max, drop_be_put.
    change 5%nat with (4 + 1)%nat. rewrite drop_add, drop_be_put. destruct more; reflexivity.
Qed.

(** The decoders accept exactly the payload lengths their layout has, whatever
    the bytes, and answer [ErrShortPayload] on every other length. *)
Theorem payload_length_errors b :
  (is_ok (DecodeResizePayload b) = (len b =? 4)) ∧
  (is_ok (DecodeStreamReadyPayload b) = (len b =? 0) || (len b =? 8)) ∧
  (is_ok (DecodeSyncLostPayload b) = (len b =? 4)) ∧
  (is_ok (DecodeClosedPayload b) = (len b =? 4)) ∧
  (is_ok (DecodeHistoryRequestPayload b) = (len b =? 8) || (len b =? 9)) ∧
  (is_ok (DecodeHistoryReplayPayload b) = (5 <=? len b)) ∧
  (∀ e, DecodeResizePayload b = Err e ∨ DecodeStreamReadyPayload b = Err e ∨
        DecodeSyncLostPayload b = Err e ∨ DecodeClosedPayload b = Err e ∨
        DecodeHistoryRequestPayload b = Err e ∨ DecodeHistoryReplayPayload b = Err e →
        e = ErrShortPayload).
Proof.
  unfold DecodeResizePayload, DecodeStreamReadyPayload, DecodeSyncLostPayload,
    DecodeClosedPayload, DecodeHistoryRequestPayload, DecodeHistoryReplayPayload.
  rewrite leb_negb_ltb.
  destruct (len b =? 4), (len b =? 0), (len b =? 8), (len b =? 9), (len b <? 5);
    simpl; repeat split; auto; intros e H; decompose [or] H; congruence.
Qed.
