(* ===== verification/OutputBuffer.v ===== *)
(** * The terminal output buffer

    [core/terminal_output_buffer.go]: the bounded queue between a terminal's PTY
    and its two consumers (the live screen and the history writer). Every critical
    section of [buffer.mu] is one function on the buffer's state; the interleaving
    of the goroutines that run them is in [OutputWorld].

    The linked list is the list of its nodes, in order; a node pointer is the
    node's [seq], which is unique. [uint64] counters and sequence numbers are
    unbounded here: they start at zero and each call advances them by at most one
    chunk. The instrumentation counters [localWaiters] and [flushWaiters] are left
    out, a [sync.Cond] wait is a step that changes nothing. *)
From S2P Require Import Prelude.
Local Open Scope Z_scope.

(** ** Data *)
Definition terminalOutputChunkBytes : Z := Z.shiftl 16 10.

Inductive terminalOutputConsumer := ConsumerLive | ConsumerHistory.

#[export] Instance consumer_eq_dec : EqDecision terminalOutputConsumer.
Proof. solve_decision. Defined.

(** The loop [for consumer := 0; consumer < terminalOutputConsumerCount; consumer++]. *)
Definition all_consumers : list terminalOutputConsumer := [ConsumerLive; ConsumerHistory].

Definition consumer_index (c : terminalOutputConsumer) : Z :=
  match c with ConsumerLive => 0 | ConsumerHistory => 1 end.
Definition bit (c : terminalOutputConsumer) : Z := u8 (Z.shiftl 1 (consumer_index c)).
Definition consumer_String (c : terminalOutputConsumer) : string :=
  match c with ConsumerHistory => "history" | ConsumerLive => "live" end.

(** [mask & consumer.bit() != 0] and [mask &^ consumer.bit()]. *)
Definition has_bit (c : terminalOutputConsumer) (mask : Z) : bool :=
  negb (Z.land mask (bit c) =? 0).
Definition clear_bit (c : terminalOutputConsumer) (mask : Z) : Z := Z.ldiff mask (bit c).

Record terminalOutputGap := mkGap {
  gap_Consumer : terminalOutputConsumer;
  gap_Epoch : Z;
  gap_DroppedBytes : Z;
  gap_throughSeq : Z }.
#[export] Instance gap_eq_dec : EqDecision terminalOutputGap.
Proof. solve_decision. Defined.

Record terminalOutputNode := mkNode {
  payload : bytes;
  seq : Z;
  pending : Z }.

Record TerminalOutputError := mkOutputError {
  err_Consumer : string;
  err_Epoch : Z;
  err_DroppedBytes : Z;
  err_Cause : goerr }.

Record terminalOutputConsumerState := mkConsumer {
  active : bool;
  started : bool;
  done : bool;                      (* the [done] channel is closed *)
  next : option Z;
  inFlight : option Z;
  inFlightLast : option Z;
  gapInFlight : option terminalOutputGap;
  completedSeq : Z;
  pendingGapBytes : Z;
  pendingGapSeq : Z;
  epoch : Z;
  droppedBytes : Z;
  gapCount : Z;
  unavailable : option TerminalOutputError;
  failurePending : bool }.
#[export] Instance eta_consumer : Eta terminalOutputConsumerState := λ s,
  mkConsumer s.(active) s.(started) s.(done) s.(next) s.(inFlight) s.(inFlightLast)
    s.(gapInFlight) s.(completedSeq) s.(pendingGapBytes) s.(pendingGapSeq) s.(epoch)
    s.(droppedBytes) s.(gapCount) s.(unavailable) s.(failurePending).

Definition new_consumer (act : bool) : terminalOutputConsumerState :=
  mkConsumer act false false None None None None 0 0 0 0 0 0 None false.

Record terminalOutputBatch := mkBatch {
  batch_first : Z;
  batch_last : Z;
  batch_payload : bytes }.

(** ** Configuration ([core/types.go]) *)
Definition DefaultTerminalOutputBufferCapacityBytes : Z := Z.shiftl 32 20.
Definition MinTerminalOutputBufferCapacityBytes : Z := Z.shiftl 64 10.
Definition MaxTerminalOutputBufferCapacityBytes : Z := Z.shiftl 256 20.
Definition DefaultTerminalOutputResidentBudgetBytes : Z := Z.shiftl 512 20.
Definition MinTerminalOutputResidentBudgetBytes : Z := Z.shiftl 64 10.
Definition MaxTerminalOutputResidentBudgetBytes : Z := Z.shiftl 2 30.

Definition TerminalOutputOverflowDrop : string := "drop".
Definition TerminalOutputOverflowBlock : string := "block".

Record TerminalOutputBufferConfig := mkConfig {
  CapacityBytes : Z;
  Overflow : string }.
#[export] Instance eta_config : Eta TerminalOutputBufferConfig := λ c,
  mkConfig c.(CapacityBytes) c.(Overflow).

Definition DefaultTerminalOutputBufferConfig : TerminalOutputBufferConfig :=
  mkConfig DefaultTerminalOutputBufferCapacityBytes TerminalOutputOverflowBlock.

(** [Validate]: [None] is the nil error. *)
Definition Validate (cfg : TerminalOutputBufferConfig) : option goerr :=
  if (cfg.(CapacityBytes) <? MinTerminalOutputBufferCapacityBytes)
     || (cfg.(CapacityBytes) >? MaxTerminalOutputBufferCapacityBytes)
  then Some "terminal output buffer capacity must be between 65536 and 268435456 bytes"%string
  else if negb (String.eqb cfg.(Overflow) TerminalOutputOverflowDrop)
          && negb (String.eqb cfg.(Overflow) TerminalOutputOverflowBlock)
  then Some ("terminal output buffer overflow must be drop or block, got " +:+ cfg.(Overflow))%string
  else None.

Definition normalized (cfg : TerminalOutputBufferConfig) : TerminalOutputBufferConfig :=
  let defaults := DefaultTerminalOutputBufferConfig in
  let cfg := if cfg.(CapacityBytes) =? 0
             then cfg <| CapacityBytes := defaults.(CapacityBytes) |> else cfg in
  let cfg := if String.eqb cfg.(Overflow) ""
             then cfg <| Overflow := defaults.(Overflow) |> else cfg in
  match Validate cfg with Some _ => defaults | None => cfg end.

(** ** The buffer *)
Record terminalOutputBuffer := mkBuffer {
  config : TerminalOutputBufferConfig;
  nodes : list terminalOutputNode;         (* head .. tail *)
  resident : Z;
  nextSeq : Z;
  closed : bool;
  sealed : bool;
  waitNanos : Z;
  consumer_live : terminalOutputConsumerState;
  consumer_history : terminalOutputConsumerState }.
#[export] Instance eta_buffer : Eta terminalOutputBuffer := λ b,
  mkBuffer b.(config) b.(nodes) b.(resident) b.(nextSeq) b.(closed) b.(sealed)
    b.(waitNanos) b.(consumer_live) b.(consumer_history).

(** [buffer.consumers[consumer]]. *)
Definition consumers (b : terminalOutputBuffer) (c : terminalOutputConsumer) :=
  match c with ConsumerLive => b.(consumer_live) | ConsumerHistory => b.(consumer_history) end.
Definition set_consumer (c : terminalOutputConsumer) (st : terminalOutputConsumerState)
    (b : terminalOutputBuffer) : terminalOutputBuffer :=
  match c with
  | ConsumerLive => b <| consumer_live := st |>
  | ConsumerHistory => b <| consumer_history := st |>
  end.
(** A loop over the consumers. *)
Definition for_consumers (f : terminalOutputConsumer → terminalOutputBuffer → terminalOutputBuffer)
    (b : terminalOutputBuffer) : terminalOutputBuffer :=
  fold_left (λ b c, f c b) all_consumers b.

(** Node pointers: the nodes from the one with sequence [s] on, and those after it. *)
Fixpoint suffix_at (s : Z) (ns : list terminalOutputNode) : list terminalOutputNode :=
  match ns with
  | [] => []
  | n :: rest => if n.(seq) =? s then ns else suffix_at s rest
  end.
Definition suffix_after (s : Z) (ns : list terminalOutputNode) : list terminalOutputNode :=
  tail (suffix_at s ns).

Definition finishConsumerLocked (c : terminalOutputConsumer) (b : terminalOutputBuffer) :=
  set_consumer c (consumers b c) <| done := true |> b.

Definition newTerminalOutputBuffer (cfg : TerminalOutputBufferConfig) (historyEnabled : bool)
    : terminalOutputBuffer :=
  let b := mkBuffer (normalized cfg) [] 0 0 false false 0
             (new_consumer true) (new_consumer historyEnabled) in
  if historyEnabled then b else finishConsumerLocked ConsumerHistory b.

Definition hasActiveConsumerLocked (b : terminalOutputBuffer) : bool :=
  existsb (λ c, (consumers b c).(active)) all_consumers.
Definition acceptingOutput (b : terminalOutputBuffer) : bool :=
  negb b.(closed) && negb b.(sealed) && hasActiveConsumerLocked b.
Definition addWaitDuration (d : Z) (b : terminalOutputBuffer) : terminalOutputBuffer :=
  b <| waitNanos := b.(waitNanos) + d |>.

Definition addGapLocked (st : terminalOutputConsumerState) (throughSeq bytes : Z)
    : terminalOutputConsumerState :=
  if bytes =? 0 then st
  else
    let st := if st.(pendingGapBytes) =? 0
              then st <| gapCount := st.(gapCount) + 1 |> else st in
    let st := st <| pendingGapBytes := st.(pendingGapBytes) + bytes |> in
    let st := if throughSeq >? st.(pendingGapSeq)
              then st <| pendingGapSeq := throughSeq |> else st in
    st <| droppedBytes := st.(droppedBytes) + bytes |>.

Fixpoint nextPendingNodeLocked (c : terminalOutputConsumer) (from : list terminalOutputNode)
    : option Z :=
  match from with
  | [] => None
  | n :: rest => if has_bit c n.(pending) then Some n.(seq) else nextPendingNodeLocked c rest
  end.

(** Clears the consumer's bit on [from] and returns the bytes released. *)
Fixpoint releaseConsumerLocked (c : terminalOutputConsumer) (from : list terminalOutputNode)
    : list terminalOutputNode * Z :=
  match from with
  | [] => ([], 0)
  | n :: rest =>
      let '(rest', released) := releaseConsumerLocked c rest in
      if has_bit c n.(pending)
      then (mkNode n.(payload) n.(seq) (clear_bit c n.(pending)) :: rest',
            released + len n.(payload))
      else (n :: rest', released)
  end.

(** The walk from [inFlight] to [inFlightLast] along the list. *)
Fixpoint in_flight_walk (last : option Z) (target : Z) (ns : list terminalOutputNode) : bool :=
  match ns with
  | [] => false
  | n :: rest =>
      if n.(seq) =? target then true
      else if bool_decide (Some n.(seq) = last) then false
      else in_flight_walk last target rest
  end.
Definition outputNodeInFlightLocked (ns : list terminalOutputNode)
    (st : terminalOutputConsumerState) (target : Z) : bool :=
  match st.(inFlight) with
  | None => false
  | Some f => in_flight_walk st.(inFlightLast) target (suffix_at f ns)
  end.

(** The loop of [dropQueuedForConsumerLocked], [dropIncomingLocked] and [Close]:
    every queued payload of the consumer that is not in flight becomes part of its
    gap. [all] is the whole list, which the in-flight walk needs. *)
Fixpoint drop_queued_nodes (all : list terminalOutputNode) (c : terminalOutputConsumer)
    (st : terminalOutputConsumerState) (ns : list terminalOutputNode)
    : terminalOutputConsumerState * list terminalOutputNode :=
  match ns with
  | [] => (st, [])
  | n :: rest =>
      if outputNodeInFlightLocked all st n.(seq) || negb (has_bit c n.(pending))
      then let '(st', rest') := drop_queued_nodes all c st rest in (st', n :: rest')
      else
        let n' := mkNode n.(payload) n.(seq) (clear_bit c n.(pending)) in
        let st1 := addGapLocked st n.(seq) (len n.(payload)) in
        let '(st', rest') := drop_queued_nodes all c st1 rest in (st', n' :: rest')
  end.

Definition drop_queued (c : terminalOutputConsumer) (b : terminalOutputBuffer)
    : terminalOutputBuffer :=
  let '(st, ns) := drop_queued_nodes b.(nodes) c (consumers b c) b.(nodes) in
  set_consumer c st (b <| nodes := ns |>).

Definition dropQueuedForConsumerLocked (c : terminalOutputConsumer) (b : terminalOutputBuffer)
    : terminalOutputBuffer :=
  let b := drop_queued c b in
  let st := consumers b c in
  match st.(inFlight) with
  | None => set_consumer c (st <| next := None |>) b
  | Some _ => b
  end.

(** Unlinks the nodes no consumer waits for; returns the bytes freed. *)
Definition reclaimLocked (b : terminalOutputBuffer) : terminalOutputBuffer * Z :=
  let keep := filter (λ n, n.(pending) ≠ 0) b.(nodes) in
  let gone := filter (λ n, n.(pending) = 0) b.(nodes) in
  let freed := foldr (λ n acc, len n.(payload) + acc) 0 gone in
  (b <| nodes := keep |> <| resident := b.(resident) - freed |>, freed).

(** One consumer's turn on one node in [dropOldestLocked]; [rest] are the nodes
    after it. *)
Definition drop_oldest_one (all rest : list terminalOutputNode) (n : terminalOutputNode)
    (c : terminalOutputConsumer) (st : terminalOutputConsumerState) (mask : Z)
    : terminalOutputConsumerState * Z :=
  if negb (has_bit c mask) || outputNodeInFlightLocked all st n.(seq) then (st, mask)
  else
    let st := addGapLocked st n.(seq) (len n.(payload)) in
    let st := if bool_decide (st.(next) = Some n.(seq))
              then st <| next := nextPendingNodeLocked c rest |> else st in
    (st, clear_bit c mask).

Fixpoint drop_oldest_nodes (all : list terminalOutputNode) (required potential : Z)
    (live hist : terminalOutputConsumerState) (ns : list terminalOutputNode)
    : terminalOutputConsumerState * terminalOutputConsumerState * list terminalOutputNode :=
  match ns with
  | [] => (live, hist, [])
  | n :: rest =>
      if potential <? required then
        let '(live, mask) := drop_oldest_one all rest n ConsumerLive live n.(pending) in
        let '(hist, mask) := drop_oldest_one all rest n ConsumerHistory hist mask in
        let potential := if mask =? 0 then potential + len n.(payload) else potential in
        let '(live, hist, rest') := drop_oldest_nodes all required potential live hist rest in
        (live, hist, mkNode n.(payload) n.(seq) mask :: rest')
      else (live, hist, ns)
  end.

Definition dropOldestLocked (required : Z) (b : terminalOutputBuffer)
    : terminalOutputBuffer * Z :=
  if required <=? 0 then (b, 0)
  else
    let before := b.(resident) in
    let '(live, hist, ns) :=
      drop_oldest_nodes b.(nodes) required 0 b.(consumer_live) b.(consumer_history) b.(nodes) in
    let b := b <| nodes := ns |> <| consumer_live := live |> <| consumer_history := hist |> in
    let '(b, _) := reclaimLocked b in
    (b, before - b.(resident)).

(** [dropForAggregate] on another buffer: the new state and the bytes it then
    releases to the budget and reports. *)
Definition dropForAggregate (required : Z) (b : terminalOutputBuffer)
    : terminalOutputBuffer * Z :=
  if (required <=? 0) || negb (String.eqb b.(config).(Overflow) TerminalOutputOverflowDrop)
  then (b, 0)
  else dropOldestLocked required b.

Definition dropIncomingLocked (bytes : Z) (b : terminalOutputBuffer)
    : terminalOutputBuffer * Z :=
  let b := b <| nextSeq := b.(nextSeq) + 1 |> in
  let s := b.(nextSeq) in
  let b := for_consumers (λ c b,
    if negb (consumers b c).(active) then b
    else
      let b := drop_queued c b in
      set_consumer c (addGapLocked ((consumers b c) <| next := None |>) s bytes) b) b in
  reclaimLocked b.

(** ** Writing

    [Write] cuts its argument into chunks; [writeChunk] is split at the points
    where it leaves [buffer.mu]. *)
Definition chunk_size (b : terminalOutputBuffer) (payload : bytes) : Z :=
  let size := len payload in
  let size := if size >? terminalOutputChunkBytes then terminalOutputChunkBytes else size in
  if size >? b.(config).(CapacityBytes) then b.(config).(CapacityBytes) else size.

Inductive admit_result :=
| AdmitRetry (freed : Z)           (* dropped queued payload; release, then loop again *)
| AdmitWait                        (* wait for a consumer *)
| AdmitReturn (ok : bool) (freed : Z)
| AdmitReserve.

(** One turn of the capacity loop and, when it is left, the checks after it. *)
Definition writeChunk_admit (chunk : bytes) (b : terminalOutputBuffer)
    : terminalOutputBuffer * admit_result :=
  let n := len chunk in
  if negb b.(closed) && negb b.(sealed) && hasActiveConsumerLocked b
     && (b.(resident) + n >? b.(config).(CapacityBytes))
  then
    if String.eqb b.(config).(Overflow) TerminalOutputOverflowDrop then
      let '(b, freed) := dropOldestLocked n b in
      if freed =? 0
      then let '(b, freed) := dropIncomingLocked n b in (b, AdmitReturn true freed)
      else (b, AdmitRetry freed)
    else (b, AdmitWait)
  else if b.(closed) || b.(sealed) then (b, AdmitReturn false 0)
  else if negb (hasActiveConsumerLocked b) then (b, AdmitReturn true 0)
  else (b, AdmitReserve).

(** After [budget.reserve] failed: the result of [writeChunk] and the bytes to release. *)
Definition writeChunk_unreserved (chunk : bytes) (b : terminalOutputBuffer)
    : terminalOutputBuffer * (bool * Z) :=
  if b.(closed) || b.(sealed) || String.eqb b.(config).(Overflow) TerminalOutputOverflowBlock
  then (b, (false, 0))
  else let '(b, freed) := dropIncomingLocked (len chunk) b in (b, (true, freed)).

(** The consumer loop of the append: the mask of the consumers that get the node. *)
Definition append_mask (s n : Z) (b : terminalOutputBuffer) : terminalOutputBuffer * Z :=
  fold_left (λ '(b, mask) c,
    let st := consumers b c in
    if negb st.(active) then (b, mask)
    else if (st.(pendingGapBytes) >? 0) || bool_decide (is_Some st.(gapInFlight)) then
      let b := dropQueuedForConsumerLocked c b in
      (set_consumer c (addGapLocked (consumers b c) s n) b, mask)
    else (b, Z.lor mask (bit c))) all_consumers (b, 0).

(** The new node becomes [next] of an idle consumer with an empty queue. *)
Definition wake_consumer (node : terminalOutputNode) (c : terminalOutputConsumer)
    (b : terminalOutputBuffer) : terminalOutputBuffer :=
  let st := consumers b c in
  if has_bit c node.(pending) && bool_decide (st.(next) = None)
     && bool_decide (st.(inFlight) = None)
  then set_consumer c (st <| next := Some node.(seq) |>) b
  else b.

(** After [budget.reserve] succeeded: the result and the bytes to release. *)
Definition writeChunk_append (chunk : bytes) (b : terminalOutputBuffer)
    : terminalOutputBuffer * (bool * Z) :=
  let n := len chunk in
  if b.(closed) || b.(sealed) then (b, (false, n))
  else
    let b := b <| nextSeq := b.(nextSeq) + 1 |> in
    let s := b.(nextSeq) in
    let '(b, mask) := append_mask s n b in
    let '(b, freed) := reclaimLocked b in
    if mask =? 0 then (b, (true, n + freed))
    else
      let node := mkNode chunk s mask in
      let b := b <| nodes := b.(nodes) ++ [node] |> <| resident := b.(resident) + n |> in
      (for_consumers (wake_consumer node) b, (true, freed)).

(** ** Consuming *)

(** [run] up to its loop: whether the goroutine enters the loop. *)
Definition run_start (c : terminalOutputConsumer) (b : terminalOutputBuffer)
    : terminalOutputBuffer * bool :=
  let st := consumers b c in
  if st.(started) then (b, false)
  else if negb st.(active) || b.(closed) then (finishConsumerLocked c b, false)
  else (set_consumer c (st <| started := true |>) b, true).

(** How far the batch that starts with a payload of [total] bytes at [last] extends. *)
Fixpoint coalesce_last (c : terminalOutputConsumer) (total last : Z)
    (ns : list terminalOutputNode) : Z :=
  match ns with
  | [] => last
  | n :: rest =>
      if has_bit c n.(pending) then
        if total + len n.(payload) <=? terminalOutputChunkBytes
        then coalesce_last c (total + len n.(payload)) n.(seq) rest
        else last
      else coalesce_last c total last rest
  end.

(** The payloads of the consumer's nodes up to [last]. *)
Fixpoint gather (c : terminalOutputConsumer) (last : Z) (ns : list terminalOutputNode) : bytes :=
  match ns with
  | [] => []
  | n :: rest =>
      if has_bit c n.(pending)
      then n.(payload) ++ (if n.(seq) =? last then [] else gather c last rest)
      else gather c last rest
  end.

Definition next_batch (c : terminalOutputConsumer) (s : Z) (ns : list terminalOutputNode)
    : terminalOutputBatch :=
  match suffix_at s ns with
  | [] => mkBatch s s []
  | n :: rest =>
      let last := coalesce_last c (len n.(payload)) s rest in
      mkBatch s last (n.(payload) ++ (if last =? s then [] else gather c last rest))
  end.

Inductive next_result :=
| NextWait
| NextStop
| NextGap (g : terminalOutputGap)
| NextBatch (batch : terminalOutputBatch).

Definition buffer_next (c : terminalOutputConsumer) (b : terminalOutputBuffer)
    : terminalOutputBuffer * next_result :=
  let st := consumers b c in
  if st.(active) && (st.(pendingGapBytes) =? 0) && bool_decide (st.(next) = None)
     && negb b.(sealed) && negb b.(closed)
  then (b, NextWait)
  else if negb st.(active) || b.(closed) then (b, NextStop)
  else if st.(pendingGapBytes) >? 0 then
    let g := mkGap c (st.(epoch) + 1) st.(pendingGapBytes) st.(pendingGapSeq) in
    (set_consumer c (st <| pendingGapBytes := 0 |> <| pendingGapSeq := 0 |>
                        <| gapInFlight := Some g |>) b, NextGap g)
  else
    match st.(next) with
    | None => (b, NextStop)
    | Some s =>
        let batch := next_batch c s b.(nodes) in
        (set_consumer c (st <| inFlight := Some batch.(batch_first) |>
                            <| inFlightLast := Some batch.(batch_last) |>) b,
         NextBatch batch)
    end.

(** The loop of [completeBatch] after its first node: clears the consumer's bit up
    to [last] and raises [completedSeq]. *)
Fixpoint complete_rest (c : terminalOutputConsumer) (last completed : Z)
    (ns : list terminalOutputNode) : list terminalOutputNode * Z :=
  match ns with
  | [] => ([], completed)
  | n :: rest =>
      if has_bit c n.(pending) then
        let n' := mkNode n.(payload) n.(seq) (clear_bit c n.(pending)) in
        let completed := if n.(seq) >? completed then n.(seq) else completed in
        if n.(seq) =? last then (n' :: rest, completed)
        else let '(rest', completed) := complete_rest c last completed rest in
             (n' :: rest', completed)
      else let '(rest', completed) := complete_rest c last completed rest in
           (n :: rest', completed)
  end.

(** The whole loop, from the node [first] on; the nodes before it are unchanged. *)
Fixpoint complete_nodes (c : terminalOutputConsumer) (first last completed : Z)
    (ns : list terminalOutputNode) : list terminalOutputNode * Z :=
  match ns with
  | [] => ([], completed)
  | n :: rest =>
      if n.(seq) =? first then
        let b := has_bit c n.(pending) in
        let n' := if b then mkNode n.(payload) n.(seq) (clear_bit c n.(pending)) else n in
        let completed := if b && (n.(seq) >? completed) then n.(seq) else completed in
        if n.(seq) =? last then (n' :: rest, completed)
        else let '(rest', completed) := complete_rest c last completed rest in
             (n' :: rest', completed)
      else let '(rest', completed) := complete_nodes c first last completed rest in
           (n :: rest', completed)
  end.

(** Clears the consumer's bit on the nodes from the one with sequence [s] on. *)
Fixpoint release_from (c : terminalOutputConsumer) (s : Z) (ns : list terminalOutputNode)
    : list terminalOutputNode * Z :=
  match ns with
  | [] => ([], 0)
  | n :: rest =>
      if n.(seq) =? s then releaseConsumerLocked c ns
      else let '(rest', released) := release_from c s rest in (n :: rest', released)
  end.
Definition releaseConsumerFrom (c : terminalOutputConsumer) (from : option Z)
    (ns : list terminalOutputNode) : list terminalOutputNode * Z :=
  match from with None => (ns, 0) | Some s => release_from c s ns end.

(** The state changes both failure paths make. *)
Definition fail_consumer (st : terminalOutputConsumerState) (err : TerminalOutputError)
    (released : Z) (failPending : bool) : terminalOutputConsumerState :=
  st <| pendingGapBytes := 0 |> <| pendingGapSeq := 0 |>
     <| droppedBytes := st.(droppedBytes) + released |>
     <| unavailable := Some err |> <| failurePending := failPending |>
     <| active := false |> <| next := None |>.

Definition completeBatch (c : terminalOutputConsumer) (batch : terminalOutputBatch)
    (ingestErr : option goerr) (failPending : bool) (b : terminalOutputBuffer)
    : terminalOutputBuffer * Z :=
  let st := consumers b c in
  if negb (bool_decide (st.(inFlight) = Some batch.(batch_first)))
     || negb (bool_decide (st.(inFlightLast) = Some batch.(batch_last)))
  then (b, 0)
  else
    let st := st <| inFlight := None |> <| inFlightLast := None |> in
    let '(ns, completed) :=
      complete_nodes c batch.(batch_first) batch.(batch_last) st.(completedSeq) b.(nodes) in
    let st := st <| completedSeq := completed |>
                 <| next := nextPendingNodeLocked c (suffix_after batch.(batch_last) ns) |> in
    let '(ns, st) :=
      match ingestErr with
      | None => (ns, st)
      | Some cause =>
          let st1 := st <| droppedBytes := st.(droppedBytes) + len batch.(batch_payload) |> in
          let st1 := if st.(pendingGapBytes) =? 0
                     then st1 <| gapCount := st.(gapCount) + 1 |> else st1 in
          let '(ns, released) := releaseConsumerFrom c st1.(next) ns in
          let dropped := len batch.(batch_payload) + st.(pendingGapBytes) + released in
          let err := mkOutputError (consumer_String c) (st.(epoch) + 1) dropped cause in
          (ns, fail_consumer st1 err released failPending)
      end in
    reclaimLocked (set_consumer c st (b <| nodes := ns |>)).

Definition completeGap (c : terminalOutputConsumer) (gap : terminalOutputGap)
    (gapErr : option goerr) (failPending : bool) (b : terminalOutputBuffer)
    : terminalOutputBuffer * Z :=
  let st := consumers b c in
  if negb (bool_decide (st.(gapInFlight) = Some gap)) then (b, 0)
  else
    let st := st <| gapInFlight := None |> in
    let '(ns, st) :=
      match gapErr with
      | Some cause =>
          let '(ns, released) := releaseConsumerFrom c st.(next) b.(nodes) in
          let dropped := gap.(gap_DroppedBytes) + st.(pendingGapBytes) + released in
          let err := mkOutputError (consumer_String c) gap.(gap_Epoch) dropped cause in
          (ns, fail_consumer st err released failPending)
      | None =>
          let st := st <| epoch := gap.(gap_Epoch) |> in
          (b.(nodes), if gap.(gap_throughSeq) >? st.(completedSeq)
                      then st <| completedSeq := gap.(gap_throughSeq) |> else st)
      end in
    reclaimLocked (set_consumer c st (b <| nodes := ns |>)).

Definition completeFailureHandling (c : terminalOutputConsumer) (b : terminalOutputBuffer) :=
  set_consumer c (consumers b c) <| failurePending := false |> b.

(** ** Life cycle *)
Definition Seal (b : terminalOutputBuffer) : terminalOutputBuffer := b <| sealed := true |>.

(** [Close]: the bytes to release to the budget, and whether this call closed it. *)
Definition Close (b : terminalOutputBuffer) : terminalOutputBuffer * (Z * bool) :=
  if b.(closed) then (b, (0, false))
  else
    let b := b <| closed := true |> in
    let b := for_consumers (λ c b,
      let b := if (consumers b c).(active)
               then let b := drop_queued c b in
                    set_consumer c ((consumers b c) <| next := None |>) b
               else b in
      let b := set_consumer c ((consumers b c) <| active := false |>) b in
      if negb (consumers b c).(started) then finishConsumerLocked c b else b) b in
    let '(b, freed) := reclaimLocked b in
    (b, (freed, true)).

(** One turn of the loop of [Flush], with [ctx.Err()] as the context stands:
    [Some r] when [Flush] returns [r], [None] when it waits. *)
Inductive flush_error := FlushUnavailable (e : TerminalOutputError) | FlushCanceled (e : goerr).
Definition flush_poll (c : terminalOutputConsumer) (target : Z) (ctxErr : option goerr)
    (b : terminalOutputBuffer) : option (option flush_error) :=
  let st := consumers b c in
  let canceled := match ctxErr with
                  | Some e => Some (Some (FlushCanceled e))
                  | None => None
                  end in
  match st.(unavailable) with
  | Some e => if negb st.(failurePending) then Some (Some (FlushUnavailable e)) else canceled
  | None => if negb st.(active) || (st.(completedSeq) >=? target) then Some None else canceled
  end.

Definition ConsumerError (c : terminalOutputConsumer) (b : terminalOutputBuffer)
    : option TerminalOutputError := (consumers b c).(unavailable).
