(* ===== verification/OutputBufferFacts.v ===== *)
(** * Facts about the terminal output buffer

    The abstract view of a buffer from one consumer's side ([cview]): the bytes the
    consumer has not been told about yet are, in order, the batch in flight, the gap
    in flight, the pending gap and the queued payloads. Every operation of
    [OutputBuffer] is shown to act on that byte string as it should, and to keep the
    buffer well formed ([buffer_wf]). *)
From S2P Require Import Prelude OutputBuffer.
Local Open Scope Z_scope.

(** ** Consumer masks *)
Lemma bit_pow c : bit c = 2 ^ consumer_index c.
Proof. by destruct c. Qed.

Lemma consumer_index_bound c : 0 ≤ consumer_index c < 2.
Proof. destruct c; simpl; lia. Qed.

Lemma has_bit_testbit c m : has_bit c m = Z.testbit m (consumer_index c).
Proof.
  unfold has_bit. rewrite bit_pow. pose proof (consumer_index_bound c).
  destruct (Z.testbit m (consumer_index c)) eqn:E.
  - apply negb_true_iff, Z.eqb_neq. intros H0.
    assert (Z.testbit (Z.land m (2 ^ consumer_index c)) (consumer_index c) = true).
    { rewrite Z.land_spec, E, Z.pow2_bits_true by lia. done. }
    by rewrite H0, Z.bits_0 in *.
  - apply negb_false_iff, Z.eqb_eq. apply Z.bits_inj'. intros i Hi.
    rewrite Z.land_spec, Z.bits_0.
    destruct (decide (i = consumer_index c)) as [->|]; [by rewrite E|].
    rewrite Z.pow2_bits_false by done. apply andb_false_r.
Qed.

Lemma has_clear_same c m : has_bit c (clear_bit c m) = false.
Proof.
  unfold clear_bit. rewrite has_bit_testbit, Z.ldiff_spec, bit_pow.
  pose proof (consumer_index_bound c). rewrite Z.pow2_bits_true by lia. apply andb_false_r.
Qed.

Lemma has_clear_other c c' m : c ≠ c' → has_bit c (clear_bit c' m) = has_bit c m.
Proof.
  intros Hc. unfold clear_bit. rewrite !has_bit_testbit, Z.ldiff_spec, bit_pow.
  rewrite Z.pow2_bits_false by (destruct c, c'; simpl; congruence). apply andb_true_r.
Qed.

Definition mask_ok (m : Z) : Prop := 0 ≤ m < 4.

Lemma mask_cases m : mask_ok m → m = 0 ∨ m = 1 ∨ m = 2 ∨ m = 3.
Proof. unfold mask_ok. lia. Qed.

Lemma clear_bit_ok c m : mask_ok m → mask_ok (clear_bit c m).
Proof. intros [->|[->|[->| ->]]]%mask_cases; destruct c; done. Qed.

Lemma mask_zero m : mask_ok m → m = 0 ↔ ∀ c, has_bit c m = false.
Proof.
  intros Hm. split; [intros -> []; done|]. intros Hc.
  pose proof (Hc ConsumerLive) as H1. pose proof (Hc ConsumerHistory) as H2.
  by apply mask_cases in Hm as [->|[->|[->| ->]]].
Qed.

Lemma has_bit_zero c : has_bit c 0 = false.
Proof. by destruct c. Qed.

(** ** Queues *)

(** The nodes a consumer still waits for, as (sequence, payload) pairs. *)
Fixpoint queue (c : terminalOutputConsumer) (ns : list terminalOutputNode) : list (Z * bytes) :=
  match ns with
  | [] => []
  | n :: rest =>
      if has_bit c n.(pending) then (n.(seq), n.(payload)) :: queue c rest else queue c rest
  end.
Definition flat (l : list (Z * bytes)) : bytes := concat l.*2.
Definition contents (ns : list terminalOutputNode) : list (Z * bytes) :=
  (λ n, (n.(seq), n.(payload))) <$> ns.
Definition seqs (ns : list terminalOutputNode) : list Z := seq <$> ns.
Definition nodes_bytes (ns : list terminalOutputNode) : Z :=
  foldr (λ n acc, len n.(payload) + acc) 0 ns.
Definition head_seq (l : list (Z * bytes)) : option Z := fst <$> head l.
Definition last_seq (l : list (Z * bytes)) : option Z := fst <$> last l.

Lemma contents_seqs ns ns' : contents ns = contents ns' → seqs ns = seqs ns'.
Proof.
  intros H. apply (f_equal (fmap fst)) in H. unfold contents in H.
  by rewrite <- !list_fmap_compose in H.
Qed.

Lemma contents_bytes ns ns' : contents ns = contents ns' → nodes_bytes ns = nodes_bytes ns'.
Proof.
  revert ns'. induction ns as [|n ns IH]; intros [|n' ns'] [=]; [done|].
  simpl. f_equal; [congruence|auto].
Qed.

Lemma queue_app c ns1 ns2 : queue c (ns1 ++ ns2) = queue c ns1 ++ queue c ns2.
Proof.
  induction ns1 as [|n ns IH]; [done|]. simpl. rewrite IH. by destruct (has_bit _ _).
Qed.

Lemma queue_subseteq c ns x : x ∈ queue c ns → x ∈ contents ns.
Proof.
  induction ns as [|n ns IH]; simpl; [done|]. destruct (has_bit _ _); set_solver.
Qed.

Lemma queue_fst c ns s : s ∈ (queue c ns).*1 → s ∈ seqs ns.
Proof.
  intros (x & -> & Hx)%list_elem_of_fmap. apply queue_subseteq in Hx.
  unfold contents, seqs in *. apply list_elem_of_fmap in Hx as (n & -> & Hn).
  simpl. apply list_elem_of_fmap. eauto.
Qed.

Lemma nextPending_queue c ns : nextPendingNodeLocked c ns = head_seq (queue c ns).
Proof. induction ns as [|n ns IH]; [done|]. simpl. by destruct (has_bit _ _). Qed.

Lemma flat_app a b : flat (a ++ b) = flat a ++ flat b.
Proof. unfold flat. by rewrite fmap_app, concat_app. Qed.

Lemma flat_single s x : flat [(s, x)] = x.
Proof. unfold flat. simpl. apply app_nil_r. Qed.

Lemma len_nil_iff {A} (a : list A) : len a = 0 ↔ a = [].
Proof. unfold len. destruct a; simpl; split; intros; try done; lia. Qed.

(** ** Sorted sequence numbers *)
Definition sorted (l : list Z) : Prop := StronglySorted Z.lt l.

Lemma sorted_app l1 l2 :
  sorted (l1 ++ l2) ↔ sorted l1 ∧ sorted l2 ∧ ∀ x y, x ∈ l1 → y ∈ l2 → x < y.
Proof.
  unfold sorted. induction l1 as [|a l1 IH]; simpl.
  { split; [intros; split_and!; auto; [constructor | set_solver] | tauto]. }
  split.
  - inversion_clear 1 as [|? ? Hs Hf]. apply IH in Hs as (H1 & H2 & H3).
    rewrite Forall_app in Hf. destruct Hf as [Hf1 Hf2]. split_and!.
    + by constructor.
    + done.
    + intros x y [->|Hx]%elem_of_cons Hy; [|auto].
      by eapply Forall_forall in Hf2.
  - intros (H1 & H2 & H3). inversion_clear H1. constructor.
    + apply IH. split_and!; auto. intros. apply H3; set_solver.
    + apply Forall_app. split; [done|]. apply Forall_forall. intros. apply H3; set_solver.
Qed.

Lemma sorted_queue c ns : sorted (seqs ns) → sorted (queue c ns).*1.
Proof.
  unfold sorted, seqs. induction ns as [|n ns IH]; simpl; [constructor|].
  inversion_clear 1 as [|? ? Hs Hf]. specialize (IH Hs).
  destruct (has_bit _ _); [|done]. simpl. constructor; [done|].
  apply Forall_forall. intros s Hq%queue_fst. by eapply Forall_forall in Hf.
Qed.

Lemma sorted_head_le (l : list (Z * bytes)) h s :
  sorted l.*1 → head_seq l = Some h → s ∈ l.*1 → h ≤ s.
Proof.
  destruct l as [|x l]; [done|]. intros Hs [= <-] [->|Hin]%elem_of_cons; [lia|].
  inversion_clear Hs as [|? ? _ Hf]. eapply Forall_forall in Hf; [|done]. lia.
Qed.

Lemma last_seq_elem (l : list (Z * bytes)) s : last_seq l = Some s → s ∈ l.*1.
Proof.
  unfold last_seq. intros (x & Hl & ->)%fmap_Some.
  apply last_Some in Hl as [l' ->]. set_solver.
Qed.

Lemma head_seq_elem (l : list (Z * bytes)) s : head_seq l = Some s → s ∈ l.*1.
Proof. destruct l as [|x l]; [done|]. intros [= <-]. set_solver. Qed.

Lemma sorted_le_last (l : list (Z * bytes)) h s :
  sorted l.*1 → last_seq l = Some h → s ∈ l.*1 → s ≤ h.
Proof.
  unfold last_seq. intros Hs (x & Hl & ->)%fmap_Some Hin.
  apply last_Some in Hl as [l' ->]. rewrite fmap_app in Hs, Hin.
  apply sorted_app in Hs as (_ & _ & Hlt).
  apply elem_of_app in Hin as [Hin|Hin].
  - pose proof (Hlt s x.1 Hin ltac:(set_solver)). lia.
  - simpl in Hin. apply list_elem_of_singleton in Hin. lia.
Qed.

(** ** The in-flight walk *)
Lemma suffix_at_spec s ns t :
  sorted (seqs ns) → t ∈ seqs (suffix_at s ns) → t ∈ seqs ns ∧ s ≤ t.
Proof.
  unfold sorted. induction ns as [|n ns IH]; simpl; [set_solver|].
  inversion_clear 1 as [|? ? Hs Hf]. destruct (Z.eqb_spec n.(seq) s) as [<-|].
  - intros Ht. split; [done|]. apply elem_of_cons in Ht as [->|Ht]; [lia|].
    eapply Forall_forall in Hf; [|done]. lia.
  - intros Ht%IH; [|done]. set_solver.
Qed.

Lemma suffix_at_in s ns t :
  sorted (seqs ns) → s ∈ seqs ns → t ∈ seqs ns → s ≤ t → t ∈ seqs (suffix_at s ns).
Proof.
  unfold sorted. induction ns as [|n ns IH]; simpl; [set_solver|].
  inversion_clear 1 as [|? ? Hs Hf]. destruct (Z.eqb_spec n.(seq) s) as [<-|Hne]; [set_solver|].
  intros Hin%elem_of_cons Ht%elem_of_cons Hle. destruct Hin as [->|Hin]; [done|].
  destruct Ht as [->|Ht]; [|auto]. eapply Forall_forall in Hf; [|exact Hin]. lia.
Qed.

Lemma suffix_at_sorted s ns : sorted (seqs ns) → sorted (seqs (suffix_at s ns)).
Proof.
  unfold sorted. induction ns as [|n ns IH]; simpl; [done|].
  intros Hs. destruct (Z.eqb_spec n.(seq) s); [done|].
  inversion_clear Hs. auto.
Qed.

Lemma in_flight_walk_spec l t ns :
  sorted (seqs ns) → l ∈ seqs ns → t ∈ seqs ns →
  in_flight_walk (Some l) t ns = bool_decide (t ≤ l).
Proof.
  unfold sorted. induction ns as [|n ns IH]; simpl; [set_solver|].
  inversion_clear 1 as [|? ? Hs Hf]. intros Hl%elem_of_cons Ht%elem_of_cons.
  rewrite Forall_forall in Hf.
  destruct (Z.eqb_spec n.(seq) t) as [<-|Hne].
  - symmetry. apply bool_decide_eq_true. destruct Hl as [->|Hl]; [lia|].
    pose proof (Hf _ Hl). lia.
  - destruct Ht as [->|Ht]; [done|]. pose proof (Hf _ Ht).
    destruct (decide (n.(seq) = l)) as [Heq|Hnl].
    + rewrite Heq, bool_decide_eq_true_2 by done. symmetry. apply bool_decide_eq_false. lia.
    + rewrite (bool_decide_eq_false_2 (Some _ = Some l)) by congruence.
      destruct Hl as [->|Hl]; [done|]. by apply IH.
Qed.

(** With the batch [fly] in flight at the front of the queue, the walk recognises
    exactly its nodes among those the consumer waits for. *)
Lemma in_flight_spec c ns st fly q x :
  sorted (seqs ns) → queue c ns = fly ++ q →
  st.(inFlight) = head_seq fly → st.(inFlightLast) = last_seq fly →
  x ∈ queue c ns →
  outputNodeInFlightLocked ns st x.1 = bool_decide (x.1 ∈ fly.*1).
Proof.
  intros Hs Hq Hf Hl Hx. unfold outputNodeInFlightLocked. rewrite Hf, Hl.
  destruct fly as [|y fly'] eqn:Efly; [done|]. rewrite <- Efly in *.
  assert (head_seq fly = Some y.1) as Hh by (by subst). rewrite Hh.
  assert (∃ l, last_seq fly = Some l) as [l Hlast].
  { unfold last_seq. subst fly. rewrite last_cons. by destruct (last fly'); eexists. }
  rewrite Hlast.
  pose proof (sorted_queue c ns Hs) as Hsq. rewrite Hq, fmap_app in Hsq.
  apply sorted_app in Hsq as (Hsf & _ & Hlt).
  assert (∀ s, s ∈ fly.*1 → s ∈ seqs ns) as Hin.
  { intros s Hs'. apply (queue_fst c). rewrite Hq, fmap_app. set_solver. }
  assert (x.1 ∈ seqs ns) as Hxin.
  { apply (queue_fst c). by apply list_elem_of_fmap_2. }
  pose proof (head_seq_elem _ _ Hh) as Hy. pose proof (last_seq_elem _ _ Hlast) as Hle.
  destruct (decide (x.1 ∈ fly.*1)) as [Hxf|Hxf].
  - rewrite (bool_decide_eq_true_2 (x.1 ∈ fly.*1)) by done.
    pose proof (sorted_head_le _ _ _ Hsf Hh Hxf). pose proof (sorted_le_last _ _ _ Hsf Hlast Hxf).
    rewrite in_flight_walk_spec; [by apply bool_decide_eq_true | by apply suffix_at_sorted | |].
    + apply suffix_at_in; auto. by apply (sorted_head_le fly).
    + by apply suffix_at_in; auto.
  - rewrite (bool_decide_eq_false_2 (x.1 ∈ fly.*1)) by done.
    assert (x ∈ q) as Hxq.
    { rewrite Hq in Hx. apply elem_of_app in Hx as [Hx|]; [|done].
      destruct Hxf. by apply list_elem_of_fmap_2. }
    assert (l < x.1) by (apply Hlt; [done | by apply list_elem_of_fmap_2]).
    assert (y.1 ≤ l) by (by apply (sorted_head_le fly)).
    rewrite in_flight_walk_spec; [apply bool_decide_eq_false; lia | by apply suffix_at_sorted | |].
    + apply suffix_at_in; auto.
    + apply suffix_at_in; auto. lia.
Qed.

(** ** Accumulating a gap *)
Definition gap_add (st : terminalOutputConsumerState) (l : list (Z * bytes)) :=
  fold_left (λ st x, addGapLocked st x.1 (len x.2)) l st.

Lemma gap_add_cons st x l : gap_add st (x :: l) = gap_add (addGapLocked st x.1 (len x.2)) l.
Proof. done. Qed.

(** The fields [addGapLocked] and the [next] pointer updates leave alone. *)
Definition same_frame (st st' : terminalOutputConsumerState) : Prop :=
  st'.(active) = st.(active) ∧ st'.(started) = st.(started) ∧ st'.(done) = st.(done) ∧
  st'.(inFlight) = st.(inFlight) ∧ st'.(inFlightLast) = st.(inFlightLast) ∧
  st'.(gapInFlight) = st.(gapInFlight) ∧ st'.(completedSeq) = st.(completedSeq) ∧
  st'.(epoch) = st.(epoch) ∧ st'.(unavailable) = st.(unavailable) ∧
  st'.(failurePending) = st.(failurePending).

#[export] Instance same_frame_preorder : PreOrder same_frame.
Proof.
  split; [by intros st; unfold same_frame; split_and!|].
  intros a b c. unfold same_frame. intros; destruct_and!. split_and!; congruence.
Qed.

Lemma addGap_frame st s n : same_frame st (addGapLocked st s n).
Proof.
  unfold addGapLocked, same_frame. repeat case_match; simpl; by split_and!.
Qed.

Lemma addGap_next st s n : next (addGapLocked st s n) = next st.
Proof. unfold addGapLocked. repeat case_match; done. Qed.

Lemma addGap_bytes st s n : pendingGapBytes (addGapLocked st s n) = pendingGapBytes st + n.
Proof. unfold addGapLocked. destruct (Z.eqb_spec n 0); repeat case_match; simpl; lia. Qed.

Lemma addGap_dropped st s n : droppedBytes (addGapLocked st s n) = droppedBytes st + n.
Proof. unfold addGapLocked. destruct (Z.eqb_spec n 0); repeat case_match; simpl; lia. Qed.

Lemma addGap_seq st s n :
  pendingGapSeq (addGapLocked st s n) =
    if n =? 0 then pendingGapSeq st else Z.max (pendingGapSeq st) s.
Proof.
  unfold addGapLocked. destruct (n =? 0); [done|].
  destruct (pendingGapBytes st =? 0); simpl; destruct (Z.gtb_spec s (pendingGapSeq st)); simpl; lia.
Qed.

Lemma gap_add_frame st l : same_frame st (gap_add st l) ∧ next (gap_add st l) = next st.
Proof.
  revert st. unfold gap_add. induction l as [|x l IH]; intros st; simpl; [done|].
  destruct (IH (addGapLocked st x.1 (len x.2))) as [H1 H2]. split.
  - etrans; [apply addGap_frame | exact H1].
  - by rewrite H2, addGap_next.
Qed.

Lemma gap_add_bytes st l : pendingGapBytes (gap_add st l) = pendingGapBytes st + len (flat l).
Proof.
  revert st. unfold gap_add. induction l as [|x l IH]; intros st; simpl; [unfold len; simpl; lia|].
  rewrite IH, addGap_bytes. change (flat (x :: l)) with (x.2 ++ flat l). rewrite len_app. lia.
Qed.

(** The gap's last sequence number stays below any bound on what is added. *)
Lemma gap_add_seq_le st l b :
  pendingGapSeq st ≤ b → Forall (λ x, x.1 ≤ b) l → pendingGapSeq (gap_add st l) ≤ b.
Proof.
  revert st. unfold gap_add. induction l as [|x l IH]; intros st Hb; simpl; [done|].
  inversion_clear 1. apply IH; [|done]. rewrite addGap_seq. case_match; lia.
Qed.

Lemma gap_add_seq_ge st l : pendingGapSeq st ≤ pendingGapSeq (gap_add st l).
Proof.
  revert st. unfold gap_add. induction l as [|x l IH]; intros st; simpl; [done|].
  etrans; [|apply IH]. rewrite addGap_seq. case_match; lia.
Qed.

(** ** The view of one consumer *)

(** [fly]: the batch in flight; [q]: the queued payloads; [g1], [g2]: the bytes that
    the gap in flight and the pending gap stand for. *)
Record cview (ns : list terminalOutputNode) (nseq : Z) (c : terminalOutputConsumer)
    (st : terminalOutputConsumerState) (fly q : list (Z * bytes)) (g1 g2 : bytes) : Prop := {
  cv_queue : queue c ns = fly ++ q;
  cv_first : st.(inFlight) = head_seq fly;
  cv_last : st.(inFlightLast) = last_seq fly;
  cv_gap1 : len g1 = from_option gap_DroppedBytes 0 st.(gapInFlight);
  cv_gap2 : len g2 = st.(pendingGapBytes);
  cv_excl : is_Some st.(gapInFlight) → fly = [];
  cv_next : st.(active) = true → fly = [] → st.(next) = head_seq q;
  cv_dead : st.(active) = false → q = [] ∧ st.(next) = None;
  cv_completed : Forall (λ x, st.(completedSeq) < x.1) (fly ++ q);
  cv_bound : 0 ≤ st.(completedSeq) ≤ nseq ∧ st.(pendingGapSeq) ≤ nseq;
  cv_order1 : ∀ g, st.(gapInFlight) = Some g →
    g.(gap_Consumer) = c ∧ g.(gap_throughSeq) ≤ nseq ∧
    Forall (λ x, g.(gap_throughSeq) < x.1) q;
  cv_order2 : Forall (λ x, st.(pendingGapSeq) < x.1) q }.

(** What the consumer has still to be told about: the bytes of the batch in flight
    and, after them, the rest. *)
Record pend := mkPend { pd_fly : bytes; pd_rest : bytes }.

Definition view (ns : list terminalOutputNode) (nseq : Z) (c : terminalOutputConsumer)
    (st : terminalOutputConsumerState) (p : pend) : Prop :=
  ∃ fly q g1 g2, cview ns nseq c st fly q g1 g2 ∧
    p = mkPend (flat fly) (g1 ++ g2 ++ flat q).

Definition nodes_ok (ns : list terminalOutputNode) : Prop :=
  Forall (λ n, mask_ok n.(pending)) ns.

(** Same nodes, other masks. *)
Record relabel (ns ns' : list terminalOutputNode) : Prop := {
  rl_contents : contents ns' = contents ns;
  rl_ok : nodes_ok ns → nodes_ok ns' }.

#[export] Instance relabel_preorder : PreOrder relabel.
Proof.
  split; [by split|]. intros a b c [H1 H2] [H3 H4]. split; [congruence|auto].
Qed.

Lemma relabel_cons n m ns ns' :
  (mask_ok n.(pending) → mask_ok m) → relabel ns ns' →
  relabel (n :: ns) (mkNode n.(payload) n.(seq) m :: ns').
Proof.
  intros Hm [Hc Hok]. split.
  - simpl. f_equal. exact Hc.
  - unfold nodes_ok. rewrite !Forall_cons. intros [? ?]. split; [simpl; auto|by apply Hok].
Qed.

Lemma relabel_skip n ns ns' : relabel ns ns' → relabel (n :: ns) (n :: ns').
Proof. intros H. destruct n. by apply (relabel_cons (mkNode _ _ _)). Qed.

Lemma relabel_app a b b' : relabel b b' → relabel (a ++ b) (a ++ b').
Proof. intros. induction a; [done|]. by apply relabel_skip. Qed.

Lemma inflight_frame all st st' s :
  same_frame st st' →
  outputNodeInFlightLocked all st' s = outputNodeInFlightLocked all st s.
Proof.
  unfold same_frame, outputNodeInFlightLocked. intros; destruct_and!. by rewrite H2, H3.
Qed.

Lemma drop_queued_nodes_spec all c st ns st' ns' :
  drop_queued_nodes all c st ns = (st', ns') →
  let fl x := outputNodeInFlightLocked all st x.1 in
  st' = gap_add st (filter (λ x : Z * bytes, fl x = false) (queue c ns)) ∧
  relabel ns ns' ∧
  queue c ns' = filter (λ x : Z * bytes, fl x = true) (queue c ns) ∧
  (∀ c', c' ≠ c → queue c' ns' = queue c' ns).
Proof.
  cbn zeta. revert st st' ns'. induction ns as [|n ns IH]; intros st st' ns'; simpl.
  { intros [= <- <-]. done. }
  destruct (has_bit c n.(pending)) eqn:Hb; rewrite ?orb_true_r, ?orb_false_r.
  - destruct (outputNodeInFlightLocked all st n.(seq)) eqn:Hf; simpl;
      destruct (drop_queued_nodes _ _ _ _) as [st1 ns1] eqn:E; intros [= <- <-];
      destruct (IH _ _ _ E) as (-> & Hr & Hq & Ho).
    + rewrite filter_cons_False, filter_cons_True by (simpl; congruence).
      split_and!; [done | by apply relabel_skip | simpl; rewrite Hb; congruence |].
      intros c' Hc. simpl. by rewrite (Ho c' Hc).
    + rewrite filter_cons_True, filter_cons_False by (simpl; congruence).
      assert (∀ x, outputNodeInFlightLocked all (addGapLocked st n.(seq) (len n.(payload))) x
                   = outputNodeInFlightLocked all st x) as Hfr
        by (intros; apply inflight_frame, addGap_frame).
      split_and!.
      * rewrite gap_add_cons. simpl. f_equal. apply list_filter_iff. intros x. by rewrite Hfr.
      * by apply relabel_cons; [apply clear_bit_ok|].
      * simpl. rewrite has_clear_same, Hq. apply list_filter_iff. intros x. by rewrite Hfr.
      * intros c' Hc. simpl. by rewrite has_clear_other, (Ho c' Hc) by done.
  - simpl. destruct (drop_queued_nodes _ _ _ _) as [st1 ns1] eqn:E; intros [= <- <-].
    destruct (IH _ _ _ E) as (-> & Hr & Hq & Ho).
    split_and!; [done | by apply relabel_skip | simpl; by rewrite Hb |].
    intros c' Hc. simpl. by rewrite (Ho c' Hc).
Qed.

(** ** View lemmas *)
Lemma sorted_disjoint (fly q : list (Z * bytes)) x :
  sorted (fly ++ q).*1 → x ∈ q → x.1 ∉ fly.*1.
Proof.
  intros Hs Hx Hf. rewrite fmap_app in Hs. apply sorted_app in Hs as (_ & _ & Hlt).
  pose proof (Hlt x.1 x.1 Hf ltac:(by apply list_elem_of_fmap_2)). lia.
Qed.

Lemma filter_split (P : Z * bytes → bool) fly q :
  (∀ x, x ∈ fly → P x = true) → (∀ x, x ∈ q → P x = false) →
  filter (λ x, P x = true) (fly ++ q) = fly ∧ filter (λ x, P x = false) (fly ++ q) = q.
Proof.
  intros Hf Hq. rewrite !filter_app.
  rewrite (list_filter_all (λ x, P x = true) fly), (list_filter_none (λ x, P x = true) q),
    (list_filter_none (λ x, P x = false) fly), (list_filter_all (λ x, P x = false) q),
    app_nil_r by (intros x Hx; rewrite ?(Hf x), ?(Hq x) by done; done).
  done.
Qed.

Section view.
Context (ns : list terminalOutputNode) (nseq : Z) (c : terminalOutputConsumer).
Context (st : terminalOutputConsumerState).

Lemma cview_inflight fly q g1 g2 :
  sorted (seqs ns) → cview ns nseq c st fly q g1 g2 →
  let fl x := outputNodeInFlightLocked ns st x.1 in
  (∀ x : Z * bytes, x ∈ fly → fl x = true) ∧ (∀ x : Z * bytes, x ∈ q → fl x = false).
Proof.
  intros Hs V. cbn zeta.
  pose proof (sorted_queue c ns Hs) as Hsq. rewrite (cv_queue _ _ _ _ _ _ _ _ V) in Hsq.
  split; intros x Hx.
  - rewrite (in_flight_spec c ns st fly q) by (first [apply V | done |
      rewrite (cv_queue _ _ _ _ _ _ _ _ V); set_solver]).
    apply bool_decide_eq_true. by apply list_elem_of_fmap_2.
  - rewrite (in_flight_spec c ns st fly q) by (first [apply V | done |
      rewrite (cv_queue _ _ _ _ _ _ _ _ V); set_solver]).
    apply bool_decide_eq_false. by eapply sorted_disjoint.
Qed.

Lemma cview_queue ns' fly q g1 g2 :
  queue c ns' = queue c ns → cview ns nseq c st fly q g1 g2 → cview ns' nseq c st fly q g1 g2.
Proof. intros Hq []. split; auto. congruence. Qed.

Lemma cview_mono nseq' fly q g1 g2 :
  nseq ≤ nseq' → cview ns nseq c st fly q g1 g2 → cview ns nseq' c st fly q g1 g2.
Proof.
  intros Hn []. split; auto; [lia|]. intros g Hg.
  destruct (cv_order3 g Hg) as (? & ? & ?). split_and!; [done|lia|done].
Qed.

(** Everything queued becomes part of the pending gap. *)
Lemma cview_drop_queued fly q g1 g2 st' ns' n0 :
  sorted (seqs ns) → Forall (λ s, s ≤ nseq) (seqs ns) →
  cview ns nseq c st fly q g1 g2 →
  drop_queued_nodes ns c st ns = (st', ns') →
  (active st = false → n0 = None) → (active st = true → fly = [] → n0 = None) →
  cview ns' nseq c (st' <| next := n0 |>) fly [] g1 (g2 ++ flat q).
Proof.
  intros Hs Hb V E Hn1 Hn2.
  destruct (cview_inflight _ _ _ _ Hs V) as [Hf Hq].
  apply drop_queued_nodes_spec in E as (-> & _ & Hqueue & _).
  pose proof (cv_queue _ _ _ _ _ _ _ _ V) as HQ.
  rewrite HQ in *.
  destruct (filter_split (λ x, outputNodeInFlightLocked ns st x.1) fly q Hf Hq) as [E1 E2].
  rewrite E1 in Hqueue. rewrite E2.
  destruct (gap_add_frame st q) as [(Fa & _ & _ & Ff & Fl & Fg & Fc & Fe & _) _].
  assert (Forall (λ x : Z * bytes, x.1 ≤ nseq) q) as Hqb.
  { apply Forall_forall. intros x Hx. rewrite Forall_forall in Hb. apply Hb.
    apply (queue_fst c). rewrite HQ. apply list_elem_of_fmap_2. set_solver. }
  destruct V. split; simpl.
  - by rewrite app_nil_r.
  - congruence.
  - congruence.
  - by rewrite Fg.
  - rewrite len_app, gap_add_bytes. lia.
  - by rewrite Fg.
  - rewrite Fa. auto.
  - rewrite Fa. auto.
  - rewrite Fc, app_nil_r. by apply Forall_app in cv_completed0 as [? _].
  - rewrite Fc. split; [tauto|]. apply gap_add_seq_le; [tauto|done].
  - intros g. rewrite Fg. intros Hg. destruct (cv_order3 g Hg) as (? & ? & ?). auto.
  - constructor.
Qed.

(** With nothing queued, new bytes extend the pending gap. *)
Lemma cview_add_gap fly g1 g2 chunk s :
  s ≤ nseq → cview ns nseq c st fly [] g1 g2 →
  cview ns nseq c (addGapLocked st s (len chunk)) fly [] g1 (g2 ++ chunk).
Proof.
  intros Hs []. destruct (addGap_frame st s (len chunk)) as (Fa & _ & _ & Ff & Fl & Fg & Fc & _).
  split; rewrite ?Fa, ?Ff, ?Fl, ?Fg, ?Fc, ?addGap_next; auto.
  - rewrite len_app, addGap_bytes. lia.
  - split; [lia|]. rewrite addGap_seq. case_match; lia.
Qed.

End view.

(** ** Dropping the oldest payloads *)
Lemma addGap_set_next st s n v :
  addGapLocked (st <| next := v |>) s n = (addGapLocked st s n) <| next := v |>.
Proof.
  unfold addGapLocked. destruct (n =? 0); [done|]. cbn.
  destruct (pendingGapBytes st =? 0); cbn; by destruct (s >? pendingGapSeq st).
Qed.

Lemma gap_add_set_next st l v : gap_add (st <| next := v |>) l = (gap_add st l) <| next := v |>.
Proof.
  revert st. induction l as [|x l IH]; intros st; [done|].
  by rewrite !gap_add_cons, addGap_set_next, IH.
Qed.

Lemma set_next_id st : st <| next := st.(next) |> = st.
Proof. by destruct st. Qed.

(** What dropping a prefix does to one consumer: a prefix [n1] of its queue loses
    the payloads that are not in flight, which join the gap. *)
Definition drop_rel (c : terminalOutputConsumer) (all : list terminalOutputNode)
    (st : terminalOutputConsumerState) (ns : list terminalOutputNode)
    (st' : terminalOutputConsumerState) (ns' : list terminalOutputNode) : Prop :=
  let fl (x : Z * bytes) := outputNodeInFlightLocked all st x.1 in
  ∃ n1 n2 nx,
    queue c ns = n1 ++ n2 ∧
    queue c ns' = filter (λ x, fl x = true) n1 ++ n2 ∧
    st' = (gap_add st (filter (λ x, fl x = false) n1)) <| next := nx |> ∧
    ((∀ x, x ∈ queue c ns → fl x = false) → next st = head_seq (queue c ns) →
     nx = head_seq (queue c ns')) ∧
    (next st = None → nx = None).

Lemma drop_rel_refl c all st ns : drop_rel c all st ns st ns.
Proof. exists [], (queue c ns), st.(next). split_and!; try done. by rewrite set_next_id. Qed.

Lemma drop_rel_cons c all st n rest st1 m0 m1 m2 st' rest' :
  has_bit c m0 = has_bit c n.(pending) →
  drop_oldest_one all rest n c st m0 = (st1, m1) →
  has_bit c m2 = has_bit c m1 →
  drop_rel c all st1 rest st' rest' →
  drop_rel c all st (n :: rest) st' (mkNode n.(payload) n.(seq) m2 :: rest').
Proof.
  intros H0 E H2 (n1 & n2 & nx & Hq & Hq' & Hst & Hn1 & Hn2). revert E.
  unfold drop_oldest_one, drop_rel. rewrite H0.
  destruct (has_bit c n.(pending)) eqn:Hb; simpl; rewrite H2.
  - destruct (outputNodeInFlightLocked all st n.(seq)) eqn:Hf; intros [= <- <-].
    + rewrite ?H0, ?Hb. exists ((n.(seq), n.(payload)) :: n1), n2, nx. rewrite Hq, Hq'.
      rewrite filter_cons_True, filter_cons_False by (simpl; congruence).
      split_and!; try done. intros Hall _. exfalso.
      specialize (Hall (n.(seq), n.(payload)) ltac:(set_solver)). simpl in Hall. congruence.
    + rewrite ?has_clear_same.
      set (st1 := if bool_decide _ then _ else _) in *.
      assert (∃ v, st1 = (addGapLocked st n.(seq) (len n.(payload))) <| next := v |> ∧
                (next st = Some n.(seq) → v = head_seq (queue c rest)) ∧
                (next st = None → v = None)) as (v & Hst1 & Hv1 & Hv2).
      { unfold st1. rewrite addGap_next. case_bool_decide as Hd.
        - eexists; split; [done|]. rewrite nextPending_queue. split; [done|congruence].
        - eexists; split; [symmetry; apply set_next_id|]. rewrite addGap_next. split; congruence. }
      assert (∀ x, outputNodeInFlightLocked all st1 x = outputNodeInFlightLocked all st x) as Hfr.
      { intros x. rewrite Hst1. change (outputNodeInFlightLocked all (_ <| next := v |>) x) with
          (outputNodeInFlightLocked all (addGapLocked st n.(seq) (len n.(payload))) x).
        apply inflight_frame, addGap_frame. }
      assert (∀ (b : bool) (l : list (Z * bytes)), filter (λ x : Z * bytes, outputNodeInFlightLocked all st1 x.1 = b) l =
                     filter (λ x : Z * bytes, outputNodeInFlightLocked all st x.1 = b) l) as Hfil.
      { intros b l. apply list_filter_iff. intros x. by rewrite Hfr. }
      rewrite Hfil in Hst, Hq'.
      exists ((n.(seq), n.(payload)) :: n1), n2, nx. rewrite ?Hb, Hq'.
      rewrite filter_cons_False, filter_cons_True by (simpl; congruence).
      split_and!; [by rewrite Hq | done | | |].
      * by rewrite Hst, gap_add_cons, Hst1, gap_add_set_next.
      * intros Hall Hnx. rewrite <- Hq'. apply Hn1.
        -- intros x Hx. rewrite Hfr. apply Hall. set_solver.
        -- rewrite Hst1. apply Hv1. rewrite Hnx. done.
      * intros Hnx. apply Hn2. rewrite Hst1. by apply Hv2.
  - intros [= <- <-]. rewrite ?H0, ?Hb. exists n1, n2, nx. done.
Qed.

Lemma drop_oldest_one_mask all rest n c st m st' m' :
  drop_oldest_one all rest n c st m = (st', m') →
  (mask_ok m → mask_ok m') ∧ ∀ c', c' ≠ c → has_bit c' m' = has_bit c' m.
Proof.
  unfold drop_oldest_one. destruct (_ || _); intros [= <- <-]; [done|].
  split; [apply clear_bit_ok | intros c' Hc; by apply has_clear_other].
Qed.

Lemma drop_oldest_nodes_spec all req pot live hist ns live' hist' ns' :
  drop_oldest_nodes all req pot live hist ns = (live', hist', ns') →
  relabel ns ns' ∧ drop_rel ConsumerLive all live ns live' ns' ∧
  drop_rel ConsumerHistory all hist ns hist' ns'.
Proof.
  revert pot live hist live' hist' ns'.
  induction ns as [|n ns IH]; intros pot live hist live' hist' ns'; cbn [drop_oldest_nodes].
  { intros [= <- <- <-]. split_and!; [done | apply drop_rel_refl..]. }
  destruct (pot <? req); [|intros [= <- <- <-]; split_and!; [done | apply drop_rel_refl..]].
  destruct (drop_oldest_one all ns n ConsumerLive live _) as [l1 m1] eqn:E1.
  destruct (drop_oldest_one all ns n ConsumerHistory hist m1) as [h1 m2] eqn:E2.
  destruct (drop_oldest_nodes all req _ l1 h1 ns) as [[l2 h2] rest'] eqn:E3.
  intros [= <- <- <-]. destruct (IH _ _ _ _ _ _ E3) as (Hr & Hl & Hh).
  destruct (drop_oldest_one_mask _ _ _ _ _ _ _ _ E1) as [Hm1 Ho1].
  destruct (drop_oldest_one_mask _ _ _ _ _ _ _ _ E2) as [Hm2 Ho2].
  split_and!.
  - by apply relabel_cons; [auto|].
  - eapply drop_rel_cons; [| exact E1 | by apply Ho2 | exact Hl]. done.
  - eapply drop_rel_cons; [| exact E2 | done | exact Hh]. by apply Ho1.
Qed.

Lemma head_seq_app_nil (q : list (Z * bytes)) : head_seq ([] ++ q) = head_seq q.
Proof. done. Qed.

Lemma gap_add_seq_lt st (l : list (Z * bytes)) b :
  pendingGapSeq st < b → Forall (λ x, x.1 < b) l → pendingGapSeq (gap_add st l) < b.
Proof.
  intros Hs Hl. cut (pendingGapSeq (gap_add st l) ≤ b - 1); [lia|].
  apply gap_add_seq_le; [lia|]. eapply Forall_impl; [exact Hl|]. simpl. lia.
Qed.

Lemma cview_drop_rel ns nseq c st fly q g1 g2 st' ns' :
  sorted (seqs ns) → Forall (λ s, s ≤ nseq) (seqs ns) →
  cview ns nseq c st fly q g1 g2 → drop_rel c ns st ns st' ns' →
  ∃ q1 q2, q = q1 ++ q2 ∧ cview ns' nseq c st' fly q2 g1 (g2 ++ flat q1).
Proof.
  intros Hs Hb V (n1 & n2 & nx & Hq & Hq' & -> & Hn1 & Hn2).
  destruct (cview_inflight _ _ _ _ _ _ _ _ Hs V) as [Hfly Hfq].
  pose proof (cv_queue _ _ _ _ _ _ _ _ V) as HQ.
  assert (∃ q1 q2, q = q1 ++ q2 ∧ queue c ns' = fly ++ q2 ∧
    filter (λ x : Z * bytes, outputNodeInFlightLocked ns st x.1 = false) n1 = q1)
    as (q1 & q2 & -> & HQ' & ->).
  { rewrite HQ in Hq. apply app_eq_inv in Hq as [(k & -> & ->)|(k & -> & ->)].
    - exists [], q. rewrite Hq'.
      destruct (filter_split (λ x, outputNodeInFlightLocked ns st x.1) n1 []) as [E1 E2];
        [intros; apply Hfly; set_solver | set_solver |].
      rewrite app_nil_r in E1, E2. rewrite E1, E2, app_assoc. done.
    - exists k, n2. destruct (filter_split (λ x, outputNodeInFlightLocked ns st x.1) fly k
        Hfly) as [E1 E2]; [intros; apply Hfq; set_solver|].
      rewrite Hq', E1, E2. done. }
  exists q1, q2. split; [done|].
  pose proof (sorted_queue c ns Hs) as Hsq. rewrite HQ, !fmap_app in Hsq.
  apply sorted_app in Hsq as (_ & Hsq & _). apply sorted_app in Hsq as (_ & _ & Hlt).
  assert (Forall (λ x : Z * bytes, x.1 ≤ nseq) q1) as Hqb.
  { apply Forall_forall. intros x Hx. rewrite Forall_forall in Hb. apply Hb, (queue_fst c).
    rewrite HQ. apply list_elem_of_fmap_2. set_solver. }
  destruct (gap_add_frame st q1) as [(Fa & _ & _ & Ff & Fl & Fg & Fc & _) _].
  destruct V. split; simpl; rewrite ?Fa, ?Ff, ?Fl, ?Fg, ?Fc; auto.
  - rewrite len_app, gap_add_bytes. lia.
  - intros Ha ->. rewrite Hn1; [by rewrite HQ' | | rewrite HQ; auto].
    intros x Hx. apply Hfq. by rewrite HQ in Hx.
  - intros Ha. destruct (cv_dead0 Ha) as [Hnil Hnx]. apply app_nil in Hnil as [-> ->]. auto.
  - rewrite !Forall_app in *. tauto.
  - split; [tauto|]. apply gap_add_seq_le; [tauto|done].
  - intros g Hg. destruct (cv_order3 g Hg) as (? & ? & Hgo). rewrite Forall_app in Hgo. tauto.
  - apply Forall_app in cv_order4 as [_ Ho]. rewrite Forall_forall in Ho |- *.
    intros x Hx. apply gap_add_seq_lt; [auto|]. apply Forall_forall. intros y Hy.
    apply Hlt; by apply list_elem_of_fmap_2.
Qed.

(** ** The buffer invariant *)
Definition upd {A} (c : terminalOutputConsumer) (v : A) (f : terminalOutputConsumer → A) :=
  λ c', if decide (c' = c) then v else f c'.

Record buffer_inv (b : terminalOutputBuffer) (p : terminalOutputConsumer → pend) : Prop := {
  bi_sorted : sorted (seqs b.(nodes));
  bi_seqs : Forall (λ s, 0 < s ≤ b.(nextSeq)) (seqs b.(nodes));
  bi_nextSeq : 0 ≤ b.(nextSeq);
  bi_masks : nodes_ok b.(nodes);
  bi_resident : b.(resident) = nodes_bytes b.(nodes);
  bi_cap : b.(resident) ≤ b.(config).(CapacityBytes);
  bi_config : Validate b.(config) = None;
  bi_closed : b.(closed) = true → ∀ c, (consumers b c).(active) = false;
  bi_view : ∀ c, view b.(nodes) b.(nextSeq) c (consumers b c) (p c) }.

(** No node is kept that no consumer waits for. *)
Definition reclaimed (b : terminalOutputBuffer) : Prop :=
  Forall (λ n, n.(pending) ≠ 0) b.(nodes).

(** What an operation on behalf of a writer, or of the other consumer, leaves alone:
    the configuration and every consumer's work in flight. *)
Record buffer_frame (b b' : terminalOutputBuffer) : Prop := {
  bf_config : b'.(config) = b.(config);
  bf_closed : b'.(closed) = b.(closed);
  bf_sealed : b'.(sealed) = b.(sealed);
  bf_consumer : ∀ c, same_frame (consumers b c) (consumers b' c) }.

#[export] Instance buffer_frame_preorder : PreOrder buffer_frame.
Proof.
  split; [intros b; split; reflexivity|]. intros a b c [] []. split; try congruence.
  intros c'. etrans; [apply bf_consumer0 | apply bf_consumer1].
Qed.

Lemma consumers_set c c' st b :
  consumers (set_consumer c st b) c' = upd c st (consumers b) c'.
Proof. by destruct c, c'. Qed.

Lemma set_consumer_fields c st b :
  nodes (set_consumer c st b) = nodes b ∧ nextSeq (set_consumer c st b) = nextSeq b ∧
  resident (set_consumer c st b) = resident b ∧ config (set_consumer c st b) = config b ∧
  closed (set_consumer c st b) = closed b ∧ sealed (set_consumer c st b) = sealed b.
Proof. by destruct c. Qed.

Lemma upd_same {A} c (v : A) f : upd c v f c = v.
Proof. unfold upd. by rewrite decide_True. Qed.
Lemma upd_other {A} c c' (v : A) f : c' ≠ c → upd c v f c' = f c'.
Proof. intros. unfold upd. by rewrite decide_False. Qed.

Lemma view_queue ns ns' nseq c st p :
  queue c ns' = queue c ns → view ns nseq c st p → view ns' nseq c st p.
Proof.
  intros Hq (fly & q & g1 & g2 & V & ->). exists fly, q, g1, g2. split; [|done].
  by apply (cview_queue ns).
Qed.

Lemma view_mono ns nseq nseq' c st p :
  nseq ≤ nseq' → view ns nseq c st p → view ns nseq' c st p.
Proof.
  intros Hn (fly & q & g1 & g2 & V & ->). exists fly, q, g1, g2. split; [|done].
  by apply (cview_mono ns nseq).
Qed.

(** One consumer's state and its bits change. *)
Lemma inv_update b p c st' ns' p' :
  buffer_inv b p → relabel b.(nodes) ns' →
  (∀ c', c' ≠ c → queue c' ns' = queue c' b.(nodes)) →
  view ns' b.(nextSeq) c st' p' →
  (b.(closed) = true → st'.(active) = false) →
  buffer_inv (set_consumer c st' (b <| nodes := ns' |>)) (upd c p' p).
Proof.
  intros [] [Hc Hok] Ho Hv Hcl.
  destruct (set_consumer_fields c st' (b <| nodes := ns' |>)) as (E1 & E2 & E3 & E4 & E5 & E6).
  simpl in *. split; rewrite ?E1, ?E2, ?E3, ?E4, ?E5; auto.
  - by rewrite (contents_seqs _ _ Hc).
  - by rewrite (contents_seqs _ _ Hc).
  - by rewrite (contents_bytes _ _ Hc).
  - intros Hclosed c'. rewrite consumers_set. unfold upd. case_decide; [auto|].
    by apply (bi_closed0 Hclosed c').
  - intros c'. rewrite consumers_set. unfold upd. case_decide; [by subst|].
    apply (view_queue b.(nodes)); [auto|]. apply bi_view0.
Qed.

(** Only one consumer's state changes. *)
Lemma inv_set_consumer b p c st' p' :
  buffer_inv b p → view b.(nodes) b.(nextSeq) c st' p' →
  (b.(closed) = true → st'.(active) = false) →
  buffer_inv (set_consumer c st' b) (upd c p' p).
Proof.
  intros Hb Hv Hc.
  replace b with (b <| nodes := b.(nodes) |>) at 1 by (by destruct b).
  by apply inv_update.
Qed.

Lemma inv_ext b p p' : (∀ c, p c = p' c) → buffer_inv b p → buffer_inv b p'.
Proof. intros He []. split; auto. intros c. rewrite <- He. auto. Qed.

Lemma inv_bump b p : buffer_inv b p → buffer_inv (b <| nextSeq := b.(nextSeq) + 1 |>) p.
Proof.
  intros []. split; simpl; auto; [|lia|].
  - eapply Forall_impl; [exact bi_seqs0|]. simpl. lia.
  - intros c. apply (view_mono _ b.(nextSeq)); [lia|]. apply bi_view0.
Qed.

(** ** Reclaiming *)
Lemma queue_reclaim c ns :
  queue c (filter (λ n : terminalOutputNode, n.(pending) ≠ 0) ns) = queue c ns.
Proof.
  induction ns as [|n ns IH]; [done|]. destruct (decide (n.(pending) = 0)) as [H0|H0].
  - rewrite filter_cons_False by auto. simpl. by rewrite H0, has_bit_zero.
  - rewrite filter_cons_True by done. simpl. by rewrite IH.
Qed.

Lemma nodes_bytes_split ns :
  nodes_bytes ns = nodes_bytes (filter (λ n : terminalOutputNode, n.(pending) ≠ 0) ns)
                 + nodes_bytes (filter (λ n : terminalOutputNode, n.(pending) = 0) ns).
Proof.
  induction ns as [|n ns IH]; [done|]. destruct (decide (n.(pending) = 0)).
  - rewrite filter_cons_False, filter_cons_True by auto. simpl. lia.
  - rewrite filter_cons_True, filter_cons_False by auto. simpl. lia.
Qed.

Lemma nodes_bytes_nonneg ns : 0 ≤ nodes_bytes ns.
Proof. induction ns as [|n ns IH]; simpl; [lia|]. pose proof (len_nonneg n.(payload)). lia. Qed.

Lemma sublist_seqs (P : terminalOutputNode → Prop) `{∀ n, Decision (P n)} ns :
  sorted (seqs ns) → sorted (seqs (filter P ns)).
Proof.
  unfold sorted, seqs. induction ns as [|n ns IH]; simpl; [constructor|].
  inversion_clear 1 as [|? ? Hs Hf]. specialize (IH Hs). destruct (decide (P n)).
  - rewrite filter_cons_True by done. simpl. constructor; [done|].
    rewrite Forall_forall in Hf |- *. intros s Hin. apply Hf.
    apply list_elem_of_fmap in Hin as (m & -> & Hm). apply list_elem_of_filter in Hm as [_ Hm].
    by apply list_elem_of_fmap_2.
  - by rewrite filter_cons_False.
Qed.

Lemma seqs_filter (P : terminalOutputNode → Prop) `{∀ n, Decision (P n)} (Q : Z → Prop) ns :
  Forall Q (seqs ns) → Forall Q (seqs (filter P ns)).
Proof.
  unfold seqs. rewrite !Forall_forall. intros HQ s Hin. apply HQ.
  apply list_elem_of_fmap in Hin as (m & -> & Hm). apply list_elem_of_filter in Hm as [_ Hm].
  by apply list_elem_of_fmap_2.
Qed.

Lemma inv_reclaim b p b' freed :
  buffer_inv b p → reclaimLocked b = (b', freed) →
  buffer_inv b' p ∧ reclaimed b' ∧ buffer_frame b b' ∧
  b'.(nextSeq) = b.(nextSeq) ∧ 0 ≤ freed ∧ b'.(resident) = b.(resident) - freed.
Proof.
  intros [] [= <- <-].
  change (foldr _ 0 ?l) with (nodes_bytes l).
  pose proof (nodes_bytes_split b.(nodes)) as Hsp.
  pose proof (nodes_bytes_nonneg (filter (λ n : terminalOutputNode, n.(pending) = 0) b.(nodes))).
  split_and!; simpl; try done.
  - split; simpl; auto; try lia.
    + by apply sublist_seqs.
    + by apply seqs_filter.
    + unfold nodes_ok in *. rewrite Forall_forall in *. intros n Hn. apply bi_masks0.
      by apply list_elem_of_filter in Hn as [_ Hn].
    + intros c. apply (view_queue b.(nodes)); [apply queue_reclaim|]. apply bi_view0.
  - unfold reclaimed. simpl. apply Forall_forall. intros n Hn.
    by apply list_elem_of_filter in Hn as [Hn _].
Qed.

Lemma bi_seqs_le b p : buffer_inv b p → Forall (λ s, s ≤ b.(nextSeq)) (seqs b.(nodes)).
Proof. intros []. eapply Forall_impl; [exact bi_seqs0|]. simpl. lia. Qed.

(** ** Dropping what is queued for one consumer *)

(** The unreported bytes of a consumer, and those with [x] appended. *)
Definition pd_all (p : pend) : bytes := p.(pd_fly) ++ p.(pd_rest).
Definition pd_app (p : pend) (x : bytes) : pend := mkPend p.(pd_fly) (p.(pd_rest) ++ x).

(** The state of [c] after its queue was dropped: nothing is queued any more, and
    the view is unchanged. *)
Definition queue_dropped (b : terminalOutputBuffer) (c : terminalOutputConsumer) (p : pend) :=
  ∃ fly g1 g2, cview b.(nodes) b.(nextSeq) c (consumers b c) fly [] g1 g2 ∧
    p = mkPend (flat fly) (g1 ++ g2).

Lemma drop_queued_set_next c n0 b :
  set_consumer c ((consumers (drop_queued c b) c) <| next := n0 |>) (drop_queued c b) =
  let '(st, ns) := drop_queued_nodes b.(nodes) c (consumers b c) b.(nodes) in
  set_consumer c (st <| next := n0 |>) (b <| nodes := ns |>).
Proof.
  unfold drop_queued. destruct (drop_queued_nodes _ _ _ _) as [st ns].
  rewrite consumers_set, upd_same. by destruct c.
Qed.

Lemma inv_drop_queued c b p n0 b' :
  buffer_inv b p →
  set_consumer c ((consumers (drop_queued c b) c) <| next := n0 |>) (drop_queued c b) = b' →
  ((consumers b c).(active) = false → n0 = None) →
  ((consumers b c).(active) = true → (consumers b c).(inFlight) = None → n0 = None) →
  buffer_inv b' p ∧ queue_dropped b' c (p c) ∧ buffer_frame b b' ∧
  b'.(nextSeq) = b.(nextSeq) ∧ b'.(resident) = b.(resident).
Proof.
  intros Hb <- Hn1 Hn2. rewrite drop_queued_set_next.
  destruct (drop_queued_nodes _ _ _ _) as [st ns] eqn:E.
  destruct (bi_view _ _ Hb c) as (fly & q & g1 & g2 & V & Hp).
  pose proof (bi_sorted _ _ Hb) as Hs. pose proof (bi_seqs_le _ _ Hb) as Hle.
  destruct (drop_queued_nodes_spec _ _ _ _ _ _ E) as (Hst & Hrel & _ & Ho).
  assert (same_frame (consumers b c) st) as Hfr by (rewrite Hst; apply gap_add_frame).
  assert (cview ns b.(nextSeq) c (st <| next := n0 |>) fly [] g1 (g2 ++ flat q)) as V'.
  { eapply cview_drop_queued; try done. intros Ha Hf. apply Hn2; [done|].
    by rewrite (cv_first _ _ _ _ _ _ _ _ V), Hf. }
  destruct (set_consumer_fields c (st <| next := n0 |>) (b <| nodes := ns |>))
    as (E1 & E2 & E3 & E4 & E5 & E6).
  split_and!; try done.
  - apply (inv_ext _ (upd c (p c) p)); [intros c'; unfold upd; case_decide; congruence|].
    apply inv_update; try done.
    + exists fly, [], g1, (g2 ++ flat q). split; [done|]. rewrite Hp.
      unfold flat at 3. simpl. by rewrite app_nil_r.
    + intros Hcl. simpl. destruct Hfr as [-> _]. by apply (bi_closed _ _ Hb).
  - exists fly, g1, (g2 ++ flat q). rewrite E1, E2, consumers_set, upd_same. done.
  - split; try done. intros c'. rewrite consumers_set. unfold upd. case_decide; subst; [|by destruct c'].
    etrans; [exact Hfr|]. unfold same_frame. by split_and!.
Qed.

Lemma set_set_consumer c st st' b :
  set_consumer c st (set_consumer c st' b) = set_consumer c st b.
Proof. by destruct c. Qed.

Lemma frame_set_consumer c st b :
  same_frame (consumers b c) st → buffer_frame b (set_consumer c st b).
Proof.
  intros Hf. destruct (set_consumer_fields c st b) as (E1 & E2 & E3 & E4 & E5 & E6).
  split; try done. intros c'. rewrite consumers_set. unfold upd. by case_decide; subst.
Qed.

Lemma inv_add_gap c b p chunk s :
  buffer_inv b p → queue_dropped b c (p c) → s ≤ b.(nextSeq) →
  buffer_inv (set_consumer c (addGapLocked (consumers b c) s (len chunk)) b)
    (upd c (pd_app (p c) chunk) p).
Proof.
  intros Hb (fly & g1 & g2 & V & Hp) Hs. apply inv_set_consumer; [done| |].
  - exists fly, [], g1, (g2 ++ chunk). split.
    + by apply cview_add_gap.
    + rewrite Hp. unfold pd_app. simpl. unfold flat at 2. simpl. by rewrite app_nil_r, app_assoc.
  - intros Hcl. destruct (addGap_frame (consumers b c) s (len chunk)) as [-> _].
    by apply (bi_closed _ _ Hb).
Qed.

(** The queue of [c] and then [chunk] become its gap; [n0] is the new [next]. *)
Lemma inv_gap_over c b p n0 chunk s :
  buffer_inv b p → s ≤ b.(nextSeq) →
  ((consumers b c).(active) = false → n0 = None) →
  ((consumers b c).(active) = true → (consumers b c).(inFlight) = None → n0 = None) →
  let b1 := set_consumer c ((consumers (drop_queued c b) c) <| next := n0 |>) (drop_queued c b) in
  let b' := set_consumer c (addGapLocked (consumers b1 c) s (len chunk)) b1 in
  buffer_inv b' (upd c (pd_app (p c) chunk) p) ∧ buffer_frame b b' ∧
  b'.(nextSeq) = b.(nextSeq) ∧ b'.(resident) = b.(resident) ∧
  (∀ c', c' ≠ c → consumers b' c' = consumers b c').
Proof.
  intros Hb Hs Hn1 Hn2 b1 b'.
  destruct (inv_drop_queued c b p n0 b1 Hb eq_refl Hn1 Hn2) as (Hb1 & Hd & Hf & Hq & Hr).
  destruct (set_consumer_fields c (addGapLocked (consumers b1 c) s (len chunk)) b1)
    as (E1 & E2 & E3 & _).
  split_and!.
  - apply inv_add_gap; [done|done|lia].
  - etrans; [exact Hf|]. apply frame_set_consumer, addGap_frame.
  - unfold b'. congruence.
  - unfold b'. congruence.
  - intros c' Hc. unfold b', b1. rewrite consumers_set, upd_other, drop_queued_set_next by done.
    destruct (drop_queued_nodes _ _ _ _). rewrite consumers_set, upd_other by done. by destruct c'.
Qed.

(** ** Incoming payloads that are dropped *)

(** A chunk the buffer took responsibility for: every active consumer will be told
    about it. *)
Definition accepted (b : terminalOutputBuffer) (chunk : bytes)
    (p : terminalOutputConsumer → pend) : terminalOutputConsumer → pend :=
  λ c, if (consumers b c).(active) then pd_app (p c) chunk else p c.

Lemma inv_drop_incoming b p chunk b' freed :
  buffer_inv b p → dropIncomingLocked (len chunk) b = (b', freed) →
  buffer_inv b' (accepted b chunk p) ∧ reclaimed b' ∧ buffer_frame b b' ∧
  0 ≤ freed ∧ b'.(resident) = b.(resident) - freed.
Proof.
  intros Hb. unfold dropIncomingLocked, for_consumers, all_consumers. cbn [fold_left].
  set (b0 := b <| nextSeq := _ |>).
  set (f := λ (c : terminalOutputConsumer) (b : terminalOutputBuffer),
    if negb (consumers b c).(active) then b
    else set_consumer c (addGapLocked ((consumers (drop_queued c b) c) <| next := None |>)
           b0.(nextSeq) (len chunk)) (drop_queued c b)).
  intros E. change (reclaimLocked (f ConsumerHistory (f ConsumerLive b0)) = (b', freed)) in E.
  assert (∀ c x px, buffer_inv x px → x.(nextSeq) = b0.(nextSeq) →
    buffer_inv (f c x) (upd c (accepted x chunk px c) px) ∧ buffer_frame x (f c x) ∧
    (f c x).(nextSeq) = x.(nextSeq) ∧ (f c x).(resident) = x.(resident)) as Hstep.
  { intros c x px Hx Hn. unfold f, accepted.
    destruct (consumers x c).(active) eqn:Ha; simpl.
    - destruct (inv_gap_over c x px None chunk b0.(nextSeq) Hx) as (H1 & H2 & H3 & H4 & _);
        [simpl in *; lia|done|done|].
      cbn zeta in *. rewrite consumers_set, upd_same, set_set_consumer in *. done.
    - split_and!; try done. apply (inv_ext _ px); [|done]. intros c'. unfold upd.
      by case_decide; subst. }
  destruct (Hstep ConsumerLive b0 p) as (H1 & F1 & N1 & R1); [by apply inv_bump|done|].
  destruct (Hstep ConsumerHistory _ _ H1) as (H2 & F2 & N2 & R2); [congruence|].
  destruct (inv_reclaim _ _ _ _ H2 E) as (H3 & Hrec & F3 & N3 & Hfr & R3).
  split_and!; try done.
  - eapply inv_ext; [|exact H3]. intros c. unfold upd, accepted.
    destruct (bf_consumer _ _ F1 ConsumerHistory) as [-> _].
    destruct c; simpl; repeat case_decide; done.
  - etrans; [|exact F3]. etrans; [|exact F2]. etrans; [|exact F1]. by split; [..|intros []].
  - rewrite R3, R2, R1. done.
Qed.

(** ** Evicting the oldest payloads *)
Lemma gap_add_next_frame st l nx : same_frame st ((gap_add st l) <| next := nx |>).
Proof.
  destruct (gap_add_frame st l) as [Hf _]. etrans; [exact Hf|]. unfold same_frame. by split_and!.
Qed.

Lemma view_drop_rel b p c st' ns' :
  buffer_inv b p → drop_rel c b.(nodes) (consumers b c) b.(nodes) st' ns' →
  view ns' b.(nextSeq) c st' (p c) ∧ same_frame (consumers b c) st'.
Proof.
  intros Hb Hd. destruct (bi_view _ _ Hb c) as (fly & q & g1 & g2 & V & Hp). split.
  - destruct (cview_drop_rel _ _ _ _ _ _ _ _ _ _ (bi_sorted _ _ Hb) (bi_seqs_le _ _ Hb) V Hd)
      as (q1 & q2 & -> & V').
    exists fly, q2, g1, (g2 ++ flat q1). split; [done|].
    rewrite Hp, flat_app. by rewrite <- !app_assoc.
  - destruct Hd as (n1 & n2 & nx & _ & _ & -> & _). apply gap_add_next_frame.
Qed.

Lemma inv_drop_oldest b p required b' freed :
  buffer_inv b p → reclaimed b → dropOldestLocked required b = (b', freed) →
  buffer_inv b' p ∧ reclaimed b' ∧ buffer_frame b b' ∧
  b'.(nextSeq) = b.(nextSeq) ∧ 0 ≤ freed ∧ b'.(resident) = b.(resident) - freed.
Proof.
  intros Hb Hrec. unfold dropOldestLocked. destruct (required <=? 0).
  { intros [= <- <-]. split_and!; try done. lia. }
  destruct (drop_oldest_nodes _ _ _ _ _ _) as [[live hist] ns] eqn:E.
  destruct (drop_oldest_nodes_spec _ _ _ _ _ _ _ _ _ E) as ([Hc Hok] & Hl & Hh).
  set (b1 := b <| nodes := ns |> <| consumer_live := live |> <| consumer_history := hist |>).
  destruct (reclaimLocked b1) as [b2 f2] eqn:E2. intros [= <- <-].
  destruct (view_drop_rel b p ConsumerLive live ns Hb Hl) as [Vl Fl].
  destruct (view_drop_rel b p ConsumerHistory hist ns Hb Hh) as [Vh Fh].
  assert (buffer_inv b1 p) as Hb1.
  { destruct Hb. split; simpl; auto.
    - by rewrite (contents_seqs _ _ Hc).
    - by rewrite (contents_seqs _ _ Hc).
    - by rewrite (contents_bytes _ _ Hc).
    - intros Hcl []; simpl; [destruct Fl as [-> _] | destruct Fh as [-> _]]; by apply bi_closed0.
    - by intros []. }
  destruct (inv_reclaim _ _ _ _ Hb1 E2) as (Hi & Hr & Hf & Hn & H0 & Hres).
  split_and!; try done; [| rewrite Hres; simpl; lia | lia].
  etrans; [|exact Hf]. split; [done..|]. by intros [].
Qed.

(** ** Appending *)
Definition takes (b : terminalOutputBuffer) (c : terminalOutputConsumer) : bool :=
  let st := consumers b c in
  st.(active) && negb ((st.(pendingGapBytes) >? 0) || bool_decide (is_Some st.(gapInFlight))).

(** Who is told about the chunk by extending its gap. *)
Definition gapped (b : terminalOutputBuffer) (chunk : bytes)
    (p : terminalOutputConsumer → pend) : terminalOutputConsumer → pend :=
  λ c, if (consumers b c).(active) && negb (takes b c) then pd_app (p c) chunk else p c.

Definition append_step (s n : Z) (c : terminalOutputConsumer) (b : terminalOutputBuffer) :=
  let st := consumers b c in
  if st.(active) && negb (takes b c)
  then let b := dropQueuedForConsumerLocked c b in
       set_consumer c (addGapLocked (consumers b c) s n) b
  else b.

Definition take_bit (b : terminalOutputBuffer) (c : terminalOutputConsumer) (mask : Z) : Z :=
  if takes b c then Z.lor mask (bit c) else mask.

Lemma append_mask_steps s n b :
  append_mask s n b =
  let b1 := append_step s n ConsumerLive b in
  (append_step s n ConsumerHistory b1,
   take_bit b1 ConsumerHistory (take_bit b ConsumerLive 0)).
Proof.
  unfold append_mask, all_consumers.
  match goal with |- fold_left ?f _ _ = _ => set (body := f) end.
  assert (∀ x m c, body (x, m) c = (append_step s n c x, take_bit x c m)) as Hbody.
  { intros x m c. unfold body, append_step, take_bit, takes.
    destruct (consumers x c).(active); simpl; [|done]. by destruct (_ || _). }
  cbn [fold_left]. rewrite Hbody. apply Hbody.
Qed.

Lemma dropQueued_as_set c b :
  dropQueuedForConsumerLocked c b =
  set_consumer c ((consumers (drop_queued c b) c) <| next :=
    match (consumers b c).(inFlight) with None => None
    | Some _ => (consumers (drop_queued c b) c).(next) end |>) (drop_queued c b).
Proof.
  unfold dropQueuedForConsumerLocked.
  assert ((consumers (drop_queued c b) c).(inFlight) = (consumers b c).(inFlight)) as ->.
  { unfold drop_queued. destruct (drop_queued_nodes _ _ _ _) as [st ns] eqn:E.
    rewrite consumers_set, upd_same.
    destruct (drop_queued_nodes_spec _ _ _ _ _ _ E) as (-> & _).
    by destruct (gap_add_frame (consumers b c) (filter (λ x : Z * bytes,
      outputNodeInFlightLocked (nodes b) (consumers b c) x.1 = false) (queue c (nodes b))))
      as [(_ & _ & _ & -> & _) _]. }
  destruct (inFlight (consumers b c)); [|done].
  rewrite set_next_id. by destruct c, (drop_queued _ b).
Qed.

Lemma inv_append_step s chunk c b p :
  buffer_inv b p → s ≤ b.(nextSeq) →
  let b' := append_step s (len chunk) c b in
  buffer_inv b' (upd c (gapped b chunk p c) p) ∧ buffer_frame b b' ∧
  b'.(nextSeq) = b.(nextSeq) ∧ b'.(resident) = b.(resident) ∧
  (∀ c', c' ≠ c → consumers b' c' = consumers b c') ∧
  (takes b c = true → consumers b' c = consumers b c).
Proof.
  intros Hb Hs. cbn zeta. unfold append_step, gapped.
  destruct ((consumers b c).(active) && negb (takes b c)) eqn:E.
  - apply andb_true_iff in E as [Ha Ht]. rewrite dropQueued_as_set.
    destruct (inv_gap_over c b p (match (consumers b c).(inFlight) with None => None
      | Some _ => (consumers (drop_queued c b) c).(next) end) chunk s Hb Hs)
      as (H1 & H2 & H3 & H4 & H5); [congruence | by intros _ -> |].
    split_and!; try done. apply negb_true_iff in Ht. congruence.
  - split_and!; try done. apply (inv_ext _ p); [|done]. intros c'. unfold upd.
    by case_decide; subst.
Qed.

Lemma append_step_seqs s n c b : seqs (append_step s n c b).(nodes) = seqs b.(nodes).
Proof.
  unfold append_step. destruct (_ && _); [|done].
  destruct (set_consumer_fields c (addGapLocked (consumers (dropQueuedForConsumerLocked c b) c) s n)
    (dropQueuedForConsumerLocked c b)) as (-> & _).
  rewrite dropQueued_as_set, drop_queued_set_next.
  destruct (drop_queued_nodes _ _ _ _) as [st ns] eqn:E.
  match goal with |- context [set_consumer c ?st ?x] =>
    destruct (set_consumer_fields c st x) as (-> & _) end.
  apply drop_queued_nodes_spec in E as (_ & [Hc _] & _). by apply contents_seqs.
Qed.

Lemma sorted_snoc l s : sorted l → Forall (λ x, x < s) l → sorted (l ++ [s]).
Proof.
  intros Hs Hf. apply sorted_app. split_and!; [done|repeat constructor|].
  intros x y Hx Hy. apply list_elem_of_singleton in Hy as ->. by eapply Forall_forall in Hf.
Qed.

Lemma nodes_bytes_app a b : nodes_bytes (a ++ b) = nodes_bytes a + nodes_bytes b.
Proof. induction a as [|n a IH]; simpl; lia. Qed.

(** The state of an idle consumer with an empty queue, woken by the node [s]. *)
Definition woken (s : Z) (st : terminalOutputConsumerState) : terminalOutputConsumerState :=
  if bool_decide (st.(next) = None) && bool_decide (st.(inFlight) = None)
  then st <| next := Some s |> else st.

Lemma woken_frame s st : same_frame st (woken s st).
Proof. unfold woken. destruct (_ && _); [|done]. unfold same_frame. by split_and!. Qed.

Lemma view_append ns nseq c st p chunk s mask :
  view ns nseq c st p → has_bit c mask = true →
  st.(active) = true → st.(pendingGapBytes) ≤ 0 → st.(gapInFlight) = None →
  st.(completedSeq) < s → st.(pendingGapSeq) < s → s ≤ nseq →
  view (ns ++ [mkNode chunk s mask]) nseq c (woken s st) (pd_app p chunk).
Proof.
  intros (fly & q & g1 & g2 & V & ->) Hm Ha Hg Hgf Hc Hp Hs.
  assert (g1 = []) as ->.
  { apply len_nil_iff. rewrite (cv_gap1 _ _ _ _ _ _ _ _ V), Hgf. done. }
  assert (g2 = []) as ->.
  { apply len_nil_iff. pose proof (len_nonneg g2). rewrite (cv_gap2 _ _ _ _ _ _ _ _ V) in *. lia. }
  exists fly, (q ++ [(s, chunk)]), [], []. split.
  - destruct (woken_frame s st) as (Fa & _ & _ & Ff & Fl & Fg & Fc & _).
    assert (pendingGapBytes (woken s st) = pendingGapBytes st ∧
            pendingGapSeq (woken s st) = pendingGapSeq st) as [Fb Fs].
    { unfold woken. by destruct (_ && _). }
    destruct V. split; rewrite ?Fa, ?Ff, ?Fl, ?Fg, ?Fc, ?Fb, ?Fs; auto.
    + rewrite queue_app, cv_queue0. simpl. by rewrite Hm, app_assoc.
    + intros _ ->. specialize (cv_next0 Ha eq_refl). unfold woken.
      rewrite cv_next0, cv_first0. destruct q; simpl; [done|]. exact cv_next0.
    + congruence.
    + rewrite app_assoc, Forall_app. split; [done|]. by repeat constructor.
    + intros g. rewrite Hgf. done.
    + rewrite Forall_app. split; [done|]. by repeat constructor.
  - unfold pd_app. simpl. by rewrite flat_app, flat_single.
Qed.

Lemma takes_true b c :
  takes b c = true → (consumers b c).(active) = true ∧ (consumers b c).(pendingGapBytes) ≤ 0 ∧
  (consumers b c).(gapInFlight) = None.
Proof.
  unfold takes. rewrite andb_true_iff, negb_true_iff, orb_false_iff.
  intros (Ha & Hg & Hi). split_and!; [done | lia |].
  apply bool_decide_eq_false in Hi. destruct (gapInFlight _); [|done]. destruct Hi. eauto.
Qed.

Lemma takes_ext b b' c : consumers b' c = consumers b c → takes b' c = takes b c.
Proof. unfold takes. by intros ->. Qed.

Lemma take_bits t1 t2 b1 b2 :
  takes b1 ConsumerLive = t1 → takes b2 ConsumerHistory = t2 →
  let mask := take_bit b2 ConsumerHistory (take_bit b1 ConsumerLive 0) in
  has_bit ConsumerLive mask = t1 ∧ has_bit ConsumerHistory mask = t2 ∧ mask_ok mask.
Proof. unfold take_bit. intros -> ->. by destruct t1, t2. Qed.

Definition wake_all (node : terminalOutputNode) (b : terminalOutputBuffer) :=
  for_consumers (wake_consumer node) b.

Definition wake_state (node : terminalOutputNode) (c : terminalOutputConsumer)
    (st : terminalOutputConsumerState) :=
  if has_bit c node.(pending) then woken node.(seq) st else st.

Lemma set_consumer_id c b : set_consumer c (consumers b c) b = b.
Proof. by destruct c, b. Qed.

Lemma wake_consumer_set node c b :
  wake_consumer node c b = set_consumer c (wake_state node c (consumers b c)) b.
Proof.
  unfold wake_consumer, wake_state, woken. destruct (has_bit c _); simpl.
  - destruct (_ && _); [done|]. by rewrite set_consumer_id.
  - by rewrite set_consumer_id.
Qed.

Lemma wake_state_frame node c st : same_frame st (wake_state node c st).
Proof. unfold wake_state. destruct (has_bit _ _); [apply woken_frame | done]. Qed.

Lemma wake_all_fields node b :
  let b' := wake_all node b in
  b'.(config) = b.(config) ∧ b'.(nodes) = b.(nodes) ∧ b'.(resident) = b.(resident) ∧
  b'.(nextSeq) = b.(nextSeq) ∧ b'.(closed) = b.(closed) ∧ b'.(sealed) = b.(sealed) ∧
  ∀ c, consumers b' c = wake_state node c (consumers b c).
Proof.
  unfold wake_all, for_consumers, all_consumers. cbn [fold_left].
  rewrite !wake_consumer_set, !consumers_set. split_and!; try done. by intros [].
Qed.

Lemma frame_accepted_view b p chunk b3 node c nseq :
  buffer_inv b p → nseq = b.(nextSeq) + 1 → node.(seq) = nseq → node.(payload) = chunk →
  has_bit c node.(pending) = takes b c →
  (takes b c = true → consumers b3 c = consumers b c) →
  (consumers b3 c).(active) = (consumers b c).(active) →
  view b3.(nodes) nseq c (consumers b3 c) (gapped b chunk p c) →
  view (b3.(nodes) ++ [node]) nseq c
    (wake_state node c (consumers b3 c)) (accepted b chunk p c).
Proof.
  intros Hb -> Hs Hpl Hm Ht Ha V. destruct node as [pl sq mk]. simpl in *. subst.
  unfold gapped, accepted, wake_state in *. simpl. rewrite Hm.
  destruct (takes b c) eqn:Etk.
  - destruct (takes_true _ _ Etk) as (Hac & Hg & Hi). rewrite Hac in *. simpl in *.
    rewrite Ht in * by done.
    destruct (bi_view _ _ Hb c) as (fly & q & g1 & g2 & V0 & _).
    pose proof (cv_bound _ _ _ _ _ _ _ _ V0).
    by apply view_append; try done; lia.
  - rewrite andb_true_r in V. apply (view_queue b3.(nodes)); [|done].
    rewrite queue_app. simpl. by rewrite Hm, app_nil_r.
Qed.

Lemma reclaim_consumers b c : consumers (reclaimLocked b).1 c = consumers b c.
Proof. by destruct c. Qed.

Lemma Forall_seqs_lt b : ∀ p, buffer_inv b p → Forall (λ x, x < b.(nextSeq) + 1) (seqs b.(nodes)).
Proof. intros p Hb. eapply Forall_impl; [apply (bi_seqs _ _ Hb)|]. simpl. lia. Qed.

Lemma inv_append b p chunk b' ok rel :
  buffer_inv b p → reclaimed b →
  (b.(closed) || b.(sealed) = false → b.(resident) + len chunk ≤ b.(config).(CapacityBytes)) →
  writeChunk_append chunk b = (b', (ok, rel)) →
  buffer_inv b' (if ok then accepted b chunk p else p) ∧
  reclaimed b' ∧ buffer_frame b b' ∧ 0 ≤ rel ∧
  b'.(resident) = b.(resident) + len chunk - rel ∧
  ok = negb (b.(closed) || b.(sealed)).
Proof.
  intros Hb Hrb Hcap. unfold writeChunk_append.
  destruct (b.(closed) || b.(sealed)) eqn:Hcs.
  { intros [= <- <- <-]. pose proof (len_nonneg chunk). split_and!; try done. lia. }
  specialize (Hcap eq_refl).
  set (b0 := b <| nextSeq := nextSeq b + 1 |>). cbn zeta.
  change (nextSeq b0) with (nextSeq b + 1). set (s := nextSeq b + 1).
  assert (∀ c, consumers b0 c = consumers b c) as Hb0 by (by intros []).
  rewrite append_mask_steps. cbn zeta.
  set (b1 := append_step s (len chunk) ConsumerLive b0).
  set (b2 := append_step s (len chunk) ConsumerHistory b1).
  destruct (inv_append_step s chunk ConsumerLive b0 p) as (I1 & F1 & N1 & R1 & O1 & T1);
    [by apply inv_bump|done|].
  destruct (inv_append_step s chunk ConsumerHistory b1 _ I1) as (I2 & F2 & N2 & R2 & O2 & T2);
    [unfold b1; rewrite N1; done|].
  fold b1 in I1, F1, N1, R1, O1, T1. fold b2 in I2, F2, N2, R2, O2, T2.
  assert (∀ c, takes b0 c = takes b c) as Htk0 by (intros c; apply takes_ext, Hb0).
  assert (takes b1 ConsumerHistory = takes b ConsumerHistory) as Htk1.
  { rewrite <- Htk0. apply takes_ext, O1. done. }
  destruct (take_bits _ _ b0 b1 (Htk0 ConsumerLive) Htk1) as (M1 & M2 & Mok).
  set (mask := take_bit b1 ConsumerHistory (take_bit b0 ConsumerLive 0)) in *.
  assert (∀ c, has_bit c mask = takes b c) as HM by (by intros []).
  destruct (reclaimLocked b2) as [b3 freed] eqn:E3.
  destruct (inv_reclaim _ _ _ _ I2 E3) as (I3 & Rc3 & F3 & N3 & Hfr & R3).
  assert (∀ c, consumers b3 c = consumers b2 c) as Hb3.
  { intros c. rewrite <- (reclaim_consumers b2 c), E3. done. }
  assert (∀ c, takes b c = true → consumers b3 c = consumers b c) as Hsame.
  { intros c Ht. rewrite Hb3. destruct c.
    - rewrite O2, T1 by (rewrite ?Htk0; done). apply Hb0.
    - rewrite T2, O1 by (rewrite ?Htk1; done). apply Hb0. }
  assert (buffer_frame b b3) as F.
  { etrans; [|exact F3]. etrans; [|exact F2]. etrans; [|exact F1]. by split; [..|intros []]. }
  assert (buffer_inv b3 (gapped b chunk p)) as I.
  { eapply inv_ext; [|exact I3]. intros c. unfold upd, gapped.
    rewrite Htk1, (O1 ConsumerHistory) by done. rewrite !Hb0, Htk0.
    destruct c; simpl; repeat case_decide; done. }
  assert (b3.(nextSeq) = s) as HN by (rewrite N3, N2, N1; done).
  assert (resident b3 = resident b - freed) as HR by (rewrite R3, R2, R1; done).
  assert (Forall (λ x, x < s) (seqs b3.(nodes))) as Hlt.
  { injection E3 as <- _. simpl. apply seqs_filter. unfold b2, b1.
    rewrite !append_step_seqs. by apply (Forall_seqs_lt b p). }
  pose proof (len_nonneg chunk).
  destruct (mask =? 0) eqn:Hm0; intros [= <- <- <-].
  { split_and!; try done; [|lia|lia].
    apply Z.eqb_eq in Hm0. eapply inv_ext; [|exact I]. intros c. unfold gapped, accepted.
    rewrite <- HM, Hm0, has_bit_zero, andb_true_r. done. }
  apply Z.eqb_neq in Hm0.
  change (for_consumers ?f ?x) with (wake_all (mkNode chunk s mask) x).
  match goal with |- context [wake_all ?node ?x] =>
    destruct (wake_all_fields node x) as (W1 & W2 & W3 & W4 & W5 & W6 & W7);
    set (b5 := wake_all node x) in * end.
  assert (∀ c, same_frame (consumers b3 c) (consumers b5 c)) as F5.
  { intros c. rewrite W7.
    replace (consumers (_ <| resident := _ |>) c) with (consumers b3 c) by (by destruct c).
    apply wake_state_frame. }
  assert (config b5 = config b3) as W1' by exact W1.
  assert (nodes b5 = nodes b3 ++ [mkNode chunk s mask]) as W2' by exact W2.
  assert (resident b5 = resident b3 + len chunk) as W3' by exact W3.
  assert (nextSeq b5 = nextSeq b3) as W4' by exact W4.
  assert (closed b5 = closed b3) as W5' by exact W5.
  assert (sealed b5 = sealed b3) as W6' by exact W6.
  clear W1 W2 W3 W4 W5 W6.
  split_and!; [| | | done | lia | done].
  - destruct I. split; rewrite ?W1', ?W2', ?W3', ?W4', ?W5'; auto.
    + unfold seqs. rewrite fmap_app. by apply sorted_snoc.
    + unfold seqs. rewrite fmap_app, Forall_app. split; [done|].
      repeat constructor; pose proof (bi_nextSeq _ _ Hb); simpl; lia.
    + unfold nodes_ok. rewrite Forall_app. split; [done|]. by apply Forall_singleton.
    + rewrite nodes_bytes_app. simpl. lia.
    + rewrite (bf_config _ _ F), HR. lia.
    + intros Hcl c. destruct (F5 c) as [-> _]. by apply bi_closed0.
    + intros c. rewrite W7. rewrite HN.
      replace (consumers (_ <| resident := _ |>) c) with (consumers b3 c) by (by destruct c).
      apply (frame_accepted_view b); try done; [apply Hsame | |].
      * by destruct (bf_consumer _ _ F c) as [-> _].
      * rewrite <- HN. apply bi_view0.
  - unfold reclaimed. rewrite W2'. apply Forall_app. split; [done|]. by apply Forall_singleton.
  - etrans; [exact F|]. by split.
Qed.
