(* ===== verification/OutputConsume.v ===== *)
(** * The consuming side of the terminal output buffer

    What the four operations of a consumer goroutine ([next], [completeBatch],
    [completeGap], [Close]) do to the bytes the consumer has still to be told about
    ([pend], see [OutputBufferFacts]). *)
From S2P Require Import Prelude OutputBuffer OutputBufferFacts.
Local Open Scope Z_scope.

(** ** Batches *)
Lemma flat_cons s x l : flat ((s, x) :: l) = x ++ flat l.
Proof. done. Qed.

Lemma len_flat_nil : len (flat []) = 0.
Proof. done. Qed.

Lemma queue_suffix_at c s x q ns :
  sorted (seqs ns) → queue c ns = (s, x) :: q →
  ∃ n rest, suffix_at s ns = n :: rest ∧ n.(seq) = s ∧ n.(payload) = x ∧
    has_bit c n.(pending) = true ∧ queue c rest = q ∧ sorted (seqs (n :: rest)).
Proof.
  unfold sorted. induction ns as [|n ns IH]; [done|]. intros Hs. simpl.
  destruct (has_bit c n.(pending)) eqn:Hb.
  - intros [= <- <- <-]. rewrite Z.eqb_refl. by exists n, ns.
  - intros Hq. inversion_clear Hs as [|? ? Hs' Hf].
    destruct (Z.eqb_spec n.(seq) s) as [Es|].
    + exfalso. subst s. assert (n.(seq) ∈ seqs ns) as Hin by (apply (queue_fst c); rewrite Hq; set_solver).
      eapply Forall_forall in Hf; [|exact Hin]. lia.
    + by apply IH.
Qed.

Lemma coalesce_spec c total last ns :
  ∃ fly q, queue c ns = fly ++ q ∧
    coalesce_last c total last ns = default last (last_seq fly) ∧
    (fly = [] ∨ total + len (flat fly) ≤ terminalOutputChunkBytes).
Proof.
  revert total last. induction ns as [|n ns IH]; intros total last; simpl.
  { by exists [], []; split_and!; [..|left]. }
  destruct (has_bit c n.(pending)); [|apply IH].
  destruct (Z.leb_spec (total + len n.(payload)) terminalOutputChunkBytes).
  - destruct (IH (total + len n.(payload)) n.(seq)) as (fly & q & -> & -> & Hlen).
    exists ((n.(seq), n.(payload)) :: fly), q. split_and!; [done| |right].
    + unfold last_seq. rewrite last_cons. by destruct (list.last fly).
    + rewrite flat_cons, len_app. destruct Hlen as [->|Hl]; [rewrite len_flat_nil|]; lia.
  - by exists [], ((n.(seq), n.(payload)) :: queue c ns); split_and!; [..|left].
Qed.

Lemma gather_spec c l fly q ns :
  sorted (seqs ns) → queue c ns = fly ++ q → last_seq fly = Some l →
  gather c l ns = flat fly.
Proof.
  unfold sorted. revert fly. induction ns as [|n ns IH]; intros fly Hs Hq Hl; simpl in *.
  { by destruct fly. }
  inversion_clear Hs as [|? ? Hs' Hf].
  destruct (has_bit c n.(pending)); [|by apply IH].
  destruct fly as [|x fly]; [done|]. injection Hq as <- Hq. rewrite flat_cons. f_equal.
  unfold last_seq in Hl. rewrite last_cons in Hl.
  destruct (list.last fly) as [y|] eqn:Ey.
  - assert (last_seq fly = Some l) as Hl' by (unfold last_seq; by rewrite Ey).
    destruct (Z.eqb_spec n.(seq) l) as [El|]; [|by apply IH].
    exfalso. assert (l ∈ seqs ns) as Hin.
    { apply (queue_fst c). rewrite Hq, fmap_app. apply elem_of_app. left. by apply last_seq_elem. }
    eapply Forall_forall in Hf; [|exact Hin]. lia.
  - apply last_None in Ey as ->. injection Hl as <-. by rewrite Z.eqb_refl.
Qed.

Lemma next_batch_spec c s x q ns :
  sorted (seqs ns) → queue c ns = (s, x) :: q →
  ∃ fly q', queue c ns = fly ++ q' ∧ head_seq fly = Some s ∧
    next_batch c s ns = mkBatch s (default s (last_seq fly)) (flat fly) ∧
    is_Some (last_seq fly) ∧ len (flat fly) ≤ Z.max (len x) terminalOutputChunkBytes.
Proof.
  intros Hs Hq. destruct (queue_suffix_at _ _ _ _ _ Hs Hq) as (n & rest & Hsuf & Hn & Hx & _ & Hqr & Hsr).
  unfold next_batch. rewrite Hsuf, Hx.
  destruct (coalesce_spec c (len x) s rest) as (fly & q' & Hfq & -> & Hlen).
  exists ((s, x) :: fly), q'. rewrite Hq, <- Hqr, Hfq. unfold last_seq. rewrite last_cons.
  split_and!; [done|done| |by destruct (list.last fly); eexists|].
  - rewrite flat_cons. destruct (list.last fly) as [y|] eqn:Ey; simpl.
    + inversion_clear Hsr as [|? ? Hs' Hf].
      destruct (Z.eqb_spec y.1 s) as [Hy|].
      * exfalso. assert (y.1 ∈ seqs rest) as Hin.
        { apply (queue_fst c). rewrite Hfq, fmap_app. apply elem_of_app. left.
          apply last_seq_elem. unfold last_seq. by rewrite Ey. }
        eapply Forall_forall in Hf; [|exact Hin]. lia.
      * by rewrite (gather_spec c y.1 fly q') by (unfold last_seq; rewrite ?Ey; done).
    + apply last_None in Ey as ->. by rewrite Z.eqb_refl.
  - rewrite flat_cons, len_app. destruct Hlen as [->|?]; [rewrite len_flat_nil|]; lia.
Qed.

(** ** [next] *)
Definition idle (st : terminalOutputConsumerState) : Prop :=
  st.(inFlight) = None ∧ st.(gapInFlight) = None.

(** [p] split at what [next] hands out. *)
Definition next_spec (c : terminalOutputConsumer) (b b' : terminalOutputBuffer)
    (p : terminalOutputConsumer → pend) (r : next_result) : Prop :=
  match r with
  | NextWait => b' = b ∧ (consumers b c).(active) = true ∧ pd_all (p c) = []
  | NextStop => b' = b ∧
      ((consumers b c).(active) = false ∨ b.(closed) = true ∨
       b.(sealed) = true ∧ pd_all (p c) = [])
  | NextGap g =>
      buffer_inv b' p ∧ (consumers b' c).(gapInFlight) = Some g ∧
      (consumers b' c).(inFlight) = None ∧
      g.(gap_Consumer) = c ∧ 0 < g.(gap_DroppedBytes) ≤ len (p c).(pd_rest) ∧
      g.(gap_Epoch) = (consumers b c).(epoch) + 1
  | NextBatch batch => ∃ rest,
      pd_all (p c) = batch.(batch_payload) ++ rest ∧
      buffer_inv b' (upd c (mkPend batch.(batch_payload) rest) p) ∧
      (consumers b' c).(inFlight) = Some batch.(batch_first) ∧
      (consumers b' c).(inFlightLast) = Some batch.(batch_last) ∧
      (consumers b' c).(gapInFlight) = None
  end.

(** Everything but [c]'s state is as before. *)
Definition only_consumer (c : terminalOutputConsumer) (b b' : terminalOutputBuffer) : Prop :=
  b'.(config) = b.(config) ∧ b'.(nextSeq) = b.(nextSeq) ∧ b'.(closed) = b.(closed) ∧
  b'.(sealed) = b.(sealed) ∧ (∀ c', c' ≠ c → consumers b' c' = consumers b c').

Lemma only_consumer_set c st b : only_consumer c b (set_consumer c st b).
Proof.
  destruct (set_consumer_fields c st b) as (E1 & E2 & E3 & E4 & E5 & E6).
  split_and!; try done. intros c' Hc. rewrite consumers_set. by apply upd_other.
Qed.

Lemma only_consumer_refl c b : only_consumer c b b.
Proof. by split_and!. Qed.

Lemma idle_view ns nseq c st p :
  view ns nseq c st p → st.(inFlight) = None → st.(gapInFlight) = None →
  ∃ q g2, cview ns nseq c st [] q [] g2 ∧ p = mkPend [] (g2 ++ flat q).
Proof.
  intros (fly & q & g1 & g2 & V & ->) Hf Hg.
  assert (fly = []) as ->.
  { pose proof (cv_first _ _ _ _ _ _ _ _ V) as H. rewrite Hf in H. by destruct fly. }
  assert (g1 = []) as ->.
  { apply len_nil_iff. by rewrite (cv_gap1 _ _ _ _ _ _ _ _ V), Hg. }
  by exists q, g2.
Qed.

Lemma inv_next c b p b' r :
  buffer_inv b p → idle (consumers b c) → buffer_next c b = (b', r) →
  next_spec c b b' p r ∧ only_consumer c b b' ∧
  b'.(nodes) = b.(nodes) ∧ b'.(resident) = b.(resident) ∧
  (consumers b' c).(active) = (consumers b c).(active).
Proof.
  intros Hb [Hf Hg]. unfold buffer_next. set (st := consumers b c) in *.
  destruct (idle_view _ _ _ _ _ (bi_view _ _ Hb c) Hf Hg) as (q & g2 & V & Hp).
  fold st in V. assert (st.(active) = true → st.(pendingGapBytes) = 0 → st.(next) = None → pd_all (p c) = [])
    as Hempty.
  { intros Ha Hz Hn. rewrite Hp. unfold pd_all. simpl.
    pose proof (cv_next _ _ _ _ _ _ _ _ V Ha eq_refl) as H. fold st in H. rewrite Hn in H.
    destruct q; [|done].
    assert (g2 = []) as -> by (apply len_nil_iff; rewrite (cv_gap2 _ _ _ _ _ _ _ _ V); done).
    done. }
  match goal with |- context [if ?x then (b, NextWait) else _] => destruct x eqn:Hw end.
  { intros [= <- <-]. rewrite !andb_true_iff in Hw. destruct Hw as [[[[Ha Hz] Hn] _] _].
    split_and!; try done. simpl. split_and!; try done.
    apply Hempty; [done|lia|by apply bool_decide_eq_true in Hn]. }
  destruct (negb st.(active) || b.(closed)) eqn:Hs.
  { intros [= <- <-]. split_and!; try done. simpl. split; [done|].
    apply orb_true_iff in Hs as [Ha|]; [left; by apply negb_true_iff in Ha | tauto]. }
  apply orb_false_iff in Hs as [Ha Hcl]. apply negb_false_iff in Ha.
  destruct (Z.gtb_spec st.(pendingGapBytes) 0) as [Hpg|Hpg].
  - intros [= <- <-].
    match goal with |- context [set_consumer c ?x b] => set (st' := x) end.
    destruct (set_consumer_fields c st' b) as (E1 & E2 & E3 & E4 & E5 & E6).
    split_and!; try done; [|by destruct (only_consumer_set c st' b) as (_&_&_&_&?)|
      by rewrite consumers_set, upd_same].
    unfold next_spec. rewrite consumers_set, upd_same. split_and!; try done.
    + apply (inv_ext _ (upd c (p c) p)); [intros c'; unfold upd; by case_decide; subst|].
      apply inv_set_consumer; [done| |intros Hc; by rewrite Hc in Hcl].
      exists [], q, g2, []. rewrite Hp. split; [|done].
      destruct V. split; simpl; auto; [lia|..].
      * intros g [= <-]. simpl. tauto.
      * eapply Forall_impl; [exact cv_completed|]. simpl. lia.
    + rewrite Hp. simpl. rewrite len_app. pose proof (len_nonneg (flat q)).
      pose proof (cv_gap2 _ _ _ _ _ _ _ _ V). fold st in H0. lia.
  - assert (g2 = []) as ->.
    { apply len_nil_iff. pose proof (len_nonneg g2).
      pose proof (cv_gap2 _ _ _ _ _ _ _ _ V). fold st in H0. lia. }
    pose proof (cv_gap2 _ _ _ _ _ _ _ _ V) as Hz. fold st in Hz. unfold len in Hz. simpl in Hz.
    pose proof (cv_next _ _ _ _ _ _ _ _ V Ha eq_refl) as Hn. fold st in Hn.
    destruct st.(next) as [s|] eqn:En.
    2:{ intros [= <- <-]. split_and!; try done. simpl. split; [done|].
        right; right. rewrite Ha, Hcl, <- Hz in Hw.
        rewrite (bool_decide_eq_true_2 (None = None)) in Hw by done. simpl in Hw.
        rewrite andb_true_r in Hw. apply negb_false_iff in Hw. split; [done|].
        apply Hempty; done. }
    destruct q as [|[s' x] q]; [done|]. injection Hn as ->.
    destruct (next_batch_spec c s' x q b.(nodes)) as (fly & q' & Hq & Hh & Hnb & [l Hl] & _);
      [apply Hb | by rewrite (cv_queue _ _ _ _ _ _ _ _ V)|].
    rewrite Hnb, Hl. intros [= <- <-]. simpl.
    match goal with |- context [set_consumer c ?x b] => set (st' := x) end.
    destruct (set_consumer_fields c st' b) as (E1 & E2 & E3 & E4 & E5 & E6).
    split_and!; try done; [|by destruct (only_consumer_set c st' b) as (_&_&_&_&?)|
      by rewrite consumers_set, upd_same].
    pose proof (cv_queue _ _ _ _ _ _ _ _ V) as HQ. rewrite Hq in HQ. simpl in HQ.
    exists (flat q'). rewrite consumers_set, upd_same.
    split_and!; try done.
    + rewrite Hp. unfold pd_all. simpl. by rewrite <- HQ, flat_app.
    + apply inv_set_consumer; [done| |intros Hc; by rewrite Hc in Hcl].
      exists fly, q', [], []. split; [|done].
      destruct V. split; simpl; auto; try congruence.
      * rewrite Hg. by intros [? ?].
      * rewrite <- HQ in cv_order2. by apply Forall_app in cv_order2 as [_ ?].
Qed.

(** ** Completing a batch *)
Definition others_queue (c : terminalOutputConsumer) (ns ns' : list terminalOutputNode) : Prop :=
  ∀ c', c' ≠ c → queue c' ns' = queue c' ns.

Definition cleared (c : terminalOutputConsumer) (n : terminalOutputNode) : terminalOutputNode :=
  mkNode n.(payload) n.(seq) (clear_bit c n.(pending)).

Lemma queue_cleared c n ns : queue c (cleared c n :: ns) = queue c ns.
Proof. simpl. by rewrite has_clear_same. Qed.

Lemma others_cleared c n ns ns' :
  others_queue c ns ns' → others_queue c (n :: ns) (cleared c n :: ns').
Proof. intros Ho c' Hc. simpl. rewrite has_clear_other by done. by rewrite Ho. Qed.

Lemma others_cons c n ns ns' : others_queue c ns ns' → others_queue c (n :: ns) (n :: ns').
Proof. intros Ho c' Hc. simpl. by rewrite Ho. Qed.

Lemma relabel_cleared c n ns ns' : relabel ns ns' → relabel (n :: ns) (cleared c n :: ns').
Proof. intros. apply relabel_cons; [apply clear_bit_ok | done]. Qed.

Lemma relabel_refl ns : relabel ns ns.
Proof. reflexivity. Qed.

Lemma last_seq_cons s x fly : last_seq ((s, x) :: fly) = Some (default s (last_seq fly)).
Proof. unfold last_seq. rewrite last_cons. by destruct (list.last fly). Qed.

Lemma last_seq_nil : last_seq [] = None.
Proof. done. Qed.

Lemma seq_below ns n s : sorted (seqs (n :: ns)) → s ∈ seqs ns → n.(seq) < s.
Proof. inversion_clear 1 as [|? ? Hs Hf]. intros Hin. by eapply Forall_forall in Hf. Qed.

Lemma sorted_tail n ns : sorted (seqs (n :: ns)) → sorted (seqs ns).
Proof. by inversion_clear 1. Qed.

Lemma gtb_max a b : (if a >? b then a else b) = Z.max b a.
Proof. destruct (Z.gtb_spec a b); lia. Qed.

Lemma complete_rest_spec c l completed fly q ns :
  sorted (seqs ns) → queue c ns = fly ++ q → last_seq fly = Some l →
  ∃ ns' completed', complete_rest c l completed ns = (ns', completed') ∧
    relabel ns ns' ∧ queue c ns' = q ∧ others_queue c ns ns' ∧
    completed ≤ completed' ∧ l ≤ completed' ∧ (completed' = completed ∨ completed' ∈ fly.*1).
Proof.
  revert fly completed. induction ns as [|n ns IH]; intros fly completed Hs Hq Hl; simpl in *.
  { by destruct fly. }
  pose proof (sorted_tail _ _ Hs) as Hs'.
  destruct (has_bit c n.(pending)) eqn:Hb.
  - destruct fly as [|[s x] fly]; [done|]. injection Hq as <- <- Hq.
    rewrite last_seq_cons in Hl. injection Hl as Hl. rewrite gtb_max.
    destruct (last_seq fly) as [l'|] eqn:El; simpl in Hl; subst.
    + assert (l ∈ seqs ns) as Hin.
      { apply (queue_fst c). rewrite Hq, fmap_app. apply elem_of_app. left. by apply last_seq_elem. }
      pose proof (seq_below _ _ _ Hs Hin). destruct (Z.eqb_spec n.(seq) l); [lia|].
      destruct (IH fly (completed `max` n.(seq)) Hs' Hq El)
        as (ns' & k & -> & Hr & Hq' & Ho & H1 & H2 & H3).
      exists (cleared c n :: ns'), k. split_and!; try done; [..|lia|].
      * by apply relabel_cleared.
      * by rewrite queue_cleared.
      * by apply others_cleared.
      * set_solver by lia.
    + rewrite Z.eqb_refl. exists (cleared c n :: ns), (completed `max` n.(seq)).
      unfold last_seq in El. apply fmap_None, last_None in El as ->.
      split_and!; try done; [..|lia|lia|].
      * apply relabel_cleared, relabel_refl.
      * by rewrite queue_cleared.
      * by apply others_cleared.
      * destruct (Z.max_spec completed n.(seq)) as [[_ ->]|[_ ->]]; [right; set_solver|by left].
  - destruct (IH fly completed Hs' Hq Hl) as (ns' & k & -> & Hr & Hq' & Ho & H1).
    exists (n :: ns'), k. split_and!; try done; [|simpl; by rewrite Hb| | tauto..].
    + by apply relabel_skip.
    + by apply others_cons.
Qed.

Lemma complete_nodes_spec c f l completed fly q ns :
  sorted (seqs ns) → queue c ns = fly ++ q → head_seq fly = Some f → last_seq fly = Some l →
  ∃ ns' completed', complete_nodes c f l completed ns = (ns', completed') ∧
    relabel ns ns' ∧ queue c ns' = q ∧ others_queue c ns ns' ∧
    completed ≤ completed' ∧ l ≤ completed' ∧ (completed' = completed ∨ completed' ∈ fly.*1).
Proof.
  revert completed. induction ns as [|n ns IH]; intros completed Hs Hq Hh Hl.
  { simpl in Hq. by destruct fly. }
  pose proof (sorted_tail _ _ Hs) as Hs'. simpl.
  destruct fly as [|[s x] fly]; [done|]. injection Hh as ->.
  destruct (Z.eqb_spec n.(seq) f) as [Ef|Ef].
  - assert (has_bit c n.(pending) = true) as Hb.
    { destruct (has_bit c n.(pending)) eqn:Hb; [done|]. simpl in Hq. rewrite Hb in Hq.
      assert (f ∈ seqs ns) as Hin by (apply (queue_fst c); rewrite Hq; set_solver).
      pose proof (seq_below _ _ _ Hs Hin). lia. }
    pose proof (complete_rest_spec c l completed ((f, x) :: fly) q (n :: ns) Hs Hq Hl) as Hr.
    simpl in Hr. rewrite Hb in Hr. by rewrite Hb.
  - assert (has_bit c n.(pending) = false) as Hb.
    { destruct (has_bit c n.(pending)) eqn:Hb; [|done]. simpl in Hq. rewrite Hb in Hq. congruence. }
    simpl in Hq. rewrite Hb in Hq.
    destruct (IH completed Hs' Hq eq_refl Hl) as (ns' & k & -> & Hr & Hq' & Ho & H1).
    exists (n :: ns'), k. split_and!; try done; [|simpl; by rewrite Hb| | tauto..].
    + by apply relabel_skip.
    + by apply others_cons.
Qed.

Lemma queue_suffix_after c l ns :
  sorted (seqs ns) → l ∈ seqs ns → Forall (λ x, l < x.1) (queue c ns) →
  queue c (suffix_after l ns) = queue c ns.
Proof.
  unfold suffix_after. induction ns as [|n ns IH]; [set_solver|]. intros Hs Hin Hq. simpl in *.
  destruct (Z.eqb_spec n.(seq) l) as [El|Hne].
  - simpl. destruct (has_bit c n.(pending)); [|done].
    apply Forall_cons in Hq as [Hq _]. simpl in Hq. lia.
  - apply elem_of_cons in Hin as [->|Hin]; [done|]. pose proof (seq_below _ _ _ Hs Hin).
    destruct (has_bit c n.(pending)).
    + apply Forall_cons in Hq as [Hq _]. simpl in Hq. lia.
    + apply IH; [by eapply sorted_tail|done..].
Qed.

Lemma release_spec c ns :
  ∃ ns', releaseConsumerLocked c ns = (ns', len (flat (queue c ns))) ∧
    relabel ns ns' ∧ queue c ns' = [] ∧ others_queue c ns ns'.
Proof.
  induction ns as [|n ns (ns' & IH & Hr & Hq & Ho)]; simpl.
  { exists []. split_and!; try done. }
  rewrite IH. destruct (has_bit c n.(pending)) eqn:Hb.
  - exists (cleared c n :: ns'). rewrite flat_cons, len_app. split_and!.
    + f_equal. lia.
    + by apply relabel_cleared.
    + by rewrite queue_cleared.
    + by apply others_cleared.
  - exists (n :: ns'). split_and!; [done| |simpl; by rewrite Hb|].
    + by apply relabel_skip.
    + by apply others_cons.
Qed.

Lemma releaseFrom_spec c ns :
  sorted (seqs ns) →
  ∃ ns', releaseConsumerFrom c (head_seq (queue c ns)) ns = (ns', len (flat (queue c ns))) ∧
    relabel ns ns' ∧ queue c ns' = [] ∧ others_queue c ns ns'.
Proof.
  intros Hs. destruct (head_seq (queue c ns)) as [s|] eqn:Hh; simpl.
  2:{ exists ns. assert (queue c ns = []) as -> by (by destruct (queue c ns)).
      split_and!; try done. }
  induction ns as [|n ns IH]; [done|]. cbn [release_from].
  destruct (Z.eqb_spec n.(seq) s) as [Es|Es]; [apply release_spec|].
  pose proof (sorted_tail _ _ Hs) as Hs'. simpl in *.
  destruct (has_bit c n.(pending)) eqn:Hb; [injection Hh as Hh; done|].
  destruct (IH Hs' Hh) as (ns' & -> & Hr & Hq & Ho). exists (n :: ns'). split_and!.
  - done.
  - by apply relabel_skip.
  - simpl. by rewrite Hb.
  - by apply others_cons.
Qed.

(** What an acknowledged batch leaves: the consumer is idle and the bytes after the
    batch are still to come. *)
Lemma view_completed ns ns' nseq c st k nx fly q g2 :
  cview ns nseq c st fly q [] g2 → fly ≠ [] → queue c ns' = q → nx = head_seq q →
  st.(completedSeq) ≤ k ≤ nseq → Forall (λ x, k < x.1) q →
  cview ns' nseq c (st <| inFlight := None |> <| inFlightLast := None |>
      <| completedSeq := k |> <| next := nx |>) [] q [] g2.
Proof.
  intros V Hfly Hq Hnx Hk Hkq. destruct V. split; simpl; auto.
  - intros Ha. destruct (cv_dead Ha) as [-> _]. by subst.
  - split; [lia|]. tauto.
Qed.

Lemma complete_nodes_inv b p c fly q g1 g2 f l :
  buffer_inv b p → cview b.(nodes) b.(nextSeq) c (consumers b c) fly q g1 g2 →
  head_seq fly = Some f → last_seq fly = Some l →
  ∃ ns k, complete_nodes c f l (consumers b c).(completedSeq) b.(nodes) = (ns, k) ∧
    relabel b.(nodes) ns ∧ queue c ns = q ∧ others_queue c b.(nodes) ns ∧
    nextPendingNodeLocked c (suffix_after l ns) = head_seq q ∧
    (consumers b c).(completedSeq) ≤ k ≤ b.(nextSeq) ∧ Forall (λ x, k < x.1) q.
Proof.
  intros Hb V Hh Hl. pose proof (bi_sorted _ _ Hb) as Hs.
  destruct (complete_nodes_spec c f l (consumers b c).(completedSeq) fly q b.(nodes) Hs
    (cv_queue _ _ _ _ _ _ _ _ V) Hh Hl) as (ns & k & -> & Hr & Hq & Ho & Hk1 & Hk2 & Hk3).
  exists ns, k.
  assert (Hsq : sorted (queue c b.(nodes)).*1) by by apply sorted_queue.
  rewrite (cv_queue _ _ _ _ _ _ _ _ V), fmap_app in Hsq.
  apply sorted_app in Hsq as (_ & _ & Hlt).
  pose proof (last_seq_elem _ _ Hl) as Hlin.
  assert (∀ s, s ∈ fly.*1 → s ∈ seqs b.(nodes)) as Hin.
  { intros s Hin. apply (queue_fst c). rewrite (cv_queue _ _ _ _ _ _ _ _ V), fmap_app. set_solver. }
  pose proof (bi_seqs_le _ _ Hb) as Hle. rewrite Forall_forall in Hle.
  pose proof (cv_completed _ _ _ _ _ _ _ _ V) as Hc. rewrite Forall_app in Hc.
  pose proof (cv_bound _ _ _ _ _ _ _ _ V) as Hbd.
  assert (Forall (λ x : Z * bytes, k < x.1) q) as Hkq.
  { destruct Hk3 as [->|Hk]; [by apply Hc|]. apply Forall_forall. intros x Hx.
    apply Hlt; [done|]. by apply list_elem_of_fmap_2. }
  split_and!; try done.
  - rewrite nextPending_queue, <- Hq. f_equal. apply queue_suffix_after.
    + by rewrite (contents_seqs ns b.(nodes)) by apply Hr.
    + rewrite (contents_seqs ns b.(nodes)) by apply Hr. by apply Hin.
    + rewrite Hq. eapply Forall_impl; [exact Hkq|]. simpl. lia.
  - destruct Hk3 as [->|Hk]; [tauto|]. by apply Hle, Hin.
Qed.

(** A failed consumer: nothing is queued for it, nothing is in flight. *)
Lemma view_failed ns nseq c st st' err released fp :
  queue c ns = [] → st'.(inFlight) = None → st'.(inFlightLast) = None →
  st'.(gapInFlight) = None → st'.(completedSeq) = st.(completedSeq) →
  0 ≤ st.(completedSeq) ≤ nseq →
  view ns nseq c (fail_consumer st' err released fp) (mkPend [] []).
Proof.
  intros Hq Hf Hl Hg Hc Hb. exists [], [], [], []. split; [|done].
  split; simpl; try done; [by rewrite Hg| |rewrite Hg; by intros ? [=]].
  rewrite Hc. lia.
Qed.

(** The consumer [c] has failed: it is told about nothing any more, and its error
    counts exactly [dropped] bytes. *)
Definition failed_with (st : terminalOutputConsumerState) (c : terminalOutputConsumer)
    (dropped : Z) (cause : goerr) (fp : bool) : Prop :=
  st.(active) = false ∧ st.(failurePending) = fp ∧ idle st ∧
  ∃ e, st.(unavailable) = Some e ∧ e.(err_Consumer) = consumer_String c ∧
    e.(err_DroppedBytes) = dropped ∧ e.(err_Cause) = cause.

Definition completion_post (c : terminalOutputConsumer) (b b' : terminalOutputBuffer)
    (p : terminalOutputConsumer → pend) (rest : bytes) (ingestErr : option goerr) (fp : bool) :=
  match ingestErr with
  | None => buffer_inv b' (upd c (mkPend [] rest) p) ∧ idle (consumers b' c) ∧
      (consumers b' c).(active) = (consumers b c).(active)
  | Some cause => buffer_inv b' (upd c (mkPend [] []) p) ∧
      failed_with (consumers b' c) c (len (pd_all (p c))) cause fp
  end.

(** The common end of the two completion operations: the new state and node list are
    installed and what nobody waits for is reclaimed. *)
Lemma complete_finish c b p st' ns' p' b' rel :
  buffer_inv b p → relabel b.(nodes) ns' → others_queue c b.(nodes) ns' →
  view ns' b.(nextSeq) c st' p' → (b.(closed) = true → st'.(active) = false) →
  reclaimLocked (set_consumer c st' (b <| nodes := ns' |>)) = (b', rel) →
  buffer_inv b' (upd c p' p) ∧ consumers b' c = st' ∧ reclaimed b' ∧
  only_consumer c b b' ∧ 0 ≤ rel ∧ b'.(resident) = b.(resident) - rel.
Proof.
  intros Hb Hr Ho Hv Hcl E.
  pose proof (inv_update b p c st' ns' p' Hb Hr Ho Hv Hcl) as Hu.
  destruct (inv_reclaim _ _ _ _ Hu E) as (Hi & Hrec & Hf & Hn & Hrel & Hres).
  destruct (set_consumer_fields c st' (b <| nodes := ns' |>)) as (E1 & E2 & E3 & E4 & E5 & E6).
  assert (∀ c', consumers b' c' = upd c st' (consumers b) c') as Hc.
  { intros c'. pose proof (reclaim_consumers (set_consumer c st' (b <| nodes := ns' |>)) c') as H.
    rewrite E in H. simpl in H. rewrite H, consumers_set. unfold upd. case_decide; [done|].
    by destruct c'. }
  destruct Hf as [F1 F2 F3 _]. unfold only_consumer.
  rewrite F1, F2, F3, Hn, Hres, E2, E3, E4, E5, E6.
  split_and!; try done; [by rewrite Hc, upd_same|].
  intros c' Hne. by rewrite Hc, upd_other.
Qed.

Lemma inv_complete_batch c batch e fp b p b' rel :
  buffer_inv b p →
  (consumers b c).(inFlight) = Some batch.(batch_first) →
  (consumers b c).(inFlightLast) = Some batch.(batch_last) →
  batch.(batch_payload) = (p c).(pd_fly) →
  completeBatch c batch e fp b = (b', rel) →
  completion_post c b b' p (p c).(pd_rest) e fp ∧ reclaimed b' ∧ only_consumer c b b' ∧
  0 ≤ rel ∧ b'.(resident) = b.(resident) - rel.
Proof.
  intros Hb Hf Hl Hpay. unfold completeBatch.
  rewrite Hf, Hl, !bool_decide_eq_true_2 by done. cbn [negb orb].
  destruct (bi_view _ _ Hb c) as (fly & q & g1 & g2 & V & Hp).
  pose proof (cv_first _ _ _ _ _ _ _ _ V) as Hh. rewrite Hf in Hh. symmetry in Hh.
  pose proof (cv_last _ _ _ _ _ _ _ _ V) as Hla. rewrite Hl in Hla. symmetry in Hla.
  assert (fly ≠ []) as Hne by (by intros ->).
  assert ((consumers b c).(gapInFlight) = None) as Hg.
  { destruct (gapInFlight _) eqn:Eg; [|done].
    destruct Hne. apply (cv_excl _ _ _ _ _ _ _ _ V). by rewrite Eg. }
  assert (g1 = []) as ->.
  { apply len_nil_iff. by rewrite (cv_gap1 _ _ _ _ _ _ _ _ V), Hg. }
  destruct (complete_nodes_inv b p c fly q [] g2 _ _ Hb V Hh Hla)
    as (ns & k & E & Hr & Hq & Ho & Hnx & Hk & Hkq).
  cbn. rewrite E, Hnx.
  assert (V' := view_completed _ ns _ _ _ k (head_seq q) _ _ _ V Hne Hq eq_refl Hk Hkq).
  destruct e as [cause|].
  - assert (Hs : sorted (seqs ns)) by (rewrite (contents_seqs ns b.(nodes)) by apply Hr; apply Hb).
    destruct (releaseFrom_spec c ns Hs) as (ns2 & E2 & Hr2 & Hq2 & Ho2). rewrite Hq in E2.
    match goal with |- context [releaseConsumerFrom c ?x ns] =>
      replace x with (head_seq q) by (by destruct (pendingGapBytes (consumers b c) =? 0)) end.
    rewrite E2. intros Efin.
    eapply (complete_finish c b p _ ns2 (mkPend [] [])) in Efin as (H1 & H2 & H3 & H4 & H5 & H6);
      [|done|by etrans|intros c' Hc'; rewrite Ho2, Ho by done; done| |done].
    + split_and!; try done. unfold completion_post. split; [done|]. rewrite H2.
      unfold failed_with, idle. simpl. split_and!; try done; [by destruct (_ =? 0)..|].
      eexists; split_and!; [done..| |done]. simpl. rewrite Hpay, Hp. unfold pd_all. simpl.
      rewrite !len_app, <- (cv_gap2 _ _ _ _ _ _ _ _ V). lia.
    + apply (view_failed _ _ _ ((consumers b c) <| completedSeq := k |>)); simpl;
        [done|by destruct (_ =? 0)..|].
      pose proof (cv_bound _ _ _ _ _ _ _ _ V). lia.
  - intros Efin.
    eapply (complete_finish c b p _ ns (mkPend [] (g2 ++ flat q))) in Efin
      as (H1 & H2 & H3 & H4 & H5 & H6); [|done..| |].
    + split_and!; try done. unfold completion_post. rewrite H2, Hp. done.
    + by exists [], q, [], g2.
    + simpl. intros Hcl. by apply (bi_closed _ _ Hb).
Qed.

(** ** Completing a gap *)
Lemma inv_complete_gap c gap e fp b p b' rel :
  buffer_inv b p → (consumers b c).(gapInFlight) = Some gap →
  completeGap c gap e fp b = (b', rel) →
  completion_post c b b' p (drop (Z.to_nat gap.(gap_DroppedBytes)) (p c).(pd_rest)) e fp ∧
  reclaimed b' ∧ only_consumer c b b' ∧ 0 ≤ rel ∧ b'.(resident) = b.(resident) - rel.
Proof.
  intros Hb Hg. unfold completeGap. rewrite Hg, bool_decide_eq_true_2 by done. cbn [negb].
  destruct (bi_view _ _ Hb c) as (fly & q & g1 & g2 & V & Hp).
  assert (fly = []) as -> by (apply (cv_excl _ _ _ _ _ _ _ _ V); by rewrite Hg).
  pose proof (cv_first _ _ _ _ _ _ _ _ V) as Hf. pose proof (cv_last _ _ _ _ _ _ _ _ V) as Hl.
  pose proof (cv_queue _ _ _ _ _ _ _ _ V) as Hq. simpl in Hf, Hl, Hq.
  pose proof (cv_gap1 _ _ _ _ _ _ _ _ V) as Hg1. rewrite Hg in Hg1. simpl in Hg1.
  destruct (cv_order1 _ _ _ _ _ _ _ _ V gap Hg) as (Hgc & Hgs & Hgq).
  pose proof (cv_bound _ _ _ _ _ _ _ _ V) as Hbd.
  destruct e as [cause|]; cbn.
  - destruct (releaseFrom_spec c b.(nodes) (bi_sorted _ _ Hb)) as (ns & E & Hr & Hq' & Ho).
    assert ((consumers b c).(next) = head_seq q) as Hn.
    { destruct (consumers b c).(active) eqn:Ha; [by apply (cv_next _ _ _ _ _ _ _ _ V)|].
      destruct (cv_dead _ _ _ _ _ _ _ _ V Ha) as [-> ->]. done. }
    rewrite Hq in E. rewrite Hn, E. intros Efin.
    eapply (complete_finish c b p _ ns (mkPend [] [])) in Efin as (H1 & H2 & H3 & H4 & H5 & H6);
      [|done..| |done].
    + split; [|by split_and!]. split; [done|]. rewrite H2.
      unfold failed_with, idle. simpl. split_and!; try done.
      eexists; split_and!; [done..| |done]. simpl. rewrite Hp. unfold pd_all. simpl.
      rewrite !len_app, <- (cv_gap2 _ _ _ _ _ _ _ _ V). lia.
    + apply (view_failed _ _ _ (consumers b c)); simpl; try done; lia.
  - intros Efin.
    eapply (complete_finish c b p _ b.(nodes) (mkPend [] (g2 ++ flat q))) in Efin
      as (H1 & H2 & H3 & H4 & H5 & H6); [|done..| |].
    + split; [|by split_and!]. unfold completion_post. rewrite H2, Hp. cbn [pd_rest].
      rewrite drop_app_length' by (unfold len in Hg1; lia).
      unfold idle. by destruct (gap_throughSeq gap >? _).
    + exists [], q, [], g2. split; [|done].
      destruct (Z.gtb_spec gap.(gap_throughSeq) (consumers b c).(completedSeq));
        destruct V; split; simpl; auto; try lia; try done.
    + intros Hcl. pose proof (bi_closed _ _ Hb Hcl c). by destruct (gap_throughSeq gap >? _).
Qed.

(** ** Closing, sealing, creating *)
Lemma inv_deactivate c b p :
  buffer_inv b p → queue_dropped b c (p c) → (consumers b c).(next) = None →
  buffer_inv (set_consumer c ((consumers b c) <| active := false |>) b) p ∧
  queue_dropped (set_consumer c ((consumers b c) <| active := false |>) b) c (p c).
Proof.
  intros Hb (fly & g1 & g2 & V & Hp) Hn.
  set (st' := (consumers b c) <| active := false |>).
  assert (cview b.(nodes) b.(nextSeq) c st' fly [] g1 g2) as V'.
  { destruct V. by split; simpl; auto. }
  split.
  - apply (inv_ext _ (upd c (p c) p)); [intros c'; unfold upd; by case_decide; subst|].
    apply inv_set_consumer; [done| |done].
    exists fly, [], g1, g2. split; [done|]. rewrite Hp. unfold flat at 3. simpl. by rewrite app_nil_r.
  - destruct (set_consumer_fields c st' b) as (E1 & E2 & _).
    exists fly, g1, g2. rewrite E1, E2, consumers_set, upd_same. done.
Qed.

Definition close_step (c : terminalOutputConsumer) (b : terminalOutputBuffer) :=
  let b := if (consumers b c).(active)
           then let b := drop_queued c b in
                set_consumer c ((consumers b c) <| next := None |>) b
           else b in
  let b := set_consumer c ((consumers b c) <| active := false |>) b in
  if negb (consumers b c).(started) then finishConsumerLocked c b else b.

Lemma close_step_closed c b :
  close_step c (b <| closed := true |>) = (close_step c b) <| closed := true |>.
Proof.
  unfold close_step, drop_queued, finishConsumerLocked. destruct b, c; cbn.
  - destruct consumer_live, active; cbn; [|by destruct started].
    destruct (drop_queued_nodes _ _ _ _) as [[] ns]; cbn. by destruct started0.
  - destruct consumer_history, active; cbn; [|by destruct started].
    destruct (drop_queued_nodes _ _ _ _) as [[] ns]; cbn. by destruct started0.
Qed.

Lemma view_finished ns nseq c st p v :
  view ns nseq c st p → view ns nseq c (st <| done := v |>) p.
Proof. intros (fly & q & g1 & g2 & [] & ->). by exists fly, q, g1, g2. Qed.

(** What closing does to a consumer: its work in flight is kept, it is told about
    nothing any more, and it is done at once when its goroutine never started. *)
Definition closed_from (st st' : terminalOutputConsumerState) : Prop :=
  st'.(active) = false ∧ st'.(started) = st.(started) ∧
  st'.(done) = (st.(done) || negb st.(started)) ∧
  st'.(inFlight) = st.(inFlight) ∧ st'.(inFlightLast) = st.(inFlightLast) ∧
  st'.(gapInFlight) = st.(gapInFlight) ∧ st'.(completedSeq) = st.(completedSeq) ∧
  st'.(epoch) = st.(epoch) ∧ st'.(unavailable) = st.(unavailable) ∧
  st'.(failurePending) = st.(failurePending).

Lemma inv_close_step c b p :
  buffer_inv b p →
  let b' := close_step c b in
  buffer_inv b' p ∧ b'.(config) = b.(config) ∧ b'.(resident) = b.(resident) ∧
  b'.(sealed) = b.(sealed) ∧ b'.(nextSeq) = b.(nextSeq) ∧
  closed_from (consumers b c) (consumers b' c) ∧
  (∀ c', c' ≠ c → consumers b' c' = consumers b c').
Proof.
  intros Hb. cbn zeta. unfold close_step.
  match goal with |- context [if (consumers b c).(active) then ?x else b] =>
    set (b1 := if (consumers b c).(active) then x else b) end.
  assert (buffer_inv b1 p ∧ queue_dropped b1 c (p c) ∧ (consumers b1 c).(next) = None ∧
    buffer_frame b b1 ∧ b1.(resident) = b.(resident) ∧ b1.(nextSeq) = b.(nextSeq) ∧
    (∀ c', c' ≠ c → consumers b1 c' = consumers b c'))
    as (H1 & Hd & Hn & [F1 F2 F3 F4] & Hr & Hs & Ho).
  { unfold b1. destruct (consumers b c).(active) eqn:Ha.
    - cbn zeta. destruct (inv_drop_queued c b p None _ Hb eq_refl) as (I1 & I2 & I3 & I4 & I5);
        [done..|].
      split_and!; try done; [by rewrite consumers_set, upd_same|].
      intros c' Hc. rewrite drop_queued_set_next. destruct (drop_queued_nodes _ _ _ _).
      rewrite consumers_set, upd_other by done. by destruct c'.
    - destruct (bi_view _ _ Hb c) as (fly & q & g1 & g2 & V & Hp).
      destruct (cv_dead _ _ _ _ _ _ _ _ V Ha) as [-> Hn].
      split_and!; try done. exists fly, g1, g2. split; [done|]. rewrite Hp.
      unfold flat at 2. simpl. by rewrite app_nil_r. }
  destruct (inv_deactivate c b1 p H1 Hd Hn) as [H2 _].
  set (b2 := set_consumer c ((consumers b1 c) <| active := false |>) b1) in *.
  destruct (set_consumer_fields c ((consumers b1 c) <| active := false |>) b1)
    as (E1 & E2 & E3 & E4 & E5 & E6). fold b2 in E1, E2, E3, E4, E5, E6.
  destruct (F4 c) as (_ & G1 & G2 & G3 & G4 & G5 & G6 & G7 & G8 & G9).
  assert (consumers b2 c = (consumers b1 c) <| active := false |>) as Hb2
    by (unfold b2; by rewrite consumers_set, upd_same).
  assert (∀ c', c' ≠ c → consumers b2 c' = consumers b c') as Ho2.
  { intros c' Hc. unfold b2. rewrite consumers_set, upd_other by done. auto. }
  destruct (negb (consumers b2 c).(started)) eqn:Hst; rewrite Hb2 in Hst; simpl in Hst;
    rewrite G1 in Hst.
  - unfold finishConsumerLocked. set (st' := (consumers b2 c) <| done := true |>).
    destruct (set_consumer_fields c st' b2) as (K1 & K2 & K3 & K4 & K5 & K6).
    split_and!; try congruence.
    + apply (inv_ext _ (upd c (p c) p)); [intros c'; unfold upd; by case_decide; subst|].
      apply inv_set_consumer; [done| |intros _; unfold st'; by rewrite Hb2].
      apply view_finished, H2.
    + rewrite consumers_set, upd_same. unfold closed_from, st'. rewrite Hb2. simpl.
      rewrite Hst, orb_true_r. by split_and!.
    + intros c' Hc. rewrite consumers_set, upd_other by done. auto.
  - split_and!; try congruence; try done.
    rewrite Hb2. unfold closed_from. simpl. rewrite Hst, orb_false_r. by split_and!.
Qed.

Lemma inv_close b p b' freed first :
  buffer_inv b p → reclaimed b → Close b = (b', (freed, first)) →
  buffer_inv b' p ∧ reclaimed b' ∧ b'.(closed) = true ∧ first = negb b.(closed) ∧
  0 ≤ freed ∧ b'.(resident) = b.(resident) - freed ∧ b'.(config) = b.(config) ∧
  b'.(sealed) = b.(sealed) ∧ b'.(nextSeq) = b.(nextSeq) ∧
  ∀ c, if b.(closed) then consumers b' c = consumers b c
       else closed_from (consumers b c) (consumers b' c).
Proof.
  intros Hb Hrec. unfold Close. destruct b.(closed) eqn:Hc.
  { intros [= <- <- <-]. split_and!; try done. lia. }
  unfold for_consumers, all_consumers. cbn [fold_left].
  destruct (reclaimLocked _) as [b3 fr] eqn:E. intros [= <- <- <-].
  change (reclaimLocked (close_step ConsumerHistory (close_step ConsumerLive
    (b <| closed := true |>))) = (b3, fr)) in E.
  rewrite !close_step_closed in E.
  destruct (inv_close_step ConsumerLive b p Hb) as (H1 & C1 & R1 & S1 & N1 & D1 & O1).
  set (b1 := close_step ConsumerLive b) in *.
  destruct (inv_close_step ConsumerHistory b1 p H1) as (H2 & C2 & R2 & S2 & N2 & D2 & O2).
  set (b2 := close_step ConsumerHistory b1) in *.
  assert (∀ c, closed_from (consumers b c) (consumers b2 c)) as HD.
  { intros []; [by rewrite O2|by rewrite <- (O1 ConsumerHistory)]. }
  assert (buffer_inv (b2 <| closed := true |>) p) as H3.
  { destruct H2. split; simpl; auto.
    intros _ c. destruct (HD c) as [Ha _]. by destruct c. }
  destruct (inv_reclaim _ _ _ _ H3 E) as (H4 & Rc & [F1 F2 F3 _] & N4 & Hf & R4).
  assert (∀ c, consumers b3 c = consumers b2 c) as Hcs.
  { intros c. pose proof (reclaim_consumers (b2 <| closed := true |>) c) as H.
    rewrite E in H. simpl in H. rewrite H. by destruct c. }
  simpl in *. split_and!; try done; try congruence.
  intros c. rewrite Hcs. apply HD.
Qed.

(** Nothing is held for consumers that were told everything: no payload can leak. *)
Lemma drained_resident b p :
  buffer_inv b p → reclaimed b →
  (∀ c, (consumers b c).(inFlight) = None ∧ ((consumers b c).(active) = true → (consumers b c).(next) = None)) →
  b.(nodes) = [] ∧ b.(resident) = 0.
Proof.
  intros Hb Hrec Hc.
  assert (∀ c, queue c b.(nodes) = []) as Hq.
  { intros c. destruct (Hc c) as [Hf Ha].
    destruct (bi_view _ _ Hb c) as (fly & q & g1 & g2 & V & _).
    pose proof (cv_first _ _ _ _ _ _ _ _ V) as H. rewrite Hf in H.
    rewrite (cv_queue _ _ _ _ _ _ _ _ V).
    assert (fly = []) as -> by (by destruct fly). simpl.
    destruct (consumers b c).(active) eqn:E.
    - pose proof (cv_next _ _ _ _ _ _ _ _ V E eq_refl) as Hn. rewrite Ha in Hn by done.
      by destruct q.
    - by destruct (cv_dead _ _ _ _ _ _ _ _ V E). }
  assert (b.(nodes) = []) as Hn.
  { pose proof (bi_masks _ _ Hb) as Hm. unfold nodes_ok, reclaimed in *.
    destruct b.(nodes) as [|n ns]; [done|exfalso].
    apply Forall_cons in Hm as [Hm _]. apply Forall_cons in Hrec as [Hr _].
    apply Hr, mask_zero; [done|]. intros c. specialize (Hq c). simpl in Hq.
    by destruct (has_bit c n.(pending)). }
  split; [done|]. rewrite (bi_resident _ _ Hb), Hn. done.
Qed.
