(* ===== verification/OutputWorld.v ===== *)
(** * The terminal output pipeline under concurrency

    [core/terminal_output_buffer.go] as a transition system: the daemon-wide resident
    budget ([terminalOutputResidentBudget]) and any number of buffers, each with the
    goroutine that writes into it ([Write], serialised by [writeMu]), its two consumer
    goroutines ([run]) and any number of goroutines that close it. A step is one
    critical section of [buffer.mu] or [budget.mu], or the code between two of them;
    the steps of different goroutines interleave freely. Waiting on a condition
    variable is not moving.

    A ghost log records what each consumer was told, and a ghost stream what it was
    promised when the payload was accepted. *)
From S2P Require Import Prelude OutputBuffer.
Local Open Scope Z_scope.

(** ** The resident budget *)
Record terminalOutputResidentBudget := mkBudget {
  maxBytes : Z;
  budget_resident : Z;
  budget_closed : bool;
  budget_buffers : gset nat }.
#[export] Instance eta_budget : Eta terminalOutputResidentBudget := λ b,
  mkBudget b.(maxBytes) b.(budget_resident) b.(budget_closed) b.(budget_buffers).

Definition newTerminalOutputResidentBudget (max : Z) : terminalOutputResidentBudget :=
  let max := if (max <? MinTerminalOutputResidentBudgetBytes)
                || (max >? MaxTerminalOutputResidentBudgetBytes)
             then DefaultTerminalOutputResidentBudgetBytes else max in
  mkBudget max 0 false ∅.

Definition budget_register (id : nat) (g : terminalOutputResidentBudget) :=
  if negb g.(budget_closed) then g <| budget_buffers := {[ id ]} ∪ g.(budget_buffers) |> else g.
Definition budget_unregister (id : nat) (g : terminalOutputResidentBudget) :=
  g <| budget_buffers := g.(budget_buffers) ∖ {[ id ]} |>.
Definition budget_release (bytes : Z) (g : terminalOutputResidentBudget) :=
  if bytes <=? 0 then g
  else
    let g := g <| budget_resident := g.(budget_resident) - bytes |> in
    if g.(budget_resident) <? 0 then g <| budget_resident := 0 |> else g.
Definition budget_close (g : terminalOutputResidentBudget) := g <| budget_closed := true |>.
Definition budget_status (g : terminalOutputResidentBudget) : Z * Z :=
  (g.(budget_resident), g.(maxBytes)).

(** The critical sections of [reserve]: the attempt to take the bytes, and what the
    caller does when they do not fit. *)
Inductive reserve_attempt :=
| ReserveClosed
| ReserveTaken (g : terminalOutputResidentBudget)
| ReserveShort (shortage : Z).
Definition budget_try (bytes : Z) (g : terminalOutputResidentBudget) : reserve_attempt :=
  if g.(budget_closed) then ReserveClosed
  else if g.(budget_resident) + bytes <=? g.(maxBytes)
  then ReserveTaken (g <| budget_resident := g.(budget_resident) + bytes |>)
  else ReserveShort (g.(budget_resident) + bytes - g.(maxBytes)).

(** ** Goroutines *)

(** Where the writing goroutine of a buffer is. [WRelease n k] is about to call
    [budget.release(n)] and goes on with [k]. *)
Inductive writer :=
| WIdle
| WLoop (rest : bytes)                                   (* the loop of [Write] *)
| WAdmit (chunk rest : bytes)                            (* the capacity loop *)
| WReserve (chunk rest : bytes)                          (* [acceptingOutput] *)
| WReserveLocked (chunk rest : bytes)                    (* [budget.mu] *)
| WEvict (chunk rest : bytes) (remaining : Z) (candidates : list nat)
| WReserveAgain (chunk rest : bytes)
| WUnreserved (chunk rest : bytes)                       (* [reserve] returned false *)
| WAppend (chunk rest : bytes)                           (* [reserve] returned true *)
| WRelease (n : Z) (k : writer).

Inductive reader :=
| RNew
| RNext
| RIngest (batch : terminalOutputBatch)                  (* in the ingest callback *)
| RGap (g : terminalOutputGap)                           (* in the gap callback *)
| RFailed                                                (* in the failure callback *)
| RRelease (n : Z) (k : reader)
| RStop                                                  (* the deferred [finishConsumer] *)
| RDone.

(** What a consumer was told. *)
Inductive event :=
| EvData (payload : bytes)            (* an acknowledged batch *)
| EvGap (dropped : Z)                 (* an acknowledged gap *)
| EvLost (dropped : Z).               (* the consumer failed; the bytes its error counts *)

Record proc := mkProc {
  p_buf : terminalOutputBuffer;
  p_writer : writer;
  p_live : reader;
  p_history : reader;
  p_closers : list Z;                 (* calls of [Close] about to release *)
  p_stream : terminalOutputConsumer → bytes;
  p_log : terminalOutputConsumer → list event }.
#[export] Instance eta_proc : Eta proc := λ p,
  mkProc p.(p_buf) p.(p_writer) p.(p_live) p.(p_history) p.(p_closers) p.(p_stream) p.(p_log).

Definition p_reader (p : proc) (c : terminalOutputConsumer) : reader :=
  match c with ConsumerLive => p.(p_live) | ConsumerHistory => p.(p_history) end.
Definition set_reader (c : terminalOutputConsumer) (r : reader) (p : proc) : proc :=
  match c with
  | ConsumerLive => p <| p_live := r |>
  | ConsumerHistory => p <| p_history := r |>
  end.

Record world := mkWorld {
  w_budget : terminalOutputResidentBudget;
  w_procs : gmap nat proc }.
#[export] Instance eta_world : Eta world := λ w, mkWorld w.(w_budget) w.(w_procs).

Definition initial (max : Z) : world := mkWorld (newTerminalOutputResidentBudget max) ∅.

Definition new_proc (cfg : TerminalOutputBufferConfig) (historyEnabled : bool) : proc :=
  mkProc (newTerminalOutputBuffer cfg historyEnabled) WIdle RNew RNew [] (λ _, []) (λ _, []).

(** ** The writing goroutine *)

(** The ghost streams after [chunk] was accepted by [b]. *)
Definition promised (b : terminalOutputBuffer) (chunk : bytes)
    (s : terminalOutputConsumer → bytes) : terminalOutputConsumer → bytes :=
  λ c, if (consumers b c).(active) then s c ++ chunk else s c.

(** [writeChunk] returned [ok]. *)
Definition chunk_done (ok : bool) (rest : bytes) : writer := if ok then WLoop rest else WIdle.

(** One step of the writer of [p], when it needs nothing but its own buffer. *)
Definition writer_local (p : proc) : option proc :=
  let b := p.(p_buf) in
  match p.(p_writer) with
  | WLoop rest =>
      if len rest >? 0 then
        let size := Z.to_nat (chunk_size b rest) in
        Some (p <| p_writer := WAdmit (take size rest) (drop size rest) |>)
      else Some (p <| p_writer := WIdle |>)
  | WAdmit chunk rest =>
      let '(b', r) := writeChunk_admit chunk b in
      match r with
      | AdmitRetry freed =>
          Some (p <| p_buf := b' |> <| p_writer := WRelease freed (WAdmit chunk rest) |>)
      | AdmitWait => None
      | AdmitReturn ok freed =>
          Some (p <| p_buf := b' |> <| p_writer := WRelease freed (chunk_done ok rest) |>
                  <| p_stream := if ok then promised b chunk p.(p_stream) else p.(p_stream) |>)
      | AdmitReserve => Some (p <| p_buf := b' |> <| p_writer := WReserve chunk rest |>)
      end
  | WReserve chunk rest =>
      if negb (acceptingOutput b) then Some (p <| p_writer := WUnreserved chunk rest |>)
      else Some (p <| p_writer := WReserveLocked chunk rest |>)
  | WUnreserved chunk rest =>
      let '(b', (ok, freed)) := writeChunk_unreserved chunk b in
      Some (p <| p_buf := b' |> <| p_writer := WRelease freed (chunk_done ok rest) |>
              <| p_stream := if ok then promised b chunk p.(p_stream) else p.(p_stream) |>)
  | WAppend chunk rest =>
      let '(b', (ok, freed)) := writeChunk_append chunk b in
      Some (p <| p_buf := b' |> <| p_writer := WRelease freed (chunk_done ok rest) |>
              <| p_stream := if ok then promised b chunk p.(p_stream) else p.(p_stream) |>)
  | _ => None
  end.

(** [remaining -= candidate.dropForAggregate(remaining)], on the candidate: the bytes
    it freed are released before the loop goes on. *)
Definition evict_from (remaining : Z) (q : proc) : proc * Z :=
  let '(b, freed) := dropForAggregate remaining q.(p_buf) in (q <| p_buf := b |>, freed).

(** ** The consuming goroutines *)
Definition log_event (c : terminalOutputConsumer) (e : event) (p : proc) : proc :=
  p <| p_log := λ c', if decide (c' = c) then p.(p_log) c ++ [e] else p.(p_log) c' |>.

Definition failure_bytes (b : terminalOutputBuffer) (c : terminalOutputConsumer) : Z :=
  from_option err_DroppedBytes 0 (ConsumerError c b).

(** After a callback: on an error the failure callback runs, if there is one ([fp]). *)
Definition after_callback (err : option goerr) (fp : bool) : reader :=
  match err with
  | None => RNext
  | Some _ => if fp then RFailed else RStop
  end.

(** One step of consumer [c]'s goroutine; [err] is the result of the callback that
    ends with it and [fp] whether [run] was given a failure callback. *)
Definition reader_local (c : terminalOutputConsumer) (err : option goerr) (fp : bool) (p : proc)
    : option proc :=
  let b := p.(p_buf) in
  match p_reader p c with
  | RNew =>
      let '(b', started) := run_start c b in
      Some (set_reader c (if started then RNext else RDone) (p <| p_buf := b' |>))
  | RNext =>
      let '(b', r) := buffer_next c b in
      match r with
      | NextWait => None
      | NextStop => Some (set_reader c RStop (p <| p_buf := b' |>))
      | NextGap g => Some (set_reader c (RGap g) (p <| p_buf := b' |>))
      | NextBatch batch => Some (set_reader c (RIngest batch) (p <| p_buf := b' |>))
      end
  | RIngest batch =>
      let '(b', freed) := completeBatch c batch err fp b in
      let ev := match err with
                | None => EvData batch.(batch_payload)
                | Some _ => EvLost (failure_bytes b' c)
                end in
      Some (log_event c ev (set_reader c (RRelease freed (after_callback err fp)) (p <| p_buf := b' |>)))
  | RGap g =>
      let '(b', freed) := completeGap c g err fp b in
      let ev := match err with
                | None => EvGap g.(gap_DroppedBytes)
                | Some _ => EvLost (failure_bytes b' c)
                end in
      Some (log_event c ev (set_reader c (RRelease freed (after_callback err fp)) (p <| p_buf := b' |>)))
  | RFailed => Some (set_reader c RStop (p <| p_buf := completeFailureHandling c b |>))
  | RStop => Some (set_reader c RDone (p <| p_buf := finishConsumerLocked c b |>))
  | _ => None
  end.

(** ** Steps *)
Definition set_proc (i : nat) (p : proc) (w : world) : world :=
  w <| w_procs := <[i := p]> w.(w_procs) |>.

(** The buffers [reserve] considers for eviction, in some order. *)
Definition drop_policy (w : world) (i : nat) : Prop :=
  ∃ p, w.(w_procs) !! i = Some p ∧ p.(p_buf).(config).(Overflow) = TerminalOutputOverflowDrop.

Inductive step : world → world → Prop :=
| step_new w i cfg historyEnabled :
    w.(w_procs) !! i = None →
    step w (set_proc i (new_proc cfg historyEnabled)
              (w <| w_budget := budget_register i w.(w_budget) |>))
| step_write w i p payload :
    w.(w_procs) !! i = Some p → p.(p_writer) = WIdle →
    step w (set_proc i (p <| p_writer := WLoop payload |>) w)
| step_writer w i p p' :
    w.(w_procs) !! i = Some p → writer_local p = Some p' →
    step w (set_proc i p' w)
| step_wait w i p d :                                    (* [addWaitDuration] *)
    w.(w_procs) !! i = Some p → 0 ≤ d →
    step w (set_proc i (p <| p_buf := addWaitDuration d p.(p_buf) |>) w)
| step_reserve_closed w i p chunk rest :
    w.(w_procs) !! i = Some p → p.(p_writer) = WReserveLocked chunk rest →
    budget_try (len chunk) w.(w_budget) = ReserveClosed →
    step w (set_proc i (p <| p_writer := WUnreserved chunk rest |>) w)
| step_reserve_taken w i p chunk rest g :
    w.(w_procs) !! i = Some p → p.(p_writer) = WReserveLocked chunk rest →
    budget_try (len chunk) w.(w_budget) = ReserveTaken g →
    step w (set_proc i (p <| p_writer := WAppend chunk rest |>) (w <| w_budget := g |>))
| step_reserve_wait w i p chunk rest shortage :
    w.(w_procs) !! i = Some p → p.(p_writer) = WReserveLocked chunk rest →
    budget_try (len chunk) w.(w_budget) = ReserveShort shortage →
    p.(p_buf).(config).(Overflow) = TerminalOutputOverflowBlock →
    step w (set_proc i (p <| p_writer := WReserve chunk rest |>) w)
| step_reserve_evict w i p chunk rest shortage candidates :
    w.(w_procs) !! i = Some p → p.(p_writer) = WReserveLocked chunk rest →
    budget_try (len chunk) w.(w_budget) = ReserveShort shortage →
    p.(p_buf).(config).(Overflow) ≠ TerminalOutputOverflowBlock →
    NoDup candidates →
    (∀ j, j ∈ candidates ↔ j ∈ w.(w_budget).(budget_buffers) ∧ drop_policy w j) →
    step w (set_proc i (p <| p_writer := WEvict chunk rest shortage candidates |>) w)
| step_evict w i p j q q' freed chunk rest remaining candidates :
    w.(w_procs) !! i = Some p → p.(p_writer) = WEvict chunk rest remaining (j :: candidates) →
    w.(w_procs) !! j = Some q → evict_from remaining q = (q', freed) →
    step w
      (let w := set_proc j q' w in
       let p := default p (w.(w_procs) !! i) in
       set_proc i (p <| p_writer := WRelease freed
         (if remaining - freed <=? 0 then WReserveAgain chunk rest
          else WEvict chunk rest (remaining - freed) candidates) |>) w)
| step_evict_end w i p chunk rest remaining :
    w.(w_procs) !! i = Some p → p.(p_writer) = WEvict chunk rest remaining [] →
    step w (set_proc i (p <| p_writer := WReserveAgain chunk rest |>) w)
| step_again_taken w i p chunk rest g :
    w.(w_procs) !! i = Some p → p.(p_writer) = WReserveAgain chunk rest →
    budget_try (len chunk) w.(w_budget) = ReserveTaken g →
    step w (set_proc i (p <| p_writer := WAppend chunk rest |>) (w <| w_budget := g |>))
| step_again_failed w i p chunk rest :
    w.(w_procs) !! i = Some p → p.(p_writer) = WReserveAgain chunk rest →
    (∀ g, budget_try (len chunk) w.(w_budget) ≠ ReserveTaken g) →
    step w (set_proc i (p <| p_writer := WUnreserved chunk rest |>) w)
| step_writer_release w i p n k :
    w.(w_procs) !! i = Some p → p.(p_writer) = WRelease n k →
    step w (set_proc i (p <| p_writer := k |>)
              (w <| w_budget := budget_release n w.(w_budget) |>))
| step_reader w i p c err fp p' :
    w.(w_procs) !! i = Some p → reader_local c err fp p = Some p' →
    step w (set_proc i p' w)
| step_reader_release w i p c n k :
    w.(w_procs) !! i = Some p → p_reader p c = RRelease n k →
    step w (set_proc i (set_reader c k p) (w <| w_budget := budget_release n w.(w_budget) |>))
| step_close w i p b freed :
    w.(w_procs) !! i = Some p → Close p.(p_buf) = (b, (freed, true)) →
    step w (set_proc i (p <| p_buf := b |> <| p_closers := freed :: p.(p_closers) |>) w)
| step_close_release w i p n l1 l2 :
    w.(w_procs) !! i = Some p → p.(p_closers) = l1 ++ n :: l2 →
    step w (set_proc i (p <| p_closers := l1 ++ l2 |>)
              (w <| w_budget := budget_release n w.(w_budget) |>))
| step_unregister w i :
    step w (w <| w_budget := budget_unregister i w.(w_budget) |>)
| step_seal w i p :
    w.(w_procs) !! i = Some p → step w (set_proc i (p <| p_buf := Seal p.(p_buf) |>) w)
| step_budget_close w :
    step w (w <| w_budget := budget_close w.(w_budget) |>).

(** The states of the pipeline with a budget of [max] bytes. *)
Definition reachable (max : Z) (w : world) : Prop := rtc step (initial max) w.
