(* ===== verification/OutputWorldFacts.v ===== *)
(** * What the output pipeline guarantees under every interleaving

    The invariant [world_inv] of the transition system of [OutputWorld]; its
    consequences are the theorems about memory ([resident_bounded]), about what the
    consumers are told ([delivery_exact]) and about leaks ([closed_no_leak]). *)
From S2P Require Import Prelude OutputBuffer OutputBufferFacts OutputConsume OutputWorld.
Local Open Scope Z_scope.

(** ** Writers, on one buffer *)
Lemma accepted_none b chunk p :
  hasActiveConsumerLocked b = false → ∀ c, accepted b chunk p c = p c.
Proof.
  unfold hasActiveConsumerLocked, accepted. simpl. rewrite !orb_false_iff.
  intros (Hl & Hh & _) []; simpl; by rewrite ?Hl, ?Hh.
Qed.

Lemma accepted_frame b b' chunk p c :
  buffer_frame b b' → accepted b' chunk p c = accepted b chunk p c.
Proof. intros [_ _ _ F]. unfold accepted. by destruct (F c) as [-> _]. Qed.

Lemma inv_admit b p chunk b' r :
  buffer_inv b p → reclaimed b → writeChunk_admit chunk b = (b', r) →
  buffer_inv b' (match r with AdmitReturn true _ => accepted b chunk p | _ => p end) ∧
  reclaimed b' ∧ buffer_frame b b' ∧
  match r with
  | AdmitRetry freed | AdmitReturn _ freed =>
      0 ≤ freed ∧ b'.(resident) = b.(resident) - freed
  | AdmitWait => b' = b
  | AdmitReserve => b' = b ∧ b.(closed) = false ∧ b.(sealed) = false ∧
      b.(resident) + len chunk ≤ b.(config).(CapacityBytes)
  end.
Proof.
  intros Hb Hr. unfold writeChunk_admit.
  match goal with |- context [if ?x then (if String.eqb _ _ then _ else _) else _] =>
    destruct x eqn:Hfull end.
  - destruct (String.eqb _ _); [|by intros [= <- <-]].
    destruct (dropOldestLocked (len chunk) b) as [b1 freed] eqn:E1.
    destruct (inv_drop_oldest _ _ _ _ _ Hb Hr E1) as (I1 & R1 & F1 & N1 & H0 & Hres).
    destruct (Z.eqb_spec freed 0) as [->|].
    + destruct (dropIncomingLocked (len chunk) b1) as [b2 fr] eqn:E2. intros [= <- <-].
      destruct (inv_drop_incoming _ _ _ _ _ I1 E2) as (I2 & R2 & F2 & H2 & Hres2).
      split_and!; try done; [| |lia].
      * eapply inv_ext; [|exact I2]. intros c. by apply accepted_frame.
      * by etrans.
    + intros [= <- <-]. by split_and!.
  - destruct (b.(closed) || b.(sealed)) eqn:Hcs.
    { intros [= <- <-]. split_and!; try done. lia. }
    apply orb_false_iff in Hcs as [Hc Hs].
    destruct (negb (hasActiveConsumerLocked b)) eqn:Ha.
    { intros [= <- <-]. split_and!; try done; [|lia]. apply negb_true_iff in Ha.
      apply (inv_ext _ p); [|done]. intros c. by rewrite accepted_none. }
    intros [= <- <-]. split_and!; try done.
    apply negb_false_iff in Ha. rewrite Hc, Hs, Ha in Hfull. simpl in Hfull. lia.
Qed.

Lemma inv_unreserved b p chunk b' ok freed :
  buffer_inv b p → reclaimed b → writeChunk_unreserved chunk b = (b', (ok, freed)) →
  buffer_inv b' (if ok then accepted b chunk p else p) ∧ reclaimed b' ∧ buffer_frame b b' ∧
  0 ≤ freed ∧ b'.(resident) = b.(resident) - freed.
Proof.
  intros Hb Hr. unfold writeChunk_unreserved. destruct (_ || _ || _).
  { intros [= <- <- <-]. split_and!; try done. lia. }
  destruct (dropIncomingLocked (len chunk) b) as [b1 fr] eqn:E. intros [= <- <- <-].
  by apply (inv_drop_incoming b p).
Qed.

Lemma inv_aggregate b p required b' freed :
  buffer_inv b p → reclaimed b → dropForAggregate required b = (b', freed) →
  buffer_inv b' p ∧ reclaimed b' ∧ buffer_frame b b' ∧ 0 ≤ freed ∧
  b'.(resident) = b.(resident) - freed.
Proof.
  intros Hb Hr. unfold dropForAggregate. destruct (_ || _).
  { intros [= <- <-]. split_and!; try done. lia. }
  intros E. destruct (inv_drop_oldest _ _ _ _ _ Hb Hr E) as (? & ? & ? & ? & ? & ?).
  by split_and!.
Qed.

(** ** The log of a consumer *)

(** [covers log s] is what of the stream [s] the log has not told yet: data is the
    stream verbatim, a gap stands for as many bytes as it counts. *)
Fixpoint covers (log : list event) (s : bytes) : option bytes :=
  match log with
  | [] => Some s
  | EvData x :: log => if decide (take (length x) s = x) then covers log (drop (length x) s) else None
  | (EvGap n | EvLost n) :: log =>
      if (0 <=? n) && (n <=? len s) then covers log (drop (Z.to_nat n) s) else None
  end.

Lemma covers_app l1 l2 s : covers (l1 ++ l2) s = covers l1 s ≫= covers l2.
Proof.
  revert s. induction l1 as [|[x|n|n] l1 IH]; intros s; simpl; [done| | |];
    case_match; simpl; auto.
Qed.

Lemma covers_extend l s x r : covers l s = Some r → covers l (s ++ x) = Some (r ++ x).
Proof.
  assert (∀ n, n ≤ len s → (n <=? len (s ++ x)) = true) as Hle.
  { intros n Hn. rewrite len_app. pose proof (len_nonneg x). lia. }
  revert s Hle. induction l as [|[y|n|n] l IH]; intros s Hle; simpl; [by intros [= ->]| | |].
  - case_decide as H; [|done]. intros Hc.
    assert (length y ≤ length s)%nat.
    { rewrite <- H at 1. rewrite length_take. lia. }
    rewrite take_app_le, drop_app_le, decide_True by done. apply IH; [|done].
    intros n Hn. rewrite len_app. pose proof (len_nonneg x). lia.
  - destruct (0 <=? n) eqn:H0; [|done]. destruct (n <=? len s) eqn:Hn; [|done]. simpl.
    rewrite Hle by lia. intros Hc. rewrite drop_app_le by (unfold len in Hn; lia).
    apply IH; [|done]. intros m Hm. rewrite len_app. pose proof (len_nonneg x). lia.
  - destruct (0 <=? n) eqn:H0; [|done]. destruct (n <=? len s) eqn:Hn; [|done]. simpl.
    rewrite Hle by lia. intros Hc. rewrite drop_app_le by (unfold len in Hn; lia).
    apply IH; [|done]. intros m Hm. rewrite len_app. pose proof (len_nonneg x). lia.
Qed.

Lemma covers_data l s x r : covers l s = Some (x ++ r) → covers (l ++ [EvData x]) s = Some r.
Proof.
  intros H. rewrite covers_app, H. simpl. rewrite take_app_length, decide_True by done.
  by rewrite drop_app_length.
Qed.

Lemma covers_skip l s n r e :
  (e = EvGap n ∨ e = EvLost n) → covers l s = Some r → 0 ≤ n ≤ len r →
  covers (l ++ [e]) s = Some (drop (Z.to_nat n) r).
Proof.
  intros He H Hn. rewrite covers_app, H. simpl.
  destruct He as [-> | ->]; simpl; by replace ((0 <=? n) && (n <=? len r)) with true by lia.
Qed.

(** ** The invariant of one process *)
Fixpoint writer_held (k : writer) : Z :=
  match k with
  | WAppend chunk _ => len chunk
  | WRelease n k => n + writer_held k
  | _ => 0
  end.
Fixpoint reader_held (k : reader) : Z :=
  match k with RRelease n k => n + reader_held k | _ => 0 end.
Definition held (q : proc) : Z :=
  q.(p_buf).(resident) + writer_held q.(p_writer) + reader_held q.(p_live) +
  reader_held q.(p_history) + foldr Z.add 0 q.(p_closers).

Definition admitted (b : terminalOutputBuffer) (chunk : bytes) : Prop :=
  b.(closed) || b.(sealed) = false → b.(resident) + len chunk ≤ b.(config).(CapacityBytes).

Fixpoint writer_ok (b : terminalOutputBuffer) (k : writer) : Prop :=
  match k with
  | WIdle | WLoop _ => True
  | WAdmit chunk _ | WUnreserved chunk _ => 0 < len chunk ≤ terminalOutputChunkBytes
  | WReserve chunk _ | WReserveLocked chunk _ | WEvict chunk _ _ _ | WReserveAgain chunk _
  | WAppend chunk _ => 0 < len chunk ≤ terminalOutputChunkBytes ∧ admitted b chunk
  | WRelease n k => 0 ≤ n ∧ writer_ok b k
  end.

Fixpoint reader_ok (st : terminalOutputConsumerState) (p : pend) (k : reader) : Prop :=
  match k with
  | RNew | RNext | RFailed | RStop | RDone => idle st
  | RIngest batch =>
      st.(inFlight) = Some batch.(batch_first) ∧ st.(inFlightLast) = Some batch.(batch_last) ∧
      batch.(batch_payload) = p.(pd_fly)
  | RGap g => st.(gapInFlight) = Some g
  | RRelease n k => 0 ≤ n ∧ reader_ok st p k
  end.

Definition proc_ok (q : proc) (p : terminalOutputConsumer → pend) : Prop :=
  buffer_inv q.(p_buf) p ∧ reclaimed q.(p_buf) ∧ writer_ok q.(p_buf) q.(p_writer) ∧
  Forall (λ n, 0 ≤ n) q.(p_closers) ∧
  ∀ c, reader_ok (consumers q.(p_buf) c) (p c) (p_reader q c) ∧
       covers (q.(p_log) c) (q.(p_stream) c) = Some (pd_all (p c)).
Definition proc_inv (q : proc) : Prop := ∃ p, proc_ok q p.

(** What a writer relies on survives every operation that does not add payload. *)
Lemma writer_ok_mono b b' k :
  b'.(config) = b.(config) → b'.(resident) ≤ b.(resident) →
  (b'.(closed) || b'.(sealed) = false → b.(closed) || b.(sealed) = false) →
  writer_ok b k → writer_ok b' k.
Proof.
  intros Hcfg Hres Hcs. induction k; simpl; unfold admitted; rewrite ?Hcfg; try tauto.
  all: intros [H1 H2]; split; [done|]; intros H3; specialize (H2 (Hcs H3)); lia.
Qed.

Lemma writer_ok_frame b b' k :
  buffer_frame b b' → b'.(resident) ≤ b.(resident) → writer_ok b k → writer_ok b' k.
Proof.
  intros [H1 H2 H3 _] Hres. apply writer_ok_mono; [done|done|]. by rewrite H2, H3.
Qed.

(** A reader relies only on what is in flight. *)
Definition same_flight (st st' : terminalOutputConsumerState) : Prop :=
  st'.(inFlight) = st.(inFlight) ∧ st'.(inFlightLast) = st.(inFlightLast) ∧
  st'.(gapInFlight) = st.(gapInFlight).

Lemma reader_ok_flight st st' p p' k :
  same_flight st st' → p'.(pd_fly) = p.(pd_fly) → reader_ok st p k → reader_ok st' p' k.
Proof.
  intros (H1 & H2 & H3) Hp. induction k; simpl; unfold idle; rewrite ?H1, ?H2, ?H3, ?Hp; tauto.
Qed.

Lemma same_frame_flight st st' : same_frame st st' → same_flight st st'.
Proof. unfold same_frame, same_flight. tauto. Qed.

Lemma closed_from_flight st st' : closed_from st st' → same_flight st st'.
Proof. unfold closed_from, same_flight. tauto. Qed.

Lemma writer_held_nonneg b k : writer_ok b k → 0 ≤ writer_held k.
Proof.
  induction k; simpl; try lia. intros [? ?%IHk]. lia.
Qed.

Lemma reader_held_nonneg st p k : reader_ok st p k → 0 ≤ reader_held k.
Proof. induction k; simpl; try lia. intros [? ?%IHk]. lia. Qed.

Lemma closers_nonneg l : Forall (λ n, 0 ≤ n) l → 0 ≤ foldr Z.add 0 l.
Proof. induction 1; simpl; lia. Qed.

Lemma resident_nonneg b p : buffer_inv b p → 0 ≤ b.(resident).
Proof. intros Hb. rewrite (bi_resident _ _ Hb). apply nodes_bytes_nonneg. Qed.

Lemma held_parts q :
  proc_inv q →
  0 ≤ q.(p_buf).(resident) ∧ 0 ≤ writer_held q.(p_writer) ∧
  (∀ c, 0 ≤ reader_held (p_reader q c)) ∧ 0 ≤ foldr Z.add 0 q.(p_closers).
Proof.
  intros (p & Hb & _ & Hw & Hc & Hr). split_and!.
  - by eapply resident_nonneg.
  - by eapply writer_held_nonneg.
  - intros c. destruct (Hr c) as [Hr' _]. by eapply reader_held_nonneg.
  - by apply closers_nonneg.
Qed.

Lemma held_nonneg q : proc_inv q → 0 ≤ held q.
Proof.
  intros (? & ? & Hc & ?)%held_parts. pose proof (Hc ConsumerLive).
  pose proof (Hc ConsumerHistory). simpl in *. unfold held. lia.
Qed.

Lemma p_reader_set c c' r q :
  p_reader (set_reader c r q) c' = if decide (c' = c) then r else p_reader q c'.
Proof. by destruct c, c'. Qed.

(** ** Steps of one process *)
Lemma promised_covers (q : proc) p b chunk c :
  covers (q.(p_log) c) (q.(p_stream) c) = Some (pd_all (p c)) →
  covers (q.(p_log) c) (promised b chunk q.(p_stream) c) = Some (pd_all (accepted b chunk p c)).
Proof.
  unfold promised, accepted. destruct (active _); [|done]. intros H.
  unfold pd_all, pd_app in *. simpl. rewrite app_assoc. by apply covers_extend.
Qed.

Lemma accepted_fly b chunk p c : pd_fly (accepted b chunk p c) = pd_fly (p c).
Proof. unfold accepted. by destruct (active _). Qed.

(** The writer moves on, with a new buffer state [b'] the consumers do not notice. *)
Lemma proc_writer_op q p b' p' k' s' :
  proc_ok q p → buffer_inv b' p' → reclaimed b' → buffer_frame q.(p_buf) b' → writer_ok b' k' →
  (∀ c, pd_fly (p' c) = pd_fly (p c)) →
  (∀ c, covers (q.(p_log) c) (s' c) = Some (pd_all (p' c))) →
  proc_ok (q <| p_buf := b' |> <| p_writer := k' |> <| p_stream := s' |>) p'.
Proof.
  intros (Hb & Hr & Hw & Hc & Hrd) Hb' Hr' Hf Hw' Hfly Hs.
  split_and!; [done|done|done|done|]. intros c. split; [|apply Hs].
  destruct (Hrd c) as [Hrd' _]. simpl.
  replace (p_reader _ c) with (p_reader q c) by (by destruct c).
  eapply reader_ok_flight; [|by apply Hfly|exact Hrd'].
  apply same_frame_flight, Hf.
Qed.

(** The same, when nothing was accepted. *)
Lemma proc_writer_quiet q p b' k' :
  proc_ok q p → buffer_inv b' p → reclaimed b' → buffer_frame q.(p_buf) b' → writer_ok b' k' →
  proc_ok (q <| p_buf := b' |> <| p_writer := k' |>) p.
Proof.
  intros Hq Hb Hr Hf Hw. pose proof Hq as (_ & _ & _ & _ & Hrd).
  exact (proc_writer_op q p b' p k' q.(p_stream) Hq Hb Hr Hf Hw (λ _, eq_refl) (λ c, proj2 (Hrd c))).
Qed.

(** The same, without a change to the buffer. *)
Lemma proc_writer_move q p k' :
  proc_ok q p → writer_ok q.(p_buf) k' → proc_ok (q <| p_writer := k' |>) p.
Proof.
  intros Hq Hk. pose proof Hq as (Hb & Hr & _).
  exact (proc_writer_quiet q p q.(p_buf) k' Hq Hb Hr (reflexivity _) Hk).
Qed.

(** The chunk [writeChunk] finished with [ok]: it was promised to the consumers if and
    only if the buffer has accepted it. *)
Lemma proc_chunk_done q p b' k' chunk (ok : bool) :
  proc_ok q p → buffer_inv b' (if ok then accepted q.(p_buf) chunk p else p) → reclaimed b' →
  buffer_frame q.(p_buf) b' → writer_ok b' k' →
  proc_inv (q <| p_buf := b' |> <| p_writer := k' |>
    <| p_stream := if ok then promised q.(p_buf) chunk q.(p_stream) else q.(p_stream) |>).
Proof.
  intros Hq Hb' Hr' Hf Hw'. exists (if ok then accepted q.(p_buf) chunk p else p).
  pose proof Hq as (_ & _ & _ & _ & Hrd).
  apply (proc_writer_op q p); try done.
  - intros c. destruct ok; [apply accepted_fly | done].
  - intros c. destruct ok; [apply promised_covers, Hrd | apply Hrd].
Qed.

Lemma chunk_size_bounds b rest :
  Validate b.(config) = None → 0 < len rest →
  0 < chunk_size b rest ≤ terminalOutputChunkBytes ∧ chunk_size b rest ≤ len rest ∧
  chunk_size b rest ≤ b.(config).(CapacityBytes).
Proof.
  unfold Validate, chunk_size. intros Hv Hl.
  assert (MinTerminalOutputBufferCapacityBytes ≤ b.(config).(CapacityBytes)) as Hmin
    by (destruct (Z.ltb_spec b.(config).(CapacityBytes) MinTerminalOutputBufferCapacityBytes); done).
  unfold MinTerminalOutputBufferCapacityBytes, terminalOutputChunkBytes in *.
  change (Z.shiftl 64 10) with 65536 in *. change (Z.shiftl 16 10) with 16384 in *.
  clear Hv. destruct (Z.gtb_spec (len rest) 16384); case_match; lia.
Qed.

Lemma len_take_le {A} n (l : list A) : 0 ≤ n ≤ len l → len (take (Z.to_nat n) l) = n.
Proof. unfold len. intros. rewrite length_take. lia. Qed.

Lemma writer_chunk_done ok b rest : writer_ok b (chunk_done ok rest).
Proof. by destruct ok. Qed.

Lemma held_chunk_done ok rest : writer_held (chunk_done ok rest) = 0.
Proof. by destruct ok. Qed.

Lemma writer_local_inv q q' :
  proc_inv q → writer_local q = Some q' → proc_inv q' ∧ held q' = held q.
Proof.
  intros [p Hq] Hst. pose proof Hq as (Hb & Hr & Hw & Hc & Hrd).
  unfold writer_local in Hst. unfold held. destruct q.(p_writer) eqn:Ew; simpl in Hw; try done.
  - destruct (Z.gtb_spec (len rest) 0) as [Hl|]; injection Hst as <-; (split; [|simpl; lia]);
      exists p; apply proc_writer_move; simpl; try done.
    destruct (chunk_size_bounds q.(p_buf) rest (bi_config _ _ Hb) Hl) as (H1 & H2 & _).
    rewrite len_take_le; lia.
  - destruct (writeChunk_admit chunk q.(p_buf)) as [b' r] eqn:E.
    destruct (inv_admit _ _ _ _ _ Hb Hr E) as (Hb' & Hr' & Hf & Hx).
    destruct r as [freed| |ok freed|]; simplify_eq.
    + destruct Hx as [H0 Hres]. split; [|simpl; lia]. exists p.
      by apply proc_writer_quiet.
    + destruct Hx as [H0 Hres]. split; [|simpl; rewrite held_chunk_done; lia].
      eapply proc_chunk_done; try done. split; [done|apply writer_chunk_done].
    + destruct Hx as (-> & Hcl & Hse & Hcap). split; [|simpl; lia]. exists p.
      apply proc_writer_quiet; try done. split; [done|by intros _].
  - destruct Hw as [Hw1 Hw2].
    destruct (negb _); injection Hst as <-; (split; [|simpl; lia]); exists p;
      by apply proc_writer_move.
  - destruct (writeChunk_unreserved chunk q.(p_buf)) as [b' [ok freed]] eqn:E. injection Hst as <-.
    destruct (inv_unreserved _ _ _ _ _ _ Hb Hr E) as (Hb' & Hr' & Hf & H0 & Hres).
    split; [|simpl; rewrite held_chunk_done; lia].
    eapply proc_chunk_done; try done. split; [done|apply writer_chunk_done].
  - destruct (writeChunk_append chunk q.(p_buf)) as [b' [ok freed]] eqn:E. injection Hst as <-.
    destruct Hw as [Hw1 Hw2].
    destruct (inv_append _ _ _ _ _ _ Hb Hr Hw2 E) as (Hb' & Hr' & Hf & H0 & Hres & _).
    split; [|simpl; rewrite held_chunk_done; lia].
    eapply proc_chunk_done; try done. split; [done|apply writer_chunk_done].
Qed.

Lemma evict_inv remaining q q' freed :
  proc_inv q → evict_from remaining q = (q', freed) →
  proc_inv q' ∧ 0 ≤ freed ∧ held q' = held q - freed ∧ q'.(p_writer) = q.(p_writer).
Proof.
  intros [p Hq] E. pose proof Hq as (Hb & Hr & Hw & Hc & Hrd). unfold evict_from in E.
  destruct (dropForAggregate remaining q.(p_buf)) as [b fr] eqn:Ed. injection E as <- <-.
  destruct (inv_aggregate _ _ _ _ _ Hb Hr Ed) as (Hb' & Hr' & Hf & H0 & Hres).
  split_and!; try done; [|unfold held; simpl; lia]. exists p.
  refine (proc_writer_quiet q p b q.(p_writer) Hq Hb' Hr' Hf _).
  by apply (writer_ok_frame q.(p_buf)); [|lia|].
Qed.

(** ** Steps of a consumer *)

(** [q'] is [q] after consumer [c] moved: the buffer is [b'], the goroutine is at [k]
    and was told [l] more. *)
Record reader_moved (c : terminalOutputConsumer) (b' : terminalOutputBuffer) (k : reader)
    (l : list event) (q q' : proc) : Prop := {
  rm_buf : q'.(p_buf) = b';
  rm_writer : q'.(p_writer) = q.(p_writer);
  rm_closers : q'.(p_closers) = q.(p_closers);
  rm_stream : q'.(p_stream) = q.(p_stream);
  rm_reader : ∀ c', p_reader q' c' = if decide (c' = c) then k else p_reader q c';
  rm_log : ∀ c', q'.(p_log) c' = if decide (c' = c) then q.(p_log) c ++ l else q.(p_log) c' }.

Lemma moved_silent c b' k q : reader_moved c b' k [] q (set_reader c k (q <| p_buf := b' |>)).
Proof.
  split; try (by destruct c); intros c'; [by destruct c, c'|].
  case_decide as Hc; [subst; rewrite app_nil_r|]; by destruct c.
Qed.

Lemma moved_logged c b' k e q :
  reader_moved c b' k [e] q (log_event c e (set_reader c k (q <| p_buf := b' |>))).
Proof. split; try (by destruct c); intros c'; by destruct c, c'. Qed.

Lemma held_moved c b' k l q q' :
  reader_moved c b' k l q q' →
  held q' = held q - q.(p_buf).(resident) + b'.(resident)
            - reader_held (p_reader q c) + reader_held k.
Proof.
  intros [H1 H2 H3 _ H5 _]. unfold held. rewrite H1, H2, H3.
  change (p_live q') with (p_reader q' ConsumerLive).
  change (p_history q') with (p_reader q' ConsumerHistory). rewrite !H5.
  destruct c; simpl; lia.
Qed.

Lemma proc_reader_op c b' k l q q' p p' :
  proc_ok q p → reader_moved c b' k l q q' →
  buffer_inv b' p' → reclaimed b' → only_consumer c q.(p_buf) b' →
  b'.(resident) ≤ q.(p_buf).(resident) →
  (∀ c', c' ≠ c → p' c' = p c') →
  reader_ok (consumers b' c) (p' c) k →
  covers (q.(p_log) c ++ l) (q.(p_stream) c) = Some (pd_all (p' c)) →
  proc_inv q'.
Proof.
  intros (Hb & Hr & Hw & Hc & Hrd) [M1 M2 M3 M4 M5 M6] Hb' Hr' (Ocfg & On & Ocl & Ose & Oc)
    Hres Hp Hk Hcov.
  exists p'. unfold proc_ok. rewrite M1, M2, M3, M4. split_and!; try done.
  - by apply (writer_ok_mono q.(p_buf)); [..|by rewrite Ocl, Ose|].
  - intros c'. rewrite M5, M6. case_decide as Hcc; [by subst|].
    rewrite Oc, Hp by done. apply Hrd.
Qed.

Lemma run_start_spec c b p b' go :
  buffer_inv b p → run_start c b = (b', go) →
  buffer_inv b' p ∧ only_consumer c b b' ∧ b'.(nodes) = b.(nodes) ∧
  b'.(resident) = b.(resident) ∧ same_flight (consumers b c) (consumers b' c).
Proof.
  intros Hb. unfold run_start.
  assert (∀ st', view b.(nodes) b.(nextSeq) c st' (p c) →
      (b.(closed) = true → st'.(active) = false) → same_flight (consumers b c) st' →
      buffer_inv (set_consumer c st' b) p ∧ only_consumer c b (set_consumer c st' b) ∧
      nodes (set_consumer c st' b) = b.(nodes) ∧ resident (set_consumer c st' b) = b.(resident) ∧
      same_flight (consumers b c) (consumers (set_consumer c st' b) c)) as Hset.
  { intros st' Hv Hcl Hfl. destruct (set_consumer_fields c st' b) as (E1 & _ & E3 & _).
    split_and!; [|apply only_consumer_set|done|done|by rewrite consumers_set, upd_same].
    apply (inv_ext _ (upd c (p c) p)); [intros c'; unfold upd; by case_decide; subst|].
    by apply inv_set_consumer. }
  destruct (started _).
  { intros [= <- <-]. split_and!; try done. }
  pose proof (bi_view _ _ Hb c) as Hv.
  destruct (negb _ || closed b); intros [= <- <-]; apply Hset; try done.
  - by apply view_finished.
  - intros Hcl. by apply (bi_closed _ _ Hb).
  - destruct Hv as (fly & q & g1 & g2 & [] & ->). by exists fly, q, g1, g2.
  - intros Hcl. by apply (bi_closed _ _ Hb).
Qed.

Lemma view_failure_handled ns nseq c st p v :
  view ns nseq c st p → view ns nseq c (st <| failurePending := v |>) p.
Proof. intros (fly & q & g1 & g2 & [] & ->). by exists fly, q, g1, g2. Qed.

Lemma gap_in_pend b p c g :
  buffer_inv b p → (consumers b c).(gapInFlight) = Some g →
  (p c).(pd_fly) = [] ∧ 0 ≤ g.(gap_DroppedBytes) ≤ len (p c).(pd_rest).
Proof.
  intros Hb Hg. destruct (bi_view _ _ Hb c) as (fly & q & g1 & g2 & V & ->).
  assert (fly = []) as -> by (apply (cv_excl _ _ _ _ _ _ _ _ V); by rewrite Hg).
  pose proof (cv_gap1 _ _ _ _ _ _ _ _ V) as H. rewrite Hg in H. simpl in H.
  pose proof (len_nonneg g1). pose proof (len_nonneg (g2 ++ flat q)).
  split; [done|]. simpl. rewrite len_app. lia.
Qed.

Lemma failure_bytes_spec st c n cause fp b :
  failed_with st c n cause fp → consumers b c = st → failure_bytes b c = n.
Proof.
  intros (_ & _ & _ & e & He & _ & Hn & _) Hst. unfold failure_bytes, ConsumerError.
  rewrite Hst, He. done.
Qed.

Lemma idle_callback st p err fp : idle st → reader_ok st p (after_callback err fp).
Proof. destruct err, fp; done. Qed.

Lemma held_callback err fp : reader_held (after_callback err fp) = 0.
Proof. by destruct err, fp. Qed.


(** After a callback, whatever was handed out. *)
Lemma proc_completed c err fp q p b' freed rest ev :
  proc_ok q p →
  completion_post c q.(p_buf) b' p rest err fp → reclaimed b' → only_consumer c q.(p_buf) b' →
  0 ≤ freed → b'.(resident) = q.(p_buf).(resident) - freed →
  reader_held (p_reader q c) = 0 →
  (match err with
   | None => covers (q.(p_log) c ++ [ev]) (q.(p_stream) c) = Some rest
   | Some _ => ev = EvLost (failure_bytes b' c)
   end) →
  let q' := log_event c ev (set_reader c (RRelease freed (after_callback err fp))
              (q <| p_buf := b' |>)) in
  proc_inv q' ∧ held q' = held q.
Proof.
  intros Hq Hpost Hr Ho H0 Hres Hh Hev q'.
  pose proof (moved_logged c b' (RRelease freed (after_callback err fp)) ev q) as Hm.
  fold q' in Hm. split.
  2:{ rewrite (held_moved _ _ _ _ _ _ Hm), Hh. simpl. rewrite held_callback. lia. }
  pose proof Hq as (_ & _ & _ & _ & Hrd).
  destruct err as [cause|]; simpl in Hpost.
  - destruct Hpost as [Hb' Hf].
    eapply (proc_reader_op _ _ _ _ _ _ _ _ Hq Hm Hb'); try done; [lia| | |].
    + intros c' Hc. by apply upd_other.
    + split; [done|]. apply idle_callback. apply Hf.
    + rewrite upd_same, Hev. rewrite (failure_bytes_spec _ _ _ _ _ _ Hf eq_refl).
      destruct (Hrd c) as [_ Hcov].
      rewrite (covers_skip _ _ (len (pd_all (p c))) _ _ (or_intror eq_refl) Hcov)
        by (pose proof (len_nonneg (pd_all (p c))); lia).
      unfold len. rewrite Nat2Z.id, drop_all. done.
  - destruct Hpost as (Hb' & Hid & _).
    eapply (proc_reader_op _ _ _ _ _ _ _ _ Hq Hm Hb'); try done; [lia| |].
    + intros c' Hc. by apply upd_other.
    + by rewrite upd_same.
Qed.

(** A step that only changes flags of the consumer's state. *)
Lemma proc_state_op c st' k q p :
  proc_ok q p → view q.(p_buf).(nodes) q.(p_buf).(nextSeq) c st' (p c) →
  st'.(active) = (consumers q.(p_buf) c).(active) →
  reader_ok st' (p c) k → reader_held (p_reader q c) = 0 → reader_held k = 0 →
  let q' := set_reader c k (q <| p_buf := set_consumer c st' q.(p_buf) |>) in
  proc_inv q' ∧ held q' = held q.
Proof.
  intros Hq Hv Ha Hk H1 H2 q'. pose proof Hq as (Hb & Hr & _ & _ & Hrd).
  pose proof (moved_silent c (set_consumer c st' q.(p_buf)) k q) as Hm. fold q' in Hm.
  destruct (set_consumer_fields c st' q.(p_buf)) as (E1 & _ & E3 & _). split.
  2:{ rewrite (held_moved _ _ _ _ _ _ Hm). lia. }
  eapply (proc_reader_op _ _ _ _ _ _ _ p Hq Hm); try done.
  - apply (inv_ext _ (upd c (p c) p)); [intros c'; unfold upd; by case_decide; subst|].
    apply inv_set_consumer; [done..|]. intros Hcl. rewrite Ha. by apply (bi_closed _ _ Hb).
  - unfold reclaimed. by rewrite E1.
  - apply only_consumer_set.
  - lia.
  - by rewrite consumers_set, upd_same.
  - rewrite app_nil_r. apply Hrd.
Qed.

Lemma reader_local_inv c err fp q q' :
  proc_inv q → reader_local c err fp q = Some q' → proc_inv q' ∧ held q' = held q.
Proof.
  intros [p Hq] Hst. pose proof Hq as (Hb & Hr & Hw & Hc & Hrd). unfold reader_local in Hst.
  destruct (Hrd c) as [Hok Hcov].
  destruct (p_reader q c) as [| |batch|g| |n k| |] eqn:Er; simpl in Hok; try done.
  - destruct (run_start c q.(p_buf)) as [b' go] eqn:E. injection Hst as <-.
    destruct (run_start_spec _ _ _ _ _ Hb E) as (Hb' & Ho & Hn & Hres & Hfl).
    pose proof (moved_silent c b' (if go then RNext else RDone) q) as Hm. split.
    + eapply (proc_reader_op _ _ _ _ _ _ _ p Hq Hm Hb'); try done.
      * unfold reclaimed. by rewrite Hn.
      * lia.
      * destruct go; by apply (reader_ok_flight (consumers q.(p_buf) c) _ (p c) (p c) RNext Hfl).
      * by rewrite app_nil_r.
    + rewrite (held_moved _ _ _ _ _ _ Hm), Er. destruct go; simpl; lia.
  - destruct (buffer_next c q.(p_buf)) as [b' r] eqn:E.
    destruct (inv_next _ _ _ _ _ Hb Hok E) as (Hs & Ho & Hn & Hres & _).
    assert (∀ k p', buffer_inv b' p' → (∀ c', c' ≠ c → p' c' = p c') →
      pd_all (p' c) = pd_all (p c) → reader_ok (consumers b' c) (p' c) k → reader_held k = 0 →
      let q' := set_reader c k (q <| p_buf := b' |>) in proc_inv q' ∧ held q' = held q) as Hgo.
    { intros k p' Hb' Hp Hall Hk Hh q1. pose proof (moved_silent c b' k q) as Hm. fold q1 in Hm.
      split; [|rewrite (held_moved _ _ _ _ _ _ Hm), Er; simpl; lia].
      eapply (proc_reader_op _ _ _ _ _ _ _ p' Hq Hm Hb'); try done.
      - unfold reclaimed. by rewrite Hn.
      - lia.
      - by rewrite app_nil_r, Hall. }
    destruct r as [| |g|batch]; simplify_eq; simpl in Hs.
    + destruct Hs as [-> _]. by apply (Hgo RStop p).
    + destruct Hs as (Hb' & Hg & _). by apply (Hgo (RGap g) p).
    + destruct Hs as (rest & Hall & Hb' & H1 & H2 & H3).
      apply (Hgo (RIngest batch) _ Hb'); [by intros c' Hc'; apply upd_other| | |done].
      * by rewrite upd_same.
      * simpl. by rewrite upd_same.
  - destruct Hok as (H1 & H2 & H3).
    destruct (completeBatch c batch err fp q.(p_buf)) as [b' freed] eqn:E. injection Hst as <-.
    destruct (inv_complete_batch _ _ _ _ _ _ _ _ Hb H1 H2 H3 E) as (Hp & Hr' & Ho & H0 & Hres).
    eapply (proc_completed c err fp q p); try done; [by rewrite Er|].
    destruct err; [done|]. apply (covers_data _ _ _ (pd_rest (p c))). rewrite Hcov, H3. done.
  - destruct (completeGap c g err fp q.(p_buf)) as [b' freed] eqn:E. injection Hst as <-.
    destruct (inv_complete_gap _ _ _ _ _ _ _ _ Hb Hok E) as (Hp & Hr' & Ho & H0 & Hres).
    destruct (gap_in_pend _ _ _ _ Hb Hok) as [Hfly Hg].
    eapply (proc_completed c err fp q p); try done; [by rewrite Er|].
    destruct err; [done|]. unfold pd_all in Hcov. rewrite Hfly in Hcov.
    exact (covers_skip _ _ _ _ _ (or_introl eq_refl) Hcov Hg).
  - injection Hst as <-. unfold completeFailureHandling.
    apply (proc_state_op c _ RStop q p); try done; [|by rewrite Er].
    apply view_failure_handled, Hb.
  - injection Hst as <-. unfold finishConsumerLocked.
    apply (proc_state_op c _ RDone q p); try done; [|by rewrite Er].
    apply view_finished, Hb.
Qed.

(** ** The world *)
Record world_inv (w : world) : Prop := {
  wi_proc : ∀ i q, w.(w_procs) !! i = Some q → proc_inv q;
  wi_sum : w.(w_budget).(budget_resident) = msum held w.(w_procs);
  wi_max : w.(w_budget).(budget_resident) ≤ w.(w_budget).(maxBytes) }.

Lemma wi_held w i q : world_inv w → w.(w_procs) !! i = Some q → 0 ≤ held q.
Proof. intros Hw Hi. by eapply held_nonneg, wi_proc. Qed.

Lemma wi_nonneg w : world_inv w → 0 ≤ w.(w_budget).(budget_resident).
Proof. intros Hw. rewrite (wi_sum w Hw). apply msum_nonneg. intros i q. by apply wi_held. Qed.

(** A process moves and the budget changes with what it holds. *)
Lemma world_update w i q q' g :
  world_inv w → w.(w_procs) !! i = Some q → proc_inv q' →
  g.(budget_resident) = w.(w_budget).(budget_resident) + held q' - held q →
  g.(budget_resident) ≤ g.(maxBytes) →
  world_inv (set_proc i q' (w <| w_budget := g |>)).
Proof.
  intros Hw Hi Hq' Hg Hmax. split; simpl; [|rewrite (msum_insert held _ _ q) by done|done].
  - intros j r. rewrite lookup_insert_Some. intros [[<- <-]|[_ Hj]]; [done|]. by eapply wi_proc.
  - rewrite Hg, (wi_sum w Hw). lia.
Qed.

Lemma world_set w i q q' :
  world_inv w → w.(w_procs) !! i = Some q → proc_inv q' → held q' = held q →
  world_inv (set_proc i q' w).
Proof.
  intros Hw Hi Hq' Hh. replace w with (w <| w_budget := w.(w_budget) |>) by (by destruct w).
  apply (world_update w i q); try done; [lia|apply Hw].
Qed.

(** [release] never has to clamp: the caller holds what it releases. *)
Lemma release_exact n g : 0 ≤ n ≤ g.(budget_resident) →
  (budget_release n g).(budget_resident) = g.(budget_resident) - n ∧
  (budget_release n g).(maxBytes) = g.(maxBytes).
Proof.
  intros Hn. unfold budget_release. destruct (Z.leb_spec n 0); [split; [lia|done]|]. cbn.
  destruct (Z.ltb_spec (budget_resident g - n) 0); [lia|done].
Qed.

Lemma world_release w i q q' n :
  world_inv w → w.(w_procs) !! i = Some q → proc_inv q' → 0 ≤ n → held q = held q' + n →
  world_inv (set_proc i q' (w <| w_budget := budget_release n w.(w_budget) |>)).
Proof.
  intros Hw Hi Hq' Hn Hh.
  assert (held q ≤ w.(w_budget).(budget_resident)) as Hle.
  { rewrite (wi_sum w Hw). apply (msum_elem_le held _ i); [|done]. intros j r. by apply wi_held. }
  pose proof (held_nonneg _ Hq').
  destruct (release_exact n w.(w_budget)) as [H1 H2]; [lia|].
  apply (world_update w i q); try done; rewrite H1; [lia|]. rewrite H2. pose proof (wi_max w Hw). lia.
Qed.

Lemma budget_try_taken n g g' :
  budget_try n g = ReserveTaken g' →
  g'.(budget_resident) = g.(budget_resident) + n ∧ g'.(maxBytes) = g.(maxBytes) ∧
  g'.(budget_resident) ≤ g'.(maxBytes).
Proof.
  unfold budget_try. destruct (budget_closed g); [done|].
  destruct (Z.leb_spec (budget_resident g + n) (maxBytes g)); [|done].
  intros [= <-]. by simpl.
Qed.

Lemma normalized_valid cfg : Validate (normalized cfg) = None.
Proof. unfold normalized. cbv zeta. by case_match. Qed.

Lemma new_proc_inv cfg h : proc_inv (new_proc cfg h) ∧ held (new_proc cfg h) = 0.
Proof.
  split; [|by destruct h]. exists (λ _, mkPend [] []).
  assert (∀ c, view [] 0 c (consumers (newTerminalOutputBuffer cfg h) c) (mkPend [] [])) as Hv.
  { intros c. exists [], [], [], []. split; [|done]. by destruct c, h; split. }
  split_and!.
  - split; try (by destruct h); try (destruct h; simpl; constructor).
    + destruct h; simpl; pose proof (normalized_valid cfg) as Hn; unfold Validate in Hn;
        case_match eqn:E; try done; apply orb_false_iff in E as [E _];
        unfold MinTerminalOutputBufferCapacityBytes in E; change (Z.shiftl 64 10) with 65536 in E; lia.
    + destruct h; apply normalized_valid.
  - destruct h; apply Forall_nil_2.
  - done.
  - constructor.
  - intros c. split; [by destruct c, h|done].
Qed.

(** The writer of [q] moves without touching its buffer. *)
Lemma world_writer w i q k g :
  world_inv w → w.(w_procs) !! i = Some q → writer_ok q.(p_buf) k →
  g.(budget_resident) = w.(w_budget).(budget_resident) + writer_held k - writer_held q.(p_writer) →
  g.(budget_resident) ≤ g.(maxBytes) →
  world_inv (set_proc i (q <| p_writer := k |>) (w <| w_budget := g |>)).
Proof.
  intros Hw Hi Hk Hg Hm. destruct (wi_proc w Hw i q Hi) as [p Hp].
  apply (world_update w i q); try done.
  - exists p. by apply proc_writer_move.
  - rewrite Hg. unfold held. simpl. lia.
Qed.

Lemma world_writer_quiet w i q k :
  world_inv w → w.(w_procs) !! i = Some q → writer_ok q.(p_buf) k →
  writer_held k = writer_held q.(p_writer) →
  world_inv (set_proc i (q <| p_writer := k |>) w).
Proof.
  intros Hw Hi Hk Hh. replace w with (w <| w_budget := w.(w_budget) |>) by (by destruct w).
  apply world_writer; try done; [lia|apply Hw].
Qed.

Lemma wi_writer w i q : world_inv w → w.(w_procs) !! i = Some q → writer_ok q.(p_buf) q.(p_writer).
Proof. intros Hw Hi. destruct (wi_proc w Hw i q Hi) as (p & _ & _ & H & _). done. Qed.

Lemma step_inv_writer w i p p' :
  world_inv w → w.(w_procs) !! i = Some p → writer_local p = Some p' → world_inv (set_proc i p' w).
Proof.
  intros Hw Hi Hst. destruct (writer_local_inv p p') as [H1 H2]; [by eapply wi_proc|done|].
  by apply (world_set w i p).
Qed.

Lemma step_inv_release w i p n k :
  world_inv w → w.(w_procs) !! i = Some p → p.(p_writer) = WRelease n k →
  world_inv (set_proc i (p <| p_writer := k |>) (w <| w_budget := budget_release n w.(w_budget) |>)).
Proof.
  intros Hw Hi Hk. pose proof (wi_writer w i p Hw Hi) as Hok. rewrite Hk in Hok.
  destruct Hok as [Hn Hok]. destruct (wi_proc w Hw i p Hi) as [pp Hp].
  apply (world_release w i p); try done.
  - exists pp. by apply proc_writer_move.
  - unfold held. rewrite Hk. simpl. lia.
Qed.

Lemma step_inv_reader_release w i p c n k :
  world_inv w → w.(w_procs) !! i = Some p → p_reader p c = RRelease n k →
  world_inv (set_proc i (set_reader c k p) (w <| w_budget := budget_release n w.(w_budget) |>)).
Proof.
  intros Hw Hi Hk. destruct (wi_proc w Hw i p Hi) as (pp & Hb & Hr & Hwr & Hc & Hrd).
  destruct (Hrd c) as [Hok _]. rewrite Hk in Hok. destruct Hok as [Hn Hok].
  apply (world_release w i p); try done.
  - exists pp. split_and!; try (by destruct c). intros c'. rewrite p_reader_set.
    replace (p_buf (set_reader c k p)) with (p_buf p) by (by destruct c).
    replace (p_log (set_reader c k p)) with (p_log p) by (by destruct c).
    replace (p_stream (set_reader c k p)) with (p_stream p) by (by destruct c).
    case_decide; subst; (split; [|apply Hrd]); [done|apply Hrd].
  - unfold held. destruct c; simpl in *; rewrite Hk; simpl; lia.
Qed.

Lemma step_inv_close w i p b freed :
  world_inv w → w.(w_procs) !! i = Some p → Close p.(p_buf) = (b, (freed, true)) →
  world_inv (set_proc i (p <| p_buf := b |> <| p_closers := freed :: p.(p_closers) |>) w).
Proof.
  intros Hw Hi E. destruct (wi_proc w Hw i p Hi) as (pp & Hb & Hr & Hwr & Hc & Hrd).
  destruct (inv_close _ _ _ _ _ Hb Hr E) as (Hb' & Hr' & Hcl & Hf & H0 & Hres & Hcfg & _ & _ & Hcs).
  symmetry in Hf. apply negb_true_iff in Hf. rewrite Hf in Hcs.
  apply (world_set w i p); try done; [|unfold held; simpl; lia].
  exists pp. split_and!; try done.
  - apply (writer_ok_mono p.(p_buf)); simpl; [done|lia|by rewrite Hcl|done].
  - by constructor.
  - intros c. simpl. split; [|apply Hrd]. replace (p_reader _ c) with (p_reader p c) by (by destruct c).
    eapply reader_ok_flight; [apply closed_from_flight, Hcs|done|apply Hrd].
Qed.

Lemma foldr_add_middle (l1 : list Z) n l2 :
  foldr Z.add 0 (l1 ++ n :: l2) = foldr Z.add 0 (l1 ++ l2) + n.
Proof. induction l1; simpl; lia. Qed.

Lemma step_inv_close_release w i p n l1 l2 :
  world_inv w → w.(w_procs) !! i = Some p → p.(p_closers) = l1 ++ n :: l2 →
  world_inv (set_proc i (p <| p_closers := l1 ++ l2 |>)
    (w <| w_budget := budget_release n w.(w_budget) |>)).
Proof.
  intros Hw Hi Hl. destruct (wi_proc w Hw i p Hi) as (pp & Hb & Hr & Hwr & Hc & Hrd).
  rewrite Hl, Forall_app, Forall_cons in Hc. destruct Hc as (H1 & Hn & H2).
  apply (world_release w i p); try done.
  - exists pp. split_and!; try done. by apply Forall_app.
  - unfold held. rewrite Hl, foldr_add_middle. simpl. lia.
Qed.

Lemma inv_flags b p b' :
  buffer_inv b p → b'.(config) = b.(config) → b'.(nodes) = b.(nodes) →
  b'.(resident) = b.(resident) → b'.(nextSeq) = b.(nextSeq) → b'.(closed) = b.(closed) →
  (∀ c, consumers b' c = consumers b c) → buffer_inv b' p.
Proof.
  intros [] H1 H2 H3 H4 H5 H6. split; rewrite ?H1, ?H2, ?H3, ?H4, ?H5; auto.
  - intros Hcl c. rewrite H6. auto.
  - intros c. rewrite H6. auto.
Qed.

(** Operations that change only [sealed] and [waitNanos]. *)
Lemma step_inv_flags w i p b' :
  world_inv w → w.(w_procs) !! i = Some p →
  b'.(config) = p.(p_buf).(config) → b'.(nodes) = p.(p_buf).(nodes) →
  b'.(resident) = p.(p_buf).(resident) → b'.(nextSeq) = p.(p_buf).(nextSeq) →
  b'.(closed) = p.(p_buf).(closed) → (p.(p_buf).(sealed) = true → b'.(sealed) = true) →
  (∀ c, consumers b' c = consumers p.(p_buf) c) →
  world_inv (set_proc i (p <| p_buf := b' |>) w).
Proof.
  intros Hw Hi H1 H2 H3 H4 H5 Hs H6.
  destruct (wi_proc w Hw i p Hi) as (pp & Hb & Hr & Hwr & Hc & Hrd).
  apply (world_set w i p); try done; [|unfold held; simpl; by rewrite H3].
  exists pp. split_and!; simpl; try done.
  - by apply (inv_flags p.(p_buf)).
  - unfold reclaimed. by rewrite H2.
  - apply (writer_ok_mono p.(p_buf)); [done|lia| |done]. rewrite H5.
    intros [-> Hse]%orb_false_iff. simpl. destruct (sealed (p_buf p)); [by rewrite Hs in Hse|done].
  - intros c. rewrite H6. split; [|apply Hrd].
    replace (p_reader _ c) with (p_reader p c) by (by destruct c). apply Hrd.
Qed.

Lemma step_inv_evict w i p j q q' freed chunk rest remaining candidates :
  world_inv w → w.(w_procs) !! i = Some p →
  p.(p_writer) = WEvict chunk rest remaining (j :: candidates) →
  w.(w_procs) !! j = Some q → evict_from remaining q = (q', freed) →
  world_inv
    (let w := set_proc j q' w in
     let p := default p (w.(w_procs) !! i) in
     set_proc i (p <| p_writer := WRelease freed
       (if remaining - freed <=? 0 then WReserveAgain chunk rest
        else WEvict chunk rest (remaining - freed) candidates) |>) w).
Proof.
  intros Hw Hi Hk Hj E. cbn zeta.
  destruct (evict_inv remaining q q' freed) as (Hq' & H0 & Hh & Hwq); [by eapply wi_proc|done|].
  set (k := WRelease freed _).
  set (p1 := default p _).
  assert (p1 = (if decide (i = j) then q' else p) ∧ <[j:=q']> w.(w_procs) !! i = Some p1)
    as [Hp1 Hl1].
  { unfold p1. simpl. case_decide as Hd; [subst; by rewrite lookup_insert_eq|].
    by rewrite lookup_insert_ne, Hi by done. }
  clearbody p1.
  assert (writer_ok p1.(p_buf) p1.(p_writer) ∧ p1.(p_writer) = p.(p_writer) ∧ proc_inv p1)
    as (Hwo & Hpw & [pp Hpp]).
  { rewrite Hp1. case_decide as Hd.
    - subst. assert (p = q) as -> by congruence. destruct Hq' as [pp Hpp].
      split_and!; [apply Hpp|done|by exists pp].
    - split_and!; [by apply (wi_writer w i)|done|by eapply wi_proc]. }
  assert (proc_inv (p1 <| p_writer := k |>) ∧ held (p1 <| p_writer := k |>) = held p1 + freed)
    as [Hki Hkh].
  { split.
    - exists pp. apply proc_writer_move; [done|]. rewrite Hpw, Hk in Hwo.
      unfold k. split; [done|]. by destruct (_ <=? 0).
    - unfold held. rewrite Hpw, Hk. unfold k. simpl. destruct (_ <=? 0); simpl; lia. }
  split; simpl.
  - intros l r. rewrite lookup_insert_Some. intros [[<- <-]|[Hnl Hl]]; [done|].
    apply lookup_insert_Some in Hl as [[<- <-]|[_ Hl]]; [done|]. by eapply wi_proc.
  - rewrite (msum_insert held _ i p1), (msum_insert held _ j q) by done.
    rewrite (wi_sum w Hw). lia.
  - apply Hw.
Qed.

Lemma step_inv w w' : step w w' → world_inv w → world_inv w'.
Proof.
  intros Hst Hw. destruct Hst.
  - destruct (new_proc_inv cfg historyEnabled) as [H1 H2]. split; simpl.
    + intros j r. rewrite lookup_insert_Some. intros [[<- <-]|[_ Hj]]; [done|]. by eapply wi_proc.
    + rewrite msum_insert_fresh, H2, <- (wi_sum w Hw) by done.
      unfold budget_register. by destruct (negb _).
    + unfold budget_register. destruct (negb _); apply Hw.
  - apply world_writer_quiet; try done. by rewrite H0.
  - by eapply step_inv_writer.
  - by eapply step_inv_flags; try done; intros [].
  - pose proof (wi_writer _ _ _ Hw H) as Hk. rewrite H0 in Hk.
    apply world_writer_quiet; [done|done|apply Hk|by rewrite H0].
  - pose proof (wi_writer _ _ _ Hw H) as Hk. rewrite H0 in Hk.
    apply budget_try_taken in H1 as (Hg & Hm & Hle).
    apply world_writer; [done|done|done| |done]. rewrite H0, Hg. simpl. lia.
  - pose proof (wi_writer _ _ _ Hw H) as Hk. rewrite H0 in Hk.
    apply world_writer_quiet; [done|done|done|by rewrite H0].
  - pose proof (wi_writer _ _ _ Hw H) as Hk. rewrite H0 in Hk.
    apply world_writer_quiet; [done|done|done|by rewrite H0].
  - by apply (step_inv_evict w i p j q q' freed chunk rest remaining candidates).
  - pose proof (wi_writer _ _ _ Hw H) as Hk. rewrite H0 in Hk.
    apply world_writer_quiet; [done|done|done|by rewrite H0].
  - pose proof (wi_writer _ _ _ Hw H) as Hk. rewrite H0 in Hk.
    apply budget_try_taken in H1 as (Hg & Hm & Hle).
    apply world_writer; [done|done|done| |done]. rewrite H0, Hg. simpl. lia.
  - pose proof (wi_writer _ _ _ Hw H) as Hk. rewrite H0 in Hk.
    apply world_writer_quiet; [done|done|apply Hk|by rewrite H0].
  - by apply (step_inv_release w i p).
  - destruct (reader_local_inv c err fp p p') as [H1 H2]; [by eapply wi_proc|done|].
    by apply (world_set w i p).
  - by apply (step_inv_reader_release w i p).
  - by apply step_inv_close.
  - by apply step_inv_close_release.
  - by split; [apply Hw|apply Hw|apply Hw].
  - by eapply step_inv_flags; try done; intros [].
  - by split; [apply Hw|apply Hw|apply Hw].
Qed.

Lemma reachable_inv max w : reachable max w → world_inv w.
Proof.
  unfold reachable. intros Hr. assert (world_inv (initial max)) as Hi.
  { split; simpl; [done| |].
    - by rewrite msum_empty.
    - unfold newTerminalOutputResidentBudget. simpl.
      destruct (Z.ltb_spec max MinTerminalOutputResidentBudgetBytes); simpl; [done|].
      destruct (max >? _); [done|]. simpl. etrans; [|done]. done. }
  revert Hi. induction Hr as [|w1 w2 w3 Hst _ IH]; [done|]. intros Hi. apply IH.
  by eapply step_inv.
Qed.
