(* ===== verification/OutputTheorems.v ===== *)
(** * The block policy never drops

    A buffer with [TerminalOutputOverflowBlock] never turns payload into a gap while
    its consumers are active: the invariant [no_gaps] and its preservation by every
    step of [OutputWorld]. *)
From S2P Require Import Prelude OutputBuffer OutputBufferFacts OutputConsume OutputWorld OutputWorldFacts.
Local Open Scope Z_scope.

Definition gapless (st : terminalOutputConsumerState) : Prop :=
  st.(gapInFlight) = None ∧ (st.(active) = true → st.(pendingGapBytes) = 0).

Definition blocks (b : terminalOutputBuffer) : Prop :=
  b.(config).(Overflow) = TerminalOutputOverflowBlock.

Definition no_gaps (q : proc) : Prop :=
  blocks q.(p_buf) →
  ∀ c, gapless (consumers q.(p_buf) c) ∧ Forall (λ e, ∀ n, e ≠ EvGap n) (q.(p_log) c).

(** ** The operations of the writer *)
Lemma admit_block b chunk :
  blocks b → (writeChunk_admit chunk b).1 = b.
Proof.
  unfold blocks, writeChunk_admit. intros ->.
  change (String.eqb TerminalOutputOverflowBlock TerminalOutputOverflowDrop) with false.
  by repeat case_match.
Qed.

Lemma unreserved_block b chunk :
  blocks b → (writeChunk_unreserved chunk b).1 = b.
Proof.
  unfold blocks, writeChunk_unreserved. intros ->. rewrite String.eqb_refl, !orb_true_r. done.
Qed.

Lemma aggregate_block b n : blocks b → dropForAggregate n b = (b, 0).
Proof.
  unfold blocks, dropForAggregate. intros ->.
  change (String.eqb TerminalOutputOverflowBlock TerminalOutputOverflowDrop) with false.
  by rewrite orb_true_r.
Qed.

Lemma append_step_takes s n c b :
  ((consumers b c).(active) = true → takes b c = true) → append_step s n c b = b.
Proof.
  unfold append_step. intros H. destruct (consumers b c).(active); [|done]. by rewrite H.
Qed.

Lemma gapless_takes b c :
  gapless (consumers b c) → (consumers b c).(active) = true → takes b c = true.
Proof.
  intros [Hg Hp] Ha. unfold takes. rewrite Ha, Hg, Hp by done. done.
Qed.

Lemma gapless_woken s st : gapless st → gapless (woken s st).
Proof. unfold woken. by destruct (_ && _). Qed.

Lemma gapless_wake node c st : gapless st → gapless (wake_state node c st).
Proof. unfold wake_state. destruct (has_bit _ _); [apply gapless_woken | done]. Qed.

Lemma append_gapless b chunk :
  (∀ c, gapless (consumers b c)) → ∀ c, gapless (consumers (writeChunk_append chunk b).1 c).
Proof.
  intros Hg c. unfold writeChunk_append. destruct (_ || _); [done|].
  set (b0 := b <| nextSeq := _ |>).
  assert (∀ c, gapless (consumers b0 c)) as Hg0 by (intros []; apply (Hg ConsumerLive) || apply (Hg ConsumerHistory)).
  cbn zeta. rewrite append_mask_steps. cbn zeta.
  rewrite !append_step_takes by (rewrite ?append_step_takes by (by apply gapless_takes);
    by apply gapless_takes).
  pose proof (reclaim_consumers b0) as Hrc.
  destruct (reclaimLocked b0) as [b1 freed]. simpl in Hrc.
  destruct (_ =? 0); simpl; [by rewrite Hrc|].
  match goal with |- context [wake_consumer ?node] => set (nd := node) end.
  match goal with |- context [for_consumers (wake_consumer nd) ?x] =>
    destruct (wake_all_fields nd x) as (_ & _ & _ & _ & _ & _ & W) end.
  unfold wake_all in W. rewrite W. apply gapless_wake.
  replace (consumers (_ <| resident := _ |>) c) with (consumers b1 c) by (by destruct c).
  by rewrite Hrc.
Qed.

(** ** The operations of the consumers *)
Lemma next_gapless c b :
  gapless (consumers b c) →
  gapless (consumers (buffer_next c b).1 c) ∧ (∀ g, (buffer_next c b).2 ≠ NextGap g).
Proof.
  intros Hg. unfold buffer_next.
  destruct (_ && _ && _ && _ && _); [done|].
  destruct (negb (consumers b c).(active) || b.(closed)) eqn:Hs; [done|].
  apply orb_false_iff in Hs as [Ha _]. apply negb_false_iff in Ha.
  destruct Hg as [Hg Hp]. rewrite Hp by done. simpl.
  destruct (next (consumers b c)); [|done]. simpl.
  rewrite consumers_set, upd_same. split; [|done]. split; simpl; auto.
Qed.

Lemma complete_batch_gapless c batch err fp b :
  gapless (consumers b c) → gapless (consumers (completeBatch c batch err fp b).1 c).
Proof.
  intros Hg. unfold completeBatch. destruct (_ || _); [done|].
  destruct (complete_nodes _ _ _ _ _) as [ns k].
  destruct err as [cause|].
  - destruct (releaseConsumerFrom _ _ _) as [ns' rel].
    rewrite reclaim_consumers, consumers_set, upd_same.
    destruct Hg as [Hg _]. split; [|done]. simpl. by destruct (_ =? 0).
  - rewrite reclaim_consumers, consumers_set, upd_same. exact Hg.
Qed.

Lemma closed_gapless st st' : closed_from st st' → gapless st → gapless st'.
Proof.
  unfold closed_from, gapless. intros (Ha & _ & _ & _ & _ & Hg & _) [H _].
  split; [congruence|]. by rewrite Ha.
Qed.

(** ** Steps *)
Lemma no_gaps_buffer q b' k s' :
  no_gaps q → (blocks b' → blocks q.(p_buf)) →
  (blocks q.(p_buf) → ∀ c, gapless (consumers q.(p_buf) c) → gapless (consumers b' c)) →
  no_gaps (q <| p_buf := b' |> <| p_writer := k |> <| p_stream := s' |>).
Proof.
  intros Hq Hb Hc Hbl c. destruct (Hq (Hb Hbl) c) as [H1 H2]. split; [|done].
  apply Hc; [by apply Hb|done].
Qed.

Lemma no_gaps_writer q q' :
  proc_inv q → no_gaps q → writer_local q = Some q' → no_gaps q'.
Proof.
  intros [p (Hb & Hr & Hw & _)] Hq Hst. unfold writer_local in Hst.
  destruct q.(p_writer) eqn:Ew; try done.
  - by destruct (_ >? 0); injection Hst as <-.
  - pose proof (admit_block q.(p_buf) chunk) as Hadm.
    destruct (writeChunk_admit chunk q.(p_buf)) as [b' r] eqn:E. simpl in Hadm.
    destruct (inv_admit _ _ _ _ _ Hb Hr E) as (_ & _ & [Hcfg _ _ _] & _).
    assert (∀ k s', no_gaps (q <| p_buf := b' |> <| p_writer := k |> <| p_stream := s' |>)) as Hno.
    { intros k s'. apply no_gaps_buffer; [done|unfold blocks; by rewrite Hcfg|].
      intros Hbl c. by rewrite Hadm. }
    destruct r; simplify_eq; [exact (Hno _ q.(p_stream))|apply Hno|exact (Hno _ q.(p_stream))].
  - by destruct (negb _); injection Hst as <-.
  - pose proof (unreserved_block q.(p_buf) chunk) as Hun.
    destruct (writeChunk_unreserved chunk q.(p_buf)) as [b' [ok freed]] eqn:E.
    injection Hst as <-. simpl in Hun.
    destruct (inv_unreserved _ _ _ _ _ _ Hb Hr E) as (_ & _ & [Hcfg _ _ _] & _).
    apply no_gaps_buffer; [done|unfold blocks; by rewrite Hcfg|].
    intros Hbl c. by rewrite Hun.
  - destruct (writeChunk_append chunk q.(p_buf)) as [b' [ok freed]] eqn:E. injection Hst as <-.
    pose proof (append_gapless q.(p_buf) chunk) as Ha. rewrite E in Ha. simpl in Ha, Hw.
    destruct Hw as [_ Hcap].
    destruct (inv_append _ _ _ _ _ _ Hb Hr Hcap E) as (_ & _ & [Hcfg _ _ _] & _).
    intros Hbl c. assert (Hbl' : blocks q.(p_buf)) by (unfold blocks in *; simpl in Hbl; congruence).
    split; [|by apply Hq]. apply Ha. intros c'. by apply Hq.
Qed.

(** The reader moved: only [c]'s state and log changed. *)
Lemma no_gaps_reader c b' k l q q' :
  no_gaps q → reader_moved c b' k l q q' → only_consumer c q.(p_buf) b' →
  (blocks b' → gapless (consumers q.(p_buf) c) →
   gapless (consumers b' c) ∧ Forall (λ e, ∀ n, e ≠ EvGap n) l) →
  no_gaps q'.
Proof.
  intros Hq [M1 _ _ _ _ M6] (Hcfg & _ & _ & _ & Ho) Hc Hbl c'.
  rewrite M1 in *. rewrite M6.
  assert (Hbl' : blocks q.(p_buf)) by (unfold blocks in *; congruence).
  destruct (Hq Hbl' c') as [H1 H2]. case_decide as Hd; [subst c'|].
  - destruct (Hc Hbl H1) as [H3 H4]. split; [done|]. by apply Forall_app.
  - rewrite Ho by done. done.
Qed.

Lemma no_gaps_local c err fp q q' :
  proc_inv q → no_gaps q → reader_local c err fp q = Some q' → no_gaps q'.
Proof.
  intros [p (Hb & Hr & Hw & _ & Hrd)] Hq Hst. unfold reader_local in Hst.
  destruct (Hrd c) as [Hok _].
  assert (∀ e, (∀ n, e ≠ EvGap n) → Forall (λ e, ∀ n, e ≠ EvGap n) [e]) as Hone
    by (intros e He; by apply Forall_singleton).
  destruct (p_reader q c) as [| |batch|g| |n k| |] eqn:Er; simpl in Hok; try done.
  - unfold run_start in Hst. set (st := consumers q.(p_buf) c) in *.
    destruct (started st); [injection Hst as <-|destruct (negb _ || _); injection Hst as <-].
    + apply (no_gaps_reader c _ _ _ _ _ Hq (moved_silent c _ _ q)); [apply only_consumer_refl|done].
    + apply (no_gaps_reader c _ _ _ _ _ Hq (moved_silent c _ _ q)); [apply only_consumer_set|].
      intros _ Hg. unfold finishConsumerLocked. by rewrite consumers_set, upd_same.
    + apply (no_gaps_reader c _ _ _ _ _ Hq (moved_silent c _ _ q)); [apply only_consumer_set|].
      intros _ Hg. by rewrite consumers_set, upd_same.
  - pose proof (next_gapless c q.(p_buf)) as Hn.
    destruct (buffer_next c q.(p_buf)) as [b' r] eqn:E.
    destruct (inv_next _ _ _ _ _ Hb Hok E) as (_ & Ho & _).
    simpl in Hn. assert (∀ k, no_gaps (set_reader c k (q <| p_buf := b' |>))) as Hgo.
    { intros k. apply (no_gaps_reader c _ _ _ _ _ Hq (moved_silent c _ _ q)); [done|].
      intros _ Hg. split; [by apply Hn|done]. }
    by destruct r; simplify_eq.
  - pose proof (complete_batch_gapless c batch err fp q.(p_buf)) as Hc.
    destruct (completeBatch c batch err fp q.(p_buf)) as [b' freed] eqn:E. injection Hst as <-.
    destruct Hok as (H1 & H2 & H3).
    destruct (inv_complete_batch _ _ _ _ _ _ _ _ Hb H1 H2 H3 E) as (_ & _ & Ho & _).
    apply (no_gaps_reader c _ _ _ _ _ Hq (moved_logged c _ _ _ q)); [done|].
    intros _ Hg. split; [by apply Hc|]. apply Hone. by destruct err.
  - destruct (completeGap c g err fp q.(p_buf)) as [b' freed] eqn:E. injection Hst as <-.
    destruct (inv_complete_gap _ _ _ _ _ _ _ _ Hb Hok E) as (_ & _ & Ho & _).
    apply (no_gaps_reader c _ _ _ _ _ Hq (moved_logged c _ _ _ q)); [done|].
    intros _ [Hg _]. congruence.
  - injection Hst as <-.
    apply (no_gaps_reader c _ _ _ _ _ Hq (moved_silent c _ _ q)); [apply only_consumer_set|].
    intros _ Hg. unfold completeFailureHandling. by rewrite consumers_set, upd_same.
  - injection Hst as <-.
    apply (no_gaps_reader c _ _ _ _ _ Hq (moved_silent c _ _ q)); [apply only_consumer_set|].
    intros _ Hg. unfold finishConsumerLocked. by rewrite consumers_set, upd_same.
Qed.

Definition all_gapless (w : world) : Prop := ∀ i q, w.(w_procs) !! i = Some q → no_gaps q.

Lemma all_gapless_set i q w : all_gapless w → no_gaps q → all_gapless (set_proc i q w).
Proof.
  intros Hw Hq j r H. apply (lookup_insert_Some w.(w_procs)) in H as [[<- <-]|[_ Hj]]; [done|].
  by eapply Hw.
Qed.

Lemma no_gaps_same q q' :
  no_gaps q → q'.(p_buf).(config) = q.(p_buf).(config) → q'.(p_log) = q.(p_log) →
  (∀ c, gapless (consumers q.(p_buf) c) → gapless (consumers q'.(p_buf) c)) → no_gaps q'.
Proof.
  intros Hq H1 H2 H3 Hbl c. unfold blocks in Hbl. rewrite H1 in Hbl. rewrite H2.
  destruct (Hq Hbl c). split; auto.
Qed.

Lemma step_gapless w w' : step w w' → world_inv w → all_gapless w → all_gapless w'.
Proof.
  intros Hst Hw Hg.
  assert (∀ i q, w.(w_procs) !! i = Some q → no_gaps q) as Hp by done.
  assert (∀ g, all_gapless (w <| w_budget := g |>)) as Hg' by done.
  destruct Hst; try (apply all_gapless_set; [done|]); try done.
  - intros _ c. split; [|by constructor]. by destruct c, historyEnabled.
  - by eapply no_gaps_same; [by eapply Hp|..].
  - eapply no_gaps_writer; [by eapply wi_proc|by eapply Hp|done].
  - by eapply no_gaps_same; [by eapply Hp|..|intros []].
  - by eapply no_gaps_same; [by eapply Hp|..].
  - by eapply no_gaps_same; [by eapply Hp|..].
  - by eapply no_gaps_same; [by eapply Hp|..].
  - assert (no_gaps q') as Hq'.
    { unfold evict_from in H2. destruct (dropForAggregate remaining q.(p_buf)) as [b' fr] eqn:E.
      injection H2 as <- <-. intros Hbl c.
      destruct (wi_proc w Hw j q H1) as (pq & Hb & Hr & _).
      destruct (inv_aggregate _ _ _ _ _ Hb Hr E) as (_ & _ & [Hcfg _ _ _] & _).
      assert (blocks q.(p_buf)) as Hbl' by (unfold blocks in *; simpl in Hbl; congruence).
      rewrite (aggregate_block _ _ Hbl') in E. injection E as <- <-. exact (Hp j q H1 Hbl' c). }
    cbn zeta. apply all_gapless_set; [by apply all_gapless_set|].
    assert (no_gaps (default p (w_procs (set_proc j q' w) !! i))) as Hd.
    { simpl. destruct (decide (i = j)) as [->|]; [by rewrite lookup_insert_eq|].
      rewrite lookup_insert_ne, H by done. by eapply Hp. }
    by eapply no_gaps_same.
  - by eapply no_gaps_same; [by eapply Hp|..].
  - by eapply no_gaps_same; [by eapply Hp|..].
  - by eapply no_gaps_same; [by eapply Hp|..].
  - by eapply no_gaps_same; [by eapply Hp|..].
  - eapply no_gaps_local; [by eapply wi_proc|by eapply Hp|done].
  - by eapply no_gaps_same; [by eapply Hp|..]; destruct c.
  - destruct (wi_proc w Hw i p H) as (pp & Hb & Hr & _).
    destruct (inv_close _ _ _ _ _ Hb Hr H0) as (_ & _ & _ & Hf & _ & _ & Hcfg & _ & _ & Hcs).
    symmetry in Hf. apply negb_true_iff in Hf. rewrite Hf in Hcs.
    eapply no_gaps_same; [by eapply Hp|done|done|]. intros c. by apply closed_gapless.
  - by eapply no_gaps_same; [by eapply Hp|..].
  - by eapply no_gaps_same; [by eapply Hp|..|intros []].
Qed.

Lemma reachable_gapless max w : reachable max w → all_gapless w.
Proof.
  unfold reachable. intros Hr.
  assert (world_inv (initial max)) as Hi by (apply (reachable_inv max); constructor).
  assert (all_gapless (initial max)) as Hg by done. revert Hi Hg.
  induction Hr as [|w1 w2 w3 Hst _ IH]; [done|]. intros Hi Hg.
  apply IH; [by eapply step_inv|by eapply step_gapless].
Qed.

(** * The terminal output pipeline: theorems

    The properties of [OutputWorld] and of the buffer's operations, each with a
    concrete run that exercises it. *)

(** ** A concrete run *)
Lemma reach_step max w w' : reachable max w → step w w' → reachable max w'.
Proof. intros Hr Hst. eapply rtc_r; [exact Hr|exact Hst]. Qed.

Lemma set_proc_lookup i p w : (set_proc i p w).(w_procs) !! i = Some p.
Proof. apply lookup_insert_eq. Qed.

Definition demo_max : Z := 65536.
Definition demo_cfg : TerminalOutputBufferConfig := mkConfig 65536 "drop".
Definition demo_payload : bytes := [Byte.x61; Byte.x62; Byte.x63].
Definition demo_write (p : proc) : proc := p <| p_writer := WLoop demo_payload |>.
Definition demo_writer (p : proc) : proc := default p (writer_local p).
Definition demo_stop (c : terminalOutputConsumer) (p : proc) : proc :=
  default p (reader_local c None false p).
Definition demo_reader (p : proc) : proc := demo_stop ConsumerLive p.
Definition demo_taken (p : proc) : proc :=
  match p.(p_writer) with
  | WReserveLocked chunk rest => p <| p_writer := WAppend chunk rest |>
  | _ => p
  end.

Definition demo_p0 : proc := new_proc demo_cfg true.
(** Before the reservation, after the append, and after the live consumer's acknowledgement. *)
Definition demo_p1 : proc := demo_writer (demo_writer (demo_writer (demo_write demo_p0))).
Definition demo_p2 : proc := demo_writer (demo_taken demo_p1).
Definition demo_p3 : proc := demo_reader (demo_reader (demo_reader demo_p2)).

Definition demo_start : world :=
  set_proc 0 demo_p0
    ((initial demo_max) <| w_budget := budget_register 0 (w_budget (initial demo_max)) |>).
Definition demo_w1 : world :=
  set_proc 0 demo_p1 (set_proc 0 (demo_writer (demo_writer (demo_write demo_p0)))
    (set_proc 0 (demo_writer (demo_write demo_p0)) (set_proc 0 (demo_write demo_p0) demo_start))).
Definition demo_w2 : world :=
  set_proc 0 demo_p2 (set_proc 0 (demo_taken demo_p1)
    (demo_w1 <| w_budget := (w_budget demo_w1) <| budget_resident := 3 |> |>)).
Definition demo_w3 : world :=
  set_proc 0 demo_p3 (set_proc 0 (demo_reader (demo_reader demo_p2))
    (set_proc 0 (demo_reader demo_p2) demo_w2)).

Lemma reach_writer max w p :
  reachable max (set_proc 0 p w) → bool_decide (is_Some (writer_local p)) = true →
  reachable max (set_proc 0 (demo_writer p) (set_proc 0 p w)).
Proof.
  intros Hr [p' Hp]%bool_decide_eq_true. eapply reach_step; [exact Hr|].
  apply (step_writer _ _ p); [apply set_proc_lookup|]. unfold demo_writer. by rewrite Hp.
Qed.

Lemma reach_reader max w c p :
  reachable max (set_proc 0 p w) → bool_decide (is_Some (reader_local c None false p)) = true →
  reachable max (set_proc 0 (demo_stop c p) (set_proc 0 p w)).
Proof.
  intros Hr [p' Hp]%bool_decide_eq_true. eapply reach_step; [exact Hr|].
  apply (step_reader _ _ p c None false); [apply set_proc_lookup|]. unfold demo_stop. by rewrite Hp.
Qed.

Lemma demo_reach0 : reachable demo_max demo_start.
Proof. eapply rtc_r; [constructor|]. exact (step_new (initial demo_max) 0 demo_cfg true eq_refl). Qed.

Lemma demo_reach1 : reachable demo_max demo_w1.
Proof.
  unfold demo_w1, demo_p1. do 3 (apply reach_writer; [|vm_compute; reflexivity]).
  eapply reach_step; [exact demo_reach0|].
  exact (step_write demo_start 0 demo_p0 demo_payload (set_proc_lookup _ _ _) eq_refl).
Qed.

Lemma demo_reach2 : reachable demo_max demo_w2.
Proof.
  unfold demo_w2, demo_p2. apply reach_writer; [|vm_compute; reflexivity].
  eapply reach_step; [exact demo_reach1|].
  apply (step_reserve_taken demo_w1 0 demo_p1 demo_payload []); [apply set_proc_lookup|..];
    vm_compute; reflexivity.
Qed.

Lemma demo_reach3 : reachable demo_max demo_w3.
Proof.
  unfold demo_w3, demo_p3, demo_reader. do 3 (apply reach_reader; [|vm_compute; reflexivity]).
  exact demo_reach2.
Qed.

(** ** Memory *)

(** C9: Under every interleaving the daemon-wide budget counts exactly the payload
    bytes buffers hold, have reserved or are about to release, so [release] never has
    to clamp; the payload resident in all buffers together stays within the budget and
    that of every buffer within its configured capacity. *)
Theorem resident_bounded (max : Z) (w : world) :
  reachable max w →
  w.(w_budget).(budget_resident) = msum held w.(w_procs) ∧
  0 ≤ msum (λ q, q.(p_buf).(resident)) w.(w_procs) ≤ w.(w_budget).(budget_resident) ∧
  w.(w_budget).(budget_resident) ≤ w.(w_budget).(maxBytes) ∧
  ∀ i q, w.(w_procs) !! i = Some q →
    0 ≤ q.(p_buf).(resident) ≤ q.(p_buf).(config).(CapacityBytes).
Proof.
  intros Hr. pose proof (reachable_inv _ _ Hr) as Hw.
  assert (∀ i q, w.(w_procs) !! i = Some q → 0 ≤ q.(p_buf).(resident) ≤ held q) as Hres.
  { intros i q Hi. destruct (held_parts q (wi_proc w Hw i q Hi)) as (H1 & H2 & H3 & H4).
    pose proof (H3 ConsumerLive). pose proof (H3 ConsumerHistory). simpl in *. unfold held. lia. }
  split_and!; [apply Hw| | |apply Hw|].
  - apply msum_nonneg. intros i q Hi. apply (Hres i q Hi).
  - rewrite (wi_sum w Hw). apply msum_mono. intros i q Hi. apply (Hres i q Hi).
  - intros i q Hi. split; [apply (Hres i q Hi)|].
    destruct (wi_proc w Hw i q Hi) as (p & Hb & _). apply (bi_cap _ _ Hb).
Qed.

Lemma resident_bounded_witness :
  reachable demo_max demo_w2 ∧ 0 ≤ msum (λ q, q.(p_buf).(resident)) demo_w2.(w_procs) ≤ 3.
Proof.
  split; [exact demo_reach2|].
  exact (proj1 (proj2 (resident_bounded demo_max demo_w2 demo_reach2))).
Defined.

(** No payload leaks: once every buffer is closed and its goroutines have come to
    rest, the budget is empty again. *)
Theorem closed_no_leak (max : Z) (w : world) :
  reachable max w →
  (∀ i q, w.(w_procs) !! i = Some q →
     q.(p_buf).(closed) = true ∧ q.(p_writer) = WIdle ∧ q.(p_closers) = [] ∧
     ∀ c, p_reader q c = RDone) →
  w.(w_budget).(budget_resident) = 0.
Proof.
  intros Hr Hrest. pose proof (reachable_inv _ _ Hr) as Hw.
  rewrite (wi_sum w Hw). apply msum_zero. intros i q Hi.
  destruct (Hrest i q Hi) as (Hc & Hwr & Hcl & Hrd).
  destruct (wi_proc w Hw i q Hi) as (p & Hb & Hrec & _ & _ & Hok).
  destruct (drained_resident _ _ Hb Hrec) as [_ H0].
  { intros c. destruct (Hok c) as [Hidle _]. rewrite Hrd in Hidle. split; [apply Hidle|].
    intros Ha. by rewrite (bi_closed _ _ Hb Hc c) in Ha. }
  unfold held. rewrite H0, Hwr, Hcl.
  change (p_live q) with (p_reader q ConsumerLive).
  change (p_history q) with (p_reader q ConsumerHistory). by rewrite !Hrd.
Qed.

(** The same buffer, closed before anything was written. *)
Definition demo_c0 : proc := demo_p0 <| p_buf := (Close demo_p0.(p_buf)).1 |> <| p_closers := [0] |>.
Definition demo_c1 : proc := demo_c0 <| p_closers := [] |>.
Definition demo_c2 : proc := demo_stop ConsumerHistory (demo_stop ConsumerLive demo_c1).
Definition demo_closed : world :=
  set_proc 0 demo_c2 (set_proc 0 (demo_stop ConsumerLive demo_c1)
    (set_proc 0 demo_c1 (set_proc 0 demo_c0 demo_start))).

Lemma demo_reach_closed : reachable demo_max demo_closed.
Proof.
  unfold demo_closed, demo_c2. do 2 (apply reach_reader; [|vm_compute; reflexivity]).
  eapply reach_step; [eapply reach_step; [exact demo_reach0|]|].
  - apply (step_close demo_start 0 demo_p0 demo_c0.(p_buf) 0); [apply set_proc_lookup|].
    vm_compute; reflexivity.
  - exact (step_close_release _ 0 demo_c0 0 [] [] (set_proc_lookup _ _ _) eq_refl).
Qed.

Lemma closed_no_leak_witness : demo_closed.(w_budget).(budget_resident) = 0.
Proof.
  apply (closed_no_leak demo_max demo_closed demo_reach_closed).
  intros i q Hi. assert (q = demo_c2) as ->.
  { unfold demo_closed, set_proc in Hi. simpl in Hi.
    apply lookup_insert_Some in Hi as [[_ <-]|[H0 Hi]]; [done|].
    rewrite !lookup_insert_ne in Hi by done. by rewrite lookup_empty in Hi. }
  by split_and!; [..|intros []].
Defined.

(** ** Delivery *)

(** C1: Under every interleaving of writers, consumers, eviction and closing, what a
    consumer was told is, in order, the bytes it was promised: acknowledged batches are
    verbatim, and every gap or failure counts exactly the bytes that were skipped.
    Nothing is lost silently, duplicated or reordered; and a consumer that waits for
    output has been told everything. *)
Theorem delivery_exact (max : Z) (w : world) (i : nat) (q : proc) (c : terminalOutputConsumer) :
  reachable max w → w.(w_procs) !! i = Some q →
  ∃ rest, covers (q.(p_log) c) (q.(p_stream) c) = Some rest ∧
    (p_reader q c = RNext → (buffer_next c q.(p_buf)).2 = NextWait → rest = []).
Proof.
  intros Hr Hi. destruct (wi_proc w (reachable_inv _ _ Hr) i q Hi) as (p & Hb & _ & _ & _ & Hok).
  destruct (Hok c) as [Hrd Hcov]. exists (pd_all (p c)). split; [done|].
  intros Hk Hw. rewrite Hk in Hrd. destruct (buffer_next c q.(p_buf)) as [b' r] eqn:E.
  simpl in Hw. subst r. by destruct (inv_next _ _ _ _ _ Hb Hrd E) as ((_ & _ & H) & _).
Qed.

Lemma delivery_exact_witness :
  demo_p3.(p_stream) ConsumerLive = demo_payload ∧
  demo_p3.(p_log) ConsumerLive = [EvData demo_payload] ∧
  ∃ rest, covers (demo_p3.(p_log) ConsumerLive) (demo_p3.(p_stream) ConsumerLive) = Some rest.
Proof.
  split; [reflexivity|]. split; [reflexivity|].
  destruct (delivery_exact demo_max demo_w3 0 demo_p3 ConsumerLive demo_reach3
    (set_proc_lookup _ _ _)) as (rest & H & _).
  by exists rest.
Defined.

(** A buffer with the block policy never drops: no consumer of it is ever told
    about a gap, so together with [delivery_exact] each one is given the stream
    verbatim until it fails or the buffer is closed. *)
Theorem block_lossless (max : Z) (w : world) (i : nat) (q : proc) (c : terminalOutputConsumer) :
  reachable max w → w.(w_procs) !! i = Some q →
  q.(p_buf).(config).(Overflow) = TerminalOutputOverflowBlock →
  (∀ n, EvGap n ∉ q.(p_log) c) ∧
  (consumers q.(p_buf) c).(gapInFlight) = None ∧
  ((consumers q.(p_buf) c).(active) = true → (consumers q.(p_buf) c).(pendingGapBytes) = 0).
Proof.
  intros Hr Hi Hbl. destruct (reachable_gapless _ _ Hr i q Hi Hbl c) as [[H1 H2] H3].
  split_and!; try done. intros n Hin. rewrite Forall_forall in H3. by apply (H3 _ Hin n).
Qed.

Definition block_proc : proc := new_proc (mkConfig 0 "") true.
Definition block_start : world :=
  set_proc 0 block_proc
    ((initial demo_max) <| w_budget := budget_register 0 (w_budget (initial demo_max)) |>).
Lemma block_lossless_witness :
  block_proc.(p_buf).(config).(Overflow) = TerminalOutputOverflowBlock ∧
  EvGap 1 ∉ block_proc.(p_log) ConsumerHistory.
Proof.
  split; [reflexivity|]. apply (block_lossless demo_max block_start 0 block_proc ConsumerHistory);
    [|apply set_proc_lookup|reflexivity].
  eapply rtc_r; [constructor|]. exact (step_new (initial demo_max) 0 (mkConfig 0 "") true eq_refl).
Defined.

(** C38: The error a failed consumer reports counts exactly the bytes it had not been
    told about: the batch or gap whose callback failed, its pending gap and everything
    still queued for it. The consumer is inactive, holds nothing any more, and the
    buffer stays well formed. *)
Theorem failure_counts_unreported (c : terminalOutputConsumer) (b b' : terminalOutputBuffer)
    (p : terminalOutputConsumer → pend) (cause : goerr) (fp : bool) (rel : Z) :
  buffer_inv b p →
  ((∃ batch, (consumers b c).(inFlight) = Some batch.(batch_first) ∧
      (consumers b c).(inFlightLast) = Some batch.(batch_last) ∧
      batch.(batch_payload) = (p c).(pd_fly) ∧
      completeBatch c batch (Some cause) fp b = (b', rel)) ∨
   (∃ g, (consumers b c).(gapInFlight) = Some g ∧
      completeGap c g (Some cause) fp b = (b', rel))) →
  (∃ e, ConsumerError c b' = Some e ∧ e.(err_DroppedBytes) = len (pd_all (p c)) ∧
     e.(err_Cause) = cause ∧ e.(err_Consumer) = consumer_String c) ∧
  (consumers b' c).(active) = false ∧
  buffer_inv b' (upd c (mkPend [] []) p) ∧
  (∀ c', c' ≠ c → consumers b' c' = consumers b c') ∧
  0 ≤ rel ∧ b'.(resident) = b.(resident) - rel.
Proof.
  intros Hb H.
  assert (completion_post c b b' p [] (Some cause) fp ∧ only_consumer c b b' ∧
    0 ≤ rel ∧ b'.(resident) = b.(resident) - rel) as ([Hi Hf] & Ho & H0 & Hres).
  { destruct H as [(batch & H1 & H2 & H3 & E)|(g & H1 & E)].
    - by destruct (inv_complete_batch _ _ _ _ _ _ _ _ Hb H1 H2 H3 E) as (? & _ & ? & ? & ?).
    - by destruct (inv_complete_gap _ _ _ _ _ _ _ _ Hb H1 E) as (? & _ & ? & ? & ?). }
  destruct Hf as (Ha & _ & _ & e & He & Hc & Hd & Hca). split_and!; try done; [|apply Ho].
  by exists e.
Qed.

(** A history callback failing on the demo buffer: all three bytes are reported. *)
Definition demo_batch : terminalOutputBatch := mkBatch 1 1 demo_payload.
Definition demo_ingest : proc := demo_reader (demo_reader demo_p2).
Lemma demo_ingest_inv : proc_inv demo_ingest.
Proof.
  assert (reachable demo_max (set_proc 0 demo_ingest (set_proc 0 (demo_reader demo_p2) demo_w2)))
    as Hr.
  { unfold demo_ingest, demo_reader. do 2 (apply reach_reader; [|vm_compute; reflexivity]).
    exact demo_reach2. }
  apply (wi_proc _ (reachable_inv demo_max _ Hr) 0), set_proc_lookup.
Qed.

Lemma demo_ingest_reader : p_reader demo_ingest ConsumerLive = RIngest demo_batch.
Proof. vm_compute. reflexivity. Qed.

Lemma failure_counts_unreported_witness :
  ∃ e, ConsumerError ConsumerLive
         (completeBatch ConsumerLive demo_batch (Some "disk full"%string) true demo_ingest.(p_buf)).1
       = Some e ∧ e.(err_Cause) = "disk full"%string.
Proof.
  destruct demo_ingest_inv as (p & Hb & _ & _ & _ & Hok).
  destruct (Hok ConsumerLive) as [Hrd _]. rewrite demo_ingest_reader in Hrd.
  destruct Hrd as (H1 & H2 & H3).
  destruct (failure_counts_unreported ConsumerLive demo_ingest.(p_buf)
    (completeBatch ConsumerLive demo_batch (Some "disk full"%string) true demo_ingest.(p_buf)).1
    p "disk full"%string true
    (completeBatch ConsumerLive demo_batch (Some "disk full"%string) true demo_ingest.(p_buf)).2 Hb)
    as ((e & He & _ & Hc & _) & _).
  - left. exists demo_batch. split; [exact H1|]. split; [exact H2|].
    split; [exact H3|]. apply surjective_pairing.
  - exists e. split; [exact He|exact Hc].
Defined.

(** ** The capacity loop *)

(** The [for] loop at the head of [writeChunk], run by its goroutine alone: [None] when
    [fuel] turns were not enough. *)
Fixpoint admit_loop (fuel : nat) (chunk : bytes) (b : terminalOutputBuffer)
    : option (terminalOutputBuffer * admit_result) :=
  match fuel with
  | O => None
  | S fuel =>
      match writeChunk_admit chunk b with
      | (b', AdmitRetry _) => admit_loop fuel chunk b'
      | r => Some r
      end
  end.

Lemma admit_retry_frees chunk b b' freed :
  writeChunk_admit chunk b = (b', AdmitRetry freed) → freed ≠ 0.
Proof.
  unfold writeChunk_admit. intros E.
  repeat (case_match; simplify_eq; try done). by apply Z.eqb_neq.
Qed.

Lemma admit_wait_block chunk b b' :
  writeChunk_admit chunk b = (b', AdmitWait) → b'.(config).(Overflow) ≠ TerminalOutputOverflowDrop.
Proof.
  unfold writeChunk_admit. intros E.
  repeat (case_match; simplify_eq; try done). by apply String.eqb_neq.
Qed.

(** C39: The capacity loop of [writeChunk] terminates: a turn that goes around again has
    freed payload, so after at most as many turns as there are resident bytes the chunk
    is reserved, dropped, refused, or the (block policy) writer waits. *)
Theorem capacity_loop_terminates (chunk : bytes) (b : terminalOutputBuffer)
    (p : terminalOutputConsumer → pend) :
  buffer_inv b p → reclaimed b →
  ∃ b' r, admit_loop (S (Z.to_nat b.(resident))) chunk b = Some (b', r) ∧
    (∀ freed, r ≠ AdmitRetry freed) ∧
    (r = AdmitWait → b'.(config).(Overflow) ≠ TerminalOutputOverflowDrop).
Proof.
  intros Hb Hr.
  assert (∀ n b, b.(resident) ≤ Z.of_nat n → buffer_inv b p → reclaimed b →
    ∃ b' r, admit_loop (S n) chunk b = Some (b', r) ∧ (∀ freed, r ≠ AdmitRetry freed) ∧
      (r = AdmitWait → b'.(config).(Overflow) ≠ TerminalOutputOverflowDrop)) as Hgo.
  { clear b Hb Hr. induction n as [|n IH]; intros b Hn Hb Hr; cbn [admit_loop];
      destruct (writeChunk_admit chunk b) as [b1 r] eqn:E;
      destruct (inv_admit _ _ _ _ _ Hb Hr E) as (Hb1 & Hr1 & Hf & Hx);
      (destruct r as [freed| |ok freed|];
        [destruct Hx as [H0 Hres]; apply admit_retry_frees in E;
         pose proof (resident_nonneg _ _ Hb1)|..]).
    - lia.
    - exists b1, AdmitWait. split_and!; try done. intros _. by eapply admit_wait_block.
    - by exists b1, (AdmitReturn ok freed).
    - by exists b1, AdmitReserve.
    - apply IH; [lia|done..].
    - exists b1, AdmitWait. split_and!; try done. intros _. by eapply admit_wait_block.
    - by exists b1, (AdmitReturn ok freed).
    - by exists b1, AdmitReserve. }
  apply Hgo; [|done..]. pose proof (resident_nonneg _ _ Hb). lia.
Qed.

Lemma capacity_loop_terminates_witness :
  ∃ b' r, admit_loop (S (Z.to_nat demo_ingest.(p_buf).(resident))) demo_payload demo_ingest.(p_buf)
          = Some (b', r).
Proof.
  destruct demo_ingest_inv as (p & Hb & Hr & _).
  destruct (capacity_loop_terminates demo_payload demo_ingest.(p_buf) p Hb Hr) as (b' & r & H & _).
  exists b', r. exact H.
Defined.

(** ** Flush *)
Lemma queue_has_node c ns n :
  n ∈ ns → has_bit c n.(pending) = true → n.(seq) ∈ (queue c ns).*1.
Proof.
  intros Hn Hb. induction ns as [|m ns IH]; [set_solver|]. simpl.
  apply elem_of_cons in Hn as [->|Hn].
  - rewrite Hb. set_solver.
  - specialize (IH Hn). destruct (has_bit c m.(pending)); set_solver.
Qed.

(** When [Flush] returns nil, the consumer has either stopped, without an error, or
    has acknowledged every payload it still held that was appended before the flush: no
    node up to the target is waiting for it, in flight or queued. A pending failure is
    never reported as success. *)
Theorem flush_nil_sound (max : Z) (w : world) (i : nat) (q : proc) (c : terminalOutputConsumer)
    (target : Z) (ctxErr : option goerr) :
  reachable max w → w.(w_procs) !! i = Some q →
  flush_poll c target ctxErr q.(p_buf) = Some None →
  ConsumerError c q.(p_buf) = None ∧
  ((consumers q.(p_buf) c).(active) = false ∨
   ∀ n, n ∈ q.(p_buf).(nodes) → has_bit c n.(pending) = true → target < n.(seq)).
Proof.
  intros Hr Hi. unfold flush_poll, ConsumerError.
  destruct (unavailable _) as [e|]; [by destruct (negb _), ctxErr|].
  destruct (negb (consumers q.(p_buf) c).(active) || _) eqn:E; [|by destruct ctxErr].
  intros _. split; [done|]. apply orb_true_iff in E as [Ha|Hge].
  { left. by apply negb_true_iff in Ha. }
  right. intros n Hn Hb. destruct (wi_proc w (reachable_inv _ _ Hr) i q Hi) as (p & Hinv & _).
  destruct (bi_view _ _ Hinv c) as (fly & qu & g1 & g2 & V & _).
  pose proof (cv_completed _ _ _ _ _ _ _ _ V) as Hc.
  pose proof (queue_has_node _ _ _ Hn Hb) as Hs. rewrite (cv_queue _ _ _ _ _ _ _ _ V) in Hs.
  apply list_elem_of_fmap in Hs as (x & -> & Hx). rewrite Forall_forall in Hc.
  specialize (Hc x Hx). apply Z.geb_le in Hge. lia.
Qed.

Lemma flush_nil_sound_witness :
  flush_poll ConsumerLive 1 None demo_p3.(p_buf) = Some None ∧
  ∀ n, n ∈ demo_p3.(p_buf).(nodes) → has_bit ConsumerLive n.(pending) = true → 1 < n.(seq).
Proof.
  assert (flush_poll ConsumerLive 1 None demo_p3.(p_buf) = Some None) as E
    by (vm_compute; reflexivity).
  split; [exact E|].
  assert ((consumers demo_p3.(p_buf) ConsumerLive).(active) = true) as Ha
    by (vm_compute; reflexivity).
  destruct (flush_nil_sound demo_max demo_w3 0 demo_p3 ConsumerLive 1 None demo_reach3
    (set_proc_lookup _ _ _) E) as [_ [H|H]]; [|exact H].
  rewrite Ha in H. discriminate.
Defined.
