(* ===== verification/GoStd.v ===== *)
(** * The parts of Go's standard library the Cloud code uses

    [strings.TrimSpace] and [strings.Compare] on byte strings, [time.Time] and the
    protobuf timestamp, and ranging over a map in an unspecified order. *)
From S2P Require Import Prelude.
From Stdlib Require Import Ascii String.
Local Open Scope Z_scope.

(** ** Strings *)

(** A Go string is a byte string, one [ascii] per byte. *)
Definition string_bytes : string → list ascii := String.list_ascii_of_string.
Definition bytes_string : list ascii → string := String.string_of_list_ascii.

Definition ch (n : N) : ascii := ascii_of_N n.

(** The UTF-8 encodings of the white space of [unicode.IsSpace]. *)
Definition spaces : list (list ascii) :=
  ((λ n, [ch n]) <$> [9; 10; 11; 12; 13; 32]%N) ++
  [[ch 194; ch 133]; [ch 194; ch 160]; [ch 225; ch 154; ch 128]] ++
  ((λ n, [ch 226; ch 128; ch n]) <$>
     [128; 129; 130; 131; 132; 133; 134; 135; 136; 137; 138; 168; 169; 175]%N) ++
  [[ch 226; ch 129; ch 159]; [ch 227; ch 128; ch 128]].

Fixpoint strip (sp s : list ascii) : option (list ascii) :=
  match sp, s with
  | [], s => Some s
  | a :: sp, b :: s => if Ascii.eqb a b then strip sp s else None
  | _ :: _, [] => None
  end.
Fixpoint strip_any (sps : list (list ascii)) (s : list ascii) : option (list ascii) :=
  match sps with
  | [] => None
  | sp :: sps => match strip sp s with Some s' => Some s' | None => strip_any sps s end
  end.
(** Every turn removes at least one byte, so the length is enough fuel. *)
Fixpoint trim_front (sps : list (list ascii)) (fuel : nat) (s : list ascii) : list ascii :=
  match fuel with
  | O => s
  | S fuel => match strip_any sps s with Some s' => trim_front sps fuel s' | None => s end
  end.
Definition TrimSpace (s : string) : string :=
  let l := string_bytes s in
  let l := trim_front spaces (List.length l) l in
  let l := rev (trim_front ((λ sp, rev sp) <$> spaces) (List.length l) (rev l)) in
  bytes_string l.

Example TrimSpace_ascii : TrimSpace "  edge 7	" = "edge 7"%string.
Proof. vm_compute. reflexivity. Qed.
Example TrimSpace_all : TrimSpace "	 " = ""%string.
Proof. vm_compute. reflexivity. Qed.

(** [strings.Compare] and the order [slices.SortFunc] sorts by. *)
Definition string_le (a b : string) : bool := String.leb a b.

(** [s == ""] after trimming. *)
Definition blank (s : string) : bool := String.eqb (TrimSpace s) "".

(** ** Time

    A [time.Time] is the nanoseconds since the Unix epoch; only order, equality and
    [IsZero] matter. A nil [*timestamppb.Timestamp] is [None]. *)
Record Timestamp := mkTimestamp { ts_seconds : Z; ts_nanos : Z }.
#[export] Instance Timestamp_eq_dec : EqDecision Timestamp.
Proof. solve_decision. Defined.

Definition nanos_per_second : Z := 1000000000.
(** [AsTime], on a nil timestamp too. *)
Definition AsTime (ts : option Timestamp) : Z :=
  match ts with
  | Some ts => ts.(ts_seconds) * nanos_per_second + ts.(ts_nanos)
  | None => 0
  end.
Definition timestamp_New (t : Z) : Timestamp :=
  mkTimestamp (t / nanos_per_second) (t `mod` nanos_per_second).
(** [CheckValid() == nil]. *)
Definition timestamp_valid (ts : Timestamp) : bool :=
  (-62135596800 <=? ts.(ts_seconds)) && (ts.(ts_seconds) <=? 253402300799) &&
  (0 <=? ts.(ts_nanos)) && (ts.(ts_nanos) <? nanos_per_second).
Definition zero_time : Z := -62135596800 * nanos_per_second.
Definition IsZero (t : Z) : bool := t =? zero_time.
Definition After (a b : Z) : bool := b <? a.

(** ** Ranging over a map

    Go visits the keys of a map in an unspecified order: an operation that ranges over
    a map takes the order as an argument, and the theorems hold for every order. *)
Record map_order := mkOrder { visit : ∀ A : Type, list A → list A }.
Class OrderOk (o : map_order) : Prop := visit_perm : ∀ A (l : list A), o.(visit) A l ≡ₚ l.

Definition range {A} (o : map_order) (m : gmap string A) : list (string * A) :=
  o.(visit) _ (map_to_list m).

Definition id_order : map_order := mkOrder (λ _ l, l).
#[export] Instance id_order_ok : OrderOk id_order.
Proof. by intros A l. Qed.

Lemma elem_of_range {A} o `{!OrderOk o} (m : gmap string A) k x :
  (k, x) ∈ range o m ↔ m !! k = Some x.
Proof. unfold range. rewrite (visit_perm (o := o)). apply elem_of_map_to_list. Qed.

Lemma range_perm {A} o `{!OrderOk o} (m : gmap string A) : range o m ≡ₚ map_to_list m.
Proof. apply visit_perm. Qed.

Lemma NoDup_range_fst {A} o `{!OrderOk o} (m : gmap string A) : NoDup (range o m).*1.
Proof. rewrite range_perm by done. apply NoDup_fst_map_to_list. Qed.

(** ** Sorting by a string *)
Lemma string_le_cons a s b t : string_le (String.String a s) (String.String b t) = true ↔
  (Ascii.N_of_ascii a < Ascii.N_of_ascii b)%N ∨ a = b ∧ string_le s t = true.
Proof.
  unfold string_le, String.leb. cbn [String.compare]. destruct (Ascii.compare a b) eqn:E.
  - apply Ascii.compare_eq_iff in E as ->. split; [by right|]. by intros [?%N.lt_irrefl|[_ ?]].
  - unfold Ascii.compare in E. apply N.compare_lt_iff in E. split; [by left|done].
  - unfold Ascii.compare in E. apply N.compare_gt_iff in E. split; [done|]. intros [H|[-> _]]; [lia|by apply N.lt_irrefl in E].
Qed.

Lemma string_le_trans a b c : string_le a b = true → string_le b c = true → string_le a c = true.
Proof.
  revert b c. induction a as [|x a IH]; intros b c; [by destruct c|]. destruct b as [|y b]; [done|]. destruct c as [|z c]; [done|].
  rewrite !string_le_cons. intros [H1|[-> H1]] [H2|[-> H2]]; [left; lia|by left|by left|right; split; [done|by eapply IH]].
Qed.

Section sorted.
Context {A : Type} (key : A → string).
Definition key_before (a b : A) : Prop := string_le (key a) (key b) = true.

Lemma nodup_key (l : list A) a b : NoDup (key <$> l) → a ∈ l → b ∈ l → key a = key b → a = b.
Proof.
  intros Hnd Ha Hb E. induction l as [|x l IH]; [by apply elem_of_nil in Ha|]. cbn in Hnd. apply NoDup_cons in Hnd as [Hx Hnd].
  apply elem_of_cons in Ha as [->|Ha]; apply elem_of_cons in Hb as [->|Hb]; [done|..|by apply IH]; exfalso; apply Hx.
  - rewrite E. by apply list_elem_of_fmap_2.
  - rewrite <- E. by apply list_elem_of_fmap_2.
Qed.

Lemma sorted_unique (l1 l2 : list A) : NoDup (key <$> l1) → Sorted key_before l1 → Sorted key_before l2 → l1 ≡ₚ l2 → l1 = l2.
Proof.
  assert (Ht : Relations_1.Transitive key_before) by (intros a b c; apply string_le_trans).
  intros Hnd H1%Sorted_StronglySorted H2%Sorted_StronglySorted Hp; [|done..]. apply (StronglySorted_unique_strong key_before); try done.
  intros a b Ha Hb Hab Hba. apply (nodup_key l1); [done|done|by rewrite Hp|]. by apply String.leb_antisym.
Qed.
End sorted.
