(* ===== verification/Limiter.v ===== *)
(** * The Relay traffic limiter

    [cloud/edge/policy/limiter.go]: one [GroupLimiter] per Relay reservation, shared by
    the sockets of the reservation. The token bucket is [golang.org/x/time/rate], which
    is not part of the repository: the answers of [AllowN] and [WaitN] are arguments
    here. [Wait] is split where it leaves [limiter.mu]; [limiter_step] interleaves any
    number of calls. *)
From S2P Require Import Prelude GoStd.
Local Open Scope Z_scope.

(** ** Data and operations *)
Definition relayRateBurstBytes : Z := 64 * 1024.
Definition ErrRelayGrantLimit : goerr := "Relay grant byte, rate, or expiry limit exceeded".

(** [rate]: the arguments the token bucket was created with. *)
Record GroupLimiter := mkLimiter {
  expiresAt : Z;
  maxBytes : Z;
  used : Z;
  burst : Z;
  rate : Z * Z }.
#[export] Instance eta_limiter : Eta GroupLimiter := λ l,
  mkLimiter l.(expiresAt) l.(maxBytes) l.(used) l.(burst) l.(rate).
#[export] Instance GroupLimiter_eq_dec : EqDecision GroupLimiter.
Proof. solve_decision. Defined.

Definition NewGroupLimiter (expires max maxRateBytesPerSecond now : Z) : result GroupLimiter :=
  if negb (After expires now) || (max =? 0) || (maxRateBytesPerSecond =? 0)
  then Err "active Relay grant expiry, byte limit, and rate limit are required"
  else
    let b := relayRateBurstBytes in
    let b := if max <? b then max else b in
    Ok (mkLimiter expires max 0 b (maxRateBytesPerSecond, b)).

Definition Renew (expires now : Z) (l : GroupLimiter) : result GroupLimiter :=
  if negb (After l.(expiresAt) now) || negb (After expires l.(expiresAt))
  then Err "Relay renewal must extend an active grant"
  else Ok (l <| expiresAt := expires |>).

Definition refundBytes (count : Z) (l : GroupLimiter) : GroupLimiter :=
  let count := if count >? l.(used) then l.(used) else count in
  l <| used := l.(used) - count |>.

Definition Refund (count : Z) (l : GroupLimiter) : GroupLimiter :=
  if count =? 0 then l else refundBytes count l.

(** The critical section of [Wait]; the result is the deadline of the shaping. *)
Definition wait_admit (count now : Z) (l : GroupLimiter) : result (GroupLimiter * Z) :=
  if count =? 0 then Err "Relay group limiter, context, and byte count are required"
  else if negb (After l.(expiresAt) now) || (l.(used) >=? l.(maxBytes))
          || (count >? l.(maxBytes) - l.(used))
  then Err ErrRelayGrantLimit
  else Ok (l <| used := l.(used) + count |>, l.(expiresAt)).

(** The shaping loop of [Wait]: [waitN k n] is the answer of the [k]-th call of
    [rate.WaitN], with [n] bytes. The result lists the calls; an error ends it. *)
Fixpoint wait_shape (fuel : nat) (waitN : nat → Z → option goerr) (burst k : Z) (remaining : Z)
    : option (list Z * option goerr) :=
  match fuel with
  | O => None
  | S fuel =>
      if remaining >? 0 then
        let chunk := if remaining >? burst then burst else remaining in
        match waitN (Z.to_nat k) chunk with
        | Some e => Some ([chunk], Some ("shape Relay traffic: " +:+ e)%string)
        | None =>
            match wait_shape fuel waitN burst (k + 1) (remaining - chunk) with
            | Some (calls, r) => Some (chunk :: calls, r)
            | None => None
            end
        end
      else Some ([], None)
  end.

(** [Reserve]; [allow] is the answer of [rate.AllowN], which is asked last. *)
Definition Reserve (count now : Z) (allow : bool) (l : GroupLimiter) : GroupLimiter * bool :=
  if count =? 0 then (l, false)
  else if negb (After l.(expiresAt) now) || (l.(used) >=? l.(maxBytes))
          || (count >? l.(maxBytes) - l.(used)) || (count >? l.(burst))
  then (l, false)
  else if negb allow then (l, false)
  else (l <| used := l.(used) + count |>, true).

(** ** Concurrent use

    [waiting]: the byte counts of the calls of [Wait] that are being shaped; [granted]:
    the bytes callers may have put on the wire and did not refund. *)
Record limiter_world := mkLimiterWorld {
  lw_limiter : GroupLimiter;
  lw_waiting : list Z;
  lw_granted : Z }.

Inductive limiter_step : limiter_world → limiter_world → Prop :=
| ls_admit l l' ws g count now deadline :
    0 ≤ count → wait_admit count now l = Ok (l', deadline) →
    limiter_step (mkLimiterWorld l ws g) (mkLimiterWorld l' (count :: ws) g)
| ls_shaped l ws1 ws2 g count :
    limiter_step (mkLimiterWorld l (ws1 ++ count :: ws2) g)
                 (mkLimiterWorld l (ws1 ++ ws2) (g + count))
| ls_failed l ws1 ws2 g count :
    limiter_step (mkLimiterWorld l (ws1 ++ count :: ws2) g)
                 (mkLimiterWorld (refundBytes count l) (ws1 ++ ws2) g)
| ls_reserve l l' ws g count now allow :
    0 ≤ count → Reserve count now allow l = (l', true) →
    limiter_step (mkLimiterWorld l ws g) (mkLimiterWorld l' ws (g + count))
| ls_refund l ws g count :                  (* the caller gives back what it was granted *)
    0 ≤ count ≤ g →
    limiter_step (mkLimiterWorld l ws g) (mkLimiterWorld (Refund count l) ws (g - count))
| ls_renew l l' ws g expires now :
    Renew expires now l = Ok l' →
    limiter_step (mkLimiterWorld l ws g) (mkLimiterWorld l' ws g).

(** ** The invariant *)
Definition Zsum (l : list Z) : Z := foldr Z.add 0 l.

Lemma Zsum_app a b : Zsum (a ++ b) = Zsum a + Zsum b.
Proof. unfold Zsum. induction a; simpl; lia. Qed.

Definition limiter_inv (w : limiter_world) : Prop :=
  Forall (λ n, 0 ≤ n) w.(lw_waiting) ∧ 0 ≤ w.(lw_granted) ∧
  w.(lw_limiter).(used) = Zsum w.(lw_waiting) + w.(lw_granted) ∧
  w.(lw_limiter).(used) ≤ w.(lw_limiter).(maxBytes).

Lemma Zsum_cons n l : Zsum (n :: l) = n + Zsum l.
Proof. done. Qed.

Lemma Zsum_nonneg l : Forall (λ n, 0 ≤ n) l → 0 ≤ Zsum l.
Proof. unfold Zsum. induction 1; simpl; lia. Qed.

Lemma refund_exact count l : 0 ≤ count ≤ l.(used) →
  refundBytes count l = l <| used := l.(used) - count |>.
Proof. intros Hc. unfold refundBytes. destruct (Z.gtb_spec count l.(used)); [lia|done]. Qed.

Lemma wait_admit_spec count now l l' d :
  wait_admit count now l = Ok (l', d) →
  l' = l <| used := l.(used) + count |> ∧ l.(used) + count ≤ l.(maxBytes).
Proof.
  unfold wait_admit. destruct (count =? 0); [done|].
  destruct (_ || _ || _) eqn:E; [done|]. intros [= <- _].
  rewrite !orb_false_iff in E. split; [done|]. lia.
Qed.

Lemma Reserve_spec count now allow l l' :
  Reserve count now allow l = (l', true) →
  l' = l <| used := l.(used) + count |> ∧ l.(used) + count ≤ l.(maxBytes).
Proof.
  unfold Reserve. destruct (count =? 0); [done|].
  destruct (_ || _ || _ || _) eqn:E; [done|]. destruct (negb allow); [done|]. intros [= <-].
  rewrite !orb_false_iff in E. split; [done|]. lia.
Qed.

Lemma limiter_step_inv w w' : limiter_step w w' → limiter_inv w →
  limiter_inv w' ∧ w'.(lw_limiter).(maxBytes) = w.(lw_limiter).(maxBytes).
Proof.
  unfold limiter_inv. intros Hst (Hw & Hg & Hu & Hm). destruct Hst;
    cbn [lw_limiter lw_waiting lw_granted] in *.
  - apply wait_admit_spec in H0 as [-> Hle]. rewrite Zsum_cons. cbn.
    split; [|done]. split_and!; [by constructor|done|lia|lia].
  - rewrite Forall_app, Forall_cons in Hw. destruct Hw as (H1 & Hc & H2).
    rewrite Zsum_app, Zsum_cons in Hu. rewrite Zsum_app.
    split; [|done]. split_and!; [by apply Forall_app|lia|lia|done].
  - rewrite Forall_app, Forall_cons in Hw. destruct Hw as (H1 & Hc & H2).
    pose proof (Zsum_nonneg _ H1). pose proof (Zsum_nonneg _ H2).
    rewrite Zsum_app, Zsum_cons in Hu. rewrite refund_exact by lia. rewrite Zsum_app. cbn.
    split; [|done]. split_and!; [by apply Forall_app|lia|lia|lia].
  - apply Reserve_spec in H0 as [-> Hle]. simpl. split; [|done]. split_and!; [done|lia|lia|done].
  - pose proof (Zsum_nonneg _ Hw). unfold Refund.
    destruct (Z.eqb_spec count 0) as [->|]; [split; [|done]; split_and!; try done; lia|].
    rewrite refund_exact by lia. simpl. split; [|done]. split_and!; [done|lia|lia|lia].
  - unfold Renew in H. destruct (_ || _); [done|]. injection H as <-. by split.
Qed.

(** C33: However many sockets wait, reserve and refund at once, the bytes a reservation
    may put on the wire never exceed its grant: what is granted or being shaped is
    exactly [used], and [used] stays within [maxBytes]. Refunds never clamp, so they
    cannot manufacture quota, and renewals never raise the cap. *)
Theorem limiter_hard_cap (l : GroupLimiter) (w : limiter_world) :
  0 ≤ l.(maxBytes) → l.(used) = 0 →
  rtc limiter_step (mkLimiterWorld l [] 0) w →
  0 ≤ w.(lw_granted) ≤ l.(maxBytes) ∧
  w.(lw_granted) + Zsum w.(lw_waiting) = w.(lw_limiter).(used) ∧
  w.(lw_limiter).(used) ≤ w.(lw_limiter).(maxBytes) ∧
  w.(lw_limiter).(maxBytes) = l.(maxBytes).
Proof.
  intros Hm Hu Hr.
  assert (limiter_inv w ∧ w.(lw_limiter).(maxBytes) = l.(maxBytes)) as [(Hw & Hg & Hs & Hle) Hmax].
  { assert (limiter_inv (mkLimiterWorld l [] 0)) as Hi.
    { split_and!; simpl; [by constructor|lia|by rewrite Hu|lia]. }
    remember (mkLimiterWorld l [] 0) as w0 eqn:E.
    assert (w0.(lw_limiter).(maxBytes) = l.(maxBytes)) as H0 by (by subst). clear E.
    induction Hr as [|w1 w2 w3 Hst _ IH]; [done|].
    destruct (limiter_step_inv _ _ Hst Hi) as [Hi2 Hm2]. apply IH; [done|congruence]. }
  pose proof (Zsum_nonneg _ Hw). split_and!; lia.
Qed.

Lemma limiter_hard_cap_witness :
  is_ok (NewGroupLimiter 10 100000 5 1) = true ∧
  0 ≤ 70000 ≤ maxBytes (mkLimiter 10 100000 0 65536 (5, 65536)).
Proof.
  split; [reflexivity|].
  refine (proj1 (limiter_hard_cap (mkLimiter 10 100000 0 65536 (5, 65536))
    (mkLimiterWorld (mkLimiter 10 100000 70000 65536 (5, 65536)) [] 70000) _ eq_refl _));
    [simpl; lia|].
  eapply rtc_l; [apply (ls_admit _ (mkLimiter 10 100000 70000 65536 (5, 65536)) [] 0 70000 1 10);
    [lia|reflexivity]|].
  eapply rtc_l; [|apply rtc_refl]. exact (ls_shaped _ [] [] 0 70000).
Defined.

(** The shaping loop of [Wait] ends: with a burst of at least one byte the calls
    of [WaitN] it makes are between one byte and the burst, so [rate] never refuses them
    as too large, and when none fails they add up to exactly [count]. *)
Theorem wait_shape_exact (waitN : nat → Z → option goerr) (burst count : Z) :
  0 < burst → 0 ≤ count →
  ∃ calls r, wait_shape (S (Z.to_nat count)) waitN burst 0 count = Some (calls, r) ∧
    Forall (λ n, 0 < n ≤ burst) calls ∧ Zsum calls ≤ count ∧ (r = None → Zsum calls = count).
Proof.
  intros Hb Hc.
  assert (∀ fuel k n, 0 ≤ n < Z.of_nat fuel →
    ∃ calls r, wait_shape fuel waitN burst k n = Some (calls, r) ∧
      Forall (λ n, 0 < n ≤ burst) calls ∧ Zsum calls ≤ n ∧ (r = None → Zsum calls = n)) as Hgo.
  { induction fuel as [|fuel IH]; intros k n Hn; [lia|]. cbn [wait_shape].
    destruct (Z.gtb_spec n 0).
    2:{ exists [], None. unfold Zsum. simpl. split_and!; [done|constructor|lia|lia]. }
    set (chunk := if n >? burst then burst else n).
    assert (0 < chunk ≤ burst ∧ chunk ≤ n) as [H1 H2]
      by (unfold chunk; destruct (Z.gtb_spec n burst); lia).
    destruct (waitN (Z.to_nat k) chunk) as [e|].
    { exists [chunk], (Some ("shape Relay traffic: " +:+ e)%string). unfold Zsum. simpl.
      split_and!; [done|by apply Forall_singleton|lia|done]. }
    destruct (IH (k + 1) (n - chunk)) as (calls & r & -> & Hf & Hs & Hr); [lia|].
    exists (chunk :: calls), r. unfold Zsum in *. simpl.
    split_and!; [done|by constructor|lia|intros ->; rewrite Hr by done; lia]. }
  apply Hgo. lia.
Qed.

Lemma wait_shape_exact_witness :
  ∃ calls r, wait_shape (S (Z.to_nat 150000)) (λ _ _, None) 65536 0 150000 = Some (calls, r).
Proof.
  destruct (wait_shape_exact (λ _ _, None) 65536 150000) as (calls & r & H & _); [lia|lia|].
  exists calls, r. exact H.
Defined.
