(* ===== verification/LoginLimiter.v ===== *)
(** * The login rate limiter of the Controller API

    [cloud/controller/apihttp/login_limiter.go]: fixed windows for the whole service,
    per client address and per account digest. [sha256.Sum256] is a parameter, and the
    normalisation of account names in [allow] is outside this file, so [allowDigest] is
    modelled for an arbitrary digest. *)
From S2P Require Import Prelude GoStd.
Local Open Scope Z_scope.

(** ** Data *)

(** [netip.Addr]. *)
Inductive Addr := AddrInvalid | Addr4 (ip : Z) | Addr6 (ip : Z) (zone : string).
#[export] Instance Addr_eq_dec : EqDecision Addr.
Proof. solve_decision. Defined.
#[export] Instance Addr_countable : Countable Addr.
Proof.
  refine (inj_countable' (λ a, match a with
      | AddrInvalid => inl () | Addr4 ip => inr (inl ip) | Addr6 ip z => inr (inr (ip, z)) end)
    (λ x, match x with
      | inl _ => AddrInvalid | inr (inl ip) => Addr4 ip | inr (inr (ip, z)) => Addr6 ip z end) _).
  by intros [].
Defined.
Definition IsValid (a : Addr) : bool := match a with AddrInvalid => false | _ => true end.
(** A 4-in-6 mapped address becomes the IPv4 address. *)
Definition Unmap (a : Addr) : Addr :=
  match a with
  | Addr6 ip zone =>
      if (Z.shiftr ip 32) =? 65535 then Addr4 (Z.land ip (2 ^ 32 - 1)) else a
  | _ => a
  end.

Record loginLimiterConfig := mkLoginConfig {
  globalLimit : Z;
  clientLimit : Z;
  accountLimit : Z;
  window : Z;
  bucketTTL : Z;
  maxClientBuckets : Z;
  maxAccountBuckets : Z }.

Record loginBucket := mkBucket { count : Z; windowStart : Z; lastSeen : Z }.
#[export] Instance eta_bucket : Eta loginBucket := λ b,
  mkBucket b.(count) b.(windowStart) b.(lastSeen).
(** The zero value. *)
Definition zero_bucket : loginBucket := mkBucket 0 zero_time zero_time.

Record loginLimiter := mkLoginLimiter {
  config : loginLimiterConfig;
  global : loginBucket;
  clients : gmap Addr loginBucket;
  accounts : gmap string loginBucket }.
#[export] Instance eta_login_limiter : Eta loginLimiter := λ l,
  mkLoginLimiter l.(config) l.(global) l.(clients) l.(accounts).

Definition newLoginLimiter (c : loginLimiterConfig) : result loginLimiter :=
  if (c.(globalLimit) =? 0) || (c.(clientLimit) =? 0) || (c.(accountLimit) =? 0)
     || (c.(window) <=? 0) || (c.(bucketTTL) <? c.(window))
     || (c.(maxClientBuckets) <=? 0) || (c.(maxAccountBuckets) <=? 0)
  then Err "bounded login limiter configuration is required"
  else Ok (mkLoginLimiter c zero_bucket ∅ ∅).

Definition second : Z := nanos_per_second.
Definition default_login_config : loginLimiterConfig :=
  mkLoginConfig 300 30 10 (60 * second) (600 * second) 4096 16384.
Definition default_setup_config : loginLimiterConfig :=
  mkLoginConfig 120 20 5 (60 * second) (600 * second) 4096 16384.

(** ** Operations *)
Definition advanceLoginBucket (bucket : loginBucket) (now window : Z) : loginBucket :=
  if IsZero bucket.(windowStart) || negb (now <? bucket.(windowStart) + window)
  then bucket <| count := 0 |> <| windowStart := now |>
  else bucket.

Definition expired (now ttl : Z) (bucket : loginBucket) : bool :=
  negb (IsZero bucket.(lastSeen)) && negb (now <? bucket.(lastSeen) + ttl).
Definition pruneLoginBuckets {K} `{Countable K} (buckets : gmap K loginBucket) (now ttl : Z)
    : gmap K loginBucket :=
  filter (λ kb, expired now ttl kb.2 = false) buckets.

(** A bucket that may be missing, read as Go reads a map. *)
Definition advance_found (b : option loginBucket) (now window : Z) : option loginBucket :=
  (λ b, advanceLoginBucket b now window) <$> b.
Definition at_limit (b : option loginBucket) (limit : Z) : bool :=
  match b with Some b => b.(count) >=? limit | None => false end.
Definition hit (b : loginBucket) (now : Z) : loginBucket :=
  b <| count := b.(count) + 1 |> <| lastSeen := now |>.
Definition found {A} (x : option A) : bool := match x with Some _ => true | None => false end.

Definition allowDigest (addr : Addr) (digest : string) (now : Z) (l : loginLimiter)
    : loginLimiter * bool :=
  if negb (IsValid addr) then (l, false)
  else
    let addr := Unmap addr in
    let c := l.(config) in
    let globalBucket := advanceLoginBucket l.(global) now c.(window) in
    if globalBucket.(count) >=? c.(globalLimit) then (l, false)
    else if at_limit (advance_found (l.(clients) !! addr) now c.(window)) c.(clientLimit)
            || at_limit (advance_found (l.(accounts) !! digest) now c.(window)) c.(accountLimit)
    then (l, false)
    else
      let l := l <| clients := pruneLoginBuckets l.(clients) now c.(bucketTTL) |>
                 <| accounts := pruneLoginBuckets l.(accounts) now c.(bucketTTL) |> in
      let clientBucket := l.(clients) !! addr in
      let accountBucket := l.(accounts) !! digest in
      if (negb (found clientBucket) && (Z.of_nat (size l.(clients)) >=? c.(maxClientBuckets)))
         || (negb (found accountBucket)
             && (Z.of_nat (size l.(accounts)) >=? c.(maxAccountBuckets)))
      then (l, false)
      else
        let clientBucket := advanceLoginBucket (default zero_bucket clientBucket) now c.(window) in
        let accountBucket := advanceLoginBucket (default zero_bucket accountBucket) now c.(window) in
        if (globalBucket.(count) >=? c.(globalLimit)) || (clientBucket.(count) >=? c.(clientLimit))
           || (accountBucket.(count) >=? c.(accountLimit))
        then (l, false)
        else
          (l <| global := hit globalBucket now |>
             <| clients := <[addr := hit clientBucket now]> l.(clients) |>
             <| accounts := <[digest := hit accountBucket now]> l.(accounts) |>, true).

(** [allowSetup]: the account is the digest of the credential. *)
Definition allowSetup (Sum256 : string → string) (addr : Addr) (credential : string) :=
  allowDigest addr (Sum256 credential).

(** ** Runs *)
Record attempt := mkAttempt { at_addr : Addr; at_digest : string; at_time : Z }.

(** The limiter after some attempts, and the attempts it allowed, latest first. *)
Fixpoint login_run (l : loginLimiter) (log : list attempt) (attempts : list attempt)
    : loginLimiter * list attempt :=
  match attempts with
  | [] => (l, log)
  | a :: rest =>
      let '(l', ok) := allowDigest a.(at_addr) a.(at_digest) a.(at_time) l in
      login_run l' (if ok : bool then a :: log else log) rest
  end.

(** The clock does not go back. *)
Fixpoint timely (from : Z) (attempts : list attempt) : Prop :=
  match attempts with
  | [] => True
  | a :: rest => from ≤ a.(at_time) ∧ timely a.(at_time) rest
  end.

(** ** One bucket

    The hits of one key, latest first, each with the window it was counted in. *)
Section bucket.
Context (limit win : Z).

Definition hits_in (w : Z) (wl : list (Z * Z)) : Z := len (filter (λ e, e.2 = w) wl).

Record spaced (wl : list (Z * Z)) : Prop := {
  sp_window : Forall (λ e, e.2 ≤ e.1 < e.2 + win) wl;
  sp_apart : ∀ e e', e ∈ wl → e' ∈ wl → e.2 ≠ e'.2 → e.2 + win ≤ e'.2 ∨ e'.2 + win ≤ e.2;
  sp_limit : ∀ w, hits_in w wl ≤ limit }.

(** How the bucket of the key summarises its hits at time [now]. *)
Definition bucket_link (now : Z) (wl : list (Z * Z)) (b : option loginBucket) : Prop :=
  match b with
  | None => Forall (λ e, e.1 + win ≤ now) wl
  | Some b =>
      (b = zero_bucket ∧ wl = []) ∨
      (zero_time < b.(windowStart) ≤ now ∧ hits_in b.(windowStart) wl = b.(count) ∧
       b.(windowStart) ≤ b.(lastSeen) ≤ now ∧
       Forall (λ e, e.2 ≤ b.(windowStart) ∧ e.1 ≤ b.(lastSeen) ∧
                    (e.2 = b.(windowStart) ∨ e.2 + win ≤ b.(windowStart))) wl)
  end.

Lemma link_later now now' wl b : now ≤ now' → bucket_link now wl b → bucket_link now' wl b.
Proof.
  intros Hn. destruct b as [b|]; simpl.
  - intros [?|(H1 & H2 & H3 & H4)]; [by left|right]. split_and!; try done; lia.
  - intros Hf. eapply Forall_impl; [exact Hf|]. simpl. lia.
Qed.

(** Pruning forgets only buckets none of whose hits can still count. *)
Lemma link_pruned now wl b ttl :
  win ≤ ttl → bucket_link now wl (Some b) → expired now ttl b = true → bucket_link now wl None.
Proof.
  intros Ht Hl He. unfold expired in He. apply andb_true_iff in He as [_ He]. simpl in *.
  destruct Hl as [[-> ->]|(_ & _ & _ & Hf)]; [constructor|].
  eapply Forall_impl; [exact Hf|]. intros e (_ & Hle & _). simpl in *. lia.
Qed.

Lemma hits_in_cons w e wl : hits_in w (e :: wl) = (if decide (e.2 = w) then 1 else 0) + hits_in w wl.
Proof.
  unfold hits_in, len. rewrite filter_cons. case_decide; simpl; lia.
Qed.

Lemma hits_in_none w wl : (∀ e, e ∈ wl → e.2 ≠ w) → hits_in w wl = 0.
Proof. intros H. unfold hits_in. by rewrite list_filter_none. Qed.

Lemma zero_time_IsZero t : zero_time < t → IsZero t = false.
Proof. unfold IsZero. intros. apply Z.eqb_neq. lia. Qed.

(** A hit that the bucket admits keeps the history spaced. *)
Lemma link_hit now wl b :
  0 < win → zero_time < now → spaced wl → bucket_link now wl b →
  let adv := advanceLoginBucket (default zero_bucket b) now win in
  adv.(count) < limit →
  spaced ((now, adv.(windowStart)) :: wl) ∧
  bucket_link now ((now, adv.(windowStart)) :: wl) (Some (hit adv now)).
Proof.
  intros Hw Hz Hs Hl adv Hlim.
  assert (∃ w k, adv = mkBucket k w adv.(lastSeen) ∧ k = hits_in w wl ∧ zero_time < w ≤ now ∧ now < w + win ∧
    Forall (λ e, e.2 ≤ w ∧ (e.2 = w ∨ e.2 + win ≤ w)) wl ∧ Forall (λ e, e.1 ≤ now) wl)
    as (w & k & Ea & -> & Hwn & Hnw & Hf & Hft).
  { assert (∀ b0 : loginBucket, Forall (λ e : Z * Z, e.2 + win ≤ now ∧ e.1 ≤ now) wl →
      ∃ w k, b0 <| count := 0 |> <| windowStart := now |> = mkBucket k w b0.(lastSeen) ∧
        k = hits_in w wl ∧ zero_time < w ≤ now ∧ now < w + win ∧
        Forall (λ e, e.2 ≤ w ∧ (e.2 = w ∨ e.2 + win ≤ w)) wl ∧ Forall (λ e, e.1 ≤ now) wl) as Hnew.
    { intros b0 Hf. exists now, 0. split; [done|].
      rewrite Forall_forall in Hf. split_and!; [|lia..| |].
      - symmetry. apply hits_in_none. intros e He. specialize (Hf e He). lia.
      - apply Forall_forall. intros e He. specialize (Hf e He). lia.
      - apply Forall_forall. intros e He. by apply Hf. }
    pose proof (sp_window _ Hs) as Hin. rewrite Forall_forall in Hin.
    unfold adv, advanceLoginBucket. destruct b as [b|]; simpl in *.
    - destruct Hl as [[-> ->]|(H1 & H2 & H3 & H4)].
      + simpl. destruct (Hnew zero_bucket) as (w & k & E & HH); [constructor|].
        exists w, k. by rewrite E.
      + rewrite zero_time_IsZero by lia. simpl. rewrite Forall_forall in H4.
        destruct (Z.ltb_spec now (b.(windowStart) + win)); simpl.
        * exists b.(windowStart), b.(count). split_and!; [by destruct b|done|lia..| |].
          -- apply Forall_forall. intros e He. destruct (H4 e He) as (? & ? & ?). done.
          -- apply Forall_forall. intros e He. destruct (H4 e He) as (? & ? & ?). lia.
        * destruct (Hnew b) as (w & k & E & HH); [|exists w, k; by rewrite E].
          apply Forall_forall. intros e He. destruct (H4 e He) as (? & ? & ?). lia.
    - destruct (Hnew zero_bucket) as (w & k & E & HH); [|exists w, k; by rewrite E].
      rewrite Forall_forall in Hl. apply Forall_forall. intros e He.
      specialize (Hl e He). specialize (Hin e He). lia. }
  clearbody adv. rewrite Ea in Hlim. rewrite Ea. simpl in *. split.
  - rewrite Forall_forall in Hf. split.
    + constructor; [simpl; lia|apply Hs].
    + intros e e' [->|He]%elem_of_cons [->|He']%elem_of_cons Hne; simpl in *; try done.
      * destruct (Hf e' He') as [_ [?|?]]; [congruence|by right].
      * destruct (Hf e He) as [_ [?|?]]; [congruence|by left].
      * by apply Hs.
    + intros w'. rewrite hits_in_cons. simpl. pose proof (sp_limit _ Hs w').
      case_decide; [subst; lia|lia].
  - right. split_and!; try lia.
    + rewrite hits_in_cons. simpl. rewrite decide_True by done. lia.
    + constructor; [simpl; lia|]. rewrite Forall_forall in *. intros e He.
      destruct (Hf e He). specialize (Hft e He). simpl in *. lia.
Qed.
End bucket.

(** ** One key *)

(** [ts]: the times of the key's admitted attempts, latest first. *)
Definition key_ok (limit win now : Z) (ts : list Z) (b : option loginBucket) : Prop :=
  ∃ wl, wl.*1 = ts ∧ spaced limit win wl ∧ bucket_link win now wl b.

Lemma spaced_nil limit win : 0 ≤ limit → spaced limit win [].
Proof. intros Hl. split; [constructor|set_solver|done]. Qed.

Lemma key_ok_fresh limit win now : 0 ≤ limit → key_ok limit win now [] None.
Proof. intros. exists []. split; [done|]. split; [by apply spaced_nil|constructor]. Qed.

Lemma key_ok_zero limit win now : 0 ≤ limit → key_ok limit win now [] (Some zero_bucket).
Proof. intros. exists []. split; [done|]. split; [by apply spaced_nil|by left]. Qed.

Lemma key_ok_later limit win now now' ts b :
  now ≤ now' → key_ok limit win now ts b → key_ok limit win now' ts b.
Proof. intros Hn (wl & H1 & H2 & H3). exists wl. eauto using link_later. Qed.

Lemma key_ok_hit limit win now ts b :
  0 < win → zero_time < now → key_ok limit win now ts b →
  let adv := advanceLoginBucket (default zero_bucket b) now win in
  adv.(count) < limit → key_ok limit win now (now :: ts) (Some (hit adv now)).
Proof.
  intros Hw Hz (wl & H1 & H2 & H3) adv Hlim.
  destruct (link_hit limit win now wl b Hw Hz H2 H3 Hlim) as [H4 H5].
  exists ((now, adv.(windowStart)) :: wl). split; [by rewrite <- H1|done].
Qed.

Lemma prune_lookup {K} `{Countable K} (m : gmap K loginBucket) now ttl k :
  pruneLoginBuckets m now ttl !! k =
  match m !! k with
  | Some b => if expired now ttl b then None else Some b
  | None => None
  end.
Proof.
  unfold pruneLoginBuckets. rewrite map_lookup_filter. destruct (m !! k) as [b|]; [|done]. simpl.
  destruct (expired now ttl b) eqn:E; [by rewrite option_guard_False|by rewrite option_guard_True].
Qed.

Lemma key_ok_prune {K} `{Countable K} limit win now ts (m : gmap K loginBucket) ttl k :
  win ≤ ttl → key_ok limit win now ts (m !! k) →
  key_ok limit win now ts (pruneLoginBuckets m now ttl !! k).
Proof.
  intros Ht Hk. rewrite prune_lookup. destruct (m !! k) as [b|]; [|done].
  destruct (expired now ttl b) eqn:E; [|done].
  destruct Hk as (wl & H1 & H2 & H3). exists wl. eauto using link_pruned.
Qed.

Lemma filter_two {A} (P Q1 Q2 : A → Prop) `{∀ x, Decision (P x), ∀ x, Decision (Q1 x), ∀ x, Decision (Q2 x)} (l : list A) :
  (∀ x, x ∈ l → P x → Q1 x ∨ Q2 x) →
  len (filter P l) ≤ len (filter Q1 l) + len (filter Q2 l).
Proof.
  unfold len. induction l as [|x l IH]; intros Hp; [done|]. rewrite !filter_cons.
  specialize (IH ltac:(intros; apply Hp; set_solver)).
  assert (P x → Q1 x ∨ Q2 x) by (apply Hp; set_solver).
  repeat case_decide; simpl; try lia. tauto.
Qed.

Lemma filter_fst_times (P : Z → Prop) `{∀ x, Decision (P x)} (wl : list (Z * Z)) :
  filter P wl.*1 = (filter (λ e, P e.1) wl).*1.
Proof.
  induction wl as [|e wl IH]; [done|]. rewrite fmap_cons, !filter_cons.
  case_decide; [rewrite fmap_cons|]; by rewrite IH.
Qed.

(** At most two windows meet any stretch of the length of one window. *)
Lemma key_ok_sliding limit win now ts b t0 :
  key_ok limit win now ts b → 0 ≤ limit →
  len (filter (λ t, t0 < t ≤ t0 + win) ts) ≤ 2 * limit.
Proof.
  intros (wl & <- & [Hin Hap Hlim] & _) H0. rewrite filter_fst_times.
  unfold len at 1. rewrite length_fmap. fold (len (filter (λ e : Z * Z, t0 < e.1 ≤ t0 + win) wl)).
  set (inside := λ e : Z * Z, t0 < e.1 ≤ t0 + win).
  rewrite Forall_forall in Hin.
  assert (Hone : ∀ w w', (∀ e, e ∈ wl → inside e → e.2 = w ∨ e.2 = w') →
    len (filter inside wl) ≤ 2 * limit).
  { intros w w' Hww. pose proof (filter_two inside (λ e, e.2 = w) (λ e, e.2 = w') wl Hww).
    pose proof (Hlim w). pose proof (Hlim w'). unfold hits_in in *. lia. }
  destruct (filter inside wl) as [|e1 S1] eqn:E1; [unfold len; simpl; lia|].
  assert (e1 ∈ wl ∧ inside e1) as [He1 Hi1].
  { assert (e1 ∈ filter inside wl) as Hx by (rewrite E1; set_solver).
    by apply list_elem_of_filter in Hx as [? ?]. }
  destruct (filter (λ e : Z * Z, inside e ∧ e.2 ≠ e1.2) wl) as [|e2 S2] eqn:E2.
  - apply (Hone e1.2 e1.2). intros e He Hi. left. destruct (decide (e.2 = e1.2)) as [|Hne]; [done|].
    exfalso. assert (e ∈ filter (λ e : Z * Z, inside e ∧ e.2 ≠ e1.2) wl) as Hx
      by (by apply list_elem_of_filter). rewrite E2 in Hx. set_solver.
  - assert (e2 ∈ wl ∧ inside e2 ∧ e2.2 ≠ e1.2) as (He2 & Hi2 & Hne).
    { assert (e2 ∈ filter (λ e : Z * Z, inside e ∧ e.2 ≠ e1.2) wl) as Hx
        by (rewrite E2; set_solver). apply list_elem_of_filter in Hx. tauto. }
    apply (Hone e1.2 e2.2). intros e He Hi.
    destruct (decide (e.2 = e1.2)) as [|H1]; [by left|].
    destruct (decide (e.2 = e2.2)) as [|H2]; [by right|]. exfalso.
    pose proof (Hap _ _ He He1 H1). pose proof (Hap _ _ He He2 H2).
    pose proof (Hap _ _ He2 He1 Hne).
    pose proof (Hin _ He). pose proof (Hin _ He1). pose proof (Hin _ He2).
    unfold inside in *. lia.
Qed.

(** ** The whole limiter *)
Definition times (P : attempt → Prop) `{∀ a, Decision (P a)} (log : list attempt) : list Z :=
  at_time <$> filter P log.
Definition by_client (addr : Addr) (a : attempt) : Prop := Unmap a.(at_addr) = addr.
Definition by_account (digest : string) (a : attempt) : Prop := a.(at_digest) = digest.
#[export] Instance by_client_dec addr a : Decision (by_client addr a).
Proof. unfold by_client. apply _. Defined.
#[export] Instance by_account_dec digest a : Decision (by_account digest a).
Proof. unfold by_account. apply _. Defined.

Definition config_ok (c : loginLimiterConfig) : Prop :=
  0 < c.(globalLimit) ∧ 0 < c.(clientLimit) ∧ 0 < c.(accountLimit) ∧ 0 < c.(window) ∧
  c.(window) ≤ c.(bucketTTL) ∧ 0 < c.(maxClientBuckets) ∧ 0 < c.(maxAccountBuckets).

Record limiter_ok (now : Z) (log : list attempt) (l : loginLimiter) : Prop := {
  lo_config : config_ok l.(config);
  lo_global : key_ok l.(config).(globalLimit) l.(config).(window) now
                (times (λ _, True) log) (Some l.(global));
  lo_client : ∀ addr, key_ok l.(config).(clientLimit) l.(config).(window) now
                (times (by_client addr) log) (l.(clients) !! addr);
  lo_account : ∀ digest, key_ok l.(config).(accountLimit) l.(config).(window) now
                (times (by_account digest) log) (l.(accounts) !! digest);
  lo_clients : Z.of_nat (size l.(clients)) ≤ l.(config).(maxClientBuckets);
  lo_accounts : Z.of_nat (size l.(accounts)) ≤ l.(config).(maxAccountBuckets) }.

Lemma limiter_ok_later now now' log l : now ≤ now' → limiter_ok now log l → limiter_ok now' log l.
Proof. intros Hn []. split; eauto using key_ok_later. Qed.

Lemma prune_size {K} `{Countable K} (m : gmap K loginBucket) now ttl :
  (size (pruneLoginBuckets m now ttl) ≤ size m)%nat.
Proof. apply map_subseteq_size, map_filter_subseteq. Qed.

Lemma limiter_ok_prune now log l :
  limiter_ok now log l →
  limiter_ok now log (l <| clients := pruneLoginBuckets l.(clients) now l.(config).(bucketTTL) |>
                        <| accounts := pruneLoginBuckets l.(accounts) now l.(config).(bucketTTL) |>).
Proof.
  intros []. destruct lo_config0 as (H1 & H2 & H3 & H4 & H5 & H6 & H7). split; simpl.
  - done.
  - done.
  - intros a. by apply key_ok_prune.
  - intros d. by apply key_ok_prune.
  - pose proof (prune_size l.(clients) now l.(config).(bucketTTL)). lia.
  - pose proof (prune_size l.(accounts) now l.(config).(bucketTTL)). lia.
Qed.

Lemma times_cons (P : attempt → Prop) `{∀ a, Decision (P a)} a log :
  times P (a :: log) = if decide (P a) then a.(at_time) :: times P log else times P log.
Proof. unfold times. rewrite filter_cons. by case_decide. Qed.

(** One map of buckets after a hit of [k]. *)
Lemma keys_hit {K} `{Countable K} limit win now log (m : gmap K loginBucket) k
    (P : K → attempt → Prop) `{∀ k a, Decision (P k a)} (a : attempt) :
  0 < win → zero_time < now → a.(at_time) = now → (∀ k', P k' a ↔ k' = k) →
  (∀ k', key_ok limit win now (times (P k') log) (m !! k')) →
  let adv := advanceLoginBucket (default zero_bucket (m !! k)) now win in
  adv.(count) < limit →
  ∀ k', key_ok limit win now (times (P k') (a :: log)) (<[k := hit adv now]> m !! k').
Proof.
  intros Hw Hz Ha Hp Hk adv Hlim k'. rewrite times_cons. case_decide as Hd.
  - apply Hp in Hd as ->. rewrite lookup_insert_eq, Ha. by apply key_ok_hit.
  - rewrite lookup_insert_ne; [apply Hk|]. intros ->. by apply Hd, Hp.
Qed.

Lemma size_hit {K} `{Countable K} (m : gmap K loginBucket) k b max :
  negb (found (m !! k)) && (Z.of_nat (size m) >=? max) = false → Z.of_nat (size m) ≤ max →
  Z.of_nat (size (<[k := b]> m)) ≤ max.
Proof.
  intros Hf Hs. destruct (m !! k) as [b'|] eqn:E.
  - rewrite map_size_insert_Some by (by rewrite E). done.
  - rewrite map_size_insert_None by done. simpl in Hf. lia.
Qed.

Lemma allow_ok now log l a l' ok :
  limiter_ok now log l → now ≤ a.(at_time) → zero_time < a.(at_time) →
  allowDigest a.(at_addr) a.(at_digest) a.(at_time) l = (l', ok) →
  limiter_ok a.(at_time) (if ok then a :: log else log) l' ∧ l'.(config) = l.(config).
Proof.
  intros Hl Hn Hz. apply (limiter_ok_later _ _ _ _ Hn) in Hl.
  unfold allowDigest. set (t := a.(at_time)) in *. set (c := l.(config)).
  destruct (negb (IsValid _)); [by intros [= <- <-]|].
  destruct (_ >=? _) eqn:Eg; [by intros [= <- <-]|].
  destruct (_ || _); [by intros [= <- <-]|].
  apply limiter_ok_prune in Hl. fold c in Hl.
  set (l1 := l <| clients := _ |> <| accounts := _ |>) in *.
  destruct ((negb (found (l1.(clients) !! _)) && _) || _) eqn:Ef; [by intros [= <- <-]|].
  apply orb_false_iff in Ef as [Ef1 Ef2].
  cbv zeta. match goal with |- (if ?x then _ else _) = _ → _ => destruct x eqn:Ec end;
    [by intros [= <- <-]|].
  apply orb_false_iff in Ec as [[_ Ec1]%orb_false_iff Ec2]. intros [= <- <-].
  destruct Hl as [(L1 & L2 & L3 & L4 & L5 & L6 & L7) Hg Hc Ha Hs1 Hs2].
  change (config l1) with c in *. change (global l1) with (global l) in *.
  split; [|done]. split; cbn [set_field config global clients accounts];
    change (config l1) with c.
  - by split_and!.
  - rewrite times_cons, decide_True by done.
    apply (key_ok_hit _ _ _ _ (Some (global l))); [done|done|exact Hg|]. simpl. lia.
  - apply (keys_hit c.(clientLimit) c.(window) t log l1.(clients) (Unmap a.(at_addr)) by_client a);
      try done; lia.
  - apply (keys_hit c.(accountLimit) c.(window) t log l1.(accounts) a.(at_digest) by_account a);
      try done; lia.
  - by apply size_hit.
  - by apply size_hit.
Qed.

(** The limits are [uint32]. *)
Definition limits_uint (c : loginLimiterConfig) : Prop :=
  0 ≤ c.(globalLimit) ∧ 0 ≤ c.(clientLimit) ∧ 0 ≤ c.(accountLimit).

Lemma new_limiter_ok c l now :
  limits_uint c → newLoginLimiter c = Ok l → limiter_ok now [] l ∧ l.(config) = c.
Proof.
  unfold newLoginLimiter. intros (H1 & H2 & H3) E.
  destruct (_ || _) eqn:Ec; [done|]. injection E as <-. rewrite !orb_false_iff in Ec.
  split; [|done]. split; simpl; try lia.
  - unfold config_ok. lia.
  - by apply key_ok_zero.
  - intros a. rewrite lookup_empty. by apply key_ok_fresh.
  - intros d. rewrite lookup_empty. by apply key_ok_fresh.
  - rewrite map_size_empty. lia.
  - rewrite map_size_empty. lia.
Qed.

Lemma run_ok attempts now log l l' log' :
  limiter_ok now log l → timely now attempts → zero_time < now →
  login_run l log attempts = (l', log') →
  ∃ now', limiter_ok now' log' l' ∧ l'.(config) = l.(config).
Proof.
  revert now log l. induction attempts as [|a rest IH]; intros now log l Hl Ht Hz; simpl.
  { intros [= <- <-]. by exists now. }
  destruct Ht as [Hn Ht]. destruct (allowDigest _ _ _ _) as [l1 ok] eqn:E. intros Hr.
  destruct (allow_ok now log l a l1 ok Hl Hn ltac:(lia) E) as [Hl1 Hc].
  destruct (IH _ _ _ Hl1 Ht ltac:(lia) Hr) as (now' & H1 & H2). exists now'. split; [done|congruence].
Qed.

(** Whatever the attempts, in any stretch of time as long as the window no client
    address gets more than twice [clientLimit] attempts through, no account more than
    twice [accountLimit] and the service as a whole no more than twice [globalLimit];
    pruning expired buckets never gives a key extra attempts. *)
Theorem login_rate_bounded (c : loginLimiterConfig) (l l' : loginLimiter) (start : Z)
    (attempts log : list attempt) (t0 : Z) :
  limits_uint c → newLoginLimiter c = Ok l → zero_time < start → timely start attempts →
  login_run l [] attempts = (l', log) →
  (∀ addr, len (filter (λ t, t0 < t ≤ t0 + c.(window)) (times (by_client addr) log))
           ≤ 2 * c.(clientLimit)) ∧
  (∀ digest, len (filter (λ t, t0 < t ≤ t0 + c.(window)) (times (by_account digest) log))
             ≤ 2 * c.(accountLimit)) ∧
  len (filter (λ t, t0 < t ≤ t0 + c.(window)) (times (λ _, True) log)) ≤ 2 * c.(globalLimit).
Proof.
  intros Hu Hnew Hz Ht Hr. destruct (new_limiter_ok c l start Hu Hnew) as [Hl Hc].
  destruct (run_ok _ _ _ _ _ _ Hl Ht Hz Hr) as (now & [_ Hg Hcl Hac _ _] & Hc').
  rewrite Hc', Hc in *. destruct Hu as (H1 & H2 & H3). split_and!.
  - intros addr. by apply (key_ok_sliding _ _ now _ (clients l' !! addr)).
  - intros d. by apply (key_ok_sliding _ _ now _ (accounts l' !! d)).
  - by apply (key_ok_sliding _ _ now _ (Some (global l'))).
Qed.

Definition demo_attempts : list attempt :=
  [mkAttempt (Addr4 1) "a" 100; mkAttempt (Addr4 1) "a" 101; mkAttempt (Addr4 1) "b" 102;
   mkAttempt (Addr4 2) "a" 103].
Definition demo_config : loginLimiterConfig := mkLoginConfig 10 2 2 60 600 8 8.

Lemma login_rate_bounded_witness :
  limits_uint demo_config ∧ times (λ _, True) (login_run (mkLoginLimiter demo_config zero_bucket ∅ ∅)
    [] demo_attempts).2 = [101; 100] ∧
  len (filter (λ t, 99 < t ≤ 99 + 60) (times (λ _, True)
    (login_run (mkLoginLimiter demo_config zero_bucket ∅ ∅) [] demo_attempts).2)) ≤ 20.
Proof.
  assert (limits_uint demo_config) as Hu by (unfold limits_uint; simpl; lia).
  split; [exact Hu|]. split; [vm_compute; reflexivity|].
  apply (login_rate_bounded demo_config (mkLoginLimiter demo_config zero_bucket ∅ ∅)
    (login_run (mkLoginLimiter demo_config zero_bucket ∅ ∅) [] demo_attempts).1 100
    demo_attempts _ 99 Hu).
  - reflexivity.
  - reflexivity.
  - simpl. lia.
  - apply surjective_pairing.
Defined.

(** The memory of the limiter is bounded: there are never more client or account
    buckets than configured. A new key that does not fit is refused; no tracked key is
    evicted to make room for it. *)
Theorem login_memory_bounded (c : loginLimiterConfig) (l l' : loginLimiter) (start : Z)
    (attempts log : list attempt) :
  limits_uint c → newLoginLimiter c = Ok l → zero_time < start → timely start attempts →
  login_run l [] attempts = (l', log) →
  Z.of_nat (size l'.(clients)) ≤ c.(maxClientBuckets) ∧
  Z.of_nat (size l'.(accounts)) ≤ c.(maxAccountBuckets).
Proof.
  intros Hu Hnew Hz Ht Hr. destruct (new_limiter_ok c l start Hu Hnew) as [Hl Hc].
  destruct (run_ok _ _ _ _ _ _ Hl Ht Hz Hr) as (now & [_ _ _ _ H1 H2] & Hc').
  by rewrite Hc', Hc in *.
Qed.

Lemma login_memory_bounded_witness :
  Z.of_nat (size (clients (login_run (mkLoginLimiter demo_config zero_bucket ∅ ∅) []
    demo_attempts).1)) ≤ 8.
Proof.
  apply (login_memory_bounded demo_config (mkLoginLimiter demo_config zero_bucket ∅ ∅) _ 100
    demo_attempts (login_run (mkLoginLimiter demo_config zero_bucket ∅ ∅) [] demo_attempts).2).
  - unfold limits_uint. simpl. lia.
  - reflexivity.
  - reflexivity.
  - simpl. lia.
  - apply surjective_pairing.
Defined.
