(* ===== verification/EdgeState.v ===== *)
(** * The Edge runtime state: data and daemon operations

    [cloud/edge/runtime/state.go], [daemon_state.go] and
    [cloud/runtimesnapshot/snapshot.go]: the state that the Edge actor owns and the
    operations it runs on it, one at a time. An operation is a function on [stateData];
    it returns the closers its caller runs after the actor is done with it. Clone
    operations are the identity, since values are immutable here.

    A channel is its index; [trace] is the ghost list of what the actor did to channels
    and writers. [Relay] has the Relay operations, [EdgeWorld] the steps. *)
From S2P Require Import Prelude GoStd Limiter.
Local Open Scope Z_scope.

(** ** Messages ([proto/cloud/v1]) *)
Record AgentPresence := mkAgent {
  ap_DaemonId : string;
  ap_AccountId : string;
  ap_BootId : string;
  ap_ConnectionId : string;
  ap_Generation : Z;
  ap_BindingId : string;
  ap_BindingIssuedAt : option Timestamp }.
#[export] Instance eta_agent : Eta AgentPresence := λ a,
  mkAgent a.(ap_DaemonId) a.(ap_AccountId) a.(ap_BootId) a.(ap_ConnectionId)
    a.(ap_Generation) a.(ap_BindingId) a.(ap_BindingIssuedAt).
#[export] Instance agent_eq_dec : EqDecision AgentPresence.
Proof. solve_decision. Defined.

Record ClientSessionSummary := mkSession {
  cs_SessionId : string;
  cs_AccountId : string;
  cs_DaemonId : string;
  cs_ClientId : string;
  cs_Product : Z;
  cs_Generation : Z;
  cs_AccessMode : Z }.

Record RuntimeSnapshot := mkSnapshot {
  rs_Revision : Z;
  rs_Agents : list AgentPresence;
  rs_Sessions : list ClientSessionSummary }.

Inductive DeltaChange :=
| AgentUpserted (a : AgentPresence)
| AgentRemoved (DaemonId : string) (Generation : Z)
| SessionUpserted (s : ClientSessionSummary)
| SessionRemoved (SessionId : string) (Generation : Z).
Record RuntimeDelta := mkDelta { rd_Revision : Z; rd_Change : DeltaChange }.

Inductive DaemonState := UNSPECIFIED | ACTIVE | BLOCKED | DELETED | OtherState (n : Z).
#[export] Instance DaemonState_eq_dec : EqDecision DaemonState.
Proof. solve_decision. Defined.
Record DaemonStateRecord := mkDaemon {
  ds_DaemonId : string;
  ds_State : DaemonState;
  ds_StateRevision : Z }.
#[export] Instance eta_daemon : Eta DaemonStateRecord := λ r,
  mkDaemon r.(ds_DaemonId) r.(ds_State) r.(ds_StateRevision).
#[export] Instance daemon_eq_dec : EqDecision DaemonStateRecord.
Proof. solve_decision. Defined.

(** [dc_Other]: the fields that are only carried along. *)
Record DaemonBindingClaims := mkClaims {
  dc_BindingId : string;
  dc_DaemonId : string;
  dc_AccountId : string;
  dc_DevicePublicKey : string;
  dc_ExpiresAt : option Timestamp;
  dc_Other : string }.

Record DaemonLifecycleResult := mkLifecycle {
  dl_DaemonState : option DaemonStateRecord;
  dl_AgentGeneration : Z;
  dl_Applied : bool;
  dl_ErrorMessage : string }.

Inductive EdgeCommand :=
| CmdLifecycle (r : DaemonStateRecord) (AgentGeneration : Z)
| CmdOther (payload : string).
#[export] Instance EdgeCommand_eq_dec : EqDecision EdgeCommand.
Proof. solve_decision. Defined.

(** The payloads of an [AgentEvent] that can end a signal; the rest of it is [ev_Other]. *)
Inductive SignalPayload :=
| EvAnswer (CorrelationId SessionId : string)
| EvRejected (CorrelationId SessionId : string)
| EvAuthorization (CorrelationId SessionId : string)
| EvUnrelated.
Record AgentEvent := mkEvent { ev_Payload : SignalPayload; ev_Other : string }.
#[export] Instance SignalPayload_eq_dec : EqDecision SignalPayload.
Proof. solve_decision. Defined.
#[export] Instance AgentEvent_eq_dec : EqDecision AgentEvent.
Proof. solve_decision. Defined.

Record RelayPolicySnapshot := mkPolicy {
  rp_DaemonId : string;
  rp_AllowedRegions : list string;
  rp_Other : string }.
#[export] Instance eta_policy : Eta RelayPolicySnapshot := λ p,
  mkPolicy p.(rp_DaemonId) p.(rp_AllowedRegions) p.(rp_Other).
#[export] Instance policy_eq_dec : EqDecision RelayPolicySnapshot.
Proof. solve_decision. Defined.
Record RelayGrant := mkGrant {
  rg_ReservationId : string;
  rg_SessionId : string;
  rg_ReservedBytes : Z;
  rg_MaxRateBytesPerSecond : Z;
  rg_RenewSequence : Z;
  rg_AuthorizedUntil : option Timestamp;
  rg_PolicyDigest : string;
  rg_Policy : option RelayPolicySnapshot }.
#[export] Instance grant_eq_dec : EqDecision RelayGrant.
Proof. solve_decision. Defined.
Definition grant_DaemonId (g : RelayGrant) : string := from_option rp_DaemonId ""%string g.(rg_Policy).
Record RelayICEConfig := mkICE {
  ri_ReservationId : string;
  ri_Urls : list string;
  ri_Username : string;
  ri_Credential : string;
  ri_ExpiresAt : option Timestamp }.
#[export] Instance eta_ice : Eta RelayICEConfig := λ m,
  mkICE m.(ri_ReservationId) m.(ri_Urls) m.(ri_Username) m.(ri_Credential) m.(ri_ExpiresAt).

Inductive RelaySettlementKind := KindExact | KindRecoveryMax | OtherKind (n : Z).
#[export] Instance RelaySettlementKind_eq_dec : EqDecision RelaySettlementKind.
Proof. solve_decision. Defined.
Record RelaySettlement := mkSettlement {
  st_ReservationId : string;
  st_Kind : RelaySettlementKind;
  st_IngressBytes : Z;
  st_EgressBytes : Z;
  st_PolicyDigest : string;
  st_ObservedAt : option Timestamp }.
#[export] Instance RelaySettlement_eq_dec : EqDecision RelaySettlement.
Proof. solve_decision. Defined.

(** ** Errors *)
Definition ErrStaleGeneration : goerr := "runtime object generation is stale".
Definition ErrAgentCapacityExhausted : goerr := "runtime agent capacity is exhausted".
Definition ErrAgentGenerationExhausted : goerr := "runtime agent generation is exhausted".
Definition ErrDaemonStateUnavailable : goerr := "daemon lifecycle state is unavailable".
Definition ErrDaemonBlocked : goerr := "daemon Cloud access is blocked".
Definition ErrDaemonDeleted : goerr := "daemon Cloud enrollment is deleted".

(** [%q], for text that needs no escapes. *)
Definition quoted (s : string) : string :=
  let q := String.String (Ascii.ascii_of_N 34) "" in q +:+ s +:+ q.

(** ** Snapshots ([cloud/runtimesnapshot]) *)
Definition validateAgent (agent : option AgentPresence) : option goerr :=
  match agent with
  | None => Some "agent daemon, boot, connection, and generation are required"%string
  | Some a =>
      if blank a.(ap_DaemonId) || blank a.(ap_BootId) || blank a.(ap_ConnectionId)
         || (a.(ap_Generation) =? 0)
      then Some "agent daemon, boot, connection, and generation are required"%string
      else match a.(ap_BindingIssuedAt) with
           | Some ts => if timestamp_valid ts then None
                        else Some "agent binding_issued_at is invalid"%string
           | None => Some "agent binding_issued_at is invalid"%string
           end
  end.
Definition validateSession (session : option ClientSessionSummary) : option goerr :=
  match session with
  | None => Some "session, daemon, client, and generation are required"%string
  | Some s =>
      if blank s.(cs_SessionId) || blank s.(cs_DaemonId) || blank s.(cs_ClientId)
         || (s.(cs_Generation) =? 0)
      then Some "session, daemon, client, and generation are required"%string
      else None
  end.

Definition agent_before (a b : AgentPresence) : Prop := string_le a.(ap_DaemonId) b.(ap_DaemonId) = true.
Definition session_before (a b : ClientSessionSummary) : Prop :=
  string_le a.(cs_SessionId) b.(cs_SessionId) = true.
#[export] Instance agent_before_dec : RelDecision agent_before.
Proof. intros a b. unfold agent_before. apply _. Defined.
#[export] Instance session_before_dec : RelDecision session_before.
Proof. intros a b. unfold session_before. apply _. Defined.

(** The loops over the sorted lists, with the keys already seen. *)
Fixpoint check_agents (seen : gset string) (agents : list AgentPresence) : option goerr :=
  match agents with
  | [] => None
  | a :: rest =>
      match validateAgent (Some a) with
      | Some e => Some e
      | None => if bool_decide (a.(ap_DaemonId) ∈ seen)
                then Some ("duplicate daemon " +:+ quoted a.(ap_DaemonId))%string
                else check_agents ({[ a.(ap_DaemonId) ]} ∪ seen) rest
      end
  end.
Fixpoint check_sessions (seen : gset string) (sessions : list ClientSessionSummary)
    : option goerr :=
  match sessions with
  | [] => None
  | s :: rest =>
      match validateSession (Some s) with
      | Some e => Some e
      | None => if bool_decide (s.(cs_SessionId) ∈ seen)
                then Some ("duplicate session " +:+ quoted s.(cs_SessionId))%string
                else check_sessions ({[ s.(cs_SessionId) ]} ∪ seen) rest
      end
  end.

Definition NormalizeClone (snapshot : RuntimeSnapshot) : result RuntimeSnapshot :=
  let agents := merge_sort agent_before snapshot.(rs_Agents) in
  let sessions := merge_sort session_before snapshot.(rs_Sessions) in
  match check_agents ∅ agents with
  | Some e => Err e
  | None =>
      match check_sessions ∅ sessions with
      | Some e => Err e
      | None => Ok (mkSnapshot snapshot.(rs_Revision) agents sessions)
      end
  end.

(** [ValidateDelta] on a delta that is not nil; [None] stands for a missing change. *)
Definition ValidateDelta (revision : Z) (change : option DeltaChange) : option goerr :=
  if revision =? 0 then Some "runtime delta and positive revision are required"%string
  else
    match change with
    | Some (AgentUpserted a) => validateAgent (Some a)
    | Some (AgentRemoved d g) =>
        if blank d || (g =? 0) then Some "removed agent identity and generation are required"%string
        else None
    | Some (SessionUpserted s) => validateSession (Some s)
    | Some (SessionRemoved s g) =>
        if blank s || (g =? 0)
        then Some "removed session identity and generation are required"%string else None
    | None => Some "runtime delta change is required"%string
    end.

(** ** The state *)
Record stateLimits := mkLimits {
  maxAgents : Z;
  maxSessions : Z;
  maxPendingSignals : Z }.

(** A function value is a number; [None] is nil. *)
Record agentWriter := mkWriter {
  aw_generation : Z;
  aw_send : option Z;
  aw_close : option Z }.
#[export] Instance eta_writer : Eta agentWriter := λ w,
  mkWriter w.(aw_generation) w.(aw_send) w.(aw_close).
Definition zero_writer : agentWriter := mkWriter 0 None None.

Record sessionCloser := mkCloser { sc_generation : Z; sc_close : option Z }.
#[export] Instance eta_closer : Eta sessionCloser := λ c,
  mkCloser c.(sc_generation) c.(sc_close).
Definition zero_closer : sessionCloser := mkCloser 0 None.

Record pendingSignal := mkPending {
  ps_daemonID : string;
  ps_sessionID : string;
  ps_agentGeneration : Z;
  ps_result : Z }.

Record relayGroup := mkGroup {
  gr_grant : RelayGrant;
  gr_material : RelayICEConfig;
  gr_limiter : GroupLimiter;
  gr_username : string;
  gr_closing : bool;
  gr_pending : Z;
  gr_active : Z;
  gr_closeActive : Z;
  gr_ingress : Z;
  gr_egress : Z }.
#[export] Instance eta_group : Eta relayGroup := λ g,
  mkGroup g.(gr_grant) g.(gr_material) g.(gr_limiter) g.(gr_username) g.(gr_closing)
    g.(gr_pending) g.(gr_active) g.(gr_closeActive) g.(gr_ingress) g.(gr_egress).
Record relayPendingAllocation := mkRelayPending { pa_groupID : string; pa_created : Z }.
Record relayAllocation := mkAllocation { al_groupID : string; al_closing : bool }.
#[export] Instance eta_allocation : Eta relayAllocation := λ a,
  mkAllocation a.(al_groupID) a.(al_closing).

(** The channel of a [Feed]: its buffer, and, as ghosts, the snapshot the feed started
    with and everything ever sent on it. *)
Record feed := mkFeed {
  fd_snapshot : RuntimeSnapshot;
  fd_queue : list RuntimeDelta;
  fd_sent : list RuntimeDelta }.
#[export] Instance eta_feed : Eta feed := λ f, mkFeed f.(fd_snapshot) f.(fd_queue) f.(fd_sent).

Inductive trace_event :=
| TSignal (channel : Z) (event : AgentEvent)     (* a result was sent *)
| TSignalClosed (channel : Z)
| TFeedClosed (id : Z)
| TCommand (send : Z) (command : EdgeCommand).   (* [writer.send] was called *)

#[export] Instance trace_event_eq_dec : EqDecision trace_event.
Proof. solve_decision. Defined.

Record stateData := mkState {
  revision : Z;
  agents : gmap string AgentPresence;
  agentPresences : gmap string AgentPresence;
  agentClaims : gmap string DaemonBindingClaims;
  agentWriters : gmap string agentWriter;
  nextAgentGeneration : Z;
  sessions : gmap string ClientSessionSummary;
  sessionClosers : gmap string sessionCloser;
  pendingSignals : gmap string pendingSignal;
  daemonStates : gmap string DaemonStateRecord;
  daemonStatesReady : bool;
  relayGroups : gmap string relayGroup;
  relayAuth : gmap string string;
  relayPending : gmap string relayPendingAllocation;
  allocations : gmap string relayAllocation;
  subscribers : gset Z;
  nextSubscriber : Z;
  deltaBuffer : Z;
  feeds : gmap Z feed;               (* the feed channels, open or closed *)
  nextChannel : Z;                   (* the next signal channel *)
  trace : list trace_event }.
#[export] Instance eta_state : Eta stateData := λ d,
  mkState d.(revision) d.(agents) d.(agentPresences) d.(agentClaims) d.(agentWriters)
    d.(nextAgentGeneration) d.(sessions) d.(sessionClosers) d.(pendingSignals)
    d.(daemonStates) d.(daemonStatesReady) d.(relayGroups) d.(relayAuth) d.(relayPending)
    d.(allocations) d.(subscribers) d.(nextSubscriber) d.(deltaBuffer) d.(feeds)
    d.(nextChannel) d.(trace).

(** The state [run] starts with. *)
Definition new_state (buffer : Z) : stateData :=
  mkState 0 ∅ ∅ ∅ ∅ 0 ∅ ∅ ∅ ∅ false ∅ ∅ ∅ ∅ ∅ 0 buffer ∅ 0 [].

(** What an operation finds outside the state: the clock, the order maps are ranged
    over, and whether a writer's queue takes a command. *)
Record env := mkEnv {
  now : Z;
  order : map_order;
  send_ok : Z → EdgeCommand → bool }.

Definition writer_of (d : stateData) (daemonID : string) : agentWriter :=
  default zero_writer (d.(agentWriters) !! daemonID).
Definition closer_of (d : stateData) (sessionID : string) : sessionCloser :=
  default zero_closer (d.(sessionClosers) !! sessionID).
Definition traced (e : trace_event) (d : stateData) : stateData :=
  d <| trace := d.(trace) ++ [e] |>.
Definition opt_list {A} (x : option A) : list A := match x with Some a => [a] | None => [] end.
Definition is_nil {A} (x : option A) : bool := match x with None => true | Some _ => false end.
Definition size_ge {K A} `{Countable K} (m : gmap K A) (n : Z) : bool := Z.of_nat (size m) >=? n.

(** ** Feeds *)
Definition feed_full (d : stateData) (id : Z) : bool :=
  match d.(feeds) !! id with
  | Some f => len f.(fd_queue) >=? d.(deltaBuffer)
  | None => true
  end.
Definition feed_push (delta : RuntimeDelta) (f : feed) : feed :=
  f <| fd_queue := f.(fd_queue) ++ [delta] |> <| fd_sent := f.(fd_sent) ++ [delta] |>.

(** [publish]: a subscriber whose buffer is full is closed and dropped. The
    subscribers do not influence each other, so their order does not matter. *)
Definition publish (delta : RuntimeDelta) (d : stateData) : stateData :=
  let full := filter (λ id, feed_full d id = true) d.(subscribers) in
  let rest := d.(subscribers) ∖ full in
  d <| feeds := map_imap (λ id f, Some (if decide (id ∈ rest) then feed_push delta f else f))
                  d.(feeds) |>
    <| subscribers := rest |>
    <| trace := d.(trace) ++ (TFeedClosed <$> elements full) |>.

(** [data.revision++] and [data.publish(...)]. *)
Definition commit (change : DeltaChange) (d : stateData) : stateData :=
  let d := d <| revision := u64 (d.(revision) + 1) |> in
  publish (mkDelta d.(revision) change) d.

Definition snapshot (e : env) (d : stateData) : result RuntimeSnapshot :=
  match NormalizeClone (mkSnapshot d.(revision) (range e.(order) d.(agents)).*2
          (range e.(order) d.(sessions)).*2) with
  | Ok s => Ok s
  | Err err => Err ("normalize Edge runtime snapshot: " +:+ err)%string
  end.

Definition OpenFeed (e : env) (d : stateData) : stateData * result (RuntimeSnapshot * Z) :=
  match snapshot e d with
  | Err err => (d, Err err)
  | Ok s =>
      let id := u64 (d.(nextSubscriber) + 1) in
      (d <| nextSubscriber := id |> <| feeds := <[id := mkFeed s [] []]> d.(feeds) |>
         <| subscribers := {[ id ]} ∪ d.(subscribers) |>, Ok (s, id))
  end.

Definition unsubscribe (id : Z) (d : stateData) : stateData :=
  if decide (id ∈ d.(subscribers))
  then traced (TFeedClosed id) (d <| subscribers := d.(subscribers) ∖ {[ id ]} |>)
  else d.

(** The consumer of a feed takes the oldest delta from its channel. *)
Definition receive (id : Z) (d : stateData) : stateData * option RuntimeDelta :=
  match d.(feeds) !! id with
  | Some f =>
      match f.(fd_queue) with
      | delta :: rest => (d <| feeds := <[id := f <| fd_queue := rest |>]> d.(feeds) |>, Some delta)
      | [] => (d, None)
      end
  | None => (d, None)
  end.

(** ** Daemon state *)
Definition requireDaemonState (daemonID : string) (d : stateData) : result DaemonStateRecord :=
  if negb d.(daemonStatesReady) then Err ErrDaemonStateUnavailable
  else match d.(daemonStates) !! TrimSpace daemonID with
       | None => Err ErrDaemonStateUnavailable
       | Some r => Ok r
       end.

Definition requireActiveDaemon (daemonID : string) (d : stateData) : result DaemonStateRecord :=
  let? record := requireDaemonState daemonID d in
  match record.(ds_State) with
  | ACTIVE => Ok record
  | BLOCKED => Err ErrDaemonBlocked
  | DELETED => Err ErrDaemonDeleted
  | _ => Err ErrDaemonStateUnavailable
  end.

Definition removeBusinessAgent (daemonID : string) (d : stateData) : stateData :=
  match d.(agents) !! daemonID with
  | None => d
  | Some current =>
      commit (AgentRemoved daemonID current.(ap_Generation))
        (d <| agents := delete daemonID d.(agents) |>)
  end.

Definition publishBusinessAgent (presence : AgentPresence) (d : stateData) : stateData :=
  if bool_decide (d.(agents) !! presence.(ap_DaemonId) = Some presence) then d
  else commit (AgentUpserted presence)
         (d <| agents := <[presence.(ap_DaemonId) := presence]> d.(agents) |>).

Definition cancelAgentSignals (e : env) (daemonID : string) (generation : Z) (d : stateData)
    : stateData :=
  fold_left (λ d kp,
    if bool_decide (kp.2.(ps_daemonID) = daemonID) && (kp.2.(ps_agentGeneration) =? generation)
    then traced (TSignalClosed kp.2.(ps_result))
           (d <| pendingSignals := delete kp.1 d.(pendingSignals) |>)
    else d) (range e.(order) d.(pendingSignals)) d.

(** [group.closing = true] and [delete(data.relayAuth, group.username)] for the groups
    that satisfy [P]. *)
Definition close_groups (P : relayGroup → bool) (d : stateData) : stateData :=
  d <| relayGroups := (λ g, if P g then g <| gr_closing := true |> else g) <$> d.(relayGroups) |>
    <| relayAuth := map_fold (λ _ g auth, if P g then delete g.(gr_username) auth else auth)
         d.(relayAuth) d.(relayGroups) |>.

(** One turn of the session loop of [drainDaemonBusiness]. *)
Definition drain_session (daemonID : string) (acc : stateData * list Z)
    (ks : string * ClientSessionSummary) : stateData * list Z :=
  let '(d, closers) := acc in
  let '(sessionID, session) := ks in
  if negb (bool_decide (session.(cs_DaemonId) = daemonID)) then (d, closers)
  else
    let closers := closers ++ opt_list (closer_of d sessionID).(sc_close) in
    let d := d <| sessions := delete sessionID d.(sessions) |>
               <| sessionClosers := delete sessionID d.(sessionClosers) |> in
    (commit (SessionRemoved sessionID session.(cs_Generation)) d, closers).

Definition drainDaemonBusiness (e : env) (daemonID : string) (d : stateData)
    : stateData * list Z :=
  let d := removeBusinessAgent daemonID d in
  let d := match d.(agentPresences) !! daemonID with
           | Some presence => cancelAgentSignals e daemonID presence.(ap_Generation) d
           | None => d
           end in
  let '(d, closers) := fold_left (drain_session daemonID) (range e.(order) d.(sessions)) (d, []) in
  (close_groups (λ g, bool_decide (grant_DaemonId g.(gr_grant) = daemonID)) d, closers).

Definition reconcileDaemonState (e : env) (daemonID : string) (d : stateData)
    : stateData * list Z :=
  let writer := writer_of d daemonID in
  match d.(daemonStates) !! daemonID, d.(agentPresences) !! daemonID, writer.(aw_send) with
  | Some policy, Some presence, Some send =>
      if negb (writer.(aw_generation) =? presence.(ap_Generation))
      then drainDaemonBusiness e daemonID d
      else
        let '(d, closers) :=
          if bool_decide (policy.(ds_State) = ACTIVE)
          then (removeBusinessAgent daemonID d, [])
          else drainDaemonBusiness e daemonID d in
        let command := CmdLifecycle policy presence.(ap_Generation) in
        let d := traced (TCommand send command) d in
        if negb (e.(send_ok) send command) then (d, closers ++ opt_list writer.(aw_close))
        else (d, closers)
  | _, _, _ => drainDaemonBusiness e daemonID d
  end.

Definition normalizeDaemonStateRecord (input : option DaemonStateRecord)
    : result DaemonStateRecord :=
  match input with
  | None => Err "daemon state record is invalid"
  | Some r =>
      if blank r.(ds_DaemonId) || (r.(ds_StateRevision) =? 0)
         || (negb (bool_decide (r.(ds_State) = ACTIVE)) && negb (bool_decide (r.(ds_State) = BLOCKED))
             && negb (bool_decide (r.(ds_State) = DELETED)))
      then Err "daemon state record is invalid"
      else Ok (r <| ds_DaemonId := TrimSpace r.(ds_DaemonId) |>)
  end.

Fixpoint normalize_records (states : gmap string DaemonStateRecord)
    (inputs : list (option DaemonStateRecord)) : result (gmap string DaemonStateRecord) :=
  match inputs with
  | [] => Ok states
  | input :: rest =>
      let? record := normalizeDaemonStateRecord input in
      match states !! record.(ds_DaemonId) with
      | Some _ => Err "daemon state snapshot contains duplicate identity"
      | None => normalize_records (<[record.(ds_DaemonId) := record]> states) rest
      end
  end.
Definition normalizeDaemonStateSnapshot (daemons : list (option DaemonStateRecord)) :=
  normalize_records ∅ daemons.

(** Reconciles the daemons [ids] in turn, collecting closers. *)
Definition for_daemons (f : string → stateData → stateData * list Z)
    (acc : stateData * list Z) (ids : list string) : stateData * list Z :=
  fold_left (λ '(d, closers) id, let '(d, more) := f id d in (d, closers ++ more)) ids acc.

Definition ApplyDaemonStateSnapshot (e : env) (daemons : list (option DaemonStateRecord))
    (d : stateData) : stateData * list Z * option goerr :=
  match normalizeDaemonStateSnapshot daemons with
  | Err err => (d, [], Some err)
  | Ok states =>
      let d := d <| daemonStates := states |> <| daemonStatesReady := true |> in
      (for_daemons (reconcileDaemonState e) (d, []) (range e.(order) d.(agentPresences)).*1, None)
  end.

Definition ApplyDaemonStateDelta (e : env) (daemon : option DaemonStateRecord) (d : stateData)
    : stateData * list Z * option goerr :=
  match normalizeDaemonStateRecord daemon with
  | Err err => (d, [], Some err)
  | Ok record =>
      if negb d.(daemonStatesReady) then (d, [], Some ErrDaemonStateUnavailable)
      else
        let apply :=
          let d := d <| daemonStates := <[record.(ds_DaemonId) := record]> d.(daemonStates) |> in
          (reconcileDaemonState e record.(ds_DaemonId) d, None) in
        match d.(daemonStates) !! record.(ds_DaemonId) with
        | None => apply
        | Some current =>
            if record.(ds_StateRevision) <? current.(ds_StateRevision) then (d, [], None)
            else if record.(ds_StateRevision) =? current.(ds_StateRevision) then
              if bool_decide (current = record) then (d, [], None)
              else (d, [], Some "daemon state revision conflicts with cached state"%string)
            else if bool_decide (current.(ds_State) = DELETED)
            then (d, [], Some "deleted daemon state is terminal"%string)
            else apply
        end
  end.

(** The body of the loop over [agentWriters] of [InvalidateDaemonStates]. *)
Definition invalidate_writer (e : env) (w : string * agentWriter) (d : stateData)
    : stateData * list Z :=
  let '(d, closers) := drainDaemonBusiness e w.1 d in (d, closers ++ opt_list w.2.(aw_close)).
Definition InvalidateDaemonStates (e : env) (d : stateData) : stateData * list Z :=
  let d := d <| daemonStatesReady := false |> <| daemonStates := ∅ |> in
  fold_left (λ '(d, closers) w, let '(d, more) := invalidate_writer e w d in (d, closers ++ more))
    (range e.(order) d.(agentWriters)) (d, []).

Definition ApplyDaemonLifecycleResult (daemonID : string) (generation : Z)
    (res : option DaemonLifecycleResult) (d : stateData) : stateData * list Z * option goerr :=
  let writer := writer_of d daemonID in
  match d.(daemonStates) !! daemonID, d.(agentPresences) !! daemonID, res with
  | Some current, Some presence, Some res =>
      if negb d.(daemonStatesReady) || negb (writer.(aw_generation) =? generation)
         || negb (presence.(ap_Generation) =? generation)
         || negb (res.(dl_AgentGeneration) =? generation)
         || negb (bool_decide (res.(dl_DaemonState) = Some current))
      then (d, [], Some ErrStaleGeneration)
      else if negb res.(dl_Applied) then (d, opt_list writer.(aw_close), None)
      else match current.(ds_State) with
           | ACTIVE => (publishBusinessAgent presence d, [], None)
           | BLOCKED => (removeBusinessAgent daemonID d, [], None)
           | DELETED => (removeBusinessAgent daemonID d, opt_list writer.(aw_close), None)
           | _ => (d, [], Some ErrDaemonStateUnavailable)
           end
  | _, _, _ => (d, [], Some ErrStaleGeneration)
  end.

(** ** Agents *)
Definition UpsertAgent (lim : stateLimits) (agent : option AgentPresence) (d : stateData)
    : stateData * option goerr :=
  match agent with
  | None => (d, validateAgent None)
  | Some a =>
      match NormalizeClone (mkSnapshot 0 [a] []) with
      | Err err => (d, Some err)
      | Ok _ =>
          let current := d.(agents) !! a.(ap_DaemonId) in
          if is_nil current && size_ge d.(agents) lim.(maxAgents)
          then (d, Some ErrAgentCapacityExhausted)
          else if from_option (λ c, a.(ap_Generation) <? c.(ap_Generation)) false current
          then (d, Some ErrStaleGeneration)
          else
            let d := d <| agents := <[a.(ap_DaemonId) := a]> d.(agents) |> in
            let d := if a.(ap_Generation) >? d.(nextAgentGeneration)
                     then d <| nextAgentGeneration := a.(ap_Generation) |> else d in
            (commit (AgentUpserted a) d, None)
      end
  end.

Definition AttachAuthenticatedAgent (e : env) (lim : stateLimits) (agent : option AgentPresence)
    (claims : option DaemonBindingClaims) (send close : option Z) (d : stateData)
    : stateData * list Z * result (Z * DaemonStateRecord) :=
  match agent, claims with
  | Some a, Some c =>
      if negb (String.eqb c.(dc_DaemonId) a.(ap_DaemonId))
         || negb (String.eqb c.(dc_AccountId) a.(ap_AccountId))
         || String.eqb c.(dc_DevicePublicKey) ""
      then (d, [], Err "authenticated Agent claims do not match Presence")
      else if is_nil send || is_nil close
      then (d, [], Err "authenticated agent and writer are required")
      else
        match requireDaemonState a.(ap_DaemonId) d with
        | Err err => (d, [], Err err)
        | Ok policy =>
            if is_nil (writer_of d a.(ap_DaemonId)).(aw_send)
               && size_ge d.(agentWriters) lim.(maxAgents)
            then (d, [], Err ErrAgentCapacityExhausted)
            else if d.(nextAgentGeneration) =? MaxUint64
            then (d, [], Err ErrAgentGenerationExhausted)
            else
              let generation := u64 (d.(nextAgentGeneration) + 1) in
              let a := a <| ap_Generation := generation |> in
              match NormalizeClone (mkSnapshot 0 [a] []) with
              | Err err => (d, [], Err err)
              | Ok _ =>
                  let d := d <| nextAgentGeneration := generation |> in
                  let old := opt_list (writer_of d a.(ap_DaemonId)).(aw_close) in
                  let '(d, drained) := drainDaemonBusiness e a.(ap_DaemonId) d in
                  (d <| agentWriters :=
                          <[a.(ap_DaemonId) := mkWriter generation send close]> d.(agentWriters) |>
                     <| agentPresences := <[a.(ap_DaemonId) := a]> d.(agentPresences) |>
                     <| agentClaims := <[a.(ap_DaemonId) := c]> d.(agentClaims) |>,
                   old ++ drained, Ok (generation, policy))
              end
        end
  | _, _ => (d, [], Err "authenticated Agent claims do not match Presence")
  end.

(** The claims are returned with the status errors too. *)
Definition AuthenticatedAgentClaims (e : env) (daemonID : string) (d : stateData)
    : option DaemonBindingClaims * option goerr :=
  let daemonID := TrimSpace daemonID in
  if String.eqb daemonID "" then (None, Some "daemon id is required"%string)
  else
    match requireDaemonState daemonID d with
    | Err err => (None, Some err)
    | Ok policy =>
        let writer := writer_of d daemonID in
        match d.(agentClaims) !! daemonID, d.(agentPresences) !! daemonID with
        | Some claims, Some presence =>
            if is_nil writer.(aw_send) || negb (writer.(aw_generation) =? presence.(ap_Generation))
               || is_nil claims.(dc_ExpiresAt) || negb (After (AsTime claims.(dc_ExpiresAt)) e.(now))
            then (None, Some ErrStaleGeneration)
            else (Some claims,
                  match policy.(ds_State) with
                  | ACTIVE => if is_nil (d.(agents) !! daemonID) then Some ErrStaleGeneration else None
                  | BLOCKED => Some ErrDaemonBlocked
                  | DELETED => Some ErrDaemonDeleted
                  | _ => Some ErrDaemonStateUnavailable
                  end)
        | _, _ => (None, Some ErrStaleGeneration)
        end
    end.

(** Whether [generation] is the attached one: the fence of the writer operations. *)
Definition DetachAgent (e : env) (daemonID : string) (generation : Z) (d : stateData)
    : stateData * list Z * option goerr :=
  let writer := writer_of d daemonID in
  match d.(agentPresences) !! daemonID with
  | None => (d, [], Some ErrStaleGeneration)
  | Some current =>
      if negb (current.(ap_Generation) =? generation) || negb (writer.(aw_generation) =? generation)
      then (d, [], Some ErrStaleGeneration)
      else
        let '(d, closers) := drainDaemonBusiness e daemonID d in
        (d <| agentWriters := delete daemonID d.(agentWriters) |>
           <| agentPresences := delete daemonID d.(agentPresences) |>
           <| agentClaims := delete daemonID d.(agentClaims) |>, closers, None)
  end.

(** [command]: [None] is nil. The command is sent after the actor is done. *)
Definition SendAgentCommand (e : env) (daemonID : string) (generation : Z)
    (command : option EdgeCommand) (d : stateData) : stateData * option goerr :=
  match command with
  | None => (d, Some "Edge command is required"%string)
  | Some command =>
      let writer := writer_of d daemonID in
      if negb (writer.(aw_generation) =? generation) then (d, Some ErrStaleGeneration)
      else match writer.(aw_send) with
           | None => (d, Some ErrStaleGeneration)
           | Some send =>
               (traced (TCommand send command) d,
                if e.(send_ok) send command then None
                else Some "agent writer queue is unavailable"%string)
           end
  end.

Definition CloseAgentConnection (daemonID : string) (generation : Z) (d : stateData)
    : stateData * list Z * option goerr :=
  let writer := writer_of d daemonID in
  match writer.(aw_close) with
  | Some close =>
      if negb (writer.(aw_generation) =? generation) then (d, [], Some ErrStaleGeneration)
      else (d <| agentWriters := <[daemonID := writer <| aw_close := None |>]> d.(agentWriters) |>,
            [close], None)
  | None => (d, [], Some ErrStaleGeneration)
  end.

Definition RemoveAgent (daemonID : string) (generation : Z) (d : stateData)
    : stateData * option goerr :=
  match d.(agents) !! daemonID with
  | None => (d, Some ErrStaleGeneration)
  | Some current =>
      if negb (current.(ap_Generation) =? generation) then (d, Some ErrStaleGeneration)
      else (commit (AgentRemoved daemonID generation)
              (d <| agents := delete daemonID d.(agents) |>), None)
  end.

(** ** Signals *)

(** The result is the generation and the channel of the answer. *)
Definition BeginAgentSignal (lim : stateLimits) (correlationID daemonID sessionID : string)
    (d : stateData) : stateData * result (Z * Z) :=
  let correlationID := TrimSpace correlationID in
  let daemonID := TrimSpace daemonID in
  let sessionID := TrimSpace sessionID in
  if String.eqb correlationID "" || String.eqb daemonID "" || String.eqb sessionID ""
  then (d, Err "agent signal correlation, daemon, and session are required")
  else
    match requireActiveDaemon daemonID d with
    | Err err => (d, Err err)
    | Ok _ =>
        if negb (is_nil (d.(pendingSignals) !! correlationID))
        then (d, Err "agent signal correlation already exists")
        else if size_ge d.(pendingSignals) lim.(maxPendingSignals)
        then (d, Err "runtime pending signal capacity is exhausted")
        else
          let writer := writer_of d daemonID in
          match d.(agents) !! daemonID with
          | None => (d, Err ErrStaleGeneration)
          | Some agent =>
              if is_nil writer.(aw_send) || negb (writer.(aw_generation) =? agent.(ap_Generation))
              then (d, Err ErrStaleGeneration)
              else
                let ch := d.(nextChannel) in
                (d <| nextChannel := ch + 1 |>
                   <| pendingSignals := <[correlationID :=
                        mkPending daemonID sessionID agent.(ap_Generation) ch]> d.(pendingSignals) |>,
                 Ok (agent.(ap_Generation), ch))
          end
    end.

(** The correlation and session of an event with exactly one signal result. *)
Definition signal_result (event : option AgentEvent) : option (string * string) :=
  match event with
  | Some (mkEvent (EvAnswer c s) _) | Some (mkEvent (EvRejected c s) _)
  | Some (mkEvent (EvAuthorization c s) _) => Some (c, s)
  | _ => None
  end.

Definition ResolveAgentSignal (daemonID : string) (generation : Z) (event : option AgentEvent)
    (d : stateData) : stateData * option goerr :=
  match event, signal_result event with
  | Some ev, Some (correlationID, sessionID) =>
      match d.(pendingSignals) !! correlationID with
      | None => (d, Some ErrStaleGeneration)
      | Some pending =>
          if negb (String.eqb pending.(ps_daemonID) daemonID)
             || negb (String.eqb pending.(ps_sessionID) sessionID)
             || negb (pending.(ps_agentGeneration) =? generation)
          then (d, Some ErrStaleGeneration)
          else (traced (TSignalClosed pending.(ps_result)) (traced (TSignal pending.(ps_result) ev)
                  (d <| pendingSignals := delete correlationID d.(pendingSignals) |>)), None)
      end
  | _, _ => (d, Some "agent signal result is invalid"%string)
  end.

Definition CancelAgentSignal (correlationID : string) (d : stateData) : stateData :=
  match d.(pendingSignals) !! TrimSpace correlationID with
  | None => d
  | Some pending =>
      traced (TSignalClosed pending.(ps_result))
        (d <| pendingSignals := delete (TrimSpace correlationID) d.(pendingSignals) |>)
  end.

(** ** Sessions *)
Definition AttachSession (lim : stateLimits) (session : option ClientSessionSummary)
    (close : option Z) (d : stateData) : stateData * option goerr :=
  if is_nil close then (d, Some "session closer is required"%string)
  else
    match session with
    | None => (d, validateSession None)
    | Some s =>
        match NormalizeClone (mkSnapshot 0 [] [s]) with
        | Err err => (d, Some err)
        | Ok _ =>
            match requireActiveDaemon s.(cs_DaemonId) d with
            | Err err => (d, Some err)
            | Ok _ =>
                let current := d.(sessions) !! s.(cs_SessionId) in
                if is_nil (d.(agents) !! s.(cs_DaemonId)) then (d, Some ErrStaleGeneration)
                else if from_option (λ c, s.(cs_Generation) <? c.(cs_Generation)) false current
                then (d, Some ErrStaleGeneration)
                else if is_nil current && size_ge d.(sessions) lim.(maxSessions)
                then (d, Some "runtime client session capacity is exhausted"%string)
                else
                  (commit (SessionUpserted s)
                     (d <| sessions := <[s.(cs_SessionId) := s]> d.(sessions) |>
                        <| sessionClosers := <[s.(cs_SessionId) := mkCloser s.(cs_Generation) close]>
                             d.(sessionClosers) |>), None)
            end
        end
    end.

Definition CloseSession (sessionID : string) (generation : Z) (d : stateData)
    : stateData * list Z * option goerr :=
  let closer := closer_of d sessionID in
  match d.(sessions) !! sessionID, closer.(sc_close) with
  | Some current, Some close =>
      if negb (current.(cs_Generation) =? generation) || negb (closer.(sc_generation) =? generation)
      then (d, [], Some ErrStaleGeneration)
      else (d <| sessionClosers := <[sessionID := closer <| sc_close := None |>]> d.(sessionClosers) |>,
            [close], None)
  | _, _ => (d, [], Some ErrStaleGeneration)
  end.

Definition RemoveSession (sessionID : string) (generation : Z) (d : stateData)
    : stateData * option goerr :=
  match d.(sessions) !! sessionID with
  | None => (d, Some ErrStaleGeneration)
  | Some current =>
      if negb (current.(cs_Generation) =? generation) then (d, Some ErrStaleGeneration)
      else (commit (SessionRemoved sessionID generation)
              (d <| sessions := delete sessionID d.(sessions) |>
                 <| sessionClosers := delete sessionID d.(sessionClosers) |>), None)
  end.

(** The request [Close] runs last: every owned function is handed to the caller. *)
Definition CloseState (e : env) (d : stateData) : stateData * list Z :=
  let closers :=
    ((range e.(order) d.(agentWriters)).*2 ≫= (λ w, opt_list w.(aw_close))) ++
    ((range e.(order) d.(sessionClosers)).*2 ≫= (λ c, opt_list c.(sc_close))) in
  (d <| agentWriters := ∅ |> <| sessionClosers := ∅ |> <| pendingSignals := ∅ |>
     <| subscribers := ∅ |>
     <| trace := d.(trace) ++
          ((λ p, TSignalClosed p.(ps_result)) <$> (range e.(order) d.(pendingSignals)).*2) ++
          (TFeedClosed <$> elements d.(subscribers)) |>, closers).
