(* ===== verification/Relay.v ===== *)
(** * The Edge runtime state: Relay reservations

    [cloud/edge/runtime/relay_state.go] and [cloud/relayquota/canonical.go]: the
    reservation groups, the allocations that move from pending to active to closing, and
    the byte counters a settlement is made of. Marshalling and SHA-256 are a parameter. *)
From S2P Require Import Prelude GoStd Limiter EdgeState.
Local Open Scope Z_scope.

Definition MaxPhysicalAllocationsPerReservation : Z := 4.
Definition MaxLiveRelayObjects : Z := 4096.

(** ** Policy digests *)

(** [slices.Compact] on strings. *)
Fixpoint compact (l : list string) : list string :=
  match l with
  | a :: (b :: _) as rest => if String.eqb a b then compact rest else a :: compact rest
  | _ => l
  end.
Definition str_before (a b : string) : Prop := string_le a b = true.
#[export] Instance str_before_dec : RelDecision str_before.
Proof. intros a b. unfold str_before. apply _. Defined.

(** What [PolicyDigest] hashes. *)
Definition canonical_policy (p : RelayPolicySnapshot) : RelayPolicySnapshot :=
  p <| rp_AllowedRegions := compact (merge_sort str_before (TrimSpace <$> p.(rp_AllowedRegions))) |>.

Definition digest_size : Z := 32.
Definition EqualDigest (left right : string) : bool :=
  (Z.of_nat (String.length left) =? digest_size) && (Z.of_nat (String.length right) =? digest_size)
  && String.eqb left right.

Section digest.
(** [digest]: the SHA-256 of the deterministic marshalling. *)
Variable digest : RelayPolicySnapshot → result string.

Definition PolicyDigest (policy : option RelayPolicySnapshot) : result string :=
  match policy with
  | None => Err "Relay policy snapshot is required"
  | Some p => digest (canonical_policy p)
  end.

Definition validateRelayGrantMaterial (grant : option RelayGrant) (material : option RelayICEConfig)
    : option goerr :=
  match grant, material with
  | Some g, Some m =>
      if is_nil g.(rg_Policy) || blank m.(ri_Username) || blank m.(ri_Credential)
         || negb (String.eqb g.(rg_ReservationId) m.(ri_ReservationId))
         || is_nil g.(rg_AuthorizedUntil) || is_nil m.(ri_ExpiresAt)
         || negb (AsTime g.(rg_AuthorizedUntil) =? AsTime m.(ri_ExpiresAt))
      then Some "Relay grant and credential material do not match"%string
      else
        match PolicyDigest g.(rg_Policy) with
        | Err _ => Some "Relay grant policy digest is invalid"%string
        | Ok dg => if EqualDigest dg g.(rg_PolicyDigest) then None
                   else Some "Relay grant policy digest is invalid"%string
        end
  | _, _ => Some "Relay grant and credential material do not match"%string
  end.

(** ** Groups *)
Definition liveRelayObjects (d : stateData) : Z :=
  Z.of_nat (size d.(relayGroups)) + Z.of_nat (size d.(relayPending)) +
  Z.of_nat (size d.(allocations)).

Definition set_group (id : string) (g : relayGroup) (d : stateData) : stateData :=
  d <| relayGroups := <[id := g]> d.(relayGroups) |>.

Definition RegisterRelayGrant (e : env) (grant : option RelayGrant) (material : option RelayICEConfig)
    (d : stateData) : stateData * option goerr :=
  match validateRelayGrantMaterial grant material, grant, material with
  | Some err, _, _ => (d, Some err)
  | None, Some g, Some m =>
      match requireActiveDaemon (grant_DaemonId g) d with
      | Err err => (d, Some err)
      | Ok _ =>
          if negb (After (AsTime g.(rg_AuthorizedUntil)) e.(now))
          then (d, Some "Relay grant is already expired"%string)
          else
            match d.(relayGroups) !! g.(rg_ReservationId) with
            | Some current =>
                if negb (bool_decide (current.(gr_grant) = g))
                   || negb (String.eqb current.(gr_username) m.(ri_Username))
                then (d, Some "Relay grant conflicts with an active reservation group"%string)
                else (d, None)
            | None =>
                if liveRelayObjects d >=? MaxLiveRelayObjects
                then (d, Some "Edge live Relay object limit reached"%string)
                else
                  match NewGroupLimiter (AsTime g.(rg_AuthorizedUntil)) g.(rg_ReservedBytes)
                          g.(rg_MaxRateBytesPerSecond) e.(now) with
                  | Err err => (d, Some err)
                  | Ok limiter =>
                      (set_group g.(rg_ReservationId)
                         (mkGroup g m limiter m.(ri_Username) false 0 0 0 0 0) d
                         <| relayAuth := <[m.(ri_Username) := g.(rg_ReservationId)]> d.(relayAuth) |>,
                       None)
                  end
            end
      end
  | _, _, _ => (d, None)
  end.

Definition RenewRelayGrant (e : env) (username : string) (grant : option RelayGrant) (d : stateData)
    : stateData * result RelayICEConfig :=
  let username := TrimSpace username in
  match grant with
  | None => (d, Err "Relay renewal grant and credential are required")
  | Some g =>
      if String.eqb username "" || is_nil g.(rg_AuthorizedUntil)
      then (d, Err "Relay renewal grant and credential are required")
      else
        match d.(relayGroups) !! g.(rg_ReservationId) with
        | None => (d, Err "Relay renewal changed reservation authority")
        | Some group =>
            let old := group.(gr_grant) in
            if negb (String.eqb group.(gr_username) username) || group.(gr_closing)
               || negb (String.eqb old.(rg_SessionId) g.(rg_SessionId))
               || negb (old.(rg_ReservedBytes) =? g.(rg_ReservedBytes))
               || negb (old.(rg_MaxRateBytesPerSecond) =? g.(rg_MaxRateBytesPerSecond))
               || negb (EqualDigest old.(rg_PolicyDigest) g.(rg_PolicyDigest))
               || negb (g.(rg_RenewSequence) =? u64 (old.(rg_RenewSequence) + 1))
            then (d, Err "Relay renewal changed reservation authority")
            else
              match Renew (AsTime g.(rg_AuthorizedUntil)) e.(now) group.(gr_limiter) with
              | Err err => (d, Err err)
              | Ok limiter =>
                  let m := group.(gr_material) <| ri_ExpiresAt :=
                             Some (timestamp_New (AsTime g.(rg_AuthorizedUntil))) |> in
                  (set_group g.(rg_ReservationId)
                     (group <| gr_limiter := limiter |> <| gr_grant := g |> <| gr_material := m |>) d,
                   Ok m)
              end
        end
  end.

(** The group a TURN username stands for; a missing key reads as the empty string. *)
Definition auth_group (username : string) (d : stateData) : option relayGroup :=
  d.(relayGroups) !! default ""%string (d.(relayAuth) !! username).
Definition group_usable (group : relayGroup) (now : Z) : bool :=
  negb group.(gr_closing) && After (AsTime group.(gr_grant).(rg_AuthorizedUntil)) now.

(** The result is the grant and the password, when the credential is found. *)
Definition RelayAuth (username : string) (now : Z) (d : stateData)
    : stateData * option (RelayGrant * string) :=
  let username := TrimSpace username in
  if String.eqb username "" then (d, None)
  else
    match auth_group username d with
    | Some group =>
        if group_usable group now
        then (d, Some (group.(gr_grant), group.(gr_material).(ri_Credential)))
        else (d <| relayAuth := delete username d.(relayAuth) |>, None)
    | None => (d <| relayAuth := delete username d.(relayAuth) |>, None)
    end.

(** ** Allocations *)
Record RelayAdmission := mkAdmission {
  ad_ReservationID : string; ad_SessionID : string; ad_Limiter : GroupLimiter }.

Definition ReserveRelayAllocation (physicalID username : string) (now : Z) (d : stateData)
    : stateData * result RelayAdmission :=
  let physicalID := TrimSpace physicalID in
  let username := TrimSpace username in
  if String.eqb physicalID "" || String.eqb username ""
  then (d, Err "physical allocation reservation and username are required")
  else
    match d.(relayPending) !! physicalID with
    | Some _ => (d, Err "physical allocation reservation already exists")
    | None =>
        let groupID := default ""%string (d.(relayAuth) !! username) in
        match d.(relayGroups) !! groupID with
        | None => (d, Err "Relay grant is unavailable or expired")
        | Some group =>
            if negb (group_usable group now) then (d, Err "Relay grant is unavailable or expired")
            else if u32 (u32 (group.(gr_pending) + group.(gr_active)) + group.(gr_closeActive))
                    >=? MaxPhysicalAllocationsPerReservation
            then (d, Err "Relay reservation physical allocation limit reached")
            else if liveRelayObjects d >=? MaxLiveRelayObjects
            then (d, Err "Edge live Relay object limit reached")
            else
              (set_group groupID (group <| gr_pending := u32 (group.(gr_pending) + 1) |>)
                 (d <| relayPending := <[physicalID := mkRelayPending groupID now]> d.(relayPending) |>),
               Ok (mkAdmission groupID group.(gr_grant).(rg_SessionId) group.(gr_limiter)))
        end
    end.

(** [transport_set]: the transport is not [UNSPECIFIED]. *)
Definition ActivateRelayAllocation (physicalID allocationID : string) (transport_set : bool)
    (started : Z) (d : stateData) : stateData * option goerr :=
  let physicalID := TrimSpace physicalID in
  let allocationID := TrimSpace allocationID in
  if String.eqb physicalID "" || String.eqb allocationID "" || negb transport_set || IsZero started
  then (d, Some "physical allocation identity, transport, and start time are required"%string)
  else
    match d.(relayPending) !! physicalID with
    | None => (d, Some "physical allocation reservation is missing or closing"%string)
    | Some pending =>
        match d.(relayGroups) !! pending.(pa_groupID) with
        | None => (d, Some "physical allocation reservation is missing or closing"%string)
        | Some group =>
            if (group.(gr_pending) =? 0) || group.(gr_closing)
            then (d, Some "physical allocation reservation is missing or closing"%string)
            else if negb (is_nil (d.(allocations) !! allocationID))
            then (d, Some "Relay allocation already exists"%string)
            else
              (set_group pending.(pa_groupID)
                 (group <| gr_pending := u32 (group.(gr_pending) - 1) |>
                        <| gr_active := u32 (group.(gr_active) + 1) |>)
                 (d <| relayPending := delete physicalID d.(relayPending) |>
                    <| allocations :=
                         <[allocationID := mkAllocation pending.(pa_groupID) false]> d.(allocations) |>),
               None)
        end
    end.

Definition CancelRelayAllocationReservation (physicalID : string) (d : stateData) : stateData :=
  let physicalID := TrimSpace physicalID in
  match d.(relayPending) !! physicalID with
  | None => d
  | Some pending =>
      let d := d <| relayPending := delete physicalID d.(relayPending) |> in
      match d.(relayGroups) !! pending.(pa_groupID) with
      | Some group =>
          if group.(gr_pending) >? 0
          then set_group pending.(pa_groupID)
                 (group <| gr_pending := u32 (group.(gr_pending) - 1) |>) d
          else d
      | None => d
      end
  end.

Definition BeginRelaySessionClose (sessionID : string) (d : stateData) : stateData * option goerr :=
  let sessionID := TrimSpace sessionID in
  if String.eqb sessionID "" then (d, Some "Relay session identity is required"%string)
  else (close_groups (λ g, String.eqb g.(gr_grant).(rg_SessionId) sessionID) d, None).

Definition BeginRelayAllocationClose (allocationID : string) (d : stateData)
    : stateData * option goerr :=
  let allocationID := TrimSpace allocationID in
  match d.(allocations) !! allocationID with
  | None => (d, None)
  | Some allocation =>
      if allocation.(al_closing) then (d, None)
      else
        match d.(relayGroups) !! allocation.(al_groupID) with
        | None => (d, Some "Relay allocation close invariant failed"%string)
        | Some group =>
            if group.(gr_active) =? 0
            then (d, Some "Relay allocation close invariant failed"%string)
            else
              (set_group allocation.(al_groupID)
                 (group <| gr_active := u32 (group.(gr_active) - 1) |>
                        <| gr_closeActive := u32 (group.(gr_closeActive) + 1) |>)
                 (d <| allocations :=
                      <[allocationID := allocation <| al_closing := true |>]> d.(allocations) |>),
               None)
        end
  end.

(** The counters are added before the count is checked: on an underflow the state has
    already changed. *)
Definition CloseRelayAllocation (allocationID : string) (ingress egress : Z) (d : stateData)
    : stateData * option goerr :=
  let allocationID := TrimSpace allocationID in
  match d.(allocations) !! allocationID with
  | None => (d, None)
  | Some allocation =>
      match d.(relayGroups) !! allocation.(al_groupID) with
      | None => (d, Some "Relay allocation group is missing"%string)
      | Some group =>
          if (ingress >? MaxUint64 - group.(gr_ingress)) || (egress >? MaxUint64 - group.(gr_egress))
          then (d, Some "Relay allocation counters overflow group aggregate"%string)
          else
            let group := group <| gr_ingress := u64 (group.(gr_ingress) + ingress) |>
                               <| gr_egress := u64 (group.(gr_egress) + egress) |> in
            let counted := set_group allocation.(al_groupID) group d in
            let finish group :=
              (set_group allocation.(al_groupID) group d
                 <| allocations := delete allocationID d.(allocations) |>, None) in
            if allocation.(al_closing) then
              if group.(gr_closeActive) =? 0
              then (counted, Some "Relay allocation closing count underflow"%string)
              else finish (group <| gr_closeActive := u32 (group.(gr_closeActive) - 1) |>)
            else
              if group.(gr_active) =? 0
              then (counted, Some "Relay allocation active count underflow"%string)
              else finish (group <| gr_active := u32 (group.(gr_active) - 1) |>)
      end
  end.

(** ** Settlement *)
(** No allocation of the group is pending, active or closing. *)
Definition group_static (g : relayGroup) : bool :=
  g.(gr_closing) && (g.(gr_pending) =? 0) && (g.(gr_active) =? 0) && (g.(gr_closeActive) =? 0).

(** The first group of the session, in the order of the map, decides. *)
Fixpoint settle (sessionID : string) (observedAt : Z) (groups : list relayGroup)
    : result (option RelaySettlement) :=
  match groups with
  | [] => Ok None
  | g :: rest =>
      if negb (String.eqb g.(gr_grant).(rg_SessionId) sessionID) then settle sessionID observedAt rest
      else if negb (group_static g) then Err "Relay group is not static for settlement"
      else if (g.(gr_ingress) >? g.(gr_grant).(rg_ReservedBytes))
              || (g.(gr_egress) >? g.(gr_grant).(rg_ReservedBytes) - g.(gr_ingress))
      then Err "Relay aggregate exceeds reserved bytes"
      else Ok (Some (mkSettlement g.(gr_grant).(rg_ReservationId) KindExact g.(gr_ingress) g.(gr_egress)
                 g.(gr_grant).(rg_PolicyDigest) (Some (timestamp_New observedAt))))
  end.
Definition RelaySessionSettlement (e : env) (sessionID : string) (observedAt : Z) (d : stateData)
    : result (option RelaySettlement) :=
  settle sessionID observedAt (range e.(order) d.(relayGroups)).*2.

Definition ForgetRelayGroup (reservationID : string) (d : stateData) : stateData * option goerr :=
  let reservationID := TrimSpace reservationID in
  match d.(relayGroups) !! reservationID with
  | None => (d, None)
  | Some group =>
      if negb (group_static group) then (d, Some "live Relay group cannot be forgotten"%string)
      else (d <| relayAuth := delete group.(gr_username) d.(relayAuth) |>
              <| relayGroups := delete reservationID d.(relayGroups) |>, None)
  end.

Definition RelayReservationLive (reservationID : string) (d : stateData) : bool :=
  negb (is_nil (d.(relayGroups) !! TrimSpace reservationID)).
End digest.
