(* ===== verification/EdgeWorld.v ===== *)
(** * The Edge runtime state: requests and invariants

    [op] is a request to the Edge actor, [exec] runs it; the reachable states are those
    of any sequence of requests, each with its own clock, map order and writer answers.
    The lemmas are about feeds and snapshots: what a subscriber was sent is exactly the
    history of the state since it subscribed. *)
From S2P Require Import Prelude GoStd Limiter EdgeState Relay.
Local Open Scope Z_scope.

(** ** Requests *)
Inductive op :=
| OUpsertAgent (agent : option AgentPresence)
| OAttachAgent (agent : option AgentPresence) (claims : option DaemonBindingClaims)
    (send close : option Z)
| ODetachAgent (daemonID : string) (generation : Z)
| OSendCommand (daemonID : string) (generation : Z) (command : option EdgeCommand)
| OCloseConnection (daemonID : string) (generation : Z)
| ORemoveAgent (daemonID : string) (generation : Z)
| OBeginSignal (correlationID daemonID sessionID : string)
| OResolveSignal (daemonID : string) (generation : Z) (event : option AgentEvent)
| OCancelSignal (correlationID : string)
| OAttachSession (session : option ClientSessionSummary) (close : option Z)
| OCloseSession (sessionID : string) (generation : Z)
| ORemoveSession (sessionID : string) (generation : Z)
| OOpenFeed
| OUnsubscribe (id : Z)
| OReceive (id : Z)
| ODaemonSnapshot (daemons : list (option DaemonStateRecord))
| ODaemonDelta (daemon : option DaemonStateRecord)
| OInvalidate
| OLifecycle (daemonID : string) (generation : Z) (res : option DaemonLifecycleResult)
| ORegisterRelay (grant : option RelayGrant) (material : option RelayICEConfig)
| ORenewRelay (username : string) (grant : option RelayGrant)
| ORelayAuth (username : string) (at_ : Z)
| OReserveAllocation (physicalID username : string) (at_ : Z)
| OActivateAllocation (physicalID allocationID : string) (transport_set : bool) (started : Z)
| OCancelAllocation (physicalID : string)
| OSessionClose (sessionID : string)
| OAllocationClose (allocationID : string)
| OCloseAllocation (allocationID : string) (ingress egress : Z)
| OForgetGroup (reservationID : string)
| OLimiter (reservationID : string) (limiter : GroupLimiter).   (* a socket used the limiter *)

Section exec.
Context (digest : RelayPolicySnapshot → result string) (lim : stateLimits).

Definition exec (e : env) (o : op) (d : stateData) : stateData :=
  match o with
  | OUpsertAgent agent => (UpsertAgent lim agent d).1
  | OAttachAgent agent claims send close => (AttachAuthenticatedAgent e lim agent claims send close d).1.1
  | ODetachAgent id g => (DetachAgent e id g d).1.1
  | OSendCommand id g c => (SendAgentCommand e id g c d).1
  | OCloseConnection id g => (CloseAgentConnection id g d).1.1
  | ORemoveAgent id g => (RemoveAgent id g d).1
  | OBeginSignal c id s => (BeginAgentSignal lim c id s d).1
  | OResolveSignal id g ev => (ResolveAgentSignal id g ev d).1
  | OCancelSignal c => CancelAgentSignal c d
  | OAttachSession s close => (AttachSession lim s close d).1
  | OCloseSession id g => (CloseSession id g d).1.1
  | ORemoveSession id g => (RemoveSession id g d).1
  | OOpenFeed => (OpenFeed e d).1
  | OUnsubscribe id => unsubscribe id d
  | OReceive id => (receive id d).1
  | ODaemonSnapshot daemons => (ApplyDaemonStateSnapshot e daemons d).1.1
  | ODaemonDelta daemon => (ApplyDaemonStateDelta e daemon d).1.1
  | OInvalidate => (InvalidateDaemonStates e d).1
  | OLifecycle id g res => (ApplyDaemonLifecycleResult id g res d).1.1
  | ORegisterRelay g m => (RegisterRelayGrant digest e g m d).1
  | ORenewRelay u g => (RenewRelayGrant e u g d).1
  | ORelayAuth u t => (RelayAuth u t d).1
  | OReserveAllocation p u t => (ReserveRelayAllocation p u t d).1
  | OActivateAllocation p a ts st => (ActivateRelayAllocation p a ts st d).1
  | OCancelAllocation p => CancelRelayAllocationReservation p d
  | OSessionClose s => (BeginRelaySessionClose s d).1
  | OAllocationClose a => (BeginRelayAllocationClose a d).1
  | OCloseAllocation a i g => (CloseRelayAllocation a i g d).1
  | OForgetGroup r => (ForgetRelayGroup r d).1
  | OLimiter r l =>
      match d.(relayGroups) !! r with
      | Some g => set_group r (g <| gr_limiter := l |>) d
      | None => d
      end
  end.

(** What the types of the arguments say: generations and counters are [uint64]. *)
Definition op_ok (o : op) : Prop :=
  match o with
  | OUpsertAgent (Some a) => 0 ≤ a.(ap_Generation) < 2 ^ 64
  | OCloseAllocation _ ingress egress => 0 ≤ ingress < 2 ^ 64 ∧ 0 ≤ egress < 2 ^ 64
  | _ => True
  end.

(** The requests the Edge itself makes: [UpsertAgent] has no caller in the program. *)
Definition op_prod (o : op) : Prop :=
  match o with OUpsertAgent _ => False | _ => True end.

Inductive steps (d0 : stateData) : list op → stateData → Prop :=
| steps_nil : steps d0 [] d0
| steps_snoc ops d e o :
    steps d0 ops d → OrderOk e.(order) → op_ok o → steps d0 (ops ++ [o]) (exec e o d).

Lemma steps_app d0 ops d ops' d' : steps d0 ops d → steps d ops' d' → steps d0 (ops ++ ops') d'.
Proof.
  intros H. induction 1 as [|ops' d' e o Hs IH Ho Hop]; [by rewrite app_nil_r|].
  rewrite app_assoc. by constructor.
Qed.

Lemma steps_inv (P : op → Prop) (I : stateData → Prop) d0 ops d :
  (∀ e o d, OrderOk e.(order) → op_ok o → P o → I d → I (exec e o d)) →
  Forall P ops → I d0 → steps d0 ops d → I d.
Proof.
  intros HI HP H0. induction 1 as [|ops d e o Hs IH Ho Hop]; [done|].
  apply Forall_app in HP as [HP Hlast]. inversion Hlast; subst. apply HI; auto.
Qed.

Definition reaches (buffer : Z) : list op → stateData → Prop := steps (new_state buffer).
End exec.

(** ** What a feed shows *)

(** The state a subscriber mirrors. *)
Record view := mkView {
  v_revision : Z;
  v_agents : gmap string AgentPresence;
  v_sessions : gmap string ClientSessionSummary }.
Definition view_of (d : stateData) : view := mkView d.(revision) d.(agents) d.(sessions).

(** Applying a delta: the revisions are contiguous, and what is removed is there with
    the generation the delta names. *)
Definition apply_delta (v : view) (delta : RuntimeDelta) : option view :=
  if delta.(rd_Revision) =? u64 (v.(v_revision) + 1) then
    match delta.(rd_Change) with
    | AgentUpserted a =>
        Some (mkView delta.(rd_Revision) (<[a.(ap_DaemonId) := a]> v.(v_agents)) v.(v_sessions))
    | AgentRemoved id g =>
        match v.(v_agents) !! id with
        | Some a => if a.(ap_Generation) =? g
                    then Some (mkView delta.(rd_Revision) (delete id v.(v_agents)) v.(v_sessions))
                    else None
        | None => None
        end
    | SessionUpserted s =>
        Some (mkView delta.(rd_Revision) v.(v_agents) (<[s.(cs_SessionId) := s]> v.(v_sessions)))
    | SessionRemoved id g =>
        match v.(v_sessions) !! id with
        | Some s => if s.(cs_Generation) =? g
                    then Some (mkView delta.(rd_Revision) v.(v_agents) (delete id v.(v_sessions)))
                    else None
        | None => None
        end
    end
  else None.

Definition view_of_snapshot (s : RuntimeSnapshot) : view :=
  mkView s.(rs_Revision)
    (list_to_map ((λ a, (a.(ap_DaemonId), a)) <$> s.(rs_Agents)))
    (list_to_map ((λ s, (s.(cs_SessionId), s)) <$> s.(rs_Sessions))).

(** A snapshot and the deltas after it. *)
Definition replay (s : RuntimeSnapshot) (deltas : list RuntimeDelta) : option view :=
  foldl (λ v delta, v ≫= λ v, apply_delta v delta) (Some (view_of_snapshot s)) deltas.

Lemma replay_snoc s deltas delta v :
  replay s deltas = Some v → replay s (deltas ++ [delta]) = apply_delta v delta.
Proof. intros H. unfold replay in *. rewrite foldl_app, H. done. Qed.

(** ** Well-formed entries *)
Record wf (d : stateData) : Prop := {
  wf_agents : ∀ k a, d.(agents) !! k = Some a → a.(ap_DaemonId) = k ∧ validateAgent (Some a) = None;
  wf_presences : ∀ k a, d.(agentPresences) !! k = Some a →
    a.(ap_DaemonId) = k ∧ validateAgent (Some a) = None;
  wf_sessions : ∀ k s, d.(sessions) !! k = Some s →
    s.(cs_SessionId) = k ∧ validateSession (Some s) = None }.

(** The feeds: an open one has seen everything, and a closed one a prefix. *)
Record feeds_ok (d : stateData) : Prop := {
  fo_open : ∀ id, id ∈ d.(subscribers) → ∃ f, d.(feeds) !! id = Some f ∧
    replay f.(fd_snapshot) f.(fd_sent) = Some (view_of d);
  fo_history : ∀ id f, d.(feeds) !! id = Some f →
    is_Some (replay f.(fd_snapshot) f.(fd_sent)) ∧
    suffix f.(fd_queue) f.(fd_sent) ∧ len f.(fd_queue) ≤ Z.max 0 d.(deltaBuffer) }.

Definition feed_part (d : stateData) :=
  (d.(revision), d.(agents), d.(sessions), d.(feeds), d.(subscribers), d.(deltaBuffer)).

Lemma feeds_ok_same d d' : feed_part d' = feed_part d → feeds_ok d → feeds_ok d'.
Proof.
  unfold feed_part. intros [= H1 H2 H3 H4 H5 H6] [Ho Hh]. split; unfold view_of; rewrite ?H1, ?H2, ?H3, ?H4, ?H5, ?H6; auto.
Qed.

Lemma publish_lookup delta d id :
  (publish delta d).(feeds) !! id =
  (λ f, if decide (id ∈ (publish delta d).(subscribers)) then feed_push delta f else f) <$>
    d.(feeds) !! id.
Proof.
  unfold publish. cbn [set_field feeds subscribers]. simpl. rewrite map_lookup_imap.
  by destruct (d.(feeds) !! id).
Qed.

Lemma publish_subscribers delta d id :
  id ∈ (publish delta d).(subscribers) ↔ id ∈ d.(subscribers) ∧ feed_full d id = false.
Proof.
  change ((publish delta d).(subscribers)) with
    (d.(subscribers) ∖ filter (λ id, feed_full d id = true) d.(subscribers)).
  rewrite elem_of_difference, elem_of_filter. destruct (feed_full d id); naive_solver.
Qed.

(** The change [commit] publishes is the change of the maps it follows. *)
Lemma commit_feeds d0 d change :
  feeds_ok d0 → d.(revision) = d0.(revision) → d.(feeds) = d0.(feeds) →
  d.(subscribers) = d0.(subscribers) → d.(deltaBuffer) = d0.(deltaBuffer) →
  apply_delta (view_of d0) (mkDelta (u64 (d0.(revision) + 1)) change) =
    Some (mkView (u64 (d0.(revision) + 1)) d.(agents) d.(sessions)) →
  feeds_ok (commit change d).
Proof.
  intros [Ho Hh] H1 H2 H3 H4 Ha.
  set (d1 := d <| revision := u64 (d.(revision) + 1) |>).
  set (delta := mkDelta (u64 (d.(revision) + 1)) change).
  change (commit change d) with (publish delta d1).
  assert (view_of (publish delta d1) = mkView (u64 (d0.(revision) + 1)) d.(agents) d.(sessions)) as Hv
    by (unfold view_of, d1; simpl; by rewrite H1).
  rewrite <- H1 in Ha. split.
  - intros id Hid. pose proof Hid as [Hs Hf]%publish_subscribers.
    change (subscribers d1) with (subscribers d) in Hs. rewrite H3 in Hs.
    destruct (Ho id Hs) as (f & Hlf & Hr). exists (feed_push delta f).
    rewrite publish_lookup. change (feeds d1) with (feeds d). rewrite H2, Hlf.
    cbn [fmap option_fmap option_map].
    rewrite decide_True by done. split; [done|].
    cbn [fd_snapshot fd_sent feed_push set_field]. rewrite (replay_snoc _ _ _ _ Hr), Hv.
    unfold delta. rewrite Ha. by rewrite H1.
  - intros id f. rewrite publish_lookup. change (feeds d1) with (feeds d). rewrite H2.
    destruct (d0.(feeds) !! id) as [f0|] eqn:E; [|done].
    cbn [fmap option_fmap option_map]. intros [= <-]. destruct (Hh id f0 E) as (Hr & Hq & Hl).
    change (deltaBuffer (publish delta d1)) with (deltaBuffer d).
    rewrite H4. case_decide as Hid; [|done].
    change (id ∈ (publish delta d1).(subscribers)) in Hid.
    apply publish_subscribers in Hid as [Hs Hf].
    change (subscribers d1) with (subscribers d) in Hs. rewrite H3 in Hs.
    destruct (Ho id Hs) as (f1 & Hlf & Hr1). rewrite E in Hlf. injection Hlf as <-.
    simpl. split_and!.
    + rewrite (replay_snoc _ _ _ _ Hr1). unfold delta. by rewrite Ha.
    + destruct Hq as [k Hk]. exists k. rewrite Hk. by rewrite app_assoc.
    + unfold feed_full in Hf. change (feeds d1) with (feeds d) in Hf. rewrite H2, E in Hf.
      change (deltaBuffer d1) with (deltaBuffer d) in Hf. rewrite H4 in Hf.
      unfold len in *. rewrite length_app. simpl. lia.
Qed.

(** ** Frames: what the helpers leave alone *)
Lemma commit_fields change d :
  let d' := commit change d in
  d'.(agents) = d.(agents) ∧ d'.(sessions) = d.(sessions) ∧
  d'.(agentPresences) = d.(agentPresences) ∧ d'.(agentWriters) = d.(agentWriters) ∧
  d'.(agentClaims) = d.(agentClaims) ∧ d'.(sessionClosers) = d.(sessionClosers) ∧
  d'.(nextAgentGeneration) = d.(nextAgentGeneration) ∧ d'.(pendingSignals) = d.(pendingSignals) ∧
  d'.(daemonStates) = d.(daemonStates) ∧ d'.(daemonStatesReady) = d.(daemonStatesReady) ∧
  d'.(relayGroups) = d.(relayGroups) ∧ d'.(relayAuth) = d.(relayAuth) ∧
  d'.(relayPending) = d.(relayPending) ∧ d'.(allocations) = d.(allocations) ∧
  d'.(nextChannel) = d.(nextChannel).
Proof. by split_and!. Qed.

(** The fields no drain touches. *)
Definition core (d : stateData) :=
  (d.(agentPresences), d.(agentClaims), d.(agentWriters), d.(nextAgentGeneration),
   d.(daemonStates), d.(daemonStatesReady), d.(relayPending), d.(allocations),
   d.(nextChannel), d.(deltaBuffer)).
Definition relay_part (d : stateData) := (d.(relayGroups), d.(relayAuth)).

(** What happened to signal channels. *)
Definition on_signal (t : trace_event) : bool :=
  match t with TSignal _ _ | TSignalClosed _ => true | _ => false end.
Definition signal_trace (d : stateData) : list trace_event :=
  filter (λ t, on_signal t = true) d.(trace).
Definition signal_part (d : stateData) := (d.(pendingSignals), signal_trace d, d.(nextChannel)).

Lemma commit_signal_trace change d : signal_trace (commit change d) = signal_trace d.
Proof.
  unfold signal_trace, commit, publish. simpl. rewrite filter_app.
  rewrite (list_filter_none _ (TFeedClosed <$> _)), app_nil_r; [done|].
  intros t (id & -> & _)%list_elem_of_fmap. done.
Qed.

Lemma commit_signal_part change d : signal_part (commit change d) = signal_part d.
Proof. unfold signal_part. by rewrite commit_signal_trace. Qed.

(** ** Agents *)
Lemma remove_agent_spec id d :
  feeds_ok d →
  let d' := removeBusinessAgent id d in
  feeds_ok d' ∧ core d' = core d ∧ d'.(agents) = delete id d.(agents) ∧
  d'.(sessions) = d.(sessions) ∧ d'.(sessionClosers) = d.(sessionClosers) ∧
  relay_part d' = relay_part d ∧ signal_part d' = signal_part d.
Proof.
  intros Hf. unfold removeBusinessAgent. destruct (agents d !! id) as [a|] eqn:E.
  - split_and!; try done; [|by rewrite commit_signal_part].
    apply (commit_feeds d); try done. unfold apply_delta. simpl. by rewrite Z.eqb_refl, E, Z.eqb_refl.
  - split_and!; try done. by rewrite delete_id.
Qed.

Lemma publish_agent_spec a d :
  feeds_ok d →
  let d' := publishBusinessAgent a d in
  feeds_ok d' ∧ core d' = core d ∧ d'.(agents) = <[a.(ap_DaemonId) := a]> d.(agents) ∧
  d'.(sessions) = d.(sessions) ∧ d'.(sessionClosers) = d.(sessionClosers) ∧
  relay_part d' = relay_part d ∧ signal_part d' = signal_part d.
Proof.
  intros Hf. unfold publishBusinessAgent. case_bool_decide as E.
  - split_and!; try done. by rewrite insert_id.
  - split_and!; try done; [|by rewrite commit_signal_part].
    apply (commit_feeds d); try done. unfold apply_delta. simpl. by rewrite Z.eqb_refl.
Qed.

(** ** Signals *)

Definition count_closed (ch : Z) (tr : list trace_event) : Z :=
  len (filter (λ t, bool_decide (t = TSignalClosed ch) = true) tr).
Definition count_sent (ch : Z) (tr : list trace_event) : Z :=
  len (filter (λ t, (match t with TSignal c _ => c =? ch | _ => false end) = true) tr).

(** Every pending signal has a channel of its own that nothing was sent on and that is
    open; no channel is closed twice. *)
Record signals_ok (pending : gmap string pendingSignal) (tr : list trace_event) (next : Z) : Prop := {
  so_pending : ∀ c p, pending !! c = Some p → p.(ps_result) < next ∧
    TSignalClosed p.(ps_result) ∉ tr ∧ ∀ ev, TSignal p.(ps_result) ev ∉ tr;
  so_distinct : ∀ c c' p p', pending !! c = Some p → pending !! c' = Some p' →
    p.(ps_result) = p'.(ps_result) → c = c';
  so_old : ∀ ch, TSignalClosed ch ∈ tr ∨ (∃ ev, TSignal ch ev ∈ tr) → ch < next;
  so_once : ∀ ch, count_closed ch tr ≤ 1 ∧ count_sent ch tr ≤ 1 }.

Lemma count_closed_app ch a b : count_closed ch (a ++ b) = count_closed ch a + count_closed ch b.
Proof. unfold count_closed, len. rewrite filter_app, length_app. lia. Qed.
Lemma count_sent_app ch a b : count_sent ch (a ++ b) = count_sent ch a + count_sent ch b.
Proof. unfold count_sent, len. rewrite filter_app, length_app. lia. Qed.

Lemma count_closed_none ch tr : TSignalClosed ch ∉ tr → count_closed ch tr = 0.
Proof.
  intros Hn. unfold count_closed. rewrite list_filter_none; [done|].
  intros t Ht. rewrite bool_decide_eq_true. by intros ->.
Qed.
Lemma count_sent_none ch tr : (∀ ev, TSignal ch ev ∉ tr) → count_sent ch tr = 0.
Proof.
  intros Hn. unfold count_sent. rewrite list_filter_none; [done|].
  intros [c ev| | |] Ht; try done. rewrite Z.eqb_eq. intros ->. by eapply Hn.
Qed.

Lemma count_one ch ev :
  count_closed ch [TSignalClosed ch] = 1 ∧ count_sent ch [TSignalClosed ch] = 0 ∧
  count_closed ch [TSignal ch ev; TSignalClosed ch] = 1 ∧
  count_sent ch [TSignal ch ev; TSignalClosed ch] = 1.
Proof.
  unfold count_closed, count_sent. split_and!.
  - rewrite filter_cons_True by (by apply bool_decide_eq_true). done.
  - rewrite filter_cons_False by done. done.
  - rewrite filter_cons_False by (by rewrite bool_decide_eq_true).
    rewrite filter_cons_True by (by apply bool_decide_eq_true). done.
  - rewrite filter_cons_True by apply Z.eqb_refl. rewrite filter_cons_False by done. done.
Qed.

Lemma signals_close P tr n c p :
  signals_ok P tr n → P !! c = Some p →
  signals_ok (delete c P) (tr ++ [TSignalClosed p.(ps_result)]) n.
Proof.
  intros [H1 H2 H3 H4] Hp. destruct (H1 c p Hp) as (Hlt & Hnc & Hns). split.
  - intros c' p' [Hne Hp']%lookup_delete_Some. destruct (H1 c' p' Hp') as (? & ? & ?).
    assert (p'.(ps_result) ≠ p.(ps_result)) by (intros Heq; by apply Hne, (H2 c c' p p')).
    split_and!; [done|set_solver|set_solver].
  - intros c1 c2 p1 p2 [_ ?]%lookup_delete_Some [_ ?]%lookup_delete_Some. by apply H2.
  - intros ch Hch. destruct (decide (ch = p.(ps_result))) as [->|]; [done|].
    apply H3. destruct Hch as [Hch|[ev Hch]]; [left|right; exists ev]; set_solver.
  - intros ch. rewrite count_closed_app, count_sent_app. specialize (H4 ch).
    destruct (decide (ch = p.(ps_result))) as [->|Hne].
    + destruct (count_one p.(ps_result) (mkEvent EvUnrelated "")) as (-> & -> & _).
      rewrite (count_closed_none _ tr), (count_sent_none _ tr) by done. lia.
    + rewrite (count_closed_none _ [_]) by set_solver. rewrite (count_sent_none _ [_]) by set_solver.
      lia.
Qed.

Lemma signals_resolve P tr n c p ev :
  signals_ok P tr n → P !! c = Some p →
  signals_ok (delete c P) (tr ++ [TSignal p.(ps_result) ev; TSignalClosed p.(ps_result)]) n.
Proof.
  intros [H1 H2 H3 H4] Hp. destruct (H1 c p Hp) as (Hlt & Hnc & Hns). split.
  - intros c' p' [Hne Hp']%lookup_delete_Some. destruct (H1 c' p' Hp') as (? & ? & ?).
    assert (p'.(ps_result) ≠ p.(ps_result)) by (intros Heq; by apply Hne, (H2 c c' p p')).
    split_and!; [done|set_solver|set_solver].
  - intros c1 c2 p1 p2 [_ ?]%lookup_delete_Some [_ ?]%lookup_delete_Some. by apply H2.
  - intros ch Hch. destruct (decide (ch = p.(ps_result))) as [->|]; [done|].
    apply H3. destruct Hch as [Hch|[ev' Hch]]; [left|right; exists ev']; set_solver.
  - intros ch. rewrite count_closed_app, count_sent_app. specialize (H4 ch).
    destruct (decide (ch = p.(ps_result))) as [->|Hne].
    + destruct (count_one p.(ps_result) ev) as (_ & _ & -> & ->).
      rewrite (count_closed_none _ tr), (count_sent_none _ tr) by done. lia.
    + rewrite (count_closed_none _ [_; _]) by set_solver.
      rewrite (count_sent_none _ [_; _]) by set_solver. lia.
Qed.

Lemma signals_begin P tr n c p :
  signals_ok P tr n → P !! c = None → p.(ps_result) = n → signals_ok (<[c := p]> P) tr (n + 1).
Proof.
  intros [H1 H2 H3 H4] Hc Hp. split; [| | |done].
  - intros c' p' [[<- <-]|[Hne Hp']]%lookup_insert_Some.
    + rewrite Hp. split_and!; [lia|intros Hin; specialize (H3 n (or_introl Hin)); lia|].
      intros ev Hin. specialize (H3 n (or_intror (ex_intro _ ev Hin))). lia.
    + destruct (H1 _ _ Hp') as (? & ? & ?). split_and!; [lia|done|done].
  - intros c1 c2 p1 p2 [[<- <-]|[Hn1 Hp1]]%lookup_insert_Some [[<- <-]|[Hn2 Hp2]]%lookup_insert_Some Heq;
      [done| | |by apply (H2 _ _ p1 p2)].
    + destruct (H1 _ _ Hp2). lia.
    + destruct (H1 _ _ Hp1). lia.
  - intros ch Hch. specialize (H3 ch Hch). lia.
Qed.

(** [d'] differs from [d] in [pendingSignals] and [trace] only. *)
Definition signals_only (d d' : stateData) : Prop :=
  feed_part d' = feed_part d ∧ core d' = core d ∧ relay_part d' = relay_part d ∧
  d'.(sessionClosers) = d.(sessionClosers).

Lemma signal_trace_traced t d :
  on_signal t = true → signal_trace (traced t d) = signal_trace d ++ [t].
Proof. intros Ht. unfold signal_trace. simpl. by rewrite filter_app, filter_cons_True. Qed.

Definition state_signals_ok (d : stateData) : Prop :=
  signals_ok d.(pendingSignals) (signal_trace d) d.(nextChannel).

(** The loop of [cancelAgentSignals] over some of the pending signals. *)
Definition cancels (id : string) (g : Z) (p : pendingSignal) : bool :=
  bool_decide (p.(ps_daemonID) = id) && (p.(ps_agentGeneration) =? g).

Lemma cancel_loop_spec id g L d :
  NoDup L.*1 → (∀ c p, (c, p) ∈ L → d.(pendingSignals) !! c = Some p) → state_signals_ok d →
  let d' := fold_left (λ d kp,
    if bool_decide (kp.2.(ps_daemonID) = id) && (kp.2.(ps_agentGeneration) =? g)
    then traced (TSignalClosed kp.2.(ps_result))
           (d <| pendingSignals := delete kp.1 d.(pendingSignals) |>)
    else d) L d in
  signals_only d d' ∧ state_signals_ok d' ∧
  ∀ c p, d'.(pendingSignals) !! c = Some p ↔
    d.(pendingSignals) !! c = Some p ∧ ¬ (c ∈ L.*1 ∧ cancels id g p = true).
Proof.
  revert d. induction L as [|[c p] L IH]; intros d Hnd HL Hok; cbn [fold_left].
  { split; [done|]. split; [done|]. intros c p. simpl. set_solver. }
  cbn [fst snd] in *. apply NoDup_cons in Hnd as [Hc Hnd].
  assert (Hcp : d.(pendingSignals) !! c = Some p) by (apply HL; set_solver).
  destruct (bool_decide (p.(ps_daemonID) = id) && (p.(ps_agentGeneration) =? g)) eqn:E.
  - set (d1 := traced (TSignalClosed p.(ps_result)) (d <| pendingSignals := delete c d.(pendingSignals) |>)).
    assert (state_signals_ok d1) as Hok1.
    { unfold state_signals_ok, d1. rewrite signal_trace_traced by done. by apply signals_close. }
    destruct (IH d1 Hnd) as (Ho & Hok' & Hl).
    + intros c' p' Hin. unfold d1. simpl. rewrite lookup_delete_ne; [apply HL; set_solver|].
      intros ->. apply Hc. apply list_elem_of_fmap. by exists (c', p').
    + done.
    + split; [exact Ho|]. split; [exact Hok'|]. intros c' p'. rewrite Hl.
      change (pendingSignals d1) with (delete c d.(pendingSignals)). rewrite lookup_delete_Some.
      simpl. split.
      * intros [[Hne Hp'] Hnot]. split; [done|]. intros [Hin Hcan]. apply Hnot. split; [|done]. set_solver.
      * intros [Hp' Hnot]. split; [split; [|done]|].
        -- intros <-. apply Hnot. split; [set_solver|]. assert (p' = p) as -> by congruence. done.
        -- intros [Hin Hcan]. apply Hnot. split; [set_solver|done].
  - destruct (IH d Hnd) as (Ho & Hok' & Hl); [intros c' p' Hin; apply HL; set_solver|done|].
    split; [exact Ho|]. split; [exact Hok'|]. intros c' p'. rewrite Hl. simpl. split.
    + intros [Hp' Hnot]. split; [done|]. intros [Hin Hcan]. apply elem_of_cons in Hin as [->|Hin].
      * assert (p' = p) as -> by congruence. unfold cancels in Hcan. congruence.
      * apply Hnot. by split.
    + intros [Hp' Hnot]. split; [done|]. intros [Hin Hcan]. apply Hnot. split; [set_solver|done].
Qed.

Lemma cancel_spec e id g d :
  OrderOk e.(order) → state_signals_ok d →
  let d' := cancelAgentSignals e id g d in
  signals_only d d' ∧ state_signals_ok d' ∧
  ∀ c p, d'.(pendingSignals) !! c = Some p ↔
    d.(pendingSignals) !! c = Some p ∧ cancels id g p = false.
Proof.
  intros Ho Hok. cbn zeta. unfold cancelAgentSignals.
  destruct (cancel_loop_spec id g (range e.(order) d.(pendingSignals)) d) as (H1 & H2 & H3).
  - by apply NoDup_range_fst.
  - intros c p. by apply elem_of_range.
  - done.
  - split; [exact H1|]. split; [exact H2|]. intros c p. rewrite H3. split.
    + intros [Hp Hnot]. split; [done|]. destruct (cancels id g p); [|done]. exfalso. apply Hnot.
      split; [|done]. apply list_elem_of_fmap. exists (c, p). split; [done|]. by apply elem_of_range.
    + intros [Hp Hcan]. split; [done|]. intros [_ Hcan']. congruence.
Qed.
