(* ===== verification/EdgeFacts.v ===== *)
(** * Invariants of the Edge runtime state

    [edge_inv] holds in every reachable state: entries are well formed, every feed
    mirrors the state, writers and presences agree on their generation, sessions have
    their closers, signal channels are used once and the tables stay within their
    limits. *)
From S2P Require Import Prelude GoStd Limiter EdgeState Relay EdgeWorld.
Local Open Scope Z_scope.

Ltac in_list :=
  solve [by left | by right | done
        | match goal with H : _ ∈ _ :: _ |- _ => apply elem_of_cons in H as [?|H]; [congruence|exact H] end].

(** ** Draining a daemon *)
Lemma drain_loop_spec id L d cl :
  NoDup L.*1 → (∀ k s, (k, s) ∈ L → d.(sessions) !! k = Some s) → feeds_ok d →
  let r := fold_left (drain_session id) L (d, cl) in
  feeds_ok r.1 ∧ core r.1 = core d ∧ relay_part r.1 = relay_part d ∧
  signal_part r.1 = signal_part d ∧ r.1.(agents) = d.(agents) ∧
  (∀ k s, r.1.(sessions) !! k = Some s ↔
     d.(sessions) !! k = Some s ∧ ¬ (k ∈ L.*1 ∧ s.(cs_DaemonId) = id)) ∧
  (∀ k c, r.1.(sessionClosers) !! k = Some c ↔
     d.(sessionClosers) !! k = Some c ∧ ¬ ∃ s, (k, s) ∈ L ∧ s.(cs_DaemonId) = id) ∧
  (∀ x, x ∈ r.2 ↔ x ∈ cl ∨ ∃ k s, (k, s) ∈ L ∧ s.(cs_DaemonId) = id ∧
     (closer_of d k).(sc_close) = Some x).
Proof.
  revert d cl. induction L as [|[k s] L IH]; intros d cl Hnd HL Hf; cbn [fold_left].
  { simpl. split_and!; try done.
    - intros k s. split; [|by intros []]. intros Hs. split; [done|]. intros [Hin _]. by apply elem_of_nil in Hin.
    - intros k c. split; [|by intros []]. intros Hc. split; [done|]. intros (? & Hin & _).
      by apply elem_of_nil in Hin.
    -
    intros x. split; [by left|]. intros [?|(? & ? & Hin & _)]; [done|]. by apply elem_of_nil in Hin. }
  cbn [fst snd] in *. apply NoDup_cons in Hnd as [Hk Hnd].
  assert (Hks : d.(sessions) !! k = Some s) by (apply HL; in_list).
  assert (Hkn : ∀ s', (k, s') ∉ L).
  { intros s' Hin. apply Hk. apply list_elem_of_fmap. by exists (k, s'). }
  cbn [drain_session]. case_bool_decide as Hd; cbn [negb].
  - set (d0 := d <| sessions := delete k d.(sessions) |>
                 <| sessionClosers := delete k d.(sessionClosers) |>).
    set (d1 := commit (SessionRemoved k s.(cs_Generation)) d0).
    set (cl1 := cl ++ opt_list (closer_of d k).(sc_close)).
    assert (feeds_ok d1) as Hf1.
    { apply (commit_feeds d d0); try done. unfold apply_delta. simpl.
      by rewrite Z.eqb_refl, Hks, Z.eqb_refl. }
    destruct (IH d1 cl1 Hnd) as (H1 & H2 & H3 & H4 & H5 & H6 & H7 & H8); [|done|].
    { intros k' s' Hin. change (sessions d1) with (delete k d.(sessions)).
      rewrite lookup_delete_ne; [apply HL; in_list|]. intros ->. by eapply Hkn. }
    split; [exact H1|]. split; [by rewrite H2|]. split; [by rewrite H3|].
    split; [by rewrite H4; unfold d1; rewrite commit_signal_part|]. split; [by rewrite H5|].
    split_and!.
    + intros k' s'. rewrite H6. change (sessions d1) with (delete k d.(sessions)).
      rewrite lookup_delete_Some. simpl. split.
      * intros [[Hne Hs'] Hnot]. split; [done|]. intros [Hin Hid]. apply Hnot. split; [|done].
        in_list.
      * intros [Hs' Hnot]. split; [split; [|done]|].
        -- intros <-. apply Hnot. split; [in_list|]. congruence.
        -- intros [Hin Hid]. apply Hnot. split; [in_list|done].
    + intros k' c. rewrite H7. change (sessionClosers d1) with (delete k d.(sessionClosers)).
      rewrite lookup_delete_Some. split.
      * intros [[Hne Hc] Hnot]. split; [done|]. intros (s' & Hin & Hid).
        apply elem_of_cons in Hin as [[= -> ->]|Hin]; [done|]. apply Hnot. by exists s'.
      * intros [Hc Hnot]. split; [split; [|done]|].
        -- intros <-. apply Hnot. exists s. split; [in_list|done].
        -- intros (s' & Hin & Hid). apply Hnot. exists s'. split; [in_list|done].
    + intros x. rewrite H8. unfold cl1. rewrite elem_of_app.
      assert (∀ k' s', (k', s') ∈ L → closer_of d1 k' = closer_of d k') as Hco.
      { intros k' s' Hin. unfold closer_of. change (sessionClosers d1) with (delete k d.(sessionClosers)).
        rewrite lookup_delete_ne; [done|]. intros ->. by eapply Hkn. }
      split.
      * intros [[?|Hx]|(k' & s' & Hin & Hid & Hx)]; [by left| |].
        -- right. exists k, s. split; [in_list|]. split; [done|].
           destruct (sc_close _); simpl in Hx; [|by apply elem_of_nil in Hx].
           apply list_elem_of_singleton in Hx. by subst.
        -- right. exists k', s'. rewrite <- (Hco k' s') by done. split; [in_list|done].
      * intros [?|(k' & s' & Hin & Hid & Hx)]; [by left; left|].
        apply elem_of_cons in Hin as [[= -> ->]|Hin].
        -- left. right. rewrite Hx. by apply list_elem_of_singleton.
        -- right. exists k', s'. rewrite (Hco k' s') by done. done.
  - destruct (IH d cl Hnd) as (H1 & H2 & H3 & H4 & H5 & H6 & H7 & H8); [|done|].
    { intros k' s' Hin. apply HL. in_list. }
    split_and!; try done.
    + intros k' s'. rewrite H6. simpl. split; (intros [Hs' Hnot]; split; [done|]).
      * intros [Hin Hid]. apply elem_of_cons in Hin as [->|Hin]; [congruence|]. by apply Hnot.
      * intros [Hin Hid]. apply Hnot. split; [in_list|done].
    + intros k' c. rewrite H7. split; (intros [Hc Hnot]; split; [done|]).
      * intros (s' & Hin & Hid). apply elem_of_cons in Hin as [[= -> ->]|Hin]; [done|].
        apply Hnot. by exists s'.
      * intros (s' & Hin & Hid). apply Hnot. exists s'. split; [in_list|done].
    + intros x. rewrite H8. split; (intros [?|(k' & s' & Hin & Hid & Hx)]; [by left|]).
      * right. exists k', s'. split; [in_list|done].
      * apply elem_of_cons in Hin as [[= -> ->]|Hin]; [done|]. right. by exists k', s'.
Qed.

(** What draining the daemon [id] does. *)
Record drained (id : string) (d d' : stateData) (closers : list Z) : Prop := {
  dr_feeds : feeds_ok d';
  dr_core : core d' = core d;
  dr_agents : d'.(agents) = delete id d.(agents);
  dr_sessions : ∀ k s, d'.(sessions) !! k = Some s ↔
    d.(sessions) !! k = Some s ∧ s.(cs_DaemonId) ≠ id;
  dr_closers : ∀ k c, d'.(sessionClosers) !! k = Some c ↔
    d.(sessionClosers) !! k = Some c ∧ ¬ ∃ s, d.(sessions) !! k = Some s ∧ s.(cs_DaemonId) = id;
  dr_signals : state_signals_ok d';
  dr_pending : ∀ c p, d'.(pendingSignals) !! c = Some p ↔
    d.(pendingSignals) !! c = Some p ∧
    from_option (λ a, cancels id a.(ap_Generation) p) false (d.(agentPresences) !! id) = false;
  dr_relay : relay_part d' = relay_part
    (close_groups (λ g, bool_decide (grant_DaemonId g.(gr_grant) = id)) d);
  dr_run : ∀ x, x ∈ closers ↔ ∃ k s, d.(sessions) !! k = Some s ∧ s.(cs_DaemonId) = id ∧
    (closer_of d k).(sc_close) = Some x }.

Lemma close_groups_part P d d' :
  relay_part d' = relay_part d → relay_part (close_groups P d') = relay_part (close_groups P d).
Proof. unfold relay_part, close_groups. simpl. intros [= -> ->]. done. Qed.

Lemma drain_spec e id d d' closers :
  OrderOk e.(order) → feeds_ok d → state_signals_ok d →
  drainDaemonBusiness e id d = (d', closers) → drained id d d' closers.
Proof.
  intros Ho Hf Hsig. unfold drainDaemonBusiness.
  destruct (remove_agent_spec id d Hf) as (F1 & C1 & A1 & S1 & K1 & R1 & G1).
  set (d1 := removeBusinessAgent id d) in *.
  assert (state_signals_ok d1) as Hsig1.
  { unfold signal_part in G1. injection G1 as G1 G2 G3. unfold state_signals_ok. by rewrite G1, G2, G3. }
  assert (d1.(pendingSignals) = d.(pendingSignals)) as P1 by (unfold signal_part in G1; by injection G1).
  assert (d1.(agentPresences) = d.(agentPresences)) as AP1 by (unfold core in C1; by injection C1).
  rewrite AP1.
  match goal with |- context [range e.(order) (sessions ?x)] => set (d2 := x) end.
  assert (signals_only d1 d2 ∧ state_signals_ok d2 ∧
    ∀ c p, d2.(pendingSignals) !! c = Some p ↔ d1.(pendingSignals) !! c = Some p ∧
      from_option (λ a, cancels id a.(ap_Generation) p) false (d.(agentPresences) !! id) = false)
    as ((F2 & C2 & R2 & K2) & Hsig2 & P2).
  { unfold d2. destruct (agentPresences d !! id) as [a|]; simpl.
    - by apply cancel_spec.
    - split; [done|]. split; [done|]. intros c p. by split; [intros|intros []]. }
  assert (d2.(sessions) = d.(sessions)) as S2 by (unfold feed_part in F2; injection F2; congruence).
  assert (d2.(agents) = d1.(agents)) as A2 by (unfold feed_part in F2; by injection F2).
  assert (feeds_ok d2) as Hf2 by (by apply (feeds_ok_same d1)).
  destruct (drain_loop_spec id (range e.(order) d2.(sessions)) d2 []) as
    (F3 & C3 & R3 & G3 & A3 & S3 & K3 & X3);
    [by apply NoDup_range_fst|intros k s Hks; by apply (elem_of_range (order e)) in Hks|done|].
  destruct (fold_left (drain_session id) _ _) as [d3 cl3]. cbn [fst snd] in *. intros [= <- <-].
  assert (∀ k s, (k, s) ∈ range e.(order) d2.(sessions) ↔ d.(sessions) !! k = Some s) as Hr.
  { intros k s. rewrite elem_of_range by done. by rewrite S2. }
  assert (∀ k, closer_of d2 k = closer_of d k) as Hco by (intros k; unfold closer_of; by rewrite K2, K1).
  unfold signal_part in G3. injection G3 as G31 G32 G33.
  split.
  - by apply (feeds_ok_same d3).
  - change (core (close_groups _ d3)) with (core d3). by rewrite C3, C2, C1.
  - simpl. by rewrite A3, A2, A1.
  - intros k s. simpl. rewrite S3, S2. rewrite S2 in Hr. split; (intros [Hs Hn]; split; [done|]).
    + intros Hid. apply Hn. split; [|done]. apply list_elem_of_fmap. exists (k, s). split; [done|]. by apply Hr.
    + intros [_ Hid]. done.
  - intros k c. simpl. rewrite K3, K2, K1. setoid_rewrite Hr. done.
  - unfold state_signals_ok. simpl.
    change (signal_trace (close_groups _ d3)) with (signal_trace d3). by rewrite G31, G32, G33.
  - intros c p. simpl. rewrite G31, P2, P1. done.
  - apply close_groups_part. by rewrite R3, R2, R1.
  - intros x. rewrite X3. setoid_rewrite Hr. setoid_rewrite Hco. split; [|by right]. intros [Hin|]; [|done].
    by apply elem_of_nil in Hin.
Qed.

(** ** The invariant *)
Definition within {K A} `{Countable K} (m : gmap K A) (n : Z) : Prop := Z.of_nat (size m) ≤ Z.max 0 n.

Record edge_inv (lim : stateLimits) (d : stateData) : Prop := {
  ei_wf : wf d;
  ei_feeds : feeds_ok d;
  ei_signals : state_signals_ok d;
  ei_writer : ∀ id w, d.(agentWriters) !! id = Some w → is_Some w.(aw_send) ∧
    ∃ a, d.(agentPresences) !! id = Some a ∧ a.(ap_Generation) = w.(aw_generation);
  ei_presence : ∀ id a, d.(agentPresences) !! id = Some a →
    is_Some (d.(agentWriters) !! id) ∧ 0 < a.(ap_Generation) ≤ d.(nextAgentGeneration);
  ei_next : 0 ≤ d.(nextAgentGeneration) ≤ MaxUint64;
  ei_session : ∀ k s, d.(sessions) !! k = Some s →
    ∃ c, d.(sessionClosers) !! k = Some c ∧ c.(sc_generation) = s.(cs_Generation);
  ei_closer : ∀ k c, d.(sessionClosers) !! k = Some c → is_Some (d.(sessions) !! k);
  ei_writers_size : within d.(agentWriters) lim.(maxAgents);
  ei_sessions_size : within d.(sessions) lim.(maxSessions);
  ei_signals_size : within d.(pendingSignals) lim.(maxPendingSignals) }.

(** Everything the invariant is about. *)
Definition business (d : stateData) :=
  (feed_part d, d.(agentPresences), d.(agentWriters), d.(nextAgentGeneration),
   d.(sessionClosers), signal_part d).

Lemma edge_inv_business lim d d' : business d' = business d → edge_inv lim d → edge_inv lim d'.
Proof.
  unfold business, signal_part, feed_part.
  intros [= F1 F2 F3 F4 F5 F6 H1 H2 H3 H4 H5 H6 H7] [Iw Ifd Isg].
  assert (feed_part d' = feed_part d) as Hf by (unfold feed_part; congruence).
  split; rewrite ?H1, ?H2, ?H3, ?H4, ?H5, ?F3; try done.
  - destruct Iw as [W1 W2 W3]. split; rewrite ?F2, ?F3, ?H1; done.
  - by apply (feeds_ok_same d).
  - unfold state_signals_ok. by rewrite H5, H6, H7.
Qed.

(** The same, with the feeds re-established after a commit. *)
Lemma edge_inv_intro lim d d' :
  wf d' → feeds_ok d' → d'.(agentPresences) = d.(agentPresences) →
  d'.(agentWriters) = d.(agentWriters) → d.(nextAgentGeneration) ≤ d'.(nextAgentGeneration) ≤ MaxUint64 →
  d'.(sessionClosers) = d.(sessionClosers) → d'.(sessions) = d.(sessions) →
  signal_part d' = signal_part d → edge_inv lim d → edge_inv lim d'.
Proof.
  unfold signal_part. intros W F H1 H2 H3 H4 H5 [= H6 H7 H8] [].
  split; rewrite ?H1, ?H2, ?H4, ?H5, ?H6; try done.
  - unfold state_signals_ok. by rewrite H6, H7, H8.
  - intros id a Ha. destruct (ei_presence0 id a Ha). split; [done|lia].
  - lia.
Qed.

(** A new generation is handed out. *)
Lemma next_inv lim d g :
  edge_inv lim d → d.(nextAgentGeneration) ≤ g ≤ MaxUint64 →
  edge_inv lim (d <| nextAgentGeneration := g |>).
Proof.
  intros Hi Hg. apply (edge_inv_intro lim d); try done.
  - by destruct Hi as [[]].
  - by apply (feeds_ok_same d), Hi.
Qed.

Lemma normalize_agent a s :
  NormalizeClone (mkSnapshot 0 [a] []) = Ok s → validateAgent (Some a) = None.
Proof.
  unfold NormalizeClone. cbn [rs_Agents rs_Sessions]. change (merge_sort agent_before [a]) with [a].
  cbn [check_agents]. by destruct (validateAgent (Some a)).
Qed.
Lemma normalize_session s r :
  NormalizeClone (mkSnapshot 0 [] [s]) = Ok r → validateSession (Some s) = None.
Proof.
  unfold NormalizeClone. cbn [rs_Agents rs_Sessions]. change (merge_sort session_before [s]) with [s].
  change (merge_sort agent_before []) with (@nil AgentPresence).
  cbn [check_agents check_sessions]. by destruct (validateSession (Some s)).
Qed.

Lemma within_insert {K A} `{Countable K} (m : gmap K A) n k x :
  within m n → (m !! k = None → size_ge m n = false) → within (<[k := x]> m) n.
Proof.
  unfold within, size_ge. intros Hm Hn. destruct (m !! k) as [y|] eqn:E.
  - rewrite map_size_insert_Some by done. done.
  - rewrite map_size_insert_None by done. specialize (Hn eq_refl). lia.
Qed.
Lemma within_subset {K A} `{Countable K} (m m' : gmap K A) n :
  (∀ k x, m' !! k = Some x → m !! k = Some x) → within m n → within m' n.
Proof.
  unfold within. intros Hs Hm.
  assert (size m' ≤ size m)%nat; [|lia]. apply map_subseteq_size, map_subseteq_spec, Hs.
Qed.
Lemma within_delete {K A} `{Countable K} (m : gmap K A) n k : within m n → within (delete k m) n.
Proof. apply within_subset. by intros k' x [_ ?]%lookup_delete_Some. Qed.

Lemma core_fields d d' : core d' = core d →
  d'.(agentPresences) = d.(agentPresences) ∧ d'.(agentWriters) = d.(agentWriters) ∧
  d'.(agentClaims) = d.(agentClaims) ∧ d'.(nextAgentGeneration) = d.(nextAgentGeneration) ∧
  d'.(daemonStates) = d.(daemonStates) ∧ d'.(daemonStatesReady) = d.(daemonStatesReady) ∧
  d'.(relayPending) = d.(relayPending) ∧ d'.(allocations) = d.(allocations) ∧
  d'.(nextChannel) = d.(nextChannel) ∧ d'.(deltaBuffer) = d.(deltaBuffer).
Proof. unfold core. intros [=]. done. Qed.

(** ** The operations preserve it *)
Lemma drained_inv lim id d d' cl : drained id d d' cl → edge_inv lim d → edge_inv lim d'.
Proof.
  intros [D1 D2 D3 D4 D5 D6 D7 D8 D9] [[W1 W2 W3]].
  apply core_fields in D2 as (C1 & C2 & C3 & C4 & C5 & C6 & _).
  split; rewrite ?C1, ?C2, ?C4; try done.
  - split; rewrite ?C1; [|done|].
    + intros k a. rewrite D3, lookup_delete_Some. intros [_ ?]. by apply W1.
    + intros k s [Hs _]%D4. by apply W3.
  - intros k s [Hs Hne]%D4. destruct (ei_session0 k s Hs) as (c & Hc & Hg). exists c.
    split; [|done]. apply D5. split; [done|]. intros (s' & Hs' & Hid). congruence.
  - intros k c [Hc Hn]%D5. destruct (ei_closer0 k c Hc) as [s Hs]. exists s. apply D4.
    split; [done|]. intros Hid. apply Hn. by exists s.
  - apply (within_subset d.(sessions)); [|done]. by intros k s [? _]%D4.
  - apply (within_subset d.(pendingSignals)); [|done]. by intros k s [? _]%D7.
Qed.

Lemma drain_inv lim e id d d' cl :
  OrderOk e.(order) → drainDaemonBusiness e id d = (d', cl) → edge_inv lim d → edge_inv lim d'.
Proof.
  intros Ho Hd Hi. eapply drained_inv; [|exact Hi]. destruct Hi. by eapply drain_spec.
Qed.

Lemma remove_business_inv lim id d : edge_inv lim d → edge_inv lim (removeBusinessAgent id d).
Proof.
  intros Hi. pose proof Hi as [W F].
  destruct (remove_agent_spec id d F) as (F' & C & A & S & K & R & G).
  apply core_fields in C as (C1 & C2 & C3 & C4 & _).
  apply (edge_inv_intro lim d); try done.
  - destruct W as [W1 W2 W3]. split; rewrite ?C1, ?S; try done.
    intros k a. rewrite A, lookup_delete_Some. intros [_ ?]. by apply W1.
  - rewrite C4. split; [done|apply Hi].
Qed.

Lemma publish_business_inv lim a d :
  validateAgent (Some a) = None → edge_inv lim d → edge_inv lim (publishBusinessAgent a d).
Proof.
  intros Hv Hi. pose proof Hi as [W F].
  destruct (publish_agent_spec a d F) as (F' & C & A & S & K & R & G).
  apply core_fields in C as (C1 & C2 & C3 & C4 & _).
  apply (edge_inv_intro lim d); try done.
  - destruct W as [W1 W2 W3]. split; rewrite ?C1, ?S; try done.
    intros k b. rewrite A, lookup_insert_Some. intros [[<- <-]|[_ ?]]; [done|]. by apply W1.
  - rewrite C4. split; [done|apply Hi].
Qed.

(** A change outside the invariant. *)
Ltac frame := match goal with H : edge_inv ?lim ?d |- edge_inv ?lim _ => by apply (edge_inv_business lim d) end.

Lemma edge_inv_traced lim t d : on_signal t = false → edge_inv lim d → edge_inv lim (traced t d).
Proof.
  intros Ht. apply edge_inv_business. unfold business, signal_part, signal_trace. simpl.
  rewrite filter_app, (filter_cons_False _ _ []), app_nil_r by (by rewrite Ht). done.
Qed.

Lemma reconcile_inv lim e id d :
  OrderOk e.(order) → edge_inv lim d → edge_inv lim (reconcileDaemonState e id d).1.
Proof.
  intros Ho Hi.
  assert (∀ d1 (cl : list Z), drainDaemonBusiness e id d = (d1, cl) → edge_inv lim d1) as Hdr
    by (intros; by eapply drain_inv).
  assert (edge_inv lim (drainDaemonBusiness e id d).1) as Hdr1
    by (destruct (drainDaemonBusiness e id d) eqn:E; by eapply Hdr).
  unfold reconcileDaemonState.
  destruct (daemonStates d !! id) as [p|]; [|done].
  destruct (agentPresences d !! id) as [a|]; [|done].
  destruct (aw_send (writer_of d id)) as [s|]; [|done].
  destruct (negb _); [done|].
  destruct (if bool_decide (ds_State p = ACTIVE) then _ else _) as [d1 cl] eqn:E.
  assert (edge_inv lim d1) as H1.
  { case_bool_decide; [injection E as <- <-; by apply remove_business_inv|by eapply Hdr]. }
  destruct (negb _); by apply edge_inv_traced.
Qed.

Lemma for_daemons_inv (I : stateData → Prop) f ids d cl :
  (∀ id d, I d → I (f id d).1) → I d → I (for_daemons f (d, cl) ids).1.
Proof.
  intros Hf. unfold for_daemons. revert d cl. induction ids as [|id ids IH]; intros d cl Hd; [done|].
  simpl. destruct (f id d) as [d' more] eqn:E. apply IH. specialize (Hf id d Hd). by rewrite E in Hf.
Qed.

Lemma upsert_inv lim agent d :
  op_ok (OUpsertAgent agent) → edge_inv lim d → edge_inv lim (UpsertAgent lim agent d).1.
Proof.
  intros Hop Hi. unfold UpsertAgent. destruct agent as [a|]; [|done]. simpl in Hop.
  destruct (NormalizeClone _) eqn:E; [|done]. apply normalize_agent in E.
  destruct (_ && _); [done|]. destruct (from_option _ _ _); [done|]. cbn [fst].
  pose proof Hi as [W F]. set (d1 := d <| agents := <[ap_DaemonId a:=a]> (agents d) |>).
  set (d2 := if _ >? _ then _ else _).
  assert (d2 = d1 <| nextAgentGeneration := Z.max a.(ap_Generation) d.(nextAgentGeneration) |>) as ->.
  { unfold d2. change (nextAgentGeneration d1) with (nextAgentGeneration d).
    destruct (Z.gtb_spec (ap_Generation a) (nextAgentGeneration d)).
    - by rewrite Z.max_l by lia.
    - rewrite Z.max_r by lia. by destruct d. }
  apply (edge_inv_intro lim d); try done.
  - destruct W as [W1 W2 W3]. split; try done. intros k b. simpl.
    intros [[<- <-]|[_ ?]]%lookup_insert_Some; [done|by apply W1].
  - apply (commit_feeds d); try done. unfold apply_delta. simpl. by rewrite Z.eqb_refl.
  - simpl. pose proof (ei_next _ _ Hi) as Hn. unfold MaxUint64 in *. lia.
  - by rewrite commit_signal_part.
Qed.

Lemma attach_inv lim e agent claims send close d :
  OrderOk e.(order) → edge_inv lim d →
  edge_inv lim (AttachAuthenticatedAgent e lim agent claims send close d).1.1.
Proof.
  intros Ho Hi. unfold AttachAuthenticatedAgent.
  destruct agent as [a|]; [|done]. destruct claims as [c|]; [|done].
  destruct (_ || _ || _); [done|]. destruct (is_nil send || is_nil close) eqn:Es; [done|].
  apply orb_false_iff in Es as [Es _].
  destruct (requireDaemonState _ _); [|done]. destruct (_ && _) eqn:Ec; [done|].
  destruct (Z.eqb_spec (nextAgentGeneration d) MaxUint64) as [|Hlt]; [done|].
  pose proof (ei_next _ _ Hi) as Hn. unfold MaxUint64 in Hlt, Hn.
  rewrite u64_small by lia. set (g := nextAgentGeneration d + 1).
  set (a' := a <| ap_Generation := g |>). change (ap_DaemonId a') with (ap_DaemonId a).
  destruct (NormalizeClone _) eqn:En; [|done]. apply normalize_agent in En.
  set (id := ap_DaemonId a) in *.
  set (d1 := d <| nextAgentGeneration := g |>).
  assert (edge_inv lim d1) as Hi1 by (apply next_inv; [done|unfold g, MaxUint64; lia]).
  destruct (drainDaemonBusiness e id d1) as [d2 cl] eqn:Ed. cbn [fst].
  pose proof (drain_inv lim e id d1 d2 cl Ho Ed Hi1) as Hi2.
  pose proof Hi1 as [_ Fd1 Sg1 _ _ _ _ _ Sz _ _].
  pose proof (drain_spec e id d1 d2 cl Ho Fd1 Sg1 Ed) as [_ [C1 [C2 [_ [C4 _]]]]%core_fields _ _ _ _ _ _ _].
  change (agentPresences d1) with (agentPresences d) in C1.
  change (agentWriters d1) with (agentWriters d) in C2.
  change (nextAgentGeneration d1) with g in C4.
  destruct Hi2 as [[W1 W2 W3] F2 Sg2 Wr2 Pr2 Nx2 Se2 Cl2 Zw2 Zs2 Zg2]. split; try done.
  - split; try done. intros k b. cbn [agentPresences set_field].
    intros [[<- <-]|[_ ?]]%lookup_insert_Some; [done|by apply W2].
  - by apply (feeds_ok_same d2).
  - intros k w. cbn [agentWriters agentPresences set_field].
    intros [[<- <-]|[Hne Hw]]%lookup_insert_Some.
    + split; [by destruct send|]. exists a'. by rewrite lookup_insert_eq.
    + destruct (Wr2 k w Hw) as [? Hex]. split; [done|]. by rewrite lookup_insert_ne.
  - intros k b. cbn [agentWriters agentPresences nextAgentGeneration set_field].
    intros [[<- <-]|[Hne Hb]]%lookup_insert_Some.
    + rewrite lookup_insert_eq, C4. split; [done|]. simpl. unfold g. lia.
    + rewrite lookup_insert_ne by done. by apply Pr2.
  - cbn [agentWriters set_field]. rewrite C2. apply within_insert; [by apply Sz|].
    intros Hnone. unfold writer_of in Ec. fold id in Ec. rewrite Hnone in Ec. exact Ec.
Qed.

Lemma detach_inv lim e id g d :
  OrderOk e.(order) → edge_inv lim d → edge_inv lim (DetachAgent e id g d).1.1.
Proof.
  intros Ho Hi. unfold DetachAgent. destruct (agentPresences d !! id); [|done].
  destruct (_ || _); [done|]. destruct (drainDaemonBusiness e id d) as [d2 cl] eqn:Ed.
  destruct (drain_inv lim e id d d2 cl Ho Ed Hi) as [[W1 W2 W3] F2 Sg2 Wr2 Pr2 Nx2 Se2 Cl2 Zw2 Zs2 Zg2].
  split; try done; simpl.
  - split; try done. simpl. intros k b [_ ?]%lookup_delete_Some. by apply W2.
  - by apply (feeds_ok_same d2).
  - intros k w [Hne Hw]%lookup_delete_Some. destruct (Wr2 k w Hw) as [? Hex].
    split; [done|]. by rewrite lookup_delete_ne.
  - intros k b [Hne Hb]%lookup_delete_Some. rewrite lookup_delete_ne by done. by apply Pr2.
  - by apply within_delete.
Qed.

Lemma close_connection_inv lim id g d :
  edge_inv lim d → edge_inv lim (CloseAgentConnection id g d).1.1.
Proof.
  intros Hi. unfold CloseAgentConnection.
  destruct (agentWriters d !! id) as [w|] eqn:Ew; [|by unfold writer_of; rewrite Ew].
  assert (writer_of d id = w) as -> by (unfold writer_of; by rewrite Ew).
  destruct (aw_close w); [|done]. destruct (negb _); [done|].
  destruct Hi as [[] F2 Sg2 Wr2 Pr2 Nx2 Se2 Cl2 Zw2 Zs2 Zg2]. split; try done; simpl.
  - by apply (feeds_ok_same d).
  - intros k v [[<- <-]|[Hne Hv]]%lookup_insert_Some; [|by apply Wr2].
    destruct (Wr2 _ _ Ew) as [? Hex]. done.
  - intros k b Hb. destruct (Pr2 k b Hb) as [? ?]. split; [|done].
    destruct (decide (id = k)) as [<-|]; [by rewrite lookup_insert_eq|by rewrite lookup_insert_ne].
  - apply within_insert; [done|]. by rewrite Ew.
Qed.

Lemma remove_agent_inv lim id g d : edge_inv lim d → edge_inv lim (RemoveAgent id g d).1.
Proof.
  intros Hi. unfold RemoveAgent. destruct (agents d !! id) as [c|] eqn:E; [|done].
  destruct (Z.eqb_spec (ap_Generation c) g) as [<-|]; [|done]. simpl.
  assert (commit (AgentRemoved id (ap_Generation c)) (d <| agents := delete id (agents d) |>)
    = removeBusinessAgent id d) as -> by (unfold removeBusinessAgent; by rewrite E).
  by apply remove_business_inv.
Qed.

Lemma begin_signal_inv lim c id s d :
  edge_inv lim d → edge_inv lim (BeginAgentSignal lim c id s d).1.
Proof.
  intros Hi. unfold BeginAgentSignal. set (cid := TrimSpace c).
  destruct (_ || _ || _); [done|]. destruct (requireActiveDaemon _ _); [|done].
  destruct (pendingSignals d !! cid) eqn:E; [done|]. cbn [is_nil negb].
  destruct (size_ge _ _) eqn:Es; [done|].
  destruct (agents d !! TrimSpace id) as [ag|]; [|done]. destruct (_ || _); [done|].
  destruct Hi as [[] F2]. split; try done; simpl.
  - by apply (feeds_ok_same d).
  - unfold state_signals_ok. simpl. by apply signals_begin.
  - by apply within_insert.
Qed.

Lemma resolve_signal_inv lim id g ev d :
  edge_inv lim d → edge_inv lim (ResolveAgentSignal id g ev d).1.
Proof.
  intros Hi. unfold ResolveAgentSignal. destruct ev as [ev|]; [|done].
  destruct (signal_result _) as [[c s]|]; [|done].
  destruct (pendingSignals d !! c) as [p|] eqn:E; [|done]. destruct (_ || _ || _); [done|].
  destruct Hi as [[] F2]. split; try done; simpl.
  - by apply (feeds_ok_same d).
  - unfold state_signals_ok. rewrite !signal_trace_traced by done.
    rewrite <- app_assoc. by apply signals_resolve.
  - by apply within_delete.
Qed.

Lemma cancel_signal_inv lim c d : edge_inv lim d → edge_inv lim (CancelAgentSignal c d).
Proof.
  intros Hi. unfold CancelAgentSignal. destruct (pendingSignals d !! TrimSpace c) as [p|] eqn:E; [|done].
  destruct Hi as [[] F2]. split; try done; simpl.
  - by apply (feeds_ok_same d).
  - unfold state_signals_ok. rewrite signal_trace_traced by done. by apply signals_close.
  - by apply within_delete.
Qed.

Lemma attach_session_inv lim s close d :
  edge_inv lim d → edge_inv lim (AttachSession lim s close d).1.
Proof.
  intros Hi. unfold AttachSession. destruct (is_nil close); [done|]. destruct s as [s|]; [|done].
  destruct (NormalizeClone _) eqn:En; [|done]. apply normalize_session in En.
  destruct (requireActiveDaemon _ _); [|done]. destruct (is_nil _); [done|].
  destruct (from_option _ _ _); [done|]. destruct (is_nil _ && _) eqn:Ec; [done|]. cbn [fst].
  pose proof Hi as [[W1 W2 W3] F2 Sg2 Wr2 Pr2 Nx2 Se2 Cl2 Zw2 Zs2 Zg2].
  split; try done.
  - split; try done. simpl. intros k t [[<- <-]|[_ ?]]%lookup_insert_Some; [done|by apply W3].
  - apply (commit_feeds d); try done. unfold apply_delta. simpl. by rewrite Z.eqb_refl.
  - unfold state_signals_ok. rewrite commit_signal_trace. done.
  - simpl. intros k t [[<- <-]|[Hne Ht]]%lookup_insert_Some.
    + eexists. by rewrite lookup_insert_eq.
    + rewrite lookup_insert_ne by done. by apply Se2.
  - simpl. intros k t [[<- <-]|[Hne Ht]]%lookup_insert_Some.
    + by rewrite lookup_insert_eq.
    + rewrite lookup_insert_ne by done. by eapply Cl2.
  - simpl. apply within_insert; [done|]. intros Hn. by rewrite Hn in Ec.
Qed.

Lemma close_session_inv lim k g d : edge_inv lim d → edge_inv lim (CloseSession k g d).1.1.
Proof.
  intros Hi. unfold CloseSession. destruct (sessions d !! k) as [s|] eqn:Es; [|done].
  destruct (sc_close (closer_of d k)); [|done]. destruct (_ || _); [done|].
  destruct Hi as [[] F2 Sg2 Wr2 Pr2 Nx2 Se2 Cl2 Zw2 Zs2 Zg2].
  split; try done; simpl.
  - by apply (feeds_ok_same d).
  - intros k' t Ht. destruct (Se2 _ _ Ht) as (c & Hc & Hg).
    destruct (decide (k = k')) as [<-|]; [|rewrite lookup_insert_ne; eauto].
    exists ((closer_of d k) <| sc_close := None |>). rewrite lookup_insert_eq. split; [done|].
    unfold closer_of. by rewrite Hc.
  - intros k' c [[<- _]|[_ ?]]%lookup_insert_Some; [by rewrite Es|by eapply Cl2].
Qed.

Lemma remove_session_inv lim k g d : edge_inv lim d → edge_inv lim (RemoveSession k g d).1.
Proof.
  intros Hi. unfold RemoveSession. destruct (sessions d !! k) as [s|] eqn:Es; [|done].
  destruct (Z.eqb_spec (cs_Generation s) g) as [Hg|]; [|done]. cbn [negb fst].
  pose proof Hi as [[W1 W2 W3] F2 Sg2 Wr2 Pr2 Nx2 Se2 Cl2 Zw2 Zs2 Zg2].
  split; try done.
  - split; try done. simpl. intros k' t [_ ?]%lookup_delete_Some. by apply W3.
  - apply (commit_feeds d); try done. unfold apply_delta. simpl.
    by rewrite Z.eqb_refl, Es, Hg, Z.eqb_refl.
  - unfold state_signals_ok. rewrite commit_signal_trace. done.
  - simpl. intros k' t [Hne Ht]%lookup_delete_Some. rewrite lookup_delete_ne by done. by apply Se2.
  - simpl. intros k' c [Hne Ht]%lookup_delete_Some. rewrite lookup_delete_ne by done. by eapply Cl2.
  - simpl. by apply within_delete.
Qed.
