(* ===== verification/EdgeInv.v ===== *)
(** * Every request preserves the invariants of the Edge state

    [exec_inv]: [edge_inv] of [EdgeFacts] is an invariant of all requests.
    [exec_admitted]: what the Edge shows and accepts is backed by an attached connection
    of a daemon whose cached lifecycle state is ACTIVE. *)
From S2P Require Import Prelude GoStd Limiter EdgeState Relay EdgeWorld EdgeFacts.
Local Open Scope Z_scope.

(** ** Snapshots *)
Lemma check_agents_ok seen l :
  (∀ a, a ∈ l → validateAgent (Some a) = None) → NoDup (ap_DaemonId <$> l) →
  (∀ a, a ∈ l → a.(ap_DaemonId) ∉ seen) → check_agents seen l = None.
Proof.
  revert seen. induction l as [|a l IH]; intros seen Hv Hnd Hs; [done|].
  cbn [check_agents fmap list_fmap] in *. apply NoDup_cons in Hnd as [Ha Hnd].
  rewrite Hv by by left. rewrite bool_decide_false by (apply Hs; by left).
  apply IH; [|done|]; intros b Hb; [apply Hv; by right|].
  rewrite elem_of_union, elem_of_singleton. intros [Heq|Hin].
  - apply Ha. rewrite <- Heq. by apply list_elem_of_fmap_2.
  - by apply (Hs b); [right|].
Qed.

Lemma check_sessions_ok seen l :
  (∀ s, s ∈ l → validateSession (Some s) = None) → NoDup (cs_SessionId <$> l) →
  (∀ s, s ∈ l → s.(cs_SessionId) ∉ seen) → check_sessions seen l = None.
Proof.
  revert seen. induction l as [|a l IH]; intros seen Hv Hnd Hs; [done|].
  cbn [check_sessions fmap list_fmap] in *. apply NoDup_cons in Hnd as [Ha Hnd].
  rewrite Hv by by left. rewrite bool_decide_false by (apply Hs; by left).
  apply IH; [|done|]; intros b Hb; [apply Hv; by right|].
  rewrite elem_of_union, elem_of_singleton. intros [Heq|Hin].
  - apply Ha. rewrite <- Heq. by apply list_elem_of_fmap_2.
  - by apply (Hs b); [right|].
Qed.

(** The values of a map whose keys the values carry, in any order. *)
Section keyed.
Context {A : Type} (key : A → string) (m : gmap string A) (o : map_order).
Context (Ho : OrderOk o) (Hkey : ∀ k a, m !! k = Some a → key a = k).

Lemma values_keyed (l : list A) :
  l ≡ₚ (range o m).*2 → (λ a, (key a, a)) <$> l ≡ₚ map_to_list m.
Proof.
  intros ->. rewrite <- (range_perm o m) at 1. unfold range.
  assert (∀ L : list (string * A), (∀ p, p ∈ L → m !! p.1 = Some p.2) →
    (λ a, (key a, a)) <$> L.*2 = L) as HL.
  { induction L as [|[k a] L IH]; intros Hp; [done|]. cbn.
    rewrite (Hkey k a) by (apply (Hp (k, a)); by left). f_equal. apply IH.
    intros p Hp'. apply Hp. by right. }
  rewrite HL; [done|]. intros [k a] Hp. by apply (elem_of_range o) in Hp.
Qed.

Lemma values_nodup (l : list A) : l ≡ₚ (range o m).*2 → NoDup (key <$> l).
Proof.
  intros Hl%values_keyed. apply (fmap_Permutation fst) in Hl.
  rewrite <- list_fmap_compose in Hl. unfold compose in Hl. simpl in Hl. rewrite Hl.
  apply NoDup_fst_map_to_list.
Qed.

Lemma values_map (l : list A) :
  l ≡ₚ (range o m).*2 → list_to_map ((λ a, (key a, a)) <$> l) = m.
Proof.
  intros Hl. rewrite <- (list_to_map_to_list m). apply list_to_map_proper; [|by apply values_keyed].
  rewrite <- list_fmap_compose. by apply values_nodup.
Qed.

Lemma values_elem (l : list A) a : l ≡ₚ (range o m).*2 → a ∈ l → m !! key a = Some a.
Proof.
  intros -> ([k b] & -> & Hp)%list_elem_of_fmap. apply (elem_of_range o) in Hp. simpl.
  by rewrite (Hkey k b).
Qed.
End keyed.

(** A snapshot of a well-formed state succeeds, and shows the state. *)
Lemma snapshot_spec e d :
  OrderOk e.(order) → wf d →
  ∃ s, snapshot e d = Ok s ∧ view_of_snapshot s = view_of d ∧
    Sorted agent_before s.(rs_Agents) ∧ Sorted session_before s.(rs_Sessions).
Proof.
  intros Ho [W1 W2 W3]. unfold snapshot, NormalizeClone. cbn [rs_Agents rs_Sessions rs_Revision].
  set (A := merge_sort agent_before _). set (S := merge_sort session_before _).
  assert (A ≡ₚ (range e.(order) d.(agents)).*2) as HA by apply merge_sort_Permutation.
  assert (S ≡ₚ (range e.(order) d.(sessions)).*2) as HS by apply merge_sort_Permutation.
  assert (∀ k a, d.(agents) !! k = Some a → ap_DaemonId a = k) as KA by (intros; by eapply W1).
  assert (∀ k s, d.(sessions) !! k = Some s → cs_SessionId s = k) as KS by (intros; by eapply W3).
  rewrite check_agents_ok; [rewrite check_sessions_ok|..].
  - eexists. split; [done|]. unfold view_of_snapshot, view_of. cbn [rs_Agents rs_Sessions rs_Revision].
    rewrite (values_map ap_DaemonId d.(agents) e.(order) Ho KA A HA).
    rewrite (values_map cs_SessionId d.(sessions) e.(order) Ho KS S HS). split; [done|].
    split; apply Sorted_merge_sort; intros ??; unfold agent_before, session_before, string_le;
      apply String.leb_total.
  - intros s Hs. by eapply W3, (values_elem cs_SessionId d.(sessions) e.(order) Ho KS S).
  - by apply (values_nodup cs_SessionId d.(sessions) e.(order) Ho KS).
  - set_solver.
  - intros s Hs. by eapply W1, (values_elem ap_DaemonId d.(agents) e.(order) Ho KA A).
  - by apply (values_nodup ap_DaemonId d.(agents) e.(order) Ho KA).
  - set_solver.
Qed.

(** ** Feeds *)
Lemma open_feed_inv lim e d : OrderOk e.(order) → edge_inv lim d → edge_inv lim (OpenFeed e d).1.
Proof.
  intros Ho Hi. unfold OpenFeed. pose proof Hi as [W F].
  destruct (snapshot_spec e d Ho W) as (s & -> & Hs & _). cbn [fst].
  set (id := u64 _).
  apply (edge_inv_intro lim d); try done.
  - by destruct W.
  - destruct F as [Fo Fh]. split.
    + intros id' Hid. simpl in *. destruct (decide (id = id')) as [<-|Hne].
      * rewrite lookup_insert_eq. eexists. split; [done|].
        change (view_of _) with (view_of d). rewrite <- Hs. done.
      * rewrite lookup_insert_ne by done. apply Fo. set_solver.
    + simpl. intros id' f [[<- <-]|[Hne Hf]]%lookup_insert_Some; [|by apply (Fh id')].
      split; [by eexists|]. split; [done|]. unfold len. simpl. lia.
  - split; [done|apply Hi].
Qed.

Lemma unsubscribe_inv lim id d : edge_inv lim d → edge_inv lim (unsubscribe id d).
Proof.
  intros Hi. unfold unsubscribe. case_decide; [|done].
  apply edge_inv_traced; [done|]. pose proof Hi as [W [Fo Fh]].
  apply (edge_inv_intro lim d); try done.
  - by destruct W.
  - split; [|done]. intros id' Hid. apply Fo. simpl in Hid. by apply elem_of_difference in Hid as [? _].
  - split; [done|apply Hi].
Qed.

Lemma receive_inv lim id d : edge_inv lim d → edge_inv lim (receive id d).1.
Proof.
  intros Hi. unfold receive. destruct (feeds d !! id) as [f|] eqn:Ef; [|done].
  destruct (fd_queue f) as [|x q] eqn:Eq; [done|]. cbn [fst]. pose proof Hi as [W [Fo Fh]].
  apply (edge_inv_intro lim d); try done.
  - by destruct W.
  - split.
    + intros id' Hid. simpl in *. destruct (Fo id' Hid) as (f' & Hf' & Hr).
      destruct (decide (id = id')) as [<-|Hne]; [|exists f'; by rewrite lookup_insert_ne].
      rewrite lookup_insert_eq. eexists. split; [done|]. simpl. rewrite Ef in Hf'. by injection Hf' as <-.
    + simpl. intros id' g [[<- <-]|[Hne Hf]]%lookup_insert_Some; [|by apply (Fh id')].
      destruct (Fh id f Ef) as (Hr & Hq & Hl). rewrite Eq in Hq, Hl. simpl. split; [done|]. split.
      * destruct Hq as [k ->]. exists (k ++ [x]). by rewrite <- app_assoc.
      * unfold len in *. simpl in *. lia.
  - split; [done|apply Hi].
Qed.

(** ** Daemon states *)
Lemma set_daemons_inv lim r s d :
  edge_inv lim d → edge_inv lim (d <| daemonStates := s |> <| daemonStatesReady := r |>).
Proof. apply edge_inv_business. done. Qed.

Lemma daemon_snapshot_inv lim e daemons d :
  OrderOk e.(order) → edge_inv lim d → edge_inv lim (ApplyDaemonStateSnapshot e daemons d).1.1.
Proof.
  intros Ho Hi. unfold ApplyDaemonStateSnapshot. destruct (normalizeDaemonStateSnapshot _); [|done].
  apply (for_daemons_inv (edge_inv lim)); [|by apply set_daemons_inv].
  intros id d' Hd'. by apply reconcile_inv.
Qed.

Lemma daemon_delta_inv lim e daemon d :
  OrderOk e.(order) → edge_inv lim d → edge_inv lim (ApplyDaemonStateDelta e daemon d).1.1.
Proof.
  intros Ho Hi. unfold ApplyDaemonStateDelta. destruct (normalizeDaemonStateRecord _) as [r|]; [|done].
  destruct (negb _); [done|].
  assert (edge_inv lim (reconcileDaemonState e (ds_DaemonId r)
    (d <| daemonStates := <[ds_DaemonId r := r]> (daemonStates d) |>)).1) as H1.
  { apply reconcile_inv; [done|]. by apply (edge_inv_business lim d). }
  set (R := reconcileDaemonState _ _ _) in *. clearbody R. repeat case_match; done.
Qed.

Lemma invalidate_fold (I : stateData → Prop) e L d cl :
  (∀ id d, I d → I (drainDaemonBusiness e id d).1) → I d →
  I (fold_left (λ '(d, closers) w, let '(d, more) := invalidate_writer e w d in (d, closers ++ more))
       L (d, cl)).1.
Proof.
  intros HI. revert d cl. induction L as [|[id w] L IH]; intros d cl Hd; [done|].
  cbn [fold_left]. unfold invalidate_writer at 2. cbn [fst snd]. specialize (HI id d Hd).
  destruct (drainDaemonBusiness e id d) as [d1 cl1]. by apply IH.
Qed.

Lemma invalidate_inv lim e d :
  OrderOk e.(order) → edge_inv lim d → edge_inv lim (InvalidateDaemonStates e d).1.
Proof.
  intros Ho Hi. unfold InvalidateDaemonStates.
  apply (invalidate_fold (edge_inv lim)); [|by apply (edge_inv_business lim d)].
  intros id d' Hd'. destruct (drainDaemonBusiness e id d') eqn:E. by eapply drain_inv.
Qed.

Lemma lifecycle_inv lim id g res d :
  edge_inv lim d → edge_inv lim (ApplyDaemonLifecycleResult id g res d).1.1.
Proof.
  intros Hi. unfold ApplyDaemonLifecycleResult. destruct (daemonStates d !! id) as [c|]; [|done].
  destruct (agentPresences d !! id) as [p|] eqn:Ep; [|done]. destruct res as [r|]; [|done].
  destruct (_ || _ || _ || _ || _); [done|]. destruct (negb _); [done|].
  destruct (ds_State c); simpl; try done; [|by apply remove_business_inv..].
  apply publish_business_inv; [|done]. by destruct (wf_presences _ (ei_wf _ _ Hi) _ _ Ep).
Qed.

(** ** Relay requests leave the business state alone *)
Lemma relay_frame lim d d' : business d' = business d → edge_inv lim d → edge_inv lim d'.
Proof. apply edge_inv_business. Qed.

Definition relay_op (o : op) : bool :=
  match o with
  | ORegisterRelay _ _ | ORenewRelay _ _ | ORelayAuth _ _ | OReserveAllocation _ _ _
  | OActivateAllocation _ _ _ _ | OCancelAllocation _ | OSessionClose _ | OAllocationClose _
  | OCloseAllocation _ _ _ | OForgetGroup _ | OLimiter _ _ => true
  | _ => false
  end.

(** What a Relay request does not touch. *)
Definition not_relay (d : stateData) :=
  (business d, d.(agentClaims), d.(daemonStates), d.(daemonStatesReady)).

Lemma relay_op_business digest lim e o d :
  relay_op o = true → not_relay (exec digest lim e o d) = not_relay d.
Proof.
  destruct o; intros Hr; try discriminate Hr; cbn [exec];
    unfold RegisterRelayGrant, RenewRelayGrant, RelayAuth, ReserveRelayAllocation,
      ActivateRelayAllocation, CancelRelayAllocationReservation, BeginRelaySessionClose,
      BeginRelayAllocationClose, CloseRelayAllocation, ForgetRelayGroup;
    repeat first [reflexivity | case_match].
Qed.

Lemma exec_inv digest lim e o d :
  OrderOk e.(order) → op_ok o → edge_inv lim d → edge_inv lim (exec digest lim e o d).
Proof.
  intros Ho Hop Hi. destruct (relay_op o) eqn:Er.
  { apply (edge_inv_business lim d); [|done]. pose proof (relay_op_business digest lim e o d Er) as H.
    by apply (f_equal (λ x, x.1.1.1)) in H. }
  destruct o; try discriminate Er; cbn [exec].
  - by apply upsert_inv.
  - by apply attach_inv.
  - by apply detach_inv.
  - unfold SendAgentCommand. repeat case_match; first [done | by apply edge_inv_traced].
  - by apply close_connection_inv.
  - by apply remove_agent_inv.
  - by apply begin_signal_inv.
  - by apply resolve_signal_inv.
  - by apply cancel_signal_inv.
  - by apply attach_session_inv.
  - by apply close_session_inv.
  - by apply remove_session_inv.
  - by apply open_feed_inv.
  - by apply unsubscribe_inv.
  - by apply receive_inv.
  - by apply daemon_snapshot_inv.
  - by apply daemon_delta_inv.
  - by apply invalidate_inv.
  - by apply lifecycle_inv.
Qed.

Lemma new_state_inv lim buffer : edge_inv lim (new_state buffer).
Proof.
  split; try (intros ?; simpl; rewrite ?lookup_empty; done); try (unfold within; simpl; rewrite ?map_size_empty; lia).
  all: try (unfold MaxUint64; simpl; lia).
  - split; intros k a; simpl; by rewrite lookup_empty.
  - split; [intros id; simpl; set_solver|]. intros id f. simpl. by rewrite lookup_empty.
  - unfold state_signals_ok. simpl. split; try (intros ?; simpl; rewrite ?lookup_empty; done).
    intros ch [Hin|[ev Hin]]; by apply elem_of_nil in Hin.
Qed.

Lemma reaches_inv digest lim buffer ops d :
  reaches digest lim buffer ops d → edge_inv lim d.
Proof.
  intros Hr. eapply (steps_inv digest lim (λ _, True)); [|by apply Forall_true|apply new_state_inv|exact Hr].
  intros. by apply exec_inv.
Qed.

(** ** Admission *)
Definition active (d : stateData) (id : string) : Prop :=
  d.(daemonStatesReady) = true ∧ ∃ r, d.(daemonStates) !! id = Some r ∧ r.(ds_State) = ACTIVE.

(** Everything published, attached or pending belongs to the attached connection of an
    active daemon; the daemons of [todo] are still to be reconciled. *)
Record admitted (todo : list string) (d : stateData) : Prop := {
  ad_agent : ∀ id a, d.(agents) !! id = Some a →
    d.(agentPresences) !! id = Some a ∧ (id ∈ todo ∨ active d id);
  ad_session : ∀ k s, d.(sessions) !! k = Some s →
    is_Some (d.(agentPresences) !! s.(cs_DaemonId)) ∧
    (s.(cs_DaemonId) ∈ todo ∨ active d s.(cs_DaemonId));
  ad_signal : ∀ c p, d.(pendingSignals) !! c = Some p →
    (∃ a, d.(agentPresences) !! p.(ps_daemonID) = Some a ∧ a.(ap_Generation) = p.(ps_agentGeneration)) ∧
    (p.(ps_daemonID) ∈ todo ∨ active d p.(ps_daemonID)) }.

Definition admission (d : stateData) :=
  (d.(agents), d.(sessions), d.(agentPresences), d.(pendingSignals), d.(daemonStates),
   d.(daemonStatesReady)).

Lemma admitted_same todo d d' : admission d' = admission d → admitted todo d → admitted todo d'.
Proof.
  unfold admission. intros [= H1 H2 H3 H4 H5 H6] [A B C].
  split; unfold active; rewrite ?H1, ?H2, ?H3, ?H4, ?H5, ?H6; done.
Qed.

Definition daemon_clear (id : string) (d : stateData) : Prop :=
  d.(agents) !! id = None ∧ (∀ k s, d.(sessions) !! k = Some s → s.(cs_DaemonId) ≠ id) ∧
  ∀ c p, d.(pendingSignals) !! c = Some p → p.(ps_daemonID) ≠ id.

Lemma drained_admitted todo id d d' cl :
  drained id d d' cl → admitted (id :: todo) d → admitted todo d' ∧ daemon_clear id d'.
Proof.
  intros [D1 [C1 [_ [_ [_ [C5 [C6 _]]]]]]%core_fields D3 D4 D5 D6 D7 D8 D9] [A B C].
  assert (∀ i, active d i → active d' i) as Hact by (unfold active; by rewrite C5, C6).
  assert (∀ i, i ≠ id → i ∈ id :: todo ∨ active d i → i ∈ todo ∨ active d' i) as Hstep.
  { intros i Hne [[?|?]%elem_of_cons|?]; [done|by left|right; auto]. }
  assert (∀ c p, d'.(pendingSignals) !! c = Some p →
    d.(pendingSignals) !! c = Some p ∧ p.(ps_daemonID) ≠ id) as Hp.
  { intros c p [Hp Hn]%D7. split; [done|]. intros Hid. destruct (C c p Hp) as [(a & Ha & Hg) _].
    rewrite Hid in Ha. rewrite Ha in Hn. simpl in Hn. unfold cancels in Hn.
    by rewrite Hid, Hg, bool_decide_true, Z.eqb_refl in Hn by done. }
  split; split.
  - intros i a. rewrite D3, lookup_delete_Some, C1. intros [Hne Ha]. destruct (A i a Ha). auto.
  - intros k s [Hs Hne]%D4. rewrite C1. destruct (B k s Hs). auto.
  - intros c p [Hpd Hne]%Hp. rewrite C1. destruct (C c p Hpd). auto.
  - by rewrite D3, lookup_delete_eq.
  - split; [by intros k s [_ ?]%D4|by intros c p [_ ?]%Hp].
Qed.

Lemma drain_admitted lim e todo id d d' cl :
  OrderOk e.(order) → drainDaemonBusiness e id d = (d', cl) → edge_inv lim d →
  admitted (id :: todo) d → admitted todo d' ∧ daemon_clear id d' ∧ core d' = core d.
Proof.
  intros Ho Hd [] Ha.
  assert (drained id d d' cl) as Hdr by (by eapply drain_spec).
  destruct (drained_admitted todo id d d' cl Hdr Ha). split; [done|]. split; [done|]. apply Hdr.
Qed.

Lemma admitted_weaken todo todo' d :
  (∀ i, i ∈ todo → i ∈ todo') → admitted todo d → admitted todo' d.
Proof.
  intros Hi [A B C]. split.
  - intros i a Ha. destruct (A i a Ha) as [? []]; auto.
  - intros k s Hs. destruct (B k s Hs) as [? []]; auto.
  - intros c p Hp. destruct (C c p Hp) as [? []]; auto.
Qed.

Lemma remove_business_admitted todo id d :
  feeds_ok d → admitted todo d → admitted todo (removeBusinessAgent id d).
Proof.
  intros Hf [A B C]. destruct (remove_agent_spec id d Hf) as (_ & Hc & Ha & Hs & _ & _ & Hg).
  apply core_fields in Hc as (C1 & _ & _ & _ & C5 & C6 & _).
  unfold signal_part in Hg. injection Hg as Hg _ _.
  split; unfold active; rewrite ?Ha, ?Hs, ?Hg, ?C1, ?C5, ?C6; try done.
  intros i a [_ ?]%lookup_delete_Some. by apply A.
Qed.

Lemma reconcile_admitted lim e todo id d :
  OrderOk e.(order) → edge_inv lim d → d.(daemonStatesReady) = true →
  admitted (id :: todo) d →
  admitted todo (reconcileDaemonState e id d).1 ∧
  (reconcileDaemonState e id d).1.(daemonStatesReady) = true.
Proof.
  intros Ho Hi Hr Ha.
  assert (admitted todo (drainDaemonBusiness e id d).1 ∧
    (drainDaemonBusiness e id d).1.(daemonStatesReady) = true) as Hdr.
  { destruct (drainDaemonBusiness e id d) as [d1 cl] eqn:E.
    destruct (drain_admitted lim e todo id d d1 cl Ho E Hi Ha) as (H1 & _ & Hc).
    split; [done|]. simpl. apply core_fields in Hc as (_ & _ & _ & _ & _ & -> & _). done. }
  unfold reconcileDaemonState.
  destruct (daemonStates d !! id) as [p|] eqn:Ed; [|done].
  destruct (agentPresences d !! id) as [a|]; [|done].
  destruct (aw_send (writer_of d id)) as [s|]; [|done].
  destruct (negb _); [done|].
  destruct (if bool_decide (ds_State p = ACTIVE) then _ else _) as [d1 cl] eqn:E.
  assert (admitted todo d1 ∧ d1.(daemonStatesReady) = true) as [H1 H1r].
  { case_bool_decide as Hact; [|by rewrite E in Hdr].
    injection E as <- <-. pose proof Hi as [_ F].
    destruct (remove_agent_spec id d F) as (_ & [_ [_ [_ [_ [_ [C6 _]]]]]]%core_fields & _).
    rewrite C6. split; [|done]. apply remove_business_admitted; [done|].
    assert (∀ i, i ∈ id :: todo ∨ active d i → i ∈ todo ∨ active d i) as Hstep.
    { intros i [[->|?]%elem_of_cons|?]; auto. right. split; [done|]. by exists p. }
    destruct Ha as [A B C]. split.
    - intros i b Hb. destruct (A i b Hb). auto.
    - intros k t Ht. destruct (B k t Ht). auto.
    - intros c q Hq. destruct (C c q Hq). auto. }
  by destruct (negb _); split; try done; apply (admitted_same todo d1).
Qed.

(** Reconciling a list of daemons, with what is left of it as the argument of [P]. *)
Lemma for_daemons_ind (P : list string → stateData → Prop) f ids d cl :
  (∀ id rest d, P (id :: rest) d → P rest (f id d).1) → P ids d →
  P [] (for_daemons f (d, cl) ids).1.
Proof.
  intros Hf. unfold for_daemons. revert d cl. induction ids as [|id ids IH]; intros d cl Hd; [done|].
  simpl. destruct (f id d) as [d' more] eqn:E. apply IH. specialize (Hf id ids d Hd). by rewrite E in Hf.
Qed.

Lemma daemon_snapshot_admitted lim e daemons d :
  OrderOk e.(order) → edge_inv lim d → admitted [] d →
  admitted [] (ApplyDaemonStateSnapshot e daemons d).1.1.
Proof.
  intros Ho Hi [A B C]. unfold ApplyDaemonStateSnapshot.
  destruct (normalizeDaemonStateSnapshot _) as [states|]; [|done].
  set (d1 := d <| daemonStates := states |> <| daemonStatesReady := true |>).
  change (agentPresences d1) with (agentPresences d).
  assert (∀ id a, d.(agentPresences) !! id = Some a → id ∈ (range e.(order) d.(agentPresences)).*1) as Hr.
  { intros id a Ha. apply list_elem_of_fmap. exists (id, a). split; [done|]. by apply elem_of_range. }
  cbn [fst]. apply (for_daemons_ind (λ ids d, edge_inv lim d ∧ d.(daemonStatesReady) = true ∧ admitted ids d)).
  - intros id rest d' (H1 & H2 & H3). split; [by apply reconcile_inv|].
    destruct (reconcile_admitted lim e rest id d' Ho H1 H2 H3). done.
  - split; [by apply (edge_inv_business lim d)|]. split; [done|]. split.
    + intros id a Ha. destruct (A id a Ha) as [Hp _]. split; [done|]. left. by eapply Hr.
    + intros k s Hs. destruct (B k s Hs) as [[a Hp] _]. split; [by eexists|]. left. by eapply Hr.
    + intros c p Hp. destruct (C c p Hp) as [(a & Ha & Hg) _]. split; [by eexists|]. left. by eapply Hr.
Qed.

Lemma daemon_delta_admitted lim e daemon d :
  OrderOk e.(order) → edge_inv lim d → admitted [] d →
  admitted [] (ApplyDaemonStateDelta e daemon d).1.1.
Proof.
  intros Ho Hi Ha. unfold ApplyDaemonStateDelta. destruct (normalizeDaemonStateRecord _) as [r|]; [|done].
  destruct (daemonStatesReady d) eqn:Er; [|done]. cbn [negb].
  assert (admitted [] (reconcileDaemonState e (ds_DaemonId r)
    (d <| daemonStates := <[ds_DaemonId r := r]> (daemonStates d) |>)).1) as H1.
  { apply (reconcile_admitted lim); [done|by apply (edge_inv_business lim d)|done|].
    set (d1 := d <| daemonStates := _ |>). destruct Ha as [A B C].
    assert (∀ i, i ∈ @nil string ∨ active d i → i ∈ [ds_DaemonId r] ∨ active d1 i) as Hstep.
    { intros i [?%elem_of_nil|[_ (r' & Hr' & Hs)]]; [done|].
      destruct (decide (i = ds_DaemonId r)) as [->|Hne]; [left; by left|right].
      split; [done|]. exists r'. simpl. by rewrite lookup_insert_ne. }
    split; simpl.
    - intros i b Hb. destruct (A i b Hb). auto.
    - intros k t Ht. destruct (B k t Ht). auto.
    - intros c q Hq. destruct (C c q Hq). auto. }
  set (R := reconcileDaemonState _ _ _) in *. clearbody R. repeat case_match; done.
Qed.

Lemma invalidate_admitted lim e d :
  OrderOk e.(order) → edge_inv lim d → admitted [] d →
  admitted [] (InvalidateDaemonStates e d).1 ∧
  (InvalidateDaemonStates e d).1.(daemonStatesReady) = false ∧
  (InvalidateDaemonStates e d).1.(daemonStates) = ∅.
Proof.
  intros Ho Hi [A B C]. unfold InvalidateDaemonStates.
  set (d1 := d <| daemonStatesReady := false |> <| daemonStates := ∅ |>).
  change (agentWriters d1) with (agentWriters d).
  assert (edge_inv lim d1) as Hi1 by (by apply (edge_inv_business lim d)).
  assert (∀ id a, d.(agentPresences) !! id = Some a → id ∈ (range e.(order) d.(agentWriters)).*1) as Hr.
  { intros id a Ha. destruct (ei_presence _ _ Hi id a Ha) as [[w Hw] _].
    apply list_elem_of_fmap. exists (id, w). split; [done|]. by apply elem_of_range. }
  assert (admitted (range e.(order) d.(agentWriters)).*1 d1) as Ha1.
  { split.
    + intros id a Ha. destruct (A id a Ha) as [Hp _]. split; [done|]. left. by eapply Hr.
    + intros k s Hs. destruct (B k s Hs) as [[a Hp] _]. split; [by eexists|]. left. by eapply Hr.
    + intros c p Hp. destruct (C c p Hp) as [(a & Ha & Hg) _]. split; [by eexists|]. left. by eapply Hr. }
  assert (d1.(daemonStatesReady) = false ∧ d1.(daemonStates) = ∅) as Hs1 by done.
  revert Hi1 Ha1 Hs1. generalize d1, (range e.(order) d.(agentWriters)), (@nil Z). clear d1 Hr A B C Hi d.
  intros d L. revert d. induction L as [|[id w] L IH]; intros d cl Hi Ha Hs; [done|].
  cbn [fold_left fmap list_fmap fst]. unfold invalidate_writer at 2 4 6. cbn [fst snd].
  destruct (drainDaemonBusiness e id d) as [d2 cl2] eqn:E.
  destruct (drain_admitted lim e L.*1 id d d2 cl2 Ho E Hi Ha) as (Ha2 & _ & Hc).
  apply IH; [by eapply drain_inv|done|].
  apply core_fields in Hc as (_ & _ & _ & _ & -> & -> & _). done.
Qed.

Lemma admitted_insert_presence id a d :
  daemon_clear id d → admitted [] d →
  admitted [] (d <| agentPresences := <[id := a]> d.(agentPresences) |>).
Proof.
  intros (C1 & C2 & C3) [A B C]. split; simpl.
  - intros i b Hb. destruct (decide (id = i)) as [<-|]; [congruence|]. rewrite lookup_insert_ne by done. by apply A.
  - intros k s Hs. pose proof (C2 k s Hs). rewrite lookup_insert_ne by done. by apply (B k).
  - intros c p Hp. pose proof (C3 c p Hp). rewrite lookup_insert_ne by done. by apply (C c).
Qed.

Lemma admitted_delete_presence id d :
  daemon_clear id d → admitted [] d →
  admitted [] (d <| agentPresences := delete id d.(agentPresences) |>).
Proof.
  intros (C1 & C2 & C3) [A B C]. split; simpl.
  - intros i b Hb. destruct (decide (id = i)) as [<-|]; [congruence|]. rewrite lookup_delete_ne by done. by apply A.
  - intros k s Hs. pose proof (C2 k s Hs). rewrite lookup_delete_ne by done. by apply (B k).
  - intros c p Hp. pose proof (C3 c p Hp). rewrite lookup_delete_ne by done. by apply (C c).
Qed.

Lemma require_active_spec id d r :
  requireActiveDaemon id d = Ok r →
  d.(daemonStatesReady) = true ∧ d.(daemonStates) !! TrimSpace id = Some r ∧ r.(ds_State) = ACTIVE.
Proof.
  unfold requireActiveDaemon, requireDaemonState. destruct (daemonStatesReady d); [|done]. simpl.
  destruct (daemonStates d !! TrimSpace id) as [r'|]; [|done]. simpl.
  destruct (ds_State r') eqn:E; try done. by intros [= ->].
Qed.

Lemma lifecycle_admitted lim id g res d :
  edge_inv lim d → admitted [] d → admitted [] (ApplyDaemonLifecycleResult id g res d).1.1.
Proof.
  intros Hi Ha. unfold ApplyDaemonLifecycleResult. destruct (daemonStates d !! id) as [c|] eqn:Ec; [|done].
  destruct (agentPresences d !! id) as [p|] eqn:Ep; [|done]. destruct res as [r|]; [|done].
  destruct (_ || _ || _ || _ || _) eqn:Eg; [done|].
  destruct (daemonStatesReady d) eqn:Er; [|by simpl in Eg].
  destruct (dl_Applied r); cbn [negb]; [|done]. pose proof Hi as [_ F].
  destruct (ds_State c) eqn:Es; simpl; try done; [|by apply remove_business_admitted..].
  destruct (wf_presences _ (ei_wf _ _ Hi) _ _ Ep) as [Hid _].
  destruct (publish_agent_spec p d F) as (_ & Hc & Hag & Hs & _ & _ & Hg).
  apply core_fields in Hc as (C1 & _ & _ & _ & C5 & C6 & _).
  unfold signal_part in Hg. injection Hg as Hg _ _. destruct Ha as [A B C].
  split; unfold active; rewrite ?Hag, ?Hs, ?Hg, ?C1, ?C5, ?C6; try done.
  intros i a [[<- <-]|[_ ?]]%lookup_insert_Some; [|by apply A].
  rewrite Hid. split; [done|]. right. split; [done|]. by exists c.
Qed.

Lemma attach_agent_admitted lim e agent claims send close d :
  OrderOk e.(order) → edge_inv lim d → admitted [] d →
  admitted [] (AttachAuthenticatedAgent e lim agent claims send close d).1.1.
Proof.
  intros Ho Hi Ha. unfold AttachAuthenticatedAgent.
  destruct agent as [a|]; [|done]. destruct claims as [c|]; [|done].
  destruct (_ || _ || _); [done|]. destruct (is_nil send || is_nil close); [done|].
  destruct (requireDaemonState _ _); [|done]. destruct (_ && _); [done|].
  destruct (Z.eqb_spec (nextAgentGeneration d) MaxUint64) as [|Hlt]; [done|].
  pose proof (ei_next _ _ Hi) as Hn. unfold MaxUint64 in Hlt, Hn.
  rewrite u64_small by lia. destruct (NormalizeClone _); [|done].
  set (g := nextAgentGeneration d + 1). set (id := ap_DaemonId (a <| ap_Generation := g |>)).
  set (d1 := d <| nextAgentGeneration := g |>).
  destruct (drainDaemonBusiness e id d1) as [d2 cl] eqn:Ed. cbn [fst].
  assert (edge_inv lim d1) as Hi1 by (apply next_inv; [done|unfold g, MaxUint64; lia]).
  destruct (drain_admitted lim e [] id d1 d2 cl Ho Ed Hi1) as (H1 & H2 & _).
  { apply (admitted_weaken []); [by intros i ?%elem_of_nil|]. by apply (admitted_same [] d). }
  apply (admitted_same [] (d2 <| agentPresences :=
    <[id := a <| ap_Generation := g |>]> d2.(agentPresences) |>)); [done|].
  by apply admitted_insert_presence.
Qed.

Lemma exec_admitted digest lim e o d :
  OrderOk e.(order) → op_ok o → op_prod o → edge_inv lim d → admitted [] d →
  admitted [] (exec digest lim e o d).
Proof.
  intros Ho Hop Hpr Hi Ha. destruct (relay_op o) eqn:Er.
  { apply (admitted_same [] d); [|done]. pose proof (relay_op_business digest lim e o d Er) as H.
    unfold not_relay, business, feed_part, signal_part in H. unfold admission. congruence. }
  assert (∀ d', admission d' = admission d → admitted [] d') as Hsame
    by (intros d' H; by apply (admitted_same [] d)).
  destruct o; try discriminate Er; try done; cbn [exec].
  - by apply (attach_agent_admitted lim).
  - unfold DetachAgent. destruct (agentPresences d !! _); [|done]. destruct (_ || _); [done|].
    destruct (drainDaemonBusiness e daemonID d) as [d2 cl] eqn:Ed. cbn [fst].
    destruct (drain_admitted lim e [] daemonID d d2 cl Ho Ed Hi) as (H1 & H2 & _).
    { apply (admitted_weaken []); [by intros i ?%elem_of_nil|done]. }
    apply (admitted_same [] (d2 <| agentPresences := delete daemonID d2.(agentPresences) |>)); [done|].
    by apply admitted_delete_presence.
  - unfold SendAgentCommand. repeat case_match; by apply Hsame.
  - unfold CloseAgentConnection. repeat case_match; by apply Hsame.
  - unfold RemoveAgent. repeat case_match; try done. destruct Ha as [A B C]. split; try done.
    simpl. intros i b [_ ?]%lookup_delete_Some. by apply A.
  - unfold BeginAgentSignal. destruct (_ || _ || _); [done|]. destruct (requireActiveDaemon _ _); [|done].
    destruct (negb _); [done|]. destruct (size_ge _ _); [done|].
    destruct (agents d !! _) as [ag|] eqn:Eag; [|done]. destruct (_ || _); [done|]. cbn [fst].
    destruct Ha as [A B C]. split; try done. simpl. intros c p [[<- <-]|[_ ?]]%lookup_insert_Some; [|by apply (C c)].
    simpl. destruct (A _ _ Eag) as [Hp [?%elem_of_nil|Hac]]; [done|]. split; [by eexists|by right].
  - unfold ResolveAgentSignal. repeat case_match; try done. destruct Ha as [A B C]. split; try done.
    simpl. intros c q [_ ?]%lookup_delete_Some. by apply (C c).
  - unfold CancelAgentSignal. repeat case_match; try done. destruct Ha as [A B C]. split; try done.
    simpl. intros c q [_ ?]%lookup_delete_Some. by apply (C c).
  - unfold AttachSession. destruct (is_nil close); [done|]. destruct session as [s|]; [|done].
    destruct (NormalizeClone _); [|done]. destruct (requireActiveDaemon _ _); [|done].
    destruct (agents d !! _) as [ag|] eqn:Eag; [|done]. cbn [is_nil]. destruct (from_option _ _ _); [done|].
    destruct (_ && _); [done|]. cbn [fst]. destruct Ha as [A B C]. split; try done.
    simpl. intros k t [[<- <-]|[_ ?]]%lookup_insert_Some; [|by apply (B k)].
    destruct (A _ _ Eag) as [Hp [?%elem_of_nil|Hac]]; [done|]. split; [by eexists|by right].
  - unfold CloseSession. repeat case_match; by apply Hsame.
  - unfold RemoveSession. repeat case_match; try done. destruct Ha as [A B C]. split; try done.
    simpl. intros k t [_ ?]%lookup_delete_Some. by apply (B k).
  - unfold OpenFeed. repeat case_match; by apply Hsame.
  - unfold unsubscribe. case_decide; by apply Hsame.
  - unfold receive. repeat case_match; by apply Hsame.
  - by apply (daemon_snapshot_admitted lim).
  - by apply (daemon_delta_admitted lim).
  - by apply (invalidate_admitted lim).
  - by apply (lifecycle_admitted lim).
Qed.

Lemma reaches_admitted digest lim buffer ops d :
  reaches digest lim buffer ops d → Forall op_prod ops → admitted [] d.
Proof.
  intros Hr Hp.
  enough (edge_inv lim d ∧ admitted [] d) by tauto.
  eapply (steps_inv digest lim op_prod (λ d, edge_inv lim d ∧ admitted [] d)); [|done| |exact Hr].
  - intros e o d' Ho Hop Hpr [H1 H2]. split; [by apply exec_inv|by apply exec_admitted].
  - split; [apply new_state_inv|]. split; intros ??; simpl; by rewrite lookup_empty.
Qed.

(** ** What never decreases, and what never changes *)
Definition grows (d d' : stateData) : Prop :=
  d.(nextAgentGeneration) ≤ d'.(nextAgentGeneration) ∧ d'.(deltaBuffer) = d.(deltaBuffer).

Lemma grows_core d d' : core d' = core d → grows d d'.
Proof. intros (_ & _ & _ & H4 & _ & _ & _ & _ & _ & H10)%core_fields. split; [lia|done]. Qed.
Lemma grows_trans d1 d2 d3 : grows d1 d2 → grows d2 d3 → grows d1 d3.
Proof. intros [] []. split; [lia|congruence]. Qed.

Lemma drain_grows lim e id d d' cl :
  OrderOk e.(order) → drainDaemonBusiness e id d = (d', cl) → edge_inv lim d → grows d d'.
Proof. intros Ho Hd []. apply grows_core. by eapply drain_spec. Qed.

Lemma reconcile_grows lim e id d :
  OrderOk e.(order) → edge_inv lim d → grows d (reconcileDaemonState e id d).1.
Proof.
  intros Ho Hi.
  assert (grows d (drainDaemonBusiness e id d).1) as Hdr
    by (destruct (drainDaemonBusiness e id d) eqn:E; by eapply drain_grows).
  unfold reconcileDaemonState.
  destruct (daemonStates d !! id) as [p|] eqn:Ed; [|done].
  destruct (agentPresences d !! id) as [a|]; [|done].
  destruct (aw_send (writer_of d id)) as [s|]; [|done]. destruct (negb _); [done|].
  destruct (if bool_decide (ds_State p = ACTIVE) then _ else _) as [d1 cl] eqn:E.
  assert (grows d d1) as H1; [|by destruct (negb _)].
  case_bool_decide; [|by rewrite E in Hdr]. injection E as <- <-.
  apply grows_core. destruct Hi as [_ F]. by apply remove_agent_spec.
Qed.

Lemma exec_grows digest lim e o d :
  OrderOk e.(order) → op_ok o → edge_inv lim d → grows d (exec digest lim e o d).
Proof.
  intros Ho Hop Hi. assert (grows d d) as Hrefl by (split; [lia|done]).
  assert (∀ d', d'.(nextAgentGeneration) = d.(nextAgentGeneration) → d'.(deltaBuffer) = d.(deltaBuffer) →
    grows d d') as Heq by (intros d' ? ?; split; [lia|done]).
  destruct (relay_op o) eqn:Er.
  { pose proof (relay_op_business digest lim e o d Er) as H.
    unfold not_relay, business, feed_part in H. apply Heq; congruence. }
  destruct o; try discriminate Er; cbn [exec].
  - unfold UpsertAgent. repeat (case_match; simpl; try done); split; try done; simpl; lia.
  - unfold AttachAuthenticatedAgent.
    destruct agent as [a|]; [|done]. destruct claims as [c|]; [|done].
    destruct (_ || _ || _); [done|]. destruct (is_nil send || is_nil close); [done|].
    destruct (requireDaemonState _ _); [|done]. destruct (_ && _); [done|].
    destruct (Z.eqb_spec (nextAgentGeneration d) MaxUint64) as [|Hlt]; [done|].
    pose proof (ei_next _ _ Hi) as Hn. unfold MaxUint64 in Hlt, Hn.
    rewrite u64_small by lia. destruct (NormalizeClone _); [|done].
    set (g := nextAgentGeneration d + 1). set (id := ap_DaemonId (a <| ap_Generation := g |>)).
    set (d1 := d <| nextAgentGeneration := g |>).
    destruct (drainDaemonBusiness e id d1) as [d2 cl] eqn:Ed. cbn [fst].
    apply (grows_trans d d1); [split; [simpl; lia|done]|].
    apply (grows_trans d1 d2); [|split; [simpl; lia|done]].
    eapply drain_grows; [done|exact Ed|]. apply next_inv; [done|unfold g, MaxUint64; lia].
  - unfold DetachAgent. destruct (agentPresences d !! _); [|done]. destruct (_ || _); [done|].
    destruct (drainDaemonBusiness e daemonID d) as [d2 cl] eqn:Ed.
    apply (grows_trans d d2); [by eapply drain_grows|split; [simpl; lia|done]].
  - unfold SendAgentCommand. repeat case_match; by apply Heq.
  - unfold CloseAgentConnection. repeat case_match; by apply Heq.
  - unfold RemoveAgent. repeat case_match; by apply Heq.
  - unfold BeginAgentSignal. repeat case_match; by apply Heq.
  - unfold ResolveAgentSignal. repeat case_match; by apply Heq.
  - unfold CancelAgentSignal. repeat case_match; by apply Heq.
  - unfold AttachSession. repeat case_match; by apply Heq.
  - unfold CloseSession. repeat case_match; by apply Heq.
  - unfold RemoveSession. repeat case_match; by apply Heq.
  - unfold OpenFeed. repeat case_match; by apply Heq.
  - unfold unsubscribe. case_decide; by apply Heq.
  - unfold receive. repeat case_match; by apply Heq.
  - unfold ApplyDaemonStateSnapshot. destruct (normalizeDaemonStateSnapshot _) as [st|]; [|done].
    apply (for_daemons_inv (λ d', edge_inv lim d' ∧ grows d d')).
    + intros id d' [H1 H2]. split; [by apply reconcile_inv|]. eapply grows_trans; [done|].
      by eapply reconcile_grows.
    + split; [by apply (edge_inv_business lim d)|by apply Heq].
  - unfold ApplyDaemonStateDelta. destruct (normalizeDaemonStateRecord _) as [r|]; [|done].
    destruct (negb _); [done|].
    assert (grows d (reconcileDaemonState e (ds_DaemonId r)
      (d <| daemonStates := <[ds_DaemonId r := r]> (daemonStates d) |>)).1) as H1.
    { eapply grows_trans; [|eapply reconcile_grows; [done|by apply (edge_inv_business lim d)]].
      by apply Heq. }
    set (R := reconcileDaemonState _ _ _) in *. clearbody R. repeat case_match; done.
  - unfold InvalidateDaemonStates.
    apply (invalidate_fold (λ d', edge_inv lim d' ∧ grows d d')).
    + intros id d' [H1 H2]. destruct (drainDaemonBusiness e id d') eqn:E. split; [by eapply drain_inv|].
      eapply grows_trans; [done|]. by eapply drain_grows.
    + split; [by apply (edge_inv_business lim d)|by apply Heq].
  - unfold ApplyDaemonLifecycleResult. pose proof Hi as [_ F].
    repeat case_match; try done; apply grows_core; by (apply remove_agent_spec || apply publish_agent_spec).
Qed.

Lemma steps_grows digest lim d0 ops d :
  edge_inv lim d0 → steps digest lim d0 ops d → edge_inv lim d ∧ grows d0 d.
Proof.
  intros Hi Hs.
  eapply (steps_inv digest lim (λ _, True) (λ d, edge_inv lim d ∧ grows d0 d));
    [|by apply Forall_true| |exact Hs]; [|split; [done|split; [lia|done]]].
  intros e o d' Ho Hop _ [H1 H2]. split; [by apply exec_inv|].
  eapply grows_trans; [done|]. by apply exec_grows.
Qed.
