(* ===== verification/RelayFacts.v ===== *)
(** * Invariants of the Relay reservation groups

    The counters of a group are the number of its pending, active and closing
    allocations, a credential names an open group of its own, and the live objects stay
    within [MaxLiveRelayObjects]. Every request preserves [relay_inv]. *)
From S2P Require Import Prelude GoStd Limiter EdgeState Relay EdgeWorld EdgeFacts EdgeInv.
Local Open Scope Z_scope.

(** ** Counting *)
Definition ind (b : bool) : Z := if b then 1 else 0.
Definition pending_of (id : string) (d : stateData) : Z :=
  msum (λ p, ind (String.eqb p.(pa_groupID) id)) d.(relayPending).
Definition active_of (id : string) (d : stateData) : Z :=
  msum (λ a, ind (String.eqb a.(al_groupID) id && negb a.(al_closing))) d.(allocations).
Definition closing_of (id : string) (d : stateData) : Z :=
  msum (λ a, ind (String.eqb a.(al_groupID) id && a.(al_closing))) d.(allocations).

Record counts_ok (id : string) (g : relayGroup) (d : stateData) : Prop := {
  co_pending : g.(gr_pending) = pending_of id d;
  co_active : g.(gr_active) = active_of id d;
  co_closing : g.(gr_closeActive) = closing_of id d;
  co_max : g.(gr_pending) + g.(gr_active) + g.(gr_closeActive) ≤ MaxPhysicalAllocationsPerReservation;
  co_ingress : 0 ≤ g.(gr_ingress) ≤ MaxUint64;
  co_egress : 0 ≤ g.(gr_egress) ≤ MaxUint64 }.

Record relay_inv (d : stateData) : Prop := {
  ri_counts : ∀ id g, d.(relayGroups) !! id = Some g → counts_ok id g d;
  ri_pending : ∀ k p, d.(relayPending) !! k = Some p → is_Some (d.(relayGroups) !! p.(pa_groupID));
  ri_alloc : ∀ k a, d.(allocations) !! k = Some a → is_Some (d.(relayGroups) !! a.(al_groupID));
  ri_live : liveRelayObjects d ≤ MaxLiveRelayObjects;
  ri_auth : ∀ u r, d.(relayAuth) !! u = Some r →
    ∃ g, d.(relayGroups) !! r = Some g ∧ g.(gr_username) = u ∧ g.(gr_closing) = false }.

Definition relay_state (d : stateData) :=
  (d.(relayGroups), d.(relayAuth), d.(relayPending), d.(allocations)).

Lemma relay_inv_same d d' : relay_state d' = relay_state d → relay_inv d → relay_inv d'.
Proof.
  unfold relay_state. intros [= H1 H2 H3 H4] [A B C D E].
  split; unfold liveRelayObjects in *; rewrite ?H1, ?H2, ?H3, ?H4; try done.
  intros id g Hg. destruct (A id g Hg). split; unfold pending_of, active_of, closing_of; by rewrite ?H3, ?H4.
Qed.

Lemma ind_nonneg b : 0 ≤ ind b.
Proof. destruct b; simpl; lia. Qed.
Lemma pending_of_nonneg id d : 0 ≤ pending_of id d.
Proof. apply msum_nonneg. intros. apply ind_nonneg. Qed.
Lemma active_of_nonneg id d : 0 ≤ active_of id d.
Proof. apply msum_nonneg. intros. apply ind_nonneg. Qed.
Lemma closing_of_nonneg id d : 0 ≤ closing_of id d.
Proof. apply msum_nonneg. intros. apply ind_nonneg. Qed.

(** The counters are small. *)
Lemma counts_bounds id g d : counts_ok id g d →
  0 ≤ g.(gr_pending) ≤ 4 ∧ 0 ≤ g.(gr_active) ≤ 4 ∧ 0 ≤ g.(gr_closeActive) ≤ 4 ∧
  g.(gr_pending) + g.(gr_active) + g.(gr_closeActive) ≤ 4.
Proof.
  intros [H1 H2 H3 H4]. pose proof (pending_of_nonneg id d). pose proof (active_of_nonneg id d).
  pose proof (closing_of_nonneg id d). unfold MaxPhysicalAllocationsPerReservation in H4. lia.
Qed.

(** An entry of the tables is counted. *)
Lemma pending_counted d k p :
  d.(relayPending) !! k = Some p → 1 ≤ pending_of p.(pa_groupID) d.
Proof.
  intros Hk. pose proof (msum_elem_le (λ q, ind (String.eqb q.(pa_groupID) p.(pa_groupID))) _ k p
    (λ i x _, ind_nonneg _) Hk) as H. simpl in H. rewrite String.eqb_refl in H. exact H.
Qed.
Lemma active_counted d k a :
  d.(allocations) !! k = Some a → a.(al_closing) = false → 1 ≤ active_of a.(al_groupID) d.
Proof.
  intros Hk Hc. pose proof (msum_elem_le
    (λ b, ind (String.eqb b.(al_groupID) a.(al_groupID) && negb b.(al_closing))) _ k a
    (λ i x _, ind_nonneg _) Hk) as H. simpl in H. rewrite String.eqb_refl, Hc in H. exact H.
Qed.
Lemma closing_counted d k a :
  d.(allocations) !! k = Some a → a.(al_closing) = true → 1 ≤ closing_of a.(al_groupID) d.
Proof.
  intros Hk Hc. pose proof (msum_elem_le
    (λ b, ind (String.eqb b.(al_groupID) a.(al_groupID) && b.(al_closing))) _ k a
    (λ i x _, ind_nonneg _) Hk) as H. simpl in H. rewrite String.eqb_refl, Hc in H. exact H.
Qed.

(** ** Closing groups *)
Lemma close_auth_lookup (P : relayGroup → bool) (m : gmap string relayGroup)
    (auth : gmap string string) u r :
  map_fold (λ _ g auth, if P g then delete g.(gr_username) auth else auth) auth m !! u = Some r ↔
  auth !! u = Some r ∧ ∀ k g, m !! k = Some g → P g = true → g.(gr_username) ≠ u.
Proof.
  apply (map_fold_weak_ind (λ (acc : gmap string string) m, acc !! u = Some r ↔
    auth !! u = Some r ∧ ∀ k g, m !! k = Some g → P g = true → g.(gr_username) ≠ u)).
  { split; [|by intros []]. intros H. split; [done|]. intros k g. by rewrite lookup_empty. }
  clear m. intros k g m acc Hk IH.
  assert ((∀ k' g', <[k:=g]> m !! k' = Some g' → P g' = true → g'.(gr_username) ≠ u) ↔
     (P g = true → g.(gr_username) ≠ u) ∧
     ∀ k' g', m !! k' = Some g' → P g' = true → g'.(gr_username) ≠ u) as ->.
  { split.
    - intros Hall. split; [apply (Hall k); by rewrite lookup_insert_eq|].
      intros k' g' Hk'. apply (Hall k'). rewrite lookup_insert_ne; [done|]. intros ->. congruence.
    - intros [Hg Hall] k' g' [[<- <-]|[_ ?]]%lookup_insert_Some; [done|by eapply Hall]. }
  destruct (P g) eqn:E; [|rewrite IH; naive_solver].
  rewrite lookup_delete_Some, IH. naive_solver.
Qed.

Lemma close_groups_inv P d : relay_inv d → relay_inv (close_groups P d).
Proof.
  intros [A B C D E]. unfold close_groups. split; simpl.
  - intros id g. rewrite lookup_fmap_Some. intros (g0 & <- & Hg0). destruct (A id g0 Hg0).
    destruct (P g0); split; done.
  - intros k p Hp. rewrite lookup_fmap. destruct (B k p Hp) as [g ->]. by eexists.
  - intros k a Ha. rewrite lookup_fmap. destruct (C k a Ha) as [g ->]. by eexists.
  - unfold liveRelayObjects in *. simpl. by rewrite map_size_fmap.
  - intros u r [Hu Hall]%close_auth_lookup. destruct (E u r Hu) as (g & Hg & Hgu & Hc).
    exists g. rewrite lookup_fmap, Hg. cbn [fmap option_fmap option_map].
    destruct (P g) eqn:HP; [|done]. exfalso. by apply (Hall r g).
Qed.

(** ** One group changes *)
Lemma relay_update d d' gid g g' :
  relay_inv d → d.(relayGroups) !! gid = Some g →
  d'.(relayGroups) = <[gid := g']> d.(relayGroups) → d'.(relayAuth) = d.(relayAuth) →
  g'.(gr_username) = g.(gr_username) → g'.(gr_closing) = g.(gr_closing) →
  counts_ok gid g' d' →
  (∀ id, id ≠ gid → pending_of id d' = pending_of id d ∧ active_of id d' = active_of id d ∧
    closing_of id d' = closing_of id d) →
  (∀ k p, d'.(relayPending) !! k = Some p → is_Some (d.(relayGroups) !! p.(pa_groupID))) →
  (∀ k a, d'.(allocations) !! k = Some a → is_Some (d.(relayGroups) !! a.(al_groupID))) →
  liveRelayObjects d' ≤ MaxLiveRelayObjects →
  relay_inv d'.
Proof.
  intros [A B C D E] Hg HG HA Hu Hcl Hc Ho Hp Ha Hl.
  assert (∀ id, is_Some (d.(relayGroups) !! id) → is_Some (d'.(relayGroups) !! id)) as Hsome.
  { intros id Hid. rewrite HG. destruct (decide (gid = id)) as [<-|Hne];
      [by rewrite lookup_insert_eq|by rewrite lookup_insert_ne]. }
  split; try done; eauto.
  - intros id h. rewrite HG. intros [[<- <-]|[Hne Hh]]%lookup_insert_Some; [done|].
    destruct (A id h Hh) as [A1 A2 A3 A4 A5 A6]. destruct (Ho id) as (O1 & O2 & O3); [done|].
    split; congruence.
  - intros u r. rewrite HA. intros Hr. destruct (E u r Hr) as (h & Hh & Hhu & Hhc).
    rewrite HG. destruct (decide (gid = r)) as [<-|Hne].
    + rewrite lookup_insert_eq. exists g'. split; [done|].
      assert (h = g) as -> by congruence. by rewrite Hu, Hcl.
    + rewrite lookup_insert_ne by done. by exists h.
Qed.

Lemma ind_other (x gid id : string) b : x = gid → id ≠ gid → ind (String.eqb x id && b) = 0.
Proof. intros -> Hne. destruct (String.eqb_spec gid id); [congruence|done]. Qed.
Lemma ind_other' (x gid id : string) : x = gid → id ≠ gid → ind (String.eqb x id) = 0.
Proof. intros -> Hne. destruct (String.eqb_spec gid id); [congruence|done]. Qed.
Lemma ind_same x b : ind (String.eqb x x && b) = ind b.
Proof. by rewrite String.eqb_refl. Qed.
Lemma ind_same' x : ind (String.eqb x x) = 1.
Proof. by rewrite String.eqb_refl. Qed.

(** How the tables of the state change the counts. *)
Lemma pending_insert d d' k p :
  d.(relayPending) !! k = None → d'.(relayPending) = <[k := p]> d.(relayPending) →
  ∀ id, pending_of id d' = ind (String.eqb p.(pa_groupID) id) + pending_of id d.
Proof. intros Hk Hd id. unfold pending_of. rewrite Hd. by rewrite msum_insert_fresh. Qed.
Lemma pending_delete d d' k p :
  d.(relayPending) !! k = Some p → d'.(relayPending) = delete k d.(relayPending) →
  ∀ id, pending_of id d' = pending_of id d - ind (String.eqb p.(pa_groupID) id).
Proof.
  intros Hk Hd id. unfold pending_of. rewrite Hd. rewrite (msum_delete _ _ k p Hk). simpl. lia.
Qed.
Lemma allocation_counts d d' :
  d'.(allocations) = d.(allocations) → ∀ id, active_of id d' = active_of id d ∧ closing_of id d' = closing_of id d.
Proof. intros Hd id. unfold active_of, closing_of. by rewrite Hd. Qed.
Lemma allocation_insert d d' k a :
  d.(allocations) !! k = None → d'.(allocations) = <[k := a]> d.(allocations) →
  ∀ id, active_of id d' = ind (String.eqb a.(al_groupID) id && negb a.(al_closing)) + active_of id d ∧
    closing_of id d' = ind (String.eqb a.(al_groupID) id && a.(al_closing)) + closing_of id d.
Proof. intros Hk Hd id. unfold active_of, closing_of. rewrite Hd. by rewrite !msum_insert_fresh. Qed.
Lemma allocation_delete d d' k a :
  d.(allocations) !! k = Some a → d'.(allocations) = delete k d.(allocations) →
  ∀ id, active_of id d' = active_of id d - ind (String.eqb a.(al_groupID) id && negb a.(al_closing)) ∧
    closing_of id d' = closing_of id d - ind (String.eqb a.(al_groupID) id && a.(al_closing)).
Proof.
  intros Hk Hd id. unfold active_of, closing_of. rewrite Hd.
  rewrite (msum_delete (λ a, ind (_ && negb _)) _ k a Hk), (msum_delete (λ a, ind (_ && al_closing _)) _ k a Hk).
  simpl. lia.
Qed.
Lemma allocation_replace d d' k a a' :
  d.(allocations) !! k = Some a → d'.(allocations) = <[k := a']> d.(allocations) →
  ∀ id, active_of id d' = active_of id d - ind (String.eqb a.(al_groupID) id && negb a.(al_closing))
                          + ind (String.eqb a'.(al_groupID) id && negb a'.(al_closing)) ∧
    closing_of id d' = closing_of id d - ind (String.eqb a.(al_groupID) id && a.(al_closing))
                          + ind (String.eqb a'.(al_groupID) id && a'.(al_closing)).
Proof.
  intros Hk Hd id. unfold active_of, closing_of. rewrite Hd. split; by rewrite (msum_insert _ _ k a a' Hk).
Qed.

(** The arithmetic of a group's counters does not wrap. *)
Ltac small_counters :=
  repeat match goal with
  | |- context [u32 ?z] => rewrite (u32_small z) by lia
  | |- context [u64 ?z] => rewrite (u64_small z) by lia
  end.

(** ** The operations *)
Lemma reserve_inv p u t d : relay_inv d → relay_inv (ReserveRelayAllocation p u t d).1.
Proof.
  intros Hi. unfold ReserveRelayAllocation. set (pid := TrimSpace p). set (user := TrimSpace u).
  destruct (_ || _); [done|]. destruct (relayPending d !! pid) eqn:Ep; [done|].
  destruct (relayGroups d !! _) as [g|] eqn:Eg; [|done]. set (gid := default _ _) in *.
  destruct (negb _); [done|]. destruct (_ >=? MaxPhysicalAllocationsPerReservation) eqn:Em; [done|].
  destruct (_ >=? MaxLiveRelayObjects) eqn:El; [done|]. cbn [fst].
  pose proof (ri_counts _ Hi gid g Eg) as Hc. pose proof (counts_bounds _ _ _ Hc) as Hb.
  rewrite Z.geb_leb, Z.leb_gt in Em, El.
  unfold MaxPhysicalAllocationsPerReservation in Em.
  rewrite (u32_small (gr_pending g + gr_active g)) in Em by lia. rewrite u32_small in Em by lia.
  rewrite u32_small by lia. set (g' := g <| gr_pending := _ |>).
  match goal with |- relay_inv ?x => set (d' := x) end.
  pose proof (pending_insert d d' pid (mkRelayPending gid t) Ep eq_refl) as HP.
  pose proof (allocation_counts d d' eq_refl) as HA. simpl in HP.
  apply (relay_update d d' gid g g'); try done.
  - destruct Hc. destruct (HA gid) as [HA1 HA2]. split; rewrite ?HP, ?HA1, ?HA2, ?ind_same'; simpl;
      unfold MaxPhysicalAllocationsPerReservation; try done; lia.
  - intros id Hid. destruct (HA id) as [-> ->]. rewrite HP, (ind_other' gid gid) by done. lia.
  - simpl. intros k q [[<- <-]|[_ Hq]]%lookup_insert_Some; [by exists g|by eapply ri_pending].
  - apply Hi.
  - unfold liveRelayObjects in *. simpl. rewrite map_size_insert_Some by done.
    rewrite map_size_insert_None by done. lia.
Qed.

Lemma activate_inv p a ts st d : relay_inv d → relay_inv (ActivateRelayAllocation p a ts st d).1.
Proof.
  intros Hi. unfold ActivateRelayAllocation. set (pid := TrimSpace p). set (aid := TrimSpace a).
  destruct (_ || _ || _ || _); [done|]. destruct (relayPending d !! pid) as [q|] eqn:Ep; [|done].
  destruct (relayGroups d !! _) as [g|] eqn:Eg; [|done]. set (gid := pa_groupID q) in *.
  destruct (_ || _) eqn:Ez; [done|]. destruct (allocations d !! aid) eqn:Ea; [done|]. cbn [is_nil negb fst].
  pose proof (ri_counts _ Hi gid g Eg) as Hc. pose proof (counts_bounds _ _ _ Hc) as Hb.
  apply orb_false_iff in Ez as [Ez%Z.eqb_neq _]. small_counters.
  set (g' := g <| gr_pending := _ |> <| gr_active := _ |>).
  match goal with |- relay_inv ?x => set (d' := x) end.
  pose proof (pending_delete d d' pid q Ep eq_refl) as HP.
  pose proof (allocation_insert d d' aid (mkAllocation gid false) Ea eq_refl) as HA. simpl in HP, HA.
  fold gid in HP.
  apply (relay_update d d' gid g g'); try done.
  - destruct Hc. destruct (HA gid) as [HA1 HA2]. rewrite ind_same in HA1, HA2. simpl in HA1, HA2.
    split; rewrite ?HP, ?HA1, ?HA2, ?ind_same'; simpl;
      unfold MaxPhysicalAllocationsPerReservation; try done; lia.
  - intros id Hid. destruct (HA id) as [-> ->]. rewrite HP, (ind_other' gid gid) by done.
    rewrite !(ind_other gid gid) by done. lia.
  - simpl. intros k r [_ Hr]%lookup_delete_Some. by eapply ri_pending.
  - simpl. intros k b [[<- <-]|[_ Hb']]%lookup_insert_Some; [by exists g|by eapply ri_alloc].
  - pose proof (ri_live _ Hi) as Hl. unfold liveRelayObjects in *. simpl.
    rewrite map_size_insert_Some by done. rewrite map_size_insert_None by done.
    rewrite map_size_delete_Some by done.
    assert (size (relayPending d) ≠ 0%nat); [|lia]. rewrite map_size_non_empty_iff. intros E0. by rewrite E0 in Ep.
Qed.

Lemma no_group_no_counts d id :
  relay_inv d → d.(relayGroups) !! id = None →
  pending_of id d = 0 ∧ active_of id d = 0 ∧ closing_of id d = 0.
Proof.
  intros Hi Hn.
  assert (∀ k a, d.(allocations) !! k = Some a → String.eqb a.(al_groupID) id = false) as Ha.
  { intros k a Hk. apply String.eqb_neq. intros <-. destruct (ri_alloc _ Hi k a Hk). congruence. }
  split_and!; apply msum_zero; intros k x Hk.
  - destruct (String.eqb_spec (pa_groupID x) id) as [<-|]; [|done].
    destruct (ri_pending _ Hi k x Hk). congruence.
  - by rewrite (Ha k x).
  - by rewrite (Ha k x).
Qed.

Lemma register_inv digest e g m d :
  relay_inv d → relay_inv (RegisterRelayGrant digest e g m d).1.
Proof.
  intros Hi. unfold RegisterRelayGrant. destruct (validateRelayGrantMaterial _ _ _); [done|].
  destruct g as [g|]; [|done]. destruct m as [m|]; [|done].
  destruct (requireActiveDaemon _ _); [|done]. destruct (negb _); [done|].
  destruct (relayGroups d !! _) as [c|] eqn:Eg; [by case_match|]. set (gid := rg_ReservationId g) in *.
  destruct (_ >=? _) eqn:El; [done|]. destruct (NewGroupLimiter _ _ _ _) as [l|]; [|done].
  cbn [fst]. rewrite Z.geb_leb, Z.leb_gt in El.
  destruct (no_group_no_counts d gid Hi Eg) as (N1 & N2 & N3).
  set (g' := mkGroup g m l (ri_Username m) false 0 0 0 0 0). destruct Hi as [A B C D E].
  assert (∀ id, is_Some (d.(relayGroups) !! id) → is_Some (<[gid := g']> d.(relayGroups) !! id)) as Hsome.
  { intros id Hid. destruct (decide (gid = id)) as [<-|Hne];
      [by rewrite lookup_insert_eq|by rewrite lookup_insert_ne]. }
  split; simpl; eauto.
  - intros id h [[<- <-]|[Hne Hh]]%lookup_insert_Some; [|by destruct (A id h Hh)].
    split; simpl; unfold MaxPhysicalAllocationsPerReservation, MaxUint64; try done; lia.
  - unfold liveRelayObjects in *. simpl. rewrite map_size_insert_None by done. lia.
  - intros u r [[<- <-]|[Hne Hr]]%lookup_insert_Some.
    + exists g'. by rewrite lookup_insert_eq.
    + destruct (E u r Hr) as (h & Hh & Hhu). exists h. rewrite lookup_insert_ne; [done|]. congruence.
Qed.

(** Replacing a group by one with the same counters. *)
Lemma set_group_inv gid g g' d :
  relay_inv d → d.(relayGroups) !! gid = Some g →
  g'.(gr_username) = g.(gr_username) → g'.(gr_closing) = g.(gr_closing) →
  g'.(gr_pending) = g.(gr_pending) → g'.(gr_active) = g.(gr_active) →
  g'.(gr_closeActive) = g.(gr_closeActive) → 0 ≤ g'.(gr_ingress) ≤ MaxUint64 →
  0 ≤ g'.(gr_egress) ≤ MaxUint64 → relay_inv (set_group gid g' d).
Proof.
  intros Hi Hg H1 H2 H3 H4 H5 H6 H7. pose proof (ri_counts _ Hi gid g Hg) as [].
  apply (relay_update d _ gid g g'); try done; try apply Hi.
  - split; rewrite ?H3, ?H4, ?H5; done.
  - unfold liveRelayObjects. simpl. rewrite map_size_insert_Some by done. apply Hi.
Qed.

Lemma renew_inv e u g d : relay_inv d → relay_inv (RenewRelayGrant e u g d).1.
Proof.
  intros Hi. unfold RenewRelayGrant. destruct g as [g|]; [|done]. destruct (_ || _); [done|].
  destruct (relayGroups d !! _) as [c|] eqn:Eg; [|done]. destruct (_ || _); [done|].
  destruct (Renew _ _ _); [|done]. cbn [fst]. pose proof (ri_counts _ Hi _ c Eg) as [].
  by apply (set_group_inv _ c).
Qed.

Lemma delete_auth_inv u d :
  relay_inv d → relay_inv (d <| relayAuth := delete u d.(relayAuth) |>).
Proof.
  intros [A B C D E]. split; try done.
  - intros id g Hg. by destruct (A id g Hg).
  - simpl. intros v r [_ ?]%lookup_delete_Some. by apply E.
Qed.

Lemma auth_inv u t d : relay_inv d → relay_inv (RelayAuth u t d).1.
Proof.
  intros Hi. unfold RelayAuth. destruct (String.eqb _ _); [done|].
  destruct (auth_group _ _); [|by apply delete_auth_inv]. destruct (group_usable _ _); [done|].
  by apply delete_auth_inv.
Qed.

Lemma cancel_inv p d : relay_inv d → relay_inv (CancelRelayAllocationReservation p d).
Proof.
  intros Hi. unfold CancelRelayAllocationReservation. set (pid := TrimSpace p).
  destruct (relayPending d !! pid) as [q|] eqn:Ep; [|done].
  destruct (ri_pending _ Hi pid q Ep) as [g Eg]. cbn [relayGroups set_field]. simpl. rewrite Eg.
  set (gid := pa_groupID q) in *.
  pose proof (ri_counts _ Hi gid g Eg) as Hc. pose proof (counts_bounds _ _ _ Hc) as Hb.
  pose proof (pending_counted d pid q Ep) as Hp. fold gid in Hp. pose proof (co_pending _ _ _ Hc) as Hcp.
  destruct (Z.gtb_spec (gr_pending g) 0); [|lia]. small_counters.
  set (g' := g <| gr_pending := _ |>). match goal with |- relay_inv ?x => set (d' := x) end.
  pose proof (pending_delete d d' pid q Ep eq_refl) as HP.
  pose proof (allocation_counts d d' eq_refl) as HA. fold gid in HP.
  apply (relay_update d d' gid g g'); try done; try apply Hi.
  - destruct Hc. destruct (HA gid) as [HA1 HA2]. split; rewrite ?HP, ?HA1, ?HA2, ?ind_same'; simpl;
      unfold MaxPhysicalAllocationsPerReservation; try done; lia.
  - intros id Hid. destruct (HA id) as [-> ->]. rewrite HP, (ind_other' gid gid) by done. lia.
  - simpl. intros k r [_ Hr]%lookup_delete_Some. by eapply ri_pending.
  - pose proof (ri_live _ Hi) as Hl. unfold liveRelayObjects in *. simpl.
    rewrite map_size_insert_Some by done. rewrite map_size_delete_Some by done. lia.
Qed.

(** Closing an allocation never fails its invariant. *)
Lemma begin_close_spec a d :
  relay_inv d → relay_inv (BeginRelayAllocationClose a d).1 ∧ (BeginRelayAllocationClose a d).2 = None.
Proof.
  intros Hi. unfold BeginRelayAllocationClose. set (aid := TrimSpace a).
  destruct (allocations d !! aid) as [al|] eqn:Ea; [|done].
  destruct (al_closing al) eqn:Ecl; [done|].
  destruct (ri_alloc _ Hi aid al Ea) as [g Eg]. rewrite Eg. set (gid := al_groupID al) in *.
  pose proof (ri_counts _ Hi gid g Eg) as Hc. pose proof (counts_bounds _ _ _ Hc) as Hb.
  pose proof (active_counted d aid al Ea Ecl) as Hp. fold gid in Hp. pose proof (co_active _ _ _ Hc) as Hcp.
  destruct (Z.eqb_spec (gr_active g) 0) as [?|_]; [lia|]. split; [|done]. cbn [fst]. small_counters.
  set (g' := g <| gr_active := _ |> <| gr_closeActive := _ |>).
  match goal with |- relay_inv ?x => set (d' := x) end.
  pose proof (allocation_replace d d' aid al (al <| al_closing := true |>) Ea eq_refl) as HA.
  simpl in HA. fold gid in HA. rewrite Ecl in HA.
  apply (relay_update d d' gid g g'); try done; try apply Hi.
  - destruct Hc. destruct (HA gid) as [HA1 HA2]. rewrite !ind_same in HA1, HA2. simpl in HA1, HA2.
    split; rewrite ?HA1, ?HA2; simpl; unfold MaxPhysicalAllocationsPerReservation; try done; lia.
  - intros id Hid. destruct (HA id) as [-> ->]. rewrite !(ind_other gid gid) by done.
    split; [done|lia].
  - simpl. intros k b [[<- <-]|[_ Hb']]%lookup_insert_Some; [by exists g|by eapply ri_alloc].
  - pose proof (ri_live _ Hi) as Hl. unfold liveRelayObjects in *. simpl.
    by rewrite !map_size_insert_Some by done.
Qed.

Lemma close_allocation_spec a ing eg d :
  relay_inv d → 0 ≤ ing ≤ MaxUint64 → 0 ≤ eg ≤ MaxUint64 →
  relay_inv (CloseRelayAllocation a ing eg d).1 ∧
  ∀ err, (CloseRelayAllocation a ing eg d).2 = Some err →
    err = "Relay allocation counters overflow group aggregate"%string ∧
    (CloseRelayAllocation a ing eg d).1 = d.
Proof.
  intros Hi Hing Heg. unfold CloseRelayAllocation. set (aid := TrimSpace a).
  destruct (allocations d !! aid) as [al|] eqn:Ea; [|done].
  destruct (ri_alloc _ Hi aid al Ea) as [g Eg]. rewrite Eg. set (gid := al_groupID al) in *.
  pose proof (ri_counts _ Hi gid g Eg) as Hc. pose proof (counts_bounds _ _ _ Hc) as Hb.
  destruct (_ || _) eqn:Eo; [split; [done|]; by intros err [= <-]|].
  apply orb_false_iff in Eo as [Eo1 Eo2]. rewrite Z.gtb_ltb, Z.ltb_ge in Eo1, Eo2.
  pose proof (co_ingress _ _ _ Hc). pose proof (co_egress _ _ _ Hc). unfold MaxUint64 in *.
  rewrite !u64_small by lia.
  set (g1 := g <| gr_ingress := _ |> <| gr_egress := _ |>).
  assert (∀ g', g'.(gr_username) = g.(gr_username) → g'.(gr_closing) = g.(gr_closing) →
    counts_ok gid g' (d <| allocations := delete aid d.(allocations) |>) →
    relay_inv (set_group gid g' d <| allocations := delete aid d.(allocations) |>)) as Hfin.
  { intros g' Hu Hcl Hc'. match goal with |- relay_inv ?x => set (d' := x) end.
    pose proof (allocation_delete d d' aid al Ea eq_refl) as HA. fold gid in HA.
    apply (relay_update d d' gid g g'); try done; try apply Hi.
    - destruct Hc'. by split.
    - intros id Hid. destruct (HA id) as [-> ->]. rewrite !(ind_other gid gid) by done.
      split; [done|lia].
    - simpl. intros k b [_ Hb']%lookup_delete_Some. by eapply ri_alloc.
    - pose proof (ri_live _ Hi) as Hl. unfold liveRelayObjects in *. simpl.
      rewrite map_size_insert_Some by done. rewrite map_size_delete_Some by done. lia. }
  pose proof (allocation_delete d (d <| allocations := delete aid d.(allocations) |>) aid al Ea eq_refl gid) as [HA1 HA2].
  fold gid in HA1, HA2. rewrite ind_same in HA1, HA2.
  destruct (al_closing al) eqn:Ecl; simpl in HA1, HA2.
  - pose proof (closing_counted d aid al Ea Ecl) as Hp. fold gid in Hp. pose proof (co_closing _ _ _ Hc) as Hcp.
    change (gr_closeActive g1) with (gr_closeActive g).
    destruct (Z.eqb_spec (gr_closeActive g) 0) as [?|_]; [lia|]. split; [|done]. cbn [fst]. small_counters.
    apply Hfin; try done. destruct Hc. split; rewrite ?HA1, ?HA2; simpl;
      unfold MaxPhysicalAllocationsPerReservation, MaxUint64, pending_of in *; simpl; try done; lia.
  - pose proof (active_counted d aid al Ea Ecl) as Hp. fold gid in Hp. pose proof (co_active _ _ _ Hc) as Hcp.
    change (gr_active g1) with (gr_active g).
    destruct (Z.eqb_spec (gr_active g) 0) as [?|_]; [lia|]. split; [|done]. cbn [fst]. small_counters.
    apply Hfin; try done. destruct Hc. split; rewrite ?HA1, ?HA2; simpl;
      unfold MaxPhysicalAllocationsPerReservation, MaxUint64, pending_of in *; simpl; try done; lia.
Qed.

Lemma forget_inv r d : relay_inv d → relay_inv (ForgetRelayGroup r d).1.
Proof.
  intros Hi. unfold ForgetRelayGroup. set (gid := TrimSpace r).
  destruct (relayGroups d !! gid) as [g|] eqn:Eg; [|done].
  destruct (group_static g) eqn:Es; [|done]. cbn [negb fst]. unfold group_static in Es.
  apply andb_true_iff in Es as [[[Es1 Es2%Z.eqb_eq]%andb_true_iff Es3%Z.eqb_eq]%andb_true_iff Es4%Z.eqb_eq].
  pose proof (ri_counts _ Hi gid g Eg) as Hc. destruct Hc as [C1 C2 C3 _ _ _].
  destruct Hi as [A B C D E]. split; simpl.
  - intros id h [Hne Hh]%lookup_delete_Some. by destruct (A id h Hh).
  - intros k p Hp. rewrite lookup_delete_ne; [by eapply B|]. intros Heq.
    pose proof (pending_counted d k p Hp). rewrite <- Heq in *. lia.
  - intros k a Ha. rewrite lookup_delete_ne; [by eapply C|]. intros Heq.
    destruct (al_closing a) eqn:Ecl;
      [pose proof (closing_counted d k a Ha Ecl)|pose proof (active_counted d k a Ha Ecl)];
      rewrite <- Heq in *; lia.
  - unfold liveRelayObjects in *. simpl. rewrite map_size_delete_Some by done. lia.
  - intros u r' [Hne Hr]%lookup_delete_Some. destruct (E u r' Hr) as (h & Hh & Hu & Hcl).
    exists h. rewrite lookup_delete_ne; [done|]. intros <-. congruence.
Qed.

(** ** The other requests

    They change the Relay tables only by draining daemons: a property of the tables that
    draining preserves is preserved by all of them. *)
Section business.
Context (lim : stateLimits) (e : env) (I : stateData → Prop).
Context (Ho : OrderOk e.(order)).
Context (I_same : ∀ d d', relay_state d' = relay_state d → I d → I d').
Context (I_drained : ∀ id d d' cl, drained id d d' cl → I d → I d').

Lemma drain_keeps id d : edge_inv lim d → I d → I (drainDaemonBusiness e id d).1.
Proof.
  intros [] Hr. destruct (drainDaemonBusiness e id d) as [d' cl] eqn:E. simpl.
  eapply I_drained; [|exact Hr]. by eapply drain_spec.
Qed.

Lemma remove_business_keeps id d : edge_inv lim d → I d → I (removeBusinessAgent id d).
Proof.
  intros [_ F]. apply I_same. destruct (remove_agent_spec id d F) as (_ & Hc & _ & _ & _ & Hp & _).
  apply core_fields in Hc as (_ & _ & _ & _ & _ & _ & C7 & C8 & _).
  unfold relay_part in Hp. unfold relay_state. congruence.
Qed.

Lemma publish_business_keeps a d : edge_inv lim d → I d → I (publishBusinessAgent a d).
Proof.
  intros [_ F]. apply I_same. destruct (publish_agent_spec a d F) as (_ & Hc & _ & _ & _ & Hp & _).
  apply core_fields in Hc as (_ & _ & _ & _ & _ & _ & C7 & C8 & _).
  unfold relay_part in Hp. unfold relay_state. congruence.
Qed.

Lemma reconcile_keeps id d : edge_inv lim d → I d → I (reconcileDaemonState e id d).1.
Proof.
  intros Hi Hr. pose proof (drain_keeps id d Hi Hr) as Hdr.
  unfold reconcileDaemonState.
  destruct (daemonStates d !! id) as [p|] eqn:Ed; [|done].
  destruct (agentPresences d !! id) as [a|]; [|done].
  destruct (aw_send (writer_of d id)) as [s|]; [|done]. destruct (negb _); [done|].
  destruct (if bool_decide (ds_State p = ACTIVE) then _ else _) as [d1 cl] eqn:E.
  assert (I d1) as H1; [|by destruct (negb _); apply (I_same d1)].
  case_bool_decide; [|by rewrite E in Hdr]. injection E as <- <-. by apply remove_business_keeps.
Qed.

Lemma exec_keeps digest o d :
  relay_op o = false → edge_inv lim d → I d → I (exec digest lim e o d).
Proof.
  intros Er Hi Hr.
  assert (∀ d', relay_state d' = relay_state d → I d') as Hsame
    by (intros d' H; by apply (I_same d)).
  destruct o; try discriminate Er; cbn [exec].
  - unfold UpsertAgent. repeat case_match; by apply Hsame.
  - unfold AttachAuthenticatedAgent.
    destruct agent as [a|]; [|done]. destruct claims as [c|]; [|done].
    destruct (_ || _ || _); [done|]. destruct (is_nil send || is_nil close); [done|].
    destruct (requireDaemonState _ _); [|done]. destruct (_ && _); [done|].
    destruct (Z.eqb_spec (nextAgentGeneration d) MaxUint64) as [|Hlt]; [done|].
    pose proof (ei_next _ _ Hi) as Hn. unfold MaxUint64 in Hlt, Hn.
    rewrite u64_small by lia. destruct (NormalizeClone _); [|done].
    set (n := nextAgentGeneration d + 1). set (id := ap_DaemonId (a <| ap_Generation := n |>)).
    set (d1 := d <| nextAgentGeneration := n |>).
    assert (edge_inv lim d1) as Hi1 by (apply next_inv; [done|unfold n, MaxUint64; lia]).
    pose proof (drain_keeps id d1 Hi1 (Hsame d1 eq_refl)) as H1.
    destruct (drainDaemonBusiness e id d1) as [d2 cl]. by apply (I_same d2).
  - unfold DetachAgent. destruct (agentPresences d !! _); [|done]. destruct (_ || _); [done|].
    pose proof (drain_keeps daemonID d Hi Hr) as H1.
    destruct (drainDaemonBusiness e daemonID d) as [d2 cl]. by apply (I_same d2).
  - unfold SendAgentCommand. repeat case_match; by apply Hsame.
  - unfold CloseAgentConnection. repeat case_match; by apply Hsame.
  - unfold RemoveAgent. repeat case_match; by apply Hsame.
  - unfold BeginAgentSignal. repeat case_match; by apply Hsame.
  - unfold ResolveAgentSignal. repeat case_match; by apply Hsame.
  - unfold CancelAgentSignal. repeat case_match; by apply Hsame.
  - unfold AttachSession. repeat case_match; by apply Hsame.
  - unfold CloseSession. repeat case_match; by apply Hsame.
  - unfold RemoveSession. repeat case_match; by apply Hsame.
  - unfold OpenFeed. repeat case_match; by apply Hsame.
  - unfold unsubscribe. case_decide; by apply Hsame.
  - unfold receive. repeat case_match; by apply Hsame.
  - unfold ApplyDaemonStateSnapshot. destruct (normalizeDaemonStateSnapshot _) as [st|]; [|done].
    apply (for_daemons_inv (λ d', edge_inv lim d' ∧ I d')).
    + intros id d' [H1 H2]. split; [by apply reconcile_inv|by apply reconcile_keeps].
    + split; [by apply (edge_inv_business lim d)|by apply Hsame].
  - unfold ApplyDaemonStateDelta. destruct (normalizeDaemonStateRecord _) as [rec|]; [|done].
    destruct (negb _); [done|].
    assert (I (reconcileDaemonState e (ds_DaemonId rec)
      (d <| daemonStates := <[ds_DaemonId rec := rec]> (daemonStates d) |>)).1) as H1.
    { apply reconcile_keeps; [by apply (edge_inv_business lim d)|by apply Hsame]. }
    set (R := reconcileDaemonState _ _ _) in *. clearbody R. repeat case_match; done.
  - unfold InvalidateDaemonStates.
    apply (invalidate_fold (λ d', edge_inv lim d' ∧ I d')).
    + intros id d' [H1 H2]. split; [|by apply drain_keeps].
      destruct (drainDaemonBusiness e id d') eqn:E. by eapply drain_inv.
    + split; [by apply (edge_inv_business lim d)|by apply Hsame].
  - unfold ApplyDaemonLifecycleResult.
    repeat case_match; try done; (by apply remove_business_keeps) || by apply publish_business_keeps.
Qed.
End business.

(** ** All requests *)
Lemma drained_relay id d d' cl : drained id d d' cl → relay_inv d → relay_inv d'.
Proof.
  intros [D1 (_ & _ & _ & _ & _ & _ & C7 & C8 & _)%core_fields D3 D4 D5 D6 D7 D8 D9] Hi.
  apply (relay_inv_same (close_groups (λ g, bool_decide (grant_DaemonId g.(gr_grant) = id)) d));
    [|by apply close_groups_inv].
  unfold relay_part in D8. injection D8 as D8 D8'. unfold relay_state. simpl in *. congruence.
Qed.

Lemma exec_relay_inv digest lim e o d :
  OrderOk e.(order) → op_ok o → edge_inv lim d → relay_inv d → relay_inv (exec digest lim e o d).
Proof.
  intros Ho Hop Hi Hr. destruct (relay_op o) eqn:Er;
    [|by apply exec_keeps; [|apply relay_inv_same|apply drained_relay|..]].
  destruct o; try discriminate Er; cbn [exec].
  - by apply register_inv.
  - by apply renew_inv.
  - by apply auth_inv.
  - by apply reserve_inv.
  - by apply activate_inv.
  - by apply cancel_inv.
  - unfold BeginRelaySessionClose. destruct (String.eqb _ _); [done|]. by apply close_groups_inv.
  - by apply begin_close_spec.
  - simpl in Hop. apply close_allocation_spec; [done|unfold MaxUint64; lia..].
  - by apply forget_inv.
  - destruct (relayGroups d !! reservationID) as [g|] eqn:Eg; [|done].
    pose proof (ri_counts _ Hr _ g Eg) as []. by apply (set_group_inv _ g).
Qed.

Lemma reaches_relay digest lim buffer ops d : reaches digest lim buffer ops d → relay_inv d.
Proof.
  intros Hr. enough (edge_inv lim d ∧ relay_inv d) by tauto.
  eapply (steps_inv digest lim (λ _, True) (λ d, edge_inv lim d ∧ relay_inv d));
    [|by apply Forall_true| |exact Hr].
  - intros e o d' Ho Hop _ [H1 H2]. split; [by apply exec_inv|by eapply exec_relay_inv].
  - split; [apply new_state_inv|]. split; try (intros ??; simpl; rewrite lookup_empty; done).
    unfold liveRelayObjects, MaxLiveRelayObjects. simpl. rewrite !map_size_empty. lia.
Qed.

(** ** A static group stays as it is *)

(** What a settlement reads of a group. *)
Definition same_settlement (g g' : relayGroup) : Prop :=
  g'.(gr_grant) = g.(gr_grant) ∧ g'.(gr_ingress) = g.(gr_ingress) ∧ g'.(gr_egress) = g.(gr_egress) ∧
  group_static g' = true.
(** The group is there, with the same settlement. *)
Definition still (r : string) (g : relayGroup) (d : stateData) : Prop :=
  ∃ g', d.(relayGroups) !! r = Some g' ∧ same_settlement g g'.

Lemma still_same r g d d' : d'.(relayGroups) = d.(relayGroups) → still r g d → still r g d'.
Proof. intros He. unfold still. by rewrite He. Qed.

Lemma static_fields g : group_static g = true →
  g.(gr_closing) = true ∧ g.(gr_pending) = 0 ∧ g.(gr_active) = 0 ∧ g.(gr_closeActive) = 0.
Proof.
  unfold group_static. intros [[[H1 H2%Z.eqb_eq]%andb_true_iff H3%Z.eqb_eq]%andb_true_iff
    H4%Z.eqb_eq]%andb_true_iff. done.
Qed.

(** No allocation of a static group is left. *)
Lemma static_empty d r g :
  relay_inv d → d.(relayGroups) !! r = Some g → group_static g = true →
  (∀ k p, d.(relayPending) !! k = Some p → p.(pa_groupID) ≠ r) ∧
  (∀ k a, d.(allocations) !! k = Some a → a.(al_groupID) ≠ r).
Proof.
  intros Hi Hg (_ & H2 & H3 & H4)%static_fields. destruct (ri_counts _ Hi r g Hg) as [C1 C2 C3 _ _ _].
  split.
  - intros k p Hp Heq. pose proof (pending_counted d k p Hp). rewrite Heq in *. lia.
  - intros k a Ha Heq. destruct (al_closing a) eqn:Ecl;
      [pose proof (closing_counted d k a Ha Ecl)|pose proof (active_counted d k a Ha Ecl)];
      rewrite Heq in *; lia.
Qed.

Lemma close_groups_still P r g d : still r g d → still r g (close_groups P d).
Proof.
  intros (g' & Hg & H1 & H2 & H3 & H4). unfold still. simpl.
  exists (if P g' then g' <| gr_closing := true |> else g'). rewrite lookup_fmap, Hg. split; [done|].
  apply static_fields in H4 as (S1 & S2 & S3 & S4).
  destruct (P g'); split_and!; try done; unfold group_static; simpl; by rewrite ?S1, S2, S3, S4.
Qed.

Lemma drained_still r g id d d' cl : drained id d d' cl → still r g d → still r g d'.
Proof.
  intros [_ _ _ _ _ _ _ D8 _] Hs. unfold relay_part in D8. injection D8 as D8 _.
  apply (still_same r g (close_groups (λ g, bool_decide (grant_DaemonId g.(gr_grant) = id)) d));
    [exact D8|by apply close_groups_still].
Qed.

Lemma set_group_still r g gid g' d d' :
  gid ≠ r → d'.(relayGroups) = <[gid := g']> d.(relayGroups) → still r g d → still r g d'.
Proof. intros Hne He (h & Hh & Hs). exists h. rewrite He, lookup_insert_ne by done. done. Qed.

(** The Relay requests other than forgetting. *)
Lemma relay_still digest lim e o r g d :
  relay_op o = true → (∀ i, o ≠ OForgetGroup i) → relay_inv d → still r g d →
  still r g (exec digest lim e o d).
Proof.
  intros Hop Hnf Hi Hs. pose proof Hs as (g' & Hg & Hss). pose proof Hss as (_ & _ & _ & Hst).
  destruct (static_empty d r g' Hi Hg Hst) as [Hnp Hna]. pose proof (static_fields g' Hst) as (Hcl & _).
  assert (∀ d', d'.(relayGroups) = d.(relayGroups) → still r g d') as Hsame
    by (intros d' H; by apply (still_same r g d)).
  assert (∀ gid h h' d', d.(relayGroups) !! gid = Some h → h.(gr_closing) = false →
    d'.(relayGroups) = <[gid := h']> d.(relayGroups) → still r g d') as Hopen.
  { intros gid h h' d' Hh Hc He. eapply set_group_still; [|exact He|exact Hs]. intros ->. congruence. }
  clear Hg. destruct o; try discriminate Hop; cbn [exec].
  - unfold RegisterRelayGrant. destruct (validateRelayGrantMaterial _ _ _); [done|].
    destruct grant as [gr|]; [|done]. destruct material as [m|]; [|done].
    destruct (requireActiveDaemon _ _); [|done]. destruct (negb _); [done|].
    destruct (relayGroups d !! _) as [c|] eqn:Eg; [by destruct (_ || _)|].
    destruct (_ >=? _); [done|]. destruct (NewGroupLimiter _ _ _ _) as [l|]; [|done].
    eapply set_group_still; [|done|exact Hs]. intros <-. destruct Hs as (h & Hh & _). congruence.
  - unfold RenewRelayGrant. destruct grant as [gr|]; [|done]. destruct (_ || _); [done|].
    destruct (relayGroups d !! _) as [c|] eqn:Eg; [|done].
    destruct (_ || _) eqn:Ec; [done|]. destruct (Renew _ _ _); [|done].
    eapply (Hopen _ c); [done| |done]. destruct (gr_closing c); [|done].
    by rewrite orb_true_r in Ec.
  - unfold RelayAuth. repeat case_match; by apply Hsame.
  - unfold ReserveRelayAllocation. destruct (_ || _); [done|]. destruct (relayPending d !! _); [done|].
    destruct (relayGroups d !! _) as [c|] eqn:Eg; [|done]. destruct (group_usable c at_) eqn:Eu; [|done].
    cbn [negb]. destruct (_ >=? _); [done|]. destruct (_ >=? _); [done|].
    eapply (Hopen _ c); [exact Eg| |done]. unfold group_usable in Eu. by destruct (gr_closing c).
  - unfold ActivateRelayAllocation. destruct (_ || _); [done|].
    destruct (relayPending d !! _) as [q|] eqn:Ep; [|done].
    destruct (relayGroups d !! _) as [c|] eqn:Eg; [|done]. destruct (_ || _); [done|].
    destruct (negb _); [done|]. eapply set_group_still; [|done|exact Hs]. by eapply Hnp.
  - unfold CancelRelayAllocationReservation. destruct (relayPending d !! _) as [q|] eqn:Ep; [|done].
    simpl. destruct (relayGroups d !! _) as [c|] eqn:Eg; [|done]. destruct (_ >? _); [|done].
    eapply set_group_still; [|done|exact Hs]. by eapply Hnp.
  - unfold BeginRelaySessionClose. destruct (String.eqb _ _); [done|]. by apply close_groups_still.
  - unfold BeginRelayAllocationClose. destruct (allocations d !! _) as [a|] eqn:Ea; [|done].
    destruct (al_closing a); [done|]. destruct (relayGroups d !! _) as [c|] eqn:Eg; [|done].
    destruct (_ =? 0); [done|]. eapply set_group_still; [|done|exact Hs]. by eapply Hna.
  - unfold CloseRelayAllocation. destruct (allocations d !! _) as [a|] eqn:Ea; [|done].
    destruct (relayGroups d !! _) as [c|] eqn:Eg; [|done]. destruct (_ || _); [done|].
    repeat case_match; (eapply set_group_still; [|done|exact Hs]; by eapply Hna).
  - by destruct (Hnf reservationID).
  - destruct (relayGroups d !! reservationID) as [h|] eqn:Eg; [|done].
    destruct (decide (reservationID = r)) as [->|Hne].
    + exists (h <| gr_limiter := limiter |>). simpl. rewrite lookup_insert_eq. split; [done|].
      destruct Hs as (h' & Hh & Hs'). assert (h = h') as -> by congruence. done.
    + by eapply set_group_still.
Qed.

Lemma exec_still digest lim e o r g d :
  OrderOk e.(order) → op_ok o → (∀ i, o ≠ OForgetGroup i) → edge_inv lim d → relay_inv d →
  still r g d → still r g (exec digest lim e o d).
Proof.
  intros Ho Hop Hnf Hi Hr Hs. destruct (relay_op o) eqn:Er; [by apply relay_still|].
  apply exec_keeps; try done; [|apply drained_still].
  intros d0 d1 H. apply still_same. unfold relay_state in H. by injection H.
Qed.
