(* ===== verification/EdgeTheorems.v ===== *)
(** * What the Edge runtime state guarantees

    Properties of [cloud/edge/runtime/state.go], [daemon_state.go] and
    [relay_state.go], for every sequence of requests to the Edge actor. *)
From S2P Require Import Prelude GoStd Limiter EdgeState Relay EdgeWorld EdgeFacts EdgeInv RelayFacts.
Local Open Scope Z_scope.

(** ** A concrete run, for the witnesses *)
Module Demo.
Definition run digest lim e (ops : list op) (d : stateData) : stateData :=
  fold_left (λ d o, exec digest lim e o d) ops d.

Lemma run_steps digest lim e ops d :
  OrderOk e.(order) → Forall op_ok ops → steps digest lim d ops (run digest lim e ops d).
Proof.
  intros Ho. unfold run. induction ops as [|o ops IH] using rev_ind; intros Hops; [constructor|].
  apply Forall_app in Hops as [H1 H2]. rewrite fold_left_app. simpl. constructor; auto.
  by inversion H2.
Qed.

Definition digest32 : string := "0123456789abcdef0123456789abcdef".
Definition digest (p : RelayPolicySnapshot) : result string := Ok digest32.
Definition lim : stateLimits := mkLimits 4 4 4.
Definition e : env := mkEnv 10 id_order (λ _ _, true).
Definition ts (s : Z) : option Timestamp := Some (mkTimestamp s 0).
Definition daemon (st : DaemonState) (r : Z) : DaemonStateRecord := mkDaemon "d1" st r.
Definition agent : AgentPresence := mkAgent "d1" "acc" "boot" "conn" 0 "b1" (ts 1).
Definition claims : DaemonBindingClaims := mkClaims "b1" "d1" "acc" "key" (ts 100) "".
Definition session : ClientSessionSummary := mkSession "s1" "acc" "d1" "c1" 1 1 0.
Definition policy : RelayPolicySnapshot := mkPolicy "d1" ["eu"] "".
Definition grant : RelayGrant := mkGrant "r1" "rs1" 200000 1000 0 (ts 60) digest32 (Some policy).
Definition material : RelayICEConfig := mkICE "r1" ["turn:edge"] "user1" "secret" (ts 60).

Definition business_ops : list op :=
  [ODaemonSnapshot [Some (daemon ACTIVE 1)];
   OAttachAgent (Some agent) (Some claims) (Some 1) (Some 2);
   OOpenFeed;
   OLifecycle "d1" 1 (Some (mkLifecycle (Some (daemon ACTIVE 1)) 1 true ""));
   OAttachSession (Some session) (Some 3);
   OBeginSignal "k1" "d1" "s1"].
Definition relay_ops : list op :=
  [ORegisterRelay (Some grant) (Some material);
   OReserveAllocation "p1" "user1" 20;
   OActivateAllocation "p1" "a1" true 30;
   OSessionClose "rs1";
   OCloseAllocation "a1" 500 700].
Definition ops : list op := business_ops ++ relay_ops.
Definition d : stateData := run digest lim e ops (new_state 8).
Definition early : stateData := run digest lim e business_ops (new_state 8).

Lemma reached : reaches digest lim 8 ops d.
Proof. apply run_steps; [apply _|]. repeat constructor; simpl; lia. Defined.
Lemma reached_early : reaches digest lim 8 business_ops early.
Proof. apply run_steps; [apply _|]. repeat constructor. Defined.
Lemma prod : Forall op_prod ops.
Proof. repeat constructor. Defined.
Lemma prod_early : Forall op_prod business_ops.
Proof. repeat constructor. Defined.
End Demo.

Example demo_shape :
  (fst <$> map_to_list Demo.d.(agents)) = ["d1"%string] ∧
  (fst <$> map_to_list Demo.d.(sessions)) = ["s1"%string] ∧
  (snd <$> map_to_list Demo.d.(pendingSignals)) = [mkPending "d1" "s1" 1 0] ∧
  (λ g, (g.(gr_closing), g.(gr_pending), g.(gr_active), g.(gr_ingress), g.(gr_egress))) <$>
    (snd <$> map_to_list Demo.d.(relayGroups)) = [(true, 0, 0, 500, 700)] ∧
  (rd_Change <$> (match Demo.d.(feeds) !! 1 with Some f => f.(fd_sent) | None => [] end)) =
    [AgentUpserted (Demo.agent <| ap_Generation := 1 |>); SessionUpserted Demo.session].
Proof. vm_compute. done. Qed.

(** C8: feed replication. In every reachable Edge state, each subscribed feed was sent
    exactly the deltas that turn its starting snapshot into the current agents and
    sessions, at contiguous revisions; what is still queued is the end of what was sent
    and fits the buffer. A feed that was closed saw such a history up to its end. *)
Theorem feed_replication digest lim buffer ops d :
  reaches digest lim buffer ops d →
  (∀ id, id ∈ d.(subscribers) → ∃ f, d.(feeds) !! id = Some f ∧
     replay f.(fd_snapshot) f.(fd_sent) = Some (view_of d)) ∧
  (∀ id f, d.(feeds) !! id = Some f →
     is_Some (replay f.(fd_snapshot) f.(fd_sent)) ∧ suffix f.(fd_queue) f.(fd_sent) ∧
     len f.(fd_queue) ≤ Z.max 0 buffer).
Proof.
  intros Hr. destruct (steps_grows digest lim _ ops d (new_state_inv lim buffer) Hr) as [Hi [_ Hb]].
  simpl in Hb. destruct (ei_feeds _ _ Hi) as [Ho Hh]. rewrite Hb in Hh. done.
Qed.
Lemma feed_replication_witness :
  (∀ id, id ∈ Demo.d.(subscribers) → ∃ f, Demo.d.(feeds) !! id = Some f ∧
     replay f.(fd_snapshot) f.(fd_sent) = Some (view_of Demo.d)) ∧
  (∀ id f, Demo.d.(feeds) !! id = Some f →
     is_Some (replay f.(fd_snapshot) f.(fd_sent)) ∧ suffix f.(fd_queue) f.(fd_sent) ∧
     len f.(fd_queue) ≤ Z.max 0 8).
Proof. apply (feed_replication Demo.digest Demo.lim 8 Demo.ops Demo.d Demo.reached). Defined.

(** A snapshot of a reachable state never fails, for any map order: it is sorted by
    identity and shows exactly the current agents, sessions and revision. *)
Theorem snapshot_total digest lim buffer ops d e :
  reaches digest lim buffer ops d → OrderOk e.(order) →
  ∃ s, snapshot e d = Ok s ∧ view_of_snapshot s = view_of d ∧
    Sorted agent_before s.(rs_Agents) ∧ Sorted session_before s.(rs_Sessions).
Proof. intros Hr%reaches_inv Ho. apply snapshot_spec; [done|apply Hr]. Qed.
Lemma snapshot_total_witness :
  ∃ s, snapshot Demo.e Demo.d = Ok s ∧ view_of_snapshot s = view_of Demo.d ∧
    Sorted agent_before s.(rs_Agents) ∧ Sorted session_before s.(rs_Sessions).
Proof. apply (snapshot_total Demo.digest Demo.lim 8 Demo.ops Demo.d Demo.e Demo.reached). apply _. Defined.

(** What backs a published agent of the daemon [id]. *)
Definition backed (d : stateData) (id : string) (generation : Z) : Prop :=
  (∃ a, d.(agentPresences) !! id = Some a ∧ a.(ap_Generation) = generation) ∧
  (∃ w, d.(agentWriters) !! id = Some w ∧ w.(aw_generation) = generation ∧ is_Some w.(aw_send)) ∧
  active d id.

Lemma presence_writer lim d id a :
  edge_inv lim d → d.(agentPresences) !! id = Some a →
  ∃ w, d.(agentWriters) !! id = Some w ∧ w.(aw_generation) = a.(ap_Generation) ∧ is_Some w.(aw_send).
Proof.
  intros Hi Ha. destruct (ei_presence _ _ Hi id a Ha) as [[w Hw] _].
  destruct (ei_writer _ _ Hi id w Hw) as (Hs & b & Hb & Hg). exists w.
  assert (b = a) as -> by congruence. done.
Qed.

(** C11: admission. Under the requests the Edge makes, every published agent is the
    attached, authenticated connection of its daemon, with the generation of the live
    writer, and the daemon's cached lifecycle state is ACTIVE; every attached session and
    every pending signal belongs to such a connection. *)
Theorem admission_backed digest lim buffer ops d :
  reaches digest lim buffer ops d → Forall op_prod ops →
  (∀ id a, d.(agents) !! id = Some a → d.(agentPresences) !! id = Some a ∧ backed d id a.(ap_Generation)) ∧
  (∀ k s, d.(sessions) !! k = Some s → ∃ g, backed d s.(cs_DaemonId) g) ∧
  (∀ c p, d.(pendingSignals) !! c = Some p → backed d p.(ps_daemonID) p.(ps_agentGeneration)).
Proof.
  intros Hr Hp. pose proof (reaches_inv _ _ _ _ _ Hr) as Hi.
  destruct (reaches_admitted _ _ _ _ _ Hr Hp) as [A B C]. split_and!.
  - intros id a Ha. destruct (A id a Ha) as [Hpr [?%elem_of_nil|Hac]]; [done|].
    split; [done|]. split; [by exists a|]. split; [by eapply presence_writer|done].
  - intros k s Hs. destruct (B k s Hs) as [[a Ha] [?%elem_of_nil|Hac]]; [done|].
    exists a.(ap_Generation). split; [by exists a|]. split; [by eapply presence_writer|done].
  - intros c p Hpd. destruct (C c p Hpd) as [(a & Ha & Hg) [?%elem_of_nil|Hac]]; [done|].
    split; [by exists a|]. split; [|done]. rewrite <- Hg. by eapply presence_writer.
Qed.
Lemma admission_backed_witness :
  (∀ id a, Demo.d.(agents) !! id = Some a →
     Demo.d.(agentPresences) !! id = Some a ∧ backed Demo.d id a.(ap_Generation)) ∧
  (∀ k s, Demo.d.(sessions) !! k = Some s → ∃ g, backed Demo.d s.(cs_DaemonId) g) ∧
  (∀ c p, Demo.d.(pendingSignals) !! c = Some p → backed Demo.d p.(ps_daemonID) p.(ps_agentGeneration)).
Proof. apply (admission_backed Demo.digest Demo.lim 8 Demo.ops Demo.d Demo.reached Demo.prod). Defined.

(** When the Controller stream ends, nothing stays admitted: no agent is published,
    no session is attached, no signal is pending, and every request that needs a daemon's
    lifecycle state fails until the next snapshot. *)
Theorem invalidate_fails_closed digest lim buffer ops d e :
  reaches digest lim buffer ops d → Forall op_prod ops → OrderOk e.(order) →
  let d' := (InvalidateDaemonStates e d).1 in
  d'.(agents) = ∅ ∧ d'.(sessions) = ∅ ∧ d'.(sessionClosers) = ∅ ∧ d'.(pendingSignals) = ∅ ∧
  ∀ id, requireDaemonState id d' = Err ErrDaemonStateUnavailable.
Proof.
  intros Hr Hp Ho. pose proof (reaches_inv _ _ _ _ _ Hr) as Hi.
  pose proof (reaches_admitted _ _ _ _ _ Hr Hp) as Ha. cbn zeta.
  destruct (invalidate_admitted lim e d Ho Hi Ha) as ([A B C] & Hready & Hst).
  pose proof (invalidate_inv lim e d Ho Hi) as Hi'. set (d' := (InvalidateDaemonStates e d).1) in *.
  assert (∀ id, ¬ active d' id) as Hna by (intros id [Hx _]; congruence).
  assert (d'.(sessions) = ∅) as Hs.
  { apply map_empty. intros k. destruct (sessions d' !! k) as [s|] eqn:E; [|done].
    destruct (B k s E) as [_ [?%elem_of_nil|Hx]]; [done|]. by apply Hna in Hx. }
  split_and!; [|done| | |].
  - apply map_empty. intros id. destruct (agents d' !! id) as [a|] eqn:E; [|done].
    destruct (A id a E) as [_ [?%elem_of_nil|Hx]]; [done|]. by apply Hna in Hx.
  - apply map_empty. intros k. destruct (sessionClosers d' !! k) as [c|] eqn:E; [|done].
    destruct (ei_closer _ _ Hi' k c E) as [s Hk]. rewrite Hs, lookup_empty in Hk. done.
  - apply map_empty. intros c. destruct (pendingSignals d' !! c) as [p|] eqn:E; [|done].
    destruct (C c p E) as [_ [?%elem_of_nil|Hx]]; [done|]. by apply Hna in Hx.
  - intros id. unfold requireDaemonState. by rewrite Hready.
Qed.
Lemma invalidate_fails_closed_witness :
  let d' := (InvalidateDaemonStates Demo.e Demo.d).1 in
  d'.(agents) = ∅ ∧ d'.(sessions) = ∅ ∧ d'.(sessionClosers) = ∅ ∧ d'.(pendingSignals) = ∅ ∧
  ∀ id, requireDaemonState id d' = Err ErrDaemonStateUnavailable.
Proof.
  apply (invalidate_fails_closed Demo.digest Demo.lim 8 Demo.ops Demo.d Demo.e Demo.reached Demo.prod).
  apply _.
Defined.

(** The tables stay within their limits: attached connections, published agents,
    sessions and pending signals, and the buffer of every feed. *)
Theorem tables_bounded digest lim buffer ops d :
  reaches digest lim buffer ops d → Forall op_prod ops →
  within d.(agentWriters) lim.(maxAgents) ∧ within d.(agentPresences) lim.(maxAgents) ∧
  within d.(agents) lim.(maxAgents) ∧ within d.(sessions) lim.(maxSessions) ∧
  within d.(sessionClosers) lim.(maxSessions) ∧ within d.(pendingSignals) lim.(maxPendingSignals).
Proof.
  intros Hr Hp. pose proof (reaches_inv _ _ _ _ _ Hr) as Hi.
  pose proof (reaches_admitted _ _ _ _ _ Hr Hp) as [A _ _].
  assert (∀ {T U} (m : gmap string T) (m' : gmap string U) n,
    (∀ k x, m' !! k = Some x → is_Some (m !! k)) → within m n → within m' n) as Hdom.
  { intros T U m m' n Hk Hm. unfold within in *.
    assert (size m' ≤ size m)%nat; [|lia]. rewrite <- (size_dom (D := gset string) m), <- (size_dom (D := gset string) m').
    apply subseteq_size. intros k. rewrite !elem_of_dom. intros [x Hx]. by eapply Hk. }
  destruct Hi as [W F Sg Wr Pr Nx Se Cl Zw Zs Zg]. split_and!; try done.
  - apply (Hdom _ _ d.(agentWriters)); [|done]. intros k a Ha. by eapply Pr.
  - apply (Hdom _ _ d.(agentWriters)); [|done]. intros k a Ha. destruct (A k a Ha) as [Ha' _]. by eapply Pr.
  - by apply (Hdom _ _ d.(sessions)).
Qed.
Lemma tables_bounded_witness :
  within Demo.d.(agentWriters) 4 ∧ within Demo.d.(agentPresences) 4 ∧ within Demo.d.(agents) 4 ∧
  within Demo.d.(sessions) 4 ∧ within Demo.d.(sessionClosers) 4 ∧ within Demo.d.(pendingSignals) 4.
Proof. apply (tables_bounded Demo.digest Demo.lim 8 Demo.ops Demo.d Demo.reached Demo.prod). Defined.

(** The channel of a signal is closed at most once and gets at most one result; a
    pending signal has a channel of its own, open and still empty, so the actor neither
    panics on a closed channel nor blocks on a full one. *)
Theorem signal_channels_once digest lim buffer ops d :
  reaches digest lim buffer ops d →
  (∀ ch, count_closed ch (signal_trace d) ≤ 1 ∧ count_sent ch (signal_trace d) ≤ 1) ∧
  (∀ c p, d.(pendingSignals) !! c = Some p →
     TSignalClosed p.(ps_result) ∉ d.(trace) ∧ ∀ ev, TSignal p.(ps_result) ev ∉ d.(trace)) ∧
  (∀ c c' p p', d.(pendingSignals) !! c = Some p → d.(pendingSignals) !! c' = Some p' →
     p.(ps_result) = p'.(ps_result) → c = c').
Proof.
  intros Hr%reaches_inv. destruct (ei_signals _ _ Hr) as [H1 H2 H3 H4].
  split; [done|]. split; [|done]. intros c p Hp. destruct (H1 c p Hp) as (_ & Hn & Hs).
  unfold signal_trace in *. split.
  - intros Hin. apply Hn. by apply list_elem_of_filter.
  - intros ev Hin. apply (Hs ev). by apply list_elem_of_filter.
Qed.
Lemma signal_channels_once_witness :
  (∀ ch, count_closed ch (signal_trace Demo.d) ≤ 1 ∧ count_sent ch (signal_trace Demo.d) ≤ 1) ∧
  (∀ c p, Demo.d.(pendingSignals) !! c = Some p →
     TSignalClosed p.(ps_result) ∉ Demo.d.(trace) ∧ ∀ ev, TSignal p.(ps_result) ev ∉ Demo.d.(trace)) ∧
  (∀ c c' p p', Demo.d.(pendingSignals) !! c = Some p → Demo.d.(pendingSignals) !! c' = Some p' →
     p.(ps_result) = p'.(ps_result) → c = c').
Proof. apply (signal_channels_once Demo.digest Demo.lim 8 Demo.ops Demo.d Demo.reached). Defined.

(** ** Generations *)
Lemma attach_result lim e a claims send close d d' cl g p :
  OrderOk e.(order) → edge_inv lim d →
  AttachAuthenticatedAgent e lim (Some a) claims send close d = (d', cl, Ok (g, p)) →
  g = d.(nextAgentGeneration) + 1 ∧ d'.(nextAgentGeneration) = g ∧
  d'.(agentWriters) !! a.(ap_DaemonId) = Some (mkWriter g send close) ∧
  d'.(agentPresences) !! a.(ap_DaemonId) = Some (a <| ap_Generation := g |>).
Proof.
  intros Ho Hi. unfold AttachAuthenticatedAgent. destruct claims as [c|]; [|done].
  destruct (_ || _ || _); [done|]. destruct (is_nil send || is_nil close); [done|].
  destruct (requireDaemonState _ _); [|done]. destruct (_ && _); [done|].
  destruct (Z.eqb_spec (nextAgentGeneration d) MaxUint64) as [|Hlt]; [done|].
  pose proof (ei_next _ _ Hi) as Hn. unfold MaxUint64 in Hlt, Hn.
  rewrite u64_small by lia. destruct (NormalizeClone _); [|done].
  set (g0 := nextAgentGeneration d + 1). set (d1 := d <| nextAgentGeneration := g0 |>).
  change (ap_DaemonId (a <| ap_Generation := g0 |>)) with (ap_DaemonId a).
  destruct (drainDaemonBusiness e (ap_DaemonId a) d1) as [d2 cl2] eqn:Ed.
  assert (edge_inv lim d1) as Hi1 by (apply next_inv; [done|unfold g0, MaxUint64; lia]).
  destruct Hi1 as [_ F1 S1].
  assert (drained (ap_DaemonId a) d1 d2 cl2) as [_ (_ & _ & _ & C4 & _)%core_fields _ _ _ _ _ _ _]
    by (by eapply drain_spec).
  intros [= <- <- <- <-]. simpl. rewrite !lookup_insert_eq. done.
Qed.

(** Generations fence connections. Once a daemon has attached again, the generation
    of the earlier connection is refused everywhere: detaching, sending, closing, a
    lifecycle result and a signal result that name it leave the state as it is. *)
Theorem generation_fenced digest lim buffer ops ops' d d1 d2 d3 e e' a a' c c' s s' cl cl' k k' g g' p p' :
  reaches digest lim buffer ops d → Forall op_prod ops → OrderOk e.(order) →
  AttachAuthenticatedAgent e lim (Some a) c s cl d = (d1, k, Ok (g, p)) →
  steps digest lim d1 ops' d2 → Forall op_prod ops' → OrderOk e'.(order) →
  AttachAuthenticatedAgent e' lim (Some a') c' s' cl' d2 = (d3, k', Ok (g', p')) →
  a'.(ap_DaemonId) = a.(ap_DaemonId) →
  let id := a.(ap_DaemonId) in
  g < g' ∧
  (∀ e, DetachAgent e id g d3 = (d3, [], Some ErrStaleGeneration)) ∧
  (∀ e command, SendAgentCommand e id g (Some command) d3 = (d3, Some ErrStaleGeneration)) ∧
  CloseAgentConnection id g d3 = (d3, [], Some ErrStaleGeneration) ∧
  (∀ res, ApplyDaemonLifecycleResult id g res d3 = (d3, [], Some ErrStaleGeneration)) ∧
  (∀ event, (ResolveAgentSignal id g event d3).1 = d3).
Proof.
  intros Hr Hp Ho Ha Hs Hp' Ho' Ha' Hid. cbn zeta.
  pose proof (reaches_inv _ _ _ _ _ Hr) as Hi.
  assert (exec digest lim e (OAttachAgent (Some a) c s cl) d = d1) as E1 by (cbn [exec]; by rewrite Ha).
  assert (steps digest lim (new_state buffer) (ops ++ [OAttachAgent (Some a) c s cl]) d1) as Hr1.
  { rewrite <- E1. by constructor. }
  pose proof (steps_app _ _ _ _ _ _ _ Hr1 Hs) as Hr2.
  pose proof (reaches_inv _ _ _ _ _ Hr1) as Hi1. pose proof (reaches_inv _ _ _ _ _ Hr2) as Hi2.
  destruct (steps_grows _ _ _ _ _ Hi1 Hs) as [_ [Hg _]].
  destruct (attach_result _ _ _ _ _ _ _ _ _ _ _ Ho Hi Ha) as (-> & Hn1 & _ & _).
  destruct (attach_result _ _ _ _ _ _ _ _ _ _ _ Ho' Hi2 Ha') as (Hg' & Hn3 & Hw & Hpr).
  rewrite Hid in Hw, Hpr. set (id := ap_DaemonId a) in *. set (g0 := nextAgentGeneration d + 1) in *.
  assert (g0 < g') as Hlt by lia. assert (g' ≠ g0) as Hne by lia.
  assert (exec digest lim e' (OAttachAgent (Some a') c' s' cl') d2 = d3) as E3 by (cbn [exec]; by rewrite Ha').
  assert (admitted [] d3) as [_ _ Hsig].
  { eapply (reaches_admitted digest lim buffer).
    - unfold reaches. rewrite <- E3. by constructor.
    - rewrite !Forall_app. split; [split; [split; [done|by repeat constructor]|done]|by repeat constructor]. }
  assert (writer_of d3 id = mkWriter g' s' cl') as Hwr by (unfold writer_of; by rewrite Hw).
  split_and!; [done|..].
  - intros e0. unfold DetachAgent. rewrite Hpr. simpl. by rewrite (proj2 (Z.eqb_neq _ _) Hne).
  - intros e0 cmd. unfold SendAgentCommand. rewrite Hwr. simpl. by rewrite (proj2 (Z.eqb_neq _ _) Hne).
  - unfold CloseAgentConnection. rewrite Hwr. simpl. destruct cl'; [|done].
    by rewrite (proj2 (Z.eqb_neq _ _) Hne).
  - intros res. unfold ApplyDaemonLifecycleResult. rewrite Hwr, Hpr. simpl.
    destruct (daemonStates d3 !! id); [|done]. destruct res; [|done].
    rewrite (proj2 (Z.eqb_neq _ _) Hne). simpl. by rewrite orb_true_r.
  - intros ev. unfold ResolveAgentSignal. destruct ev as [ev|]; [|done].
    destruct (signal_result _) as [[cid sid]|]; [|done].
    destruct (pendingSignals d3 !! cid) as [q|] eqn:Eq; [|done].
    destruct (Hsig cid q Eq) as [(b & Hb & Hbg) _].
    destruct (String.eqb_spec (ps_daemonID q) id) as [Hqd|]; [|done].
    rewrite Hqd, Hpr in Hb. injection Hb as <-. simpl in Hbg.
    rewrite <- Hbg, (proj2 (Z.eqb_neq _ _) Hne). simpl. by rewrite orb_true_r.
Qed.
Lemma generation_fenced_witness :
  let mid := Demo.early in
  let a := Demo.agent in
  let first := AttachAuthenticatedAgent Demo.e Demo.lim (Some a) (Some Demo.claims) (Some 5) (Some 6) mid in
  let second := AttachAuthenticatedAgent Demo.e Demo.lim (Some a) (Some Demo.claims) (Some 7) (Some 8) first.1.1 in
  2 < 3 ∧
  (∀ e, DetachAgent e "d1" 2 second.1.1 = (second.1.1, [], Some ErrStaleGeneration)) ∧
  (∀ e command, SendAgentCommand e "d1" 2 (Some command) second.1.1 = (second.1.1, Some ErrStaleGeneration)) ∧
  CloseAgentConnection "d1" 2 second.1.1 = (second.1.1, [], Some ErrStaleGeneration) ∧
  (∀ res, ApplyDaemonLifecycleResult "d1" 2 res second.1.1 = (second.1.1, [], Some ErrStaleGeneration)) ∧
  (∀ event, (ResolveAgentSignal "d1" 2 event second.1.1).1 = second.1.1).
Proof.
  cbn zeta.
  set (first := AttachAuthenticatedAgent Demo.e Demo.lim (Some Demo.agent) (Some Demo.claims) (Some 5) (Some 6) Demo.early).
  set (second := AttachAuthenticatedAgent Demo.e Demo.lim (Some Demo.agent) (Some Demo.claims) (Some 7) (Some 8) first.1.1).
  eapply (generation_fenced Demo.digest Demo.lim 8 Demo.business_ops [] Demo.early first.1.1 first.1.1 second.1.1
    Demo.e Demo.e Demo.agent Demo.agent (Some Demo.claims) (Some Demo.claims) (Some 5) (Some 7)
    (Some 6) (Some 8) first.1.2 second.1.2 2 3 (Demo.daemon ACTIVE 1) (Demo.daemon ACTIVE 1)
    Demo.reached_early Demo.prod_early).
  - apply _.
  - vm_compute. reflexivity.
  - constructor.
  - constructor.
  - apply _.
  - vm_compute. reflexivity.
  - reflexivity.
Defined.

(** ** Detaching and closing *)

(** Detaching a connection removes everything of its daemon and nothing else: the
    agent, its connection, its sessions and its pending signals go, its Relay groups are
    closed and their credentials revoked, and the closers handed back for running are
    exactly those of the sessions that went. *)
Theorem detach_drains digest lim buffer ops d e id g d' closers :
  reaches digest lim buffer ops d → Forall op_prod ops → OrderOk e.(order) →
  DetachAgent e id g d = (d', closers, None) →
  d'.(agents) = delete id d.(agents) ∧ d'.(agentPresences) = delete id d.(agentPresences) ∧
  d'.(agentWriters) = delete id d.(agentWriters) ∧
  (∀ k s, d'.(sessions) !! k = Some s ↔ d.(sessions) !! k = Some s ∧ s.(cs_DaemonId) ≠ id) ∧
  (∀ c p, d'.(pendingSignals) !! c = Some p ↔
     d.(pendingSignals) !! c = Some p ∧ p.(ps_daemonID) ≠ id) ∧
  (∀ r group, d'.(relayGroups) !! r = Some group → grant_DaemonId group.(gr_grant) = id →
     group.(gr_closing) = true) ∧
  (∀ x, x ∈ closers ↔ ∃ k s c, d.(sessions) !! k = Some s ∧ s.(cs_DaemonId) = id ∧
     d.(sessionClosers) !! k = Some c ∧ c.(sc_close) = Some x).
Proof.
  intros Hr Hp Ho. pose proof (reaches_inv _ _ _ _ _ Hr) as Hi.
  pose proof (reaches_admitted _ _ _ _ _ Hr Hp) as [_ _ Hsig].
  unfold DetachAgent. destruct (agentPresences d !! id) as [a|] eqn:Ea; [|done].
  destruct (_ || _); [done|]. destruct (drainDaemonBusiness e id d) as [d2 cl2] eqn:Ed.
  intros [= <- <-]. pose proof Hi as [_ F Sg _ _ _ Se _ _ _ _].
  assert (drained id d d2 cl2) as [D1 (C1 & C2 & _)%core_fields D3 D4 D5 D6 D7 D8 D9]
    by (by eapply drain_spec).
  simpl. rewrite C1, C2. split_and!; try done.
  - intros c p. rewrite D7, Ea. simpl. unfold cancels. split; intros [Hc Hn]; (split; [done|]).
    + intros Hid. destruct (Hsig c p Hc) as [(b & Hb & Hg) _]. rewrite Hid, Ea in Hb.
      injection Hb as ->. by rewrite Hg, bool_decide_true, Z.eqb_refl in Hn.
    + by rewrite bool_decide_false.
  - intros r gr Hgr Hid. unfold relay_part in D8. injection D8 as D8 _. rewrite D8 in Hgr. simpl in Hgr.
    apply lookup_fmap_Some in Hgr as (g0 & <- & Hg0). case_bool_decide as Hb; [done|]. done.
  - intros x. rewrite D9. split.
    + intros (k & s & Hs & Hd & Hx). destruct (Se k s Hs) as (c & Hc & _).
      unfold closer_of in Hx. rewrite Hc in Hx. by exists k, s, c.
    + intros (k & s & c & Hs & Hd & Hc & Hx). exists k, s. unfold closer_of. by rewrite Hc.
Qed.
Lemma detach_drains_witness :
  let r := DetachAgent Demo.e "d1" 1 Demo.d in
  r.1.2 = [3] ∧
  (∀ c p, r.1.1.(pendingSignals) !! c = Some p ↔
     Demo.d.(pendingSignals) !! c = Some p ∧ p.(ps_daemonID) ≠ "d1"%string) ∧
  (∀ k s, r.1.1.(sessions) !! k = Some s ↔
     Demo.d.(sessions) !! k = Some s ∧ s.(cs_DaemonId) ≠ "d1"%string).
Proof.
  cbn zeta. set (r := DetachAgent Demo.e "d1" 1 Demo.d).
  destruct (detach_drains Demo.digest Demo.lim 8 Demo.ops Demo.d Demo.e "d1" 1 r.1.1 r.1.2
    Demo.reached Demo.prod _ ltac:(vm_compute; reflexivity)) as (_ & _ & _ & H4 & H5 & _ & _).
  split; [vm_compute; reflexivity|]. split; [exact H5|exact H4].
Defined.

(** The functions an owner hands back. *)
Lemma elem_of_closers {A} o `{!OrderOk o} (m : gmap string A) (f : A → option Z) x :
  x ∈ ((range o m).*2 ≫= (λ a, opt_list (f a))) ↔ ∃ k a, m !! k = Some a ∧ f a = Some x.
Proof.
  rewrite list_elem_of_bind. split.
  - intros (a & Hx & ([k b] & -> & Hkb)%list_elem_of_fmap). apply (elem_of_range o) in Hkb.
    simpl in Hx. exists k, b. split; [done|]. destruct (f b); simpl in Hx; [|by apply elem_of_nil in Hx].
    apply list_elem_of_singleton in Hx. by subst.
  - intros (k & a & Hk & Hf). exists a. rewrite Hf. split; [by left|].
    apply list_elem_of_fmap. exists (k, a). split; [done|]. by apply elem_of_range.
Qed.

Lemma elem_of_values {A} o `{!OrderOk o} (m : gmap string A) k a :
  m !! k = Some a → a ∈ (range o m).*2.
Proof. intros Hk. apply list_elem_of_fmap. exists (k, a). split; [done|]. by apply elem_of_range. Qed.

(** The channels of the pending signals are distinct. *)
Lemma pending_channels_nodup o `{!OrderOk o} P tr n :
  signals_ok P tr n → NoDup (ps_result <$> (range o P).*2).
Proof.
  intros [_ H2 _ _]. rewrite <- list_fmap_compose.
  assert (∀ L : list (string * pendingSignal), NoDup L.*1 →
    (∀ k p, (k, p) ∈ L → P !! k = Some p) → NoDup ((ps_result ∘ snd) <$> L)) as HL.
  { induction L as [|[k p] L IH]; intros Hnd Hin; [constructor|]. cbn in *.
    apply NoDup_cons in Hnd as [Hk Hnd]. apply NoDup_cons. split.
    - intros ([k' p'] & Heq & Hp')%list_elem_of_fmap. simpl in Heq.
      apply Hk. rewrite (H2 k k' p p'); [|apply Hin; by left|apply Hin; by right|done].
      by apply (list_elem_of_fmap_2 fst) in Hp'.
    - apply IH; [done|]. intros k' p' Hp'. apply Hin. by right. }
  apply HL; [by apply NoDup_range_fst|]. intros k p Hkp. by apply (elem_of_range o) in Hkp.
Qed.

Lemma count_closing ch (L : list pendingSignal) :
  NoDup (ps_result <$> L) →
  count_closed ch ((λ p, TSignalClosed p.(ps_result)) <$> L) =
  if decide (ch ∈ ps_result <$> L) then 1 else 0.
Proof.
  induction L as [|p L IH]; intros HndL; [done|]. cbn [fmap list_fmap] in *.
  apply NoDup_cons in HndL as [Hp HndL].
  change (?x :: ?l) with ([x] ++ l) at 1. rewrite count_closed_app, (IH HndL).
  destruct (decide (ch = ps_result p)) as [->|Hne].
  - rewrite decide_False by done. rewrite decide_True by by left.
    by destruct (count_one (ps_result p) (mkEvent EvUnrelated "")) as (-> & _).
  - rewrite count_closed_none; [|by intros [= ?]%list_elem_of_singleton].
    apply decide_ext. rewrite elem_of_cons. naive_solver.
Qed.

(** Closing the channels of all pending signals closes none twice. *)
Lemma closing_all_once o `{!OrderOk o} P tr n ch :
  signals_ok P tr n →
  count_closed ch tr +
    count_closed ch ((λ p, TSignalClosed p.(ps_result)) <$> (range o P).*2) ≤ 1.
Proof.
  intros Hok. rewrite count_closing by (by eapply pending_channels_nodup).
  destruct Hok as [H1 _ _ H4]. specialize (H4 ch). case_decide as Hin; [|lia].
  apply list_elem_of_fmap in Hin as (p & -> & ([k q] & -> & Hkq)%list_elem_of_fmap).
  apply (elem_of_range o) in Hkq. destruct (H1 k q Hkq) as (_ & Hn & _). simpl.
  rewrite count_closed_none by done. lia.
Qed.

(** Closing the state releases everything it owns exactly once: the closers handed
    back are those of all connections and sessions, every pending signal's channel ends
    closed, no channel is closed twice, and no feed stays subscribed. *)
Theorem close_releases_all digest lim buffer ops d e :
  reaches digest lim buffer ops d → OrderOk e.(order) →
  let d' := (CloseState e d).1 in
  (∀ x, x ∈ (CloseState e d).2 ↔
     (∃ id w, d.(agentWriters) !! id = Some w ∧ w.(aw_close) = Some x) ∨
     (∃ k c, d.(sessionClosers) !! k = Some c ∧ c.(sc_close) = Some x)) ∧
  (∀ c p, d.(pendingSignals) !! c = Some p → TSignalClosed p.(ps_result) ∈ d'.(trace)) ∧
  (∀ id, id ∈ d.(subscribers) → TFeedClosed id ∈ d'.(trace)) ∧
  (∀ ch, count_closed ch (signal_trace d') ≤ 1) ∧
  d'.(agentWriters) = ∅ ∧ d'.(sessionClosers) = ∅ ∧ d'.(pendingSignals) = ∅ ∧ d'.(subscribers) = ∅.
Proof.
  intros Hr%reaches_inv Ho. unfold CloseState. simpl. split_and!; try done.
  - intros x. rewrite elem_of_app, !elem_of_closers by done. done.
  - intros c p Hp. rewrite !elem_of_app. right. left. apply list_elem_of_fmap. exists p. split; [done|].
    by eapply elem_of_values.
  - intros id Hid. rewrite !elem_of_app. right. right. apply list_elem_of_fmap. exists id.
    split; [done|]. by apply elem_of_elements.
  - intros ch. unfold signal_trace. simpl. rewrite !filter_app, !count_closed_app.
    rewrite (list_filter_none _ (TFeedClosed <$> _)) by (by intros t (i & -> & _)%list_elem_of_fmap).
    rewrite (list_filter_all _ ((λ p, TSignalClosed _) <$> _)) by (by intros t (i & -> & _)%list_elem_of_fmap).
    pose proof (closing_all_once e.(order) _ _ _ ch (ei_signals _ _ Hr)) as Hc.
    change (count_closed ch []) with 0. unfold signal_trace in Hc. lia.
Qed.
Lemma close_releases_all_witness :
  (CloseState Demo.e Demo.d).2 = [2; 3] ∧
  ∀ ch, count_closed ch (signal_trace (CloseState Demo.e Demo.d).1) ≤ 1.
Proof.
  split; [vm_compute; reflexivity|].
  apply (close_releases_all Demo.digest Demo.lim 8 Demo.ops Demo.d Demo.e Demo.reached _).
Defined.
