(* ===== verification/RelayTheorems.v ===== *)
(** * What the Relay reservations guarantee

    Properties of [cloud/edge/runtime/relay_state.go] and
    [cloud/relayquota/canonical.go], for every sequence of requests to the Edge actor. *)
From S2P Require Import Prelude GoStd Limiter EdgeState Relay EdgeWorld EdgeFacts EdgeInv RelayFacts EdgeTheorems.
Local Open Scope Z_scope.

(** C30: the counters of a reservation group are exact and bounded. In every reachable
    state they are the number of its pending, active and closing allocations, at most
    four together; all live Relay objects stay within the Edge limit; and a credential
    names an open group that it was issued for. *)
Theorem relay_counts_exact digest lim buffer ops d :
  reaches digest lim buffer ops d →
  (∀ id g, d.(relayGroups) !! id = Some g →
     g.(gr_pending) = pending_of id d ∧ g.(gr_active) = active_of id d ∧
     g.(gr_closeActive) = closing_of id d ∧
     g.(gr_pending) + g.(gr_active) + g.(gr_closeActive) ≤ 4) ∧
  liveRelayObjects d ≤ 4096 ∧
  (∀ u r, d.(relayAuth) !! u = Some r →
     ∃ g, d.(relayGroups) !! r = Some g ∧ g.(gr_username) = u ∧ g.(gr_closing) = false).
Proof.
  intros Hr%reaches_relay. split; [|split; [apply Hr|apply Hr]].
  intros id g Hg. destruct (ri_counts _ Hr id g Hg). done.
Qed.
Lemma relay_counts_exact_witness :
  (∀ id g, Demo.d.(relayGroups) !! id = Some g →
     g.(gr_pending) = pending_of id Demo.d ∧ g.(gr_active) = active_of id Demo.d ∧
     g.(gr_closeActive) = closing_of id Demo.d ∧
     g.(gr_pending) + g.(gr_active) + g.(gr_closeActive) ≤ 4) ∧
  liveRelayObjects Demo.d ≤ 4096 ∧
  (∀ u r, Demo.d.(relayAuth) !! u = Some r →
     ∃ g, Demo.d.(relayGroups) !! r = Some g ∧ g.(gr_username) = u ∧ g.(gr_closing) = false).
Proof. apply (relay_counts_exact Demo.digest Demo.lim 8 Demo.ops Demo.d Demo.reached). Defined.

(** Ending an allocation cannot break the counters. Beginning to close one never
    fails, and closing one fails only when its bytes would overflow the group's
    aggregate, in which case the state is unchanged: the underflow and missing-group
    errors of the code are unreachable. *)
Theorem relay_close_total digest lim buffer ops d :
  reaches digest lim buffer ops d →
  (∀ a, (BeginRelayAllocationClose a d).2 = None) ∧
  (∀ a ingress egress err, 0 ≤ ingress < 2 ^ 64 → 0 ≤ egress < 2 ^ 64 →
     (CloseRelayAllocation a ingress egress d).2 = Some err →
     err = "Relay allocation counters overflow group aggregate"%string ∧
     (CloseRelayAllocation a ingress egress d).1 = d).
Proof.
  intros Hr%reaches_relay. split; [intros a; by apply begin_close_spec|].
  intros a i g err Hi Hg. apply close_allocation_spec; [done|unfold MaxUint64; lia..].
Qed.
Lemma relay_close_total_witness :
  (∀ a, (BeginRelayAllocationClose a Demo.d).2 = None) ∧
  (∀ a ingress egress err, 0 ≤ ingress < 2 ^ 64 → 0 ≤ egress < 2 ^ 64 →
     (CloseRelayAllocation a ingress egress Demo.d).2 = Some err →
     err = "Relay allocation counters overflow group aggregate"%string ∧
     (CloseRelayAllocation a ingress egress Demo.d).1 = Demo.d).
Proof. apply (relay_close_total Demo.digest Demo.lim 8 Demo.ops Demo.d Demo.reached). Defined.

(** ** Settlement *)
Lemma settle_group sid t (L : list relayGroup) st :
  settle sid t L = Ok (Some st) →
  ∃ g, g ∈ L ∧ g.(gr_grant).(rg_SessionId) = sid ∧ group_static g = true ∧
    g.(gr_ingress) ≤ g.(gr_grant).(rg_ReservedBytes) ∧
    g.(gr_ingress) + g.(gr_egress) ≤ g.(gr_grant).(rg_ReservedBytes) ∧
    st = mkSettlement g.(gr_grant).(rg_ReservationId) KindExact g.(gr_ingress) g.(gr_egress)
           g.(gr_grant).(rg_PolicyDigest) (Some (timestamp_New t)).
Proof.
  induction L as [|g L IH]; [done|]. cbn [settle].
  destruct (String.eqb_spec g.(gr_grant).(rg_SessionId) sid) as [Hs|]; cbn [negb].
  - destruct (group_static g) eqn:Est; [|done]. cbn [negb].
    destruct (_ || _) eqn:Eo; [done|]. apply orb_false_iff in Eo as [E1 E2].
    rewrite Z.gtb_ltb, Z.ltb_ge in E1, E2. intros [= <-]. exists g. split; [by left|].
    split_and!; try done; lia.
  - intros H. destruct (IH H) as (g' & Hg & Hr). exists g'. split; [by right|done].
Qed.

(** A settlement is exact and final. It reports the bytes of a group of the session
    that is closed and has no allocation left, never more than was reserved; and until
    the group is forgotten no request changes what was reported. *)
Theorem settlement_final digest lim buffer ops d e sid t st :
  reaches digest lim buffer ops d → OrderOk e.(order) →
  RelaySessionSettlement e sid t d = Ok (Some st) →
  ∃ r g, d.(relayGroups) !! r = Some g ∧ g.(gr_grant).(rg_SessionId) = sid ∧
    st = mkSettlement g.(gr_grant).(rg_ReservationId) KindExact g.(gr_ingress) g.(gr_egress)
           g.(gr_grant).(rg_PolicyDigest) (Some (timestamp_New t)) ∧
    0 ≤ st.(st_IngressBytes) ∧ 0 ≤ st.(st_EgressBytes) ∧
    st.(st_IngressBytes) + st.(st_EgressBytes) ≤ g.(gr_grant).(rg_ReservedBytes) ∧
    (∀ k p, d.(relayPending) !! k = Some p → p.(pa_groupID) ≠ r) ∧
    (∀ k a, d.(allocations) !! k = Some a → a.(al_groupID) ≠ r) ∧
    ∀ ops' d', steps digest lim d ops' d' → Forall (λ o, ∀ i, o ≠ OForgetGroup i) ops' →
      still r g d'.
Proof.
  intros Hr Ho Hst. pose proof (reaches_inv _ _ _ _ _ Hr) as Hi.
  pose proof (reaches_relay _ _ _ _ _ Hr) as Hri.
  unfold RelaySessionSettlement in Hst.
  apply settle_group in Hst as (g & Hg & Hs & Hstat & Hle & Hsum & ->).
  apply list_elem_of_fmap in Hg as ([r g'] & Heq & Hg%(elem_of_range e.(order))). simpl in Heq. subst g'.
  exists r, g. destruct (ri_counts _ Hri r g Hg) as [_ _ _ _ Hin Heg]. simpl.
  destruct (static_empty d r g Hri Hg Hstat) as [Hnp Hna].
  split_and!; try done; try lia. intros ops' d' Hsteps Hnf.
  enough (edge_inv lim d' ∧ relay_inv d' ∧ still r g d') by tauto.
  eapply (steps_inv digest lim (λ o, ∀ i, o ≠ OForgetGroup i)
    (λ d', edge_inv lim d' ∧ relay_inv d' ∧ still r g d')); [|exact Hnf| |exact Hsteps].
  - intros e' o d0 Ho' Hop Hno (H1 & H2 & H3).
    split; [by apply exec_inv|]. split; [by apply (exec_relay_inv digest lim)|by apply exec_still].
  - split; [done|]. split; [done|]. exists g. split; [done|]. by split_and!.
Qed.
Lemma settlement_final_witness :
  let st := mkSettlement "r1" KindExact 500 700 Demo.digest32 (Some (mkTimestamp 0 40)) in
  RelaySessionSettlement Demo.e "rs1" 40 Demo.d = Ok (Some st) ∧
  ∃ r g, Demo.d.(relayGroups) !! r = Some g ∧
    ∀ ops' d', steps Demo.digest Demo.lim Demo.d ops' d' →
      Forall (λ o, ∀ i, o ≠ OForgetGroup i) ops' → still r g d'.
Proof.
  cbn zeta. split; [vm_compute; reflexivity|].
  destruct (settlement_final Demo.digest Demo.lim 8 Demo.ops Demo.d Demo.e "rs1" 40
    (mkSettlement "r1" KindExact 500 700 Demo.digest32 (Some (mkTimestamp 0 40))) Demo.reached _ ltac:(vm_compute; reflexivity))
    as (r & g & Hg & _ & _ & _ & _ & _ & _ & _ & Hk).
  exists r, g. split; [exact Hg|exact Hk].
Defined.

(** ** Credentials *)

(** A TURN credential is honoured only for an open, unexpired reservation group that
    was issued to that user name, and what is returned is that group's grant and
    password (groups have a non-empty reservation id). *)
Theorem relay_auth_sound digest lim buffer ops d u t d' grant password :
  reaches digest lim buffer ops d → d.(relayGroups) !! ""%string = None →
  RelayAuth u t d = (d', Some (grant, password)) →
  d' = d ∧ ∃ r g, d.(relayAuth) !! TrimSpace u = Some r ∧ d.(relayGroups) !! r = Some g ∧
    g.(gr_username) = TrimSpace u ∧ g.(gr_closing) = false ∧
    t < AsTime grant.(rg_AuthorizedUntil) ∧
    grant = g.(gr_grant) ∧ password = g.(gr_material).(ri_Credential).
Proof.
  intros Hr%reaches_relay Hne. unfold RelayAuth. destruct (String.eqb _ _); [done|].
  destruct (auth_group (TrimSpace u) d) as [g|] eqn:Eg; [|done].
  destruct (group_usable g t) eqn:Eu; [|done]. intros [= <- <- <-]. split; [done|].
  unfold auth_group in Eg. destruct (relayAuth d !! TrimSpace u) as [r|] eqn:Er; simpl in Eg; [|congruence].
  destruct (ri_auth _ Hr _ _ Er) as (g' & Hg' & Hu & Hc). assert (g' = g) as -> by congruence.
  exists r, g. unfold group_usable, After in Eu.
  apply andb_true_iff in Eu as [_ Eu%Z.ltb_lt]. done.
Qed.
Lemma relay_auth_sound_witness :
  let d := Demo.run Demo.digest Demo.lim Demo.e
             (Demo.business_ops ++ [ORegisterRelay (Some Demo.grant) (Some Demo.material)]) (new_state 8) in
  RelayAuth " user1" 20 d = (d, Some (Demo.grant, "secret"%string)) ∧
  ∃ r g, d.(relayAuth) !! TrimSpace " user1" = Some r ∧ d.(relayGroups) !! r = Some g ∧
    g.(gr_username) = TrimSpace " user1" ∧ g.(gr_closing) = false.
Proof.
  cbn zeta. set (ops := Demo.business_ops ++ [ORegisterRelay (Some Demo.grant) (Some Demo.material)]).
  set (d := Demo.run _ _ _ _ _).
  assert (reaches Demo.digest Demo.lim 8 ops d) as Hr by (apply Demo.run_steps; [apply _|repeat constructor]).
  split; [vm_compute; reflexivity|].
  destruct (relay_auth_sound Demo.digest Demo.lim 8 ops d " user1" 20 d Demo.grant "secret" Hr
    ltac:(vm_compute; reflexivity) ltac:(vm_compute; reflexivity)) as (_ & r & g & H1 & H2 & H3 & H4 & _).
  exists r, g. exact (conj H1 (conj H2 (conj H3 H4))).
Defined.

(** ** Policy digests *)
#[export] Instance str_before_po : PartialOrder str_before.
Proof.
  unfold str_before, string_le. split; [split|].
  - intros a. by destruct (String.leb_total a a).
  - intros a b c. rewrite <- !Is_true_true. apply (transitivity (R := String.le)).
  - intros a b. apply String.leb_antisym.
Qed.
#[export] Instance str_before_total : Total str_before.
Proof. intros a b. apply String.leb_total. Qed.

Lemma compact_cons a b l :
  compact (a :: b :: l) = if String.eqb a b then compact (b :: l) else a :: compact (b :: l).
Proof. done. Qed.

Lemma elem_of_compact x l : x ∈ compact l ↔ x ∈ l.
Proof.
  induction l as [|a l IH]; [done|]. destruct l as [|b l]; [done|].
  rewrite compact_cons. destruct (String.eqb_spec a b) as [->|Hne].
  - rewrite IH, elem_of_cons. rewrite !elem_of_cons. naive_solver.
  - by rewrite elem_of_cons, IH, (elem_of_cons (b :: l)).
Qed.

Lemma compact_sorted l :
  StronglySorted str_before l → StronglySorted str_before (compact l) ∧ NoDup (compact l).
Proof.
  induction l as [|a l IH]; intros Hs; [by split; constructor|].
  destruct l as [|b l]; [split; repeat constructor; by intros ?%elem_of_nil|].
  apply StronglySorted_inv in Hs as [Hs Ha]. destruct (IH Hs) as [H1 H2].
  rewrite compact_cons. destruct (String.eqb_spec a b) as [->|Hne]; [done|].
  rewrite Forall_forall in Ha. split; constructor; try done.
  - apply Forall_forall. intros x. rewrite elem_of_compact. apply Ha.
  - rewrite elem_of_compact. intros Hin. apply Hne. apply (anti_symm str_before); [apply Ha; by left|].
    apply elem_of_cons in Hin as [->|Hin]; [done|].
    apply StronglySorted_inv in Hs as [_ Hb]. rewrite Forall_forall in Hb. by apply Hb.
Qed.

(** The policy digest is canonical: two policies are hashed as the same message
    exactly when they agree on everything but the order, repetition and surrounding
    white space of their allowed regions. *)
Theorem policy_digest_canonical p q :
  canonical_policy p = canonical_policy q ↔
  p.(rp_DaemonId) = q.(rp_DaemonId) ∧ p.(rp_Other) = q.(rp_Other) ∧
  ∀ r, r ∈ TrimSpace <$> p.(rp_AllowedRegions) ↔ r ∈ TrimSpace <$> q.(rp_AllowedRegions).
Proof.
  unfold canonical_policy, set_field. simpl.
  set (P := TrimSpace <$> rp_AllowedRegions p). set (Q := TrimSpace <$> rp_AllowedRegions q).
  assert (∀ L x, x ∈ compact (merge_sort str_before L) ↔ x ∈ L) as Hel.
  { intros L x. by rewrite elem_of_compact, merge_sort_Permutation. }
  assert (∀ L, StronglySorted str_before (merge_sort str_before L)) as Hss
    by (intros L; by apply (StronglySorted_merge_sort _)).
  split.
  - intros [= H1 H2 H3]. split; [done|]. split; [done|]. intros r. by rewrite <- (Hel P), <- (Hel Q), H2.
  - intros (H1 & H2 & H3). rewrite H1, H2. f_equal.
    destruct (compact_sorted _ (Hss P)) as [S1 N1]. destruct (compact_sorted _ (Hss Q)) as [S2 N2].
    apply (StronglySorted_unique str_before); [done|done|].
    apply NoDup_Permutation; [done|done|]. intros r. by rewrite !Hel.
Qed.

(** ** A finding *)

(** Invalidating the daemon states does not reach a Relay group whose daemon has no
    attached connection: a grant may be registered for a daemon that is ACTIVE but
    detached, and after the Controller stream ends its credential still authenticates
    and still admits a new physical allocation. *)
Theorem invalidate_misses_detached_relay :
  ∃ ops d, reaches Demo.digest Demo.lim 8 ops d ∧ d.(daemonStatesReady) = false ∧
    d.(agentWriters) = ∅ ∧
    (RelayAuth "user1" 20 d).2 = Some (Demo.grant, "secret"%string) ∧
    is_ok (ReserveRelayAllocation "p1" "user1" 20 d).2 = true.
Proof.
  set (ops := [ODaemonSnapshot [Some (Demo.daemon ACTIVE 1)];
               ORegisterRelay (Some Demo.grant) (Some Demo.material); OInvalidate]).
  exists ops, (Demo.run Demo.digest Demo.lim Demo.e ops (new_state 8)).
  split; [apply Demo.run_steps; [apply _|repeat constructor]|].
  split_and!; vm_compute; reflexivity.
Qed.
