(* ===== verification/EdgeActor.v ===== *)
(** * The Edge actor: callers, cancellation and shutdown

    [callUnderGate], [run] and [Close] of [cloud/edge/runtime/state.go] as a step
    relation: callers that hold the gate, post a request to the mailbox and wait for its
    result or their context, the actor goroutine that takes requests in order, and the
    one [Close] that runs ([closeOnce]). A caller is the number of its request; the
    request's effect on the state is [exec] of [EdgeWorld]. *)
From S2P Require Import Prelude GoStd Limiter EdgeState Relay EdgeWorld EdgeFacts EdgeInv.
Local Open Scope Z_scope.

Inductive lifecycle := requestQueued | requestExecuting | requestCanceled.
#[export] Instance lifecycle_eq_dec : EqDecision lifecycle.
Proof. solve_decision. Defined.

(** What a call returns: the result of the request, the context's error, or
    [ErrStateClosed]. *)
Inductive outcome := Ran | CtxErr | StateClosed.

(** Where a caller is: before the gate, before the test of [closing], in the first
    select, in the second one, in the final receive, returned. *)
Inductive caller := CIdle | CGate | CSend | CWait | CRecv | CRet (o : outcome).
(** Where [Close] is: not called, before the send of the stop request, waiting for its
    result and [done], returned. *)
Inductive closer := KIdle | KSend | KWait | KDone.
(** The actor: before a receive, before the send of a result, returned. *)
Inductive actor := ATake | AReply (r : option nat) | AExit.

(** [w_log]: a ghost, the requests that ran, in order. The stop request is [None]. *)
Record world := mkWorld {
  w_mailbox : list (option nat);
  w_life : nat → lifecycle;
  w_result : nat → option outcome;
  w_caller : nat → caller;
  w_closing : bool;
  w_closer : closer;
  w_stop_result : bool;
  w_actor : actor;
  w_data : stateData;
  w_log : list nat }.
#[export] Instance eta_world : Eta world := λ w,
  mkWorld w.(w_mailbox) w.(w_life) w.(w_result) w.(w_caller) w.(w_closing) w.(w_closer)
    w.(w_stop_result) w.(w_actor) w.(w_data) w.(w_log).

Definition upd {A} (f : nat → A) (i : nat) (x : A) : nat → A := λ j, if decide (j = i) then x else f j.
Lemma upd_eq {A} (f : nat → A) i x : upd f i x i = x.
Proof. unfold upd. by rewrite decide_True. Qed.
Lemma upd_ne {A} (f : nat → A) i j x : j ≠ i → upd f i x j = f j.
Proof. intros Hne. unfold upd. by rewrite decide_False. Qed.

(** Whether a caller holds the read side of the gate. *)
Definition holds_gate (c : caller) : bool :=
  match c with CIdle | CRet _ => false | _ => true end.

Section actor.
Context (digest : RelayPolicySnapshot → result string) (lim : stateLimits).
Context (capacity : Z) (buffer : Z) (req : nat → op) (envs : nat → env) (stop_env : env).

Definition init : world :=
  mkWorld [] (λ _, requestQueued) (λ _, None) (λ _, CIdle) false KIdle false ATake (new_state buffer) [].

Definition goto (i : nat) (c : caller) (w : world) : world :=
  w <| w_caller := upd w.(w_caller) i c |>.

(** The steps that need neither a context to end nor a new call. *)
Inductive act : world → world → Prop :=
(* [run] receives a request; a cancelled one is skipped. *)
| act_skip w i rest :
    w.(w_actor) = ATake → w.(w_mailbox) = Some i :: rest → w.(w_life) i ≠ requestQueued →
    act w (w <| w_mailbox := rest |>)
| act_run w i rest :
    w.(w_actor) = ATake → w.(w_mailbox) = Some i :: rest → w.(w_life) i = requestQueued →
    act w (w <| w_mailbox := rest |> <| w_life := upd w.(w_life) i requestExecuting |>
             <| w_data := exec digest lim (envs i) (req i) w.(w_data) |>
             <| w_log := w.(w_log) ++ [i] |> <| w_actor := AReply (Some i) |>)
| act_stop w rest :
    w.(w_actor) = ATake → w.(w_mailbox) = None :: rest →
    act w (w <| w_mailbox := rest |> <| w_data := (CloseState stop_env w.(w_data)).1 |>
             <| w_actor := AReply None |>)
(* [request.result <- ...]: the channel holds one value. *)
| act_reply w i :
    w.(w_actor) = AReply (Some i) → w.(w_result) i = None →
    act w (w <| w_result := upd w.(w_result) i (Some Ran) |> <| w_actor := ATake |>)
| act_exit w :
    w.(w_actor) = AReply None →
    act w (w <| w_stop_result := true |> <| w_actor := AExit |>).

Inductive step : world → world → Prop :=
| step_act w w' : act w w' → step w w'
(* callUnderGate, with the gate of its caller *)
| step_enter w i :
    w.(w_caller) i = CIdle → step w (goto i CGate w)
| step_refused w i :
    w.(w_caller) i = CGate → w.(w_closing) = true → step w (goto i (CRet StateClosed) w)
| step_open w i :
    w.(w_caller) i = CGate → w.(w_closing) = false → step w (goto i CSend w)
| step_send_ctx w i :
    w.(w_caller) i = CSend → step w (goto i (CRet CtxErr) w)
| step_send_done w i :
    w.(w_caller) i = CSend → w.(w_actor) = AExit → step w (goto i (CRet StateClosed) w)
| step_send w i :
    w.(w_caller) i = CSend → len w.(w_mailbox) < capacity →
    step w (goto i CWait w <| w_mailbox := w.(w_mailbox) ++ [Some i] |>)
| step_result w i o :
    w.(w_caller) i = CWait ∨ w.(w_caller) i = CRecv → w.(w_result) i = Some o →
    step w (goto i (CRet o) w <| w_result := upd w.(w_result) i None |>)
| step_cancel w i :
    w.(w_caller) i = CWait → w.(w_life) i = requestQueued →
    step w (goto i (CRet CtxErr) w <| w_life := upd w.(w_life) i requestCanceled |>
              <| w_result := upd w.(w_result) i (Some CtxErr) |>)
| step_cancel_late w i :
    w.(w_caller) i = CWait → w.(w_life) i ≠ requestQueued → step w (goto i CRecv w)
(* Close *)
| step_close w :
    w.(w_closer) = KIdle → (∀ i, holds_gate (w.(w_caller) i) = false) →
    step w (w <| w_closing := true |> <| w_closer := KSend |>)
| step_close_send w :
    w.(w_closer) = KSend → len w.(w_mailbox) < capacity →
    step w (w <| w_mailbox := w.(w_mailbox) ++ [None] |> <| w_closer := KWait |>)
| step_close_done w :
    w.(w_closer) = KWait → w.(w_stop_result) = true → w.(w_actor) = AExit →
    step w (w <| w_closer := KDone |>).

Inductive reachable : world → Prop :=
| reachable_init : reachable init
| reachable_step w w' : reachable w → step w w' → reachable w'.

(** ** The invariant *)

(** What holds of the request [i]. *)
Inductive request_state (w : world) (i : nat) : Prop :=
| rs_new :
    (w.(w_caller) i = CIdle ∨ w.(w_caller) i = CGate ∨ w.(w_caller) i = CSend) →
    w.(w_life) i = requestQueued → w.(w_result) i = None → Some i ∉ w.(w_mailbox) →
    i ∉ w.(w_log) → w.(w_actor) ≠ AReply (Some i) → request_state w i
| rs_refused o :
    w.(w_caller) i = CRet o → o ≠ Ran → w.(w_life) i = requestQueued → Some i ∉ w.(w_mailbox) →
    i ∉ w.(w_log) → w.(w_actor) ≠ AReply (Some i) → request_state w i
| rs_queued :
    w.(w_caller) i = CWait → w.(w_life) i = requestQueued → w.(w_result) i = None →
    Some i ∈ w.(w_mailbox) → i ∉ w.(w_log) → w.(w_actor) ≠ AReply (Some i) → request_state w i
| rs_cancelled :
    w.(w_caller) i = CRet CtxErr → w.(w_life) i = requestCanceled →
    i ∉ w.(w_log) → w.(w_actor) ≠ AReply (Some i) → request_state w i
| rs_running :
    (w.(w_caller) i = CWait ∨ w.(w_caller) i = CRecv) → w.(w_life) i = requestExecuting →
    Some i ∉ w.(w_mailbox) → i ∈ w.(w_log) →
    (w.(w_actor) = AReply (Some i) ∧ w.(w_result) i = None ∨
     w.(w_actor) ≠ AReply (Some i) ∧ w.(w_result) i = Some Ran) → request_state w i
| rs_ran :
    w.(w_caller) i = CRet Ran → w.(w_life) i = requestExecuting → Some i ∉ w.(w_mailbox) →
    i ∈ w.(w_log) → w.(w_actor) ≠ AReply (Some i) → request_state w i.

(** What holds of the shutdown. *)
Inductive close_state (w : world) : Prop :=
| cs_open :
    w.(w_closing) = false → w.(w_closer) = KIdle → None ∉ w.(w_mailbox) →
    w.(w_actor) ≠ AReply None → w.(w_actor) ≠ AExit → close_state w
| cs_closing :
    w.(w_closing) = true → w.(w_closer) = KSend → None ∉ w.(w_mailbox) →
    w.(w_actor) ≠ AReply None → w.(w_actor) ≠ AExit → close_state w
| cs_posted :
    w.(w_closing) = true → w.(w_closer) = KWait → None ∈ w.(w_mailbox) →
    w.(w_actor) ≠ AReply None → w.(w_actor) ≠ AExit → close_state w
| cs_stopping :
    w.(w_closing) = true → w.(w_closer) = KWait → None ∉ w.(w_mailbox) →
    w.(w_actor) = AReply None → close_state w
| cs_stopped :
    w.(w_closing) = true → w.(w_closer) = KWait ∨ w.(w_closer) = KDone → None ∉ w.(w_mailbox) →
    w.(w_actor) = AExit → w.(w_stop_result) = true → close_state w.

(** The state is what the requests that ran made of it. *)
Definition data_state (w : world) : Prop :=
  match w.(w_actor) with
  | AReply None | AExit =>
      ∃ d, reaches digest lim buffer (req <$> w.(w_log)) d ∧ w.(w_data) = (CloseState stop_env d).1
  | _ => reaches digest lim buffer (req <$> w.(w_log)) w.(w_data)
  end.

Record actor_inv (w : world) : Prop := {
  av_requests : ∀ i, request_state w i;
  av_close : close_state w;
  av_closing : w.(w_closing) = true → ∀ i,
    w.(w_caller) i ≠ CSend ∧ w.(w_caller) i ≠ CWait ∧ w.(w_caller) i ≠ CRecv;
  av_mailbox : NoDup w.(w_mailbox);
  av_log : NoDup w.(w_log);
  av_capacity : len w.(w_mailbox) ≤ Z.max 0 capacity;
  av_data : data_state w }.

Context (envs_ok : ∀ i, OrderOk (envs i).(order) ∧ op_ok (req i)).

Lemma init_inv : actor_inv init.
Proof.
  split; simpl; try done.
  - intros i. by apply rs_new; [left|..]; try done; intros ?%elem_of_nil.
  - by apply cs_open; try done; intros ?%elem_of_nil.
  - constructor.
  - constructor.
  - unfold len. simpl. lia.
  - constructor.
Qed.

(** A request the step does not concern. *)
Lemma request_frame w w' i :
  w'.(w_caller) i = w.(w_caller) i → w'.(w_life) i = w.(w_life) i → w'.(w_result) i = w.(w_result) i →
  (Some i ∈ w'.(w_mailbox) ↔ Some i ∈ w.(w_mailbox)) → (i ∈ w'.(w_log) ↔ i ∈ w.(w_log)) →
  (w'.(w_actor) = AReply (Some i) ↔ w.(w_actor) = AReply (Some i)) →
  request_state w i → request_state w' i.
Proof.
  intros H1 H2 H3 H4 H5 H6 Hs.
  destruct Hs; [apply rs_new|eapply rs_refused|apply rs_queued|apply rs_cancelled|apply rs_running|apply rs_ran];
    rewrite ?H1, ?H2, ?H3, ?H4, ?H5, ?H6; done.
Qed.

Lemma close_frame w w' :
  w'.(w_closing) = w.(w_closing) → w'.(w_closer) = w.(w_closer) →
  w'.(w_stop_result) = w.(w_stop_result) → (None ∈ w'.(w_mailbox) ↔ None ∈ w.(w_mailbox)) →
  (w'.(w_actor) = AReply None ↔ w.(w_actor) = AReply None) →
  (w'.(w_actor) = AExit ↔ w.(w_actor) = AExit) → close_state w → close_state w'.
Proof.
  intros H1 H2 H3 H4 H5 H6 Hs. destruct Hs.
  - apply cs_open; rewrite ?H1, ?H2, ?H4, ?H5, ?H6; done.
  - apply cs_closing; rewrite ?H1, ?H2, ?H4, ?H5, ?H6; done.
  - apply cs_posted; rewrite ?H1, ?H2, ?H4, ?H5, ?H6; done.
  - apply cs_stopping; rewrite ?H1, ?H2, ?H4, ?H5, ?H6; done.
  - apply cs_stopped; rewrite ?H1, ?H2, ?H3, ?H4, ?H5, ?H6; done.
Qed.

(** While a request waits, the actor has not stopped. *)
Lemma open_of_caller w i :
  actor_inv w → w.(w_caller) i = CSend ∨ w.(w_caller) i = CWait ∨ w.(w_caller) i = CRecv →
  w.(w_closing) = false.
Proof.
  intros Hi Hc. destruct (w_closing w) eqn:E; [|done].
  destruct (av_closing _ Hi E i) as (? & ? & ?). naive_solver.
Qed.

Lemma data_frame w w' :
  w'.(w_data) = w.(w_data) → w'.(w_log) = w.(w_log) →
  w'.(w_actor) = w.(w_actor) → data_state w → data_state w'.
Proof. unfold data_state. by intros -> -> ->. Qed.

Lemma act_inv w w' : actor_inv w → act w w' → actor_inv w'.
Proof.
  intros Hi Hact. pose proof Hi as [Hr Hc Hcl Hnd Hlog Hcap Hdata].
  destruct Hact as [w i rest Ha Hm Hl|w i rest Ha Hm Hl|w rest Ha Hm|w i Ha Hn|w Ha].
  - rewrite Hm in *. apply NoDup_cons in Hnd as [Hni Hnd]. split; try done; simpl.
    + intros j. destruct (decide (j = i)) as [->|Hne].
      * specialize (Hr i). destruct Hr as [|o H1 H2 H3 H4|H1 H2|H1 H2 H3 H4|H1 H2 H3|H1 H2 H3]; try done.
        -- by apply rs_cancelled.
        -- exfalso. apply H3. rewrite Hm. by left.
        -- exfalso. apply H3. rewrite Hm. by left.
      * eapply request_frame; [..|apply Hr]; try done. simpl. rewrite Hm, elem_of_cons. naive_solver.
    + eapply close_frame; [..|exact Hc]; try done. simpl. rewrite Hm, elem_of_cons. naive_solver.
    + unfold len in *. simpl in *. lia.
  - rewrite Hm in *. apply NoDup_cons in Hnd as [Hni Hnd].
    assert (w.(w_caller) i = CWait ∧ w.(w_result) i = None ∧ i ∉ w.(w_log)) as (Hci & Hri & Hli).
    { specialize (Hr i). destruct Hr as [H1 H2 H3 H4|o H1 H2 H3 H4|H1 H2|H1 H2|H1 H2|H1 H2]; try congruence; try done.
      - exfalso. apply H4. rewrite Hm. by left.
      - exfalso. apply H4. rewrite Hm. by left. }
    split; try done; simpl.
    + intros j. destruct (decide (j = i)) as [->|Hne].
      * apply rs_running; simpl; rewrite ?upd_eq; try done; [by left| |by left].
        apply elem_of_app. right. by left.
      * eapply request_frame; [..|apply Hr]; simpl; rewrite ?upd_ne by done; try done.
        -- rewrite Hm, elem_of_cons. naive_solver.
        -- rewrite elem_of_app, list_elem_of_singleton. naive_solver.
        -- rewrite Ha. naive_solver.
    + eapply close_frame; [..|exact Hc]; simpl; try done; rewrite ?Hm, ?elem_of_cons, ?Ha; naive_solver.
    + apply NoDup_app. split; [done|]. split; [|by repeat constructor; intros ?%elem_of_nil].
      intros j Hj ->%list_elem_of_singleton. done.
    + unfold len in *. simpl in *. lia.
    + unfold data_state in *. rewrite Ha in Hdata. simpl. rewrite fmap_app.
      destruct (envs_ok i). by constructor.
  - rewrite Hm in *. apply NoDup_cons in Hnd as [Hni Hnd]. split; try done; simpl.
    + intros j. eapply request_frame; [..|apply Hr]; simpl; try done.
      * rewrite Hm, elem_of_cons. naive_solver.
      * rewrite Ha. naive_solver.
    + assert (None ∈ w.(w_mailbox)) as Hin by (rewrite Hm; by left).
      destruct Hc; try done. by apply cs_stopping.
    + unfold len in *. simpl in *. lia.
    + unfold data_state in *. rewrite Ha in Hdata. simpl. by eexists.
  - split; try done; simpl.
    + intros j. destruct (decide (j = i)) as [->|Hne].
      * specialize (Hr i). destruct Hr as [| | | |H1 H2 H3 H4 H5|]; try done.
        apply rs_running; simpl; rewrite ?upd_eq; try done. right. by split.
      * eapply request_frame; [..|apply Hr]; simpl; rewrite ?upd_ne by done; try done.
        rewrite Ha. naive_solver.
    + eapply close_frame; [..|exact Hc]; simpl; try done; rewrite Ha; naive_solver.
    + unfold data_state in *. by rewrite Ha in Hdata.
  - split; try done; simpl.
    + intros j. eapply request_frame; [..|apply Hr]; simpl; try done. rewrite Ha. naive_solver.
    + destruct Hc; try done; apply cs_stopped; simpl; auto.
    + unfold data_state in *. by rewrite Ha in Hdata.
Qed.

(** A step that only moves the caller [i]. *)
Lemma goto_inv w i c :
  actor_inv w → (c = CSend ∨ c = CWait ∨ c = CRecv → w.(w_closing) = false) →
  request_state (goto i c w) i → actor_inv (goto i c w).
Proof.
  intros [Hr Hc Hcl Hnd Hlog Hcap Hdata] Hopen Hi. split; try done.
  - intros j. destruct (decide (j = i)) as [->|Hne]; [done|].
    eapply request_frame; [..|apply Hr]; simpl; rewrite ?upd_ne by done; done.
  - eapply close_frame; [..|exact Hc]; done.
  - intros H j. simpl in *. destruct (decide (j = i)) as [->|Hne].
    + rewrite upd_eq. split_and!; intros ->; rewrite Hopen in H; auto; done.
    + rewrite upd_ne by done. by apply Hcl.
Qed.

Lemma actor_step_inv w w' : actor_inv w → step w w' → actor_inv w'.
Proof.
  intros Hi Hs. pose proof Hi as [Hr Hc Hcl Hnd Hlog Hcap Hdata].
  destruct Hs as [w w' Ha|w i H1|w i H1 H2|w i H1 H2|w i H1|w i H1 H2|w i H1 H2|w i o H1 H2|w i H1 H2
    |w i H1 H2|w H1 H2|w H1 H2|w H1 H2 H3].
  - by eapply act_inv.
  - apply goto_inv; [done|naive_solver|]. destruct (Hr i); try (destruct_or?; congruence).
    apply rs_new; simpl; rewrite ?upd_eq; auto.
  - apply goto_inv; [done|naive_solver|]. destruct (Hr i); try (destruct_or?; congruence).
    eapply rs_refused; simpl; rewrite ?upd_eq; auto; done.
  - apply goto_inv; [done|done|]. destruct (Hr i); try (destruct_or?; congruence).
    apply rs_new; simpl; rewrite ?upd_eq; auto.
  - apply goto_inv; [done|naive_solver|]. destruct (Hr i); try (destruct_or?; congruence).
    eapply rs_refused; simpl; rewrite ?upd_eq; auto; done.
  - apply goto_inv; [done|naive_solver|]. destruct (Hr i); try (destruct_or?; congruence).
    eapply rs_refused; simpl; rewrite ?upd_eq; auto; done.
  - pose proof (open_of_caller w i Hi (or_introl H1)) as Ho.
    assert (w.(w_life) i = requestQueued ∧ w.(w_result) i = None ∧ Some i ∉ w.(w_mailbox) ∧
      i ∉ w.(w_log) ∧ w.(w_actor) ≠ AReply (Some i)) as (L1 & L2 & L3 & L4 & L5)
      by (destruct (Hr i); try (destruct_or?; congruence); done).
    split; simpl; try done.
    + intros j. destruct (decide (j = i)) as [->|Hne].
      * apply rs_queued; simpl; rewrite ?upd_eq; try done. apply elem_of_app. right. by left.
      * eapply request_frame; [..|apply Hr]; simpl; rewrite ?upd_ne by done; try done.
        rewrite elem_of_app, list_elem_of_singleton. naive_solver.
    + eapply close_frame; [..|exact Hc]; simpl; try done.
      rewrite elem_of_app, list_elem_of_singleton. naive_solver.
    + rewrite Ho. done.
    + apply NoDup_app. split; [done|]. split; [|by repeat constructor; intros ?%elem_of_nil].
      intros j Hj ->%list_elem_of_singleton. done.
    + unfold len in *. rewrite length_app. simpl. lia.
  - assert (w.(w_caller) i = CSend ∨ w.(w_caller) i = CWait ∨ w.(w_caller) i = CRecv) as Hc3 by tauto.
    pose proof (open_of_caller w i Hi Hc3) as Ho.
    assert (w.(w_life) i = requestExecuting ∧ o = Ran ∧ Some i ∉ w.(w_mailbox) ∧ i ∈ w.(w_log) ∧
      w.(w_actor) ≠ AReply (Some i)) as (L1 & -> & L3 & L4 & L5).
    { destruct (Hr i) as [| | | |R1 R2 R3 R4 [[R5 R6]|[R5 R6]]|]; try (destruct_or?; congruence).
      split_and!; congruence || done. }
    split; simpl; try done.
    + intros j. destruct (decide (j = i)) as [->|Hne].
      * apply rs_ran; simpl; rewrite ?upd_eq; done.
      * eapply request_frame; [..|apply Hr]; simpl; rewrite ?upd_ne by done; done.
    + eapply close_frame; [..|exact Hc]; done.
    + rewrite Ho. done.
  - pose proof (open_of_caller w i Hi (or_intror (or_introl H1))) as Ho.
    assert (i ∉ w.(w_log) ∧ w.(w_actor) ≠ AReply (Some i)) as (L4 & L5)
      by (destruct (Hr i); destruct_or?; try congruence; done).
    split; simpl; try done.
    + intros j. destruct (decide (j = i)) as [->|Hne].
      * apply rs_cancelled; simpl; rewrite ?upd_eq; done.
      * eapply request_frame; [..|apply Hr]; simpl; rewrite ?upd_ne by done; done.
    + eapply close_frame; [..|exact Hc]; done.
    + rewrite Ho. done.
  - pose proof (open_of_caller w i Hi (or_intror (or_introl H1))) as Ho.
    apply goto_inv; [done|done|]. destruct (Hr i); try (destruct_or?; congruence).
    apply rs_running; simpl; rewrite ?upd_eq; auto.
  - split; simpl; try done.
    + intros j. eapply request_frame; [..|apply Hr]; done.
    + destruct Hc; try (destruct_or?; congruence). by apply cs_closing.
    + intros _ i. specialize (H2 i). destruct (w_caller w i); done.
  - split; simpl; try done.
    + intros j. eapply request_frame; [..|apply Hr]; simpl; try done.
      rewrite elem_of_app, list_elem_of_singleton. naive_solver.
    + destruct Hc; try (destruct_or?; congruence). apply cs_posted; simpl; try done.
      apply elem_of_app. right. by left.
    + apply NoDup_app. split; [done|]. split; [|by repeat constructor; intros ?%elem_of_nil].
      intros j Hj ->%list_elem_of_singleton. destruct Hc; try (destruct_or?; congruence).
    + unfold len in *. rewrite length_app. simpl. lia.
  - split; simpl; try done.
    + intros j. eapply request_frame; [..|apply Hr]; done.
    + destruct Hc; try (destruct_or?; congruence). apply cs_stopped; simpl; auto.
Qed.

Lemma reachable_actor_inv w : reachable w → actor_inv w.
Proof. induction 1; [apply init_inv|by eapply actor_step_inv]. Qed.

(** ** Progress of the actor *)
Lemma act_caller w w' : act w w' → w'.(w_caller) = w.(w_caller) ∧ w'.(w_closing) = w.(w_closing).
Proof. by destruct 1. Qed.

Lemma reply_ready w j : actor_inv w → w.(w_actor) = AReply (Some j) → w.(w_result) j = None.
Proof.
  intros Hi Ha. destruct (av_requests _ Hi j) as [| | | |R1 R2 R3 R4 [[_ R5]|[R5 _]]|]; congruence.
Qed.

(** The actor brings a receive forward: within two steps the head of the mailbox is gone
    and the actor is ready for the next one. *)
Lemma act_next w r rest :
  actor_inv w → w.(w_actor) = ATake → w.(w_mailbox) = Some r :: rest →
  ∃ n w', nsteps act n w w' ∧ (n ≤ 2)%nat ∧ w'.(w_actor) = ATake ∧ w'.(w_mailbox) = rest.
Proof.
  intros Hi Ha Hm. destruct (decide (w.(w_life) r = requestQueued)) as [Hl|Hl].
  - eexists 2%nat, _. split.
    + eapply nsteps_l; [by eapply act_run|]. eapply nsteps_l; [|apply nsteps_O].
      apply (act_reply _ r); [done|]. simpl.
      destruct (av_requests _ Hi r) as [| | | |R1 R2 R3 R4 R5|]; try congruence.
      exfalso. apply H2. rewrite Hm. by left.
    + done.
  - eexists 1%nat, _. split; [eapply nsteps_l; [by eapply act_skip|apply nsteps_O]|].
    split; [lia|]. done.
Qed.

Lemma nsteps_act_inv n w w' :
  actor_inv w → nsteps act n w w' →
  actor_inv w' ∧ w'.(w_caller) = w.(w_caller) ∧ w'.(w_closing) = w.(w_closing).
Proof.
  intros Hi Hn. induction Hn as [|n w1 w2 w3 Ha Hn IH]; [done|].
  destruct (IH (act_inv _ _ Hi Ha)) as (H1 & H2 & H3). destruct (act_caller _ _ Ha). split; [done|].
  by split; congruence.
Qed.

(** A request that waits in the mailbox. *)
Lemma queued_served w i :
  actor_inv w → w.(w_closing) = false → w.(w_actor) = ATake → Some i ∈ w.(w_mailbox) →
  w.(w_caller) i = CWait ∨ w.(w_caller) i = CRecv →
  ∃ n w', nsteps act n w w' ∧ Z.of_nat n ≤ 2 * len w.(w_mailbox) ∧ w'.(w_result) i = Some Ran.
Proof.
  remember (w.(w_mailbox)) as m eqn:Hm. revert w Hm.
  induction m as [|x rest IH]; intros w Hm Hi Hcl Ha Hin Hc; [by apply elem_of_nil in Hin|].
  destruct x as [r|].
  2:{ destruct (av_close _ Hi) as [_ _ Hno _ _| | | |]; try congruence.
      exfalso. apply Hno. rewrite <- Hm. by left. }
  destruct (decide (r = i)) as [->|Hne].
  - assert (w.(w_life) i = requestQueued ∧ w.(w_result) i = None) as [Hl Hr].
    { assert (Some i ∈ w.(w_mailbox)) as Hin' by (rewrite <- Hm; by left).
      destruct (av_requests _ Hi i); try (destruct_or?; congruence); done. }
    eexists 2%nat, _. split.
    + eapply nsteps_l; [by eapply act_run|]. eapply nsteps_l; [|apply nsteps_O].
      by apply (act_reply _ i).
    + split; [unfold len; simpl; lia|]. simpl. by rewrite upd_eq.
  - destruct (act_next w r rest Hi Ha (eq_sym Hm)) as (n & w1 & Hn & Hle & Ha1 & Hm1).
    destruct (nsteps_act_inv n w w1 Hi Hn) as (Hi1 & Hc1 & Hcl1).
    destruct (IH w1) as (k & w2 & Hk & Hkle & Hres); [done|done|congruence|done| |by rewrite Hc1|].
    { apply elem_of_cons in Hin as [?|?]; [congruence|done]. }
    exists (n + k)%nat, w2. split; [by eapply nsteps_trans|]. split; [|done].
    unfold len in *. simpl. lia.
Qed.

Lemma served w i :
  actor_inv w → w.(w_caller) i = CWait ∨ w.(w_caller) i = CRecv →
  ∃ n w', nsteps act n w w' ∧ Z.of_nat n ≤ 2 * len w.(w_mailbox) + 1 ∧ w'.(w_result) i = Some Ran.
Proof.
  intros Hi Hc. pose proof (open_of_caller w i Hi (or_intror Hc)) as Hcl.
  destruct (w.(w_actor)) as [|[j|]|] eqn:Ha.
  - destruct (av_requests _ Hi i) as [| | | |R1 R2 R3 R4 [[R5 _]|[_ R5]]|]; try (destruct_or?; congruence).
    + destruct (queued_served w i) as (n & w' & Hn & Hle & Hr); try done. exists n, w'. split; [done|].
      split; [lia|done].
    + exists 0%nat, w. split; [constructor|]. unfold len. split; [lia|done].
  - pose proof (reply_ready w j Hi Ha) as Hrj.
    pose proof (act_reply w j Ha Hrj) as Hact. set (w1 := w <| w_result := _ |> <| w_actor := ATake |>) in *.
    pose proof (act_inv _ _ Hi Hact) as Hi1.
    destruct (av_requests _ Hi i) as [| | | |R1 R2 R3 R4 [[R5 _]|[_ R5]]|]; try (destruct_or?; congruence).
    + destruct (queued_served w1 i) as (n & w' & Hn & Hle & Hr); try done.
      exists (S n), w'. split; [by eapply nsteps_l|]. change (w_mailbox w1) with (w_mailbox w) in Hle.
      split; [lia|done].
    + exists 1%nat, w1. split; [eapply nsteps_l; [done|constructor]|]. unfold len. split; [lia|].
      assert (j = i) as -> by congruence. simpl. by rewrite upd_eq.
    + exists 0%nat, w. split; [constructor|]. unfold len. split; [lia|done].
  - destruct (av_close _ Hi); congruence.
  - destruct (av_close _ Hi); congruence.
Qed.

(** The stop request is reached too. *)
Lemma stop_served w :
  actor_inv w → w.(w_closer) = KWait →
  ∃ n w', nsteps act n w w' ∧ Z.of_nat n ≤ 2 * len w.(w_mailbox) + 2 ∧
    w'.(w_actor) = AExit ∧ w'.(w_stop_result) = true.
Proof.
  intros Hi Hk.
  assert (∀ m w, w.(w_mailbox) = m → actor_inv w → w.(w_actor) = ATake → None ∈ m →
    ∃ n w', nsteps act n w w' ∧ Z.of_nat n ≤ 2 * len m ∧ w'.(w_actor) = AExit ∧ w'.(w_stop_result) = true) as Hm.
  { clear w Hi Hk. induction m as [|[r|] rest IH]; intros w Hm Hi Ha Hin; [by apply elem_of_nil in Hin| |].
    - destruct (act_next w r rest Hi Ha Hm) as (n & w1 & Hn & Hle & Ha1 & Hm1).
      destruct (nsteps_act_inv n w w1 Hi Hn) as (Hi1 & Hc1 & Hcl1).
      destruct (IH w1 Hm1 Hi1 Ha1) as (k & w2 & Hk & Hkle & Hres).
      { by apply elem_of_cons in Hin as [?|?]. }
      exists (n + k)%nat, w2. split; [by eapply nsteps_trans|]. split; [|done]. unfold len in *. simpl. lia.
    - eexists 2%nat, _. split.
      + eapply nsteps_l; [by eapply act_stop|]. eapply nsteps_l; [|apply nsteps_O]. by apply act_exit.
      + split; [unfold len; simpl; lia|]. done. }
  destruct (w.(w_actor)) as [|[j|]|] eqn:Ha.
  - destruct (av_close _ Hi) as [| |C1 C2 C3 C4 C5| |]; try congruence.
    destruct (Hm _ w eq_refl Hi Ha C3) as (n & w' & Hn & Hle & Hr). exists n, w'. split; [done|].
    split; [lia|done].
  - pose proof (act_reply w j Ha (reply_ready w j Hi Ha)) as Hact.
    destruct (av_close _ Hi) as [| |C1 C2 C3 C4 C5| |]; try congruence.
    destruct (Hm _ _ eq_refl (act_inv _ _ Hi Hact) eq_refl C3) as (n & w' & Hn & Hle & Hr).
    exists (S n), w'. split; [by eapply nsteps_l|]. simpl in Hle. split; [lia|done].
  - eexists 1%nat, _. split; [eapply nsteps_l; [by apply act_exit|constructor]|]. unfold len.
    split; [lia|done].
  - destruct (av_close _ Hi) as [| | | |C1 C2 C3 C4 C5]; try congruence.
    exists 0%nat, w. split; [constructor|]. unfold len. split; [lia|done].
Qed.

(** A call that returned stays returned. *)
Lemma returned_stays w w' i o :
  rtc step w w' → w.(w_caller) i = CRet o → w'.(w_caller) i = CRet o.
Proof.
  induction 1 as [|w w1 w' Hs _ IH]; [done|]. intros Hc. apply IH.
  destruct Hs as [w w1 Ha|w j H1|w j H1 H2|w j H1 H2|w j H1|w j H1 H2|w j H1 H2|w j o' H1 H2|w j H1 H2
    |w j H1 H2|w H1 H2|w H1 H2|w H1 H2 H3]; try done;
    try (by destruct (act_caller _ _ Ha) as [-> _]);
    simpl; (rewrite upd_ne; [done|]); intros ->; destruct_or?; congruence.
Qed.

Lemma reachable_rtc w w' : reachable w → rtc step w w' → reachable w'.
Proof. intros Hr. induction 1 as [|w w1 w' Hs _ IH]; [done|]. apply IH. by eapply reachable_step. Qed.
End actor.
