(* ===== verification/ActorTheorems.v ===== *)
(** * What a call to the Edge actor guarantees

    Properties of [callUnderGate], [run] and [Close]: cancelled calls have no effect,
    served calls run once, waiting calls are served, and shutdown comes last. *)
From S2P Require Import Prelude GoStd Limiter EdgeState Relay EdgeWorld EdgeFacts EdgeInv EdgeTheorems EdgeActor.
Local Open Scope Z_scope.

(** ** A concrete run, for the witnesses *)
Module ActorDemo.
Definition req (i : nat) : op := match i with O => ODaemonSnapshot [] | _ => OOpenFeed end.
Definition envs (_ : nat) : env := Demo.e.
Lemma envs_ok i : OrderOk (envs i).(order) ∧ op_ok (req i).
Proof. split; [apply _|by destruct i]. Qed.

Abbreviation dstep := (step Demo.digest Demo.lim 4 req envs Demo.e).
Abbreviation dinit := (init 8).

(** Caller 0 is posted, caller 1 is posted and cancelled, then [Close] is called. *)
Definition posted : world :=
  let w := goto 0 CSend (goto 0 CGate dinit) in
  goto 0 CWait w <| w_mailbox := w.(w_mailbox) ++ [Some 0%nat] |>.
Lemma posted_reachable : reachable Demo.digest Demo.lim 4 8 req envs Demo.e posted.
Proof.
  eapply reachable_step; [eapply reachable_step; [eapply reachable_step; [apply reachable_init|]|]|].
  - by apply (step_enter _ _ _ _ _ _ _ 0).
  - by apply (step_open _ _ _ _ _ _ _ 0).
  - by apply (step_send _ _ _ _ _ _ _ 0).
Qed.

Definition both : world :=
  let w := goto 1 CSend (goto 1 CGate posted) in
  goto 1 CWait w <| w_mailbox := w.(w_mailbox) ++ [Some 1%nat] |>.
Definition cancelled : world :=
  goto 1 (CRet CtxErr) both <| w_life := upd both.(w_life) 1 requestCanceled |>
    <| w_result := upd both.(w_result) 1 (Some CtxErr) |>.
Lemma cancelled_reachable : reachable Demo.digest Demo.lim 4 8 req envs Demo.e cancelled.
Proof.
  eapply reachable_step; [eapply reachable_step; [eapply reachable_step; [eapply reachable_step; [apply posted_reachable|]|]|]|].
  - by apply (step_enter _ _ _ _ _ _ _ 1).
  - by apply (step_open _ _ _ _ _ _ _ 1).
  - by apply (step_send _ _ _ _ _ _ _ 1).
  - by apply (step_cancel _ _ _ _ _ _ _ 1).
Qed.

Definition closing : world :=
  let w := dinit <| w_closing := true |> <| w_closer := KSend |> in
  w <| w_mailbox := w.(w_mailbox) ++ [None] |> <| w_closer := KWait |>.
Lemma closing_reachable : reachable Demo.digest Demo.lim 4 8 req envs Demo.e closing.
Proof.
  eapply reachable_step; [eapply reachable_step; [apply reachable_init|]|].
  - by apply step_close.
  - by apply step_close_send.
Qed.
End ActorDemo.

Section theorems.
Context (digest : RelayPolicySnapshot → result string) (lim : stateLimits).
Context (capacity buffer : Z) (req : nat → op) (envs : nat → env) (stop_env : env).
Abbreviation reachable := (EdgeActor.reachable digest lim capacity buffer req envs stop_env).
Abbreviation step := (EdgeActor.step digest lim capacity req envs stop_env).
Abbreviation act := (EdgeActor.act digest lim req envs stop_env).

(** C32: a call takes effect exactly when it reports a result. In every reachable state of
    the actor and its callers each request ran at most once; a call that returned a
    result has run, and one that returned its context's error or ErrStateClosed has not
    and never will; and the state is what the requests that ran, in that order, make of
    the initial one. *)
Theorem call_effect_exact w :
  (∀ i, OrderOk (envs i).(order) ∧ op_ok (req i)) → reachable w →
  NoDup w.(w_log) ∧
  (∀ i, w.(w_caller) i = CRet Ran → i ∈ w.(w_log)) ∧
  (∀ i o w', w.(w_caller) i = CRet o → o ≠ Ran → rtc step w w' → i ∉ w'.(w_log)) ∧
  data_state digest lim buffer req stop_env w.
Proof.
  intros Ho Hr. assert (∀ w, reachable w → actor_inv digest lim capacity buffer req stop_env w) as Hinv
    by (intros; by eapply reachable_actor_inv).
  pose proof (Hinv w Hr) as [H1 _ _ _ H5 _ H7].
  split; [done|]. split; [|split; [|done]].
  - intros i Hi. by destruct (H1 i); try (destruct_or?; congruence).
  - intros i o w' Hi Hne Hs. pose proof (returned_stays _ _ _ _ _ _ _ _ _ _ Hs Hi) as Hi'.
    destruct (av_requests _ _ _ _ _ _ _ (Hinv w' (reachable_rtc _ _ _ _ _ _ _ _ _ Hr Hs)) i);
      try done; destruct_or?; congruence.
Qed.

(** C37: a waiting call is always served. Whatever the other callers do, the actor alone
    brings the result of a call that waits for it within a number of steps bounded by
    the length of the mailbox: it is never blocked on a result channel, and shutdown
    cannot overtake the call. *)
Theorem waiting_call_served w i :
  (∀ i, OrderOk (envs i).(order) ∧ op_ok (req i)) → reachable w →
  w.(w_caller) i = CWait ∨ w.(w_caller) i = CRecv →
  ∃ n w', nsteps act n w w' ∧ Z.of_nat n ≤ 2 * Z.max 0 capacity + 1 ∧ w'.(w_result) i = Some Ran.
Proof.
  intros Ho Hr Hc. pose proof (reachable_actor_inv _ _ _ _ _ _ _ Ho w Hr) as Hi.
  destruct (served _ _ _ _ _ _ _ Ho w i Hi Hc) as (n & w' & Hn & Hle & Hres).
  exists n, w'. split; [done|]. split; [|done]. pose proof (av_capacity _ _ _ _ _ _ _ Hi). lia.
Qed.

(** Close completes and comes last. Once it has posted its stop request the actor
    alone reaches it; when the actor has stopped no call is waiting or can still be
    posted, so no request is lost behind the shutdown. *)
Theorem close_completes w :
  (∀ i, OrderOk (envs i).(order) ∧ op_ok (req i)) → reachable w →
  (w.(w_closer) = KWait →
     ∃ n w', nsteps act n w w' ∧ Z.of_nat n ≤ 2 * Z.max 0 capacity + 2 ∧
       w'.(w_actor) = AExit ∧ w'.(w_stop_result) = true) ∧
  (w.(w_actor) = AExit → w.(w_closing) = true ∧
     ∀ i, w.(w_caller) i = CIdle ∨ w.(w_caller) i = CGate ∨ ∃ o, w.(w_caller) i = CRet o).
Proof.
  intros Ho Hr. pose proof (reachable_actor_inv _ _ _ _ _ _ _ Ho w Hr) as Hi. split.
  - intros Hk. destruct (stop_served _ _ _ _ _ _ _ Ho w Hi Hk) as (n & w' & Hn & Hle & Hres).
    exists n, w'. split; [done|]. split; [|done]. pose proof (av_capacity _ _ _ _ _ _ _ Hi). lia.
  - intros Ha. assert (w.(w_closing) = true) as Hcl
      by (destruct (av_close _ _ _ _ _ _ _ Hi); congruence).
    split; [done|]. intros i. destruct (av_closing _ _ _ _ _ _ _ Hi Hcl i) as (? & ? & ?).
    destruct (w.(w_caller) i); eauto; congruence.
Qed.
End theorems.

Lemma call_effect_exact_witness :
  ActorDemo.cancelled.(w_caller) 1%nat = CRet CtxErr ∧
  ∀ w', rtc ActorDemo.dstep ActorDemo.cancelled w' → 1%nat ∉ w'.(w_log).
Proof.
  split; [reflexivity|]. intros w' Hw.
  destruct (call_effect_exact Demo.digest Demo.lim 4 8 ActorDemo.req ActorDemo.envs Demo.e
    ActorDemo.cancelled ActorDemo.envs_ok ActorDemo.cancelled_reachable) as (_ & _ & H & _).
  apply (H 1%nat CtxErr w'); [reflexivity|discriminate|exact Hw].
Defined.
Lemma waiting_call_served_witness :
  ∃ n w', nsteps (act Demo.digest Demo.lim ActorDemo.req ActorDemo.envs Demo.e) n ActorDemo.posted w' ∧
    Z.of_nat n ≤ 2 * Z.max 0 4 + 1 ∧ w'.(w_result) 0%nat = Some Ran.
Proof.
  apply (waiting_call_served Demo.digest Demo.lim 4 8 ActorDemo.req ActorDemo.envs Demo.e
    ActorDemo.posted 0%nat ActorDemo.envs_ok ActorDemo.posted_reachable).
  left. reflexivity.
Defined.
Lemma close_completes_witness :
  ∃ n w', nsteps (act Demo.digest Demo.lim ActorDemo.req ActorDemo.envs Demo.e) n ActorDemo.closing w' ∧
    Z.of_nat n ≤ 2 * Z.max 0 4 + 2 ∧ w'.(w_actor) = AExit ∧ w'.(w_stop_result) = true.
Proof.
  apply (close_completes Demo.digest Demo.lim 4 8 ActorDemo.req ActorDemo.envs Demo.e
    ActorDemo.closing ActorDemo.envs_ok ActorDemo.closing_reachable). reflexivity.
Defined.
