(* ===== verification/Journal.v ===== *)
(** * The Edge reservation journal

    [cloud/edge/reservation/journal.go]: the durable record of every unsettled Relay
    reservation, one bbolt value per reservation, and the transitions between its stages.

    bbolt is the interface [Store] with the laws [StoreLaws] of a bucket; an operation is
    the body of one transaction, and [Update] commits or rolls it back. The protobuf
    encoding and SHA-256 are parameters. *)
From S2P Require Import Prelude GoStd Limiter EdgeState Relay.
Local Open Scope Z_scope.

(** ** Messages ([proto/cloud/v1/usage.proto]) *)
Record RelayReserveRequest := mkReserve {
  rr_ReservationId : string;
  rr_AccountId : string;
  rr_DaemonId : string;
  rr_ClientId : string;
  rr_SessionId : string;
  rr_ObservedAt : option Timestamp;
  rr_RequestDigest : string }.
#[export] Instance eta_reserve : Eta RelayReserveRequest := λ r,
  mkReserve r.(rr_ReservationId) r.(rr_AccountId) r.(rr_DaemonId) r.(rr_ClientId)
    r.(rr_SessionId) r.(rr_ObservedAt) r.(rr_RequestDigest).
#[export] Instance reserve_eq_dec : EqDecision RelayReserveRequest.
Proof. solve_decision. Defined.

Inductive RelayResponseCode := APPLIED | REPLAY | TERMINAL | OtherCode (n : Z).
#[export] Instance code_eq_dec : EqDecision RelayResponseCode.
Proof. solve_decision. Defined.

Record RelaySettlementAck := mkAck {
  ak_ReservationId : string;
  ak_Kind : RelaySettlementKind;
  ak_IngressBytes : Z;
  ak_EgressBytes : Z;
  ak_RecoveryBytes : Z;
  ak_PolicyDigest : string;
  ak_ObservedAt : option Timestamp;
  ak_SettledAt : option Timestamp;
  ak_Code : RelayResponseCode }.

Inductive RelayJournalStage :=
| REQUESTED | HELD_UNEXPOSED | EXPOSED | RENEW_PENDING | CLOSING | SETTLEMENT_DURABLE
| OtherStage (n : Z).
#[export] Instance stage_eq_dec : EqDecision RelayJournalStage.
Proof. solve_decision. Defined.

Record RelayJournalRecord := mkRecord {
  jr_SchemaVersion : Z;
  jr_Stage : RelayJournalStage;
  jr_ReserveRequest : option RelayReserveRequest;
  jr_Grant : option RelayGrant;
  jr_PendingRenewSequence : Z;
  jr_Settlement : option RelaySettlement }.
#[export] Instance eta_record : Eta RelayJournalRecord := λ r,
  mkRecord r.(jr_SchemaVersion) r.(jr_Stage) r.(jr_ReserveRequest) r.(jr_Grant)
    r.(jr_PendingRenewSequence) r.(jr_Settlement).
#[export] Instance record_eq_dec : EqDecision RelayJournalRecord.
Proof. solve_decision. Defined.

(** The getters of messages that may be nil. *)
Definition req_ReservationId (r : option RelayReserveRequest) : string := from_option rr_ReservationId ""%string r.
Definition req_SessionId (r : option RelayReserveRequest) : string := from_option rr_SessionId ""%string r.
Definition req_RequestDigest (r : option RelayReserveRequest) : string := from_option rr_RequestDigest ""%string r.
Definition grant_PolicyDigest (g : option RelayGrant) : string := from_option rg_PolicyDigest ""%string g.
Definition grant_SessionId (g : option RelayGrant) : string := from_option rg_SessionId ""%string g.
Definition grant_ReservedBytes (g : option RelayGrant) : Z := from_option rg_ReservedBytes 0 g.
(** [x != nil && x.CheckValid() == nil]. *)
Definition checked (ts : option Timestamp) : bool := from_option timestamp_valid false ts.

Definition MaxDurableRecords : Z := 100000.
Definition ErrConflict : goerr := "Relay journal payload conflicts with durable record".
Definition ErrJournalFull : goerr := "Relay journal reached its durable unsettled limit".
Definition ErrStage : goerr := "Relay journal transition is invalid".

(** ** The store *)

(** One bbolt bucket inside a transaction. *)
Class Store (B : Type) := {
  s_get : string → B → option string;
  s_put : string → string → B → result B;
  s_delete : string → B → result B;
  s_count : B → Z;
  s_cursor : B → list (string * string) }.
Class StoreLaws (B : Type) `{Store B} : Prop := {
  get_put : ∀ k v b b' k', s_put k v b = Ok b' →
    s_get k' b' = if decide (k' = k) then Some v else s_get k' b;
  get_delete : ∀ k b b' k', s_delete k b = Ok b' →
    s_get k' b' = if decide (k' = k) then None else s_get k' b;
  count_put : ∀ k v b b', s_put k v b = Ok b' →
    s_count b' = s_count b + match s_get k b with None => 1 | Some _ => 0 end;
  count_delete : ∀ k b b', s_delete k b = Ok b' →
    s_count b' = s_count b - match s_get k b with None => 0 | Some _ => 1 end;
  put_again : ∀ k v b b', s_put k v b = Ok b' → is_ok (s_put k v b') = true;
  cursor_get : ∀ b k v, (k, v) ∈ s_cursor b ↔ s_get k b = Some v }.

(** What a call returns; using a closed journal is a nil dereference. *)
Inductive outcome := Returned (err : option goerr) | Panicked.

Record Journal (B : Type) := mkJournal { database : option B; limit : Z }.
Arguments mkJournal {B} _ _.
Arguments database {B} _.
Arguments limit {B} _.

Section journal.
Context {B : Type} `{Store B}.
Context (marshal : RelayJournalRecord → result string) (unmarshal : string → result RelayJournalRecord).
Context (reserve_digest : RelayReserveRequest → result string).
Context (policy_digest : RelayPolicySnapshot → result string).

(** [database.Update]: [io] is the error of beginning or committing the transaction. *)
Definition Update (io : option goerr) (f : B → result B) (j : Journal B) : Journal B * outcome :=
  match j.(database) with
  | None => (j, Panicked)
  | Some b =>
      match f b with
      | Err e => (j, Returned (Some e))
      | Ok b' => match io with
                 | Some e => (j, Returned (Some e))
                 | None => (mkJournal (Some b') j.(limit), Returned None)
                 end
      end
  end.

(** [mkdir], [bolt_open] and [create] are the three effects on the file system. *)
Definition OpenWithLimit (mkdir : option goerr) (bolt_open : string → result B)
    (create : B → result B) (path : string) (timeout lim : Z) : result (Journal B) :=
  let path := TrimSpace path in
  if String.eqb path "" || (timeout <=? 0) || (lim <=? 0) || (lim >? MaxDurableRecords)
  then Err "Relay journal path, timeout, and bounded record limit are required"
  else match mkdir with
       | Some e => Err ("create Relay journal directory: " +:+ e)%string
       | None =>
           match bolt_open path with
           | Err e => Err ("open Relay journal: " +:+ e)%string
           | Ok b => match create b with
                     | Err e => Err ("initialize Relay journal: " +:+ e)%string
                     | Ok b => Ok (mkJournal (Some b) lim)
                     end
           end
       end.

(** ** Encoding *)
Definition equalRecord (payload : string) (expected : RelayJournalRecord) : option goerr :=
  match unmarshal payload with
  | Err e => Some e
  | Ok actual => if bool_decide (actual = expected) then None else Some ErrConflict
  end.

Definition decodeRecord (key payload : string) : result RelayJournalRecord :=
  match unmarshal payload with
  | Err e => Err ("decode Relay journal record " +:+ quoted key +:+ ": " +:+ e)%string
  | Ok r =>
      if negb (r.(jr_SchemaVersion) =? 1)
         || negb (String.eqb (req_ReservationId r.(jr_ReserveRequest)) key)
      then Err ("Relay journal record " +:+ quoted key +:+ " is invalid")%string
      else Ok r
  end.

Definition putRecord (b : B) (key : string) (r : RelayJournalRecord) : result B :=
  let? payload := marshal r in s_put key payload b.

(** ** Validation *)
Definition ReserveRequestDigest (request : option RelayReserveRequest) : result string :=
  match request with
  | None => Err "Relay reserve request is required"
  | Some r => reserve_digest (r <| rr_RequestDigest := ""%string |>)
  end.

Definition validateReserveRequest (request : option RelayReserveRequest) : option goerr :=
  match request with
  | None => Some "complete Relay reserve request is required"%string
  | Some r =>
      if blank r.(rr_ReservationId) || negb (checked r.(rr_ObservedAt))
      then Some "complete Relay reserve request is required"%string
      else match ReserveRequestDigest request with
           | Err _ => Some "Relay reserve request digest is invalid"%string
           | Ok dg => if EqualDigest dg r.(rr_RequestDigest) then None
                      else Some "Relay reserve request digest is invalid"%string
           end
  end.

Definition validateGrant (grant : option RelayGrant) : option goerr :=
  match grant with
  | None => Some "complete Relay grant is required"%string
  | Some g =>
      if is_nil g.(rg_Policy) || negb (checked g.(rg_AuthorizedUntil))
         || (g.(rg_ReservedBytes) =? 0) || (g.(rg_MaxRateBytesPerSecond) =? 0)
      then Some "complete Relay grant is required"%string
      else match PolicyDigest policy_digest g.(rg_Policy) with
           | Err _ => Some "Relay grant policy digest is invalid"%string
           | Ok dg => if EqualDigest dg g.(rg_PolicyDigest) then None
                      else Some "Relay grant policy digest is invalid"%string
           end
  end.

Definition validateSettlement (settlement : option RelaySettlement) : option goerr :=
  match settlement with
  | None => Some "complete Relay settlement is required"%string
  | Some s =>
      if blank s.(st_ReservationId) || negb (checked s.(st_ObservedAt))
         || negb (Z.of_nat (String.length s.(st_PolicyDigest)) =? 32)
      then Some "complete Relay settlement is required"%string
      else if bool_decide (s.(st_Kind) = KindRecoveryMax)
              && (negb (s.(st_IngressBytes) =? 0) || negb (s.(st_EgressBytes) =? 0))
      then Some "RECOVERY_MAX cannot contain exact counters"%string
      else if negb (bool_decide (s.(st_Kind) = KindExact))
              && negb (bool_decide (s.(st_Kind) = KindRecoveryMax))
      then Some "Relay settlement kind is invalid"%string
      else None
  end.

(** ** Operations *)

(** [update]: reads a record, changes it and writes it back. *)
Definition update_tx (reservationID : string)
    (mutate : RelayJournalRecord → result RelayJournalRecord) (b : B) : result B :=
  match s_get reservationID b with
  | None => Err "Relay journal record is unavailable"
  | Some payload =>
      let? r := decodeRecord reservationID payload in
      let? r := mutate r in
      putRecord b reservationID r
  end.
Definition update (io : option goerr) (reservationID : string)
    (mutate : RelayJournalRecord → result RelayJournalRecord) (j : Journal B) : Journal B * outcome :=
  if is_nil j.(database) || blank reservationID
  then (j, Returned (Some "open Relay journal and reservation ID are required"%string))
  else Update io (update_tx reservationID mutate) j.

Definition new_record (r : RelayReserveRequest) : RelayJournalRecord :=
  mkRecord 1 REQUESTED (Some r) None 0 None.
Definition create_tx (lim : Z) (r : RelayReserveRequest) (b : B) : result B :=
  match s_get r.(rr_ReservationId) b with
  | Some existing =>
      match equalRecord existing (new_record r) with Some e => Err e | None => Ok b end
  | None =>
      if s_count b >=? lim then Err ErrJournalFull
      else putRecord b r.(rr_ReservationId) (new_record r)
  end.
Definition CreateRequested (io : option goerr) (request : option RelayReserveRequest) (j : Journal B)
    : Journal B * outcome :=
  match validateReserveRequest request, request with
  | Some e, _ => (j, Returned (Some e))
  | None, Some r => Update io (create_tx j.(limit) r) j
  | None, None => (j, Returned None)
  end.

Definition apply_grant (grant : RelayGrant) (r : RelayJournalRecord) : result RelayJournalRecord :=
  if negb (String.eqb (req_SessionId r.(jr_ReserveRequest)) grant.(rg_SessionId)) then Err ErrConflict
  else match r.(jr_Grant) with
       | Some g => if bool_decide (g = grant) then Ok r else Err ErrConflict
       | None =>
           if negb (bool_decide (r.(jr_Stage) = REQUESTED)) then Err ErrStage
           else Ok (r <| jr_Grant := Some grant |> <| jr_Stage := HELD_UNEXPOSED |>)
       end.
Definition ApplyGrant (io : option goerr) (grant : option RelayGrant) (j : Journal B) : Journal B * outcome :=
  match validateGrant grant, grant with
  | Some e, _ => (j, Returned (Some e))
  | None, Some g => update io g.(rg_ReservationId) (apply_grant g) j
  | None, None => (j, Returned None)
  end.

Definition drop_tx (key requestDigest : string) (b : B) : result B :=
  match s_get key b with
  | None => Ok b
  | Some payload =>
      let? r := decodeRecord key payload in
      if negb (bool_decide (r.(jr_Stage) = REQUESTED))
         || negb (EqualDigest (req_RequestDigest r.(jr_ReserveRequest)) requestDigest)
      then Err ErrStage
      else s_delete key b
  end.
Definition DropRequested (io : option goerr) (reservationID requestDigest : string) (j : Journal B)
    : Journal B * outcome :=
  Update io (drop_tx (TrimSpace reservationID) requestDigest) j.

Definition mark_exposed (r : RelayJournalRecord) : result RelayJournalRecord :=
  match r.(jr_Stage) with
  | HELD_UNEXPOSED => Ok (r <| jr_Stage := EXPOSED |>)
  | EXPOSED => Ok r
  | _ => Err ErrStage
  end.
Definition MarkExposed (io : option goerr) (reservationID : string) (j : Journal B) :=
  update io reservationID mark_exposed j.

Definition mark_renew (sequence : Z) (r : RelayJournalRecord) : result RelayJournalRecord :=
  if bool_decide (r.(jr_Stage) = RENEW_PENDING) then
    if r.(jr_PendingRenewSequence) =? sequence then Ok r else Err ErrConflict
  else match r.(jr_Grant) with
       | Some g =>
           if negb (bool_decide (r.(jr_Stage) = EXPOSED))
              || negb (sequence =? u64 (g.(rg_RenewSequence) + 1))
           then Err ErrStage
           else Ok (r <| jr_Stage := RENEW_PENDING |> <| jr_PendingRenewSequence := sequence |>)
       | None => Err ErrStage
       end.
Definition MarkRenewPending (io : option goerr) (reservationID : string) (sequence : Z) (j : Journal B) :=
  update io reservationID (mark_renew sequence) j.

Definition apply_renewed (grant : RelayGrant) (r : RelayJournalRecord) : result RelayJournalRecord :=
  if bool_decide (r.(jr_Stage) = EXPOSED) && bool_decide (r.(jr_Grant) = Some grant) then Ok r
  else if negb (bool_decide (r.(jr_Stage) = RENEW_PENDING))
          || negb (r.(jr_PendingRenewSequence) =? grant.(rg_RenewSequence))
          || negb (String.eqb (grant_SessionId r.(jr_Grant)) grant.(rg_SessionId))
          || negb (EqualDigest (grant_PolicyDigest r.(jr_Grant)) grant.(rg_PolicyDigest))
  then Err ErrStage
  else Ok (r <| jr_Grant := Some grant |> <| jr_PendingRenewSequence := 0 |> <| jr_Stage := EXPOSED |>).
Definition ApplyRenewedGrant (io : option goerr) (grant : option RelayGrant) (j : Journal B)
    : Journal B * outcome :=
  match validateGrant grant, grant with
  | Some e, _ => (j, Returned (Some e))
  | None, Some g => update io g.(rg_ReservationId) (apply_renewed g) j
  | None, None => (j, Returned None)
  end.

Definition mark_closing (r : RelayJournalRecord) : result RelayJournalRecord :=
  match r.(jr_Stage) with
  | EXPOSED | RENEW_PENDING => Ok (r <| jr_Stage := CLOSING |>)
  | CLOSING => Ok r
  | _ => Err ErrStage
  end.
Definition MarkClosing (io : option goerr) (reservationID : string) (j : Journal B) :=
  update io reservationID mark_closing j.

Definition put_settlement (s : RelaySettlement) (r : RelayJournalRecord) : result RelayJournalRecord :=
  let settled := Ok (r <| jr_Settlement := Some s |> <| jr_Stage := SETTLEMENT_DURABLE |>) in
  match r.(jr_Settlement) with
  | Some old => if bool_decide (old = s) then Ok r else Err ErrConflict
  | None =>
      if is_nil r.(jr_Grant) || negb (EqualDigest (grant_PolicyDigest r.(jr_Grant)) s.(st_PolicyDigest))
      then Err ErrConflict
      else if bool_decide (s.(st_Kind) = KindExact) then
        if negb (bool_decide (r.(jr_Stage) = CLOSING)) && negb (bool_decide (r.(jr_Stage) = HELD_UNEXPOSED))
        then Err ErrStage
        else if (s.(st_IngressBytes) >? grant_ReservedBytes r.(jr_Grant))
                || (s.(st_EgressBytes) >? grant_ReservedBytes r.(jr_Grant) - s.(st_IngressBytes))
        then Err "exact settlement exceeds reserved bytes"
        else settled
      else if negb (bool_decide (r.(jr_Stage) = EXPOSED)) && negb (bool_decide (r.(jr_Stage) = RENEW_PENDING))
              && negb (bool_decide (r.(jr_Stage) = CLOSING))
      then Err ErrStage
      else settled
  end.
Definition PutSettlement (io : option goerr) (settlement : option RelaySettlement) (j : Journal B)
    : Journal B * outcome :=
  match validateSettlement settlement, settlement with
  | Some e, _ => (j, Returned (Some e))
  | None, Some s => update io s.(st_ReservationId) (put_settlement s) j
  | None, None => (j, Returned None)
  end.

(** Whether [ack] settles the record: what the Controller committed is the reserved
    maximum, or the exact bytes that are durable here. *)
Definition ack_valid (ack : RelaySettlementAck) (r : RelayJournalRecord) : bool :=
  if bool_decide (ack.(ak_Kind) = KindRecoveryMax)
  then (ack.(ak_IngressBytes) =? 0) && (ack.(ak_EgressBytes) =? 0)
       && (ack.(ak_RecoveryBytes) =? grant_ReservedBytes r.(jr_Grant))
  else match r.(jr_Settlement) with
       | Some s =>
           bool_decide (s.(st_Kind) = KindExact) && (ack.(ak_RecoveryBytes) =? 0)
           && (ack.(ak_IngressBytes) =? s.(st_IngressBytes))
           && (ack.(ak_EgressBytes) =? s.(st_EgressBytes))
           && (AsTime ack.(ak_ObservedAt) =? AsTime s.(st_ObservedAt))
       | None => false
       end.
Definition ack_tx (ack : RelaySettlementAck) (b : B) : result B :=
  let key := ack.(ak_ReservationId) in
  match s_get key b with
  | None => Ok b
  | Some payload =>
      let? r := decodeRecord key payload in
      if negb (EqualDigest (grant_PolicyDigest r.(jr_Grant)) ack.(ak_PolicyDigest)) then Err ErrConflict
      else if negb (ack_valid ack r) then Err ErrConflict
      else s_delete key b
  end.
Definition Ack (io : option goerr) (ack : option RelaySettlementAck) (j : Journal B) : Journal B * outcome :=
  match ack with
  | None => (j, Returned (Some "committed Relay settlement ACK is required"%string))
  | Some a =>
      if blank a.(ak_ReservationId) || negb (checked a.(ak_ObservedAt)) || negb (checked a.(ak_SettledAt))
         || (negb (bool_decide (a.(ak_Code) = APPLIED)) && negb (bool_decide (a.(ak_Code) = REPLAY))
             && negb (bool_decide (a.(ak_Code) = TERMINAL)))
      then (j, Returned (Some "committed Relay settlement ACK is required"%string))
      else Update io (ack_tx a) j
  end.

(** ** Reading *)

(** The records read before one that does not decode are returned with its error. *)
Fixpoint read_records (n : nat) (entries : list (string * string))
    : list RelayJournalRecord * option goerr :=
  match n, entries with
  | O, _ | _, [] => ([], None)
  | S n, (key, payload) :: rest =>
      match decodeRecord key payload with
      | Err e => ([], Some e)
      | Ok r => let '(rs, e) := read_records n rest in (r :: rs, e)
      end
  end.
Definition Records (lim : Z) (j : Journal B) : list RelayJournalRecord * option goerr :=
  match j.(database) with
  | None => ([], Some "open Relay journal and positive batch limit are required"%string)
  | Some b =>
      if lim <=? 0 then ([], Some "open Relay journal and positive batch limit are required"%string)
      else read_records (Z.to_nat lim) (s_cursor b)
  end.
Definition Record_ (reservationID : string) (b : B) : result (option RelayJournalRecord) :=
  match s_get reservationID b with
  | None => Ok None
  | Some payload => let? r := decodeRecord reservationID payload in Ok (Some r)
  end.
Definition Len (b : B) : Z := s_count b.
Definition Close (j : Journal B) : Journal B := mkJournal None j.(limit).
End journal.
