(* ===== verification/JournalTheorems.v ===== *)
(** * What the reservation journal guarantees

    Every record stays well formed and moves only along the stage machine, a granted
    reservation disappears only with a matching settlement acknowledgement, and every
    transition may be retried. *)
From S2P Require Import Prelude GoStd Limiter EdgeState Relay Journal.
Local Open Scope Z_scope.

(** ** A store, for the witnesses *)
#[export] Instance map_store : Store (gmap string string) := {
  s_get k b := b !! k;
  s_put k v b := Ok (<[k := v]> b);
  s_delete k b := Ok (delete k b);
  s_count b := Z.of_nat (size b);
  s_cursor b := map_to_list b }.
#[export] Instance map_store_laws : StoreLaws (gmap string string).
Proof.
  split; simpl.
  - intros k v b b' k' [= <-]. case_decide as Hk; [subst; by rewrite lookup_insert_eq|by rewrite lookup_insert_ne].
  - intros k b b' k' [= <-]. case_decide as Hk; [subst; by rewrite lookup_delete_eq|by rewrite lookup_delete_ne].
  - intros k v b b' [= <-]. destruct (b !! k) eqn:E.
    + rewrite map_size_insert_Some by done. lia.
    + rewrite map_size_insert_None by done. lia.
  - intros k b b' [= <-]. destruct (b !! k) eqn:E.
    + rewrite map_size_delete_Some by done.
      assert (size b ≠ 0%nat); [|lia]. rewrite map_size_non_empty_iff. intros ->. by rewrite lookup_empty in E.
    + rewrite map_size_delete_None by done. lia.
  - done.
  - intros b k v. apply elem_of_map_to_list.
Qed.

(** ** Calls *)
Inductive jop :=
| JCreate (request : option RelayReserveRequest)
| JGrant (grant : option RelayGrant)
| JDrop (reservationID requestDigest : string)
| JExposed (reservationID : string)
| JRenew (reservationID : string) (sequence : Z)
| JRenewed (grant : option RelayGrant)
| JClosing (reservationID : string)
| JSettle (settlement : option RelaySettlement)
| JAck (ack : option RelaySettlementAck)
| JClose.

Section journal.
Context {B : Type} `{Hst : !Store B} `{Hlaws : !StoreLaws B}.
Context (marshal : RelayJournalRecord → result string) (unmarshal : string → result RelayJournalRecord).
Context (reserve_digest : RelayReserveRequest → result string).
Context (policy_digest : RelayPolicySnapshot → result string).
(** protobuf: what was marshalled unmarshals to the same message. *)
Definition codec_ok : Prop := ∀ r p, marshal r = Ok p → unmarshal p = Ok r.

Definition jexec (io : option goerr) (o : jop) (j : Journal B) : Journal B * outcome :=
  match o with
  | JCreate r => CreateRequested marshal unmarshal reserve_digest io r j
  | JGrant g => ApplyGrant marshal unmarshal policy_digest io g j
  | JDrop k d => DropRequested unmarshal io k d j
  | JExposed k => MarkExposed marshal unmarshal io k j
  | JRenew k n => MarkRenewPending marshal unmarshal io k n j
  | JRenewed g => ApplyRenewedGrant marshal unmarshal policy_digest io g j
  | JClosing k => MarkClosing marshal unmarshal io k j
  | JSettle s => PutSettlement marshal unmarshal io s j
  | JAck a => Ack unmarshal io a j
  | JClose => (Close j, Returned None)
  end.

Inductive jreaches (lim : Z) : Journal B → Prop :=
| jr_open b : s_count b = 0 → (∀ k, s_get k b = None) → jreaches lim (mkJournal (Some b) lim)
| jr_step j io o : jreaches lim j → jreaches lim (jexec io o j).1.

(** The record stored under a key. *)
Definition decoded (k : string) (b : B) : option RelayJournalRecord :=
  match s_get k b with
  | Some p => match unmarshal p with Ok r => Some r | Err _ => None end
  | None => None
  end.

(** ** Well-formed records *)
Definition granted (k : string) (rq : RelayReserveRequest) (g : RelayGrant) : Prop :=
  g.(rg_ReservationId) = k ∧ g.(rg_SessionId) = rq.(rr_SessionId) ∧
  validateGrant policy_digest (Some g) = None.

Definition settled (k : string) (g : RelayGrant) (s : RelaySettlement) : Prop :=
  s.(st_ReservationId) = k ∧ validateSettlement (Some s) = None ∧
  EqualDigest g.(rg_PolicyDigest) s.(st_PolicyDigest) = true ∧
  (s.(st_Kind) = KindExact → s.(st_IngressBytes) + s.(st_EgressBytes) ≤ g.(rg_ReservedBytes)).

(** What the fields of a record are at each stage. *)
Definition stage_fields (k : string) (rq : RelayReserveRequest) (r : RelayJournalRecord) : Prop :=
  match r.(jr_Stage) with
  | REQUESTED => r.(jr_Grant) = None ∧ r.(jr_PendingRenewSequence) = 0 ∧ r.(jr_Settlement) = None
  | HELD_UNEXPOSED | EXPOSED =>
      ∃ g, r.(jr_Grant) = Some g ∧ granted k rq g ∧ r.(jr_PendingRenewSequence) = 0 ∧ r.(jr_Settlement) = None
  | RENEW_PENDING =>
      ∃ g, r.(jr_Grant) = Some g ∧ granted k rq g ∧
        r.(jr_PendingRenewSequence) = u64 (g.(rg_RenewSequence) + 1) ∧ r.(jr_Settlement) = None
  | CLOSING => ∃ g, r.(jr_Grant) = Some g ∧ granted k rq g ∧ r.(jr_Settlement) = None
  | SETTLEMENT_DURABLE =>
      ∃ g s, r.(jr_Grant) = Some g ∧ granted k rq g ∧ r.(jr_Settlement) = Some s ∧ settled k g s
  | OtherStage _ => False
  end.

Definition record_ok (k : string) (r : RelayJournalRecord) : Prop :=
  r.(jr_SchemaVersion) = 1 ∧
  ∃ rq, r.(jr_ReserveRequest) = Some rq ∧ rr_ReservationId rq = k ∧
    validateReserveRequest reserve_digest (Some rq) = None ∧ stage_fields k rq r.

Record journal_ok (lim : Z) (j : Journal B) : Prop := {
  jo_limit : j.(limit) = lim;
  jo_records : ∀ b k p, j.(database) = Some b → s_get k b = Some p →
    ∃ r, unmarshal p = Ok r ∧ record_ok k r;
  jo_count : ∀ b, j.(database) = Some b → s_count b ≤ Z.max 0 lim }.

(** ** Transitions *)
Inductive transition (k : string) : option RelayJournalRecord → option RelayJournalRecord → Prop :=
| t_same x : transition k x x
| t_create rq :
    rq.(rr_ReservationId) = k → transition k None (Some (new_record rq))
| t_grant r g :
    r.(jr_Stage) = REQUESTED → r.(jr_Grant) = None →
    transition k (Some r) (Some (r <| jr_Grant := Some g |> <| jr_Stage := HELD_UNEXPOSED |>))
| t_expose r :
    r.(jr_Stage) = HELD_UNEXPOSED → transition k (Some r) (Some (r <| jr_Stage := EXPOSED |>))
| t_renew r g :
    r.(jr_Stage) = EXPOSED → r.(jr_Grant) = Some g →
    transition k (Some r) (Some (r <| jr_Stage := RENEW_PENDING |>
      <| jr_PendingRenewSequence := u64 (g.(rg_RenewSequence) + 1) |>))
| t_renewed r old g :
    r.(jr_Stage) = RENEW_PENDING → r.(jr_Grant) = Some old →
    g.(rg_RenewSequence) = u64 (old.(rg_RenewSequence) + 1) →
    g.(rg_SessionId) = old.(rg_SessionId) → g.(rg_PolicyDigest) = old.(rg_PolicyDigest) →
    transition k (Some r) (Some (r <| jr_Grant := Some g |> <| jr_PendingRenewSequence := 0 |>
      <| jr_Stage := EXPOSED |>))
| t_closing r :
    r.(jr_Stage) = EXPOSED ∨ r.(jr_Stage) = RENEW_PENDING →
    transition k (Some r) (Some (r <| jr_Stage := CLOSING |>))
| t_settle r s :
    r.(jr_Settlement) = None →
    (if bool_decide (s.(st_Kind) = KindExact)
     then r.(jr_Stage) = CLOSING ∨ r.(jr_Stage) = HELD_UNEXPOSED
     else r.(jr_Stage) = EXPOSED ∨ r.(jr_Stage) = RENEW_PENDING ∨ r.(jr_Stage) = CLOSING) →
    transition k (Some r) (Some (r <| jr_Settlement := Some s |> <| jr_Stage := SETTLEMENT_DURABLE |>))
| t_drop r :
    r.(jr_Stage) = REQUESTED → transition k (Some r) None
| t_ack r ack :
    ack.(ak_ReservationId) = k → ack_valid ack r = true →
    EqualDigest (grant_PolicyDigest r.(jr_Grant)) ack.(ak_PolicyDigest) = true →
    transition k (Some r) None.

(** ** The changes of a record *)
Definition preserves (k : string) (f : RelayJournalRecord → result RelayJournalRecord) : Prop :=
  ∀ r r', record_ok k r → f r = Ok r' → record_ok k r' ∧ transition k (Some r) (Some r').

Ltac record_cases H :=
  destruct H as (Hv & rq & Hrq & Hk & Hreq & Hf); unfold stage_fields in Hf.

Lemma equal_digest_eq a b : EqualDigest a b = true → a = b.
Proof. unfold EqualDigest. by intros [_ H%String.eqb_eq]%andb_true_iff. Qed.
Lemma equal_digest_trans a b c : EqualDigest a b = true → EqualDigest b c = true → EqualDigest a c = true.
Proof. intros H1 H2. pose proof (equal_digest_eq _ _ H1) as ->. done. Qed.

Lemma record_grant k rq r g :
  record_ok k r → r.(jr_ReserveRequest) = Some rq → r.(jr_Grant) = Some g → granted k rq g.
Proof.
  intros (_ & rq' & Hrq & _ & _ & Hf) Hrq' Hg. unfold stage_fields in Hf.
  assert (rq' = rq) as -> by congruence. destruct (jr_Stage r); naive_solver congruence.
Qed.

Lemma apply_grant_ok g :
  validateGrant policy_digest (Some g) = None → preserves g.(rg_ReservationId) (apply_grant g).
Proof.
  intros Hg r r' H. pose proof H as Hok. record_cases H. unfold apply_grant. rewrite Hrq. simpl.
  destruct (String.eqb_spec (rr_SessionId rq) (rg_SessionId g)) as [Hs|]; [|done]. cbn [negb].
  destruct (jr_Grant r) as [old|] eqn:Eg.
  { case_bool_decide; [|done]. intros [= <-]. split; [done|constructor]. }
  case_bool_decide as Est; [|done]. intros [= <-]. split; [|by constructor].
  rewrite Est in Hf. destruct Hf as (_ & Hp & Hset).
  split; [done|]. exists rq. split_and!; try done. exists g. by split_and!.
Qed.

Lemma mark_exposed_ok k : preserves k mark_exposed.
Proof.
  intros r r' H. pose proof H as Hok. record_cases H. unfold mark_exposed.
  destruct (jr_Stage r) eqn:Est; intros [= <-].
  - split; [|by constructor]. split; [done|]. by exists rq.
  - by split; [|constructor].
Qed.

Lemma mark_renew_ok k n : preserves k (mark_renew n).
Proof.
  intros r r' H. pose proof H as Hok. record_cases H. unfold mark_renew.
  case_bool_decide as Est.
  { destruct (_ =? _); [|done]. intros [= <-]. by split; [|constructor]. }
  destruct (jr_Grant r) as [g|] eqn:Eg; [|done]. destruct (_ || _) eqn:Ec; [done|].
  apply orb_false_iff in Ec as [E1%negb_false_iff%bool_decide_eq_true E2%negb_false_iff%Z.eqb_eq].
  intros [= <-]. rewrite E2. split; [|by constructor].
  rewrite E1 in Hf. destruct Hf as (g' & Hg & Hgr & Hp & Hset). assert (g' = g) as -> by congruence.
  split; [done|]. exists rq. split_and!; try done. exists g. done.
Qed.

Lemma apply_renewed_ok g :
  validateGrant policy_digest (Some g) = None → preserves g.(rg_ReservationId) (apply_renewed g).
Proof.
  intros Hg r r' H. pose proof H as Hok. record_cases H. unfold apply_renewed.
  destruct (_ && _); [intros [= <-]; by split; [|constructor]|].
  destruct (_ || _) eqn:Ec; [done|].
  apply orb_false_iff in Ec as [[[E1%negb_false_iff%bool_decide_eq_true E2%negb_false_iff%Z.eqb_eq]%orb_false_iff
    E3%negb_false_iff%String.eqb_eq]%orb_false_iff E4%negb_false_iff%equal_digest_eq].
  intros [= <-]. rewrite E1 in Hf. destruct Hf as (old & Hold & (G1 & G2 & G3) & Hp & Hset).
  rewrite Hold in E3, E4. simpl in E3, E4. split; [|eapply t_renewed; eauto; congruence].
  split; [done|]. exists rq. split_and!; try done. exists g. split_and!; try done. split_and!; congruence.
Qed.

Lemma mark_closing_ok k : preserves k mark_closing.
Proof.
  intros r r' H. pose proof H as Hok. record_cases H. unfold mark_closing.
  destruct (jr_Stage r) eqn:Est; intros [= <-]; [..|by split; [|constructor]].
  - split; [|by constructor; left]. split; [done|]. exists rq. split_and!; try done.
    destruct Hf as (g & ? & ? & _ & ?). by exists g.
  - split; [|by constructor; right]. split; [done|]. exists rq. split_and!; try done.
    destruct Hf as (g & ? & ? & _ & ?). by exists g.
Qed.

Lemma put_settlement_ok s :
  validateSettlement (Some s) = None → preserves s.(st_ReservationId) (put_settlement s).
Proof.
  intros Hs r r' H. pose proof H as Hok. record_cases H. unfold put_settlement.
  destruct (jr_Settlement r) as [old|] eqn:Eset.
  { case_bool_decide; [|done]. intros [= <-]. by split; [|constructor]. }
  destruct (is_nil (jr_Grant r) || _) eqn:Eg; [done|].
  apply orb_false_iff in Eg as [Eg Edg%negb_false_iff].
  destruct (jr_Grant r) as [g|] eqn:Egr; [|done]. simpl in Edg.
  set (r1 := r <| jr_Settlement := Some s |> <| jr_Stage := SETTLEMENT_DURABLE |>).
  assert (granted (st_ReservationId s) rq g) as Hgr by (by eapply record_grant).
  assert ((s.(st_Kind) = KindExact → s.(st_IngressBytes) + s.(st_EgressBytes) ≤ g.(rg_ReservedBytes)) →
    record_ok (st_ReservationId s) r1) as Hr1.
  { intros Hsum. split; [done|]. exists rq. split; [done|]. split; [done|]. split; [done|].
    exists g, s. done. }
  case_bool_decide as Ek.
  - destruct (_ && _) eqn:E1; [done|]. destruct (_ || _) eqn:E2; [done|]. intros [= <-].
    apply orb_false_iff in E2 as [E2 E3]. rewrite Z.gtb_ltb, Z.ltb_ge in E2, E3. simpl in E2, E3.
    split; [apply Hr1; lia|]. constructor; [done|]. rewrite bool_decide_true by done.
    destruct (decide (jr_Stage r = CLOSING)); [by left|right].
    rewrite bool_decide_false in E1 by done. by apply negb_false_iff, bool_decide_eq_true in E1.
  - destruct (_ && _) eqn:E1; [done|]. intros [= <-].
    split; [by apply Hr1|]. constructor; [done|]. rewrite bool_decide_false by done.
    destruct (decide (jr_Stage r = EXPOSED)); [by left|].
    destruct (decide (jr_Stage r = RENEW_PENDING)); [by right; left|]. right; right.
    rewrite !bool_decide_false in E1 by done. by apply negb_false_iff, bool_decide_eq_true in E1.
Qed.

(** ** Transactions *)
Context (Hcodec : codec_ok).

Definition db_ok (lim : Z) (b : B) : Prop :=
  (∀ k p, s_get k b = Some p → ∃ r, unmarshal p = Ok r ∧ record_ok k r) ∧ s_count b ≤ Z.max 0 lim.
Definition db_step (b b' : B) : Prop := ∀ k, transition k (decoded k b) (decoded k b').

Lemma db_step_refl b : db_step b b.
Proof. intros k. constructor. Qed.

Lemma decode_ok k p r : decodeRecord unmarshal k p = Ok r → unmarshal p = Ok r.
Proof. unfold decodeRecord. destruct (unmarshal p); [|done]. destruct (_ || _); [done|]. by intros [= ->]. Qed.

Lemma decode_get lim b k p r :
  db_ok lim b → s_get k b = Some p → decodeRecord unmarshal k p = Ok r →
  decoded k b = Some r ∧ record_ok k r.
Proof.
  intros [Hb _] Hp Hr%decode_ok. unfold decoded. rewrite Hp, Hr. split; [done|].
  destruct (Hb k p Hp) as (r' & Hr' & Hok). by assert (r' = r) as -> by congruence.
Qed.

Lemma put_step lim b b' k p r :
  db_ok lim b → s_put k p b = Ok b' → unmarshal p = Ok r → record_ok k r →
  (s_get k b = None → s_count b < lim) → transition k (decoded k b) (Some r) →
  db_ok lim b' ∧ db_step b b'.
Proof.
  intros [Hb Hc] Hput Hr Hok Hcount Ht. split; [split|].
  - intros k' p'. rewrite (get_put _ _ _ _ k' Hput). case_decide as Hk; [|by apply Hb].
    intros [= <-]. subst. by exists r.
  - rewrite (count_put _ _ _ _ Hput). destruct (s_get k b); [lia|]. specialize (Hcount eq_refl). lia.
  - intros k'. unfold decoded. rewrite (get_put _ _ _ _ k' Hput). case_decide as Hk; [|constructor].
    subst. by rewrite Hr.
Qed.

Lemma delete_step lim b b' k r :
  db_ok lim b → s_delete k b = Ok b' → decoded k b = Some r → transition k (Some r) None →
  db_ok lim b' ∧ db_step b b'.
Proof.
  intros [Hb Hc] Hdel Hr Ht. split; [split|].
  - intros k' p'. rewrite (get_delete _ _ _ k' Hdel). case_decide as Hk; [done|]. apply Hb.
  - rewrite (count_delete _ _ _ Hdel). destruct (s_get k b); lia.
  - intros k'. unfold decoded at 2. rewrite (get_delete _ _ _ k' Hdel).
    case_decide as Hk; [by subst; rewrite Hr|constructor].
Qed.

Lemma update_tx_ok lim k f b b' :
  preserves k f → db_ok lim b → update_tx marshal unmarshal k f b = Ok b' →
  db_ok lim b' ∧ db_step b b'.
Proof.
  intros Hf Hb. unfold update_tx, putRecord. destruct (s_get k b) as [p|] eqn:Ep; [|done].
  destruct (decodeRecord unmarshal k p) as [r|] eqn:Er; [|done]. simpl.
  destruct (f r) as [r'|] eqn:Ef; [|done]. simpl.
  destruct (marshal r') as [p'|] eqn:Em; [|done]. simpl. intros Hput.
  destruct (decode_get _ _ _ _ _ Hb Ep Er) as [Hd Hok]. destruct (Hf r r' Hok Ef) as [Hok' Ht].
  eapply put_step; eauto; [congruence|]. by rewrite Hd.
Qed.

Lemma create_tx_ok lim rq b b' :
  validateReserveRequest reserve_digest (Some rq) = None → db_ok lim b →
  create_tx marshal unmarshal lim rq b = Ok b' → db_ok lim b' ∧ db_step b b'.
Proof.
  intros Hv Hb. unfold create_tx, putRecord. destruct (s_get (rr_ReservationId rq) b) as [p|] eqn:Ep.
  { destruct (equalRecord _ _ _); [done|]. intros [= <-]. split; [done|apply db_step_refl]. }
  destruct (_ >=? _) eqn:El; [done|]. rewrite Z.geb_leb, Z.leb_gt in El.
  destruct (marshal (new_record rq)) as [p'|] eqn:Em; [|done]. simpl. intros Hput.
  eapply put_step; eauto.
  - split; [done|]. exists rq. done.
  - unfold decoded. rewrite Ep. by constructor.
Qed.

Lemma drop_tx_ok lim k dg b b' :
  db_ok lim b → drop_tx unmarshal k dg b = Ok b' → db_ok lim b' ∧ db_step b b'.
Proof.
  intros Hb. unfold drop_tx. destruct (s_get k b) as [p|] eqn:Ep.
  2:{ intros [= <-]. split; [done|apply db_step_refl]. }
  destruct (decodeRecord unmarshal k p) as [r|] eqn:Er; [|done]. simpl.
  destruct (_ || _) eqn:Ec; [done|]. apply orb_false_iff in Ec as [Ec%negb_false_iff%bool_decide_eq_true _].
  intros Hdel. destruct (decode_get _ _ _ _ _ Hb Ep Er) as [Hd Hok].
  eapply delete_step; eauto. by constructor.
Qed.

Lemma ack_tx_ok lim a b b' :
  db_ok lim b → ack_tx unmarshal a b = Ok b' → db_ok lim b' ∧ db_step b b'.
Proof.
  intros Hb. unfold ack_tx. destruct (s_get _ b) as [p|] eqn:Ep.
  2:{ intros [= <-]. split; [done|apply db_step_refl]. }
  destruct (decodeRecord unmarshal _ p) as [r|] eqn:Er; [|done]. simpl.
  destruct (EqualDigest _ _) eqn:E1; [|done]. destruct (ack_valid a r) eqn:E2; [|done]. cbn [negb].
  intros Hdel. destruct (decode_get _ _ _ _ _ Hb Ep Er) as [Hd Hok].
  eapply delete_step; eauto. by eapply t_ack.
Qed.

(** ** Calls *)

(** The effect of a call is the effect of a transaction that preserves the store. *)
Definition call_ok (lim : Z) (j j' : Journal B) : Prop :=
  journal_ok lim j' ∧
  ∀ b b', j.(database) = Some b → j'.(database) = Some b' → db_step b b'.

Lemma call_refl lim j : journal_ok lim j → call_ok lim j j.
Proof. intros Hj. split; [done|]. intros b b' H1 H2. assert (b' = b) as -> by congruence. apply db_step_refl. Qed.

Lemma Update_ok lim io f j :
  journal_ok lim j → (∀ b b', db_ok lim b → f b = Ok b' → db_ok lim b' ∧ db_step b b') →
  call_ok lim j (Update io f j).1.
Proof.
  intros Hj Hf. pose proof Hj as [H1 H2 H3]. unfold Update. destruct (database j) as [b|] eqn:Ed; [|by apply call_refl].
  destruct (f b) as [b1|] eqn:Ef; [|by apply call_refl]. destruct io; [by apply call_refl|].
  destruct (Hf b b1) as [[Hb Hc] Hs]; [split; eauto|done|]. split.
  - split; [done| |]; simpl.
    + intros b2 k p [= <-]. apply Hb.
    + by intros b2 [= <-].
  - simpl. intros b2 b3 E1 [= <-]. assert (b2 = b) as -> by congruence. done.
Qed.

Lemma update_ok lim io k f j :
  journal_ok lim j → preserves k f → call_ok lim j (update marshal unmarshal io k f j).1.
Proof.
  intros Hj Hf. unfold update. destruct (_ || _); [by apply call_refl|].
  apply Update_ok; [done|]. intros b b'. by apply update_tx_ok.
Qed.

Lemma jexec_ok lim io o j : journal_ok lim j → call_ok lim j (jexec io o j).1.
Proof.
  intros Hj. destruct o; cbn [jexec].
  - unfold CreateRequested. destruct (validateReserveRequest _ _) eqn:Ev; [by apply call_refl|].
    destruct request as [rq|]; [|done]. rewrite (jo_limit _ _ Hj).
    apply Update_ok; [done|]. intros b b'. by apply create_tx_ok.
  - unfold ApplyGrant. destruct (validateGrant _ _) eqn:Ev; [by apply call_refl|].
    destruct grant as [g|]; [|done]. by apply update_ok, apply_grant_ok.
  - apply Update_ok; [done|]. intros b b'. by apply drop_tx_ok.
  - by apply update_ok, mark_exposed_ok.
  - by apply update_ok, mark_renew_ok.
  - unfold ApplyRenewedGrant. destruct (validateGrant _ _) eqn:Ev; [by apply call_refl|].
    destruct grant as [g|]; [|done]. by apply update_ok, apply_renewed_ok.
  - by apply update_ok, mark_closing_ok.
  - unfold PutSettlement. destruct (validateSettlement _) eqn:Ev; [by apply call_refl|].
    destruct settlement as [s|]; [|done]. by apply update_ok, put_settlement_ok.
  - unfold Ack. destruct ack as [a|]; [|by apply call_refl]. destruct (_ || _); [by apply call_refl|].
    apply Update_ok; [done|]. intros b b'. by apply ack_tx_ok.
  - split; [|done]. destruct Hj. by split.
Qed.

Lemma jreaches_ok lim j : jreaches lim j → journal_ok lim j.
Proof.
  induction 1 as [b Hc Hg|j io o Hr IH]; [|by apply jexec_ok].
  split; [done| |]; simpl.
  - intros b' k p [= <-]. by rewrite Hg.
  - intros b' [= <-]. lia.
Qed.

(** The journal stays well formed: whatever calls are made, failed or not, every
    stored record decodes, belongs to its key, was requested with a valid digest, and has
    exactly the grant, pending renewal and settlement its stage calls for; an exact
    settlement never exceeds the reserved bytes; and the limit on records holds. *)
Theorem journal_well_formed lim j b :
  jreaches lim j → j.(database) = Some b →
  (∀ k p, s_get k b = Some p → ∃ r, unmarshal p = Ok r ∧ record_ok k r) ∧
  s_count b ≤ Z.max 0 lim.
Proof. intros Hr%jreaches_ok Hb. destruct Hr. split; eauto. Qed.

(** C12: every call moves each record along one edge of the stage machine or leaves it. In
    particular a granted reservation is deleted only by an acknowledgement that matches
    its durable settlement or commits its reserved maximum, and a durable settlement
    never changes. *)
Theorem journal_transitions lim j b io o b' k :
  jreaches lim j → j.(database) = Some b → (jexec io o j).1.(database) = Some b' →
  transition k (decoded k b) (decoded k b') ∧
  (∀ r s, decoded k b = Some r → r.(jr_Settlement) = Some s → decoded k b' = Some r ∨ decoded k b' = None).
Proof.
  intros Hr%jreaches_ok Hb Hb'. destruct (jexec_ok lim io o j Hr) as [_ Hs].
  pose proof (Hs b b' Hb Hb' k) as Ht. split; [done|]. intros r s Hd Hset.
  assert (record_ok k r) as Hok.
  { unfold decoded in Hd. destruct (s_get k b) as [p|] eqn:Ep; [|done].
    destruct (jo_records _ _ Hr b k p Hb Ep) as (r' & Hr' & Hok). rewrite Hr' in Hd. by injection Hd as <-. }
  rewrite Hd in Ht. inversion Ht; subst; auto; exfalso;
    destruct Hok as (_ & rq & _ & _ & _ & Hf); unfold stage_fields in Hf;
    try congruence; destruct (jr_Stage r); naive_solver congruence.
Qed.

(** ** Retries *)
Definition settles (k : string) (f : RelayJournalRecord → result RelayJournalRecord) : Prop :=
  ∀ r r', record_ok k r → f r = Ok r' → f r' = Ok r'.

Lemma apply_grant_settles k g : settles k (apply_grant g).
Proof.
  intros r r' _. unfold apply_grant. destruct (String.eqb_spec (req_SessionId (jr_ReserveRequest r)) (rg_SessionId g)) as [Hs|]; [|done].
  cbn [negb]. destruct (jr_Grant r) as [old|] eqn:Eg.
  - case_bool_decide; [|done]. intros [= <-]. rewrite Hs, String.eqb_refl, Eg. cbn [negb].
    by rewrite bool_decide_true.
  - case_bool_decide; [|done]. intros [= <-]. simpl. rewrite Hs, String.eqb_refl. simpl.
    by rewrite bool_decide_true.
Qed.
Lemma mark_exposed_settles k : settles k mark_exposed.
Proof.
  intros r r' _. unfold mark_exposed. destruct (jr_Stage r) eqn:E; intros [= <-]; simpl; [done|].
  by rewrite E.
Qed.
Lemma mark_renew_settles k n : settles k (mark_renew n).
Proof.
  intros r r' _. unfold mark_renew. case_bool_decide as Est.
  - destruct (_ =? _) eqn:E; [|done]. intros [= <-]. by rewrite bool_decide_true, E by done.
  - destruct (jr_Grant r) as [g|]; [|done]. destruct (_ || _); [done|]. intros [= <-]. simpl.
    by rewrite Z.eqb_refl.
Qed.
Lemma apply_renewed_settles k g : settles k (apply_renewed g).
Proof.
  intros r r' _. unfold apply_renewed. destruct (_ && _) eqn:E; [intros [= <-]; by rewrite E|].
  destruct (_ || _); [done|]. intros [= <-]. simpl. by rewrite bool_decide_true.
Qed.
Lemma mark_closing_settles k : settles k mark_closing.
Proof.
  intros r r' _. unfold mark_closing. destruct (jr_Stage r) eqn:E; intros [= <-]; simpl; try done.
  by rewrite E.
Qed.
Lemma put_settlement_settles k s : settles k (put_settlement s).
Proof.
  intros r r' _. unfold put_settlement. destruct (jr_Settlement r) as [old|] eqn:Es.
  - case_bool_decide; [|done]. intros [= <-]. rewrite Es. by rewrite bool_decide_true.
  - destruct (_ || _); [done|]. case_bool_decide.
    + destruct (_ && _); [done|]. destruct (_ || _); [done|]. intros [= <-]. simpl. by rewrite bool_decide_true.
    + destruct (_ && _); [done|]. intros [= <-]. simpl. by rewrite bool_decide_true.
Qed.

Definition same_records (b b' : B) : Prop := ∀ k, decoded k b' = decoded k b.
(** The call succeeds again and changes nothing. *)
Definition repeats (f : B → result B) (b : B) : Prop := ∃ b', f b = Ok b' ∧ same_records b b'.

Lemma update_tx_repeats lim k f b b' :
  settles k f → preserves k f → db_ok lim b → update_tx marshal unmarshal k f b = Ok b' →
  repeats (update_tx marshal unmarshal k f) b'.
Proof.
  intros Hset Hpres Hb. unfold update_tx, putRecord, repeats. destruct (s_get k b) as [p|] eqn:Ep; [|done].
  destruct (decodeRecord unmarshal k p) as [r|] eqn:Er; [|done]. simpl.
  destruct (f r) as [r'|] eqn:Ef; [|done]. simpl.
  destruct (marshal r') as [p'|] eqn:Em; [|done]. simpl. intros Hput.
  destruct (decode_get _ _ _ _ _ Hb Ep Er) as [Hd Hok]. destruct (Hpres r r' Hok Ef) as [Hok' Ht].
  rewrite (get_put _ _ _ _ k Hput), decide_True by done.
  assert (decodeRecord unmarshal k p' = Ok r') as ->.
  { unfold decodeRecord. rewrite (Hcodec _ _ Em). destruct Hok' as (-> & rq & -> & <- & _). simpl.
    by rewrite String.eqb_refl. }
  simpl. rewrite (Hset r r' Hok Ef). simpl. rewrite Em. simpl.
  pose proof (put_again _ _ _ _ Hput) as Hagain. destruct (s_put k p' b') as [b2|] eqn:E2; [|done].
  exists b2. split; [done|]. intros k'. unfold decoded. rewrite (get_put _ _ _ _ k' E2).
  case_decide as Hk; [subst|done]. by rewrite (get_put _ _ _ _ k Hput), decide_True by done.
Qed.

Lemma create_tx_repeats lim rq b b' :
  create_tx marshal unmarshal lim rq b = Ok b' → repeats (create_tx marshal unmarshal lim rq) b'.
Proof.
  intros Hc. exists b'. split; [|done]. revert Hc. unfold create_tx, putRecord.
  destruct (s_get (rr_ReservationId rq) b) as [p|] eqn:Ep.
  { destruct (equalRecord _ _ _) eqn:Ee; [done|]. intros [= <-]. by rewrite Ep, Ee. }
  destruct (_ >=? _); [done|]. destruct (marshal (new_record rq)) as [p'|] eqn:Em; [|done]. simpl.
  intros Hput. rewrite (get_put _ _ _ _ _ Hput), decide_True by done.
  unfold equalRecord. rewrite (Hcodec _ _ Em). by rewrite bool_decide_true.
Qed.

Lemma delete_repeats k b b' (f : B → result B) :
  (s_get k b' = None → f b' = Ok b') → s_delete k b = Ok b' → repeats f b'.
Proof.
  intros Hf Hdel. exists b'. split; [|done]. apply Hf.
  by rewrite (get_delete _ _ _ k Hdel), decide_True.
Qed.
Lemma drop_tx_repeats k dg b b' : drop_tx unmarshal k dg b = Ok b' → repeats (drop_tx unmarshal k dg) b'.
Proof.
  unfold drop_tx at 1. destruct (s_get k b) as [p|] eqn:Ep.
  2:{ intros [= <-]. exists b. split; [|done]. unfold drop_tx. by rewrite Ep. }
  destruct (decodeRecord _ _ _); [|done]. simpl. destruct (_ || _); [done|].
  apply delete_repeats. intros Hn. unfold drop_tx. by rewrite Hn.
Qed.
Lemma ack_tx_repeats a b b' : ack_tx unmarshal a b = Ok b' → repeats (ack_tx unmarshal a) b'.
Proof.
  unfold ack_tx at 1. destruct (s_get _ b) as [p|] eqn:Ep.
  2:{ intros [= <-]. exists b. split; [|done]. unfold ack_tx. by rewrite Ep. }
  destruct (decodeRecord _ _ _); [|done]. simpl. destruct (negb _); [done|]. destruct (negb _); [done|].
  apply delete_repeats. intros Hn. unfold ack_tx. by rewrite Hn.
Qed.

Lemma Update_repeats f b lim j' :
  Update None f (mkJournal (Some b) lim) = (j', Returned None) →
  (∀ b', f b = Ok b' → repeats f b') →
  ∃ b' b'', j' = mkJournal (Some b') lim ∧
    Update None f j' = (mkJournal (Some b'') lim, Returned None) ∧ same_records b' b''.
Proof.
  unfold Update at 1. simpl. destruct (f b) as [b'|] eqn:Ef; [|done]. intros [= <-] Hrep.
  destruct (Hrep b' eq_refl) as (b'' & Hf & Hs). exists b', b''. split; [done|]. split; [|done].
  unfold Update. simpl. by rewrite Hf.
Qed.

Lemma update_repeats k f b lim j' :
  update marshal unmarshal None k f (mkJournal (Some b) lim) = (j', Returned None) →
  settles k f → preserves k f → db_ok lim b →
  ∃ b' b'', j' = mkJournal (Some b') lim ∧
    update marshal unmarshal None k f j' = (mkJournal (Some b'') lim, Returned None) ∧ same_records b' b''.
Proof.
  unfold update at 1. simpl. destruct (blank k) eqn:Ek; [done|]. intros Hu H1 H2 H3.
  destruct (Update_repeats _ _ _ _ Hu) as (b' & b'' & -> & Hu' & Hs).
  { intros b'. by apply (update_tx_repeats lim). }
  exists b', b''. split; [done|]. split; [|done]. unfold update. simpl. by rewrite Ek.
Qed.

(** Every call may be retried. A call that succeeded, repeated with the same
    arguments, succeeds again and leaves every record as it is, so replaying a transition
    after a lost answer is harmless. *)
Theorem retry_idempotent lim b o j' :
  jreaches lim (mkJournal (Some b) lim) → o ≠ JClose →
  jexec None o (mkJournal (Some b) lim) = (j', Returned None) →
  ∃ b' b'', j' = mkJournal (Some b') lim ∧
    jexec None o j' = (mkJournal (Some b'') lim, Returned None) ∧ same_records b' b''.
Proof.
  intros Hr%jreaches_ok Hne. assert (db_ok lim b) as Hb by (destruct Hr; split; eauto).
  destruct o; cbn [jexec]; try done.
  - unfold CreateRequested. destruct (validateReserveRequest _ _) eqn:Ev; [done|].
    destruct request as [rq|]; [|done]. cbn [limit]. intros Hu.
    destruct (Update_repeats _ _ _ _ Hu) as (b' & b'' & -> & Hu' & Hs); [|by exists b', b''].
    intros b'. apply create_tx_repeats.
  - unfold ApplyGrant. destruct (validateGrant _ _) eqn:Ev; [done|]. destruct grant as [g|]; [|done].
    intros Hu. eapply update_repeats; eauto; [apply apply_grant_settles|by apply apply_grant_ok].
  - intros Hu. apply (Update_repeats _ _ _ _ Hu). intros b'. apply drop_tx_repeats.
  - intros Hu. eapply update_repeats; eauto; [apply mark_exposed_settles|by apply mark_exposed_ok].
  - intros Hu. eapply update_repeats; eauto; [apply mark_renew_settles|by apply mark_renew_ok].
  - unfold ApplyRenewedGrant. destruct (validateGrant _ _) eqn:Ev; [done|]. destruct grant as [g|]; [|done].
    intros Hu. eapply update_repeats; eauto; [apply apply_renewed_settles|by apply apply_renewed_ok].
  - intros Hu. eapply update_repeats; eauto; [apply mark_closing_settles|by apply mark_closing_ok].
  - unfold PutSettlement. destruct (validateSettlement _) eqn:Ev; [done|]. destruct settlement as [s|]; [|done].
    intros Hu. eapply update_repeats; eauto; [apply put_settlement_settles|by apply put_settlement_ok].
  - unfold Ack. destruct ack as [a|]; [|done]. destruct (_ || _); [done|].
    intros Hu. apply (Update_repeats _ _ _ _ Hu). intros b'. apply ack_tx_repeats.
Qed.
End journal.

(** ** A concrete run, for the witnesses *)
Module JournalDemo.
Definition digest32 : string := "0123456789abcdef0123456789abcdef".
Definition ts (s : Z) : option Timestamp := Some (mkTimestamp s 0).
Definition request : RelayReserveRequest := mkReserve "r1" "acc" "d1" "c1" "s1" (ts 5) digest32.
Definition policy : RelayPolicySnapshot := mkPolicy "d1" ["eu"] "".
Definition grant : RelayGrant := mkGrant "r1" "s1" 1000 100 0 (ts 60) digest32 (Some policy).
Definition settlement : RelaySettlement := mkSettlement "r1" KindExact 500 300 digest32 (ts 50).
Definition ack : RelaySettlementAck :=
  mkAck "r1" KindExact 500 300 0 digest32 (ts 50) (ts 55) APPLIED.

(** An encoding of the records of the run. *)
Definition table : list RelayJournalRecord :=
  let r0 := new_record request in
  let r1 := r0 <| jr_Grant := Some grant |> <| jr_Stage := HELD_UNEXPOSED |> in
  let r2 := r1 <| jr_Stage := EXPOSED |> in
  let r3 := r2 <| jr_Stage := CLOSING |> in
  [r0; r1; r2; r3; r3 <| jr_Settlement := Some settlement |> <| jr_Stage := SETTLEMENT_DURABLE |>].
Fixpoint encode (n : nat) : string :=
  match n with O => "" | S n => String.String (Ascii.ascii_of_N 120) (encode n) end.
Definition marshal (r : RelayJournalRecord) : result string :=
  match list_find (λ x, x = r) table with Some (i, _) => Ok (encode i) | None => Err "unknown record" end.
Definition unmarshal (p : string) : result RelayJournalRecord :=
  match table !! String.length p with Some r => Ok r | None => Err "unknown record" end.
Lemma codec : codec_ok marshal unmarshal.
Proof.
  intros r p. unfold marshal, unmarshal. destruct (list_find _ table) as [[i x]|] eqn:E; [|done].
  apply list_find_Some in E as (Hi & -> & _). intros [= <-].
  assert (String.length (encode i) = i) as -> by (clear Hi; induction i as [|i IH]; simpl; congruence).
  by rewrite Hi.
Qed.

Definition reserve_digest (_ : RelayReserveRequest) : result string := Ok digest32.
Definition policy_digest (_ : RelayPolicySnapshot) : result string := Ok digest32.
Definition call := jexec (B := gmap string string) marshal unmarshal reserve_digest policy_digest None.
Definition calls : list jop :=
  [JCreate (Some request); JGrant (Some grant); JExposed "r1"; JClosing "r1"; JSettle (Some settlement)].
Definition start : Journal (gmap string string) := mkJournal (Some ∅) 10.
Definition run (ops : list jop) : Journal (gmap string string) := fold_left (λ j o, (call o j).1) ops start.
Lemma run_reaches ops : jreaches marshal unmarshal reserve_digest policy_digest 10 (run ops).
Proof.
  unfold run. induction ops as [|o ops IH] using rev_ind; [by apply jr_open|].
  rewrite fold_left_app. simpl. by apply jr_step.
Qed.
Definition db (j : Journal (gmap string string)) : gmap string string := default ∅ j.(database).
Definition final := run calls.
Lemma final_open : final.(database) = Some (db final).
Proof. reflexivity. Qed.
End JournalDemo.

Example journal_demo_shape :
  (jr_Stage <$> decoded JournalDemo.unmarshal "r1" (JournalDemo.db JournalDemo.final)) = Some SETTLEMENT_DURABLE ∧
  (JournalDemo.call (JAck (Some JournalDemo.ack)) JournalDemo.final).2 = Returned None ∧
  decoded JournalDemo.unmarshal "r1"
    (JournalDemo.db (JournalDemo.call (JAck (Some JournalDemo.ack)) JournalDemo.final).1) = None.
Proof. vm_compute. done. Qed.

Lemma journal_well_formed_witness :
  (∀ k p, s_get k (JournalDemo.db JournalDemo.final) = Some p →
    ∃ r, JournalDemo.unmarshal p = Ok r ∧
      record_ok JournalDemo.reserve_digest JournalDemo.policy_digest k r) ∧
  s_count (JournalDemo.db JournalDemo.final) ≤ 10.
Proof.
  apply (journal_well_formed JournalDemo.marshal JournalDemo.unmarshal JournalDemo.reserve_digest
    JournalDemo.policy_digest JournalDemo.codec 10 JournalDemo.final (JournalDemo.db JournalDemo.final)
    (JournalDemo.run_reaches JournalDemo.calls) JournalDemo.final_open).
Defined.
Lemma journal_transitions_witness :
  let after := JournalDemo.call (JAck (Some JournalDemo.ack)) JournalDemo.final in
  transition "r1" (decoded JournalDemo.unmarshal "r1" (JournalDemo.db JournalDemo.final))
    (decoded JournalDemo.unmarshal "r1" (JournalDemo.db after.1)).
Proof.
  cbn zeta.
  apply (journal_transitions JournalDemo.marshal JournalDemo.unmarshal JournalDemo.reserve_digest
    JournalDemo.policy_digest JournalDemo.codec 10 JournalDemo.final (JournalDemo.db JournalDemo.final)
    None (JAck (Some JournalDemo.ack)) _ "r1" (JournalDemo.run_reaches JournalDemo.calls)
    JournalDemo.final_open).
  reflexivity.
Defined.
Lemma retry_idempotent_witness :
  let b := JournalDemo.db (JournalDemo.run [JCreate (Some JournalDemo.request); JGrant (Some JournalDemo.grant)]) in
  ∃ b' b'', (JournalDemo.call (JExposed "r1") (mkJournal (Some b) 10)).1 = mkJournal (Some b') 10 ∧
    JournalDemo.call (JExposed "r1") (mkJournal (Some b') 10) = (mkJournal (Some b'') 10, Returned None) ∧
    same_records JournalDemo.unmarshal b' b''.
Proof.
  cbn zeta. set (ops := [JCreate (Some JournalDemo.request); JGrant (Some JournalDemo.grant)]).
  set (b := JournalDemo.db (JournalDemo.run ops)).
  destruct (retry_idempotent JournalDemo.marshal JournalDemo.unmarshal JournalDemo.reserve_digest
    JournalDemo.policy_digest JournalDemo.codec 10 b (JExposed "r1")
    (JournalDemo.call (JExposed "r1") (mkJournal (Some b) 10)).1 (JournalDemo.run_reaches ops)
    ltac:(discriminate) ltac:(vm_compute; reflexivity)) as (b' & b'' & H1 & H2 & H3).
  exists b', b''. split; [exact H1|]. rewrite H1 in H2. split; [exact H2|exact H3].
Defined.
