(* ===== verification/SplitTree.v ===== *)
(** * The pane split tree

    [tui/state/shell_pane_tree.go]: the tree of splits of a TUI tab and the edits the pane
    commands make of it (split, close, keyboard and mouse resize, set size, balance).
    [state.SplitNode] and its projection [render.SplitVM] have the same fields; both are
    [SplitNode] here. Every store operation deep-clones the tree first
    ([ShellStore.EnsureDefaults], [cloneSplitNode]), so an edit returns a new tree and no
    node is shared; [balanceSplitNode], which writes its children in place, is then the
    function below as well. *)
From S2P Require Import Prelude.
From Stdlib Require Export Floats.SpecFloat.
From Stdlib Require Import Strings.Ascii.
Local Open Scope Z_scope.
Local Open Scope bool_scope.

(** ** Integers and floats of Go

    [int] has 64 bits; [iadd] is its wrapping addition. A [float64] is a [spec_float] of
    precision 53 and maximal exponent 1024. *)
Definition iadd (a b : Z) : Z := i64 (a + b).
Definition f64_zero : spec_float := S754_zero false.
Definition f64_one : spec_float := S754_finite false (2 ^ 52)%positive (-52).
Definition f64_of_int (z : Z) : spec_float := binary_normalize 53 1024 z 0 false.
Definition f64_mul : spec_float → spec_float → spec_float := SFmul 53 1024.
Definition f64_sub : spec_float → spec_float → spec_float := SFsub 53 1024.
Definition f64_lt : spec_float → spec_float → bool := SFltb.
(** Conversion of a float to an [int] truncates; what Go leaves to the machine (NaN and
    values out of range) is the value amd64 gives. *)
Definition int_of_f64 (f : spec_float) : Z :=
  let indefinite := - 2 ^ 63 in
  match f with
  | S754_zero _ => 0
  | S754_finite s m e =>
      let v := if 0 <=? e then Z.pos m * 2 ^ e else Z.pos m / 2 ^ (- e) in
      let z := if s then - v else v in
      if bool_decide (- 2 ^ 63 ≤ z < 2 ^ 63) then z else indefinite
  | S754_infinity _ | S754_nan => indefinite
  end.

(** ** Data ([tui/state/shell.go], [tui/state/pane_command.go]) *)
Definition SplitDirection := string.
Definition SplitDirectionHorizontal : SplitDirection := "horizontal".
Definition SplitDirectionVertical : SplitDirection := "vertical".

Inductive SplitNode := mkSplit {
  PaneID : string;
  Direction : SplitDirection;
  Children : list SplitNode;
  Ratio : spec_float;
  BiasCells : Z;
  FixedPaneID : string;
  FixedCols : Z;
  FixedRows : Z }.
#[export] Instance eta_split : Eta SplitNode := λ r,
  mkSplit (PaneID r) (Direction r) (Children r) (Ratio r) (BiasCells r) (FixedPaneID r)
    (FixedCols r) (FixedRows r).

Definition emptySplit : SplitNode := mkSplit "" "" [] f64_zero 0 "" 0 0.
Definition leaf (id : string) : SplitNode := emptySplit <| PaneID := id |>.

(** The size hints of a node, reset. *)
Definition no_hint (node : SplitNode) : SplitNode :=
  node <| FixedPaneID := "" |> <| FixedCols := 0 |> <| FixedRows := 0 |> <| Ratio := f64_zero |>.

Definition PaneResizeDirection := string.
Definition PaneResizeLeft : PaneResizeDirection := "left".
Definition PaneResizeRight : PaneResizeDirection := "right".
Definition PaneResizeUp : PaneResizeDirection := "up".
Definition PaneResizeDown : PaneResizeDirection := "down".
Definition PaneResizeRootSplitPath : string := "root".

Definition PaneSizeMode := string.
Definition PaneSizeRatio : PaneSizeMode := "ratio".
Definition PaneSizeCells : PaneSizeMode := "cells".

Record PaneResizeGroupItem := mkItem { it_PaneID : string; it_Cells : Z; it_DeltaSign : Z }.
#[export] Instance eta_item : Eta PaneResizeGroupItem := λ r,
  mkItem r.(it_PaneID) r.(it_Cells) r.(it_DeltaSign).
#[export] Instance item_eq_dec : EqDecision PaneResizeGroupItem.
Proof. solve_decision. Defined.

(** The fields of [PaneCommand] that the resize and set-size actions read
    ([cmd_PaneID] is [Target.PaneID]). *)
Record PaneCommand := mkCommand {
  cmd_PaneID : string;
  cmd_ResizeDirection : PaneResizeDirection;
  cmd_Delta : Z;
  cmd_ResizeSplitPath : string;
  cmd_ResizeGroupCells : list PaneResizeGroupItem;
  cmd_SizeMode : PaneSizeMode;
  cmd_Ratio : spec_float;
  cmd_Cols : Z;
  cmd_Rows : Z }.

(** ** Queries *)
Definition zero_len {A} (l : list A) : bool := len l =? 0.
Definition is_leaf (node : SplitNode) : bool :=
  negb (bool_decide (PaneID node = "")) || zero_len (Children node).

Fixpoint splitContainsPane (node : SplitNode) (paneID : string) : bool :=
  bool_decide (PaneID node = paneID) || existsb (λ child, splitContainsPane child paneID) (Children node).

(** The first non-empty result of [f] along a list. *)
Definition first_id {A} (f : A → string) : list A → string :=
  fix go l := match l with
  | [] => ""
  | x :: l => if bool_decide (f x = "") then go l else f x
  end.

Fixpoint firstPaneIDInSplit (node : SplitNode) : string :=
  if bool_decide (PaneID node = "") then first_id firstPaneIDInSplit (Children node) else PaneID node.

Fixpoint paneIDsInSplitOrder (node : SplitNode) (out : list string) : list string :=
  if bool_decide (PaneID node = "")
  then foldl (λ out child, paneIDsInSplitOrder child out) out (Children node)
  else out ++ [PaneID node].

(** ** Splitting and closing a pane *)
Fixpoint insertSplitNode (node : SplitNode) (targetPaneID newPaneID : string)
    (direction : SplitDirection) : SplitNode :=
  if bool_decide (PaneID node = targetPaneID)
     || (bool_decide (PaneID node = "") && zero_len (Children node))
  then emptySplit <| Direction := direction |> <| Children := [leaf targetPaneID; leaf newPaneID] |>
  else node <| Children :=
         map (λ child, insertSplitNode child targetPaneID newPaneID direction) (Children node) |>.

Fixpoint removePaneFromSplit (node : SplitNode) (paneID : string) : SplitNode * bool :=
  if is_leaf node then (node, negb (bool_decide (PaneID node = paneID)))
  else
    let children := omap (λ child, let '(next, keep) := removePaneFromSplit child paneID in
                                   if (keep : bool) then Some next else None) (Children node) in
    match children with
    | [] => (emptySplit, false)
    | [child] => (child, true)
    | _ => (node <| Children := children |>, true)
    end.

(** ** Resizing *)
Definition splitDirectionMatchesResize (splitDirection : SplitDirection)
    (resizeDirection : PaneResizeDirection) : bool :=
  if bool_decide (splitDirection = SplitDirectionVertical) then
    bool_decide (resizeDirection = PaneResizeLeft) || bool_decide (resizeDirection = PaneResizeRight)
  else if bool_decide (splitDirection = SplitDirectionHorizontal) then
    bool_decide (resizeDirection = PaneResizeUp) || bool_decide (resizeDirection = PaneResizeDown)
  else false.

Definition splitDirectionForResize (resizeDirection : PaneResizeDirection) : option SplitDirection :=
  if bool_decide (resizeDirection = PaneResizeLeft) || bool_decide (resizeDirection = PaneResizeRight)
  then Some SplitDirectionVertical
  else if bool_decide (resizeDirection = PaneResizeUp) || bool_decide (resizeDirection = PaneResizeDown)
  then Some SplitDirectionHorizontal
  else None.

Definition resizeBiasDelta (splitDirection : SplitDirection) (resizeDirection : PaneResizeDirection)
    (firstContains : bool) (delta : Z) : Z :=
  if bool_decide (splitDirection = SplitDirectionVertical) then
    if firstContains && bool_decide (resizeDirection = PaneResizeRight) then delta
    else if firstContains && bool_decide (resizeDirection = PaneResizeLeft) then i64 (- delta)
    else if negb firstContains && bool_decide (resizeDirection = PaneResizeLeft) then i64 (- delta)
    else delta
  else if bool_decide (splitDirection = SplitDirectionHorizontal) then
    if firstContains && bool_decide (resizeDirection = PaneResizeDown) then delta
    else if firstContains && bool_decide (resizeDirection = PaneResizeUp) then i64 (- delta)
    else if negb firstContains && bool_decide (resizeDirection = PaneResizeUp) then i64 (- delta)
    else delta
  else 0.

(** [children[i], changed = f(child); if changed { break }]. *)
Definition until_changed {A} (f : A → A * bool) : list A → list A * bool :=
  fix go l := match l with
  | [] => ([], false)
  | x :: l => let '(x', changed) := f x in
              if (changed : bool) then (x' :: l, true)
              else let '(l', changed') := go l in (x' :: l', changed')
  end.

Fixpoint resizeSplitNode (node : SplitNode) (paneID : string) (direction : PaneResizeDirection)
    (delta : Z) : SplitNode * bool :=
  if negb (bool_decide (PaneID node = "")) then (node, bool_decide (PaneID node = paneID)) else
  match Children node with
  | first :: second :: rest =>
      let firstContains := splitContainsPane first paneID in
      let secondContains := splitContainsPane second paneID in
      if firstContains || secondContains then
        if splitDirectionMatchesResize (Direction node) direction then
          (no_hint (node <| BiasCells := iadd (BiasCells node)
             (resizeBiasDelta (Direction node) direction firstContains delta) |>), true)
        else if secondContains then
          (node <| Children := first :: (resizeSplitNode second paneID direction delta).1 :: rest |>, true)
        else
          (node <| Children := (resizeSplitNode first paneID direction delta).1 :: second :: rest |>, true)
      else
        let '(children, changed) :=
          until_changed (λ child, resizeSplitNode child paneID direction delta) (Children node) in
        (node <| Children := children |>, changed)
  | _ => (node, bool_decide (PaneID node = paneID))
  end.

Fixpoint resizeSplitNodeByPath (node : SplitNode) (path : list Z) (direction : PaneResizeDirection)
    (delta : Z) : SplitNode * bool :=
  match path with
  | [] =>
      if negb (bool_decide (PaneID node = "")) || (len (Children node) <? 2)
         || negb (splitDirectionMatchesResize (Direction node) direction)
      then (node, false)
      else (no_hint (node <| BiasCells := iadd (BiasCells node) delta |>), true)
  | index :: path =>
      if (index <? 0) || (len (Children node) <=? index) then (node, false) else
      match Children node !! Z.to_nat index with
      | None => (node, false)
      | Some child =>
          let '(next, changed) := resizeSplitNodeByPath child path direction delta in
          if (changed : bool)
          then (node <| Children := <[Z.to_nat index := next]> (Children node) |>, true)
          else (node, false)
      end
  end.

(** ** Split paths

    [strings.Split], [strings.TrimPrefix] and [strconv.Atoi] of the Go library. *)
Fixpoint Split_ (sep : ascii) (acc s : string) : list string :=
  match s with
  | EmptyString => [acc]
  | String c s =>
      if bool_decide (c = sep) then acc :: Split_ sep "" s
      else Split_ sep (acc +:+ String c EmptyString) s
  end.
Definition strings_Split (s : string) (sep : ascii) : list string := Split_ sep "" s.

(** [Some] of the rest when [s] has the prefix. *)
Fixpoint CutPrefix (s prefix : string) {struct prefix} : option string :=
  match prefix, s with
  | EmptyString, _ => Some s
  | String a p, String b s => if bool_decide (a = b) then CutPrefix s p else None
  | String _ _, EmptyString => None
  end.

Definition digit (c : ascii) : option Z :=
  let n := Z.of_N (N_of_ascii c) in
  if bool_decide (48 ≤ n ≤ 57) then Some (n - 48) else None.
Fixpoint digits (acc : Z) (s : string) : option Z :=
  match s with
  | EmptyString => Some acc
  | String c s => match digit c with Some d => digits (acc * 10 + d) s | None => None end
  end.
Definition Atoi (s : string) : option Z :=
  let '(neg, body) := match s with
    | String "-" s => (true, s)
    | String "+" s => (false, s)
    | _ => (false, s)
    end in
  match body with
  | EmptyString => None
  | _ => match digits 0 body with
         | Some n => let z := if (neg : bool) then - n else n in
                     if bool_decide (- 2 ^ 63 ≤ z < 2 ^ 63) then Some z else None
         | None => None
         end
  end.

Definition path_index (part : string) : option Z :=
  match Atoi part with
  | Some index => if negb (index =? 0) && negb (index =? 1) then None else Some index
  | None => None
  end.

Definition parseSplitPath (path : string) : option (list Z) :=
  if bool_decide (path = PaneResizeRootSplitPath) then Some []
  else match CutPrefix path (PaneResizeRootSplitPath +:+ "/") with
  | None => None
  | Some rest => mapM path_index (strings_Split rest "/")
  end.

(** ** Resizing a chain of panes with the mouse *)
Fixpoint samePaneOrder (panes : list string) (group : list PaneResizeGroupItem) : bool :=
  match panes, group with
  | [], [] => true
  | paneID :: panes, item :: group => bool_decide (paneID = item.(it_PaneID)) && samePaneOrder panes group
  | _, _ => false
  end.

Definition validPaneResizeGroup (items : list PaneResizeGroupItem) : bool :=
  forallb (λ item, negb (bool_decide (item.(it_PaneID) = "") || (item.(it_Cells) <=? 0))) items.

Definition paneResizeGroupByPane (group : list PaneResizeGroupItem) : gmap string PaneResizeGroupItem :=
  foldl (λ out item, <[item.(it_PaneID) := item]> out) ∅ group.

(** The loop of [paneResizeGroupExtent] over the children. *)
Definition extent_loop {A} (f : A → Z * bool) (along : bool) : Z → list A → Z * bool :=
  fix go extent l := match l with
  | [] => (extent, 0 <? extent)
  | child :: l =>
      let '(childExtent, ok) := f child in
      if (ok : bool) then
        go (if along then iadd extent childExtent
            else if extent <? childExtent then childExtent else extent) l
      else (0, false)
  end.

Fixpoint paneResizeGroupExtent (node : SplitNode) (axis : SplitDirection)
    (group : gmap string PaneResizeGroupItem) : Z * bool :=
  if negb (bool_decide (PaneID node = "")) then
    match group !! PaneID node with
    | Some item => (item.(it_Cells), 0 <? item.(it_Cells))
    | None => (0, false)
    end
  else if zero_len (Children node) then (0, false)
  else extent_loop (λ child, paneResizeGroupExtent child axis group)
         (bool_decide (Direction node = axis)) 0 (Children node).

(** The end of [applyPaneResizeGroupNode]: the hint of a split along the axis. *)
Definition group_hint (node : SplitNode) (axis : SplitDirection)
    (group : gmap string PaneResizeGroupItem) : SplitNode :=
  match Children node with
  | first :: second :: _ =>
      if bool_decide (Direction node = axis) then
        let '(firstExtent, firstOK) := paneResizeGroupExtent first axis group in
        let '(secondExtent, secondOK) := paneResizeGroupExtent second axis group in
        if firstOK && secondOK && (0 <? firstExtent) && (0 <? secondExtent) then
          let node := node <| BiasCells := 0 |> <| Ratio := f64_zero |>
                           <| FixedPaneID := firstPaneIDInSplit first |> in
          if bool_decide (axis = SplitDirectionVertical)
          then node <| FixedCols := firstExtent |> <| FixedRows := 0 |>
          else node <| FixedRows := firstExtent |> <| FixedCols := 0 |>
        else node
      else node
  | _ => node
  end.

(** The loop of [applyPaneResizeGroupNode]: a changed child replaces the old one. *)
Definition each_changed {A} (f : A → A * bool) (l : list A) : list A * bool :=
  (map (λ x, let '(x', changed) := f x in if (changed : bool) then x' else x) l,
   existsb (λ x, (f x).2) l).

Fixpoint applyPaneResizeGroupNode (node : SplitNode) (axis : SplitDirection)
    (group : gmap string PaneResizeGroupItem) : SplitNode * bool :=
  if negb (bool_decide (PaneID node = "")) then (node, bool_decide (is_Some (group !! PaneID node)))
  else
    let '(children, changed) :=
      each_changed (λ child, applyPaneResizeGroupNode child axis group) (Children node) in
    if negb changed then (node, false)
    else (group_hint (node <| Children := children |>) axis group, true).

(** The loop of [resizePaneGroupNode]: the first child that changes is replaced. *)
Definition replace_first {A} (f : A → A * bool) : list A → option (list A) :=
  fix go l := match l with
  | [] => None
  | x :: l => let '(x', changed) := f x in
              if (changed : bool) then Some (x' :: l) else cons x <$> go l
  end.

Fixpoint resizePaneGroupNode (node : SplitNode) (axis : SplitDirection)
    (group : list PaneResizeGroupItem) : SplitNode * bool :=
  let panes := paneIDsInSplitOrder node [] in
  if samePaneOrder panes group then applyPaneResizeGroupNode node axis (paneResizeGroupByPane group)
  else if is_leaf node then (node, false)
  else match replace_first (λ child, resizePaneGroupNode child axis group) (Children node) with
       | Some children => (node <| Children := children |>, true)
       | None => (node, false)
       end.

(** ** Setting a size, balancing *)
Definition size_hint (node : SplitNode) (command : PaneCommand) (firstContains : bool) : SplitNode :=
  let node := no_hint (node <| BiasCells := 0 |>) in
  if bool_decide (command.(cmd_SizeMode) = PaneSizeRatio) then
    node <| Ratio := if firstContains then command.(cmd_Ratio) else f64_sub f64_one command.(cmd_Ratio) |>
  else if bool_decide (command.(cmd_SizeMode) = PaneSizeCells) then
    let node := node <| FixedPaneID := command.(cmd_PaneID) |> in
    if bool_decide (Direction node = SplitDirectionVertical)
    then node <| FixedCols := if command.(cmd_Cols) <=? 0 then command.(cmd_Rows) else command.(cmd_Cols) |>
    else node <| FixedRows := if command.(cmd_Rows) <=? 0 then command.(cmd_Cols) else command.(cmd_Rows) |>
  else node.

Fixpoint setSplitNodeSize (node : SplitNode) (command : PaneCommand) : SplitNode * bool :=
  if negb (bool_decide (PaneID node = "")) then (node, bool_decide (PaneID node = command.(cmd_PaneID)))
  else match Children node with
  | first :: second :: _ =>
      let firstContains := splitContainsPane first command.(cmd_PaneID) in
      let secondContains := splitContainsPane second command.(cmd_PaneID) in
      if firstContains || secondContains then (size_hint node command firstContains, true)
      else
        let '(children, changed) := until_changed (λ child, setSplitNodeSize child command) (Children node) in
        (node <| Children := children |>, changed)
  | _ => (node, bool_decide (PaneID node = command.(cmd_PaneID)))
  end.

Fixpoint balanceSplitNode (node : SplitNode) : SplitNode :=
  no_hint (node <| BiasCells := 0 |>) <| Children := map balanceSplitNode (Children node) |>.

(** ** The tab's tree under a resize command

    The [PaneCommandResize] branch of [ApplyPaneCommand] with the bodies of
    [ResizePaneGroup], [ResizeSplitPath] and [ResizePane] on the [RootSplit] of the tab
    that holds the target. *)
Definition ResizePane (root : SplitNode) (paneID : string) (direction : PaneResizeDirection)
    (delta : Z) : SplitNode :=
  if delta =? 0 then root else (resizeSplitNode root paneID direction delta).1.

Definition ResizeSplitPath (root : SplitNode) (splitPath : string) (direction : PaneResizeDirection)
    (delta : Z) : SplitNode :=
  if delta =? 0 then root else
  match parseSplitPath splitPath with
  | None => root
  | Some path => (resizeSplitNodeByPath root path direction delta).1
  end.

Definition ResizePaneGroup (root : SplitNode) (direction : PaneResizeDirection)
    (group : list PaneResizeGroupItem) : SplitNode :=
  if len group <? 2 then root else
  match splitDirectionForResize direction with
  | None => root
  | Some axis =>
      if negb (validPaneResizeGroup group) then root else
      let '(next, changed) := resizePaneGroupNode root axis group in
      if negb changed then root else next
  end.

Definition ApplyResize (root : SplitNode) (command : PaneCommand) : SplitNode :=
  if negb (zero_len command.(cmd_ResizeGroupCells)) then
    ResizePaneGroup root command.(cmd_ResizeDirection) command.(cmd_ResizeGroupCells)
  else if negb (bool_decide (command.(cmd_ResizeSplitPath) = "")) then
    ResizeSplitPath root command.(cmd_ResizeSplitPath) command.(cmd_ResizeDirection) command.(cmd_Delta)
  else ResizePane root command.(cmd_PaneID) command.(cmd_ResizeDirection) command.(cmd_Delta).
