(* ===== verification/SplitLayout.v ===== *)
(** * Layout of the split tree and the mouse drag of its dividers

    [tui/render/vm.go], [panel_chrome.go], [layout_plan.go] and [layout_hit_regions.go]:
    the rectangles a tree of splits gives its panes, the hit regions of its dividers; and
    [tui/app/runtime_mouse.go]: the pane command a drag of a divider produces.

    [None] is the index panic of Go on a split with a single child. *)
From S2P Require Import Prelude SplitTree.
Local Open Scope Z_scope.
Local Open Scope bool_scope.

(** ** The projected tree *)
Definition SplitVM := SplitNode.
Definition SplitHorizontal : SplitDirection := "horizontal".
Definition SplitVertical : SplitDirection := "vertical".

Definition renderSplitDirection (direction : SplitDirection) : SplitDirection :=
  if bool_decide (direction = SplitDirectionVertical) then SplitVertical
  else if bool_decide (direction = SplitDirectionHorizontal) then SplitHorizontal
  else "".

Fixpoint buildSplitVM (node : SplitNode) : SplitVM :=
  node <| Direction := renderSplitDirection (Direction node) |>
       <| Children := map buildSplitVM (Children node) |>.

(** ** Rectangles *)
Record Rect := mkRect { X : Z; Y : Z; W : Z; H : Z }.
#[export] Instance eta_rect : Eta Rect := λ r, mkRect r.(X) r.(Y) r.(W) r.(H).
#[export] Instance rect_eq_dec : EqDecision Rect.
Proof. solve_decision. Defined.
Definition zeroRect : Rect := mkRect 0 0 0 0.
Definition lookupRect (rects : gmap string Rect) (id : string) : Rect := default zeroRect (rects !! id).

Definition clampInt (value min max : Z) : Z :=
  if value <? min then min else if max <? value then max else value.

Definition splitFixedExtent (split : SplitVM) : Z :=
  if bool_decide (Direction split = SplitVertical) then FixedCols split else FixedRows split.

(** Without a fixed hint: half of the extent or the ratio of it, moved by the bias. *)
Definition biased_extent (split : SplitVM) (total : Z) : Z :=
  let first := total ÷ 2 in
  let first := if f64_lt f64_zero (Ratio split) && f64_lt (Ratio split) f64_one
               then int_of_f64 (f64_mul (f64_of_int total) (Ratio split)) else first in
  clampInt (iadd first (BiasCells split)) 1 (total - 1).

(** [Children[i]]; every caller of [splitFirstExtent] has the two children. *)
Definition child (split : SplitVM) (i : nat) : SplitVM := nth i (Children split) emptySplit.

Definition splitFirstExtent (split : SplitVM) (total : Z) : Z :=
  if total <=? 1 then total else
  if negb (bool_decide (FixedPaneID split = "")) && (0 <? splitFixedExtent split) then
    let fixed := clampInt (splitFixedExtent split) 1 (total - 1) in
    if splitContainsPane (child split 0) (FixedPaneID split) then fixed
    else if splitContainsPane (child split 1) (FixedPaneID split) then total - fixed
    else biased_extent split total
  else biased_extent split total.

Definition first_rect (split : SplitVM) (rect : Rect) : Rect :=
  if bool_decide (Direction split = SplitVertical)
  then mkRect rect.(X) rect.(Y) (splitFirstExtent split rect.(W)) rect.(H)
  else mkRect rect.(X) rect.(Y) rect.(W) (splitFirstExtent split rect.(H)).
Definition second_rect (split : SplitVM) (rect : Rect) : Rect :=
  if bool_decide (Direction split = SplitVertical)
  then let leftWidth := splitFirstExtent split rect.(W) in
       mkRect (iadd rect.(X) leftWidth) rect.(Y) (i64 (rect.(W) - leftWidth)) rect.(H)
  else let topHeight := splitFirstExtent split rect.(H) in
       mkRect rect.(X) (iadd rect.(Y) topHeight) rect.(W) (i64 (rect.(H) - topHeight)).

Fixpoint assignSplitRects (split : SplitVM) (rect : Rect) (out : gmap string Rect)
    : option (gmap string Rect) :=
  if is_leaf split then Some (<[PaneID split := rect]> out) else
  match Children split with
  | first :: second :: _ =>
      out ← assignSplitRects first (first_rect split rect) out;
      assignSplitRects second (second_rect split rect) out
  | _ => None
  end.

(** The part of [LayoutVM] the layout reads: the panels, by id, and the split. *)
Inductive PanelPresentation := PanelPresentationCard | PanelPresentationSplitLine.
Record PanelVM := mkPanel { panel_ID : string; panel_Presentation : PanelPresentation }.
Record LayoutVM := mkLayout { Panels : list PanelVM; Split : SplitVM }.

Definition fill (body : Rect) (rects : gmap string Rect) (panel : PanelVM) : gmap string Rect :=
  let rect := lookupRect rects panel.(panel_ID) in
  if (rect.(W) =? 0) || (rect.(H) =? 0) then <[panel.(panel_ID) := body]> rects else rects.

Definition splitPanelRects (layout : LayoutVM) (body : Rect) : option (gmap string Rect) :=
  if (len layout.(Panels) =? 1) || zero_len (Children layout.(Split)) then
    Some (foldl (λ rects panel, <[panel.(panel_ID) := body]> rects) ∅ layout.(Panels))
  else
    rects ← assignSplitRects layout.(Split) body ∅;
    Some (foldl (fill body) rects layout.(Panels)).

Definition measurePanelContentRect (panel : PanelVM) (rect body : Rect) : Rect :=
  match panel.(panel_Presentation) with
  | PanelPresentationCard =>
      mkRect (iadd rect.(X) 1) (iadd rect.(Y) 1) (Z.max 0 (rect.(W) - 2)) (Z.max 0 (rect.(H) - 2))
  | PanelPresentationSplitLine =>
      let body := if (body.(W) <=? 0) || (body.(H) <=? 0) then rect else body in
      let content := mkRect (iadd rect.(X) 1) (iadd rect.(Y) 1) (Z.max 0 (rect.(W) - 1)) (Z.max 0 (rect.(H) - 1)) in
      let content := if iadd body.(X) body.(W) <=? iadd rect.(X) rect.(W)
                     then content <| W := Z.max 0 (content.(W) - 1) |> else content in
      if iadd body.(Y) body.(H) <=? iadd rect.(Y) rect.(H)
      then content <| H := Z.max 0 (content.(H) - 1) |> else content
  end.

(** [PanelLayoutPlan] keeps the panel, its rectangle and the rectangle of its content. *)
Record PanelLayoutPlan := mkPlan { plan_Panel : PanelVM; plan_Rect : Rect; plan_ContentRect : Rect }.

Definition measurePanels (layout : LayoutVM) (body : Rect) : option (list PanelLayoutPlan) :=
  if (body.(W) <=? 0) || (body.(H) <=? 0) || zero_len layout.(Panels) then Some [] else
  rects ← splitPanelRects layout body;
  Some (map (λ panel,
    let rect := lookupRect rects panel.(panel_ID) in
    let rect := if (rect.(W) =? 0) || (rect.(H) =? 0) then body else rect in
    mkPlan panel rect (measurePanelContentRect panel rect body)) layout.(Panels)).

(** ** Hit regions of the dividers *)
Inductive HitRegionKind := HitRegionPaneResize | OtherRegion (kind : string).
#[export] Instance kind_eq_dec : EqDecision HitRegionKind.
Proof. solve_decision. Defined.
Inductive HitTargetMode := NoTarget | HitTargetExplicit | OtherTarget (mode : string).
Definition ActionPaneResize : string := "pane.resize".
Definition ActionPanelResizeDrag : string := "panel.resize_drag".

(** [hr_Invocation] is [Invocation.ID]; the fields a divider leaves zero are dropped. *)
Record HitRegion := mkRegion {
  hr_Kind : HitRegionKind;
  hr_Rect : Rect;
  hr_PaneID : string;
  hr_ActionID : string;
  hr_Invocation : string;
  hr_TargetMode : HitTargetMode;
  hr_Direction : string;
  hr_SplitPath : string;
  hr_ResizeBeforePaneID : string;
  hr_ResizeAfterPaneID : string;
  hr_ResizeBeforeCells : Z;
  hr_ResizeAfterCells : Z;
  hr_ResizeGroup : list PaneResizeGroupItem }.
#[export] Instance eta_region : Eta HitRegion := λ r,
  mkRegion r.(hr_Kind) r.(hr_Rect) r.(hr_PaneID) r.(hr_ActionID) r.(hr_Invocation)
    r.(hr_TargetMode) r.(hr_Direction) r.(hr_SplitPath) r.(hr_ResizeBeforePaneID)
    r.(hr_ResizeAfterPaneID) r.(hr_ResizeBeforeCells) r.(hr_ResizeAfterCells) r.(hr_ResizeGroup).

Definition intersectRect (left right : Rect) : Rect :=
  let x1 := Z.max left.(X) right.(X) in
  let y1 := Z.max left.(Y) right.(Y) in
  let x2 := Z.min (iadd left.(X) (Z.max 0 left.(W))) (iadd right.(X) (Z.max 0 right.(W))) in
  let y2 := Z.min (iadd left.(Y) (Z.max 0 left.(H))) (iadd right.(Y) (Z.max 0 right.(H))) in
  if (x2 <=? x1) || (y2 <=? y1) then zeroRect else mkRect x1 y1 (i64 (x2 - x1)) (i64 (y2 - y1)).

Definition no_target (mode : HitTargetMode) : bool := match mode with NoTarget => true | _ => false end.

Definition appendRegion (out : list HitRegion) (region : HitRegion) (viewport : Rect) : list HitRegion :=
  let region := region <| hr_Rect := intersectRect region.(hr_Rect) viewport |> in
  if (region.(hr_Rect).(W) <=? 0) || (region.(hr_Rect).(H) <=? 0) then out
  else if negb (bool_decide (region.(hr_ActionID) = ""))
          && (bool_decide (region.(hr_Invocation) = "") || no_target region.(hr_TargetMode)) then out
  else out ++ [region].

Definition rootSplitPath : string := "root".

Definition childSplitPath (parent : string) (index : nat) : string :=
  let parent := if bool_decide (parent = "") then rootSplitPath else parent in
  match index with O => parent +:+ "/0" | S _ => parent +:+ "/1" end.

Fixpoint lastPaneIDInSplit (split : SplitVM) : string :=
  if bool_decide (PaneID split = "")
  then first_id id (rev (map lastPaneIDInSplit (Children split)))
  else PaneID split.

Definition extent_along (axis : SplitDirection) (rect : Rect) : Z :=
  if bool_decide (axis = SplitVertical) then rect.(W) else rect.(H).

Definition paneExtent (split : SplitVM) (paneID : string) (width height : Z) (axis : SplitDirection)
    : option Z :=
  rects ← assignSplitRects split (mkRect 0 0 width height) ∅;
  Some (extent_along axis (lookupRect rects paneID)).

Definition resize_item (rects : gmap string Rect) (axis : SplitDirection) (divider : Z) (paneID : string)
    : PaneResizeGroupItem :=
  let paneRect := lookupRect rects paneID in
  if bool_decide (axis = SplitVertical) then
    mkItem paneID paneRect.(W)
      (if bool_decide (iadd paneRect.(X) paneRect.(W) = divider) then 1
       else if bool_decide (paneRect.(X) = divider) then -1 else 0)
  else
    mkItem paneID paneRect.(H)
      (if bool_decide (iadd paneRect.(Y) paneRect.(H) = divider) then 1
       else if bool_decide (paneRect.(Y) = divider) then -1 else 0).

Definition resizeGroupItems (split : SplitVM) (rect : Rect) (axis : SplitDirection)
    : option (list PaneResizeGroupItem) :=
  rects ← assignSplitRects split (mkRect 0 0 rect.(W) rect.(H)) ∅;
  let divider := if bool_decide (axis = SplitVertical) then splitFirstExtent split rect.(W)
                 else splitFirstExtent split rect.(H) in
  Some (map (resize_item rects axis divider) (paneIDsInSplitOrder split [])).

(** The region of one divider. *)
Definition divider_region (split first second : SplitVM) (rect : Rect) (splitPath : string)
    : option HitRegion :=
  let r1 := first_rect split rect in
  let r2 := second_rect split rect in
  let vertical := bool_decide (Direction split = SplitVertical) in
  let axis := if vertical then SplitVertical else SplitHorizontal in
  before ← paneExtent first (lastPaneIDInSplit first) r1.(W) r1.(H) axis;
  after ← paneExtent second (firstPaneIDInSplit second) r2.(W) r2.(H) axis;
  group ← resizeGroupItems split rect axis;
  Some {| hr_Kind := HitRegionPaneResize;
          hr_Rect := if vertical then mkRect r2.(X) rect.(Y) 1 rect.(H) else mkRect rect.(X) r2.(Y) rect.(W) 1;
          hr_PaneID := firstPaneIDInSplit first;
          hr_ActionID := ActionPaneResize;
          hr_Invocation := ActionPanelResizeDrag;
          hr_TargetMode := HitTargetExplicit;
          hr_Direction := if vertical then "right" else "down";
          hr_SplitPath := splitPath;
          hr_ResizeBeforePaneID := lastPaneIDInSplit first;
          hr_ResizeAfterPaneID := firstPaneIDInSplit second;
          hr_ResizeBeforeCells := before;
          hr_ResizeAfterCells := after;
          hr_ResizeGroup := group |}.

Fixpoint appendSplitResizeHitRegions (out : list HitRegion) (split : SplitVM) (rect viewport : Rect)
    (splitPath : string) : option (list HitRegion) :=
  if (rect.(W) <=? 1) || (rect.(H) <=? 1) || negb (bool_decide (PaneID split = "")) then Some out else
  match Children split with
  | first :: second :: _ =>
      out ← (if bool_decide (firstPaneIDInSplit first = "") then Some out
             else region ← divider_region split first second rect splitPath;
                  Some (appendRegion out region viewport));
      out ← appendSplitResizeHitRegions out first (first_rect split rect) viewport (childSplitPath splitPath 0);
      appendSplitResizeHitRegions out second (second_rect split rect) viewport (childSplitPath splitPath 1)
  | _ => Some out
  end.

(** ** Dragging a divider ([tui/app/runtime_mouse.go])

    The fields a drag of a divider reads ([LastCol] and [LastRow] serve other drags). *)
Record mouseDragState := mkDrag {
  drag_Active : bool;
  drag_PaneID : string;
  drag_Direction : PaneResizeDirection;
  drag_SplitPath : string;
  drag_ResizeBeforePaneID : string;
  drag_ResizeAfterPaneID : string;
  drag_ResizeBeforeCells : Z;
  drag_ResizeAfterCells : Z;
  drag_ResizeGroup : list PaneResizeGroupItem;
  drag_StartCol : Z;
  drag_StartRow : Z;
  drag_LastDelta : Z }.
#[export] Instance eta_drag : Eta mouseDragState := λ r,
  mkDrag r.(drag_Active) r.(drag_PaneID) r.(drag_Direction) r.(drag_SplitPath) r.(drag_ResizeBeforePaneID)
    r.(drag_ResizeAfterPaneID) r.(drag_ResizeBeforeCells) r.(drag_ResizeAfterCells) r.(drag_ResizeGroup)
    r.(drag_StartCol) r.(drag_StartRow) r.(drag_LastDelta).

Definition paneResizeDirectionFromHitRegion (region : HitRegion) : option PaneResizeDirection :=
  let d := region.(hr_Direction) in
  if bool_decide (d = PaneResizeLeft) then Some PaneResizeLeft
  else if bool_decide (d = PaneResizeRight) || bool_decide (d = "") then Some PaneResizeRight
  else if bool_decide (d = PaneResizeUp) then Some PaneResizeUp
  else if bool_decide (d = PaneResizeDown) then Some PaneResizeDown
  else None.

Definition paneResizeGroupFromHitRegion (region : HitRegion) : list PaneResizeGroupItem :=
  if len region.(hr_ResizeGroup) <? 3 then [] else region.(hr_ResizeGroup).

Definition paneResizeDragState (region : HitRegion) (col row : Z) : option mouseDragState :=
  if negb (bool_decide (region.(hr_Kind) = HitRegionPaneResize))
     || negb (bool_decide (region.(hr_Invocation) = ActionPanelResizeDrag)) then None else
  match paneResizeDirectionFromHitRegion region with
  | None => None
  | Some direction =>
      if bool_decide (region.(hr_PaneID) = "") then None else
      Some {| drag_Active := true;
              drag_PaneID := region.(hr_PaneID);
              drag_Direction := direction;
              drag_SplitPath := region.(hr_SplitPath);
              drag_ResizeBeforePaneID := region.(hr_ResizeBeforePaneID);
              drag_ResizeAfterPaneID := region.(hr_ResizeAfterPaneID);
              drag_ResizeBeforeCells := region.(hr_ResizeBeforeCells);
              drag_ResizeAfterCells := region.(hr_ResizeAfterCells);
              drag_ResizeGroup := paneResizeGroupFromHitRegion region;
              drag_StartCol := col;
              drag_StartRow := row;
              drag_LastDelta := 0 |}
  end.

(** [None] where the code gives up the whole group. *)
Definition drag_item (drag : mouseDragState) (beforeCells afterCells delta : Z) (item : PaneResizeGroupItem)
    : option PaneResizeGroupItem :=
  if negb (item.(it_DeltaSign) =? 0) then
    let cells := iadd item.(it_Cells) (i64 (delta * item.(it_DeltaSign))) in
    if cells <=? 0 then None else Some (item <| it_Cells := cells |>)
  else if bool_decide (item.(it_PaneID) = drag.(drag_ResizeBeforePaneID))
  then Some (item <| it_Cells := beforeCells |>)
  else if bool_decide (item.(it_PaneID) = drag.(drag_ResizeAfterPaneID))
  then Some (item <| it_Cells := afterCells |>)
  else Some item.

Definition mouseDragResizeGroupCells (drag : mouseDragState) (delta : Z) : list PaneResizeGroupItem :=
  if zero_len drag.(drag_ResizeGroup) || bool_decide (drag.(drag_ResizeBeforePaneID) = "")
     || bool_decide (drag.(drag_ResizeAfterPaneID) = "") then [] else
  let beforeCells := iadd drag.(drag_ResizeBeforeCells) delta in
  let afterCells := i64 (drag.(drag_ResizeAfterCells) - delta) in
  if (beforeCells <=? 0) || (afterCells <=? 0) then [] else
  default [] (mapM (drag_item drag beforeCells afterCells delta) drag.(drag_ResizeGroup)).

Definition mouseDragResizeDelta (drag : mouseDragState) (col row : Z) : Z :=
  if bool_decide (drag.(drag_Direction) = PaneResizeLeft) || bool_decide (drag.(drag_Direction) = PaneResizeRight)
  then i64 (col - drag.(drag_StartCol))
  else if bool_decide (drag.(drag_Direction) = PaneResizeUp) || bool_decide (drag.(drag_Direction) = PaneResizeDown)
  then i64 (row - drag.(drag_StartRow))
  else 0.

(** The [mouseDragPaneResize] case of [dispatchMouseDrag]: [None] is [NoopMsg]. *)
Definition dispatchPaneDrag (drag : mouseDragState) (col row : Z) : mouseDragState * option PaneCommand :=
  let delta := mouseDragResizeDelta drag col row in
  let step := i64 (delta - drag.(drag_LastDelta)) in
  if step =? 0 then (drag, None) else
  (drag <| drag_LastDelta := delta |>,
   Some {| cmd_PaneID := drag.(drag_PaneID);
           cmd_ResizeDirection := drag.(drag_Direction);
           cmd_Delta := step;
           cmd_ResizeSplitPath := drag.(drag_SplitPath);
           cmd_ResizeGroupCells := mouseDragResizeGroupCells drag delta;
           cmd_SizeMode := "";
           cmd_Ratio := f64_zero;
           cmd_Cols := 0;
           cmd_Rows := 0 |}).
