(* ===== verification/SplitFacts.v ===== *)
(** * Facts on the split tree: its shape, its panes, and what the edits keep *)
From S2P Require Import Prelude SplitTree.
Local Open Scope Z_scope.

(** ** Induction on the tree *)
Lemma split_ind (P : SplitNode → Prop) (step : ∀ node, Forall P (Children node) → P node) :
  ∀ node, P node.
Proof.
  fix IH 1. intros node. apply step. destruct node as [pid dir cs ra bi fp fc fr]; simpl.
  induction cs as [|c cs IHcs]; constructor; [apply IH | exact IHcs].
Qed.

(** ** The panes of a tree, in order *)
Definition panes (node : SplitNode) : list string := paneIDsInSplitOrder node [].

Lemma panes_acc node out : paneIDsInSplitOrder node out = out ++ panes node.
Proof.
  unfold panes. revert out. induction node as [node IH] using split_ind; intros out.
  assert (Hf : ∀ out, foldl (λ out child, paneIDsInSplitOrder child out) out (Children node)
                      = out ++ foldl (λ out child, paneIDsInSplitOrder child out) [] (Children node)).
  { clear out. induction IH as [|c cs Hc _ IHcs]; intros out; simpl; [by rewrite app_nil_r|].
    rewrite Hc, (IHcs (out ++ _)), (IHcs (paneIDsInSplitOrder c [])), app_assoc. done. }
  destruct node as [pid dir cs ra bi fp fc fr]; simpl in *. case_bool_decide; [apply Hf | done].
Qed.

Lemma panes_here node : PaneID node ≠ "" → panes node = [PaneID node].
Proof. destruct node; unfold panes; simpl. intros. by rewrite bool_decide_false. Qed.

Lemma panes_below node : PaneID node = "" → panes node = mjoin (panes <$> Children node).
Proof.
  destruct node as [pid dir cs ra bi fp fc fr]; unfold panes; simpl. intros ->. rewrite bool_decide_true by done.
  assert (Hf : ∀ out, foldl (λ out child, paneIDsInSplitOrder child out) out cs = out ++ mjoin (panes <$> cs)).
  { induction cs as [|c cs IH]; intros out; simpl; [by rewrite app_nil_r|].
    rewrite IH, panes_acc, <- app_assoc. done. }
  by rewrite Hf.
Qed.

(** ** Binary trees

    What the commands build: a leaf is a bare pane, a split has two children, no pane of its
    own and one of the two directions. *)
Definition valid_direction (d : SplitDirection) : Prop :=
  d = SplitDirectionVertical ∨ d = SplitDirectionHorizontal.

Inductive binary : SplitNode → Prop :=
| binary_leaf id : id ≠ "" → binary (leaf id)
| binary_split node a b :
    PaneID node = "" → Children node = [a; b] → valid_direction (Direction node) →
    binary a → binary b → binary node.

Lemma panes_leaf id : id ≠ "" → panes (leaf id) = [id].
Proof. intros. by apply panes_here. Qed.

Lemma panes_split node a b :
  PaneID node = "" → Children node = [a; b] → panes node = panes a ++ panes b.
Proof. intros H1 H2. rewrite panes_below by done. rewrite H2. simpl. by rewrite app_nil_r. Qed.

Lemma binary_pane_nonempty node id : binary node → id ∈ panes node → id ≠ "".
Proof.
  induction 1 as [i Hi|n a b Hp Hc _ _ IHa _ IHb].
  - rewrite panes_leaf by done. intros ->%list_elem_of_singleton. done.
  - rewrite (panes_split n a b), elem_of_app by done. tauto.
Qed.

Lemma panes_nonempty node : binary node → panes node ≠ [].
Proof.
  induction 1 as [i Hi|n a b Hp Hc _ _ IHa _ IHb].
  - by rewrite panes_leaf.
  - rewrite (panes_split n a b) by done. destruct (panes a); done.
Qed.

(** A node is seen by its pane or by its children. *)
Lemma contains_unfold node id :
  splitContainsPane node id =
  (bool_decide (PaneID node = id) || existsb (λ c, splitContainsPane c id) (Children node))%bool.
Proof. by destruct node. Qed.

Lemma contains_panes node id :
  binary node → id ≠ "" → splitContainsPane node id = bool_decide (id ∈ panes node).
Proof.
  intros Hb Hid. induction Hb as [i Hi|n a b Hp Hc _ _ IHa _ IHb]; rewrite contains_unfold.
  - rewrite panes_leaf by done. simpl. rewrite orb_false_r. apply bool_decide_ext.
    rewrite list_elem_of_singleton. split; done.
  - rewrite (panes_split n a b), Hp, Hc by done. simpl. rewrite IHa, IHb, orb_false_r.
    rewrite bool_decide_false by done. simpl. rewrite <- bool_decide_or. apply bool_decide_ext.
    by rewrite elem_of_app.
Qed.

Lemma firstPaneID_head node : binary node → head (panes node) = Some (firstPaneIDInSplit node).
Proof.
  induction 1 as [i Hi|n a b Hp Hc _ Ha IHa _ IHb].
  - rewrite panes_leaf by done. simpl. by rewrite bool_decide_false.
  - rewrite (panes_split n a b) by done. destruct n; simpl in *; subst. rewrite bool_decide_true by done.
    simpl. destruct (panes a) as [|x l] eqn:E; [by apply panes_nonempty in Ha|]. simpl in *.
    injection IHa as <-. rewrite bool_decide_false; [done|].
    apply (binary_pane_nonempty a); [done|]. rewrite E. left.
Qed.

Lemma firstPaneID_in node : binary node → firstPaneIDInSplit node ∈ panes node.
Proof. intros H%firstPaneID_head. destruct (panes node); simplify_eq/=. left. Qed.

Lemma binary_children node a b :
  binary node → Children node = [a; b] →
  PaneID node = "" ∧ valid_direction (Direction node) ∧ binary a ∧ binary b.
Proof. destruct 1 as [|n x y ? Hc]; intros E; [done|]. rewrite Hc in E. by injection E as <- <-. Qed.

(** ** Hints do not matter for the shape *)
Definition same_shape (a b : SplitNode) : Prop :=
  PaneID a = PaneID b ∧ Direction a = Direction b ∧ Children a = Children b.

Lemma binary_hint node node' :
  same_shape node node' → Children node ≠ [] → binary node → binary node'.
Proof.
  intros (H1 & H2 & H3) Hc Hb. destruct Hb as [i Hi|n a b Hp Hcs Hd Ha Hb]; [done|].
  apply (binary_split _ a b); congruence.
Qed.

(** ** Splitting a pane *)
Definition split_pane (t new p : string) : list string := if decide (p = t) then [t; new] else [p].

Lemma insert_leaf id t new d :
  id ≠ "" → insertSplitNode (leaf id) t new d
            = if decide (id = t)
              then emptySplit <| Direction := d |> <| Children := [leaf t; leaf new] |> else leaf id.
Proof.
  intros Hid. simpl. rewrite (bool_decide_false (id = "")) by done. simpl. rewrite orb_false_r.
  by destruct (decide (id = t)) as [->|]; [rewrite bool_decide_true | rewrite bool_decide_false].
Qed.

Lemma insert_split node a b t new d :
  PaneID node = "" → Children node = [a; b] → t ≠ "" →
  insertSplitNode node t new d
  = node <| Children := [insertSplitNode a t new d; insertSplitNode b t new d] |>.
Proof. destruct node; simpl. intros -> -> Ht. by rewrite bool_decide_false. Qed.

Lemma insert_spec node t new d :
  binary node → t ≠ "" → new ≠ "" → valid_direction d →
  binary (insertSplitNode node t new d)
  ∧ panes (insertSplitNode node t new d) = mjoin (split_pane t new <$> panes node).
Proof.
  intros Hb Ht Hnew Hd. induction Hb as [i Hi|n a b Hp Hc Hdir _ [IHa Ea] _ [IHb Eb]].
  - rewrite insert_leaf, panes_leaf by done. simpl. rewrite app_nil_r. unfold split_pane.
    case_decide as E; [subst i|split; [by constructor | by rewrite panes_leaf]].
    split; [by eapply binary_split; [..|apply binary_leaf|apply binary_leaf]|].
    rewrite (panes_split _ (leaf t) (leaf new)), !panes_leaf by done. done.
  - rewrite (insert_split n a b) by done. split; [by eapply binary_split|].
    rewrite (panes_split _ (insertSplitNode a t new d) (insertSplitNode b t new d)) by done.
    by rewrite (panes_split n a b), fmap_app, join_app, Ea, Eb.
Qed.

(** ** Closing a pane *)
Lemma remove_leaf i id :
  i ≠ "" → removePaneFromSplit (leaf i) id = (leaf i, negb (bool_decide (i = id))).
Proof. intros Hi. simpl. unfold is_leaf. simpl. by rewrite bool_decide_false. Qed.

Lemma remove_split node a b id :
  PaneID node = "" → Children node = [a; b] →
  removePaneFromSplit node id =
    let ra := removePaneFromSplit a id in
    let rb := removePaneFromSplit b id in
    if ra.2 then if rb.2 then (node <| Children := [ra.1; rb.1] |>, true) else (ra.1, true)
    else if rb.2 then (rb.1, true) else (emptySplit, false).
Proof.
  destruct node; simpl. intros -> ->. unfold is_leaf; simpl.
  destruct (removePaneFromSplit a id) as [? []], (removePaneFromSplit b id) as [? []]; done.
Qed.

Lemma remove_spec node id :
  binary node →
  (removePaneFromSplit node id).2 = bool_decide (filter (λ p, p ≠ id) (panes node) ≠ [])
  ∧ ((removePaneFromSplit node id).2 = true →
     binary (removePaneFromSplit node id).1
     ∧ panes (removePaneFromSplit node id).1 = filter (λ p, p ≠ id) (panes node)).
Proof.
  induction 1 as [i Hi|n a b Hp Hc Hdir _ [Ka IHa] _ [Kb IHb]].
  - rewrite remove_leaf, panes_leaf by done. simpl. rewrite filter_cons, filter_nil.
    destruct (decide (i = id)) as [->|Hne].
    + rewrite bool_decide_true by done. by rewrite decide_False by tauto.
    + rewrite bool_decide_false, decide_True by done. split; [done|]. intros _.
      split; [by constructor | by rewrite panes_leaf].
  - rewrite (remove_split n a b), (panes_split n a b), filter_app by done. simpl.
    destruct (removePaneFromSplit a id) as [na []], (removePaneFromSplit b id) as [nb []]; simpl in *;
      try (destruct IHa as [Ba Pa]; [done|]); try (destruct IHb as [Bb Pb]; [done|]);
      symmetry in Ka, Kb;
      repeat match goal with
      | H : bool_decide _ = true |- _ => apply bool_decide_eq_true in H
      | H : bool_decide _ = false |- _ => apply bool_decide_eq_false, dec_stable in H
      end.
    + rewrite bool_decide_true by (intros [? ?]%app_eq_nil; done). split; [done|]. intros _.
      split; [by eapply binary_split|]. by rewrite (panes_split _ na nb), Pa, Pb.
    + rewrite Kb, app_nil_r, bool_decide_true by done. done.
    + rewrite Ka, bool_decide_true by done. done.
    + rewrite Ka, Kb, bool_decide_false by tauto. done.
Qed.

Lemma remove_absent node id :
  binary node → id ∉ panes node → removePaneFromSplit node id = (node, true).
Proof.
  induction 1 as [i Hi|n a b Hp Hc Hdir _ IHa _ IHb]; intros Hid.
  - rewrite panes_leaf, list_elem_of_singleton in Hid by done.
    rewrite remove_leaf by done. by rewrite bool_decide_false.
  - rewrite (panes_split n a b), elem_of_app in Hid by done.
    rewrite (remove_split n a b), IHa, IHb by tauto. simpl. destruct n; simpl in *; by subst.
Qed.

Lemma remove_insert node t new d :
  binary node → t ≠ "" → new ≠ "" → new ≠ t → new ∉ panes node →
  removePaneFromSplit (insertSplitNode node t new d) new = (node, true).
Proof.
  intros Hb Ht Hnew Hne. induction Hb as [i Hi|n a b Hp Hc Hdir Ha IHa Hb IHb]; intros Hid.
  - rewrite panes_leaf, list_elem_of_singleton in Hid by done. rewrite insert_leaf by done.
    case_decide as E; [subst i|rewrite remove_leaf, bool_decide_false; done].
    rewrite (remove_split _ (leaf t) (leaf new)), !remove_leaf by done. simpl.
    rewrite bool_decide_false, bool_decide_true by done. done.
  - rewrite (panes_split n a b), elem_of_app in Hid by done.
    rewrite (insert_split n a b) by done.
    rewrite (remove_split _ (insertSplitNode a t new d) (insertSplitNode b t new d)) by done.
    rewrite IHa, IHb by tauto. simpl. destruct n; simpl in *; by subst.
Qed.

(** ** Edits of the hints keep the tree *)
Definition kept (node node' : SplitNode) : Prop := binary node' ∧ panes node' = panes node.

Lemma kept_refl node : binary node → kept node node.
Proof. done. Qed.

Lemma kept_split node node' a b a' b' :
  PaneID node = "" → Children node = [a; b] → valid_direction (Direction node) →
  PaneID node' = "" → Children node' = [a'; b'] → Direction node' = Direction node →
  kept a a' → kept b b' → kept node node'.
Proof.
  intros H1 H2 H3 H4 H5 H6 [Ba Pa] [Bb Pb]. split.
  - apply (binary_split _ a' b'); congruence.
  - rewrite (panes_split node' a' b'), (panes_split node a b), Pa, Pb; done.
Qed.

(** Solves [kept] of a node whose hints changed and whose children are kept. *)
Ltac keep_split a b := solve [eapply (kept_split _ _ a b); simpl; eauto using kept_refl].

Lemma resize_split node a b id dir delta :
  PaneID node = "" → Children node = [a; b] →
  resizeSplitNode node id dir delta =
    if splitContainsPane a id || splitContainsPane b id then
      if splitDirectionMatchesResize (Direction node) dir then
        (no_hint (node <| BiasCells := iadd (BiasCells node)
           (resizeBiasDelta (Direction node) dir (splitContainsPane a id) delta) |>), true)
      else if splitContainsPane b id
      then (node <| Children := [a; (resizeSplitNode b id dir delta).1] |>, true)
      else (node <| Children := [(resizeSplitNode a id dir delta).1; b] |>, true)
    else
      let '(children, changed) := until_changed (λ c, resizeSplitNode c id dir delta) [a; b] in
      (node <| Children := children |>, changed).
Proof. destruct node; simpl. intros -> ->. done. Qed.

Lemma until_changed_two {A} (f : A → A * bool) a b :
  ∃ a' b', (until_changed f [a; b]).1 = [a'; b']
           ∧ (a' = (f a).1) ∧ (b' = b ∨ b' = (f b).1).
Proof. simpl. destruct (f a) as [a' []], (f b) as [b' []]; simpl; eauto 10. Qed.

Lemma resize_kept node id dir delta :
  binary node → kept node (resizeSplitNode node id dir delta).1.
Proof.
  induction 1 as [i Hi|n a b Hp Hc Hdir Ha IHa Hb IHb].
  - destruct i; [done|]. apply kept_refl. by constructor.
  - rewrite (resize_split n a b) by done. repeat case_match; simpl; try keep_split a b.
    destruct (until_changed_two (λ c, resizeSplitNode c id dir delta) a b) as (a' & b' & E & -> & Eb).
    match goal with H : until_changed _ _ = _ |- _ => rewrite H in E end. simpl in E. subst.
    apply (kept_split _ _ a b (resizeSplitNode a id dir delta).1 b'); try done.
    by destruct Eb as [->| ->]; [apply kept_refl|].
Qed.

Lemma path_leaf i path dir delta :
  i ≠ "" → resizeSplitNodeByPath (leaf i) path dir delta = (leaf i, false).
Proof.
  intros Hi. destruct path as [|z path]; simpl.
  - by rewrite bool_decide_false.
  - unfold len; simpl. by destruct (z <? 0), z.
Qed.

Lemma path_split node a b path dir delta :
  PaneID node = "" → Children node = [a; b] →
  resizeSplitNodeByPath node path dir delta =
    match path with
    | [] => if splitDirectionMatchesResize (Direction node) dir
            then (no_hint (node <| BiasCells := iadd (BiasCells node) delta |>), true) else (node, false)
    | 0 :: path => let r := resizeSplitNodeByPath a path dir delta in
                   if r.2 then (node <| Children := [r.1; b] |>, true) else (node, false)
    | 1 :: path => let r := resizeSplitNodeByPath b path dir delta in
                   if r.2 then (node <| Children := [a; r.1] |>, true) else (node, false)
    | _ => (node, false)
    end.
Proof.
  intros H1 H2. destruct path as [|z path]; simpl; rewrite ?H1, H2.
  - simpl. by destruct splitDirectionMatchesResize.
  - unfold len; simpl. destruct z as [|[p|p|]|p]; simpl; try done;
      [by destruct (resizeSplitNodeByPath a) as [? []]|..].
    + by rewrite (proj2 (Z.leb_le _ _)) by lia.
    + by rewrite (proj2 (Z.leb_le _ _)) by lia.
    + by destruct (resizeSplitNodeByPath b) as [? []].
Qed.

Lemma path_kept node path dir delta :
  binary node → kept node (resizeSplitNodeByPath node path dir delta).1.
Proof.
  intros Hb. revert path. induction Hb as [i Hi|n a b Hp Hc Hdir Ha IHa Hb IHb]; intros path.
  - rewrite path_leaf by done. apply kept_refl. by constructor.
  - rewrite (path_split n a b) by done.
    repeat case_match; simpl; try keep_split a b;
      destruct (resizeSplitNodeByPath _ l dir delta).2; simpl; keep_split a b.
Qed.

Lemma apply_leaf i axis g :
  i ≠ "" → applyPaneResizeGroupNode (leaf i) axis g = (leaf i, bool_decide (is_Some (g !! i))).
Proof. intros Hi. simpl. by rewrite (bool_decide_false (i = "")). Qed.

Lemma apply_split node a b axis g :
  PaneID node = "" → Children node = [a; b] →
  applyPaneResizeGroupNode node axis g =
    let ra := applyPaneResizeGroupNode a axis g in
    let rb := applyPaneResizeGroupNode b axis g in
    if ra.2 || rb.2
    then (group_hint (node <| Children := [if ra.2 then ra.1 else a; if rb.2 then rb.1 else b] |>) axis g, true)
    else (node, false).
Proof.
  destruct node; simpl. intros -> ->. rewrite bool_decide_true by done. simpl.
  destruct (applyPaneResizeGroupNode a axis g) as [? []],
    (applyPaneResizeGroupNode b axis g) as [? []]; done.
Qed.

Lemma group_hint_shape node axis g : same_shape (group_hint node axis g) node.
Proof. unfold group_hint. repeat case_match; done. Qed.

Lemma apply_kept node axis g : binary node → kept node (applyPaneResizeGroupNode node axis g).1.
Proof.
  induction 1 as [i Hi|n a b Hp Hc Hdir Ha IHa Hb IHb].
  - rewrite apply_leaf by done. apply kept_refl. by constructor.
  - rewrite (apply_split n a b) by done. simpl.
    destruct (applyPaneResizeGroupNode a axis g) as [a' ka], (applyPaneResizeGroupNode b axis g) as [b' kb].
    simpl in *. destruct (ka || kb)%bool; [|keep_split a b]. simpl.
    destruct (group_hint_shape (n <| Children := [if ka then a' else a; if kb then b' else b] |>) axis g)
      as (E1 & E2 & E3).
    apply (kept_split _ _ a b (if ka then a' else a) (if kb then b' else b)); try done.
    + by rewrite E1.
    + by destruct ka; [|apply kept_refl].
    + by destruct kb; [|apply kept_refl].
Qed.

Lemma group_node_unfold node axis group :
  resizePaneGroupNode node axis group =
    if samePaneOrder (panes node) group
    then applyPaneResizeGroupNode node axis (paneResizeGroupByPane group)
    else if is_leaf node then (node, false)
    else match replace_first (λ c, resizePaneGroupNode c axis group) (Children node) with
         | Some children => (node <| Children := children |>, true)
         | None => (node, false)
         end.
Proof. by destruct node. Qed.

Lemma group_kept node axis group : binary node → kept node (resizePaneGroupNode node axis group).1.
Proof.
  induction 1 as [i Hi|n a b Hp Hc Hdir Ha IHa Hb IHb]; rewrite group_node_unfold;
    case_match; try (apply apply_kept; by econstructor).
  - unfold is_leaf. simpl. rewrite bool_decide_false by done. apply kept_refl. by constructor.
  - unfold is_leaf. rewrite Hp, Hc. simpl.
    destruct (resizePaneGroupNode a axis group) as [a' []], (resizePaneGroupNode b axis group) as [b' []];
      simpl; keep_split a b.
Qed.

Lemma size_split node a b cmd :
  PaneID node = "" → Children node = [a; b] →
  setSplitNodeSize node cmd =
    if splitContainsPane a cmd.(cmd_PaneID) || splitContainsPane b cmd.(cmd_PaneID)
    then (size_hint node cmd (splitContainsPane a cmd.(cmd_PaneID)), true)
    else let '(children, changed) := until_changed (λ c, setSplitNodeSize c cmd) [a; b] in
         (node <| Children := children |>, changed).
Proof. destruct node; simpl. intros -> ->. done. Qed.

Lemma size_hint_shape node cmd f : same_shape (size_hint node cmd f) node.
Proof. unfold size_hint. repeat case_match; done. Qed.

Lemma size_kept node cmd : binary node → kept node (setSplitNodeSize node cmd).1.
Proof.
  induction 1 as [i Hi|n a b Hp Hc Hdir Ha IHa Hb IHb].
  - destruct i; [done|]. apply kept_refl. by constructor.
  - rewrite (size_split n a b) by done. case_match.
    + simpl. destruct (size_hint_shape n cmd (splitContainsPane a (cmd_PaneID cmd))) as (E1 & E2 & E3).
      apply (kept_split _ _ a b a b); try done; by rewrite ?E1, ?E3.
    + destruct (until_changed_two (λ c, setSplitNodeSize c cmd) a b) as (a' & b' & E & -> & Eb).
      destruct (until_changed _ _) as [l ch] eqn:U. simpl in E. subst l. simpl.
      apply (kept_split _ _ a b (setSplitNodeSize a cmd).1 b'); try done.
      by destruct Eb as [->| ->]; [apply kept_refl|].
Qed.

Lemma balance_kept node : binary node → kept node (balanceSplitNode node).
Proof.
  induction 1 as [i Hi|n a b Hp Hc Hdir Ha IHa Hb IHb].
  - apply kept_refl. by constructor.
  - apply (kept_split _ _ a b (balanceSplitNode a) (balanceSplitNode b)); try done;
      destruct n; simpl in *; by subst.
Qed.

Lemma apply_resize_kept root cmd : binary root → kept root (ApplyResize root cmd).
Proof.
  intros Hb. unfold ApplyResize, ResizePaneGroup, ResizeSplitPath, ResizePane.
  repeat case_match; try (by apply kept_refl); try (by apply path_kept); try (by apply resize_kept).
  match goal with H : resizePaneGroupNode ?r ?x ?g = _ |- _ =>
    pose proof (group_kept r x g Hb) as K; rewrite H in K end. done.
Qed.
