(* ===== verification/SplitLayoutFacts.v ===== *)
(** * Facts on the layout of a split tree: no panic, the tiling, subtrees and their paths *)
From S2P Require Import Prelude SplitTree SplitLayout SplitFacts.
Local Open Scope Z_scope.

(** ** Rectangles *)
Record rect_ok (r : Rect) : Prop := {
  ok_X : 0 ≤ r.(X); ok_Y : 0 ≤ r.(Y); ok_W : 0 ≤ r.(W); ok_H : 0 ≤ r.(H);
  ok_XW : r.(X) + r.(W) < 2 ^ 63; ok_YH : r.(Y) + r.(H) < 2 ^ 63 }.

Definition inside (r : Rect) (x y : Z) : Prop :=
  (r.(X) ≤ x < r.(X) + r.(W)) ∧ (r.(Y) ≤ y < r.(Y) + r.(H)).
#[export] Instance inside_dec r x y : Decision (inside r x y) := _.

Definition within (r body : Rect) : Prop :=
  (body.(X) ≤ r.(X) ∧ r.(X) + r.(W) ≤ body.(X) + body.(W))
  ∧ (body.(Y) ≤ r.(Y) ∧ r.(Y) + r.(H) ≤ body.(Y) + body.(H)).

Lemma iadd_small a b : - 2 ^ 63 ≤ a + b < 2 ^ 63 → iadd a b = a + b.
Proof. apply i64_small. Qed.

#[export] Hint Rewrite i64_small iadd_small using lia : go.

Lemma clampInt_bounds v lo hi : lo ≤ hi → lo ≤ clampInt v lo hi ≤ hi.
Proof. unfold clampInt. repeat case_match; lia. Qed.

Lemma clampInt_id v lo hi : lo ≤ v ≤ hi → clampInt v lo hi = v.
Proof. unfold clampInt. repeat case_match; lia. Qed.

Lemma first_extent_inner split total :
  1 < total → 1 ≤ splitFirstExtent split total ≤ total - 1.
Proof.
  intros Ht. unfold splitFirstExtent, biased_extent. rewrite (proj2 (Z.leb_gt _ _)) by lia.
  repeat case_match;
    match goal with |- context [clampInt ?v 1 (total - 1)] =>
      pose proof (clampInt_bounds v 1 (total - 1) ltac:(lia)) end; lia.
Qed.

Lemma first_extent_bounds split total : 0 ≤ total → 0 ≤ splitFirstExtent split total ≤ total.
Proof.
  intros Ht. destruct (decide (1 < total)) as [H|H].
  - pose proof (first_extent_inner split total H). lia.
  - unfold splitFirstExtent. rewrite (proj2 (Z.leb_le _ _)) by lia. lia.
Qed.

(** The two rectangles of a split, with their arithmetic evaluated. *)
Lemma split_rects node r :
  rect_ok r →
  (Direction node = SplitVertical ∧ ∃ f, f = splitFirstExtent node r.(W) ∧ 0 ≤ f ≤ r.(W) ∧
     first_rect node r = mkRect r.(X) r.(Y) f r.(H) ∧
     second_rect node r = mkRect (r.(X) + f) r.(Y) (r.(W) - f) r.(H)) ∨
  (Direction node ≠ SplitVertical ∧ ∃ f, f = splitFirstExtent node r.(H) ∧ 0 ≤ f ≤ r.(H) ∧
     first_rect node r = mkRect r.(X) r.(Y) r.(W) f ∧
     second_rect node r = mkRect r.(X) (r.(Y) + f) r.(W) (r.(H) - f)).
Proof.
  intros []. unfold first_rect, second_rect. case_bool_decide; [left|right]; (split; [done|]);
    eexists; (split; [done|]);
    match goal with |- context [splitFirstExtent node ?t] =>
      pose proof (first_extent_bounds node t ltac:(lia)) end;
    (split; [lia|]); by rewrite iadd_small, i64_small by lia.
Qed.

Lemma first_rect_ok node r : rect_ok r → rect_ok (first_rect node r).
Proof.
  intros Hr. destruct (split_rects node r Hr) as [(_ & f & _ & Hf & -> & _)|(_ & f & _ & Hf & -> & _)];
    destruct Hr; split; simpl; lia.
Qed.

Lemma second_rect_ok node r : rect_ok r → rect_ok (second_rect node r).
Proof.
  intros Hr. destruct (split_rects node r Hr) as [(_ & f & _ & Hf & _ & ->)|(_ & f & _ & Hf & _ & ->)];
    destruct Hr; split; simpl; lia.
Qed.

Lemma first_within node r : rect_ok r → within (first_rect node r) r.
Proof.
  intros Hr. destruct (split_rects node r Hr) as [(_ & f & _ & Hf & -> & _)|(_ & f & _ & Hf & -> & _)];
    destruct Hr; unfold within; simpl; lia.
Qed.

Lemma second_within node r : rect_ok r → within (second_rect node r) r.
Proof.
  intros Hr. destruct (split_rects node r Hr) as [(_ & f & _ & Hf & _ & ->)|(_ & f & _ & Hf & _ & ->)];
    destruct Hr; unfold within; simpl; lia.
Qed.

Lemma within_trans a b c : within a b → within b c → within a c.
Proof. unfold within. lia. Qed.

(** A split cuts its rectangle in two. *)
Lemma split_cut node r x y :
  rect_ok r →
  (inside (first_rect node r) x y ∧ ¬ inside (second_rect node r) x y ∧ inside r x y)
  ∨ (¬ inside (first_rect node r) x y ∧ inside (second_rect node r) x y ∧ inside r x y)
  ∨ (¬ inside (first_rect node r) x y ∧ ¬ inside (second_rect node r) x y ∧ ¬ inside r x y).
Proof.
  intros Hr. destruct (split_rects node r Hr) as [(_ & f & _ & Hf & -> & ->)|(_ & f & _ & Hf & -> & ->)];
    destruct Hr; unfold inside; simpl; lia.
Qed.

(** ** The layout as a list, in pane order *)
Fixpoint layout (node : SplitNode) (rect : Rect) : list (string * Rect) :=
  if is_leaf node then [(PaneID node, rect)] else
  match Children node with
  | first :: second :: _ => layout first (first_rect node rect) ++ layout second (second_rect node rect)
  | _ => []
  end.

Lemma layout_leaf id rect : id ≠ "" → layout (leaf id) rect = [(id, rect)].
Proof. intros. simpl. unfold is_leaf. simpl. by rewrite bool_decide_false. Qed.

Lemma layout_split node a b rect :
  PaneID node = "" → Children node = [a; b] →
  layout node rect = layout a (first_rect node rect) ++ layout b (second_rect node rect).
Proof. destruct node; simpl. intros -> ->. done. Qed.

Lemma layout_panes node rect : binary node → (layout node rect).*1 = panes node.
Proof.
  intros Hb. revert rect. induction Hb as [i Hi|n a b Hp Hc Hd _ IHa _ IHb]; intros rect.
  - by rewrite layout_leaf, panes_leaf.
  - by rewrite (layout_split n a b), (panes_split n a b), fmap_app, IHa, IHb.
Qed.

Definition put_rects : gmap string Rect → list (string * Rect) → gmap string Rect :=
  foldl (λ m kr, <[kr.1 := kr.2]> m).

Lemma assign_layout node rect out :
  binary node → assignSplitRects node rect out = Some (put_rects out (layout node rect)).
Proof.
  intros Hb. revert rect out. induction Hb as [i Hi|n a b Hp Hc Hd _ IHa _ IHb]; intros rect out.
  - rewrite layout_leaf by done. simpl. unfold is_leaf. simpl. by rewrite bool_decide_false.
  - rewrite (layout_split n a b) by done.
    assert (assignSplitRects n rect out =
            (out ← assignSplitRects a (first_rect n rect) out;
             assignSplitRects b (second_rect n rect) out)) as ->
      by (destruct n; simpl in *; by subst).
    rewrite IHa. simpl. rewrite IHb. unfold put_rects. by rewrite foldl_app.
Qed.

Lemma put_rects_lookup l out k :
  NoDup l.*1 → put_rects out l !! k = match (list_to_map l : gmap string Rect) !! k with Some r => Some r | None => out !! k end.
Proof.
  unfold put_rects. revert out. induction l as [|[k' r] l IH]; intros out Hn; simpl in *; [done|].
  apply NoDup_cons in Hn as [Hk Hn]. rewrite IH by done.
  destruct (decide (k' = k)) as [->|Hne].
  - rewrite !lookup_insert_eq. by rewrite (not_elem_of_list_to_map_1 l) by done.
  - by rewrite !lookup_insert_ne by done.
Qed.

Lemma layout_lookup node rect k r :
  binary node → NoDup (panes node) →
  put_rects ∅ (layout node rect) !! k = Some r ↔ (k, r) ∈ layout node rect.
Proof.
  intros Hb Hn. assert (NoDup (layout node rect).*1) as Hn' by by rewrite layout_panes.
  rewrite put_rects_lookup, (elem_of_list_to_map (M := gmap string)) by done.
  destruct ((list_to_map (layout node rect) : gmap string Rect) !! k) as [r'|]; [done|].
  by rewrite lookup_empty.
Qed.

Lemma layout_within node rect k r :
  binary node → rect_ok rect → (k, r) ∈ layout node rect → rect_ok r ∧ within r rect.
Proof.
  intros Hb. revert rect. induction Hb as [i Hi|n a b Hp Hc Hd _ IHa _ IHb]; intros rect Hr.
  - rewrite layout_leaf, list_elem_of_singleton by done. intros [= -> ->].
    split; [done|]. unfold within. lia.
  - rewrite (layout_split n a b), elem_of_app by done. intros [H|H].
    + apply IHa in H as [Ho Hw]; [|by apply first_rect_ok]. split; [done|].
      eapply within_trans; [done|by apply first_within].
    + apply IHb in H as [Ho Hw]; [|by apply second_rect_ok]. split; [done|].
      eapply within_trans; [done|by apply second_within].
Qed.

(** Every cell of the rectangle is in exactly one pane. *)
Lemma layout_count node rect x y :
  binary node → rect_ok rect →
  length (filter (λ kr, inside kr.2 x y) (layout node rect)) = if decide (inside rect x y) then 1%nat else 0%nat.
Proof.
  intros Hb. revert rect. induction Hb as [i Hi|n a b Hp Hc Hd _ IHa _ IHb]; intros rect Hr.
  - rewrite layout_leaf, filter_cons, filter_nil by done. simpl. by case_decide.
  - rewrite (layout_split n a b), filter_app, length_app, IHa, IHb
      by auto using first_rect_ok, second_rect_ok.
    destruct (split_cut n rect x y Hr) as [(? & ? & ?)|[(? & ? & ?)|(? & ? & ?)]];
      by repeat case_decide.
Qed.

Lemma filter_one {A} (P : A → Prop) `{!∀ x, Decision (P x)} l :
  length (filter P l) = 1%nat → ∃ x, (x ∈ l ∧ P x) ∧ ∀ y, y ∈ l → P y → y = x.
Proof.
  intros H. destruct (filter P l) as [|x [|]] eqn:E; try done.
  exists x. assert (x ∈ filter P l) as Hx by (rewrite E; left).
  apply list_elem_of_filter in Hx as [Hp Hl]. split; [done|].
  intros y Hy Hpy. assert (y ∈ filter P l) as Hf by by apply list_elem_of_filter.
  rewrite E in Hf. by apply list_elem_of_singleton in Hf.
Qed.

(** * Facts on the subtrees of a layout: paths, the edits at a path, the divider regions *)

(** ** Subtrees

    [at_path node rect p s rs]: the subtree of [node] at path [p] is [s], and the layout of
    [node] in [rect] gives it the rectangle [rs]. *)
Inductive at_path : SplitNode → Rect → list Z → SplitNode → Rect → Prop :=
| at_here node rect : at_path node rect [] node rect
| at_first node a b rect p s rs :
    PaneID node = "" → Children node = [a; b] →
    at_path a (first_rect node rect) p s rs → at_path node rect (0 :: p) s rs
| at_second node a b rect p s rs :
    PaneID node = "" → Children node = [a; b] →
    at_path b (second_rect node rect) p s rs → at_path node rect (1 :: p) s rs.

(** [node] with its subtree at [p] replaced. *)
Fixpoint put (node : SplitNode) (p : list Z) (s : SplitNode) {struct p} : SplitNode :=
  match p, Children node with
  | [], _ => s
  | 0 :: p, [a; b] => node <| Children := [put a p s; b] |>
  | _ :: p, [a; b] => node <| Children := [a; put b p s] |>
  | _, _ => node
  end.

Lemma at_path_binary node rect p s rs : binary node → at_path node rect p s rs → binary s.
Proof.
  intros Hb Ha. induction Ha as [|n a b r p s rs _ Hc _ IH|n a b r p s rs _ Hc _ IH]; [done|..];
    destruct (binary_children n a b Hb Hc) as (_ & _ & ? & ?); auto.
Qed.

Lemma at_path_ok node rect p s rs : rect_ok rect → at_path node rect p s rs → rect_ok rs.
Proof. intros Hr Ha. induction Ha; auto using first_rect_ok, second_rect_ok. Qed.

Lemma at_path_within node rect p s rs : rect_ok rect → at_path node rect p s rs → within rs rect.
Proof.
  intros Hr Ha. induction Ha; [unfold within; lia|..].
  - eapply within_trans; [by apply IHHa, first_rect_ok|by apply first_within].
  - eapply within_trans; [by apply IHHa, second_rect_ok|by apply second_within].
Qed.

(** The panes of a subtree are a segment of the panes. *)
Lemma at_path_panes node rect p s rs :
  at_path node rect p s rs → ∃ l1 l2, panes node = l1 ++ panes s ++ l2.
Proof.
  induction 1 as [|n a b r p s rs Hp Hc _ (l1 & l2 & E)|n a b r p s rs Hp Hc _ (l1 & l2 & E)].
  - exists [], []. by rewrite app_nil_r.
  - exists l1, (l2 ++ panes b). by rewrite (panes_split n a b), E, <- !app_assoc.
  - exists (panes a ++ l1), l2. by rewrite (panes_split n a b), E, <- !app_assoc.
Qed.

(** The extents of a split depend on its hints and on the panes of its two children. *)
Lemma first_extent_kept node a b a' b' total :
  Children node = [a; b] → binary a → binary b → kept a a' → kept b b' →
  splitFirstExtent (node <| Children := [a'; b'] |>) total = splitFirstExtent node total.
Proof.
  intros Hc Ha Hb [Ba Pa] [Bb Pb]. destruct node; simpl in *; subst. unfold splitFirstExtent, child; simpl.
  case_match; [done|]. case_bool_decide; simpl; [done|].
  rewrite !contains_panes, Pa, Pb by done. done.
Qed.

Lemma kept_rects node a b a' b' rect :
  Children node = [a; b] → binary a → binary b → kept a a' → kept b b' →
  first_rect (node <| Children := [a'; b'] |>) rect = first_rect node rect
  ∧ second_rect (node <| Children := [a'; b'] |>) rect = second_rect node rect.
Proof.
  intros. unfold first_rect, second_rect. rewrite !(first_extent_kept node a b a' b') by done.
  by destruct node.
Qed.

Lemma put_kept node rect p s rs s' :
  binary node → at_path node rect p s rs → kept s s' → kept node (put node p s').
Proof.
  intros Hb Ha Hk. induction Ha as [|n a b r p s rs Hp Hc _ IH|n a b r p s rs Hp Hc _ IH]; [done|..];
    destruct (binary_children n a b Hb Hc) as (_ & Hd & Ba & Bb); simpl; rewrite Hc.
  - apply (kept_split _ _ a b (put a p s') b); auto using kept_refl.
  - apply (kept_split _ _ a b a (put b p s')); auto using kept_refl.
Qed.

(** Replacing a subtree by one with the same panes leaves the rectangles of the others. *)
Lemma put_layout node rect p s rs s' :
  binary node → at_path node rect p s rs → kept s s' →
  ∃ l1 l2, layout node rect = l1 ++ layout s rs ++ l2
           ∧ layout (put node p s') rect = l1 ++ layout s' rs ++ l2.
Proof.
  intros Hb Ha Hk. induction Ha as [n r|n a b r p s rs Hp Hc Ha IH|n a b r p s rs Hp Hc Ha IH].
  - exists [], []. by rewrite !app_nil_r.
  - destruct (binary_children n a b Hb Hc) as (_ & Hd & Ba & Bb). simpl. rewrite Hc.
    destruct (IH Ba Hk) as (l1 & l2 & E1 & E2).
    destruct (kept_rects n a b (put a p s') b r) as [R1 R2]; auto using kept_refl.
    { by eapply put_kept. }
    exists l1, (l2 ++ layout b (second_rect n r)).
    rewrite (layout_split n a b), (layout_split (n <| Children := [put a p s'; b] |>) (put a p s') b), R1, R2, E1, E2, <- !app_assoc by done.
    done.
  - destruct (binary_children n a b Hb Hc) as (_ & Hd & Ba & Bb). simpl. rewrite Hc.
    destruct (IH Bb Hk) as (l1 & l2 & E1 & E2).
    destruct (kept_rects n a b a (put b p s') r) as [R1 R2]; auto using kept_refl.
    { by eapply put_kept. }
    exists (layout a (first_rect n r) ++ l1), l2.
    rewrite (layout_split n a b), (layout_split (n <| Children := [a; put b p s'] |>) a (put b p s')), R1, R2, E1, E2, <- !app_assoc by done.
    done.
Qed.

(** ** Edits at a path *)
Lemma resize_at_path node rect p s rs dir delta a b :
  at_path node rect p s rs → PaneID s = "" → Children s = [a; b] →
  splitDirectionMatchesResize (Direction s) dir = true →
  resizeSplitNodeByPath node p dir delta
  = (put node p (no_hint (s <| BiasCells := iadd (BiasCells s) delta |>)), true).
Proof.
  intros Ha Hs Hcs Hm. induction Ha as [n r|n x y r p s rs Hp Hc Ha IH|n x y r p s rs Hp Hc Ha IH].
  - rewrite (path_split n a b), Hm by done. done.
  - rewrite (path_split n x y), IH by done. simpl. by rewrite Hc.
  - rewrite (path_split n x y), IH by done. simpl. by rewrite Hc.
Qed.

Lemma same_order_iff l group : samePaneOrder l group = bool_decide (l = it_PaneID <$> group).
Proof.
  revert group. induction l as [|x l IH]; intros [|i group]; simpl; try done.
  rewrite IH. rewrite <- bool_decide_and. apply bool_decide_ext. split; [by intros [-> ->]|].
  by intros [= -> ->].
Qed.

(** The group of a subtree is found by its panes. *)
Lemma group_absent node axis group id :
  binary node → id ∈ (it_PaneID <$> group) → id ∉ panes node →
  resizePaneGroupNode node axis group = (node, false).
Proof.
  intros Hb Hin. induction Hb as [i Hi|n a b Hp Hc Hd _ IHa _ IHb]; intros Hid;
    rewrite group_node_unfold, same_order_iff, bool_decide_false by (intros E; by rewrite E in Hid).
  - unfold is_leaf. simpl. by rewrite bool_decide_false.
  - unfold is_leaf. rewrite Hp, Hc. simpl. rewrite (panes_split n a b), elem_of_app in Hid by done.
    by rewrite IHa, IHb by tauto.
Qed.

Lemma binary_panes_nonnil node l1 l2 : binary node → l1 ++ panes node ++ l2 ≠ [].
Proof. intros Hb. pose proof (panes_nonempty node Hb). destruct l1, (panes node); done. Qed.

Lemma group_at_path node rect p s rs axis group :
  binary node → NoDup (panes node) → at_path node rect p s rs →
  panes s = it_PaneID <$> group →
  (applyPaneResizeGroupNode s axis (paneResizeGroupByPane group)).2 = true →
  resizePaneGroupNode node axis group
  = (put node p (applyPaneResizeGroupNode s axis (paneResizeGroupByPane group)).1, true).
Proof.
  intros Hb Hn Ha Hg Hc2.
  assert (Hhead : ∀ x, binary x → ∃ id, id ∈ panes x).
  { intros x Hx. destruct (panes x) eqn:E; [by apply panes_nonempty in Hx|]. eexists; left. }
  induction Ha as [n r|n x y r p s rs Hp Hc Ha IH|n x y r p s rs Hp Hc Ha IH].
  - rewrite group_node_unfold, same_order_iff, bool_decide_true by done.
    by destruct applyPaneResizeGroupNode; simpl in *; subst.
  - destruct (binary_children n x y Hb Hc) as (_ & Hd & Ba & Bb). simpl. rewrite Hc.
    rewrite (panes_split n x y) in Hn by done. apply NoDup_app in Hn as (Hna & Hd2 & Hnb).
    destruct (at_path_panes _ _ _ _ _ Ha) as (l1 & l2 & E).
    rewrite group_node_unfold, same_order_iff, bool_decide_false; [|].
    + unfold is_leaf. rewrite Hp, Hc. simpl. by rewrite IH.
    + rewrite <- Hg, (panes_split n x y) by done. intros E2. destruct (Hhead y Bb) as [id Hid].
      apply (Hd2 id); [|done]. rewrite E, elem_of_app, elem_of_app. right; left.
      rewrite <- E2. apply elem_of_app. by right.
  - destruct (binary_children n x y Hb Hc) as (_ & Hd & Ba & Bb). simpl. rewrite Hc.
    rewrite (panes_split n x y) in Hn by done. apply NoDup_app in Hn as (Hna & Hd2 & Hnb).
    destruct (at_path_panes _ _ _ _ _ Ha) as (l1 & l2 & E).
    rewrite group_node_unfold, same_order_iff, bool_decide_false; [|].
    + unfold is_leaf. rewrite Hp, Hc. simpl.
      destruct (Hhead s) as [id Hid]; [by eapply at_path_binary|].
      rewrite (group_absent x axis group id); [by rewrite IH|done|by rewrite <- Hg|].
      intros Hin. apply (Hd2 id Hin). rewrite E, !elem_of_app. tauto.
    + rewrite <- Hg, (panes_split n x y) by done. intros E2. destruct (Hhead x Ba) as [id Hid].
      apply (Hd2 id Hid). rewrite E, !elem_of_app. right; left. rewrite <- E2. apply elem_of_app. by left.
Qed.
