(* ===== verification/SplitGroupFacts.v ===== *)
(** * Facts on the resize of a chain of panes: the hints realise the requested cells *)
From S2P Require Import Prelude SplitTree SplitLayout SplitFacts SplitLayoutFacts.
Local Open Scope Z_scope.

(** ** Positions and extents along an axis *)
Definition pos_along (axis : SplitDirection) (r : Rect) : Z :=
  if bool_decide (axis = SplitVertical) then r.(X) else r.(Y).

Lemma extent_bounds axis r :
  rect_ok r → 0 ≤ extent_along axis r ∧ 0 ≤ pos_along axis r
              ∧ pos_along axis r + extent_along axis r < 2 ^ 63.
Proof. intros []. unfold extent_along, pos_along. case_bool_decide; lia. Qed.

Lemma within_along axis q r :
  within q r → pos_along axis r ≤ pos_along axis q
               ∧ pos_along axis q + extent_along axis q ≤ pos_along axis r + extent_along axis r.
Proof. unfold within, extent_along, pos_along. case_bool_decide; lia. Qed.

(** A split along the axis cuts the extent at its first extent. *)
Lemma rects_along node axis r :
  rect_ok r → valid_direction (Direction node) → Direction node = axis →
  let f := splitFirstExtent node (extent_along axis r) in
  0 ≤ f ≤ extent_along axis r
  ∧ extent_along axis (first_rect node r) = f
  ∧ extent_along axis (second_rect node r) = extent_along axis r - f
  ∧ pos_along axis (first_rect node r) = pos_along axis r
  ∧ pos_along axis (second_rect node r) = pos_along axis r + f.
Proof.
  intros Hr Hv <-. unfold extent_along, pos_along.
  destruct (split_rects node r Hr) as [(E & f & -> & Hf & -> & ->)|(E & f & -> & Hf & -> & ->)];
    [rewrite !bool_decide_true by done | rewrite !bool_decide_false by done]; simpl; lia.
Qed.

(** A split across the axis keeps the extent. *)
Lemma rects_across node axis r :
  rect_ok r → valid_direction (Direction node) → valid_direction axis → Direction node ≠ axis →
  extent_along axis (first_rect node r) = extent_along axis r
  ∧ extent_along axis (second_rect node r) = extent_along axis r
  ∧ pos_along axis (first_rect node r) = pos_along axis r
  ∧ pos_along axis (second_rect node r) = pos_along axis r.
Proof.
  intros Hr Hv Ha Hne. unfold extent_along, pos_along.
  destruct (split_rects node r Hr) as [(E & f & _ & _ & -> & ->)|(E & f & _ & _ & -> & ->)].
  - rewrite !bool_decide_false by (intros ->; done). done.
  - destruct Hv as [Hv|Hv]; [done|]. destruct Ha as [-> | ->]; [|by rewrite Hv in Hne].
    rewrite !bool_decide_true by done. done.
Qed.

(** ** Consistent requests

    [fits axis g node n]: the cells [g] requests for the panes of [node] fill an extent of
    [n] along the axis exactly: they add up along it and agree across it. *)
Inductive fits (axis : SplitDirection) (g : gmap string PaneResizeGroupItem) : SplitNode → Z → Prop :=
| fits_leaf id item :
    id ≠ "" → g !! id = Some item → 0 < item.(it_Cells) → fits axis g (leaf id) item.(it_Cells)
| fits_along node a b m n :
    PaneID node = "" → Children node = [a; b] → valid_direction (Direction node) →
    Direction node = axis → fits axis g a m → fits axis g b n → fits axis g node (m + n)
| fits_across node a b n :
    PaneID node = "" → Children node = [a; b] → valid_direction (Direction node) →
    Direction node ≠ axis → fits axis g a n → fits axis g b n → fits axis g node n.

Lemma fits_binary axis g node n : fits axis g node n → binary node.
Proof. induction 1; [by constructor|by eapply binary_split..]. Qed.

Lemma fits_pos axis g node n : fits axis g node n → 0 < n.
Proof. induction 1; lia. Qed.

Lemma extent_split node a b axis g :
  PaneID node = "" → Children node = [a; b] →
  paneResizeGroupExtent node axis g =
    extent_loop (λ c, paneResizeGroupExtent c axis g) (bool_decide (Direction node = axis)) 0 [a; b].
Proof. destruct node; simpl. intros -> ->. done. Qed.

Lemma fits_extent axis g node n :
  fits axis g node n → n < 2 ^ 63 → paneResizeGroupExtent node axis g = (n, true).
Proof.
  intros Hf. induction Hf as [id item Hid Hg Hc|x a b m n Hp Hcs Hv Hd Ha IHa Hb IHb|x a b n Hp Hcs Hv Hd Ha IHa Hb IHb]; intros Hn.
  - simpl. rewrite bool_decide_false by done. simpl. rewrite Hg. by rewrite (proj2 (Z.ltb_lt _ _)).
  - pose proof (fits_pos _ _ _ _ Ha). pose proof (fits_pos _ _ _ _ Hb).
    rewrite (extent_split x a b) by done. rewrite bool_decide_true by done. cbn [extent_loop].
    rewrite IHa, IHb by lia. rewrite !iadd_small by (rewrite ?iadd_small by lia; lia).
    f_equal. apply Z.ltb_lt. lia.
  - pose proof (fits_pos _ _ _ _ Ha).
    rewrite (extent_split x a b) by done. rewrite bool_decide_false by done. cbn [extent_loop].
    rewrite IHa, IHb by lia. rewrite (proj2 (Z.ltb_lt 0 n)) by lia.
    rewrite Z.ltb_irrefl. f_equal. by apply Z.ltb_lt.
Qed.

(** Applying a consistent request changes the node and keeps the request consistent. *)
Lemma fits_changed axis g node n : fits axis g node n → (applyPaneResizeGroupNode node axis g).2 = true.
Proof.
  induction 1 as [id item Hid Hg Hc|x a b m n Hp Hcs Hv Hd Ha IHa Hb IHb|x a b n Hp Hcs Hv Hd Ha IHa Hb IHb].
  - rewrite apply_leaf by done. simpl. apply bool_decide_true. by rewrite Hg.
  - rewrite (apply_split x a b) by done. simpl. by rewrite IHa, IHb.
  - rewrite (apply_split x a b) by done. simpl. by rewrite IHa, IHb.
Qed.

(** The node after a consistent request. *)
Lemma apply_fits node a b axis g m n :
  PaneID node = "" → Children node = [a; b] → fits axis g a m → fits axis g b n →
  applyPaneResizeGroupNode node axis g =
    (group_hint (node <| Children := [(applyPaneResizeGroupNode a axis g).1;
                                      (applyPaneResizeGroupNode b axis g).1] |>) axis g, true).
Proof.
  intros Hp Hc Ha%fits_changed Hb%fits_changed. rewrite (apply_split node a b) by done. simpl.
  by rewrite Ha, Hb.
Qed.

Lemma fits_apply axis g node n :
  fits axis g node n → fits axis g (applyPaneResizeGroupNode node axis g).1 n.
Proof.
  induction 1 as [id item Hid Hg Hc|x a b m n Hp Hcs Hv Hd Ha IHa Hb IHb|x a b n Hp Hcs Hv Hd Ha IHa Hb IHb].
  - rewrite apply_leaf by done. by constructor.
  - rewrite (apply_fits x a b axis g m n) by done. simpl.
    match goal with |- context [group_hint ?y axis g] =>
      destruct (group_hint_shape y axis g) as (E1 & E2 & E3) end.
    eapply fits_along; rewrite ?E1, ?E2, ?E3; done.
  - rewrite (apply_fits x a b axis g n n) by done. simpl.
    match goal with |- context [group_hint ?y axis g] =>
      destruct (group_hint_shape y axis g) as (E1 & E2 & E3) end.
    eapply fits_across; rewrite ?E1, ?E2, ?E3; done.
Qed.

(** The hint written on a split along the axis gives the first child its cells. *)
Lemma hint_extent node a b axis g m n :
  PaneID node = "" → Children node = [a; b] → valid_direction (Direction node) → Direction node = axis →
  fits axis g a m → fits axis g b n → m + n < 2 ^ 63 →
  splitFirstExtent (group_hint node axis g) (m + n) = m.
Proof.
  intros Hp Hc Hv Hd Ha Hb Hlt. pose proof (fits_pos _ _ _ _ Ha). pose proof (fits_pos _ _ _ _ Hb).
  pose proof (fits_binary _ _ _ _ Ha) as Ba.
  assert (Hfix : firstPaneIDInSplit a ≠ "").
  { apply (binary_pane_nonempty a); [done|]. by apply firstPaneID_in. }
  unfold group_hint. rewrite Hc, (fits_extent axis g a m), (fits_extent axis g b n) by (done || lia).
  rewrite bool_decide_true by done. rewrite !(proj2 (Z.ltb_lt _ _)) by lia. cbn [andb].
  assert (Ha1 : splitContainsPane a (firstPaneIDInSplit a) = true).
  { rewrite contains_panes by done. apply bool_decide_true. by apply firstPaneID_in. }
  destruct node as [pid dir cs ra bi fp fc fr]; simpl in *; subst.
  case_bool_decide as Hax; simpl; unfold splitFirstExtent, child, splitFixedExtent; simpl;
    rewrite (proj2 (Z.leb_gt _ _)) by lia; rewrite (bool_decide_false (firstPaneIDInSplit a = "")) by done;
    [rewrite bool_decide_true by done|rewrite bool_decide_false by done];
    simpl; rewrite (proj2 (Z.ltb_lt 0 m)), Ha1 by lia; apply clampInt_id; lia.
Qed.

(** * Facts on the divider regions: their paths parse back, the drag of a group fits *)

From Stdlib Require Import Strings.Ascii.

(** ** Split paths as text *)
Definition index_text (i : Z) : string := if i =? 0 then "0" else "1".
Fixpoint tail_text (p : list Z) : string :=
  match p with [] => "" | i :: p => "/" +:+ index_text i +:+ tail_text p end.
Definition path_text (p : list Z) : string := "root" +:+ tail_text p.
Definition binary_path (p : list Z) : Prop := Forall (λ i, i = 0 ∨ i = 1) p.

Lemma append_cons x (a b : string) : String x a +:+ b = String x (a +:+ b).
Proof. done. Qed.
Lemma append_nil (b : string) : "" +:+ b = b.
Proof. done. Qed.
#[export] Hint Rewrite append_cons append_nil : str.

Lemma string_app_assoc (a b c : string) : (a +:+ b) +:+ c = a +:+ b +:+ c.
Proof. induction a as [|x a IH]; autorewrite with str; [done|by rewrite IH]. Qed.

Lemma tail_text_app p q : tail_text (p ++ q) = tail_text p +:+ tail_text q.
Proof. induction p as [|i p IH]; simpl; [done|]. by rewrite IH, !string_app_assoc. Qed.

Lemma child_path p i :
  childSplitPath (path_text p) i = path_text (p ++ [match i with O => 0 | S _ => 1 end]).
Proof.
  unfold childSplitPath, path_text. rewrite bool_decide_false by done.
  rewrite tail_text_app, <- string_app_assoc. by destruct i.
Qed.

Lemma index_text_cases i : index_text i = "0" ∨ index_text i = "1".
Proof. unfold index_text. destruct (i =? 0); auto. Qed.

Lemma split_tail p acc : Split_ "/" acc (tail_text p) = acc :: map index_text p.
Proof.
  revert acc. induction p as [|i p IH]; intros acc; [done|]. cbn [tail_text map].
  assert (Hstep : ∀ acc, Split_ "/" acc (index_text i +:+ tail_text p) = (acc +:+ index_text i) :: map index_text p).
  { intros acc'. destruct (index_text_cases i) as [-> | ->]; autorewrite with str; cbn [Split_];
      rewrite bool_decide_false by done; by rewrite IH. }
  autorewrite with str. cbn [Split_]. rewrite bool_decide_true by done. by rewrite Hstep.
Qed.

Lemma parse_path_text p : binary_path p → parseSplitPath (path_text p) = Some p.
Proof.
  intros Hp. unfold parseSplitPath. destruct Hp as [|i p Hi Hp]; [by rewrite bool_decide_true|].
  rewrite bool_decide_false; [|unfold path_text; by destruct Hi as [-> | ->]].
  assert (CutPrefix (path_text (i :: p)) (PaneResizeRootSplitPath +:+ "/")
          = Some (index_text i +:+ tail_text p)) as ->.
  { unfold path_text, PaneResizeRootSplitPath. cbn [tail_text]. autorewrite with str. simpl.
    repeat (rewrite bool_decide_true by done). done. }
  assert (strings_Split (index_text i +:+ tail_text p) "/" = map index_text (i :: p)) as ->.
  { unfold strings_Split. cbn [map].
    destruct (index_text_cases i) as [-> | ->]; autorewrite with str; cbn [Split_];
      rewrite bool_decide_false by done; by rewrite split_tail. }
  assert (Hall : Forall (λ i, i = 0 ∨ i = 1) (i :: p)) by (by constructor). clear Hi Hp.
  induction Hall as [|j l Hj _ IH]; [done|]. cbn [map mapM].
  assert (path_index (index_text j) = Some j) as Ej by by destruct Hj as [-> | ->].
  simpl. rewrite Ej. simpl. by rewrite IH.
Qed.

Lemma at_path_binary_path node rect p s rs : at_path node rect p s rs → binary_path p.
Proof. induction 1; constructor; auto. Qed.

(** ** The divider regions *)
Lemma paneExtent_some split id w h axis :
  binary split → ∃ rects, assignSplitRects split (mkRect 0 0 w h) ∅ = Some rects ∧
    paneExtent split id w h axis = Some (extent_along axis (lookupRect rects id)).
Proof. intros Hb. unfold paneExtent. rewrite assign_layout by done. simpl. eauto. Qed.

Lemma divider_some s a b rs text :
  binary s → binary a → binary b → ∃ region, divider_region s a b rs text = Some region.
Proof.
  intros Hs Ha Hb. unfold divider_region, paneExtent, resizeGroupItems.
  rewrite !assign_layout by done. simpl. eauto.
Qed.

(** A divider region as the layout produces it. *)
Definition divider_of (node : SplitNode) (rect viewport : Rect) (q : list Z) (region : HitRegion) : Prop :=
  ∃ p s rs a b region0,
    at_path node rect p s rs ∧ PaneID s = "" ∧ Children s = [a; b] ∧ 1 < rs.(W) ∧ 1 < rs.(H)
    ∧ divider_region s a b rs (path_text (q ++ p)) = Some region0
    ∧ region = region0 <| hr_Rect := intersectRect region0.(hr_Rect) viewport |>
    ∧ 0 < region.(hr_Rect).(W) ∧ 0 < region.(hr_Rect).(H).

Lemma append_region_cases out region vp :
  appendRegion out region vp = out
  ∨ appendRegion out region vp = out ++ [region <| hr_Rect := intersectRect region.(hr_Rect) vp |>]
    ∧ 0 < (intersectRect region.(hr_Rect) vp).(W) ∧ 0 < (intersectRect region.(hr_Rect) vp).(H).
Proof.
  unfold appendRegion. destruct (_ || _)%bool eqn:E; [by left|]. apply orb_false_elim in E as [E1%Z.leb_gt E2%Z.leb_gt].
  destruct (_ && _)%bool; [by left|by right].
Qed.

(** The scan of the tree never panics and adds only regions of its dividers. *)
Lemma regions_spec node rect vp q out :
  binary node →
  ∃ added, appendSplitResizeHitRegions out node rect vp (path_text q) = Some (out ++ added)
           ∧ Forall (divider_of node rect vp q) added.
Proof.
  intros Hb. revert rect q out.
  induction Hb as [i Hi|n a b Hp Hc Hd Ha IHa Hb IHb]; intros rect q out.
  { exists []. rewrite app_nil_r. split; [|constructor]. simpl.
    rewrite (bool_decide_false (i = "")) by done. simpl. by rewrite orb_true_r. }
  assert (Hu : appendSplitResizeHitRegions out n rect vp (path_text q) =
    if (rect.(W) <=? 1) || (rect.(H) <=? 1) then Some out else
      out ← (if bool_decide (firstPaneIDInSplit a = "") then Some out
             else region ← divider_region n a b rect (path_text q);
                  Some (appendRegion out region vp));
      out ← appendSplitResizeHitRegions out a (first_rect n rect) vp (childSplitPath (path_text q) 0);
      appendSplitResizeHitRegions out b (second_rect n rect) vp (childSplitPath (path_text q) 1)).
  { destruct n; simpl in *; subst. by rewrite orb_false_r. }
  rewrite Hu. clear Hu. destruct ((W rect <=? 1) || (H rect <=? 1))%bool eqn:Hsmall.
  { exists []. by rewrite app_nil_r. }
  apply orb_false_iff in Hsmall as [HW HH].
  assert (Hn : binary n) by (by eapply binary_split).
  assert (Hhere : ∃ here, (if bool_decide (firstPaneIDInSplit a = "") then Some out
             else region ← divider_region n a b rect (path_text q);
                  Some (appendRegion out region vp)) = Some (out ++ here)
             ∧ Forall (divider_of n rect vp q) here).
  { case_bool_decide; [exists []; by rewrite app_nil_r|].
    destruct (divider_some n a b rect (path_text q)) as [region Er]; [done..|]. rewrite Er. simpl.
    destruct (append_region_cases out region vp) as [-> | (-> & HpW & HpH)].
    - exists []. by rewrite app_nil_r.
    - eexists [_]. split; [done|]. constructor; [|constructor].
      exists [], n, rect, a, b, region. rewrite app_nil_r. split_and!; try done; [constructor|lia..]. }
  destruct Hhere as (here & -> & Hhere). cbn [mbind option_bind]. rewrite !child_path.
  destruct (IHa (first_rect n rect) (q ++ [0]) (out ++ here)) as (la & -> & Hla). cbn [mbind option_bind].
  destruct (IHb (second_rect n rect) (q ++ [1]) ((out ++ here) ++ la)) as (lb & -> & Hlb).
  exists (here ++ la ++ lb). split; [by rewrite !app_assoc|].
  apply Forall_app. split; [done|]. apply Forall_app. split.
  - eapply Forall_impl; [exact Hla|]. intros r (p & s & rs & x & y & r0 & Hat & H1 & H2 & H3 & H4 & H5 & H6 & H7 & H8).
    exists (0 :: p), s, rs, x, y, r0. rewrite <- app_assoc in H5. split_and!; try done. by eapply at_first.
  - eapply Forall_impl; [exact Hlb|]. intros r (p & s & rs & x & y & r0 & Hat & H1 & H2 & H3 & H4 & H5 & H6 & H7 & H8).
    exists (1 :: p), s, rs, x, y, r0. rewrite <- app_assoc in H5. split_and!; try done. by eapply at_second.
Qed.
