(* ===== verification/SplitDragFacts.v ===== *)
(** * Facts on the drag of a chain of panes

    The cells it requests fit the divider moved; a tree that fulfils them has exactly the edges on the divider moved, as
    often as it is dragged. *)
From S2P Require Import Prelude SplitTree SplitLayout SplitFacts SplitLayoutFacts SplitGroupFacts.
Local Open Scope Z_scope.

(** The side of the divider a rectangle touches. *)
Definition sign (axis : SplitDirection) (divider : Z) (q : Rect) : Z :=
  if bool_decide (pos_along axis q + extent_along axis q = divider) then 1
  else if bool_decide (pos_along axis q = divider) then -1 else 0.

Lemma resize_item_sign rects axis divider k q :
  rects !! k = Some q → rect_ok q →
  resize_item rects axis divider k = mkItem k (extent_along axis q) (sign axis divider q).
Proof.
  intros Hk []. unfold resize_item, sign, lookupRect, pos_along, extent_along. rewrite Hk. simpl.
  case_bool_decide; by rewrite iadd_small by lia.
Qed.

Lemma layout_nonempty node r : binary node → ∃ k q, (k, q) ∈ layout node r.
Proof.
  intros Hb. pose proof (panes_nonempty node Hb) as Hn. rewrite <- (layout_panes node r) in Hn by done.
  destruct (layout node r) as [|[k q] l]; [done|]. exists k, q. left.
Qed.

Lemma layout_extent_pos axis node r :
  binary node → rect_ok r → (∀ k q, (k, q) ∈ layout node r → 0 < extent_along axis q) →
  0 < extent_along axis r.
Proof.
  intros Hb Hr Hpos. destruct (layout_nonempty node r Hb) as (k & q & Hin).
  pose proof (Hpos k q Hin). destruct (layout_within node r k q Hb Hr Hin) as [_ Hw].
  pose proof (within_along axis q r Hw). lia.
Qed.

(** The requests of a subtree on one side of the divider add up to its extent, moved by the
    drag when it touches the divider. *)
Lemma shift_fits axis divider delta g node r :
  valid_direction axis → binary node → rect_ok r →
  (∀ k q, (k, q) ∈ layout node r → 0 < extent_along axis q ∧
     ∃ item, g !! k = Some item ∧ item.(it_Cells) = extent_along axis q + delta * sign axis divider q
             ∧ 0 < item.(it_Cells)) →
  pos_along axis r + extent_along axis r ≤ divider ∨ divider ≤ pos_along axis r →
  fits axis g node (extent_along axis r + delta * sign axis divider r).
Proof.
  intros Hax Hb. revert r.
  induction Hb as [i Hi|n a b Hp Hc Hd Ha IHa Hb IHb]; intros r Hr Hq Hside.
  - rewrite layout_leaf in Hq by done.
    destruct (Hq i r) as (_ & item & Hg & <- & Hpos); [left|]. by constructor.
  - rewrite (layout_split n a b) in Hq by done.
    assert (Hqa : ∀ k q, (k, q) ∈ layout a (first_rect n r) → _) by (intros; apply Hq; apply elem_of_app; by left).
    assert (Hqb : ∀ k q, (k, q) ∈ layout b (second_rect n r) → _) by (intros; apply Hq; apply elem_of_app; by right).
    pose proof (layout_extent_pos axis a _ Ha (first_rect_ok n r Hr) (λ k q H, proj1 (Hqa k q H))) as Pa.
    pose proof (layout_extent_pos axis b _ Hb (second_rect_ok n r Hr) (λ k q H, proj1 (Hqb k q H))) as Pb.
    specialize (IHa _ (first_rect_ok n r Hr) Hqa). specialize (IHb _ (second_rect_ok n r Hr) Hqb).
    destruct (decide (Direction n = axis)) as [Eax|Nax].
    + destruct (rects_along n axis r Hr Hd Eax) as (F0 & F1 & F2 & F3 & F4).
      set (f := splitFirstExtent n (extent_along axis r)) in *. rewrite F1 in Pa. rewrite F2 in Pb.
      rewrite F1, F3 in IHa. rewrite F2, F4 in IHb.
      specialize (IHa ltac:(lia)). specialize (IHb ltac:(lia)).
      assert (Es : f + delta * sign axis divider (first_rect n r)
                   + (extent_along axis r - f + delta * sign axis divider (second_rect n r))
                   = extent_along axis r + delta * sign axis divider r).
      { unfold sign. rewrite F1, F2, F3, F4. repeat case_bool_decide; lia. }
      rewrite <- Es. by apply (fits_along _ _ n a b).
    + destruct (rects_across n axis r Hr Hd Hax Nax) as (F1 & F2 & F3 & F4).
      assert (Ea : sign axis divider (first_rect n r) = sign axis divider r) by (unfold sign; by rewrite F1, F3).
      assert (Eb : sign axis divider (second_rect n r) = sign axis divider r) by (unfold sign; by rewrite F2, F4).
      rewrite F1, F3, Ea in IHa. rewrite F2, F4, Eb in IHb. apply (fits_across _ _ n a b); auto.
Qed.

(** The split that holds the divider: the two sides add up to its extent unmoved. *)
Lemma divider_fits axis delta g node a b r :
  valid_direction axis → binary node → Children node = [a; b] → Direction node = axis →
  rect_ok r → pos_along axis r = 0 →
  let divider := splitFirstExtent node (extent_along axis r) in
  (∀ k q, (k, q) ∈ layout node r → 0 < extent_along axis q ∧
     ∃ item, g !! k = Some item ∧ item.(it_Cells) = extent_along axis q + delta * sign axis divider q
             ∧ 0 < item.(it_Cells)) →
  fits axis g node (extent_along axis r).
Proof.
  intros Hax Hn Hc Eax Hr H0 f Hq. destruct (binary_children node a b Hn Hc) as (Hp & Hd & Ha & Hb).
  rewrite (layout_split node a b) in Hq by done.
  assert (Hqa : ∀ k q, (k, q) ∈ layout a (first_rect node r) → _) by (intros; apply Hq; apply elem_of_app; by left).
  assert (Hqb : ∀ k q, (k, q) ∈ layout b (second_rect node r) → _) by (intros; apply Hq; apply elem_of_app; by right).
  pose proof (layout_extent_pos axis a _ Ha (first_rect_ok node r Hr) (λ k q H, proj1 (Hqa k q H))) as Pa.
  pose proof (layout_extent_pos axis b _ Hb (second_rect_ok node r Hr) (λ k q H, proj1 (Hqb k q H))) as Pb.
  destruct (rects_along node axis r Hr Hd Eax) as (F0 & F1 & F2 & F3 & F4). fold f in F0, F1, F2, F3, F4.
  pose proof (shift_fits axis f delta g a _ Hax Ha (first_rect_ok node r Hr) Hqa) as Ga.
  pose proof (shift_fits axis f delta g b _ Hax Hb (second_rect_ok node r Hr) Hqb) as Gb.
  rewrite F1, F3 in Ga. rewrite F2, F4 in Gb. rewrite F1 in Pa. rewrite F2 in Pb.
  specialize (Ga ltac:(lia)). specialize (Gb ltac:(lia)).
  replace (extent_along axis r) with
    (f + delta * sign axis f (first_rect node r) + (extent_along axis r - f + delta * sign axis f (second_rect node r))).
  { by apply (fits_along _ _ node a b). }
  unfold sign. rewrite F1, F2, F3, F4. repeat case_bool_decide; lia.
Qed.

(** ** The panes next to the divider *)
Lemma last_unfold node a b :
  PaneID node = "" → Children node = [a; b] → binary b → lastPaneIDInSplit b ≠ "" →
  lastPaneIDInSplit node = lastPaneIDInSplit b.
Proof.
  destruct node; simpl. intros -> -> _ Hne. rewrite bool_decide_true by done. simpl.
  by rewrite bool_decide_false.
Qed.

(** The last pane touches the end of the rectangle, the first one its start. *)
Lemma last_touches axis node r :
  binary node → rect_ok r → lastPaneIDInSplit node ≠ "" ∧
  ∃ q, (lastPaneIDInSplit node, q) ∈ layout node r
       ∧ pos_along axis q + extent_along axis q = pos_along axis r + extent_along axis r.
Proof.
  intros Hb. revert r. induction Hb as [i Hi|n a b Hp Hc Hd Ha IHa Hb IHb]; intros r Hr.
  - assert (lastPaneIDInSplit (leaf i) = i) as -> by (simpl; by rewrite bool_decide_false).
    split; [done|]. exists r. rewrite layout_leaf by done. split; [left|done].
  - destruct (IHb (second_rect n r) (second_rect_ok n r Hr)) as (Hne & q & Hin & Eq).
    rewrite (last_unfold n a b) by done. split; [done|]. exists q.
    rewrite (layout_split n a b) by done. split; [apply elem_of_app; by right|]. rewrite Eq.
    destruct (split_rects n r Hr) as [(_ & f & _ & Hf & _ & ->)|(_ & f & _ & Hf & _ & ->)];
      unfold pos_along, extent_along; case_bool_decide; simpl; lia.
Qed.

Lemma first_touches axis node r :
  binary node → rect_ok r →
  ∃ q, (firstPaneIDInSplit node, q) ∈ layout node r ∧ pos_along axis q = pos_along axis r.
Proof.
  intros Hb. revert r. induction Hb as [i Hi|n a b Hp Hc Hd Ha IHa Hb IHb]; intros r Hr.
  - assert (firstPaneIDInSplit (leaf i) = i) as -> by (simpl; by rewrite bool_decide_false).
    exists r. rewrite layout_leaf by done. split; [left|done].
  - destruct (IHa (first_rect n r) (first_rect_ok n r Hr)) as (q & Hin & Eq).
    assert (firstPaneIDInSplit n = firstPaneIDInSplit a) as ->.
    { assert (binary n) as Bn by (by eapply binary_split).
      pose proof (firstPaneID_head n Bn) as H1. pose proof (firstPaneID_head a Ha) as H2.
      rewrite (panes_split n a b) in H1 by done. destruct (panes a); [done|]. simpl in *. congruence. }
    exists q. rewrite (layout_split n a b) by done. split; [apply elem_of_app; by left|]. rewrite Eq.
    destruct (split_rects n r Hr) as [(_ & f & _ & Hf & -> & _)|(_ & f & _ & Hf & -> & _)];
      unfold pos_along; by case_bool_decide.
Qed.

(** ** Sizes do not depend on the position *)
Definition sizes (l : list (string * Rect)) : list (string * (Z * Z)) :=
  (λ kr, (kr.1, (kr.2.(W), kr.2.(H)))) <$> l.

Lemma layout_sizes node r r' :
  binary node → rect_ok r → rect_ok r' → r.(W) = r'.(W) → r.(H) = r'.(H) →
  sizes (layout node r) = sizes (layout node r').
Proof.
  intros Hb. revert r r'. induction Hb as [i Hi|n a b Hp Hc Hd Ha IHa Hb IHb]; intros r r' Hr Hr' EW EH.
  - rewrite !layout_leaf by done. unfold sizes. simpl. by rewrite EW, EH.
  - rewrite !(layout_split n a b) by done. unfold sizes. rewrite !fmap_app. unfold sizes in IHa, IHb.
    assert (S1 : (first_rect n r).(W) = (first_rect n r').(W) ∧ (first_rect n r).(H) = (first_rect n r').(H)
      ∧ (second_rect n r).(W) = (second_rect n r').(W) ∧ (second_rect n r).(H) = (second_rect n r').(H)).
    { unfold first_rect, second_rect. rewrite EW, EH. by case_bool_decide. }
    destruct S1 as (? & ? & ? & ?). f_equal; [apply IHa|apply IHb]; auto using first_rect_ok, second_rect_ok.
Qed.

(** A pane has the same extent in the layout moved to the origin. *)
Lemma origin_extent axis s r r' k q q' :
  binary s → NoDup (panes s) → rect_ok r → rect_ok r' → r.(W) = r'.(W) → r.(H) = r'.(H) →
  (k, q) ∈ layout s r → (k, q') ∈ layout s r' → extent_along axis q = extent_along axis q'.
Proof.
  intros Hb Hn Hr Hr' EW EH Hin Hin'.
  assert (NoDup ((sizes (layout s r)).*1)) as Hnd.
  { unfold sizes. rewrite <- list_fmap_compose. change (NoDup (layout s r).*1). by rewrite layout_panes. }
  assert (E : (q.(W), q.(H)) = (q'.(W), q'.(H))); [|unfold extent_along; by injection E as -> ->].
  assert ((k, (q.(W), q.(H))) ∈ sizes (layout s r)) as H1 by by apply (list_elem_of_fmap_2 (λ kr, (kr.1, (kr.2.(W), kr.2.(H)))) _ (k, q)).
  assert ((k, (q'.(W), q'.(H))) ∈ sizes (layout s r)) as H2
    by (rewrite (layout_sizes s r r') by done; by apply (list_elem_of_fmap_2 (λ kr, (kr.1, (kr.2.(W), kr.2.(H)))) _ (k, q'))).
  apply (elem_of_list_to_map (M := gmap string)) in H1, H2; [|done..]. congruence.
Qed.

(** ** The cells a drag requests *)
Lemma group_insert_fresh items (m : gmap string PaneResizeGroupItem) k v :
  m !! k = Some v → k ∉ (it_PaneID <$> items) →
  foldl (λ out i, <[i.(it_PaneID) := i]> out) m items !! k = Some v.
Proof.
  revert m. induction items as [|i l IH]; intros m Hm Hk; simpl in *; [done|].
  apply not_elem_of_cons in Hk as [Hne Hk]. apply IH; [by rewrite lookup_insert_ne|done].
Qed.

Lemma group_lookup items item :
  NoDup (it_PaneID <$> items) → item ∈ items →
  paneResizeGroupByPane items !! item.(it_PaneID) = Some item.
Proof.
  unfold paneResizeGroupByPane. generalize (∅ : gmap string PaneResizeGroupItem) as m.
  induction items as [|i l IH]; intros m Hn Hin; simpl in *; [by apply not_elem_of_nil in Hin|].
  apply NoDup_cons in Hn as [Hi Hn]. apply elem_of_cons in Hin as [->|Hin]; [|by apply IH].
  apply group_insert_fresh; [apply lookup_insert_eq|done].
Qed.

(** The panes on both sides of the divider have a sign. *)
Lemma before_sign axis node a b r q :
  binary node → NoDup (panes node) → Children node = [a; b] → Direction node = axis → rect_ok r →
  pos_along axis r = 0 → (lastPaneIDInSplit a, q) ∈ layout node r →
  sign axis (splitFirstExtent node (extent_along axis r)) q = 1.
Proof.
  intros Hn Hd Hc Eax Hr H0 Hin. destruct (binary_children node a b Hn Hc) as (Hp & Hv & Ha & Hb).
  destruct (last_touches axis a (first_rect node r) Ha (first_rect_ok node r Hr)) as (_ & q' & Hin' & Eq).
  assert (q = q') as ->.
  { apply (layout_lookup node r) in Hin; [|done..].
    assert ((lastPaneIDInSplit a, q') ∈ layout node r) as Hin2
      by (rewrite (layout_split node a b) by done; apply elem_of_app; by left).
    apply (layout_lookup node r) in Hin2; [|done..]. congruence. }
  destruct (rects_along node axis r Hr Hv Eax) as (_ & F1 & _ & F3 & _).
  unfold sign. rewrite bool_decide_true by lia. done.
Qed.

Lemma after_sign axis node a b r q :
  binary node → NoDup (panes node) → Children node = [a; b] → Direction node = axis → rect_ok r →
  pos_along axis r = 0 → (firstPaneIDInSplit b, q) ∈ layout node r →
  sign axis (splitFirstExtent node (extent_along axis r)) q ≠ 0.
Proof.
  intros Hn Hd Hc Eax Hr H0 Hin. destruct (binary_children node a b Hn Hc) as (Hp & Hv & Ha & Hb).
  destruct (first_touches axis b (second_rect node r) Hb (second_rect_ok node r Hr)) as (q' & Hin' & Eq).
  assert (q = q') as ->.
  { apply (layout_lookup node r) in Hin; [|done..].
    assert ((firstPaneIDInSplit b, q') ∈ layout node r) as Hin2
      by (rewrite (layout_split node a b) by done; apply elem_of_app; by right).
    apply (layout_lookup node r) in Hin2; [|done..]. congruence. }
  destruct (rects_along node axis r Hr Hv Eax) as (_ & _ & _ & _ & F4).
  unfold sign. case_bool_decide; [done|]. rewrite bool_decide_true by lia. done.
Qed.

(** What [resizeGroupItems] lists for a split, and what a drag makes of it. *)
Definition group_items (axis : SplitDirection) (s : SplitNode) (r : Rect) : list PaneResizeGroupItem :=
  (λ kq, mkItem kq.1 (extent_along axis kq.2) (sign axis (splitFirstExtent s (extent_along axis r)) kq.2))
    <$> layout s r.

Lemma resize_group_items axis s rs :
  valid_direction axis → binary s → NoDup (panes s) → rect_ok (mkRect 0 0 rs.(W) rs.(H)) →
  resizeGroupItems s rs axis = Some (group_items axis s (mkRect 0 0 rs.(W) rs.(H))).
Proof.
  intros Hax Hb Hn Hr. set (r := mkRect 0 0 rs.(W) rs.(H)) in *. unfold resizeGroupItems. fold r.
  rewrite assign_layout by done. simpl. f_equal.
  replace (if bool_decide (axis = SplitVertical) then splitFirstExtent s (W rs) else splitFirstExtent s (H rs))
    with (splitFirstExtent s (extent_along axis r)) by (unfold extent_along; by case_bool_decide).
  change (paneIDsInSplitOrder s []) with (panes s). rewrite <- (layout_panes s r) by done.
  unfold group_items.
  match goal with |- map ?f ?l = _ => change (map f l) with (f <$> l) end. rewrite <- list_fmap_compose.
  apply list_fmap_ext. intros i [k q] Hi%list_elem_of_lookup_2. unfold compose. cbn [fst snd].
  apply resize_item_sign.
  - by apply layout_lookup.
  - by eapply layout_within in Hi as [? _].
Qed.

Lemma drag_item_spec drag bc ac delta k c sg item' :
  - 2 ^ 63 < delta < 2 ^ 63 → 0 ≤ c < 2 ^ 63 → sg = 1 ∨ sg = -1 ∨ sg = 0 →
  - 2 ^ 63 ≤ c + delta * sg < 2 ^ 63 →
  (sg = 0 → k ≠ drag.(drag_ResizeBeforePaneID) ∧ k ≠ drag.(drag_ResizeAfterPaneID)) → 0 < c →
  drag_item drag bc ac delta (mkItem k c sg) = Some item' →
  item'.(it_PaneID) = k ∧ item'.(it_Cells) = c + delta * sg ∧ 0 < item'.(it_Cells).
Proof.
  intros Hd Hc Hs Hcd Hk Hpos. unfold drag_item. simpl.
  destruct (decide (sg = 0)) as [->|Hne].
  - destruct (Hk eq_refl) as [K1 K2]. rewrite Z.eqb_refl. simpl. rewrite !bool_decide_false by done.
    intros [= <-]. simpl. split_and!; [done|lia..].
  - rewrite (proj2 (Z.eqb_neq _ _)) by done. simpl.
    rewrite i64_small, iadd_small by (destruct Hs as [-> |[-> | ->]]; lia).
    destruct (Z.leb_spec (c + delta * sg) 0) as [H|H]; [done|].
    intros [= <-]. simpl. split_and!; [done|lia..].
Qed.

Lemma i64_pos z : - 2 ^ 63 ≤ z < 2 ^ 64 → 0 < i64 z → 0 < z < 2 ^ 63.
Proof. unfold i64. intros H. Z.to_euclidean_division_equations. lia. Qed.

Lemma group_items_ids axis s r : binary s → it_PaneID <$> group_items axis s r = panes s.
Proof.
  intros Hb. rewrite <- (layout_panes s r) by done. unfold group_items. rewrite <- list_fmap_compose. done.
Qed.

Lemma requests_spec axis s a b r drag delta :
  binary s → NoDup (panes s) → Children s = [a; b] → Direction s = axis →
  rect_ok r → pos_along axis r = 0 → extent_along axis r < 2 ^ 62 →
  (∀ k q, (k, q) ∈ layout s r → 0 < extent_along axis q) →
  drag.(drag_ResizeGroup) = group_items axis s r →
  drag.(drag_ResizeBeforePaneID) = lastPaneIDInSplit a →
  drag.(drag_ResizeAfterPaneID) = firstPaneIDInSplit b →
  0 ≤ drag.(drag_ResizeBeforeCells) < 2 ^ 62 → 0 ≤ drag.(drag_ResizeAfterCells) < 2 ^ 62 →
  - 2 ^ 63 ≤ delta < 2 ^ 63 → mouseDragResizeGroupCells drag delta ≠ [] →
  it_PaneID <$> mouseDragResizeGroupCells drag delta = panes s ∧
  ∀ k q, (k, q) ∈ layout s r → ∃ item, item ∈ mouseDragResizeGroupCells drag delta ∧ item.(it_PaneID) = k ∧
    item.(it_Cells) = extent_along axis q + delta * sign axis (splitFirstExtent s (extent_along axis r)) q ∧
    0 < item.(it_Cells).
Proof.
  intros Hs Hn Hc Eax Hr H0 Hlt Hpos Eg Eb Ea Hbc Hac Hdelta. set (D := splitFirstExtent s (extent_along axis r)).
  unfold mouseDragResizeGroupCells. rewrite Eb, Ea, Eg.
  destruct (_ || _ || _)%bool; [done|]. destruct (_ || _)%bool eqn:Eneg; [done|].
  apply orb_false_iff in Eneg as [E1%Z.leb_gt E2%Z.leb_gt].
  apply i64_pos in E1; [|lia]. apply i64_pos in E2; [|lia].
  destruct (mapM _ _) as [items'|] eqn:Em; [|done]. intros _. simpl.
  apply mapM_Some in Em.
  assert (Hspec : Forall2 (λ i i' : PaneResizeGroupItem, i'.(it_PaneID) = i.(it_PaneID) ∧
    i'.(it_Cells) = i.(it_Cells) + delta * i.(it_DeltaSign) ∧ 0 < i'.(it_Cells)) (group_items axis s r) items').
  { eapply Forall2_impl_in; [exact Em|]. intros i i' Hin Hi.
    apply list_elem_of_fmap in Hin as ([k q] & -> & Hin). cbn [fst snd] in *.
    pose proof (Hpos k q Hin) as Hq. destruct (layout_within s r k q Hs Hr Hin) as [Hqok Hqr].
    pose proof (within_along axis q r Hqr). pose proof (extent_bounds axis q Hqok).
    fold D in Hi. refine (drag_item_spec _ _ _ _ _ _ _ _ _ _ _ _ _ _ Hi); try lia.
    - unfold sign. repeat case_bool_decide; auto.
    - unfold sign. repeat case_bool_decide; lia.
    - intros Hz. rewrite Eb, Ea. split; intros ->; revert Hz; unfold D.
      + by rewrite (before_sign axis s a b r q).
      + by apply (after_sign axis s a b r q). }
  split.
  - rewrite <- (group_items_ids axis s r) by done. symmetry.
    clear -Hspec. induction Hspec as [|i i' l l' (E & _ & _) _ IH]; [done|]. by rewrite !fmap_cons, E, IH.
  - intros k q Hin.
    destruct (Forall2_in_l _ _ _ (mkItem k (extent_along axis q) (sign axis D q)) Hspec) as (i & Hi & E & E' & E'').
    { unfold group_items. apply list_elem_of_fmap. by exists (k, q). }
    exists i. split_and!; done.
Qed.

(** ** The region of a divider, field by field *)
Definition origin_rect (rs : Rect) : Rect := mkRect 0 0 rs.(W) rs.(H).

Lemma origin_ok rs : rect_ok rs → rect_ok (origin_rect rs).
Proof. intros []. split; simpl; lia. Qed.

Lemma paneExtent_bounds split id w h axis c :
  binary split → NoDup (panes split) → 0 ≤ w < 2 ^ 62 → 0 ≤ h < 2 ^ 62 →
  paneExtent split id w h axis = Some c → 0 ≤ c < 2 ^ 62.
Proof.
  intros Hb Hn Hw Hh. unfold paneExtent. rewrite assign_layout by done. simpl. intros [= <-].
  unfold lookupRect. destruct (put_rects ∅ _ !! id) as [q|] eqn:E; simpl.
  - apply layout_lookup in E; [|done..].
    apply layout_within in E as [Hq Hqr]; [|done|split; simpl; lia].
    destruct Hq. unfold within in Hqr. simpl in Hqr. unfold extent_along. case_bool_decide; lia.
  - unfold extent_along. case_bool_decide; simpl; lia.
Qed.

(** The end of what is left of the divider inside the viewport is where the divider is. *)
Lemma intersect_origin r vp :
  0 ≤ r.(X) → 0 ≤ r.(Y) → r.(X) + 1 < 2 ^ 63 → r.(Y) + 1 < 2 ^ 63 → 0 < (intersectRect r vp).(W) → 0 < (intersectRect r vp).(H) →
  (r.(W) = 1 → (intersectRect r vp).(X) = r.(X)) ∧ (r.(H) = 1 → (intersectRect r vp).(Y) = r.(Y)).
Proof.
  intros HX HY HX1 HY1. unfold intersectRect. destruct (_ || _)%bool eqn:E; [cbn; lia|]. apply orb_false_elim in E as [E1%Z.leb_gt E2%Z.leb_gt].
  cbn. intros _ _. split; intros Ew; rewrite Ew, iadd_small in * by lia; lia.
Qed.

Record divider_facts (s a b : SplitNode) (rs : Rect) (text : string) (region : HitRegion) : Prop := {
  df_kind : region.(hr_Kind) = HitRegionPaneResize;
  df_invocation : region.(hr_Invocation) = ActionPanelResizeDrag;
  df_direction : region.(hr_Direction) =
    (if bool_decide (Direction s = SplitVertical) then "right" else "down")%string;
  df_path : region.(hr_SplitPath) = text;
  df_pane : region.(hr_PaneID) = firstPaneIDInSplit a;
  df_before : region.(hr_ResizeBeforePaneID) = lastPaneIDInSplit a;
  df_after : region.(hr_ResizeAfterPaneID) = firstPaneIDInSplit b;
  df_before_cells : 0 ≤ region.(hr_ResizeBeforeCells) < 2 ^ 62;
  df_after_cells : 0 ≤ region.(hr_ResizeAfterCells) < 2 ^ 62;
  df_group : region.(hr_ResizeGroup) = group_items (Direction s) s (origin_rect rs) }.

Lemma divider_fields s a b rs text region :
  binary s → NoDup (panes s) → Children s = [a; b] → rect_ok rs → rs.(W) < 2 ^ 62 → rs.(H) < 2 ^ 62 →
  divider_region s a b rs text = Some region → divider_facts s a b rs text region.
Proof.
  intros Hb Hn Hc Hr HW HH. destruct (binary_children s a b Hb Hc) as (Hp & Hv & Ba & Bb).
  pose proof Hn as Hn'. rewrite (panes_split s a b) in Hn' by done. apply NoDup_app in Hn' as (Na & _ & Nb).
  unfold divider_region.
  assert (Eax : (if bool_decide (Direction s = SplitVertical) then SplitVertical else SplitHorizontal) = Direction s)
    by (destruct Hv as [-> | ->]; [by rewrite bool_decide_true|by rewrite bool_decide_false]).
  rewrite Eax, (resize_group_items (Direction s) s rs Hv Hb Hn (origin_ok rs Hr)).
  pose proof (first_rect_ok s rs Hr) as R1. pose proof (second_rect_ok s rs Hr) as R2.
  pose proof (first_within s rs Hr) as W1. pose proof (second_within s rs Hr) as W2.
  destruct Hr, R1, R2. unfold within in W1, W2.
  destruct (paneExtent a _ _ _ _) as [before|] eqn:Ebef; [|done].
  destruct (paneExtent b _ _ _ _) as [after|] eqn:Eaft; [|done]. simpl. intros [= <-].
  apply paneExtent_bounds in Ebef; [|done..|lia|lia]. apply paneExtent_bounds in Eaft; [|done..|lia|lia].
  by split.
Qed.

Lemma divider_rect s a b rs text region : divider_region s a b rs text = Some region →
  region.(hr_Rect) = if bool_decide (Direction s = SplitVertical) then mkRect (second_rect s rs).(X) rs.(Y) 1 rs.(H)
                     else mkRect rs.(X) (second_rect s rs).(Y) rs.(W) 1.
Proof.
  unfold divider_region. destruct (paneExtent a _ _ _ _); [|done]. destruct (paneExtent b _ _ _ _); [|done]. destruct (resizeGroupItems _ _ _); [|done].
  cbn. by intros [= <-].
Qed.

(** * Moving the divider moves the edges on it *)

(** The rectangle with its edges at [divider] along the axis moved by [delta]. *)
Definition moved (divider delta v : Z) : Z := if bool_decide (v = divider) then v + delta else v.
Definition span (axis : SplitDirection) (lo n : Z) (r : Rect) : Rect :=
  if bool_decide (axis = SplitVertical) then mkRect lo r.(Y) n r.(H) else mkRect r.(X) lo r.(W) n.
Definition shift_rect (axis : SplitDirection) (divider delta : Z) (r : Rect) : Rect :=
  let lo := moved divider delta (pos_along axis r) in
  span axis lo (moved divider delta (pos_along axis r + extent_along axis r) - lo) r.
Definition shift_all (axis : SplitDirection) (divider delta : Z) : list (string * Rect) → list (string * Rect) :=
  fmap (λ kq, (kq.1, shift_rect axis divider delta kq.2)).

Lemma shift_pos axis D d r : pos_along axis (shift_rect axis D d r) = moved D d (pos_along axis r).
Proof. unfold shift_rect, span, pos_along. by case_bool_decide. Qed.
Lemma shift_end axis D d r :
  extent_along axis (shift_rect axis D d r) = moved D d (pos_along axis r + extent_along axis r) - moved D d (pos_along axis r).
Proof. unfold shift_rect, span, extent_along. by case_bool_decide. Qed.
Lemma shift_extent axis D d r : 0 < extent_along axis r → extent_along axis (shift_rect axis D d r) = extent_along axis r + d * sign axis D r.
Proof. intros Hp. rewrite shift_end. unfold moved, sign. repeat case_bool_decide; lia. Qed.
Lemma shift_zero axis D r : shift_rect axis D 0 r = r.
Proof.
  unfold shift_rect, moved, span, pos_along, extent_along. destruct r as [x y w h].
  repeat case_bool_decide; cbn in *; f_equal; lia.
Qed.
Lemma shift_still axis D d r : pos_along axis r ≠ D → pos_along axis r + extent_along axis r ≠ D → shift_rect axis D d r = r.
Proof.
  intros H1 H2. unfold shift_rect, moved. rewrite !bool_decide_false by done. unfold span, pos_along, extent_along. destruct r as [x y w h].
  case_bool_decide; cbn; f_equal; lia.
Qed.

(** The two rectangles of a split whose hint follows the divider. *)
Lemma shift_children axis D d s n r :
  valid_direction axis → valid_direction (Direction s) → Direction n = Direction s → rect_ok r → rect_ok (shift_rect axis D d r) →
  (Direction s = axis → splitFirstExtent n (extent_along axis (shift_rect axis D d r)) = extent_along axis (shift_rect axis D d (first_rect s r))) →
  (Direction s ≠ axis → ∀ total, splitFirstExtent n total = splitFirstExtent s total) →
  first_rect n (shift_rect axis D d r) = shift_rect axis D d (first_rect s r)
  ∧ second_rect n (shift_rect axis D d r) = shift_rect axis D d (second_rect s r).
Proof.
  intros Hax Hv Hd Hr Hr' Halong Hacross.
  assert (Haxis : ∀ x : SplitDirection, valid_direction x → bool_decide (x = SplitVertical) = false → x = SplitHorizontal)
    by (intros x [->| ->]; [by rewrite bool_decide_true|done]).
  destruct (split_rects s r Hr) as [(E & f & Ef & _ & F1 & F2)|(E & f & Ef & _ & F1 & F2)],
    (split_rects n _ Hr') as [(E' & f' & Ef' & _ & -> & ->)|(E' & f' & Ef' & _ & -> & ->)]; try (by rewrite Hd in E');
    rewrite F1, F2 in *; clear F1 F2; rewrite Ef', Ef in *; clear Ef' Ef f f'.
  all: destruct (bool_decide (axis = SplitVertical)) eqn:Eax;
    [apply bool_decide_eq_true in Eax as ->|apply Haxis in Eax as ->; [|done]].
  all: unfold shift_rect, span, pos_along, extent_along in *;
    change (bool_decide (SplitVertical = SplitVertical)) with true in *; change (bool_decide (SplitHorizontal = SplitVertical)) with false in *; cbn in *.
  - rewrite (Halong E). replace (X r + splitFirstExtent s (W r) + (W r - splitFirstExtent s (W r))) with (X r + W r) by lia. split; f_equal; lia.
  - by rewrite (Hacross ltac:(by rewrite E)).
  - by rewrite (Hacross ltac:(done)).
  - destruct Hv as [?|Hv]; [done|]. rewrite (Halong Hv).
    replace (Y r + splitFirstExtent s (H r) + (H r - splitFirstExtent s (H r))) with (Y r + H r) by lia. split; f_equal; lia.
Qed.

(** ** Trees that differ in the hints along the axis only *)
Inductive alike (axis : SplitDirection) : SplitNode → SplitNode → Prop :=
| alike_leaf id : id ≠ "" → alike axis (leaf id) (leaf id)
| alike_split s n a b a' b' :
    PaneID s = "" → Children s = [a; b] → PaneID n = "" → Children n = [a'; b'] →
    valid_direction (Direction s) → Direction n = Direction s →
    (Direction s ≠ axis → ∀ total, splitFirstExtent n total = splitFirstExtent s total) →
    alike axis a a' → alike axis b b' → alike axis s n.

Lemma alike_refl axis s : binary s → alike axis s s.
Proof. induction 1; [by constructor|by eapply alike_split]. Qed.

Lemma alike_kept axis s n : alike axis s n → kept s n.
Proof.
  induction 1 as [id Hid|s n a b a' b' Hp Hc Hp' Hc' Hv Hd _ _ IHa _ IHb]; [by apply kept_refl, binary_leaf|].
  by apply (kept_split s n a b a' b').
Qed.

Lemma fits_children axis g node a b m : fits axis g node m → Children node = [a; b] →
  (Direction node = axis ∧ ∃ m1 m2, m = m1 + m2 ∧ fits axis g a m1 ∧ fits axis g b m2)
  ∨ (Direction node ≠ axis ∧ fits axis g a m ∧ fits axis g b m).
Proof.
  destruct 1 as [id item|n x y m1 m2 _ Hc _ Hd Ha Hb|n x y m _ Hc _ Hd Ha Hb]; intros E; [done|..]; rewrite Hc in E; injection E as <- <-; eauto 10.
Qed.

Lemma alike_fits axis g s n m : alike axis s n → fits axis g s m → fits axis g n m.
Proof.
  intros Ha. revert m. induction Ha as [id Hid|s n a b a' b' Hp Hc Hp' Hc' Hv Hd _ _ IHa _ IHb]; intros m Hf; [done|].
  destruct (fits_children axis g s a b m Hf Hc) as [(Eax & m1 & m2 & -> & Fa & Fb)|(Nax & Fa & Fb)].
  - apply (fits_along _ _ n a' b'); rewrite ?Hd; auto.
  - apply (fits_across _ _ n a' b'); rewrite ?Hd; auto.
Qed.

Lemma alike_apply axis g s n m : alike axis s n → fits axis g n m → alike axis s (applyPaneResizeGroupNode n axis g).1.
Proof.
  intros Ha. revert m. induction Ha as [id Hid|s n a b a' b' Hp Hc Hp' Hc' Hv Hd Hacross Haa IHa Hbb IHb]; intros m Hf.
  { rewrite apply_leaf by done. by constructor. }
  assert (∃ m1 m2, fits axis g a' m1 ∧ fits axis g b' m2) as (m1 & m2 & Fa & Fb) 
    by (destruct (fits_children axis g n a' b' m Hf Hc') as [(_ & ? & ? & _ & ? & ?)|(_ & ? & ?)]; eauto).
  rewrite (apply_fits n a' b' axis g m1 m2) by done. cbn [fst].
  set (a'' := (applyPaneResizeGroupNode a' axis g).1). set (b'' := (applyPaneResizeGroupNode b' axis g).1).
  destruct (group_hint_shape (n <| Children := [a''; b''] |>) axis g) as (E1 & E2 & E3).
  apply (alike_split axis s _ a b a'' b''); rewrite ?E1, ?E2, ?E3; try done; [|by eapply IHa|by eapply IHb].
  intros Hne total. rewrite <- Hacross by done.
  assert (group_hint (n <| Children := [a''; b''] |>) axis g = n <| Children := [a''; b''] |>) as ->.
  { unfold group_hint. cbn [Children]. change (Direction (n <| Children := [a''; b''] |>)) with (Direction n). rewrite Hd. by rewrite bool_decide_false. }
  apply (first_extent_kept n a' b'); try done; try by eapply fits_binary. all: apply apply_kept; by eapply fits_binary.
Qed.

(** Applying the requests of a moved divider moves the edges on it, and no others. *)
Lemma shift_layout axis D d g s n r :
  valid_direction axis → alike axis s n → rect_ok r → rect_ok (shift_rect axis D d r) →
  (∀ k q, (k, q) ∈ layout s r → 0 < extent_along axis q ∧
     ∃ item, g !! k = Some item ∧ item.(it_Cells) = extent_along axis q + d * sign axis D q ∧ 0 < item.(it_Cells)) →
  pos_along axis r + extent_along axis r ≤ D ∨ D ≤ pos_along axis r
    ∨ Direction s = axis ∧ D = pos_along axis r + splitFirstExtent s (extent_along axis r) →
  layout (applyPaneResizeGroupNode n axis g).1 (shift_rect axis D d r) = shift_all axis D d (layout s r).
Proof.
  intros Hax Ha. revert r. induction Ha as [id Hid|s n a b a' b' Hp Hc Hp' Hc' Hv Hd Hacross Haa IHa Hbb IHb]; intros r Hr Hr' Hq Hside.
  { rewrite apply_leaf by done. cbn [fst]. by rewrite !layout_leaf. }
  destruct (alike_kept _ _ _ Haa) as [Ba' Pa'], (alike_kept _ _ _ Hbb) as [Bb' Pb'].
  assert (Ba : binary a ∧ binary b).
  { clear -Haa Hbb. split; [clear Hbb; induction Haa|clear Haa; induction Hbb]; (by constructor) || (by eapply binary_split). }
  destruct Ba as [Ba Bb]. rewrite (layout_split s a b) in Hq |- * by done.
  assert (Hqa : ∀ k q, (k, q) ∈ layout a (first_rect s r) → _) by (intros; apply Hq; apply elem_of_app; by left).
  assert (Hqb : ∀ k q, (k, q) ∈ layout b (second_rect s r) → _) by (intros; apply Hq; apply elem_of_app; by right).
  pose proof (layout_extent_pos axis a _ Ba (first_rect_ok s r Hr) (λ k q H, proj1 (Hqa k q H))) as Pea.
  pose proof (layout_extent_pos axis b _ Bb (second_rect_ok s r Hr) (λ k q H, proj1 (Hqb k q H))) as Peb.
  assert (Hsides : (pos_along axis (first_rect s r) + extent_along axis (first_rect s r) ≤ D ∨ D ≤ pos_along axis (first_rect s r))
    ∧ (pos_along axis (second_rect s r) + extent_along axis (second_rect s r) ≤ D ∨ D ≤ pos_along axis (second_rect s r))).
  { destruct (decide (Direction s = axis)) as [Eax|Nax].
    - destruct (rects_along s axis r Hr Hv Eax) as (F0 & F1 & F2 & F3 & F4). rewrite F1, F2, F3, F4. lia.
    - destruct (rects_across s axis r Hr Hv Hax Nax) as (-> & -> & -> & ->). destruct Hside as [?|[?|[? _]]]; [lia..|done]. }
  destruct Hsides as [Sa Sb].
  pose proof (shift_fits axis D d g a _ Hax Ba (first_rect_ok s r Hr) Hqa Sa) as Fa. rewrite <- shift_extent in Fa by done.
  pose proof (shift_fits axis D d g b _ Hax Bb (second_rect_ok s r Hr) Hqb Sb) as Fb. rewrite <- shift_extent in Fb by done.
  pose proof (alike_fits _ _ _ _ _ Haa Fa) as Fa'. pose proof (alike_fits _ _ _ _ _ Hbb Fb) as Fb'.
  rewrite (apply_fits n a' b' axis g _ _ Hp' Hc' Fa' Fb'). cbn [fst].
  set (a'' := (applyPaneResizeGroupNode a' axis g).1) in *. set (b'' := (applyPaneResizeGroupNode b' axis g).1) in *.
  set (N := group_hint (n <| Children := [a''; b''] |>) axis g).
  destruct (group_hint_shape (n <| Children := [a''; b''] |>) axis g) as (E1 & E2 & E3). fold N in E1, E2, E3.
  assert (EN : Direction s ≠ axis → N = n <| Children := [a''; b''] |>).
  { intros Hne. unfold N, group_hint. cbn [Children]. change (Direction (n <| Children := [a''; b''] |>)) with (Direction n). rewrite Hd. by rewrite bool_decide_false. }
  destruct (shift_children axis D d s N r) as [R1 R2]; try done; [by rewrite E2| | |].
  - intros Eax. destruct (rects_along s axis r Hr Hv Eax) as (F0 & F1 & F2 & F3 & F4).
    assert (Esum : extent_along axis (shift_rect axis D d r) = extent_along axis (shift_rect axis D d (first_rect s r)) + extent_along axis (shift_rect axis D d (second_rect s r))).
    { rewrite !shift_end, F1, F2, F3, F4.
      replace (pos_along axis r + splitFirstExtent s (extent_along axis r) + (extent_along axis r - splitFirstExtent s (extent_along axis r)))
        with (pos_along axis r + extent_along axis r) by lia. lia. }
    rewrite Esum. pose proof (extent_bounds axis _ Hr') as Hb.
    apply (hint_extent _ a'' b''); try done; [by rewrite <- Hd in Hv|by rewrite <- Hd in Eax|by apply fits_apply..|lia].
  - intros Hne total. rewrite (EN Hne), <- Hacross by done.
    apply (first_extent_kept n a' b'); try done; by apply apply_kept.
  - rewrite (layout_split N a'' b''), R1, R2 by (by rewrite ?E1, ?E3). unfold shift_all. rewrite fmap_app. f_equal.
    + apply IHa; try done; [by apply first_rect_ok|rewrite <- R1; by apply first_rect_ok|tauto].
    + apply IHb; try done; [by apply second_rect_ok|rewrite <- R2; by apply second_rect_ok|tauto].
Qed.

(** ** The layout of a split, moved from the origin *)
Definition move_rect (x y : Z) (r : Rect) : Rect := mkRect (r.(X) + x) (r.(Y) + y) r.(W) r.(H).

Lemma layout_move s x y r : binary s → rect_ok r → rect_ok (move_rect x y r) →
  layout s (move_rect x y r) = (λ kq, (kq.1, move_rect x y kq.2)) <$> layout s r.
Proof.
  intros Hb. revert r. induction Hb as [i Hi|n a b Hp Hc Hd Ha IHa Hb IHb]; intros r Hr Hr'; [by rewrite !layout_leaf|].
  rewrite !(layout_split n a b), fmap_app by done.
  assert (E : first_rect n (move_rect x y r) = move_rect x y (first_rect n r) ∧ second_rect n (move_rect x y r) = move_rect x y (second_rect n r)).
  { destruct (split_rects n r Hr) as [(E & f & Ef & _ & -> & ->)|(E & f & Ef & _ & -> & ->)],
      (split_rects n _ Hr') as [(E' & f' & Ef' & _ & -> & ->)|(E' & f' & Ef' & _ & -> & ->)]; try done;
      cbn in Ef'; rewrite <- Ef in Ef'; subst f'; unfold move_rect; cbn; split; f_equal; lia. }
  destruct E as [E1 E2]. rewrite E1, E2. f_equal; [apply IHa|apply IHb];
    rewrite <- ?E1, <- ?E2; by apply first_rect_ok || by apply second_rect_ok.
Qed.

Lemma origin_move rs : rs = move_rect rs.(X) rs.(Y) (origin_rect rs).
Proof. by destruct rs. Qed.
Lemma move_extent axis x y q : extent_along axis (move_rect x y q) = extent_along axis q.
Proof. unfold extent_along. by case_bool_decide. Qed.
Lemma move_sign axis rs f q : sign axis (pos_along axis rs + f) (move_rect rs.(X) rs.(Y) q) = sign axis f q.
Proof. unfold sign, pos_along, extent_along. destruct (bool_decide (axis = SplitVertical)); cbn; repeat case_bool_decide; lia. Qed.

(** ** Replacing the subtree at a path again *)
Lemma put_same node rect p s rs : at_path node rect p s rs → put node p s = node.
Proof.
  induction 1 as [|n a b r p s rs _ Hc _ IH|n a b r p s rs _ Hc _ IH]; [done|..]; cbn [put]; rewrite Hc, IH; destruct n; cbn in *; by subst.
Qed.
Lemma put_put node rect p s rs s1 s2 : at_path node rect p s rs → put (put node p s1) p s2 = put node p s2.
Proof.
  induction 1 as [|n a b r p s rs _ Hc _ IH|n a b r p s rs _ Hc _ IH]; [by destruct s1|..]; cbn [put]; rewrite Hc; destruct n; cbn in *; subst; by rewrite IH.
Qed.
Lemma at_path_put node rect p s rs s' : binary node → at_path node rect p s rs → kept s s' → at_path (put node p s') rect p s' rs.
Proof.
  intros Hb Ha Hk. induction Ha as [n r|n a b r p s rs Hp Hc Ha IH|n a b r p s rs Hp Hc Ha IH]; [constructor|..];
    destruct (binary_children n a b Hb Hc) as (_ & Hd & Ba & Bb); cbn [put]; rewrite Hc.
  - destruct (kept_rects n a b (put a p s') b r) as [R1 _]; auto using kept_refl; [by eapply put_kept|].
    apply (at_first _ (put a p s') b); [done|done|]. rewrite R1. by apply IH.
  - destruct (kept_rects n a b a (put b p s') r) as [_ R2]; auto using kept_refl; [by eapply put_kept|].
    apply (at_second _ a (put b p s')); [done|done|]. rewrite R2. by apply IH.
Qed.
