(* ===== verification/SplitTheorems.v ===== *)
(** * Theorems on the pane split tree, its layout and the drag of its dividers *)
From S2P Require Import Prelude SplitTree SplitLayout SplitFacts SplitLayoutFacts SplitGroupFacts SplitDragFacts.
Local Open Scope Z_scope.

(** ** Splitting and closing *)

Lemma split_pane_cons t new x l :
  mjoin (split_pane t new <$> x :: l) = split_pane t new x ++ mjoin (split_pane t new <$> l).
Proof. done. Qed.

Lemma split_segment t new l :
  NoDup l → t ∈ l → ∃ l1 l2, l = l1 ++ t :: l2 ∧ mjoin (split_pane t new <$> l) = l1 ++ t :: new :: l2.
Proof.
  intros Hn Ht. apply list_elem_of_split in Ht as (l1 & l2 & ->). exists l1, l2. split; [done|].
  apply NoDup_app in Hn as (_ & Hd & Hn2). apply NoDup_cons in Hn2 as [Ht2 _].
  assert (Hid : ∀ l, t ∉ l → mjoin (split_pane t new <$> l) = l).
  { clear. induction l as [|x l IH]; intros Hl; [done|]. apply not_elem_of_cons in Hl as [Hx Hl].
    rewrite split_pane_cons, IH by done. unfold split_pane. by rewrite decide_False by done. }
  rewrite fmap_app, join_app, split_pane_cons. rewrite !Hid; [|done|].
  - unfold split_pane. by rewrite decide_True.
  - intros Hin. apply (Hd t Hin). left.
Qed.

(** Splitting a pane puts the new pane right after it and nothing else moves; closing
    the new pane at once gives back the very tree, hints included. *)
Theorem split_then_close node t new d :
  binary node → NoDup (panes node) → t ∈ panes node → new ≠ "" → new ∉ panes node → valid_direction d →
  (∃ l1 l2, panes node = l1 ++ t :: l2 ∧ panes (insertSplitNode node t new d) = l1 ++ t :: new :: l2)
  ∧ binary (insertSplitNode node t new d) ∧ NoDup (panes (insertSplitNode node t new d))
  ∧ removePaneFromSplit (insertSplitNode node t new d) new = (node, true).
Proof.
  intros Hb Hn Ht Hnew Hfresh Hd. assert (Htne : t ≠ "") by by apply (binary_pane_nonempty node).
  destruct (insert_spec node t new d Hb Htne Hnew Hd) as [Hb' Hp].
  destruct (split_segment t new (panes node) Hn Ht) as (l1 & l2 & E1 & E2). rewrite Hp, E2.
  split_and!; [eauto|done| |].
  - rewrite E1 in Hn, Hfresh. apply NoDup_app in Hn as (N1 & N2 & N3). apply NoDup_cons in N3 as [N4 N5].
    rewrite elem_of_app, elem_of_cons in Hfresh.
    apply NoDup_app. split_and!; [done| |repeat (apply NoDup_cons; split); set_solver].
    intros x Hx. specialize (N2 x Hx). set_solver.
  - apply remove_insert; try done. intros ->. done.
Qed.

(** Closing a pane that is not the only one takes exactly that pane out of the order;
    closing the only pane is refused. *)
Theorem close_pane_exact node id :
  binary node → NoDup (panes node) → id ∈ panes node →
  if bool_decide (panes node = [id]) then (removePaneFromSplit node id).2 = false
  else ∃ node' l1 l2, removePaneFromSplit node id = (node', true) ∧ binary node'
       ∧ panes node = l1 ++ id :: l2 ∧ panes node' = l1 ++ l2.
Proof.
  intros Hb Hn Hid. apply list_elem_of_split in Hid as (l1 & l2 & E). rewrite E in Hn.
  apply NoDup_app in Hn as (N1 & N2 & N3). apply NoDup_cons in N3 as [N4 N5].
  assert (Hf : filter (λ p, p ≠ id) (panes node) = l1 ++ l2).
  { rewrite E, filter_app, filter_cons, decide_False by tauto.
    f_equal; apply list_filter_all; intros x Hx ->; [by apply (N2 id Hx); left|done]. }
  destruct (remove_spec node id Hb) as [Hk Hs]. rewrite Hf in Hk, Hs.
  destruct (decide (panes node = [id])) as [Honly|Honly];
    [rewrite (bool_decide_true (panes node = [id])) by done|rewrite (bool_decide_false (panes node = [id])) by done].
  - rewrite Hk. apply bool_decide_false. rewrite E in Honly.
    assert (l1 ++ l2 = []) as ->; [|by intros []]. by destruct l1 as [|x [|y l1]]; simplify_eq/=.
  - rewrite bool_decide_true in Hk.
    + destruct (Hs Hk) as [Hb' Hp']. destruct (removePaneFromSplit node id) as [node' []]; [|done]. eauto 10.
    + intros El. apply app_eq_nil in El as [-> ->]. by rewrite E in Honly.
Qed.

(** C40: no resize, whatever the keyboard or the mouse sends, no size command and no
    balance moves, adds or drops a pane: they only change size hints. *)
Theorem hints_keep_panes root command :
  binary root →
  (binary (ApplyResize root command) ∧ panes (ApplyResize root command) = panes root)
  ∧ (binary (setSplitNodeSize root command).1 ∧ panes (setSplitNodeSize root command).1 = panes root)
  ∧ (binary (balanceSplitNode root) ∧ panes (balanceSplitNode root) = panes root).
Proof. intros Hb. split_and!; first [by apply apply_resize_kept|by apply size_kept|by apply balance_kept]. Qed.

(** ** Layout *)

(** A pane that is left without columns or rows. *)
Definition squeezed (r : Rect) : bool := (r.(W) =? 0) || (r.(H) =? 0).
Definition pane_rect (body r : Rect) : Rect := if squeezed r then body else r.

Lemma fill_lookup body panels m k :
  (∀ p, p ∈ panels → is_Some (m !! p.(panel_ID))) →
  foldl (fill body) m panels !! k = if decide (k ∈ (panel_ID <$> panels)) then pane_rect body <$> m !! k else m !! k.
Proof.
  revert m. induction panels as [|p panels IH]; intros m Hm; [by rewrite decide_False by apply not_elem_of_nil|].
  destruct (Hm p) as [q Hq]; [by left|]. cbn [foldl].
  assert (Ef : ∀ k, fill body m p !! k = if decide (k = p.(panel_ID)) then pane_rect body <$> m !! k else m !! k).
  { intros k'. unfold fill, lookupRect. rewrite Hq. unfold pane_rect. change (default zeroRect (Some q)) with q. fold (squeezed q).
    destruct (decide (k' = panel_ID p)) as [->|Hne].
    - rewrite Hq. cbn. destruct (squeezed q); [by rewrite lookup_insert_eq|done].
    - destruct (squeezed q); [by rewrite lookup_insert_ne|done]. }
  rewrite IH, !Ef.
  - rewrite fmap_cons. destruct (decide (k = panel_ID p)) as [->|Hne].
    + rewrite (decide_True (P := _ ∈ _ :: _)) by left. rewrite Hq. cbn [fmap option_fmap option_map]. case_decide; [|done].
      f_equal. unfold pane_rect. destruct (squeezed q) eqn:Eq; [by destruct (squeezed body)|by rewrite Eq].
    + destruct (decide (k ∈ (panel_ID <$> panels))) as [Hin|Hin]; [by rewrite decide_True by (by right)|].
      rewrite decide_False; [done|]. by intros [?|?]%elem_of_cons.
  - intros p' Hp'. rewrite Ef. destruct (Hm p') as [q' Hq']; [by right|]. rewrite Hq'. destruct (decide (panel_ID p' = panel_ID p)); by eexists.
Qed.

(** What [splitPanelRects] makes of the rectangles of the tree. *)
Lemma panel_rects layout body :
  binary layout.(Split) → NoDup (panes layout.(Split)) → panel_ID <$> layout.(Panels) ≡ₚ panes layout.(Split) →
  ∃ rects, assignSplitRects layout.(Split) body ∅ = Some rects ∧ splitPanelRects layout body = Some (pane_rect body <$> rects)
    ∧ (∀ id, is_Some (rects !! id) ↔ id ∈ panes layout.(Split)).
Proof.
  intros Hb Hn Hp. rewrite (assign_layout _ body ∅ Hb). eexists. split; [done|].
  assert (Hdom : ∀ id, is_Some (put_rects ∅ (SplitLayoutFacts.layout (Split layout) body) !! id) ↔ id ∈ panes (Split layout)).
  { intros id. rewrite <- (layout_panes _ body), list_elem_of_fmap by done. split.
    + intros [r Hid%layout_lookup]; [|done..]. by exists (id, r).
    + intros ([k r] & -> & Hin). exists r. by apply layout_lookup. }
  split; [|done]. unfold splitPanelRects. destruct (_ || _) eqn:Eone.
  - f_equal. assert (∃ i p, Split layout = leaf i ∧ i ≠ "" ∧ layout.(Panels) = [p] ∧ p.(panel_ID) = i) as (i & p & -> & Hi & -> & Ei).
    { pose proof (Permutation_length Hp) as El. rewrite length_fmap in El. destruct Hb as [i Hi|n a b Hpn Hc Hd Ha Hb'].
      - rewrite panes_leaf in Hp, El by done. destruct layout.(Panels) as [|p [|]]; [done| |done]. exists i, p. split_and!; try done.
        by apply Permutation_singleton_r in Hp as [= ->].
      - exfalso. rewrite Hc in Eone. cbn [zero_len] in Eone. apply orb_true_iff in Eone as [Eone%Z.eqb_eq|]; [|done].
        rewrite (panes_split n a b), length_app in El by done. pose proof (binary_panes_nonnil a [] [] Ha) as Na. pose proof (binary_panes_nonnil b [] [] Hb') as Nb.
        rewrite app_nil_r in Na, Nb. unfold len in Eone. destruct (panes a), (panes b); cbn in *; (done || lia). }
    rewrite layout_leaf by done. cbn. rewrite Ei, fmap_insert, fmap_empty. unfold pane_rect. by destruct (squeezed body).
  - rewrite (assign_layout _ body ∅ Hb). cbn [mbind option_bind]. f_equal. apply map_eq. intros k.
    rewrite fill_lookup, lookup_fmap.
    + destruct (decide _) as [|Hout]; [done|]. destruct (put_rects _ _ !! k) eqn:Ek; [|done]. destruct Hout. rewrite Hp. by apply Hdom.
    + intros p' Hin. apply Hdom. rewrite <- Hp. by apply list_elem_of_fmap_2.
Qed.

(** C31: the layout of the panes never panics and tiles the body. The panels of a tree the commands built are laid out
    each with one rectangle inside the body, that of its place in the tree; a panel whose place has no column or no row
    gets the whole body instead. Every cell of the body belongs to exactly one panel of the others: two panels share a
    cell only when one of them was squeezed so, and when none was, the tiling is exact. *)
Theorem layout_tiles_body layout body :
  binary layout.(Split) → NoDup (panes layout.(Split)) → panel_ID <$> layout.(Panels) ≡ₚ panes layout.(Split) → rect_ok body →
  ∃ places rects, assignSplitRects layout.(Split) body ∅ = Some places ∧ splitPanelRects layout body = Some rects
    ∧ (∀ id, is_Some (rects !! id) ↔ id ∈ panes layout.(Split))
    ∧ (∀ id r, rects !! id = Some r → (rect_ok r ∧ within r body) ∧ ∃ q, places !! id = Some q ∧ r = if squeezed q then body else q)
    ∧ (∀ x y, inside body x y → ∃ id r, (places !! id = Some r ∧ squeezed r = false ∧ rects !! id = Some r ∧ inside r x y)
        ∧ ∀ id' r', rects !! id' = Some r' → inside r' x y → id' = id ∨ ∃ q, places !! id' = Some q ∧ squeezed q = true)
    ∧ ((∀ id q, places !! id = Some q → squeezed q = false) →
       ∀ x y, inside body x y → ∃ id r, (rects !! id = Some r ∧ inside r x y) ∧ ∀ id' r', rects !! id' = Some r' → inside r' x y → id' = id ∧ r' = r).
Proof.
  intros Hb Hn Hp Hr. destruct (panel_rects layout body Hb Hn Hp) as (places & Ep & Er & Hdom). exists places, (pane_rect body <$> places).
  rewrite (assign_layout _ body ∅ Hb) in Ep. assert (Elook : ∀ k r, places !! k = Some r ↔ (k, r) ∈ SplitLayoutFacts.layout (Split layout) body).
  { intros k r. injection Ep as <-. by apply layout_lookup. }
  assert (Htile : ∀ x y, inside body x y → ∃ id r, (places !! id = Some r ∧ squeezed r = false ∧ (pane_rect body <$> places) !! id = Some r ∧ inside r x y)
    ∧ ∀ id' r', (pane_rect body <$> places) !! id' = Some r' → inside r' x y → id' = id ∨ ∃ q, places !! id' = Some q ∧ squeezed q = true).
  { intros x y Hxy. pose proof (layout_count _ body x y Hb Hr) as Hc. rewrite decide_True in Hc by done.
    destruct (filter_one _ _ Hc) as ([id r] & [Hin Hi] & Huniq). apply Elook in Hin. exists id, r.
    assert (Hsq : squeezed r = false) by (destruct Hi as [??]; cbn in *; unfold squeezed; apply orb_false_intro; apply Z.eqb_neq; lia).
    split; [rewrite lookup_fmap, Hin; cbn; unfold pane_rect; by rewrite Hsq|]. intros id' r' Hid' Hi'. rewrite lookup_fmap in Hid'.
    destruct (places !! id') as [q|] eqn:Eq; [|done]. injection Hid' as <-. unfold pane_rect in Hi'. destruct (squeezed q) eqn:Es; [right; by exists q|left].
    apply Elook in Eq. by specialize (Huniq (id', q) Eq Hi') as [= -> _]. }
  rewrite (assign_layout _ body ∅ Hb). split_and!; [done|done| | |done|].
  - intros id. rewrite lookup_fmap, fmap_is_Some. apply Hdom.
  - intros id r Hid. rewrite lookup_fmap in Hid. destruct (places !! id) as [q|] eqn:Eq; [|done]. injection Hid as <-. split; [|by exists q].
    unfold pane_rect. destruct (squeezed q); [split; [done|unfold within; lia]|]. apply Elook in Eq. by eapply layout_within.
  - intros Hno x y Hxy. destruct (Htile x y Hxy) as (id & r & (Hid & _ & Hrid & Hi) & Huniq). exists id, r. split; [done|]. intros id' r' Hid' Hi'.
    destruct (Huniq id' r' Hid' Hi') as [->|(q & Hq & Hs)]; [|by rewrite (Hno _ _ Hq) in Hs]. split; [done|]. congruence.
Qed.

(** ** Dividers *)

Lemma subtree_facts root body p s rs :
  binary root → NoDup (panes root) → rect_ok body → body.(W) < 2 ^ 62 → body.(H) < 2 ^ 62 →
  at_path root body p s rs → binary s ∧ NoDup (panes s) ∧ rect_ok rs ∧ rs.(W) < 2 ^ 62 ∧ rs.(H) < 2 ^ 62.
Proof.
  intros Hb Hn Hr HW HH Hat. pose proof (at_path_ok _ _ _ _ _ Hr Hat) as Rs.
  pose proof (at_path_within _ _ _ _ _ Hr Hat) as Ws. destruct (at_path_panes _ _ _ _ _ Hat) as (l1 & l2 & E).
  rewrite E in Hn. apply NoDup_app in Hn as (_ & _ & (? & _)%NoDup_app).
  split_and!; try done; [by eapply at_path_binary|..]; destruct Hr, Rs; unfold within in Ws; lia.
Qed.

(** The divider regions of a layout are produced without a panic, and the path a region
    carries is the text of the path of its split: a mouse resize with that path changes the
    bias of that split by the step and touches nothing else. *)
Theorem divider_path_resizes_its_split root body viewport regions region delta :
  binary root → NoDup (panes root) → rect_ok body → body.(W) < 2 ^ 62 → body.(H) < 2 ^ 62 →
  appendSplitResizeHitRegions [] root body viewport rootSplitPath = Some regions → region ∈ regions → delta ≠ 0 →
  ∃ p s rs, at_path root body p s rs ∧ parseSplitPath region.(hr_SplitPath) = Some p
    ∧ ResizeSplitPath root region.(hr_SplitPath) region.(hr_Direction) delta
      = put root p (no_hint (s <| BiasCells := iadd (BiasCells s) delta |>)).
Proof.
  intros Hb Hn Hr HW HH Hregs Hin Hd0.
  destruct (regions_spec root body viewport [] [] Hb) as (added & Ha & Hall).
  change (path_text []) with rootSplitPath in Ha. rewrite Ha in Hregs. injection Hregs as <-.
  rewrite Forall_forall in Hall. destruct (Hall _ Hin) as (p & s & rs & a & b & r0 & Hat & Hp & Hc & _ & _ & Hdiv & -> & _).
  destruct (subtree_facts root body p s rs) as (Bs & Ns & Rs & RW & RH); [done..|].
  pose proof (divider_fields s a b rs (path_text ([] ++ p)) r0 Bs Ns Hc Rs RW RH Hdiv) as Hdf.
  cbn [app] in Hdf. destruct Hdf as [_ _ Hdir Hpath _ _ _ _ _ _].
  exists p, s, rs. cbn. rewrite Hpath.
  rewrite parse_path_text by (by eapply at_path_binary_path). split_and!; [done..|].
  unfold ResizeSplitPath. rewrite (proj2 (Z.eqb_neq _ _) Hd0), parse_path_text by (by eapply at_path_binary_path).
  rewrite (resize_at_path root body p s rs _ _ a b); [done..|].
  rewrite Hdir. destruct (binary_children s a b Bs Hc) as (_ & [-> | ->] & _); [by rewrite bool_decide_true|].
  by rewrite bool_decide_false.
Qed.

(** The state of a drag that starts on a region, and the command of its first step. *)
Lemma drag_start s a b rs text region col row drag :
  divider_facts s a b rs text region → valid_direction (Direction s) →
  paneResizeDragState region col row = Some drag →
  drag.(drag_ResizeGroup) = (if len region.(hr_ResizeGroup) <? 3 then [] else region.(hr_ResizeGroup))
  ∧ drag.(drag_ResizeBeforePaneID) = lastPaneIDInSplit a
  ∧ drag.(drag_ResizeAfterPaneID) = firstPaneIDInSplit b
  ∧ drag.(drag_ResizeBeforeCells) = region.(hr_ResizeBeforeCells)
  ∧ drag.(drag_ResizeAfterCells) = region.(hr_ResizeAfterCells)
  ∧ splitDirectionForResize drag.(drag_Direction) = Some (Direction s).
Proof.
  intros [Hk Hi Hd Hp Hpane Hb Ha _ _ _] Hv. unfold paneResizeDragState.
  rewrite Hk, Hi, !bool_decide_true by done. cbn [negb orb].
  unfold paneResizeDirectionFromHitRegion. rewrite Hd.
  destruct (bool_decide (hr_PaneID region = "")); [by repeat case_match|].
  destruct Hv as [-> | ->]; [rewrite (bool_decide_true (SplitDirectionVertical = SplitVertical)) by done
    |rewrite (bool_decide_false (SplitDirectionHorizontal = SplitVertical)) by done];
    vm_compute bool_decide; cbn [orb]; intros [= <-]; cbn; rewrite Hb, Ha; done.
Qed.

Lemma drag_delta_bounds drag col row : - 2 ^ 63 ≤ mouseDragResizeDelta drag col row < 2 ^ 63.
Proof.
  assert (Hi : ∀ z, - 2 ^ 63 ≤ i64 z < 2 ^ 63)
    by (intros z; unfold i64; pose proof (Z.mod_pos_bound (z + 2 ^ 63) (2 ^ 64)); lia).
  unfold mouseDragResizeDelta. repeat case_match; try apply Hi; lia.
Qed.

(** A requested group that is not empty is valid and has at least two panes. *)
Lemma group_accepted root direction axis items root' :
  splitDirectionForResize direction = Some axis → 2 ≤ len items →
  Forall (λ i, i.(it_PaneID) ≠ "" ∧ 0 < i.(it_Cells)) items →
  resizePaneGroupNode root axis items = (root', true) → ResizePaneGroup root direction items = root'.
Proof.
  intros Hd Hl Hv Hr. unfold ResizePaneGroup. rewrite (proj2 (Z.ltb_ge _ _)), Hd by lia.
  assert (validPaneResizeGroup items = true) as ->; [|by rewrite Hr].
  apply forallb_forall. intros i Hi. rewrite Forall_forall in Hv.
  destruct (Hv i) as [H1 H2]; [by apply list_elem_of_In|]. rewrite bool_decide_false by done.
  cbn [orb]. by rewrite (proj2 (Z.leb_gt _ _)).
Qed.

Lemma zero_len_cons {A} (l : list A) : l ≠ [] → zero_len l = false.
Proof. by destruct l. Qed.

(** What a drag requests when the mouse is at [delta]: cells for exactly the panes of the split, that fit its extent with
    the divider moved. *)
Lemma drag_requests s a b rs text region col row drag delta :
  binary s → NoDup (panes s) → rect_ok rs → rs.(W) < 2 ^ 62 → rs.(H) < 2 ^ 62 →
  Children s = [a; b] → divider_facts s a b rs text region →
  (∀ k q, (k, q) ∈ layout s (origin_rect rs) → 0 < extent_along (Direction s) q) →
  paneResizeDragState region col row = Some drag → - 2 ^ 63 ≤ delta < 2 ^ 63 →
  let items := mouseDragResizeGroupCells drag delta in items ≠ [] →
  let g := paneResizeGroupByPane items in
  let r := origin_rect rs in
  (it_PaneID <$> items = panes s ∧ 2 ≤ len (panes s))
  ∧ (∀ k q, (k, q) ∈ layout s r → ∃ item, g !! k = Some item ∧
      item.(it_Cells) = extent_along (Direction s) q + delta * sign (Direction s) (splitFirstExtent s (extent_along (Direction s) r)) q
      ∧ 0 < item.(it_Cells))
  ∧ fits (Direction s) g s (extent_along (Direction s) rs).
Proof.
  intros Bs Ns Rs RW RH Hc Hdf Hpos Hdrag Hdelta items Hne g r.
  destruct (binary_children s a b Bs Hc) as (_ & Hv & _ & _).
  destruct (drag_start s a b rs text region col row drag Hdf Hv Hdrag) as (Eg & Eb & Ea & Ebc & Eac & Edir).
  destruct Hdf as [_ _ _ _ _ _ _ Hbc Hac Hgroup].
  assert (Hlen : drag.(drag_ResizeGroup) = region.(hr_ResizeGroup) ∧ 2 ≤ len region.(hr_ResizeGroup)).
  { rewrite Eg. destruct (Z.ltb_spec (len region.(hr_ResizeGroup)) 3) as [El|El]; [|split; [done|lia]].
    unfold items, mouseDragResizeGroupCells in Hne. by rewrite Eg in Hne. }
  destruct Hlen as [Edg Hlen].
  assert (Hext : extent_along (Direction s) r < 2 ^ 62) by (unfold extent_along; case_bool_decide; simpl; lia).
  destruct (requests_spec (Direction s) s a b r drag delta) as [Hids Hitems];
    rewrite ?Ebc, ?Eac; try done; [by apply origin_ok|unfold pos_along; by case_bool_decide|by rewrite Edg|].
  fold items in Hids, Hitems.
  assert (Hin : ∀ k q, (k, q) ∈ layout s r → ∃ item, g !! k = Some item ∧ item.(it_Cells) =
    extent_along (Direction s) q + delta * sign (Direction s) (splitFirstExtent s (extent_along (Direction s) r)) q
    ∧ 0 < item.(it_Cells)).
  { intros k q Hkq. destruct (Hitems k q Hkq) as (item & Hi & <- & Hci & Hcp). exists item.
    split; [|done]. apply group_lookup; [by rewrite Hids|done]. }
  split_and!; [done| |done|].
  - rewrite <- (group_items_ids (Direction s) s r) by done. unfold r. rewrite <- Hgroup. unfold len in *. by rewrite length_fmap.
  - apply (divider_fits (Direction s) delta _ s a b r); try done;
      [by apply origin_ok|unfold pos_along; by case_bool_decide|]. intros k q Hkq. split; [by apply (Hpos k)|by apply Hin].
Qed.

(** One move of the mouse: the drag dispatches its command, if there is one, and the tree is resized. *)
Definition drag_move (st : SplitNode * mouseDragState) (at_ : Z * Z) : SplitNode * mouseDragState :=
  match dispatchPaneDrag st.2 at_.1 at_.2 with
  | (drag, Some cmd) => (ApplyResize st.1 cmd, drag)
  | (drag, None) => (st.1, drag)
  end.

(** Where the tree is during a drag with the mouse at [delta]: the split of the divider has been replaced, its hints along
    the axis apart nothing has changed, and the edges on the divider have moved. *)
Record dragged (root : SplitNode) (p : list Z) (s : SplitNode) (rs : Rect) (drag0 : mouseDragState) (delta : Z)
    (st : SplitNode * mouseDragState) : Prop := {
  dr_drag : st.2 = drag0 <| drag_LastDelta := delta |>;
  dr_tree : ∃ n, st.1 = put root p n ∧ alike (Direction s) s n
    ∧ layout n rs = shift_all (Direction s) (pos_along (Direction s) (second_rect s rs)) delta (layout s rs) }.

Lemma dispatch_again drag0 l col row : let drag := drag0 <| drag_LastDelta := l |> in
  let delta := mouseDragResizeDelta drag0 col row in
  dispatchPaneDrag drag col row
  = if i64 (delta - l) =? 0 then (drag, None)
    else (drag0 <| drag_LastDelta := delta |>,
          Some (mkCommand drag0.(drag_PaneID) drag0.(drag_Direction) (i64 (delta - l)) drag0.(drag_SplitPath)
                  (mouseDragResizeGroupCells drag0 delta) "" f64_zero 0 0)).
Proof. cbn zeta. unfold dispatchPaneDrag. by destruct drag0. Qed.

(** A requested group for a split that was already dragged. *)
Lemma group_again root body p s rs n items delta cmd :
  binary root → NoDup (panes root) → rect_ok body → at_path root body p s rs → valid_direction (Direction s) → rect_ok rs →
  alike (Direction s) s n → cmd.(cmd_ResizeGroupCells) = items → items ≠ [] → splitDirectionForResize cmd.(cmd_ResizeDirection) = Some (Direction s) →
  it_PaneID <$> items = panes s → 2 ≤ len (panes s) →
  let g := paneResizeGroupByPane items in
  let D := pos_along (Direction s) (second_rect s rs) in
  (∀ k q, (k, q) ∈ layout s rs → 0 < extent_along (Direction s) q ∧ ∃ item, g !! k = Some item ∧
      item.(it_Cells) = extent_along (Direction s) q + delta * sign (Direction s) D q ∧ 0 < item.(it_Cells)) →
  fits (Direction s) g s (extent_along (Direction s) rs) → (∃ a b, Children s = [a; b]) →
  let n' := (applyPaneResizeGroupNode n (Direction s) g).1 in
  ApplyResize (put root p n) cmd = put root p n' ∧ alike (Direction s) s n' ∧ layout n' rs = shift_all (Direction s) D delta (layout s rs).
Proof.
  intros Hb Hn Hr Hat Hv Rs Ha Ecells Hne Edir Hids Hlen g D Hreq Hfits (a & b & Hc) n'. pose proof (at_path_binary _ _ _ _ _ Hb Hat) as Bs.
  destruct (alike_kept _ _ _ Ha) as [Bn Pn]. pose proof (alike_fits _ _ _ _ _ Ha Hfits) as Hfn.
  destruct (put_kept root body p s rs n Hb Hat (conj Bn Pn)) as [Bp Pp].
  pose proof (at_path_put root body p s rs n Hb Hat (conj Bn Pn)) as Hatp.
  assert (Nitems : NoDup (it_PaneID <$> items)).
  { rewrite Hids. destruct (at_path_panes _ _ _ _ _ Hat) as (l1 & l2 & E). rewrite E in Hn. by apply NoDup_app in Hn as (_ & _ & (? & _)%NoDup_app). }
  split_and!.
  - unfold ApplyResize. rewrite Ecells, zero_len_cons by done. cbn [negb]. apply (group_accepted _ _ (Direction s)); try done.
    + rewrite <- Hids in Hlen. unfold len in *. by rewrite length_fmap in Hlen.
    + apply Forall_forall. intros i Hi.
      assert (i.(it_PaneID) ∈ panes s) as Hip by (rewrite <- Hids; by apply list_elem_of_fmap_2).
      split; [by apply (binary_pane_nonempty s)|]. rewrite <- (layout_panes s rs) in Hip by done.
      apply list_elem_of_fmap in Hip as ([k q] & Ek & Hkq). destruct (Hreq k q Hkq) as (_ & i' & Hi' & _ & Hp').
      cbn in Ek. rewrite <- Ek in Hi'. unfold g in Hi'. rewrite group_lookup in Hi' by done. by simplify_eq.
    + rewrite <- (put_put root body p s rs n n' Hat). apply (group_at_path _ body p n rs); try done; [by rewrite Pp|by rewrite Pn|].
      by eapply fits_changed.
  - by eapply alike_apply.
  - assert (Hpq : ∀ c r, binary c → rect_ok r → (∀ k q, (k, q) ∈ layout c r → 0 < extent_along (Direction s) q) → 0 < extent_along (Direction s) r)
      by (intros; by eapply layout_extent_pos).
    destruct (binary_children s a b Bs Hc) as (_ & _ & Ba & Bb). destruct (rects_along s (Direction s) rs Rs Hv eq_refl) as (F0 & F1 & F2 & F3 & F4).
    assert (Hpa : 0 < extent_along (Direction s) (first_rect s rs)).
    { apply (Hpq a); [done|by apply first_rect_ok|]. intros k q Hkq. apply (Hreq k q). rewrite (layout_split s a b) by (done || by destruct Bs).
      apply elem_of_app. by left. }
    assert (Hpb : 0 < extent_along (Direction s) (second_rect s rs)).
    { apply (Hpq b); [done|by apply second_rect_ok|]. intros k q Hkq. apply (Hreq k q). rewrite (layout_split s a b) by (done || by destruct Bs).
      apply elem_of_app. by right. }
    assert (Estill : shift_rect (Direction s) D delta rs = rs) by (apply shift_still; unfold D; lia).
    rewrite <- Estill at 1. apply shift_layout; try done; [by rewrite Estill|]. right; right. split; [done|exact F4].
Qed.

(** A move keeps the tree where it is for the mouse. *)
Lemma drag_move_spec root body p s rs a b text region col row drag delta0 st m :
  binary root → NoDup (panes root) → rect_ok body → body.(W) < 2 ^ 62 → body.(H) < 2 ^ 62 →
  at_path root body p s rs → Children s = [a; b] → divider_facts s a b rs text region →
  (∀ k q, (k, q) ∈ layout s (origin_rect rs) → 0 < extent_along (Direction s) q) →
  paneResizeDragState region col row = Some drag → - 2 ^ 63 ≤ delta0 < 2 ^ 63 →
  let delta := mouseDragResizeDelta drag m.1 m.2 in
  mouseDragResizeGroupCells drag delta ≠ [] →
  dragged root p s rs drag delta0 st → dragged root p s rs drag delta (drag_move st m).
Proof.
  intros Hb Hn Hr HW HH Hat Hc Hdf Hpos Hdrag Hd0 delta Hne [Edrag (n & Et & Ha & El)].
  pose proof (drag_delta_bounds drag m.1 m.2) as Hdelta. fold delta in Hdelta.
  destruct (subtree_facts root body p s rs) as (Bs & Ns & Rs & RW & RH); [done..|].
  destruct (binary_children s a b Bs Hc) as (_ & Hv & _ & _).
  unfold drag_move. rewrite Edrag, dispatch_again. fold delta. destruct (Z.eqb_spec (i64 (delta - delta0)) 0) as [Ez|Hnz].
  { assert (delta = delta0) as -> by (clear -Ez Hdelta Hd0; unfold i64 in Ez; Z.to_euclidean_division_equations; lia). split; [done|]. by exists n. }
  destruct (drag_requests s a b rs text region col row drag delta) as ((Hids & Hlen) & Hreq & Hfits); [done..|].
  destruct (drag_start s a b rs text region col row drag Hdf Hv Hdrag) as (_ & _ & _ & _ & _ & Edir).
  assert (Hmove : layout s rs = (λ kq, (kq.1, move_rect rs.(X) rs.(Y) kq.2)) <$> layout s (origin_rect rs)).
  { rewrite (origin_move rs) at 1. apply layout_move; [done|by apply origin_ok|by rewrite <- origin_move]. }
  destruct (rects_along s (Direction s) rs Rs Hv eq_refl) as (_ & _ & _ & _ & F4).
  destruct (group_again root body p s rs n (mouseDragResizeGroupCells drag delta) delta
    (mkCommand drag.(drag_PaneID) drag.(drag_Direction) (i64 (delta - delta0)) drag.(drag_SplitPath) (mouseDragResizeGroupCells drag delta) "" f64_zero 0 0))
    as (Eapp & Ha' & El'); try done; [|by exists a, b|].
  - intros k q Hkq. rewrite Hmove in Hkq. apply list_elem_of_fmap in Hkq as ([k0 q0] & E & Hkq). cbn in E. injection E as -> ->.
    rewrite F4, move_extent, move_sign. split; [by apply (Hpos k0)|]. replace (extent_along (Direction s) rs) with (extent_along (Direction s) (origin_rect rs)) by done.
    by apply Hreq.
  - split; [done|]. eexists. cbn [fst]. rewrite Et, Eapp. split; [done|]. by split.
Qed.

(** No pane of a split is squeezed when none of the tree is. *)
Lemma drag_positive root body p s rs k q :
  binary root → NoDup (panes root) → rect_ok body → body.(W) < 2 ^ 62 → body.(H) < 2 ^ 62 →
  at_path root body p s rs →
  (∀ k q, put_rects ∅ (layout root body) !! k = Some q → 0 < q.(W) ∧ 0 < q.(H)) →
  (k, q) ∈ layout s (origin_rect rs) → 0 < extent_along (Direction s) q.
Proof.
  intros Hb Hn Hr HW HH Hat Hpos Hkq.
  destruct (subtree_facts root body p s rs) as (Bs & Ns & Rs & RW & RH); [done..|].
  assert (k ∈ (layout s rs).*1) as Hk.
  { rewrite (layout_panes s rs), <- (layout_panes s (origin_rect rs)) by done.
    by apply (list_elem_of_fmap_2 fst _ (k, q)). }
  apply list_elem_of_fmap in Hk as ([k' q'] & Ek & Hin). cbn [fst] in Ek. subst k'.
  rewrite <- (origin_extent (Direction s) s rs (origin_rect rs) k q' q) by auto using origin_ok.
  destruct (put_layout root body p s rs s Hb Hat (kept_refl s Bs)) as (l1 & l2 & L1 & _).
  assert (0 < q'.(W) ∧ 0 < q'.(H)) as [? ?]
    by (apply (Hpos k q'), layout_lookup; try done; rewrite L1, !elem_of_app; tauto).
  unfold extent_along. by case_bool_decide.
Qed.

(** A pane is outside the split and keeps its rectangle, or is in the split. *)
Lemma drag_pane root body l1 l2 s s' rs root' k q :
  binary s → NoDup (panes root) → kept s s' → binary root →
  layout root body = l1 ++ layout s rs ++ l2 → layout root' body = l1 ++ layout s' rs ++ l2 →
  (k, q) ∈ layout root body →
  (k ∉ panes s ∧ (k, q) ∈ layout root' body) ∨ ((k, q) ∈ layout s rs ∧ ∃ q', (k, q') ∈ layout s' rs).
Proof.
  intros Bs Hn [Bs' Ps'] Hb L1 L2 Hkq. rewrite <- (layout_panes root body), L1, !fmap_app in Hn by done.
  apply NoDup_app in Hn as (_ & D1 & (_ & D2 & _)%NoDup_app).
  rewrite (layout_panes s rs) in D1, D2 by done.
  rewrite L1, !elem_of_app in Hkq. rewrite L2, !elem_of_app. destruct Hkq as [Hk|[Hk|Hk]].
  - left. split; [|tauto]. intros Hks. apply (D1 k); [by apply (list_elem_of_fmap_2 fst _ (k, q))|].
    apply elem_of_app. by left.
  - right. split; [done|]. assert (k ∈ (layout s' rs).*1) as Hk'.
    { rewrite (layout_panes s' rs), Ps', <- (layout_panes s rs) by done. by apply (list_elem_of_fmap_2 fst _ (k, q)). }
    apply list_elem_of_fmap in Hk' as ([k' q'] & Ek & Hin). cbn [fst] in Ek. subst k'. by exists q'.
  - left. split; [|tauto]. intros Hks. apply (D2 k Hks). by apply (list_elem_of_fmap_2 fst _ (k, q)).
Qed.

(** The whole drag. *)
Lemma gesture root body p s rs a b text region col row drag moves :
  binary root → NoDup (panes root) → rect_ok body → body.(W) < 2 ^ 62 → body.(H) < 2 ^ 62 →
  at_path root body p s rs → Children s = [a; b] → divider_facts s a b rs text region →
  (∀ k q, (k, q) ∈ layout s (origin_rect rs) → 0 < extent_along (Direction s) q) →
  paneResizeDragState region col row = Some drag →
  Forall (λ m, mouseDragResizeGroupCells drag (mouseDragResizeDelta drag m.1 m.2) ≠ []) moves →
  dragged root p s rs drag (from_option (λ m, mouseDragResizeDelta drag m.1 m.2) 0 (last moves)) (foldl drag_move (root, drag) moves).
Proof.
  intros Hb Hn Hr HW HH Hat Hc Hdf Hpos Hdrag. induction moves as [|m moves IH] using rev_ind; intros Hmoves.
  - split; [|exists s].
    + assert (drag.(drag_LastDelta) = 0) by (unfold paneResizeDragState in Hdrag; repeat case_match; simplify_eq/=; done). by destruct drag; cbn in *; subst.
    + cbn. rewrite (put_same root body p s rs Hat). split; [done|]. split; [apply alike_refl; by eapply at_path_binary|].
      unfold shift_all. symmetry. rewrite <- (list_fmap_id (layout s rs)) at 2. apply list_fmap_ext. intros _ [k q] _. cbn. by rewrite shift_zero.
  - apply Forall_app in Hmoves as [Hmoves Hm]. rewrite Forall_singleton in Hm. rewrite foldl_app, last_snoc. cbn [foldl from_option].
    apply (drag_move_spec root body p s rs a b text region col row drag (from_option (λ m, mouseDragResizeDelta drag m.1 m.2) 0 (last moves))); try done; [|by apply IH].
    destruct (last moves); [apply drag_delta_bounds|cbn; lia].
Qed.

(** The region of a divider is on the edge between the two sides of its split. *)
Lemma divider_place s a b rs text r0 viewport region :
  binary s → NoDup (panes s) → rect_ok rs → rs.(W) < 2 ^ 62 → rs.(H) < 2 ^ 62 → Children s = [a; b] →
  divider_region s a b rs text = Some r0 → region = r0 <| hr_Rect := intersectRect r0.(hr_Rect) viewport |> →
  0 < region.(hr_Rect).(W) → 0 < region.(hr_Rect).(H) → 1 < rs.(W) → 1 < rs.(H) →
  divider_facts s a b rs text region
  ∧ pos_along (Direction s) region.(hr_Rect) = pos_along (Direction s) (second_rect s rs)
  ∧ it_PaneID <$> region.(hr_ResizeGroup) = panes s.
Proof.
  intros Bs Ns Rs RW RH Hc Hdiv -> HpW HpH HW1 HH1. pose proof (divider_fields s a b rs text r0 Bs Ns Hc Rs RW RH Hdiv) as Hdf0.
  assert (Hdf : divider_facts s a b rs text (r0 <| hr_Rect := intersectRect r0.(hr_Rect) viewport |>)) by by destruct Hdf0.
  split; [done|]. split; [|rewrite (df_group _ _ _ _ _ _ Hdf); by apply group_items_ids].
  pose proof (divider_rect _ _ _ _ _ _ Hdiv) as Er. cbn in HpW, HpH |- *. rewrite Er in *. pose proof (second_rect_ok s rs Rs) as R2.
  destruct (binary_children s a b Bs Hc) as (_ & Hv & _ & _). destruct (rects_along s (Direction s) rs Rs Hv eq_refl) as (_ & _ & _ & _ & F4).
  pose proof (first_extent_inner s (extent_along (Direction s) rs)) as Hf. destruct R2, Rs. unfold pos_along, extent_along in *.
  destruct (bool_decide (Direction s = SplitVertical)) eqn:Ev;
    match type of HpW with context [intersectRect ?r _] => destruct (intersect_origin r viewport) ; cbn in *; lia end.
Qed.

(** C10: dragging a divider between more than two panes moves it by exactly the distance of the mouse. However the mouse
    moves during the drag, after every move the edges that lay on the divider when it was grabbed are moved by the distance
    of the mouse from where it grabbed it, and nothing else is: the panes of the split keep their other edges, the panes
    outside it their rectangles. (Where every pane has a cell to begin with, and as long as no move leaves a pane of the
    split without a cell. A divider between two panes only is moved through its path, see [path_resize_exact] and
    [second_drag_jumps].) *)
Theorem drag_group_exact root body viewport regions region col row drag moves rects :
  binary root → NoDup (panes root) → rect_ok body → body.(W) < 2 ^ 62 → body.(H) < 2 ^ 62 →
  assignSplitRects root body ∅ = Some rects → (∀ k q, rects !! k = Some q → 0 < q.(W) ∧ 0 < q.(H)) →
  appendSplitResizeHitRegions [] root body viewport rootSplitPath = Some regions → region ∈ regions →
  paneResizeDragState region col row = Some drag →
  Forall (λ m, mouseDragResizeGroupCells drag (mouseDragResizeDelta drag m.1 m.2) ≠ []) moves →
  let distance := from_option (λ m, mouseDragResizeDelta drag m.1 m.2) 0 (last moves) in
  ∃ axis rects', splitDirectionForResize drag.(drag_Direction) = Some axis
    ∧ assignSplitRects (foldl drag_move (root, drag) moves).1 body ∅ = Some rects'
    ∧ (∃ k q, k ∈ (it_PaneID <$> region.(hr_ResizeGroup)) ∧ rects !! k = Some q
         ∧ pos_along axis q + extent_along axis q = pos_along axis region.(hr_Rect))
    ∧ ∀ k q, rects !! k = Some q → rects' !! k =
        Some (if bool_decide (k ∈ (it_PaneID <$> region.(hr_ResizeGroup))) then shift_rect axis (pos_along axis region.(hr_Rect)) distance q else q).
Proof.
  intros Hb Hn Hr HW HH Hrects Hpos Hregs Hin Hdrag Hmoves distance.
  destruct (regions_spec root body viewport [] [] Hb) as (added & Ha & Hall).
  change (path_text []) with rootSplitPath in Ha. rewrite Ha in Hregs. injection Hregs as <-.
  rewrite Forall_forall in Hall. destruct (Hall _ Hin) as (p & s & rs & a & b & r0 & Hat & Hp & Hc & HrsW & HrsH & Hdiv & Ereg & HpW & HpH).
  destruct (subtree_facts root body p s rs) as (Bs & Ns & Rs & RW & RH); [done..|].
  destruct (divider_place s a b rs (path_text ([] ++ p)) r0 viewport region) as (Hdf & Eplace & Hids); try done.
  destruct (binary_children s a b Bs Hc) as (_ & Hv & _ & _).
  rewrite assign_layout in Hrects by done. injection Hrects as <-.
  destruct (drag_start s a b rs _ region col row drag Hdf Hv Hdrag) as (_ & _ & _ & _ & _ & Edir).
  assert (Hpos0 : ∀ k q, (k, q) ∈ layout s (origin_rect rs) → 0 < extent_along (Direction s) q)
    by (intros k q; by apply (drag_positive root body p s rs k q Hb Hn Hr HW HH Hat Hpos)).
  destruct (gesture root body p s rs a b (path_text ([] ++ p)) region col row drag moves) as [_ (n & Et & Hal & El)]; try done.
  fold distance in El. destruct (alike_kept _ _ _ Hal) as [Bn Pn].
  destruct (put_kept root body p s rs n Hb Hat (conj Bn Pn)) as [Bp Pp].
  destruct (put_layout root body p s rs n Hb Hat (conj Bn Pn)) as (l1 & l2 & L1 & L2).
  exists (Direction s), (put_rects ∅ (layout (put root p n) body)). rewrite Et, Hids, Eplace. split; [done|]. split; [by apply assign_layout|].
  destruct (binary_children s a b Bs Hc) as (Hpid & _ & Ba & _). split.
  - destruct (last_touches (Direction s) a (first_rect s rs) Ba (first_rect_ok s rs Rs)) as (_ & q & Hq & Eq).
    destruct (rects_along s (Direction s) rs Rs Hv eq_refl) as (_ & F1 & _ & F3 & F4).
    assert (Hqs : (lastPaneIDInSplit a, q) ∈ layout s rs) by (rewrite (layout_split s a b) by done; apply elem_of_app; by left).
    exists (lastPaneIDInSplit a), q. split_and!; [|apply layout_lookup; try done; rewrite L1, !elem_of_app; tauto|lia].
    rewrite <- (layout_panes s rs) by done. by apply (list_elem_of_fmap_2 fst _ (_, q)).
  - intros k q Hkq%layout_lookup; [|done..].
    destruct (drag_pane root body l1 l2 s n rs (put root p n) k q) as [(Hk & Hq')|(Hk & _)]; try done.
    + rewrite bool_decide_false by done. by apply layout_lookup; rewrite ?Pp.
    + rewrite bool_decide_true by (rewrite <- (layout_panes s rs) by done; by apply (list_elem_of_fmap_2 fst _ (k, q))).
      apply layout_lookup; rewrite ?Pp; try done. rewrite L2, El, !elem_of_app. right; left.
      by apply (list_elem_of_fmap_2 (λ kq, (kq.1, shift_rect (Direction s) _ distance kq.2)) _ (k, q)).
Qed.

(** The extent of a split without a fixed size or a ratio. *)
Lemma plain_extent s total :
  FixedPaneID s = "" → Ratio s = f64_zero → 1 < total →
  splitFirstExtent s total = clampInt (iadd (total ÷ 2) (BiasCells s)) 1 (total - 1).
Proof.
  intros Hf Hr Ht. unfold splitFirstExtent, biased_extent. rewrite Hf, Hr, (proj2 (Z.leb_gt _ _)) by lia. done.
Qed.

(** A resize through its path moves the divider of a split that has no fixed size and no
    ratio by exactly the step, as long as both sides keep a cell; and the step back restores
    the extent. *)
Theorem path_resize_exact node p dir delta s rs body a b total :
  at_path node body p s rs → PaneID s = "" → Children s = [a; b] →
  splitDirectionMatchesResize (Direction s) dir = true → FixedPaneID s = "" → Ratio s = f64_zero →
  1 < total < 2 ^ 62 → - 2 ^ 62 < BiasCells s < 2 ^ 62 →
  1 ≤ total ÷ 2 + BiasCells s ≤ total - 1 → 1 ≤ total ÷ 2 + BiasCells s + delta ≤ total - 1 →
  ∃ s', resizeSplitNodeByPath node p dir delta = (put node p s', true) ∧ Children s' = Children s
    ∧ splitFirstExtent s' total = splitFirstExtent s total + delta
    ∧ resizeSplitNodeByPath s' [] dir (- delta) = (s' <| BiasCells := BiasCells s |>, true).
Proof.
  intros Hat Hp Hc Hm Hf Hr Ht Hb H1 H2.
  exists (no_hint (s <| BiasCells := iadd (BiasCells s) delta |>)).
  assert (Hd : - 2 ^ 62 < delta < 2 ^ 62) by lia.
  split_and!.
  - by apply (resize_at_path node body p s rs dir delta a b).
  - by destruct s.
  - rewrite !plain_extent by (done || (by destruct s) || lia).
    assert (BiasCells (no_hint (s <| BiasCells := iadd (BiasCells s) delta |>)) = BiasCells s + delta) as ->
      by (destruct s; cbn in *; apply iadd_small; lia).
    rewrite !iadd_small, !clampInt_id by (rewrite ?iadd_small by lia; lia). lia.
  - rewrite (path_split _ a b) by (by destruct s).
    destruct s as [pid dir' cs ra bi fp fc fr]; cbn in *. rewrite Hm. unfold no_hint. cbn.
    rewrite !iadd_small by (rewrite ?iadd_small by lia; lia). by replace (bi + delta + - delta) with bi by lia.
Qed.

(** a resize through the path or from the keyboard drops the fixed size or the ratio of
    the split it moves: the new divider is half of the extent plus the bias, wherever the
    divider was. *)
Theorem path_resize_drops_size node p dir delta s rs body a b total :
  at_path node body p s rs → PaneID s = "" → Children s = [a; b] →
  splitDirectionMatchesResize (Direction s) dir = true → 1 < total →
  ∃ s', resizeSplitNodeByPath node p dir delta = (put node p s', true) ∧
    splitFirstExtent s' total = clampInt (iadd (total ÷ 2) (iadd (BiasCells s) delta)) 1 (total - 1).
Proof.
  intros Hat Hp Hc Hm Ht. eexists. split; [by apply (resize_at_path node body p s rs dir delta a b)|].
  rewrite plain_extent by (done || by destruct s). by destruct s.
Qed.

(** ** Concrete trees *)
Module SplitDemo.

(** Three panes side by side in a body of 100 by 20. *)
Definition two : SplitNode := insertSplitNode (leaf "a") "a" "b" SplitDirectionVertical.
Definition three : SplitNode := insertSplitNode two "b" "c" SplitDirectionVertical.
Definition body : Rect := mkRect 0 1 100 20.
Definition set_size (id : string) (mode : PaneSizeMode) (ratio : spec_float) (cols : Z) : PaneCommand :=
  mkCommand id "" 0 "" [] mode ratio cols 0.
Definition resize (path : string) (delta : Z) : PaneCommand :=
  mkCommand "a" PaneResizeRight delta path [] "" f64_zero 0 0.
Definition rects (node : SplitNode) : list (string * Rect) :=
  default [] (map_to_list <$> assignSplitRects node body ∅).
Definition rect_of (node : SplitNode) (id : string) : option Rect :=
  m ← assignSplitRects node body ∅; m !! id.

Lemma three_binary : binary three.
Proof.
  assert (E : three = emptySplit <| Direction := SplitDirectionVertical |> <| Children := [leaf "a";
    emptySplit <| Direction := SplitDirectionVertical |> <| Children := [leaf "b"; leaf "c"] |>] |>) by by vm_compute.
  rewrite E. eapply binary_split; try done; [by left|by constructor|].
  eapply binary_split; try done; [by left|by constructor..].
Qed.
Lemma three_panes : panes three = ["a"; "b"; "c"].
Proof. by vm_compute. Qed.
Lemma three_nodup : NoDup (panes three).
Proof. apply (bool_decide_unpack _). by vm_compute. Qed.
Lemma body_ok : rect_ok body.
Proof. by split. Qed.
End SplitDemo.
Import SplitDemo.

Lemma split_then_close_witness :
  removePaneFromSplit (insertSplitNode three "b" "d" SplitDirectionHorizontal) "d" = (three, true).
Proof.
  apply (split_then_close three "b" "d" SplitDirectionHorizontal); try done;
    [apply three_binary|apply three_nodup|rewrite three_panes; set_solver|rewrite three_panes; set_solver|by right].
Defined.

Lemma close_pane_exact_witness :
  ∃ node' l1 l2, removePaneFromSplit three "b" = (node', true) ∧ binary node'
       ∧ panes three = l1 ++ "b" :: l2 ∧ panes node' = l1 ++ l2.
Proof.
  apply (close_pane_exact three "b"); [apply three_binary|apply three_nodup|rewrite three_panes; set_solver].
Defined.

Lemma hints_keep_panes_witness :
  panes (ApplyResize three (resize "root/1" 5)) = ["a"; "b"; "c"].
Proof. exact (proj2 (proj1 (hints_keep_panes three (resize "root/1" 5) three_binary))). Defined.

Definition three_layout : LayoutVM := mkLayout ((λ id, mkPanel id PanelPresentationCard) <$> ["a"; "b"; "c"]) three.
Lemma layout_tiles_body_witness :
  ∃ rects, splitPanelRects three_layout body = Some rects
    ∧ (∀ id, is_Some (rects !! id) ↔ id ∈ panes three)
    ∧ ∀ x y, inside body x y → ∃ id r, (rects !! id = Some r ∧ inside r x y) ∧ ∀ id' r', rects !! id' = Some r' → inside r' x y → id' = id ∧ r' = r.
Proof.
  assert (Hp : panel_ID <$> three_layout.(Panels) ≡ₚ panes three_layout.(Split)) by (vm_compute; reflexivity).
  destruct (layout_tiles_body three_layout body three_binary three_nodup Hp body_ok) as (places & rects & Ep & Er & Hdom & _ & _ & Hexact).
  exists rects. split; [exact Er|]. split; [exact Hdom|]. apply Hexact. change (Split three_layout) with three in Ep. rewrite assign_layout in Ep by apply three_binary.
  assert (places = put_rects ∅ (SplitLayoutFacts.layout three body)) as -> by congruence. intros id q Hq.
  rewrite layout_lookup in Hq by (apply three_binary || apply three_nodup).
  assert (Hall : Forall (λ kr, squeezed kr.2 = false) (SplitLayoutFacts.layout three body)) by (vm_compute; repeat constructor).
  rewrite Forall_forall in Hall. apply (Hall (id, q) Hq).
Defined.

(** The two dividers of the three panes, and the drag of the outer one by seven columns. *)
Definition no_region : HitRegion :=
  mkRegion HitRegionPaneResize zeroRect "" "" "" NoTarget "" "" "" "" 0 0 [].
Definition viewport : Rect := mkRect 0 0 100 24.
Definition demo_regions : list HitRegion :=
  default [] (appendSplitResizeHitRegions [] three body viewport rootSplitPath).
Definition demo_region : HitRegion := nth 0 demo_regions no_region.
Definition demo_drag : mouseDragState :=
  default (mkDrag false "" "" "" "" "" 0 0 [] 0 0 0) (paneResizeDragState demo_region 50 5).
Definition demo_cmd : PaneCommand := default (resize "" 0) (dispatchPaneDrag demo_drag 57 9).2.

Lemma demo_positive rects :
  assignSplitRects three body ∅ = Some rects → ∀ k q, rects !! k = Some q → 0 < q.(W) ∧ 0 < q.(H).
Proof.
  rewrite assign_layout by apply three_binary. intros E k q.
  assert (rects = put_rects ∅ (layout three body)) as -> by congruence.
  rewrite layout_lookup by (apply three_binary || apply three_nodup).
  assert (Forall (λ kr, 0 < kr.2.(W) ∧ 0 < kr.2.(H)) (layout three body)) as Hall
    by (vm_compute; repeat constructor).
  rewrite Forall_forall in Hall. intros Hk. by apply (Hall (k, q)).
Qed.

Lemma divider_path_resizes_its_split_witness :
  ∃ p s rs, at_path three body p s rs ∧ parseSplitPath demo_region.(hr_SplitPath) = Some p
    ∧ ResizeSplitPath three demo_region.(hr_SplitPath) demo_region.(hr_Direction) 3
      = put three p (no_hint (s <| BiasCells := iadd (BiasCells s) 3 |>)).
Proof.
  apply (divider_path_resizes_its_split three body viewport demo_regions demo_region 3);
    [apply three_binary|apply three_nodup|apply body_ok|done|done|vm_compute; reflexivity| |done].
  vm_compute. left.
Defined.

(** The mouse goes eleven columns to the right and four back; the divider between a and the other two panes follows. *)
Definition demo_moves : list (Z * Z) := [(54, 5); (61, 8); (57, 9)].
Lemma drag_group_exact_witness :
  (λ id, (λ r, (r.(X), r.(W))) <$> rect_of (foldl drag_move (three, demo_drag) demo_moves).1 id) <$> ["a"; "b"; "c"]
    = [Some (0, 57); Some (57, 18); Some (75, 25)]
  ∧ ∃ axis rects', splitDirectionForResize demo_drag.(drag_Direction) = Some axis
    ∧ assignSplitRects (foldl drag_move (three, demo_drag) demo_moves).1 body ∅ = Some rects'
    ∧ ∀ k q, put_rects ∅ (layout three body) !! k = Some q → rects' !! k =
        Some (if bool_decide (k ∈ (it_PaneID <$> demo_region.(hr_ResizeGroup))) then shift_rect axis (pos_along axis demo_region.(hr_Rect)) 7 q else q).
Proof.
  split; [vm_compute; reflexivity|].
  destruct (drag_group_exact three body viewport demo_regions demo_region 50 5 demo_drag demo_moves (put_rects ∅ (layout three body)))
    as (axis & rects' & Eaxis & Erects & _ & Hall);
    [apply three_binary|apply three_nodup|apply body_ok|done|done| | |vm_compute; reflexivity| |vm_compute; reflexivity| |].
  - apply assign_layout, three_binary.
  - apply demo_positive. apply assign_layout, three_binary.
  - vm_compute. left.
  - repeat (apply Forall_cons; split; [vm_compute; discriminate|]). apply Forall_nil_2.
  - exists axis, rects'. split; [exact Eaxis|]. split; [exact Erects|exact Hall].
Defined.

Lemma path_resize_exact_witness :
  ∃ s', resizeSplitNodeByPath three [] PaneResizeRight 9 = (put three [] s', true) ∧ Children s' = Children three
    ∧ splitFirstExtent s' 100 = splitFirstExtent three 100 + 9
    ∧ resizeSplitNodeByPath s' [] PaneResizeRight (-9) = (s' <| BiasCells := BiasCells three |>, true).
Proof.
  apply (path_resize_exact three [] PaneResizeRight 9 three body body (child three 0) (child three 1) 100);
    try done; [constructor|vm_compute..]; try done; split; discriminate.
Defined.

(** ** What the code gets wrong *)

(** The region of the inner divider after the drag of the outer one, dragged by one column. *)
Definition three_dragged : SplitNode :=
  ApplyResize three demo_cmd.
Definition inner_drag : SplitNode :=
  match appendSplitResizeHitRegions [] three_dragged body viewport rootSplitPath with
  | Some [_; region] =>
      match paneResizeDragState region 75 5 with
      | Some drag => match dispatchPaneDrag drag 76 5 with
                     | (_, Some cmd) => ApplyResize three_dragged cmd
                     | _ => three_dragged
                     end
      | None => three_dragged
      end
  | _ => three_dragged
  end.

(** Two drags in a row: after the outer divider moved by seven columns, moving the inner
    divider by one column makes pane b four columns wider. *)
Theorem second_drag_jumps :
  (W <$> rect_of three_dragged "b") = Some 18 ∧ (W <$> rect_of inner_drag "b") = Some 22.
Proof. vm_compute. done. Qed.

(** A divider moved to the edge leaves pane c without a column; the layout then gives it the
    whole body, over the other panes. *)
Definition squeezed_tree : SplitNode := ApplyResize three (resize "root" 49).
Definition squeezed_layout : LayoutVM :=
  mkLayout ((λ id, mkPanel id PanelPresentationCard) <$> ["a"; "b"; "c"]) squeezed_tree.
Theorem squeezed_pane_covers_body :
  (W <$> rect_of squeezed_tree "c") = Some 0
  ∧ (m ← splitPanelRects squeezed_layout body; m !! "c") = Some body
  ∧ (m ← splitPanelRects squeezed_layout body; m !! "a") = Some (mkRect 0 1 99 20).
Proof. vm_compute. done. Qed.

(** A ratio of one is a valid size, and is laid out as one half. *)
Theorem ratio_one_is_half :
  (W <$> rect_of (setSplitNodeSize two (set_size "a" PaneSizeRatio f64_one 0)).1 "a") = Some 50.
Proof. by vm_compute. Qed.
