(* ===== verification/VtScrollback.v ===== *)
(** * The scrollback of the terminal emulator

    [vterm/internal/vt/scrollback.go]: the rows scrolled off the screen, kept in a ring
    inside a slice that grows up to the maximum. The refinement theorem states the contract:
    the ring is a bounded list that drops a tenth of its oldest rows when it is full.

    A cell is a parameter (the cells come from the ultraviolet library); a nil line and an
    empty one are the empty list. [grow] is the capacity that Go's [append] chooses. *)
From S2P Require Import Prelude.
Local Open Scope Z_scope.
Local Open Scope bool_scope.

Definition DefaultScrollbackSize : Z := 2000.

(** [l[i]] and [l[i] = x] for an index within the slice. *)
Definition at_ {A} (d : A) (l : list A) (i : Z) : A := nth (Z.to_nat i) l d.
Definition set_at {A} (l : list A) (i : Z) (x : A) : list A := <[Z.to_nat i := x]> l.
(** [make([]T, n)] with its zero value. *)
Definition make_slice {A} (d : A) (n : Z) : list A := replicate (Z.to_nat n) d.
Definition prefix_ {A} (n : Z) (l : list A) : list A := take (Z.to_nat n) l.

Section Scrollback.
Context {Cell : Type}.

Local Notation Line := (list Cell).

(** [sb_cap] is [cap(lines)]. *)
Record Scrollback := mkScrollback {
  sb_lines : list Line;
  sb_wrapped : list bool;
  sb_maxLines : Z;
  sb_offset : Z;
  sb_size : Z;
  sb_cap : Z }.
#[export] Instance eta_scrollback : Eta Scrollback := λ r,
  mkScrollback r.(sb_lines) r.(sb_wrapped) r.(sb_maxLines) r.(sb_offset) r.(sb_size) r.(sb_cap).

Context (grow : Z → Z → Z).

Definition NewScrollback (maxLines : Z) : Scrollback :=
  let maxLines := if maxLines <=? 0 then DefaultScrollbackSize else maxLines in
  mkScrollback [] [] maxLines 0 0 (Z.min maxLines 1000).

Definition normalizeStorage (s : Scrollback) : Scrollback :=
  let s := if (s.(sb_offset) <? 0) || (Z.max 1 (len s.(sb_lines)) <=? s.(sb_offset))
           then s <| sb_offset := 0 |> else s in
  let s := if s.(sb_size) <? 0 then s <| sb_size := 0 |> else s in
  let s := if len s.(sb_lines) <? s.(sb_size) then s <| sb_size := len s.(sb_lines) |> else s in
  if len s.(sb_wrapped) <? len s.(sb_lines)
  then s <| sb_wrapped := s.(sb_wrapped) ++ make_slice false (len s.(sb_lines) - len s.(sb_wrapped)) |>
  else if len s.(sb_lines) <? len s.(sb_wrapped)
  then s <| sb_wrapped := prefix_ (len s.(sb_lines)) s.(sb_wrapped) |>
  else s.

Definition normalizeWrapped (s : Scrollback) : Scrollback :=
  let s := normalizeStorage s in
  if len s.(sb_wrapped) =? len s.(sb_lines) then s
  else if len s.(sb_lines) <? len s.(sb_wrapped)
  then s <| sb_wrapped := prefix_ (len s.(sb_lines)) s.(sb_wrapped) |>
  else s <| sb_wrapped := s.(sb_wrapped) ++ make_slice false (len s.(sb_lines) - len s.(sb_wrapped)) |>.

Definition physicalIndex (s : Scrollback) (logical : Z) : Z :=
  if len s.(sb_lines) =? 0 then 0 else Z.rem (s.(sb_offset) + logical) (len s.(sb_lines)).

(** The loop of [dropOldest]: the dropped slots are cleared. *)
Definition clear_slot (s0 : Scrollback) (s : Scrollback) (i : Z) : Scrollback :=
  let index := physicalIndex s0 i in
  let s := s <| sb_lines := set_at s.(sb_lines) index [] |> in
  if index <? len s.(sb_wrapped) then s <| sb_wrapped := set_at s.(sb_wrapped) index false |> else s.

Definition dropOldest (n : Z) (s : Scrollback) : Scrollback :=
  if n <=? 0 then s else
  let s := normalizeStorage s in
  let n := if s.(sb_size) <? n then s.(sb_size) else n in
  let s := foldl (clear_slot s) s (seqZ 0 n) in
  let s := if 0 <? len s.(sb_lines)
           then s <| sb_offset := Z.rem (s.(sb_offset) + n) (len s.(sb_lines)) |> else s in
  let s := s <| sb_size := s.(sb_size) - n |> in
  if s.(sb_size) =? 0 then s <| sb_offset := 0 |> else s.

(** [append(s.lines, line)] with the capacity it leaves. *)
Definition append_line (line : Line) (s : Scrollback) : Scrollback :=
  let lines := s.(sb_lines) ++ [line] in
  s <| sb_lines := lines |>
    <| sb_cap := if len lines <=? s.(sb_cap) then s.(sb_cap) else grow s.(sb_cap) (len lines) |>.

Definition PushWrapped (line : Line) (wrapped : bool) (s : Scrollback) : Scrollback :=
  if s.(sb_maxLines) <=? 0 then s else
  let s := normalizeStorage s in
  let s := if s.(sb_maxLines) <=? s.(sb_size) then
             let trim := s.(sb_maxLines) ÷ 10 in
             let trim := if trim <? 1 then 1 else trim in
             let trim := if s.(sb_size) <? trim then s.(sb_size) else trim in
             dropOldest trim s
           else s in
  if (s.(sb_cap) <? s.(sb_maxLines)) && (s.(sb_offset) =? 0) && (s.(sb_size) =? len s.(sb_lines)) then
    let s := append_line line s in
    s <| sb_wrapped := s.(sb_wrapped) ++ [wrapped] |> <| sb_size := s.(sb_size) + 1 |>
  else
    let s := if len s.(sb_lines) <? s.(sb_maxLines)
             then append_line [] s <| sb_wrapped := s.(sb_wrapped) ++ [false] |> else s in
    let index := physicalIndex s s.(sb_size) in
    s <| sb_lines := set_at s.(sb_lines) index line |>
      <| sb_wrapped := set_at s.(sb_wrapped) index wrapped |>
      <| sb_size := s.(sb_size) + 1 |>.

Definition Push (line : Line) (s : Scrollback) : Scrollback := PushWrapped line false s.

Definition Len (s : Scrollback) : Z := (normalizeStorage s).(sb_size).
Definition MaxLines (s : Scrollback) : Z := s.(sb_maxLines).

Definition line_at (s : Scrollback) (i : Z) : Line := at_ [] s.(sb_lines) (physicalIndex s i).
Definition wrapped_at (s : Scrollback) (i : Z) : bool := at_ false s.(sb_wrapped) (physicalIndex s i).

Definition logicalLines (s : Scrollback) : list Line :=
  if s.(sb_size) <=? 0 then []
  else if (s.(sb_offset) =? 0) && (s.(sb_size) =? len s.(sb_lines)) then prefix_ s.(sb_size) s.(sb_lines)
  else line_at s <$> seqZ 0 s.(sb_size).

Definition logicalWrapped (s : Scrollback) : list bool :=
  if s.(sb_size) <=? 0 then []
  else if (s.(sb_offset) =? 0) && (s.(sb_size) =? len s.(sb_wrapped)) then prefix_ s.(sb_size) s.(sb_wrapped)
  else (λ i, let index := physicalIndex s i in
             if index <? len s.(sb_wrapped) then at_ false s.(sb_wrapped) index else false) <$> seqZ 0 s.(sb_size).

(** [append([]uv.Line(nil), lines...)] leaves a capacity of Go's choice. *)
Definition compact (s : Scrollback) : Scrollback :=
  let lines := logicalLines s in
  let wrapped := logicalWrapped s in
  s <| sb_lines := lines |> <| sb_wrapped := wrapped |> <| sb_offset := 0 |> <| sb_size := len lines |>
    <| sb_cap := grow 0 (len lines) |>.

Definition SetMaxLines (maxLines : Z) (s : Scrollback) : Scrollback :=
  if maxLines <=? 0 then s else
  let s := normalizeStorage (s <| sb_maxLines := maxLines |>) in
  let s := if maxLines <? s.(sb_size) then dropOldest (s.(sb_size) - maxLines) s else s in
  compact s.

Definition TrimOldest (n : Z) (s : Scrollback) : Scrollback := dropOldest n s.

(** [ScrollbackLine]: the row at an index, [None] for Go's nil out of range. *)
Definition GetLine (index : Z) (s : Scrollback) : option Line :=
  if index <? 0 then None else
  let s := normalizeStorage s in
  if s.(sb_size) <=? index then None else Some (line_at s index).

Definition Lines (s : Scrollback) : list Line := logicalLines (normalizeStorage s).

Definition LineWrapped (index : Z) (s : Scrollback) : bool :=
  if index <? 0 then false else
  let s := normalizeStorage s in
  if s.(sb_size) <=? index then false else wrapped_at s index.

Definition Wrapped (s : Scrollback) : list bool := logicalWrapped (normalizeWrapped (normalizeStorage s)).

Definition SetLineWrapped (index : Z) (wrapped : bool) (s : Scrollback) : Scrollback :=
  if index <? 0 then s else
  let s := normalizeStorage s in
  if s.(sb_size) <=? index then s else
  let s := normalizeWrapped s in
  s <| sb_wrapped := set_at s.(sb_wrapped) (physicalIndex s index) wrapped |>.

Definition SetWrapped (wrapped : list bool) (s : Scrollback) : Scrollback :=
  let s := normalizeStorage s in
  let next := make_slice false (Z.max s.(sb_size) (len s.(sb_lines))) in
  s <| sb_wrapped := foldl (λ next i, set_at next (physicalIndex s i) (at_ false wrapped i)) next
                       (seqZ 0 (Z.min s.(sb_size) (len wrapped))) |>.

Definition Clear (s : Scrollback) : Scrollback :=
  s <| sb_lines := [] |> <| sb_wrapped := [] |> <| sb_offset := 0 |> <| sb_size := 0 |>.

Definition CellAt (x y : Z) (s : Scrollback) : option Cell :=
  match GetLine y s with
  | None => None
  | Some line => if (x <? 0) || (len line <=? x) then None else line !! Z.to_nat x
  end.

Definition boolAt (values : list bool) (index : Z) : bool :=
  (0 <=? index) && (index <? len values) && at_ false values index.
Definition intAt (values : list Z) (index : Z) : Z :=
  if (index <? 0) || (len values <=? index) then 0 else at_ 0 values index.

Definition clampLocalInt (value low high : Z) : Z :=
  if high <? low then low else if value <? low then low else if high <? value then high else value.

(** [PushN]: [rows] is [buf.Line], which is nil outside the buffer. *)
Definition push_row (rows : Z → option Line) (wrapped : list bool) (used : list Z) (y : Z)
    (s : Scrollback) (i : Z) : Scrollback :=
  match rows (y + i) with
  | None => s
  | Some line =>
      let lineUsed := clampLocalInt (intAt used (y + i)) 0 (len line) in
      PushWrapped (prefix_ lineUsed line) (boolAt wrapped (y + i)) s
  end.
Definition PushN (rows : Z → option Line) (height : Z) (wrapped : list bool) (used : list Z) (y n : Z)
    (s : Scrollback) : Scrollback :=
  if n <=? 0 then s else foldl (push_row rows wrapped used y) s (seqZ 0 (Z.min n (height - y))).
End Scrollback.
Arguments Scrollback : clear implicits.
Notation Line := list (only parsing).
