(* ===== verification/VtScrollbackTheorems.v ===== *)
(** * The scrollback ring refines a bounded list *)
From S2P Require Import Prelude VtScrollback.
Local Open Scope Z_scope.

(** ** Slices indexed by [Z] *)
Lemma len_snoc {A} (l : list A) x : len (l ++ [x]) = len l + 1.
Proof. by rewrite len_app. Qed.

Lemma len_set_at {A} (l : list A) i x : len (set_at l i x) = len l.
Proof. unfold len, set_at. by rewrite length_insert. Qed.

Lemma at_set_same {A} (d : A) l i x : 0 ≤ i < len l → at_ d (set_at l i x) i = x.
Proof. intros H. unfold at_, set_at. apply nth_lookup_Some, list_lookup_insert_eq. unfold len in H. lia. Qed.

Lemma at_set_other {A} (d : A) l i j x : 0 ≤ i → 0 ≤ j → i ≠ j → at_ d (set_at l i x) j = at_ d l j.
Proof.
  intros Hi Hj Hne. unfold at_, set_at. rewrite !nth_lookup, list_lookup_insert_ne; [done|]. lia.
Qed.

Lemma at_app_l {A} (d : A) l k i : 0 ≤ i < len l → at_ d (l ++ k) i = at_ d l i.
Proof. intros H. unfold at_, len in *. by rewrite app_nth1 by lia. Qed.

Lemma at_app_end {A} (d : A) l x : at_ d (l ++ [x]) (len l) = x.
Proof. unfold at_, len. rewrite Nat2Z.id, app_nth2, Nat.sub_diag by lia. done. Qed.

Lemma seqZ_snoc n : 0 ≤ n → seqZ 0 (n + 1) = seqZ 0 n ++ [n].
Proof. intros H. rewrite seqZ_app by lia. f_equal. Qed.

Lemma prefix_seqZ {A} (d : A) l n : 0 ≤ n ≤ len l → prefix_ n l = at_ d l <$> seqZ 0 n.
Proof.
  intros H. unfold prefix_, len in *. apply list_eq. intros i. rewrite list_lookup_fmap.
  destruct (decide (i < Z.to_nat n)%nat) as [Hi|Hi].
  - rewrite lookup_take_lt, lookup_seqZ_lt by lia. simpl. unfold at_.
    replace (Z.to_nat (0 + Z.of_nat i)) with i by lia.
    destruct (lookup_lt_is_Some_2 l i) as [x Hx]; [lia|]. rewrite Hx. f_equal. symmetry. by apply nth_lookup_Some.
  - rewrite lookup_take_ge, lookup_seqZ_ge by lia. done.
Qed.

Lemma drop_fmap_seqZ {A} (f g : Z → A) n m :
  0 ≤ n ≤ m → (∀ i, 0 ≤ i < m - n → g i = f (n + i)) →
  g <$> seqZ 0 (m - n) = drop (Z.to_nat n) (f <$> seqZ 0 m).
Proof.
  intros Hn Hfg. apply list_eq. intros i. rewrite lookup_drop, !list_lookup_fmap.
  destruct (decide (Z.of_nat i < m - n)) as [Hi|Hi].
  - rewrite !lookup_seqZ_lt by lia. simpl. f_equal. rewrite Hfg by lia. f_equal. lia.
  - rewrite !lookup_seqZ_ge by lia. done.
Qed.

Lemma fmap_seqZ_ext {A} (f g : Z → A) n : (∀ i, 0 ≤ i < n → f i = g i) → f <$> seqZ 0 n = g <$> seqZ 0 n.
Proof. intros H. apply list_fmap_ext. intros i x Hx%lookup_seqZ. apply H. lia. Qed.

Section Facts.
Context {Cell : Type}.
Context (grow : Z → Z → Z) (grow_enough : ∀ c n, n ≤ grow c n).
Implicit Types s : Scrollback Cell.

(** ** The abstract queue *)
Definition contents s : list (Line Cell * bool) := (λ i, (line_at s i, wrapped_at s i)) <$> seqZ 0 s.(sb_size).

(** A full queue drops a tenth of its rows, at least one, before a push. *)
Definition spec_push (max : Z) (x : Line Cell * bool) (q : list (Line Cell * bool)) : list (Line Cell * bool) :=
  (if max <=? len q then drop (Z.to_nat (Z.max 1 (max ÷ 10))) q else q) ++ [x].

Record ring_ok s : Prop := {
  ro_wrapped : len s.(sb_wrapped) = len s.(sb_lines);
  ro_size : 0 ≤ s.(sb_size) ≤ len s.(sb_lines);
  ro_offset : 0 ≤ s.(sb_offset) < Z.max 1 (len s.(sb_lines));
  ro_cap : len s.(sb_lines) ≤ s.(sb_cap) }.

Record sb_ok s : Prop := {
  so_ring : ring_ok s;
  so_max : 0 < s.(sb_maxLines);
  so_len : len s.(sb_lines) ≤ s.(sb_maxLines);
  so_room : s.(sb_offset) + s.(sb_size) ≤ len s.(sb_lines) ∨ len s.(sb_lines) = s.(sb_maxLines) }.

Lemma normalize_id s : ring_ok s → normalizeStorage s = s.
Proof.
  intros []. unfold normalizeStorage.
  rewrite (proj2 (Z.ltb_ge (sb_offset s) 0)), (proj2 (Z.leb_gt (Z.max 1 _) _)) by lia. cbn [orb].
  rewrite (proj2 (Z.ltb_ge (sb_size s) 0)), (proj2 (Z.ltb_ge (len (sb_lines s)) (sb_size s))) by lia.
  rewrite ro_wrapped0, Z.ltb_irrefl. done.
Qed.

Lemma normalizeWrapped_id s : ring_ok s → normalizeWrapped s = s.
Proof. intros H. unfold normalizeWrapped. rewrite normalize_id by done. destruct H. by rewrite ro_wrapped0, Z.eqb_refl. Qed.

(** ** Ring arithmetic *)
Lemma phys_mod s i : ring_ok s → 0 < len s.(sb_lines) → 0 ≤ i →
  physicalIndex s i = (s.(sb_offset) + i) `mod` len s.(sb_lines).
Proof. intros [] Hl Hi. unfold physicalIndex. rewrite (proj2 (Z.eqb_neq _ _)) by lia. apply Z.rem_mod_nonneg; lia. Qed.

Lemma phys_bounds s i : ring_ok s → 0 < len s.(sb_lines) → 0 ≤ i → 0 ≤ physicalIndex s i < len s.(sb_lines).
Proof. intros. rewrite phys_mod by done. apply Z.mod_pos_bound. lia. Qed.

Lemma phys_inj s i j : ring_ok s → 0 ≤ i < len s.(sb_lines) → 0 ≤ j < len s.(sb_lines) →
  physicalIndex s i = physicalIndex s j → i = j.
Proof.
  intros H Hi Hj. rewrite !phys_mod by (done || lia). intros E. destruct H. set (L := len (sb_lines s)) in *.
  pose proof (Z.div_mod (sb_offset s + i) L ltac:(lia)). pose proof (Z.div_mod (sb_offset s + j) L ltac:(lia)).
  set (a := (sb_offset s + i) / L) in *. set (b := (sb_offset s + j) / L) in *. rewrite E in *.
  assert (i - j = L * (a - b)) by nia. assert (a = b) by nia. subst a b. nia.
Qed.

(** ** Dropping *)
Lemma clear_slots s idx s1 :
  ring_ok s → 0 < len s.(sb_lines) → Forall (λ i, 0 ≤ i) idx →
  len s1.(sb_lines) = len s.(sb_lines) → len s1.(sb_wrapped) = len s.(sb_lines) →
  let s2 := foldl (clear_slot s) s1 idx in
  len s2.(sb_lines) = len s.(sb_lines) ∧ len s2.(sb_wrapped) = len s.(sb_lines)
  ∧ s2.(sb_maxLines) = s1.(sb_maxLines) ∧ s2.(sb_offset) = s1.(sb_offset) ∧ s2.(sb_size) = s1.(sb_size)
  ∧ s2.(sb_cap) = s1.(sb_cap)
  ∧ ∀ j, 0 ≤ j → j ∉ (physicalIndex s <$> idx) →
      at_ [] s2.(sb_lines) j = at_ [] s1.(sb_lines) j ∧ at_ false s2.(sb_wrapped) j = at_ false s1.(sb_wrapped) j.
Proof.
  intros H Hl. revert s1. induction idx as [|i idx IH]; intros s1 Hidx E1 E2; [done|].
  apply Forall_cons in Hidx as [Hi Hidx]. cbn [foldl].
  pose proof (phys_bounds s i H Hl Hi) as Hb.
  set (p := physicalIndex s i) in *.
  assert (clear_slot s s1 i = mkScrollback (set_at s1.(sb_lines) p []) (set_at s1.(sb_wrapped) p false)
            s1.(sb_maxLines) s1.(sb_offset) s1.(sb_size) s1.(sb_cap)) as ->.
  { unfold clear_slot. fold p. destruct s1; cbn in *. by rewrite (proj2 (Z.ltb_lt _ _)) by lia. }
  edestruct IH as (A1 & A2 & A3 & A4 & A5 & A6 & A7); [done| | |split_and!];
    [| |exact A1|exact A2|exact A3|exact A4|exact A5|exact A6|]; cbn [sb_lines sb_wrapped]; rewrite ?len_set_at; try done.
  intros j Hj Hnin. rewrite fmap_cons, not_elem_of_cons in Hnin. destruct Hnin as [Hne Hnin].
  destruct (A7 j Hj Hnin) as [B1 B2]. rewrite B1, B2. cbn [sb_lines sb_wrapped].
  by rewrite !at_set_other by (subst p; lia).
Qed.

Lemma contents_drop s s' k :
  0 ≤ k ≤ s.(sb_size) → s'.(sb_size) = s.(sb_size) - k →
  (∀ i, 0 ≤ i < s.(sb_size) - k → line_at s' i = line_at s (k + i) ∧ wrapped_at s' i = wrapped_at s (k + i)) →
  contents s' = drop (Z.to_nat k) (contents s).
Proof.
  intros Hk Es' Hat. unfold contents. rewrite Es'. apply drop_fmap_seqZ; [done|].
  intros i Hi. destruct (Hat i Hi) as [-> ->]. done.
Qed.

Lemma len_contents s : 0 ≤ s.(sb_size) → len (contents s) = s.(sb_size).
Proof. intros H. unfold contents, len. rewrite length_fmap, length_seqZ. lia. Qed.

Lemma drop_contents s n :
  0 ≤ s.(sb_size) → drop (Z.to_nat n) (contents s) = drop (Z.to_nat (Z.min (Z.max 0 n) s.(sb_size))) (contents s).
Proof.
  intros H. destruct (decide (n ≤ s.(sb_size))) as [Hn|Hn]; [f_equal; lia|].
  pose proof (len_contents s H) as Hl. unfold len in Hl. rewrite !drop_ge by lia. done.
Qed.

(** What [dropOldest] leaves of a ring that is not empty. *)
Lemma drop_ring s m s2 :
  ring_ok s → 0 < len s.(sb_lines) → 0 ≤ m ≤ s.(sb_size) →
  s2 = foldl (clear_slot s) s (seqZ 0 m) →
  let s3 := s2 <| sb_offset := Z.rem (s2.(sb_offset) + m) (len s2.(sb_lines)) |> <| sb_size := s2.(sb_size) - m |> in
  ring_ok s3 ∧ contents s3 = drop (Z.to_nat m) (contents s) ∧ len s3.(sb_lines) = len s.(sb_lines)
  ∧ s3.(sb_maxLines) = s.(sb_maxLines) ∧ s3.(sb_size) = s.(sb_size) - m
  ∧ s3.(sb_offset) = (s.(sb_offset) + m) `mod` len s.(sb_lines).
Proof.
  intros H Hl Hm -> s3. pose proof H as [Hw Hsz Hoff Hcap].
  destruct (clear_slots s (seqZ 0 m) s H Hl) as (A1 & A2 & A3 & A4 & A5 & A6 & A7); [|done|done|].
  { apply Forall_forall. intros i Hi%elem_of_seqZ. lia. }
  set (s2 := foldl (clear_slot s) s (seqZ 0 m)) in *.
  assert (Eoff : s3.(sb_offset) = (s.(sb_offset) + m) `mod` len s.(sb_lines)).
  { unfold s3. cbn. rewrite A4, A1. apply Z.rem_mod_nonneg; lia. }
  pose proof (Z.mod_pos_bound (s.(sb_offset) + m) (len s.(sb_lines)) Hl) as Hb.
  assert (H3 : ring_ok s3).
  { split; rewrite ?Eoff; unfold s3; cbn; rewrite ?A1, ?A2, ?A5, ?A6; lia. }
  split_and!; try done; try (unfold s3; cbn; lia). apply contents_drop; [done|unfold s3; cbn; lia|].
  intros i Hi. unfold line_at, wrapped_at.
  assert (physicalIndex s3 i = physicalIndex s (m + i)) as ->.
  { rewrite !phys_mod by (done || (unfold s3; cbn; lia) || lia). rewrite Eoff. unfold s3; cbn. rewrite A1.
    rewrite Zplus_mod_idemp_l. f_equal. lia. }
  pose proof (phys_bounds s (m + i) H Hl ltac:(lia)).
  destruct (A7 (physicalIndex s (m + i))) as [B1 B2]; [lia| |by unfold s3; cbn].
  intros (j & E & Hj%elem_of_seqZ)%list_elem_of_fmap. apply phys_inj in E; [lia|done|lia..].
Qed.

Lemma drop_spec s n :
  ring_ok s →
  let s' := dropOldest n s in
  let m := Z.min (Z.max 0 n) s.(sb_size) in
  ring_ok s' ∧ contents s' = drop (Z.to_nat n) (contents s)
  ∧ len s'.(sb_lines) = len s.(sb_lines) ∧ s'.(sb_maxLines) = s.(sb_maxLines) ∧ s'.(sb_size) = s.(sb_size) - m
  ∧ (s'.(sb_size) = 0 ∧ (n ≤ 0 ∨ s'.(sb_offset) = 0) ∨ s'.(sb_offset) = (s.(sb_offset) + m) `mod` len s.(sb_lines))
  ∧ (n ≤ 0 → s' = s).
Proof.
  intros H s' m. pose proof H as [Hw Hsz Hoff Hcap]. rewrite (drop_contents s n) by lia. fold m.
  assert (Hm : m = Z.min (Z.max 0 n) s.(sb_size)) by done. clearbody m.
  unfold s', dropOldest. destruct (Z.leb_spec n 0) as [Hn|Hn].
  { assert (m = 0) as -> by lia. cbn. split_and!; try done; [lia|].
    destruct (decide (len s.(sb_lines) = 0)); [left; lia|]. right. rewrite Z.add_0_r, Z.mod_small; lia. }
  rewrite normalize_id by done.
  assert ((if sb_size s <? n then sb_size s else n) = m) as -> by (rewrite Hm; destruct (Z.ltb_spec (sb_size s) n); lia).
  destruct (decide (len s.(sb_lines) = 0)) as [E0|E0].
  { assert (m = 0) as -> by lia. change (foldl (clear_slot s) s (seqZ 0 0)) with s. cbn.
    rewrite (proj2 (Z.ltb_ge _ _)) by lia. cbn.
    rewrite Z.sub_0_r, (proj2 (Z.eqb_eq _ _)) by lia.
    split_and!; try done; try (cbn; lia).
    - split; cbn; lia.
    - unfold contents. cbn. by replace (sb_size s) with 0 by lia. }
  destruct (drop_ring s m _ H ltac:(lia) ltac:(lia) eq_refl) as (R1 & R2 & R3 & R4 & R5 & R6).
  set (s2 := foldl (clear_slot s) s (seqZ 0 m)) in *.
  assert (E2 : len s2.(sb_lines) = len s.(sb_lines)) by done.
  rewrite (proj2 (Z.ltb_lt _ _)) by lia. cbn in R5 |- *.
  destruct (Z.eqb_spec (s2.(sb_size) - m) 0) as [Ez|Ez].
  - split_and!; try done; [| |left; cbn; lia|lia].
    + destruct R1. split; cbn in *; try done; lia.
    + rewrite <- R2. unfold contents. cbn. by rewrite Ez.
  - split_and!; try done; [by right|lia].
Qed.

Lemma drop_ok s n :
  sb_ok s → sb_ok (dropOldest n s) ∧ contents (dropOldest n s) = drop (Z.to_nat n) (contents s)
  ∧ (dropOldest n s).(sb_maxLines) = s.(sb_maxLines)
  ∧ (dropOldest n s).(sb_size) = s.(sb_size) - Z.min (Z.max 0 n) s.(sb_size).
Proof.
  intros [H Hmax Hlen Hroom]. destruct (drop_spec s n H) as (D1 & D2 & D3 & D4 & D5 & D6 & D7).
  split_and!; try done. split; [done|by rewrite D4|by rewrite D3, D4|]. rewrite D3, D4.
  destruct (decide (n ≤ 0)) as [Hn|Hn]; [by rewrite D7|].
  destruct Hroom as [Hroom|Hroom]; [left|by right]. destruct H. rewrite D5.
  destruct D6 as [[E [?|E0]]|E]; [lia..|].
  destruct (decide (len s.(sb_lines) = 0)) as [E0|E0]; [rewrite E0, Zmod_0_r in E; lia|].
  destruct (decide (s.(sb_offset) + Z.min (Z.max 0 n) s.(sb_size) = len s.(sb_lines))) as [Ef|Ef].
  - rewrite E, Ef, Z.mod_same by lia. lia.
  - rewrite E, Z.mod_small by lia. lia.
Qed.

(** ** Pushing *)
Lemma contents_snoc s s' x w :
  0 ≤ s.(sb_size) → s'.(sb_size) = s.(sb_size) + 1 →
  (∀ i, 0 ≤ i < s.(sb_size) → line_at s' i = line_at s i ∧ wrapped_at s' i = wrapped_at s i) →
  line_at s' s.(sb_size) = x → wrapped_at s' s.(sb_size) = w →
  contents s' = contents s ++ [(x, w)].
Proof.
  intros H Es Hat <- <-. unfold contents. rewrite Es, seqZ_snoc, fmap_app by done. f_equal.
  apply fmap_seqZ_ext. intros i Hi. destruct (Hat i Hi) as [-> ->]. done.
Qed.

Lemma line_at_eq s i : line_at s i = at_ [] s.(sb_lines) (physicalIndex s i).
Proof. done. Qed.

(** A slot past the rows, with a row appended when there is space to grow. *)
Lemma write_slot s x w :
  ring_ok s → s.(sb_size) < len s.(sb_lines) →
  let p := physicalIndex s s.(sb_size) in
  let s' := mkScrollback (set_at s.(sb_lines) p x) (set_at s.(sb_wrapped) p w) s.(sb_maxLines) s.(sb_offset)
              (s.(sb_size) + 1) s.(sb_cap) in
  ring_ok s' ∧ contents s' = contents s ++ [(x, w)].
Proof.
  intros H Hs p s'. pose proof H as [Hw Hsz Hoff Hcap].
  assert (Hph : ∀ i, physicalIndex s' i = physicalIndex s i).
  { intros i. unfold physicalIndex, s'. cbn. by rewrite len_set_at. }
  pose proof (phys_bounds s s.(sb_size) H ltac:(lia) ltac:(lia)) as Hp. fold p in Hp.
  split; [split; unfold s'; cbn; rewrite ?len_set_at; lia|].
  apply contents_snoc; [lia|done| | |]; unfold line_at, wrapped_at; setoid_rewrite Hph.
  - intros i Hi. pose proof (phys_bounds s i H ltac:(lia) ltac:(lia)). unfold s'. cbn [sb_lines sb_wrapped].
    assert (p ≠ physicalIndex s i) by (intros E; apply phys_inj in E; [lia|done|lia..]).
    by rewrite !at_set_other by lia.
  - fold p. unfold s'. cbn [sb_lines sb_wrapped]. by rewrite at_set_same by exact Hp.
  - fold p. unfold s'. cbn [sb_lines sb_wrapped]. by rewrite at_set_same by (rewrite Hw; exact Hp).
Qed.

Lemma grow_ring s :
  ring_ok s → s.(sb_offset) + s.(sb_size) ≤ len s.(sb_lines) →
  let s' := append_line grow [] s <| sb_wrapped := s.(sb_wrapped) ++ [false] |> in
  ring_ok s' ∧ contents s' = contents s ∧ len s'.(sb_lines) = len s.(sb_lines) + 1.
Proof.
  intros [Hw Hsz Hoff Hcap] Hroom s'.
  assert (El : len s'.(sb_lines) = len s.(sb_lines) + 1) by (unfold s'; cbn [append_line]; apply len_snoc).
  split_and!; [split|unfold contents|done].
  - rewrite El. unfold s'; cbn. rewrite len_snoc. lia.
  - rewrite El. unfold s'; cbn. lia.
  - rewrite El. unfold s'; cbn. lia.
  - rewrite El. unfold s'. cbn. rewrite len_snoc. case_match; [lia|]. apply grow_enough.
  - apply fmap_seqZ_ext. intros i Hi. unfold line_at, wrapped_at.
    assert (Hi' : i < s.(sb_size)) by (unfold s' in Hi; cbn in Hi; lia).
    unfold physicalIndex. rewrite El, !(proj2 (Z.eqb_neq _ _)) by lia.
    change (sb_offset s') with (sb_offset s). change (sb_lines s') with (sb_lines s ++ [[]]).
    change (sb_wrapped s') with (sb_wrapped s ++ [false]).
    rewrite !Z.rem_small, !at_app_l by lia. done.
Qed.

Lemma push_room s x w :
  sb_ok s → s.(sb_size) < s.(sb_maxLines) →
  let s1 := if len s.(sb_lines) <? s.(sb_maxLines)
            then append_line grow [] s <| sb_wrapped := s.(sb_wrapped) ++ [false] |> else s in
  let p := physicalIndex s1 s1.(sb_size) in
  let s' := mkScrollback (set_at s1.(sb_lines) p x) (set_at s1.(sb_wrapped) p w) s1.(sb_maxLines) s1.(sb_offset)
              (s1.(sb_size) + 1) s1.(sb_cap) in
  sb_ok s' ∧ contents s' = contents s ++ [(x, w)].
Proof.
  intros [H Hmax Hlen Hroom] Hsz s1 p s'.
  assert (ring_ok s1 ∧ contents s1 = contents s ∧ s1.(sb_size) < len s1.(sb_lines)
    ∧ len s1.(sb_lines) ≤ s1.(sb_maxLines)
    ∧ (s1.(sb_offset) + s1.(sb_size) + 1 ≤ len s1.(sb_lines) ∨ len s1.(sb_lines) = s1.(sb_maxLines))
    ∧ 0 < s1.(sb_maxLines)) as (G1 & <- & G3 & G4 & G5 & G6).
  { unfold s1. destruct (Z.ltb_spec (len s.(sb_lines)) s.(sb_maxLines)) as [Hl|Hl].
    - destruct (grow_ring s H ltac:(lia)) as (E1 & E2 & E3). cbn [append_line] in *. cbn in *.
      pose proof H as []. split_and!; try done; rewrite ?len_snoc; lia.
    - pose proof H as []. split_and!; try done; rewrite ?len_snoc; lia. }
  destruct (write_slot s1 x w G1 G3) as [W1 W2]. split; [|done].
  split; [done|done|unfold s'; cbn; by rewrite len_set_at|unfold s'; cbn; rewrite len_set_at; lia].
Qed.

Lemma push_append s x w :
  sb_ok s → s.(sb_offset) = 0 → s.(sb_size) = len s.(sb_lines) → s.(sb_size) < s.(sb_maxLines) →
  let s' := append_line grow x s <| sb_wrapped := s.(sb_wrapped) ++ [w] |> <| sb_size := s.(sb_size) + 1 |> in
  sb_ok s' ∧ contents s' = contents s ++ [(x, w)].
Proof.
  intros [[Hw Hsz Hoff Hcap] Hmax Hlen Hroom] E0 Ef Hlt s'.
  assert (El : len s'.(sb_lines) = len s.(sb_lines) + 1) by (unfold s'; cbn [append_line]; apply len_snoc).
  assert (Ew : s'.(sb_wrapped) = s.(sb_wrapped) ++ [w]) by done.
  split; [split; [split| | |]|apply contents_snoc]; rewrite ?Ew, ?len_snoc, ?El;
    change (sb_size s') with (sb_size s + 1); change (sb_offset s') with (sb_offset s);
    change (sb_maxLines s') with (sb_maxLines s); try lia.
  - unfold s'. cbn. rewrite len_snoc. case_match; [lia|]. apply grow_enough.
  - intros i Hi. unfold line_at, wrapped_at, physicalIndex. rewrite El, !(proj2 (Z.eqb_neq _ _)) by lia.
    change (sb_offset s') with (sb_offset s). change (sb_lines s') with (sb_lines s ++ [x]).
    rewrite Ew, E0, !Z.rem_small, !at_app_l by lia. done.
  - unfold line_at, physicalIndex. rewrite El, (proj2 (Z.eqb_neq _ _)) by lia.
    change (sb_offset s') with (sb_offset s). change (sb_lines s') with (sb_lines s ++ [x]).
    rewrite E0, Z.rem_small, Ef by lia. apply at_app_end.
  - unfold wrapped_at, physicalIndex. rewrite El, (proj2 (Z.eqb_neq _ _)), Ew by lia.
    change (sb_offset s') with (sb_offset s). rewrite E0, Z.rem_small, Ef, <- Hw by lia. apply at_app_end.
Qed.

Lemma quot_tenth m : 0 < m → (if m ÷ 10 <? 1 then 1 else m ÷ 10) = Z.max 1 (m ÷ 10) ∧ Z.max 1 (m ÷ 10) ≤ m.
Proof.
  intros H. pose proof (Z.quot_div_nonneg m 10 ltac:(lia) ltac:(lia)) as ->.
  pose proof (Z.div_le_upper_bound m 10 m ltac:(lia) ltac:(lia)). destruct (Z.ltb_spec (m / 10) 1); lia.
Qed.

Lemma push_ok s x w :
  sb_ok s → sb_ok (PushWrapped grow x w s)
  ∧ contents (PushWrapped grow x w s) = spec_push s.(sb_maxLines) (x, w) (contents s)
  ∧ (PushWrapped grow x w s).(sb_maxLines) = s.(sb_maxLines).
Proof.
  intros H. pose proof H as [Hr Hmax Hlen _]. destruct (quot_tenth _ Hmax) as [Eq Hq]. destruct Hr as [Hw Hsz _ _].
  unfold PushWrapped, spec_push. rewrite (proj2 (Z.leb_gt _ _)), normalize_id, len_contents by (lia || apply H).
  set (s0 := if sb_maxLines s <=? sb_size s then _ else s).
  assert (sb_ok s0 ∧ s0.(sb_maxLines) = s.(sb_maxLines) ∧ s0.(sb_size) < s0.(sb_maxLines)
    ∧ contents s0 = if sb_maxLines s <=? sb_size s
                    then drop (Z.to_nat (Z.max 1 (sb_maxLines s ÷ 10))) (contents s) else contents s)
    as (K1 & K2 & K3 & <-).
  { unfold s0. destruct (Z.leb_spec s.(sb_maxLines) s.(sb_size)) as [Hf|Hf]; [|by split_and!].
    rewrite Eq, (proj2 (Z.ltb_ge _ _)) by lia.
    destruct (drop_ok s (Z.max 1 (s.(sb_maxLines) ÷ 10)) H) as (D1 & D2 & D3 & D4). split_and!; try done. lia. }
  clearbody s0. rewrite <- K2.
  destruct ((sb_cap s0 <? sb_maxLines s0) && (sb_offset s0 =? 0) && (sb_size s0 =? len (sb_lines s0)))%bool eqn:Ec.
  - apply andb_prop in Ec as [[_ ?%Z.eqb_eq]%andb_prop ?%Z.eqb_eq].
    destruct (push_append s0 x w K1) as [P1 P2]; try done.
  - destruct (push_room s0 x w K1 K3) as [P1 P2]. split_and!; [exact P1|exact P2|].
    cbn [sb_maxLines]. by destruct (len (sb_lines s0) <? sb_maxLines s0).
Qed.
End Facts.

(** * What the scrollback promises

    The scrollback is a bounded list of rows with a soft-wrap marker each: the reference
    below, against which every sequence of calls on a new scrollback is compared. *)

(** ** The reference *)
Section Reference.
Context {Cell : Type}.

Inductive ScrollOp : Type :=
  | OPush (line : list Cell) (wrapped : bool)
  | OSetMaxLines (maxLines : Z)
  | OTrimOldest (n : Z)
  | OSetLineWrapped (index : Z) (wrapped : bool)
  | OSetWrapped (wrapped : list bool)
  | OClear
  | OPushN (rows : Z → option (list Cell)) (height : Z) (wrapped : list bool) (used : list Z) (y n : Z).

Definition run_op (grow : Z → Z → Z) (s : Scrollback Cell) (op : ScrollOp) : Scrollback Cell :=
  match op with
  | OPush line wrapped => PushWrapped grow line wrapped s
  | OSetMaxLines maxLines => SetMaxLines grow maxLines s
  | OTrimOldest n => TrimOldest n s
  | OSetLineWrapped index wrapped => SetLineWrapped index wrapped s
  | OSetWrapped wrapped => SetWrapped wrapped s
  | OClear => Clear s
  | OPushN rows height wrapped used y n => PushN grow rows height wrapped used y n s
  end.

(** The abstract state: the bound and the rows, the oldest first. *)
Definition spec_state : Type := Z * list (list Cell * bool).

Definition set_mark (w : bool) (row : list Cell * bool) : list Cell * bool := (row.1, w).

(** A row of the screen is pushed up to its used width; the rows outside the buffer are skipped. *)
Definition screen_row (rows : Z → option (list Cell)) (wrapped : list bool) (used : list Z) (y : Z)
    : option (list Cell * bool) :=
  (λ line, (prefix_ (clampLocalInt (intAt used y) 0 (len line)) line, boolAt wrapped y)) <$> rows y.

Definition spec_op (st : spec_state) (op : ScrollOp) : spec_state :=
  let '(max, q) := st in
  match op with
  | OPush line wrapped => (max, spec_push max (line, wrapped) q)
  | OSetMaxLines m => if m <=? 0 then st else (m, drop (Z.to_nat (len q - m)) q)
  | OTrimOldest n => (max, drop (Z.to_nat n) q)
  | OSetLineWrapped i w => (max, if i <? 0 then q else alter (set_mark w) (Z.to_nat i) q)
  | OSetWrapped ws => (max, imap (λ i row, set_mark (nth i ws false) row) q)
  | OClear => (max, [])
  | OPushN rows height wrapped used y n =>
      (max, foldl (λ q row, spec_push max row q) q
              (omap (λ i, screen_row rows wrapped used (y + i)) (seqZ 0 (Z.min n (height - y)))))
  end.
End Reference.
Arguments ScrollOp : clear implicits.
Arguments spec_state : clear implicits.

(** ** Observers *)
Section Observers.
Context {Cell : Type}.
Implicit Types s : Scrollback Cell.

Lemma contents_lookup s i : 0 ≤ i < s.(sb_size) → contents s !! Z.to_nat i = Some (line_at s i, wrapped_at s i).
Proof.
  intros H. unfold contents. rewrite list_lookup_fmap, lookup_seqZ_lt by lia. cbn.
  by replace (0 + Z.of_nat (Z.to_nat i)) with i by lia.
Qed.

Lemma contents_lookup_none s i : 0 ≤ s.(sb_size) ≤ i → contents s !! Z.to_nat i = None.
Proof. intros H. unfold contents. rewrite list_lookup_fmap, lookup_seqZ_ge by lia. done. Qed.

Lemma phys_straight s i :
  s.(sb_offset) = 0 → 0 ≤ i < len s.(sb_lines) → physicalIndex s i = i.
Proof. intros E H. unfold physicalIndex. rewrite E, (proj2 (Z.eqb_neq _ _)), Z.rem_small by lia. lia. Qed.

Lemma logicalLines_contents s : ring_ok s → logicalLines s = (contents s).*1.
Proof.
  intros [Hw Hsz Hoff Hcap]. unfold logicalLines, contents. rewrite <- list_fmap_compose.
  destruct (Z.leb_spec s.(sb_size) 0); [by replace (sb_size s) with 0 by lia|].
  destruct (_ && _)%bool eqn:E; [|done]. apply andb_prop in E as [E0%Z.eqb_eq E1%Z.eqb_eq].
  rewrite (prefix_seqZ []) by lia. apply fmap_seqZ_ext. intros i Hi. cbn. unfold line_at.
  by rewrite phys_straight by (done || lia).
Qed.

Lemma logicalWrapped_contents s : ring_ok s → logicalWrapped s = (contents s).*2.
Proof.
  intros H. pose proof H as [Hw Hsz Hoff Hcap]. unfold logicalWrapped, contents. rewrite <- list_fmap_compose.
  destruct (Z.leb_spec s.(sb_size) 0); [by replace (sb_size s) with 0 by lia|].
  destruct (_ && _)%bool eqn:E.
  - apply andb_prop in E as [E0%Z.eqb_eq E1%Z.eqb_eq].
    rewrite (prefix_seqZ false) by lia. apply fmap_seqZ_ext. intros i Hi. cbn. unfold wrapped_at.
    by rewrite phys_straight by (done || lia).
  - apply fmap_seqZ_ext. intros i Hi. cbn. pose proof (phys_bounds s i H ltac:(lia) ltac:(lia)).
    by rewrite (proj2 (Z.ltb_lt _ _)) by lia.
Qed.

Lemma GetLine_contents s i : ring_ok s → GetLine i s = if i <? 0 then None else fst <$> contents s !! Z.to_nat i.
Proof.
  intros H. unfold GetLine. rewrite normalize_id by done. destruct (Z.ltb_spec i 0); [done|]. destruct H.
  destruct (Z.leb_spec s.(sb_size) i); [by rewrite contents_lookup_none by lia|by rewrite contents_lookup by lia].
Qed.

Lemma LineWrapped_contents s i :
  ring_ok s → LineWrapped i s = if i <? 0 then false else from_option snd false (contents s !! Z.to_nat i).
Proof.
  intros H. unfold LineWrapped. rewrite normalize_id by done. destruct (Z.ltb_spec i 0); [done|]. destruct H.
  destruct (Z.leb_spec s.(sb_size) i); [by rewrite contents_lookup_none by lia|by rewrite contents_lookup by lia].
Qed.
End Observers.

(** ** The operations *)
Section Operations.
Context {Cell : Type}.
Context (grow : Z → Z → Z) (grow_enough : ∀ c n, n ≤ grow c n).
Implicit Types s : Scrollback Cell.

Lemma fst_snd_eq {A B} (l k : list (A * B)) : l.*1 = k.*1 → l.*2 = k.*2 → l = k.
Proof.
  revert k. induction l as [|[a b] l IH]; intros [|[a' b'] k]; try done. cbn.
  intros [= -> H1] [= -> H2]. f_equal. by apply IH.
Qed.

Lemma compact_ring s : ring_ok s → contents (compact grow s) = contents s ∧ ring_ok (compact grow s)
  ∧ len (compact grow s).(sb_lines) = s.(sb_size) ∧ (compact grow s).(sb_offset) = 0
  ∧ (compact grow s).(sb_size) = s.(sb_size).
Proof.
  intros H. pose proof H as [Hw Hsz Hoff Hcap].
  assert (El : len (contents s).*1 = s.(sb_size)).
  { unfold len. rewrite length_fmap. apply (len_contents s). lia. }
  assert (Ew : len (contents s).*2 = s.(sb_size)).
  { unfold len. rewrite length_fmap. apply (len_contents s). lia. }
  assert (R : ring_ok (compact grow s)).
  { unfold compact. rewrite logicalLines_contents, logicalWrapped_contents by done.
    split; cbn; rewrite ?El, ?Ew; try lia. apply grow_enough. }
  assert (E1 : (compact grow s).(sb_lines) = (contents s).*1) by (cbn; by apply logicalLines_contents).
  assert (E2 : (compact grow s).(sb_wrapped) = (contents s).*2) by (cbn; by apply logicalWrapped_contents).
  assert (E3 : (compact grow s).(sb_size) = s.(sb_size)) by (cbn; by rewrite logicalLines_contents).
  split_and!; try done.
  apply fst_snd_eq.
  - rewrite <- logicalLines_contents by done. unfold logicalLines. rewrite E3, E1, El, !Z.eqb_refl.
    destruct (decide (sb_size s ≤ 0)) as [Hz|Hz].
    + rewrite (proj2 (Z.leb_le _ _)) by done. unfold contents. by replace (sb_size s) with 0 by lia.
    + rewrite (proj2 (Z.leb_gt _ _)) by lia. cbn. unfold prefix_. rewrite take_ge; [done|]. unfold len in El. lia.
  - rewrite <- logicalWrapped_contents by done. unfold logicalWrapped. rewrite E3, E2, Ew, !Z.eqb_refl.
    destruct (decide (sb_size s ≤ 0)) as [Hz|Hz].
    + rewrite (proj2 (Z.leb_le _ _)) by done. unfold contents. by replace (sb_size s) with 0 by lia.
    + rewrite (proj2 (Z.leb_gt _ _)) by lia. cbn. unfold prefix_. rewrite take_ge; [done|]. unfold len in Ew. lia.
Qed.

Lemma compact_ok s : ring_ok s → 0 < s.(sb_maxLines) → s.(sb_size) ≤ s.(sb_maxLines) →
  sb_ok (compact grow s) ∧ contents (compact grow s) = contents s.
Proof.
  intros H Hmax Hle. destruct (compact_ring s H) as (C1 & C2 & C3 & C4 & C5).
  assert ((compact grow s).(sb_maxLines) = s.(sb_maxLines)) as Em by done.
  split; [|done]. split; rewrite ?Em, ?C3; try done. left. lia.
Qed.

Lemma ring_max s m : ring_ok s → ring_ok (s <| sb_maxLines := m |>).
Proof. by intros []. Qed.

Lemma setmax_ok s m :
  sb_ok s → 0 < m →
  sb_ok (SetMaxLines grow m s)
  ∧ contents (SetMaxLines grow m s) = drop (Z.to_nat (len (contents s) - m)) (contents s)
  ∧ (SetMaxLines grow m s).(sb_maxLines) = m.
Proof.
  intros [H _ _ _] Hm. pose proof H as [Hw Hsz _ _]. unfold SetMaxLines. rewrite (proj2 (Z.leb_gt _ _)) by done.
  pose proof (ring_max s m H) as H1. rewrite (normalize_id _ H1), len_contents by lia.
  set (s1 := s <| sb_maxLines := m |>) in *. assert (E : contents s1 = contents s) by done. rewrite <- E.
  change (sb_size s) with (sb_size s1) in *. destruct (Z.ltb_spec m s1.(sb_size)) as [Hlt|Hge].
  - destruct (drop_spec s1 (s1.(sb_size) - m) H1) as (D1 & D2 & D3 & D4 & D5 & _).
    change (sb_maxLines s1) with m in D4. rewrite <- D2.
    destruct (compact_ok _ D1) as [K1 K2]; [lia..|]. split_and!; try done.
  - rewrite (proj1 (Nat2Z.inj_iff (Z.to_nat _) 0%nat)) by lia.
    destruct (compact_ok s1 H1) as [K1 K2]; [done..|]. by split_and!.
Qed.

(** Setting marks leaves the rows. *)
Lemma contents_marks s ws :
  ring_ok s → len ws = len s.(sb_lines) →
  let s' := s <| sb_wrapped := ws |> in
  contents s' = imap (λ i row, set_mark (wrapped_at s' (Z.of_nat i)) row) (contents s).
Proof.
  intros H Hws s'. apply list_eq. intros i. rewrite list_lookup_imap. pose proof H as [Hw Hsz _ _].
  destruct (decide (Z.of_nat i < s.(sb_size))) as [Hi|Hi].
  - pose proof (contents_lookup s (Z.of_nat i) ltac:(lia)) as E. pose proof (contents_lookup s' (Z.of_nat i) ltac:(cbn; lia)) as E'.
    rewrite Nat2Z.id in E, E'. by rewrite E, E'.
  - pose proof (contents_lookup_none s (Z.of_nat i) ltac:(lia)) as E. pose proof (contents_lookup_none s' (Z.of_nat i) ltac:(cbn; lia)) as E'.
    rewrite Nat2Z.id in E, E'. by rewrite E, E'.
Qed.

Lemma marks_ok s ws : sb_ok s → len ws = len s.(sb_lines) → sb_ok (s <| sb_wrapped := ws |>).
Proof. intros [[] Hm Hl Hr] Hws. by split; [split|..]; cbn; rewrite ?Hws. Qed.

Lemma setmark_ok s i w :
  sb_ok s →
  sb_ok (SetLineWrapped i w s)
  ∧ contents (SetLineWrapped i w s) = (if i <? 0 then contents s else alter (set_mark w) (Z.to_nat i) (contents s))
  ∧ (SetLineWrapped i w s).(sb_maxLines) = s.(sb_maxLines).
Proof.
  intros Hs. pose proof Hs as [H _ _ _]. pose proof H as [Hw Hsz _ _]. unfold SetLineWrapped.
  destruct (Z.ltb_spec i 0) as [Hi|Hi]; [done|]. rewrite normalize_id by done.
  destruct (Z.leb_spec s.(sb_size) i) as [Hle|Hgt].
  { split_and!; try done. apply list_eq. intros j. destruct (decide (j = Z.to_nat i)) as [->|Hj].
    - by rewrite list_lookup_alter_eq, contents_lookup_none by lia.
    - by rewrite list_lookup_alter_ne. }
  rewrite normalizeWrapped_id by done. pose proof (phys_bounds s i H ltac:(lia) ltac:(lia)) as Hp.
  split_and!; [apply marks_ok; [done|by rewrite len_set_at]| |done].
  rewrite contents_marks by (done || by rewrite len_set_at).
  apply list_eq. intros j. rewrite list_lookup_imap.
  destruct (decide (j = Z.to_nat i)) as [->|Hj].
  - rewrite list_lookup_alter_eq. destruct (contents s !! Z.to_nat i); [|done]. cbn. do 2 f_equal.
    unfold wrapped_at. cbn [sb_wrapped]. rewrite Z2Nat.id by done. apply at_set_same. by rewrite Hw.
  - rewrite list_lookup_alter_ne by done. destruct (contents s !! j) as [row|] eqn:Ej; [|done]. cbn. f_equal.
    assert (Hjs : Z.of_nat j < s.(sb_size)).
    { apply lookup_lt_Some in Ej. pose proof (len_contents s) as Hc. unfold len in Hc. lia. }
    pose proof (contents_lookup s (Z.of_nat j) ltac:(lia)) as E. rewrite Nat2Z.id, Ej in E. injection E as ->.
    unfold set_mark, wrapped_at. cbn [sb_wrapped fst]. f_equal. apply at_set_other; [lia| |].
    + apply phys_bounds; [done|lia..].
    + intros E. apply phys_inj in E; [lia|done|lia..].
Qed.

(** The marks that the loop of [SetWrapped] writes. *)
Lemma marks_fold s ws n next :
  ring_ok s → 0 ≤ n ≤ s.(sb_size) → len next = len s.(sb_lines) →
  let r := foldl (λ next i, set_at next (physicalIndex s i) (at_ false ws i)) next (seqZ 0 n) in
  len r = len next
  ∧ ∀ j, 0 ≤ j < s.(sb_size) →
      at_ false r (physicalIndex s j) = if j <? n then at_ false ws j else at_ false next (physicalIndex s j).
Proof.
  intros H [Hn Hle] Hl. revert Hle. pattern n. apply natlike_ind; [|clear n Hn|done].
  { intros _. split; [done|]. intros j Hj. by rewrite (proj2 (Z.ltb_ge _ _)) by lia. }
  intros n Hn IH Hle. destruct IH as [I1 I2]; [lia|]. pose proof H as [Hw Hsz _ _].
  rewrite <- Z.add_1_r, seqZ_snoc by done. cbn zeta. rewrite foldl_app. cbn [foldl].
  set (r := foldl _ next (seqZ 0 n)) in *. pose proof (phys_bounds s n H ltac:(lia) Hn) as Hp.
  split; [by rewrite len_set_at|]. intros j Hj. destruct (decide (j = n)) as [->|Hne].
  - rewrite (proj2 (Z.ltb_lt _ _)) by lia. apply at_set_same. by rewrite I1, Hl.
  - rewrite at_set_other; [|lia|apply phys_bounds; [done|lia..]|intros E; apply phys_inj in E; [lia|done|lia..]].
    rewrite I2 by done. destruct (Z.ltb_spec j n), (Z.ltb_spec j (n + 1)); (done || lia).
Qed.

Lemma at_make_slice n i : at_ false (make_slice false n) i = false.
Proof. unfold at_, make_slice. rewrite nth_lookup. destruct (_ !! _) eqn:E; [|done]. by apply lookup_replicate in E as [-> _]. Qed.

Lemma setmarks_ok s ws :
  sb_ok s →
  sb_ok (SetWrapped ws s)
  ∧ contents (SetWrapped ws s) = imap (λ i row, set_mark (nth i ws false) row) (contents s)
  ∧ (SetWrapped ws s).(sb_maxLines) = s.(sb_maxLines).
Proof.
  intros Hs. pose proof Hs as [H _ _ _]. pose proof H as [Hw Hsz _ _].
  unfold SetWrapped. rewrite normalize_id, Z.max_r by (done || lia).
  assert (Hln : len (make_slice false (len s.(sb_lines))) = len s.(sb_lines)).
  { unfold len, make_slice. rewrite length_replicate. lia. }
  pose proof (len_nonneg ws).
  destruct (marks_fold s ws (Z.min s.(sb_size) (len ws)) _ H ltac:(lia) Hln) as [M1 M2].
  set (r := foldl _ _ _) in *. split_and!; [by apply marks_ok; rewrite ?M1|rewrite contents_marks by (done || by rewrite M1)|done].
  apply imap_ext. intros i row Hrow. f_equal.
  assert (Hi : Z.of_nat i < s.(sb_size)).
  { apply lookup_lt_Some in Hrow. pose proof (len_contents s) as Hc. unfold len in Hc. lia. }
  unfold wrapped_at. cbn [sb_wrapped]. change (physicalIndex _ (Z.of_nat i)) with (physicalIndex s (Z.of_nat i)).
  rewrite M2 by lia. destruct (Z.ltb_spec (Z.of_nat i) (Z.min s.(sb_size) (len ws))) as [Hlt|Hge].
  - unfold at_. by rewrite Nat2Z.id.
  - rewrite at_make_slice, nth_overflow; [done|]. unfold len in Hge. lia.
Qed.

Lemma clear_ok s : sb_ok s → sb_ok (Clear s) ∧ contents (Clear s) = [] ∧ (Clear s).(sb_maxLines) = s.(sb_maxLines).
Proof. intros [[] Hm Hl Hr]. split_and!; try done. pose proof (len_nonneg s.(sb_lines)). split; [split| | |]; unfold len in *; cbn in *; lia. Qed.

Lemma push_row_ok rows wrapped used y i s :
  sb_ok s →
  let r := push_row grow rows wrapped used y s i in
  sb_ok r ∧ r.(sb_maxLines) = s.(sb_maxLines)
  ∧ contents r = from_option (λ row, spec_push s.(sb_maxLines) row (contents s)) (contents s)
                   (screen_row rows wrapped used (y + i)).
Proof.
  intros H. unfold push_row, screen_row. destruct (rows (y + i)) as [line|]; [|done].
  destruct (push_ok grow grow_enough s (prefix_ (clampLocalInt (intAt used (y + i)) 0 (len line)) line)
              (boolAt wrapped (y + i)) H) as (P1 & P2 & P3). done.
Qed.

Lemma pushn_rows rows wrapped used y idx s :
  sb_ok s →
  let r := foldl (push_row grow rows wrapped used y) s idx in
  sb_ok r ∧ r.(sb_maxLines) = s.(sb_maxLines)
  ∧ contents r = foldl (λ q row, spec_push s.(sb_maxLines) row q) (contents s)
                   (omap (λ i, screen_row rows wrapped used (y + i)) idx).
Proof.
  revert s. induction idx as [|i idx IH]; intros s H; [done|]. cbn [foldl omap list_omap].
  destruct (push_row_ok rows wrapped used y i s H) as (P1 & P2 & P3).
  destruct (IH _ P1) as (I1 & I2 & I3). rewrite P2, P3 in *. split_and!; [done|done|]. cbn zeta. rewrite I3.
  by destruct (screen_row _ _ _ _).
Qed.

Lemma pushn_ok rows height wrapped used y n s :
  sb_ok s →
  let r := PushN grow rows height wrapped used y n s in
  sb_ok r ∧ r.(sb_maxLines) = s.(sb_maxLines)
  ∧ contents r = foldl (λ q row, spec_push s.(sb_maxLines) row q) (contents s)
                   (omap (λ i, screen_row rows wrapped used (y + i)) (seqZ 0 (Z.min n (height - y)))).
Proof.
  intros H. unfold PushN. destruct (Z.leb_spec n 0); [|by apply pushn_rows].
  assert (seqZ 0 (Z.min n (height - y)) = []) as -> by (apply seqZ_nil; lia). done.
Qed.

Lemma new_ok m : sb_ok (NewScrollback (Cell := Cell) m) ∧ contents (NewScrollback (Cell := Cell) m) = [].
Proof.
  unfold NewScrollback. set (m' := if m <=? 0 then _ else m).
  assert (0 < m') by (unfold m', DefaultScrollbackSize; destruct (Z.leb_spec m 0); lia).
  split; [|done]. split; [split| | |]; unfold len; cbn; lia.
Qed.

Lemma op_ok s op :
  sb_ok s → sb_ok (run_op grow s op)
  ∧ ((run_op grow s op).(sb_maxLines), contents (run_op grow s op)) = spec_op (s.(sb_maxLines), contents s) op.
Proof.
  intros H. destruct op as [line w|m|n|i w|ws| |rows height wrapped used y n]; cbn [run_op spec_op].
  - destruct (push_ok grow grow_enough s line w H) as (A & B & C). by rewrite B, C.
  - destruct (Z.leb_spec m 0) as [Hm|Hm].
    { unfold SetMaxLines. by rewrite (proj2 (Z.leb_le _ _)) by done. }
    destruct (setmax_ok s m H Hm) as (A & B & C). by rewrite B, C.
  - destruct (drop_ok s n H) as (A & B & C & _). unfold TrimOldest. by rewrite B, C.
  - destruct (setmark_ok s i w H) as (A & B & C). by rewrite B, C.
  - destruct (setmarks_ok s ws H) as (A & B & C). by rewrite B, C.
  - destruct (clear_ok s H) as (A & B & C). by rewrite B, C.
  - destruct (pushn_ok rows height wrapped used y n s H) as (A & B & C). cbn zeta in *. by rewrite B, C.
Qed.

Lemma run_ops_ok ops s :
  sb_ok s →
  let r := foldl (run_op grow) s ops in
  sb_ok r ∧ (r.(sb_maxLines), contents r) = foldl spec_op (s.(sb_maxLines), contents s) ops.
Proof.
  revert s. induction ops as [|op ops IH]; intros s H; [done|]. cbn [foldl].
  destruct (op_ok s op H) as [A <-]. by apply IH.
Qed.
End Operations.

(** ** The contract *)

(** C20: After any calls on a new scrollback, whatever capacity [append] leaves, the ring answers every
    query as the bounded list does: the rows in order with their marks, their number, a row and a mark by index,
    and a cell by position; and the list never exceeds the maximum. *)
Theorem scrollback_refines {Cell} (grow : Z → Z → Z) (m : Z) (ops : list (ScrollOp Cell))
    (grow_enough : ∀ c n, n ≤ grow c n) :
  let s := foldl (run_op grow) (NewScrollback m) ops in
  let '(max, q) := foldl spec_op ((NewScrollback (Cell := Cell) m).(sb_maxLines), []) ops in
  MaxLines s = max ∧ 0 < max ∧ len q ≤ max ∧ Len s = len q ∧ Lines s = q.*1 ∧ Wrapped s = q.*2
  ∧ (∀ i, GetLine i s = if i <? 0 then None else fst <$> q !! Z.to_nat i)
  ∧ (∀ i, LineWrapped i s = if i <? 0 then false else from_option snd false (q !! Z.to_nat i))
  ∧ (∀ x y, CellAt x y s = if (x <? 0) || (y <? 0) then None else q !! Z.to_nat y ≫= λ row, row.1 !! Z.to_nat x)%bool.
Proof.
  destruct (new_ok (Cell := Cell) m) as [N1 N2].
  destruct (run_ops_ok grow grow_enough ops _ N1) as [R1 R2]. rewrite N2 in R2. cbn zeta in *.
  set (s := foldl (run_op grow) _ ops) in *. rewrite <- R2. pose proof R1 as [H Hmax Hlen Hroom]. pose proof H as [Hw Hsz _ _].
  assert (HG := λ i, GetLine_contents s i H). rewrite len_contents by lia.
  split_and!; try done; [lia| | | | |].
  - unfold Len. by rewrite normalize_id.
  - unfold Lines. rewrite normalize_id by done. by apply logicalLines_contents.
  - unfold Wrapped. rewrite normalize_id, normalizeWrapped_id by done. by apply logicalWrapped_contents.
  - intros i. by apply LineWrapped_contents.
  - intros x y. unfold CellAt. rewrite HG. destruct (Z.ltb_spec y 0); [by rewrite orb_true_r|]. rewrite orb_false_r.
    destruct (contents s !! Z.to_nat y) as [[line w]|]; cbn; [|by destruct (_ <? _)].
    destruct (Z.ltb_spec x 0); [done|]. cbn. destruct (Z.leb_spec (len line) x) as [Hx|Hx]; [|done].
    symmetry. apply lookup_ge_None. unfold len in Hx. lia.
Qed.

(** Sixteen slots at a time; a maximum of 3 rows, pushed past it, with its marks set and the ring compacted. *)
Module ScrollDemo.
Definition grow16 (c n : Z) : Z := Z.max n (c + 16).
Definition ops : list (ScrollOp Z) :=
  [OPush [1] false; OPush [2] true; OPush [3] false; OPush [4; 5] false; OSetLineWrapped 0 false; OPush [6] true;
   OTrimOldest 1; OSetMaxLines 5; OPushN (λ y, Some [y; y + 1; y + 2]) 4 [false; true] [9; 2; 0] 1 7].
End ScrollDemo.

Lemma scrollback_refines_witness :
  let s := foldl (run_op ScrollDemo.grow16) (NewScrollback 3) ScrollDemo.ops in
  Lines s = [[4; 5]; [6]; [1; 2]; []; []] ∧ Wrapped s = [false; true; true; false; false] ∧ Len s = 5
  ∧ CellAt 1 0 s = Some 5.
Proof.
  pose proof (scrollback_refines ScrollDemo.grow16 3 ScrollDemo.ops ltac:(unfold ScrollDemo.grow16; lia)) as H.
  cbn zeta in *. set (r := foldl spec_op _ _) in H.
  assert (r = (5, [([4; 5], false); ([6], true); ([1; 2], true); ([], false); ([], false)])) as E by (by vm_compute).
  rewrite E in H. destruct H as (_ & _ & _ & -> & -> & -> & _ & _ & ->). by vm_compute.
Defined.
