(* ===== verification/VtReflow.v ===== *)
(** * Reflow of wrapped lines

    [vterm/internal/vt/reflow.go]: when the width of a terminal changes, the rows of the
    history and the screen are joined into logical lines along their soft-wrap marks and cut
    again at the new width; the cursor travels through an offset into the text.

    A cell is a parameter with the two facts of it that the code asks for. *)
From S2P Require Import Prelude VtScrollback.
Local Open Scope Z_scope.
Local Open Scope bool_scope.

(** [uv.Cell]: [IsZero()] and the field [Width]. *)
Class UvCell (Cell : Type) := { IsZero : Cell → bool; CellWidth : Cell → Z }.

Section Reflow.
Context `{UvCell Cell}.

Record reflowLine := mkReflowLine { rl_cells : list Cell; rl_wrapped : bool }.

Definition visibleCellWidth (cell : Cell) : Z :=
  if IsZero cell then 0 else if CellWidth cell <=? 0 then 0 else CellWidth cell.

Definition lineCellWidth (line : list Cell) : Z := foldl (λ width cell, width + visibleCellWidth cell) 0 line.

Definition clampInt (value low high : Z) : Z :=
  if high <? low then low else if value <? low then low else if high <? value then high else value.

Definition cloneUVLineWithTrailingSpaces (line : list Cell) : list Cell :=
  if len line =? 0 then [] else [] ++ line.

(** [out[len(out)-1].wrapped = false] *)
Fixpoint unwrap_last (out : list reflowLine) : list reflowLine :=
  match out with
  | [] => []
  | [row] => [mkReflowLine row.(rl_cells) false]
  | row :: rest => row :: unwrap_last rest
  end.

Definition splitLogicalLineByColumns (cells : list Cell) (width : Z) : list reflowLine :=
  match cells with
  | [] => [mkReflowLine [] false]
  | _ =>
      let out := foldl (λ out cell, if visibleCellWidth cell <=? 0 then out
                                    else out ++ [mkReflowLine [cell] true]) [] cells in
      match out with
      | [] => [mkReflowLine [] false]
      | _ => unwrap_last out
      end
  end.

(** The variables of [splitLogicalLine]; [current] is nil exactly when it is empty. *)
Record split_state := mkSplit { ss_out : list reflowLine; ss_current : list Cell; ss_width : Z }.

Definition split_flush (wrapped : bool) (st : split_state) : split_state :=
  mkSplit (st.(ss_out) ++ [mkReflowLine (cloneUVLineWithTrailingSpaces st.(ss_current)) wrapped]) [] 0.

Definition split_cell (width : Z) (st : split_state) (cell : Cell) : split_state :=
  let cellWidth := visibleCellWidth cell in
  if cellWidth <=? 0 then st else
  let st := if (0 <? st.(ss_width)) && (width <? st.(ss_width) + cellWidth) then split_flush true st else st in
  if width <? cellWidth then
    let st := if 0 <? st.(ss_width) then split_flush true st else st in
    mkSplit (st.(ss_out) ++ [mkReflowLine [cell] false]) st.(ss_current) st.(ss_width)
  else
    let st := mkSplit st.(ss_out) (st.(ss_current) ++ [cell]) (st.(ss_width) + cellWidth) in
    if st.(ss_width) =? width then split_flush true st else st.

Definition splitLogicalLine (cells : list Cell) (width : Z) : list reflowLine :=
  let width := if width <? 1 then 1 else width in
  if width =? 1 then splitLogicalLineByColumns cells width else
  match cells with
  | [] => [mkReflowLine [] false]
  | _ =>
      let st := foldl (split_cell width) (mkSplit [] [] 0) cells in
      match st.(ss_current), st.(ss_out) with
      | [], _ :: _ => unwrap_last st.(ss_out)
      | _, _ => (split_flush false st).(ss_out)
      end
  end.

(** The two loops of [reflowLines]: [cells] holds the rows joined so far. *)
Fixpoint reflow_rows (width : Z) (cells : list Cell) (rows : list reflowLine) : list reflowLine :=
  match rows with
  | [] => []
  | row :: rest =>
      let cells := cells ++ row.(rl_cells) in
      match rest with
      | _ :: _ => if row.(rl_wrapped) then reflow_rows width cells rest
                  else splitLogicalLine cells width ++ reflow_rows width [] rest
      | [] => splitLogicalLine cells width
      end
  end.

Definition reflowLines (rows : list reflowLine) (width : Z) : list reflowLine :=
  let width := if width <? 1 then 1 else width in
  match reflow_rows width [] rows with
  | [] => [mkReflowLine [] false]
  | out => out
  end.

Definition rowAtReflow (rows : list reflowLine) (index : Z) : reflowLine :=
  if (index <? 0) || (len rows <=? index) then mkReflowLine [] false
  else at_ (mkReflowLine [] false) rows index.

Definition row_offset (offset : Z) (row : reflowLine) : Z :=
  let offset := offset + lineCellWidth row.(rl_cells) in
  if negb row.(rl_wrapped) then offset + 1 else offset.

Definition logicalOffsetForPosition (rows : list reflowLine) (rowIndex col : Z) : Z :=
  foldl row_offset 0 (prefix_ (Z.max 0 rowIndex) rows)
  + Z.min col (lineCellWidth (rowAtReflow rows rowIndex).(rl_cells)).

(** The loop of [positionForLogicalOffset] from row [i]; [None] when it runs off the rows. *)
Fixpoint position_loop (i remaining : Z) (rows : list reflowLine) : option (Z * Z) :=
  match rows with
  | [] => None
  | row :: rest =>
      let width := lineCellWidth row.(rl_cells) in
      if remaining <=? width then Some (i, remaining) else
      let remaining := remaining - width in
      if negb row.(rl_wrapped) then
        if remaining =? 0 then Some (i, Z.min width (Z.max 0 (width - 1)))
        else position_loop (i + 1) (remaining - 1) rest
      else position_loop (i + 1) remaining rest
  end.

Definition positionForLogicalOffset (rows : list reflowLine) (offset : Z) : Z * Z :=
  if offset <=? 0 then (0, 0) else
  match position_loop 0 offset rows with
  | Some p => p
  | None =>
      let last := Z.max 0 (len rows - 1) in
      let width := lineCellWidth (rowAtReflow rows last).(rl_cells) in
      (last, Z.min width (Z.max 0 (width - 1)))
  end.
End Reflow.
Arguments reflowLine : clear implicits.
