(* ===== verification/VtReflowTheorems.v ===== *)
(** * Cutting a logical line into rows *)
From S2P Require Import Prelude VtScrollback VtScrollbackTheorems VtReflow.
Local Open Scope Z_scope.

Section Facts.
Context `{UvCell Cell}.
Implicit Types (cell : Cell) (line : list Cell) (row : reflowLine Cell) (rows : list (reflowLine Cell)).

(** ** Widths *)
Definition visible cell : Prop := 0 < visibleCellWidth cell.
#[global] Instance visible_dec cell : Decision (visible cell) := _.

Lemma visible_nonneg cell : 0 ≤ visibleCellWidth cell.
Proof. unfold visibleCellWidth. destruct (IsZero cell); [done|]. destruct (Z.leb_spec (CellWidth cell) 0); lia. Qed.

Lemma width_foldl line n : foldl (λ width cell, width + visibleCellWidth cell) n line = n + lineCellWidth line.
Proof.
  unfold lineCellWidth. revert n. induction line as [|c line IH]; intros n; cbn [foldl]; [lia|].
  rewrite IH, (IH (0 + _)). lia.
Qed.

Lemma width_nil : lineCellWidth ([] : list Cell) = 0.
Proof. done. Qed.

Lemma width_cons cell line : lineCellWidth (cell :: line) = visibleCellWidth cell + lineCellWidth line.
Proof. unfold lineCellWidth at 1. cbn [foldl]. by rewrite width_foldl. Qed.

Lemma width_app line k : lineCellWidth (line ++ k) = lineCellWidth line + lineCellWidth k.
Proof. induction line as [|c line IH]; [done|]. rewrite <- app_comm_cons, !width_cons, IH. lia. Qed.

Lemma width_nonneg line : 0 ≤ lineCellWidth line.
Proof. induction line as [|c line IH]; [done|]. rewrite width_cons. pose proof (visible_nonneg c). lia. Qed.

Lemma width_pos line : Forall visible line → line ≠ [] → 0 < lineCellWidth line.
Proof.
  intros Hv Hne. destruct line as [|c line]; [done|]. apply Forall_cons in Hv as [Hc _]. unfold visible in Hc.
  rewrite width_cons. pose proof (width_nonneg line). lia.
Qed.

Lemma width_zero line : Forall visible line → lineCellWidth line = 0 → line = [].
Proof. intros Hv Hz. destruct (decide (line = [])) as [|Hne]; [done|]. pose proof (width_pos line Hv Hne). lia. Qed.

Lemma clone_id line : cloneUVLineWithTrailingSpaces line = line.
Proof. unfold cloneUVLineWithTrailingSpaces. by destruct line. Qed.

(** ** Rows of one logical line *)

(** All the rows but the last continue. *)
Fixpoint chain rows : Prop :=
  match rows with
  | [] => False
  | [row] => row.(rl_wrapped) = false
  | row :: rest => row.(rl_wrapped) = true ∧ chain rest
  end.

(** No row could have taken the first cell of the next one. *)
Fixpoint greedy (w : Z) (lines : list (list Cell)) : Prop :=
  match lines with
  | l1 :: (l2 :: _) as rest => (∀ c, head l2 = Some c → w < lineCellWidth l1 + visibleCellWidth c) ∧ greedy w rest
  | _ => True
  end.

(** The cells are narrow enough for the width; every cell is for width one, which has its own cut. *)
Definition fits (w : Z) line : Prop := w = 1 ∨ Forall (λ c, visibleCellWidth c ≤ w) line.

Lemma chain_unwrap rows : rows ≠ [] → Forall (λ r, r.(rl_wrapped) = true) rows → chain (unwrap_last rows).
Proof.
  induction rows as [|row [|row' rows] IH]; [done|done|]. intros _ [Hr Hrows]%Forall_cons.
  specialize (IH ltac:(done) Hrows). cbn [unwrap_last] in *. destruct rows; (by split).
Qed.

Lemma cells_unwrap rows : rl_cells <$> unwrap_last rows = rl_cells <$> rows.
Proof. induction rows as [|row [|row' rows] IH]; [done|done|]. cbn [unwrap_last fmap list_fmap] in *. by rewrite IH. Qed.

Lemma chain_snoc rows line :
  Forall (λ r, r.(rl_wrapped) = true) rows → chain (rows ++ [mkReflowLine line false]).
Proof.
  induction rows as [|row rows IH]; [done|]. intros [Hr Hrows]%Forall_cons. cbn [app chain].
  specialize (IH Hrows). destruct rows; (by split).
Qed.

Lemma greedy_snoc w lines l1 l2 :
  greedy w (lines ++ [l1]) → (∀ c, head l2 = Some c → w < lineCellWidth l1 + visibleCellWidth c) →
  greedy w (lines ++ [l1; l2]).
Proof.
  induction lines as [|l lines IH]; intros Hg Hc; [by cbn|]. cbn [app] in *.
  destruct lines as [|l' lines]; cbn [app] in *; [by destruct Hg|]. destruct Hg as [Hg1 Hg2]. split; [done|]. by apply IH.
Qed.

Lemma greedy_last w lines l1 l2 : greedy w (lines ++ [l1]) → head l1 = head l2 → greedy w (lines ++ [l2]).
Proof.
  induction lines as [|l lines IH]; intros Hg Hh; [done|]. cbn [app] in *.
  destruct lines as [|l' lines]; cbn [app] in *.
  - destruct Hg as [Hg _]. split; [|done]. intros c Hc. apply Hg. by rewrite Hh.
  - destruct Hg as [Hg1 Hg2]. split; [done|]. by apply IH.
Qed.

Lemma greedy_prefix w lines l : greedy w (lines ++ [l]) → greedy w lines.
Proof.
  induction lines as [|l1 lines IH]; intros Hg; [done|]. destruct lines as [|l2 lines]; [done|].
  cbn [app] in *. destruct Hg as [Hg1 Hg2]. split; [done|]. by apply IH.
Qed.

(** ** The loop of the cut *)
Record split_inv (w : Z) (seen : list Cell) (st : split_state (Cell := Cell)) : Prop := {
  si_wrapped : Forall (λ r, r.(rl_wrapped) = true) st.(ss_out);
  si_rows : Forall (λ r, r.(rl_cells) ≠ [] ∧ lineCellWidth r.(rl_cells) ≤ w) st.(ss_out);
  si_cells : concat (rl_cells <$> st.(ss_out)) ++ st.(ss_current) = filter visible seen;
  si_visible : Forall visible st.(ss_current);
  si_width : st.(ss_width) = lineCellWidth st.(ss_current);
  si_less : st.(ss_width) < w;
  si_greedy : greedy w ((rl_cells <$> st.(ss_out)) ++ [st.(ss_current)]);
  si_full : st.(ss_current) = [] → from_option (λ r, lineCellWidth r.(rl_cells) = w) True (last st.(ss_out)) }.

(** A row is flushed when nothing more fits: the next cell does not, or it is full. *)
Lemma flush_inv w seen st :
  split_inv w seen st → st.(ss_current) ≠ [] → 0 < w →
  let st' := split_flush true st in
  Forall (λ r, r.(rl_wrapped) = true) st'.(ss_out)
  ∧ Forall (λ r, r.(rl_cells) ≠ [] ∧ lineCellWidth r.(rl_cells) ≤ w) st'.(ss_out)
  ∧ concat (rl_cells <$> st'.(ss_out)) = filter visible seen
  ∧ st'.(ss_current) = [] ∧ st'.(ss_width) = 0
  ∧ (rl_cells <$> st'.(ss_out)) = (rl_cells <$> st.(ss_out)) ++ [st.(ss_current)].
Proof.
  intros [] Hne Hw. unfold split_flush. rewrite clone_id. cbn.
  rewrite fmap_app, concat_app. cbn. rewrite app_nil_r.
  split_and!; try done; apply Forall_app; split; try done; apply Forall_singleton; cbn [rl_wrapped rl_cells]; [done|].
  split; [done|lia].
Qed.

Lemma filter_snoc_visible seen cell : visible cell → filter visible (seen ++ [cell]) = filter visible seen ++ [cell].
Proof. intros Hc. rewrite filter_app. cbn. by rewrite decide_True. Qed.

(** One visible cell that fits into the width goes to the row under construction. *)
Lemma split_cell_inv w seen st cell :
  0 < w → split_inv w seen st → visibleCellWidth cell ≤ w → split_inv w (seen ++ [cell]) (split_cell w st cell).
Proof.
  intros Hw Hi Hc. unfold split_cell. destruct (Z.leb_spec (visibleCellWidth cell) 0) as [Hz|Hv].
  { destruct Hi. split; try done. rewrite si_cells0, filter_app. cbn. rewrite decide_False by (unfold visible; lia).
    by rewrite app_nil_r. }
  rewrite (proj2 (Z.ltb_ge w (visibleCellWidth cell))) by done.
  set (st1 := if (_ && _)%bool then _ else st).
  assert (Forall (λ r, r.(rl_wrapped) = true) st1.(ss_out)
    ∧ Forall (λ r, r.(rl_cells) ≠ [] ∧ lineCellWidth r.(rl_cells) ≤ w) st1.(ss_out)
    ∧ concat (rl_cells <$> st1.(ss_out)) ++ st1.(ss_current) = filter visible seen
    ∧ Forall visible st1.(ss_current) ∧ st1.(ss_width) = lineCellWidth st1.(ss_current)
    ∧ st1.(ss_width) + visibleCellWidth cell ≤ w
    ∧ greedy w ((rl_cells <$> st1.(ss_out)) ++ [st1.(ss_current) ++ [cell]])) as (A1 & A2 & A3 & A4 & A5 & A6 & A7).
  { unfold st1. pose proof Hi as [B1 B2 B3 B4 B5 B6 B7 B8].
    destruct (Z.ltb_spec 0 st.(ss_width)) as [Hp|Hp]; cbn [andb].
    - assert (Hne : st.(ss_current) ≠ []) by (intros E; rewrite E, width_nil in B5; lia).
      destruct (Z.ltb_spec w (st.(ss_width) + visibleCellWidth cell)) as [Ho|Ho].
      + destruct (flush_inv w seen st Hi Hne Hw) as (F1 & F2 & F3 & F4 & F5 & F6).
        rewrite F3, F4, F5, F6, app_nil_r. split_and!; try done. cbn [app].
        rewrite <- app_assoc. apply greedy_snoc; [done|]. intros c [= <-]. lia.
      + split_and!; try done. apply (greedy_last w _ st.(ss_current)); [done|]. by destruct (st.(ss_current)).
    - assert (E : st.(ss_current) = []).
      { apply width_zero; [done|]. pose proof (width_nonneg st.(ss_current)). lia. }
      assert (E0 : st.(ss_width) = 0) by (rewrite B5, E; done).
      split_and!; try done; [lia|]. rewrite E in *. cbn [app] in *. specialize (B8 eq_refl).
      destruct (st.(ss_out)) as [|r out _] using rev_ind; [done|]. rewrite last_snoc in B8. cbn in B8.
      rewrite fmap_app, <- app_assoc in *. cbn in *. apply greedy_snoc; [by apply (greedy_prefix w _ [] ); rewrite <- app_assoc|].
      intros c [= <-]. lia. }
  set (st2 := mkSplit _ _ _).
  assert (Hc2 : concat (rl_cells <$> st2.(ss_out)) ++ st2.(ss_current) = filter visible (seen ++ [cell])).
  { cbn. by rewrite filter_snoc_visible, app_assoc, A3 by done. }
  assert (Hv2 : Forall visible st2.(ss_current)) by (cbn; apply Forall_app; by split; [|apply Forall_singleton]).
  assert (Hw2 : st2.(ss_width) = lineCellWidth st2.(ss_current)).
  { unfold st2. cbn [ss_width ss_current]. rewrite width_app, width_cons, width_nil. lia. }
  assert (Hne2 : st2.(ss_current) ≠ []) by (unfold st2; cbn [ss_current]; by destruct (ss_current st1)).
  destruct (Z.eqb_spec st2.(ss_width) w) as [Ef|Ef].
  - unfold split_flush. rewrite clone_id. split; cbn [ss_out ss_current ss_width]; try done.
    + apply Forall_app; split; [done|]. by apply Forall_singleton.
    + apply Forall_app; split; [done|]. apply Forall_singleton. cbn [rl_cells]. split; [done|lia].
    + rewrite fmap_app, concat_app. cbn [fmap list_fmap concat rl_cells]. by rewrite !app_nil_r.
    + rewrite fmap_app, <- app_assoc. cbn [fmap list_fmap rl_cells app]. by apply greedy_snoc.
    + intros _. rewrite last_snoc. cbn [from_option rl_cells]. lia.
  - split; try done. cbn in *. lia.
Qed.

Lemma split_fold_inv w cells seen st :
  0 < w → Forall (λ c, visibleCellWidth c ≤ w) cells → split_inv w seen st →
  split_inv w (seen ++ cells) (foldl (split_cell w) st cells).
Proof.
  intros Hw. revert seen st. induction cells as [|c cells IH]; intros seen st Hc Hi; [by rewrite app_nil_r|].
  apply Forall_cons in Hc as [Hc Hcs]. rewrite cons_middle, app_assoc. apply IH; [done|].
  by apply split_cell_inv.
Qed.

(** ** What a cut promises *)
Record is_cut (w : Z) (cells : list Cell) (out : list (reflowLine Cell)) : Prop := {
  ic_chain : chain out;
  ic_cells : concat (rl_cells <$> out) = filter visible cells;
  ic_fit : Forall (λ r, Forall (λ c, visibleCellWidth c ≤ w) r.(rl_cells) → lineCellWidth r.(rl_cells) ≤ w) out;
  ic_greedy : greedy w (rl_cells <$> out) }.

Lemma cut_empty w cells : 0 < w → filter visible cells = [] → is_cut w cells [mkReflowLine [] false].
Proof. intros Hw E. split; try done. apply Forall_singleton. cbn [rl_cells]. rewrite width_nil. lia. Qed.

Lemma columns_fold cells out :
  foldl (λ out cell, if visibleCellWidth cell <=? 0 then out else out ++ [mkReflowLine [cell] true]) out cells
  = out ++ ((λ c, mkReflowLine [c] true) <$> filter visible cells).
Proof.
  revert out. induction cells as [|c cells IH]; intros out; [by rewrite app_nil_r|]. cbn [foldl]. rewrite IH.
  destruct (Z.leb_spec (visibleCellWidth c) 0).
  - by rewrite filter_cons_False by (unfold visible; lia).
  - rewrite filter_cons_True by done. by rewrite <- app_assoc.
Qed.

Lemma greedy_columns cells : Forall visible cells → greedy 1 ((λ c, [c]) <$> cells).
Proof.
  induction cells as [|c [|c' cells] IH]; intros Hv; [done|done|]. apply Forall_cons in Hv as [Hc Hv].
  split; [|by apply IH]. intros c0 [= <-]. apply Forall_cons in Hv as [Hc' _].
  rewrite width_cons, width_nil. unfold visible in *. lia.
Qed.

Lemma filter_visible cells : Forall visible (filter visible cells).
Proof. apply Forall_forall. intros x. rewrite list_elem_of_filter. by intros []. Qed.

Lemma columns_cut cells :
  filter visible cells ≠ [] →
  is_cut 1 cells (unwrap_last ((λ c, mkReflowLine [c] true) <$> filter visible cells)).
Proof.
  intros Hne. assert (Ec : ∀ vs : list Cell, rl_cells <$> ((λ c, mkReflowLine [c] true) <$> vs) = (λ c, [c]) <$> vs).
  { intros vs. by rewrite <- list_fmap_compose. }
  split.
  - apply chain_unwrap; [by destruct (filter visible cells)|]. by apply Forall_fmap, Forall_true.
  - rewrite cells_unwrap, Ec. induction (filter visible cells) as [|c vs IH]; [done|]. cbn. f_equal.
    destruct vs; [done|]. by apply IH.
  - apply (Forall_fmap rl_cells (λ l, Forall (λ c, visibleCellWidth c ≤ 1) l → lineCellWidth l ≤ 1)).
    rewrite cells_unwrap, Ec. apply Forall_fmap, Forall_true. unfold compose. intros c [Hc _]%Forall_cons.
    rewrite width_cons, width_nil. lia.
  - rewrite cells_unwrap, Ec. apply greedy_columns, filter_visible.
Qed.

Lemma split_by_columns cells : is_cut 1 cells (splitLogicalLineByColumns cells 1).
Proof.
  unfold splitLogicalLineByColumns. destruct cells as [|c cells]; [by apply cut_empty|]. rewrite columns_fold. cbn [app].
  pose proof (columns_cut (c :: cells)) as Hc.
  destruct (filter visible (c :: cells)) as [|v vs] eqn:Ev; [by apply cut_empty|]. by apply Hc.
Qed.

Lemma split_is_cut w cells : 1 ≤ w → fits w cells → is_cut w cells (splitLogicalLine cells w).
Proof.
  intros Hw Hf. unfold splitLogicalLine. rewrite (proj2 (Z.ltb_ge w 1)) by lia.
  destruct (Z.eqb_spec w 1) as [->|Hne]; [apply split_by_columns|]. destruct Hf as [|Hf]; [done|].
  destruct cells as [|c cells]; [apply cut_empty; [lia|done]|]. remember (c :: cells) as cs eqn:E. clear E c cells.
  pose proof (split_fold_inv w cs [] (mkSplit [] [] 0) ltac:(lia) Hf) as Hi. cbn [app] in Hi.
  destruct Hi as [I1 I2 I3 I4 I5 I6 I7 I8]; [by split; try done; cbn; lia|].
  set (st := foldl _ _ cs) in *. unfold split_flush. rewrite clone_id. cbn [ss_out].
  assert (Hcut : is_cut w cs (unwrap_last st.(ss_out)) ∨ st.(ss_current) ≠ [] ∨ st.(ss_out) = []).
  { destruct (st.(ss_current)) as [|c l] eqn:Ecur; [|by right; left]. destruct (decide (st.(ss_out) = [])); [by right; right|left].
    split; rewrite ?cells_unwrap; [by apply chain_unwrap|by rewrite <- I3, app_nil_r| |by eapply greedy_prefix].
    apply (Forall_fmap rl_cells (λ l, Forall (λ c, visibleCellWidth c ≤ w) l → lineCellWidth l ≤ w)).
    rewrite cells_unwrap. apply Forall_fmap. eapply Forall_impl; [exact I2|]. by intros r [_ Hr] _. }
  assert (Hflush : is_cut w cs (st.(ss_out) ++ [mkReflowLine st.(ss_current) false])).
  { split.
    - by apply chain_snoc.
    - rewrite fmap_app, concat_app. cbn. by rewrite app_nil_r.
    - apply Forall_app. split; [eapply Forall_impl; [exact I2|]; by intros r [_ Hr] _|].
      apply Forall_singleton. cbn [rl_cells]. intros _. lia.
    - by rewrite fmap_app. }
  destruct (st.(ss_current)) as [|c l]; [|done]. destruct (st.(ss_out)) as [|r out]; [done|].
  by destruct Hcut as [|[]].
Qed.
End Facts.

(** * Reflow keeps the text and the place of the cursor *)

Section Logical.
Context `{UvCell Cell}.
Implicit Types (line : list Cell) (row : reflowLine Cell) (rows : list (reflowLine Cell)).

(** ** Logical lines *)

(** The rows joined along their soft-wrap marks; the mark of the last row joins nothing. *)
Fixpoint logical_lines (acc : list Cell) rows : list (list Cell) :=
  match rows with
  | [] => []
  | row :: rest =>
      match rest with
      | _ :: _ => if row.(rl_wrapped) then logical_lines (acc ++ row.(rl_cells)) rest
                  else (acc ++ row.(rl_cells)) :: logical_lines [] rest
      | [] => [acc ++ row.(rl_cells)]
      end
  end.

Lemma reflow_rows_logical w acc rows :
  reflow_rows w acc rows = concat ((λ l, splitLogicalLine l w) <$> logical_lines acc rows).
Proof.
  revert acc. induction rows as [|row rows IH]; intros acc; [done|]. cbn [reflow_rows logical_lines].
  destruct rows as [|row' rows]; [by cbn; rewrite app_nil_r|]. destruct (rl_wrapped row); [apply IH|].
  cbn [fmap list_fmap concat]. f_equal. apply IH.
Qed.

Lemma logical_chain acc out rest :
  chain out → logical_lines acc (out ++ rest) = (acc ++ concat (rl_cells <$> out)) :: logical_lines [] rest.
Proof.
  revert acc. induction out as [|row out IH]; intros acc Hc; [done|]. cbn [app logical_lines fmap list_fmap concat].
  destruct out as [|row' out].
  - cbn in *. rewrite app_nil_r, Hc. by destruct rest.
  - destruct Hc as [Hw Hc]. cbn [app] in *. rewrite Hw, (IH _ Hc), <- app_assoc. done.
Qed.

Lemma logical_cuts w lines outs :
  Forall2 (is_cut w) lines outs → logical_lines [] (concat outs) = filter visible <$> lines.
Proof.
  induction 1 as [|line out lines outs [Hchain Hcells _ _] _ IH]; [done|]. cbn [concat fmap list_fmap].
  rewrite logical_chain by done. cbn [app]. by rewrite Hcells, IH.
Qed.

Lemma cut_nonempty w line out : is_cut w line out → out ≠ [].
Proof. intros [Hc _ _ _] ->. done. Qed.

Lemma logical_nonempty acc rows : rows ≠ [] → logical_lines acc rows ≠ [].
Proof.
  revert acc. induction rows as [|row [|row' rows] IH]; intros acc; [done|done|]. intros _. cbn [logical_lines].
  destruct (rl_wrapped row); [by apply IH|done].
Qed.

Lemma fits_app w line k : fits w line → fits w k → fits w (line ++ k).
Proof. intros [|H1] [|H2]; try (by left). right. by apply Forall_app. Qed.

Lemma logical_fits w acc rows :
  fits w acc → Forall (λ r, fits w r.(rl_cells)) rows → Forall (fits w) (logical_lines acc rows).
Proof.
  revert acc. induction rows as [|row rows IH]; intros acc Ha Hr; [done|]. apply Forall_cons in Hr as [Hr Hrs].
  pose proof (fits_app w _ _ Ha Hr). cbn [logical_lines]. destruct rows; [by apply Forall_singleton|].
  destruct (rl_wrapped row); [by apply IH|]. apply Forall_cons. split; [done|]. apply IH; [by right|done].
Qed.

(** The rows a reflow makes: one cut per logical line. *)
Lemma reflow_cuts w rows :
  1 ≤ w → rows ≠ [] → Forall (λ r, fits w r.(rl_cells)) rows →
  ∃ outs, Forall2 (is_cut w) (logical_lines [] rows) outs ∧ reflowLines rows w = concat outs.
Proof.
  intros Hw Hne Hf. exists ((λ l, splitLogicalLine l w) <$> logical_lines [] rows). split.
  - apply Forall2_fmap_r. assert (Forall (fits w) (logical_lines [] rows)) as HF.
    { apply logical_fits; [by right|done]. }
    induction HF as [|l ls Hl _ IH]; constructor; [|done]. by apply split_is_cut.
  - unfold reflowLines. rewrite (proj2 (Z.ltb_ge w 1)) by done. rewrite reflow_rows_logical.
    pose proof (logical_nonempty [] rows Hne) as Hl. assert (Forall (fits w) (logical_lines [] rows)) as HF.
    { apply logical_fits; [by right|done]. }
    destruct HF as [|l ls Hfl _]; [done|]. cbn [fmap list_fmap concat].
    pose proof (cut_nonempty w l _ (split_is_cut w l Hw Hfl)). by destruct (splitLogicalLine l w).
Qed.

(** No row is wider than the screen, if no cell is. *)
Lemma reflow_within w rows :
  1 ≤ w → w ≠ 1 → rows ≠ [] → Forall (λ r, fits w r.(rl_cells)) rows →
  Forall (λ r, lineCellWidth r.(rl_cells) ≤ w) (reflowLines rows w).
Proof.
  intros Hw Hw1 Hne Hf. destruct (reflow_cuts w rows Hw Hne Hf) as (outs & Hcuts & ->). apply Forall_concat.
  pose proof (logical_fits w [] rows ltac:(by right) Hf) as Hl. revert Hl. induction Hcuts as [|line out lines outs [_ Hcells Hfit _] _ IH]; [done|].
  intros [[?|Hline] Hlines]%Forall_cons; [done|]. constructor; [|by apply IH].
  apply Forall_forall. intros r Hr. rewrite Forall_forall in Hfit. apply (Hfit r Hr), Forall_forall. intros c Hc.
  assert (c ∈ filter visible line) as [_ Hin]%list_elem_of_filter.
  { rewrite <- Hcells. apply list_elem_of_In, in_concat. exists r.(rl_cells). split; apply list_elem_of_In; [|done]. by apply list_elem_of_fmap_2. }
  rewrite Forall_forall in Hline. by apply Hline.
Qed.

Lemma reflow_logical w rows :
  1 ≤ w → rows ≠ [] → Forall (λ r, fits w r.(rl_cells)) rows →
  logical_lines [] (reflowLines rows w) = filter visible <$> logical_lines [] rows.
Proof. intros Hw Hne Hf. destruct (reflow_cuts w rows Hw Hne Hf) as (outs & HF & ->). by eapply logical_cuts. Qed.

(** ** Invisible cells change nothing *)
Lemma split_cell_invisible w st c : ¬ visible c → split_cell w st c = st.
Proof. intros Hc. unfold split_cell. by rewrite (proj2 (Z.leb_le _ _)) by (unfold visible in Hc; lia). Qed.

Lemma split_fold_filter w cells st : foldl (split_cell w) st (filter visible cells) = foldl (split_cell w) st cells.
Proof.
  revert st. induction cells as [|c cells IH]; intros st; [done|].
  destruct (decide (visible c)) as [Hc|Hc]; [rewrite filter_cons_True by done|rewrite filter_cons_False by done]; cbn [foldl].
  - apply IH.
  - by rewrite (split_cell_invisible w st c Hc).
Qed.

Lemma split_filter w cells : splitLogicalLine (filter visible cells) w = splitLogicalLine cells w.
Proof.
  unfold splitLogicalLine. set (w' := if w <? 1 then 1 else w). destruct (w' =? 1).
  - assert (∀ cs : list Cell, splitLogicalLineByColumns cs w'
      = match filter visible cs with
        | [] => [mkReflowLine [] false]
        | _ => unwrap_last ((λ c, mkReflowLine [c] true) <$> filter visible cs) end) as E.
    { intros [|c cs]; [done|]. unfold splitLogicalLineByColumns. rewrite columns_fold. cbn [app].
      by destruct (filter visible (c :: cs)). }
    rewrite !E. by rewrite list_filter_filter_l by done.
  - destruct cells as [|c cells]; [done|]. rewrite <- (split_fold_filter w' (c :: cells)).
    by destruct (filter visible (c :: cells)).
Qed.

Lemma reflow_via_logical w rows :
  rows ≠ [] → 1 ≤ w →
  reflowLines rows w = match concat ((λ l, splitLogicalLine l w) <$> logical_lines [] rows) with
                       | [] => [mkReflowLine [] false] | out => out end.
Proof. intros Hne Hw. unfold reflowLines. by rewrite (proj2 (Z.ltb_ge w 1)), reflow_rows_logical by done. Qed.

Lemma reflow_nonempty w rows : reflowLines rows w ≠ [].
Proof. unfold reflowLines. by destruct (reflow_rows _ [] rows). Qed.
End Logical.

(** A resize through any intermediate width ends in the rows that resizing straight to the last width gives:
    the history does not decay. *)
Theorem reflow_reflow `{UvCell Cell} (rows : list (reflowLine Cell)) (w1 w2 : Z)
    (Hw1 : 1 ≤ w1) (Hw2 : 1 ≤ w2) (Hfits : Forall (λ r, fits w1 r.(rl_cells)) rows) :
  reflowLines (reflowLines rows w1) w2 = reflowLines rows w2.
Proof.
  destruct (decide (rows = [])) as [->|Hne].
  { unfold reflowLines. cbn. rewrite (proj2 (Z.ltb_ge w2 1)) by done. unfold splitLogicalLine.
    destruct (_ =? 1); done. }
  rewrite (reflow_via_logical w2 (reflowLines rows w1)), (reflow_via_logical w2 rows) by (done || apply reflow_nonempty).
  rewrite reflow_logical by done. rewrite <- list_fmap_compose. unfold compose.
  by setoid_rewrite split_filter.
Qed.

(** ** The text as columns *)
Section Text.
Context `{UvCell Cell}.
Implicit Types (line : list Cell) (row : reflowLine Cell) (rows rest : list (reflowLine Cell)).

(** The columns a line occupies, each the cell and the column within it. *)
Definition cols line : list (option (Cell * Z)) :=
  concat ((λ c, (λ k, Some (c, k)) <$> seqZ 0 (visibleCellWidth c)) <$> line).

(** A line break after a row, [None], unless it continues on another. *)
Definition row_break row rest : list (option (Cell * Z)) :=
  match rest with
  | _ :: _ => if row.(rl_wrapped) then [] else [None]
  | [] => [None]
  end.

Fixpoint all_text rows : list (option (Cell * Z)) :=
  match rows with
  | [] => []
  | row :: rest => cols row.(rl_cells) ++ row_break row rest ++ all_text rest
  end.

(** The text from column [c] of row [i] on. *)
Fixpoint text_from rows (i : nat) (c : Z) : list (option (Cell * Z)) :=
  match rows, i with
  | [], _ => []
  | row :: rest, O => drop (Z.to_nat c) (cols row.(rl_cells)) ++ row_break row rest ++ all_text rest
  | _ :: rest, S i => text_from rest i c
  end.

Lemma len_cols line : len (cols line) = lineCellWidth line.
Proof.
  induction line as [|c line IH]; [done|]. rewrite width_cons, <- IH. unfold cols, len. cbn [fmap list_fmap concat].
  rewrite length_app, length_fmap, length_seqZ. pose proof (visible_nonneg c). lia.
Qed.

Lemma cols_app line k : cols (line ++ k) = cols line ++ cols k.
Proof. unfold cols. by rewrite fmap_app, concat_app. Qed.

Lemma cols_filter line : cols (filter visible line) = cols line.
Proof.
  induction line as [|c line IH]; [done|]. destruct (decide (visible c)) as [Hc|Hc].
  - rewrite filter_cons_True by done. unfold cols in *. cbn [fmap list_fmap concat]. by rewrite IH.
  - rewrite filter_cons_False, IH by done. unfold cols. cbn [fmap list_fmap concat].
    by rewrite (seqZ_nil 0 (visibleCellWidth c)) by (unfold visible in Hc; lia).
Qed.

Lemma all_text_logical acc rows :
  rows ≠ [] → cols acc ++ all_text rows = concat ((λ l, cols l ++ [None]) <$> logical_lines acc rows).
Proof.
  revert acc. induction rows as [|row rows IH]; intros acc; [done|]. intros _. cbn [all_text logical_lines].
  destruct rows as [|row' rows].
  - cbn. by rewrite cols_app, app_nil_r, <- !app_assoc.
  - cbn [row_break]. destruct (rl_wrapped row).
    + rewrite <- IH by done. by rewrite cols_app, <- app_assoc.
    + cbn [fmap list_fmap concat]. rewrite <- IH by done. by rewrite cols_app, <- !app_assoc.
Qed.

(** Cutting at another width leaves the text as it is. *)
Lemma reflow_text w rows :
  1 ≤ w → rows ≠ [] → Forall (λ r, fits w r.(rl_cells)) rows → all_text (reflowLines rows w) = all_text rows.
Proof.
  intros Hw Hne Hf. pose proof (all_text_logical [] rows Hne) as E1.
  pose proof (all_text_logical [] (reflowLines rows w) (reflow_nonempty w rows)) as E2. cbn [cols fmap list_fmap concat app] in *.
  rewrite E1, E2, reflow_logical, <- list_fmap_compose by done. f_equal. apply list_fmap_ext. intros _ l _. cbn.
  by rewrite cols_filter.
Qed.

Lemma offset_foldl n rows : foldl row_offset n rows = n + foldl row_offset 0 rows.
Proof.
  revert n. induction rows as [|row rows IH]; intros n; cbn [foldl]; [lia|]. rewrite IH, (IH (row_offset 0 row)).
  unfold row_offset. destruct (negb _); lia.
Qed.

Lemma len_row_break row rest : rest ≠ [] → len (row_break row rest) = if negb row.(rl_wrapped) then 1 else 0.
Proof. intros Hr. destruct rest; [done|]. unfold row_break. by destruct (rl_wrapped row). Qed.

Lemma row_offset_break row rest : rest ≠ [] → row_offset 0 row = len (cols row.(rl_cells) ++ row_break row rest).
Proof. intros Hr. rewrite len_app, len_cols, len_row_break by done. unfold row_offset. destruct (negb _); lia. Qed.

Lemma drop_len_app {A} (l k : list A) n : 0 ≤ n → drop (Z.to_nat (len l + n)) (l ++ k) = drop (Z.to_nat n) k.
Proof. intros Hn. unfold len. rewrite drop_app_ge by lia. f_equal. lia. Qed.

Lemma row_at_zero row rows : rowAtReflow (row :: rows) 0 = row.
Proof. unfold rowAtReflow. cbn [Z.ltb]. rewrite (proj2 (Z.leb_gt _ _)); [done|]. unfold len. cbn. lia. Qed.

Lemma row_at_succ row rows (i : nat) : rowAtReflow (row :: rows) (Z.of_nat (S i)) = rowAtReflow rows (Z.of_nat i).
Proof.
  unfold rowAtReflow, at_, len. rewrite (proj2 (Z.ltb_ge (Z.of_nat (S i)) 0)), (proj2 (Z.ltb_ge (Z.of_nat i) 0)) by lia.
  rewrite !Nat2Z.id. cbn [orb length nth].
  destruct (Z.leb_spec (Z.of_nat (length rows)) (Z.of_nat i)), (Z.leb_spec (Z.of_nat (S (length rows))) (Z.of_nat (S i)));
    (done || lia).
Qed.

Lemma all_text_nonempty rows : rows ≠ [] → all_text rows ≠ [].
Proof.
  induction rows as [|row [|row' rows] IH]; [done| |]; intros _; cbn [all_text row_break].
  - by destruct (cols _).
  - intros (_ & (_ & E)%app_nil)%app_nil. by apply IH.
Qed.

Lemma text_from_nonempty rows (i : nat) c : (i < length rows)%nat → text_from rows i c ≠ [].
Proof.
  revert i. induction rows as [|row rows IH]; intros i Hi; [cbn in Hi; lia|]. destruct i as [|i].
  - cbn [text_from]. intros (_ & (Hb & E)%app_nil)%app_nil. destruct rows as [|row' rows]; [done|].
    by apply (all_text_nonempty (row' :: rows)).
  - apply IH. cbn in Hi. lia.
Qed.

Lemma row_offset_nonneg row : 0 ≤ row_offset 0 row.
Proof. unfold row_offset. pose proof (width_nonneg row.(rl_cells)). destruct (negb _); lia. Qed.

Lemma offset_nonneg rows : 0 ≤ foldl row_offset 0 rows.
Proof.
  induction rows as [|row rows IH]; [done|]. cbn [foldl]. rewrite offset_foldl. pose proof (row_offset_nonneg row). lia.
Qed.

(** The offset of a position is the number of columns and breaks before it. *)
Lemma offset_drop rows (i : nat) c :
  (i < length rows)%nat → 0 ≤ c →
  drop (Z.to_nat (logicalOffsetForPosition rows (Z.of_nat i) c)) (all_text rows) = text_from rows i c.
Proof.
  revert i. induction rows as [|row rows IH]; intros i Hi Hc; [cbn in Hi; lia|].
  pose proof (width_nonneg row.(rl_cells)) as Hw. destruct i as [|i].
  - unfold logicalOffsetForPosition. change (Z.of_nat 0) with 0. rewrite row_at_zero, Z.max_id.
    change (foldl row_offset 0 (prefix_ 0 _)) with 0. rewrite Z.add_0_l. cbn [all_text text_from].
    pose proof (len_cols row.(rl_cells)) as El. unfold len in El. rewrite drop_app_le by lia. f_equal.
    destruct (Z.le_gt_cases c (lineCellWidth row.(rl_cells))); [by rewrite Z.min_l by done|]. by rewrite !drop_ge by lia.
  - cbn in Hi. assert (Hne : rows ≠ []) by (intros ->; cbn in Hi; lia). cbn [text_from]. rewrite <- IH by (done || lia).
    unfold logicalOffsetForPosition. rewrite row_at_succ. rewrite !Z.max_r by lia. unfold prefix_.
    rewrite !Nat2Z.id. cbn [take foldl]. rewrite offset_foldl, (row_offset_break row rows Hne), <- Z.add_assoc.
    cbn [all_text]. rewrite app_assoc. apply drop_len_app.
    pose proof (offset_nonneg (take i rows)). pose proof (width_nonneg (rowAtReflow rows (Z.of_nat i)).(rl_cells)). lia.
Qed.

Lemma offset_bounds rows (i : nat) c :
  (i < length rows)%nat → 0 ≤ c → 0 ≤ logicalOffsetForPosition rows (Z.of_nat i) c < len (all_text rows).
Proof.
  intros Hi Hc. split.
  - unfold logicalOffsetForPosition. rewrite Z.max_r by lia. pose proof (offset_nonneg (prefix_ (Z.of_nat i) rows)).
    pose proof (width_nonneg (rowAtReflow rows (Z.of_nat i)).(rl_cells)). lia.
  - pose proof (offset_drop rows i c Hi Hc) as E. pose proof (text_from_nonempty rows i c Hi) as Hn. rewrite <- E in Hn.
    destruct (Z.le_gt_cases (len (all_text rows)) (logicalOffsetForPosition rows (Z.of_nat i) c)) as [Hle|Hlt]; [|done].
    exfalso. apply Hn, drop_ge. unfold len in Hle. lia.
Qed.

(** The loop finds the row an offset falls in. *)
Lemma position_drop rows i o :
  0 ≤ o < len (all_text rows) →
  ∃ n c, position_loop i o rows = Some (i + Z.of_nat n, c) ∧ (n < length rows)%nat
    ∧ 0 ≤ c ≤ lineCellWidth (rowAtReflow rows (Z.of_nat n)).(rl_cells)
    ∧ text_from rows n c = drop (Z.to_nat o) (all_text rows).
Proof.
  revert i o. induction rows as [|row rows IH]; intros i o Ho; [unfold len in Ho; cbn in Ho; lia|].
  cbn [position_loop all_text] in *. pose proof (width_nonneg row.(rl_cells)) as Hw.
  pose proof (len_cols row.(rl_cells)) as El. destruct (Z.leb_spec o (lineCellWidth row.(rl_cells))) as [Hle|Hgt].
  { exists 0%nat, o. split_and!; [by rewrite Z.add_0_r|cbn; lia|lia|by rewrite row_at_zero|].
    cbn [text_from]. rewrite drop_app_le; [done|]. unfold len in El. lia. }
  rewrite !len_app, El in Ho. destruct (decide (rows = [])) as [->|Hne].
  { unfold len in Ho. cbn in Ho. lia. }
  pose proof (len_row_break row rows Hne) as Eb.
  assert (∃ n c, position_loop (i + 1) (o - len (cols row.(rl_cells) ++ row_break row rows)) rows
            = Some (i + Z.of_nat (S n), c) ∧ (n < length rows)%nat
          ∧ 0 ≤ c ≤ lineCellWidth (rowAtReflow rows (Z.of_nat n)).(rl_cells)
          ∧ text_from rows n c
            = drop (Z.to_nat o) ((cols row.(rl_cells) ++ row_break row rows) ++ all_text rows)) as (n & c & P1 & P2 & P3 & P4).
  { destruct (IH (i + 1) (o - len (cols row.(rl_cells) ++ row_break row rows))) as (n & c & P1 & P2 & P3 & P4).
    { rewrite len_app, El, Eb. destruct (negb _); lia. }
    exists n, c. split; [rewrite P1; do 2 f_equal; lia|split; [done|split; [done|]]]. rewrite P4.
    rewrite <- (drop_len_app (cols row.(rl_cells) ++ row_break row rows)); [do 2 f_equal; lia|].
    rewrite len_app, El, Eb. destruct (negb _); lia. }
  exists (S n), c. rewrite app_assoc. split_and!; [|cbn; lia|lia|rewrite row_at_succ; lia|done].
  rewrite len_app, El, Eb in P1. destruct (rl_wrapped row); cbn [negb] in *.
  - by rewrite Z.add_0_r in P1.
  - rewrite (proj2 (Z.eqb_neq _ _)) by lia. rewrite <- P1. f_equal. lia.
Qed.
End Text.

Section Contract.
Context `{UvCell Cell}.
Implicit Types rows : list (reflowLine Cell).

Lemma position_spec rows o :
  0 ≤ o < len (all_text rows) →
  let '(i, c) := positionForLogicalOffset rows o in
  0 ≤ i < len rows ∧ 0 ≤ c ≤ lineCellWidth (rowAtReflow rows i).(rl_cells)
  ∧ text_from rows (Z.to_nat i) c = drop (Z.to_nat o) (all_text rows).
Proof.
  intros Ho. unfold positionForLogicalOffset. destruct (Z.leb_spec o 0) as [Hz|Hp].
  - assert (o = 0) as -> by lia. destruct rows as [|row rows]; [unfold len in Ho; cbn in Ho; lia|].
    rewrite row_at_zero. pose proof (width_nonneg row.(rl_cells)). split_and!; [done|unfold len; cbn; lia|done|done|done].
  - destruct (position_drop rows 0 o Ho) as (n & c & -> & Hn & Hc & Ht). rewrite Z.add_0_l, Nat2Z.id.
    split_and!; try lia; [unfold len; lia|done].
Qed.

Lemma reflow_cursor rows w (i : nat) c :
  1 ≤ w → Forall (λ r, fits w r.(rl_cells)) rows → (i < length rows)%nat → 0 ≤ c →
  let '(i', c') := positionForLogicalOffset (reflowLines rows w) (logicalOffsetForPosition rows (Z.of_nat i) c) in
  0 ≤ i' < len (reflowLines rows w)
  ∧ 0 ≤ c' ≤ lineCellWidth (rowAtReflow (reflowLines rows w) i').(rl_cells)
  ∧ text_from (reflowLines rows w) (Z.to_nat i') c' = text_from rows i c.
Proof.
  intros Hw Hf Hi Hc. assert (Hne : rows ≠ []) by (intros ->; cbn in Hi; lia).
  pose proof (reflow_text w rows Hw Hne Hf) as Et. pose proof (offset_bounds rows i c Hi Hc) as Hb. rewrite <- Et in Hb.
  pose proof (position_spec _ _ Hb) as Hp. destruct (positionForLogicalOffset _ _) as [i' c'].
  by rewrite Et, offset_drop in Hp.
Qed.

(** The rows of a reflow fill the width. *)
Lemma reflow_fills rows w :
  1 ≤ w → rows ≠ [] → Forall (λ r, fits w r.(rl_cells)) rows →
  ∃ outs, reflowLines rows w = concat outs ∧ Forall2 (is_cut w) (logical_lines [] rows) outs.
Proof. intros Hw Hne Hf. destruct (reflow_cuts w rows Hw Hne Hf) as (outs & ? & ?). by exists outs. Qed.
End Contract.

(** A resize cuts every logical line greedily into rows that fit the width and are marked as continuing, and
    changes nothing of the text: each column and each line break is where it was, and the cursor, sent through its
    offset, lands on a row and a column within it that have the same text before and behind. *)
Theorem reflow_keeps_text `{UvCell Cell} (rows : list (reflowLine Cell)) (w : Z) (i : nat) (c : Z)
    (Hw : 1 ≤ w) (Hfits : Forall (λ r, fits w r.(rl_cells)) rows) (Hi : (i < length rows)%nat) (Hc : 0 ≤ c) :
  (∃ outs, reflowLines rows w = concat outs ∧ Forall2 (is_cut w) (logical_lines [] rows) outs)
  ∧ all_text (reflowLines rows w) = all_text rows
  ∧ let '(i', c') := positionForLogicalOffset (reflowLines rows w) (logicalOffsetForPosition rows (Z.of_nat i) c) in
    0 ≤ i' < len (reflowLines rows w)
    ∧ 0 ≤ c' ≤ lineCellWidth (rowAtReflow (reflowLines rows w) i').(rl_cells)
    ∧ text_from (reflowLines rows w) (Z.to_nat i') c' = text_from rows i c.
Proof.
  assert (rows ≠ []) as Hne by (intros ->; cbn in Hi; lia).
  split; [by apply reflow_fills|]. split; [by apply reflow_text|]. by apply reflow_cursor.
Qed.

(** A cell is its width; three rows of width four, the first continuing on the second. *)
Module ReflowDemo.
#[global] Instance cell : UvCell (Z * Z) := {| IsZero := λ c, (c.1 =? 0) && (c.2 =? 0); CellWidth := snd |}%bool.
Definition letters (from n : Z) : list (Z * Z) := (λ k, (k, 1)) <$> seqZ from n.
Definition rows : list (reflowLine (Z * Z)) :=
  [mkReflowLine (letters 1 4) true; mkReflowLine (letters 5 1 ++ [(6, 2)] ++ [(0, 0)]) false; mkReflowLine [(7, 1)] false].
Lemma demo_rows_fit : Forall (λ r, fits 2 r.(rl_cells)) rows.
Proof.
  unfold rows. repeat (apply Forall_cons; split); [| | |by apply Forall_nil];
    right; refine (bool_decide_unpack _ _); by vm_compute.
Qed.
End ReflowDemo.

Lemma reflow_reflow_witness :
  reflowLines (reflowLines ReflowDemo.rows 2) 3 = reflowLines ReflowDemo.rows 3.
Proof. apply reflow_reflow; [done|done|apply ReflowDemo.demo_rows_fit]. Defined.

Lemma reflow_keeps_text_witness :
  rl_cells <$> reflowLines ReflowDemo.rows 2 = [[(1, 1); (2, 1)]; [(3, 1); (4, 1)]; [(5, 1)]; [(6, 2)]; [(7, 1)]]
  ∧ positionForLogicalOffset (reflowLines ReflowDemo.rows 2) (logicalOffsetForPosition ReflowDemo.rows 1 1) = (2, 1)
  ∧ text_from (reflowLines ReflowDemo.rows 2) 2 1 = text_from ReflowDemo.rows 1 1.
Proof.
  destruct (reflow_keeps_text ReflowDemo.rows 2 1 1 ltac:(done) ReflowDemo.demo_rows_fit ltac:(cbn; lia) ltac:(done)) as (_ & _ & H).
  split_and!; [by vm_compute..|]. exact (proj2 (proj2 H)).
Defined.

(** A cursor on the first cell of a continuation row, when the new width cuts just before that cell, is placed
    after the last cell of the row above: the screen clamps the column, and the cursor stands on the cell before its own. *)
Theorem cursor_left_of_its_cell :
  positionForLogicalOffset (reflowLines ReflowDemo.rows 2) (logicalOffsetForPosition ReflowDemo.rows 1 0) = (1, 2)
  ∧ at_ [] (rl_cells <$> reflowLines ReflowDemo.rows 2) 2 = [(5, 1)].
Proof. by vm_compute. Qed.
