(* ===== verification/VtDamage.v ===== *)
(** * The damage of a write

    [vterm/internal/vt/damage.go] and [vterm/internal/vt/damage_recorder.go]: while a write is
    interpreted the screen records what it changes. Adjacent cells of a row are merged into one
    span, whose cells are a slice of a shared array that only grows; the rows that leave the
    screen are stored as text or as runs of one style where that is possible.

    The styles and links of the ultraviolet library are parameters, and so is the conversion of
    a colour to its channels; a cell is the struct the code builds. *)
From Stdlib Require Import String Ascii.
From S2P Require Import Prelude VtScrollback.
Local Open Scope Z_scope.
Local Open Scope bool_scope.

(** [color.Color]: the dynamic types that the comparison names, and the rest. *)
Inductive Color (Other : Type) : Type :=
  | BasicColor (n : Z)
  | IndexedColor (n : Z)
  | RGBColor (r g b : Z)
  | color_RGBA (r g b a : Z)
  | color_NRGBA (r g b a : Z)
  | OtherColor (c : Other).
Arguments BasicColor {Other}.
Arguments IndexedColor {Other}.
Arguments RGBColor {Other}.
Arguments color_RGBA {Other}.
Arguments color_NRGBA {Other}.
Arguments OtherColor {Other}.

(** What the code asks of [uv.Style] and [uv.Link]. *)
Class UvStyles (Style Link Other : Type) := {
  StyleIsZero : Style → bool;
  LinkIsZero : Link → bool;
  Attrs : Style → Z;
  StyleUnderline : Style → Z;
  Fg : Style → option (Color Other);
  Bg : Style → option (Color Other);
  UnderlineColor : Style → option (Color Other);
  ColorRGBA : Color Other → Z * Z * Z * Z }.

Section Damage.
Context `{UvStyles Style Link Other}.

Record Cell := mkCell { Content : string; CellStyle : Style; CellLink : Link; Width : Z }.

(** [uv.Rectangle], the rectangle of the standard library. *)
Record Rectangle := mkRectangle { MinX : Z; MinY : Z; MaxX : Z; MaxY : Z }.

Record ScrollbackRun := mkRun { run_Style : Style; run_Text : string }.

Record ScrollbackDamage := mkScrollbackDamage {
  sd_Y : Z; sd_Cells : list Cell; sd_Runs : list ScrollbackRun; sd_Wrapped : bool; sd_ASCII : bool; sd_Text : string }.

Inductive Damage : Type :=
  | CellDamage (X Y W : Z)
  | SpanDamage (X Y : Z) (Cells : list Cell)
  | TextDamage (X Y : Z) (Cells : list Cell) (Runs : list ScrollbackRun) (ASCII : bool) (Text : string)
  | RectDamage (r : Rectangle)
  | ClearDamage (r : Rectangle)
  | ScreenDamage (W Height : Z)
  | MoveDamage (Src Dst : Rectangle)
  | ScrollDamage (r : Rectangle) (Dx Dy : Z)
  | ControlDamage (Kind : string) (X Y Mode Bottom : Z) (cell : option Cell) (ScrollOut : list ScrollbackDamage)
  | ModeDamage (Mode : Z) (Private Enabled : bool)
  | DScrollback (row : ScrollbackDamage).

Definition byte_at (s : string) (i : nat) : Z := from_option (λ a, Z.of_nat (nat_of_ascii a)) 0 (String.get i s).
Definition str_len (s : string) : Z := Z.of_nat (String.length s).

(** ** Widths and classes of cells *)
Definition cellDamageWidth (cell : Cell) : Z := if 0 <? cell.(Width) then cell.(Width) else 1.

Definition spanCellsWidth (cells : list Cell) : Z :=
  let width := foldl (λ width cell, if 0 <? cell.(Width) then width + cell.(Width) else width + 1) 0 cells in
  if width <=? 0 then 1 else width.

Definition isClearDamageCell (cell : option Cell) : bool :=
  match cell with
  | None => true
  | Some cell =>
      if negb (String.eqb cell.(Content) "") && negb (String.eqb cell.(Content) " ") then false
      else if negb (cell.(Width) =? 0) && negb (cell.(Width) =? 1) then false
      else if negb (StyleIsZero cell.(CellStyle)) then false
      else if negb (LinkIsZero cell.(CellLink)) then false else true
  end.

Definition compactASCIIColorEqual (a b : option (Color Other)) : bool :=
  match a, b with
  | None, None => true
  | None, _ | _, None => false
  | Some av, Some bv =>
      match av with
      | BasicColor n => match bv with BasicColor m => n =? m | _ => false end
      | IndexedColor n => match bv with IndexedColor m => n =? m | _ => false end
      | RGBColor r g b => match bv with RGBColor r' g' b' => (r =? r') && (g =? g') && (b =? b') | _ => false end
      | color_RGBA r g b a =>
          match bv with color_RGBA r' g' b' a' => (r =? r') && (g =? g') && (b =? b') && (a =? a') | _ => false end
      | color_NRGBA r g b a =>
          match bv with color_NRGBA r' g' b' a' => (r =? r') && (g =? g') && (b =? b') && (a =? a') | _ => false end
      | OtherColor _ => bool_decide (ColorRGBA av = ColorRGBA bv)
      end
  end.

Definition compactASCIIStyleEqual (a b : Style) : bool :=
  (Attrs a =? Attrs b) && (StyleUnderline a =? StyleUnderline b)
  && compactASCIIColorEqual (Fg a) (Fg b) && compactASCIIColorEqual (Bg a) (Bg b)
  && compactASCIIColorEqual (UnderlineColor a) (UnderlineColor b).

(** ** Rows as text *)

(** One ASCII character, one column wide. *)
Definition ascii_cell (cell : Cell) : bool :=
  (cell.(Width) =? 1) && (str_len cell.(Content) =? 1) && (byte_at cell.(Content) 0 <? 128).

Fixpoint compactASCIIPlainLine (line : list Cell) : string * bool :=
  match line with
  | [] => (EmptyString, true)
  | cell :: rest =>
      if negb (StyleIsZero cell.(CellStyle)) || negb (LinkIsZero cell.(CellLink)) || negb (ascii_cell cell)
      then (EmptyString, false)
      else let '(text, ok) := compactASCIIPlainLine rest in
           if ok then (cell.(Content) ++ text, true)%string else (EmptyString, false)
  end.

(** The loop of [compactASCIIStyleRuns]: the finished runs and the current one, its text being what the builder
    holds after [runStart]; [None] before the first cell. *)
Definition run_cell (st : list ScrollbackRun * option ScrollbackRun) (cell : Cell)
    : list ScrollbackRun * option ScrollbackRun :=
  let '(runs, current) := st in
  match current with
  | None => (runs, Some (mkRun cell.(CellStyle) cell.(Content)))
  | Some run =>
      if compactASCIIStyleEqual run.(run_Style) cell.(CellStyle)
      then (runs, Some (mkRun run.(run_Style) (run.(run_Text) ++ cell.(Content))%string))
      else (runs ++ [run], Some (mkRun cell.(CellStyle) cell.(Content)))
  end.

Definition compactASCIIStyleRuns (line : list Cell) : list ScrollbackRun * bool :=
  if forallb (λ cell, LinkIsZero cell.(CellLink) && ascii_cell cell) line then
    let '(runs, current) := foldl run_cell ([], None) line in
    (runs ++ from_option (λ run, [run]) [] current, true)
  else ([], false).

Definition compactScrollbackDamage (y : Z) (line : list Cell) (wrapped : bool) : ScrollbackDamage :=
  let '(text, ok) := compactASCIIPlainLine line in
  if ok then mkScrollbackDamage y [] [] wrapped true text else
  let '(runs, ok) := compactASCIIStyleRuns line in
  if ok then mkScrollbackDamage y [] runs wrapped false EmptyString
  else mkScrollbackDamage y line [] wrapped false EmptyString.

(** ** Bounds *)

(** The union of the standard library's rectangles. *)
Definition Union (r t : Rectangle) : Rectangle :=
  let empty r := (r.(MaxX) <=? r.(MinX)) || (r.(MaxY) <=? r.(MinY)) in
  if empty r then t else if empty t then r
  else mkRectangle (Z.min r.(MinX) t.(MinX)) (Z.min r.(MinY) t.(MinY)) (Z.max r.(MaxX) t.(MaxX)) (Z.max r.(MaxY) t.(MaxY)).

(** [Bounds()] of every damage; [Rect] is ultraviolet's. *)
Definition DamageBounds (Rect : Z → Z → Z → Z → Rectangle) (d : Damage) : Rectangle :=
  match d with
  | CellDamage x y w => Rect x y w 1
  | SpanDamage x y cells => Rect x y (spanCellsWidth cells) 1
  | TextDamage x y cells runs _ text =>
      if negb (String.eqb text "") then Rect x y (x + str_len text) (y + 1)
      else if 0 <? len runs then
        let width := foldl (λ width run, width + str_len run.(run_Text)) 0 runs in
        let width := if width <=? 0 then 1 else width in
        Rect x y (x + width) (y + 1)
      else Rect x y (spanCellsWidth cells) 1
  | RectDamage r | ClearDamage r | ScrollDamage r _ _ => r
  | ScreenDamage w h => Rect 0 0 w h
  | MoveDamage src dst => Union src dst
  | ControlDamage _ x y _ _ _ _ => Rect x y 1 1
  | ModeDamage _ _ _ => Rect 0 0 1 1
  | DScrollback row => Rect 0 row.(sd_Y) (len row.(sd_Cells)) 1
  end.

(** ** The recorder *)

(** An element of [damages]: a pointer to a span or a text whose cells are a slice of the arrays of the recorder,
    or a damage stored by value. *)
Inductive entry : Type :=
  | ESpan (X Y : Z) (start stop : nat)
  | EText (X Y : Z) (start stop : nat)
  | EDamage (d : Damage).

(** [tailSpan] is the place of the open span in [damages]. *)
Record screenDamageRecorder := mkRecorder {
  scrollbackOnly : bool;
  semanticOnly : bool;
  lineHistoryOnly : bool;
  damages : list entry;
  spanCells : list Cell;
  textCells : list Cell;
  tailSpan : option nat;
  tailSpanStart : nat;
  tailSpanEnd : Z }.
#[export] Instance eta_recorder : Eta screenDamageRecorder := λ r,
  mkRecorder r.(scrollbackOnly) r.(semanticOnly) r.(lineHistoryOnly) r.(damages) r.(spanCells) r.(textCells)
    r.(tailSpan) r.(tailSpanStart) r.(tailSpanEnd).

Definition recordsScreenDiff (r : screenDamageRecorder) : bool :=
  negb r.(scrollbackOnly) && negb r.(semanticOnly) && negb r.(lineHistoryOnly).

Definition tail_entry (r : screenDamageRecorder) : option (Z * Z * nat * nat) :=
  k ← r.(tailSpan); e ← r.(damages) !! k;
  match e with ESpan x y start stop => Some (x, y, start, stop) | _ => None end.

(** [r.tailSpan.Cells = r.spanCells[r.tailSpanStart:len(r.spanCells)]]: the struct behind the pointer changes. *)
Definition refreshTailSpan (r : screenDamageRecorder) : screenDamageRecorder :=
  match r.(tailSpan), tail_entry r with
  | Some k, Some (x, y, _, _) =>
      if (r.(tailSpanStart) <=? length r.(spanCells))%nat
      then r <| damages := <[k := ESpan x y r.(tailSpanStart) (length r.(spanCells))]> r.(damages) |>
      else r
  | _, _ => r
  end.

(** A span that begins with the cells appended to the array. *)
Definition open_span (x y : Z) (cells : list Cell) (width : Z) (r : screenDamageRecorder) : screenDamageRecorder :=
  let start := length r.(spanCells) in
  let r := r <| spanCells := r.(spanCells) ++ cells |> in
  r <| damages := r.(damages) ++ [ESpan x y start (length r.(spanCells))] |>
    <| tailSpan := Some (length r.(damages)) |> <| tailSpanStart := start |> <| tailSpanEnd := x + width |>.

Definition extend_span (cells : list Cell) (width : Z) (r : screenDamageRecorder) : screenDamageRecorder :=
  let r := refreshTailSpan (r <| spanCells := r.(spanCells) ++ cells |>) in
  r <| tailSpanEnd := r.(tailSpanEnd) + width |>.

Definition at_tail (x y : Z) (r : screenDamageRecorder) : bool :=
  match tail_entry r with
  | Some (_, ty, _, _) => (y =? ty) && (x =? r.(tailSpanEnd))
  | None => false
  end.

Definition recordSpan (x y : Z) (cells : list Cell) (r : screenDamageRecorder) : screenDamageRecorder :=
  if negb (recordsScreenDiff r) || (len cells =? 0) then r
  else if at_tail x y r then extend_span cells (spanCellsWidth cells) r
  else open_span x y cells (spanCellsWidth cells) r.

Definition recordSpanCell (x y : Z) (cell : Cell) (r : screenDamageRecorder) : screenDamageRecorder :=
  if negb (recordsScreenDiff r) then r
  else if at_tail x y r then extend_span [cell] (cellDamageWidth cell) r
  else open_span x y [cell] (cellDamageWidth cell) r.

Definition recordRepeatedSpan (x y count : Z) (cell : Cell) (r : screenDamageRecorder) : screenDamageRecorder :=
  if negb (recordsScreenDiff r) || (count <=? 0) then r
  else let cells := replicate (Z.to_nat count) cell in open_span x y cells (spanCellsWidth cells) r.

Definition recordText (x y : Z) (cells : list Cell) (runs : list ScrollbackRun) (ascii : bool) (text : string)
    (r : screenDamageRecorder) : screenDamageRecorder :=
  if r.(scrollbackOnly) || r.(lineHistoryOnly)
     || ((len cells =? 0) && (len runs =? 0) && String.eqb text "") then r
  else if (0 <? len runs) || negb (String.eqb text "")
  then r <| damages := r.(damages) ++ [EDamage (TextDamage x y cells runs ascii text)] |>
  else
    let start := length r.(textCells) in
    let r := r <| textCells := r.(textCells) ++ cells |> in
    r <| damages := r.(damages) ++ [EText x y start (length r.(textCells))] |>.

(** The filters at the head of [record]. *)
Definition recorded (r : screenDamageRecorder) (d : Damage) : bool :=
  (if r.(scrollbackOnly) then match d with DScrollback _ => true | _ => false end else true)
  && (if r.(lineHistoryOnly)
      then match d with ControlDamage _ _ _ _ _ _ _ | ModeDamage _ _ _ | DScrollback _ => true | _ => false end else true)
  && (if r.(semanticOnly)
      then match d with
           | TextDamage _ _ _ _ _ _ | ControlDamage _ _ _ _ _ _ _ | ModeDamage _ _ _ | DScrollback _
           | ScrollDamage _ _ _ | MoveDamage _ _ | ScreenDamage _ _ => true
           | _ => false
           end
      else true).

Definition record (d : Damage) (r : screenDamageRecorder) : screenDamageRecorder :=
  if negb (recorded r d) then r else
  match d with
  | TextDamage x y cells runs ascii text => recordText x y cells runs ascii text r
  | SpanDamage x y cells => recordSpan x y cells r
  | _ => r <| tailSpan := None |> <| damages := r.(damages) ++ [EDamage d] |>
  end.

Definition recordControl (kind : string) (x y mode : Z) (r : screenDamageRecorder) : screenDamageRecorder :=
  if r.(scrollbackOnly) || r.(lineHistoryOnly) || String.eqb kind "" then r
  else record (ControlDamage kind x y mode 0 None []) r.

Definition recordControlWithScrollOut (kind : string) (x y mode : Z) (scrollOut : list ScrollbackDamage)
    (r : screenDamageRecorder) : screenDamageRecorder :=
  if r.(scrollbackOnly) || String.eqb kind "" then r
  else record (ControlDamage kind x y mode 0 None scrollOut) r.

Definition recordScrollRegion (top bottom : Z) (r : screenDamageRecorder) : screenDamageRecorder :=
  if r.(scrollbackOnly) || r.(lineHistoryOnly) then r else record (ControlDamage "decstbm" 0 0 top bottom None []) r.

Definition recordHorizontalScrollRegion (left right : Z) (r : screenDamageRecorder) : screenDamageRecorder :=
  if r.(scrollbackOnly) || r.(lineHistoryOnly) then r else record (ControlDamage "decslrm" 0 0 left right None []) r.

Definition recordControlWithCellAndBottom (kind : string) (x y mode bottom : Z) (cell : option Cell)
    (r : screenDamageRecorder) : screenDamageRecorder :=
  if r.(scrollbackOnly) || r.(lineHistoryOnly) || String.eqb kind "" then r
  else record (ControlDamage kind x y mode bottom cell []) r.

Definition recordControlWithCell (kind : string) (x y mode : Z) (cell : option Cell) (r : screenDamageRecorder)
    : screenDamageRecorder :=
  if r.(scrollbackOnly) || r.(lineHistoryOnly) || String.eqb kind "" then r
  else record (ControlDamage kind x y mode 0 cell []) r.

Definition recordMode (mode : Z) (private enabled : bool) (r : screenDamageRecorder) : screenDamageRecorder :=
  if r.(scrollbackOnly) || (mode =? 0) then r else record (ModeDamage mode private enabled) r.

Definition recordTextSpan (x y : Z) (cells : list Cell) (r : screenDamageRecorder) : screenDamageRecorder :=
  if r.(scrollbackOnly) || r.(lineHistoryOnly) || (len cells =? 0) then r else
  let '(text, ok) := compactASCIIPlainLine cells in
  if ok then record (TextDamage x y [] [] true text) r else
  let '(runs, ok) := compactASCIIStyleRuns cells in
  if ok && (0 <? len runs) then record (TextDamage x y [] runs false EmptyString) r
  else record (TextDamage x y cells [] false EmptyString) r.

(** [data] is a byte string of printable characters. *)
Definition recordASCIITextRun (x y : Z) (data : string) (style : Style) (link : Link) (r : screenDamageRecorder)
    : screenDamageRecorder :=
  if r.(scrollbackOnly) || r.(lineHistoryOnly) || (str_len data =? 0) then r else
  if negb (LinkIsZero link) then
    recordTextSpan x y ((λ b, mkCell (String b EmptyString) style link 1) <$> list_ascii_of_string data) r
  else if StyleIsZero style then record (TextDamage x y [] [] true data) r
  else record (TextDamage x y [] [mkRun style data] false EmptyString) r.

Definition recordScrollbackLine (y : Z) (line : list Cell) (wrapped : bool) (r : screenDamageRecorder)
    : screenDamageRecorder :=
  r <| tailSpan := None |> <| damages := r.(damages) ++ [EDamage (DScrollback (compactScrollbackDamage y line wrapped))] |>.

Definition slice (start stop : nat) (cells : list Cell) : list Cell := take (stop - start) (drop start cells).

Definition resolve (r : screenDamageRecorder) (e : entry) : Damage :=
  match e with
  | ESpan x y start stop => SpanDamage x y (slice start stop r.(spanCells))
  | EText x y start stop => TextDamage x y (slice start stop r.(textCells)) [] false EmptyString
  | EDamage d => d
  end.

Definition snapshot (r : screenDamageRecorder) : list Damage := resolve r <$> r.(damages).
End Damage.
Arguments Cell : clear implicits.
Arguments ScrollbackRun : clear implicits.
Arguments ScrollbackDamage : clear implicits.
Arguments Damage : clear implicits.
