(* ===== verification/VtDamageTheorems.v ===== *)
(** * Replaying the recorded damage *)
From Stdlib Require Import String Ascii.
From S2P Require Import Prelude VtScrollback VtScrollbackTheorems VtDamage.
Local Open Scope Z_scope.
Local Open Scope list_scope.

Section Facts.
Context `{UvStyles Style Link Other}.
Local Notation Cell := (Cell Style Link).
Local Notation Damage := (Damage Style Link).
Local Notation recorder := (screenDamageRecorder (Style := Style) (Link := Link)).
Local Notation entry := (entry (Style := Style) (Link := Link)).
Implicit Types (cells : list Cell) (d : Damage) (e : entry).

(** ** Widths of spans *)
Fixpoint span_width cells : Z :=
  match cells with
  | [] => 0
  | c :: cells => cellDamageWidth c + span_width cells
  end.

Lemma cell_width_pos (c : Cell) : 1 ≤ cellDamageWidth c.
Proof. unfold cellDamageWidth. destruct (Z.ltb_spec 0 c.(Width)); lia. Qed.

Lemma span_width_nonneg cells : 0 ≤ span_width cells.
Proof. induction cells as [|c cells IH]; cbn; [lia|]. pose proof (cell_width_pos c). lia. Qed.

Lemma span_width_app c1 c2 : span_width (c1 ++ c2) = span_width c1 + span_width c2.
Proof. induction c1 as [|c c1 IH]; cbn; lia. Qed.

Lemma spanCellsWidth_sum cells : cells ≠ [] → spanCellsWidth cells = span_width cells.
Proof.
  intros Hne. unfold spanCellsWidth.
  assert (∀ n, foldl (λ width cell, if 0 <? cell.(Width) then width + cell.(Width) else width + 1) n cells
               = n + span_width cells) as E.
  { clear Hne. induction cells as [|c cells IH]; intros n; cbn [foldl span_width]; [lia|]. rewrite IH.
    unfold cellDamageWidth. destruct (0 <? Width c); lia. }
  rewrite E. destruct cells as [|c cells]; [done|]. cbn [span_width]. pose proof (cell_width_pos c).
  pose proof (span_width_nonneg cells). rewrite (proj2 (Z.leb_gt _ _)); lia.
Qed.

(** ** Replaying on a screen *)

(** [paint_cell] and [paint_other] are what a reader of the damage does to its screen: the cells of a span are
    painted one after another, a text says nothing about the screen. *)
Section Replay.
Context {S : Type} (paint_cell : Z → Z → Cell → S → S) (paint_other : Damage → S → S).

Fixpoint paint_span (x y : Z) cells (s : S) : S :=
  match cells with
  | [] => s
  | c :: cells => paint_span (x + cellDamageWidth c) y cells (paint_cell x y c s)
  end.

Definition paint (s : S) d : S :=
  match d with
  | SpanDamage x y cells => paint_span x y cells s
  | TextDamage _ _ _ _ _ _ => s
  | _ => paint_other d s
  end.

Definition replay (ds : list Damage) (s : S) : S := foldl paint s ds.

Lemma paint_span_app x y c1 c2 s :
  paint_span x y (c1 ++ c2) s = paint_span (x + span_width c1) y c2 (paint_span x y c1 s).
Proof.
  revert x s. induction c1 as [|c c1 IH]; intros x s; cbn [app paint_span span_width]; [by rewrite Z.add_0_r|].
  rewrite IH. f_equal. lia.
Qed.

Lemma replay_app ds1 ds2 s : replay (ds1 ++ ds2) s = replay ds2 (replay ds1 s).
Proof. apply foldl_app. Qed.

Definition is_text d : bool := match d with TextDamage _ _ _ _ _ _ => true | _ => false end.

Lemma replay_texts ds s : Forall is_text ds → replay ds s = s.
Proof. revert s. induction ds as [|d ds IH]; intros s; [done|]. intros [Hd Hds]%Forall_cons. cbn. destruct d; try done. by apply IH. Qed.
End Replay.

(** ** What is recorded, without the merging *)
Inductive rec_event : Type :=
  | RDamage (d : Damage)
  | RSpanCell (x y : Z) (cell : Cell)
  | RRepeated (x y count : Z) (cell : Cell)
  | RScrollback (y : Z) (line : list Cell) (wrapped : bool).

Definition rec_step (r : recorder) (ev : rec_event) : recorder :=
  match ev with
  | RDamage d => record d r
  | RSpanCell x y cell => recordSpanCell x y cell r
  | RRepeated x y count cell => recordRepeatedSpan x y count cell r
  | RScrollback y line wrapped => recordScrollbackLine y line wrapped r
  end.

Definition raw_step (r : recorder) (ev : rec_event) : list Damage :=
  match ev with
  | RDamage d =>
      if negb (recorded r d) then [] else
      match d with
      | TextDamage x y cells runs ascii text =>
          if r.(scrollbackOnly) || r.(lineHistoryOnly) then []
          else match runs, text with
               | [], EmptyString => match cells with [] => [] | _ => [TextDamage x y cells [] false EmptyString] end
               | _, _ => [d]
               end
      | SpanDamage x y cells => if recordsScreenDiff r then match cells with [] => [] | _ => [d] end else []
      | _ => [d]
      end
  | RSpanCell x y cell => if recordsScreenDiff r then [SpanDamage x y [cell]] else []
  | RRepeated x y count cell =>
      if recordsScreenDiff r && (0 <? count) then [SpanDamage x y (replicate (Z.to_nat count) cell)] else []
  | RScrollback y line wrapped => [DScrollback (compactScrollbackDamage y line wrapped)]
  end.

Definition not_span d : bool := match d with SpanDamage _ _ _ => false | _ => true end.

(** ** The slices stay what they are *)
Definition entry_ok (r : recorder) e : Prop :=
  match e with
  | ESpan _ _ start stop => (start ≤ stop ≤ length r.(spanCells))%nat
  | EText _ _ start stop => (start ≤ stop ≤ length r.(textCells))%nat
  | EDamage _ => True
  end.

Lemma slice_app start stop cells more : (stop ≤ length cells)%nat → slice start stop (cells ++ more) = slice start stop cells.
Proof.
  intros Hs. unfold slice. destruct (decide (start ≤ stop)%nat).
  - rewrite drop_app_le by lia. rewrite take_app_le; [done|]. rewrite length_drop. lia.
  - replace (stop - start)%nat with 0%nat by lia. done.
Qed.

Lemma slice_all start cells : (start ≤ length cells)%nat → slice start (length cells) cells = drop start cells.
Proof. intros Hs. unfold slice. rewrite take_ge; [done|]. rewrite length_drop. lia. Qed.

Lemma slice_new cells more : slice (length cells) (length (cells ++ more)) (cells ++ more) = more.
Proof. rewrite slice_all by (rewrite length_app; lia). by rewrite drop_app_length. Qed.

(** [r'] has longer arrays. *)
Definition grown (r r' : recorder) : Prop :=
  (∃ more, r'.(spanCells) = r.(spanCells) ++ more) ∧ (∃ more, r'.(textCells) = r.(textCells) ++ more).

Lemma resolve_grown r r' e : grown r r' → entry_ok r e → resolve r' e = resolve r e ∧ entry_ok r' e.
Proof.
  intros [[m1 E1] [m2 E2]] Hok. destruct e; cbn in *; rewrite ?E1, ?E2, ?length_app, ?slice_app by lia;
    (split; [done|]); lia || done.
Qed.

Lemma resolves_grown r r' es :
  grown r r' → Forall (entry_ok r) es → resolve r' <$> es = resolve r <$> es ∧ Forall (entry_ok r') es.
Proof.
  intros Hg. induction 1 as [|e es He _ [IH1 IH2]]; [done|]. destruct (resolve_grown r r' e Hg He) as [E Ok].
  cbn [fmap list_fmap]. rewrite E. split; [by f_equal|by constructor].
Qed.
End Facts.

(** * What the damage recorder promises *)

Section Recorder.
Context `{UvStyles Style Link Other}.
Local Notation Cell := (Cell Style Link).
Local Notation Damage := (Damage Style Link).
Local Notation recorder := (screenDamageRecorder (Style := Style) (Link := Link)).
Local Notation entry := (entry (Style := Style) (Link := Link)).
Implicit Types (cells : list Cell) (d : Damage) (e : entry) (r : recorder) (raw : list Damage).

(** The open span is the last one, it owns the end of the array, and only texts follow it. *)
Definition tail_ok r : Prop :=
  ∀ k, r.(tailSpan) = Some k → ∃ pre x y post,
    r.(damages) = pre ++ ESpan x y r.(tailSpanStart) (length r.(spanCells)) :: post ∧ k = length pre
    ∧ Forall (λ e, is_text (resolve r e)) post ∧ (r.(tailSpanStart) ≤ length r.(spanCells))%nat
    ∧ r.(tailSpanEnd) = x + span_width (drop r.(tailSpanStart) r.(spanCells)).

(** Two lists of damage that a reader cannot tell apart. *)
Definition same_damage (ds1 ds2 : list Damage) : Prop :=
  (∀ (S : Type) (paint_cell : Z → Z → Cell → S → S) (paint_other : Damage → S → S) s,
     replay paint_cell paint_other ds1 s = replay paint_cell paint_other ds2 s)
  ∧ List.filter not_span ds1 = List.filter not_span ds2.

Record rec_inv raw r : Prop := {
  ri_entries : Forall (entry_ok r) r.(damages);
  ri_same : same_damage (snapshot r) raw;
  ri_tail : tail_ok r }.

Lemma same_app ds1 ds2 k1 k2 : same_damage ds1 ds2 → same_damage k1 k2 → same_damage (ds1 ++ k1) (ds2 ++ k2).
Proof.
  intros [H1 H2] [H3 H4]. split.
  - intros S pc po s. by rewrite !replay_app, H1, H3.
  - by rewrite !List.filter_app, H2, H4.
Qed.

Lemma same_refl ds : same_damage ds ds.
Proof. done. Qed.

(** An entry at the end. *)
Lemma snapshot_push r r' e d :
  grown r r' → Forall (entry_ok r) r.(damages) → r'.(damages) = r.(damages) ++ [e] → resolve r' e = d →
  snapshot r' = snapshot r ++ [d].
Proof.
  intros Hg He Ed Er. unfold snapshot. rewrite Ed, fmap_app. cbn. rewrite Er.
  by destruct (resolves_grown r r' _ Hg He) as [-> _].
Qed.

Lemma push_inv raw r r' e d :
  rec_inv raw r → grown r r' → r'.(damages) = r.(damages) ++ [e] → resolve r' e = d → entry_ok r' e → tail_ok r' →
  rec_inv (raw ++ [d]) r'.
Proof.
  intros [He Hs Ht] Hg Ed Er Hok Ht'. split; [|by rewrite (snapshot_push r r' e d); [by apply same_app|..]|done].
  rewrite Ed. apply Forall_app. split; [by apply (resolves_grown r r')|by apply Forall_singleton].
Qed.

Lemma grown_refl r r' : r'.(spanCells) = r.(spanCells) → r'.(textCells) = r.(textCells) → grown r r'.
Proof. intros E1 E2. split; exists []; by rewrite ?E1, ?E2, app_nil_r. Qed.

Lemma other_inv raw r d :
  rec_inv raw r → rec_inv (raw ++ [d]) (r <| tailSpan := None |> <| damages := r.(damages) ++ [EDamage d] |>).
Proof. intros Hi. by apply (push_inv raw r _ (EDamage d)); try done; apply grown_refl. Qed.

(** A text leaves the open span open. *)
Lemma text_inv raw r r' e d :
  rec_inv raw r → grown r r' → r'.(spanCells) = r.(spanCells) → r'.(damages) = r.(damages) ++ [e] →
  r'.(tailSpan) = r.(tailSpan) → r'.(tailSpanStart) = r.(tailSpanStart) → r'.(tailSpanEnd) = r.(tailSpanEnd) →
  resolve r' e = d → is_text d → entry_ok r' e → rec_inv (raw ++ [d]) r'.
Proof.
  intros Hi Hg Esp Ed E1 E2 E3 Er Ht Hok. apply (push_inv raw r _ e); try done. pose proof Hi as [He _ Htail].
  intros k Hk. rewrite E1 in Hk. destruct (Htail k Hk) as (pre & x & y & post & T1 & T2 & T3 & T4 & T5).
  exists pre, x, y, (post ++ [e]). rewrite Ed, E2, E3, Esp, T1, <- app_assoc. split_and!; try done.
  apply Forall_app. split; [|apply Forall_singleton; by rewrite Er].
  rewrite T1 in He. apply Forall_app in He as [_ [_ He]%Forall_cons].
  apply Forall_forall. intros e' Hin. rewrite Forall_forall in T3, He.
  destruct (resolve_grown r r' e' Hg (He _ Hin)) as [-> _]. by apply T3.
Qed.

Lemma open_inv raw r x y cells :
  rec_inv raw r → cells ≠ [] →
  rec_inv (raw ++ [SpanDamage x y cells]) (open_span x y cells (span_width cells) r).
Proof.
  intros Hi Hne. apply (push_inv raw r _ (ESpan x y (length r.(spanCells)) (length (r.(spanCells) ++ cells)))); try done.
  - split; [by exists cells|exists []; by rewrite app_nil_r].
  - cbn. by rewrite slice_new.
  - cbn. rewrite length_app. lia.
  - intros k [= <-]. cbn. exists r.(damages), x, y, []. rewrite length_app, drop_app_length. split_and!; try done. lia.
Qed.

Lemma at_tail_inv r x y :
  tail_ok r → at_tail x y r = true → ∃ k pre x0 post,
    r.(tailSpan) = Some k
    ∧ r.(damages) = pre ++ ESpan x0 y r.(tailSpanStart) (length r.(spanCells)) :: post ∧ k = length pre
    ∧ Forall (λ e, is_text (resolve r e)) post ∧ (r.(tailSpanStart) ≤ length r.(spanCells))%nat
    ∧ x = x0 + span_width (drop r.(tailSpanStart) r.(spanCells)) ∧ r.(tailSpanEnd) = x.
Proof.
  intros Ht Hat. unfold at_tail, tail_entry in Hat. destruct r.(tailSpan) as [k|] eqn:Ek; [|done].
  destruct (Ht k Ek) as (pre & x0 & y0 & post & T1 & -> & T3 & T4 & T5).
  cbn in Hat. rewrite T1, list_lookup_middle in Hat by done. cbn in Hat.
  apply andb_prop in Hat as [->%Z.eqb_eq E%Z.eqb_eq].
  exists (length pre), pre, x0, post. split_and!; try done; by rewrite E.
Qed.

Lemma same_extend pre x0 y c1 cells post :
  Forall is_text post →
  same_damage (pre ++ SpanDamage x0 y (c1 ++ cells) :: post)
              ((pre ++ SpanDamage x0 y c1 :: post) ++ [SpanDamage (x0 + span_width c1) y cells]).
Proof.
  intros Hp. split.
  - intros S pc po s. assert (∀ s, foldl (paint pc po) s post = s) as E by (intros; by apply replay_texts).
    unfold replay. rewrite !foldl_app. cbn [foldl]. rewrite !E. cbn [paint]. apply paint_span_app.
  - rewrite !List.filter_app. cbn. by rewrite app_nil_r.
Qed.

Lemma extend_shape r k pre x0 y post cells w :
  r.(tailSpan) = Some k → k = length pre →
  r.(damages) = pre ++ ESpan x0 y r.(tailSpanStart) (length r.(spanCells)) :: post →
  (r.(tailSpanStart) ≤ length r.(spanCells))%nat →
  extend_span cells w r =
    r <| spanCells := r.(spanCells) ++ cells |>
      <| damages := pre ++ ESpan x0 y r.(tailSpanStart) (length (r.(spanCells) ++ cells)) :: post |>
      <| tailSpanEnd := r.(tailSpanEnd) + w |>.
Proof.
  intros Ek -> T1 Hle. unfold extend_span, refreshTailSpan, tail_entry. destruct r as [m1 m2 m3 ds sp tx tl ts te]. cbn in *.
  subst tl. cbn. rewrite T1, list_lookup_middle by done. cbn.
  rewrite (proj2 (Nat.leb_le _ _)) by (rewrite length_app; lia).
  replace (length pre) with (length pre + 0)%nat by lia. by rewrite insert_app_r.
Qed.

Lemma extend_inv raw r x y cells :
  rec_inv raw r → at_tail x y r = true →
  rec_inv (raw ++ [SpanDamage x y cells]) (extend_span cells (span_width cells) r).
Proof.
  intros [He Hs Ht] Hat.
  destruct (at_tail_inv r x y Ht Hat) as (k & pre & x0 & post & Ek & T1 & T2 & T3 & T4 & T5 & T6).
  rewrite (extend_shape r k pre x0 y post) by done. set (r' := r <| spanCells := _ |> <| damages := _ |> <| tailSpanEnd := _ |>).
  assert (Hg : grown r r') by (split; [by exists cells|exists []; by rewrite app_nil_r]).
  rewrite T1 in He. apply Forall_app in He as [Hpre [_ Hpost]%Forall_cons].
  destruct (resolves_grown r r' pre Hg Hpre) as [Epre Opre]. destruct (resolves_grown r r' post Hg Hpost) as [Epost Opost].
  assert (Ed : r'.(damages) = pre ++ ESpan x0 y r.(tailSpanStart) (length (r.(spanCells) ++ cells)) :: post) by done.
  assert (Esl : drop r.(tailSpanStart) (r.(spanCells) ++ cells) = drop r.(tailSpanStart) r.(spanCells) ++ cells).
  { by rewrite drop_app_le. }
  assert (Hpt : Forall is_text (resolve r <$> post)) by (by apply Forall_fmap).
  split.
  - rewrite Ed. apply Forall_app. split; [done|]. apply Forall_cons. split; [|done]. cbn. rewrite length_app. lia.
  - assert (snapshot r' = (resolve r <$> pre)
      ++ SpanDamage x0 y (drop r.(tailSpanStart) r.(spanCells) ++ cells) :: (resolve r <$> post)) as ->.
    { unfold snapshot. rewrite Ed, fmap_app, fmap_cons, Epre, Epost. do 2 f_equal. cbn.
      by rewrite slice_all, Esl by (rewrite length_app; lia). }
    assert (snapshot r = (resolve r <$> pre)
      ++ SpanDamage x0 y (drop r.(tailSpanStart) r.(spanCells)) :: (resolve r <$> post)) as Es.
    { unfold snapshot. rewrite T1, fmap_app, fmap_cons. do 2 f_equal. cbn. by rewrite slice_all. }
    destruct (same_extend (resolve r <$> pre) x0 y (drop r.(tailSpanStart) r.(spanCells)) cells (resolve r <$> post) Hpt)
      as [X1 X2].
    rewrite Es in Hs. destruct (same_app _ _ _ _ Hs (same_refl [SpanDamage x y cells])) as [Y1 Y2]. rewrite T5 in *.
    split; [intros S pc po s; by rewrite X1, Y1|by rewrite X2, Y2].
  - intros k' Hk'. cbn in Hk'. rewrite Ek in Hk'. injection Hk' as <-. exists pre, x0, y, post. cbn.
    split_and!; try done.
    + apply Forall_forall. intros e Hin. rewrite Forall_forall in T3, Hpost.
      destruct (resolve_grown r r' e Hg (Hpost _ Hin)) as [E _]. change (is_text (resolve r' e)). rewrite E. by apply T3.
    + rewrite length_app. lia.
    + rewrite Esl, span_width_app. lia.
Qed.

Definition same_modes r r' : Prop :=
  r'.(scrollbackOnly) = r.(scrollbackOnly) ∧ r'.(semanticOnly) = r.(semanticOnly)
  ∧ r'.(lineHistoryOnly) = r.(lineHistoryOnly).

Lemma raw_step_modes r r' ev : same_modes r r' → raw_step r' ev = raw_step r ev.
Proof. intros (E1 & E2 & E3). destruct ev; cbn; unfold recorded, recordsScreenDiff; by rewrite ?E1, ?E2, ?E3. Qed.

Lemma extend_modes r cells w : same_modes r (extend_span cells w r).
Proof.
  unfold extend_span, refreshTailSpan. destruct (tailSpan _); [|done]. destruct (tail_entry _) as [[[[x y] a] b]|]; [|done].
  by case_match.
Qed.

Lemma span_step raw r x y cells :
  rec_inv raw r → cells ≠ [] → recordsScreenDiff r = true →
  let r' := if at_tail x y r then extend_span cells (span_width cells) r else open_span x y cells (span_width cells) r in
  rec_inv (raw ++ [SpanDamage x y cells]) r' ∧ same_modes r r'.
Proof.
  intros Hi Hne Hd. destruct (at_tail x y r) eqn:Ea; (split; [|]); [by apply extend_inv|apply extend_modes|by apply open_inv|done].
Qed.

Lemma recordSpan_step raw r x y cells :
  rec_inv raw r →
  rec_inv (raw ++ if recordsScreenDiff r then match cells with [] => [] | _ => [SpanDamage x y cells] end else [])
    (recordSpan x y cells r) ∧ same_modes r (recordSpan x y cells r).
Proof.
  intros Hi. unfold recordSpan. destruct (recordsScreenDiff r) eqn:Ed; cbn [negb orb]; [|by rewrite app_nil_r].
  destruct cells as [|c cells]; [cbn; by rewrite app_nil_r|]. rewrite (proj2 (Z.eqb_neq _ _)) by (unfold len; cbn; lia).
  rewrite spanCellsWidth_sum by done. apply (span_step raw r x y (c :: cells)); done.
Qed.

Lemma recordText_step raw r x y cells runs ascii text :
  rec_inv raw r →
  rec_inv (raw ++ if (r.(scrollbackOnly) || r.(lineHistoryOnly))%bool then []
                  else match runs, text with
                       | [], EmptyString => match cells with [] => [] | _ => [TextDamage x y cells [] false EmptyString] end
                       | _, _ => [TextDamage x y cells runs ascii text]
                       end)
    (recordText x y cells runs ascii text r) ∧ same_modes r (recordText x y cells runs ascii text r).
Proof.
  intros Hi. unfold recordText. destruct (_ || lineHistoryOnly r)%bool; cbn [orb]; [by rewrite app_nil_r|].
  assert (Hv : rec_inv (raw ++ [TextDamage x y cells runs ascii text])
                 (r <| damages := r.(damages) ++ [EDamage (TextDamage x y cells runs ascii text)] |>)).
  { by apply (text_inv raw r _ (EDamage (TextDamage x y cells runs ascii text))); try done; apply grown_refl. }
  destruct runs as [|run runs], text as [|a text]; cbn [len length String.eqb negb orb andb]; rewrite ?andb_false_r, ?orb_true_r; try by split.
  destruct cells as [|c cells]; [by rewrite app_nil_r|].
  rewrite (proj2 (Z.eqb_neq (len (c :: cells)) 0)) by (unfold len; cbn; lia).
  change (0 <? @len (ScrollbackRun Style) []) with false. cbn [andb orb]. split; [|done].
  apply (text_inv raw r _ (EText x y (length r.(textCells)) (length (r.(textCells) ++ c :: cells)))); try done.
  - split; [exists []; by rewrite app_nil_r|by exists (c :: cells)].
  - cbn. by rewrite slice_new.
  - cbn. rewrite length_app. lia.
Qed.

Lemma record_step raw r d : rec_inv raw r → rec_inv (raw ++ raw_step r (RDamage d)) (record d r) ∧ same_modes r (record d r).
Proof.
  intros Hi. unfold record. cbn [raw_step]. destruct (recorded r d); cbn [negb]; [|by rewrite app_nil_r].
  destruct d; try (split; [by apply other_inv|done]); [by apply recordSpan_step|by apply recordText_step].
Qed.

Lemma rec_step_inv raw r ev : rec_inv raw r → rec_inv (raw ++ raw_step r ev) (rec_step r ev) ∧ same_modes r (rec_step r ev).
Proof.
  intros Hi. destruct ev as [d|x y cell|x y count cell|y line wrapped]; cbn [rec_step].
  - by apply record_step.
  - cbn [raw_step]. unfold recordSpanCell. destruct (recordsScreenDiff r) eqn:Ed; cbn [negb]; [|by rewrite app_nil_r].
    pose proof (span_step raw r x y [cell] Hi ltac:(done) Ed) as Hs. cbn [span_width] in Hs. by rewrite Z.add_0_r in Hs.
  - cbn [raw_step]. unfold recordRepeatedSpan. destruct (recordsScreenDiff r) eqn:Ed; cbn [negb orb andb]; [|by rewrite app_nil_r].
    destruct (Z.leb_spec count 0) as [Hc|Hc]; [by rewrite (proj2 (Z.ltb_ge _ _)), app_nil_r by done|].
    rewrite (proj2 (Z.ltb_lt _ _)) by done. assert (Hne : replicate (Z.to_nat count) cell ≠ []).
    { replace (Z.to_nat count) with (S (Z.to_nat (count - 1))) by lia. done. }
    rewrite spanCellsWidth_sum by done. split; [by apply open_inv|done].
  - split; [by apply other_inv|done].
Qed.

Lemma rec_run_inv raw r evs :
  rec_inv raw r → rec_inv (raw ++ concat (raw_step r <$> evs)) (foldl rec_step r evs).
Proof.
  revert raw r. induction evs as [|ev evs IH]; intros raw r Hi; [by cbn; rewrite app_nil_r|].
  destruct (rec_step_inv raw r ev Hi) as [Hi' Hm]. cbn [foldl fmap list_fmap concat]. rewrite app_assoc.
  specialize (IH _ _ Hi'). erewrite list_fmap_ext in IH; [exact IH|]. intros _ e _. by apply raw_step_modes.
Qed.
End Recorder.

(** C21: Whatever the mode of the recorder and the order of the records, the damage it hands out replays on any screen
    to what the records themselves replay to, although spans have been merged across the texts between them; and the
    texts, controls, modes and scrollback rows come out unmerged and in order. *)
Theorem recorder_replay `{UvStyles Style Link Other} (scrollback semantic lineHistory : bool)
    (evs : list (rec_event (Style := Style) (Link := Link))) :
  let r := mkRecorder scrollback semantic lineHistory [] [] [] None 0 0 in
  let out := snapshot (foldl rec_step r evs) in
  let raw := concat (raw_step r <$> evs) in
  (∀ (S : Type) (paint_cell : Z → Z → Cell Style Link → S → S) (paint_other : Damage Style Link → S → S) (s : S),
     replay paint_cell paint_other out s = replay paint_cell paint_other raw s)
  ∧ List.filter not_span out = List.filter not_span raw.
Proof. intros r out raw. apply (rec_run_inv [] r evs). split; [done|done|]. intros k Hk. done. Qed.

(** ** Rows stored as text *)
Section Rows.
Context `{UvStyles Style Link Other}.
Local Notation Cell := (Cell Style Link).
Local Notation ScrollbackRun := (ScrollbackRun Style).
Implicit Types (line : list Cell) (c : Cell) (runs : list ScrollbackRun).

(** What a reader makes of a stored row: a cell per character, with the plain style and link for text. *)
Definition text_cells (style : Style) (link : Link) (text : string) : list Cell :=
  (λ b, mkCell (String b EmptyString) style link 1) <$> list_ascii_of_string text.

Definition row_cells (style : Style) (link : Link) (row : ScrollbackDamage Style Link) : list Cell :=
  if row.(sd_ASCII) then text_cells style link row.(sd_Text)
  else match row.(sd_Runs) with
       | [] => row.(sd_Cells)
       | runs => concat ((λ run, text_cells run.(run_Style) link run.(run_Text)) <$> runs)
       end.

(** The same character and width, and a style and a link that cannot be told apart. *)
Definition cell_like (c' c : Cell) : Prop :=
  c'.(Content) = c.(Content) ∧ c'.(Width) = c.(Width)
  ∧ (c'.(CellStyle) = c.(CellStyle) ∨ StyleIsZero c'.(CellStyle) ∧ StyleIsZero c.(CellStyle)
     ∨ compactASCIIStyleEqual c'.(CellStyle) c.(CellStyle))
  ∧ (c'.(CellLink) = c.(CellLink) ∨ LinkIsZero c'.(CellLink) ∧ LinkIsZero c.(CellLink)).

Lemma cell_like_refl c : cell_like c c.
Proof. split_and!; by try left. Qed.

Lemma ascii_cell_char c : ascii_cell c = true → ∃ b, c.(Content) = String b EmptyString ∧ c.(Width) = 1.
Proof.
  unfold ascii_cell. intros [[Hw%Z.eqb_eq Hl%Z.eqb_eq]%andb_prop _]%andb_prop. unfold str_len in Hl.
  destruct (Content c) as [|b [|b' s]]; cbn in Hl; [lia| |lia]. by exists b.
Qed.

Lemma text_cells_app style link s1 s2 :
  text_cells style link (s1 ++ s2)%string = text_cells style link s1 ++ text_cells style link s2.
Proof.
  unfold text_cells. rewrite <- fmap_app. f_equal. induction s1 as [|a s1 IH]; [done|].
  change (String a s1 ++ s2)%string with (String a (s1 ++ s2)). cbn [list_ascii_of_string]. by rewrite IH.
Qed.

Lemma char_like c style link :
  ascii_cell c = true → LinkIsZero link → LinkIsZero c.(CellLink) →
  style = c.(CellStyle) ∨ StyleIsZero style ∧ StyleIsZero c.(CellStyle) ∨ compactASCIIStyleEqual style c.(CellStyle) →
  Forall2 cell_like (text_cells style link c.(Content)) [c].
Proof.
  intros Ha Hl Hl' Hs. destruct (ascii_cell_char c Ha) as (b & Eb & Ew). rewrite Eb. constructor; [|done].
  split_and!; cbn; [by rewrite Eb|by rewrite Ew|done|by right].
Qed.

Lemma plain_like style link line :
  StyleIsZero style → LinkIsZero link → (compactASCIIPlainLine line).2 = true →
  Forall2 cell_like (text_cells style link (compactASCIIPlainLine line).1) line.
Proof.
  intros Hs Hl. induction line as [|c line IH]; [constructor|]. cbn [compactASCIIPlainLine].
  destruct (StyleIsZero (CellStyle c)) eqn:E1, (LinkIsZero (CellLink c)) eqn:E2, (ascii_cell c) eqn:E3; try done.
  cbn [negb orb]. destruct (compactASCIIPlainLine line) as [text ok]. destruct ok; [|done]. cbn [fst snd] in *. intros _.
  rewrite text_cells_app. change (c :: line) with ([c] ++ line). apply Forall2_app; [|by apply IH].
  apply char_like; try done; [by rewrite E2|]. right. left. by rewrite E1.
Qed.

Definition runs_cells (link : Link) (st : list ScrollbackRun * option ScrollbackRun) : list Cell :=
  concat ((λ run, text_cells run.(run_Style) link run.(run_Text)) <$> st.1 ++ from_option (λ run, [run]) [] st.2).

Lemma run_cell_like link line st seen :
  LinkIsZero link → Forall (λ c, LinkIsZero c.(CellLink) ∧ ascii_cell c = true) line →
  Forall2 cell_like (runs_cells link st) seen →
  Forall2 cell_like (runs_cells link (foldl run_cell st line)) (seen ++ line).
Proof.
  intros Hl. revert st seen. induction line as [|c line IH]; intros st seen Hok Hs; [by rewrite app_nil_r|].
  apply Forall_cons in Hok as [[Hc1 Hc2] Hok]. cbn [foldl]. rewrite cons_middle, app_assoc. apply IH; [done|].
  destruct st as [runs [run|]]; unfold runs_cells in *; cbn [run_cell fst snd from_option option_rect] in *.
  - destruct (compactASCIIStyleEqual (run_Style run) (CellStyle c)) eqn:Es.
    + cbn [fst snd from_option option_rect]. rewrite fmap_app, concat_app in *. cbn [fmap list_fmap concat run_Style run_Text] in *. rewrite app_nil_r in *.
      rewrite text_cells_app, app_assoc. apply Forall2_app; [done|]. apply char_like; try done. right. right. by rewrite Es.
    + cbn [fst snd from_option option_rect]. rewrite fmap_app, concat_app. apply Forall2_app; [done|]. cbn [fmap list_fmap concat run_Style run_Text].
      rewrite app_nil_r. apply char_like; try done. by left.
  - rewrite fmap_app, concat_app in *. apply Forall2_app; [by rewrite app_nil_r in Hs|]. cbn [fmap list_fmap concat run_Style run_Text].
    rewrite app_nil_r.
    apply char_like; try done. by left.
Qed.

Lemma runs_like link line :
  LinkIsZero link → (compactASCIIStyleRuns line).2 = true →
  Forall2 cell_like (concat ((λ run, text_cells run.(run_Style) link run.(run_Text)) <$> (compactASCIIStyleRuns line).1)) line.
Proof.
  intros Hl. unfold compactASCIIStyleRuns. destruct (forallb _ line) eqn:Ef; [|done].
  pose proof (run_cell_like link line ([], None) [] Hl) as Hr. destruct (foldl run_cell ([], None) line) as [runs current].
  intros _. apply Hr; [|constructor]. apply Forall_forall. intros c Hc. rewrite forallb_forall in Ef.
  apply list_elem_of_In, Ef, andb_prop in Hc as [-> ->]. done.
Qed.
End Rows.

(** A row stored as plain text, as runs of one style or as cells is read back as the row that left the screen:
    the same characters and widths, styles and links that the code takes for equal, and its place and wrap mark. *)
Theorem scrollback_row_kept `{UvStyles Style Link Other} (style : Style) (link : Link) (y : Z)
    (line : list (Cell Style Link)) (wrapped : bool) (Hstyle : StyleIsZero style = true) (Hlink : LinkIsZero link = true) :
  let row := compactScrollbackDamage y line wrapped in
  Forall2 cell_like (row_cells style link row) line ∧ row.(sd_Y) = y ∧ row.(sd_Wrapped) = wrapped.
Proof.
  unfold compactScrollbackDamage. pose proof (plain_like style link line) as Hp. rewrite Hstyle, Hlink in Hp.
  destruct (compactASCIIPlainLine line) as [text [|]]; [by split; [apply Hp|]|].
  pose proof (runs_like link line) as Hr. rewrite Hlink in Hr.
  assert (Hrefl : Forall2 cell_like line line) by (apply Forall_Forall2_diag, Forall_true; intros; apply cell_like_refl).
  destruct (compactASCIIStyleRuns line) as [[|run runs] [|]]; split; try done; cbn in Hr |- *.
  - specialize (Hr I eq_refl). by inversion Hr.
  - by apply Hr.
Qed.

(** Styles are numbers, zero being the plain one. *)
Module DamageDemo.
#[global] Instance styles : UvStyles Z Z Empty_set :=
  {| StyleIsZero := λ s, s =? 0; LinkIsZero := λ l, l =? 0; Attrs := λ s, s; StyleUnderline := λ _, 0;
     Fg := λ _, None; Bg := λ _, None; UnderlineColor := λ _, None; ColorRGBA := λ _, (0, 0, 0, 0) |}.
Definition line : list (Cell Z Z) := [mkCell "a" 0 0 1; mkCell "b" 3 0 1; mkCell "c" 3 0 1; mkCell "d" 0 0 1].
End DamageDemo.

Lemma scrollback_row_kept_witness :
  let row := compactScrollbackDamage 4 DamageDemo.line true in
  row.(sd_Runs) = [mkRun 0 "a"; mkRun 3 "bc"; mkRun 0 "d"]
  ∧ Forall2 cell_like (row_cells 0 0 row) DamageDemo.line.
Proof. split; [by vm_compute|]. exact (proj1 (scrollback_row_kept 0 0 4 DamageDemo.line true eq_refl eq_refl)). Defined.

(** With a [Rect] that takes a width and a height, as every other damage calls it, the bounds of a text of two
    characters at column five of row three are seven columns and four rows. *)
Theorem text_bounds_grow :
  let Rect x y w h := mkRectangle x y (x + w) (y + h) in
  DamageBounds Rect (TextDamage 5 3 ([] : list (Cell Z Z)) [] true "hi") = mkRectangle 5 3 12 7
  ∧ DamageBounds Rect (CellDamage (Style := Z) (Link := Z) 5 3 2) = mkRectangle 5 3 7 4.
Proof. by vm_compute. Qed.
