(* ===== verification/VtScreen.v ===== *)
(** * The screen of the terminal emulator

    [vterm/internal/vt/screen.go], the [Reflow] of [reflow.go] and the [Resize] of [emulator.go]: the cursor and the
    margins, the soft-wrap marks and the used width kept for every row beside the render buffer, the rows that
    leave into the scrollback, and the damage of every change.

    The render buffer, its cells' emptiness and the style algebra are the ultraviolet library: parameters. The
    callbacks are a trace. *)
From Stdlib Require Import String.
From S2P Require Import Prelude VtScrollback VtReflow VtDamage.
Local Open Scope Z_scope.
Local Open Scope bool_scope.
Local Open Scope list_scope.

(** What the screen uses of ultraviolet, its [Rect] among it, and [ordered.Clamp]. *)
Class Ultraviolet (Style Link Other Buf : Type) `{UvStyles Style Link Other} := {
  ZeroStyle : Style;
  ZeroLink : Link;
  EmptyCell : Cell Style Link;
  CellIsZero : Cell Style Link → bool;
  Rect : Z → Z → Z → Z → Rectangle;
  Clamp : Z → Z → Z → Z;
  SetBg : Style → option (Color Other) → Style;
  NewRenderBuffer : Z → Z → Buf;
  BufWidth : Buf → Z;
  BufHeight : Buf → Z;
  BufLines : Buf → list (list (Cell Style Link));
  BufSetLines : list (list (Cell Style Link)) → Buf → Buf;
  BufLine : Buf → Z → option (list (Cell Style Link));
  BufSetLine : Z → list (Cell Style Link) → Buf → Buf;
  NewLine : Z → list (Cell Style Link);
  RenderSetCell : Z → Z → option (Cell Style Link) → Buf → Buf;
  BufferSetCell : Z → Z → option (Cell Style Link) → Buf → Buf;
  TouchLine : Z → Z → Z → Buf → Buf;
  ClearTouched : Buf → Buf;
  BufClear : Buf → Buf;
  BufResize : Z → Z → Buf → Buf;
  BufClearArea : Rectangle → Buf → Buf;
  BufFillArea : option (Cell Style Link) → Rectangle → Buf → Buf;
  InsertCellArea : Z → Z → Z → option (Cell Style Link) → Rectangle → Buf → Buf;
  DeleteCellArea : Z → Z → Z → option (Cell Style Link) → Rectangle → Buf → Buf;
  InsertLineArea : Z → Z → option (Cell Style Link) → Rectangle → Buf → Buf;
  DeleteLineArea : Z → Z → option (Cell Style Link) → Rectangle → Buf → Buf }.

Section Screen.
Context `{Ultraviolet Style Link Other Buf}.
Context (grow : Z → Z → Z).
Local Notation Cell := (Cell Style Link).
Local Notation Damage := (Damage Style Link).

#[export] Instance uv_cell : UvCell Cell := {| IsZero := CellIsZero; CellWidth := Width |}.

Inductive CursorStyle : Set := CursorBlock | CursorUnderline | CursorBar.
#[export] Instance cursor_style_eq : EqDecision CursorStyle.
Proof. solve_decision. Defined.

Record Cursor := mkCursor {
  Pen : Style; cur_Link : Link; cur_X : Z; cur_Y : Z; cur_Style : CursorStyle; Steady : bool; Hidden : bool }.
#[export] Instance eta_cursor : Eta Cursor := λ r,
  mkCursor r.(Pen) r.(cur_Link) r.(cur_X) r.(cur_Y) r.(cur_Style) r.(Steady) r.(Hidden).

(** The calls of the callbacks that are set. *)
Inductive callback : Type :=
  | CursorPositionCall (oldX oldY x y : Z)
  | CursorVisibilityCall (visible : bool)
  | CursorStyleCall (style : CursorStyle) (steady : bool).

Record Callbacks := mkCallbacks { hasCursorPosition : bool; hasCursorVisibility : bool; hasCursorStyle : bool }.

Record Screen := mkScreen {
  cb : Callbacks;
  calls : list callback;
  damage : option (screenDamageRecorder (Style := Style) (Link := Link));
  buf : Buf;
  cur : Cursor;
  saved : Cursor;
  scroll : Rectangle;
  scrollback : option (Scrollback Cell);
  wrapped : list bool;
  used : list Z }.
#[export] Instance eta_screen : Eta Screen := λ r,
  mkScreen r.(cb) r.(calls) r.(damage) r.(buf) r.(cur) r.(saved) r.(scroll) r.(scrollback) r.(wrapped) r.(used).

(** ** Rectangles of the standard library *)
Definition Dx (r : Rectangle) : Z := r.(MaxX) - r.(MinX).
Definition Dy (r : Rectangle) : Z := r.(MaxY) - r.(MinY).
Definition Empty (r : Rectangle) : bool := (r.(MaxX) <=? r.(MinX)) || (r.(MaxY) <=? r.(MinY)).
Definition In (x y : Z) (r : Rectangle) : bool :=
  (r.(MinX) <=? x) && (x <? r.(MaxX)) && (r.(MinY) <=? y) && (y <? r.(MaxY)).

Definition ScreenWidth (s : Screen) : Z := BufWidth s.(buf).
Definition ScreenHeight (s : Screen) : Z := BufHeight s.(buf).
Definition Bounds (s : Screen) : Rectangle := mkRectangle 0 0 (BufWidth s.(buf)) (BufHeight s.(buf)).

Definition zero_cursor : Cursor := mkCursor ZeroStyle ZeroLink 0 0 CursorBlock false false.

Definition NewScreen (callbacks : Callbacks) (w h : Z) : Screen :=
  let b := NewRenderBuffer w h in
  mkScreen callbacks [] None b zero_cursor zero_cursor (mkRectangle 0 0 (BufWidth b) (BufHeight b))
    (Some (NewScrollback DefaultScrollbackSize)) (make_slice false h) (make_slice 0 h).

(** ** Damage *)
Definition on_damage (f : screenDamageRecorder (Style := Style) (Link := Link) → screenDamageRecorder) (s : Screen) : Screen :=
  s <| damage := f <$> s.(damage) |>.

Definition recordDamage (d : Damage) (s : Screen) : Screen := on_damage (record d) s.

Definition screen_diff (s : Screen) : bool := from_option recordsScreenDiff false s.(damage).

Definition cloneDamageCell (cell : option Cell) : Cell :=
  match cell with Some c => c | None => mkCell " " ZeroStyle ZeroLink 1 end.

Definition recordCellDamage (x y : Z) (c : option Cell) (s : Screen) : Screen :=
  if negb (screen_diff s) then s
  else if isClearDamageCell c then recordDamage (ClearDamage (Rect x y 1 1)) s
  else on_damage (recordSpanCell x y (cloneDamageCell c)) s.

Definition recordFillDamage (c : option Cell) (area : Rectangle) (s : Screen) : Screen :=
  if negb (screen_diff s) || Empty area then s
  else if isClearDamageCell c then recordDamage (ClearDamage area) s
  else foldl (λ s y, on_damage (recordRepeatedSpan area.(MinX) y (Dx area) (cloneDamageCell c)) s) s
         (seqZ area.(MinY) (Dy area)).

(** [line] is nil for [None]. *)
Definition Screen_recordScrollbackLine (y : Z) (line : option (list Cell)) (w : bool) (s : Screen) : Screen :=
  match line with
  | None => s
  | Some line => on_damage (recordScrollbackLine y line w) s
  end.

(** ** Marks and used widths *)

(** [resizeBoolSlice] and [resizeIntSlice]: what lies past the old length is cleared. *)
Definition resize_slice {A} (zero : A) (values : list A) (size : Z) : list A :=
  if size <=? 0 then [] else resize (Z.to_nat size) zero values.

Definition ensureWrappedHeight (s : Screen) : Screen :=
  s <| wrapped := resize_slice false s.(wrapped) (BufHeight s.(buf)) |>.
Definition ensureUsedHeight (s : Screen) : Screen := s <| used := resize_slice 0 s.(used) (BufHeight s.(buf)) |>.

Definition LineWrapped (y : Z) (s : Screen) : bool := boolAt s.(wrapped) y.

Definition SetLineWrapped (y : Z) (w : bool) (s : Screen) : Screen :=
  if (y <? 0) || (BufHeight s.(buf) <=? y) then s
  else let s := ensureWrappedHeight s in s <| wrapped := set_at s.(wrapped) y w |>.

(** [LineUsed] also resizes [used], see [used_line]. *)
Definition LineUsed (y : Z) (s : Screen) : Z :=
  if (y <? 0) || (BufHeight s.(buf) <=? y) then 0
  else let s := ensureUsedHeight s in
       if len s.(used) <=? y then 0 else clampLocalInt (at_ 0 s.(used) y) 0 (BufWidth s.(buf)).

(** The screen after [LineUsed y]. *)
Definition used_line (y : Z) (s : Screen) : Screen :=
  if (y <? 0) || (BufHeight s.(buf) <=? y) then s else ensureUsedHeight s.

Definition markUsed (y u : Z) (s : Screen) : Screen :=
  if (y <? 0) || (BufHeight s.(buf) <=? y) then s
  else let s := ensureUsedHeight s in
       if at_ 0 s.(used) y <? u then s <| used := set_at s.(used) y (clampLocalInt u 0 (BufWidth s.(buf))) |> else s.

Definition setLineUsed (y u : Z) (s : Screen) : Screen :=
  if (y <? 0) || (BufHeight s.(buf) <=? y) then s
  else let s := ensureUsedHeight s in s <| used := set_at s.(used) y (clampLocalInt u 0 (BufWidth s.(buf))) |>.

Definition WrappedLines (s : Screen) : list bool := (ensureWrappedHeight s).(wrapped).

Definition SetWrappedLines (w : list bool) (s : Screen) : Screen :=
  s <| wrapped := resize_slice false w (BufHeight s.(buf)) |>.

(** [copy(l[y+n:], l[y:len(l)-n]); clear(l[y : y+n])] *)
Definition insert_rows {A} (zero : A) (y n : Z) (l : list A) : list A :=
  if (n <=? 0) || (y <? 0) || (len l <=? y) then l else
  let n := if len l <? y + n then len l - y else n in
  prefix_ y l ++ make_slice zero n ++ prefix_ (len l - n - y) (drop (Z.to_nat y) l).

(** [copy(l[y:], l[y+n:]); clear(l[len(l)-n:])] *)
Definition delete_rows {A} (zero : A) (y n : Z) (l : list A) : list A :=
  if (n <=? 0) || (y <? 0) || (len l <=? y) then l else
  let n := if len l <? y + n then len l - y else n in
  prefix_ y l ++ drop (Z.to_nat (y + n)) l ++ make_slice zero n.

Definition insertWrappedLines (y n : Z) (s : Screen) : Screen := s <| wrapped := insert_rows false y n s.(wrapped) |>.
Definition deleteWrappedLines (y n : Z) (s : Screen) : Screen := s <| wrapped := delete_rows false y n s.(wrapped) |>.
Definition insertUsedLines (y n : Z) (s : Screen) : Screen := s <| used := insert_rows 0 y n s.(used) |>.
Definition deleteUsedLines (y n : Z) (s : Screen) : Screen := s <| used := delete_rows 0 y n s.(used) |>.

(** ** Cells *)
Definition Line (y : Z) (s : Screen) : list Cell :=
  if (y <? 0) || (BufHeight s.(buf) <=? y) then []
  else match BufLine s.(buf) y with
       | None => []
       | Some line => prefix_ (Z.min (LineUsed y s) (len line)) line
       end.

Definition cellColumnWidth (c : option Cell) : Z :=
  match c with Some c => if 0 <? c.(Width) then c.(Width) else 1 | None => 1 end.

Definition SetCell (x y : Z) (c : option Cell) (s : Screen) : Screen :=
  let s := markUsed y (x + cellColumnWidth c) s in
  match s.(damage) with
  | None =>
      let width := match c with Some c => if 1 <? c.(Width) then c.(Width) else 1 | None => 1 end in
      s <| buf := BufferSetCell x y c (TouchLine x y width s.(buf)) |>
  | Some _ => recordCellDamage x y c (s <| buf := RenderSetCell x y c s.(buf) |>)
  end.

Definition printableASCIIStrings (b : Ascii.ascii) : string := String b EmptyString.
Definition ascii_uv_cell (style : Style) (link : Link) (b : Ascii.ascii) : Cell :=
  mkCell (printableASCIIStrings b) style link 1.

(** The cells are written into the row in place, starting at [x]. *)
Definition overwrite {A} (x : Z) (cells line : list A) : list A :=
  prefix_ x line ++ cells ++ drop (Z.to_nat (x + len cells)) line.

Definition SetASCIICells (x y : Z) (data : string) (style : Style) (link : Link) (s : Screen) : Screen :=
  let data := list_ascii_of_string data in
  if (len data =? 0) || (y <? 0) || (BufHeight s.(buf) <=? y) || (BufWidth s.(buf) <=? x) then s else
  let '(data, x) := if x <? 0 then (drop (Z.to_nat (Z.min (len data) (- x))) data, 0) else (data, x) in
  if len data =? 0 then s else
  let maxCells := BufWidth s.(buf) - x in
  let data := if maxCells <? len data then prefix_ maxCells data else data in
  let s := markUsed y (x + len data) s in
  let cells := ascii_uv_cell style link <$> data in
  match BufLine s.(buf) y with
  | None => foldl (λ s '(i, c), SetCell (x + i) y (Some c) s) s (zip (seqZ 0 (len cells)) cells)
  | Some line =>
      let s := s <| buf := TouchLine x y (len data) (BufSetLine y (overwrite x cells line) s.(buf)) |> in
      if screen_diff s then recordDamage (SpanDamage x y cells) s else s
  end.

Definition touchArea (area : Rectangle) (s : Screen) : Screen :=
  foldl (λ s y, s <| buf := TouchLine area.(MinX) y (area.(MaxX) - area.(MinX)) s.(buf) |>) s
    (seqZ area.(MinY) (Dy area)).

Definition full_width (area : Rectangle) (s : Screen) : bool := (area.(MinX) <=? 0) && (BufWidth s.(buf) <=? area.(MaxX)).

(** [for y := ...; y < limit; y++] with a limit that reads the screen. *)
Fixpoint for_rows (fuel : nat) (y : Z) (limit : Screen → Z) (body : Z → Screen → Screen) (s : Screen) : Screen :=
  match fuel with
  | O => s
  | S fuel => if y <? limit s then for_rows fuel (y + 1) limit body (body y s) else s
  end.

Definition area_loop (area : Rectangle) (size : Screen → Z) (body : Z → Screen → Screen) (s : Screen) : Screen :=
  let top := Z.max 0 area.(MinY) in
  for_rows (Z.to_nat (area.(MaxY) - top)) top (λ s, Z.min area.(MaxY) (size s)) body s.

Definition ClearArea (area : Rectangle) (s : Screen) : Screen :=
  let s := s <| buf := BufClearArea area s.(buf) |> in
  let s := if full_width area s
           then area_loop area (λ s, len s.(wrapped))
                  (λ y s, setLineUsed y 0 (s <| wrapped := set_at s.(wrapped) y false |>)) s
           else s in
  recordFillDamage None area (touchArea area s).

Definition FillArea (c : option Cell) (area : Rectangle) (s : Screen) : Screen :=
  let s := s <| buf := BufFillArea c area s.(buf) |> in
  let loop := area_loop area (λ s, len s.(used)) in
  let s := if full_width area s
           then loop (λ y s, setLineUsed y (match c with None => 0 | Some _ => BufWidth s.(buf) end) s) s
           else match c with
                | Some _ => loop (λ y s, markUsed y area.(MaxX) s) s
                | None => s
                end in
  recordFillDamage c area (touchArea area s).

Definition Fill (c : option Cell) (s : Screen) : Screen := FillArea c (Bounds s) s.

(** [clear(s.used)] *)
Definition zeros {A} (zero : A) (l : list A) : list A := (λ _, zero) <$> l.

Definition ScreenClear (s : Screen) : Screen :=
  let s := ClearArea (Bounds s) s in s <| used := zeros 0 s.(used) |>.

Definition isLineEmpty (line : list Cell) : bool :=
  forallb (λ cell, ((cell.(Width) =? 0) || (cell.(Width) =? 1)) && StyleIsZero cell.(CellStyle) && LinkIsZero cell.(CellLink)
                   && (String.eqb cell.(Content) "" || String.eqb cell.(Content) " ")) line.

(** A row that [ClearWithScrollback] keeps: its used cells, unless there is nothing in them. *)
Definition captured_row (s : Screen) (y : Z) : option (Z * list Cell) :=
  match BufLine s.(buf) y with
  | None => None
  | Some line =>
      let u := Z.min (len line) (LineUsed y s) in
      if u <=? 0 then None
      else let captured := prefix_ u line in if isLineEmpty captured then None else Some (y, captured)
  end.

Definition ClearWithScrollback (blank : option Cell) (s : Screen) : Screen * list (ScrollbackDamage Style Link) :=
  let rows := omap (captured_row s) (seqZ 0 (BufHeight s.(buf))) in
  let capturedRows := (λ '(y, line), compactScrollbackDamage y line (LineWrapped y s)) <$> rows in
  let s := s <| scrollback := (λ sb, foldl (λ sb '(y, line), PushWrapped grow line (LineWrapped y s) sb) sb rows)
                              <$> s.(scrollback) |> in
  let s := if existsb (λ y, bool_decide (is_Some (BufLine s.(buf) y))) (seqZ 0 (BufHeight s.(buf)))
           then ensureUsedHeight s else s in
  let s := FillArea blank (Bounds s) s in
  (s <| wrapped := zeros false s.(wrapped) |> <| used := zeros 0 s.(used) |>, capturedRows).

Definition Reset (s : Screen) : Screen :=
  let s := s <| buf := BufClear s.(buf) |> <| cur := zero_cursor |> <| saved := zero_cursor |> in
  let s := s <| scroll := Bounds s |> <| wrapped := make_slice false (BufHeight s.(buf)) |>
             <| used := make_slice 0 (BufHeight s.(buf)) |> <| buf := ClearTouched s.(buf) |> in
  recordDamage (ScreenDamage (BufWidth s.(buf)) (BufHeight s.(buf))) s.

Definition Screen_Resize (width height : Z) (s : Screen) : Screen :=
  let s := s <| buf := ClearTouched (BufResize width height s.(buf)) |> in
  let s := s <| wrapped := resize_slice false s.(wrapped) height |> <| used := resize_slice 0 s.(used) height |> in
  recordDamage (ScreenDamage width height) (s <| scroll := Bounds s |>).

(** ** Cursor and margins *)
Definition setHorizontalMargins (left right : Z) (s : Screen) : Screen :=
  s <| scroll := mkRectangle left s.(scroll).(MinY) right s.(scroll).(MaxY) |>.
Definition setVerticalMargins (top bottom : Z) (s : Screen) : Screen :=
  s <| scroll := mkRectangle s.(scroll).(MinX) top s.(scroll).(MaxX) bottom |>.

Definition call (c : callback) (s : Screen) : Screen := s <| calls := s.(calls) ++ [c] |>.

Definition place_cursor (x y : Z) (s : Screen) : Screen :=
  let old := s.(cur) in
  let s := s <| cur := s.(cur) <| cur_X := x |> <| cur_Y := y |> |> in
  if s.(cb).(hasCursorPosition) && (negb (old.(cur_X) =? x) || negb (old.(cur_Y) =? y))
  then call (CursorPositionCall old.(cur_X) old.(cur_Y) x y) s else s.

Definition setCursor (x y : Z) (margins : bool) (s : Screen) : Screen :=
  let r := s.(scroll) in
  let '(x, y) := if negb margins then (Clamp x 0 (BufWidth s.(buf) - 1), Clamp y 0 (BufHeight s.(buf) - 1))
                 else (Clamp (r.(MinX) + x) r.(MinX) (r.(MaxX) - 1), Clamp (r.(MinY) + y) r.(MinY) (r.(MaxY) - 1)) in
  place_cursor x y s.

Definition setCursorX (x : Z) (margins : bool) (s : Screen) : Screen := setCursor x s.(cur).(cur_Y) margins s.

Definition moveCursor (dx dy : Z) (s : Screen) : Screen :=
  let r := s.(scroll) in
  let '(oldX, oldY) := (s.(cur).(cur_X), s.(cur).(cur_Y)) in
  let r := if oldX <? r.(MinX) then mkRectangle 0 r.(MinY) r.(MaxX) r.(MaxY) else r in
  let r := if r.(MaxX) <=? oldX then mkRectangle r.(MinX) r.(MinY) (BufWidth s.(buf)) r.(MaxY) else r in
  let '(ptX, ptY) := (oldX + dx, oldY + dy) in
  let '(x, y) := if In oldX oldY r then (Clamp ptX r.(MinX) (r.(MaxX) - 1), Clamp ptY r.(MinY) (r.(MaxY) - 1))
                 else (Clamp ptX 0 (BufWidth s.(buf) - 1), Clamp ptY 0 (BufHeight s.(buf) - 1)) in
  place_cursor x y s.

Definition SaveCursor (s : Screen) : Screen := s <| saved := s.(cur) |>.

Definition RestoreCursor (s : Screen) : Screen :=
  let old := s.(cur) in
  let s := s <| cur := s.(saved) |> in
  if s.(cb).(hasCursorPosition) && (negb (old.(cur_X) =? s.(cur).(cur_X)) || negb (old.(cur_Y) =? s.(cur).(cur_Y)))
  then call (CursorPositionCall old.(cur_X) old.(cur_Y) s.(cur).(cur_X) s.(cur).(cur_Y)) s else s.

Definition setCursorHidden (hidden : bool) (s : Screen) : Screen :=
  let changed := negb (Bool.eqb s.(cur).(Hidden) hidden) in
  let s := s <| cur := s.(cur) <| Hidden := hidden |> |> in
  if changed && s.(cb).(hasCursorVisibility) then call (CursorVisibilityCall (negb hidden)) s else s.

Definition setCursorStyle (style : CursorStyle) (blink : bool) (s : Screen) : Screen :=
  let changed := negb (bool_decide (s.(cur).(cur_Style) = style)) || negb (Bool.eqb s.(cur).(Steady) (negb blink)) in
  let s := s <| cur := s.(cur) <| cur_Style := style |> <| Steady := negb blink |> |> in
  if changed && s.(cb).(hasCursorStyle) then call (CursorStyleCall style (negb blink)) s else s.

Definition blankCell (s : Screen) : option Cell :=
  match Bg s.(cur).(Pen) with
  | None => None
  | bg => Some (mkCell EmptyCell.(Content) (SetBg EmptyCell.(CellStyle) bg) EmptyCell.(CellLink) EmptyCell.(Width))
  end.

(** ** Inserting and deleting *)
Definition InsertCell (n : Z) (s : Screen) : Screen :=
  if n <=? 0 then s else
  let '(x, y) := (s.(cur).(cur_X), s.(cur).(cur_Y)) in
  let fill := blankCell s in
  let limit := Z.min s.(scroll).(MaxX) (BufWidth s.(buf)) in
  let n := if limit <? x + n then limit - x else n in
  if n <=? 0 then s else
  let s := s <| buf := InsertCellArea x y n fill s.(scroll) s.(buf) |> in
  let s := markUsed y (Z.min limit (LineUsed y s + n)) s in
  if 0 <? limit - x
  then recordFillDamage fill (Rect x y n 1) (recordDamage (ScrollDamage (Rect x y (limit - x) 1) n 0) s)
  else s.

Definition DeleteCell (n : Z) (s : Screen) : Screen :=
  if n <=? 0 then s else
  let '(x, y) := (s.(cur).(cur_X), s.(cur).(cur_Y)) in
  let fill := blankCell s in
  let limit := Z.min s.(scroll).(MaxX) (BufWidth s.(buf)) in
  let n := if limit <? x + n then limit - x else n in
  if n <=? 0 then s else
  let s := s <| buf := DeleteCellArea x y n fill s.(scroll) s.(buf) |> in
  let u := LineUsed y s in
  let s := used_line y s in
  let s := if x <? u then setLineUsed y (Z.max x (u - n)) s else s in
  if 0 <? limit - x
  then recordFillDamage fill (Rect (limit - n) y n 1) (recordDamage (ScrollDamage (Rect x y (limit - x) 1) (- n) 0) s)
  else s.

Definition in_margins (x y : Z) (r : Rectangle) : bool :=
  negb ((y <? r.(MinY)) || (r.(MaxY) <=? y) || (x <? r.(MinX)) || (r.(MaxX) <=? x)).

Definition InsertLine (n : Z) (s : Screen) : Screen * bool :=
  if n <=? 0 then (s, false) else
  let '(x, y) := (s.(cur).(cur_X), s.(cur).(cur_Y)) in
  let r := s.(scroll) in
  if negb (in_margins x y r) then (s, false) else
  let fill := blankCell s in
  let n := if r.(MaxY) <? y + n then r.(MaxY) - y else n in
  if n <=? 0 then (s, false) else
  let s := s <| buf := InsertLineArea y n fill r s.(buf) |> in
  let s := insertUsedLines y n (insertWrappedLines y n s) in
  let s := recordDamage (ScrollDamage (Rect r.(MinX) y (Dx r) (r.(MaxY) - y)) 0 n) s in
  (recordFillDamage fill (Rect r.(MinX) y (Dx r) n) s, true).

Definition fillLine (line : list Cell) (cell : option Cell) : list Cell :=
  (λ _, match cell with None => EmptyCell | Some c => c end) <$> line.

(** The rows from [y] on move up, the [n] removed ones are cleared and put at the bottom of the region. *)
Definition deleteFullWidthLines (y n : Z) (r : Rectangle) (fill : option Cell) (b : Buf) : Buf :=
  if (n <=? 0) || (y <? r.(MinY)) || (r.(MaxY) <=? y) then b else
  let n := if r.(MaxY) - y <? n then r.(MaxY) - y else n in
  if n <=? 0 then b else
  let lines := BufLines b in
  if len lines =? 0 then b else
  let width := BufWidth b in
  let reuse := prefix_ n (drop (Z.to_nat y) lines) in
  let moved := prefix_ (r.(MaxY) - (y + n)) (drop (Z.to_nat (y + n)) lines) in
  let cleared := (λ line, if negb (len line =? width) then NewLine width else fillLine line fill) <$> reuse in
  let b := BufSetLines (prefix_ y lines ++ moved ++ cleared ++ drop (Z.to_nat r.(MaxY)) lines) b in
  foldl (λ b row, TouchLine r.(MinX) row (Dx r) b) b (seqZ y (r.(MaxY) - y)).

(** The rows a scroll takes off the screen, as they are captured for the damage. *)
Definition leaving_rows (y n : Z) (s : Screen) : list (Z * list Cell * bool) :=
  omap (λ i, (λ line, (y + i, prefix_ (Z.min (len line) (LineUsed (y + i) s)) line, boolAt s.(wrapped) (y + i)))
             <$> BufLine s.(buf) (y + i))
    (seqZ 0 (Z.min n (BufHeight s.(buf) - y))).

Definition record_rows (rows : list (Z * list Cell * bool)) (s : Screen) : Screen :=
  foldl (λ s '(y, line, w), Screen_recordScrollbackLine y (Some line) w s) s rows.

(** Whether the recorder wants the leaving rows before the scroll or after it. *)
Definition rows_first (s : Screen) : bool :=
  from_option (λ r, r.(scrollbackOnly) || r.(lineHistoryOnly)) false s.(damage).

Definition touch_used (rows : list (Z * list Cell * bool)) (s : Screen) : Screen :=
  match rows with [] => s | _ => ensureUsedHeight s end.

Definition DeleteLine (n : Z) (s : Screen) : Screen * bool :=
  if n <=? 0 then (s, false) else
  let r := s.(scroll) in
  let '(x, y) := (s.(cur).(cur_X), s.(cur).(cur_Y)) in
  if negb (in_margins x y r) then (s, false) else
  let fill := blankCell s in
  let n := if r.(MaxY) - y <? n then r.(MaxY) - y else n in
  if n <=? 0 then (s, false) else
  let whole := (r.(MinX) =? 0) && (r.(MaxX) =? BufWidth s.(buf)) in
  let '(s, pendingScrollback) :=
    if (y =? r.(MinY)) && whole then
      let linesToSave := Z.min n (r.(MaxY) - y) in
      let rows := leaving_rows y linesToSave s in
      let '(s, pending) :=
        match s.(damage) with
        | None => (s, [])
        | Some _ => if rows_first s then (record_rows rows (touch_used rows s), []) else (touch_used rows s, rows)
        end in
      (s <| scrollback := PushN grow (BufLine s.(buf)) (BufHeight s.(buf)) s.(wrapped) s.(used) y linesToSave
                          <$> s.(scrollback) |>, pending)
    else (s, []) in
  let s := s <| buf := (if whole then deleteFullWidthLines y n r fill else DeleteLineArea y n fill r) s.(buf) |> in
  let s := deleteUsedLines y n (deleteWrappedLines y n s) in
  let s := recordDamage (ScrollDamage (Rect r.(MinX) y (Dx r) (r.(MaxY) - y)) 0 (- n)) s in
  let s := recordFillDamage fill (Rect r.(MinX) (r.(MaxY) - n) (Dx r) n) s in
  (record_rows pendingScrollback s, true).

Definition ScrollUp (n : Z) (s : Screen) : Screen :=
  let '(x, y) := (s.(cur).(cur_X), s.(cur).(cur_Y)) in
  let s := setCursor s.(cur).(cur_X) 0 true s in
  setCursor x y false (DeleteLine n s).1.

Definition ScrollDown (n : Z) (s : Screen) : Screen :=
  let '(x, y) := (s.(cur).(cur_X), s.(cur).(cur_Y)) in
  let s := setCursor s.(cur).(cur_X) 0 true s in
  setCursor x y false (InsertLine n s).1.

Definition SetScrollback (sb : option (Scrollback Cell)) (s : Screen) : Screen := s <| scrollback := sb |>.

Definition SetScrollbackSize (maxLines : Z) (s : Screen) : Screen :=
  s <| scrollback := Some (match s.(scrollback) with
                           | None => NewScrollback maxLines
                           | Some sb => SetMaxLines grow maxLines sb
                           end) |>.

(** ** Reflow *)
Definition all_rows (s : Screen) : list (reflowLine Cell) :=
  match s.(scrollback) with
  | None => []
  | Some sb => let sb := compact grow sb in
               imap (λ i row, mkReflowLine (cloneUVLineWithTrailingSpaces row) (VtScrollback.LineWrapped (Z.of_nat i) sb))
                 (Lines sb)
  end
  ++ ((λ y, mkReflowLine (cloneUVLineWithTrailingSpaces (Line y s)) (LineWrapped y s)) <$> seqZ 0 (ScreenHeight s)).

(** The first reflowed row on the screen: the old top if the cursor stays in view. *)
Definition visible_start (newTop newAbs height count : Z) : Z :=
  let visibleStart := if newAbs <? newTop then newAbs else newTop in
  let visibleStart := if visibleStart + height <=? newAbs then newAbs - height + 1 else visibleStart in
  let maxVisibleStart := if count - height <? 0 then 0 else count - height in
  clampInt visibleStart 0 maxVisibleStart.

Definition reflow_scrollback (rows : list (reflowLine Cell)) (sb : Scrollback Cell) : Scrollback Cell :=
  let lines := (λ r, cloneUVLineWithTrailingSpaces r.(rl_cells)) <$> rows in
  let sb := mkScrollback lines (rl_wrapped <$> rows) sb.(sb_maxLines) 0 (len lines) (len lines) in
  let sb := if sb.(sb_maxLines) <? sb.(sb_size) then compact grow (dropOldest (sb.(sb_size) - sb.(sb_maxLines)) sb) else sb in
  normalizeWrapped sb.

Fixpoint write_cells (x y : Z) (row : list Cell) (b : Buf) : Buf :=
  match row with
  | [] => b
  | cell :: row =>
      if BufWidth b <=? x then b
      else let cellWidth := visibleCellWidth cell in
           if cellWidth <=? 0 then write_cells x y row b
           else write_cells (x + cellWidth) y row (BufferSetCell x y (Some cell) b)
  end.

Definition writeLineToBuffer (y : Z) (row : list Cell) (b : Buf) : Buf :=
  if (y <? 0) || (BufHeight b <=? y) then b else write_cells 0 y row b.

(** One row of the new screen; the rows past the text stay as they are made. *)
Definition reflow_row (reflowed : list (reflowLine Cell)) (visibleStart width : Z) (s : Screen) (y : Z) : Screen :=
  match reflowed !! Z.to_nat (visibleStart + y) with
  | None => s
  | Some row =>
      s <| buf := writeLineToBuffer y row.(rl_cells) s.(buf) |>
        <| wrapped := set_at s.(wrapped) y row.(rl_wrapped) |>
        <| used := set_at s.(used) y (Z.min (lineCellWidth row.(rl_cells)) width) |>
  end.

Definition Reflow (width height cursorX cursorY : Z) (s : Screen) : Screen * Z * Z :=
  let width := if width <? 1 then 1 else width in
  let height := if height <? 1 then 1 else height in
  let oldWidth := ScreenWidth s in
  let oldHeight := ScreenHeight s in
  if (oldWidth <? 1) || (oldWidth =? width)
  then (Screen_Resize width height s, clampInt cursorX 0 (width - 1), clampInt cursorY 0 (height - 1))
  else
    let historyCount := from_option Len 0 s.(scrollback) in
    let allRows := all_rows s in
    let cursorAbs := historyCount + clampInt cursorY 0 (Z.max 0 (oldHeight - 1)) in
    let topOffset := logicalOffsetForPosition allRows historyCount 0 in
    let cursorOffset := logicalOffsetForPosition allRows cursorAbs (clampInt cursorX 0 (Z.max 0 (oldWidth - 1))) in
    let reflowed := reflowLines allRows width in
    let newTopAbs := (positionForLogicalOffset reflowed topOffset).1 in
    let '(newAbs, newX) := positionForLogicalOffset reflowed cursorOffset in
    let visibleStart := visible_start newTopAbs newAbs height (len reflowed) in
    let s := s <| scrollback := reflow_scrollback (prefix_ visibleStart reflowed) <$> s.(scrollback) |> in
    let s := s <| buf := NewRenderBuffer width height |> <| wrapped := make_slice false height |>
               <| used := make_slice 0 height |> in
    let s := foldl (reflow_row reflowed visibleStart width) s (seqZ 0 height) in
    let s := s <| scroll := Bounds s |> <| buf := ClearTouched s.(buf) |> in
    let s := recordDamage (ScreenDamage width height) s in
    let newY := newAbs - visibleStart in
    let '(newX, newY) := if newY <? 0 then (0, 0) else (newX, newY) in
    let newY := if height <=? newY then height - 1 else newY in
    (s, clampInt newX 0 (width - 1), newY).

(** ** Resizing the emulator *)

(** The part of the emulator that [Resize] changes; the tab stops and the in-band report are the library's. *)
Record Emulator := mkEmulator { scr0 : Screen; scr1 : Screen; altScreen : bool; atPhantom : bool }.
#[export] Instance eta_emulator : Eta Emulator := λ e, mkEmulator e.(scr0) e.(scr1) e.(altScreen) e.(atPhantom).

Definition scr (e : Emulator) : Screen := if e.(altScreen) then e.(scr1) else e.(scr0).

(** [e.setCursor]: the current screen, and the pending wrap is over. *)
Definition Emulator_setCursor (x y : Z) (e : Emulator) : Emulator :=
  let e := e <| atPhantom := false |> in
  if e.(altScreen) then e <| scr1 := setCursor x y false e.(scr1) |> else e <| scr0 := setCursor x y false e.(scr0) |>.

Definition Resize (width height : Z) (e : Emulator) : Emulator :=
  let '(x, y) := ((scr e).(cur).(cur_X), (scr e).(cur).(cur_Y)) in
  let '(x, e) := if e.(atPhantom) && (x <? width - 1) then (x + 1, e <| atPhantom := false |>) else (x, e) in
  let y := if y <? 0 then 0 else y in
  let y := if height <=? y then height - 1 else y in
  let x := if x <? 0 then 0 else x in
  let x := if width <=? x then width - 1 else x in
  let '(s0, newX, newY) := Reflow width height x y e.(scr0) in
  let '(x, y) := if negb e.(altScreen) then (newX, newY) else (x, y) in
  let e := e <| scr0 := s0 |> <| scr1 := Screen_Resize width height e.(scr1) |> in
  Emulator_setCursor x y e.
End Screen.
