(* ===== verification/VtScreenTheorems.v ===== *)
(** * What a resize and a scroll do to the screen *)
From Stdlib Require Import String.
From S2P Require Import Prelude VtScrollback VtScrollbackTheorems VtReflow VtReflowTheorems VtDamage VtDamageTheorems VtScreen.
Local Open Scope Z_scope.
Local Open Scope list_scope.

(** What ultraviolet says of its render buffer: a new one is blank, setting a cell changes its row only, and a cell set
    on blank columns that are wide enough takes its place, with zero cells behind it as placeholders of its width. *)
Class UvBufferLaws (Style Link Other Buf : Type) `{Ultraviolet Style Link Other Buf} := {
  new_size w h : 1 ≤ w → 1 ≤ h → BufWidth (NewRenderBuffer w h) = w ∧ BufHeight (NewRenderBuffer w h) = h;
  new_blank w h y : 1 ≤ w → 0 ≤ y < h → BufLine (NewRenderBuffer w h) y = Some (make_slice EmptyCell w);
  set_cell_size x y c b : BufWidth (BufferSetCell x y c b) = BufWidth b ∧ BufHeight (BufferSetCell x y c b) = BufHeight b;
  set_cell_other x y y' c b : 0 ≤ y → 0 ≤ y' → y' ≠ y → BufLine (BufferSetCell x y c b) y' = BufLine b y';
  set_cell_blank y c b pre n :
    BufLine b y = Some (pre ++ make_slice EmptyCell n) → BufWidth b = len pre + n → 1 ≤ c.(Width) ≤ n →
    BufLine (BufferSetCell (len pre) y (Some c) b) y
    = Some (pre ++ (c :: make_slice (mkCell EmptyString ZeroStyle ZeroLink 0) (c.(Width) - 1)) ++ make_slice EmptyCell (n - c.(Width)));
  touched_line b y : BufLine (ClearTouched b) y = BufLine b y }.

Section Reflow.
Context `{Ultraviolet Style Link Other Buf}.
Context (grow : Z → Z → Z) (grow_enough : ∀ c n, n ≤ grow c n).
Local Notation Cell := (Cell Style Link).
Local Notation Screen := (Screen (Style := Style) (Link := Link) (Buf := Buf)).
Implicit Types (s : Screen) (sb : Scrollback Cell) (rows : list (reflowLine Cell)).

Definition as_row (r : reflowLine Cell) : list Cell * bool := (r.(rl_cells), r.(rl_wrapped)).

(** ** The scrollback *)
Lemma made_ring rows m :
  let s0 := mkScrollback (rl_cells <$> rows) (rl_wrapped <$> rows) m 0 (len (rl_cells <$> rows)) (len (rl_cells <$> rows)) in
  ring_ok s0 ∧ contents s0 = as_row <$> rows.
Proof.
  intros s0. pose proof (len_nonneg (rl_cells <$> rows)). 
  assert (R : ring_ok s0) by (split; unfold s0; cbn; unfold len in *; rewrite ?length_fmap in *; lia).
  split; [done|]. apply fst_snd_eq.
  - rewrite <- logicalLines_contents by done. unfold logicalLines, s0. cbn.
    rewrite Z.eqb_refl. destruct (Z.leb_spec (len (rl_cells <$> rows)) 0) as [Hz|Hz].
    + destruct rows; [done|]. unfold len in Hz. cbn in Hz. lia.
    + unfold prefix_. rewrite take_ge by (unfold len; lia). by rewrite <- list_fmap_compose.
  - rewrite <- logicalWrapped_contents by done. unfold logicalWrapped, s0. cbn.
    destruct (Z.leb_spec (len (rl_cells <$> rows)) 0) as [Hz|Hz].
    + destruct rows; [done|]. unfold len in Hz. cbn in Hz. lia.
    + rewrite (proj2 (Z.eqb_eq _ _)) by (unfold len; by rewrite !length_fmap).
      unfold prefix_. rewrite take_ge by (unfold len; rewrite !length_fmap; lia). by rewrite <- list_fmap_compose.
Qed.

Lemma reflow_scrollback_ok rows sb :
  0 < sb.(sb_maxLines) →
  let sb' := reflow_scrollback grow rows sb in
  sb_ok sb' ∧ sb'.(sb_maxLines) = sb.(sb_maxLines)
  ∧ contents sb' = drop (Z.to_nat (len rows - sb.(sb_maxLines))) (as_row <$> rows).
Proof.
  intros Hm. unfold reflow_scrollback. cbn zeta.
  replace ((λ r, cloneUVLineWithTrailingSpaces r.(rl_cells)) <$> rows) with (rl_cells <$> rows)
    by (apply list_fmap_ext; intros ???; by rewrite clone_id).
  destruct (made_ring rows sb.(sb_maxLines)) as [R C]. cbn zeta in R, C.
  set (s0 := mkScrollback (rl_cells <$> rows) _ _ _ _ _) in *.
  assert (Es : s0.(sb_size) = len rows) by (unfold s0, len; cbn; by rewrite length_fmap).
  rewrite <- C, <- Es. change (sb_maxLines sb) with (sb_maxLines s0).
  assert (Hm0 : 0 < s0.(sb_maxLines)) by done. pose proof R as [Rw Rs _ _].
  destruct (Z.ltb_spec s0.(sb_maxLines) s0.(sb_size)) as [Hlt|Hge].
  - destruct (drop_spec s0 (s0.(sb_size) - s0.(sb_maxLines)) R) as (D1 & D2 & D3 & D4 & D5 & _).
    destruct (compact_ok grow grow_enough _ D1) as [K1 K2]; [by rewrite D4|rewrite D4, D5; lia|].
    rewrite normalizeWrapped_id by apply K1. split_and!; [done|done|]. by rewrite K2, D2.
  - rewrite normalizeWrapped_id by done. replace (Z.to_nat _) with 0%nat by lia.
    split_and!; [|done|done]. split; [done|done|cbn; unfold s0 in *; cbn in *; lia|]. left. cbn. lia.
Qed.

Lemma all_rows_history s sb :
  s.(scrollback) = Some sb → sb_ok sb →
  ∃ screen, all_rows grow s = ((λ p, mkReflowLine p.1 p.2) <$> contents sb) ++ screen ∧ len screen = Z.max 0 (ScreenHeight s).
Proof.
  intros Es Hok. pose proof Hok as [R Hm Hl _]. unfold all_rows. rewrite Es.
  destruct (compact_ring grow grow_enough sb R) as (C1 & C2 & _).
  eexists. split; [f_equal|unfold len; rewrite length_fmap, length_seqZ; lia].
  unfold Lines. rewrite normalize_id, logicalLines_contents, C1 by done. rewrite imap_fmap.
  apply list_eq. intros i. rewrite list_lookup_imap, list_lookup_fmap.
  destruct (contents sb !! i) as [[line w]|] eqn:Ei; [|done]. cbn. rewrite clone_id. do 2 f_equal.
  rewrite LineWrapped_contents by done. rewrite (proj2 (Z.ltb_ge _ _)), Nat2Z.id, C1, Ei by lia. done.
Qed.

(** ** The marks of the new screen *)
Definition row_wrapped rows (k y : Z) : bool := from_option rl_wrapped false (rows !! Z.to_nat (k + y)).
Definition row_used (w : Z) rows (k y : Z) : Z :=
  from_option (λ r, Z.min (lineCellWidth r.(rl_cells)) w) 0 (rows !! Z.to_nat (k + y)).

Lemma make_fmap {A} (d : A) n : make_slice d n = (λ _, d) <$> seqZ 0 n.
Proof.
  unfold make_slice. apply list_eq. intros i. rewrite list_lookup_fmap.
  destruct (decide (Z.of_nat i < n)) as [Hi|Hi].
  - rewrite lookup_seqZ_lt by lia. by rewrite lookup_replicate_2 by lia.
  - rewrite lookup_seqZ_ge by lia. apply lookup_ge_None. rewrite length_replicate. lia.
Qed.

Lemma set_at_fmap {A} (f : Z → A) n y x :
  0 ≤ y → set_at (f <$> seqZ 0 n) y x = (λ i, if i =? y then x else f i) <$> seqZ 0 n.
Proof.
  intros Hy. unfold set_at. apply list_eq. intros i. rewrite list_lookup_insert, !list_lookup_fmap, length_fmap, length_seqZ.
  destruct (decide (Z.of_nat i < n)) as [Hi|Hi].
  - rewrite !lookup_seqZ_lt by lia. cbn. rewrite Z.add_0_l. case_decide as Hd; destruct (Z.eqb_spec (Z.of_nat i) y); try done; lia.
  - rewrite !lookup_seqZ_ge by lia. cbn. case_decide; [lia|done].
Qed.

Lemma reflow_rows_marks rows k w n s height :
  s.(wrapped) = make_slice false height → s.(used) = make_slice 0 height → 0 ≤ n →
  let s' := foldl (reflow_row rows k w) s (seqZ 0 n) in
  s'.(wrapped) = (λ y, if y <? n then row_wrapped rows k y else false) <$> seqZ 0 height
  ∧ s'.(used) = (λ y, if y <? n then row_used w rows k y else 0) <$> seqZ 0 height
  ∧ s'.(scrollback) = s.(scrollback).
Proof.
  intros Ew Eu Hn. cbn zeta. pattern n. apply natlike_ind; [| |done].
  - rewrite seqZ_nil by lia. cbn [foldl]. rewrite Ew, Eu, !make_fmap. split_and!; [| |done]; apply fmap_seqZ_ext; intros y Hy; by rewrite (proj2 (Z.ltb_ge _ _)) by lia.
  - clear n Hn. intros n Hn (I1 & I2 & I3). rewrite <- Z.add_1_r, seqZ_snoc, foldl_app by done. cbn [foldl].
    unfold reflow_row at 1 3 5. destruct (rows !! Z.to_nat (k + n)) as [row|] eqn:Er.
    + cbn. rewrite I1, I2, I3, !set_at_fmap by done. split_and!; [| |done]; apply fmap_seqZ_ext; intros y Hy.
      * destruct (Z.eqb_spec y n) as [->|Hne]; [by rewrite (proj2 (Z.ltb_lt _ _)) by lia; unfold row_wrapped; rewrite Er|].
        destruct (Z.ltb_spec y n), (Z.ltb_spec y (n + 1)); (done || lia).
      * destruct (Z.eqb_spec y n) as [->|Hne]; [by rewrite (proj2 (Z.ltb_lt _ _)) by lia; unfold row_used; rewrite Er|].
        destruct (Z.ltb_spec y n), (Z.ltb_spec y (n + 1)); (done || lia).
    + rewrite I1, I2, I3. split_and!; [| |done]; apply fmap_seqZ_ext; intros y Hy.
      * destruct (decide (y = n)) as [->|Hne]; [rewrite Z.ltb_irrefl, (proj2 (Z.ltb_lt _ _)) by lia; unfold row_wrapped; by rewrite Er|].
        destruct (Z.ltb_spec y n), (Z.ltb_spec y (n + 1)); (done || lia).
      * destruct (decide (y = n)) as [->|Hne]; [rewrite Z.ltb_irrefl, (proj2 (Z.ltb_lt _ _)) by lia; unfold row_used; by rewrite Er|].
        destruct (Z.ltb_spec y n), (Z.ltb_spec y (n + 1)); (done || lia).
Qed.

Lemma visible_start_spec top abs height count :
  1 ≤ height → 0 ≤ abs < count → 0 ≤ top →
  let k := visible_start top abs height count in
  0 ≤ k ≤ abs ∧ abs < k + height ∧ (k = 0 ∨ k + height ≤ count).
Proof.
  intros Hh Ha Ht. unfold visible_start, clampInt.
  replace (if abs <? top then abs else top) with (Z.min abs top) by (destruct (Z.ltb_spec abs top); lia).
  replace (if count - height <? 0 then 0 else count - height) with (Z.max 0 (count - height))
    by (destruct (Z.ltb_spec (count - height) 0); lia).
  cbn zeta. rewrite (proj2 (Z.ltb_ge (Z.max 0 (count - height)) 0)) by lia.
  destruct (Z.leb_spec (Z.min abs top + height) abs).
  - destruct (Z.ltb_spec (abs - height + 1) 0), (Z.ltb_spec (Z.max 0 (count - height)) (abs - height + 1)); lia.
  - destruct (Z.ltb_spec (Z.min abs top) 0), (Z.ltb_spec (Z.max 0 (count - height)) (Z.min abs top)); lia.
Qed.

Lemma clampInt_within v low high : low ≤ high → low ≤ clampInt v low high ≤ high.
Proof.
  intros Hl. unfold clampInt.
  repeat match goal with |- context [?a <? ?b] => destruct (Z.ltb_spec a b) end; lia.
Qed.

(** ** The cells of the new screen *)

(** The row of the new screen that shows [line]: its cells, placeholders behind the wide ones, and blanks. *)
Definition drawn_cells (line : list Cell) : list Cell :=
  concat ((λ c, c :: make_slice (mkCell EmptyString ZeroStyle ZeroLink 0) (c.(Width) - 1)) <$> filter visible line).
Definition drawn (w : Z) (line : list Cell) : list Cell := drawn_cells line ++ make_slice EmptyCell (w - lineCellWidth line).

Definition row_at rows (k y : Z) : list Cell := (rowAtReflow rows (k + y)).(rl_cells).

Lemma row_at_lookup rows k y : 0 ≤ k + y → row_at rows k y = from_option rl_cells [] (rows !! Z.to_nat (k + y)).
Proof.
  intros Hy. unfold row_at, rowAtReflow. rewrite (proj2 (Z.ltb_ge _ _)) by done. cbn [orb].
  destruct (Z.leb_spec (len rows) (k + y)) as [Hl|Hl].
  - by rewrite lookup_ge_None_2 by (unfold len in Hl; lia).
  - unfold at_. rewrite nth_lookup. by destruct (rows !! Z.to_nat (k + y)).
Qed.

Lemma len_cons {A} (x : A) (l : list A) : len (x :: l) = 1 + len l.
Proof. unfold len. cbn [length]. lia. Qed.
Lemma len_make {A} (d : A) n : 0 ≤ n → len (make_slice d n) = n.
Proof. intros Hn. unfold len, make_slice. rewrite length_replicate. lia. Qed.

Lemma visible_width c : visible (Cell := Cell) c → visibleCellWidth c = c.(Width) ∧ 1 ≤ c.(Width).
Proof. unfold visible, visibleCellWidth. cbn. destruct (CellIsZero c); [lia|]. destruct (Z.leb_spec c.(Width) 0); lia. Qed.

Context {Hlaws : UvBufferLaws Style Link Other Buf}.

(** Writing a row changes this row only. *)
Definition same_but (y : Z) (b b' : Buf) : Prop :=
  (BufWidth b' = BufWidth b ∧ BufHeight b' = BufHeight b) ∧ ∀ y', 0 ≤ y' → y' ≠ y → BufLine b' y' = BufLine b y'.

Lemma write_frame line x y b : 0 ≤ y → same_but y b (write_cells x y line b).
Proof.
  intros Hy. revert x b. induction line as [|c line IH]; intros x b; [done|]. cbn [write_cells].
  destruct (_ <=? x); [done|]. destruct (_ <=? 0); [apply IH|].
  destruct (IH (x + visibleCellWidth c) (BufferSetCell x y (Some c) b)) as [[Iw Ih] Il], (set_cell_size x y (Some c) b) as [Ew Eh].
  split; [by rewrite Iw, Ih|]. intros y' Hy' Hne. rewrite Il by done. by apply set_cell_other.
Qed.

Lemma write_line line y b pre n :
  BufLine b y = Some (pre ++ make_slice EmptyCell n) → BufWidth b = len pre + n → 0 ≤ n → lineCellWidth line ≤ n →
  BufLine (write_cells (len pre) y line b) y = Some (pre ++ drawn_cells line ++ make_slice EmptyCell (n - lineCellWidth line)).
Proof.
  revert b pre n. induction line as [|c line IH]; intros b pre n Hb Hw Hn Hl; [cbn; by rewrite Z.sub_0_r|].
  rewrite width_cons in Hl |- *. pose proof (width_nonneg line). pose proof (visible_nonneg c). cbn [write_cells]. unfold drawn_cells.
  destruct (decide (visible c)) as [Hv|Hv].
  - rewrite filter_cons_True by done. destruct (visible_width c Hv) as [Ec Hc]. rewrite Ec in *.
    rewrite (proj2 (Z.leb_gt (BufWidth b) (len pre))), (proj2 (Z.leb_gt (Width c) 0)) by lia. cbn [fmap list_fmap concat].
    set (made := c :: make_slice _ _) in *.
    assert (Em : len (pre ++ made) = len pre + Width c) by (unfold made; rewrite len_app, len_cons, len_make; lia).
    rewrite <- Em, (IH (BufferSetCell (len pre) y (Some c) b) (pre ++ made) (n - Width c)).
    + unfold drawn_cells. rewrite <- !app_assoc. by replace (n - Width c - lineCellWidth line) with (n - (Width c + lineCellWidth line)) by lia.
    + rewrite (set_cell_blank y c b pre n) by (done || lia). by rewrite <- app_assoc.
    + rewrite (proj1 (set_cell_size (len pre) y (Some c) b)). lia.
    + lia.
    + lia.
  - rewrite filter_cons_False by done. assert (E0 : visibleCellWidth c = 0) by (unfold visible in Hv; lia). rewrite E0, Z.add_0_l in *.
    destruct (Z.leb_spec (BufWidth b) (len pre)) as [Hfull|Hroom].
    + assert (lineCellWidth line = 0) as Hz by lia. assert (filter visible line = []) as ->.
      { clear -Hz. induction line as [|c line IH]; [done|]. rewrite width_cons in Hz. pose proof (visible_nonneg c). pose proof (width_nonneg line).
        rewrite filter_cons_False by (unfold visible; lia). apply IH. lia. }
      cbn. by rewrite Hb, Hz, Z.sub_0_r.
    + by apply IH.
Qed.

Lemma reflow_rows_cells rows k w height n s :
  s.(buf) = NewRenderBuffer w height → 1 ≤ w → 1 ≤ height → 0 ≤ k → 0 ≤ n ≤ height →
  let b := (foldl (reflow_row rows k w) s (seqZ 0 n)).(buf) in
  (BufWidth b = w ∧ BufHeight b = height)
  ∧ ∀ y, 0 ≤ y < height → lineCellWidth (row_at rows k y) ≤ w → BufLine b y = Some (if y <? n then drawn w (row_at rows k y) else make_slice EmptyCell w).
Proof.
  intros Eb Hw Hh Hk [Hn Hnh]. cbn zeta. revert Hnh. pattern n. apply natlike_ind; [| |done].
  - intros _. rewrite seqZ_nil by lia. cbn [foldl]. rewrite Eb. split; [by apply new_size|]. intros y Hy _.
    rewrite (proj2 (Z.ltb_ge y 0)) by lia. by apply new_blank.
  - clear n Hn. intros n Hn IH Hnh. destruct IH as [[Iw Ih] IH]; [lia|]. rewrite <- Z.add_1_r, seqZ_snoc, foldl_app by done. cbn [foldl].
    set (s1 := foldl _ s _) in *. unfold reflow_row. pose proof (row_at_lookup rows k n ltac:(lia)) as Erow.
    destruct (rows !! Z.to_nat (k + n)) as [row|]; cbn [from_option] in Erow.
    + cbn [buf]. change (buf (_ <| used := _ |>)) with (writeLineToBuffer n row.(rl_cells) s1.(buf)). unfold writeLineToBuffer.
      rewrite (proj2 (Z.ltb_ge n 0)), Ih, (proj2 (Z.leb_gt height n)) by lia. cbn [orb].
      destruct (write_frame row.(rl_cells) 0 n s1.(buf) Hn) as [[Fw Fh] Fl]. split; [by rewrite Fw, Fh|]. intros y Hy Hfit.
      destruct (decide (y = n)) as [->|Hne].
      * rewrite (proj2 (Z.ltb_lt n (n + 1))) by lia. rewrite Erow in *. specialize (IH n Hy). rewrite Z.ltb_irrefl, Erow in IH.
        apply (write_line _ n s1.(buf) [] w (IH Hfit)); [by rewrite Iw|lia|done].
      * rewrite Fl, IH by (done || lia). by destruct (Z.ltb_spec y n), (Z.ltb_spec y (n + 1)); (done || lia).
    + split; [done|]. intros y Hy Hfit. rewrite IH by done. destruct (decide (y = n)) as [->|Hne].
      * rewrite Z.ltb_irrefl, (proj2 (Z.ltb_lt n (n + 1))) by lia. rewrite Erow. unfold drawn, drawn_cells. cbn. by rewrite Z.sub_0_r.
      * by destruct (Z.ltb_spec y n), (Z.ltb_spec y (n + 1)); (done || lia).
Qed.
End Reflow.

(** C19: Changing the width of a screen with history cuts the whole text again and splits it at one row: what lies above
    goes to the scrollback, the oldest rows beyond its maximum being dropped; what lies below is on the screen, every row
    with its cells in their columns and blanks behind, its wrap mark and its used width. The cursor is on the screen, on
    the row and before the column that have the same text behind as before; only where that place is behind the last
    column of a full row, the cursor is on the last column. (With one column, rows of one wide cell are not described.) *)
Theorem screen_reflow `{UvBufferLaws Style Link Other Buf} (grow : Z → Z → Z) (s : Screen (Style := Style) (Link := Link) (Buf := Buf))
    (sb : Scrollback (Cell Style Link)) (width height cursorX cursorY : Z)
    (grow_enough : ∀ c n, n ≤ grow c n) (Hsb : s.(scrollback) = Some sb) (Hok : sb_ok sb)
    (Hsize : 1 ≤ ScreenWidth s ∧ 1 ≤ ScreenHeight s) (Hnew : 1 ≤ width ∧ 1 ≤ height ∧ width ≠ ScreenWidth s)
    (Hfits : Forall (λ r, fits width r.(rl_cells)) (all_rows grow s)) :
  let rows := all_rows grow s in
  let R := reflowLines rows width in
  let i := len (contents sb) + clampInt cursorY 0 (ScreenHeight s - 1) in
  let '(s', x, y) := Reflow grow width height cursorX cursorY s in
  ∃ k sb' c, s'.(scrollback) = Some sb' ∧ sb_ok sb'
    ∧ contents sb' = drop (Z.to_nat (k - sb.(sb_maxLines))) (take (Z.to_nat k) (as_row <$> R))
    ∧ 0 ≤ k ∧ (k = 0 ∨ k + height ≤ len R)
    ∧ (∀ j, 0 ≤ j < height → lineCellWidth (row_at R k j) ≤ width → BufLine s'.(buf) j = Some (drawn width (row_at R k j)))
    ∧ (width = 1 ∨ Forall (λ r, lineCellWidth r.(rl_cells) ≤ width) R)
    ∧ s'.(wrapped) = row_wrapped R k <$> seqZ 0 height ∧ s'.(used) = row_used width R k <$> seqZ 0 height
    ∧ all_text R = all_text rows
    ∧ 0 ≤ x < width ∧ 0 ≤ y < height ∧ 0 ≤ c ≤ lineCellWidth (row_at R k y) ∧ (x = c ∨ width ≤ c ∧ x = width - 1)
    ∧ text_from R (Z.to_nat (k + y)) c = text_from rows (Z.to_nat i) (clampInt cursorX 0 (ScreenWidth s - 1)).
Proof.
  destruct Hsize as [Hsw Hsh], Hnew as (Hw & Hh & Hne). cbn zeta. unfold Reflow.
  rewrite !(proj2 (Z.ltb_ge _ _)), (proj2 (Z.eqb_neq _ _)) by lia. cbn [orb]. rewrite !Z.max_r by lia.
  destruct (all_rows_history grow grow_enough s sb Hsb Hok) as (screen & Erows & Hscreen).
  pose proof Hok as [Rg Hm Hl _]. pose proof Rg as [_ Rs _ _].
  assert (EL : from_option Len 0 s.(scrollback) = len (contents sb)).
  { rewrite Hsb. cbn. unfold Len. by rewrite normalize_id, len_contents by (done || lia). }
  rewrite EL. set (rows := all_rows grow s) in *. set (hist := len (contents sb)) in *.
  assert (Elen : len rows = hist + ScreenHeight s).
  { rewrite Erows, len_app, Hscreen. unfold hist, len. rewrite length_fmap. lia. }
  assert (Hhist : 0 ≤ hist) by (unfold hist, len; lia).
  assert (Hw0 : 0 ≤ ScreenWidth s - 1) by lia. assert (Hh0 : 0 ≤ ScreenHeight s - 1) by lia.
  pose proof (clampInt_within cursorX 0 _ Hw0) as Hcx. pose proof (clampInt_within cursorY 0 _ Hh0) as Hcy.
  set (cx := clampInt cursorX _ _) in *. set (cy := clampInt cursorY _ _) in *.
  assert (Hrne : rows ≠ []) by (intros E; rewrite E in Elen; unfold len at 1 in Elen; cbn in Elen; lia).
  pose proof (reflow_text width rows Hw Hrne Hfits) as Et.
  pose proof (reflow_cursor rows width (Z.to_nat (hist + cy)) cx Hw Hfits ltac:(unfold len in Elen; lia) ltac:(lia)) as Hc.
  pose proof (reflow_cursor rows width (Z.to_nat hist) 0 Hw Hfits ltac:(unfold len in Elen; lia) ltac:(lia)) as Htop.
  rewrite !Z2Nat.id in Hc, Htop by lia. set (R := reflowLines rows width) in *.
  destruct (positionForLogicalOffset R (logicalOffsetForPosition rows (hist + cy) cx)) as [abs c].
  destruct (positionForLogicalOffset R (logicalOffsetForPosition rows hist 0)) as [top c0]. cbn [fst].
  destruct Hc as (Hc1 & Hc2 & Hc3), Htop as (Ht1 & _).
  destruct (visible_start_spec top abs height (len R) Hh Hc1 ltac:(lia)) as (V1 & V2 & V3).
  set (k := visible_start top abs height (len R)) in *.
  rewrite !(proj2 (Z.ltb_ge _ _)) by lia. rewrite (proj2 (Z.leb_gt _ _)) by lia.
  destruct (reflow_scrollback_ok grow grow_enough (prefix_ k R) sb Hm) as (B1 & B2 & B3).
  set (s1 := s <| scrollback := _ |> <| buf := _ |> <| wrapped := _ |> <| used := _ |>).
  destruct (reflow_rows_marks R k width height s1 height eq_refl eq_refl ltac:(lia)) as (M1 & M2 & M3).
  destruct (reflow_rows_cells R k width height height s1 eq_refl Hw Hh ltac:(lia) ltac:(lia)) as (_ & M4).
  set (s2 := foldl _ s1 _) in *. pose proof (clampInt_within c 0 (width - 1) ltac:(lia)).
  exists k, (reflow_scrollback grow (prefix_ k R) sb), c. split_and!; try done; try lia.
  - cbn. rewrite M3. unfold s1. cbn. by rewrite Hsb.
  - rewrite B3. unfold prefix_. rewrite fmap_take. f_equal. unfold len. rewrite length_take. unfold len in *. lia.
  - intros j Hj Hfit. cbn. rewrite touched_line, M4 by done. by rewrite (proj2 (Z.ltb_lt j height)) by lia.
  - destruct (decide (width = 1)); [by left|right]. by apply reflow_within.
  - cbn. rewrite M1. apply fmap_seqZ_ext. intros y Hy. by rewrite (proj2 (Z.ltb_lt _ _)) by lia.
  - cbn. rewrite M2. apply fmap_seqZ_ext. intros y Hy. by rewrite (proj2 (Z.ltb_lt _ _)) by lia.
  - unfold row_at. replace (k + (abs - k)) with abs by lia. lia.
  - unfold clampInt. repeat match goal with |- context [?a <? ?b] => destruct (Z.ltb_spec a b) end; lia.
  - by replace (k + (abs - k)) with abs by lia.
Qed.

(** ** The cursor of the screen that is not shown *)
Section Alternate.
Context `{Ultraviolet Style Link Other Buf}.
Context (grow : Z → Z → Z).

Lemma reflow_row_cur rows k w s y : (reflow_row (Style := Style) (Link := Link) (Buf := Buf) rows k w s y).(cur) = s.(cur).
Proof. unfold reflow_row. by destruct (rows !! _). Qed.

Lemma reflow_cur width height x y (s : Screen (Style := Style) (Link := Link) (Buf := Buf)) :
  (Reflow grow width height x y s).1.1.(cur) = s.(cur).
Proof.
  unfold Reflow. destruct (_ || _)%bool; [done|]. destruct (positionForLogicalOffset _ _) as [newAbs newX].
  destruct (_ <? 0); cbn [fst]; unfold recordDamage, on_damage; cbn [cur];
    match goal with |- context [foldl ?f ?s1 ?l] => set (F := f); set (s0 := s1); set (ys := l) end;
    change (cur s) with (cur s0); clearbody s0 ys; revert s0; induction ys as [|y0 ys IH]; intros s0; try done;
    cbn [foldl]; rewrite IH; apply reflow_row_cur.
Qed.

(** A resize while the alternate screen is shown leaves the cursor of the main screen where it was, wherever its
    text went and whether or not the place still exists. *)
Theorem alt_resize_keeps_main_cursor (width height : Z) (e : Emulator (Style := Style) (Link := Link) (Buf := Buf)) :
  e.(altScreen) = true → (Resize grow width height e).(scr0).(cur) = e.(scr0).(cur).
Proof.
  intros Ha. unfold Resize. destruct (_ && _)%bool; cbn [scr0 altScreen].
  all: match goal with |- context [Reflow _ ?w ?h ?x ?y ?s] =>
         pose proof (reflow_cur w h x y s) as Hc; destruct (Reflow _ w h x y s) as [[s0 nx] ny] end.
  all: cbn [fst] in Hc; try change (altScreen (e <| atPhantom := false |>)) with (altScreen e); rewrite Ha; cbn [negb].
  all: unfold Emulator_setCursor; cbn; rewrite Ha; cbn; exact Hc.
Qed.
End Alternate.

(** ** A small screen *)

(** Cells of style and link zero; a buffer is a width and its rows. *)
Module ScreenDemo.
Import DamageDemo.
Definition cell : Type := Cell Z Z.
Record grid := mkGrid { g_width : Z; g_rows : list (list cell) }.
Definition blank : cell := mkCell " " 0 0 1.
Definition new_grid (w h : Z) : grid := mkGrid w (make_slice (make_slice blank w) h).
Definition paint (x y : Z) (c : option cell) (g : grid) : grid :=
  if ((x <? 0) || (g.(g_width) <=? x) || (y <? 0))%bool then g
  else let c := default blank c in
       mkGrid g.(g_width) (alter (overwrite x (c :: make_slice (mkCell "" 0 0 0) (c.(Width) - 1))) (Z.to_nat y) g.(g_rows)).
Definition fill (c : option cell) (area : Rectangle) (g : grid) : grid :=
  mkGrid g.(g_width)
    (imap (λ y row, imap (λ x old, if In (Z.of_nat x) (Z.of_nat y) area then default blank c else old) row) g.(g_rows)).
Definition resize_grid (w h : Z) (g : grid) : grid :=
  mkGrid w (resize (Z.to_nat h) (make_slice blank w) (resize (Z.to_nat w) blank <$> g.(g_rows))).

#[global] Instance screen : Ultraviolet Z Z Empty_set grid := {|
  ZeroStyle := 0; ZeroLink := 0; EmptyCell := blank; CellIsZero := λ c, (String.eqb c.(Content) "" && (c.(Width) =? 0))%bool;
  Rect := λ x y w h, mkRectangle x y (x + w) (y + h); Clamp := λ v low high, Z.max low (Z.min high v); SetBg := λ s _, s;
  NewRenderBuffer := new_grid; BufWidth := g_width; BufHeight := λ g, len g.(g_rows); BufLines := g_rows;
  BufSetLines := λ rows g, mkGrid g.(g_width) rows;
  BufLine := λ g y, if y <? 0 then None else g.(g_rows) !! Z.to_nat y;
  BufSetLine := λ y row g, mkGrid g.(g_width) (set_at g.(g_rows) y row); NewLine := λ w, make_slice blank w;
  RenderSetCell := paint; BufferSetCell := paint; TouchLine := λ _ _ _ g, g; ClearTouched := λ g, g;
  BufClear := λ g, new_grid g.(g_width) (len g.(g_rows)); BufResize := resize_grid; BufClearArea := fill None;
  BufFillArea := fill;
  InsertCellArea := λ x y n c _ g, mkGrid g.(g_width)
    (alter (λ row, prefix_ g.(g_width) (prefix_ x row ++ make_slice (default blank c) n ++ drop (Z.to_nat x) row)) (Z.to_nat y) g.(g_rows));
  DeleteCellArea := λ x y n c _ g, mkGrid g.(g_width)
    (alter (λ row, prefix_ x row ++ drop (Z.to_nat (x + n)) row ++ make_slice (default blank c) n) (Z.to_nat y) g.(g_rows));
  InsertLineArea := λ y n c r g, mkGrid g.(g_width)
    (prefix_ y g.(g_rows) ++ make_slice (make_slice (default blank c) g.(g_width)) n
     ++ prefix_ (r.(MaxY) - y - n) (drop (Z.to_nat y) g.(g_rows)) ++ drop (Z.to_nat r.(MaxY)) g.(g_rows));
  DeleteLineArea := λ y n c r g, mkGrid g.(g_width)
    (prefix_ y g.(g_rows) ++ prefix_ (r.(MaxY) - y - n) (drop (Z.to_nat (y + n)) g.(g_rows))
     ++ make_slice (make_slice (default blank c) g.(g_width)) n ++ drop (Z.to_nat r.(MaxY)) g.(g_rows)) |}.

Lemma paint_line x y c g : x < g.(g_width) → 0 ≤ x → 0 ≤ y → BufLine (paint x y (Some c) g) y = overwrite x (c :: make_slice (mkCell "" 0 0 0) (c.(Width) - 1)) <$> BufLine g y.
Proof.
  intros Hx Hx0 Hy. unfold paint. rewrite !(proj2 (Z.ltb_ge _ _)), (proj2 (Z.leb_gt _ _)) by done. cbn [orb default]. cbn [BufLine screen g_rows].
  rewrite !(proj2 (Z.ltb_ge y 0)) by done. cbn [id]. rewrite list_lookup_alter. by rewrite decide_True by done.
Qed.

#[global] Instance screen_laws : UvBufferLaws Z Z Empty_set grid.
Proof.
  split; cbn [BufWidth BufHeight BufLine NewRenderBuffer BufferSetCell ClearTouched EmptyCell ZeroStyle ZeroLink screen]; [| | | | |done].
  - intros w h _ ?. cbn. split; [done|]. unfold len, make_slice. rewrite length_replicate. lia.
  - intros w h y _ ?. rewrite (proj2 (Z.ltb_ge y 0)) by lia. unfold new_grid, make_slice. cbn [g_rows]. apply lookup_replicate_2. lia.
  - intros x y c b. unfold paint. destruct (_ || _ || _)%bool; [done|]. cbn. unfold len. by rewrite length_alter.
  - intros x y y' c b Hy Hy' Hne. rewrite (proj2 (Z.ltb_ge y' 0)) by done. unfold paint. destruct (_ || _ || _)%bool; [done|]. cbn [g_rows].
    apply list_lookup_alter_ne. lia.
  - intros y c b pre n Hb Hw Hc. assert (Hy : 0 ≤ y) by (destruct (Z.ltb_spec y 0); done).
    change (BufLine (paint (len pre) y (Some c) b) y = Some (pre ++ (c :: make_slice (mkCell "" 0 0 0) (Width c - 1)) ++ make_slice blank (n - Width c))).
    rewrite paint_line; [|cbn in Hw; lia|unfold len; lia|done]. cbn [BufLine screen]. rewrite Hb. cbn [fmap option_fmap option_map]. f_equal.
    unfold overwrite, prefix_. unfold len at 1. rewrite Nat2Z.id, take_app_length. do 2 f_equal.
    rewrite len_cons, len_make by lia. replace (Z.to_nat _) with (length pre + Z.to_nat (Width c))%nat by (unfold len; lia).
    rewrite <- drop_drop, drop_app_length. unfold make_slice. rewrite drop_replicate. f_equal. lia.
Qed.

Definition grow (c n : Z) : Z := Z.max n (2 * c).
Definition text (row : list cell) : string := foldr (λ c t, (c.(Content) ++ t)%string) EmptyString row.
Definition print (y : Z) (t : string) := SetASCIICells (Buf := grid) 0 y t 0 0.

(** Six columns and four rows: a line wrapped over three rows, one of which has left the screen. *)
Definition s0 := NewScreen (Buf := grid) (mkCallbacks false false false) 6 4.
Definition s1 := SetLineWrapped 0 true (SetLineWrapped 1 true (print 2 "mn" (print 1 "ghijkl" (print 0 "abcdef" s0)))).
Definition s2 := ScrollUp grow 1 s1.
Definition sb2 : Scrollback cell := default (NewScrollback 1) s2.(scrollback).

Lemma sb2_ok : s2.(scrollback) = Some sb2 ∧ sb_ok sb2.
Proof.
  split; [by vm_compute|]. assert (sb2 = PushWrapped grow (ascii_uv_cell 0 0 <$> list_ascii_of_string "abcdef") true
    (NewScrollback 2000)) as -> by (by vm_compute).
  apply push_ok; [unfold grow; lia|apply new_ok].
Qed.

Lemma fits_check w (rows : list (reflowLine cell)) :
  forallb (λ r, forallb (λ c, visibleCellWidth c <=? w) r.(rl_cells)) rows = true → Forall (λ r, fits w r.(rl_cells)) rows.
Proof.
  rewrite forallb_forall. intros Hr. apply Forall_forall. intros r Hin. right. apply Forall_forall. intros c Hc.
  apply list_elem_of_In, Hr in Hin. rewrite forallb_forall in Hin. by apply list_elem_of_In, Hin, Z.leb_le in Hc.
Qed.

Lemma rows_fit : Forall (λ r, fits 4 r.(rl_cells)) (all_rows grow s2).
Proof. apply fits_check. by vm_compute. Qed.

Lemma grow_enough c n : n ≤ grow c n.
Proof. unfold grow. lia. Qed.

Lemma sizes : (1 ≤ ScreenWidth s2 ∧ 1 ≤ ScreenHeight s2) ∧ 1 ≤ 4 ∧ 1 ≤ 4 ∧ 4 ≠ ScreenWidth s2.
Proof. vm_compute. repeat split; discriminate. Qed.
End ScreenDemo.


Lemma screen_reflow_witness :
  let '(s', x, y) := Reflow ScreenDemo.grow 4 4 1 1 ScreenDemo.s2 in
  (x, y) = (1, 2) ∧ s'.(wrapped) = [true; true; false; false] ∧ s'.(used) = [4; 4; 2; 0]
  ∧ ScreenDemo.text <$> BufLine s'.(buf) 2 = Some "mn  "%string
  ∧ (∃ k line, BufLine s'.(buf) 2 = Some (drawn 4 line) ∧ line = row_at (reflowLines (all_rows ScreenDemo.grow ScreenDemo.s2) 4) k 2)
  ∧ ∃ sb', s'.(scrollback) = Some sb' ∧ sb_ok sb'.
Proof.
  destruct ScreenDemo.sb2_ok as [E Hok].
  pose proof (screen_reflow ScreenDemo.grow ScreenDemo.s2 ScreenDemo.sb2 4 4 1 1 ScreenDemo.grow_enough E Hok
    (proj1 ScreenDemo.sizes) (proj2 ScreenDemo.sizes) ScreenDemo.rows_fit) as T.
  assert (let '(s', x, y) := Reflow ScreenDemo.grow 4 4 1 1 ScreenDemo.s2 in
    (x, y) = (1, 2) ∧ s'.(wrapped) = [true; true; false; false] ∧ s'.(used) = [4; 4; 2; 0]
    ∧ ScreenDemo.text <$> BufLine s'.(buf) 2 = Some "mn  "%string) as C by (vm_compute; split_and!; reflexivity).
  cbn zeta in T. destruct (Reflow ScreenDemo.grow 4 4 1 1 ScreenDemo.s2) as [[s' x] y].
  destruct T as (k & sb' & c & T1 & T2 & _ & T3 & _ & T4 & [T5|T5] & _), C as (C1 & C2 & C3 & C4); [discriminate T5|].
  split_and!; [exact C1|exact C2|exact C3|exact C4| |exists sb'; split; [exact T1|exact T2]].
  exists k. eexists. split; [apply T4; [lia|]|reflexivity]. rewrite row_at_lookup by lia.
  destruct (_ !! _) as [r|] eqn:Er; [|vm_compute; discriminate]. cbn [from_option]. rewrite Forall_forall in T5. apply T5. by apply list_elem_of_lookup_2 in Er.
Defined.

(** A scroll of the region above a status line takes the used width from under it: the line is still in the buffer,
    but the screen reports it as empty. *)
Theorem scroll_blanks_status_line :
  let s := ScreenDemo.print 3 "stat" (setVerticalMargins 0 3 ScreenDemo.s1) in
  let s' := ScrollUp ScreenDemo.grow 1 s in
  BufLine s'.(buf) 3 = BufLine s.(buf) 3 ∧ ScreenDemo.text (Line 3 s) = "stat"%string ∧ Line 3 s' = [].
Proof. by vm_compute. Qed.
