(* ===== verification/HistLine.v ===== *)
(** * Logical lines of the history

    [core/history/linehist/line.go] and [assembler.go]: the physical rows that leave the screen are merged into styled
    runs and joined along their soft-wrap marks into lines that know no width.

    A Go string is its bytes, a [time.Time] the nanoseconds since the Unix epoch. *)
From S2P Require Import Prelude GoStd.
Local Open Scope Z_scope.
Local Open Scope bool_scope.
Local Open Scope list_scope.

(** ** Cells of the terminal and of the history *)

(** [vterm.CellStyle], and the style of the history without the link. *)
Record CellStyle := mkCellStyle {
  FG : bytes; BG : bytes; Bold : bool; Italic : bool; Underline : bool; Blink : bool; Reverse : bool;
  Strikethrough : bool }.
#[export] Instance CellStyle_eq_dec : EqDecision CellStyle.
Proof. solve_decision. Defined.
Definition no_style : CellStyle := mkCellStyle [] [] false false false false false false.

Record VTermStyle := mkVTermStyle { vs_Style : CellStyle; vs_LinkURL : bytes; vs_LinkParams : bytes }.
Record VTermCell := mkVTermCell {
  vc_Content : bytes; vc_Width : Z; vc_Style : VTermStyle; vc_LinkURL : bytes; vc_LinkParams : bytes }.
Record VTermRun := mkVTermRun { vr_Style : VTermStyle; vr_Text : bytes }.

Record TerminalSemanticScrollOut := mkScrollOut {
  so_Cells : list VTermCell; so_Runs : list VTermRun; so_Timestamp : Z; so_Wrapped : bool; so_WrappedSet : bool }.

Record Run := mkRun { Text : bytes; Style : CellStyle; LinkURL : bytes; LinkParams : bytes }.
#[export] Instance Run_eq_dec : EqDecision Run.
Proof. solve_decision. Defined.

Record Line := mkLine { Runs : list Run; HardEnd : bool; UpdatedAt : Z }.
#[export] Instance Line_eq_dec : EqDecision Line.
Proof. solve_decision. Defined.

(** ** Runs *)
Definition space : Byte.byte := Byte.x20.
Definition is_empty {A} (l : list A) : bool := match l with [] => true | _ => false end.

Definition historyStyleFromVTerm (style : VTermStyle) : CellStyle := style.(vs_Style).

Definition same_format (a b : Run) : bool :=
  bool_decide (a.(Style) = b.(Style)) && bool_decide (a.(LinkURL) = b.(LinkURL))
  && bool_decide (a.(LinkParams) = b.(LinkParams)).

(** [last.Text += next.Text] writes through the pointer to the last element. *)
Fixpoint appendMergedRun (runs : list Run) (next : Run) : list Run :=
  if is_empty next.(Text) then runs else
  match runs with
  | [] => [next]
  | [last] => if same_format last next
              then [mkRun (last.(Text) ++ next.(Text)) last.(Style) last.(LinkURL) last.(LinkParams)]
              else [last; next]
  | run :: runs => run :: appendMergedRun runs next
  end.

Definition run_of_vterm (run : VTermRun) : Run :=
  mkRun run.(vr_Text) (historyStyleFromVTerm run.(vr_Style)) run.(vr_Style).(vs_LinkURL) run.(vr_Style).(vs_LinkParams).

(** The text of a cell: a blank of its width when it has none, nothing for the rest of a wide character. *)
Definition cell_text (cell : VTermCell) : option bytes :=
  if is_empty cell.(vc_Content)
  then if cell.(vc_Width) <=? 0 then None else Some (replicate (Z.to_nat cell.(vc_Width)) space)
  else Some cell.(vc_Content).

Definition cell_link (cell : VTermCell) : bytes * bytes :=
  if is_empty cell.(vc_LinkURL) && is_empty cell.(vc_LinkParams)
  then (cell.(vc_Style).(vs_LinkURL), cell.(vc_Style).(vs_LinkParams))
  else (cell.(vc_LinkURL), cell.(vc_LinkParams)).

Definition run_of_cell (cell : VTermCell) : option Run :=
  (λ text, let '(url, params) := cell_link cell in
           mkRun text (historyStyleFromVTerm cell.(vc_Style)) url params) <$> cell_text cell.

Definition runsFromScrollOut (row : TerminalSemanticScrollOut) : list Run :=
  match row.(so_Runs) with
  | _ :: _ => foldl (λ out run, if is_empty run.(vr_Text) then out else appendMergedRun out (run_of_vterm run)) []
                row.(so_Runs)
  | [] => foldl (λ out cell, match run_of_cell cell with None => out | Some run => appendMergedRun out run end) []
            row.(so_Cells)
  end.

(** [strings.TrimRight(s, " ")] *)
Fixpoint trim_spaces (s : bytes) : bytes :=
  match s with
  | [] => []
  | b :: s => match trim_spaces s with
              | [] => if bool_decide (b = space) then [] else [b]
              | s => b :: s
              end
  end.

Definition plain_run (run : Run) : bool :=
  bool_decide (run.(Style) = no_style) && is_empty run.(LinkURL) && is_empty run.(LinkParams).

(** The loop goes from the last run backwards, here over the reversed runs. *)
Fixpoint trim_runs_rev (runs : list Run) : list Run :=
  match runs with
  | [] => []
  | last :: rest =>
      if negb (plain_run last) then runs
      else match trim_spaces last.(Text) with
           | [] => trim_runs_rev rest
           | text => mkRun text last.(Style) last.(LinkURL) last.(LinkParams) :: rest
           end
  end.
Definition trimTrailingPaddingRuns (runs : list Run) : list Run := rev (trim_runs_rev (rev runs)).

(** ** The assembler *)
Definition DefaultMaxOpenLineBytes : Z := 256 * 1024.

Record Assembler := mkAssembler { asm_open : list Run; asm_openBytes : Z; asm_maxOpen : Z; asm_updatedAt : Z }.
#[export] Instance eta_assembler : Eta Assembler := λ a,
  mkAssembler a.(asm_open) a.(asm_openBytes) a.(asm_maxOpen) a.(asm_updatedAt).

Definition NewAssembler : Assembler := mkAssembler [] 0 DefaultMaxOpenLineBytes zero_time.

Definition asm_reset (a : Assembler) : Assembler :=
  a <| asm_open := [] |> <| asm_openBytes := 0 |> <| asm_updatedAt := zero_time |>.

Definition asm_take (a : Assembler) (run : Run) : Assembler :=
  a <| asm_open := appendMergedRun a.(asm_open) run |> <| asm_openBytes := a.(asm_openBytes) + len run.(Text) |>.

Definition AppendEvictedRow (row : TerminalSemanticScrollOut) (a : Assembler) : Assembler * list Line :=
  let a := if a.(asm_maxOpen) <=? 0 then a <| asm_maxOpen := DefaultMaxOpenLineBytes |> else a in
  let a := foldl asm_take a (runsFromScrollOut row) in
  let a := if a.(asm_updatedAt) <? row.(so_Timestamp) then a <| asm_updatedAt := row.(so_Timestamp) |> else a in
  if row.(so_WrappedSet) && row.(so_Wrapped) then
    if a.(asm_openBytes) <? a.(asm_maxOpen) then (a, [])
    else (asm_reset a, [mkLine a.(asm_open) false a.(asm_updatedAt)])
  else (asm_reset a, [mkLine (trimTrailingPaddingRuns a.(asm_open)) true a.(asm_updatedAt)]).

Definition asm_Open (a : Assembler) : list Run := a.(asm_open).
Definition OpenUpdatedAt (a : Assembler) : Z := a.(asm_updatedAt).

Definition SealOpen (a : Assembler) : Assembler * option Line :=
  match a.(asm_open) with
  | [] => (a, None)
  | _ => (asm_reset a, Some (mkLine (trimTrailingPaddingRuns a.(asm_open)) true a.(asm_updatedAt)))
  end.

Definition DiscardOpen (a : Assembler) : Assembler := asm_reset a.

(** Several rows, as the engine feeds them. *)
Fixpoint append_rows (rows : list TerminalSemanticScrollOut) (a : Assembler) : Assembler * list Line :=
  match rows with
  | [] => (a, [])
  | row :: rows =>
      let '(a, lines) := AppendEvictedRow row a in
      let '(a, more) := append_rows rows a in
      (a, lines ++ more)
  end.
