(* ===== verification/HistLineTheorems.v ===== *)
(** * The assembler keeps every styled byte *)
From S2P Require Import Prelude GoStd HistLine.
Local Open Scope Z_scope.
Local Open Scope list_scope.

(** ** Styled text *)

(** The format of a run, and a byte with its format. *)
Definition format : Type := CellStyle * bytes * bytes.
Definition run_format (run : Run) : format := (run.(Style), run.(LinkURL), run.(LinkParams)).
Definition styled : Type := Byte.byte * format.

Definition flat_run (run : Run) : list styled := (λ b, (b, run_format run)) <$> run.(Text).
Definition flat (runs : list Run) : list styled := concat (flat_run <$> runs).

(** What the trimming drops: blanks without style and link. *)
Definition padding (x : styled) : Prop := x.1 = space ∧ x.2 = (no_style, [], []).
#[export] Instance padding_dec x : Decision (padding x) := _.

Fixpoint trim_styled (l : list styled) : list styled :=
  match l with
  | [] => []
  | x :: l => match trim_styled l with
              | [] => if decide (padding x) then [] else [x]
              | l => x :: l
              end
  end.

(** Runs are canonical: none is empty, neighbours differ in format. *)
Fixpoint canonical (runs : list Run) : Prop :=
  match runs with
  | [] => True
  | run :: rest => run.(Text) ≠ [] ∧ canonical rest
                   ∧ match rest with next :: _ => run_format run ≠ run_format next | [] => True end
  end.

Lemma flat_runs_app r1 r2 : flat (r1 ++ r2) = flat r1 ++ flat r2.
Proof. unfold flat. by rewrite fmap_app, concat_app. Qed.

Lemma flat_runs_cons r rs : flat (r :: rs) = flat_run r ++ flat rs.
Proof. done. Qed.

Lemma same_format_iff a b : same_format a b = true ↔ run_format a = run_format b.
Proof.
  unfold same_format, run_format. rewrite !andb_true_iff, !bool_decide_eq_true. split; [intros [[-> ->] ->]; done|by intros [= -> -> ->]].
Qed.

Lemma flat_run_merge a b :
  run_format a = run_format b →
  flat_run (mkRun (a.(Text) ++ b.(Text)) a.(Style) a.(LinkURL) a.(LinkParams)) = flat_run a ++ flat_run b.
Proof. intros E. unfold flat_run. rewrite <- E. cbn. by rewrite fmap_app. Qed.

Lemma flat_merged runs next : flat (appendMergedRun runs next) = flat runs ++ flat_run next.
Proof.
  destruct next.(Text) as [|b t] eqn:Et.
  { unfold flat_run at 1. rewrite Et. cbn. rewrite app_nil_r. destruct runs; cbn; by rewrite Et. }
  induction runs as [|run runs IH]; [cbn; rewrite Et; cbn; unfold flat; cbn; by rewrite app_nil_r|].
  cbn [appendMergedRun]. rewrite Et. cbn [is_empty]. destruct runs as [|run' runs].
  - destruct (same_format run next) eqn:Ef.
    + apply same_format_iff in Ef. unfold flat. cbn [fmap list_fmap concat]. rewrite !app_nil_r, <- Et. by apply flat_run_merge.
    + unfold flat. cbn [fmap list_fmap concat]. by rewrite !app_nil_r.
  - rewrite flat_runs_cons, IH, (flat_runs_cons run), <- app_assoc. done.
Qed.

(** The first run stays in front. *)
Lemma merged_head runs next r rest :
  appendMergedRun runs next = r :: rest → runs ≠ [] → ∃ r0 rest0, runs = r0 :: rest0 ∧ run_format r = run_format r0.
Proof.
  destruct runs as [|r0 rest0]; [done|]. intros E _. exists r0, rest0. split; [done|]. cbn in E.
  destruct (is_empty next.(Text)); [by injection E as <-|]. destruct rest0; [destruct (same_format r0 next)|]; by injection E as <-.
Qed.

Lemma canonical_merged runs next : canonical runs → canonical (appendMergedRun runs next).
Proof.
  destruct (next.(Text)) as [|b t] eqn:Et; [destruct runs; cbn; by rewrite Et|].
  induction runs as [|run runs IH]; intros Hc; [cbn [appendMergedRun]; rewrite Et; cbn; rewrite Et; done|].
  cbn [appendMergedRun]. rewrite Et. cbn [is_empty]. destruct Hc as (H1 & H2 & H3). destruct runs as [|run' runs].
  - destruct (same_format run next) eqn:Ef; cbn; [split_and!; try done; by destruct (Text run)|].
    rewrite Et. split_and!; try done. intros E. apply same_format_iff in E. congruence.
  - specialize (IH H2). destruct (appendMergedRun (run' :: runs) next) as [|r rest] eqn:Er; [done|].
    split_and!; [done|done|]. destruct (merged_head _ _ _ _ Er) as (r0 & rest0 & [= <- <-] & ->); done.
Qed.

Lemma merged_fold runs news :
  flat (foldl appendMergedRun runs news) = flat runs ++ flat news ∧ (canonical runs → canonical (foldl appendMergedRun runs news)).
Proof.
  revert runs. induction news as [|n news IH]; intros runs; [by cbn; rewrite app_nil_r|]. cbn [foldl].
  destruct (IH (appendMergedRun runs n)) as [-> Hc]. rewrite flat_merged, <- app_assoc. split; [done|].
  intros H. by apply Hc, canonical_merged.
Qed.

(** ** Trimming *)
Lemma trim_app l k : trim_styled k ≠ [] → trim_styled (l ++ k) = l ++ trim_styled k.
Proof.
  intros Hk. induction l as [|x l IH]; [done|]. cbn [app trim_styled]. rewrite IH.
  destruct (l ++ trim_styled k) eqn:E; [|done]. apply app_eq_nil in E as [-> E]. done.
Qed.

Lemma trim_app_nil l k : trim_styled k = [] → trim_styled (l ++ k) = trim_styled l.
Proof. intros Hk. induction l as [|x l IH]; [done|]. cbn [app trim_styled]. by rewrite IH. Qed.

Lemma trim_run run :
  trim_styled (flat_run run) = if plain_run run then flat_run (mkRun (trim_spaces run.(Text)) run.(Style) run.(LinkURL) run.(LinkParams))
                               else flat_run run.
Proof.
  destruct run as [text style url params]. unfold plain_run, flat_run, run_format. cbn.
  destruct (bool_decide (style = no_style) && is_empty url && is_empty params)%bool eqn:Ep.
  - apply andb_true_iff in Ep as [[->%bool_decide_eq_true Eu]%andb_true_iff Epa].
    destruct url, params; try done. induction text as [|b text IH]; [done|]. cbn [fmap list_fmap trim_styled trim_spaces] in *.
    rewrite IH. destruct (trim_spaces text) as [|b' t']; [|done]. cbn.
    destruct (decide (b = space)) as [->|Hb].
    + by rewrite decide_True, bool_decide_true by done.
    + rewrite decide_False, bool_decide_false by (done || by intros [? _]). done.
  - induction text as [|b text IH]; [done|]. cbn [fmap list_fmap trim_styled] in *. rewrite IH.
    destruct text as [|b' text]; [|done]. cbn.
    destruct (decide _) as [[_ Hf]|]; [|done]. cbn in Hf. injection Hf as -> -> ->. by rewrite bool_decide_true in Ep.
Qed.

Lemma trim_runs_flat runs : Forall (λ r, r.(Text) ≠ []) runs → flat (trimTrailingPaddingRuns runs) = trim_styled (flat runs).
Proof.
  unfold trimTrailingPaddingRuns. induction runs as [|r runs IH] using rev_ind; [done|].
  intros [Hr [Hn _]%Forall_cons]%Forall_app. rewrite rev_app_distr, flat_runs_app. cbn [rev app trim_runs_rev].
  unfold flat at 3. cbn [fmap list_fmap concat]. rewrite app_nil_r.
  pose proof (trim_run r) as Et. destruct (plain_run r) eqn:Ep; cbn [negb].
  - destruct (trim_spaces r.(Text)) as [|b t] eqn:Es.
    + rewrite trim_app_nil by (by rewrite Et). by apply IH.
    + rewrite trim_app by (rewrite Et; unfold flat_run; cbn; discriminate). rewrite Et. cbn [rev]. rewrite rev_involutive, flat_runs_app. f_equal.
      unfold flat. cbn [fmap list_fmap concat]. by rewrite app_nil_r.
  - assert (flat_run r ≠ []) as Hf by (unfold flat_run; intros E%fmap_nil_inv; by apply Hn).
    rewrite trim_app by (by rewrite Et). rewrite Et. cbn [rev].
    rewrite rev_involutive, flat_runs_app. f_equal. unfold flat. cbn [fmap list_fmap concat]. by rewrite app_nil_r.
Qed.

(** ** Rows *)

(** The pieces of text a row carries, and whether it continues. *)
Definition row_pieces (row : TerminalSemanticScrollOut) : list Run :=
  match row.(so_Runs) with
  | _ :: _ => run_of_vterm <$> row.(so_Runs)
  | [] => omap run_of_cell row.(so_Cells)
  end.
Definition row_text (row : TerminalSemanticScrollOut) : list styled := flat (row_pieces row).
Definition row_wrapped (row : TerminalSemanticScrollOut) : bool := row.(so_WrappedSet) && row.(so_Wrapped).

Lemma merged_empty runs next : next.(Text) = [] → appendMergedRun runs next = runs.
Proof. intros E. destruct runs; cbn [appendMergedRun]; by rewrite E. Qed.

Lemma skip_empty runs vr :
  foldl (λ out run, if is_empty run.(vr_Text) then out else appendMergedRun out (run_of_vterm run)) runs vr
  = foldl appendMergedRun runs (run_of_vterm <$> vr).
Proof.
  revert runs. induction vr as [|r vr IH]; intros runs; [done|]. cbn [foldl fmap list_fmap]. rewrite <- IH.
  destruct (vr_Text r) eqn:Et; cbn [is_empty]; [|done]. f_equal. symmetry. by apply merged_empty.
Qed.

Lemma skip_none runs cells :
  foldl (λ out cell, match run_of_cell cell with None => out | Some run => appendMergedRun out run end) runs cells
  = foldl appendMergedRun runs (omap run_of_cell cells).
Proof.
  revert runs. induction cells as [|c cells IH]; intros runs; [done|]. cbn [foldl omap list_omap].
  destruct (run_of_cell c); cbn [foldl]; apply IH.
Qed.

Lemma row_runs row : flat (runsFromScrollOut row) = row_text row ∧ canonical (runsFromScrollOut row).
Proof.
  unfold runsFromScrollOut, row_text, row_pieces. destruct (so_Runs row) as [|r rs].
  - rewrite skip_none. destruct (merged_fold [] (omap run_of_cell (so_Cells row))) as [-> Hc]. split; [done|by apply Hc].
  - rewrite skip_empty. destruct (merged_fold [] (run_of_vterm <$> r :: rs)) as [-> Hc]. split; [done|by apply Hc].
Qed.

(** ** Groups *)

(** The text up to each hard end, and what is open. *)
Fixpoint row_groups (acc : list styled) (rows : list TerminalSemanticScrollOut) : list (list styled) * list styled :=
  match rows with
  | [] => ([], acc)
  | row :: rows =>
      let acc := acc ++ row_text row in
      if row_wrapped row then row_groups acc rows
      else let '(groups, rest) := row_groups [] rows in (acc :: groups, rest)
  end.

Fixpoint line_groups (acc : list styled) (lines : list Line) : list (list styled) * list styled :=
  match lines with
  | [] => ([], acc)
  | line :: lines =>
      let acc := acc ++ flat line.(Runs) in
      if line.(HardEnd) then let '(groups, rest) := line_groups [] lines in (acc :: groups, rest)
      else line_groups acc lines
  end.

(** The padding at the end is gone; a line longer than the limit was cut, and the earlier cuts keep theirs. *)
Definition trimmed (text line : list styled) : Prop :=
  ∃ cut last, text = cut ++ last ∧ line = cut ++ trim_styled last ∧ (len text < DefaultMaxOpenLineBytes → cut = []).

Record asm_ok (a : Assembler) : Prop := {
  ao_max : a.(asm_maxOpen) = DefaultMaxOpenLineBytes;
  ao_canonical : canonical a.(asm_open);
  ao_bytes : a.(asm_openBytes) = len (flat a.(asm_open)) }.

Lemma len_flat_run run : len (flat_run run) = len run.(Text).
Proof. unfold flat_run, len. by rewrite length_fmap. Qed.

Lemma asm_take_fold a runs :
  let a' := foldl asm_take a runs in
  a'.(asm_open) = foldl appendMergedRun a.(asm_open) runs ∧ a'.(asm_maxOpen) = a.(asm_maxOpen)
  ∧ a'.(asm_updatedAt) = a.(asm_updatedAt) ∧ a'.(asm_openBytes) = a.(asm_openBytes) + len (flat runs).
Proof.
  revert a. induction runs as [|r runs IH]; intros a; cbn [foldl]; [unfold len; cbn; split_and!; try done; lia|].
  destruct (IH (asm_take a r)) as (-> & -> & -> & ->). split_and!; try done. rewrite flat_runs_cons, len_app, len_flat_run. change (asm_openBytes (asm_take a r)) with (a.(asm_openBytes) + len r.(Text)). lia.
Qed.

Lemma canonical_nonempty runs : canonical runs → Forall (λ r, r.(Text) ≠ []) runs.
Proof. induction runs as [|r runs IH]; intros Hc; [done|]. destruct Hc as (H1 & H2 & _). constructor; [done|by apply IH]. Qed.

(** The assembler after the runs of a row. *)
Lemma row_taken a row :
  asm_ok a →
  let a1 := foldl asm_take (if a.(asm_maxOpen) <=? 0 then a <| asm_maxOpen := DefaultMaxOpenLineBytes |> else a)
              (runsFromScrollOut row) in
  asm_ok a1 ∧ flat a1.(asm_open) = flat a.(asm_open) ++ row_text row.
Proof.
  intros [Hm Hc Hb]. rewrite Hm. cbn [Z.leb]. destruct (asm_take_fold a (runsFromScrollOut row)) as (E1 & E2 & E3 & E4).
  destruct (row_runs row) as [Ef _]. destruct (merged_fold a.(asm_open) (runsFromScrollOut row)) as [Em Hcm].
  assert (flat (foldl asm_take a (runsFromScrollOut row)).(asm_open) = flat a.(asm_open) ++ row_text row) as Efl.
  { by rewrite E1, Em, Ef. }
  change (DefaultMaxOpenLineBytes <=? 0) with false. cbv iota. set (a1 := foldl _ _ _) in *. split; [|exact Efl]. split; [exact (eq_trans E2 Hm)|rewrite E1; by apply Hcm|].
  by rewrite E4, Hb, Efl, len_app, Ef.
Qed.

Lemma row_step a row :
  asm_ok a →
  let '(a', lines) := AppendEvictedRow row a in
  asm_ok a' ∧
  if row_wrapped row then
    (lines = [] ∧ flat a'.(asm_open) = flat a.(asm_open) ++ row_text row)
    ∨ ∃ chunk t, lines = [mkLine chunk false t] ∧ a'.(asm_open) = []
        ∧ flat chunk = flat a.(asm_open) ++ row_text row ∧ DefaultMaxOpenLineBytes ≤ len (flat chunk)
  else ∃ runs t, lines = [mkLine runs true t] ∧ a'.(asm_open) = []
        ∧ flat runs = trim_styled (flat a.(asm_open) ++ row_text row).
Proof.
  intros Ha. unfold AppendEvictedRow. destruct (row_taken a row Ha) as [Ha1 Ef].
  set (a1 := foldl asm_take _ _) in *. destruct Ha1 as [Hm Hc Hb].
  assert (asm_ok (asm_reset a1)) as Hr by (by split).
  set (a2 := if asm_updatedAt a1 <? so_Timestamp row then _ else a1).
  assert (E2 : a2.(asm_open) = a1.(asm_open) ∧ a2.(asm_maxOpen) = a1.(asm_maxOpen) ∧ a2.(asm_openBytes) = a1.(asm_openBytes)).
  { unfold a2. by destruct (_ <? _). }
  destruct E2 as (E21 & E22 & E23). fold (row_wrapped row).
  assert (Hr2 : asm_ok (asm_reset a2)) by (split; cbn; [by rewrite E22|done|done]).
  destruct (row_wrapped row).
  - rewrite E22, E23, Hm. destruct (Z.ltb_spec (asm_openBytes a1) DefaultMaxOpenLineBytes) as [Hlt|Hge].
    + split; [split; by rewrite ?E21, ?E22, ?E23|]. left. by rewrite E21.
    + split; [done|]. right. exists a2.(asm_open), a2.(asm_updatedAt). rewrite E21, Ef. split_and!; try done.
      by rewrite <- Ef, <- Hb.
  - split; [done|]. exists (trimTrailingPaddingRuns a2.(asm_open)), a2.(asm_updatedAt). split_and!; try done.
    rewrite E21, trim_runs_flat by (by apply canonical_nonempty). by rewrite Ef.
Qed.

Lemma append_rows_groups rows a cut :
  asm_ok a → (cut = [] ∨ DefaultMaxOpenLineBytes ≤ len cut) →
  let '(a', lines) := append_rows rows a in
  let '(texts, rest) := row_groups (cut ++ flat a.(asm_open)) rows in
  let '(groups, rest') := line_groups cut lines in
  asm_ok a' ∧ Forall2 trimmed texts groups ∧ rest = rest' ++ flat a'.(asm_open).
Proof.
  revert a cut. induction rows as [|row rows IH]; intros a cut Ha Hcut; [cbn; by split_and!|].
  cbn [append_rows row_groups]. pose proof (row_step a row Ha) as Hs.
  destruct (AppendEvictedRow row a) as [a1 lines1]. destruct Hs as [Ha1 Hs].
  rewrite <- app_assoc. destruct (row_wrapped row).
  - destruct Hs as [[-> E]|(chunk & t & -> & E1 & E2 & E3)].
    + specialize (IH a1 cut Ha1 Hcut). destruct (append_rows rows a1) as [a2 more]. by rewrite E in IH.
    + specialize (IH a1 (cut ++ flat chunk) Ha1). rewrite E1, app_nil_r in IH. rewrite <- E2.
      destruct (append_rows rows a1) as [a2 more]. cbn [app line_groups HardEnd Runs]. apply IH.
      right. rewrite len_app. pose proof (len_nonneg cut). lia.
  - destruct Hs as (runs & t & -> & E1 & E2). specialize (IH a1 [] Ha1 ltac:(by left)). rewrite E1 in IH. change ([] ++ flat []) with (@nil styled) in IH.
    destruct (append_rows rows a1) as [a2 more]. cbn [app line_groups HardEnd Runs].
    destruct (row_groups [] rows) as [texts rest], (line_groups [] more) as [groups rest'].
    destruct IH as (I1 & I2 & I3). split_and!; [done| |done]. constructor; [|done].
    exists cut, (flat a.(asm_open) ++ row_text row). rewrite E2. split_and!; try done.
    intros Hl. destruct Hcut as [->|Hcut]; [done|]. rewrite len_app in Hl.
    pose proof (len_nonneg (flat a.(asm_open) ++ row_text row)). lia.
Qed.

(** Whatever rows leave the screen, the lines written are their styled text joined along the soft wraps: nothing is
    lost, duplicated or reordered but unstyled blanks before a hard end; only a line of 256 KiB or more is cut into
    chunks; and what has been read of an unfinished line is exactly the text still open. *)
Theorem assembler_exact (rows : list TerminalSemanticScrollOut) :
  let '(a, lines) := append_rows rows NewAssembler in
  let '(texts, rest) := row_groups [] rows in
  let '(groups, rest') := line_groups [] lines in
  Forall2 trimmed texts groups ∧ rest = rest' ++ flat (asm_Open a) ∧ canonical (asm_Open a).
Proof.
  pose proof (append_rows_groups rows NewAssembler [] ltac:(by split) ltac:(by left)) as H.
  destruct (append_rows rows NewAssembler) as [a lines]. cbn [app] in H.
  destruct (row_groups _ rows) as [texts rest], (line_groups [] lines) as [groups rest'].
  destruct H as ([_ Hc _] & H2 & H3). done.
Qed.
