(* ===== verification/HistCodec.v ===== *)
(** * The compact encoding of history lines

    [core/history/linehist/compact_codec.go], with the variable-length integers of [encoding/binary] written out. *)
From S2P Require Import Prelude GoStd HistLine.
Local Open Scope Z_scope.
Local Open Scope bool_scope.
Local Open Scope list_scope.

(** ** Variable-length integers of [encoding/binary] *)
Definition MaxVarintLen64 : Z := 10.

(** [AppendUvarint]; ten bytes hold 64 bits, which is the fuel. *)
Fixpoint put_uvarint (fuel : nat) (x : Z) : bytes :=
  match fuel with
  | O => [byte.of_Z x]
  | S fuel => if x <? 128 then [byte.of_Z x]
              else byte.of_Z (Z.lor (u8 x) 128) :: put_uvarint fuel (Z.shiftr x 7)
  end.
Definition AppendUvarint (payload : bytes) (x : Z) : bytes := payload ++ put_uvarint 9 x.

(** [Uvarint] returns the value and the size read: zero when the bytes end, negative on an overflow. *)
Fixpoint uvarint_loop (buf : bytes) (i x s : Z) : Z * Z :=
  match buf with
  | [] => (0, 0)
  | b :: buf =>
      let b := byte.unsigned b in
      if i =? MaxVarintLen64 then (0, - (i + 1))
      else if b <? 128 then
        if (i =? MaxVarintLen64 - 1) && (b >? 1) then (0, - (i + 1))
        else (Z.lor x (u64 (Z.shiftl b s)), i + 1)
      else uvarint_loop buf (i + 1) (Z.lor x (u64 (Z.shiftl (Z.land b 127) s))) (s + 7)
  end.
Definition Uvarint (buf : bytes) : Z * Z := uvarint_loop buf 0 0 0.

(** The zigzag form: [^x] is the complement. *)
Definition zigzag (x : Z) : Z :=
  let ux := u64 (Z.shiftl x 1) in if x <? 0 then u64 (Z.lnot ux) else ux.
Definition unzigzag (ux : Z) : Z :=
  let x := i64 (Z.shiftr ux 1) in if Z.land ux 1 =? 0 then x else Z.lnot x.
Definition AppendVarint (payload : bytes) (x : Z) : bytes := AppendUvarint payload (zigzag x).
Definition Varint (buf : bytes) : Z * Z := let '(ux, size) := Uvarint buf in (unzigzag ux, size).

(** ** Encoding *)
Definition compactLineFlagHardEnd : Z := 1.

(** [UnixNano] keeps the low 64 bits of the nanoseconds. *)
Definition unixNanoOrZero (value : Z) : Z := if IsZero value then 0 else i64 value.

Definition flag_bit (b : bool) (n : Z) : Z := if b then Z.shiftl 1 n else 0.
Definition compactStyleFlags (style : CellStyle) : Z :=
  Z.lor (flag_bit style.(Bold) 0) (Z.lor (flag_bit style.(Italic) 1) (Z.lor (flag_bit style.(Underline) 2)
    (Z.lor (flag_bit style.(Blink) 3) (Z.lor (flag_bit style.(Reverse) 4) (flag_bit style.(Strikethrough) 5))))).

Definition has_flag (flags n : Z) : bool := negb (Z.land flags (Z.shiftl 1 n) =? 0).
Definition applyCompactStyleFlags (fg bg : bytes) (flags : Z) : CellStyle :=
  mkCellStyle fg bg (has_flag flags 0) (has_flag flags 1) (has_flag flags 2) (has_flag flags 3) (has_flag flags 4)
    (has_flag flags 5).

Definition appendCompactString (payload value : bytes) : bytes := AppendUvarint payload (u64 (len value)) ++ value.

Definition encode_run (payload : bytes) (run : Run) : bytes :=
  let payload := appendCompactString payload run.(Text) in
  let payload := appendCompactString payload run.(Style).(FG) in
  let payload := appendCompactString payload run.(Style).(BG) in
  let payload := payload ++ [byte.of_Z (compactStyleFlags run.(Style))] in
  let payload := appendCompactString payload run.(LinkURL) in
  appendCompactString payload run.(LinkParams).

Definition encode_line (payload : bytes) (line : Line) : bytes :=
  let flags := if line.(HardEnd) then compactLineFlagHardEnd else 0 in
  let payload := payload ++ [byte.of_Z flags] in
  let payload := AppendVarint payload (unixNanoOrZero line.(UpdatedAt)) in
  let payload := AppendUvarint payload (u64 (len line.(Runs))) in
  foldl encode_run payload line.(Runs).

Definition encodeCompactLines (lines : list Line) : bytes :=
  foldl encode_line (AppendUvarint [] (u64 (len lines))) lines.

(** ** Sizes *)
Fixpoint uvarint_size (fuel : nat) (value size : Z) : Z :=
  match fuel with
  | O => size
  | S fuel => if 128 <=? value then uvarint_size fuel (Z.shiftr value 7) (size + 1) else size
  end.
Definition uvarintSize (value : Z) : Z := uvarint_size 9 value 1.
Definition varintSize (value : Z) : Z := len (AppendVarint [] value).

Definition string_size (value : bytes) : Z := uvarintSize (u64 (len value)) + len value.
Definition run_size (size : Z) (run : Run) : Z :=
  foldl (λ size value, size + string_size value) size
    [run.(Text); run.(Style).(FG); run.(Style).(BG); run.(LinkURL); run.(LinkParams)] + 1.
Definition compactLineEncodedSize (line : Line) : Z :=
  foldl run_size (1 + varintSize (unixNanoOrZero line.(UpdatedAt)) + uvarintSize (u64 (len line.(Runs)))) line.(Runs).
Definition compactLinesEncodedSize (lines : list Line) : Z :=
  foldl (λ size line, size + compactLineEncodedSize line) (uvarintSize (u64 (len lines))) lines.

(** ** Decoding *)

(** A step of the decoder: a value and the rest of the payload. *)
Definition parser (A : Type) : Type := bytes → result (A * bytes).

Definition get_uvarint (e : goerr) : parser Z := λ payload,
  let '(v, size) := Uvarint payload in
  if size <=? 0 then Err e else Ok (v, drop (Z.to_nat size) payload).
Definition get_varint (e : goerr) : parser Z := λ payload,
  let '(v, size) := Varint payload in
  if size <=? 0 then Err e else Ok (v, drop (Z.to_nat size) payload).
Definition get_byte (e : goerr) : parser Z := λ payload,
  match payload with [] => Err e | b :: payload => Ok (byte.unsigned b, payload) end.
(** The count must not exceed the bytes left. *)
Definition get_count (e too_many : goerr) : parser Z := λ payload,
  let? p := get_uvarint e payload in
  if p.1 >? len p.2 then Err too_many else Ok p.

Definition takeCompactString : parser bytes := λ payload,
  let? p := get_count "invalid compact history string length" "compact history string exceeds block" payload in
  Ok (take (Z.to_nat p.1) p.2, drop (Z.to_nat p.1) p.2).

Definition take_run : parser Run := λ payload,
  let? text := takeCompactString payload in
  let? fg := takeCompactString text.2 in
  let? bg := takeCompactString fg.2 in
  let? flags := get_byte "truncated compact history style" bg.2 in
  let? url := takeCompactString flags.2 in
  let? params := takeCompactString url.2 in
  Ok (mkRun text.1 (applyCompactStyleFlags fg.1 bg.1 flags.1) url.1 params.1, params.2).

Fixpoint take_many {A} (p : parser A) (n : nat) : parser (list A) := λ payload,
  match n with
  | O => Ok ([], payload)
  | S n => let? x := p payload in let? l := take_many p n x.2 in Ok (x.1 :: l.1, l.2)
  end.

Definition take_line : parser Line := λ payload,
  let? flags := get_byte "truncated compact history line" payload in
  let? stamp := get_varint "invalid compact history timestamp" flags.2 in
  let? count := get_count "invalid compact history run count" "compact history run count exceeds block" stamp.2 in
  let? runs := take_many take_run (Z.to_nat count.1) count.2 in
  Ok (mkLine runs.1 (negb (Z.land flags.1 compactLineFlagHardEnd =? 0))
        (if stamp.1 =? 0 then zero_time else stamp.1), runs.2).

Definition decodeCompactLines (payload : bytes) : result (list Line) :=
  let? count := get_count "invalid compact history line count" "compact history line count exceeds block" payload in
  let? lines := take_many take_line (Z.to_nat count.1) count.2 in
  if is_empty lines.2 then Ok lines.1 else Err "compact history block has trailing bytes".
