(* ===== verification/HistCodecTheorems.v ===== *)
(** * The encoding of history lines loses nothing and never accepts half a block *)
From S2P Require Import Prelude GoStd HistLine HistCodec.
Local Open Scope Z_scope.
Local Open Scope bool_scope.
Local Open Scope list_scope.

(** ** Variable-length integers *)
Lemma byte_small z : 0 ≤ z < 256 → byte.unsigned (byte.of_Z z) = z.
Proof. intros H. rewrite byte.unsigned_of_Z. unfold byte.wrap. by apply Z.mod_small. Qed.

Lemma low_bytes (P : Z → bool) : forallb (λ n, P (Z.of_nat n)) (seq 0 256) = true → ∀ y, 0 ≤ y < 256 → P y = true.
Proof.
  intros H y Hy. rewrite forallb_forall in H. specialize (H (Z.to_nat y)). rewrite Z2Nat.id in H by lia. apply H, in_seq. lia.
Qed.

Lemma lor_128 x : let b := Z.lor (u8 x) 128 in 128 ≤ b < 256 ∧ Z.land b 127 = x mod 128.
Proof.
  assert (Hu : 0 ≤ u8 x < 256) by (unfold u8; apply Z.mod_pos_bound; lia). cbv zeta.
  replace (x mod 128) with (u8 x mod 128) by (unfold u8; rewrite Z.mod_mod_divide; [done|by exists 2]).
  pose proof (low_bytes (λ y, (128 <=? Z.lor y 128) && (Z.lor y 128 <? 256) && (Z.land (Z.lor y 128) 127 =? y mod 128))
    ltac:(vm_compute; reflexivity) _ Hu) as H. cbn beta in H. lia.
Qed.

Lemma shift_bound x s n : 0 ≤ x < 2 ^ n → 0 ≤ s → 0 ≤ n → 0 ≤ Z.shiftl x s < 2 ^ (n + s).
Proof. intros Hx Hs Hn. rewrite Z.shiftl_mul_pow2, Z.pow_add_r by lia. pose proof (Z.pow_pos_nonneg 2 s). nia. Qed.

Lemma low_high x s : 0 ≤ s → Z.lor (Z.shiftl (x mod 128) s) (Z.shiftl (Z.shiftr x 7) (s + 7)) = Z.shiftl x s.
Proof.
  intros Hs. apply Z.bits_inj'. intros n Hn. change 128 with (2 ^ 7). rewrite Z.lor_spec, !Z.shiftl_spec by lia.
  destruct (Z.ltb_spec n s); [rewrite !Z.testbit_neg_r by lia; done|]. destruct (Z.ltb_spec (n - s) 7).
  - rewrite Z.mod_pow2_bits_low by lia. rewrite (Z.testbit_neg_r _ (n - (s + 7))) by lia. apply orb_false_r.
  - rewrite Z.mod_pow2_bits_high, Z.shiftr_spec by lia. cbn [orb]. f_equal. lia.
Qed.

(** What ten bytes encode is read back, whatever follows. *)
Lemma uvarint_loop_put fuel x i acc s r :
  0 ≤ x < 2 ^ (7 * Z.of_nat fuel + 1) → i = 9 - Z.of_nat fuel → 0 ≤ i → s = 7 * i →
  uvarint_loop (put_uvarint fuel x ++ r) i acc s = (Z.lor acc (Z.shiftl x s), i + len (put_uvarint fuel x)).
Proof.
  revert x i acc s. induction fuel as [|fuel IH]; intros x i acc s Hx Hi H0 Hs; cbn [put_uvarint].
  - change (2 ^ _) with 2 in Hx. cbn [app uvarint_loop]. rewrite byte_small by lia. subst i s. cbn.
    replace (x <? 128) with true by lia. replace (x >? 1) with false by lia. cbn. f_equal. f_equal. apply Z.mod_small.
    pose proof (shift_bound x 63 1 ltac:(lia) ltac:(lia) ltac:(lia)). change (7 * (9 - Z.of_nat 0)) with 63. lia.
  - destruct (Z.ltb_spec x 128) as [Hl|Hl].
    + cbn [app uvarint_loop]. rewrite byte_small by lia. unfold MaxVarintLen64.
      replace (i =? 10) with false by lia. replace (x <? 128) with true by lia. replace (i =? 10 - 1) with false by lia.
      cbn [andb]. f_equal. f_equal. unfold u64. apply Z.mod_small. pose proof (shift_bound x s 7 ltac:(lia) ltac:(lia) ltac:(lia)).
      pose proof (Z.pow_le_mono_r 2 (7 + s) 63 ltac:(lia) ltac:(lia)). lia.
    + destruct (lor_128 x) as [Hb Eb]. cbn [app uvarint_loop]. rewrite byte_small by lia. rewrite Eb. unfold MaxVarintLen64.
      replace (i =? 10) with false by lia. replace (Z.lor (u8 x) 128 <? 128) with false by lia.
      assert (Hsh : 0 ≤ Z.shiftr x 7 < 2 ^ (7 * Z.of_nat fuel + 1)).
      { rewrite Z.shiftr_div_pow2 by lia. split; [apply Z.div_pos; lia|]. apply Z.div_lt_upper_bound; [lia|].
        rewrite <- Z.pow_add_r by lia. replace (7 + (7 * Z.of_nat fuel + 1)) with (7 * Z.of_nat (S fuel) + 1) by lia. lia. }
      rewrite IH by (done || lia). f_equal; [|unfold len; cbn [length]; lia].
      assert (Eu : u64 (Z.shiftl (x mod 128) s) = Z.shiftl (x mod 128) s).
      { unfold u64. apply Z.mod_small. pose proof (Z.mod_pos_bound x 128 ltac:(lia)).
        pose proof (shift_bound (x mod 128) s 7 ltac:(lia) ltac:(lia) ltac:(lia)). pose proof (Z.pow_le_mono_r 2 (7 + s) 63 ltac:(lia) ltac:(lia)). lia. }
      rewrite Eu, <- Z.lor_assoc, low_high by lia. done.
Qed.

Lemma put_uvarint_size fuel x n : uvarint_size fuel x n = n - 1 + len (put_uvarint fuel x).
Proof.
  revert x n. induction fuel as [|fuel IH]; intros x n; cbn [uvarint_size put_uvarint]; [unfold len; cbn [length]; lia|].
  rewrite Z.ltb_antisym. destruct (128 <=? x); cbn [negb]; [rewrite IH|]; unfold len; cbn [length]; lia.
Qed.

Lemma put_uvarint_nonempty fuel x : 1 ≤ len (put_uvarint fuel x).
Proof. destruct fuel; cbn [put_uvarint]; [done|]. case_match; unfold len; cbn [length]; lia. Qed.

Lemma Uvarint_put x r : 0 ≤ x < 2 ^ 64 → Uvarint (put_uvarint 9 x ++ r) = (x, len (put_uvarint 9 x)).
Proof. intros Hx. unfold Uvarint. rewrite uvarint_loop_put by (done || lia). rewrite Z.shiftl_0_r. done. Qed.

Lemma zigzag_range x : 0 ≤ zigzag x < 2 ^ 64.
Proof. unfold zigzag, u64. case_match; apply Z.mod_pos_bound; lia. Qed.

Lemma unzigzag_zigzag x : - 2 ^ 63 ≤ x < 2 ^ 63 → unzigzag (zigzag x) = x.
Proof.
  intros Hx. unfold unzigzag, zigzag. rewrite Z.shiftl_mul_pow2, Z.shiftr_div_pow2 by lia. change (2 ^ 1) with 2.
  assert (El : ∀ y, Z.land y 1 = y mod 2) by (intros y; change 1 with (Z.ones 1); by rewrite Z.land_ones by lia).
  rewrite El. unfold i64, u64. destruct (Z.ltb_spec x 0).
  - replace ((x * 2) mod 2 ^ 64) with (x * 2 + 2 ^ 64) by (rewrite <- (Z.mod_unique (x * 2) (2 ^ 64) (-1) (x * 2 + 2 ^ 64)); lia).
    unfold Z.lnot. replace (Z.pred (- (x * 2 + 2 ^ 64)) mod 2 ^ 64) with (- x * 2 - 1)
      by (rewrite <- (Z.mod_unique (Z.pred (- (x * 2 + 2 ^ 64))) (2 ^ 64) (-2 + 1 - 0) (- x * 2 - 1)); lia).
    replace ((- x * 2 - 1) / 2) with (- x - 1) by (apply (Z.div_unique _ 2 _ 1); lia).
    replace ((- x * 2 - 1) mod 2) with 1 by (apply (Z.mod_unique _ 2 (- x - 1)); lia). cbn [Z.eqb].
    rewrite (Z.mod_small (- x - 1 + 2 ^ 63)) by lia. unfold Z.lnot. lia.
  - rewrite (Z.mod_small (x * 2)) by lia. rewrite Z.div_mul, Z.mod_mul by lia. cbn [Z.eqb].
    rewrite (Z.mod_small (x + 2 ^ 63)) by lia. lia.
Qed.

(** ** Parsers *)
Section parsers.
Context {A : Type}.
Implicit Types p : parser A.

(** [b] is read as [x], whatever follows; bytes appended to an input change nothing but the rest. *)
Definition parses p (b : bytes) (x : A) : Prop := ∀ r, p (b ++ r) = Ok (x, r).
Definition local p : Prop := ∀ b x r q, p b = Ok (x, r) → p (b ++ q) = Ok (x, r ++ q).
End parsers.

Lemma uvarint_loop_local buf i x s v n q : uvarint_loop buf i x s = (v, n) → 0 ≤ i → 0 < n → uvarint_loop (buf ++ q) i x s = (v, n).
Proof.
  revert i x s. induction buf as [|b buf IH]; intros i x s; cbn [app uvarint_loop]; [intros [= <- <-]; lia|].
  destruct (i =? MaxVarintLen64); [done|]. destruct (byte.unsigned b <? 128); [by destruct (_ && _)|].
  intros E Hi Hn. apply IH; [done|lia|done].
Qed.

Lemma uvarint_loop_size buf i x s v n : uvarint_loop buf i x s = (v, n) → 0 ≤ i → n ≤ i + len buf.
Proof.
  revert i x s. induction buf as [|b buf IH]; intros i x s; cbn [uvarint_loop]; [intros [= <- <-]; unfold len; cbn; lia|].
  replace (len (b :: buf)) with (1 + len buf) by (unfold len; cbn [length]; lia). pose proof (len_nonneg buf).
  destruct (i =? MaxVarintLen64); [intros [= <- <-]; lia|].
  destruct (byte.unsigned b <? 128); [destruct (_ && _); intros [= <- <-]; lia|].
  intros E Hi. apply IH in E; lia.
Qed.

Lemma get_uvarint_parses e x : 0 ≤ x < 2 ^ 64 → parses (get_uvarint e) (put_uvarint 9 x) x.
Proof.
  intros Hx r. unfold get_uvarint. rewrite Uvarint_put by done. pose proof (put_uvarint_nonempty 9 x).
  replace (len (put_uvarint 9 x) <=? 0) with false by lia. unfold len. rewrite Nat2Z.id. by rewrite drop_app_length.
Qed.

Lemma get_uvarint_local e : local (get_uvarint e).
Proof.
  intros b x r q. unfold get_uvarint. destruct (Uvarint b) as [v n] eqn:E.
  destruct (Z.leb_spec n 0) as [|Hn]; [done|]. intros [= <- <-]. unfold Uvarint in *.
  rewrite (uvarint_loop_local _ _ _ _ _ _ q E) by lia. replace (n <=? 0) with false by lia.
  apply uvarint_loop_size in E; [|lia]. unfold len in E. by rewrite drop_app_le by lia.
Qed.

Lemma get_varint_spec e b : get_varint e b = (let? p := get_uvarint e b in Ok (unzigzag p.1, p.2)).
Proof. unfold get_varint, Varint, get_uvarint. destruct (Uvarint b) as [v n]. by destruct (n <=? 0). Qed.

Lemma get_varint_parses e x : - 2 ^ 63 ≤ x < 2 ^ 63 → parses (get_varint e) (put_uvarint 9 (zigzag x)) x.
Proof.
  intros Hx r. rewrite get_varint_spec, (get_uvarint_parses e (zigzag x) (zigzag_range x) r). cbn [result_bind fst snd].
  rewrite (unzigzag_zigzag x Hx). reflexivity.
Qed.

Lemma get_varint_local e : local (get_varint e).
Proof.
  intros b x r q. rewrite !get_varint_spec. destruct (get_uvarint e b) as [[v r']|] eqn:E; [|done]. cbn [result_bind fst snd].
  intros [= <- <-]. by rewrite (get_uvarint_local _ _ _ _ q E).
Qed.

Lemma get_byte_local e : local (get_byte e).
Proof. intros [|b l] x r q; [done|]. by intros [= <- <-]. Qed.

Lemma get_byte_parses e z : 0 ≤ z < 256 → parses (get_byte e) [byte.of_Z z] z.
Proof. intros Hz r. cbn. by rewrite byte_small. Qed.

Lemma get_count_parses e1 e2 x b r : 0 ≤ x < 2 ^ 64 → x ≤ len b →
  get_count e1 e2 (put_uvarint 9 x ++ b ++ r) = Ok (x, b ++ r).
Proof.
  intros Hx Hl. unfold get_count. rewrite get_uvarint_parses by done. cbn. rewrite len_app. pose proof (len_nonneg r).
  replace (x >? len b + len r) with false by lia. done.
Qed.

Lemma get_count_local e1 e2 : local (get_count e1 e2).
Proof.
  intros b x r q. unfold get_count. destruct (get_uvarint e1 b) as [[v r']|] eqn:E; [|done]. cbn.
  rewrite (get_uvarint_local _ _ _ _ q E). cbn. rewrite len_app. destruct (Z.gtb_spec v (len r')); [done|].
  intros [= <- <-]. pose proof (len_nonneg q). by replace (v >? len r' + len q) with false by lia.
Qed.

Lemma get_count_bound e1 e2 b x r : get_count e1 e2 b = Ok (x, r) → x ≤ len r.
Proof.
  unfold get_count. destruct (get_uvarint e1 b) as [[v r']|]; [|done]. cbn. destruct (Z.gtb_spec v (len r')); [done|].
  intros [= <- <-]. lia.
Qed.

Lemma takeCompactString_local : local takeCompactString.
Proof.
  intros b x r q. unfold takeCompactString. destruct (get_count _ _ b) as [[v r']|] eqn:E; [|done]. cbn.
  rewrite (get_count_local _ _ _ _ _ q E). cbn. intros [= <- <-]. apply get_count_bound in E. unfold len in E.
  by rewrite take_app_le, drop_app_le by lia.
Qed.

Definition put_string (value : bytes) : bytes := put_uvarint 9 (u64 (len value)) ++ value.

Lemma takeCompactString_parses s : len s < 2 ^ 64 → parses takeCompactString (put_string s) s.
Proof.
  intros Hs r. pose proof (len_nonneg s). unfold takeCompactString, put_string. rewrite u64_small by lia.
  rewrite <- app_assoc, get_count_parses by lia. cbn. unfold len. rewrite Nat2Z.id.
  by rewrite take_app_length, drop_app_length.
Qed.

(** ** Sequences of parsers *)
Section binds.
Context {A B : Type} (p : parser A) (k : A * bytes → result (B * bytes)).

Lemma bind_local : local p → (∀ a, local (λ b, k (a, b))) → local (λ b, let? y := p b in k y).
Proof.
  intros Hp Hk b x r q. destruct (p b) as [[a r']|] eqn:E; [|done]. cbn [result_bind]. intros Hx.
  rewrite (Hp _ _ _ q E). by apply Hk.
Qed.

Lemma bind_parses b1 b2 a x :
  parses p b1 a → parses (λ b, k (a, b)) b2 x → parses (λ b, let? y := p b in k y) (b1 ++ b2) x.
Proof. intros Hp Hk r. rewrite <- app_assoc, Hp. apply Hk. Qed.
End binds.

Lemma count_parses {B} e1 e2 (k : Z * bytes → result (B * bytes)) x b y :
  0 ≤ x < 2 ^ 64 → x ≤ len b → parses (λ b, k (x, b)) b y →
  parses (λ payload, let? c := get_count e1 e2 payload in k c) (put_uvarint 9 x ++ b) y.
Proof. intros Hx Hl Hk r. rewrite <- app_assoc, get_count_parses by done. apply Hk. Qed.

Lemma ret_local {A} (x : A) : local (λ b, Ok (x, b)).
Proof. intros b y r q [= <- <-]. done. Qed.
Lemma ret_parses {A} (x : A) : parses (λ b, Ok (x, b)) [] x.
Proof. by intros r. Qed.

Lemma take_many_local {A} (p : parser A) n : local p → local (take_many p n).
Proof.
  intros Hp. induction n as [|n IH]; [apply (ret_local [])|].
  apply (bind_local p); [done|]. intros a. cbn [fst snd]. apply (bind_local (take_many p n)); [done|]. intros l. cbn [fst snd]. apply ret_local.
Qed.

Lemma take_many_parses {A} (p : parser A) (f : A → bytes) l :
  (∀ x, x ∈ l → parses p (f x) x) → parses (take_many p (length l)) (concat (f <$> l)) l.
Proof.
  induction l as [|x l IH]; intros Hl; [apply (ret_parses [])|]. cbn [length fmap list_fmap concat].
  apply (bind_parses p _ _ _ x); [apply Hl; left|]. cbn [fst snd]. rewrite <- (app_nil_r (concat _)).
  apply (bind_parses (take_many p (length l)) _ _ _ l); [apply IH; intros y Hy; apply Hl; by right|]. cbn [fst snd]. apply ret_parses.
Qed.

#[local] Hint Resolve get_uvarint_local get_varint_local get_byte_local get_count_local takeCompactString_local ret_local : core.

(** One parser after the other, the last one returns. *)
Ltac next_local :=
  lazymatch goal with |- local (λ b, result_bind (?p b) ?k) => apply (bind_local p k); [auto|intros ?; cbn [fst snd]] end.

Lemma take_run_local : local take_run.
Proof. unfold take_run. do 6 next_local. auto. Qed.

Lemma take_line_local : local take_line.
Proof. unfold take_line. do 3 next_local. apply bind_local; [apply take_many_local, take_run_local|]. intros runs. cbn [fst snd]. auto. Qed.

(** ** The encoder as a concatenation *)
Definition run_bytes (run : Run) : bytes :=
  put_string run.(Text) ++ put_string run.(Style).(FG) ++ put_string run.(Style).(BG)
  ++ [byte.of_Z (compactStyleFlags run.(Style))] ++ put_string run.(LinkURL) ++ put_string run.(LinkParams).
Definition line_bytes (line : Line) : bytes :=
  [byte.of_Z (if line.(HardEnd) then compactLineFlagHardEnd else 0)]
  ++ put_uvarint 9 (zigzag (unixNanoOrZero line.(UpdatedAt)))
  ++ put_uvarint 9 (u64 (len line.(Runs))) ++ concat (run_bytes <$> line.(Runs)).

Lemma foldl_bytes {A} (f : bytes → A → bytes) (g : A → bytes) :
  (∀ b x, f b x = b ++ g x) → ∀ l b, foldl f b l = b ++ concat (g <$> l).
Proof.
  intros Hf l. induction l as [|x l IH]; intros b; [symmetry; apply app_nil_r|]. cbn [foldl fmap list_fmap concat].
  by rewrite IH, Hf, app_assoc.
Qed.

Lemma encode_run_app b run : encode_run b run = b ++ run_bytes run.
Proof. unfold encode_run, appendCompactString, AppendUvarint, run_bytes, put_string. by rewrite <- !app_assoc. Qed.

Lemma encode_line_app b line : encode_line b line = b ++ line_bytes line.
Proof.
  unfold encode_line, AppendVarint, AppendUvarint, line_bytes. rewrite (foldl_bytes _ run_bytes) by apply encode_run_app.
  by rewrite <- !app_assoc.
Qed.

Lemma encode_lines_concat lines : encodeCompactLines lines = put_uvarint 9 (u64 (len lines)) ++ concat (line_bytes <$> lines).
Proof. unfold encodeCompactLines, AppendUvarint. by rewrite (foldl_bytes _ line_bytes) by apply encode_line_app. Qed.

Lemma len_single {A} (x : A) : len [x] = 1.
Proof. done. Qed.

Lemma run_bytes_size size run : run_size size run = size + len (run_bytes run).
Proof.
  unfold run_size, run_bytes, put_string, string_size, uvarintSize. cbn [foldl]. rewrite !put_uvarint_size, !len_app, len_single. lia.
Qed.

Lemma foldl_size {A} (f : Z → A → Z) (g : A → bytes) :
  (∀ n x, f n x = n + len (g x)) → ∀ l n, foldl f n l = n + len (concat (g <$> l)).
Proof.
  intros Hf l. induction l as [|x l IH]; intros n; [unfold len; cbn [foldl fmap list_fmap concat length]; lia|]. cbn [foldl fmap list_fmap concat]. rewrite IH, Hf, len_app. lia.
Qed.

Lemma line_bytes_size line : compactLineEncodedSize line = len (line_bytes line).
Proof.
  unfold compactLineEncodedSize, line_bytes, varintSize, AppendVarint, AppendUvarint, uvarintSize.
  rewrite (foldl_size _ run_bytes), put_uvarint_size, !len_app, len_single by apply run_bytes_size. change (len []) with 0. lia.
Qed.

(** ** Round trip *)
Lemma flags_parses style :
  0 ≤ compactStyleFlags style < 256 ∧ applyCompactStyleFlags style.(FG) style.(BG) (compactStyleFlags style) = style.
Proof. destruct style as [fg bg [] [] [] [] [] []]; by vm_compute. Qed.

(** What fits Go's [int]. *)
Definition fits {A} (l : list A) : Prop := len l < 2 ^ 63.

Record storable_run (run : Run) : Prop := {
  sr_text : fits run.(Text); sr_fg : fits run.(Style).(FG); sr_bg : fits run.(Style).(BG);
  sr_url : fits run.(LinkURL); sr_params : fits run.(LinkParams) }.
(** The time is missing, or one that [UnixNano] represents, but not the epoch itself. *)
Definition storable_time (t : Z) : Prop := t = zero_time ∨ - 2 ^ 63 ≤ t < 2 ^ 63 ∧ t ≠ 0.
Definition storable (line : Line) : Prop :=
  Forall storable_run line.(Runs) ∧ fits line.(Runs) ∧ storable_time line.(UpdatedAt).

Lemma string_parses s : fits s → parses takeCompactString (put_string s) s.
Proof. intros H. apply takeCompactString_parses. unfold fits in H. lia. Qed.

Lemma run_parses run : storable_run run → parses take_run (run_bytes run) run.
Proof.
  intros [H1 H2 H3 H4 H5]. destruct (flags_parses run.(Style)) as [Hf Ef]. unfold take_run, run_bytes.
  apply (bind_parses takeCompactString _ _ _ run.(Text)); [by apply string_parses|]. cbn [fst snd].
  apply (bind_parses takeCompactString _ _ _ run.(Style).(FG)); [by apply string_parses|]. cbn [fst snd].
  apply (bind_parses takeCompactString _ _ _ run.(Style).(BG)); [by apply string_parses|]. cbn [fst snd].
  apply (bind_parses (get_byte _) _ _ _ (compactStyleFlags run.(Style))); [by apply get_byte_parses|]. cbn [fst snd].
  apply (bind_parses takeCompactString _ _ _ run.(LinkURL)); [by apply string_parses|]. cbn [fst snd].
  rewrite <- (app_nil_r (put_string run.(LinkParams))).
  apply (bind_parses takeCompactString _ _ _ run.(LinkParams)); [by apply string_parses|]. cbn [fst snd].
  rewrite Ef. destruct run. apply ret_parses.
Qed.

Lemma concat_len {A} (f : A → bytes) l : (∀ x, 1 ≤ len (f x)) → len l ≤ len (concat (f <$> l)).
Proof.
  intros Hf. induction l as [|x l IH]; [done|]. cbn [fmap list_fmap concat]. rewrite len_app. pose proof (Hf x).
  unfold len in *. cbn [length]. lia.
Qed.

Lemma run_bytes_nonempty run : 1 ≤ len (run_bytes run).
Proof. unfold run_bytes, put_string. rewrite !len_app. pose proof (put_uvarint_nonempty 9 (u64 (len run.(Text)))).
  repeat match goal with |- context [len ?x] => lazymatch goal with _ : 0 ≤ len x |- _ => fail | _ => pose proof (len_nonneg x) end end. lia. Qed.

Lemma line_bytes_nonempty line : 1 ≤ len (line_bytes line).
Proof. unfold line_bytes. rewrite len_app, len_single. match goal with |- context [len ?x] => pose proof (len_nonneg x) end. lia. Qed.

Lemma stored_time t : storable_time t →
  - 2 ^ 63 ≤ unixNanoOrZero t < 2 ^ 63 ∧ (if unixNanoOrZero t =? 0 then zero_time else unixNanoOrZero t) = t.
Proof.
  unfold unixNanoOrZero, IsZero. intros [->|[Ht Hn]]; [by rewrite Z.eqb_refl|].
  destruct (Z.eqb_spec t zero_time) as [->|_]; [exfalso; unfold zero_time, nanos_per_second in Ht; lia|].
  unfold i64. rewrite Z.mod_small by lia. replace (t + 2 ^ 63 - 2 ^ 63) with t by lia. split; [done|].
  by destruct (Z.eqb_spec t 0).
Qed.

Lemma line_parses line : storable line → parses take_line (line_bytes line) line.
Proof.
  intros (Hr & Hf & Ht). destruct (stored_time _ Ht) as [Hn Et]. unfold take_line, line_bytes.
  apply (bind_parses (get_byte _) _ _ _ (if line.(HardEnd) then 1 else 0)); [apply get_byte_parses; by destruct (HardEnd line)|].
  cbn [fst snd]. apply (bind_parses (get_varint _) _ _ _ (unixNanoOrZero line.(UpdatedAt))); [by apply get_varint_parses|].
  cbn [fst snd]. pose proof (len_nonneg line.(Runs)). unfold fits in Hf. rewrite u64_small by lia.
  apply count_parses; [lia|apply concat_len, run_bytes_nonempty|]. cbn [fst snd]. unfold len. rewrite Nat2Z.id.
  rewrite <- (app_nil_r (concat _)).
  apply (bind_parses (take_many take_run _) _ _ _ line.(Runs)).
  { apply take_many_parses. intros run Hin. apply run_parses. by eapply Forall_forall in Hr. }
  cbn [fst snd]. rewrite Et. destruct line as [runs hard at']. destruct hard; apply ret_parses.
Qed.

(** The decoder without its last test. *)
Definition take_lines : parser (list Line) := λ payload,
  let? count := get_count "invalid compact history line count" "compact history line count exceeds block" payload in
  take_many take_line (Z.to_nat count.1) count.2.

Lemma decode_take_lines payload :
  decodeCompactLines payload
  = (let? lines := take_lines payload in
     if is_empty lines.2 then Ok lines.1 else Err "compact history block has trailing bytes").
Proof. unfold decodeCompactLines, take_lines. by destruct (get_count _ _ payload). Qed.

Lemma take_lines_local : local take_lines.
Proof. unfold take_lines. next_local. apply take_many_local, take_line_local. Qed.

Lemma take_lines_parses lines : Forall storable lines → fits lines → parses take_lines (encodeCompactLines lines) lines.
Proof.
  intros Hs Hf. rewrite encode_lines_concat. pose proof (len_nonneg lines). unfold fits in Hf. rewrite u64_small by lia.
  apply count_parses; [lia|apply concat_len, line_bytes_nonempty|]. cbn [fst snd]. unfold len. rewrite Nat2Z.id.
  apply take_many_parses. intros line Hin. apply line_parses. by eapply Forall_forall in Hs.
Qed.

Lemma compact_lines_decode lines (Hs : Forall storable lines) (Hf : fits lines) :
  decodeCompactLines (encodeCompactLines lines) = Ok lines ∧ len (encodeCompactLines lines) = compactLinesEncodedSize lines.
Proof.
  pose proof (take_lines_parses lines Hs Hf) as Hp. split.
  - rewrite decode_take_lines. specialize (Hp []). rewrite app_nil_r in Hp. by rewrite Hp.
  - rewrite encode_lines_concat, len_app. unfold compactLinesEncodedSize, uvarintSize.
    rewrite put_uvarint_size, (foldl_size _ line_bytes) by (intros; by rewrite line_bytes_size). lia.
Qed.

(** C34: The history codec is exact: every block of lines is decoded to the lines it was made from, its size is the one
    computed beforehand, no strict prefix of it decodes (a block cut by a crash is never taken for a shorter one), and
    bytes after it are refused. *)
Theorem compact_codec_exact (lines : list Line) (Hs : Forall storable lines) (Hf : fits lines) :
  let block := encodeCompactLines lines in
  decodeCompactLines block = Ok lines
  ∧ len block = compactLinesEncodedSize lines
  ∧ (∀ n, (n < length block)%nat → ∃ e, decodeCompactLines (take n block) = Err e)
  ∧ (∀ b rest, decodeCompactLines (block ++ b :: rest) = Err "compact history block has trailing bytes").
Proof.
  cbv zeta. pose proof (take_lines_parses lines Hs Hf) as Hp. destruct (compact_lines_decode lines Hs Hf) as [H1 H2].
  split_and!; [exact H1|exact H2| |].
  - intros n Hn. rewrite decode_take_lines. destruct (take_lines (take n _)) as [[l r]|e] eqn:E; [|by exists e].
    apply (take_lines_local _ _ _ (drop n (encodeCompactLines lines))) in E. rewrite take_drop in E.
    specialize (Hp []). rewrite app_nil_r, E in Hp. injection Hp as -> Hr. apply app_eq_nil in Hr as [_ Hr].
    apply (f_equal length) in Hr. rewrite length_drop in Hr. cbn in Hr. lia.
  - intros b rest. rewrite decode_take_lines, Hp. done.
Qed.

Lemma compact_codec_exact_witness :
  let lines := [mkLine [mkRun [Byte.x68; Byte.x69] (mkCellStyle [] [Byte.x32] true false false false false true) [] [Byte.x61]]
                  true 1700000000000000000; mkLine [] false zero_time] in
  decodeCompactLines (encodeCompactLines lines) = Ok lines ∧ compactLinesEncodedSize lines = len (encodeCompactLines lines).
Proof.
  pose proof (compact_codec_exact
    [mkLine [mkRun [Byte.x68; Byte.x69] (mkCellStyle [] [Byte.x32] true false false false false true) [] [Byte.x61]]
       true 1700000000000000000; mkLine [] false zero_time]) as H.
  destruct H as (H1 & H2 & _).
  - constructor; [|constructor; [|constructor]].
    + split; [|split; [reflexivity|right; split; [split; [discriminate|reflexivity]|discriminate]]].
      constructor; [|constructor]. split; reflexivity.
    + split; [constructor|split; [reflexivity|left; reflexivity]].
  - reflexivity.
  - split; [exact H1|exact (eq_sym H2)].
Defined.
