(* ===== verification/HistFile.v ===== *)
(** * The block file of the history

    [core/history/linehist/compressed_file.go]: lines are encoded in blocks that may be compressed, each behind a
    header of 32 bytes; markers of boundaries and of output gaps are headers alone; a file that grew too large or holds
    blocks too old is rewritten without its oldest blocks.

    The file is its bytes. [clock] is what the n-th reading of the clock gives, [disk_write] says how the n-th write
    ends (all written, or an error after some bytes), [disk_rewrite] how the n-th rewrite ends. Reading back, truncating
    and seeking succeed. The compression libraries and the checksum are parameters. *)
From S2P Require Import Prelude GoStd HistLine HistCodec.
From coqutil Require Import LittleEndianList.
Local Open Scope Z_scope.
Local Open Scope bool_scope.
Local Open Scope list_scope.

(** ** Constants and data *)
Definition compressedBlockMagic : Z := 0x424C5854.
Definition compressedBlockVersion : Z := 3.
Definition compressedBlockHeaderSize : Z := 32.
Definition compressedBlockTargetBytes : Z := 256 * 1024.
Definition compressedBlockMaxRawBytes : Z := 2 * 1024 * 1024.
Definition compressedRetentionNumerator : Z := 3.
Definition compressedRetentionDenominator : Z := 4.
Definition compressedBlockKindLines : Z := 1.
Definition compressedBlockKindBoundary : Z := 2.
Definition compressedBlockKindGap : Z := 3.
Definition compressedBlockCodecRaw : Z := 0.
Definition compressedBlockCodecZstd : Z := 1.
Definition compressedBlockCodecS2 : Z := 2.

Inductive Compression := compressionNone | compressionZstd | compressionS2.
Record Options := mkOptions { MaxBytes : Z; MaxAge : Z; CompressionOf : Compression }.

Record compressedBlock := mkBlock {
  cb_offset : Z; cb_firstLine : Z; cb_lineCount : Z; cb_rawLen : Z; cb_storedLen : Z; cb_codec : Z; cb_checksum : Z;
  cb_createdAt : Z }.
#[export] Instance eta_block : Eta compressedBlock := λ b,
  mkBlock b.(cb_offset) b.(cb_firstLine) b.(cb_lineCount) b.(cb_rawLen) b.(cb_storedLen) b.(cb_codec) b.(cb_checksum)
    b.(cb_createdAt).

(** [f.file]: open, closed but still there, or nil. *)
Inductive Handle := HOpen | HClosed | HNil.
#[export] Instance Handle_eq_dec : EqDecision Handle.
Proof. solve_decision. Defined.

Record LineFile := mkFile {
  lf_handle : Handle; lf_data : bytes; lf_blocks : list compressedBlock; lf_persistedLines : Z; lf_pending : list Line;
  lf_pendingBytes : Z; lf_writeOffset : Z; lf_retentionEpoch : Z; lf_gapOffsets : list Z; lf_ticks : nat; lf_ios : nat }.
#[export] Instance eta_file : Eta LineFile := λ f,
  mkFile f.(lf_handle) f.(lf_data) f.(lf_blocks) f.(lf_persistedLines) f.(lf_pending) f.(lf_pendingBytes)
    f.(lf_writeOffset) f.(lf_retentionEpoch) f.(lf_gapOffsets) f.(lf_ticks) f.(lf_ios).

Definition ErrInvalid : goerr := "invalid argument".
Definition ErrClosed : goerr := "file already closed".
Definition ErrDisk : goerr := "input/output error".

(** How a rewrite can end: before the old file is touched, at its close, at the rename (with the old file opened again
    or not), at the opening of the new file, at the sync of the directory, or well. *)
Inductive RewriteOutcome :=
  RwDone | RwUntouched | RwCloseFailed | RwRenameFailed (reopened : bool) | RwOpenFailed | RwSyncFailed.

(** The libraries behind the file. *)
Class Codecs := {
  crc32 : bytes → Z;
  zstd_encode : bytes → bytes; zstd_decode : bytes → result bytes;
  s2_encode : bytes → bytes; s2_decoded_len : bytes → result Z; s2_decode : bytes → result bytes }.
Class CodecLaws `{Codecs} : Prop := {
  crc32_range b : 0 ≤ crc32 b < 2 ^ 32;
  zstd_round b : zstd_decode (zstd_encode b) = Ok b;
  zstd_nonempty b : b ≠ [] → zstd_encode b ≠ [];
  s2_nonempty b : s2_encode b ≠ [];
  s2_length b : s2_decoded_len (s2_encode b) = Ok (len b);
  s2_round b : s2_decode (s2_encode b) = Ok b }.

(** ** Headers *)
Definition makeCompressedBlockHeader (kind codec lineCount rawLen storedLen checksum createdAt : Z) : bytes :=
  le_split 4 compressedBlockMagic ++ le_split 2 compressedBlockVersion ++ [byte.of_Z kind; byte.of_Z codec]
  ++ le_split 4 lineCount ++ le_split 4 rawLen ++ le_split 4 storedLen ++ le_split 4 checksum ++ le_split 8 createdAt.

(** [header[from:to]] as a little endian number. *)
Definition le_field (b : bytes) (from to : nat) : Z := le_combine (take (to - from) (drop from b)).

Record BlockHeader := mkHeader {
  bh_kind : Z; bh_codec : Z; bh_lineCount : Z; bh_rawLen : Z; bh_storedLen : Z; bh_checksum : Z; bh_createdAt : Z }.

Definition known_codec (codec : Z) : bool :=
  (codec =? compressedBlockCodecRaw) || (codec =? compressedBlockCodecZstd) || (codec =? compressedBlockCodecS2).

Definition parseCompressedBlockHeader (header : bytes) : result BlockHeader :=
  if negb (len header =? compressedBlockHeaderSize) || negb (le_field header 0 4 =? compressedBlockMagic)
  then Err "invalid compressed history block magic"
  else if negb (le_field header 4 6 =? compressedBlockVersion)
  then Err "unsupported compressed history block version"
  else
    let h := mkHeader (le_field header 6 7) (le_field header 7 8) (le_field header 8 12) (le_field header 12 16)
               (le_field header 16 20) (le_field header 20 24) (i64 (le_field header 24 32)) in
    if (h.(bh_rawLen) >? compressedBlockMaxRawBytes) || (h.(bh_storedLen) >? compressedBlockMaxRawBytes)
    then Err "compressed history block exceeds size limit"
    else if negb (known_codec h.(bh_codec)) then Err "unsupported compressed history codec"
    else Ok h.

(** ** Indices *)
Definition clampLineIndex (value low high : Z) : Z := if value <? low then low else if value >? high then high else value.

(** [sort.Search]: the loop halves the range, so its length is enough fuel. *)
Fixpoint search_loop (f : Z → bool) (fuel : nat) (i j : Z) : Z :=
  match fuel with
  | O => i
  | S fuel => if i <? j then
                let h := (i + j) / 2 in
                if f h then search_loop f fuel i h else search_loop f fuel (h + 1) j
              else i
  end.
Definition sort_Search (n : Z) (f : Z → bool) : Z := search_loop f (Z.to_nat n) 0 n.

Definition no_block : compressedBlock := mkBlock 0 0 0 0 0 0 0 0.
Definition nth_block (blocks : list compressedBlock) (i : Z) : compressedBlock := nth (Z.to_nat i) blocks no_block.

Definition LineCount (f : LineFile) : Z := f.(lf_persistedLines) + len f.(lf_pending).
Definition GapOffsets (f : LineFile) : list Z := f.(lf_gapOffsets).
Definition RetentionEpoch (f : LineFile) : Z := f.(lf_retentionEpoch).

(** [x[from:to]] *)
Definition slice {A} (from to : Z) (l : list A) : list A := take (Z.to_nat (to - from)) (drop (Z.to_nat from) l).

Section operations.
Context `{Codecs} (clock : nat → Z) (disk_write : nat → option nat) (disk_rewrite : nat → RewriteOutcome) (options : Options).

Definition nowTime (f : LineFile) : LineFile * Z := (f <| lf_ticks := S f.(lf_ticks) |>, clock f.(lf_ticks)).
Definition Unix (t : Z) : Z := t / nanos_per_second.

(** ** Writing *)

(** What a failed write leaves is cut off by [rollbackPartialRecord]. *)
Definition writeAllAtEnd (f : LineFile) (payload : bytes) : LineFile * option goerr :=
  if is_empty payload then (f, None) else
  match f.(lf_handle) with
  | HNil => (f, Some ErrInvalid)
  | HClosed => (f, Some ErrClosed)
  | HOpen =>
      let f' := f <| lf_ios := S f.(lf_ios) |> in
      match disk_write f.(lf_ios) with
      | None => (f' <| lf_data := f.(lf_data) ++ payload |>, None)
      | Some n => (f' <| lf_data := f.(lf_data) ++ take n payload |>, Some ErrDisk)
      end
  end.

Definition rollbackPartialRecord (f : LineFile) (offset : Z) : LineFile :=
  match f.(lf_handle) with
  | HOpen => f <| lf_data := take (Z.to_nat offset) f.(lf_data) |>
  | _ => f
  end.

Definition compressBlock (raw : bytes) : Z * bytes :=
  let '(codec, compressed) :=
    match options.(CompressionOf) with
    | compressionZstd => (compressedBlockCodecZstd, zstd_encode raw)
    | compressionS2 => (compressedBlockCodecS2, s2_encode raw)
    | compressionNone => (compressedBlockCodecRaw, raw)
    end in
  if len compressed >=? len raw then (compressedBlockCodecRaw, raw) else (codec, compressed).

(** ** Retention *)

(** The gap headers counted with a block: those after its first line. The list holds the offsets not yet counted, the
    last first. *)
Fixpoint gap_headers (firstLine size : Z) (gaps : list Z) : Z * list Z :=
  match gaps with
  | gap :: gaps' => if gap >? firstLine then gap_headers firstLine (size + compressedBlockHeaderSize) gaps' else (size, gaps)
  | [] => (size, [])
  end.

(** From the last block backwards; [i] blocks are left. *)
Fixpoint size_start (target : Z) (blocks : list compressedBlock) (i used sizeStart : Z) (gaps : list Z) : Z :=
  match blocks with
  | [] => sizeStart
  | block :: blocks =>
      let '(size, gaps) := gap_headers block.(cb_firstLine) (compressedBlockHeaderSize + block.(cb_storedLen)) gaps in
      if used + size >? target then sizeStart
      else size_start target blocks (i - 1) (used + size) (i - 1) gaps
  end.

Fixpoint age_start (cutoff : Z) (blocks : list compressedBlock) (start : Z) : Z :=
  match blocks with
  | block :: blocks => if block.(cb_createdAt) <? cutoff then age_start cutoff blocks (start + 1) else start
  | [] => start
  end.

(** The kept blocks, moved to the front of the new file. *)
Fixpoint copy_blocks (data : bytes) (blocks : list compressedBlock) (newOffset newFirst : Z)
    : bytes * list compressedBlock * Z * Z :=
  match blocks with
  | [] => ([], [], newOffset, newFirst)
  | block :: blocks =>
      let size := compressedBlockHeaderSize + block.(cb_storedLen) in
      let copied := slice block.(cb_offset) (block.(cb_offset) + size) data in
      let moved := block <| cb_offset := newOffset |> <| cb_firstLine := newFirst |> in
      let '(rest, newBlocks, offset, first) := copy_blocks data blocks (newOffset + size) (newFirst + block.(cb_lineCount)) in
      (copied ++ rest, moved :: newBlocks, offset, first)
  end.

Fixpoint copy_gaps (f : LineFile) (droppedLines : Z) (gaps : list Z) : LineFile * bytes * list Z :=
  match gaps with
  | [] => (f, [], [])
  | gap :: gaps =>
      if gap <=? droppedLines then copy_gaps f droppedLines gaps
      else
        let gap := gap - droppedLines in
        let '(f, now) := nowTime f in
        let header := makeCompressedBlockHeader compressedBlockKindGap compressedBlockCodecRaw gap 0 0 0 (Unix now) in
        let '(f, rest, newGaps) := copy_gaps f droppedLines gaps in
        (f, header ++ rest, gap :: newGaps)
  end.

Definition rewriteBlocks (f : LineFile) (start : Z) : LineFile * option goerr :=
  let start := clampLineIndex start 0 (len f.(lf_blocks)) in
  let droppedLines := if start <? len f.(lf_blocks) then (nth_block f.(lf_blocks) start).(cb_firstLine)
                      else f.(lf_persistedLines) in
  let '(copied, newBlocks, newOffset, newFirst) :=
    copy_blocks f.(lf_data) (drop (Z.to_nat start) f.(lf_blocks)) 0 0 in
  let '(f, headers, newGapOffsets) := copy_gaps f droppedLines f.(lf_gapOffsets) in
  let newOffset := newOffset + len headers in
  let outcome := disk_rewrite f.(lf_ios) in
  let f := f <| lf_ios := S f.(lf_ios) |> in
  let renamed := f <| lf_data := copied ++ headers |> in
  let moved := renamed <| lf_blocks := newBlocks |> <| lf_persistedLines := newFirst |>
                 <| lf_writeOffset := newOffset |> <| lf_gapOffsets := newGapOffsets |> in
  match (if bool_decide (f.(lf_handle) = HOpen) then outcome else RwUntouched) with
  | RwUntouched => (f, Some ErrDisk)
  | RwCloseFailed => (f <| lf_handle := HClosed |>, Some ErrDisk)
  | RwRenameFailed reopened => (if reopened then f else f <| lf_handle := HNil |>, Some ErrDisk)
  | RwOpenFailed => (renamed <| lf_handle := HNil |>, Some ErrDisk)
  | RwSyncFailed => (moved, Some ErrDisk)
  | RwDone => (if 0 <? droppedLines then moved <| lf_retentionEpoch := moved.(lf_retentionEpoch) + 1 |> else moved, None)
  end.

Definition enforceLimit (f : LineFile) : LineFile * option goerr :=
  match f.(lf_handle) with
  | HNil => (f, None)
  | _ =>
      let '(f, start) :=
        if 0 <? options.(MaxAge) then
          let '(f, now) := nowTime f in
          (f, age_start (Unix (now - options.(MaxAge))) f.(lf_blocks) 0)
        else (f, 0) in
      let too_large := (0 <? options.(MaxBytes)) && (options.(MaxBytes) <? f.(lf_writeOffset)) in
      if negb too_large && negb (0 <? start) then (f, None)
      else
        let target := Z.quot (options.(MaxBytes) * compressedRetentionNumerator) compressedRetentionDenominator in
        let sizeStart := if too_large
                         then size_start target (rev f.(lf_blocks)) (len f.(lf_blocks)) 0 (len f.(lf_blocks)) (rev f.(lf_gapOffsets))
                         else start in
        rewriteBlocks f (if sizeStart >? start then sizeStart else start)
  end.

(** ** Appending *)

(** Two writes with a common rollback. *)
Definition write_record (f : LineFile) (header stored : bytes) : LineFile * option goerr :=
  let offset := f.(lf_writeOffset) in
  match writeAllAtEnd f header with
  | (f, Some e) => (rollbackPartialRecord f offset, Some e)
  | (f, None) => match writeAllAtEnd f stored with
                 | (f, Some e) => (rollbackPartialRecord f offset, Some e)
                 | (f, None) => (f, None)
                 end
  end.

Definition flushPending (f : LineFile) : LineFile * option goerr :=
  if is_empty f.(lf_pending) then (f, None)
  else
    let raw := encodeCompactLines f.(lf_pending) in
    let '(codec, stored) := compressBlock raw in
    let checksum := crc32 raw in
    let '(f, now) := nowTime f in
    let createdAt := Unix now in
    let header := makeCompressedBlockHeader compressedBlockKindLines codec (len f.(lf_pending)) (len raw) (len stored)
                    checksum createdAt in
    let offset := f.(lf_writeOffset) in
    match write_record f header stored with
    | (f, Some e) => (f, Some e)
    | (f, None) =>
        let block := mkBlock offset f.(lf_persistedLines) (len f.(lf_pending)) (u32 (len raw)) (u32 (len stored)) codec
                       checksum createdAt in
        let f := f <| lf_blocks := f.(lf_blocks) ++ [block] |>
                   <| lf_persistedLines := f.(lf_persistedLines) + len f.(lf_pending) |>
                   <| lf_writeOffset := f.(lf_writeOffset) + (len header + len stored) |>
                   <| lf_pending := [] |> <| lf_pendingBytes := 0 |> in
        enforceLimit f
    end.

Definition append_line (f : LineFile) (line : Line) : LineFile * option goerr :=
  let size := compactLineEncodedSize line in
  match (if negb (is_empty f.(lf_pending)) && (f.(lf_pendingBytes) + size >? compressedBlockTargetBytes)
         then flushPending f else (f, None)) with
  | (f, Some e) => (f, Some e)
  | (f, None) =>
      let f := f <| lf_pending := f.(lf_pending) ++ [line] |> <| lf_pendingBytes := f.(lf_pendingBytes) + size |> in
      if f.(lf_pendingBytes) >=? compressedBlockTargetBytes then flushPending f else (f, None)
  end.

Fixpoint append_lines (f : LineFile) (lines : list Line) : LineFile * option goerr :=
  match lines with
  | [] => (f, None)
  | line :: lines => match append_line f line with
                     | (f, Some e) => (f, Some e)
                     | (f, None) => append_lines f lines
                     end
  end.

Definition AppendLines (f : LineFile) (lines : list Line) : LineFile * option goerr :=
  if is_empty lines then (f, None)
  else match f.(lf_handle) with HNil => (f, Some ErrInvalid) | _ => append_lines f lines end.

(** A header alone, with the rollback of a failed write. *)
Definition write_marker (f : LineFile) (header : bytes) : LineFile * option goerr :=
  match writeAllAtEnd f header with
  | (f', Some e) => (rollbackPartialRecord f' f.(lf_writeOffset), Some e)
  | (f', None) => (f' <| lf_writeOffset := f'.(lf_writeOffset) + len header |>, None)
  end.

(** The markers after the flush. *)
Definition boundary_marker (f : LineFile) : LineFile * option goerr :=
  let '(f, now) := nowTime f in
  match write_marker f (makeCompressedBlockHeader compressedBlockKindBoundary compressedBlockCodecRaw 0 0 0 0 (Unix now)) with
  | (f, Some e) => (f, Some e)
  | (f, None) => enforceLimit f
  end.

Definition gap_marker (f : LineFile) : LineFile * option goerr :=
  let offset := LineCount f in
  if bool_decide (last f.(lf_gapOffsets) = Some offset) then (f, None)
  else
    let '(f, now) := nowTime f in
    match write_marker f (makeCompressedBlockHeader compressedBlockKindGap compressedBlockCodecRaw offset 0 0 0 (Unix now)) with
    | (f, Some e) => (f, Some e)
    | (f, None) => enforceLimit (f <| lf_gapOffsets := f.(lf_gapOffsets) ++ [offset] |>)
    end.

Definition AppendBoundary (f : LineFile) : LineFile * option goerr :=
  match flushPending f with
  | (f, Some e) => (f, Some e)
  | (f, None) => boundary_marker f
  end.

Definition AppendGap (f : LineFile) : LineFile * option goerr :=
  match flushPending f with
  | (f, Some e) => (f, Some e)
  | (f, None) => gap_marker f
  end.

Definition PruneRetention (f : LineFile) : LineFile * option goerr :=
  match f.(lf_handle) with
  | HNil => (f, None)
  | _ => match flushPending f with
         | (f, Some e) => (f, Some e)
         | (f, None) => enforceLimit f
         end
  end.

(** [Sync] and [Close]; the sync of the file itself succeeds. *)
Definition Sync (f : LineFile) : LineFile * option goerr :=
  match f.(lf_handle) with HNil => (f, None) | _ => flushPending f end.

Definition Close (f : LineFile) : LineFile * option goerr :=
  match f.(lf_handle) with
  | HNil => (f, None)
  | _ => let '(f, e) := flushPending f in (f <| lf_handle := HNil |>, e)
  end.

(** ** Reading *)
Definition ReadAt (f : LineFile) (size offset : Z) : result bytes :=
  match f.(lf_handle) with
  | HNil => Err ErrInvalid
  | HClosed => Err ErrClosed
  | HOpen => let b := slice offset (offset + size) f.(lf_data) in
             if len b <? size then Err "EOF" else Ok b
  end.

Definition unpack_block (block : compressedBlock) (stored : bytes) : result bytes :=
  if block.(cb_codec) =? compressedBlockCodecRaw then Ok stored
  else if block.(cb_codec) =? compressedBlockCodecZstd then zstd_decode stored
  else if block.(cb_codec) =? compressedBlockCodecS2 then
    match s2_decoded_len stored with
    | Err _ => Err "invalid s2 history block size"
    | Ok decodedLen => if negb (decodedLen =? block.(cb_rawLen)) then Err "invalid s2 history block size"
                       else s2_decode stored
    end
  else Err "unsupported compressed history codec".

Definition readBlock (f : LineFile) (block : compressedBlock) : result (list Line) :=
  let? stored := ReadAt f block.(cb_storedLen) (block.(cb_offset) + compressedBlockHeaderSize) in
  let? raw := unpack_block block stored in
  if negb (len raw =? block.(cb_rawLen)) || negb (crc32 raw =? block.(cb_checksum))
  then Err "compressed history block checksum mismatch"
  else
    let? lines := decodeCompactLines raw in
    if negb (len lines =? block.(cb_lineCount)) then Err "compressed history block line count mismatch" else Ok lines.

(** The callback may stop the visit; its state is threaded. *)
Section visit.
Context {S : Type} (visit : S → Z → Line → S * bool).

Fixpoint visit_list (index : Z) (lines : list Line) (s : S) : S * bool :=
  match lines with
  | [] => (s, true)
  | line :: lines => let '(s, more) := visit s index line in if more then visit_list (index + 1) lines s else (s, false)
  end.

(** [index] is that of the first line given, the one after it has the index before. *)
Fixpoint visit_list_down (index : Z) (lines : list Line) (s : S) : S * bool :=
  match lines with
  | [] => (s, true)
  | line :: lines => let '(s, more) := visit s index line in if more then visit_list_down (index - 1) lines s else (s, false)
  end.

Definition visit_range (base from to : Z) (lines : list Line) (s : S) : S * bool :=
  visit_list (base + from) (slice from to lines) s.
Definition visit_range_down (base from to : Z) (lines : list Line) (s : S) : S * bool :=
  visit_list_down (base + to - 1) (rev (slice from to lines)) s.

Fixpoint visit_blocks (f : LineFile) (start persistedEnd : Z) (blocks : list compressedBlock) (s : S)
    : S * bool * option goerr :=
  match blocks with
  | [] => (s, true, None)
  | block :: blocks =>
      if block.(cb_firstLine) >=? persistedEnd then (s, true, None)
      else match readBlock f block with
           | Err e => (s, false, Some e)
           | Ok lines =>
               let from := Z.max start block.(cb_firstLine) - block.(cb_firstLine) in
               let to := Z.min persistedEnd (block.(cb_firstLine) + block.(cb_lineCount)) - block.(cb_firstLine) in
               let '(s, more) := visit_range block.(cb_firstLine) from to lines s in
               if more then visit_blocks f start persistedEnd blocks s else (s, false, None)
           end
  end.

Fixpoint visit_blocks_down (f : LineFile) (start persistedEnd : Z) (blocks : list compressedBlock) (s : S)
    : S * bool * option goerr :=
  match blocks with
  | [] => (s, true, None)
  | block :: blocks =>
      if block.(cb_firstLine) + block.(cb_lineCount) <=? start then (s, true, None)
      else match readBlock f block with
           | Err e => (s, false, Some e)
           | Ok lines =>
               let from := Z.max start block.(cb_firstLine) - block.(cb_firstLine) in
               let to := Z.min persistedEnd (block.(cb_firstLine) + block.(cb_lineCount)) - block.(cb_firstLine) in
               let '(s, more) := visit_range_down block.(cb_firstLine) from to lines s in
               if more then visit_blocks_down f start persistedEnd blocks s else (s, false, None)
           end
  end.

Definition VisitLines (f : LineFile) (start stop : Z) (reverse : bool) (s : S) : S * option goerr :=
  match f.(lf_handle) with
  | HNil => (s, None)
  | _ =>
      let total := LineCount f in
      let persisted := f.(lf_persistedLines) in
      let start := clampLineIndex start 0 total in
      let stop := clampLineIndex stop start total in
      let persistedEnd := Z.min stop persisted in
      if start =? stop then (s, None)
      else if reverse then
        let '(s, more) := if stop >? persisted
                          then visit_range_down persisted (Z.max start persisted - persisted) (stop - persisted) f.(lf_pending) s
                          else (s, true) in
        if negb more then (s, None)
        else if start >=? persistedEnd then (s, None)
        else
          let blockIndex := sort_Search (len f.(lf_blocks))
                              (λ i, (nth_block f.(lf_blocks) i).(cb_firstLine) >=? persistedEnd) - 1 in
          let '(s, _, e) := visit_blocks_down f start persistedEnd (rev (take (Z.to_nat (blockIndex + 1)) f.(lf_blocks))) s in
          (s, e)
      else
        let '(s, more, e) :=
          if start <? persistedEnd then
            let blockIndex := sort_Search (len f.(lf_blocks))
                                (λ i, (nth_block f.(lf_blocks) i).(cb_firstLine) + (nth_block f.(lf_blocks) i).(cb_lineCount) >? start) in
            visit_blocks f start persistedEnd (drop (Z.to_nat blockIndex) f.(lf_blocks)) s
          else (s, true, None) in
        if negb more then (s, e)
        else if stop >? persisted
             then ((visit_range persisted (Z.max start persisted - persisted) (stop - persisted) f.(lf_pending) s).1, None)
             else (s, None)
  end.
End visit.

Definition Lines (f : LineFile) (start stop : Z) : list Line * option goerr :=
  VisitLines (λ acc _ line, (acc ++ [line], true)) f start stop false [].

(** ** Opening *)

(** A header is at least read each time, so the length of the file is enough fuel. *)
Fixpoint recover_loop (fuel : nat) (f : LineFile) (offset : Z) : result (LineFile * Z) :=
  let size := len f.(lf_data) in
  match fuel with
  | O => Ok (f, offset)
  | S fuel =>
      if offset + compressedBlockHeaderSize <=? size then
        let? h := parseCompressedBlockHeader (slice offset (offset + compressedBlockHeaderSize) f.(lf_data)) in
        let recordEnd := offset + compressedBlockHeaderSize + h.(bh_storedLen) in
        if recordEnd >? size then Ok (f, offset)
        else if h.(bh_kind) =? compressedBlockKindLines then
          if (h.(bh_lineCount) =? 0) || (h.(bh_rawLen) =? 0) || (h.(bh_storedLen) =? 0)
          then Err "invalid empty compressed history block"
          else
            let block := mkBlock offset f.(lf_persistedLines) h.(bh_lineCount) h.(bh_rawLen) h.(bh_storedLen)
                           h.(bh_codec) h.(bh_checksum) h.(bh_createdAt) in
            recover_loop fuel (f <| lf_blocks := f.(lf_blocks) ++ [block] |>
                                 <| lf_persistedLines := f.(lf_persistedLines) + h.(bh_lineCount) |>) recordEnd
        else if h.(bh_kind) =? compressedBlockKindBoundary then
          if negb (h.(bh_lineCount) =? 0) || negb (h.(bh_rawLen) =? 0) || negb (h.(bh_storedLen) =? 0)
             || negb (h.(bh_codec) =? compressedBlockCodecRaw)
          then Err "invalid history boundary block"
          else recover_loop fuel f recordEnd
        else if h.(bh_kind) =? compressedBlockKindGap then
          if negb (h.(bh_rawLen) =? 0) || negb (h.(bh_storedLen) =? 0) || negb (h.(bh_codec) =? compressedBlockCodecRaw)
             || (h.(bh_lineCount) >? f.(lf_persistedLines))
          then Err "invalid history output gap block"
          else
            let gap := h.(bh_lineCount) in
            let f := if bool_decide (last f.(lf_gapOffsets) = Some gap) then f
                     else f <| lf_gapOffsets := f.(lf_gapOffsets) ++ [gap] |> in
            recover_loop fuel f recordEnd
        else Err "unsupported compressed history block kind"
      else Ok (f, offset)
  end.

Definition recover (f : LineFile) : result LineFile :=
  let? p := recover_loop (length f.(lf_data)) f 0 in
  Ok (p.1 <| lf_data := take (Z.to_nat p.2) f.(lf_data) |> <| lf_writeOffset := p.2 |>).

(** A file that does not start with the magic and the version is removed. *)
Definition discardObsoleteLineFile (data : bytes) : bytes :=
  if (6 <=? len data) && (le_field data 0 4 =? compressedBlockMagic) && (le_field data 4 6 =? compressedBlockVersion)
  then data else [].

Definition newCompressedLineFile (data : bytes) (ticks ios : nat) : LineFile :=
  mkFile HOpen data [] 0 [] 0 0 0 [] ticks ios.

Definition OpenCompressedLineFile (data : bytes) (ticks ios : nat) : result LineFile :=
  if (options.(MaxBytes) <? 0) || (options.(MaxAge) <? 0) then Err ErrInvalid
  else
    let? f := recover (newCompressedLineFile (discardObsoleteLineFile data) ticks ios) in
    match enforceLimit f with
    | (_, Some e) => Err e
    | (f, None) => Ok f
    end.
End operations.

(** What [VisitLines] is to do, on the list of all lines: the callback sees those of the range, in the order asked for. *)
Definition visit_spec {T} (visit : T → Z → Line → T * bool) (all : list Line) (start stop : Z) (reverse : bool) (s : T) : T :=
  let start := clampLineIndex start 0 (len all) in
  let stop := clampLineIndex stop start (len all) in
  if reverse then (visit_list_down visit (stop - 1) (rev (slice start stop all)) s).1
  else (visit_list visit start (slice start stop all) s).1.
