(* ===== verification/HistFileRead.v ===== *)
(** * The block file as a log of records *)
From S2P Require Import Prelude GoStd HistLine HistCodec HistCodecTheorems HistFile.
From coqutil Require Import LittleEndianList.
Local Open Scope Z_scope.
Local Open Scope bool_scope.
Local Open Scope list_scope.

(** ** Headers *)
Lemma le_round n z : le_combine (le_split n z) = z mod 2 ^ (8 * Z.of_nat n).
Proof. rewrite le_combine_split. f_equal. f_equal. lia. Qed.

Lemma header_length k c n r s ck t : len (makeCompressedBlockHeader k c n r s ck t) = 32.
Proof. done. Qed.

Lemma header_prefix k c n r s ck t rest :
  let h := makeCompressedBlockHeader k c n r s ck t ++ rest in
  le_field h 0 4 = compressedBlockMagic ∧ le_field h 4 6 = compressedBlockVersion.
Proof. cbv zeta. split; vm_compute; reflexivity. Qed.

Lemma header_parsed k c n r s ck t :
  0 ≤ k < 256 → known_codec c = true → 0 ≤ n < 2 ^ 32 → 0 ≤ r < 2 ^ 32 → 0 ≤ s < 2 ^ 32 → 0 ≤ ck < 2 ^ 32 →
  parseCompressedBlockHeader (makeCompressedBlockHeader k c n r s ck t)
  = if (r >? compressedBlockMaxRawBytes) || (s >? compressedBlockMaxRawBytes)
    then Err "compressed history block exceeds size limit" else Ok (mkHeader k c n r s ck (i64 t)).
Proof.
  intros Hk Hc Hn Hr Hs Hck. unfold parseCompressedBlockHeader. set (h := makeCompressedBlockHeader _ _ _ _ _ _ _).
  assert (Hc' : 0 ≤ c < 256).
  { unfold known_codec, compressedBlockCodecRaw, compressedBlockCodecZstd, compressedBlockCodecS2 in Hc. lia. }
  destruct (header_prefix k c n r s ck t []) as [E1 E2]. rewrite app_nil_r in E1, E2. fold h in E1, E2. rewrite E1, E2.
  change (len h) with compressedBlockHeaderSize. rewrite !Z.eqb_refl. cbn [negb orb].
  change (le_field h 6 7) with (le_combine (le_split 1 k)). change (le_field h 7 8) with (le_combine (le_split 1 c)).
  change (le_field h 8 12) with (le_combine (le_split 4 n)). change (le_field h 12 16) with (le_combine (le_split 4 r)).
  change (le_field h 16 20) with (le_combine (le_split 4 s)). change (le_field h 20 24) with (le_combine (le_split 4 ck)).
  change (le_field h 24 32) with (le_combine (le_split 8 t)). rewrite !le_round.
  change (8 * Z.of_nat 1) with 8. change (8 * Z.of_nat 4) with 32. change (8 * Z.of_nat 8) with 64. change (2 ^ 8) with 256.
  rewrite !Z.mod_small by lia. cbn [bh_rawLen bh_storedLen bh_codec]. rewrite Hc. cbn [negb].
  destruct (_ || _); [done|]. do 2 f_equal. unfold i64. by rewrite Z.add_mod_idemp_l by lia.
Qed.

(** ** Slices *)
Lemma slice_length {A} from to (l : list A) : 0 ≤ from → from ≤ to → to ≤ len l → len (slice from to l) = to - from.
Proof. intros. unfold slice, len in *. rewrite length_take, length_drop. lia. Qed.

Lemma slice_app_mid {A} (a b c : list A) : slice (len a) (len a + len b) (a ++ b ++ c) = b.
Proof.
  unfold slice. replace (Z.to_nat (len a + len b - len a)) with (length b) by (unfold len; lia).
  replace (Z.to_nat (len a)) with (length a) by (unfold len; lia). by rewrite drop_app_length, take_app_length.
Qed.

Lemma slice_sub {A} from to n (l : list A) : 0 ≤ from → 0 ≤ n → slice (from + n) to l = drop (Z.to_nat n) (slice from to l).
Proof.
  intros. unfold slice. rewrite skipn_firstn_comm, drop_drop. f_equal; [lia|]. f_equal. lia.
Qed.

(** A full slice of a prefix is the slice of the whole. *)
Lemma slice_extend {A} from to (l k : list A) :
  0 ≤ from → to ≤ len l → slice from to (l ++ k) = slice from to l.
Proof.
  intros Hf Ht. destruct (decide (from ≤ to)).
  - unfold slice, len in *. rewrite drop_app_le, take_app_le; [done|rewrite length_drop; lia|lia].
  - unfold slice. by replace (Z.to_nat (to - from)) with O by lia.
Qed.

(** ** Records *)
Inductive record :=
  | RLines (lines : list Line) (codec : Z) (stored : bytes) (created : Z)
  | RBoundary (created : Z)
  | RGap (gap created : Z).

Definition rec_lines (r : record) : list Line := match r with RLines lines _ _ _ => lines | _ => [] end.
Definition rec_stored (r : record) : bytes := match r with RLines _ _ stored _ => stored | _ => [] end.
Definition created_ok (t : Z) : Prop := - 2 ^ 63 ≤ t < 2 ^ 63.

Section records.
Context `{Codecs}.

Definition rec_header (r : record) : bytes :=
  match r with
  | RLines lines codec stored created =>
      let raw := encodeCompactLines lines in
      makeCompressedBlockHeader compressedBlockKindLines codec (len lines) (len raw) (len stored) (crc32 raw) created
  | RBoundary created => makeCompressedBlockHeader compressedBlockKindBoundary compressedBlockCodecRaw 0 0 0 0 created
  | RGap gap created => makeCompressedBlockHeader compressedBlockKindGap compressedBlockCodecRaw gap 0 0 0 created
  end.
Definition rec_bytes (r : record) : bytes := rec_header r ++ rec_stored r.
Definition log_bytes (recs : list record) : bytes := concat (rec_bytes <$> recs).

Lemma rec_bytes_len r : len (rec_bytes r) = 32 + len (rec_stored r).
Proof. unfold rec_bytes. rewrite len_app. by destruct r. Qed.
Lemma log_bytes_app r1 r2 : log_bytes (r1 ++ r2) = log_bytes r1 ++ log_bytes r2.
Proof. unfold log_bytes. by rewrite fmap_app, concat_app. Qed.
Lemma log_bytes_one r : log_bytes [r] = rec_bytes r.
Proof. unfold log_bytes. cbn. apply app_nil_r. Qed.

(** What a log says: the blocks, the records behind them, the gaps and the size. *)
Record index := mkIndex {
  ix_blocks : list compressedBlock; ix_recs : list record; ix_gaps : list Z; ix_offset : Z }.
Definition ix_lines (ix : index) : list Line := concat (rec_lines <$> ix.(ix_recs)).

Definition block_of (offset firstLine : Z) (r : record) : compressedBlock :=
  match r with
  | RLines lines codec stored created =>
      let raw := encodeCompactLines lines in
      mkBlock offset firstLine (len lines) (len raw) (len stored) codec (crc32 raw) created
  | _ => no_block
  end.

Definition index_add (ix : index) (r : record) : index :=
  let offset := ix.(ix_offset) + len (rec_bytes r) in
  match r with
  | RLines _ _ _ _ => mkIndex (ix.(ix_blocks) ++ [block_of ix.(ix_offset) (len (ix_lines ix)) r]) (ix.(ix_recs) ++ [r])
                        ix.(ix_gaps) offset
  | RBoundary _ => mkIndex ix.(ix_blocks) ix.(ix_recs) ix.(ix_gaps) offset
  | RGap gap _ => mkIndex ix.(ix_blocks) ix.(ix_recs)
                    (if bool_decide (last ix.(ix_gaps) = Some gap) then ix.(ix_gaps) else ix.(ix_gaps) ++ [gap]) offset
  end.
Definition empty_index : index := mkIndex [] [] [] 0.

(** A record of lines that can be read back. *)
Definition lines_ok (limit : Z) (lines : list Line) (codec : Z) (stored : bytes) : Prop :=
  let raw := encodeCompactLines lines in
  lines ≠ [] ∧ Forall storable lines ∧ fits lines ∧ len raw ≤ limit ∧ stored ≠ [] ∧ len stored ≤ len raw
  ∧ known_codec codec = true ∧ unpack_block (block_of 0 0 (RLines lines codec stored 0)) stored = Ok raw.

Definition rec_ok (limit : Z) (ix : index) (r : record) : Prop :=
  match r with
  | RLines lines codec stored created => lines_ok limit lines codec stored ∧ created_ok created
  | RBoundary created => created_ok created
  | RGap gap created =>
      0 ≤ gap ≤ len (ix_lines ix) ∧ gap < 2 ^ 32 ∧ (∀ g, last ix.(ix_gaps) = Some g → g ≤ gap) ∧ created_ok created
  end.

Inductive log (limit : Z) : list record → index → Prop :=
  | log_nil : log limit [] empty_index
  | log_add recs ix r : log limit recs ix → rec_ok limit ix r → log limit (recs ++ [r]) (index_add ix r).

(** The block is that of the record, and its bytes are in the file. *)
Definition block_at (data : bytes) (b : compressedBlock) (r : record) : Prop :=
  match r with
  | RLines _ _ stored _ =>
      0 ≤ b.(cb_offset) ∧ b.(cb_offset) + 32 + len stored ≤ len data
      ∧ slice b.(cb_offset) (b.(cb_offset) + 32 + len stored) data = rec_bytes r
      ∧ b = block_of b.(cb_offset) b.(cb_firstLine) r
  | _ => False
  end.

(** The first lines follow each other. *)
Fixpoint tiled (first : Z) (blocks : list compressedBlock) (recs : list record) : Prop :=
  match blocks, recs with
  | [], [] => True
  | b :: blocks, r :: recs => b.(cb_firstLine) = first ∧ tiled (first + len (rec_lines r)) blocks recs
  | _, _ => False
  end.

Lemma tiled_app first bs rs b r :
  tiled first bs rs → b.(cb_firstLine) = first + len (concat (rec_lines <$> rs)) → tiled first (bs ++ [b]) (rs ++ [r]).
Proof.
  revert first rs. induction bs as [|b' bs IH]; intros first [|r' rs]; try done; cbn [app tiled fmap list_fmap concat].
  - intros _ E. split; [|done]. rewrite E. unfold len. cbn. lia.
  - intros [E1 E2] E. split; [done|]. apply IH; [done|]. rewrite E, len_app. lia.
Qed.

Lemma block_at_extend data more b r : block_at data b r → block_at (data ++ more) b r.
Proof.
  destruct r as [lines codec stored created| |]; try done. intros (H1 & H2 & H3 & H4). split_and!; [done| | |done].
  - rewrite len_app. pose proof (len_nonneg more). lia.
  - by rewrite slice_extend.
Qed.

Lemma log_lines limit recs ix : log limit recs ix → ix_lines ix = concat (rec_lines <$> recs).
Proof.
  induction 1 as [|recs ix r Hl IH Hr]; [done|]. rewrite fmap_app, concat_app, <- IH. cbn. rewrite app_nil_r.
  destruct r; cbn [index_add rec_lines]; unfold ix_lines; cbn [ix_recs]; [|by rewrite app_nil_r..].
  rewrite fmap_app, concat_app. cbn. by rewrite app_nil_r.
Qed.

Lemma log_offset limit recs ix : log limit recs ix → ix.(ix_offset) = len (log_bytes recs).
Proof.
  induction 1 as [|recs ix r Hl IH Hr]; [done|]. rewrite log_bytes_app, log_bytes_one, len_app, <- IH. by destruct r.
Qed.

Lemma log_blocks limit recs ix :
  log limit recs ix → Forall2 (block_at (log_bytes recs)) ix.(ix_blocks) ix.(ix_recs) ∧ tiled 0 ix.(ix_blocks) ix.(ix_recs).
Proof.
  induction 1 as [|recs ix r Hl [IH1 IH2] Hr]; [by split; [constructor|]|].
  assert (IH1' : Forall2 (block_at (log_bytes (recs ++ [r]))) (ix_blocks ix) (ix_recs ix)).
  { rewrite log_bytes_app. eapply Forall2_impl; [exact IH1|]. intros b r' Hb. by apply block_at_extend. }
  destruct r as [lines codec stored created| |]; [|by split..]. cbn [index_add ix_blocks ix_recs]. split.
  - apply Forall2_app; [done|]. constructor; [|constructor]. cbn [block_at block_of cb_offset cb_firstLine].
    rewrite log_bytes_app, log_bytes_one, (log_offset _ _ _ Hl), len_app, rec_bytes_len. cbn [rec_stored].
    pose proof (len_nonneg (log_bytes recs)). split_and!; [done|lia| |done].
    pose proof (slice_app_mid (log_bytes recs) (rec_bytes (RLines lines codec stored created)) []) as Hs.
    rewrite app_nil_r, rec_bytes_len in Hs. cbn [rec_stored] in Hs. by rewrite <- Z.add_assoc.
  - by apply tiled_app.
Qed.
End records.

(** * Reading lines back from the block file *)

(** ** Slices of concatenations *)
Lemma slice_nil {A} from to (l : list A) : to ≤ from → slice from to l = [].
Proof. intros. unfold slice. by replace (Z.to_nat (to - from)) with O by lia. Qed.

Lemma slice_past {A} from to (l : list A) : 0 ≤ from → len l ≤ from → slice from to l = [].
Proof. intros. unfold slice, len in *. by rewrite drop_ge, take_nil by lia. Qed.

Lemma zslice_app {A} a b (l k : list A) :
  0 ≤ a → slice a b (l ++ k) = slice a (Z.min b (len l)) l ++ slice (Z.max a (len l) - len l) (b - len l) k.
Proof.
  intros Ha. pose proof (len_nonneg l). destruct (Z.leb_spec b a).
  { rewrite !slice_nil by lia. done. }
  destruct (Z.leb_spec (len l) a).
  { rewrite (slice_nil _ _ l), Z.max_l by lia. unfold slice, len in *. rewrite drop_app_ge by lia.
    replace (Z.to_nat a - length l)%nat with (Z.to_nat (a - Z.of_nat (length l))) by lia. cbn. f_equal. lia. }
  rewrite Z.max_r by lia. unfold slice, len in *. rewrite drop_app_le by lia. rewrite take_app.
  rewrite length_drop. replace (Z.of_nat (length l) - Z.of_nat (length l)) with 0 by lia. cbn [Z.to_nat drop].
  f_equal; [|f_equal; lia]. destruct (Z.leb_spec b (Z.of_nat (length l))); [by rewrite Z.min_l by lia|].
  rewrite Z.min_r by lia. rewrite !take_ge; [done|rewrite length_drop; lia..].
Qed.

Lemma zslice_all {A} b (l : list A) : len l ≤ b → slice 0 b l = l.
Proof. intros. unfold slice, len in *. rewrite Z.sub_0_r. change (Z.to_nat 0) with O. rewrite drop_0, take_ge; [done|lia]. Qed.

Lemma slice_min {A} a b (l : list A) : 0 ≤ a → slice a (Z.min b (len l)) l = slice a b l.
Proof.
  intros Ha. destruct (Z.leb_spec b (len l)); [by rewrite Z.min_l by lia|]. rewrite Z.min_r by lia.
  unfold slice, len in *. rewrite !take_ge; [done|rewrite length_drop; lia..].
Qed.

Lemma slice_len {A} a b (l : list A) : 0 ≤ a → len (slice a b l) = Z.max 0 (Z.min b (len l) - a).
Proof. intros. unfold slice, len. rewrite length_take, length_drop. lia. Qed.

(** ** Visits of lists *)
Section visit.
Context {T : Type} (visit : T → Z → Line → T * bool).

Lemma visit_list_app i l1 l2 s :
  visit_list visit i (l1 ++ l2) s
  = (let '(s, more) := visit_list visit i l1 s in if more then visit_list visit (i + len l1) l2 s else (s, false)).
Proof.
  revert i s. induction l1 as [|x l1 IH]; intros i s; [cbn [app visit_list len]; f_equal; unfold len; cbn; lia|].
  cbn [app visit_list]. destruct (visit s i x) as [s' []]; [|done]. rewrite IH.
  replace (i + len (x :: l1)) with (i + 1 + len l1) by (unfold len; cbn [length]; lia). done.
Qed.

Lemma visit_list_down_app i l1 l2 s :
  visit_list_down visit i (l1 ++ l2) s
  = (let '(s, more) := visit_list_down visit i l1 s in if more then visit_list_down visit (i - len l1) l2 s else (s, false)).
Proof.
  revert i s. induction l1 as [|x l1 IH]; intros i s; [cbn [app visit_list_down len]; f_equal; unfold len; cbn; lia|].
  cbn [app visit_list_down]. destruct (visit s i x) as [s' []]; [|done]. rewrite IH.
  replace (i - len (x :: l1)) with (i - 1 - len l1) by (unfold len; cbn [length]; lia). done.
Qed.

Lemma visit_list_index i j l s : (l ≠ [] → i = j) → visit_list visit i l s = visit_list visit j l s.
Proof. destruct l; [done|]. intros H. by rewrite H. Qed.
Lemma visit_list_down_index i j l s : (l ≠ [] → i = j) → visit_list_down visit i l s = visit_list_down visit j l s.
Proof. destruct l; [done|]. intros H. by rewrite H. Qed.

(** ** Visits of blocks *)
Context `{Codecs} (f : LineFile).

(** The blocks give the lines of these records. *)
Definition readable (blocks : list compressedBlock) (recs : list record) : Prop :=
  Forall2 (λ b r, readBlock f b = Ok (rec_lines r) ∧ b.(cb_lineCount) = len (rec_lines r)) blocks recs.
Notation lines_of recs := (concat (rec_lines <$> recs)).

Lemma nonempty_len {A} (l : list A) : l ≠ [] → 0 < len l.
Proof. destruct l; [done|]. unfold len. cbn. lia. Qed.

Lemma visit_blocks_spec start stop first blocks recs s :
  readable blocks recs → tiled first blocks recs →
  visit_blocks visit f start stop blocks s
  = (let '(s, more) := visit_list visit (Z.max start first) (slice (Z.max start first - first) (stop - first) (lines_of recs)) s in
     (s, more, None)).
Proof.
  intros Hr. revert first s. induction Hr as [|b r blocks recs [Eb Ec] Hr IH]; intros first s Ht.
  { cbn [fmap list_fmap concat visit_blocks]. by rewrite slice_past by (unfold len; cbn; lia). }
  pose proof (len_nonneg (rec_lines r)). destruct Ht as [E1 Ht]. cbn [visit_blocks fmap list_fmap concat]. rewrite E1, Ec, Eb.
  destruct (Z.geb_spec first stop) as [|Hs]; [by rewrite slice_nil by lia|].
  rewrite zslice_app, visit_list_app by lia. unfold visit_range.
  replace (Z.min stop (first + len (rec_lines r)) - first) with (Z.min (stop - first) (len (rec_lines r))) by lia.
  replace (first + (Z.max start first - first)) with (Z.max start first) by lia.
  destruct (visit_list visit (Z.max start first) _ s) as [s' []]; [|done].
  rewrite (IH _ _ Ht). replace (Z.max (Z.max start first - first) (len (rec_lines r)) - len (rec_lines r))
    with (Z.max start (first + len (rec_lines r)) - (first + len (rec_lines r))) by lia.
  replace (stop - first - len (rec_lines r)) with (stop - (first + len (rec_lines r))) by lia.
  erewrite visit_list_index; [done|]. intros Hne%nonempty_len. rewrite slice_len in * by lia. lia.
Qed.

Lemma tiled_len first blocks recs : tiled first blocks recs → length blocks = length recs.
Proof.
  revert first recs. induction blocks as [|b blocks IH]; intros first [|r recs]; try done. intros [_ Ht]. cbn.
  by rewrite (IH _ _ Ht).
Qed.

Lemma tiled_split first blocks recs b1 b2 :
  tiled first blocks recs → blocks = b1 ++ b2 →
  ∃ r1 r2, recs = r1 ++ r2 ∧ tiled first b1 r1 ∧ tiled (first + len (lines_of r1)) b2 r2.
Proof.
  revert first recs b1. induction blocks as [|b blocks IH]; intros first [|r recs] b1 Ht E; try done.
  - symmetry in E. apply app_eq_nil in E as [-> ->]. exists [], []. by split_and!.
  - destruct b1 as [|b' b1]; cbn in E; subst.
    + exists [], (r :: recs). split_and!; [done..|]. change (len (lines_of [])) with 0. by rewrite Z.add_0_r.
    + injection E as -> ->. destruct Ht as [E1 Ht]. destruct (IH _ _ b1 Ht eq_refl) as (r1 & r2 & -> & H1 & H2).
      exists (r :: r1), r2. split_and!; [done..|]. cbn [fmap list_fmap concat]. rewrite len_app. by replace (first + (len (rec_lines r) + len (lines_of r1)))
        with (first + len (rec_lines r) + len (lines_of r1)) by lia.
Qed.

Lemma visit_blocks_down_spec start stop first blocks recs s :
  readable blocks recs → tiled first blocks recs → first ≤ stop →
  visit_blocks_down visit f start stop (rev blocks) s
  = (let '(s, more) := visit_list_down visit (Z.min stop (first + len (lines_of recs)) - 1)
                         (rev (slice (Z.max start first - first) (stop - first) (lines_of recs))) s in
     (s, more, None)).
Proof.
  revert recs s. induction blocks as [|b blocks IH] using rev_ind; intros recs s Hr Ht Hf.
  { apply Forall2_nil_inv_l in Hr as ->. cbn [fmap list_fmap concat rev visit_blocks_down].
    by rewrite slice_past by (unfold len; cbn; lia). }
  destruct (tiled_split _ _ _ _ _ Ht eq_refl) as (r1 & r2 & -> & Ht1 & Ht2).
  destruct r2 as [|r [|? ?]]; [done| |by destruct Ht2]. destruct Ht2 as [E1 _].
  apply Forall2_app_inv in Hr as [Hr1 [[Eb Ec] _]%Forall2_cons]; [|by apply tiled_len in Ht1].
  rewrite rev_app_distr, fmap_app, concat_app, len_app. cbn [rev app visit_blocks_down fmap list_fmap concat]. rewrite app_nil_r.
  set (fb := first + len (lines_of r1)) in *. pose proof (len_nonneg (lines_of r1)). pose proof (len_nonneg (rec_lines r)).
  rewrite E1, Ec, Eb, zslice_app, rev_app_distr, visit_list_down_app by lia. rewrite slice_min by lia.
  destruct (Z.leb_spec (fb + len (rec_lines r)) start).
  { rewrite slice_past, slice_past by lia. done. }
  unfold visit_range_down.
  replace (Z.max (Z.max start first - first) (len (lines_of r1)) - len (lines_of r1)) with (Z.max start fb - fb) by lia.
  rewrite <- (slice_min (Z.max start fb - fb) (stop - first - len (lines_of r1))) by lia.
  replace (Z.min (stop - first - len (lines_of r1)) (len (rec_lines r))) with (Z.min stop (fb + len (rec_lines r)) - fb) by lia.
  set (part := slice (Z.max start fb - fb) _ _).
  replace (fb + (Z.min stop (fb + len (rec_lines r)) - fb) - 1) with (Z.min stop (fb + len (rec_lines r)) - 1) by lia.
  replace (first + (len (lines_of r1) + len (rec_lines r))) with (fb + len (rec_lines r)) by lia.
  destruct (visit_list_down visit _ (rev part) s) as [s1 []]; [|done]. rewrite (IH r1 s1 Hr1 Ht1 Hf). fold fb.
  erewrite visit_list_down_index; [done|]. intros Hne.
  assert (Hlen : 0 < len (slice (Z.max start first - first) (stop - first) (lines_of r1))).
  { apply nonempty_len. intros E. by rewrite E in Hne. }
  rewrite slice_len in Hlen by lia. replace (len (rev part)) with (len part) by (unfold len; by rewrite length_rev).
  unfold part. rewrite slice_len by lia. lia.
Qed.
End visit.

(** ** The binary search *)
Lemma search_loop_spec g n fuel i j :
  0 ≤ i ≤ j → j ≤ n → j - i ≤ Z.of_nat fuel → (0 < i → g (i - 1) = false) → (j < n → g j = true) →
  let r := search_loop g fuel i j in i ≤ r ≤ j ∧ (0 < r → g (r - 1) = false) ∧ (r < n → g r = true).
Proof.
  revert i j. induction fuel as [|fuel IH]; intros i j Hij Hn Hf H1 H2; cbn [search_loop].
  { assert (i = j) as -> by lia. split_and!; [lia|lia|done|done]. }
  destruct (Z.ltb_spec i j); [|assert (i = j) as -> by lia; split_and!; [lia|lia|done|done]].
  assert (Hm : i ≤ (i + j) / 2 < j) by (split; [apply Z.div_le_lower_bound|apply Z.div_lt_upper_bound]; lia).
  destruct (g ((i + j) / 2)) eqn:E.
  - destruct (IH i ((i + j) / 2)) as (? & ? & ?); [lia..|done|done|]. split_and!; (lia || done).
  - destruct (IH ((i + j) / 2 + 1) j) as (? & ? & ?); [lia..| |done|split_and!; (lia || done)].
    intros _. by replace ((i + j) / 2 + 1 - 1) with ((i + j) / 2) by lia.
Qed.

Lemma sort_Search_spec n g :
  0 ≤ n → let r := sort_Search n g in 0 ≤ r ≤ n ∧ (0 < r → g (r - 1) = false) ∧ (r < n → g r = true).
Proof. intros Hn. unfold sort_Search. apply search_loop_spec; lia. Qed.

(** ** A file that holds a log *)
Section reading.
Context `{Codecs, !CodecLaws}.
Notation lines_of recs := (concat (rec_lines <$> recs)).

(** Every record of lines behind an index is one that can be read. *)
Lemma log_recs_ok limit recs ix :
  log limit recs ix →
  Forall (λ r, match r with RLines lines codec stored created => lines_ok limit lines codec stored ∧ created_ok created
               | _ => False end) ix.(ix_recs).
Proof.
  induction 1 as [|recs ix r Hl IH Hr]; [constructor|]. destruct r; cbn [index_add ix_recs]; [|done..].
  apply Forall_app. split; [done|]. by constructor.
Qed.

Lemma read_block_at f b lines codec stored created limit :
  f.(lf_handle) = HOpen → lines_ok limit lines codec stored → block_at f.(lf_data) b (RLines lines codec stored created) →
  readBlock f b = Ok lines.
Proof.
  intros Hh (Hn & Hs & Hf & Hl & Hst & Hle & Hc & Hu) (H1 & H2 & H3 & H4). unfold readBlock, ReadAt. rewrite Hh.
  assert (cb_storedLen b = len stored) as -> by (by rewrite H4). unfold compressedBlockHeaderSize.
  pose proof (len_nonneg stored).
  assert (slice (cb_offset b + 32) (cb_offset b + 32 + len stored) (lf_data f) = stored) as ->.
  { rewrite slice_sub by lia. rewrite H3. unfold rec_bytes. replace (Z.to_nat 32) with (length (rec_header (RLines lines codec stored created)))
      by done. by rewrite drop_app_length. }
  rewrite Z.ltb_irrefl. cbn [result_bind].
  assert (unpack_block b stored = Ok (encodeCompactLines lines)) as -> by (by rewrite H4).
  cbn [result_bind]. assert (cb_rawLen b = len (encodeCompactLines lines)) as -> by (by rewrite H4).
  assert (cb_checksum b = crc32 (encodeCompactLines lines)) as -> by (by rewrite H4). rewrite !Z.eqb_refl. cbn [negb orb].
  destruct (compact_lines_decode lines Hs Hf) as [-> _]. cbn [result_bind].
  assert (cb_lineCount b = len lines) as -> by (by rewrite H4). by rewrite Z.eqb_refl.
Qed.

Lemma blocks_readable f recs ix limit :
  f.(lf_handle) = HOpen → f.(lf_data) = log_bytes recs → log limit recs ix → readable f ix.(ix_blocks) ix.(ix_recs).
Proof.
  intros Hh Hd Hl. destruct (log_blocks _ _ _ Hl) as [Hb _]. pose proof (log_recs_ok _ _ _ Hl) as Hr.
  rewrite <- Hd in Hb. unfold readable. induction Hb as [|b r bs rs Hb _ IH]; [constructor|].
  apply Forall_cons in Hr as [Hr1 Hr2]. constructor; [|by apply IH]. destruct r as [lines codec stored created| |]; try done.
  destruct Hr1 as [Hr1 _]. split; [by eapply read_block_at|]. destruct Hb as (_ & _ & _ & ->). done.
Qed.

Lemma nth_block_drop blocks j b rest : 0 ≤ j → drop (Z.to_nat j) blocks = b :: rest → nth_block blocks j = b.
Proof.
  intros Hj E. unfold nth_block. apply nth_lookup_Some. rewrite <- (Nat.add_0_r (Z.to_nat j)), <- lookup_drop. by rewrite E.
Qed.

(** The block before a position ends where the lines before it end. *)
Lemma block_before f blocks recs first j r1 :
  readable f blocks recs → tiled first (take (Z.to_nat j) blocks) r1 → recs = r1 ++ drop (length r1) recs →
  0 < j ≤ len blocks →
  (nth_block blocks (j - 1)).(cb_firstLine) + (nth_block blocks (j - 1)).(cb_lineCount) = first + len (lines_of r1).
Proof.
  intros Hr Ht Er Hj. assert (Z.to_nat j ≤ length blocks)%nat by (unfold len in Hj; lia).
  destruct (lookup_lt_is_Some_2 blocks (Z.to_nat (j - 1))) as [b Eb]; [lia|].
  assert (Et : take (Z.to_nat j) blocks = take (Z.to_nat (j - 1)) blocks ++ [b]).
  { replace (Z.to_nat j) with (S (Z.to_nat (j - 1))) by lia. by apply take_S_r. }
  rewrite Et in Ht. destruct (tiled_split _ _ _ _ _ Ht eq_refl) as (q1 & q2 & -> & T1 & T2).
  destruct q2 as [|r [|? ?]]; [done| |by destruct T2]. destruct T2 as [E1 _].
  assert (nth_block blocks (j - 1) = b) as -> by (unfold nth_block; by apply nth_lookup_Some).
  assert (Hrb : (λ b r, readBlock f b = Ok (rec_lines r) ∧ b.(cb_lineCount) = len (rec_lines r)) b r).
  { eapply (Forall2_lookup_lr _ _ _ (Z.to_nat (j - 1)) b r Hr); [exact Eb|]. rewrite Er.
    rewrite <- app_assoc, lookup_app_r; apply tiled_len in T1; rewrite length_take in T1; [|lia].
    by replace (Z.to_nat (j - 1) - length q1)%nat with O by lia. }
  destruct Hrb as [_ ->]. rewrite E1, fmap_app, concat_app, len_app. cbn. rewrite app_nil_r. lia.
Qed.

Lemma clamp_range v lo hi : lo ≤ hi → lo ≤ clampLineIndex v lo hi ≤ hi.
Proof. unfold clampLineIndex. intros. destruct (Z.ltb_spec v lo); [lia|]. destruct (Z.gtb_spec v hi); lia. Qed.

Section visited.
Context {T : Type} (visit : T → Z → Line → T * bool) (f : LineFile) (blocks : list compressedBlock) (recs : list record).
Context (Hr : readable f blocks recs) (Ht : tiled 0 blocks recs).
Notation lines := (lines_of recs).

Lemma split_at j : 0 ≤ j ≤ len blocks →
  ∃ r1 r2, recs = r1 ++ r2 ∧ readable f (take (Z.to_nat j) blocks) r1 ∧ readable f (drop (Z.to_nat j) blocks) r2
    ∧ tiled 0 (take (Z.to_nat j) blocks) r1 ∧ tiled (len (lines_of r1)) (drop (Z.to_nat j) blocks) r2
    ∧ lines = lines_of r1 ++ lines_of r2.
Proof.
  intros Hj. destruct (tiled_split _ _ _ _ _ Ht (eq_sym (take_drop (Z.to_nat j) blocks))) as (r1 & r2 & -> & T1 & T2).
  exists r1, r2. rewrite <- (take_drop (Z.to_nat j) blocks) in Hr. apply Forall2_app_inv in Hr as [R1 R2]; [|by apply tiled_len in T1].
  split_and!; try done. by rewrite fmap_app, concat_app.
Qed.

Lemma forward_blocks a b s :
  0 ≤ a → a < b → b ≤ len lines →
  visit_blocks visit f a b
    (drop (Z.to_nat (sort_Search (len blocks) (λ i, (nth_block blocks i).(cb_firstLine) + (nth_block blocks i).(cb_lineCount) >? a)))
       blocks) s
  = (let '(s, more) := visit_list visit a (slice a b lines) s in (s, more, None)).
Proof.
  intros Ha Hab Hb. set (g := λ i, _). destruct (sort_Search_spec (len blocks) g (len_nonneg _)) as (Hj & H1 & _).
  set (j := sort_Search _ g) in *. destruct (split_at j Hj) as (r1 & r2 & Er & R1 & R2 & T1 & T2 & ->).
  assert (len (lines_of r1) ≤ a).
  { destruct (decide (0 < j)) as [Hj0|]; [|replace (Z.to_nat j) with O in T1 by lia; destruct r1; [done|by destruct T1]].
    specialize (H1 Hj0). unfold g in H1. rewrite (block_before f blocks recs 0 j r1 Hr T1) in H1; [lia| |lia].
    rewrite Er at 2. by rewrite drop_app_length, Er. }
  rewrite (visit_blocks_spec _ _ _ _ _ _ _ _ R2 T2), (zslice_app a b) by lia. pose proof (len_nonneg (lines_of r1)).
  rewrite (slice_past a), !Z.max_l by lia. done.
Qed.

Lemma backward_blocks a b s :
  0 ≤ a → a < b → b ≤ len lines →
  visit_blocks_down visit f a b
    (rev (take (Z.to_nat (sort_Search (len blocks) (λ i, (nth_block blocks i).(cb_firstLine) >=? b) - 1 + 1)) blocks)) s
  = (let '(s, more) := visit_list_down visit (b - 1) (rev (slice a b lines)) s in (s, more, None)).
Proof.
  intros Ha Hab Hb. set (g := λ i, _). destruct (sort_Search_spec (len blocks) g (len_nonneg _)) as (Hj & _ & H2).
  set (j := sort_Search _ g) in *. replace (j - 1 + 1) with j by lia.
  destruct (split_at j Hj) as (r1 & r2 & Er & R1 & R2 & T1 & T2 & El). rewrite El in Hb |- *. rewrite len_app in Hb.
  assert (b ≤ len (lines_of r1)).
  { destruct r2 as [|r r2]; [cbn in Hb; unfold len in *; cbn in Hb; lia|].
    destruct (drop (Z.to_nat j) blocks) as [|bl rest] eqn:Ed; [by destruct T2|]. destruct T2 as [E1 _].
    assert (Hjn : j < len blocks).
    { destruct (decide (j < len blocks)); [done|]. rewrite drop_ge in Ed by (unfold len in *; lia). done. }
    specialize (H2 Hjn). unfold g in H2. rewrite (nth_block_drop _ _ _ _ (proj1 Hj) Ed) in H2. lia. }
  rewrite (visit_blocks_down_spec _ _ _ _ 0 _ _ _ R1 T1) by lia. rewrite !Z.sub_0_r, Z.add_0_l, Z.max_l, Z.min_l by lia.
  rewrite (zslice_app a b) by lia. rewrite (slice_nil _ _ (lines_of r2)), app_nil_r by lia. by rewrite slice_min by lia.
Qed.
End visited.

Lemma VisitLines_spec {T} (visit : T → Z → Line → T * bool) f recs ix limit start stop reverse s :
  f.(lf_handle) = HOpen → f.(lf_data) = log_bytes recs → log limit recs ix → f.(lf_blocks) = ix.(ix_blocks) →
  f.(lf_persistedLines) = len (ix_lines ix) →
  VisitLines visit f start stop reverse s = (visit_spec visit (ix_lines ix ++ f.(lf_pending)) start stop reverse s, None).
Proof.
  intros Hh Hd Hl Eb Ep. pose proof (blocks_readable f recs ix limit Hh Hd Hl) as Hr. destruct (log_blocks _ _ _ Hl) as [_ Ht].
  unfold VisitLines, LineCount, visit_spec. rewrite Hh, Eb, Ep, <- len_app. set (all := ix_lines ix ++ _).
  pose proof (clamp_range start 0 (len all) (len_nonneg _)) as Ha. set (a := clampLineIndex start _ _) in *.
  pose proof (clamp_range stop a (len all) (proj2 Ha)) as Hb. set (b := clampLineIndex stop _ _) in *.
  pose proof (len_nonneg (ix_lines ix)) as Hn. assert (Eall : len all = len (ix_lines ix) + len f.(lf_pending)) by apply len_app.
  destruct (Z.eqb_spec a b) as [Hab|Hab]; [rewrite slice_nil by lia; by destruct reverse|].
  destruct reverse.
  - unfold all. rewrite zslice_app, rev_app_distr, visit_list_down_app by lia. unfold visit_range_down.
    destruct (Z.gtb_spec b (len (ix_lines ix))) as [Hgt|Hle].
    + replace (len (ix_lines ix) + (b - len (ix_lines ix)) - 1) with (b - 1) by lia.
      set (part := slice (Z.max a _ - _) _ _). destruct (visit_list_down visit (b - 1) (rev part) s) as [s1 []]; [|done]. cbn [negb].
      rewrite Z.min_r by lia. destruct (Z.geb_spec a (len (ix_lines ix))); [by rewrite (slice_nil a) by lia|].
      rewrite (backward_blocks visit f _ _ Hr Ht) by (fold (ix_lines ix); lia). fold (ix_lines ix).
      replace (b - 1 - len (rev part)) with (len (ix_lines ix) - 1).
      { by destruct (visit_list_down _ _ _ _) as [? []]. }
      assert (len (rev part) = len part) as -> by (unfold len; by rewrite length_rev). unfold part. rewrite slice_len by lia. lia.
    + cbn [negb]. rewrite (slice_nil _ (b - _)) by lia. cbn [rev visit_list_down]. rewrite Z.min_l by lia.
      destruct (Z.geb_spec a b); [lia|]. rewrite (backward_blocks visit f _ _ Hr Ht) by (fold (ix_lines ix); lia). fold (ix_lines ix).
      replace (b - 1 - len []) with (b - 1) by (unfold len; cbn; lia). by destruct (visit_list_down _ _ _ _) as [? []].
  - unfold all. rewrite zslice_app, visit_list_app by lia. unfold visit_range. destruct (Z.ltb_spec a (Z.min b (len (ix_lines ix)))) as [Hlt|Hge].
    + rewrite (forward_blocks visit f _ _ Hr Ht) by (fold (ix_lines ix); lia). fold (ix_lines ix).
      destruct (visit_list visit a _ s) as [s1 []]; [|done]. cbn [negb]. destruct (Z.gtb_spec b (len (ix_lines ix))) as [Hgt|Hle].
      * f_equal. f_equal. apply visit_list_index. intros _. rewrite slice_len by lia. lia.
      * by rewrite (slice_nil _ (b - _)) by lia.
    + cbn [negb]. rewrite (slice_nil a) by lia. cbn [visit_list]. destruct (Z.gtb_spec b (len (ix_lines ix))) as [Hgt|Hle]; [|lia].
      f_equal. f_equal. apply visit_list_index. intros _. change (len []) with 0. lia.
Qed.
End reading.
