(* ===== verification/HistFileWrite.v ===== *)
(** * Every operation of the block file keeps its log *)
From S2P Require Import Prelude GoStd HistLine HistCodec HistCodecTheorems HistFile HistFileRead.
Local Open Scope Z_scope.
Local Open Scope bool_scope.
Local Open Scope list_scope.

Notation lines_of recs := (concat (rec_lines <$> recs)).

(** ** Gaps are in order *)
Definition gaps_ok (n : Z) (gaps : list Z) : Prop := StronglySorted Z.lt gaps ∧ Forall (λ g, 0 ≤ g ≤ n ∧ g < 2 ^ 32) gaps.

Lemma lt_sorted_snoc (l : list Z) x : StronglySorted Z.lt l → (∀ g, last l = Some g → g < x) → StronglySorted Z.lt (l ++ [x]).
Proof.
  induction l as [|y l IH]; intros Hs Hl; [by repeat constructor|]. apply StronglySorted_inv in Hs as [Hs Hy]. cbn. constructor.
  - apply IH; [done|]. intros g Hg. apply Hl. destruct l; [done|]. exact Hg.
  - apply Forall_app. split; [done|]. constructor; [|constructor]. destruct l as [|z l] using rev_ind; [by apply Hl|].
    clear IHl. assert (z < x) by (apply Hl; change (y :: l ++ [z]) with ((y :: l) ++ [z]); by rewrite last_snoc).
    apply Forall_app in Hy as [_ [Hy _]%Forall_cons]. lia.
Qed.

Section writing.
Context `{Codecs, !CodecLaws} (clock : nat → Z) (disk_write : nat → option nat) (disk_rewrite : nat → RewriteOutcome).
Context (options : Options) (limit : Z).
Context (clock_ok : ∀ n, - 2 ^ 63 ≤ clock n < 2 ^ 63) (limit_ok : compressedBlockTargetBytes + 10 ≤ limit < 2 ^ 32).

Lemma log_gaps recs ix : log limit recs ix → gaps_ok (len (ix_lines ix)) ix.(ix_gaps).
Proof.
  assert (Hmono : ∀ n m gaps, n ≤ m → gaps_ok n gaps → gaps_ok m gaps).
  { intros n m gaps Hnm [Hs Hf]. split; [done|]. eapply Forall_impl; [exact Hf|]. intros g Hg. cbn in Hg. lia. }
  induction 1 as [|recs ix r Hl IH Hr]; [by split; constructor|]. destruct r as [lines codec stored created| |gap created]; cbn [index_add ix_gaps].
  - apply (Hmono (len (ix_lines ix))); [|done]. unfold ix_lines. cbn [ix_recs]. rewrite fmap_app, concat_app, len_app.
    pose proof (len_nonneg (lines_of [RLines lines codec stored created])). lia.
  - exact IH.
  - change (ix_lines (mkIndex _ (ix_recs ix) _ _)) with (ix_lines ix). case_bool_decide as Hd; [exact IH|].
    destruct Hr as (Hg & Hg2 & Hg3 & _), IH as [Hs Hf]. split.
    + apply lt_sorted_snoc; [done|]. intros g Eg. specialize (Hg3 g Eg). destruct (decide (g = gap)); [by subst|lia].
    + apply Forall_app. split; [done|]. by constructor.
Qed.

(** ** The state of a file *)

Definition line_ok (line : Line) : Prop := storable line ∧ compactLineEncodedSize line + 10 ≤ limit.
Definition pending_size (lines : list Line) : Z := foldl (λ size line, size + compactLineEncodedSize line) 0 lines.

Definition in_memory (f : LineFile) (ix : index) : Prop :=
  f.(lf_blocks) = ix.(ix_blocks) ∧ f.(lf_persistedLines) = len (ix_lines ix) ∧ f.(lf_gapOffsets) = ix.(ix_gaps)
  ∧ f.(lf_writeOffset) = ix.(ix_offset).
Definition pending_ok (f : LineFile) : Prop :=
  Forall line_ok f.(lf_pending) ∧ f.(lf_pendingBytes) = pending_size f.(lf_pending) ∧ f.(lf_pendingBytes) + 10 ≤ limit.

(** The file holds these records; the memory agrees unless the file was lost. *)
Definition backed (f : LineFile) (recs : list record) (ix : index) : Prop :=
  log limit recs ix ∧ f.(lf_data) = log_bytes recs ∧ (f.(lf_handle) ≠ HNil → in_memory f ix).

(** The file and its pending lines hold [lines]. *)
Definition holds (f : LineFile) (lines : list Line) : Prop :=
  ∃ recs ix, backed f recs ix ∧ pending_ok f ∧ lines = ix_lines ix ++ f.(lf_pending).

Lemma size_nonneg line : 0 ≤ compactLineEncodedSize line.
Proof. rewrite line_bytes_size. apply len_nonneg. Qed.

Lemma pending_size_snoc lines line : pending_size (lines ++ [line]) = pending_size lines + compactLineEncodedSize line.
Proof. unfold pending_size. by rewrite foldl_app. Qed.

Lemma put_uvarint_max fuel x : len (put_uvarint fuel x) ≤ Z.of_nat fuel + 1.
Proof.
  revert x. induction fuel as [|fuel IH]; intros x; cbn [put_uvarint]; [done|]. case_match; [unfold len; cbn [length]; lia|].
  specialize (IH (Z.shiftr x 7)). unfold len in *. cbn [length]. lia.
Qed.

Lemma encoded_pending lines : len lines ≤ pending_size lines
  ∧ len (encodeCompactLines lines) ≤ pending_size lines + 10 ∧ 1 ≤ len (encodeCompactLines lines).
Proof.
  rewrite encode_lines_concat, len_app. pose proof (put_uvarint_max 9 (u64 (len lines))). pose proof (put_uvarint_nonempty 9 (u64 (len lines))).
  assert (E : pending_size lines = len (concat (line_bytes <$> lines))).
  { unfold pending_size. rewrite (foldl_size _ line_bytes); [lia|]. intros n x. by rewrite line_bytes_size. }
  rewrite E. pose proof (concat_len line_bytes lines line_bytes_nonempty). pose proof (len_nonneg (concat (line_bytes <$> lines))). lia.
Qed.

Lemma unix_ok n : created_ok (Unix (clock n)).
Proof.
  unfold created_ok, Unix, nanos_per_second. pose proof (clock_ok n).
  split; [apply Z.div_le_lower_bound; lia|apply Z.div_lt_upper_bound; lia].
Qed.

(** ** Writes *)

(** A failed write leaves the file as it was. *)
Lemma write_record_spec f recs ix header stored f' e :
  backed f recs ix → header ≠ [] → stored ≠ [] → write_record disk_write f header stored = (f', e) →
  ∃ n, match e with
       | None => f.(lf_handle) = HOpen ∧ f' = f <| lf_ios := n |> <| lf_data := f.(lf_data) ++ header ++ stored |>
       | Some _ => f' = f <| lf_ios := n |>
       end.
Proof.
  intros (Hl & Hd & Hm) Hh Hst. unfold write_record, writeAllAtEnd. destruct header as [|h1 header]; [done|].
  destruct stored as [|s1 stored]; [done|]. cbn [is_empty]. destruct f as [handle data blocks pl pe pb wo re gp tk io]. cbn in *.
  destruct handle; [|intros [= <- <-]; by exists io..].
  assert (E : ∀ more, take (Z.to_nat wo) (data ++ more) = data).
  { destruct (Hm ltac:(done)) as (_ & _ & _ & Ew). cbn in Ew. intros more. rewrite Ew, (log_offset _ _ _ Hl), <- Hd.
    unfold len. by rewrite Nat2Z.id, take_app_length. }
  destruct (disk_write io) as [n|]; [intros [= <- <-]; exists (S io); cbn; by rewrite E|]. cbn.
  destruct (disk_write (S io)) as [n|]; intros [= <- <-]; exists (S (S io)); cbn.
  - by rewrite <- app_assoc, E.
  - split; [done|]. by rewrite <- app_assoc.
Qed.

Lemma write_marker_spec f recs ix header f' e :
  backed f recs ix → header ≠ [] → write_marker disk_write f header = (f', e) →
  ∃ n, match e with
       | None => f.(lf_handle) = HOpen
           ∧ f' = f <| lf_ios := n |> <| lf_data := f.(lf_data) ++ header |> <| lf_writeOffset := f.(lf_writeOffset) + len header |>
       | Some _ => f' = f <| lf_ios := n |>
       end.
Proof.
  intros (Hl & Hd & Hm) Hh. unfold write_marker, writeAllAtEnd. destruct header as [|h1 header]; [done|]. cbn [is_empty].
  destruct f as [handle data blocks pl pe pb wo re gp tk io]. cbn in *. destruct handle; [|intros [= <- <-]; by exists io..].
  destruct (disk_write io) as [n|]; intros [= <- <-]; exists (S io); cbn; [|done].
  destruct (Hm ltac:(done)) as (_ & _ & _ & Ew). cbn in Ew. rewrite Ew, (log_offset _ _ _ Hl), <- Hd. unfold len. by rewrite Nat2Z.id, take_app_length.
Qed.

(** The bytes of the next record. *)
Lemma backed_add (f' : LineFile) recs ix r :
  log limit recs ix → rec_ok limit ix r → f'.(lf_data) = log_bytes recs ++ rec_bytes r → in_memory f' (index_add ix r) →
  backed f' (recs ++ [r]) (index_add ix r).
Proof. intros Hl Hr Hd Hm. split_and!; [by constructor|by rewrite log_bytes_app, log_bytes_one|done]. Qed.

(** ** Rewrites *)
Definition is_lines (r : record) : Prop :=
  match r with RLines lines codec stored created => lines_ok limit lines codec stored ∧ created_ok created | _ => False end.

Lemma moved_block data b r offset first :
  block_at data b r → b <| cb_offset := offset |> <| cb_firstLine := first |> = block_of offset first r.
Proof. destruct r; try done. intros (_ & _ & _ & ->). done. Qed.

Lemma copy_blocks_spec data blocks rs R ix :
  Forall2 (block_at data) blocks rs → Forall is_lines rs → log limit R ix →
  ∃ copied newBlocks ix',
    copy_blocks data blocks ix.(ix_offset) (len (ix_lines ix)) = (copied, newBlocks, ix'.(ix_offset), len (ix_lines ix'))
    ∧ log limit (R ++ rs) ix' ∧ ix'.(ix_blocks) = ix.(ix_blocks) ++ newBlocks ∧ ix'.(ix_recs) = ix.(ix_recs) ++ rs
    ∧ ix'.(ix_gaps) = ix.(ix_gaps) ∧ log_bytes (R ++ rs) = log_bytes R ++ copied.
Proof.
  intros Hb. revert R ix. induction Hb as [|b r blocks rs Hb Hbs IH]; intros R ix Hr Hl.
  { exists [], [], ix. rewrite !app_nil_r. by split_and!. }
  apply Forall_cons in Hr as [Hr Hrs]. destruct r as [lines codec stored created| |]; try done.
  set (r := RLines lines codec stored created) in *. pose proof (log_add _ _ _ r Hl Hr) as Hl'.
  destruct (IH _ _ Hrs Hl') as (copied & newBlocks & ix' & E & H1 & H2 & H3 & H4 & H5).
  exists (rec_bytes r ++ copied), (block_of ix.(ix_offset) (len (ix_lines ix)) r :: newBlocks), ix'.
  cbn [copy_blocks]. destruct Hb as (Hb1 & Hb2 & Hb3 & Hb4).
  assert (Es : cb_storedLen b = len stored) by (by rewrite Hb4). assert (Ec : cb_lineCount b = len lines) by (by rewrite Hb4).
  rewrite Es, Ec. unfold compressedBlockHeaderSize. rewrite (Z.add_assoc (cb_offset b)), Hb3. rewrite (moved_block data b r) by (by split_and!).
  replace (ix_offset ix + (32 + len stored)) with (ix_offset (index_add ix r))
    by (cbn [index_add ix_offset r]; by rewrite rec_bytes_len).
  replace (len (ix_lines ix) + len lines) with (len (ix_lines (index_add ix r))).
  2: { unfold ix_lines. cbn [index_add ix_recs r]. rewrite fmap_app, concat_app, len_app. cbn. by rewrite app_nil_r. }
  rewrite E. change (R ++ r :: rs) with (R ++ [r] ++ rs). rewrite app_assoc. split_and!; [done|done| | |done|].
  - rewrite H2. cbn [index_add ix_blocks r]. by rewrite <- app_assoc.
  - rewrite H3. cbn [index_add ix_recs r]. by rewrite <- app_assoc.
  - by rewrite H5, log_bytes_app, log_bytes_one, <- app_assoc.
Qed.

Lemma copy_gaps_spec f dropped gaps R ix n :
  StronglySorted Z.lt gaps → Forall (λ g, 0 ≤ g ≤ n ∧ g < 2 ^ 32) gaps → n = dropped + len (ix_lines ix) → 0 ≤ dropped → log limit R ix →
  (∀ g h, last ix.(ix_gaps) = Some h → g ∈ gaps → dropped < g → h < g - dropped) →
  ∃ headers newGaps rs ix' ticks,
    copy_gaps clock f dropped gaps = (f <| lf_ticks := ticks |>, headers, newGaps)
    ∧ log limit (R ++ rs) ix' ∧ ix'.(ix_blocks) = ix.(ix_blocks) ∧ ix'.(ix_recs) = ix.(ix_recs)
    ∧ ix'.(ix_gaps) = ix.(ix_gaps) ++ newGaps ∧ ix'.(ix_offset) = ix.(ix_offset) + len headers
    ∧ log_bytes (R ++ rs) = log_bytes R ++ headers.
Proof.
  intros Hs Hf Hn Hd. revert f R ix Hn. induction gaps as [|gap gaps IH]; intros f R ix Hn Hl Hlast.
  { exists [], [], [], ix, f.(lf_ticks). rewrite !app_nil_r. split_and!; try done; [by destruct f|unfold len; cbn; lia]. }
  apply StronglySorted_inv in Hs as [Hs Hlt]. apply Forall_cons in Hf as [Hg Hf]. cbn [copy_gaps].
  destruct (Z.leb_spec gap dropped) as [Hle|Hgt].
  { apply (IH Hs Hf f R ix Hn Hl). intros g h Eh Hin. apply Hlast; [done|]. by right. }
  set (t := Unix (clock (lf_ticks f))). set (r := RGap (gap - dropped) t).
  assert (Hr : rec_ok limit ix r).
  { split_and!; [lia..| |apply unix_ok]. intros h Eh. specialize (Hlast gap h Eh). assert (h < gap - dropped); [|lia].
    apply Hlast; [left|lia]. }
  assert (Hix : ix_gaps (index_add ix r) = ix_gaps ix ++ [gap - dropped]).
  { cbn [index_add ix_gaps r]. case_bool_decide as Hb; [|done]. specialize (Hlast gap (gap - dropped) Hb).
    assert (gap - dropped < gap - dropped); [|lia]. apply Hlast; [left|lia]. }
  destruct (IH Hs Hf (f <| lf_ticks := S f.(lf_ticks) |>) (R ++ [r]) (index_add ix r)) as (headers & newGaps & rs & ix' & ticks & E & H1 & H2 & H3 & H4 & H5 & H6).
  - done.
  - by constructor.
  - rewrite Hix. intros g h. rewrite last_snoc. intros [= <-] Hin Hdg. eapply Forall_forall in Hlt; [|exact Hin]. lia.
  - exists (rec_header r ++ headers), (gap - dropped :: newGaps), (r :: rs), ix', ticks.
    change (R ++ r :: rs) with (R ++ [r] ++ rs). rewrite app_assoc. unfold nowTime. rewrite E. split_and!; [done|done|done|done| | |].
    + by rewrite H4, Hix, <- app_assoc.
    + rewrite H5, len_app. cbn [index_add ix_offset r]. rewrite rec_bytes_len. cbn [rec_stored]. change (len (rec_header r)) with 32.
      change (len (rec_stored r)) with 0. lia.
    + rewrite H6, log_bytes_app, log_bytes_one. unfold rec_bytes. cbn [rec_stored r]. by rewrite app_nil_r, <- app_assoc.
Qed.

Lemma take_drop_lines (r1 r2 : list record) : lines_of r2 = drop (length (lines_of r1)) (lines_of (r1 ++ r2)).
Proof. by rewrite fmap_app, concat_app, drop_app_length. Qed.

(** Where the kept blocks start. *)
Lemma cut_at recs ix start :
  log limit recs ix → 0 ≤ start ≤ len ix.(ix_blocks) →
  ∃ r1 r2, ix.(ix_recs) = r1 ++ r2 ∧ Forall is_lines r2
    ∧ Forall2 (block_at (log_bytes recs)) (drop (Z.to_nat start) ix.(ix_blocks)) r2
    ∧ (if start <? len ix.(ix_blocks) then (nth_block ix.(ix_blocks) start).(cb_firstLine) else len (ix_lines ix)) = len (lines_of r1).
Proof.
  intros Hl Hst. destruct (log_blocks _ _ _ Hl) as [Hb Ht]. pose proof (log_recs_ok _ _ _ Hl) as Hr.
  destruct (tiled_split _ _ _ _ _ Ht (eq_sym (take_drop (Z.to_nat start) (ix_blocks ix)))) as (r1 & r2 & Er & T1 & T2).
  exists r1, r2. rewrite Er in Hr, Hb. apply Forall_app in Hr as [_ Hr].
  rewrite <- (take_drop (Z.to_nat start) (ix_blocks ix)) in Hb. apply Forall2_app_inv in Hb as [_ Hb]; [|by apply tiled_len in T1].
  split_and!; [done|done|done|]. destruct (Z.ltb_spec start (len (ix_blocks ix))) as [Hlt|Hge].
  - destruct (drop (Z.to_nat start) (ix_blocks ix)) as [|b rest] eqn:Ed.
    { apply (f_equal length) in Ed. rewrite length_drop in Ed. unfold len in Hlt. cbn in Ed. lia. }
    rewrite (nth_block_drop _ _ _ _ (proj1 Hst) Ed). destruct r2 as [|r r2]; [done|]. destruct T2 as [-> _]. lia.
  - apply tiled_len in T2. rewrite drop_ge in T2 by (unfold len in Hge; lia). destruct r2; [|done].
    unfold ix_lines. by rewrite Er, app_nil_r.
Qed.

(** What a rewrite leaves: a log with the first [k] lines gone. *)
Definition cut_lines (f : LineFile) (ix : index) (f' : LineFile) (e : option goerr) : Prop :=
  ∃ recs' ix' k, backed f' recs' ix' ∧ ix_lines ix' = drop k (ix_lines ix) ∧ (k ≤ length (ix_lines ix))%nat
    ∧ f'.(lf_pending) = f.(lf_pending) ∧ f'.(lf_pendingBytes) = f.(lf_pendingBytes)
    ∧ (e = None → f'.(lf_handle) = f.(lf_handle)
        ∧ f'.(lf_retentionEpoch) = f.(lf_retentionEpoch) + (if bool_decide (k = O) then 0 else 1)).

Lemma cut_nothing f recs ix f' e :
  backed f' recs ix → f'.(lf_pending) = f.(lf_pending) → f'.(lf_pendingBytes) = f.(lf_pendingBytes) →
  (e = None → f'.(lf_handle) = f.(lf_handle) ∧ f'.(lf_retentionEpoch) = f.(lf_retentionEpoch)) → cut_lines f ix f' e.
Proof.
  intros H1 H2 H3 H4. exists recs, ix, O. split_and!; try done; [lia|]. intros He. destruct (H4 He) as [-> ->]. split; [done|].
  rewrite bool_decide_true by done. lia.
Qed.

(** The new file, before it is known how the rewrite ends. *)
Lemma rewrite_parts f recs ix start :
  log limit recs ix → f.(lf_data) = log_bytes recs → in_memory f ix →
  let from := clampLineIndex start 0 (len f.(lf_blocks)) in
  let dropped := if from <? len f.(lf_blocks) then (nth_block f.(lf_blocks) from).(cb_firstLine) else f.(lf_persistedLines) in
  ∃ copied newBlocks newOffset newFirst headers newGaps ticks recs' ix' k,
    copy_blocks f.(lf_data) (drop (Z.to_nat from) f.(lf_blocks)) 0 0 = (copied, newBlocks, newOffset, newFirst)
    ∧ copy_gaps clock f dropped f.(lf_gapOffsets) = (f <| lf_ticks := ticks |>, headers, newGaps)
    ∧ log limit recs' ix' ∧ log_bytes recs' = copied ++ headers ∧ ix_lines ix' = drop k (ix_lines ix)
    ∧ (k ≤ length (ix_lines ix))%nat ∧ dropped = Z.of_nat k ∧ newBlocks = ix'.(ix_blocks) ∧ newFirst = len (ix_lines ix')
    ∧ newGaps = ix'.(ix_gaps) ∧ newOffset + len headers = ix'.(ix_offset).
Proof.
  intros Hl Hd (M1 & M2 & M3 & M4). rewrite M1, M2, M3, Hd. cbv zeta.
  pose proof (clamp_range start 0 (len (ix_blocks ix)) (len_nonneg _)) as Hs.
  set (from := clampLineIndex _ _ _) in *. destruct (cut_at recs ix from Hl Hs) as (r1 & r2 & Er & Hr2 & Hb2 & ->).
  assert (El : ix_lines ix = lines_of r1 ++ lines_of r2) by (unfold ix_lines; by rewrite Er, fmap_app, concat_app).
  destruct (copy_blocks_spec (log_bytes recs) _ r2 [] empty_index Hb2 Hr2 (log_nil _))
    as (copied & newBlocks & ix1 & E1 & L1 & B1 & R1 & G1 & D1).
  cbn [empty_index ix_offset ix_blocks ix_recs ix_gaps app] in *. change (len (ix_lines empty_index)) with 0 in E1.
  destruct (log_gaps _ _ Hl) as [Gs Gf].
  assert (El1 : ix_lines ix1 = lines_of r2) by (unfold ix_lines; by rewrite R1).
  destruct (copy_gaps_spec f (len (lines_of r1)) (ix_gaps ix) r2 ix1 (len (ix_lines ix)) Gs Gf)
    as (headers & newGaps & rs & ix2 & ticks & E2 & L2 & B2 & R2 & G2 & O2 & D2); [|apply len_nonneg|done|by rewrite G1|].
  { by rewrite El, len_app, El1. }
  assert (El2 : ix_lines ix2 = lines_of r2) by (unfold ix_lines; by rewrite R2, R1).
  exists copied, newBlocks, (ix_offset ix1), (len (ix_lines ix1)), headers, newGaps, ticks, (r2 ++ rs), ix2, (length (lines_of r1)).
  split_and!; [done|done|done|by rewrite D2, D1| | |done|by rewrite B2, B1|by rewrite El1, El2|by rewrite G2, G1|by rewrite O2].
  - by rewrite El2, El, drop_app_length.
  - rewrite El, length_app. lia.
Qed.

Lemma rewrite_spec f recs ix start f' e :
  backed f recs ix → f.(lf_handle) ≠ HNil → rewriteBlocks clock disk_rewrite f start = (f', e) → cut_lines f ix f' e.
Proof.
  intros (Hl & Hd & Hm) Hh. specialize (Hm Hh). unfold rewriteBlocks.
  destruct (rewrite_parts f recs ix start Hl Hd Hm)
    as (copied & newBlocks & off & first & headers & gaps & ticks & recs' & ix' & k & -> & -> & L' & D' & El & Hk & -> & E1 & E2 & E3 & E4).
  assert (Hold : ∀ h n, cut_lines f ix (f <| lf_ticks := ticks |> <| lf_ios := n |> <| lf_handle := h |>) (Some ErrDisk)).
  { intros h n. eapply cut_nothing; [|done..]. split_and!; [done|done|]. intros _. exact Hm. }
  cbn [lf_handle lf_ios set_field]. destruct (bool_decide (lf_handle f = HOpen)) eqn:Eh.
  2: { intros [= <- <-]. apply (Hold f.(lf_handle) (S f.(lf_ios))). }
  apply bool_decide_eq_true in Eh. rewrite E1, E2, E3, E4.
  destruct (disk_rewrite _) as [| | |reopened| |]; intros [= <- <-].
  - exists recs', ix', k. split_and!; [|done|done|by destruct (0 <? _)..|].
    + split_and!; [done|by destruct (0 <? _)|]. intros _. by destruct (0 <? _).
    + intros _. destruct k; [rewrite bool_decide_true by done|rewrite bool_decide_false by done]; split; try done. by rewrite Z.add_0_r.
  - apply (Hold f.(lf_handle) (S f.(lf_ios))).
  - apply (Hold HClosed (S f.(lf_ios))).
  - destruct reopened; [apply (Hold f.(lf_handle) (S f.(lf_ios)))|apply (Hold HNil (S f.(lf_ios)))].
  - exists recs', ix', k. split_and!; try done.
  - exists recs', ix', k. by split_and!.
Qed.

Lemma enforce_spec f recs ix f' e :
  backed f recs ix → enforceLimit clock disk_rewrite options f = (f', e) → cut_lines f ix f' e.
Proof.
  intros Hb. unfold enforceLimit. destruct (lf_handle f) eqn:Eh; [| |intros [= <- <-]; by eapply cut_nothing].
  all: assert (Hh : lf_handle f ≠ HNil) by (by rewrite Eh).
  all: destruct (0 <? MaxAge options); unfold nowTime; cbn [negb andb].
  all: match goal with |- context [if ?b then (?f1, None) else _] => destruct b; [intros [= <- <-]; by eapply (cut_nothing f recs)|] end.
  all: intros E; apply (rewrite_spec _ recs ix) in E; done.
Qed.

(** ** Flushing *)
Lemma compress_ok raw codec stored lines :
  raw = encodeCompactLines lines → raw ≠ [] → compressBlock options raw = (codec, stored) →
  stored ≠ [] ∧ len stored ≤ len raw ∧ known_codec codec = true
  ∧ unpack_block (block_of 0 0 (RLines lines codec stored 0)) stored = Ok raw.
Proof.
  intros Er Hr. unfold compressBlock. destruct (CompressionOf options).
  - rewrite (proj2 (Z.geb_le _ _)) by lia. intros [= <- <-]. by split_and!; try lia.
  - destruct (Z.geb_spec (len (zstd_encode raw)) (len raw)); intros [= <- <-]; [by split_and!; try lia|].
    split_and!; [by apply zstd_nonempty|lia|done|]. unfold unpack_block. cbn. apply zstd_round.
  - destruct (Z.geb_spec (len (s2_encode raw)) (len raw)); intros [= <- <-]; [by split_and!; try lia|].
    split_and!; [apply s2_nonempty|lia|done|]. unfold unpack_block. cbn. rewrite s2_length, <- Er, Z.eqb_refl. apply s2_round.
Qed.

(** From holding [lines] to holding what is left after the first [k] of them. *)
Definition drops (f : LineFile) (lines : list Line) (f' : LineFile) (e : option goerr) : Prop :=
  ∃ k, (k ≤ length lines)%nat ∧ holds f' (drop k lines)
    ∧ (e = None → f'.(lf_handle) = f.(lf_handle)
        ∧ (k = O ∧ f'.(lf_retentionEpoch) = f.(lf_retentionEpoch) ∨ f.(lf_retentionEpoch) < f'.(lf_retentionEpoch))).

Lemma drops_none f lines f' e :
  holds f' lines → (e = None → f'.(lf_handle) = f.(lf_handle) ∧ f'.(lf_retentionEpoch) = f.(lf_retentionEpoch)) →
  drops f lines f' e.
Proof. intros H1 H2. exists O. split_and!; [lia|done|]. intros He. destruct (H2 He) as [-> ->]. split; [done|]. by left. Qed.

Lemma drops_cut f recs ix f' e : backed f recs ix → pending_ok f → cut_lines f ix f' e → drops f (ix_lines ix ++ f.(lf_pending)) f' e.
Proof.
  intros _ Hp (recs' & ix' & k & Hb & El & Hk & E1 & E2 & He). exists k. split_and!.
  - rewrite length_app. lia.
  - exists recs', ix'. split_and!; [done|unfold pending_ok; by rewrite E1, E2|]. by rewrite El, E1, drop_app_le.
  - intros Hn. destruct (He Hn) as [H1 H2]. split; [done|]. destruct k; [left|right].
    + rewrite H2, bool_decide_true by done. split; [done|lia].
    + rewrite H2, bool_decide_false by done. lia.
Qed.

Lemma drops_enforce f lines f' e : holds f lines → enforceLimit clock disk_rewrite options f = (f', e) → drops f lines f' e.
Proof. intros (recs & ix & Hb & Hp & ->) E. eapply drops_cut; [done|done|]. by eapply enforce_spec. Qed.

Lemma drops_trans f1 lines f2 f3 e more lines2 :
  (∀ k, lines2 k = drop k lines ++ more) →
  (∃ k, (k ≤ length lines)%nat ∧ drops f2 (lines2 k) f3 e
    ∧ f2.(lf_handle) = f1.(lf_handle) ∧ (k = O ∧ f2.(lf_retentionEpoch) = f1.(lf_retentionEpoch) ∨ f1.(lf_retentionEpoch) < f2.(lf_retentionEpoch))) →
  drops f1 (lines ++ more) f3 e.
Proof.
  intros E2 (k & Hk & (k2 & Hk2 & Hh & He) & Eh & Hep). rewrite E2 in Hk2, Hh. exists (k + k2)%nat.
  rewrite length_app in Hk2. rewrite length_drop in Hk2. split_and!; [rewrite length_app; lia| |].
  - rewrite <- drop_drop, drop_app_le by done. exact Hh.
  - intros Hn. destruct (He Hn) as [-> [[-> ->]|Hlt]]; (split; [done|]).
    + destruct Hep as [[-> ->]|?]; [by left|by right].
    + right. destruct Hep as [[_ Hq]|?]; lia.
Qed.

Lemma holds_ticks f lines n m : holds f lines → holds (f <| lf_ticks := n |> <| lf_ios := m |>) lines.
Proof. intros (recs & ix & (Hl & Hd & Hm) & Hp & El). exists recs, ix. split_and!; try done. Qed.

(** A flush does nothing, fails to write, or writes a record and enforces the limits. *)
Lemma flush_cases f lines f' e :
  holds f lines → flushPending clock disk_write disk_rewrite options f = (f', e) →
  (f' = f ∧ e = None ∧ f.(lf_pending) = [])
  ∨ (∃ n m e1, f' = f <| lf_ticks := n |> <| lf_ios := m |> ∧ e = Some e1)
  ∨ (∃ f2, holds f2 lines ∧ f2.(lf_pending) = [] ∧ f.(lf_handle) = HOpen ∧ f2.(lf_handle) = HOpen
      ∧ f2.(lf_retentionEpoch) = f.(lf_retentionEpoch) ∧ enforceLimit clock disk_rewrite options f2 = (f', e)).
Proof.
  intros (recs & ix & Hb & (Hp1 & Hp2 & Hp3) & ->). unfold flushPending.
  destruct (lf_pending f) as [|line0 rest] eqn:Epe; [intros [= <- <-]; by left|]. cbn [is_empty].
  rewrite <- Epe in *. set (raw := encodeCompactLines (lf_pending f)). destruct (compressBlock options raw) as [codec stored] eqn:Ec.
  unfold nowTime. set (f0 := f <| lf_ticks := S f.(lf_ticks) |>). set (t := Unix (clock f.(lf_ticks))).
  destruct (encoded_pending (lf_pending f)) as (N1 & N2 & N3). fold raw in N2, N3. rewrite <- Hp2 in N1, N2.
  assert (Hraw : raw ≠ []) by (intros E; rewrite E in N3; done).
  destruct (compress_ok raw codec stored _ eq_refl Hraw Ec) as (Hst & Hle & Hk & Hu).
  set (r := RLines (lf_pending f) codec stored t).
  assert (Hr : rec_ok limit ix r).
  { split; [|apply unix_ok]. split_and!; try done; [by rewrite Epe| |unfold fits; lia|fold raw; lia].
    eapply Forall_impl; [exact Hp1|]. by intros x [Hx _]. }
  destruct (write_record _ _ _ _) as [f1 e1] eqn:Ew. eapply (write_record_spec f0 recs ix) in Ew as (n & Ew); [|exact Hb|done..].
  destruct e1 as [e1|]; [intros [= <- <-]; right; left; rewrite Ew; by exists (S f.(lf_ticks)), n, e1|]. destruct Ew as [Eh ->]. intros E. right; right.
  match type of E with enforceLimit _ _ _ ?g = _ => set (f2 := g) in * end. exists f2. split_and!; try done.
  destruct Hb as (Hl & Hd & Hm). destruct (Hm ltac:(change (lf_handle f0 ≠ HNil); rewrite Eh; done)) as (M1 & M2 & M3 & M4).
  assert (Eix : ix_lines (index_add ix r) = ix_lines ix ++ lf_pending f).
  { unfold ix_lines. cbn [index_add ix_recs r]. rewrite fmap_app, concat_app. cbn. by rewrite app_nil_r. }
  exists (recs ++ [r]), (index_add ix r). split; [|split].
  - apply backed_add; [done|done| |].
    + change (lf_data f2) with (lf_data f ++ rec_header r ++ stored). by rewrite Hd.
    + split_and!; [|by rewrite Eix, len_app, <- M2|exact M3|].
      * change (lf_blocks f2) with (lf_blocks f ++ [mkBlock (lf_writeOffset f) (lf_persistedLines f) (len (lf_pending f)) (u32 (len raw))
          (u32 (len stored)) codec (crc32 raw) t]). pose proof (len_nonneg stored).
        rewrite !u32_small, M1, M2, M4 by lia. done.
      * change (lf_writeOffset f2) with (lf_writeOffset f + (32 + len stored)). rewrite M4.
        cbn [index_add ix_offset r]. by rewrite rec_bytes_len.
  - split_and!; [constructor|done|change (0 + 10 ≤ limit); unfold compressedBlockTargetBytes in limit_ok; lia].
  - rewrite Eix. change (lf_pending f2) with (@nil Line). by rewrite app_nil_r.
Qed.

Lemma enforce_pending f lines f' e :
  holds f lines → enforceLimit clock disk_rewrite options f = (f', e) → f'.(lf_pending) = f.(lf_pending).
Proof. intros (recs & ix & Hb & _ & _) E. apply (enforce_spec _ _ _ _ _ Hb) in E. by destruct E as (_ & _ & _ & _ & _ & _ & -> & _). Qed.

(** What holds after a step that keeps the lines, the handle and the epoch holds before it. *)
Lemma drops_before f f2 lines f' e :
  f2.(lf_handle) = f.(lf_handle) → f2.(lf_retentionEpoch) = f.(lf_retentionEpoch) → drops f2 lines f' e → drops f lines f' e.
Proof. intros E1 E2 (k & Hk & Hh & He). exists k. split_and!; [done|done|]. by rewrite <- E1, <- E2. Qed.

Lemma flush_spec f lines f' e :
  holds f lines → flushPending clock disk_write disk_rewrite options f = (f', e) →
  drops f lines f' e ∧ (e = None → f'.(lf_pending) = []).
Proof.
  intros Hh E. destruct (flush_cases f lines f' e Hh E) as [(-> & -> & Hp)|[(n & m & e1 & -> & ->)|(f2 & Hh2 & Hp2 & H1 & H2 & H3 & E2)]].
  - split; [by apply drops_none|done].
  - split; [|done]. apply drops_none; [|done]. by apply holds_ticks.
  - split; [|intros _; by rewrite (enforce_pending _ _ _ _ Hh2 E2)].
    apply (drops_before f f2); [by rewrite H1, H2|done|]. by apply drops_enforce.
Qed.

(** ** Appending *)

(** From holding [lines] to holding them with the first of [new], less what was dropped; without an error all of [new]. *)
Definition appends (f : LineFile) (lines new : list Line) (f' : LineFile) (e : option goerr) : Prop :=
  ∃ part rest, new = part ++ rest ∧ (e = None → rest = []) ∧ drops f (lines ++ part) f' e.

Lemma appends_nothing f lines f' e : drops f lines f' e → appends f lines [] f' e.
Proof. intros Hd. exists [], []. split_and!; try done. by rewrite app_nil_r. Qed.

Lemma holds_pending f lines line :
  holds f lines → line_ok line →
  (f.(lf_pending) = [] ∨ f.(lf_pendingBytes) + compactLineEncodedSize line ≤ compressedBlockTargetBytes) →
  holds (f <| lf_pending := f.(lf_pending) ++ [line] |>
           <| lf_pendingBytes := f.(lf_pendingBytes) + compactLineEncodedSize line |>) (lines ++ [line]).
Proof.
  intros (recs & ix & Hb & (P1 & P2 & P3) & ->) Hline Hsize. exists recs, ix. split; [exact Hb|split; [split_and!|]].
  - apply Forall_app. split; [done|]. by constructor.
  - change (lf_pendingBytes f + compactLineEncodedSize line = pending_size (lf_pending f ++ [line])). by rewrite pending_size_snoc, P2.
  - change (lf_pendingBytes f + compactLineEncodedSize line + 10 ≤ limit). destruct Hsize as [E|]; [|lia].
    rewrite P2, E. destruct Hline as [_ Hs]. unfold pending_size. cbn [foldl]. lia.
  - change (lf_pending (f <| lf_pending := _ |> <| lf_pendingBytes := _ |>)) with (lf_pending f ++ [line]). by rewrite app_assoc.
Qed.

Lemma append_line_spec f lines line f' e :
  holds f lines → line_ok line → append_line clock disk_write disk_rewrite options f line = (f', e) → appends f lines [line] f' e.
Proof.
  intros Hh Hline. unfold append_line.
  set (full := negb _ && _). destruct (if full then _ else _) as [f1 e1] eqn:E1.
  assert (H1 : drops f lines f1 e1 ∧ (e1 = None → lf_pending f1 = [] ∨ lf_pendingBytes f1 + compactLineEncodedSize line ≤ compressedBlockTargetBytes)).
  { destruct full eqn:Ef; unfold full in Ef.
    - destruct (flush_spec _ _ _ _ Hh E1) as [Hd Hp]. split; [done|]. intros He. left. by apply Hp.
    - injection E1 as <- <-. split; [by apply drops_none|]. intros _. destruct (lf_pending f); [by left|right]. cbn in Ef. lia. }
  clear E1. destruct H1 as [Hd1 Hp1]. destruct e1 as [e1|].
  { intros [= <- <-]. exists [], [line]. split_and!; [done|done|]. by rewrite app_nil_r. }
  destruct Hd1 as (k & Hk & Hh1 & He1). destruct (He1 eq_refl) as [Eh Ep].
  pose proof (holds_pending _ _ _ Hh1 Hline (Hp1 eq_refl)) as Hh2. set (f2 := f1 <| lf_pending := _ |> <| lf_pendingBytes := _ |>) in *.
  assert (Hd2 : ∀ f3 e3, drops f2 (drop k lines ++ [line]) f3 e3 → appends f lines [line] f3 e3).
  { intros f3 e3 Hd. exists [line], []. split_and!; [done|done|]. apply (drops_trans f lines f2 f3 e3 [line] (λ k, drop k lines ++ [line])); [done|].
    exists k. by split_and!. }
  destruct (_ >=? _); [|intros [= <- <-]; apply Hd2; by apply drops_none].
  intros E3. apply Hd2. by apply (flush_spec _ _ _ _ Hh2) in E3 as [? _].
Qed.

Lemma append_lines_spec news f lines f' e :
  holds f lines → Forall line_ok news → append_lines clock disk_write disk_rewrite options f news = (f', e) → appends f lines news f' e.
Proof.
  revert f lines. induction news as [|line news IH]; intros f lines Hh Hok; cbn [append_lines].
  { intros [= <- <-]. apply appends_nothing. by apply drops_none. }
  apply Forall_cons in Hok as [Hline Hok]. destruct (append_line _ _ _ _ f line) as [f1 e1] eqn:E1.
  apply (append_line_spec _ _ _ _ _ Hh Hline) in E1 as (part & rest & Epr & He1 & Hd). destruct e1 as [e1|].
  { intros [= <- <-]. exists part, (rest ++ news). split_and!; [|done|done]. by rewrite app_assoc, <- Epr. }
  rewrite (He1 eq_refl), app_nil_r in Epr. subst part. destruct Hd as (k & Hk & Hh1 & Hn). destruct (Hn eq_refl) as [Eh Ep].
  intros E2. destruct (IH _ _ Hh1 Hok E2) as (part & rest2 & Epr2 & He2 & Hd2).
  exists (line :: part), rest2. split_and!; [by rewrite Epr2|done|].
  change (lines ++ line :: part) with (lines ++ [line] ++ part). rewrite app_assoc.
  apply (drops_trans f (lines ++ [line]) f1 f' e part (λ k, drop k (lines ++ [line]) ++ part)); [done|]. exists k. by split_and!.
Qed.

(** ** Markers *)

(** A header written behind an empty pending list is a record of its own. *)
Lemma marker_spec f recs ix r f' e :
  backed f recs ix → pending_ok f → f.(lf_pending) = [] → rec_ok limit ix r → rec_stored r = [] →
  write_marker disk_write f (rec_header r) = (f', e) →
  match e with
  | Some _ => holds f' (ix_lines ix)
  | None =>
      f.(lf_handle) = HOpen ∧ f'.(lf_handle) = HOpen ∧ f'.(lf_retentionEpoch) = f.(lf_retentionEpoch)
      ∧ f'.(lf_gapOffsets) = f.(lf_gapOffsets) ∧ f'.(lf_pending) = [] ∧ f'.(lf_pendingBytes) = f.(lf_pendingBytes)
      ∧ f'.(lf_data) = log_bytes recs ++ rec_bytes r ∧ f'.(lf_blocks) = ix.(ix_blocks)
      ∧ f'.(lf_persistedLines) = len (ix_lines ix) ∧ f'.(lf_writeOffset) = ix.(ix_offset) + len (rec_bytes r)
      ∧ f.(lf_gapOffsets) = ix.(ix_gaps)
  end.
Proof.
  intros Hb Hp Ep Hr Es E. apply (write_marker_spec _ _ _ _ _ _ Hb) in E as (n & E); [|by destruct r].
  destruct Hb as (Hl & Hd & Hm). destruct e as [e|].
  - rewrite E. exists recs, ix. split; [by split_and!|split; [done|]]. change (ix_lines ix = ix_lines ix ++ lf_pending f). by rewrite Ep, app_nil_r.
  - destruct E as [Eh ->]. destruct (Hm ltac:(by rewrite Eh)) as (M1 & M2 & M3 & M4). unfold rec_bytes. rewrite Es, app_nil_r.
    split_and!; try done.
    + change (lf_data f ++ rec_header r = log_bytes recs ++ rec_header r). by rewrite Hd.
    + change (lf_writeOffset f + len (rec_header r) = ix_offset ix + len (rec_header r)). by rewrite M4.
Qed.

(** Every operation after a flush: the flush, and what it does to the rest. *)
Lemma after_flush f lines f1 e1 f' e :
  holds f lines → flushPending clock disk_write disk_rewrite options f = (f1, e1) →
  (∀ lines1, e1 = None → holds f1 lines1 → (∃ k, lines1 = drop k lines) → f1.(lf_pending) = [] → drops f1 lines1 f' e) →
  (∀ e2, e1 = Some e2 → f' = f1 ∧ e = Some e2) → drops f lines f' e.
Proof.
  intros Hh E Hok Herr. apply (flush_spec _ _ _ _ Hh) in E as [Hd Hp]. destruct e1 as [e1|].
  { destruct (Herr _ eq_refl) as [-> ->]. destruct Hd as (k & Hk & Hh1 & _). by exists k. }
  destruct Hd as (k & Hk & Hh1 & Hn). destruct (Hn eq_refl) as [Eh Ep]. rewrite <- (app_nil_r lines).
  apply (drops_trans f lines f1 f' e [] (λ k, drop k lines)); [intros; by rewrite app_nil_r|]. exists k.
  split_and!; try done. apply Hok; try done; [by exists k|by apply Hp].
Qed.

Lemma marker_holds f recs ix r f3 :
  backed f recs ix → pending_ok f → f.(lf_pending) = [] → rec_ok limit ix r → rec_stored r = [] →
  write_marker disk_write f (rec_header r) = (f3, None) →
  let f4 := f3 <| lf_gapOffsets := (index_add ix r).(ix_gaps) |> in
  holds f4 (ix_lines ix) ∧ f4.(lf_handle) = HOpen ∧ f4.(lf_handle) = f.(lf_handle) ∧ f4.(lf_retentionEpoch) = f.(lf_retentionEpoch).
Proof.
  intros Hb Hp Epe Hr Es E3. destruct (marker_spec f recs ix r f3 None Hb Hp Epe Hr Es E3) as (H1 & H2 & H3 & H4 & H5 & H6 & H7 & H8 & H9 & H10 & H11).
  intros f4. split; [|split; [exact H2|split; [exact (eq_trans H2 (eq_sym H1))|exact H3]]].
  assert (Elines : ix_lines (index_add ix r) = ix_lines ix).
  { destruct r as [lines codec stored created| |]; [|done..]. destruct Hr as [(_ & _ & _ & _ & Hst & _) _]. by rewrite <- Es in Hst. }
  destruct Hb as (Hl & Hd & Hm). exists (recs ++ [r]), (index_add ix r). split; [|split].
  - apply backed_add; [done|done|done|]. split_and!; [|by rewrite Elines|done|].
    + destruct r; [|done..]. destruct Hr as [(_ & _ & _ & _ & Hst & _) _]. by rewrite <- Es in Hst.
    + change (lf_writeOffset f3 = ix_offset (index_add ix r)). rewrite H10. by destruct r.
  - change (pending_ok f3). unfold pending_ok. rewrite H5, H6. destruct Hp as (Q1 & Q2 & Q3). rewrite Epe in Q1, Q2. by split_and!.
  - change (lf_pending f4) with (lf_pending f3). by rewrite Elines, H5, app_nil_r.
Qed.

(** A marker changes nothing that is held, and what follows it is the enforcement of the limits. *)
Definition settles (f : LineFile) (lines : list Line) (f' : LineFile) (e : option goerr) : Prop :=
  (holds f' lines ∧ f'.(lf_handle) = f.(lf_handle) ∧ f'.(lf_retentionEpoch) = f.(lf_retentionEpoch)
     ∧ f'.(lf_writeOffset) = f.(lf_writeOffset))
  ∨ ∃ f4, holds f4 lines ∧ f4.(lf_handle) = HOpen ∧ f4.(lf_handle) = f.(lf_handle)
      ∧ f4.(lf_retentionEpoch) = f.(lf_retentionEpoch) ∧ enforceLimit clock disk_rewrite options f4 = (f', e).

Lemma settles_drops f lines f' e : settles f lines f' e → drops f lines f' e.
Proof.
  intros [(Hh & H1 & H2 & _)|(f4 & Hh & _ & H1 & H2 & E)]; [by apply drops_none|].
  apply (drops_before f f4); [done|done|]. by apply drops_enforce.
Qed.

(** The write of one marker. *)
Lemma marker_settles f recs ix r f2 f3 e3 f' e :
  backed f recs ix → pending_ok f → f.(lf_pending) = [] → rec_ok limit ix r → rec_stored r = [] →
  (∃ n, f2 = f <| lf_ticks := n |>) → write_marker disk_write f2 (rec_header r) = (f3, e3) →
  match e3 with
  | Some e' => f' = f3
  | None => enforceLimit clock disk_rewrite options (f3 <| lf_gapOffsets := (index_add ix r).(ix_gaps) |>) = (f', e)
  end → settles f (ix_lines ix) f' e.
Proof.
  intros Hb Hp Epe Hr Es (n & ->) Ew E. set (f2 := f <| lf_ticks := n |>) in *.
  assert (Hb2 : backed f2 recs ix) by exact Hb. destruct e3 as [e3|].
  - subst f'. left. split; [exact (marker_spec f2 recs ix r f3 (Some e3) Hb2 Hp Epe Hr Es Ew)|].
    apply (write_marker_spec _ _ _ _ _ _ Hb2) in Ew as (m & ->); [done|by destruct r].
  - right. destruct (marker_holds f2 recs ix r f3 Hb2 Hp Epe Hr Es Ew) as (Hh4 & H1 & H2 & H3). by eexists.
Qed.

Lemma boundary_settles f lines f' e :
  holds f lines → f.(lf_pending) = [] → boundary_marker clock disk_write disk_rewrite options f = (f', e) → settles f lines f' e.
Proof.
  intros (recs & ix & Hb & Hp & ->) Epe. rewrite Epe, app_nil_r. unfold boundary_marker, nowTime.
  set (t := Unix (clock f.(lf_ticks))). set (f2 := f <| lf_ticks := S f.(lf_ticks) |>). destruct (write_marker _ _ _) as [f3 e3] eqn:E3. intros E.
  apply (marker_settles f recs ix (RBoundary t) f2 f3 e3 f' e Hb Hp Epe (unix_ok _) eq_refl); [by eexists|exact E3|].
  destruct e3 as [e3|]; [by injection E|]. rewrite <- E. f_equal.
  assert (Hb2 : backed f2 recs ix) by exact Hb.
  destruct (marker_spec f2 recs ix (RBoundary t) f3 None Hb2 Hp Epe (unix_ok _) eq_refl E3) as (_ & _ & _ & H4 & _ & _ & _ & _ & _ & _ & H11).
  cbn [index_add ix_gaps]. rewrite <- H11, <- H4. by destruct f3.
Qed.

Lemma marker_closed f header f' e :
  f.(lf_handle) ≠ HOpen → header ≠ [] → write_marker disk_write f header = (f', e) → f' = f ∧ ∃ e', e = Some e'.
Proof.
  intros Hh Hne. unfold write_marker, writeAllAtEnd. destruct header; [done|]. cbn [is_empty].
  destruct f as [[] ? ? ? ? ? ? ? ? ? ?]; cbn in *; [done| |]; intros [= <- <-]; split; eauto.
Qed.

Lemma gap_settles f lines f' e :
  holds f lines → len lines < 2 ^ 32 → f.(lf_pending) = [] → gap_marker clock disk_write disk_rewrite options f = (f', e) →
  settles f lines f' e.
Proof.
  intros Hh Hlen Epe. pose proof Hh as (recs & ix & Hb & Hp & ->). unfold gap_marker, nowTime.
  case_bool_decide as Hlast; [intros [= <- <-]; by left|].
  set (t := Unix (clock f.(lf_ticks))). set (f2 := f <| lf_ticks := S f.(lf_ticks) |>). destruct (write_marker _ _ _) as [f3 e3] eqn:E3. intros E.
  destruct (decide (lf_handle f = HOpen)) as [Eh|Eh].
  2: { apply (marker_closed f2) in E3 as [-> [e4 ->]]; [|done|done]. injection E as <- <-. left. split; [|done].
       exists recs, ix. split; [exact Hb|split; [exact Hp|reflexivity]]. }
  pose proof Hb as (Hl & Hd & Hm). destruct (Hm ltac:(by rewrite Eh)) as (M1 & M2 & M3 & M4).
  assert (Eo : LineCount f = len (ix_lines ix)) by (unfold LineCount; rewrite M2, Epe; unfold len; cbn; lia).
  rewrite Epe, app_nil_r in *. rewrite Eo, M3 in *. assert (Hr : rec_ok limit ix (RGap (len (ix_lines ix)) t)).
  { pose proof (len_nonneg (ix_lines ix)). split_and!; [lia|lia|done| |apply unix_ok].
    intros g Hg. destruct (log_gaps _ _ Hl) as [_ Hf]. rewrite last_lookup in Hg. apply list_elem_of_lookup_2 in Hg.
    eapply Forall_forall in Hf; [|exact Hg]. lia. }
  apply (marker_settles f recs ix (RGap (len (ix_lines ix)) t) f2 f3 e3 f' e Hb Hp Epe Hr eq_refl); [by eexists|exact E3|].
  destruct e3 as [e3|]; [by injection E|]. rewrite <- E. f_equal. assert (Hb2 : backed f2 recs ix) by exact Hb.
  destruct (marker_spec f2 recs ix (RGap (len (ix_lines ix)) t) f3 None Hb2 Hp Epe Hr eq_refl E3) as (_ & _ & _ & H4 & _ & _ & _ & _ & _ & _ & H11).
  cbn [index_add ix_gaps]. rewrite bool_decide_false by done. by rewrite H4, H11.
Qed.

Lemma boundary_spec f lines f' e :
  holds f lines → AppendBoundary clock disk_write disk_rewrite options f = (f', e) → drops f lines f' e.
Proof.
  intros Hh. unfold AppendBoundary. destruct (flushPending _ _ _ _ f) as [f1 e1] eqn:E1. intros E.
  apply (after_flush _ _ _ _ f' e Hh E1); [|intros e2 ->; by injection E as <- <-].
  intros lines1 -> Hh1 _ Epe. by apply settles_drops, boundary_settles.
Qed.

Lemma gap_spec f lines f' e :
  holds f lines → len lines < 2 ^ 32 → AppendGap clock disk_write disk_rewrite options f = (f', e) → drops f lines f' e.
Proof.
  intros Hh Hlen. unfold AppendGap. destruct (flushPending _ _ _ _ f) as [f1 e1] eqn:E1. intros E.
  apply (after_flush _ _ _ _ f' e Hh E1); [|intros e2 ->; by injection E as <- <-].
  intros lines1 -> Hh1 [k ->] Epe. apply settles_drops, gap_settles; try done. unfold len in *. rewrite length_drop. lia.
Qed.

Lemma prune_spec f lines f' e :
  holds f lines → PruneRetention clock disk_write disk_rewrite options f = (f', e) → drops f lines f' e.
Proof.
  intros Hh. unfold PruneRetention. destruct (lf_handle f) eqn:Eh; [| |intros [= <- <-]; by apply drops_none].
  all: destruct (flushPending _ _ _ _ f) as [f1 e1] eqn:E1; intros E.
  all: apply (after_flush _ _ _ _ f' e Hh E1); [|intros e2 ->; by injection E as <- <-].
  all: intros lines1 -> Hh1 _ _; by apply drops_enforce.
Qed.
End writing.
