(* ===== verification/HistFileTheorems.v ===== *)
(** * Opening a block file, whole or cut by a crash *)
From S2P Require Import Prelude GoStd HistLine HistCodec HistCodecTheorems HistFile HistFileRead HistFileWrite.
Local Open Scope Z_scope.
Local Open Scope bool_scope.
Local Open Scope list_scope.

Section recovery.
Context `{Codecs, !CodecLaws}.
Context (limit : Z) (limit_ok : compressedBlockTargetBytes + 10 ≤ limit ≤ compressedBlockMaxRawBytes).

Lemma log_prefix l1 l2 ix : log limit (l1 ++ l2) ix → ∃ ix1, log limit l1 ix1.
Proof.
  revert ix. induction l2 as [|r l2 IH] using rev_ind; intros ix Hl; [rewrite app_nil_r in Hl; by exists ix|].
  rewrite app_assoc in Hl. inversion Hl as [Hn|recs ix1 r' Hl1 Hr Heq]; [by destruct (l1 ++ l2)|].
  apply app_inj_tail in Heq as [-> ->]. by eapply IH.
Qed.

Lemma log_inv recs r ix : log limit (recs ++ [r]) ix → ∃ ix1, log limit recs ix1 ∧ rec_ok limit ix1 r ∧ ix = index_add ix1 r.
Proof.
  intros Hl. inversion Hl as [Hn|recs' ix1 r' Hl1 Hr Heq]; [by destruct recs|]. apply app_inj_tail in Heq as [-> ->]. by exists ix1.
Qed.

Lemma log_fun recs ix1 ix2 : log limit recs ix1 → log limit recs ix2 → ix1 = ix2.
Proof.
  revert ix1 ix2. induction recs as [|r recs IH] using rev_ind; intros ix1 ix2 H1 H2.
  - inversion H1 as [|? ? ? ? ? E]; [|by destruct recs]. inversion H2 as [|? ? ? ? ? E]; [done|by destruct recs].
  - apply log_inv in H1 as (i1 & L1 & _ & ->). apply log_inv in H2 as (i2 & L2 & _ & ->). by rewrite (IH i1 i2).
Qed.

(** What the loop has collected after a log. *)
Definition scanned (f : LineFile) (ix : index) : LineFile :=
  f <| lf_blocks := ix.(ix_blocks) |> <| lf_persistedLines := len (ix_lines ix) |> <| lf_gapOffsets := ix.(ix_gaps) |>.

(** The header of a valid record. *)
Definition rec_kind (r : record) : Z := match r with RLines _ _ _ _ => 1 | RBoundary _ => 2 | RGap _ _ => 3 end.
Definition rec_fields (r : record) : BlockHeader :=
  match r with
  | RLines lines codec stored created =>
      mkHeader 1 codec (len lines) (len (encodeCompactLines lines)) (len stored) (crc32 (encodeCompactLines lines)) created
  | RBoundary created => mkHeader 2 0 0 0 0 0 created
  | RGap gap created => mkHeader 3 0 gap 0 0 0 created
  end.

Lemma rec_parsed ix r : rec_ok limit ix r → parseCompressedBlockHeader (rec_header r) = Ok (rec_fields r).
Proof.
  unfold compressedBlockMaxRawBytes, compressedBlockTargetBytes in limit_ok. destruct r as [lines codec stored created|created|gap created]; cbn [rec_ok rec_header rec_fields].
  - intros [(Hn & Hs & Hf & Hl & Hst & Hle & Hc & Hu) Ht]. pose proof (len_nonneg lines). pose proof (len_nonneg stored).
    pose proof (len_nonneg (encodeCompactLines lines)). destruct (encoded_pending lines) as (_ & _ & _).
    assert (len lines ≤ len (encodeCompactLines lines)).
    { rewrite encode_lines_concat, len_app. pose proof (concat_len line_bytes lines line_bytes_nonempty).
      pose proof (put_uvarint_nonempty 9 (u64 (len lines))). lia. }
    rewrite header_parsed by (done || lia || apply crc32_range). unfold compressedBlockMaxRawBytes.
    replace (_ || _) with false by lia. by rewrite i64_small.
  - intros Ht. rewrite header_parsed by done. cbn. by rewrite i64_small.
  - intros (Hg & Hg2 & _ & Ht). rewrite header_parsed by (done || lia). cbn. by rewrite i64_small.
Qed.

(** One turn of the loop. *)
Lemma recover_step fuel f recs ix r more :
  log limit recs ix → rec_ok limit ix r → f.(lf_data) = log_bytes recs ++ rec_bytes r ++ more →
  recover_loop (S fuel) (scanned f ix) ix.(ix_offset) = recover_loop fuel (scanned f (index_add ix r)) (index_add ix r).(ix_offset).
Proof.
  intros Hl Hr Hd. cbn [recover_loop]. change (lf_data (scanned f ix)) with (lf_data f). rewrite (log_offset _ _ _ Hl).
  assert (Esize : len (lf_data f) = len (log_bytes recs) + (32 + len (rec_stored r)) + len more) by (rewrite Hd, !len_app, rec_bytes_len; lia).
  pose proof (len_nonneg more). pose proof (len_nonneg (rec_stored r)). rewrite Esize. unfold compressedBlockHeaderSize.
  replace (_ <=? _) with true by lia.
  assert (slice (len (log_bytes recs)) (len (log_bytes recs) + 32) (lf_data f) = rec_header r) as ->.
  { rewrite Hd. unfold rec_bytes. rewrite <- app_assoc. replace 32 with (len (rec_header r)) by (by destruct r). apply slice_app_mid. }
  rewrite (rec_parsed ix r Hr). cbn [result_bind].
  assert (Est : bh_storedLen (rec_fields r) = len (rec_stored r)) by (by destruct r). rewrite Est.
  replace (_ >? _) with false by lia.
  assert (Eoff : ix_offset (index_add ix r) = len (log_bytes recs) + 32 + len (rec_stored r)).
  { rewrite <- (log_offset _ _ _ Hl). destruct r; cbn [index_add ix_offset]; rewrite rec_bytes_len; lia. }
  rewrite Eoff. destruct r as [lines codec stored created|created|gap created]; cbn [rec_fields bh_kind bh_lineCount bh_rawLen bh_storedLen bh_codec bh_checksum bh_createdAt].
  - cbn [Z.eqb compressedBlockKindLines Pos.eqb]. destruct Hr as [(Hn & _ & _ & _ & Hst & Hle & _) _].
    apply nonempty_len in Hn. apply nonempty_len in Hst. cbn [rec_stored] in *.
    replace (len lines =? 0) with false by lia. replace (len stored =? 0) with false by lia.
    replace (len (encodeCompactLines lines) =? 0) with false by lia. cbn [orb]. f_equal.
    assert (ix_lines (index_add ix (RLines lines codec stored created)) = ix_lines ix ++ lines) as Eix.
    { unfold ix_lines. cbn [index_add ix_recs]. rewrite fmap_app, concat_app. cbn. by rewrite app_nil_r. }
    unfold scanned. rewrite Eix, len_app. cbn [index_add ix_blocks ix_gaps block_of]. rewrite (log_offset _ _ _ Hl). by destruct f.
  - cbn. reflexivity.
  - cbn [Z.eqb compressedBlockKindLines compressedBlockKindBoundary compressedBlockKindGap compressedBlockCodecRaw Pos.eqb negb orb].
    destruct Hr as (Hg & _). change (lf_persistedLines (scanned f ix)) with (len (ix_lines ix)).
    replace (gap >? len (ix_lines ix)) with false by lia. f_equal. unfold scanned. cbn [index_add ix_gaps ix_blocks].
    change (ix_lines (mkIndex _ (ix_recs ix) _ _)) with (ix_lines ix).
    change (lf_gapOffsets (f <| lf_blocks := _ |> <| lf_persistedLines := _ |> <| lf_gapOffsets := ?g |>)) with g.
    by case_bool_decide.
Qed.

(** Less than a record is left: the loop ends. *)
Lemma recover_end fuel f recs ix r tail m :
  log limit recs ix → f.(lf_data) = log_bytes recs ++ tail →
  (tail = [] ∨ rec_ok limit ix r ∧ tail = take m (rec_bytes r) ∧ (m < length (rec_bytes r))%nat) →
  recover_loop fuel (scanned f ix) ix.(ix_offset) = Ok (scanned f ix, ix.(ix_offset)).
Proof.
  intros Hl Hd Ht. destruct fuel as [|fuel]; [done|]. cbn [recover_loop]. change (lf_data (scanned f ix)) with (lf_data f).
  rewrite (log_offset _ _ _ Hl), Hd, len_app. unfold compressedBlockHeaderSize.
  destruct Ht as [->|(Hr & -> & Hm)]; [change (len []) with 0; by replace (_ <=? _) with false by lia|].
  assert (El : len (take m (rec_bytes r)) = Z.of_nat m) by (unfold len; rewrite length_take; lia). rewrite El.
  destruct (Z.leb_spec (len (log_bytes recs) + 32) (len (log_bytes recs) + Z.of_nat m)) as [Hle|]; [|done].
  assert (slice (len (log_bytes recs)) (len (log_bytes recs) + 32) (log_bytes recs ++ take m (rec_bytes r)) = rec_header r) as ->.
  { assert (Hh : length (rec_header r) = 32%nat) by (by destruct r). unfold rec_bytes. rewrite take_app, take_ge by lia.
    replace 32 with (len (rec_header r)) by (by destruct r). apply slice_app_mid. }
  rewrite (rec_parsed ix r Hr). cbn [result_bind]. assert (bh_storedLen (rec_fields r) = len (rec_stored r)) as -> by (by destruct r).
  pose proof (rec_bytes_len r) as Hb. unfold len at 1 in Hb. replace (_ >? _) with true by lia. done.
Qed.

Lemma recover_loop_spec rest R ix f ix' tail r m fuel :
  log limit R ix → log limit (R ++ rest) ix' → f.(lf_data) = log_bytes (R ++ rest) ++ tail →
  (tail = [] ∨ rec_ok limit ix' r ∧ tail = take m (rec_bytes r) ∧ (m < length (rec_bytes r))%nat) →
  (length rest ≤ fuel)%nat →
  recover_loop fuel (scanned f ix) ix.(ix_offset) = Ok (scanned f ix', ix'.(ix_offset)).
Proof.
  revert R ix fuel. induction rest as [|r1 rest IH]; intros R ix fuel Hl Hl' Hd Ht Hf.
  { rewrite app_nil_r in *. rewrite (log_fun _ _ _ Hl' Hl) in *. by eapply recover_end. }
  destruct fuel as [|fuel]; [cbn in Hf; lia|].
  change (R ++ r1 :: rest) with (R ++ [r1] ++ rest) in Hl', Hd. rewrite app_assoc in Hl', Hd.
  destruct (log_prefix _ _ _ Hl') as [ix1 Hl1]. destruct (log_inv _ _ _ Hl1) as (ix0 & Hl0 & Hr1 & ->).
  rewrite (log_fun _ _ _ Hl0 Hl) in *.
  rewrite (recover_step fuel f R ix r1 (log_bytes rest ++ tail) Hl Hr1).
  2: { rewrite Hd, !log_bytes_app, log_bytes_one. by rewrite <- !app_assoc. }
  apply (IH (R ++ [r1])); try done. cbn in Hf. lia.
Qed.

(** A prefix of the bytes: some whole records and a part of the next. *)
Lemma cut_log recs ix n :
  log limit recs ix →
  ∃ R rest ix1 tail r m,
    recs = R ++ rest ∧ log limit R ix1 ∧ take n (log_bytes recs) = log_bytes R ++ tail
    ∧ (tail = [] ∨ rec_ok limit ix1 r ∧ tail = take m (rec_bytes r) ∧ (m < length (rec_bytes r))%nat)
    ∧ ((length (log_bytes recs) ≤ n)%nat → rest = []).
Proof.
  intros Hl. induction Hl as [|recs ix r Hl IH Hr].
  { exists [], [], empty_index, [], (RBoundary 0), O. split_and!; [done|apply log_nil|exact (take_nil n)|by left|done]. }
  rewrite log_bytes_app, log_bytes_one. destruct (decide (n < length (log_bytes recs))%nat) as [Hlt|Hge].
  - destruct IH as (R & rest & ix1 & tail & r' & m & -> & H1 & H2 & H3 & H4). exists R, (rest ++ [r]), ix1, tail, r', m.
    rewrite take_app_le by lia. split_and!; [by rewrite app_assoc|done|done|done|]. rewrite length_app. lia.
  - destruct (decide (n < length (log_bytes recs) + length (rec_bytes r))%nat) as [Hlt2|Hge2].
    + exists recs, [r], ix, (take (n - length (log_bytes recs)) (rec_bytes r)), r, (n - length (log_bytes recs))%nat.
      split_and!; [done|done|by rewrite take_app_ge by lia|right; split_and!; [done|done|lia]|]. rewrite length_app. lia.
    + exists (recs ++ [r]), [], (index_add ix r), [], r, O. rewrite log_bytes_app, log_bytes_one.
      split_and!; [by rewrite app_nil_r|by constructor|by rewrite app_nil_r, take_ge by (rewrite length_app; lia)|by left|done].
Qed.

(** ** Recovery *)
Lemma log_records_len recs : (length recs ≤ length (log_bytes recs))%nat.
Proof.
  induction recs as [|r recs IH]; [done|]. change (log_bytes (r :: recs)) with (rec_bytes r ++ log_bytes recs).
  rewrite length_app. pose proof (rec_bytes_len r) as E. pose proof (len_nonneg (rec_stored r)). unfold len at 1 in E. cbn [length]. lia.
Qed.

Lemma recover_cut f recs ix n :
  log limit recs ix → f.(lf_data) = take n (log_bytes recs) → f.(lf_blocks) = [] → f.(lf_persistedLines) = 0 →
  f.(lf_gapOffsets) = [] → f.(lf_pending) = [] → f.(lf_pendingBytes) = 0 →
  ∃ f' R rest, recover f = Ok f' ∧ recs = R ++ rest ∧ holds limit f' (lines_of R) ∧ f'.(lf_handle) = f.(lf_handle)
    ∧ f'.(lf_pending) = [] ∧ f'.(lf_retentionEpoch) = f.(lf_retentionEpoch) ∧ ((length (log_bytes recs) ≤ n)%nat → rest = []).
Proof.
  intros Hl Hd B0 P0 G0 Pe0 Pb0. destruct (cut_log recs ix n Hl) as (R & rest & ix1 & tail & r & m & -> & Hl1 & Ht & Htail & Hn).
  unfold recover. assert (Hs : f = scanned f empty_index) by (unfold scanned; destruct f; cbn in *; by subst).
  assert (Hlen : (length R ≤ length (lf_data f))%nat).
  { rewrite Hd, Ht, length_app. pose proof (log_records_len R). lia. }
  pose proof (recover_loop_spec R [] empty_index f ix1 tail r m (length (lf_data f)) (log_nil _) Hl1) as Hrec.
  cbn [app] in Hrec. rewrite Hd, Ht in Hrec. specialize (Hrec eq_refl Htail). rewrite <- Ht, <- Hd in Hrec.
  specialize (Hrec Hlen). rewrite <- Hs in Hrec. change (ix_offset empty_index) with 0 in Hrec. rewrite Hrec. cbn [result_bind fst snd].
  eexists _, R, rest. split_and!; [reflexivity|done| |done|done|done|done].
  exists R, ix1. rewrite (log_offset _ _ _ Hl1). split; [split_and!; [done| |]|split].
  - change (take (Z.to_nat (len (log_bytes R))) (lf_data f) = log_bytes R). rewrite Hd, Ht. unfold len. by rewrite Nat2Z.id, take_app_length.
  - intros _. split_and!; [done..|]. by rewrite (log_offset _ _ _ Hl1).
  - split_and!.
    + change (Forall (line_ok limit) (lf_pending f)). by rewrite Pe0.
    + change (lf_pendingBytes f = pending_size (lf_pending f)). by rewrite Pe0, Pb0.
    + change (lf_pendingBytes f + 10 ≤ limit). unfold compressedBlockTargetBytes in limit_ok. lia.
  - change (lines_of R = ix_lines ix1 ++ lf_pending f). by rewrite (log_lines _ _ _ Hl1), Pe0, app_nil_r.
Qed.
End recovery.

(** * The block file keeps the lines it was given *)

(** ** Sequences of operations *)
Inductive op := OAppend (lines : list Line) | OBoundary | OGap | OPrune | OSync.
Definition op_lines (o : op) : list Line := match o with OAppend lines => lines | _ => [] end.

(** How the disk and the clock behave, and the settings. *)
Record World := mkWorld {
  w_clock : nat → Z; w_write : nat → option nat; w_rewrite : nat → RewriteOutcome; w_options : Options }.
Definition clock_ok (w : World) : Prop := ∀ n, - 2 ^ 63 ≤ w.(w_clock) n < 2 ^ 63.

Section runs.
Context `{Codecs}.

Definition run_op (w : World) (o : op) (f : LineFile) : LineFile * option goerr :=
  match o with
  | OAppend lines => AppendLines w.(w_clock) w.(w_write) w.(w_rewrite) w.(w_options) f lines
  | OBoundary => AppendBoundary w.(w_clock) w.(w_write) w.(w_rewrite) w.(w_options) f
  | OGap => AppendGap w.(w_clock) w.(w_write) w.(w_rewrite) w.(w_options) f
  | OPrune => PruneRetention w.(w_clock) w.(w_write) w.(w_rewrite) w.(w_options) f
  | OSync => Sync w.(w_clock) w.(w_write) w.(w_rewrite) w.(w_options) f
  end.

Fixpoint run_ops (w : World) (ops : list op) (f : LineFile) : LineFile * list (option goerr) :=
  match ops with
  | [] => (f, [])
  | o :: ops => let '(f, e) := run_op w o f in let '(f, es) := run_ops w ops f in (f, e :: es)
  end.

Definition fresh : LineFile := newCompressedLineFile [] 0 0.

(** The file can be read, and gives exactly these lines, in both directions and for any callback. *)
Definition reads (f : LineFile) (lines : list Line) : Prop :=
  f.(lf_handle) = HOpen ∧ LineCount f = len lines
  ∧ ∀ T (visit : T → Z → Line → T * bool) start stop reverse s,
      VisitLines visit f start stop reverse s = (visit_spec visit lines start stop reverse s, None).

(** What an operation took of its lines: all of them unless it failed. *)
Definition taken (o : op) (e : option goerr) (part : list Line) : Prop :=
  ∃ rest, op_lines o = part ++ rest ∧ (e = None → rest = []).
Definition all_taken (ops : list op) (es : list (option goerr)) (parts : list (list Line)) : Prop :=
  Forall2 (λ oe part, taken oe.1 oe.2 part) (zip ops es) parts ∧ length es = length ops.
End runs.

Lemma all_taken_complete ops es parts :
  all_taken ops es parts → Forall (eq None) es → concat parts = concat (op_lines <$> ops).
Proof.
  intros [Hp Hl]. revert es parts Hp Hl. induction ops as [|o ops IH]; intros [|e es] parts Hp Hl Hes; try done.
  - by apply Forall2_nil_inv_l in Hp as ->.
  - cbn [zip zip_with] in Hp. apply Forall2_cons_inv_l in Hp as (part & parts' & (rest & Er & He) & Hp & ->).
    apply Forall_cons in Hes as [<- Hes]. cbn in Er, He. cbn [fmap list_fmap concat]. rewrite Er, (He eq_refl), app_nil_r. f_equal.
    apply (IH es); try done. by injection Hl.
Qed.

Section properties.
Context `{Codecs, !CodecLaws}.
Context (w : World) (limit : Z) (Hc : clock_ok w) (limit_ok : compressedBlockTargetBytes + 10 ≤ limit < 2 ^ 32).

Lemma fresh_holds : holds limit fresh [].
Proof.
  exists [], empty_index. split; [split_and!; [apply log_nil|done|by intros _]|split; [|done]].
  split_and!; [constructor|done|]. change (0 + 10 ≤ limit). unfold compressedBlockTargetBytes in limit_ok. lia.
Qed.

Lemma holds_reads f lines : holds limit f lines → f.(lf_handle) = HOpen → reads f lines.
Proof.
  intros (recs & ix & (Hl & Hd & Hm) & _ & ->) Hh. destruct (Hm ltac:(by rewrite Hh)) as (M1 & M2 & M3 & M4).
  split_and!; [done|unfold LineCount; by rewrite M2, len_app|]. intros T visit start stop reverse s.
  by apply (VisitLines_spec visit f recs ix limit).
Qed.

Lemma run_op_spec o f lines f' e :
  holds limit f lines → Forall (line_ok limit) (op_lines o) → len lines < 2 ^ 32 → run_op w o f = (f', e) →
  appends limit f lines (op_lines o) f' e.
Proof.
  intros Hh Hl Hn. destruct o as [new| | | |]; cbn [run_op op_lines] in *.
  - unfold AppendLines. destruct new as [|line new]; [intros [= <- <-]; apply appends_nothing; by apply drops_none|]. cbn [is_empty].
    assert (E : (f, Some ErrInvalid) = (f', e) → appends limit f lines (line :: new) f' e).
    { intros [= <- <-]. exists [], (line :: new). split_and!; [done|done|]. rewrite app_nil_r. by apply drops_none. }
    destruct (lf_handle f); [| |exact E]; intros Ha; eapply append_lines_spec; try done.
  - intros E. apply appends_nothing. by eapply boundary_spec.
  - intros E. apply appends_nothing. by eapply gap_spec.
  - intros E. apply appends_nothing. by eapply prune_spec.
  - intros E. apply appends_nothing. unfold Sync in E. destruct (lf_handle f) eqn:Eh; [| |injection E as <- <-; by apply drops_none].
    all: by eapply flush_spec in E as [? _].
Qed.

Lemma run_ops_spec ops f lines f' es :
  holds limit f lines → Forall (line_ok limit) (concat (op_lines <$> ops)) →
  len lines + len (concat (op_lines <$> ops)) < 2 ^ 32 → run_ops w ops f = (f', es) →
  ∃ parts k, all_taken ops es parts ∧ holds limit f' (drop k (lines ++ concat parts))
    ∧ (k ≤ length (lines ++ concat parts))%nat
    ∧ (Forall (eq None) es → f'.(lf_handle) = f.(lf_handle)
        ∧ (k = O ∧ f'.(lf_retentionEpoch) = f.(lf_retentionEpoch) ∨ f.(lf_retentionEpoch) < f'.(lf_retentionEpoch))).
Proof.
  revert f lines f' es. induction ops as [|o ops IH]; intros f lines f' es Hh Hok Hn; cbn [run_ops].
  { intros [= <- <-]. exists [], O. rewrite app_nil_r. split_and!; [by split|done|lia|]. intros _. split; [done|by left]. }
  cbn [fmap list_fmap concat] in Hok, Hn. apply Forall_app in Hok as [Ho Hok]. rewrite len_app in Hn.
  pose proof (len_nonneg (op_lines o)). pose proof (len_nonneg (concat (op_lines <$> ops))).
  destruct (run_op w o f) as [f1 e] eqn:E1. destruct (run_ops w ops f1) as [f2 es2] eqn:E2. intros [= <- <-].
  apply (run_op_spec _ _ _ _ _ Hh Ho ltac:(lia)) in E1 as (part & rest & Epr & He & (k1 & Hk1 & Hh1 & Hn1)).
  assert (Hlen : len (drop k1 (lines ++ part)) + len (concat (op_lines <$> ops)) < 2 ^ 32).
  { rewrite Epr, len_app in Hn. pose proof (len_nonneg rest). unfold len in *. rewrite length_drop, length_app. lia. }
  destruct (IH _ _ _ _ Hh1 Hok Hlen E2) as (parts & k2 & [Hp Hpl] & Hh2 & Hk2 & Hn2).
  assert (Ed : drop k2 (drop k1 (lines ++ part) ++ concat parts) = drop (k1 + k2) (lines ++ concat (part :: parts))).
  { cbn [concat]. rewrite <- drop_drop, app_assoc, (drop_app_le (lines ++ part)) by done. done. }
  rewrite Ed in Hh2. exists (part :: parts), (k1 + k2)%nat. split_and!; [|done| |].
  - split; [|cbn; by rewrite Hpl]. cbn [zip zip_with]. constructor; [by exists rest|done].
  - cbn [concat]. rewrite !length_app in *. rewrite length_drop, length_app in Hk2. lia.
  - intros [He1 Hes]%Forall_cons. destruct (Hn1 (eq_sym He1)) as [-> Hep1] || destruct (Hn1 (eq_sym He1)) as [Eh1 Hep1].
    destruct (Hn2 Hes) as [-> Hep2]. split; [done|].
    destruct Hep1 as [[-> Ep1]|Hlt1], Hep2 as [[-> Ep2]|Hlt2]; [left; split; [done|]|right..]; lia.
Qed.
End properties.

(** ** Opening again *)
Section reopening.
Context `{Codecs, !CodecLaws} (w : World) (limit : Z) (Hc : clock_ok w).
Context (Hlimit : compressedBlockTargetBytes + 10 ≤ limit ≤ compressedBlockMaxRawBytes).

Lemma le_field_take n b from to : (from ≤ to ≤ n)%nat → le_field (take n b) from to = le_field b from to.
Proof. intros Hn. unfold le_field. rewrite skipn_firstn_comm, take_take. do 2 f_equal. lia. Qed.

(** A log is not taken for an obsolete file unless not even its first six bytes are there. *)
Lemma discard_cut recs n :
  ∃ n', discardObsoleteLineFile (take n (log_bytes recs)) = take n' (log_bytes recs)
    ∧ ((length (log_bytes recs) ≤ n)%nat → (length (log_bytes recs) ≤ n')%nat).
Proof.
  unfold discardObsoleteLineFile. destruct recs as [|r recs].
  { exists O. change (log_bytes []) with (@nil Byte.byte). rewrite !take_nil. done. }
  change (log_bytes (r :: recs)) with (rec_bytes r ++ log_bytes recs). unfold rec_bytes. rewrite <- !app_assoc.
  assert (Hpre : ∀ rest, le_field (rec_header r ++ rest) 0 4 = compressedBlockMagic ∧ le_field (rec_header r ++ rest) 4 6 = compressedBlockVersion)
    by (intros rest; destruct r; apply header_prefix).
  destruct (Hpre (rec_stored r ++ log_bytes recs)) as [E1 E2].
  assert (Hlen : length (rec_header r) = 32%nat) by (by destruct r).
  destruct (decide (6 ≤ n)%nat) as [Hle|Hlt].
  - exists n. split; [|done]. rewrite !le_field_take, E1, E2, !Z.eqb_refl by lia. cbn [andb]. rewrite !andb_true_r.
    replace (6 <=? _) with true; [done|]. symmetry. apply Z.leb_le. unfold len. rewrite length_take, length_app. lia.
  - exists O. replace (6 <=? _) with false; [split; [done|]|].
    + rewrite !length_app. lia.
    + symmetry. apply Z.leb_gt. unfold len. rewrite length_take. lia.
Qed.

Lemma enforce_error f f' e :
  enforceLimit w.(w_clock) w.(w_rewrite) w.(w_options) f = (f', Some e) → e = ErrDisk ∧ (0 < MaxBytes (w_options w) ∨ 0 < MaxAge (w_options w)).
Proof.
  unfold enforceLimit. set (limits := 0 < MaxBytes _ ∨ 0 < MaxAge _).
  assert (Hrw : ∀ f1 s f2, rewriteBlocks (w_clock w) (w_rewrite w) f1 s = (f2, Some e) → e = ErrDisk).
  { intros f1 s f2. unfold rewriteBlocks. destruct (copy_blocks _ _ _ _) as [[[? ?] ?] ?]. destruct (copy_gaps _ _ _ _) as [[? ?] ?].
    destruct (if bool_decide _ then _ else _); congruence. }
  destruct (lf_handle f); [| |congruence].
  all: destruct (Z.ltb_spec 0 (MaxAge (w_options w))) as [Ha|Ha]; unfold nowTime; intros E;
    match type of E with (if ?b then _ else _) = _ => destruct b eqn:Eb; [congruence|] end;
    (split; [by eapply Hrw|]); [by right|left]; destruct (Z.ltb_spec 0 (MaxBytes (w_options w))); done.
Qed.

Lemma enforce_unlimited f : MaxBytes (w_options w) = 0 → MaxAge (w_options w) = 0 →
  enforceLimit w.(w_clock) w.(w_rewrite) w.(w_options) f = (f, None).
Proof. intros E1 E2. unfold enforceLimit. rewrite E1, E2. by destruct (lf_handle f). Qed.

Lemma reopen_spec f lines n ticks ios :
  holds limit f lines → 0 ≤ MaxBytes (w_options w) → 0 ≤ MaxAge (w_options w) →
  match OpenCompressedLineFile w.(w_clock) w.(w_rewrite) w.(w_options) (take n f.(lf_data)) ticks ios with
  | Ok f2 => ∃ kept lost k, lines = kept ++ lost ∧ holds limit f2 (drop k kept) ∧ f2.(lf_handle) = HOpen
      ∧ ((length f.(lf_data) ≤ n)%nat → lost = f.(lf_pending))
      ∧ (MaxBytes (w_options w) = 0 → MaxAge (w_options w) = 0 → k = O)
  | Err e => e = ErrDisk ∧ (0 < MaxBytes (w_options w) ∨ 0 < MaxAge (w_options w))
  end.
Proof.
  intros (recs & ix & (Hl & Hd & _) & _ & ->) Hb Ha. unfold OpenCompressedLineFile.
  replace (_ || _) with false by lia. rewrite Hd. destruct (discard_cut recs n) as (n' & -> & Hn').
  set (f0 := newCompressedLineFile _ _ _).
  destruct (recover_cut limit Hlimit f0 recs ix n' Hl eq_refl eq_refl eq_refl eq_refl eq_refl eq_refl)
    as (f1 & R & rest & -> & -> & Hh1 & Eh & Ep & Eep & Hrest). cbn [result_bind].
  destruct (enforceLimit _ _ _ f1) as [f2 [e|]] eqn:E; [by eapply enforce_error|].
  pose proof E as E0. assert (Hlim : compressedBlockTargetBytes + 10 ≤ limit < 2 ^ 32) by (unfold compressedBlockMaxRawBytes in Hlimit; lia).
  apply (drops_enforce w.(w_clock) w.(w_rewrite) w.(w_options) limit Hc f1 _ _ _ Hh1) in E as (k & Hk & Hh2 & Hn).
  destruct (Hn eq_refl) as [Eh2 _].
  assert (El : ix_lines ix = lines_of R ++ lines_of rest) by (by rewrite (log_lines _ _ _ Hl), fmap_app, concat_app).
  destruct (decide (MaxBytes (w_options w) = 0 ∧ MaxAge (w_options w) = 0)) as [[M1 M2]|Hu].
  - rewrite (enforce_unlimited f1 M1 M2) in E0. injection E0 as <-. exists (lines_of R), (lines_of rest ++ lf_pending f), O.
    split_and!; [by rewrite El, app_assoc|done|done| |done]. intros Hle. by rewrite (Hrest (Hn' Hle)).
  - exists (lines_of R), (lines_of rest ++ lf_pending f), k.
    split_and!; [by rewrite El, app_assoc|done|by rewrite Eh2, Eh| |naive_solver]. intros Hle. by rewrite (Hrest (Hn' Hle)).
Qed.
End reopening.

(** ** A concrete file *)
Module FileDemo.

(** Codecs that put a mark in front of the bytes. *)
#[export] Instance codecs : Codecs := {|
  crc32 b := len b mod 2 ^ 32;
  zstd_encode b := match b with [] => [] | _ => Byte.x00 :: b end;
  zstd_decode b := match b with [] => Ok [] | _ :: b => Ok b end;
  s2_encode b := Byte.x00 :: b;
  s2_decoded_len b := match b with [] => Err "short" | _ :: b => Ok (len b) end;
  s2_decode b := match b with [] => Err "short" | _ :: b => Ok b end |}.
#[export] Instance codec_laws : CodecLaws.
Proof.
  split; [intros b; apply Z.mod_pos_bound; lia|by intros []|by intros []|done|done|done].
Qed.

Definition line (b : Byte.byte) : Line := mkLine [mkRun [b] no_style [] []] true 1000000000.
Definition limit : Z := compressedBlockTargetBytes + 100.

(** The third write fails after five bytes; 180 bytes are the limit of the file. *)
Definition world : World :=
  mkWorld (λ n, Z.of_nat (n `min` 1000) * 1000000000) (λ n, if (n =? 2)%nat then Some 5%nat else None) (λ _, RwDone) (mkOptions 180 0 compressionS2).
Definition ops : list op :=
  [OAppend [line Byte.x61; line Byte.x62]; OSync; OGap; OAppend [line Byte.x63]; OSync; OGap; OAppend [line Byte.x64]; OSync].

Example demo_run :
  let '(f, es) := run_ops world ops fresh in
  es = [None; None; Some ErrDisk; None; None; None; None; None]
  ∧ Lines f 0 9 = ([line Byte.x63; line Byte.x64], None) ∧ f.(lf_retentionEpoch) = 1 ∧ f.(lf_gapOffsets) = [1] ∧ len f.(lf_data) = 126.
Proof. vm_compute. by split_and!. Qed.

Lemma world_clock : clock_ok world.
Proof. intros n. cbn [world w_clock]. lia. Qed.

Lemma line_fits b : line_ok limit (line b).
Proof.
  split; [split; [|split; [reflexivity|right; split; [split; [discriminate|reflexivity]|discriminate]]]|vm_compute; discriminate].
  constructor; [|constructor]. split; reflexivity.
Qed.
Lemma lines_fit : Forall (line_ok limit) (concat (op_lines <$> ops)).
Proof. change (concat (op_lines <$> ops)) with (line <$> [Byte.x61; Byte.x62; Byte.x63; Byte.x64]). repeat (constructor; [apply line_fits|]). constructor. Qed.
End FileDemo.
#[local] Existing Instances FileDemo.codecs FileDemo.codec_laws.

(** C13: Whatever the clock shows and wherever writes and rewrites fail, the history file stays consistent: after any
    sequence of appends, markers, prunings and syncs, a file still open reads, in both directions and for any visitor,
    as exactly the lines the operations took, in order, less a number of the oldest; a failed operation takes a prefix
    of its lines, a successful one all; and when nothing failed the file is open and lines are only dropped under a new
    retention epoch. *)
Theorem history_file_exact `{Codecs, !CodecLaws} (w : World) (limit : Z) (ops : list op)
    (Hc : clock_ok w) (Hlimit : compressedBlockTargetBytes + 10 ≤ limit < 2 ^ 32)
    (Hok : Forall (line_ok limit) (concat (op_lines <$> ops))) (Hn : len (concat (op_lines <$> ops)) < 2 ^ 32) :
  let '(f, es) := run_ops w ops fresh in
  ∃ parts k, all_taken ops es parts
    ∧ (f.(lf_handle) = HOpen → reads f (drop k (concat parts)))
    ∧ (Forall (eq None) es →
         f.(lf_handle) = HOpen ∧ concat parts = concat (op_lines <$> ops)
         ∧ (k = O ∧ f.(lf_retentionEpoch) = 0 ∨ 0 < f.(lf_retentionEpoch))).
Proof.
  destruct (run_ops w ops fresh) as [f es] eqn:E.
  apply (run_ops_spec w limit Hc Hlimit ops fresh [] f es (fresh_holds limit Hlimit) Hok) in E
    as (parts & k & Hp & Hh & _ & He); [|unfold len at 1; cbn [length]; lia].
  exists parts, k. split_and!; [done|by eapply holds_reads|]. intros Hes. destruct (He Hes) as [Eh Hep]. split_and!; [done| |done].
  by eapply all_taken_complete.
Qed.

Lemma history_file_exact_witness :
  let '(f, es) := run_ops FileDemo.world FileDemo.ops fresh in
  ∃ parts k, all_taken FileDemo.ops es parts ∧ reads f (drop k (concat parts)).
Proof.
  pose proof (history_file_exact FileDemo.world FileDemo.limit FileDemo.ops FileDemo.world_clock
    ltac:(split; [discriminate|reflexivity]) FileDemo.lines_fit ltac:(reflexivity)) as H.
  assert (Hh : lf_handle (run_ops FileDemo.world FileDemo.ops fresh).1 = HOpen) by (vm_compute; reflexivity).
  destruct (run_ops FileDemo.world FileDemo.ops fresh) as [f es]. destruct H as (parts & k & H1 & H2 & _).
  exists parts, k. split; [exact H1|exact (H2 Hh)].
Defined.

(** C14: The history survives a crash at any byte: from what any sequence of operations left on the disk, cut anywhere,
    the file opens again and reads as a prefix of the lines that were taken (less the oldest, if limits are set);
    nothing flushed is missing when nothing was cut, and opening fails only when the disk fails while old blocks are
    dropped. The lines must leave room in a block of 2 MiB. *)
Theorem history_crash_recovery `{Codecs, !CodecLaws} (w : World) (limit : Z) (ops : list op) (n ticks ios : nat)
    (Hc : clock_ok w) (Hlimit : compressedBlockTargetBytes + 10 ≤ limit ≤ compressedBlockMaxRawBytes)
    (Hok : Forall (line_ok limit) (concat (op_lines <$> ops))) (Hn : len (concat (op_lines <$> ops)) < 2 ^ 32)
    (Hbytes : 0 ≤ MaxBytes (w_options w)) (Hage : 0 ≤ MaxAge (w_options w)) :
  let '(f, es) := run_ops w ops fresh in
  ∃ parts k kept lost, all_taken ops es parts ∧ drop k (concat parts) = kept ++ lost
    ∧ ((length f.(lf_data) ≤ n)%nat → lost = f.(lf_pending))
    ∧ match OpenCompressedLineFile w.(w_clock) w.(w_rewrite) w.(w_options) (take n f.(lf_data)) ticks ios with
      | Ok f2 => ∃ j, reads f2 (drop j kept) ∧ (MaxBytes (w_options w) = 0 → MaxAge (w_options w) = 0 → j = O)
      | Err e => e = ErrDisk ∧ (0 < MaxBytes (w_options w) ∨ 0 < MaxAge (w_options w))
      end.
Proof.
  destruct (run_ops w ops fresh) as [f es] eqn:E.
  assert (Hlim : compressedBlockTargetBytes + 10 ≤ limit < 2 ^ 32) by (unfold compressedBlockMaxRawBytes in Hlimit; lia).
  apply (run_ops_spec w limit Hc Hlim ops fresh [] f es (fresh_holds limit Hlim) Hok) in E
    as (parts & k & Hp & Hh & _ & He); [|unfold len at 1; cbn [length]; lia]. cbn [app] in Hh.
  pose proof (reopen_spec w limit Hc Hlimit f _ n ticks ios Hh Hbytes Hage) as Ho.
  destruct (OpenCompressedLineFile _ _ _ _ _ _) as [f2|e].
  - destruct Ho as (kept & lost & j & El & Hh2 & Eh & Hlost & Hj). exists parts, k, kept, lost. split_and!; [done..|].
    exists j. split; [by eapply holds_reads|done].
  - destruct Hh as (recs & ix & (Hl & Hd & _) & _ & El).
    exists parts, k, (ix_lines ix), (lf_pending f). split_and!; try done; try apply Ho.
Qed.

Lemma history_crash_recovery_witness :
  let '(f, es) := run_ops FileDemo.world FileDemo.ops fresh in
  ∃ parts k kept lost, all_taken FileDemo.ops es parts ∧ drop k (concat parts) = kept ++ lost
    ∧ match OpenCompressedLineFile FileDemo.world.(w_clock) FileDemo.world.(w_rewrite) FileDemo.world.(w_options)
              (take 60 f.(lf_data)) 0 0 with
      | Ok f2 => ∃ j, reads f2 (drop j kept)
      | Err e => e = ErrDisk
      end.
Proof.
  pose proof (history_crash_recovery FileDemo.world FileDemo.limit FileDemo.ops 60 0 0 FileDemo.world_clock
    ltac:(split; discriminate) FileDemo.lines_fit ltac:(reflexivity) ltac:(discriminate) ltac:(discriminate)) as H.
  destruct (run_ops FileDemo.world FileDemo.ops fresh) as [f es].
  destruct H as (parts & k & kept & lost & H1 & H2 & _ & H4). exists parts, k, kept, lost. split; [exact H1|split; [exact H2|]].
  destruct (OpenCompressedLineFile _ _ _ _ _ _) as [f2|e].
  - destruct H4 as (j & H4 & _). exists j. exact H4.
  - exact (proj1 H4).
Defined.
