(* ===== verification/HistFileBounds.v ===== *)
(** * The retention limit of the block file holds *)
From S2P Require Import Prelude GoStd HistLine HistCodec HistCodecTheorems HistFile HistFileRead HistFileWrite HistFileTheorems.
Local Open Scope Z_scope.
Local Open Scope bool_scope.
Local Open Scope list_scope.

(** ** Sizes *)
Definition block_bytes (b : compressedBlock) : Z := 32 + b.(cb_storedLen).
Definition blocks_bytes (bs : list compressedBlock) : Z := foldr (λ b n, block_bytes b + n) 0 bs.
Definition later (line : Z) (gaps : list Z) : list Z := filter (λ g, line < g) gaps.

Lemma blocks_bytes_app a b : blocks_bytes (a ++ b) = blocks_bytes a + blocks_bytes b.
Proof. induction a as [|x a IH]; [done|]. cbn [app blocks_bytes foldr]. fold (blocks_bytes (a ++ b)). fold (blocks_bytes a). lia. Qed.

Lemma later_len line1 line2 gaps : line1 ≤ line2 → len (later line2 gaps) ≤ len (later line1 gaps).
Proof.
  intros Hle. unfold later. induction gaps as [|g gaps IH]; [done|]. rewrite !filter_cons.
  destruct (decide (line2 < g)); [rewrite decide_True by lia|destruct (decide (line1 < g))]; unfold len in *; cbn [length]; lia.
Qed.

Lemma later_split line lo hi : Forall (λ g, g ≤ line) lo → Forall (λ g, line < g) hi → later line (lo ++ hi) = hi.
Proof.
  intros Hlo Hhi. unfold later. rewrite filter_app, (list_filter_none _ lo), (list_filter_all _ hi); [done|..].
  - intros x Hx. by eapply Forall_forall in Hhi.
  - intros x Hx. eapply Forall_forall in Hlo; [|exact Hx]. cbn in Hlo. lia.
Qed.

Section bounds.
Context `{Codecs} (clock : nat → Z).

Lemma copy_blocks_size data bs offset first copied newBlocks offset' first' :
  copy_blocks data bs offset first = (copied, newBlocks, offset', first') → offset' = offset + blocks_bytes bs.
Proof.
  revert offset first copied newBlocks offset' first'. induction bs as [|b bs IH]; intros offset first copied newBlocks offset' first'; cbn [copy_blocks].
  { intros [= <- <- <- <-]. cbn. lia. }
  destruct (copy_blocks data bs _ _) as [[[c n] o] fi] eqn:E. intros [= <- <- <- <-]. apply IH in E. cbn [blocks_bytes foldr].
  fold (blocks_bytes bs). unfold block_bytes, compressedBlockHeaderSize in *. lia.
Qed.

Lemma copy_gaps_size f dropped gaps f' headers newGaps :
  copy_gaps clock f dropped gaps = (f', headers, newGaps) → len headers = 32 * len (later dropped gaps).
Proof.
  revert f f' headers newGaps. induction gaps as [|g gaps IH]; intros f f' headers newGaps; cbn [copy_gaps].
  { by intros [= <- <- <-]. }
  unfold later. rewrite filter_cons. destruct (Z.leb_spec g dropped); [rewrite decide_False by lia; apply IH|rewrite decide_True by lia].
  unfold nowTime. destruct (copy_gaps _ _ _ _) as [[f1 rest] gs] eqn:E. apply IH in E.
  pose proof (header_length compressedBlockKindGap compressedBlockCodecRaw (g - dropped) 0 0 0 (Unix (clock (lf_ticks f)))) as Hh.
  revert Hh. generalize (makeCompressedBlockHeader compressedBlockKindGap compressedBlockCodecRaw (g - dropped) 0 0 0 (Unix (clock (lf_ticks f)))).
  intros h Hh [= <- <- <-]. rewrite len_app, E, Hh. fold (later dropped gaps). unfold len. cbn [length]. lia.
Qed.

(** The first line kept when the file is cut before block [start]. *)
Definition cut_line (f : LineFile) (start : Z) : Z :=
  if start <? len f.(lf_blocks) then (nth_block f.(lf_blocks) start).(cb_firstLine) else f.(lf_persistedLines).
Definition kept_size (f : LineFile) (start : Z) : Z :=
  blocks_bytes (drop (Z.to_nat start) f.(lf_blocks)) + 32 * len (later (cut_line f start) f.(lf_gapOffsets)).

Lemma rewrite_size disk_rewrite f start f' :
  0 ≤ start ≤ len f.(lf_blocks) → rewriteBlocks clock disk_rewrite f start = (f', None) → f'.(lf_writeOffset) = kept_size f start.
Proof.
  intros Hs. unfold rewriteBlocks. assert (clampLineIndex start 0 (len (lf_blocks f)) = start) as ->.
  { unfold clampLineIndex. destruct (Z.ltb_spec start 0); [lia|]. destruct (Z.gtb_spec start (len (lf_blocks f))); lia. }
  fold (cut_line f start). destruct (copy_blocks _ _ _ _) as [[[c n] o] fi] eqn:Eb. apply copy_blocks_size in Eb.
  destruct (copy_gaps _ _ _ _) as [[f1 headers] gs] eqn:Eg. apply copy_gaps_size in Eg.
  assert (Ho : o + len headers = kept_size f start) by (unfold kept_size; lia).
  destruct (if bool_decide _ then _ else _); intros [= <-]. destruct (0 <? _); exact Ho.
Qed.

(** ** Where the limit cuts *)
Lemma gap_headers_spec first size gaps :
  StronglySorted Z.lt gaps →
  ∃ lo hi, gaps = lo ++ hi ∧ Forall (λ g, g ≤ first) lo ∧ Forall (λ g, first < g) hi
    ∧ gap_headers first size (rev gaps) = (size + 32 * len hi, rev lo).
Proof.
  revert size. induction gaps as [|g gaps IH] using rev_ind; intros size Hs.
  { exists [], []. split_and!; try done. cbn. f_equal. unfold len. cbn. lia. }
  assert (Hs' : StronglySorted Z.lt gaps).
  { clear IH. induction gaps as [|x gaps IH]; [constructor|]. cbn in Hs. apply StronglySorted_inv in Hs as [H1 H2]. constructor; [by apply IH|].
    by apply Forall_app in H2 as [? _]. }
  assert (Hlt : Forall (λ x, x < g) gaps).
  { clear IH Hs'. induction gaps as [|x gaps IH]; [constructor|]. cbn in Hs. apply StronglySorted_inv in Hs as [H1 H2]. constructor; [|by apply IH].
    apply Forall_app in H2 as [_ [H2 _]%Forall_cons]. done. }
  rewrite rev_app_distr. cbn [rev app gap_headers]. destruct (Z.gtb_spec g first) as [Hg|Hg].
  - destruct (IH (size + compressedBlockHeaderSize) Hs') as (lo & hi & -> & H1 & H2 & ->). exists lo, (hi ++ [g]).
    split_and!; [by rewrite app_assoc|done|apply Forall_app; split; [done|by constructor]|]. f_equal.
    unfold compressedBlockHeaderSize. rewrite len_app. change (len [g]) with 1. lia.
  - exists (gaps ++ [g]), []. split_and!; [by rewrite app_nil_r| |constructor|].
    + apply Forall_app. split; [|by constructor]. eapply Forall_impl; [exact Hlt|]. cbn. lia.
    + rewrite rev_app_distr. cbn. f_equal. unfold len. cbn. lia.
Qed.

(** The blocks have non-decreasing first lines. *)
Lemma size_start_spec target pre used lo n :
  StronglySorted Z.lt lo → used ≤ target →
  ∃ p1 p2 lo1 lo2,
    size_start target (rev pre) (len pre) used n (rev lo) = (if is_empty p2 then n else len p1)
    ∧ pre = p1 ++ p2 ∧ lo = lo1 ++ lo2
    ∧ used + blocks_bytes p2 + 32 * len lo2 ≤ target
    ∧ match p2 with [] => lo2 = [] | b :: _ => Forall (λ g, g ≤ b.(cb_firstLine)) lo1 end.
Proof.
  revert used lo n. induction pre as [|b pre IH] using rev_ind; intros used lo n Hs Hu.
  { exists [], [], lo, []. split_and!; [done|done|by rewrite app_nil_r|cbn; unfold len; cbn; lia|done]. }
  rewrite rev_app_distr. cbn [rev app size_start].
  destruct (gap_headers_spec b.(cb_firstLine) (compressedBlockHeaderSize + b.(cb_storedLen)) lo Hs) as (lo1 & lo2 & -> & H1 & H2 & ->).
  destruct (Z.gtb_spec (used + (compressedBlockHeaderSize + cb_storedLen b + 32 * len lo2)) target) as [Hgt|Hle].
  { exists (pre ++ [b]), [], (lo1 ++ lo2), []. split_and!; [done|by rewrite app_nil_r|by rewrite app_nil_r|cbn; unfold len; cbn; lia|done]. }
  assert (Hs1 : StronglySorted Z.lt lo1).
  { clear -Hs. induction lo1 as [|x l IH]; [constructor|]. cbn in Hs. apply StronglySorted_inv in Hs as [H1 H2]. constructor; [by apply IH|].
    by apply Forall_app in H2 as [? _]. }
  replace (len (pre ++ [b]) - 1) with (len pre) by (rewrite len_app; change (len [b]) with 1; lia).
  destruct (IH (used + (compressedBlockHeaderSize + cb_storedLen b + 32 * len lo2)) lo1 (len pre) Hs1 Hle) as (p1 & p2 & l1 & l2 & E & -> & -> & Hle2 & Hp2).
  exists p1, (p2 ++ [b]), l1, (l2 ++ lo2). rewrite E. split_and!.
  - destruct p2; cbn; [rewrite app_nil_r|]; done.
  - by rewrite app_assoc.
  - by rewrite app_assoc.
  - rewrite blocks_bytes_app, len_app. cbn [blocks_bytes foldr]. unfold block_bytes, compressedBlockHeaderSize in *. lia.
  - destruct p2 as [|b' p2]; cbn; [subst l2; rewrite app_nil_r in H1; done|done].
Qed.

Lemma later_all n gaps : Forall (λ g, 0 ≤ g ≤ n ∧ g < 2 ^ 32) gaps → later n gaps = [].
Proof.
  intros Hf. unfold later. apply list_filter_none. intros g Hg. eapply Forall_forall in Hf; [|exact Hg]. cbn in Hf. lia.
Qed.

Lemma later_app_le line lo hi : Forall (λ g, g ≤ line) lo → len (later line (lo ++ hi)) ≤ len hi.
Proof.
  intros Hlo. unfold later. rewrite filter_app, (list_filter_none _ lo), app_nil_l.
  - unfold len. pose proof (length_filter (λ g, line < g) hi). lia.
  - intros x Hx. eapply Forall_forall in Hlo; [|exact Hx]. cbn in Hlo. lia.
Qed.

Lemma tiled_nth first bs rs n b rest :
  tiled first bs rs → drop n bs = b :: rest → b.(cb_firstLine) = first + len (lines_of (take n rs)).
Proof.
  revert first bs rs. induction n as [|n IH]; intros first bs rs Ht E.
  - rewrite drop_0 in E. subst bs. destruct rs as [|r rs]; [done|]. destruct Ht as [-> _]. rewrite take_0. unfold len. cbn. lia.
  - destruct bs as [|b' bs]; [done|]. destruct rs as [|r rs]; [done|]. destruct Ht as [_ Ht]. cbn [drop] in E. rewrite (IH _ _ _ Ht E).
    cbn [take fmap list_fmap concat]. rewrite len_app. lia.
Qed.

Context (limit : Z) (f : LineFile) (recs : list record) (ix : index).
Context (Hl : log limit recs ix) (Hm : in_memory f ix).

Lemma stored_nonneg : Forall (λ b, 0 ≤ block_bytes b) f.(lf_blocks).
Proof.
  destruct (log_blocks _ _ _ Hl) as [Hb _]. destruct Hm as (-> & _). induction Hb as [|b r bs rs Hb _ IH]; [constructor|].
  constructor; [|done]. destruct r as [lines codec stored created| |]; try done. destruct Hb as (_ & _ & _ & ->). unfold block_bytes. cbn.
  pose proof (len_nonneg stored). lia.
Qed.

Lemma blocks_bytes_nonneg bs : Forall (λ b, 0 ≤ block_bytes b) bs → 0 ≤ blocks_bytes bs.
Proof. induction 1 as [|b bs Hb _ IH]; [done|]. cbn [blocks_bytes foldr]. fold (blocks_bytes bs). lia. Qed.

Lemma cut_line_value start : 0 ≤ start → cut_line f start = len (lines_of (take (Z.to_nat start) ix.(ix_recs))).
Proof.
  intros Hs. destruct (log_blocks _ _ _ Hl) as [_ Ht]. destruct Hm as (E1 & E2 & _). unfold cut_line. rewrite E1, E2.
  destruct (Z.ltb_spec start (len (ix_blocks ix))) as [Hlt|Hge].
  - destruct (drop (Z.to_nat start) (ix_blocks ix)) as [|b rest] eqn:Ed.
    { apply (f_equal length) in Ed. rewrite length_drop in Ed. unfold len in Hlt. cbn in Ed. lia. }
    rewrite (nth_block_drop _ _ _ _ Hs Ed). by rewrite (tiled_nth _ _ _ _ _ _ Ht Ed).
  - apply tiled_len in Ht. rewrite take_ge by (unfold len in Hge; lia). done.
Qed.

Lemma kept_mono s1 s2 : 0 ≤ s1 ≤ s2 → kept_size f s2 ≤ kept_size f s1.
Proof.
  intros Hs. unfold kept_size. rewrite !cut_line_value by lia.
  assert (Hd : drop (Z.to_nat s1) (lf_blocks f) = slice s1 s2 (lf_blocks f) ++ drop (Z.to_nat s2) (lf_blocks f)).
  { rewrite <- (take_drop (Z.to_nat (s2 - s1)) (drop (Z.to_nat s1) (lf_blocks f))) at 1. unfold slice. f_equal. rewrite drop_drop. f_equal. lia. }
  rewrite Hd, blocks_bytes_app. assert (0 ≤ blocks_bytes (slice s1 s2 (lf_blocks f))).
  { apply blocks_bytes_nonneg, Forall_take, Forall_drop, stored_nonneg. }
  assert (len (lines_of (take (Z.to_nat s1) (ix_recs ix))) ≤ len (lines_of (take (Z.to_nat s2) (ix_recs ix)))) as Hle.
  { replace (Z.to_nat s1) with (Nat.min (Z.to_nat s1) (Z.to_nat s2)) by lia. rewrite <- take_take.
    rewrite <- (take_drop (Z.to_nat s1) (take (Z.to_nat s2) (ix_recs ix))) at 2. rewrite fmap_app, concat_app, len_app.
    pose proof (len_nonneg (lines_of (drop (Z.to_nat s1) (take (Z.to_nat s2) (ix_recs ix))))). lia. }
  pose proof (later_len _ _ (lf_gapOffsets f) Hle). lia.
Qed.

(** Every block and every gap has its bytes in the file. *)
Lemma kept_all : kept_size f 0 ≤ f.(lf_writeOffset).
Proof.
  assert (Hix : ∀ recs ix, log limit recs ix → blocks_bytes ix.(ix_blocks) + 32 * len ix.(ix_gaps) ≤ ix.(ix_offset)).
  { clear. induction 1 as [|recs ix r Hl IH Hr]; [done|]. pose proof (rec_bytes_len r) as Hb. pose proof (len_nonneg (rec_stored r)).
    destruct r; cbn [index_add ix_blocks ix_gaps ix_offset].
    - rewrite blocks_bytes_app. cbn [blocks_bytes foldr block_of block_bytes cb_storedLen]. unfold block_bytes. cbn [cb_storedLen rec_stored] in *. lia.
    - lia.
    - case_bool_decide; [lia|]. rewrite len_app. change (len [gap]) with 1. lia. }
  specialize (Hix _ _ Hl). destruct Hm as (E1 & E2 & E3 & E4). unfold kept_size. rewrite E4, E1, E3. change (Z.to_nat 0) with O. rewrite drop_0.
  pose proof (length_filter (λ g, cut_line f 0 < g) (ix_gaps ix)) as Hf. unfold later, len in *. lia.
Qed.

Lemma size_start_kept target n :
  0 ≤ target → n = len f.(lf_blocks) → let s := size_start target (rev f.(lf_blocks)) n 0 n (rev f.(lf_gapOffsets)) in
  0 ≤ s ≤ n ∧ kept_size f s ≤ target.
Proof.
  intros Ht -> . destruct (log_gaps limit _ _ Hl) as [Gs Gf]. pose proof Hm as (E1 & E2 & E3 & E4). rewrite <- E3 in Gs, Gf.
  destruct (size_start_spec target (lf_blocks f) 0 (lf_gapOffsets f) (len (lf_blocks f)) Gs Ht) as (p1 & p2 & lo1 & lo2 & -> & Ep & Eg & Hle & Hp2).
  destruct p2 as [|b p2]; cbn [is_empty].
  - split; [pose proof (len_nonneg (lf_blocks f)); lia|]. unfold kept_size, cut_line. rewrite Z.ltb_irrefl, E2, later_all by done.
    unfold len. rewrite Nat2Z.id, drop_all. cbn. lia.
  - rewrite Ep. split; [rewrite len_app; pose proof (len_nonneg p1); pose proof (len_nonneg (b :: p2)); lia|].
    assert (Hcut : cut_line f (len p1) = cb_firstLine b).
    { unfold cut_line. rewrite Ep, len_app. replace (len p1 <? _) with true by (symmetry; apply Z.ltb_lt; unfold len; cbn [length]; lia).
      f_equal. apply (nth_block_drop _ _ _ p2); [apply len_nonneg|]. unfold len. by rewrite Nat2Z.id, drop_app_length. }
    unfold kept_size. rewrite Hcut, Ep, Eg. unfold len at 1. rewrite Nat2Z.id, drop_app_length.
    pose proof (later_app_le _ lo1 lo2 Hp2). lia.
Qed.
End bounds.

(** ** The limit *)
Section limits.
Context `{Codecs, !CodecLaws} (w : World) (limit : Z) (Hc : clock_ok w) (Hlim : compressedBlockTargetBytes + 10 ≤ limit < 2 ^ 32).
Context (Hmax : 0 < MaxBytes w.(w_options)).
Notation max := (MaxBytes w.(w_options)).

Lemma age_start_range cutoff bs start : start ≤ age_start cutoff bs start ≤ start + len bs.
Proof.
  revert start. induction bs as [|b bs IH]; intros start; cbn [age_start]; [unfold len; cbn; lia|].
  destruct (_ <? _); [specialize (IH (start + 1))|]; unfold len in *; cbn [length]; lia.
Qed.

Lemma enforce_bounded f recs ix f' :
  log limit recs ix → in_memory f ix → f.(lf_handle) ≠ HNil →
  enforceLimit w.(w_clock) w.(w_rewrite) w.(w_options) f = (f', None) → f'.(lf_writeOffset) ≤ max.
Proof.
  intros Hl Hm Hh. unfold enforceLimit. destruct (lf_handle f) eqn:Eh; [| |done].
  all: set (aged := if 0 <? MaxAge _ then _ else _).
  all: assert (Ha : in_memory aged.1 ix ∧ lf_handle aged.1 = lf_handle f ∧ 0 ≤ aged.2 ≤ len (lf_blocks f) ∧ lf_blocks aged.1 = lf_blocks f
          ∧ lf_writeOffset aged.1 = lf_writeOffset f ∧ lf_gapOffsets aged.1 = lf_gapOffsets f).
  1,3: (unfold aged; destruct (0 <? MaxAge _); unfold nowTime; cbn [fst snd]; split_and!; try apply Hm; try done; try apply len_nonneg;
      match goal with |- context [age_start ?c ?b ?s] => pose proof (age_start_range c b s); cbn in *; lia end).
  all: destruct aged as [f1 start]; cbn [fst snd] in Ha; destruct Ha as (Hm1 & Eh1 & Hs & Eb & Ew & Eg).
  all: replace (0 <? max) with true by (symmetry; apply Z.ltb_lt; lia); cbn [andb]; destruct (Z.ltb_spec max (lf_writeOffset f1)) as [Hbig|Hok]; cbn [negb andb].
  all: try (destruct (Z.ltb_spec 0 start) as [Hst|Hst]; cbn [negb]; [|intros [= <-]; lia]).
  all: intros E.
  1,3: destruct (size_start_kept limit f1 recs ix Hl Hm1 (Z.quot (max * compressedRetentionNumerator) compressedRetentionDenominator) (len (lf_blocks f1)))
       as [Hr Hk]; [apply Z.quot_pos; unfold compressedRetentionNumerator, compressedRetentionDenominator; lia|done|].
  1,2: assert (Hq : Z.quot (max * compressedRetentionNumerator) compressedRetentionDenominator ≤ max)
       by (unfold compressedRetentionNumerator, compressedRetentionDenominator; rewrite Z.quot_div_nonneg by lia; apply Z.div_le_upper_bound; lia).
  1,2: match type of E with rewriteBlocks _ _ _ ?s = _ => set (from := s) in * end.
  1,2: set (sz := size_start _ _ _ _ _ _) in *.
  1,2: assert (Hfrom : sz ≤ from ≤ len (lf_blocks f1)) by (unfold from; rewrite Eb in *; destruct (Z.gtb_spec sz start); lia).
  1,2: apply rewrite_size in E; [|lia]; rewrite E; pose proof (kept_mono limit f1 recs ix Hl Hm1 sz from ltac:(lia)); lia.
  all: rewrite (Z.gtb_ltb start start), Z.ltb_irrefl in E; apply rewrite_size in E; [|rewrite Eb; lia].
  all: rewrite E; pose proof (kept_mono limit f1 recs ix Hl Hm1 0 start ltac:(lia)); pose proof (kept_all limit f1 recs ix Hl Hm1); lia.
Qed.

Notation clk := w.(w_clock).
Notation dw := w.(w_write).
Notation rw := w.(w_rewrite).
Notation opts := w.(w_options).

Definition within (f : LineFile) : Prop := f.(lf_writeOffset) ≤ max.

Lemma enforce_within f lines f' :
  holds limit f lines → f.(lf_handle) ≠ HNil → enforceLimit clk rw opts f = (f', None) → within f'.
Proof. intros (recs & ix & (Hl & Hd & Hm) & _) Hh. by apply (enforce_bounded f recs ix f' Hl (Hm Hh)). Qed.

Lemma flush_within f lines f' :
  holds limit f lines → flushPending clk dw rw opts f = (f', None) → within f →
  within f' ∧ ∃ lines', holds limit f' lines' ∧ len lines' ≤ len lines.
Proof.
  intros Hh E Hw. split.
  - destruct (flush_cases clk dw rw opts limit Hc Hlim f lines f' None Hh E) as [(-> & _)|[(n & m & e1 & _ & ?)|(f2 & Hh2 & _ & _ & H2 & _ & E2)]]; [done|done|].
    apply (enforce_within _ _ _ Hh2); [by rewrite H2|done].
  - apply (flush_spec clk dw rw opts limit Hc Hlim f lines f' None Hh) in E as [(k & Hk & Hh' & _) _]. exists (drop k lines). split; [done|].
    unfold len. rewrite length_drop. lia.
Qed.

Lemma append_line_within f lines line f' :
  holds limit f lines → line_ok limit line → append_line clk dw rw opts f line = (f', None) → within f → within f'.
Proof.
  intros Hh Hline. unfold append_line. set (full := negb _ && _). destruct (if full then _ else _) as [f1 [e1|]] eqn:E1; [done|]. intros E Hw.
  assert (H1 : within f1 ∧ ∃ lines1, holds limit f1 lines1 ∧ (lf_pending f1 = [] ∨ lf_pendingBytes f1 + compactLineEncodedSize line ≤ compressedBlockTargetBytes)).
  { destruct full eqn:Ef; unfold full in Ef.
    - destruct (flush_within _ _ _ Hh E1 Hw) as [Hw1 (lines1 & Hh1 & _)]. split; [done|]. exists lines1. split; [done|left].
      by apply (flush_spec clk dw rw opts limit Hc Hlim f lines f1 None Hh E1).
    - injection E1 as <-. split; [done|]. exists lines. split; [done|]. destruct (lf_pending f); [by left|right]. cbn in Ef. lia. }
  destruct H1 as (Hw1 & lines1 & Hh1 & Hp1). pose proof (holds_pending limit Hlim f1 lines1 line Hh1 Hline Hp1) as Hh2.
  destruct (_ >=? _); [|by injection E as <-]. by apply (flush_within _ _ _ Hh2 E).
Qed.

Lemma append_lines_within news f lines f' :
  holds limit f lines → Forall (line_ok limit) news → append_lines clk dw rw opts f news = (f', None) → within f → within f'.
Proof.
  revert f lines. induction news as [|line news IH]; intros f lines Hh Hok; cbn [append_lines]; [by intros [= <-]|].
  apply Forall_cons in Hok as [Hline Hok]. destruct (append_line _ _ _ _ f line) as [f1 [e1|]] eqn:E1; [done|]. intros E Hw.
  pose proof (append_line_within _ _ _ _ Hh Hline E1 Hw) as Hw1.
  apply (append_line_spec clk dw rw opts limit Hc Hlim _ _ _ _ _ Hh Hline) in E1 as (part & rest & _ & _ & (k & _ & Hh1 & _)).
  by apply (IH _ _ Hh1 Hok E).
Qed.

Lemma settles_within f lines f' :
  settles clk rw opts limit f lines f' None → within f → within f'.
Proof.
  intros [(_ & _ & _ & E)|(f4 & Hh & H1 & _ & _ & E)] Hw; [unfold within; by rewrite E|].
  apply (enforce_within _ _ _ Hh); [by rewrite H1|done].
Qed.

Lemma run_op_within o f lines f' :
  holds limit f lines → Forall (line_ok limit) (op_lines o) → len lines < 2 ^ 32 → run_op w o f = (f', None) → within f → within f'.
Proof.
  intros Hh Hl Hn E Hw. destruct o as [new| | | |]; cbn [run_op op_lines] in *.
  - unfold AppendLines in E. destruct new as [|line new]; [by injection E as <-|]. cbn [is_empty] in E.
    destruct (lf_handle f); [| |done]; by apply (append_lines_within _ _ _ _ Hh Hl E).
  - unfold AppendBoundary in E. destruct (flushPending _ _ _ _ f) as [f1 [e1|]] eqn:E1; [done|].
    destruct (flush_within _ _ _ Hh E1 Hw) as [Hw1 (lines1 & Hh1 & _)]. apply (flush_spec clk dw rw opts limit Hc Hlim f lines f1 None Hh) in E1 as [_ Hp].
    apply (settles_within f1 lines1); [|done]. apply (boundary_settles clk dw rw opts limit Hc); auto.
  - unfold AppendGap in E. destruct (flushPending _ _ _ _ f) as [f1 [e1|]] eqn:E1; [done|].
    destruct (flush_within _ _ _ Hh E1 Hw) as [Hw1 (lines1 & Hh1 & Hl1)]. apply (flush_spec clk dw rw opts limit Hc Hlim f lines f1 None Hh) in E1 as [_ Hp].
    apply (settles_within f1 lines1); [|done]. apply (gap_settles clk dw rw opts limit Hc); auto. lia.
  - unfold PruneRetention in E. destruct (lf_handle f); [| |by injection E as <-].
    all: destruct (flushPending _ _ _ _ f) as [f1 [e1|]] eqn:E1; [done|].
    all: destruct (flush_within _ _ _ Hh E1 Hw) as [Hw1 (lines1 & Hh1 & _)].
    all: destruct (decide (lf_handle f1 = HNil)) as [En|En]; [unfold enforceLimit in E; rewrite En in E; by injection E as <-|].
    all: by apply (enforce_within _ _ _ Hh1 En).
  - unfold Sync in E. destruct (lf_handle f); [| |by injection E as <-]; by apply (flush_within _ _ _ Hh E).
Qed.

Lemma run_ops_within ops f lines f' es :
  holds limit f lines → Forall (line_ok limit) (concat (op_lines <$> ops)) →
  len lines + len (concat (op_lines <$> ops)) < 2 ^ 32 → run_ops w ops f = (f', es) → Forall (eq None) es → within f → within f'.
Proof.
  revert f lines es. induction ops as [|o ops IH]; intros f lines es Hh Hok Hn; cbn [run_ops]; [by intros [= <- _]|].
  cbn [fmap list_fmap concat] in Hok, Hn. apply Forall_app in Hok as [Ho Hok]. rewrite len_app in Hn.
  pose proof (len_nonneg (op_lines o)). pose proof (len_nonneg (concat (op_lines <$> ops))).
  destruct (run_op w o f) as [f1 e] eqn:E1. destruct (run_ops w ops f1) as [f2 es2] eqn:E2. intros [= <- <-] [He Hes]%Forall_cons Hw.
  subst e. pose proof (run_op_within o f lines f1 Hh Ho ltac:(lia) E1 Hw) as Hw1.
  apply (run_op_spec w limit Hc Hlim _ _ _ _ _ Hh Ho ltac:(lia)) in E1 as (part & rest & Epr & He & (k1 & Hk1 & Hh1 & Hn1)).
  apply (IH f1 _ es2 Hh1 Hok); try done. rewrite Epr, len_app in Hn. pose proof (len_nonneg rest). unfold len in *. rewrite length_drop, length_app. lia.
Qed.
End limits.

(** C35: With a limit set, a history file whose operations succeed is never larger than the limit, whatever is appended
    and however the blocks compress. *)
Theorem history_file_bounded `{Codecs, !CodecLaws} (w : World) (limit : Z) (ops : list op)
    (Hc : clock_ok w) (Hlimit : compressedBlockTargetBytes + 10 ≤ limit < 2 ^ 32) (Hmax : 0 < MaxBytes (w_options w))
    (Hok : Forall (line_ok limit) (concat (op_lines <$> ops))) (Hn : len (concat (op_lines <$> ops)) < 2 ^ 32) :
  let '(f, es) := run_ops w ops fresh in
  Forall (eq None) es → len f.(lf_data) ≤ MaxBytes (w_options w).
Proof.
  destruct (run_ops w ops fresh) as [f es] eqn:E. intros Hes.
  pose proof (fresh_holds limit Hlimit) as Hh. assert (Hn0 : len (@nil Line) + len (concat (op_lines <$> ops)) < 2 ^ 32) by exact Hn.
  pose proof (run_ops_within w limit Hc Hlimit Hmax ops fresh [] f es Hh Hok Hn0 E Hes ltac:(unfold within; cbn; lia)) as Hw.
  apply (run_ops_spec w limit Hc Hlimit ops fresh [] f es Hh Hok Hn0) in E as (parts & k & _ & (recs & ix & (Hl & Hd & Hm) & _) & _ & He).
  destruct (He Hes) as [Eh _]. destruct (Hm ltac:(by rewrite Eh)) as (_ & _ & _ & M4). unfold within in Hw.
  by rewrite Hd, <- (log_offset _ _ _ Hl), <- M4.
Qed.

#[local] Existing Instances FileDemo.codecs FileDemo.codec_laws.

Definition quiet : World := mkWorld (w_clock FileDemo.world) (λ _, None) (λ _, RwDone) (mkOptions 180 0 compressionS2).

Lemma history_file_bounded_witness : len (run_ops quiet FileDemo.ops fresh).1.(lf_data) ≤ 180.
Proof.
  pose proof (history_file_bounded quiet FileDemo.limit FileDemo.ops FileDemo.world_clock
    ltac:(split; [discriminate|reflexivity]) ltac:(reflexivity) FileDemo.lines_fit ltac:(reflexivity)) as H.
  assert (Hes : Forall (eq None) (run_ops quiet FileDemo.ops fresh).2) by (vm_compute; repeat constructor).
  destruct (run_ops quiet FileDemo.ops fresh) as [f es]. exact (H Hes).
Defined.

(** ** What the limit of the blocks forbids

    The writer does not look at the 2 MiB that a reader accepts: a line whose styles and links need more is written,
    and the file cannot be opened any more. *)
Section oversized.
Context `{Codecs, !CodecLaws} (clock : nat → Z) (disk_rewrite : nat → RewriteOutcome).
Notation plain := (mkOptions 0 0 compressionNone).

Lemma recover_refused f header rest e :
  f.(lf_data) = header ++ rest → len header = 32 → parseCompressedBlockHeader header = Err e → recover f = Err e.
Proof.
  intros Hd Hh He. unfold recover. rewrite Hd. assert (Hlen : length header = 32%nat) by (unfold len in Hh; lia).
  assert (∃ n, length (header ++ rest) = S n) as [n ->] by (exists (31 + length rest)%nat; rewrite length_app; lia).
  cbn [recover_loop]. rewrite Hd, len_app, Hh. unfold compressedBlockHeaderSize.
  pose proof (len_nonneg rest). replace (0 + 32 <=? 32 + len rest) with true by lia.
  assert (slice 0 (0 + 32) (header ++ rest) = header) as ->.
  { unfold slice. change (Z.to_nat (0 + 32 - 0)) with 32%nat. rewrite <- Hlen. change (Z.to_nat 0) with O. by rewrite drop_0, take_app_length. }
  by rewrite He.
Qed.

Lemma oversized_line_locks_history line ticks ios :
  storable line → compressedBlockMaxRawBytes < compactLineEncodedSize line < 2 ^ 31 →
  ∃ f, AppendLines clock (λ _, None) disk_rewrite plain fresh [line] = (f, None)
    ∧ OpenCompressedLineFile clock disk_rewrite plain f.(lf_data) ticks ios = Err "compressed history block exceeds size limit".
Proof.
  intros Hs Hsize. unfold AppendLines, append_lines, append_line. cbn [is_empty lf_handle fresh newCompressedLineFile lf_pending negb andb].
  unfold compressedBlockMaxRawBytes in Hsize.
  assert (E1 : (0 + compactLineEncodedSize line >=? compressedBlockTargetBytes) = true).
  { rewrite Z.geb_leb. apply Z.leb_le. unfold compressedBlockTargetBytes. lia. }
  set (f1 := fresh <| lf_pending := _ |> <| lf_pendingBytes := _ |>). change (lf_pendingBytes f1) with (0 + compactLineEncodedSize line).
  rewrite E1. unfold flushPending. change (lf_pending f1) with [line]. cbn [is_empty]. set (raw := encodeCompactLines [line]).
  assert (Ec : compressBlock plain raw = (compressedBlockCodecRaw, raw)).
  { unfold compressBlock. cbn. by rewrite (proj2 (Z.geb_le _ _)) by lia. }
  assert (Hraw : len raw = 1 + compactLineEncodedSize line).
  { unfold raw. rewrite encode_lines_concat, len_app. cbn [fmap list_fmap concat]. rewrite app_nil_r, <- line_bytes_size. done. }
  assert (Hne : raw ≠ []) by (intros E; rewrite E in Hraw; unfold len in Hraw; cbn in Hraw; lia).
  rewrite Ec. clearbody raw. unfold nowTime. set (f2 := f1 <| lf_ticks := _ |>). set (header := makeCompressedBlockHeader _ _ _ _ _ _ _).
  assert (Ew : write_record (λ _, None) f2 header raw = (f2 <| lf_ios := 2%nat |> <| lf_data := header ++ raw |>, None)).
  { unfold write_record, writeAllAtEnd. destruct raw as [|r raw']; [done|]. reflexivity. }
  rewrite Ew. assert (Een : ∀ g, enforceLimit clock disk_rewrite plain g = (g, None)) by (intros g; unfold enforceLimit; by destruct (lf_handle g)).
  rewrite Een. eexists. split; [reflexivity|]. unfold OpenCompressedLineFile. cbn [MaxBytes MaxAge Z.ltb Z.compare orb].
  match goal with |- context [discardObsoleteLineFile ?d] => change d with (header ++ raw) end.
  assert (discardObsoleteLineFile (header ++ raw) = header ++ raw) as ->.
  { assert (P : le_field (header ++ raw) 0 4 = compressedBlockMagic ∧ le_field (header ++ raw) 4 6 = compressedBlockVersion) by apply header_prefix.
    unfold discardObsoleteLineFile. rewrite (proj1 P), (proj2 P), len_app. change (len header) with 32.
    replace (6 <=? _) with true by lia. done. }
  rewrite (recover_refused _ header raw "compressed history block exceeds size limit"); [done|done|done|].
  unfold header. rewrite header_parsed; [|done|done|done|lia|lia|apply crc32_range]. unfold compressedBlockMaxRawBytes.
  by replace (_ || _) with true by lia.
Qed.
End oversized.
