(* ===== verification/HistEngine.v ===== *)
(** * The history engine

    [core/history/linehist/engine.go]: the assembler in front of a line storage. The storage is an interface: the class
    below has its operations, the laws say what the engine and the store rely on.

    The engine's mutex makes each method one step. A long read releases it between batches: the file is then the one
    at the time of each batch, and a context may be cancelled before any batch or line. *)
From S2P Require Import Prelude GoStd HistLine HistFile.
Local Open Scope Z_scope.
Local Open Scope bool_scope.
Local Open Scope list_scope.

(** ** The storage *)
Class LineStorage (F : Type) := {
  ls_AppendLines : F → list Line → F * option goerr;
  ls_AppendBoundary : F → F * option goerr;
  ls_LineCount : F → Z;
  ls_Base : F → Z;
  ls_Lines : F → Z → Z → list Line * option goerr;
  ls_VisitLines {S : Type} : (S → Z → Line → S * bool) → F → Z → Z → bool → S → S * option goerr;
  ls_Sync : F → F * option goerr;
  ls_Close : F → F * option goerr;
  ls_PruneRetention : F → F * option goerr;
  ls_RetentionEpoch : F → Z;
  ls_AppendGap : F → F * option goerr;
  ls_GapOffsets : F → list Z }.

(** What an operation leaves when it reports no error: the lines, less some of the oldest under a new epoch. *)
Definition kept {F} `{LineStorage F} (holds : F → list Line → Prop) (f : F) (lines : list Line) (f' : F) : Prop :=
  ∃ k, (k ≤ length lines)%nat ∧ holds f' (drop k lines)
    ∧ (k = O ∧ ls_RetentionEpoch f' = ls_RetentionEpoch f ∨ ls_RetentionEpoch f < ls_RetentionEpoch f').

Class LineStorageLaws (F : Type) `{LineStorage F} := {
  ls_holds : F → list Line → Prop;
  ls_storable : Line → Prop;
  ls_room : Z → Prop;
  ls_room_le n m : n ≤ m → ls_room m → ls_room n;
  ls_count_ok f lines : ls_holds f lines → ls_LineCount f = len lines;
  ls_base_ok f : ls_Base f = 0;
  ls_visit_ok {S} (visit : S → Z → Line → S * bool) f lines start stop reverse s :
    ls_holds f lines → ls_VisitLines visit f start stop reverse s = (visit_spec visit lines start stop reverse s, None);
  ls_lines_ok f lines start stop : ls_holds f lines → 0 ≤ start ≤ stop → stop ≤ len lines →
    ls_Lines f start stop = (slice start stop lines, None);
  ls_append_ok f lines new f' : ls_holds f lines → ls_room (len lines) → Forall ls_storable new → ls_AppendLines f new = (f', None) →
    kept ls_holds f (lines ++ new) f';
  ls_boundary_ok f lines f' : ls_holds f lines → ls_room (len lines) → ls_AppendBoundary f = (f', None) → kept ls_holds f lines f';
  ls_gap_ok f lines f' : ls_holds f lines → ls_room (len lines) → ls_AppendGap f = (f', None) → kept ls_holds f lines f';
  ls_prune_ok f lines f' : ls_holds f lines → ls_room (len lines) → ls_PruneRetention f = (f', None) → kept ls_holds f lines f';
  ls_sync_ok f lines f' : ls_holds f lines → ls_room (len lines) → ls_Sync f = (f', None) → kept ls_holds f lines f' }.

Definition errRetentionChanged : goerr := "history retention changed".

(** A row of the screen, as the emulator shows it. *)
Record ScreenRow := mkScreenRow { sr_Cells : list VTermCell; sr_Wrapped : bool; sr_UpdatedAt : Z }.

(** A context: what its check before a batch and before a line answers. *)
Record Context := mkContext { ctx_batch : Z → option goerr; ctx_line : Z → option goerr }.

Section engine.
Context {F : Type} `{LineStorage F}.

Record Engine := mkEngine { en_asm : Assembler; en_file : F }.
#[export] Instance eta_engine : Eta Engine := λ e, mkEngine e.(en_asm) e.(en_file).

Definition NewEngine (file : F) : Engine := mkEngine NewAssembler file.

Definition append_to (e : Engine) (lines : list Line) : Engine * option goerr :=
  let '(file, err) := ls_AppendLines e.(en_file) lines in (e <| en_file := file |>, err).

Definition ApplyEvictedRows (e : Engine) (rows : list TerminalSemanticScrollOut) : Engine * option goerr :=
  if is_empty rows then (e, None)
  else
    let '(asm, batch) := append_rows rows e.(en_asm) in
    append_to (e <| en_asm := asm |>) batch.

Definition en_LineCount (e : Engine) : Z := ls_LineCount e.(en_file).
Definition VisibleLineRange (e : Engine) : Z * Z :=
  (ls_Base e.(en_file), ls_LineCount e.(en_file) - ls_Base e.(en_file)).
Definition en_RetentionEpoch (e : Engine) : Z := ls_RetentionEpoch e.(en_file).
Definition en_GapOffsets (e : Engine) : list Z := ls_GapOffsets e.(en_file).

Definition en_PruneRetention (e : Engine) : Engine * option goerr :=
  let '(file, err) := ls_PruneRetention e.(en_file) in (e <| en_file := file |>, err).

(** The open tail becomes a line of its own. *)
Definition seal_tail (e : Engine) : Engine * option goerr :=
  match SealOpen e.(en_asm) with
  | (asm, Some line) => append_to (e <| en_asm := asm |>) [line]
  | (asm, None) => (e <| en_asm := asm |>, None)
  end.

Definition ApplyClearScrollbackBoundary (e : Engine) : Engine * option goerr :=
  match seal_tail e with
  | (e, Some err) => (e, Some err)
  | (e, None) => let '(file, err) := ls_AppendBoundary e.(en_file) in (e <| en_file := file |>, err)
  end.

Definition en_AppendGapBoundary (e : Engine) : Engine * option goerr :=
  match seal_tail e with
  | (e, Some err) => (e, Some err)
  | (e, None) => let '(file, err) := ls_AppendGap e.(en_file) in (e <| en_file := file |>, err)
  end.

Definition en_SealOpenTail (e : Engine) : Engine * option goerr := seal_tail e.

Definition scroll_out_of_screen (row : ScreenRow) : TerminalSemanticScrollOut :=
  mkScrollOut row.(sr_Cells) [] row.(sr_UpdatedAt) row.(sr_Wrapped) true.

Definition SealPrimaryScreenRows (e : Engine) (rows : list ScreenRow) : Engine * option goerr :=
  let '(asm, batch) := append_rows (scroll_out_of_screen <$> rows) e.(en_asm) in
  let '(asm, line) := SealOpen asm in
  let batch := match line with Some line => batch ++ [line] | None => batch end in
  if is_empty batch then (e <| en_asm := asm |>, None) else append_to (e <| en_asm := asm |>) batch.

(** [now] is the clock at each line. *)
Definition en_AppendLifecycleLines (now : nat → Z) (e : Engine) (texts : list bytes) : Engine * option goerr :=
  if is_empty texts then (e, None)
  else append_to e (imap (λ i text, mkLine [mkRun text no_style [] []] true (now i)) texts).

Definition en_Sync (e : Engine) : Engine * option goerr :=
  let '(file, err) := ls_Sync e.(en_file) in (e <| en_file := file |>, err).

(** [errors.Join] keeps every error; here the first. *)
Definition en_Close (e : Engine) : Engine * option goerr :=
  let '(e, err1) := seal_tail e in
  let '(file, err2) := ls_Close e.(en_file) in
  (e <| en_file := file |>, match err1 with Some err => Some err | None => err2 end).

Definition OpenTail (e : Engine) : list Run := asm_Open e.(en_asm).
Definition OpenTailUpdatedAt (e : Engine) : Z := OpenUpdatedAt e.(en_asm).

(** ** Reads fenced by the epoch *)
Definition LinesAtRetention (e : Engine) (epoch start stop : Z) : list Line * option goerr :=
  if negb (en_RetentionEpoch e =? epoch) then ([], Some errRetentionChanged) else ls_Lines e.(en_file) start stop.

Section visits.
Context {S : Type} (visit : S → Z → Line → S * bool).

Definition VisitLinesAtRetention (e : Engine) (epoch start stop : Z) (reverse : bool) (s : S) : S * option goerr :=
  if negb (en_RetentionEpoch e =? epoch) then (s, Some errRetentionChanged)
  else ls_VisitLines visit e.(en_file) start stop reverse s.

(** Batches: [engine_at] is the engine when the batch that starts there is read. The range shrinks by a batch each
    time, so its length is enough fuel. *)
Fixpoint batches (ctx : Context) (engine_at : Z → Engine) (epoch start stop batchSize : Z) (fuel : nat) (s : S) : S * option goerr :=
  match fuel with
  | O => (s, None)
  | Datatypes.S fuel =>
      if start <? stop then
        match ctx.(ctx_batch) start with
        | Some err => (s, Some err)
        | None =>
            let batchEnd := Z.min stop (start + batchSize) in
            match LinesAtRetention (engine_at start) epoch start batchEnd with
            | (_, Some err) => (s, Some err)
            | (lines, None) =>
                let '(s, more) := visit_list visit start lines s in
                if more then batches ctx engine_at epoch batchEnd stop batchSize fuel s else (s, None)
            end
        end
      else (s, None)
  end.

Fixpoint batches_down (ctx : Context) (engine_at : Z → Engine) (epoch start stop batchSize : Z) (fuel : nat) (s : S) : S * option goerr :=
  match fuel with
  | O => (s, None)
  | Datatypes.S fuel =>
      if start <? stop then
        match ctx.(ctx_batch) stop with
        | Some err => (s, Some err)
        | None =>
            let batchStart := Z.max start (stop - batchSize) in
            match LinesAtRetention (engine_at batchStart) epoch batchStart stop with
            | (_, Some err) => (s, Some err)
            | (lines, None) =>
                let '(s, more) := visit_list_down visit (batchStart + len lines - 1) (rev lines) s in
                if more then batches_down ctx engine_at epoch start batchStart batchSize fuel s else (s, None)
            end
        end
      else (s, None)
  end.

Definition VisitLinesAtRetentionBatched (ctx : Context) (engine_at : Z → Engine) (epoch start stop : Z) (reverse : bool) (batchSize : Z)
    (s : S) : S * option goerr :=
  if stop <=? start then (s, None)
  else
    let batchSize := if batchSize <=? 0 then 256 else batchSize in
    let fuel := Z.to_nat (stop - start) in
    if reverse then batches_down ctx engine_at epoch start stop batchSize fuel s
    else batches ctx engine_at epoch start stop batchSize fuel s.
End visits.
End engine.
Arguments Engine F : clear implicits.
