(* ===== verification/HistStore.v ===== *)
(** * The history store

    [core/history/linehist/project.go] and [store.go]: the cold lines of the engine and the hot rows of the screen as
    one sequence of logical lines, read in windows of a bounded size, frozen under tokens and copied in chunks.

    Each method is one step under the ingest gate or the mutex of the store. The segmentation into grapheme clusters
    and the width of a string are parameters; the token is the text [fmt.Sprintf] makes of two decimal numbers. *)
From stdpp Require Import pretty.
From S2P Require Import Prelude GoStd HistLine HistFile HistEngine.
Local Open Scope Z_scope.
Local Open Scope bool_scope.
Local Open Scope list_scope.

(** ** Data *)
Definition MaxHistoryWindowLines : Z := 512.
Definition MaxHistoryWindowBytes : Z := Z.shiftl 60 10.
Definition MaxHistoryCopyBytes : Z := Z.shiftl 1 20.
Definition MaxHistoryCopyLines : Z := 100000.

Definition ErrHistoryInvalidMutation : goerr := "invalid history mutation".
Definition ErrHistoryWindowLimit : goerr := "history window limit must be between 1 and 512".
Definition ErrHistoryWindowTooLarge : goerr := "history window line exceeds response budget".
Definition ErrHistoryCopyTooLarge : goerr := "history selection exceeds copy limit".
Definition ErrHistoryStaleWindow : goerr := "stale history window".
(** [SyncGapError], whatever the line. *)
Definition ErrHistorySyncLost : goerr := "history crosses an output gap".

Record Cell := mkCell { c_Text : bytes; c_Width : Z; c_Style : CellStyle; c_LinkURL : bytes; c_LinkParams : bytes }.
Inductive LineKind := LineKindOrdinary | LineKindAltScreenFrame.
Inductive HistorySegment := SegmentNone | HistorySegmentCommitted | HistorySegmentCurrentPrimaryFrame | HistorySegmentCurrentAltFrame.
Inductive HistoryWindowOp := HistoryWindowReplace | HistoryWindowPrepend | HistoryWindowAppend.

(** The session and frame identifiers are always zero here and are left out, as are [RowInLine] and the time stamp
    of a window. *)
Record HistoryRow := mkRow {
  hr_Cells : list Cell; hr_Timestamp : Z; hr_Kind : LineKind; hr_Segment : HistorySegment; hr_LineID : Z;
  hr_FixedGrid : bool; hr_ScreenCols : Z; hr_ScreenRow : Z; hr_ScreenRowSet : bool; hr_Committed : bool; hr_Wrapped : bool }.

Record HistoryCursor := mkCursor {
  hc_Segment : HistorySegment; hc_LineID : Z; hc_Generation : Z; hc_Token : string; hc_Valid : bool }.
Record HistoryBoundary := mkBoundary { hb_FirstLineID : Z; hb_LastLineID : Z; hb_Cursor : HistoryCursor }.
#[export] Instance eta_boundary : Eta HistoryBoundary := λ b, mkBoundary b.(hb_FirstLineID) b.(hb_LastLineID) b.(hb_Cursor).
Record HistoryViewportAnchor := mkAnchor {
  va_TopLineID : Z; va_TopCellOffset : Z; va_AtEnd : bool; va_ScreenCols : Z; va_ScreenRows : Z; va_Valid : bool }.
Definition no_anchor : HistoryViewportAnchor := mkAnchor 0 0 false 0 0 false.

Record HistoryLineSpan := mkSpan {
  sp_StartRow : Z; sp_EndRow : Z; sp_Kind : LineKind; sp_Segment : HistorySegment; sp_LogicalLineID : Z; sp_Timestamp : Z;
  sp_ScreenRow : Z; sp_ScreenRowSet : bool }.

Record HistoryWindow := mkWindow {
  hw_TerminalID : string; hw_Token : string; hw_Op : HistoryWindowOp; hw_Cols : Z; hw_Rows : list HistoryRow;
  hw_Lines : list HistoryLineSpan; hw_Generation : Z; hw_Boundary : HistoryBoundary; hw_HasMore : bool; hw_LogicalTotal : Z;
  hw_ViewportAnchor : HistoryViewportAnchor }.
#[export] Instance eta_window : Eta HistoryWindow := λ w,
  mkWindow w.(hw_TerminalID) w.(hw_Token) w.(hw_Op) w.(hw_Cols) w.(hw_Rows) w.(hw_Lines) w.(hw_Generation) w.(hw_Boundary)
    w.(hw_HasMore) w.(hw_LogicalTotal) w.(hw_ViewportAnchor).

Record HistoryWindowRequest := mkRequest {
  rq_TerminalID : string; rq_Cols : Z; rq_Limit : Z; rq_Token : string; rq_Cursor : HistoryCursor }.
#[export] Instance eta_request : Eta HistoryWindowRequest := λ r,
  mkRequest r.(rq_TerminalID) r.(rq_Cols) r.(rq_Limit) r.(rq_Token) r.(rq_Cursor).
Definition no_cursor : HistoryCursor := mkCursor SegmentNone 0 0 "" false.

(** The screen when the store looks at it. *)
Record ScreenSnapshot := mkSnapshot {
  sn_Cols : Z; sn_ViewportRows : Z; sn_Rows : list ScreenRow; sn_InAlt : bool; sn_PrimaryRows : list ScreenRow }.
Definition no_screen : ScreenSnapshot := mkSnapshot 0 0 [] false [].

(** [liveView], and [frozenView], which has the same fields. *)
Record liveView := mkView {
  lv_coldBase : Z; lv_coldCount : Z; lv_cols : Z; lv_hot : list HistoryRow; lv_generation : Z; lv_retention : Z;
  lv_gaps : list Z; lv_anchor : HistoryViewportAnchor }.

Definition clampInt (value minValue maxValue : Z) : Z :=
  if value <? minValue then minValue else if value >? maxValue then maxValue else value.

(** ** Projection *)

(** The libraries of text. *)
Class TextWidth := {
  FirstGraphemeCluster : bytes → bytes * Z;
  StringWidth : bytes → Z }.
(** A cluster is a part of a text that is not empty, from its start. *)
Class TextWidthLaws `{TextWidth} : Prop := {
  cluster_prefix text : text ≠ [] → ∃ rest, text = (FirstGraphemeCluster text).1 ++ rest ∧ (FirstGraphemeCluster text).1 ≠ [] }.

Section projection.
Context `{TextWidth}.

(** The text shrinks by a cluster each time, so its length is enough fuel. *)
Fixpoint clusters (fuel : nat) (run : Run) (text : bytes) : list Cell :=
  match fuel with
  | O => []
  | S fuel =>
      if is_empty text then []
      else
        let '(cluster, width) := FirstGraphemeCluster text in
        if is_empty cluster then []
        else mkCell cluster width run.(Style) run.(LinkURL) run.(LinkParams) :: clusters fuel run (drop (length cluster) text)
  end.
Definition cellsFromRuns (runs : list Run) : list Cell :=
  concat ((λ run, clusters (length run.(Text)) run run.(Text)) <$> runs).

Definition cell_of_vterm (cell : VTermCell) : option Cell :=
  (λ text, let '(url, params) := cell_link cell in
           mkCell text (Z.max 0 cell.(vc_Width)) (historyStyleFromVTerm cell.(vc_Style)) url params) <$> cell_text cell.
Definition cellsFromVTermCells (cells : list VTermCell) : list Cell := omap cell_of_vterm cells.

Definition historyCellsDisplayWidth (cells : list Cell) : Z :=
  foldl (λ width cell, if 0 <? cell.(c_Width) then width + cell.(c_Width) else width) 0 cells.

Definition historyCellsShareBudgetRun (left right : Cell) : bool :=
  (left.(c_Width) =? right.(c_Width)) && bool_decide (left.(c_Style) = right.(c_Style))
  && bool_decide (left.(c_LinkURL) = right.(c_LinkURL)) && bool_decide (left.(c_LinkParams) = right.(c_LinkParams)).

Definition run_budget (cell : Cell) : Z :=
  24 + len cell.(c_Style).(FG) + len cell.(c_Style).(BG) + len cell.(c_LinkURL) + len cell.(c_LinkParams).

(** The cells one after the other, with the one before. *)
Fixpoint cells_budget (previous : option Cell) (cells : list Cell) (size : Z) : Z :=
  match cells with
  | [] => size
  | cell :: cells =>
      let shared := match previous with Some p => historyCellsShareBudgetRun p cell | None => false end in
      cells_budget (Some cell) cells (size + (if shared then 0 else run_budget cell) + len cell.(c_Text))
  end.
Definition historyRowBudgetBytes (row : HistoryRow) : Z := cells_budget None row.(hr_Cells) 96.

(** The budget of a line is that of its cells, but the walk ends where the limit is passed. *)
Fixpoint line_budget (previous : option Cell) (cells : list Cell) (size : Z) : Z :=
  match cells with
  | [] => size
  | cell :: cells =>
      let shared := match previous with Some p => historyCellsShareBudgetRun p cell | None => false end in
      let size := size + (if shared then 0 else run_budget cell) + len cell.(c_Text) in
      if size >? MaxHistoryWindowBytes then size else line_budget (Some cell) cells size
  end.
Definition historyLineBudgetBytes (line : Line) : Z := line_budget None (cellsFromRuns line.(Runs)) 96.

Definition historyRowFromColdLine (line : Line) (logicalIndex : Z) : HistoryRow :=
  mkRow (cellsFromRuns line.(Runs)) line.(UpdatedAt) LineKindOrdinary HistorySegmentCommitted (logicalIndex + 1)
    false 0 0 false true (negb line.(HardEnd)).

(** ** The hot rows *)

(** Cells and the time of an open line, with whether it was begun, over the rows of the screen. *)
Fixpoint hot_lines (current : list Cell) (at_time : Z) (haveCurrent : bool) (rows : list ScreenRow) : list (list Cell * Z) :=
  match rows with
  | [] => if haveCurrent then [(current, at_time)] else []
  | row :: rows =>
      let current := current ++ cellsFromVTermCells row.(sr_Cells) in
      let at_time := if After row.(sr_UpdatedAt) at_time then row.(sr_UpdatedAt) else at_time in
      if row.(sr_Wrapped) then hot_lines current at_time true rows
      else (current, at_time) :: hot_lines [] zero_time false rows
  end.

Definition hot_row (id : Z) (line : list Cell * Z) : HistoryRow :=
  mkRow line.1 line.2 LineKindOrdinary HistorySegmentCurrentPrimaryFrame id false 0 0 false false false.
Definition alt_row (cols id r : Z) (row : ScreenRow) : HistoryRow :=
  mkRow (cellsFromVTermCells row.(sr_Cells)) row.(sr_UpdatedAt) LineKindAltScreenFrame HistorySegmentCurrentAltFrame id
    true cols r true false false.

Definition hotRowsFromScreen (coldCount : Z) (openTail : list Run) (openTailUpdatedAt : Z) (snap : ScreenSnapshot)
    : list HistoryRow * HistoryViewportAnchor :=
  let primaryRows := if snap.(sn_InAlt) then snap.(sn_PrimaryRows) else snap.(sn_Rows) in
  let current := cellsFromRuns openTail in
  let lines := hot_lines current openTailUpdatedAt (negb (is_empty current)) primaryRows in
  let rows := imap (λ i, hot_row (coldCount + 1 + Z.of_nat i)) lines in
  let nextID := coldCount + 1 + len lines in
  let anchor top offset at_end :=
    mkAnchor top offset at_end snap.(sn_Cols) snap.(sn_ViewportRows) (0 <? snap.(sn_ViewportRows)) in
  if snap.(sn_InAlt) then
    (rows ++ imap (λ r, alt_row snap.(sn_Cols) (nextID + Z.of_nat r) (Z.of_nat r)) snap.(sn_Rows),
     if is_empty snap.(sn_Rows) then anchor 0 0 true else anchor nextID 0 false)
  else (rows, if is_empty primaryRows then anchor 0 0 true else anchor (coldCount + 1) (historyCellsDisplayWidth current) false).

(** ** Windows *)
Definition normalizedLimit (limit : Z) : result Z :=
  if (limit <? 1) || (limit >? MaxHistoryWindowLines) then Err ErrHistoryWindowLimit else Ok limit.

Definition boundaryForRows (rows : list HistoryRow) (generation : Z) (token : string) : HistoryBoundary :=
  match rows, last rows with
  | row :: _, Some last =>
      mkBoundary row.(hr_LineID) last.(hr_LineID) (mkCursor row.(hr_Segment) row.(hr_LineID) generation token true)
  | _, _ => mkBoundary 0 0 (mkCursor SegmentNone 0 generation token false)
  end.

Definition cursorBeforeLine (row : HistoryRow) (generation : Z) (token : string) (valid : bool) : HistoryCursor :=
  mkCursor row.(hr_Segment) row.(hr_LineID) generation token valid.

Definition spansForRows (rows : list HistoryRow) : list HistoryLineSpan :=
  imap (λ i row, mkSpan (Z.of_nat i) (Z.of_nat i) row.(hr_Kind) row.(hr_Segment) row.(hr_LineID) row.(hr_Timestamp)
                   row.(hr_ScreenRow) row.(hr_ScreenRowSet)) rows.

Definition rowText (cells : list Cell) : bytes := concat (c_Text <$> cells).

Definition buildWindow (req : HistoryWindowRequest) (rows : list HistoryRow) (total : Z) (op : HistoryWindowOp)
    (boundary : HistoryBoundary) (generation : Z) (hasMore : bool) : HistoryWindow :=
  let total := if total <? len rows then len rows else total in
  mkWindow req.(rq_TerminalID) req.(rq_Token) op req.(rq_Cols) rows (spansForRows rows) generation boundary hasMore total no_anchor.

Definition viewLogicalTotal (view : liveView) : Z := view.(lv_coldCount) + len view.(lv_hot).

Definition validateGapRange (view : liveView) (start stop : Z) : option goerr :=
  if existsb (λ gap, (start <? gap) && (gap <? stop)) view.(lv_gaps) then Some ErrHistorySyncLost else None.

(** The rows read so far, the budget used, where the page ends, and whether the budget stopped it. *)
Record page := mkPage { pg_rows : list HistoryRow; pg_used : Z; pg_edge : Z; pg_stopped : bool }.

(** [reserve] and [appendRow]; a page read backwards collects its rows in front. *)
Definition take_row (backward : bool) (p : page) (cost index : Z) (row : HistoryRow) : page * bool :=
  if p.(pg_used) + cost >? MaxHistoryWindowBytes then (mkPage p.(pg_rows) p.(pg_used) p.(pg_edge) true, false)
  else if backward then (mkPage (row :: p.(pg_rows)) (p.(pg_used) + cost) index false, true)
  else (mkPage (p.(pg_rows) ++ [row]) (p.(pg_used) + cost) (index + 1) false, true).

Fixpoint hot_rows (p : page) (index : Z) (rows : list HistoryRow) : page :=
  match rows with
  | [] => p
  | row :: rows => let '(p, more) := take_row false p (historyRowBudgetBytes row) index row in
                   if more then hot_rows p (index + 1) rows else p
  end.
Fixpoint hot_rows_down (p : page) (index : Z) (rows : list HistoryRow) : page :=
  match rows with
  | [] => p
  | row :: rows => let '(p, more) := take_row true p (historyRowBudgetBytes row) index row in
                   if more then hot_rows_down p (index - 1) rows else p
  end.
End projection.

(** ** The store *)
Section store.
Context `{TextWidth} {F : Type} `{LineStorage F}.

(** [screen] is what the bound screen shows now; the identifier of the store is fixed. *)
Record Store := mkStore {
  s_terminalID : string; s_engine : Engine F; s_screen : ScreenSnapshot; s_generation : Z; s_storeID : N; s_nextToken : N;
  s_frozen : gmap string liveView; s_retention : Z }.
#[export] Instance eta_store : Eta Store := λ s,
  mkStore s.(s_terminalID) s.(s_engine) s.(s_screen) s.(s_generation) s.(s_storeID) s.(s_nextToken) s.(s_frozen) s.(s_retention).

Definition NewStore (terminalID : string) (engine : Engine F) (storeID : N) : Store :=
  mkStore terminalID engine no_screen 0 storeID 0 ∅ (en_RetentionEpoch engine).

(** [Bind] gives the store the function that takes the snapshot; here it is what that function returns from now on. *)
Definition Bind (s : Store) (screen : ScreenSnapshot) : Store := s <| s_screen := screen |>.

Definition terminalIDFor (s : Store) (terminalID : string) : string :=
  if String.eqb terminalID "" then s.(s_terminalID) else terminalID.

Definition noteHistoryMutation (s : Store) : Store :=
  let retention := en_RetentionEpoch s.(s_engine) in
  let s := if retention =? s.(s_retention) then s else s <| s_frozen := ∅ |> <| s_retention := retention |> in
  s <| s_generation := u64 (s.(s_generation) + 1) |>.

(** A call of the engine and the note after it. *)
Definition noted (s : Store) (r : Engine F * option goerr) : Store * option goerr :=
  let '(e, err) := r in (noteHistoryMutation (s <| s_engine := e |>), err).

(** The evicted rows of a transaction and whether it clears the scrollback. *)
Definition ApplyTransaction (s : Store) (evicted : list TerminalSemanticScrollOut) (clear : bool) : Store * option goerr :=
  noted s (match ApplyEvictedRows s.(s_engine) evicted with
           | (e, None) => if clear then ApplyClearScrollbackBoundary e else (e, None)
           | (e, Some err) => (e, Some err)
           end).

Definition SealOpenTail (s : Store) : Store * option goerr := noted s (en_SealOpenTail s.(s_engine)).

Definition primary_rows (snap : ScreenSnapshot) : list ScreenRow :=
  if snap.(sn_InAlt) then snap.(sn_PrimaryRows) else snap.(sn_Rows).

Definition sealLifecycleTailUnderGate (s : Store) : Engine F * option goerr :=
  SealPrimaryScreenRows s.(s_engine) (primary_rows s.(s_screen)).
Definition SealLifecycleTail (s : Store) : Store * option goerr := noted s (sealLifecycleTailUnderGate s).

Definition AppendLifecycleLines (now : nat → Z) (s : Store) (lines : list bytes) : Store * option goerr :=
  if is_empty lines then (s, None) else noted s (en_AppendLifecycleLines now s.(s_engine) lines).

Definition AppendGapBoundary (s : Store) : Store * option goerr := noted s (en_AppendGapBoundary s.(s_engine)).

(** [reset] replaces the screen while the gate is held. *)
Definition TransitionOutputEpoch (s : Store) (reset : ScreenSnapshot) : Store * option goerr :=
  match sealLifecycleTailUnderGate s with
  | (e, Some err) => noted s (e, Some err)
  | (e, None) => match en_AppendGapBoundary e with
                 | (e, Some err) => noted s (e, Some err)
                 | (e, None) => noted (s <| s_screen := reset |>) (e, None)
                 end
  end.

Definition st_Sync (s : Store) : Store * option goerr :=
  let '(e, err) := en_Sync s.(s_engine) in (s <| s_engine := e |>, err).
Definition st_Close (s : Store) : Store * option goerr :=
  let '(e, err) := en_Close s.(s_engine) in (s <| s_engine := e |>, err).
Definition st_PruneRetention (s : Store) : Store * option goerr :=
  let before := en_RetentionEpoch s.(s_engine) in
  let '(e, err) := en_PruneRetention s.(s_engine) in
  let s := s <| s_engine := e |> in
  (if en_RetentionEpoch e =? before then s else noteHistoryMutation s, err).

(** ** Views *)
Definition captureLive (s : Store) (reqCols : Z) : liveView :=
  let '(coldBase, coldCount) := VisibleLineRange s.(s_engine) in
  let snap := s.(s_screen) in
  let cols := if reqCols <=? 0 then snap.(sn_Cols) else reqCols in
  let cols := if cols <=? 0 then 80 else cols in
  let '(hot, anchor) := hotRowsFromScreen coldCount (OpenTail s.(s_engine)) (OpenTailUpdatedAt s.(s_engine)) snap in
  mkView coldBase coldCount cols hot s.(s_generation) (en_RetentionEpoch s.(s_engine)) (en_GapOffsets s.(s_engine)) anchor.

Definition viewForRequest (s : Store) (req : HistoryWindowRequest) : result (HistoryWindowRequest * liveView) :=
  let req := req <| rq_TerminalID := terminalIDFor s req.(rq_TerminalID) |> in
  if String.eqb req.(rq_Token) "" then
    let view := captureLive s req.(rq_Cols) in
    Ok (if req.(rq_Cols) <=? 0 then req <| rq_Cols := view.(lv_cols) |> else req, view)
  else match s.(s_frozen) !! req.(rq_Token) with
       | None => Err ErrHistoryStaleWindow
       | Some view => Ok (if req.(rq_Cols) <=? 0 then req <| rq_Cols := view.(lv_cols) |> else req, view)
       end.

(** The callbacks that project a cold line and take its row. *)
Definition take_cold (backward : bool) (view : liveView) (p : page) (index : Z) (line : Line) : page * bool :=
  let logicalIndex := index - view.(lv_coldBase) in
  take_row backward p (historyLineBudgetBytes line) logicalIndex (historyRowFromColdLine line logicalIndex).

Definition stale (e : goerr) : goerr := if bool_decide (e = errRetentionChanged) then ErrHistoryStaleWindow else e.

Definition windowRowsBackward (e : Engine F) (view : liveView) (start stop : Z) : result (list HistoryRow * Z) :=
  let total := viewLogicalTotal view in
  let start := clampInt start 0 total in
  let stop := clampInt stop start total in
  let hotStart := Z.max start view.(lv_coldCount) in
  let hotEnd := Z.min stop (view.(lv_coldCount) + len view.(lv_hot)) in
  let p := hot_rows_down (mkPage [] 0 stop false) (hotEnd - 1)
             (rev (slice (hotStart - view.(lv_coldCount)) (hotEnd - view.(lv_coldCount)) view.(lv_hot))) in
  let '(p, err) :=
    if negb p.(pg_stopped) && (start <? view.(lv_coldCount)) then
      VisitLinesAtRetention (take_cold true view) e view.(lv_retention) (view.(lv_coldBase) + start)
        (view.(lv_coldBase) + Z.min stop view.(lv_coldCount)) true p
    else (p, None) in
  match err with
  | Some err => Err (stale err)
  | None => if p.(pg_stopped) && is_empty p.(pg_rows) then Err ErrHistoryWindowTooLarge else Ok (p.(pg_rows), p.(pg_edge))
  end.

Definition windowRowsForward (e : Engine F) (view : liveView) (start stop : Z) : result (list HistoryRow * Z) :=
  let total := viewLogicalTotal view in
  let start := clampInt start 0 total in
  let stop := clampInt stop start total in
  let '(p, err) :=
    if start <? view.(lv_coldCount) then
      VisitLinesAtRetention (take_cold false view) e view.(lv_retention) (view.(lv_coldBase) + start)
        (view.(lv_coldBase) + Z.min stop view.(lv_coldCount)) false (mkPage [] 0 start false)
    else (mkPage [] 0 start false, None) in
  match err with
  | Some err => Err (stale err)
  | None =>
      let hotStart := Z.max start view.(lv_coldCount) in
      let hotEnd := Z.min stop (view.(lv_coldCount) + len view.(lv_hot)) in
      let p := if p.(pg_stopped) then p
               else hot_rows p hotStart (slice (hotStart - view.(lv_coldCount)) (hotEnd - view.(lv_coldCount)) view.(lv_hot)) in
      if p.(pg_stopped) && is_empty p.(pg_rows) then Err ErrHistoryWindowTooLarge else Ok (p.(pg_rows), p.(pg_edge))
  end.

(** The page of a window request, after the gaps are checked. *)
Definition checked (view : liveView) (start stop : Z) (page : result (list HistoryRow * Z)) : result (list HistoryRow * Z) :=
  match validateGapRange view start stop with Some err => Err err | None => page end.

(** The boundary of a page whose cursor is set before one of its rows, when there is one. *)
Definition page_boundary (page : list HistoryRow) (cursor_row : option HistoryRow) (view : liveView) (token : string) (valid : bool)
    : HistoryBoundary :=
  let boundary := boundaryForRows page view.(lv_generation) token in
  match cursor_row with
  | Some row => boundary <| hb_Cursor := cursorBeforeLine row view.(lv_generation) token valid |>
  | None => boundary
  end.
Definition to_total (page : list HistoryRow) (total : Z) (boundary : HistoryBoundary) : HistoryBoundary :=
  if is_empty page then boundary else boundary <| hb_LastLineID := total |>.

Definition LatestWindow (s : Store) (req : HistoryWindowRequest) : result HistoryWindow :=
  let? rv := viewForRequest s req in
  let '(req, view) := rv in
  let total := viewLogicalTotal view in
  let? limit := normalizedLimit req.(rq_Limit) in
  let start := Z.max 0 (total - limit) in
  let? page := checked view start total (windowRowsBackward s.(s_engine) view start total) in
  let '(page, actualStart) := page in
  let boundary := page_boundary page (head page) view req.(rq_Token) (0 <? actualStart) in
  Ok ((buildWindow req page total HistoryWindowReplace boundary view.(lv_generation) (0 <? actualStart))
        <| hw_ViewportAnchor := view.(lv_anchor) |>).

Definition no_window (req : HistoryWindowRequest) (view : liveView) (op : HistoryWindowOp) : HistoryWindow :=
  buildWindow req [] (viewLogicalTotal view) op (mkBoundary 0 0 (mkCursor SegmentNone 0 view.(lv_generation) req.(rq_Token) false))
    view.(lv_generation) false.

Definition OlderWindow (s : Store) (req : HistoryWindowRequest) : result HistoryWindow :=
  let? rv := viewForRequest s req in
  let '(req, view) := rv in
  let total := viewLogicalTotal view in
  if negb req.(rq_Cursor).(hc_Valid) then Ok (no_window req view HistoryWindowPrepend)
  else
    let? limit := normalizedLimit req.(rq_Limit) in
    let stop := clampInt (req.(rq_Cursor).(hc_LineID) - 1) 0 total in
    let start := Z.max 0 (stop - limit) in
    let? page := checked view start stop (windowRowsBackward s.(s_engine) view start stop) in
    let '(page, actualStart) := page in
    let boundary := page_boundary page (head page) view req.(rq_Token) (0 <? actualStart) in
    Ok (buildWindow req page total HistoryWindowPrepend boundary view.(lv_generation) (0 <? actualStart)).

Definition OldestWindow (s : Store) (req : HistoryWindowRequest) : result HistoryWindow :=
  let? rv := viewForRequest s req in
  let '(req, view) := rv in
  let total := viewLogicalTotal view in
  let? limit := normalizedLimit req.(rq_Limit) in
  let stop := Z.min total limit in
  let? page := checked view 0 stop (windowRowsForward s.(s_engine) view 0 stop) in
  let '(page, actualEnd) := page in
  let boundary := to_total page total (page_boundary page (head page) view req.(rq_Token) false) in
  Ok (buildWindow req page total HistoryWindowReplace boundary view.(lv_generation) (actualEnd <? total)).

Definition NewerWindow (s : Store) (req : HistoryWindowRequest) : result HistoryWindow :=
  let? rv := viewForRequest s req in
  let '(req, view) := rv in
  let total := viewLogicalTotal view in
  if negb req.(rq_Cursor).(hc_Valid) then Ok (no_window req view HistoryWindowAppend)
  else
    let? limit := normalizedLimit req.(rq_Limit) in
    let start := clampInt req.(rq_Cursor).(hc_LineID) 0 total in
    let stop := Z.min total (start + limit) in
    let? page := checked view start stop (windowRowsForward s.(s_engine) view start stop) in
    let '(page, actualEnd) := page in
    let boundary := to_total page total (page_boundary page (last page) view req.(rq_Token) (actualEnd <? total)) in
    Ok (buildWindow req page total HistoryWindowAppend boundary view.(lv_generation) (actualEnd <? total)).

(** ** Freezing *)
Definition token_name (storeID n : N) : string :=
  "linehist-" +:+ pretty storeID +:+ "-" +:+ pretty n.

(** The snapshot: the token, and the boundary of its latest window. *)
Record FrozenHistorySnapshot := mkFrozen {
  fz_Token : string; fz_TerminalID : string; fz_Cols : Z; fz_CommittedUpperBound : Z; fz_FrozenFrontierLineIDs : list Z;
  fz_Boundary : HistoryBoundary; fz_ViewportAnchor : HistoryViewportAnchor; fz_Generation : Z }.

(** A line identifier once for neighbours that share it. *)
Fixpoint hot_ids (ids : list Z) (rows : list HistoryRow) : list Z :=
  match rows with
  | [] => ids
  | row :: rows =>
      if row.(hr_Committed) then hot_ids ids rows
      else if bool_decide (last ids = Some row.(hr_LineID)) then hot_ids ids rows
      else hot_ids (ids ++ [row.(hr_LineID)]) rows
  end.
Definition hotLineIDs (rows : list HistoryRow) : list Z := hot_ids [] rows.

Definition Freeze (s : Store) (terminalID : string) (cols limit : Z) : Store * result FrozenHistorySnapshot :=
  let view := captureLive s cols in
  match validateGapRange view 0 (viewLogicalTotal view) with
  | Some err => (s, Err err)
  | None =>
      let n := (s.(s_nextToken) + 1)%N in
      let token := token_name s.(s_storeID) n in
      let s' := s <| s_nextToken := n |> <| s_frozen := <[token := view]> s.(s_frozen) |> in
      let terminalID := terminalIDFor s terminalID in
      match LatestWindow s' (mkRequest terminalID cols limit token no_cursor) with
      | Err err => (s' <| s_frozen := delete token s'.(s_frozen) |>, Err err)
      | Ok latest =>
          (s', Ok (mkFrozen token terminalID cols view.(lv_coldCount) (hotLineIDs view.(lv_hot)) latest.(hw_Boundary)
                     view.(lv_anchor) view.(lv_generation)))
      end
  end.

Definition Release (s : Store) (token : string) : Store := s <| s_frozen := delete token s.(s_frozen) |>.
End store.
Arguments Store F : clear implicits.
