(* ===== verification/HistCopy.v ===== *)
(** * Copying from the history

    [CopyChunk] of [core/history/linehist/store.go] and the loop of the client that joins the chunks, [HistoryCopyRange]
    of [tui/adapter/protocol/history_storage.go]. *)
From S2P Require Import Prelude GoStd HistLine HistFile HistEngine HistStore.
Local Open Scope Z_scope.
Local Open Scope bool_scope.
Local Open Scope list_scope.

Record HistoryCopyPosition := mkPosition { cp_LineID : Z; cp_Col : Z }.
Record HistoryCopyRange := mkCopyRange { cr_Start : HistoryCopyPosition; cr_End : HistoryCopyPosition }.

Record HistoryCopyChunkRequest := mkCopyRequest {
  cq_TerminalID : string; cq_Token : string; cq_Cols : Z; cq_Range : option HistoryCopyRange; cq_MaxLines : Z; cq_MaxBytes : Z }.
Record HistoryCopyChunkResult := mkCopyResult { cc_Text : bytes; cc_Next : HistoryCopyPosition; cc_Done : bool }.
Definition no_position : HistoryCopyPosition := mkPosition 0 0.

Definition newline : bytes := [Byte.x0a].

Definition validateCopyRange (selection : HistoryCopyRange) : option goerr :=
  let s := selection.(cr_Start) in
  let e := selection.(cr_End) in
  if (s.(cp_Col) <? 0) || (e.(cp_Col) <? 0) then Some ErrHistoryInvalidMutation
  else if (e.(cp_LineID) <? s.(cp_LineID)) || ((s.(cp_LineID) =? e.(cp_LineID)) && (e.(cp_Col) <? s.(cp_Col)))
  then Some ErrHistoryInvalidMutation
  else None.

Definition lineOffsetForCopyPosition (id total fallback : Z) : Z :=
  clampInt (if id =? 0 then fallback else id - 1) 0 (Z.max 0 (total - 1)).

Section text.
Context `{TextWidth}.

(** A write of the builder, refused past the bound. *)
Definition write_bounded (maxBytes : Z) (text more : bytes) : option bytes :=
  if len more >? maxBytes - len text then None else Some (text ++ more).

(** One cell: its text when it shows inside the columns, then its padding inside them. *)
Definition cell_range (cell : Cell) (col startCol endCol maxBytes : Z) (text : bytes) : option bytes :=
  let width := Z.max 0 cell.(c_Width) in
  let cellEnd := col + width in
  if width =? 0 then
    if (startCol <=? col) && (col <? endCol) then write_bounded maxBytes text cell.(c_Text) else Some text
  else
    let naturalWidth := Z.max 0 (StringWidth cell.(c_Text)) in
    let textEnd := col + Z.min width naturalWidth in
    match (if (startCol <? textEnd) && (col <? endCol) then write_bounded maxBytes text cell.(c_Text) else Some text) with
    | None => None
    | Some text =>
        let paddingStart := Z.min cellEnd (col + naturalWidth) in
        let paddingColumns := Z.max 0 (Z.min cellEnd endCol - Z.max paddingStart startCol) in
        write_bounded maxBytes text (replicate (Z.to_nat paddingColumns) space)
    end.

Fixpoint cells_range (cells : list Cell) (col startCol endCol maxBytes : Z) (text : bytes) : option bytes :=
  match cells with
  | [] => Some text
  | cell :: cells =>
      match cell_range cell col startCol endCol maxBytes text with
      | None => None
      | Some text =>
          let col := col + Z.max 0 cell.(c_Width) in
          if endCol <=? col then Some text else cells_range cells col startCol endCol maxBytes text
      end
  end.

Definition rowTextRangeBounded (cells : list Cell) (startCol endCol maxBytes : Z) : option bytes :=
  if endCol <=? startCol then Some [] else cells_range cells 0 startCol endCol maxBytes [].

(** ** One chunk *)

(** The variables the callback of [CopyChunk] shares with it. *)
Record copying := mkCopying {
  cy_copied : Z; cy_text : bytes; cy_next : HistoryCopyPosition; cy_done : bool; cy_stopped : bool; cy_err : option goerr }.
#[export] Instance eta_copying : Eta copying := λ c,
  mkCopying c.(cy_copied) c.(cy_text) c.(cy_next) c.(cy_done) c.(cy_stopped) c.(cy_err).

Definition copy_line (ctx : Context) (req : HistoryCopyChunkRequest) (startLine endLine : Z) (c : copying) (offset : Z) (cells : list Cell)
    : copying * bool :=
  let stop_here := c <| cy_next := mkPosition (offset + 1) 0 |> <| cy_stopped := true |> in
  match ctx.(ctx_line) offset with
  | Some err => (c <| cy_err := Some err |>, false)
  | None =>
      if c.(cy_copied) >=? req.(cq_MaxLines) then (stop_here, false)
      else
        let startCol := match req.(cq_Range) with
                        | Some r => if offset =? startLine then r.(cr_Start).(cp_Col) else 0
                        | None => 0 end in
        let endCol := match req.(cq_Range) with
                      | Some r => if offset =? endLine - 1 then r.(cr_End).(cp_Col) else historyCellsDisplayWidth cells
                      | None => historyCellsDisplayWidth cells end in
        let separatorBytes := if offset >? startLine then 1 else 0 in
        let remaining := req.(cq_MaxBytes) - len c.(cy_text) - separatorBytes in
        if remaining <? 0 then (stop_here, false)
        else match rowTextRangeBounded cells startCol endCol remaining with
             | None => if c.(cy_copied) =? 0 then (c <| cy_err := Some ErrHistoryCopyTooLarge |>, false) else (stop_here, false)
             | Some fragment =>
                 let text := c.(cy_text) ++ (if separatorBytes =? 0 then [] else newline) ++ fragment in
                 let c := c <| cy_text := text |> <| cy_copied := c.(cy_copied) + 1 |> in
                 if offset =? endLine - 1 then (c <| cy_done := true |>, false)
                 else (c <| cy_next := mkPosition (offset + 2) 0 |>, true)
             end
  end.

Fixpoint copy_hot (ctx : Context) (req : HistoryCopyChunkRequest) (startLine endLine : Z) (c : copying) (offset : Z) (rows : list HistoryRow)
    : copying :=
  match rows with
  | [] => c
  | row :: rows => let '(c, more) := copy_line ctx req startLine endLine c offset row.(hr_Cells) in
                   if more then copy_hot ctx req startLine endLine c (offset + 1) rows else c
  end.

Context {F : Type} `{LineStorage F}.

Definition historySearchReadBatchLines : Z := 256.

(** The lines [startLine, endLine) of a view. *)
Definition copy_view (ctx : Context) (engine_at : Z → Engine F) (view : liveView) (req : HistoryCopyChunkRequest) (startLine endLine : Z)
    : result HistoryCopyChunkResult :=
  let c := mkCopying 0 [] no_position false false None in
  let '(c, err) :=
    if startLine <? view.(lv_coldCount) then
      VisitLinesAtRetentionBatched
        (λ c index line, copy_line ctx req startLine endLine c (index - view.(lv_coldBase)) (cellsFromRuns line.(Runs)))
        ctx engine_at view.(lv_retention) (view.(lv_coldBase) + startLine) (view.(lv_coldBase) + Z.min endLine view.(lv_coldCount))
        false historySearchReadBatchLines c
    else (c, None) in
  match err with
  | Some err => Err (stale err)
  | None =>
      let hotStart := Z.max startLine view.(lv_coldCount) in
      let hotEnd := Z.min endLine (view.(lv_coldCount) + len view.(lv_hot)) in
      let c := match c.(cy_err) with
               | None => if negb c.(cy_stopped) && negb c.(cy_done)
                         then copy_hot ctx req startLine endLine c hotStart
                                (slice (hotStart - view.(lv_coldCount)) (hotEnd - view.(lv_coldCount)) view.(lv_hot))
                         else c
               | Some _ => c
               end in
      match c.(cy_err) with
      | Some err => Err err
      | None => Ok (if negb c.(cy_stopped) && negb c.(cy_done) then mkCopyResult c.(cy_text) no_position true
                    else mkCopyResult c.(cy_text) c.(cy_next) c.(cy_done))
      end
  end.

(** The range of the request, in lines of the view. *)
Definition copy_bounds (view : liveView) (range : option HistoryCopyRange) : result (Z * Z) :=
  let total := viewLogicalTotal view in
  match range with
  | None => Ok (0, total)
  | Some r =>
      match validateCopyRange r with
      | Some err => Err err
      | None =>
          let s := r.(cr_Start).(cp_LineID) in
          let e := r.(cr_End).(cp_LineID) in
          if (total =? 0) || (s =? 0) || (e =? 0) || (total <? s) || (total <? e) then Err ErrHistoryInvalidMutation
          else Ok (lineOffsetForCopyPosition s total 0, lineOffsetForCopyPosition e total (total - 1) + 1)
      end
  end.

Definition CopyChunk (ctx : Context) (engine_at : Z → Engine F) (s : Store F) (req : HistoryCopyChunkRequest) : result HistoryCopyChunkResult :=
  if (req.(cq_MaxLines) <=? 0) || (req.(cq_MaxLines) >? MaxHistoryCopyLines) || (req.(cq_MaxBytes) <=? 0)
     || (req.(cq_MaxBytes) >? MaxHistoryCopyBytes)
  then Err ErrHistoryInvalidMutation
  else
    let? rv := viewForRequest s (mkRequest req.(cq_TerminalID) req.(cq_Cols) 0 req.(cq_Token) no_cursor) in
    let view := rv.2 in
    match req.(cq_Range) with
    | None => if viewLogicalTotal view =? 0 then Ok (mkCopyResult [] no_position true)
              else
                let? b := copy_bounds view None in
                if b.2 - b.1 >? MaxHistoryCopyLines then Err ErrHistoryCopyTooLarge
                else match validateGapRange view b.1 b.2 with
                     | Some err => Err err
                     | None => copy_view ctx engine_at view req b.1 b.2
                     end
    | Some r =>
        let? b := copy_bounds view (Some r) in
        if b.2 - b.1 >? MaxHistoryCopyLines then Err ErrHistoryCopyTooLarge
        else match validateGapRange view b.1 b.2 with
             | Some err => Err err
             | None => copy_view ctx engine_at view req b.1 b.2
             end
    end.

(** [Copy] is one chunk of the largest size. *)
Definition Copy (engine_at : Z → Engine F) (s : Store F) (terminalID token : string) (cols : Z) (range : option HistoryCopyRange) : result bytes :=
  let background := mkContext (λ _, None) (λ _, None) in
  let? r := CopyChunk background engine_at s (mkCopyRequest terminalID token cols range MaxHistoryCopyLines MaxHistoryCopyBytes) in
  if r.(cc_Done) then Ok r.(cc_Text) else Err ErrHistoryCopyTooLarge.

(** ** The client *)
Definition maxMaterializedCopyBytes : Z := Z.shiftl 64 20.
Definition ErrMissingHistoryResponse : goerr := "missing history response".

(** [ask] is the call of the daemon, for the n-th chunk. The line of the position grows each time; the fuel is a bound
    on the number of chunks. *)
Fixpoint copy_chunks (ask : nat → HistoryCopyRange → result HistoryCopyChunkResult) (stop : HistoryCopyPosition) (n fuel : nat)
    (current : HistoryCopyPosition) (text : bytes) (firstChunk : bool) : result bytes :=
  match fuel with
  | O => Err "out of fuel"
  | S fuel =>
      let? r := ask n (mkCopyRange current stop) in
      let separatorBytes := if firstChunk then 0 else 1 in
      if len text + separatorBytes + len r.(cc_Text) >? maxMaterializedCopyBytes then Err ErrHistoryCopyTooLarge
      else
        let text := text ++ (if firstChunk then [] else newline) ++ r.(cc_Text) in
        if r.(cc_Done) then Ok text
        else
          let next := r.(cc_Next) in
          if (next.(cp_LineID) =? 0) || (next.(cp_LineID) <=? current.(cp_LineID)) then Err ErrMissingHistoryResponse
          else copy_chunks ask stop (S n) fuel next text false
  end.

Definition clientCopyRange (ask : nat → HistoryCopyRange → result HistoryCopyChunkResult) (fuel : nat) (start stop : HistoryCopyPosition)
    : result bytes := copy_chunks ask stop 0 fuel start [] true.
End text.
