(* ===== verification/HistSearch.v ===== *)
(** * Searching a frozen history

    [core/history/linehist/search.go]: the next match of a text in the direction asked for, around the end when there
    is none before it. *)
From S2P Require Import Prelude GoStd HistLine HistFile HistEngine HistStore HistCopy.
Local Open Scope Z_scope.
Local Open Scope bool_scope.
Local Open Scope list_scope.

(** ** The standard library *)

Fixpoint has_prefix (s sub : bytes) : bool :=
  match sub, s with
  | [], _ => true
  | b :: sub, c :: s => bool_decide (b = c) && has_prefix s sub
  | _ :: _, [] => false
  end.

(** [strings.Index], [None] for -1. *)
Fixpoint strings_Index (s sub : bytes) : option nat :=
  if has_prefix s sub then Some O
  else match s with [] => None | _ :: s => S <$> strings_Index s sub end.

(** The size [utf8.DecodeRuneInString] returns: 0 for no text, 1 for a byte that starts no encoding. *)
Definition between (lo hi : Z) (b : Byte.byte) : bool := (lo <=? byte.unsigned b) && (byte.unsigned b <=? hi).
Definition continuation : Byte.byte → bool := between 128 191.
Definition rune_size (s : bytes) : nat :=
  match s with
  | [] => 0
  | b0 :: s =>
      match s with
      | b1 :: s' =>
          if between 194 223 b0 && continuation b1 then 2%nat
          else match s' with
               | b2 :: s'' =>
                   if continuation b2
                      && (between 224 224 b0 && between 160 191 b1 || between 225 236 b0 && continuation b1
                          || between 237 237 b0 && between 128 159 b1 || between 238 239 b0 && continuation b1) then 3%nat
                   else match s'' with
                        | b3 :: _ =>
                            if continuation b2 && continuation b3
                               && (between 240 240 b0 && between 144 191 b1 || between 241 243 b0 && continuation b1
                                   || between 244 244 b0 && between 128 143 b1) then 4%nat
                            else 1%nat
                        | [] => 1%nat
                        end
               | [] => 1%nat
               end
      | [] => 1%nat
      end
  end.

(** ** One line *)
Inductive HistorySearchDirection := HistorySearchForward | HistorySearchBackward.

Section lines.
Context `{TextWidth}.

Definition historySearchText (cells : list Cell) : bytes :=
  concat ((λ cell, cell.(c_Text) ++ replicate (Z.to_nat (Z.max 0 (cell.(c_Width) - StringWidth cell.(c_Text)))) space) <$> cells).

(** The offset moves on by a rune each time, so one more than the length of the text is enough fuel. *)
Fixpoint match_loop (fuel : nat) (text query : bytes) (reverse : bool) (minCol maxCol : Z) (byteOffset : nat) (found : option (Z * Z))
    : option (Z * Z) :=
  match fuel with
  | O => found
  | S fuel =>
      if (byteOffset <=? length text)%nat then
        match strings_Index (drop byteOffset text) query with
        | None => found
        | Some relative =>
            let startByte := (byteOffset + relative)%nat in
            let startCol := StringWidth (take startByte text) in
            let inside := (minCol <=? startCol) && ((maxCol <? 0) || (startCol <=? maxCol)) in
            let found := if inside then Some (startCol, StringWidth (take (startByte + length query) text)) else found in
            if inside && negb reverse then found
            else match rune_size (drop startByte text) with
                 | O => found
                 | size => match_loop fuel text query reverse minCol maxCol (startByte + size) found
                 end
        end
      else found
  end.

Definition findHistoryLineMatch (cells : list Cell) (query : bytes) (reverse : bool) (minCol maxCol : Z) : option (Z * Z) :=
  let text := historySearchText cells in
  if is_empty text || is_empty query then None
  else match_loop (S (length text)) text query reverse minCol maxCol 0 None.

(** ** A range of lines *)

(** [visit]: the match of a line, and whether to go on. *)
Definition visit_line (query : bytes) (reverse : bool) (constrainedLine minCol maxCol : Z) (found : option HistoryCopyRange)
    (logicalIndex : Z) (cells : list Cell) : option HistoryCopyRange * bool :=
  let '(lineMin, lineMax) := if logicalIndex =? constrainedLine then (minCol, maxCol) else (0, -1) in
  match findHistoryLineMatch cells query reverse lineMin lineMax with
  | None => (found, true)
  | Some (startMatch, endMatch) =>
      let lineID := logicalIndex + 1 in
      (Some (mkCopyRange (mkPosition lineID startMatch) (mkPosition lineID endMatch)), false)
  end.

Fixpoint search_hot (ctx : Context) (visit : option HistoryCopyRange → Z → list Cell → option HistoryCopyRange * bool)
    (index step : Z) (rows : list HistoryRow) (found : option HistoryCopyRange) : result (option HistoryCopyRange) :=
  match rows with
  | [] => Ok found
  | row :: rows =>
      match ctx.(ctx_line) index with
      | Some err => Err err
      | None => let '(found, more) := visit found index row.(hr_Cells) in
                if more then search_hot ctx visit (index + step) step rows found else Ok found
      end
  end.

Context {F : Type} `{LineStorage F}.

Definition searchLineRange (ctx : Context) (engine_at : Z → Engine F) (view : liveView) (query : bytes)
    (direction : HistorySearchDirection) (start stop constrainedLine minCol maxCol : Z) : result (option HistoryCopyRange) :=
  let reverse := match direction with HistorySearchBackward => true | HistorySearchForward => false end in
  let visit := visit_line query reverse constrainedLine minCol maxCol in
  let hotStart := Z.max start view.(lv_coldCount) in
  let hotEnd := Z.min stop (view.(lv_coldCount) + len view.(lv_hot)) in
  let hot := slice (hotStart - view.(lv_coldCount)) (hotEnd - view.(lv_coldCount)) view.(lv_hot) in
  let cold found :=
    if start <? view.(lv_coldCount) then
      match VisitLinesAtRetentionBatched (λ found index line, visit found (index - view.(lv_coldBase)) (cellsFromRuns line.(Runs)))
              ctx engine_at view.(lv_retention) (view.(lv_coldBase) + start) (view.(lv_coldBase) + Z.min stop view.(lv_coldCount))
              reverse historySearchReadBatchLines found with
      | (_, Some err) => Err err
      | (found, None) => Ok found
      end
    else Ok found in
  if reverse then
    let? found := search_hot ctx visit (hotEnd - 1) (-1) (rev hot) None in
    match found with Some _ => Ok found | None => cold None end
  else
    let? found := cold None in
    match found with Some _ => Ok found | None => search_hot ctx visit hotStart 1 hot None end.

(** The two ranges of a search; the second has wrapped around. *)
Definition then_wrapped (first second : result (option HistoryCopyRange)) : result (option (HistoryCopyRange * bool)) :=
  match first with
  | Err err => Err err
  | Ok (Some m) => Ok (Some (m, false))
  | Ok None => let? found := second in Ok ((λ m, (m, true)) <$> found)
  end.

(** The n-th of the two reads happens while the engine goes on, so each has its own context and engines. *)
Definition searchFrozenView (ctx : nat → Context) (engine_at : nat → Z → Engine F) (view : liveView) (query : bytes)
    (direction : HistorySearchDirection) (startLine startCol : Z) : result (option (HistoryCopyRange * bool)) :=
  let total := viewLogicalTotal view in
  let search n := searchLineRange (ctx n) (engine_at n) view query direction in
  match direction with
  | HistorySearchForward =>
      then_wrapped (search 0%nat startLine total startLine startCol (-1))
        (if startCol =? 0 then search 1%nat 0 startLine (-1) 0 (-1)
         else search 1%nat 0 (startLine + 1) startLine 0 (startCol - 1))
  | HistorySearchBackward =>
      if startCol =? 0 then
        then_wrapped (search 0%nat 0 startLine (-1) 0 (-1)) (search 1%nat startLine total startLine startCol (-1))
      else
        then_wrapped (search 0%nat 0 (startLine + 1) startLine 0 (startCol - 1)) (search 1%nat startLine total startLine startCol (-1))
  end.

(** ** The request *)
Record HistorySearchRequest := mkSearch {
  sq_TerminalID : string; sq_Token : string; sq_Cols : Z; sq_Limit : Z; sq_Query : bytes; sq_Direction : HistorySearchDirection;
  sq_Start : HistoryCopyPosition }.
Record HistorySearchResult := mkSearchResult { sr_Match : HistoryCopyRange; sr_Window : HistoryWindow; sr_IsWrapped : bool }.

Definition maxInt64 : Z := 2 ^ 63 - 1.

(** [None] is a result that is not found. [last_engine] is the engine when the window of the match is read; a direction
    that is none of the two, which the code refuses, is no value here. *)
Definition Search (ctx : nat → Context) (engine_at : nat → Z → Engine F) (last_engine : Engine F) (s : Store F) (req : HistorySearchRequest)
    : result (option HistorySearchResult) :=
  if String.eqb req.(sq_Token) "" || is_empty req.(sq_Query) then Err ErrHistoryInvalidMutation
  else
    let? limit := normalizedLimit req.(sq_Limit) in
    let? rv := viewForRequest s (mkRequest req.(sq_TerminalID) req.(sq_Cols) limit req.(sq_Token) no_cursor) in
    let '(windowReq, view) := rv in
    let total := viewLogicalTotal view in
    if total =? 0 then Ok None
    else
      let '(startLine, startCol) :=
        if negb (req.(sq_Start).(cp_LineID) =? 0) then
          (clampInt (req.(sq_Start).(cp_LineID) - 1) 0 (total - 1), Z.max 0 req.(sq_Start).(cp_Col))
        else match req.(sq_Direction) with
             | HistorySearchBackward => (total - 1, maxInt64)
             | HistorySearchForward => (0, Z.max 0 req.(sq_Start).(cp_Col))
             end in
      match searchFrozenView ctx engine_at view req.(sq_Query) req.(sq_Direction) startLine startCol with
      | Err err => Err (stale err)
      | Ok None => Ok None
      | Ok (Some (m, wrapped)) =>
          let pageStart := m.(cr_Start).(cp_LineID) - 1 in
          let pageEnd := Z.min total (pageStart + limit) in
          let? page := windowRowsForward last_engine view pageStart pageEnd in
          let rows := page.1 in
          let boundary := to_total rows total (page_boundary rows (head rows) view req.(sq_Token) (0 <? pageStart)) in
          let window := buildWindow windowReq rows total HistoryWindowReplace boundary view.(lv_generation) (0 <? pageStart) in
          Ok (Some (mkSearchResult m (window <| hw_ViewportAnchor := view.(lv_anchor) |>) wrapped))
      end.
End lines.
