(* ===== verification/HistEngineFacts.v ===== *)
(** * The engine over a lawful line storage

    The block file is a line storage, and every operation of the engine keeps the lines that are stored. *)
From S2P Require Import Prelude GoStd HistLine HistCodec HistCodecTheorems HistFile HistFileRead HistFileWrite HistFileTheorems HistEngine.
Local Open Scope Z_scope.
Local Open Scope bool_scope.
Local Open Scope list_scope.

(** ** The block file as a line storage *)
Section file.
Context `{Codecs, !CodecLaws} (w : World) (limit : Z) (Hc : clock_ok w) (Hlimit : compressedBlockTargetBytes + 10 ≤ limit < 2 ^ 32).

Definition block_file : LineStorage LineFile := {|
  ls_AppendLines := AppendLines w.(w_clock) w.(w_write) w.(w_rewrite) w.(w_options);
  ls_AppendBoundary := AppendBoundary w.(w_clock) w.(w_write) w.(w_rewrite) w.(w_options);
  ls_LineCount := LineCount;
  ls_Base _ := 0;
  ls_Lines := Lines;
  ls_VisitLines S := VisitLines;
  ls_Sync := Sync w.(w_clock) w.(w_write) w.(w_rewrite) w.(w_options);
  ls_Close := Close w.(w_clock) w.(w_write) w.(w_rewrite) w.(w_options);
  ls_PruneRetention := PruneRetention w.(w_clock) w.(w_write) w.(w_rewrite) w.(w_options);
  ls_RetentionEpoch := RetentionEpoch;
  ls_AppendGap := AppendGap w.(w_clock) w.(w_write) w.(w_rewrite) w.(w_options);
  ls_GapOffsets := GapOffsets |}.
#[local] Existing Instance block_file.

Definition file_holds (f : LineFile) (lines : list Line) : Prop := holds limit f lines ∧ f.(lf_handle) = HOpen.

Lemma file_kept o f lines f' : file_holds f lines → len lines < 2 ^ 32 → Forall (line_ok limit) (op_lines o) →
  run_op w o f = (f', None) → kept file_holds f (lines ++ op_lines o) f'.
Proof.
  intros [Hh Ho] Hn Hl E. apply (run_op_spec w limit Hc Hlimit _ _ _ _ _ Hh Hl Hn) in E as (part & rest & Ep & Er & k & Hn' & Hk & He).
  rewrite (Er eq_refl), app_nil_r in Ep. destruct (He eq_refl) as [Eh Hep]. rewrite Ep. exists k. split_and!; [done|split; [done|congruence]|done].
Qed.

Lemma visited_all start (lines acc : list Line) : visit_list (λ acc _ line, (acc ++ [line], true)) start lines acc = (acc ++ lines, true).
Proof.
  revert start acc. induction lines as [|line lines IH]; intros start acc; cbn [visit_list]; [by rewrite app_nil_r|].
  by rewrite IH, <- app_assoc.
Qed.

Lemma clamp_inside v lo hi : lo ≤ v ≤ hi → clampLineIndex v lo hi = v.
Proof. intros Hv. unfold clampLineIndex. destruct (Z.ltb_spec v lo); [lia|]. destruct (Z.gtb_spec v hi); lia. Qed.

#[refine] Definition block_file_laws : LineStorageLaws LineFile := {|
  ls_holds := file_holds; ls_storable := line_ok limit; ls_room n := n < 2 ^ 32 |}.
Proof.
  - intros n m Hle Hm. lia.
  - intros f lines [Hh Ho]. by eapply holds_reads in Hh as (_ & Hn & _).
  - done.
  - intros S visit f lines start stop reverse s [Hh Ho]. eapply holds_reads in Hh as (_ & _ & Hv); [|done]. apply Hv.
  - intros f lines start stop [Hh Ho] Hs Hl. eapply holds_reads in Hh as (_ & _ & Hv); [|done].
    change (Lines f start stop = (slice start stop lines, None)). unfold Lines. rewrite Hv. unfold visit_spec.
    rewrite !clamp_inside by (rewrite ?clamp_inside; lia). by rewrite visited_all.
  - intros f lines new f' Hh Hn Hl E. by apply (file_kept (OAppend new)).
  - intros f lines f' Hh Hn E. pose proof (file_kept OBoundary f lines f' Hh Hn ltac:(constructor) E) as Hk. by rewrite app_nil_r in Hk.
  - intros f lines f' Hh Hn E. pose proof (file_kept OGap f lines f' Hh Hn ltac:(constructor) E) as Hk. by rewrite app_nil_r in Hk.
  - intros f lines f' Hh Hn E. pose proof (file_kept OPrune f lines f' Hh Hn ltac:(constructor) E) as Hk. by rewrite app_nil_r in Hk.
  - intros f lines f' Hh Hn E. pose proof (file_kept OSync f lines f' Hh Hn ltac:(constructor) E) as Hk. by rewrite app_nil_r in Hk.
Defined.
End file.

(** ** The engine *)
Section engine.
Context {F : Type} `{LineStorageLaws F}.
Implicit Types (f : F) (e : Engine F) (lines new : list Line).

Lemma kept_itself f lines : ls_holds f lines → kept ls_holds f lines f.
Proof. intros Hh. exists O. split_and!; [lia|done|by left]. Qed.

Lemma kept_epoch f lines f' : kept ls_holds f lines f' → ls_RetentionEpoch f ≤ ls_RetentionEpoch f'.
Proof. intros (k & _ & _ & [[_ ->]|Hlt]); lia. Qed.

Lemma kept_same f lines f' : kept ls_holds f lines f' → ls_RetentionEpoch f' = ls_RetentionEpoch f → ls_holds f' lines.
Proof. intros (k & _ & Hh & [[-> _]|Hlt]) E; [done|lia]. Qed.

(** One operation after another. *)
Lemma kept_trans f lines f1 new f2 :
  kept ls_holds f lines f1 → (∀ rest, ls_holds f1 rest → len rest ≤ len lines → kept ls_holds f1 (rest ++ new) f2) →
  kept ls_holds f (lines ++ new) f2.
Proof.
  intros (k1 & Hn1 & Hh1 & He1) Hnext.
  destruct (Hnext _ Hh1) as (k2 & Hn2 & Hh2 & He2); [unfold len; rewrite length_drop; lia|].
  exists (k1 + k2)%nat. rewrite length_app in *. rewrite length_drop in Hn2. split_and!; [lia| |].
  - by rewrite <- drop_drop, drop_app_le by lia.
  - destruct He1 as [[-> E1]|E1], He2 as [[-> E2]|E2]; [left; split; [done|congruence]|right; lia..].
Qed.

Lemma room_all lines new : ls_room (len lines + len new) → ls_room (len lines).
Proof. apply ls_room_le. pose proof (len_nonneg new). lia. Qed.
Lemma room_rest lines (rest : list Line) new : len rest ≤ len lines → ls_room (len lines + len new) → ls_room (len rest + len new).
Proof. intros Hle. apply ls_room_le. lia. Qed.

Lemma append_to_kept e lines new e' :
  ls_holds e.(en_file) lines → ls_room (len lines) → Forall ls_storable new → append_to e new = (e', None) →
  kept ls_holds e.(en_file) (lines ++ new) e'.(en_file).
Proof.
  intros Hh Hr Hs. unfold append_to. destruct (ls_AppendLines _ _) as [f err] eqn:E. intros [= <- ->]. by eapply ls_append_ok.
Qed.

(** The lines an operation of the engine writes. *)
Definition open_line (asm : Assembler) : list Line := option_list (SealOpen asm).2.
Definition evicted_lines e (rows : list TerminalSemanticScrollOut) : list Line := (append_rows rows e.(en_asm)).2.
Definition screen_lines e (rows : list ScreenRow) : list Line :=
  let '(asm, batch) := append_rows (scroll_out_of_screen <$> rows) e.(en_asm) in batch ++ open_line asm.

Lemma evicted_kept e lines rows e' :
  ls_holds e.(en_file) lines → ls_room (len lines) → Forall ls_storable (evicted_lines e rows) → ApplyEvictedRows e rows = (e', None) →
  kept ls_holds e.(en_file) (lines ++ evicted_lines e rows) e'.(en_file) ∧ e'.(en_asm) = (append_rows rows e.(en_asm)).1.
Proof.
  intros Hh Hr. unfold ApplyEvictedRows, evicted_lines. destruct rows as [|row rows]; cbn [is_empty].
  { intros _ [= <-]. cbn [append_rows snd fst]. rewrite app_nil_r. split; [by apply kept_itself|done]. }
  destruct (append_rows _ _) as [asm batch]. cbn [snd fst]. intros Hs E. split.
  - exact (append_to_kept (mkEngine asm e.(en_file)) lines batch e' Hh Hr Hs E).
  - unfold append_to in E. destruct (ls_AppendLines _ _). by injection E as <- _.
Qed.

Lemma seal_kept e lines e' :
  ls_holds e.(en_file) lines → ls_room (len lines) → Forall ls_storable (open_line e.(en_asm)) → seal_tail e = (e', None) →
  kept ls_holds e.(en_file) (lines ++ open_line e.(en_asm)) e'.(en_file).
Proof.
  intros Hh Hr. unfold seal_tail, open_line. destruct (SealOpen _) as [asm [line|]]; cbn [snd option_list].
  - intros Hs E. exact (append_to_kept (mkEngine asm e.(en_file)) lines [line] e' Hh Hr Hs E).
  - intros _ [= <-]. rewrite app_nil_r. by apply kept_itself.
Qed.

Lemma boundary_kept e lines e' :
  ls_holds e.(en_file) lines → ls_room (len lines + len (open_line e.(en_asm))) → Forall ls_storable (open_line e.(en_asm)) →
  ApplyClearScrollbackBoundary e = (e', None) → kept ls_holds e.(en_file) (lines ++ open_line e.(en_asm)) e'.(en_file).
Proof.
  intros Hh Hr Hs. unfold ApplyClearScrollbackBoundary. destruct (seal_tail e) as [e1 [err|]] eqn:E1; [done|].
  destruct (ls_AppendBoundary _) as [f err] eqn:E. intros [= <- ->]. rewrite <- (app_nil_r (_ ++ _)).
  eapply kept_trans; [eapply seal_kept; [done|by eapply room_all|done|done]|].
  intros rest Hh1 Hle. rewrite app_nil_r. rewrite len_app in Hle. apply (ls_room_le _ _ Hle) in Hr. by eapply ls_boundary_ok.
Qed.

Lemma gap_kept e lines e' :
  ls_holds e.(en_file) lines → ls_room (len lines + len (open_line e.(en_asm))) → Forall ls_storable (open_line e.(en_asm)) →
  en_AppendGapBoundary e = (e', None) → kept ls_holds e.(en_file) (lines ++ open_line e.(en_asm)) e'.(en_file).
Proof.
  intros Hh Hr Hs. unfold en_AppendGapBoundary. destruct (seal_tail e) as [e1 [err|]] eqn:E1; [done|].
  destruct (ls_AppendGap _) as [f err] eqn:E. intros [= <- ->]. rewrite <- (app_nil_r (_ ++ _)).
  eapply kept_trans; [eapply seal_kept; [done|by eapply room_all|done|done]|].
  intros rest Hh1 Hle. rewrite app_nil_r. rewrite len_app in Hle. apply (ls_room_le _ _ Hle) in Hr. by eapply ls_gap_ok.
Qed.

Lemma screen_kept e lines rows e' :
  ls_holds e.(en_file) lines → ls_room (len lines) → Forall ls_storable (screen_lines e rows) → SealPrimaryScreenRows e rows = (e', None) →
  kept ls_holds e.(en_file) (lines ++ screen_lines e rows) e'.(en_file) ∧ open_line e'.(en_asm) = [].
Proof.
  intros Hh Hr. unfold SealPrimaryScreenRows, screen_lines, open_line. destruct (append_rows _ _) as [asm batch].
  assert (Hreset : (SealOpen (SealOpen asm).1).2 = None) by (by unfold SealOpen; destruct (asm_open asm) eqn:Eo; cbn; rewrite ?Eo).
  destruct (SealOpen asm) as [asm' line]. cbn [snd fst] in *.
  replace (match line with Some line => batch ++ [line] | None => batch end) with (batch ++ option_list line)
    by (destruct line; [done|apply app_nil_r]).
  intros Hs. destruct (batch ++ option_list line) as [|l batch'] eqn:Eb; cbn [is_empty].
  - intros [= <-]. rewrite app_nil_r. cbn [en_asm en_file]. split; [by apply kept_itself|]. cbn. by rewrite Hreset.
  - intros E. split; [exact (append_to_kept (mkEngine asm' e.(en_file)) lines (l :: batch') e' Hh Hr Hs E)|].
    unfold append_to in E. destruct (ls_AppendLines _ _). injection E as <- _. cbn. by rewrite Hreset.
Qed.
End engine.
