(* ===== verification/HistPages.v ===== *)
(** * Windows of the history are slices of one sequence of rows

    A view of the store is the sequence of its cold lines and hot rows. Reading a page in either direction takes rows
    next to each other until the budget of a response is used. *)
From S2P Require Import Prelude GoStd HistLine HistFile HistFileRead HistEngine HistStore HistEngineFacts.
From stdpp Require Import pretty.
Local Open Scope Z_scope.
Local Open Scope bool_scope.
Local Open Scope list_scope.

(** ** The greedy page *)
Abbreviation item := (Z * HistoryRow)%type.

Fixpoint take_forward (p : page) (index : Z) (items : list item) : page * bool :=
  match items with
  | [] => (p, true)
  | (cost, row) :: items =>
      let '(p, more) := take_row false p cost index row in
      if more then take_forward p (index + 1) items else (p, false)
  end.
Fixpoint take_backward (p : page) (index : Z) (items : list item) : page * bool :=
  match items with
  | [] => (p, true)
  | (cost, row) :: items =>
      let '(p, more) := take_row true p cost index row in
      if more then take_backward p (index - 1) items else (p, false)
  end.

Definition cheap (it : item) : Prop := it.1 ≤ MaxHistoryWindowBytes.

(** The page takes the first rows, at least one when it is still empty and the row is cheap. *)
Lemma take_forward_spec items p index :
  p.(pg_stopped) = false → p.(pg_edge) = index → (p.(pg_rows) = [] → p.(pg_used) = 0) →
  ∃ k p', take_forward p index items = (p', bool_decide (k = length items)) ∧ (k ≤ length items)%nat
    ∧ p'.(pg_rows) = p.(pg_rows) ++ take k items.*2 ∧ p'.(pg_edge) = index + Z.of_nat k
    ∧ p'.(pg_stopped) = negb (bool_decide (k = length items))
    ∧ (p'.(pg_rows) = [] → p'.(pg_used) = 0)
    ∧ (p.(pg_rows) = [] → Forall cheap items → items ≠ [] → (0 < k)%nat).
Proof.
  revert p index. induction items as [|[cost row] items IH]; intros p index Hs He Hu.
  { exists O, p. cbn. rewrite app_nil_r. split_and!; try done; lia. }
  cbn [take_forward]. unfold take_row. destruct (Z.gtb_spec (p.(pg_used) + cost) MaxHistoryWindowBytes) as [Hgt|Hle].
  - eexists O, _. split_and!; [reflexivity|cbn; lia|cbn; by rewrite app_nil_r|cbn; lia|done|done|].
    intros Hp [Hc _]%Forall_cons _. unfold cheap in Hc. cbn in Hc. rewrite (Hu Hp) in Hgt. lia.
  - edestruct (IH (mkPage (p.(pg_rows) ++ [row]) (p.(pg_used) + cost) (index + 1) false) (index + 1))
      as (k & p' & -> & Hk & Hr & Hed & Hst & Hu' & _); [done|done|intros Hnil; by apply app_nil in Hnil as [_ ?]|].
    exists (S k), p'. cbn [length fmap list_fmap take] in *. split_and!; [|lia| | | |done|lia].
    + by rewrite (bool_decide_ext (S k = S (length items)) (k = length items)) by lia.
    + rewrite Hr. cbn. by rewrite <- app_assoc.
    + lia.
    + by rewrite (bool_decide_ext (S k = S (length items)) (k = length items)) by lia.
Qed.

Lemma take_backward_spec items p index :
  p.(pg_stopped) = false → p.(pg_edge) = index + 1 → (p.(pg_rows) = [] → p.(pg_used) = 0) →
  ∃ k p', take_backward p index items = (p', bool_decide (k = length items)) ∧ (k ≤ length items)%nat
    ∧ p'.(pg_rows) = rev (take k items.*2) ++ p.(pg_rows) ∧ p'.(pg_edge) = index + 1 - Z.of_nat k
    ∧ p'.(pg_stopped) = negb (bool_decide (k = length items))
    ∧ (p'.(pg_rows) = [] → p'.(pg_used) = 0)
    ∧ (p.(pg_rows) = [] → Forall cheap items → items ≠ [] → (0 < k)%nat).
Proof.
  revert p index. induction items as [|[cost row] items IH]; intros p index Hs He Hu.
  { exists O, p. cbn. split_and!; try done; lia. }
  cbn [take_backward]. unfold take_row. destruct (Z.gtb_spec (p.(pg_used) + cost) MaxHistoryWindowBytes) as [Hgt|Hle].
  - eexists O, _. split_and!; [reflexivity|cbn; lia|done|cbn; lia|done|done|].
    intros Hp [Hc _]%Forall_cons _. unfold cheap in Hc. cbn in Hc. rewrite (Hu Hp) in Hgt. lia.
  - edestruct (IH (mkPage (row :: p.(pg_rows)) (p.(pg_used) + cost) index false) (index - 1))
      as (k & p' & -> & Hk & Hr & Hed & Hst & Hu' & _); [done|cbn; lia|done|].
    exists (S k), p'. cbn [length fmap list_fmap take] in *. split_and!; [|lia| | | |done|lia].
    + by rewrite (bool_decide_ext (S k = S (length items)) (k = length items)) by lia.
    + rewrite Hr. cbn [pg_rows rev]. by rewrite <- app_assoc.
    + lia.
    + by rewrite (bool_decide_ext (S k = S (length items)) (k = length items)) by lia.
Qed.

Lemma take_forward_app l1 l2 p index :
  take_forward p index (l1 ++ l2)
  = (let '(p, more) := take_forward p index l1 in if more then take_forward p (index + len l1) l2 else (p, false)).
Proof.
  revert p index. induction l1 as [|[cost row] l1 IH]; intros p index; cbn [app take_forward].
  { unfold len. cbn [length]. by rewrite Z.add_0_r. }
  destruct (take_row _ _ _ _ _) as [p' []]; [|done]. rewrite IH. destruct (take_forward _ _ l1) as [p2 []]; [|done].
  f_equal. unfold len. cbn [length]. lia.
Qed.

Lemma take_backward_app l1 l2 p index :
  take_backward p index (l1 ++ l2)
  = (let '(p, more) := take_backward p index l1 in if more then take_backward p (index - len l1) l2 else (p, false)).
Proof.
  revert p index. induction l1 as [|[cost row] l1 IH]; intros p index; cbn [app take_backward].
  { unfold len. cbn [length]. by rewrite Z.sub_0_r. }
  destruct (take_row _ _ _ _ _) as [p' []]; [|done]. rewrite IH. destruct (take_backward _ _ l1) as [p2 []]; [|done].
  f_equal. unfold len. cbn [length]. lia.
Qed.

(** ** The rows of a view *)
Section view.
Context `{TextWidth} {F : Type} `{LineStorageLaws F}.
Implicit Types (e : Engine F) (view : liveView) (cold lines : list Line).

Definition cold_items (first : Z) (lines : list Line) : list item :=
  imap (λ i line, (historyLineBudgetBytes line, historyRowFromColdLine line (first + Z.of_nat i))) lines.
Definition view_items view cold : list item :=
  cold_items 0 cold ++ ((λ row, (historyRowBudgetBytes row, row)) <$> view.(lv_hot)).
Definition view_rows view cold : list HistoryRow := (view_items view cold).*2.

(** What the view says of the file, and whether the file still has it. *)
Definition cold_of view cold : Prop := view.(lv_coldBase) = 0 ∧ view.(lv_coldCount) = len cold.
Definition serving e view cold : Prop :=
  en_RetentionEpoch e = view.(lv_retention) ∧ ∃ rest, ls_holds e.(en_file) (cold ++ rest).
Definition expired e view : Prop := en_RetentionEpoch e ≠ view.(lv_retention).

Lemma cold_items_len first lines : len (cold_items first lines) = len lines.
Proof. unfold len, cold_items. by rewrite length_imap. Qed.

Lemma cold_items_cons first line lines :
  cold_items first (line :: lines) = (historyLineBudgetBytes line, historyRowFromColdLine line first) :: cold_items (first + 1) lines.
Proof.
  unfold cold_items. cbn [imap]. f_equal; [by rewrite Z.add_0_r|]. apply imap_ext. intros i x _. cbn. do 2 f_equal. lia.
Qed.

Lemma cold_items_app first l1 l2 : cold_items first (l1 ++ l2) = cold_items first l1 ++ cold_items (first + len l1) l2.
Proof.
  revert first. induction l1 as [|line l1 IH]; intros first; cbn [app].
  { unfold len at 1. cbn. by rewrite Z.add_0_r. }
  rewrite !cold_items_cons, IH. cbn [app]. do 3 f_equal. unfold len. cbn [length]. lia.
Qed.

Lemma cold_items_slice start stop lines : 0 ≤ start ≤ stop → cold_items start (slice start stop lines) = slice start stop (cold_items 0 lines).
Proof.
  intros Hs. unfold slice. destruct (decide (Z.to_nat start ≤ length lines)%nat) as [Hle|Hgt].
  - pose proof (cold_items_app 0 (take (Z.to_nat start) lines) (drop (Z.to_nat start) lines)) as E. rewrite take_drop in E.
    assert (El : len (take (Z.to_nat start) lines) = start) by (unfold len; rewrite length_take; lia).
    rewrite E, El, Z.add_0_l, drop_app_length' by (pose proof (cold_items_len 0 (take (Z.to_nat start) lines)); unfold len in *; lia).
    set (rest := drop (Z.to_nat start) lines). set (n := Z.to_nat (stop - start)).
    rewrite <- (take_drop n rest) at 2. rewrite cold_items_app. destruct (decide (n ≤ length rest)%nat).
    + rewrite take_app_length'; [done|]. pose proof (cold_items_len start (take n rest)) as En. unfold len in En. rewrite length_take in En. lia.
    + rewrite (drop_ge rest n), (take_ge rest n) by lia. cbn. rewrite app_nil_r.
      rewrite take_ge; [done|]. pose proof (cold_items_len start rest) as En. unfold len in En. lia.
  - rewrite !drop_ge by (try (pose proof (cold_items_len 0 lines) as En; unfold len in En); lia). by rewrite !take_nil.
Qed.

Lemma visit_forward view cold p start lines : cold_of view cold →
  visit_list (take_cold false view) start lines p = take_forward p start (cold_items start lines).
Proof.
  intros [Eb _]. revert p start. induction lines as [|line lines IH]; intros p start; [done|].
  rewrite cold_items_cons. cbn [visit_list take_forward]. unfold take_cold at 1. rewrite Eb, Z.sub_0_r.
  destruct (take_row _ _ _ _ _) as [p' []]; [|done]. apply IH.
Qed.

Lemma visit_backward view cold p start lines : cold_of view cold →
  visit_list_down (take_cold true view) (start + len lines - 1) (rev lines) p
  = take_backward p (start + len lines - 1) (rev (cold_items start lines)).
Proof.
  intros [Eb _]. revert p. induction lines as [|line lines IH] using rev_ind; intros p; [done|].
  rewrite len_app, cold_items_app, !rev_app_distr. change (len [line]) with 1. cbn [rev app].
  replace (start + (len lines + 1) - 1) with (start + len lines) by lia. cbn [visit_list_down].
  change (cold_items (start + len lines) [line]) with [(historyLineBudgetBytes line, historyRowFromColdLine line (start + len lines + 0))].
  cbn [rev app take_backward]. unfold take_cold at 1. rewrite Eb, Z.sub_0_r, Z.add_0_r.
  destruct (take_row _ _ _ _ _) as [p' []]; [|done]. replace (start + len lines - 1) with (start + len lines - 1) by lia. apply IH.
Qed.

Lemma hot_forward p index rows : hot_rows p index rows = (take_forward p index ((λ row, (historyRowBudgetBytes row, row)) <$> rows)).1.
Proof.
  revert p index. induction rows as [|row rows IH]; intros p index; [done|]. cbn [hot_rows fmap list_fmap take_forward].
  destruct (take_row _ _ _ _ _) as [p' []]; [|done]. apply IH.
Qed.
Lemma hot_backward p index rows : hot_rows_down p index rows = (take_backward p index ((λ row, (historyRowBudgetBytes row, row)) <$> rows)).1.
Proof.
  revert p index. induction rows as [|row rows IH]; intros p index; [done|]. cbn [hot_rows_down fmap list_fmap take_backward].
  destruct (take_row _ _ _ _ _) as [p' []]; [|done]. apply IH.
Qed.

Lemma slice_fmap {A B} (f : A → B) a b (l : list A) : slice a b (f <$> l) = f <$> slice a b l.
Proof. unfold slice. by rewrite fmap_take, fmap_drop. Qed.

(** What is read of the file while it still serves the view. *)
Lemma serving_visit {S} (visit : S → Z → Line → S * bool) e view cold start stop reverse s :
  serving e view cold → cold_of view cold → 0 ≤ start < len cold → start ≤ stop →
  VisitLinesAtRetention visit e view.(lv_retention) (view.(lv_coldBase) + start) (view.(lv_coldBase) + Z.min stop view.(lv_coldCount)) reverse s
  = ((if reverse then visit_list_down visit (Z.min stop (len cold) - 1) (rev (slice start stop cold)) s
      else visit_list visit start (slice start stop cold) s).1, None).
Proof.
  intros [He (rest & Hh)] [-> ->] Hs Hle. unfold VisitLinesAtRetention. rewrite He, Z.eqb_refl. cbn [negb].
  rewrite (ls_visit_ok visit _ _ _ _ _ _ Hh), !Z.add_0_l. unfold visit_spec.
  pose proof (len_app cold rest) as El. pose proof (len_nonneg rest).
  rewrite (clamp_inside start) by lia. rewrite clamp_inside by lia.
  assert (E : slice start (Z.min stop (len cold)) (cold ++ rest) = slice start stop cold).
  { rewrite zslice_app by lia. rewrite Z.min_l by lia. rewrite slice_min by lia.
    rewrite (slice_nil _ _ rest), app_nil_r; [done|lia]. }
  rewrite E. by destruct reverse.
Qed.

Lemma expired_visit {S} (visit : S → Z → Line → S * bool) e view start stop reverse s :
  expired e view → VisitLinesAtRetention visit e view.(lv_retention) start stop reverse s = (s, Some errRetentionChanged).
Proof. intros He. unfold VisitLinesAtRetention. by rewrite (proj2 (Z.eqb_neq _ _) He). Qed.

Lemma view_items_len view cold : cold_of view cold → len (view_items view cold) = viewLogicalTotal view.
Proof.
  intros [_ Ec]. unfold view_items, viewLogicalTotal. rewrite len_app, cold_items_len, Ec. unfold len. by rewrite length_fmap.
Qed.

Lemma clamped value lo hi : lo ≤ value ≤ hi → clampInt value lo hi = value.
Proof. exact (clamp_inside value lo hi). Qed.

(** A page never reports more than it holds of the range. *)
Definition page_of view cold (start stop a b : Z) : Prop := start ≤ a ≤ b ∧ b ≤ stop ∧ (start < stop → a < b).

Lemma forward_hot view cold p start stop : cold_of view cold → 0 ≤ start ≤ stop → stop ≤ viewLogicalTotal view →
  let cc := view.(lv_coldCount) in
  hot_rows p (Z.max start cc) (slice (Z.max start cc - cc) (Z.min stop (cc + len view.(lv_hot)) - cc) view.(lv_hot))
  = (take_forward p (start + len (slice start stop (cold_items 0 cold)))
       (slice (Z.max start cc - cc) (stop - cc) ((λ row, (historyRowBudgetBytes row, row)) <$> view.(lv_hot)))).1.
Proof.
  intros [_ Ec] Hs Ht cc. unfold viewLogicalTotal in Ht. rewrite slice_fmap, hot_forward. rewrite Z.min_l by lia.
  rewrite slice_len, cold_items_len by lia. rewrite <- Ec. fold cc.
  destruct (Z.leb_spec stop cc); [by rewrite slice_nil by lia|]. do 2 f_equal. lia.
Qed.

Lemma forward_pages view cold start stop : cold_of view cold → 0 ≤ start →
  slice start stop (view_items view cold)
  = slice start stop (cold_items 0 cold)
    ++ slice (Z.max start view.(lv_coldCount) - view.(lv_coldCount)) (stop - view.(lv_coldCount))
         ((λ row, (historyRowBudgetBytes row, row)) <$> view.(lv_hot)).
Proof.
  intros [_ Ec] Hs. unfold view_items. rewrite zslice_app by lia. rewrite slice_min by lia. by rewrite cold_items_len, Ec.
Qed.

Definition page_at (edge : Z) : page := mkPage [] 0 edge false.

Lemma forward_joined view cold start stop : cold_of view cold → 0 ≤ start ≤ stop → stop ≤ viewLogicalTotal view →
  let cc := view.(lv_coldCount) in
  let p := (take_forward (page_at start) start (slice start stop (cold_items 0 cold))).1 in
  (if p.(pg_stopped) then p
   else hot_rows p (Z.max start cc) (slice (Z.max start cc - cc) (Z.min stop (cc + len view.(lv_hot)) - cc) view.(lv_hot)))
  = (take_forward (page_at start) start (slice start stop (view_items view cold))).1.
Proof.
  intros Hc Hs Ht cc p. rewrite (forward_pages view cold start stop Hc) by lia. rewrite take_forward_app.
  destruct (take_forward_spec (slice start stop (cold_items 0 cold)) (page_at start) start)
    as (k & p' & E & _ & _ & _ & Est & _); [done..|].
  unfold p. rewrite E. cbn [fst]. rewrite Est. destruct (bool_decide _); cbn [negb]; [|done]. by apply forward_hot.
Qed.

Lemma slice_slice {A} a b k (l : list A) : 0 ≤ a → (k ≤ Z.to_nat (b - a))%nat → take k (slice a b l) = slice a (a + Z.of_nat k) l.
Proof. intros Ha Hk. unfold slice. rewrite take_take. f_equal. lia. Qed.

Lemma page_result view cold start stop p :
  cold_of view cold → 0 ≤ start ≤ stop → stop ≤ viewLogicalTotal view → Forall cheap (slice start stop (view_items view cold)) →
  p = (take_forward (page_at start) start (slice start stop (view_items view cold))).1 →
  ∃ b, (if p.(pg_stopped) && is_empty p.(pg_rows) then Err ErrHistoryWindowTooLarge else Ok (p.(pg_rows), p.(pg_edge)))
       = Ok (slice start b (view_rows view cold), b) ∧ page_of view cold start stop start b.
Proof.
  intros Hc Hs Ht Hch ->. pose proof (slice_len start stop (view_items view cold) ltac:(lia)) as El.
  rewrite (view_items_len view cold Hc), Z.min_l in El by lia.
  destruct (take_forward_spec (slice start stop (view_items view cold)) (page_at start) start)
    as (k & p & E & Hk & Hr & Hed & Hst & _ & Hpos); [done..|]. rewrite E. cbn [fst].
  assert (Hk' : (k ≤ Z.to_nat (stop - start))%nat) by (unfold len in El; lia).
  specialize (Hpos eq_refl Hch). exists (start + Z.of_nat k). cbn [page_at pg_rows app] in Hr.
  assert (Hne : start < stop → (0 < k)%nat).
  { intros Hlt. apply Hpos. intros En. rewrite En in El. change (len []) with 0 in El. lia. }
  rewrite <- slice_fmap, slice_slice in Hr by lia. split; [|split_and!; lia].
  rewrite Hr, Hed, Hst. destruct (bool_decide_reflect (k = length (slice start stop (view_items view cold)))) as [_|Hn]; [done|]. cbn [negb andb].
  destruct (slice start (start + Z.of_nat k) _) eqn:Es; [|done]. exfalso.
  assert (0 < k)%nat by (apply Hne; unfold len in El; lia). apply (f_equal len) in Es.
  rewrite slice_len in Es by lia. unfold view_rows in Es. assert (len (view_items view cold).*2 = viewLogicalTotal view) as Elv
    by (rewrite <- (view_items_len view cold Hc); unfold len; by rewrite length_fmap).
  rewrite Elv in Es. change (len []) with 0 in Es. lia.
Qed.

(** An answer that may be too late. *)
Definition page_or_stale {A} (served : Prop) (r : result A) (ok : A → Prop) : Prop :=
  match r with Ok p => ok p | Err e => ¬ served ∧ e = ErrHistoryStaleWindow end.

Lemma windowRowsForward_spec e view cold start stop :
  cold_of view cold → serving e view cold ∨ expired e view → 0 ≤ start ≤ stop → stop ≤ viewLogicalTotal view →
  Forall cheap (slice start stop (view_items view cold)) →
  page_or_stale (serving e view cold) (windowRowsForward e view start stop)
    (λ p, ∃ b, p = (slice start b (view_rows view cold), b) ∧ page_of view cold start stop start b).
Proof.
  intros Hc He Hs Ht Hch. unfold windowRowsForward. rewrite !clamped by (rewrite ?clamped; lia).
  assert (Hin : ∀ p, p = (take_forward (page_at start) start (slice start stop (cold_items 0 cold))).1 →
    page_or_stale (serving e view cold)
      (let hotStart := Z.max start view.(lv_coldCount) in
       let hotEnd := Z.min stop (view.(lv_coldCount) + len view.(lv_hot)) in
       let p := if p.(pg_stopped) then p
                else hot_rows p hotStart (slice (hotStart - view.(lv_coldCount)) (hotEnd - view.(lv_coldCount)) view.(lv_hot)) in
       if p.(pg_stopped) && is_empty p.(pg_rows) then Err ErrHistoryWindowTooLarge else Ok (p.(pg_rows), p.(pg_edge)))
      (λ p, ∃ b, p = (slice start b (view_rows view cold), b) ∧ page_of view cold start stop start b)).
  { intros p ->. cbv zeta. rewrite (forward_joined view cold start stop Hc Hs Ht).
    destruct (page_result view cold start stop _ Hc Hs Ht Hch eq_refl) as (b & -> & Hb). by exists b. }
  destruct (Z.ltb_spec start view.(lv_coldCount)) as [Hlt|Hge].
  - destruct He as [He|He].
    + rewrite (serving_visit _ e view cold) by (done || (destruct Hc; lia)). apply Hin.
      by rewrite (visit_forward view cold), cold_items_slice by done.
    + rewrite expired_visit by done. split; [|done]. intros [E _]. done.
  - apply Hin. rewrite slice_past; [done|lia|]. destruct Hc as [_ Ec]. rewrite cold_items_len. lia.
Qed.

Lemma backward_hot view cold start stop : cold_of view cold → 0 ≤ start ≤ stop → stop ≤ viewLogicalTotal view →
  let cc := view.(lv_coldCount) in
  hot_rows_down (page_at stop) (Z.min stop (cc + len view.(lv_hot)) - 1)
    (rev (slice (Z.max start cc - cc) (Z.min stop (cc + len view.(lv_hot)) - cc) view.(lv_hot)))
  = (take_backward (page_at stop) (stop - 1)
       (rev (slice (Z.max start cc - cc) (stop - cc) ((λ row, (historyRowBudgetBytes row, row)) <$> view.(lv_hot))))).1.
Proof.
  intros [_ Ec] Hs Ht cc. unfold viewLogicalTotal in Ht. rewrite hot_backward, Z.min_l by lia. by rewrite slice_fmap, fmap_rev_list.
Qed.

Lemma backward_page_result view cold start stop p :
  cold_of view cold → 0 ≤ start ≤ stop → stop ≤ viewLogicalTotal view → Forall cheap (slice start stop (view_items view cold)) →
  p = (take_backward (page_at stop) (stop - 1) (rev (slice start stop (view_items view cold)))).1 →
  ∃ a, (if p.(pg_stopped) && is_empty p.(pg_rows) then Err ErrHistoryWindowTooLarge else Ok (p.(pg_rows), p.(pg_edge)))
       = Ok (slice a stop (view_rows view cold), a) ∧ page_of view cold start stop a stop.
Proof.
  intros Hc Hs Ht Hch ->. set (items := slice start stop (view_items view cold)) in *.
  assert (El : len items = stop - start) by (unfold items; rewrite slice_len, (view_items_len view cold Hc), Z.min_l by lia; lia).
  destruct (take_backward_spec (rev items) (page_at stop) (stop - 1)) as (k & p & E & Hk & Hr & Hed & Hst & _ & Hpos); [done|cbn; lia|done|].
  rewrite E. cbn [fst]. rewrite length_rev in Hk, Hst, E. specialize (Hpos eq_refl).
  assert (Hne : start < stop → (0 < k)%nat).
  { intros Hlt. apply Hpos; [by apply Forall_rev|]. intros En%(f_equal len). unfold len in *. rewrite length_rev in En. cbn in En. lia. }
  assert (Er : p.(pg_rows) = slice (stop - Z.of_nat k) stop (view_rows view cold)).
  { cbn [page_at pg_rows] in Hr. rewrite app_nil_r in Hr. rewrite Hr, fmap_rev_list, firstn_rev, rev_involutive, length_fmap.
    unfold len in El.
    unfold items, view_rows. rewrite <- !slice_fmap. set (rows := (view_items view cold).*2). unfold slice.
    rewrite skipn_firstn_comm, drop_drop. unfold items, slice in El, Hk. f_equal; [lia|]. f_equal. lia. }
  exists (stop - Z.of_nat k). split; [|unfold len in El; split_and!; lia]. rewrite Er, Hed, Hst.
  replace (stop - 1 + 1 - Z.of_nat k) with (stop - Z.of_nat k) by lia.
  destruct (bool_decide_reflect (k = length items)) as [_|Hn]; cbn [negb andb]; [done|].
  destruct (slice (stop - Z.of_nat k) stop (view_rows view cold)) eqn:Es; [|done]. exfalso. apply (f_equal len) in Es. unfold len in El.
  rewrite slice_len in Es by lia. assert (len (view_rows view cold) = viewLogicalTotal view) as Elv
    by (rewrite <- (view_items_len view cold Hc); unfold view_rows, len; by rewrite length_fmap).
  rewrite Elv in Es. change (len []) with 0 in Es. lia.
Qed.

Lemma windowRowsBackward_spec e view cold start stop :
  cold_of view cold → serving e view cold ∨ expired e view → 0 ≤ start ≤ stop → stop ≤ viewLogicalTotal view →
  Forall cheap (slice start stop (view_items view cold)) →
  page_or_stale (serving e view cold) (windowRowsBackward e view start stop)
    (λ p, ∃ a, p = (slice a stop (view_rows view cold), a) ∧ page_of view cold start stop a stop).
Proof.
  intros Hc He Hs Ht Hch. unfold windowRowsBackward. rewrite !clamped by (rewrite ?clamped; lia).
  cbv zeta. change (mkPage [] 0 stop false) with (page_at stop). rewrite (backward_hot view cold start stop Hc Hs Ht).
  pose proof (backward_page_result view cold start stop _ Hc Hs Ht Hch eq_refl) as Hres.
  rewrite (forward_pages view cold start stop Hc), rev_app_distr, take_backward_app in Hres by lia.
  set (hot := slice _ _ ((λ row, _) <$> view.(lv_hot))) in *. set (cc := view.(lv_coldCount)) in *.
  destruct (take_backward_spec (rev hot) (page_at stop) (stop - 1)) as (k & p & E & _ & _ & _ & Est & _); [done|cbn; lia|done|].
  rewrite E in Hres |- *. cbn [fst]. rewrite Est. destruct (bool_decide _); cbn [negb andb]; cycle 1.
  { cbn [fst] in Hres. rewrite Est in Hres. destruct Hres as (a & Hr & Ha). rewrite Est, Hr. cbn [page_or_stale]. by exists a. }
  destruct (Z.ltb_spec start cc) as [Hlt|Hge].
  - destruct He as [He|He].
    + unfold cc. rewrite (serving_visit _ e view cold) by (done || (destruct Hc; lia)).
      assert (El : len (slice start stop cold) = Z.min stop (len cold) - start) by (rewrite slice_len by lia; destruct Hc; lia).
      replace (Z.min stop (len cold) - 1) with (start + len (slice start stop cold) - 1) by lia.
      rewrite (visit_backward view cold) by done. rewrite cold_items_slice by lia.
      replace (stop - 1 - len (rev hot)) with (start + len (slice start stop cold) - 1) in Hres; cycle 1.
      { unfold hot, viewLogicalTotal in *. rewrite El, len_rev, slice_len, len_fmap by lia. destruct Hc as [_ Hc]. subst cc. lia. }
      destruct Hres as (a & Hr & Ha). rewrite Hr. cbn [page_or_stale]. by exists a.
    + rewrite expired_visit by done. split; [|done]. intros [E' _]. done.
  - replace (slice start stop (cold_items 0 cold)) with (@nil item) in Hres; cycle 1.
    { symmetry. apply slice_past; [lia|]. destruct Hc as [_ Ec]. rewrite cold_items_len. unfold cc in Hge. lia. }
    cbn [rev take_backward fst] in Hres. destruct Hres as (a & Hr & Ha). rewrite Hr. cbn [page_or_stale]. by exists a.
Qed.
End view.

(** * Steps of the history store and the life of a token

    Any sequence of operations of the store that report no error keeps the lines a frozen view refers to, or makes its
    token stale. *)

(** ** Operations of the store *)

(** [StScreen] is the emulator changing the screen. *)
Inductive store_op :=
| StApply (evicted : list TerminalSemanticScrollOut) (clear : bool)
| StSeal | StSealLifecycle | StLifecycle (now : nat → Z) (texts : list bytes) | StGap
| StTransition (reset : ScreenSnapshot) | StPrune | StSync | StScreen (snap : ScreenSnapshot)
| StFreeze (terminalID : string) (cols limit : Z) | StRelease (token : string).

Section steps.
Context `{TextWidth} {F : Type} `{LineStorageLaws F}.
Implicit Types (e : Engine F) (s : Store F) (view : liveView) (cold lines : list Line).

Definition run_store (o : store_op) s : Store F * option goerr :=
  match o with
  | StApply evicted clear => ApplyTransaction s evicted clear
  | StSeal => SealOpenTail s
  | StSealLifecycle => SealLifecycleTail s
  | StLifecycle now texts => AppendLifecycleLines now s texts
  | StGap => AppendGapBoundary s
  | StTransition reset => TransitionOutputEpoch s reset
  | StPrune => st_PruneRetention s
  | StSync => st_Sync s
  | StScreen snap => (Bind s snap, None)
  | StFreeze terminalID cols limit =>
      match Freeze s terminalID cols limit with (s, Ok _) => (s, None) | (s, Err err) => (s, Some err) end
  | StRelease token => (Release s token, None)
  end.

(** The lines an operation adds to the file. *)
Definition stored_lines (o : store_op) s : list Line :=
  let e := s.(s_engine) in
  match o with
  | StApply evicted clear =>
      evicted_lines e evicted ++ (if clear then open_line (append_rows evicted e.(en_asm)).1 else [])
  | StSeal | StGap => open_line e.(en_asm)
  | StSealLifecycle | StTransition _ => screen_lines e (primary_rows s.(s_screen))
  | StLifecycle now texts => imap (λ i text, mkLine [mkRun text no_style [] []] true (now i)) texts
  | _ => []
  end.

Lemma room_part (n : Z) lines (more : list Line) : ls_room (n + len (lines ++ more)) → ls_room (n + len lines).
Proof. apply ls_room_le. rewrite len_app. pose proof (len_nonneg more). lia. Qed.

(** [r] is a call of the engine on [e] that keeps the stored lines and adds [new]. *)
Definition adds e lines (new : list Line) (r : Engine F * option goerr) : Prop :=
  r.2 = None → kept ls_holds e.(en_file) (lines ++ new) r.1.(en_file).

Lemma apply_adds e lines evicted clear :
  let new := evicted_lines e evicted ++ (if clear : bool then open_line (append_rows evicted e.(en_asm)).1 else []) in
  ls_holds e.(en_file) lines → ls_room (len lines + len new) → Forall ls_storable new →
  adds e lines new
    (match ApplyEvictedRows e evicted with
     | (e, None) => if clear then ApplyClearScrollbackBoundary e else (e, None)
     | (e, Some err) => (e, Some err)
     end).
Proof.
  intros new Hh Hr Hs. unfold adds. apply Forall_app in Hs as [Hs1 Hs2].
  destruct (ApplyEvictedRows _ _) as [e1 [err|]] eqn:E; [done|].
  apply (evicted_kept _ lines) in E as [Hk Ha]; [|done|by eapply room_all|done].
  unfold new in *. rewrite len_app, Z.add_assoc, <- len_app, <- Ha in Hr. rewrite <- Ha in *. rewrite app_assoc.
  destruct clear; cbn [snd fst].
  - destruct (ApplyClearScrollbackBoundary e1) as [e2 err] eqn:E2. cbn [snd fst]. intros ->.
    eapply kept_trans; [done|]. intros rest Hh1 Hle. apply boundary_kept; [done|by eapply room_rest|done|done].
  - intros _. by rewrite app_nil_r.
Qed.

Lemma transition_adds e lines rows :
  ls_holds e.(en_file) lines → ls_room (len lines + len (screen_lines e rows)) → Forall ls_storable (screen_lines e rows) →
  adds e lines (screen_lines e rows)
    (match SealPrimaryScreenRows e rows with
     | (e, None) => en_AppendGapBoundary e
     | (e, Some err) => (e, Some err)
     end).
Proof.
  intros Hh Hr Hs. unfold adds. destruct (SealPrimaryScreenRows _ _) as [e1 [err|]] eqn:E; [done|].
  apply (screen_kept _ lines) in E as [Hk Ha]; [|done|by eapply room_all|done].
  destruct (en_AppendGapBoundary e1) as [e2 err] eqn:E2. cbn [snd fst]. intros ->.
  rewrite <- (app_nil_r (lines ++ _)). eapply kept_trans; [done|]. intros rest Hh1 Hle. rewrite <- Ha.
  rewrite <- len_app in Hr. apply (ls_room_le _ _ Hle) in Hr.
  apply gap_kept; [done|by rewrite Ha, len_nil, Z.add_0_r|by rewrite Ha|done].
Qed.

Lemma seal_adds e lines :
  ls_holds e.(en_file) lines → ls_room (len lines + len (open_line e.(en_asm))) → Forall ls_storable (open_line e.(en_asm)) →
  adds e lines (open_line e.(en_asm)) (seal_tail e).
Proof. intros Hh Hr Hs. unfold adds. destruct (seal_tail e) eqn:E. cbn. intros ->. eapply seal_kept; try done. by eapply room_all. Qed.

Lemma gap_adds e lines :
  ls_holds e.(en_file) lines → ls_room (len lines + len (open_line e.(en_asm))) → Forall ls_storable (open_line e.(en_asm)) →
  adds e lines (open_line e.(en_asm)) (en_AppendGapBoundary e).
Proof. intros Hh Hr Hs. unfold adds. destruct (en_AppendGapBoundary e) eqn:E. cbn. intros ->. by apply gap_kept. Qed.

Lemma screen_adds e lines rows :
  ls_holds e.(en_file) lines → ls_room (len lines + len (screen_lines e rows)) → Forall ls_storable (screen_lines e rows) →
  adds e lines (screen_lines e rows) (SealPrimaryScreenRows e rows).
Proof.
  intros Hh Hr Hs. unfold adds. destruct (SealPrimaryScreenRows _ _) eqn:E. cbn. intros ->.
  eapply screen_kept; try done. by eapply room_all.
Qed.

Lemma lifecycle_adds e lines now texts :
  let new := imap (λ i text, mkLine [mkRun text no_style [] []] true (now i)) texts in
  ls_holds e.(en_file) lines → ls_room (len lines + len new) → Forall ls_storable new →
  adds e lines new (en_AppendLifecycleLines now e texts).
Proof.
  intros new Hh Hr Hs. unfold adds, en_AppendLifecycleLines. destruct texts as [|text texts]; cbn [is_empty].
  { intros _. unfold new. cbn. rewrite app_nil_r. by apply kept_itself. }
  fold new. destruct (append_to _ _) eqn:E. cbn. intros ->. eapply append_to_kept; try done. by eapply room_all.
Qed.

Lemma file_op_adds e lines (op : F → F * option goerr) :
  (∀ f, op e.(en_file) = (f, None) → kept ls_holds e.(en_file) lines f) →
  adds e lines [] (let '(f, err) := op e.(en_file) in (e <| en_file := f |>, err)).
Proof. intros Hop. unfold adds. destruct (op _) as [f err] eqn:E. cbn. intros ->. rewrite app_nil_r. by apply Hop. Qed.

(** ** Tokens *)

(** The token was given out by a freeze of this store. *)
Definition issued s (token : string) : Prop := ∃ n, token = token_name s.(s_storeID) n ∧ (n ≤ s.(s_nextToken))%N.

(** The file has the cold lines of the view first, or its epoch went on. *)
Definition follows e lines view cold : Prop :=
  ls_holds e.(en_file) lines ∧ (en_RetentionEpoch e = view.(lv_retention) ∧ (∃ rest, lines = cold ++ rest) ∨ view.(lv_retention) < en_RetentionEpoch e).

(** Besides, the token is stale or still stands for the view. *)
Definition watched s (token : string) view cold : Prop :=
  issued s token ∧ cold_of view cold ∧ (∃ lines, follows s.(s_engine) lines view cold)
  ∧ (s.(s_frozen) !! token = None ∨ s.(s_frozen) !! token = Some view).

Lemma watched_serves s token view cold : watched s token view cold → serving s.(s_engine) view cold ∨ expired s.(s_engine) view.
Proof.
  intros (_ & _ & (lines & Hh & [[He [rest ->]]|He]) & _); [left; split; [done|by exists rest]|right; unfold expired; lia].
Qed.

Lemma string_app_inj (a b c : string) : (a +:+ b)%string = (a +:+ c)%string → b = c.
Proof. induction a as [|x a IH]; intros E; [done|]. injection E as E. by apply IH. Qed.

Lemma token_name_inj storeID n m : token_name storeID n = token_name storeID m → n = m.
Proof. unfold token_name. intros E%string_app_inj%string_app_inj%string_app_inj. by apply (inj pretty). Qed.

(** What a step may do to the tokens given out so far. *)
Definition tokens_pass s s' : Prop :=
  s'.(s_storeID) = s.(s_storeID) ∧ (s.(s_nextToken) ≤ s'.(s_nextToken))%N
  ∧ ∀ token, issued s token → s'.(s_frozen) !! token = s.(s_frozen) !! token ∨ s'.(s_frozen) !! token = None.

Lemma watched_step s s' token view cold lines new :
  watched s token view cold → follows s.(s_engine) lines view cold →
  kept ls_holds s.(s_engine).(en_file) (lines ++ new) s'.(s_engine).(en_file) → tokens_pass s s' → watched s' token view cold.
Proof.
  intros (Hi & Hc & _ & Hf) (Hh & Hs) Hk (Hid & Hn & Hp). split_and!; [|done| |].
  - destruct Hi as (n & -> & Hle). exists n. rewrite Hid. split; [done|lia].
  - destruct Hk as (k & _ & Hh' & He). eexists. split; [exact Hh'|]. unfold en_RetentionEpoch in *.
    destruct He as [[-> He]|He]; [|right; destruct Hs as [[Hs _]|Hs]; lia]. rewrite He.
    destruct Hs as [[Hs (rest & ->)]|Hs]; [left|by right]. split; [done|]. exists (rest ++ new). by rewrite <- app_assoc.
  - destruct (Hp token Hi) as [->|]; [done|by left].
Qed.

Lemma note_passes s : tokens_pass s (noteHistoryMutation s).
Proof.
  unfold noteHistoryMutation. split_and!; [by destruct (_ =? _)|by destruct (_ =? _)|]. intros token _.
  destruct (_ =? _); cbn; [by left|right; apply lookup_empty].
Qed.

Lemma note_engine s : (noteHistoryMutation s).(s_engine) = s.(s_engine).
Proof. unfold noteHistoryMutation. by destruct (_ =? _). Qed.

Lemma passes_trans s1 s2 s3 : tokens_pass s1 s2 → tokens_pass s2 s3 → tokens_pass s1 s3.
Proof.
  intros (I1 & N1 & P1) (I2 & N2 & P2). split_and!; [congruence|lia|]. intros token Ht.
  assert (Ht2 : issued s2 token) by (destruct Ht as (n & -> & Hn); exists n; split; [by rewrite I1|lia]).
  destruct (P2 token Ht2) as [->|]; [|by right]. by apply P1.
Qed.

Lemma passes_same s s' : s'.(s_storeID) = s.(s_storeID) → s'.(s_nextToken) = s.(s_nextToken) → s'.(s_frozen) = s.(s_frozen) → tokens_pass s s'.
Proof. intros E1 E2 E3. unfold tokens_pass. rewrite E1, E2, E3. split_and!; [done|lia|]. intros. by left. Qed.

Lemma release_passes s token : tokens_pass s (Release s token).
Proof.
  split_and!; [done|done|]. intros other _. unfold Release. cbn. destruct (decide (other = token)) as [->|Hne].
  - right. apply lookup_delete_eq.
  - left. by apply lookup_delete_ne.
Qed.

Lemma freeze_passes s terminalID cols limit : tokens_pass s (Freeze s terminalID cols limit).1.
Proof.
  unfold Freeze. destruct (validateGapRange _ _ _); [by apply passes_same|]. cbv zeta.
  set (n := (s_nextToken s + 1)%N). destruct (LatestWindow _ _) as [w|err]; cbn [fst].
  all: split_and!; [done|cbn; lia|]; intros token (m & -> & Hm); cbn.
  all: assert (token_name (s_storeID s) m ≠ token_name (s_storeID s) n) by (intros E%token_name_inj; unfold n in E; lia).
  - left. by apply lookup_insert_ne.
  - left. rewrite lookup_delete_ne, lookup_insert_ne by done. done.
Qed.

Lemma noted_watched s s0 r s' token view cold lines new :
  watched s token view cold → follows s.(s_engine) lines view cold →
  adds s.(s_engine) lines new r → tokens_pass s s0 → noted s0 r = (s', None) → watched s' token view cold.
Proof.
  intros Hw Hh Ha Hp. unfold noted. destruct r as [e err]. intros [= <- ->]. specialize (Ha eq_refl). cbn [fst] in Ha.
  eapply watched_step; [done..|by rewrite note_engine|].
  eapply passes_trans; [exact Hp|]. eapply passes_trans; [|apply note_passes]. by apply passes_same.
Qed.

(** The step is a call [r] that adds lines, with a note after it. *)
Ltac by_noted Ha E :=
  match type of E with
  | noted ?s0 _ = _ => eapply (noted_watched _ s0); [eassumption..|exact Ha|by apply passes_same|exact E]
  | _ => eapply noted_watched; [eassumption..|exact Ha| |exact E]; by apply passes_same
  end.

Lemma run_store_watched o s s' token view cold :
  watched s token view cold → Forall ls_storable (stored_lines o s) →
  ls_room (en_LineCount s.(s_engine) + len (stored_lines o s)) → run_store o s = (s', None) → watched s' token view cold.
Proof.
  intros Hw Hs. pose proof Hw as (_ & _ & (lines & Hfo) & _). pose proof Hfo as [Hh _]. unfold en_LineCount. rewrite (ls_count_ok _ _ Hh). intros Hr.
  assert (Hkept : ∀ s1 f1, kept ls_holds s.(s_engine).(en_file) lines f1 → s1.(s_engine).(en_file) = f1 → tokens_pass s s1 → watched s1 token view cold).
  { intros s1 f1 Hk <- Hp. eapply (watched_step s s1 _ _ _ lines []); [done..|by rewrite app_nil_r|done]. }
  destruct o as [evicted clear| | |now texts| |reset| | |snap|terminalID cols limit|tok]; cbn [run_store stored_lines] in *; intros E.
  - by_noted (apply_adds _ lines _ _ Hh Hr Hs) E.
  - by_noted (seal_adds _ lines Hh Hr Hs) E.
  - by_noted (screen_adds _ lines _ Hh Hr Hs) E.
  - unfold AppendLifecycleLines in E. destruct (is_empty texts); [by injection E as <-|].
    by_noted (lifecycle_adds _ lines _ _ Hh Hr Hs) E.
  - by_noted (gap_adds _ lines Hh Hr Hs) E.
  - pose proof (transition_adds _ lines _ Hh Hr Hs) as Ha. unfold TransitionOutputEpoch, sealLifecycleTailUnderGate in E.
    destruct (SealPrimaryScreenRows _ _) as [e1 [err|]]; [done|]. destruct (en_AppendGapBoundary e1) as [e2 [err|]]; [done|].
    by_noted Ha E.
  - unfold st_PruneRetention, en_PruneRetention in E. destruct (ls_PruneRetention _) as [f err] eqn:Ef.
    injection E as <- ->. apply (ls_prune_ok _ lines) in Ef; [|done|by eapply room_all].
    destruct (_ =? _); eapply Hkept; [exact Ef|done|by apply passes_same|exact Ef|by rewrite note_engine|].
    eapply passes_trans; [|apply note_passes]. by apply passes_same.
  - unfold st_Sync, en_Sync in E. destruct (ls_Sync _) as [f err] eqn:Ef. injection E as <- ->.
    apply (ls_sync_ok _ lines) in Ef; [|done|by eapply room_all]. eapply Hkept; [exact Ef|done|by apply passes_same].
  - injection E as <-. eapply Hkept; [by apply kept_itself|done|by apply passes_same].
  - pose proof (freeze_passes s terminalID cols limit) as Hp.
    assert (Ee : (Freeze s terminalID cols limit).1.(s_engine) = s.(s_engine))
      by (unfold Freeze; destruct (validateGapRange _ _ _); [done|]; cbv zeta; by destruct (LatestWindow _ _)).
    destruct (Freeze _ _ _ _) as [s1 [fz|err]]; [|done]. injection E as <-. eapply Hkept; [by apply kept_itself|by cbn in Ee; rewrite Ee|done].
  - injection E as <-. eapply Hkept; [by apply kept_itself|done|apply release_passes].
Qed.
End steps.
