(* ===== verification/HistPaging.v ===== *)
(** * Paging through a frozen history

    The windows of a frozen view, and a client that asks for one after the other: backwards with the cursor of each
    answer, as [OlderRequestState] of [tui/state/history_window.go] allows, and forwards with a cursor on its last row,
    as [beginCopyModeNewer] of [tui/app/copymode.go] does. *)
From S2P Require Import Prelude GoStd HistLine HistFile HistFileRead HistEngine HistStore HistEngineFacts HistPages.
Local Open Scope Z_scope.
Local Open Scope bool_scope.
Local Open Scope list_scope.

(** ** The client *)
Section client.
Context `{TextWidth} {F : Type} `{LineStorage F} (store_at : nat → Store F) (req : HistoryWindowRequest).

(** Ask for older pages while the cursor is valid; the n-th request reaches the store of that moment. *)
Fixpoint older_pages (fuel n : nat) (rows : list HistoryRow) (cursor : HistoryCursor) : result (list HistoryRow) :=
  match fuel with
  | O => Err "out of fuel"
  | S fuel =>
      if cursor.(hc_Valid) then
        let? w := OlderWindow (store_at n) (req <| rq_Cursor := cursor |>) in
        older_pages fuel (S n) (w.(hw_Rows) ++ rows) w.(hw_Boundary).(hb_Cursor)
      else Ok rows
  end.
Definition read_backwards (fuel : nat) : result (list HistoryRow) :=
  let? w := LatestWindow (store_at 0) (req <| rq_Cursor := no_cursor |>) in
  older_pages fuel 1 w.(hw_Rows) w.(hw_Boundary).(hb_Cursor).

(** Ask for newer pages until the last row is the last line of all. *)
Fixpoint newer_pages (fuel n : nat) (rows : list HistoryRow) (lastLineID : Z) : result (list HistoryRow) :=
  match fuel with
  | O => Err "out of fuel"
  | S fuel =>
      match last rows with
      | None => Ok rows
      | Some tail =>
          if (lastLineID =? 0) || (tail.(hr_LineID) =? 0) || (tail.(hr_LineID) =? lastLineID) then Ok rows
          else
            let cursor := mkCursor tail.(hr_Segment) tail.(hr_LineID) 0 "" true in
            let? w := NewerWindow (store_at n) (req <| rq_Cursor := cursor |>) in
            newer_pages fuel (S n) (rows ++ w.(hw_Rows)) w.(hw_Boundary).(hb_LastLineID)
      end
  end.
Definition read_forwards (fuel : nat) : result (list HistoryRow) :=
  let? w := OldestWindow (store_at 0) (req <| rq_Cursor := no_cursor |>) in
  newer_pages fuel 1 w.(hw_Rows) w.(hw_Boundary).(hb_LastLineID).
End client.

Section paging.
Context `{TextWidth} {F : Type} `{LineStorageLaws F}.
Implicit Types (e : Engine F) (s : Store F) (view : liveView) (cold lines : list Line).

(** ** What a freeze makes sure of *)
Record view_ok view cold : Prop := {
  vo_cold : cold_of view cold;
  vo_ids i row : view_rows view cold !! i = Some row → row.(hr_LineID) = Z.of_nat i + 1;
  vo_gaps : validateGapRange view 0 (viewLogicalTotal view) = None;
  vo_cheap : Forall cheap (view_items view cold) }.

Lemma view_rows_len view cold : cold_of view cold → len (view_rows view cold) = viewLogicalTotal view.
Proof. intros Hc. rewrite <- (view_items_len view cold Hc). apply len_fmap. Qed.

Lemma view_rows_split view cold : view_rows view cold = (cold_items 0 cold).*2 ++ view.(lv_hot).
Proof.
  unfold view_rows, view_items. rewrite fmap_app. f_equal. induction view.(lv_hot) as [|row rows IH]; [done|].
  cbn [fmap list_fmap] in *. by rewrite IH.
Qed.

Lemma hot_ids_ok coldCount tail updated snap i row :
  (hotRowsFromScreen coldCount tail updated snap).1 !! i = Some row → row.(hr_LineID) = coldCount + Z.of_nat i + 1.
Proof.
  unfold hotRowsFromScreen. cbv zeta. set (lines := hot_lines _ _ _ _).
  assert (Hl : ∀ j r, imap (λ j, hot_row (coldCount + 1 + Z.of_nat j)) lines !! j = Some r → r.(hr_LineID) = coldCount + Z.of_nat j + 1).
  { intros j r. rewrite list_lookup_imap. destruct (lines !! j); cbn; intros Hr; [|done]. injection Hr as <-. cbn. lia. }
  destruct (sn_InAlt snap); cbn [fst]; [|apply Hl].
  intros [Hi|[Hge Hi]]%lookup_app_Some; [by apply Hl|]. rewrite length_imap in *. rewrite list_lookup_imap in Hi.
  destruct (sn_Rows snap !! _); cbn in Hi; [|done]. injection Hi as <-. cbn. unfold len. lia.
Qed.

Lemma captured_ok s cols lines : ls_holds s.(s_engine).(en_file) lines →
  let view := captureLive s cols in
  validateGapRange view 0 (viewLogicalTotal view) = None → Forall cheap (view_items view lines) → view_ok view lines.
Proof.
  intros Hh view Hg Hch. assert (Hc : cold_of view lines).
  { unfold view, captureLive, VisibleLineRange. rewrite (ls_base_ok _), (ls_count_ok _ _ Hh), Z.sub_0_r.
    destruct (hotRowsFromScreen _ _ _ _). done. }
  split; [done| |done|done]. intros i row. rewrite view_rows_split. intros [Hi|[Hge Hi]]%lookup_app_Some.
  - unfold cold_items in Hi. rewrite list_lookup_fmap, list_lookup_imap in Hi. destruct (lines !! i); cbn in Hi; [|done]. injection Hi as <-. cbn. lia.
  - rewrite length_fmap in *. unfold view, captureLive, VisibleLineRange in Hi. rewrite (ls_base_ok _), (ls_count_ok _ _ Hh), Z.sub_0_r in Hi.
    destruct (hotRowsFromScreen _ _ _ _) as [hot anchor] eqn:E. cbn [lv_hot] in Hi.
    apply (f_equal fst) in E. cbn in E. subst hot. apply hot_ids_ok in Hi. rewrite Hi.
    pose proof (cold_items_len 0 lines) as El. unfold len in *. lia.
Qed.

Lemma captured_serves s cols lines : ls_holds s.(s_engine).(en_file) lines → serving s.(s_engine) (captureLive s cols) lines.
Proof.
  intros Hh. split; [|exists []; by rewrite app_nil_r]. unfold captureLive. destruct (VisibleLineRange _), (hotRowsFromScreen _ _ _ _). done.
Qed.

Lemma gaps_inside view a b : validateGapRange view 0 (viewLogicalTotal view) = None → 0 ≤ a → b ≤ viewLogicalTotal view →
  validateGapRange view a b = None.
Proof.
  unfold validateGapRange. intros Hg Ha Hb. destruct (existsb _ _) eqn:E in Hg; [done|].
  destruct (existsb (λ gap, (a <? gap) && (gap <? b)) _) eqn:E2; [|done]. exfalso.
  apply existsb_exists in E2 as (gap & Hin & Hgap). enough (existsb (λ gap, (0 <? gap) && (gap <? viewLogicalTotal view)) (lv_gaps view) = true) by congruence.
  apply existsb_exists. exists gap. split; [done|]. lia.
Qed.

Lemma slice_lookup {A} a b (l : list A) i : 0 ≤ a → (i < Z.to_nat (b - a))%nat → slice a b l !! i = l !! (Z.to_nat a + i)%nat.
Proof. intros Ha Hi. unfold slice. by rewrite lookup_take_lt, lookup_drop by lia. Qed.

Lemma page_head view cold a b : view_ok view cold → 0 ≤ a < b → b ≤ viewLogicalTotal view →
  ∃ row, head (slice a b (view_rows view cold)) = Some row ∧ row.(hr_LineID) = a + 1.
Proof.
  intros Hv Ha Hb. rewrite head_lookup, slice_lookup, Nat.add_0_r by lia.
  destruct (view_rows view cold !! Z.to_nat a) as [row|] eqn:E; cycle 1.
  { apply lookup_ge_None in E. pose proof (view_rows_len view cold (vo_cold _ _ Hv)) as El. unfold len in El. lia. }
  exists row. split; [done|]. rewrite (vo_ids _ _ Hv _ _ E). lia.
Qed.

Lemma page_last view cold a b : view_ok view cold → 0 ≤ a < b → b ≤ viewLogicalTotal view →
  ∃ row, last (slice a b (view_rows view cold)) = Some row ∧ row.(hr_LineID) = b.
Proof.
  intros Hv Ha Hb. pose proof (view_rows_len view cold (vo_cold _ _ Hv)) as El.
  pose proof (slice_len a b (view_rows view cold) ltac:(lia)) as Es. rewrite El in Es. unfold len in Es.
  rewrite last_lookup, slice_lookup by lia.
  destruct (view_rows view cold !! _) as [row|] eqn:E; cycle 1.
  { apply lookup_ge_None in E. unfold len in El. lia. }
  exists row. split; [done|]. rewrite (vo_ids _ _ Hv _ _ E). lia.
Qed.

(** ** The windows *)
Definition live_token s (token : string) view : Prop :=
  s.(s_frozen) !! token = Some view ∧ en_RetentionEpoch s.(s_engine) = view.(lv_retention).

Definition older_cursor (w : HistoryWindow) (a : Z) : Prop :=
  let c := w.(hw_Boundary).(hb_Cursor) in c.(hc_Valid) = (0 <? a) ∧ (0 < a → c.(hc_LineID) = a + 1).

Section frozen.
Context (token : string) (Htoken : token ≠ "") (view : liveView) (cold : list Line) (Hv : view_ok view cold).
Context (req : HistoryWindowRequest) (Hreq : req.(rq_Token) = token) (Hlimit : 1 ≤ req.(rq_Limit) ≤ MaxHistoryWindowLines).

Lemma request_view s {A} (k : HistoryWindowRequest * liveView → result A) (ok : A → Prop) cursor :
  watched s token view cold →
  (∀ req', req'.(rq_Token) = token → req'.(rq_Limit) = req.(rq_Limit) → req'.(rq_Cursor) = cursor →
     s.(s_frozen) !! token = Some view → (serving s.(s_engine) view cold ∨ expired s.(s_engine) view) →
     page_or_stale (serving s.(s_engine) view cold) (k (req', view)) ok) →
  page_or_stale (live_token s token view) (result_bind (viewForRequest s (req <| rq_Cursor := cursor |>)) k) ok.
Proof.
  intros Hw Hk. pose proof (watched_serves _ _ _ _ Hw) as He. destruct Hw as (_ & _ & _ & Hf). unfold viewForRequest. cbn. rewrite Hreq.
  destruct (String.eqb_spec token ""); [done|]. destruct Hf as [Hf|Hf]; rewrite Hf; cbn [result_bind].
  { split; [|done]. intros [E _]. congruence. }
  match goal with |- page_or_stale _ (k (?r, view)) _ =>
    assert (Hw : page_or_stale (serving s.(s_engine) view cold) (k (r, view)) ok)
      by (apply Hk; [by destruct (_ <=? _)..|done|done]);
    destruct (k (r, view)) as [w|err]; [exact Hw|]
  end.
  destruct Hw as [Hw ->]. split; [|done]. intros [_ E]. apply Hw. by destruct He as [He|He].
Qed.

Lemma limit_ok (req' : HistoryWindowRequest) : req'.(rq_Limit) = req.(rq_Limit) → normalizedLimit req'.(rq_Limit) = Ok req.(rq_Limit).
Proof. intros ->. unfold normalizedLimit. by destruct (Z.ltb_spec (rq_Limit req) 1), (Z.gtb_spec (rq_Limit req) MaxHistoryWindowLines); try lia. Qed.

Lemma checked_ok a b r : 0 ≤ a → b ≤ viewLogicalTotal view → checked view a b r = r.
Proof. intros Ha Hb. unfold checked. rewrite gaps_inside; [done|apply Hv|done|done]. Qed.

Lemma total_nonneg : 0 ≤ viewLogicalTotal view.
Proof. rewrite <- (view_rows_len view cold (vo_cold _ _ Hv)). apply len_nonneg. Qed.

Lemma cheap_slice a b : Forall cheap (slice a b (view_items view cold)).
Proof. unfold slice. apply Forall_take, Forall_drop, Hv. Qed.

Lemma backward_boundary b a tok : 0 ≤ a ≤ b → b ≤ viewLogicalTotal view → (0 < b → a < b) →
  let c := (page_boundary (slice a b (view_rows view cold)) (head (slice a b (view_rows view cold))) view tok (0 <? a)).(hb_Cursor) in
  c.(hc_Valid) = (0 <? a) ∧ (0 < a → c.(hc_LineID) = a + 1).
Proof.
  intros Ha Hb Hne. destruct (Z.eq_dec b 0) as [->|Hb0].
  - rewrite slice_nil by lia. cbn. replace (0 <? a) with false by lia. split; [done|lia].
  - destruct (page_head view cold a b Hv ltac:(lia) ltac:(lia)) as (row & -> & Hid). by rewrite <- Hid.
Qed.

(** A page read backwards ends at [b]; its cursor asks for what is before it. *)
Definition backward_page (b : Z) (w : HistoryWindow) : Prop :=
  ∃ a, w.(hw_Rows) = slice a b (view_rows view cold) ∧ 0 ≤ a ≤ b ∧ (0 < b → a < b) ∧ older_cursor w a.

Lemma latest_page s : watched s token view cold →
  page_or_stale (live_token s token view) (LatestWindow s (req <| rq_Cursor := no_cursor |>)) (backward_page (viewLogicalTotal view)).
Proof.
  intros Hw. apply request_view; [done|]. intros req' Ht Hl Hc Hf He. rewrite (limit_ok req' Hl). cbn [result_bind].
  pose proof total_nonneg. rewrite checked_ok by lia.
  pose proof (windowRowsBackward_spec s.(s_engine) view cold (Z.max 0 (viewLogicalTotal view - rq_Limit req)) (viewLogicalTotal view)
    (vo_cold _ _ Hv) He ltac:(lia) ltac:(lia) (cheap_slice _ _)) as Hp.
  destruct (windowRowsBackward _ _ _ _) as [p|err]; [|exact Hp]. destruct Hp as (a & -> & Ha & _ & Hne). cbn [result_bind page_or_stale].
  exists a. destruct (backward_boundary (viewLogicalTotal view) a req'.(rq_Token)) as [H1' H2']; [lia..|]. split_and!; [reflexivity|lia..|exact (conj H1' H2')].
Qed.

Lemma older_page s b cursor : watched s token view cold → cursor.(hc_Valid) = true → cursor.(hc_LineID) = b + 1 →
  0 ≤ b ≤ viewLogicalTotal view →
  page_or_stale (live_token s token view) (OlderWindow s (req <| rq_Cursor := cursor |>)) (backward_page b).
Proof.
  intros Hw Hvalid Hid Hb. apply request_view; [done|]. intros req' Ht Hl -> Hf He. rewrite Hvalid. cbn [negb].
  rewrite (limit_ok req' Hl). cbn [result_bind]. rewrite Hid. replace (b + 1 - 1) with b by lia. rewrite clamped by lia.
  rewrite checked_ok by lia.
  pose proof (windowRowsBackward_spec s.(s_engine) view cold (Z.max 0 (b - rq_Limit req)) b
    (vo_cold _ _ Hv) He ltac:(lia) ltac:(lia) (cheap_slice _ _)) as Hp.
  destruct (windowRowsBackward _ _ _ _) as [p|err]; [|exact Hp]. destruct Hp as (a & -> & Ha & _ & Hne). cbn [result_bind page_or_stale].
  exists a. destruct (backward_boundary b a req'.(rq_Token)) as [H1' H2']; [lia..|]. split_and!; [reflexivity|lia..|exact (conj H1' H2')].
Qed.

(** A page read forwards starts at [a]; the client compares its last row with the last line of all. *)
Definition forward_page (a : Z) (w : HistoryWindow) : Prop :=
  ∃ b, w.(hw_Rows) = slice a b (view_rows view cold) ∧ a ≤ b ≤ viewLogicalTotal view ∧ (a < viewLogicalTotal view → a < b)
    ∧ (a < b → w.(hw_Boundary).(hb_LastLineID) = viewLogicalTotal view).

Lemma to_total_last a b boundary : 0 ≤ a < b → b ≤ viewLogicalTotal view →
  (to_total (slice a b (view_rows view cold)) (viewLogicalTotal view) boundary).(hb_LastLineID) = viewLogicalTotal view.
Proof.
  intros Ha Hb. destruct (page_head view cold a b Hv Ha Hb) as (row & Hh & _). unfold to_total. by destruct (slice _ _ _).
Qed.

Lemma oldest_page s : watched s token view cold →
  page_or_stale (live_token s token view) (OldestWindow s (req <| rq_Cursor := no_cursor |>)) (forward_page 0).
Proof.
  intros Hw. apply request_view; [done|]. intros req' Ht Hl Hc Hf He. rewrite (limit_ok req' Hl). cbn [result_bind].
  pose proof total_nonneg. rewrite checked_ok by lia.
  pose proof (windowRowsForward_spec s.(s_engine) view cold 0 (Z.min (viewLogicalTotal view) (rq_Limit req))
    (vo_cold _ _ Hv) He ltac:(lia) ltac:(lia) (cheap_slice _ _)) as Hp.
  destruct (windowRowsForward _ _ _ _) as [p|err]; [|exact Hp]. destruct Hp as (b & -> & Ha & Hb & Hne). cbn [result_bind page_or_stale].
  exists b. split_and!; [done|lia..|]. intros Hlt. apply to_total_last; lia.
Qed.

Lemma newer_page s a cursor : watched s token view cold → cursor.(hc_Valid) = true → cursor.(hc_LineID) = a →
  0 ≤ a ≤ viewLogicalTotal view →
  page_or_stale (live_token s token view) (NewerWindow s (req <| rq_Cursor := cursor |>)) (forward_page a).
Proof.
  intros Hw Hvalid Hid Hb. apply request_view; [done|]. intros req' Ht Hl -> Hf He. rewrite Hvalid. cbn [negb].
  rewrite (limit_ok req' Hl). cbn [result_bind]. rewrite Hid, clamped by lia. rewrite checked_ok by lia.
  pose proof (windowRowsForward_spec s.(s_engine) view cold a (Z.min (viewLogicalTotal view) (a + rq_Limit req))
    (vo_cold _ _ Hv) He ltac:(lia) ltac:(lia) (cheap_slice _ _)) as Hp.
  destruct (windowRowsForward _ _ _ _) as [p|err]; [|exact Hp]. destruct Hp as (b & -> & Ha & Hb' & Hne). cbn [result_bind page_or_stale].
  exists b. split_and!; [done|lia..|]. intros Hlt. apply to_total_last; lia.
Qed.

(** ** Reading all pages *)
Context (store_at : nat → Store F) (Hstores : ∀ n, watched (store_at n) token view cold).

Definition always_live : Prop := ∀ n, live_token (store_at n) token view.

Lemma slice_cat {A} a b c (l : list A) : 0 ≤ a ≤ b → b ≤ c → slice a b l ++ slice b c l = slice a c l.
Proof.
  intros Ha Hb. unfold slice. replace (Z.to_nat (c - a)) with (Z.to_nat (b - a) + Z.to_nat (c - b))%nat by lia.
  rewrite <- take_take_drop, drop_drop. do 3 f_equal. lia.
Qed.

Lemma whole_view : slice 0 (viewLogicalTotal view) (view_rows view cold) = view_rows view cold.
Proof. apply zslice_all. by rewrite (view_rows_len view cold (vo_cold _ _ Hv)). Qed.

Lemma answered n r (ok : HistoryWindow → Prop) (k : HistoryWindow → result (list HistoryRow)) :
  page_or_stale (live_token (store_at n) token view) r ok →
  (∀ w, ok w → page_or_stale always_live (k w) (eq (view_rows view cold))) →
  page_or_stale always_live (result_bind r k) (eq (view_rows view cold)).
Proof. intros Hr Hk. destruct r as [w|err]; cbn [result_bind]; [by apply Hk|]. destruct Hr as [Hr ->]. split; [|done]. intros Ha. by apply Hr. Qed.

Lemma older_pages_spec fuel n rows cursor b :
  rows = slice b (viewLogicalTotal view) (view_rows view cold) → 0 ≤ b ≤ viewLogicalTotal view →
  cursor.(hc_Valid) = (0 <? b) → (0 < b → cursor.(hc_LineID) = b + 1) → b < Z.of_nat fuel →
  page_or_stale always_live (older_pages store_at req fuel n rows cursor) (eq (view_rows view cold)).
Proof.
  revert n rows cursor b. induction fuel as [|fuel IH]; intros n rows cursor b -> Hb Hvalid Hid Hfuel; [lia|].
  cbn [older_pages]. rewrite Hvalid. destruct (Z.ltb_spec 0 b) as [Hlt|Hge]; cycle 1.
  { cbn [page_or_stale]. replace b with 0 by lia. by rewrite whole_view. }
  eapply answered; [apply (older_page _ b); try done; by apply Hid|]. intros w (a & -> & Ha & Hne & Hcv & Hci).
  apply (IH _ _ _ a); [by rewrite slice_cat by lia|lia|done|done|lia].
Qed.

Lemma read_backwards_spec fuel : viewLogicalTotal view < Z.of_nat fuel →
  page_or_stale always_live (read_backwards store_at req fuel) (eq (view_rows view cold)).
Proof.
  intros Hfuel. eapply answered; [by apply latest_page|]. intros w (a & -> & Ha & Hne & Hcv & Hci). by apply (older_pages_spec _ _ _ _ a); try lia.
Qed.

Lemma newer_pages_spec fuel n rows lastLineID b :
  rows = slice 0 b (view_rows view cold) → 0 ≤ b ≤ viewLogicalTotal view → (0 < viewLogicalTotal view → 0 < b) →
  (0 < b → lastLineID = viewLogicalTotal view) → viewLogicalTotal view - b < Z.of_nat fuel →
  page_or_stale always_live (newer_pages store_at req fuel n rows lastLineID) (eq (view_rows view cold)).
Proof.
  revert n rows lastLineID b. induction fuel as [|fuel IH]; intros n rows lastLineID b -> Hb Hpos Hlast Hfuel; [lia|].
  cbn [newer_pages]. destruct (Z.eq_dec b 0) as [->|Hb0].
  { rewrite slice_nil by lia. cbn [last page_or_stale]. rewrite <- whole_view, slice_nil by lia. done. }
  destruct (page_last view cold 0 b Hv ltac:(lia) ltac:(lia)) as (tail & -> & Hid). rewrite Hid, Hlast by lia.
  replace (viewLogicalTotal view =? 0) with false by lia. replace (b =? 0) with false by lia. cbn [orb].
  destruct (Z.eqb_spec b (viewLogicalTotal view)) as [->|Hne]; [by rewrite whole_view|].
  eapply answered; [apply (newer_page _ b); try done; lia|]. intros w (c & -> & Hc & Hnc & Hl).
  apply (IH _ _ _ c); [by rewrite slice_cat by lia|lia|lia|intros; by apply Hl; lia|lia].
Qed.

Lemma read_forwards_spec fuel : viewLogicalTotal view < Z.of_nat fuel →
  page_or_stale always_live (read_forwards store_at req fuel) (eq (view_rows view cold)).
Proof.
  intros Hfuel. eapply answered; [by apply oldest_page|]. intros w (b & -> & Hb & Hne & Hl).
  by apply (newer_pages_spec _ _ _ _ b); try lia.
Qed.
End frozen.
End paging.
