(* ===== verification/HistCopyFacts.v ===== *)
(** * What a chunk of a copy holds

    The reference: the text of a row between two columns without any bound, and the fragments of a range of rows joined
    by newlines. A chunk is the join of the next fragments that fit. *)
From S2P Require Import Prelude GoStd HistLine HistFile HistFileRead HistEngine HistStore HistCopy HistEngineFacts HistPages HistPaging.
Local Open Scope Z_scope.
Local Open Scope bool_scope.
Local Open Scope list_scope.

(** ** The text of a row *)
Section text.
Context `{TextWidth}.

(** What a cell at a column shows between two columns: its text, and its padding with blanks. *)
Definition cell_shows (cell : Cell) (col startCol endCol : Z) : bytes :=
  let width := Z.max 0 cell.(c_Width) in
  if width =? 0 then (if (startCol <=? col) && (col <? endCol) then cell.(c_Text) else [])
  else
    let naturalWidth := Z.max 0 (StringWidth cell.(c_Text)) in
    (if (startCol <? col + Z.min width naturalWidth) && (col <? endCol) then cell.(c_Text) else [])
    ++ replicate (Z.to_nat (Z.min (col + width) endCol - Z.max (Z.min (col + width) (col + naturalWidth)) startCol)) space.

Fixpoint cells_show (cells : list Cell) (col startCol endCol : Z) : bytes :=
  match cells with
  | [] => []
  | cell :: cells => cell_shows cell col startCol endCol ++ cells_show cells (col + Z.max 0 cell.(c_Width)) startCol endCol
  end.
Definition text_range (cells : list Cell) (startCol endCol : Z) : bytes := if endCol <=? startCol then [] else cells_show cells 0 startCol endCol.

Definition within (maxBytes : Z) (text : bytes) : option bytes := if len text >? maxBytes then None else Some text.

Lemma write_within maxBytes text more : write_bounded maxBytes text more = within maxBytes (text ++ more).
Proof. unfold write_bounded, within. rewrite len_app. by destruct (Z.gtb_spec (len more) (maxBytes - len text)), (Z.gtb_spec (len text + len more) maxBytes); try lia. Qed.

Lemma within_more maxBytes text more : within maxBytes text = None → within maxBytes (text ++ more) = None.
Proof.
  unfold within. rewrite len_app. pose proof (len_nonneg more). destruct (Z.gtb_spec (len text) maxBytes); [|done].
  destruct (Z.gtb_spec (len text + len more) maxBytes); [done|lia].
Qed.

Lemma within_fits maxBytes text : len text ≤ maxBytes → within maxBytes text = Some text.
Proof. intros Hl. unfold within. destruct (Z.gtb_spec (len text) maxBytes); [lia|done]. Qed.

Lemma within_Some maxBytes text out : within maxBytes text = Some out → out = text ∧ len text ≤ maxBytes.
Proof. unfold within. destruct (Z.gtb_spec (len text) maxBytes); [done|]. by intros [= <-]. Qed.

Lemma cell_range_spec cell col startCol endCol maxBytes text : len text ≤ maxBytes →
  cell_range cell col startCol endCol maxBytes text = within maxBytes (text ++ cell_shows cell col startCol endCol).
Proof.
  intros Hl. unfold cell_range, cell_shows. cbv zeta. destruct (_ =? 0).
  - destruct (_ && _); [apply write_within|]. by rewrite app_nil_r, within_fits.
  - set (pad := replicate _ _). set (pad' := replicate _ _).
    assert (Ep : pad = pad') by (unfold pad, pad'; f_equal; lia). rewrite <- Ep. rewrite app_assoc.
    destruct (_ && _); [|by rewrite write_within, app_nil_r]. rewrite write_within.
    destruct (within maxBytes (text ++ c_Text cell)) as [out|] eqn:E; [|symmetry; by apply within_more].
    apply within_Some in E as [-> _]. by rewrite write_within.
Qed.

(** Nothing shows past the end. *)
Lemma cell_past cell col startCol endCol : endCol ≤ col → cell_shows cell col startCol endCol = [].
Proof.
  intros Hle. unfold cell_shows. cbv zeta. replace (col <? endCol) with false by lia. rewrite !andb_false_r.
  destruct (_ =? 0); [done|]. cbn [app]. replace (Z.to_nat _) with O by lia. done.
Qed.
Lemma cells_past cells col startCol endCol : endCol ≤ col → cells_show cells col startCol endCol = [].
Proof.
  revert col. induction cells as [|cell cells IH]; intros col Hle; [done|]. cbn [cells_show]. rewrite cell_past, IH by lia. done.
Qed.

Lemma cells_range_spec cells col startCol endCol maxBytes text : len text ≤ maxBytes →
  cells_range cells col startCol endCol maxBytes text = within maxBytes (text ++ cells_show cells col startCol endCol).
Proof.
  revert col text. induction cells as [|cell cells IH]; intros col text Hl; cbn [cells_range cells_show].
  { by rewrite app_nil_r, within_fits. }
  rewrite cell_range_spec by done. rewrite app_assoc.
  destruct (within maxBytes (text ++ cell_shows _ _ _ _)) as [out|] eqn:E; [|symmetry; by apply within_more].
  apply within_Some in E as [-> Hl']. destruct (Z.leb_spec endCol (col + Z.max 0 (c_Width cell))); [|by apply IH].
  by rewrite cells_past, app_nil_r, within_fits.
Qed.

(** The bounded text is the whole text or nothing. *)
Lemma rowTextRangeBounded_spec cells startCol endCol maxBytes : 0 ≤ maxBytes →
  rowTextRangeBounded cells startCol endCol maxBytes = within maxBytes (text_range cells startCol endCol).
Proof.
  intros Hm. unfold rowTextRangeBounded, text_range. destruct (_ <=? _); [by rewrite within_fits|]. by rewrite cells_range_spec.
Qed.
End text.

(** ** Joining *)
Definition join_lines (texts : list bytes) : bytes :=
  match texts with [] => [] | text :: texts => text ++ concat ((λ text, newline ++ text) <$> texts) end.

Lemma join_snoc texts text : join_lines (texts ++ [text]) = join_lines texts ++ (if is_empty texts then [] else newline) ++ text.
Proof.
  destruct texts as [|t texts]; cbn; [by rewrite app_nil_r|]. by rewrite fmap_app, concat_app, <- app_assoc; cbn; rewrite app_nil_r.
Qed.

Lemma join_app a b : a ≠ [] → b ≠ [] → join_lines (a ++ b) = join_lines a ++ newline ++ join_lines b.
Proof.
  intros Ha Hb. destruct a as [|t a]; [done|]. destruct b as [|u b]; [done|]. cbn.
  rewrite fmap_app, concat_app. cbn. by rewrite <- !app_assoc.
Qed.

(** ** One chunk *)
Section chunk.
Context `{TextWidth} (ctx : Context) (req : HistoryCopyChunkRequest) (startLine endLine : Z).
Context (Hlines : 0 < req.(cq_MaxLines)) (Hbytes : 0 < req.(cq_MaxBytes)).

(** The fragment of a row of the range. *)
Definition fragment (offset : Z) (cells : list Cell) : bytes :=
  let startCol := match req.(cq_Range) with Some r => if offset =? startLine then r.(cr_Start).(cp_Col) else 0 | None => 0 end in
  let endCol := match req.(cq_Range) with
                | Some r => if offset =? endLine - 1 then r.(cr_End).(cp_Col) else historyCellsDisplayWidth cells
                | None => historyCellsDisplayWidth cells end in
  text_range cells startCol endCol.
Definition fragments (offset : Z) (rows : list (list Cell)) : list bytes := imap (λ i, fragment (offset + Z.of_nat i)) rows.

Fixpoint copy_rows (c : copying) (offset : Z) (rows : list (list Cell)) : copying * bool :=
  match rows with
  | [] => (c, true)
  | cells :: rows => let '(c, more) := copy_line ctx req startLine endLine c offset cells in
                     if more then copy_rows c (offset + 1) rows else (c, false)
  end.

Lemma copy_rows_app c offset r1 r2 :
  copy_rows c offset (r1 ++ r2) = let '(c, more) := copy_rows c offset r1 in if more then copy_rows c (offset + len r1) r2 else (c, false).
Proof.
  revert c offset. induction r1 as [|cells r1 IH]; intros c offset; cbn [app copy_rows]; [by rewrite len_nil, Z.add_0_r|].
  destruct (copy_line _ _ _ _ _ _ _) as [c' []]; [|done]. rewrite IH. destruct (copy_rows c' _ _) as [c2 []]; [|done].
  f_equal. unfold len. cbn [length]. lia.
Qed.

Lemma copy_hot_rows c offset rows : copy_hot ctx req startLine endLine c offset rows = (copy_rows c offset (hr_Cells <$> rows)).1.
Proof.
  revert c offset. induction rows as [|row rows IH]; intros c offset; [done|]. cbn [copy_hot fmap list_fmap copy_rows].
  destruct (copy_line _ _ _ _ _ _ _) as [c' []]; [|done]. apply IH.
Qed.

Lemma fragments_cons offset cells rows : fragments offset (cells :: rows) = fragment offset cells :: fragments (offset + 1) rows.
Proof. unfold fragments. cbn [imap]. f_equal; [by rewrite Z.add_0_r|]. apply imap_ext. intros i x _. cbn. f_equal. lia. Qed.

Lemma fragments_app offset r1 r2 : fragments offset (r1 ++ r2) = fragments offset r1 ++ fragments (offset + len r1) r2.
Proof.
  revert offset. induction r1 as [|cells r1 IH]; intros offset; cbn [app]; [by rewrite len_nil, Z.add_0_r|].
  rewrite !fragments_cons, IH. cbn [app]. do 3 f_equal. unfold len. cbn [length]. lia.
Qed.

Lemma fragments_len offset rows : length (fragments offset rows) = length rows.
Proof. apply length_imap. Qed.

(** The copy goes on: these fragments have been taken. *)
Definition copying_on (c : copying) (texts : list bytes) : Prop :=
  c.(cy_err) = None ∧ c.(cy_stopped) = false ∧ c.(cy_done) = false ∧ c.(cy_text) = join_lines texts ∧ c.(cy_copied) = len texts
  ∧ len c.(cy_text) ≤ req.(cq_MaxBytes).

(** What stops a copy of a row: a cancelled context, or a first fragment larger than a chunk. *)
Definition copy_error (offset : Z) (cells : list Cell) (err : goerr) : Prop :=
  ctx.(ctx_line) offset = Some err
  ∨ err = ErrHistoryCopyTooLarge ∧ offset = startLine ∧ req.(cq_MaxBytes) < len (fragment offset cells).

Inductive line_outcome (texts : list bytes) (offset : Z) (cells : list Cell) : copying → bool → Prop :=
| line_goes c : copying_on c (texts ++ [fragment offset cells]) → offset ≠ endLine - 1 → line_outcome texts offset cells c true
| line_done c : c.(cy_err) = None → c.(cy_stopped) = false → c.(cy_done) = true → c.(cy_text) = join_lines (texts ++ [fragment offset cells]) →
    offset = endLine - 1 → line_outcome texts offset cells c false
| line_stops c : c.(cy_err) = None → c.(cy_stopped) = true → c.(cy_done) = false → c.(cy_text) = join_lines texts → texts ≠ [] →
    c.(cy_next) = mkPosition (offset + 1) 0 → line_outcome texts offset cells c false
| line_fails c err : c.(cy_err) = Some err → copy_error offset cells err → line_outcome texts offset cells c false.

Lemma copy_line_spec c texts offset cells : copying_on c texts → offset = startLine + len texts →
  let '(c', more) := copy_line ctx req startLine endLine c offset cells in line_outcome texts offset cells c' more.
Proof.
  intros (He & Hs & Hd & Ht & Hc & Hl) Ho. unfold copy_line. cbv zeta. destruct (ctx_line ctx offset) as [err|] eqn:Ectx.
  { eapply line_fails; [done|by left]. }
  assert (Hempty : is_empty texts = (offset =? startLine)).
  { destruct texts as [|t ts]; cbn [is_empty]; unfold len in Ho; cbn [length] in Ho; lia. }
  assert (Hne : cy_copied c ≠ 0 → texts ≠ []) by (intros Hn ->; by rewrite Hc in Hn).
  destruct (Z.geb_spec (cy_copied c) (cq_MaxLines req)) as [Hmax|_]; [apply line_stops; try done; apply Hne; lia|].
  set (sep := if offset >? startLine then 1 else 0).
  assert (Hsep : sep = if is_empty texts then 0 else 1).
  { unfold sep. rewrite Hempty. pose proof (len_nonneg texts). destruct (Z.gtb_spec offset startLine), (Z.eqb_spec offset startLine); lia. }
  destruct (Z.ltb_spec (cq_MaxBytes req - len (cy_text c) - sep) 0) as [Hneg|Hpos].
  { apply line_stops; try done. intros ->. cbn in Hsep. rewrite Ht in Hneg. change (len (join_lines [])) with 0 in Hneg. lia. }
  rewrite rowTextRangeBounded_spec by done. change (text_range cells _ _) with (fragment offset cells).
  destruct (within _ (fragment offset cells)) as [frag|] eqn:Ew; cycle 1.
  { destruct (Z.eqb_spec (cy_copied c) 0) as [E0|E0]; [|apply line_stops; try done; by apply Hne].
    eapply line_fails; [done|right]. rewrite Hc in E0. split_and!; [done|lia|]. unfold within in Ew.
    destruct texts as [|t ts]; [|unfold len in E0; cbn in E0; lia]. rewrite Hsep, Ht in *. change (len (join_lines [])) with 0 in *. cbn in Ew.
    destruct (Z.gtb_spec (len (fragment offset cells)) (cq_MaxBytes req - 0 - 0)); [lia|done]. }
  apply within_Some in Ew as [-> Hf].
  assert (Et : cy_text c ++ (if sep =? 0 then [] else newline) ++ fragment offset cells = join_lines (texts ++ [fragment offset cells])).
  { rewrite join_snoc, <- Ht, Hsep. by destruct (is_empty texts). }
  destruct (Z.eqb_spec offset (endLine - 1)) as [El|El].
  - by apply line_done.
  - apply line_goes; [|done]. split_and!; try done; cbn [cy_copied cy_text set_field].
    + cbn. rewrite len_app, Hc. done.
    + cbn. rewrite !len_app. rewrite Hsep in *. destruct (is_empty texts); cbn; unfold len; cbn; unfold len in *; lia.
Qed.

Inductive rows_outcome (texts : list bytes) (offset : Z) (rows : list (list Cell)) : copying → bool → Prop :=
| rows_go c : copying_on c (texts ++ fragments offset rows) → (rows ≠ [] → offset + len rows < endLine) → rows_outcome texts offset rows c true
| rows_done c : c.(cy_err) = None → c.(cy_stopped) = false → c.(cy_done) = true → c.(cy_text) = join_lines (texts ++ fragments offset rows) →
    offset + len rows = endLine → rows_outcome texts offset rows c false
| rows_stop c k : c.(cy_err) = None → c.(cy_stopped) = true → c.(cy_done) = false → (k < length rows)%nat →
    c.(cy_text) = join_lines (texts ++ take k (fragments offset rows)) → texts ++ take k (fragments offset rows) ≠ [] →
    c.(cy_next) = mkPosition (offset + Z.of_nat k + 1) 0 → rows_outcome texts offset rows c false
| rows_fail c err k cells : c.(cy_err) = Some err → rows !! k = Some cells → copy_error (offset + Z.of_nat k) cells err →
    rows_outcome texts offset rows c false.

Lemma copy_rows_spec rows c texts offset :
  copying_on c texts → offset = startLine + len texts → offset + len rows ≤ endLine →
  let '(c', more) := copy_rows c offset rows in rows_outcome texts offset rows c' more.
Proof.
  revert c texts offset. induction rows as [|cells rows IH]; intros c texts offset Hc Ho Hle; cbn [copy_rows].
  { apply rows_go; [|done]. by rewrite app_nil_r. }
  assert (Hlen : len (cells :: rows) = 1 + len rows) by (unfold len; cbn [length]; lia). rewrite Hlen in Hle.
  pose proof (copy_line_spec c texts offset cells Hc Ho) as Hline. destruct (copy_line _ _ _ _ _ _ _) as [c1 more1].
  pose proof (len_nonneg rows). destruct Hline as [c1 H1 Hne|c1 H1 H2 H3 H4 Hend|c1 H1 H2 H3 H4 H5 H6|c1 err H1 H2].
  - assert (Ho1 : offset + 1 = startLine + len (texts ++ [fragment offset cells])) by (rewrite len_app; change (len [_]) with 1; lia).
    specialize (IH c1 _ _ H1 Ho1 ltac:(lia)). destruct (copy_rows c1 _ rows) as [c2 more2].
    destruct IH as [c2 G1 G2|c2 G1 G2 G3 G4 G5|c2 k G1 G2 G3 G4 G5 G6 G7|c2 err k cells' G1 G2 G3].
    + rewrite <- app_assoc in G1. apply rows_go; [by rewrite fragments_cons|]. intros _. rewrite Hlen.
      destruct rows; [rewrite len_nil; lia|]. specialize (G2 ltac:(done)). lia.
    + apply rows_done; try done; [by rewrite fragments_cons, G4, <- app_assoc|lia].
    + apply (rows_stop _ _ _ _ (S k)); try done; rewrite ?fragments_cons; cbn [take length]; [lia|by rewrite G5, <- app_assoc|by destruct texts|].
      rewrite G7. f_equal. lia.
    + eapply (rows_fail _ _ _ _ err (S k)); [done|exact G2|]. by replace (offset + Z.of_nat (S k)) with (offset + 1 + Z.of_nat k) by lia.
  - assert (rows = []) as -> by (destruct rows; [done|unfold len in *; cbn [length] in *; lia]).
    apply rows_done; [done..| |rewrite Hlen, len_nil; lia]. by rewrite fragments_cons.
  - apply (rows_stop _ _ _ _ O); try done; cbn [take length]; [lia|by rewrite app_nil_r|by rewrite app_nil_r|]. by rewrite Z.add_0_r.
  - apply (rows_fail _ _ _ _ err O cells); [done|done|]. by rewrite Z.add_0_r.
Qed.

(** The two parts of a view, one after the other. *)
Lemma outcome_then c texts offset r1 r2 :
  copying_on c texts → offset = startLine + len texts → offset + len (r1 ++ r2) ≤ endLine →
  let c1 := (copy_rows c offset r1).1 in
  let c2 := match c1.(cy_err) with
            | None => if negb c1.(cy_stopped) && negb c1.(cy_done) then (copy_rows c1 (offset + len r1) r2).1 else c1
            | Some _ => c1 end in
  c2 = (copy_rows c offset (r1 ++ r2)).1.
Proof.
  intros Hc Ho Hle. rewrite copy_rows_app. rewrite len_app in Hle. pose proof (len_nonneg r2).
  pose proof (copy_rows_spec r1 c texts offset Hc Ho ltac:(lia)) as Hr. destruct (copy_rows c offset r1) as [c1 more]. cbn [fst].
  destruct Hr as [c1 (-> & -> & -> & _) _|c1 -> -> -> _ _|c1 k -> -> -> _ _ _ _|c1 err k cells -> _ _]; done.
Qed.
End chunk.

(** ** Reading in batches *)
Section batched.
Context `{TextWidth} {F : Type} `{LineStorageLaws F} {S : Type} (visit : S → Z → Line → S * bool).
Context (ctx : Context) (engine_at : Z → Engine F) (view : liveView) (cold : list Line).
Context (Hengines : ∀ i, serving (engine_at i) view cold ∨ expired (engine_at i) view).

(** Why a batch is not read. *)
Definition batch_error (err : goerr) : Prop :=
  (∃ i, ctx.(ctx_batch) i = Some err) ∨ err = errRetentionChanged ∧ ∃ i, expired (engine_at i) view.

Lemma serving_lines e start stop : serving e view cold → 0 ≤ start ≤ stop → stop ≤ len cold →
  LinesAtRetention e view.(lv_retention) start stop = (slice start stop cold, None).
Proof.
  intros [He (rest & Hh)] Hs Hle. unfold LinesAtRetention. rewrite He, Z.eqb_refl. cbn [negb].
  pose proof (len_app cold rest). pose proof (len_nonneg rest). rewrite (ls_lines_ok _ _ _ _ Hh) by lia. f_equal.
  rewrite zslice_app, Z.min_l, (slice_nil _ _ rest), app_nil_r by lia. done.
Qed.

Lemma batches_spec batchSize fuel start stop s :
  0 < batchSize → 0 ≤ start → stop ≤ len cold → stop - start ≤ Z.of_nat fuel →
  match batches visit ctx engine_at view.(lv_retention) start stop batchSize fuel s with
  | (s', None) => s' = (visit_list visit start (slice start stop cold) s).1
  | (_, Some err) => batch_error err
  end.
Proof.
  intros Hb. revert start s. induction fuel as [|fuel IH]; intros start s Hs Hle Hf; cbn [batches].
  { by rewrite slice_nil by lia. }
  destruct (Z.ltb_spec start stop) as [Hlt|Hge]; [|by rewrite slice_nil by lia].
  destruct (ctx_batch ctx start) as [err|] eqn:Ec; [left; by exists start|].
  destruct (Hengines start) as [He|He]; cycle 1.
  { unfold LinesAtRetention. rewrite (proj2 (Z.eqb_neq _ _) He). right. split; [done|by exists start]. }
  rewrite serving_lines by (done || lia).
  rewrite <- (slice_cat start (Z.min stop (start + batchSize)) stop cold), visit_list_app by lia.
  destruct (visit_list visit start _ s) as [s1 []]; [|done].
  rewrite slice_len, (Z.min_l (Z.min _ _)) by lia.
  replace (start + Z.max 0 (Z.min stop (start + batchSize) - start)) with (Z.min stop (start + batchSize)) by lia.
  apply IH; lia.
Qed.
End batched.

(** ** A chunk of a view *)
Section views.
Context `{TextWidth} {F : Type} `{LineStorageLaws F}.

Definition line_cells (line : Line) : list Cell := cellsFromRuns line.(Runs).
Definition view_cells (view : liveView) (cold : list Line) : list (list Cell) := hr_Cells <$> view_rows view cold.

Lemma view_cells_split view cold : view_cells view cold = (line_cells <$> cold) ++ (hr_Cells <$> view.(lv_hot)).
Proof.
  unfold view_cells. rewrite view_rows_split, fmap_app. f_equal. generalize 0. induction cold as [|line cold' IH]; intros n; [done|].
  rewrite cold_items_cons. cbn [fmap list_fmap]. by rewrite <- (IH (n + 1)).
Qed.

Lemma view_cells_len view cold : cold_of view cold → len (view_cells view cold) = viewLogicalTotal view.
Proof. intros Hc. unfold view_cells. rewrite len_fmap. by apply view_rows_len. Qed.

Section one.
Context (ctx : Context) (engine_at : Z → Engine F) (view : liveView) (cold : list Line) (req : HistoryCopyChunkRequest) (startLine endLine : Z).
Context (Hcold : cold_of view cold) (Hengines : ∀ i, serving (engine_at i) view cold ∨ expired (engine_at i) view).
Context (Hlines : 0 < req.(cq_MaxLines)) (Hbytes : 0 < req.(cq_MaxBytes)).
Context (Hrange : 0 ≤ startLine < endLine) (Htotal : endLine ≤ viewLogicalTotal view).

Lemma visit_copies start lines c :
  visit_list (λ c index line, copy_line ctx req startLine endLine c (index - view.(lv_coldBase)) (cellsFromRuns line.(Runs))) start lines c
  = copy_rows ctx req startLine endLine c start (line_cells <$> lines).
Proof.
  destruct Hcold as [-> _]. revert start c. induction lines as [|line lines IH]; intros start c; [done|].
  cbn [visit_list fmap list_fmap copy_rows]. rewrite Z.sub_0_r. unfold line_cells at 1. destruct (copy_line _ _ _ _ _ _ _) as [c' []]; [|done]. apply IH.
Qed.

(** Why a chunk fails. *)
Definition chunk_error (err : goerr) : Prop :=
  (∃ e, batch_error ctx engine_at view e ∧ err = stale e)
  ∨ ∃ i cells, view_cells view cold !! Z.to_nat i = Some cells ∧ startLine ≤ i < endLine ∧ copy_error ctx req startLine endLine i cells err.

Definition range_fragments : list bytes := fragments req startLine endLine startLine (slice startLine endLine (view_cells view cold)).

Definition chunk_outcome (r : result HistoryCopyChunkResult) : Prop :=
  match r with
  | Ok res =>
      if res.(cc_Done) then res.(cc_Text) = join_lines range_fragments
      else ∃ k, (0 < k < length range_fragments)%nat ∧ res.(cc_Text) = join_lines (take k range_fragments)
                ∧ res.(cc_Next) = mkPosition (startLine + Z.of_nat k + 1) 0
  | Err err => chunk_error err
  end.

Definition first_copying : copying := mkCopying 0 [] no_position false false None.

Lemma first_copying_on : copying_on req first_copying [].
Proof. split_and!; [done..|]. change (0 ≤ cq_MaxBytes req). lia. Qed.

Lemma rows_slice : slice startLine endLine (view_cells view cold)
  = (line_cells <$> slice startLine endLine cold)
    ++ (hr_Cells <$> slice (Z.max startLine view.(lv_coldCount) - view.(lv_coldCount)) (endLine - view.(lv_coldCount)) view.(lv_hot)).
Proof.
  rewrite view_cells_split, zslice_app by lia. rewrite slice_min by lia. rewrite !slice_fmap, len_fmap. by destruct Hcold as [_ <-].
Qed.

Lemma rows_len : len (slice startLine endLine (view_cells view cold)) = endLine - startLine.
Proof. rewrite slice_len, view_cells_len by (done || lia). lia. Qed.

Lemma chunk_result c : c = (copy_rows ctx req startLine endLine first_copying startLine (slice startLine endLine (view_cells view cold))).1 →
  chunk_outcome (match c.(cy_err) with
                 | Some err => Err err
                 | None => Ok (if negb c.(cy_stopped) && negb c.(cy_done) then mkCopyResult c.(cy_text) no_position true
                               else mkCopyResult c.(cy_text) c.(cy_next) c.(cy_done))
                 end).
Proof.
  intros ->. pose proof rows_len as El.
  pose proof (copy_rows_spec ctx req startLine endLine Hlines Hbytes (slice startLine endLine (view_cells view cold)) first_copying [] startLine
    first_copying_on ltac:(rewrite len_nil; lia) ltac:(lia)) as Hr.
  destruct (copy_rows _ _ _ _ _ _ _) as [c more]. cbn [fst].
  destruct Hr as [c (-> & -> & -> & Ht & _) _|c -> -> -> Ht _|c k -> -> -> Hk Ht Hne Hn|c err k cells -> Hk He]; cbn.
  - exact Ht.
  - exact Ht.
  - exists k. unfold range_fragments. rewrite fragments_len. split_and!; try done. destruct k; [by cbn in Hne|lia].
  - right. exists (startLine + Z.of_nat k), cells. assert (Hlk : (k < length (slice startLine endLine (view_cells view cold)))%nat) by (by eapply lookup_lt_Some).
    unfold len in El. rewrite slice_lookup in Hk by lia. split_and!; [|lia|lia|done]. rewrite <- Hk. f_equal. lia.
Qed.

Lemma copy_view_spec : chunk_outcome (copy_view ctx engine_at view req startLine endLine).
Proof.
  unfold copy_view. fold first_copying. pose proof rows_len as El. rewrite rows_slice in El.
  set (hot := slice _ _ view.(lv_hot)) in *.
  assert (Hin : ∀ c, c = (copy_rows ctx req startLine endLine first_copying startLine (line_cells <$> slice startLine endLine cold)).1 →
    let hotStart := Z.max startLine view.(lv_coldCount) in
    let hotEnd := Z.min endLine (view.(lv_coldCount) + len view.(lv_hot)) in
    match c.(cy_err) with
    | None => if negb c.(cy_stopped) && negb c.(cy_done)
              then copy_hot ctx req startLine endLine c hotStart
                     (slice (hotStart - view.(lv_coldCount)) (hotEnd - view.(lv_coldCount)) view.(lv_hot))
              else c
    | Some _ => c
    end = (copy_rows ctx req startLine endLine first_copying startLine (slice startLine endLine (view_cells view cold))).1).
  { intros c ->. cbv zeta. rewrite rows_slice. fold hot.
    rewrite <- (outcome_then ctx req startLine endLine Hlines Hbytes first_copying [] startLine _ _ first_copying_on) by (rewrite ?len_nil; lia).
    rewrite Z.min_l by (unfold viewLogicalTotal in Htotal; lia). fold hot. rewrite copy_hot_rows.
    destruct (Z.leb_spec endLine view.(lv_coldCount)) as [Hle|Hgt].
    { replace hot with (@nil HistoryRow) by (symmetry; apply slice_nil; lia). destruct (cy_err _); [done|]. by destruct (_ && _). }
    replace (startLine + len (line_cells <$> slice startLine endLine cold)) with (Z.max startLine view.(lv_coldCount)); [done|].
    destruct Hcold as [_ Ec]. rewrite len_fmap, slice_len by lia. lia. }
  destruct (Z.ltb_spec startLine view.(lv_coldCount)) as [Hlt|Hge]; cycle 1.
  { cbv zeta in Hin. rewrite Hin; [by apply chunk_result|]. destruct Hcold as [_ Ec]. by rewrite slice_past by lia. }
  unfold VisitLinesAtRetentionBatched. destruct Hcold as [Eb Ec]. rewrite Eb, !Z.add_0_l.
  replace (Z.min endLine view.(lv_coldCount) <=? startLine) with false by lia. unfold historySearchReadBatchLines. cbn [Z.leb Z.compare].
  pose proof (batches_spec (λ c index line, copy_line ctx req startLine endLine c (index - 0) (cellsFromRuns line.(Runs)))
    ctx engine_at view cold Hengines 256 (Z.to_nat (Z.min endLine view.(lv_coldCount) - startLine)) startLine
    (Z.min endLine view.(lv_coldCount)) first_copying ltac:(lia) ltac:(lia) ltac:(lia) ltac:(lia)) as Hb.
  destruct (batches _ _ _ _ _ _ _ _ _) as [c [err|]].
  { left. by exists err. }
  rewrite <- Eb in Hb. rewrite visit_copies, Ec, slice_min in Hb by lia. cbv zeta in Hin. rewrite Hin by done. by apply chunk_result.
Qed.
End one.
End views.

(** * The client joins chunks to the selected text *)

(** What a selection from a column of one row to a column of another means: a text per row. *)
Definition selected `{TextWidth} (rows : list (list Cell)) (start stop : HistoryCopyPosition) : list bytes :=
  let first := start.(cp_LineID) - 1 in
  imap (λ i cells, text_range cells (if (i =? 0)%nat then start.(cp_Col) else 0)
                     (if first + Z.of_nat i =? stop.(cp_LineID) - 1 then stop.(cp_Col) else historyCellsDisplayWidth cells))
    (slice first stop.(cp_LineID) rows).

(** A selection inside a view. *)
Definition selection_ok (view : liveView) (start stop : HistoryCopyPosition) : Prop :=
  1 ≤ start.(cp_LineID) ≤ stop.(cp_LineID) ∧ stop.(cp_LineID) ≤ viewLogicalTotal view ∧ 0 ≤ start.(cp_Col) ∧ 0 ≤ stop.(cp_Col)
  ∧ (start.(cp_LineID) = stop.(cp_LineID) → start.(cp_Col) ≤ stop.(cp_Col)).

Section loop.
Context `{TextWidth} {F : Type} `{LineStorageLaws F}.
Context (token : string) (Htoken : token ≠ "") (view : liveView) (cold : list Line) (Hv : view_ok view cold).
Context (store_at : nat → Store F) (Hstores : ∀ n, watched (store_at n) token view cold).
Context (engine_at : nat → Z → Engine F) (Hengines : ∀ n i, serving (engine_at n i) view cold ∨ expired (engine_at n i) view).
Context (ctx : nat → Context) (terminalID : string) (cols maxLines maxBytes : Z).
Context (HmaxLines : 1 ≤ maxLines ≤ MaxHistoryCopyLines) (HmaxBytes : 1 ≤ maxBytes ≤ MaxHistoryCopyBytes).

Definition copy_request (range : HistoryCopyRange) : HistoryCopyChunkRequest :=
  mkCopyRequest terminalID token cols (Some range) maxLines maxBytes.
Definition ask (n : nat) (range : HistoryCopyRange) : result HistoryCopyChunkResult :=
  CopyChunk (ctx n) (engine_at n) (store_at n) (copy_request range).

(** A later start of the same selection. *)
Lemma selected_drop start stop k : selection_ok view start stop → (0 < k)%nat → Z.of_nat k ≤ stop.(cp_LineID) - start.(cp_LineID) →
  drop k (selected (view_cells view cold) start stop)
  = selected (view_cells view cold) (mkPosition (start.(cp_LineID) + Z.of_nat k) 0) stop.
Proof.
  intros (Hs & Ht & _) Hk Hle. unfold selected. cbn [cp_LineID cp_Col].
  apply list_eq. intros i. rewrite lookup_drop, !list_lookup_imap.
  replace (slice (start.(cp_LineID) + Z.of_nat k - 1) stop.(cp_LineID) (view_cells view cold) !! i)
    with (slice (start.(cp_LineID) - 1) stop.(cp_LineID) (view_cells view cold) !! (k + i)%nat); cycle 1.
  { unfold slice. rewrite <- (lookup_drop _ k i), skipn_firstn_comm, drop_drop. do 2 f_equal; [lia|f_equal; lia]. }
  destruct (slice _ _ _ !! _) as [cells|]; [|done]. cbn [fmap option_fmap option_map]. f_equal.
  replace (k + i =? 0)%nat with false by (symmetry; apply Nat.eqb_neq; lia).
  replace (if (i =? 0)%nat then 0 else 0) with 0 by (by destruct (i =? 0)%nat). f_equal.
  replace (start.(cp_LineID) + Z.of_nat k - 1 + Z.of_nat i) with (start.(cp_LineID) - 1 + Z.of_nat (k + i)) by lia. done.
Qed.

Lemma selected_len start stop : selection_ok view start stop →
  Z.of_nat (length (selected (view_cells view cold) start stop)) = stop.(cp_LineID) - start.(cp_LineID) + 1.
Proof.
  intros (Hs & Ht & _). unfold selected. rewrite length_imap. change (Z.of_nat (length ?l)) with (len l).
  rewrite slice_len, (view_cells_len _ _ (vo_cold _ _ Hv)) by lia. lia.
Qed.

Lemma fragments_selected start stop : selection_ok view start stop →
  range_fragments view cold (copy_request (mkCopyRange start stop)) (start.(cp_LineID) - 1) stop.(cp_LineID)
  = selected (view_cells view cold) start stop.
Proof.
  intros (Hs & Ht & _). unfold range_fragments, fragments, selected. apply imap_ext. intros i cells _. unfold fragment. cbn [copy_request cq_Range cr_Start cr_End].
  f_equal. destruct i; cbn [Nat.eqb]; [by rewrite Z.add_0_r, Z.eqb_refl|].
  destruct (Z.eqb_spec (cp_LineID start - 1 + Z.of_nat (S i)) (cp_LineID start - 1)); [lia|done].
Qed.

(** What may get in the way. *)
Definition hindered (start stop : HistoryCopyPosition) : Prop :=
  (∃ n, ¬ live_token (store_at n) token view) ∨ (∃ n i, expired (engine_at n i) view)
  ∨ (∃ n i, (ctx n).(ctx_batch) i ≠ None ∨ (ctx n).(ctx_line) i ≠ None)
  ∨ MaxHistoryCopyLines < stop.(cp_LineID) - start.(cp_LineID) + 1
  ∨ (∃ text, text ∈ selected (view_cells view cold) start stop ∧ maxBytes < len text)
  ∨ maxMaterializedCopyBytes < len (join_lines (selected (view_cells view cold) start stop)).

Lemma selection_bounds start stop : selection_ok view start stop →
  copy_bounds view (Some (mkCopyRange start stop)) = Ok (start.(cp_LineID) - 1, stop.(cp_LineID)).
Proof.
  intros (Hs & Ht & Hc1 & Hc2 & Hc3). unfold copy_bounds, validateCopyRange, lineOffsetForCopyPosition. cbn [cr_Start cr_End].
  destruct (Z.ltb_spec (cp_Col start) 0), (Z.ltb_spec (cp_Col stop) 0); try lia. cbn [orb].
  destruct (Z.ltb_spec (cp_LineID stop) (cp_LineID start)); [lia|]. cbn [orb].
  destruct (Z.eqb_spec (cp_LineID start) (cp_LineID stop)) as [E|E]; cbn [andb].
  1: destruct (Z.ltb_spec (cp_Col stop) (cp_Col start)); [lia|].
  all: replace (viewLogicalTotal view =? 0) with false by lia; replace (cp_LineID start =? 0) with false by lia;
    replace (cp_LineID stop =? 0) with false by lia; replace (viewLogicalTotal view <? cp_LineID start) with false by lia;
    replace (viewLogicalTotal view <? cp_LineID stop) with false by lia; cbn [orb]; rewrite !clamped by lia; do 2 f_equal; lia.
Qed.

Lemma token_view s tid width :
  match s.(s_frozen) !! token with
  | None => viewForRequest s (mkRequest tid width 0 token no_cursor) = Err ErrHistoryStaleWindow
  | Some v => ∃ req, viewForRequest s (mkRequest tid width 0 token no_cursor) = Ok (req, v)
  end.
Proof.
  unfold viewForRequest. cbn. destruct (String.eqb_spec token ""); [done|]. destruct (s_frozen s !! token); [by eexists|done].
Qed.

Lemma chunk_spec n start stop : selection_ok view start stop →
  match ask n (mkCopyRange start stop) with
  | Ok res =>
      let texts := selected (view_cells view cold) start stop in
      if res.(cc_Done) then res.(cc_Text) = join_lines texts
      else ∃ k, (0 < k < length texts)%nat ∧ res.(cc_Text) = join_lines (take k texts)
                ∧ res.(cc_Next) = mkPosition (start.(cp_LineID) + Z.of_nat k) 0
  | Err err => hindered start stop
  end.
Proof.
  intros Hsel. pose proof Hsel as (Hs & Ht & Hc1 & Hc2 & Hc3). unfold ask, CopyChunk. cbn [copy_request cq_MaxLines cq_MaxBytes cq_Range cq_Token cq_Cols cq_TerminalID].
  replace (_ || _) with false by lia. pose proof (token_view (store_at n) terminalID cols) as Hview.
  destruct (Hstores n) as (_ & _ & _ & [Hf|Hf]); rewrite Hf in Hview.
  { rewrite Hview. left. exists n. intros [E _]. congruence. }
  destruct Hview as [req ->]. cbn [result_bind snd].
  rewrite selection_bounds by done. cbn [result_bind fst snd].
  destruct (Z.gtb_spec (cp_LineID stop - (cp_LineID start - 1)) MaxHistoryCopyLines); [right; right; right; left; lia|].
  rewrite gaps_inside by (apply Hv || lia).
  pose proof (copy_view_spec (ctx n) (engine_at n) view cold (copy_request (mkCopyRange start stop)) (cp_LineID start - 1) (cp_LineID stop)
    (vo_cold _ _ Hv) (Hengines n) ltac:(cbn; lia) ltac:(cbn; lia) ltac:(lia) ltac:(lia)) as Ho.
  unfold chunk_outcome in Ho. rewrite fragments_selected in Ho by done. destruct (copy_view _ _ _ _ _ _) as [res|err].
  - destruct (cc_Done res); [done|]. destruct Ho as (k & Hk & Htx & Hn). exists k. split_and!; try done; [lia..|]. rewrite Hn. f_equal. lia.
  - destruct Ho as [(e & [[i He]|[-> [i He]]] & _)|(i & cells & Hcells & Hi & [He|(_ & -> & He)])].
    + right; right; left. exists n, i. left. congruence.
    + right; left. by exists n, i.
    + right; right; left. exists n, i. right. congruence.
    + right; right; right; right; left. eexists. split; [|exact He]. rewrite <- fragments_selected by done.
      unfold range_fragments, fragments. apply list_elem_of_lookup. exists O. rewrite list_lookup_imap, slice_lookup by lia.
      rewrite Nat.add_0_r, Hcells. cbn. by rewrite Z.add_0_r.
Qed.

(** ** All chunks *)

(** Where the loop is after the first [j] rows. *)
Definition position_after (start : HistoryCopyPosition) (j : nat) : HistoryCopyPosition :=
  if (j =? 0)%nat then start else mkPosition (start.(cp_LineID) + Z.of_nat j) 0.

Lemma selection_after start stop j : selection_ok view start stop → Z.of_nat j ≤ stop.(cp_LineID) - start.(cp_LineID) →
  selection_ok view (position_after start j) stop ∧ (position_after start j).(cp_LineID) = start.(cp_LineID) + Z.of_nat j
  ∧ selected (view_cells view cold) (position_after start j) stop = drop j (selected (view_cells view cold) start stop).
Proof.
  intros Hsel Hj. pose proof Hsel as (Hs & Ht & Hc1 & Hc2 & Hc3). unfold position_after. destruct (Nat.eqb_spec j 0) as [->|Hj0].
  - split_and!; [done..|lia|done].
  - unfold selection_ok. split_and!; cbn [cp_LineID cp_Col]; try (intros; lia). rewrite selected_drop; [done|done|lia|lia].
Qed.

Lemma hindered_after start stop j : selection_ok view start stop → Z.of_nat j ≤ stop.(cp_LineID) - start.(cp_LineID) →
  hindered (position_after start j) stop → hindered start stop.
Proof.
  intros Hsel Hj. destruct (selection_after start stop j Hsel Hj) as (_ & Hid & Hd). unfold hindered. rewrite Hid, Hd.
  set (texts := selected _ start stop). intros [?|[?|[?|[?|[(text & Hin & Hl)|Hl]]]]].
  - by left.
  - right; by left.
  - right; right; by left.
  - right; right; right; left. lia.
  - right; right; right; right; left. exists text. split; [|done]. rewrite <- (take_drop j texts). apply elem_of_app. by right.
  - right; right; right; right; right. rewrite <- (take_drop j texts). enough (len (join_lines (drop j texts)) ≤ len (join_lines (take j texts ++ drop j texts))) by lia.
    destruct (take j texts) as [|t ts] eqn:Et; [done|]. destruct (drop j texts) as [|u us]; [rewrite app_nil_r; unfold len; cbn; lia|].
    rewrite join_app by done. rewrite !len_app. pose proof (len_nonneg (join_lines (t :: ts))). pose proof (len_nonneg newline). lia.
Qed.

Lemma join_prefix (texts : list bytes) k : len (join_lines (take k texts)) ≤ len (join_lines texts).
Proof.
  rewrite <- (take_drop k texts) at 2. destruct (take k texts) as [|t ts]; [apply len_nonneg|]. destruct (drop k texts) as [|u us]; [by rewrite app_nil_r|].
  rewrite join_app by done. rewrite !len_app. pose proof (len_nonneg newline). pose proof (len_nonneg (join_lines (u :: us))). lia.
Qed.

Lemma copy_chunks_spec fuel n start stop j : selection_ok view start stop → Z.of_nat j ≤ stop.(cp_LineID) - start.(cp_LineID) →
  stop.(cp_LineID) - start.(cp_LineID) - Z.of_nat j < Z.of_nat fuel →
  let texts := selected (view_cells view cold) start stop in
  match copy_chunks ask stop n fuel (position_after start j) (join_lines (take j texts)) (j =? 0)%nat with
  | Ok text => text = join_lines texts
  | Err _ => hindered start stop
  end.
Proof.
  intros Hsel. revert n j. induction fuel as [|fuel IH]; intros n j Hj Hfuel texts; [lia|]. cbn [copy_chunks].
  destruct (selection_after start stop j Hsel Hj) as (Hsel' & Hid & Hd). fold texts in Hd.
  pose proof (chunk_spec n (position_after start j) stop Hsel') as Hc. rewrite Hd in Hc.
  destruct (ask n _) as [res|err]; cbn [result_bind]; [|by eapply hindered_after].
  pose proof (selected_len start stop Hsel) as El. fold texts in El.
  (* the text after this chunk is the join of the rows so far *)
  assert (Hjoin : ∀ k, (0 < k)%nat → (j + k ≤ length texts)%nat → res.(cc_Text) = join_lines (take k (drop j texts)) →
    join_lines (take j texts) ++ (if (j =? 0)%nat then [] else newline) ++ res.(cc_Text) = join_lines (take (j + k) texts)).
  { intros k Hk Hle ->. rewrite <- take_take_drop. destruct (Nat.eqb_spec j 0) as [->|Hj0]; [done|]. rewrite join_app; [done|..].
    - intros E%(f_equal length). rewrite length_take in E. cbn in E. lia.
    - intros E%(f_equal length). rewrite length_take, length_drop in E. cbn in E. lia. }
  assert (Hfit : ∀ k, (0 < k)%nat → (j + k ≤ length texts)%nat → res.(cc_Text) = join_lines (take k (drop j texts)) →
    len (join_lines (take j texts)) + (if (j =? 0)%nat then 0 else 1) + len res.(cc_Text) ≤ len (join_lines texts)).
  { intros k Hk Hle Ht. pose proof (join_prefix texts (j + k)) as Hp. rewrite <- (Hjoin k Hk Hle Ht), !len_app in Hp.
    destruct (j =? 0)%nat; [rewrite len_nil in Hp; lia|]. change (len newline) with 1 in Hp. lia. }
  destruct (cc_Done res) eqn:Edone.
  - specialize (Hjoin (length texts - j)%nat ltac:(lia) ltac:(lia)). specialize (Hfit (length texts - j)%nat ltac:(lia) ltac:(lia)).
    rewrite take_ge in Hjoin, Hfit by (rewrite length_drop; lia). specialize (Hjoin Hc). specialize (Hfit Hc).
    destruct (Z.gtb_spec (len (join_lines (take j texts)) + (if (j =? 0)%nat then 0 else 1) + len (cc_Text res)) maxMaterializedCopyBytes).
    { right; right; right; right; right. fold texts. lia. }
    rewrite Hjoin, take_ge by lia. done.
  - destruct Hc as (k & Hk & Ht & Hn). rewrite length_drop in Hk.
    destruct (Z.gtb_spec (len (join_lines (take j texts)) + (if (j =? 0)%nat then 0 else 1) + len (cc_Text res)) maxMaterializedCopyBytes).
    { right; right; right; right; right. fold texts. specialize (Hfit k ltac:(lia) ltac:(lia) Ht). lia. }
    rewrite (Hjoin k) by (done || lia). rewrite Hn, Hid. cbn [cp_LineID].
    replace (_ || _) with false; cycle 1.
    { destruct Hsel as (Hs & _). destruct (Z.eqb_spec (cp_LineID start + Z.of_nat j + Z.of_nat k) 0),
        (Z.leb_spec (cp_LineID start + Z.of_nat j + Z.of_nat k) (cp_LineID start + Z.of_nat j)); lia || done. }
    specialize (IH (S n) (j + k)%nat ltac:(lia) ltac:(lia)). fold texts in IH. unfold position_after in IH.
    replace (j + k =? 0)%nat with false in IH by (symmetry; apply Nat.eqb_neq; lia).
    replace (cp_LineID start + Z.of_nat j + Z.of_nat k) with (cp_LineID start + Z.of_nat (j + k)) by lia. exact IH.
Qed.

Lemma clientCopyRange_spec fuel start stop : selection_ok view start stop → stop.(cp_LineID) - start.(cp_LineID) < Z.of_nat fuel →
  match clientCopyRange ask fuel start stop with
  | Ok text => text = join_lines (selected (view_cells view cold) start stop)
  | Err _ => hindered start stop
  end.
Proof. intros Hsel Hfuel. apply (copy_chunks_spec fuel 0 start stop 0 Hsel); [destruct Hsel; lia|lia]. Qed.
End loop.
