(* ===== verification/HistStoreTheorems.v ===== *)
(** * What a frozen history promises *)
From S2P Require Import Prelude GoStd HistLine HistCodec HistCodecTheorems HistFile HistFileRead HistFileWrite HistFileTheorems HistEngine HistStore HistCopy HistEngineFacts HistPages HistPaging HistCopyFacts.
Local Open Scope Z_scope.
Local Open Scope bool_scope.
Local Open Scope list_scope.

#[export] Instance cheap_dec it : Decision (cheap it) := _.

Section later.
Context `{TextWidth} {F : Type} `{LineStorageLaws F}.

(** The store after any operations that report no error; the lines they write are storable and there is room for them. *)
Inductive later (s : Store F) : Store F → Prop :=
| later_now : later s s
| later_step s1 o s2 : later s s1 → Forall ls_storable (stored_lines o s1) →
    ls_room (en_LineCount s1.(s_engine) + len (stored_lines o s1)) → run_store o s1 = (s2, None) → later s s2.

Lemma later_watched s s' token view cold : later s s' → watched s token view cold → watched s' token view cold.
Proof. induction 1 as [|s1 o s2 Hl IH Hs Hr E]; intros Hw; [done|]. eapply run_store_watched; [by apply IH|done..]. Qed.

Lemma token_not_empty storeID n : token_name storeID n ≠ "".
Proof. done. Qed.

(** The frozen rows are read within the budget of a response one by one. *)
Definition frozen_rows (s : Store F) (cols : Z) (lines : list Line) : list HistoryRow := view_rows (captureLive s cols) lines.
Definition readable (s : Store F) (cols : Z) (lines : list Line) : Prop := Forall cheap (view_items (captureLive s cols) lines).

Lemma freeze_watched s terminalID cols limit lines s0 fz :
  ls_holds s.(s_engine).(en_file) lines → Freeze s terminalID cols limit = (s0, Ok fz) → readable s cols lines →
  watched s0 fz.(fz_Token) (captureLive s cols) lines ∧ view_ok (captureLive s cols) lines ∧ fz.(fz_Token) ≠ "".
Proof.
  intros Hh. unfold Freeze. destruct (validateGapRange _ _ _) eqn:Hg; [done|]. cbv zeta.
  destruct (LatestWindow _ _) as [w|err]; [|done]. intros [= <- <-] Hch.
  pose proof (captured_ok s cols lines Hh Hg Hch) as Hv. split_and!; [|done|apply token_not_empty].
  split_and!; [|apply Hv|exists lines|].
  - eexists. split; [reflexivity|]. cbn. lia.
  - split; [done|left]. destruct (captured_serves s cols lines Hh) as [He _]. split; [done|]. exists []. by rewrite app_nil_r.
  - right. cbn. apply lookup_insert_eq.
Qed.
End later.

(** ** A concrete store *)
Module StoreDemo.
Import FileDemo.
#[export] Instance width : TextWidth := {|
  FirstGraphemeCluster text := match text with [] => ([], 0) | b :: _ => ([b], 1) end;
  StringWidth := len |}.

(** A disk that never fails and no limit. *)
Definition disk : World := mkWorld (λ n, Z.of_nat (n `min` 1000) * 1000000000) (λ _, None) (λ _, RwDone) (mkOptions 0 0 compressionS2).
#[export] Instance storage : LineStorage LineFile := block_file disk.
Lemma disk_clock : clock_ok disk.
Proof. intros n. cbn [disk w_clock]. lia. Qed.
#[export] Instance storage_laws : LineStorageLaws LineFile :=
  block_file_laws disk limit disk_clock ltac:(split; [discriminate|reflexivity]).

Definition cell (b : Byte.byte) : VTermCell := mkVTermCell [b] 1 (mkVTermStyle no_style [] []) [] [].
Definition row (b : Byte.byte) : ScreenRow := mkScreenRow [cell b] false 1000000000.
Definition evicted (b : Byte.byte) : TerminalSemanticScrollOut := mkScrollOut [cell b] [] 1000000000 false true.
Definition file : LineFile := (ls_AppendLines fresh [line Byte.x61; line Byte.x62]).1.
Definition store : Store LineFile :=
  (NewStore "terminal" (NewEngine file) 7%N) <| s_screen := mkSnapshot 80 24 [row Byte.x63; row Byte.x64] false [] |>.
Definition frozen : Store LineFile * result FrozenHistorySnapshot := Freeze store "" 0 3.
Definition token : string := token_name 7 1.
(** Another row leaves the screen after the freeze. *)
Definition after : Store LineFile := (run_store (StApply [evicted Byte.x63] false) frozen.1).1.
Definition request : HistoryWindowRequest := mkRequest "" 0 3 token no_cursor.
Definition store_at (n : nat) : Store LineFile := after.
Definition snapshot : FrozenHistorySnapshot :=
  match frozen.2 with Ok fz => fz | Err _ => mkFrozen "" "" 0 0 [] (mkBoundary 0 0 no_cursor) no_anchor 0 end.
Definition cold : list Line := [line Byte.x61; line Byte.x62].

Example demo_pages :
  read_backwards store_at request 5 = Ok (frozen_rows store 0 cold) ∧ read_forwards store_at request 5 = Ok (frozen_rows store 0 cold)
  ∧ (rowText <$> (hr_Cells <$> frozen_rows store 0 cold)) = [[Byte.x61]; [Byte.x62]; [Byte.x63]; [Byte.x64]].
Proof. vm_compute. by split_and!. Qed.

Lemma cold_held : ls_holds store.(s_engine).(en_file) cold.
Proof.
  assert (Hk : kept ls_holds fresh ([] ++ cold) file).
  { apply ls_append_ok; [split; [apply fresh_holds; split; [discriminate|reflexivity]|reflexivity]|reflexivity| |vm_compute; reflexivity].
    repeat (constructor; [apply line_fits|]). constructor. }
  change (ls_holds file cold). apply (kept_same _ _ _ Hk). vm_compute. reflexivity.
Qed.

Lemma frozen_ok : Freeze store "" 0 3 = (frozen.1, Ok snapshot).
Proof. vm_compute. reflexivity. Qed.

Lemma cold_readable : readable store 0 cold.
Proof. unfold readable. apply (bool_decide_unpack _). vm_compute. exact I. Qed.

Lemma later_after n : later frozen.1 (store_at n).
Proof.
  eapply (later_step _ frozen.1 (StApply [evicted Byte.x63] false)); [apply later_now| |vm_compute; reflexivity|vm_compute; reflexivity].
  change (stored_lines _ _) with [line Byte.x63]. constructor; [apply line_fits|constructor].
Qed.
End StoreDemo.
#[local] Existing Instances FileDemo.codecs FileDemo.codec_laws StoreDemo.width StoreDemo.storage StoreDemo.storage_laws.

(** C15: A frozen history pages exactly: whatever the store writes, prunes, freezes or releases after a freeze, a client
    that asks for page after page, backwards from the latest or forwards from the oldest, reads every row of the frozen
    view exactly once and in order, or is told that its token is stale; and it is never told so while the token stands
    and no line was dropped. One page more than there are rows is enough. *)
Theorem frozen_pages_exact `{TextWidth} {F : Type} `{LineStorageLaws F} (s s0 : Store F) (lines : list Line)
    (terminalID : string) (cols limit : Z) (fz : FrozenHistorySnapshot) (store_at : nat → Store F) (req : HistoryWindowRequest) (fuel : nat)
    (Hh : ls_holds s.(s_engine).(en_file) lines) (Hfreeze : Freeze s terminalID cols limit = (s0, Ok fz))
    (Hread : readable s cols lines) (Hlater : ∀ n, later s0 (store_at n))
    (Hreq : req.(rq_Token) = fz.(fz_Token)) (Hlimit : 1 ≤ req.(rq_Limit) ≤ MaxHistoryWindowLines)
    (Hfuel : len (frozen_rows s cols lines) < Z.of_nat fuel) :
  let live := ∀ n, live_token (store_at n) fz.(fz_Token) (captureLive s cols) in
  page_or_stale live (read_backwards store_at req fuel) (eq (frozen_rows s cols lines))
  ∧ page_or_stale live (read_forwards store_at req fuel) (eq (frozen_rows s cols lines)).
Proof.
  destruct (freeze_watched _ _ _ _ _ _ _ Hh Hfreeze Hread) as (Hw & Hv & Hne).
  assert (Hws : ∀ n, watched (store_at n) fz.(fz_Token) (captureLive s cols) lines) by (intros n; by eapply later_watched).
  unfold frozen_rows in *. rewrite (view_rows_len _ _ (vo_cold _ _ Hv)) in Hfuel.
  split; [by apply read_backwards_spec|by apply read_forwards_spec].
Qed.

Lemma frozen_pages_exact_witness :
  read_backwards StoreDemo.store_at StoreDemo.request 5 = Ok (frozen_rows StoreDemo.store 0 StoreDemo.cold).
Proof.
  pose proof (frozen_pages_exact StoreDemo.store StoreDemo.frozen.1 StoreDemo.cold "" 0 3 StoreDemo.snapshot StoreDemo.store_at
    StoreDemo.request 5 StoreDemo.cold_held StoreDemo.frozen_ok StoreDemo.cold_readable StoreDemo.later_after
    ltac:(vm_compute; reflexivity) ltac:(split; discriminate) ltac:(vm_compute; reflexivity)) as [H _].
  destruct (read_backwards StoreDemo.store_at StoreDemo.request 5) as [rows|err]; [exact (f_equal Ok (eq_sym H))|].
  destruct H as [H _]. exfalso. apply H. intros n. split; vm_compute; reflexivity.
Defined.

(** C17: Copying a selection of a frozen history chunk by chunk never yields a wrong or partial text: whatever the store
    does meanwhile, the client gets exactly the text of every row between the two positions joined by newlines, or an
    error; and an error has a cause: the token went stale, a context was cancelled, the selection has more than 100000
    lines or 64 MiB, or one row is larger than a chunk. *)
Theorem frozen_copy_exact `{TextWidth} {F : Type} `{LineStorageLaws F} (s s0 : Store F) (lines : list Line)
    (terminalID : string) (cols limit : Z) (fz : FrozenHistorySnapshot) (store_at : nat → Store F) (batch_at : nat → Z → Store F)
    (ctx : nat → Context) (maxLines maxBytes : Z) (start stop : HistoryCopyPosition) (fuel : nat)
    (Hh : ls_holds s.(s_engine).(en_file) lines) (Hfreeze : Freeze s terminalID cols limit = (s0, Ok fz))
    (Hread : readable s cols lines) (Hlater : ∀ n, later s0 (store_at n)) (Hbatch : ∀ n i, later s0 (batch_at n i))
    (HmaxLines : 1 ≤ maxLines ≤ MaxHistoryCopyLines) (HmaxBytes : 1 ≤ maxBytes ≤ MaxHistoryCopyBytes)
    (Hsel : selection_ok (captureLive s cols) start stop) (Hfuel : stop.(cp_LineID) - start.(cp_LineID) < Z.of_nat fuel) :
  let view := captureLive s cols in
  let engine_at n i := (batch_at n i).(s_engine) in
  match clientCopyRange (ask fz.(fz_Token) store_at engine_at ctx terminalID cols maxLines maxBytes) fuel start stop with
  | Ok text => text = join_lines (selected (hr_Cells <$> frozen_rows s cols lines) start stop)
  | Err _ => hindered fz.(fz_Token) view lines store_at engine_at ctx maxBytes start stop
  end.
Proof.
  destruct (freeze_watched _ _ _ _ _ _ _ Hh Hfreeze Hread) as (Hw & Hv & Hne). cbv zeta.
  apply clientCopyRange_spec; try done; [intros n; by eapply later_watched|]. intros n i.
  eapply watched_serves, later_watched; done.
Qed.

Lemma frozen_copy_exact_witness :
  clientCopyRange (ask StoreDemo.snapshot.(fz_Token) StoreDemo.store_at (λ n _, (StoreDemo.store_at n).(s_engine)) (λ _, mkContext (λ _, None) (λ _, None)) "" 0 2 5)
    9 (mkPosition 1 0) (mkPosition 4 1)
  = Ok (join_lines (selected (hr_Cells <$> frozen_rows StoreDemo.store 0 StoreDemo.cold) (mkPosition 1 0) (mkPosition 4 1))).
Proof.
  pose proof (frozen_copy_exact StoreDemo.store StoreDemo.frozen.1 StoreDemo.cold "" 0 3 StoreDemo.snapshot StoreDemo.store_at
    (λ n _, StoreDemo.store_at n) (λ _, mkContext (λ _, None) (λ _, None)) 2 5 (mkPosition 1 0) (mkPosition 4 1) 9
    StoreDemo.cold_held StoreDemo.frozen_ok StoreDemo.cold_readable StoreDemo.later_after (λ n _, StoreDemo.later_after n)
    ltac:(split; discriminate) ltac:(split; discriminate) ltac:(split_and!; vm_compute; discriminate) ltac:(vm_compute; reflexivity)) as H.
  cbv zeta in H. match type of H with match ?r with _ => _ end => assert (E : is_ok r = true) by (vm_compute; reflexivity); destruct r as [text|err] end.
  - exact (f_equal Ok H).
  - discriminate E.
Defined.
