(* ===== verification/HistTimeline.v ===== *)
(** * The history of a terminal has every row once

    What a view of the store shows is the text of all rows that left the screen followed by the rows on it, joined
    along the soft wraps: the assembler, the storage, the projection of cold lines and the hot rows together. *)
From S2P Require Import Prelude GoStd HistLine HistLineTheorems HistCodec HistFile HistFileRead HistFileTheorems HistEngine HistStore HistEngineFacts HistPages HistPaging HistStoreTheorems.
Local Open Scope Z_scope.
Local Open Scope bool_scope.
Local Open Scope list_scope.

(** ** Styled text of cells *)
Definition cell_format (cell : Cell) : format := (cell.(c_Style), cell.(c_LinkURL), cell.(c_LinkParams)).
Definition flat_cell (cell : Cell) : list styled := (λ b, (b, cell_format cell)) <$> cell.(c_Text).
Definition flat_cells (cells : list Cell) : list styled := concat (flat_cell <$> cells).

Lemma flat_cells_app a b : flat_cells (a ++ b) = flat_cells a ++ flat_cells b.
Proof. unfold flat_cells. by rewrite fmap_app, concat_app. Qed.

Section text.
Context `{TextWidthLaws}.

Lemma flat_clusters fuel run text : (length text ≤ fuel)%nat →
  flat_cells (clusters fuel run text) = (λ b, (b, run_format run)) <$> text.
Proof.
  revert text. induction fuel as [|fuel IH]; intros text Hf; [by destruct text; [|cbn in Hf; lia]|].
  cbn [clusters]. destruct (is_empty text) eqn:Ee; [by destruct text|].
  destruct (cluster_prefix text) as (rest & Et & Hne); [by destruct text|].
  destruct (FirstGraphemeCluster text) as [cluster width]. cbn [fst] in *. destruct cluster as [|b cluster]; [done|]. cbn [is_empty].
  rewrite Et, drop_app_length. change (flat_cells (?x :: ?l)) with (flat_cell x ++ flat_cells l).
  rewrite IH, fmap_app; [done|]. rewrite Et, length_app in Hf. cbn in Hf. lia.
Qed.

Lemma flat_cells_runs runs : flat_cells (cellsFromRuns runs) = flat runs.
Proof.
  unfold cellsFromRuns. induction runs as [|run runs IH]; [done|]. cbn [fmap list_fmap concat].
  by rewrite flat_cells_app, flat_clusters, IH by done.
Qed.

Lemma cell_run cell :
  match cell_of_vterm cell, run_of_cell cell with
  | Some c, Some r => flat_cell c = flat_run r
  | None, None => True
  | _, _ => False
  end.
Proof. unfold cell_of_vterm, run_of_cell. destruct (cell_text cell); [|done]. cbn. by destruct (cell_link cell). Qed.

Lemma flat_cells_screen row : flat_cells (cellsFromVTermCells row.(sr_Cells)) = row_text (scroll_out_of_screen row).
Proof.
  unfold cellsFromVTermCells, row_text, row_pieces, scroll_out_of_screen. cbn [so_Runs so_Cells].
  induction row.(sr_Cells) as [|cell cells IH]; [done|]. cbn [omap list_omap]. pose proof (cell_run cell) as Hc.
  destruct (cell_of_vterm cell) as [c|], (run_of_cell cell) as [r|]; [|done..|exact IH].
  change (flat_cells (?x :: ?l)) with (flat_cell x ++ flat_cells l). by rewrite flat_runs_cons, Hc, <- IH.
Qed.

(** ** What the rows of a view show *)
Fixpoint shown_groups (acc : list styled) (rows : list HistoryRow) : list (list styled) * list styled :=
  match rows with
  | [] => ([], acc)
  | row :: rows =>
      let acc := acc ++ flat_cells row.(hr_Cells) in
      if row.(hr_Wrapped) then shown_groups acc rows
      else let '(groups, rest) := shown_groups [] rows in (acc :: groups, rest)
  end.

Lemma shown_app acc r1 r2 :
  shown_groups acc (r1 ++ r2)
  = (let '(g1, rest1) := shown_groups acc r1 in let '(g2, rest2) := shown_groups rest1 r2 in (g1 ++ g2, rest2)).
Proof.
  revert acc. induction r1 as [|row r1 IH]; intros acc; cbn [app shown_groups]; [by destruct (shown_groups acc r2)|].
  destruct (hr_Wrapped row); [apply IH|]. rewrite IH. destruct (shown_groups [] r1) as [g1 rest1]. by destruct (shown_groups rest1 r2).
Qed.

Lemma row_groups_app acc r1 r2 :
  row_groups acc (r1 ++ r2)
  = (let '(g1, rest1) := row_groups acc r1 in let '(g2, rest2) := row_groups rest1 r2 in (g1 ++ g2, rest2)).
Proof.
  revert acc. induction r1 as [|row r1 IH]; intros acc; cbn [app row_groups]; [by destruct (row_groups acc r2)|].
  destruct (row_wrapped row); [apply IH|]. rewrite IH. destruct (row_groups [] r1) as [g1 rest1]. by destruct (row_groups rest1 r2).
Qed.

(** Cold rows show their lines. *)
Lemma shown_cold acc first lines : shown_groups acc (cold_items first lines).*2 = line_groups acc lines.
Proof.
  revert acc first. induction lines as [|line lines IH]; intros acc first; [done|]. rewrite cold_items_cons.
  cbn [fmap list_fmap snd shown_groups line_groups historyRowFromColdLine hr_Cells hr_Wrapped].
  rewrite flat_cells_runs, !IH. by destruct (HardEnd line).
Qed.

(** Hot rows show the open line and the screen; what is unfinished at the end is shown too. *)
Lemma shown_hot (acc : list styled) (ids : nat → Z) (cells : list Cell) (at_time : Z) (have : bool) rows :
  (have = false → flat_cells cells = []) →
  let '(texts, rest) := row_groups (acc ++ flat_cells cells) (scroll_out_of_screen <$> rows) in
  ∃ b : bool, shown_groups acc (imap (λ i, hot_row (ids i)) (hot_lines cells at_time have rows))
              = (texts ++ (if b then [rest] else []), if b then [] else rest).
Proof.
  revert acc ids cells at_time have. induction rows as [|row rows IH]; intros acc ids cells at_time have Hhave; cbn [hot_lines fmap list_fmap row_groups].
  { destruct have; cbn.
    - by exists true.
    - exists false. by rewrite Hhave, app_nil_r. }
  rewrite <- flat_cells_screen, <- app_assoc, <- flat_cells_app.
  change (row_wrapped (scroll_out_of_screen row)) with row.(sr_Wrapped). destruct (sr_Wrapped row).
  - by apply IH.
  - specialize (IH [] (ids ∘ S) [] zero_time false (λ _, eq_refl)). cbn [app] in IH. change (flat_cells []) with (@nil styled) in IH.
    destruct (row_groups [] _) as [texts rest]. destruct IH as (b & Hb). exists b. cbn [imap shown_groups hot_row hr_Cells hr_Wrapped fst].
    rewrite (imap_ext _ (λ i, hot_row ((ids ∘ S) i))) by done. by rewrite Hb.
Qed.
End text.

(** ** The rows fed to the store *)
Section feeding.
Context `{TextWidth} {F : Type} `{LineStorageLaws F}.
Implicit Types (s : Store F).

(** The transactions of a terminal, as long as none fails. *)
Fixpoint feed (txs : list (list TerminalSemanticScrollOut)) s : option (Store F) :=
  match txs with
  | [] => Some s
  | rows :: txs => match ApplyTransaction s rows false with (s, None) => feed txs s | (_, Some _) => None end
  end.

Lemma append_rows_app r1 r2 a :
  append_rows (r1 ++ r2) a = (let '(a, l1) := append_rows r1 a in let '(a, l2) := append_rows r2 a in (a, l1 ++ l2)).
Proof.
  revert a. induction r1 as [|row r1 IH]; intros a; cbn [app append_rows]; [by destruct (append_rows r2 a)|].
  destruct (AppendEvictedRow row a) as [a1 l1]. rewrite IH. destruct (append_rows r1 a1) as [a2 l2].
  destruct (append_rows r2 a2) as [a3 l3]. by rewrite <- app_assoc.
Qed.

Lemma feed_kept txs s s' lines : let new := (append_rows (concat txs) s.(s_engine).(en_asm)).2 in
  feed txs s = Some s' → ls_holds s.(s_engine).(en_file) lines → Forall ls_storable new → ls_room (len lines + len new) →
  kept ls_holds s.(s_engine).(en_file) (lines ++ new) s'.(s_engine).(en_file)
  ∧ s'.(s_engine).(en_asm) = (append_rows (concat txs) s.(s_engine).(en_asm)).1.
Proof.
  revert s lines. induction txs as [|rows txs IH]; intros s lines new; cbn [feed].
  { intros [= <-] Hh _ _. unfold new. cbn. rewrite app_nil_r. split; [by apply kept_itself|done]. }
  unfold ApplyTransaction, noted. destruct (ApplyEvictedRows (s_engine s) rows) as [e [err|]] eqn:E; [done|].
  set (s1 := noteHistoryMutation _). assert (E1 : s1.(s_engine) = e) by (unfold s1; by rewrite note_engine).
  intros Hfeed Hh Hs Hr. unfold new in *. cbn [concat] in *. rewrite append_rows_app in *.
  pose proof (evicted_kept _ lines rows e Hh ltac:(by eapply room_all)) as Hk. unfold evicted_lines in Hk.
  destruct (append_rows rows _) as [a1 l1]. cbn [fst snd] in Hk.
  specialize (IH s1). rewrite E1 in IH. destruct (append_rows (concat txs) a1) as [a2 l2] eqn:E2. cbn [fst snd] in *.
  apply Forall_app in Hs as [Hs1 Hs2]. destruct (Hk Hs1 E) as [Hk1 Ha1]. rewrite Ha1, E2 in IH. cbn [fst snd] in IH. rewrite app_assoc. split.
  - eapply kept_trans; [exact Hk1|]. intros rest Hh1 Hle. apply IH; [done|done|done|].
    eapply room_rest; [exact Hle|]. by rewrite len_app, <- Z.add_assoc, <- len_app.
  - destruct Hk1 as (k & _ & Hh1 & _). apply (IH _ Hfeed Hh1 Hs2). eapply ls_room_le; [|exact Hr].
    rewrite len_app. unfold len. rewrite length_drop, length_app. lia.
Qed.

(** A row of a view shows a text as it is, or as the assembler stored it. *)
Definition shows (text shown : list styled) : Prop := shown = text ∨ trimmed text shown.

(** Everything the rows of a view show, with what is left open at the end. *)
Definition shown_texts (rows : list HistoryRow) : list (list styled) :=
  let '(groups, rest) := shown_groups [] rows in groups ++ (if is_empty rest then [] else [rest]).

Lemma line_groups_app acc l1 l2 :
  line_groups acc (l1 ++ l2)
  = (let '(g1, rest1) := line_groups acc l1 in let '(g2, rest2) := line_groups rest1 l2 in (g1 ++ g2, rest2)).
Proof.
  revert acc. induction l1 as [|line l1 IH]; intros acc; cbn [app line_groups]; [by destruct (line_groups acc l2)|].
  destruct (HardEnd line); [|apply IH]. rewrite IH. destruct (line_groups [] l1) as [g1 rest1]. by destruct (line_groups rest1 l2).
Qed.

Lemma shows_refl texts : Forall2 shows texts texts.
Proof. induction texts; constructor; [by left|done]. Qed.

Lemma capture_hot s snap cols : snap.(sn_InAlt) = false →
  (captureLive (s <| s_screen := snap |>) cols).(lv_hot)
  = let cold := ls_LineCount s.(s_engine).(en_file) - ls_Base s.(s_engine).(en_file) in
    let cells := cellsFromRuns s.(s_engine).(en_asm).(asm_open) in
    imap (λ i, hot_row (cold + 1 + Z.of_nat i)) (hot_lines cells s.(s_engine).(en_asm).(asm_updatedAt) (negb (is_empty cells)) snap.(sn_Rows)).
Proof. intros Halt. unfold captureLive, VisibleLineRange, hotRowsFromScreen. cbn [s_screen s_engine set_field]. cbn. by rewrite Halt. Qed.
End feeding.

(** C16: Nothing is lost between the history file and the screen: after any transactions on a history that ended in a
    complete line, while nothing fails and nothing is dropped, a view of the store shows the old lines and then the text
    of every row that left the screen and every row still on it, joined along the soft wraps, each once and in order;
    only unstyled blanks at the end of a stored line are gone, and what is unfinished at the end is shown as it is. *)
Theorem store_timeline_exact `{TextWidth} `{!TextWidthLaws} {F : Type} `{LineStorageLaws F} (terminalID : string) (storeID : N)
    (file : F) (lines : list Line) (txs : list (list TerminalSemanticScrollOut)) (s : Store F) (snap : ScreenSnapshot) (cols : Z)
    (Hh : ls_holds file lines) (Hended : (line_groups [] lines).2 = [])
    (Hfeed : feed txs (NewStore terminalID (NewEngine file) storeID) = Some s)
    (Hstorable : Forall ls_storable (append_rows (concat txs) NewAssembler).2)
    (Hroom : ls_room (len lines + len (append_rows (concat txs) NewAssembler).2))
    (Hepoch : en_RetentionEpoch s.(s_engine) = ls_RetentionEpoch file) (Hscreen : snap.(sn_InAlt) = false) :
  let stored := lines ++ (append_rows (concat txs) NewAssembler).2 in
  let view := captureLive (s <| s_screen := snap |>) cols in
  let '(texts, rest) := row_groups [] (concat txs ++ (scroll_out_of_screen <$> snap.(sn_Rows))) in
  ls_holds s.(s_engine).(en_file) stored
  ∧ ∃ last, (last = [rest] ∨ last = [] ∧ rest = [])
      ∧ Forall2 shows ((line_groups [] lines).1 ++ texts ++ last) (shown_texts (view_rows view stored)).
Proof.
  destruct (feed_kept txs _ s lines Hfeed Hh Hstorable Hroom) as [Hk Ha].
  cbn in Ha. apply kept_same in Hk; [|exact Hepoch]. cbv zeta. rewrite row_groups_app.
  pose proof (append_rows_groups (concat txs) NewAssembler [] ltac:(by split) ltac:(by left)) as Hg. cbn [app] in Hg.
  change (flat (asm_open NewAssembler)) with (@nil styled) in Hg. change (en_asm (s_engine (NewStore terminalID (NewEngine file) storeID))) with NewAssembler in *.
  destruct (append_rows (concat txs) NewAssembler) as [a new]. cbn [fst snd] in *.
  destruct (row_groups [] (concat txs)) as [texts1 rest1]. destruct (line_groups [] new) as [groups1 cut] eqn:Eg.
  destruct Hg as (_ & Htexts & Hrest).
  set (open := cellsFromRuns a.(asm_open)).
  assert (Hopen : flat_cells open = flat a.(asm_open)) by apply flat_cells_runs.
  pose proof (shown_hot cut (λ i, ls_LineCount s.(s_engine).(en_file) - ls_Base s.(s_engine).(en_file) + 1 + Z.of_nat i) open
    a.(asm_updatedAt) (negb (is_empty open)) snap.(sn_Rows) ltac:(by destruct open)) as Hhot.
  rewrite Hopen, <- Hrest in Hhot. destruct (row_groups rest1 _) as [texts2 rest2]. destruct Hhot as (b & Hhot).
  split; [exact Hk|]. unfold shown_texts. rewrite view_rows_split, shown_app, shown_cold, line_groups_app, capture_hot by done.
  cbv zeta. rewrite Ha. fold open. destruct (line_groups [] lines) as [old rest0]. cbn [fst snd] in *. subst rest0. rewrite Eg, Hhot.
  exists (if b then [rest2] else if is_empty rest2 then [] else [rest2]). split.
  { destruct b; [by left|]. destruct rest2; [by right|by left]. }
  rewrite <- !app_assoc. apply Forall2_app; [apply shows_refl|]. apply Forall2_app.
  { eapply Forall2_impl; [exact Htexts|]. intros ? ? Ht. by right. }
  destruct b; cbn [is_empty]; rewrite ?app_nil_r; apply shows_refl.
Qed.

(** ** A concrete terminal *)
Module TimelineDemo.
Import FileDemo.
#[local] Existing Instances FileDemo.codecs FileDemo.codec_laws StoreDemo.width StoreDemo.storage StoreDemo.storage_laws.

#[export] Instance width_laws : TextWidthLaws.
Proof. split. intros [|b text] Ht; [done|]. exists text. done. Qed.

(** Two rows leave the screen, the second wraps into the first row of the screen. *)
Definition wrapped (b : Byte.byte) : TerminalSemanticScrollOut := mkScrollOut [StoreDemo.cell b] [] 1000000000 true true.
Definition txs : list (list TerminalSemanticScrollOut) := [[StoreDemo.evicted Byte.x63]; [wrapped Byte.x64]].
Definition snap : ScreenSnapshot := mkSnapshot 80 24 [StoreDemo.row Byte.x65; StoreDemo.row Byte.x66] false [].
Definition start : Store LineFile := NewStore "terminal" (NewEngine StoreDemo.file) 7%N.
Definition after : Store LineFile := default start (feed txs start).
Definition plain (text : bytes) : list styled := (λ b, (b, (no_style, [], []))) <$> text.
End TimelineDemo.
#[local] Existing Instances FileDemo.codecs FileDemo.codec_laws StoreDemo.width StoreDemo.storage StoreDemo.storage_laws TimelineDemo.width_laws.

Lemma store_timeline_exact_witness :
  Forall2 shows
    (TimelineDemo.plain <$> [[Byte.x61]; [Byte.x62]; [Byte.x63]; [Byte.x64; Byte.x65]; [Byte.x66]])
    (shown_texts (view_rows (captureLive (TimelineDemo.after <| s_screen := TimelineDemo.snap |>) 80)
                    (StoreDemo.cold ++ [FileDemo.line Byte.x63]))).
Proof.
  destruct (store_timeline_exact "terminal" 7%N StoreDemo.file StoreDemo.cold TimelineDemo.txs TimelineDemo.after TimelineDemo.snap 80
    StoreDemo.cold_held ltac:(reflexivity) ltac:(vm_compute; reflexivity) ltac:(constructor; [apply FileDemo.line_fits|constructor])
    ltac:(vm_compute; reflexivity) ltac:(vm_compute; reflexivity) ltac:(reflexivity)) as [_ (last & Hlast & H)].
  destruct Hlast as [->|[-> _]]; [|exact H]. apply Forall2_length in H. vm_compute in H. discriminate H.
Defined.
