(* ===== verification/HistSearchTheorems.v ===== *)
(** * What a search finds

    The reference: every occurrence of the query in the rows of a view, in the order of the text. The loop of a line
    steps from match to match by runes and skips none, since a query that starts with a character never matches inside
    one. *)
From S2P Require Import Prelude GoStd HistLine HistCodec HistCodecTheorems HistFile HistFileRead HistFileTheorems HistEngine HistStore HistCopy HistSearch HistEngineFacts HistPages HistPaging HistCopyFacts HistStoreTheorems.
Local Open Scope Z_scope.
Local Open Scope bool_scope.
Local Open Scope list_scope.

(** ** Occurrences in a text *)

(** A query that starts a character: its first byte continues none. *)
Definition starts_rune (query : bytes) : Prop := match query with b :: _ => continuation b = false | [] => False end.

(** The offsets of all occurrences, the text starting at [offset]. *)
Fixpoint occurrences (query : bytes) (offset : nat) (text : bytes) : list nat :=
  (if has_prefix text query then [offset] else [])
  ++ match text with [] => [] | _ :: text => occurrences query (S offset) text end.

Lemma occurrences_unfold query offset text :
  occurrences query offset text
  = (if has_prefix text query then [offset] else []) ++ match text with [] => [] | _ :: text => occurrences query (S offset) text end.
Proof. by destruct text. Qed.

Lemma index_occurrences query offset text :
  match strings_Index text query with
  | None => occurrences query offset text = []
  | Some k => has_prefix (drop k text) query = true
              ∧ occurrences query offset text = occurrences query (offset + k) (drop k text)
  end.
Proof.
  revert offset. induction text as [|b text IH]; intros offset; rewrite occurrences_unfold; cbn [strings_Index].
  - destruct (has_prefix [] query) eqn:E; [|done]. cbn [drop]. split; [done|]. rewrite Nat.add_0_r. cbn [occurrences]. by rewrite E.
  - destruct (has_prefix (b :: text) query) eqn:E.
    { cbn [drop]. split; [done|]. rewrite Nat.add_0_r. rewrite (occurrences_unfold query offset (b :: text)). by rewrite E. }
    specialize (IH (S offset)). destruct (strings_Index text query) as [k|]; cbn [fmap option_fmap option_map app]; [|done].
    destruct IH as [Hp ->]. split; [done|]. f_equal. lia.
Qed.

Lemma no_prefix query b text : starts_rune query → continuation b = true → has_prefix (b :: text) query = false.
Proof.
  destruct query as [|q query]; [done|]. cbn [starts_rune has_prefix]. intros Hq Hb. by rewrite bool_decide_false by congruence.
Qed.

Lemma continuations_skipped query offset text n : starts_rune query → (n ≤ length text)%nat →
  Forall (λ b, continuation b = true) (take n text) → occurrences query offset text = occurrences query (offset + n) (drop n text).
Proof.
  intros Hq. revert offset text. induction n as [|n IH]; intros offset text Hn Hc; [by rewrite Nat.add_0_r|].
  destruct text as [|b text]; [cbn in Hn; lia|]. cbn [take length] in *. apply Forall_cons in Hc as [Hb Hc].
  rewrite occurrences_unfold, no_prefix by done. cbn [app drop]. rewrite IH by (done || lia). f_equal. lia.
Qed.

Lemma between_continues lo hi b : 128 ≤ lo → hi ≤ 191 → between lo hi b = true → continuation b = true.
Proof. unfold continuation, between. intros Hlo Hhi H. lia. Qed.

(** A rune is its first byte and continuation bytes. *)
Lemma rune_continues b text : ∃ n, rune_size (b :: text) = S n ∧ (n ≤ length text)%nat ∧ Forall (λ b, continuation b = true) (take n text).
Proof.
  assert (H1 : ∃ n, 1%nat = S n ∧ (n ≤ length text)%nat ∧ Forall (λ b, continuation b = true) (take n text)) by (exists O; split_and!; [done|lia|constructor]).
  unfold rune_size. destruct text as [|b1 text]; [exact H1|].
  destruct (between 194 223 b && continuation b1) eqn:E2.
  { exists 1%nat. apply andb_true_iff in E2 as [_ E]. cbn. split_and!; [done|lia|by repeat constructor]. }
  destruct text as [|b2 text]; [exact H1|]. match goal with |- context [if ?c then 3%nat else _] => destruct c eqn:E3 end.
  { exists 2%nat. apply andb_true_iff in E3 as [Hb2 E]. cbn. split_and!; [done|lia|]. constructor; [|by repeat constructor].
    apply orb_true_iff in E as [[[[_ E]%andb_true_iff|[_ E]%andb_true_iff]%orb_true_iff|[_ E]%andb_true_iff]%orb_true_iff|[_ E]%andb_true_iff];
      done || (eapply between_continues, E; lia). }
  destruct text as [|b3 text]; [exact H1|]. match goal with |- context [if ?c then 4%nat else _] => destruct c eqn:E4 end; [|exact H1].
  exists 3%nat. apply andb_true_iff in E4 as [[Hb2 Hb3]%andb_true_iff E]. cbn. split_and!; [done|lia|]. constructor; [|by repeat constructor].
  apply orb_true_iff in E as [[[_ E]%andb_true_iff|[_ E]%andb_true_iff]%orb_true_iff|[_ E]%andb_true_iff];
    done || (eapply between_continues, E; lia).
Qed.

(** ** One row *)

(** The first or the last of the matches. *)
Definition pick {A} (reverse : bool) (l : list A) : option A := if reverse then last l else head l.

Lemma last_or {A} (x : A) l : last (x :: l) = match last l with Some y => Some y | None => Some x end.
Proof. rewrite last_cons. by destruct (last l). Qed.

Lemma pick_fmap {A B} (f : A → B) reverse l : pick reverse (f <$> l) = f <$> pick reverse l.
Proof. destruct reverse; [apply fmap_last|by destruct l]. Qed.

Section rows.
Context `{TextWidth}.

(** The columns of a match. *)
Definition match_columns (query text : bytes) (startByte : nat) : Z * Z :=
  (StringWidth (take startByte text), StringWidth (take (startByte + length query) text)).
Definition row_matches (query : bytes) (cells : list Cell) : list (Z * Z) :=
  let text := historySearchText cells in match_columns query text <$> occurrences query 0 text.

Definition inside (minCol maxCol : Z) (m : Z * Z) : bool := (minCol <=? m.1) && ((maxCol <? 0) || (m.1 <=? maxCol)).

Lemma match_loop_spec fuel text query reverse minCol maxCol offset found :
  starts_rune query → (offset ≤ length text)%nat → (length text - offset < fuel)%nat →
  match_loop fuel text query reverse minCol maxCol offset found
  = match pick reverse (List.filter (inside minCol maxCol) (match_columns query text <$> occurrences query offset (drop offset text))) with
    | Some m => Some m
    | None => found
    end.
Proof.
  intros Hq. revert offset found. induction fuel as [|fuel IH]; intros offset found Ho Hf; [lia|]. cbn [match_loop].
  replace (offset <=? length text)%nat with true by (symmetry; by apply Nat.leb_le).
  pose proof (index_occurrences query offset (drop offset text)) as Hi. destruct (strings_Index _ _) as [k|]; cycle 1.
  { rewrite Hi. by destruct reverse. }
  destruct Hi as [Hp ->]. rewrite drop_drop in Hp |- *. set (s := (offset + k)%nat) in *.
  destruct (drop s text) as [|b rest] eqn:Es; [by destruct query|].
  assert (Hs : (s + length (b :: rest) = length text)%nat).
  { rewrite <- Es, length_drop. enough (s < length text)%nat by lia. apply Nat.nle_gt. intros Hle%drop_ge. by rewrite Es in Hle. }
  destruct (rune_continues b rest) as (n & Er & Hn & Hc). rewrite Er. cbn [length] in Hs.
  rewrite occurrences_unfold, Hp. rewrite (continuations_skipped _ _ _ n Hq Hn Hc). cbn [app fmap list_fmap List.filter].
  replace (drop n rest) with (drop (s + S n) text); cycle 1.
  { replace (drop n rest) with (drop (S n) (b :: rest)) by done. by rewrite <- Es, drop_drop. }
  replace (S s + n)%nat with (s + S n)%nat by lia.
  change ((minCol <=? StringWidth (take s text)) && ((maxCol <? 0) || (StringWidth (take s text) <=? maxCol)))
    with (inside minCol maxCol (match_columns query text s)). cbv zeta.
  change (StringWidth (take s text), StringWidth (take (s + length query) text)) with (match_columns query text s).
  destruct (inside minCol maxCol (match_columns query text s)); cbn [andb]; [|apply IH; lia].
  destruct reverse; cbn [negb pick]; [|done]. rewrite IH, last_or by lia. cbn [pick]. by destruct (last _).
Qed.

Lemma findHistoryLineMatch_spec cells query reverse minCol maxCol : starts_rune query →
  findHistoryLineMatch cells query reverse minCol maxCol = pick reverse (List.filter (inside minCol maxCol) (row_matches query cells)).
Proof.
  intros Hq. unfold findHistoryLineMatch, row_matches. cbv zeta. set (text := historySearchText cells).
  destruct text as [|b t] eqn:Et; [by destruct query, reverse|]. destruct query as [|q query]; [done|]. cbn [is_empty orb].
  rewrite match_loop_spec by (done || cbn [length]; lia). rewrite drop_0. by destruct (pick _ _).
Qed.

(** ** The rows of a range *)
Definition row_range (line : Z) (m : Z * Z) : HistoryCopyRange := mkCopyRange (mkPosition (line + 1) m.1) (mkPosition (line + 1) m.2).
Definition matches (query : bytes) (offset : Z) (rows : list (list Cell)) : list HistoryCopyRange :=
  concat (imap (λ i cells, row_range (offset + Z.of_nat i) <$> row_matches query cells) rows).

Lemma matches_cons query offset cells rows :
  matches query offset (cells :: rows) = (row_range offset <$> row_matches query cells) ++ matches query (offset + 1) rows.
Proof.
  unfold matches. cbn [imap concat]. rewrite Z.add_0_r. do 2 f_equal. apply imap_ext. intros i x _. cbn. do 2 f_equal. lia.
Qed.

Lemma matches_app query offset r1 r2 : matches query offset (r1 ++ r2) = matches query offset r1 ++ matches query (offset + len r1) r2.
Proof.
  revert offset. induction r1 as [|cells r1 IH]; intros offset; cbn [app]; [by rewrite len_nil, Z.add_0_r|].
  rewrite !matches_cons, IH, <- app_assoc. do 3 f_equal. unfold len. cbn [length]. lia.
Qed.

Lemma matches_line query offset rows m : m ∈ matches query offset rows →
  offset < m.(cr_Start).(cp_LineID) ≤ offset + len rows.
Proof.
  revert offset. induction rows as [|cells rows IH]; intros offset; [by intros ?%elem_of_nil|].
  rewrite matches_cons. unfold len in *. cbn [length]. intros [(x & -> & _)%list_elem_of_fmap|Hm%IH]%elem_of_app; cbn; lia.
Qed.

(** What a range asks of the line that is constrained. *)
Definition in_range (constrainedLine minCol maxCol : Z) (m : HistoryCopyRange) : bool :=
  let line := m.(cr_Start).(cp_LineID) - 1 in
  let col := m.(cr_Start).(cp_Col) in
  if line =? constrainedLine then inside minCol maxCol (col, m.(cr_End).(cp_Col)) else inside 0 (-1) (col, m.(cr_End).(cp_Col)).

Lemma filter_ranges constrainedLine minCol maxCol line (ms : list (Z * Z)) :
  List.filter (in_range constrainedLine minCol maxCol) (row_range line <$> ms)
  = row_range line <$> List.filter (λ m, if line =? constrainedLine then inside minCol maxCol m else inside 0 (-1) m) ms.
Proof.
  induction ms as [|[a b] ms IH]; [done|]. cbn [fmap list_fmap List.filter]. unfold in_range at 1. cbn [row_range cr_Start cr_End cp_LineID cp_Col fst snd].
  replace (line + 1 - 1) with line by lia. destruct (if line =? constrainedLine then _ else _); cbn [fmap list_fmap]; by rewrite IH.
Qed.

Section range.
Context (query : bytes) (Hq : starts_rune query) (constrainedLine minCol maxCol : Z).

Definition range_matches (offset : Z) (rows : list (list Cell)) : list HistoryCopyRange :=
  List.filter (in_range constrainedLine minCol maxCol) (matches query offset rows).

Lemma range_matches_app offset r1 r2 : range_matches offset (r1 ++ r2) = range_matches offset r1 ++ range_matches (offset + len r1) r2.
Proof. unfold range_matches. by rewrite matches_app, List.filter_app. Qed.

Lemma visit_line_spec reverse found offset cells :
  visit_line query reverse constrainedLine minCol maxCol found offset cells
  = match pick reverse (range_matches offset [cells]) with Some m => (Some m, false) | None => (found, true) end.
Proof.
  unfold visit_line, range_matches. rewrite matches_cons, app_nil_r, filter_ranges.
  rewrite pick_fmap. destruct (offset =? constrainedLine); rewrite findHistoryLineMatch_spec by done.
  - by destruct (pick reverse (List.filter (inside minCol maxCol) _)) as [[]|].
  - by destruct (pick reverse (List.filter (inside 0 (-1)) _)) as [[]|].
Qed.

(** The search of one part after the other. *)
Lemma pick_app {A} reverse (a b : list A) :
  pick reverse (a ++ b) = match pick reverse (if reverse then b else a) with
                          | Some m => Some m
                          | None => pick reverse (if reverse then a else b)
                          end.
Proof. destruct reverse; cbn [pick]; [rewrite last_app; by destruct (last b)|by destruct a]. Qed.

Definition found_in (reverse : bool) (offset : Z) (rows : list (list Cell)) : option HistoryCopyRange := pick reverse (range_matches offset rows).
Definition goes_on {A} (found : option A) : bool := match found with Some _ => false | None => true end.

Lemma found_one reverse offset cells :
  visit_line query reverse constrainedLine minCol maxCol None offset cells
  = (found_in reverse offset [cells], goes_on (found_in reverse offset [cells])).
Proof. rewrite visit_line_spec. unfold found_in. by destruct (pick _ _). Qed.

Lemma found_cons offset cells rows :
  found_in false offset (cells :: rows) = match found_in false offset [cells] with Some m => Some m | None => found_in false (offset + 1) rows end.
Proof. unfold found_in. change (cells :: rows) with ([cells] ++ rows). rewrite range_matches_app. apply (pick_app false). Qed.

Lemma found_snoc offset rows cells :
  found_in true offset (rows ++ [cells])
  = match found_in true (offset + len rows) [cells] with Some m => Some m | None => found_in true offset rows end.
Proof. unfold found_in. rewrite range_matches_app. apply (pick_app true). Qed.

Definition visit_cold (reverse : bool) : option HistoryCopyRange → Z → Line → option HistoryCopyRange * bool :=
  λ found index line, visit_line query reverse constrainedLine minCol maxCol found (index - 0) (cellsFromRuns line.(Runs)).

Lemma cold_forward start lines :
  visit_list (visit_cold false) start lines None
  = (found_in false start (line_cells <$> lines), goes_on (found_in false start (line_cells <$> lines))).
Proof.
  revert start. induction lines as [|line lines IH]; intros start; [done|]. cbn [visit_list fmap list_fmap]. rewrite found_cons.
  unfold visit_cold at 1. rewrite found_one, Z.sub_0_r. change (cellsFromRuns (Runs line)) with (line_cells line).
  destruct (found_in false start [line_cells line]) as [m|]; [done|]. cbn [goes_on]. apply IH.
Qed.

Lemma cold_backward start lines :
  visit_list_down (visit_cold true) (start + len lines - 1) (rev lines) None
  = (found_in true start (line_cells <$> lines), goes_on (found_in true start (line_cells <$> lines))).
Proof.
  induction lines as [|line lines IH] using rev_ind; [done|]. rewrite rev_app_distr, fmap_app, len_app. change (len [line]) with 1.
  cbn [rev app visit_list_down fmap list_fmap]. rewrite found_snoc, len_fmap. unfold visit_cold at 1. rewrite found_one.
  replace (start + (len lines + 1) - 1 - 0) with (start + len lines) by lia. change (cellsFromRuns (Runs line)) with (line_cells line).
  destruct (found_in true (start + len lines) [line_cells line]) as [m|]; [done|]. cbn [goes_on].
  replace (start + (len lines + 1) - 1 - 1) with (start + len lines - 1) by lia. apply IH.
Qed.

(** The rows on the screen: a cancelled context stops the search. *)
Definition hot_outcome (ctx : Context) (found : option HistoryCopyRange) (r : result (option HistoryCopyRange)) : Prop :=
  match r with Ok m => m = found | Err err => ∃ i, ctx.(ctx_line) i = Some err end.

Lemma hot_search_forward ctx index rows :
  hot_outcome ctx (found_in false index (hr_Cells <$> rows))
    (search_hot ctx (visit_line query false constrainedLine minCol maxCol) index 1 rows None).
Proof.
  revert index. induction rows as [|row rows IH]; intros index; [done|]. cbn [search_hot fmap list_fmap].
  destruct (ctx_line ctx index) as [err|] eqn:E; [by exists index|]. rewrite found_one, found_cons.
  destruct (found_in false index [hr_Cells row]) as [m|]; [done|]. cbn [goes_on]. apply IH.
Qed.

Lemma hot_search_backward ctx start rows :
  hot_outcome ctx (found_in true start (hr_Cells <$> rows))
    (search_hot ctx (visit_line query true constrainedLine minCol maxCol) (start + len rows - 1) (-1) (rev rows) None).
Proof.
  induction rows as [|row rows IH] using rev_ind; [done|]. rewrite rev_app_distr, fmap_app, len_app. change (len [row]) with 1.
  cbn [rev app search_hot fmap list_fmap]. destruct (ctx_line ctx _) as [err|] eqn:E; [by eexists|].
  replace (start + (len rows + 1) - 1) with (start + len rows) by lia. rewrite found_one, found_snoc, len_fmap.
  destruct (found_in true (start + len rows) [hr_Cells row]) as [m|]; [done|]. cbn [goes_on].
  replace (start + len rows + -1) with (start + len rows - 1) by lia. apply IH.
Qed.
End range.
End rows.

(** ** Batches from the end *)
Section batched.
Context `{TextWidth} {F : Type} `{LineStorageLaws F} {S : Type} (visit : S → Z → Line → S * bool).
Context (ctx : Context) (engine_at : Z → Engine F) (view : liveView) (cold : list Line).
Context (Hengines : ∀ i, serving (engine_at i) view cold ∨ expired (engine_at i) view).

Lemma batches_down_spec batchSize fuel start stop s :
  0 < batchSize → 0 ≤ start → stop ≤ len cold → stop - start ≤ Z.of_nat fuel →
  match batches_down visit ctx engine_at view.(lv_retention) start stop batchSize fuel s with
  | (s', None) => s' = (visit_list_down visit (stop - 1) (rev (slice start stop cold)) s).1
  | (_, Some err) => batch_error ctx engine_at view err
  end.
Proof.
  intros Hb Hs. revert stop s. induction fuel as [|fuel IH]; intros stop s Hle Hf; cbn [batches_down].
  { by rewrite slice_nil by lia. }
  destruct (Z.ltb_spec start stop) as [Hlt|Hge]; [|by rewrite slice_nil by lia].
  destruct (ctx_batch ctx stop) as [err|] eqn:Ec; [left; by exists stop|]. cbv zeta. set (mid := Z.max start (stop - batchSize)).
  destruct (Hengines mid) as [He|He]; cycle 1.
  { unfold LinesAtRetention. rewrite (proj2 (Z.eqb_neq _ _) He). right. split; [done|by exists mid]. }
  rewrite (serving_lines view cold) by (done || unfold mid; lia).
  rewrite <- (slice_cat start mid stop cold), rev_app_distr, visit_list_down_app by (unfold mid; lia).
  assert (El : len (slice mid stop cold) = stop - mid) by (rewrite slice_len by (unfold mid; lia); unfold mid; lia).
  rewrite len_rev, El. replace (mid + (stop - mid) - 1) with (stop - 1) by lia. replace (stop - 1 - (stop - mid)) with (mid - 1) by lia.
  destruct (visit_list_down visit (stop - 1) _ s) as [s1 []]; [|done]. apply IH; unfold mid; lia.
Qed.
End batched.

(** ** A range of the lines of a view *)
Section views.
Context `{TextWidth} {F : Type} `{LineStorageLaws F}.
Context (query : bytes) (Hq : starts_rune query) (view : liveView) (cold : list Line) (Hcold : cold_of view cold).
Context (ctx : Context) (engine_at : Z → Engine F) (Hengines : ∀ i, serving (engine_at i) view cold ∨ expired (engine_at i) view).

(** Why a search of a range fails. *)
Definition search_error (err : goerr) : Prop := batch_error ctx engine_at view err ∨ ∃ i, ctx.(ctx_line) i = Some err.
Definition search_outcome (found : option HistoryCopyRange) (r : result (option HistoryCopyRange)) : Prop :=
  match r with Ok m => m = found | Err err => search_error err end.

Section range.
Context (start stop constrainedLine minCol maxCol : Z) (Hrange : 0 ≤ start ≤ stop) (Htotal : stop ≤ viewLogicalTotal view).
Let found_here := found_in query constrainedLine minCol maxCol.
Let cc := view.(lv_coldCount).
Let cold_rows := line_cells <$> slice start stop cold.
Let hot_rows := slice (Z.max start cc - cc) (Z.min stop (cc + len view.(lv_hot)) - cc) view.(lv_hot).

Lemma range_split :
  slice start stop (view_cells view cold) = cold_rows ++ (hr_Cells <$> hot_rows)
  ∧ (start < cc → stop ≤ cc → hot_rows = []) ∧ (hot_rows ≠ [] → start + len cold_rows = Z.max start cc)
  ∧ (hot_rows ≠ [] → Z.max start cc + len hot_rows = Z.min stop (cc + len view.(lv_hot))) ∧ (cc ≤ start → cold_rows = []).
Proof.
  pose proof (proj2 Hcold) as Ec. fold cc in Ec. unfold viewLogicalTotal in Htotal. fold cc in Htotal.
  assert (Hhot : hot_rows ≠ [] → cc < stop).
  { intros Hne. destruct (Z.ltb_spec cc stop); [done|]. exfalso. apply Hne. unfold hot_rows. apply slice_nil. lia. }
  split_and!.
  - rewrite view_cells_split, zslice_app by lia. rewrite slice_min by lia. rewrite !slice_fmap, len_fmap. unfold cold_rows, hot_rows.
    rewrite <- Ec. do 3 f_equal. lia.
  - intros _ Hle. unfold hot_rows. apply slice_nil. lia.
  - intros Hne%Hhot. unfold cold_rows. rewrite len_fmap, slice_len by lia. lia.
  - intros Hne%Hhot. unfold hot_rows. rewrite slice_len by lia. lia.
  - intros Hge. unfold cold_rows. by rewrite slice_past by lia.
Qed.

Let reversed (direction : HistorySearchDirection) : bool :=
  match direction with HistorySearchBackward => true | HistorySearchForward => false end.

(** The lines of the file in the range. *)
Lemma cold_search reverse : start < cc →
  match VisitLinesAtRetentionBatched (λ found index line,
           visit_line query reverse constrainedLine minCol maxCol found (index - view.(lv_coldBase)) (cellsFromRuns line.(Runs)))
          ctx engine_at view.(lv_retention) (view.(lv_coldBase) + start) (view.(lv_coldBase) + Z.min stop cc) reverse
          historySearchReadBatchLines None with
  | (_, Some err) => search_error err
  | (found, None) => found = found_here reverse start cold_rows
  end.
Proof.
  intros Hlt. destruct Hcold as [Eb Ec]. fold cc in Ec. rewrite Eb, !Z.add_0_l. unfold VisitLinesAtRetentionBatched.
  destruct (Z.leb_spec (Z.min stop cc) start) as [Hle|Hgt].
  { unfold cold_rows. rewrite slice_nil by lia. by destruct reverse. }
  unfold historySearchReadBatchLines. cbn [Z.leb Z.compare]. change (λ found index line, visit_line query reverse _ _ _ found (index - 0) _)
    with (visit_cold query constrainedLine minCol maxCol reverse).
  assert (Es : slice start (Z.min stop cc) cold = slice start stop cold) by (rewrite Ec; apply slice_min; lia).
  destruct reverse.
  - pose proof (batches_down_spec (visit_cold query constrainedLine minCol maxCol true) ctx engine_at view cold Hengines 256
      (Z.to_nat (Z.min stop cc - start)) start (Z.min stop cc) None ltac:(lia) ltac:(lia) ltac:(lia) ltac:(lia)) as Hb.
    destruct (batches_down _ _ _ _ _ _ _ _ _) as [found [err|]]; [by left|]. rewrite Hb, Es.
    erewrite visit_list_down_index; [by rewrite cold_backward|]. intros _. rewrite slice_len by lia. lia.
  - pose proof (batches_spec (visit_cold query constrainedLine minCol maxCol false) ctx engine_at view cold Hengines 256
      (Z.to_nat (Z.min stop cc - start)) start (Z.min stop cc) None ltac:(lia) ltac:(lia) ltac:(lia) ltac:(lia)) as Hb.
    destruct (batches _ _ _ _ _ _ _ _ _) as [found [err|]]; [by left|]. by rewrite Hb, Es, cold_forward.
Qed.

Lemma hot_outcome_search found r : hot_outcome ctx found r → search_outcome found r.
Proof. destruct r; [done|]. intros Hr. by right. Qed.

Lemma searchLineRange_spec direction :
  search_outcome (found_here (reversed direction) start (slice start stop (view_cells view cold)))
    (searchLineRange ctx engine_at view query direction start stop constrainedLine minCol maxCol).
Proof.
  destruct range_split as (Es & Hnone & Hstart & Hlen & Hpast). unfold searchLineRange. fold cc. cbv zeta.
  change (match direction with HistorySearchForward => false | HistorySearchBackward => true end) with (reversed direction).
  fold hot_rows. rewrite Es. pose proof (cold_search (reversed direction)) as Hc. unfold found_here, found_in in Hc |- *. rewrite range_matches_app, pick_app.
  destruct direction; cbn [reversed] in Hc |- *.
  - assert (Hhot : search_outcome (found_in query constrainedLine minCol maxCol false (start + len cold_rows) (hr_Cells <$> hot_rows))
      (search_hot ctx (visit_line query false constrainedLine minCol maxCol) (Z.max start cc) 1 hot_rows None)).
    { apply hot_outcome_search. destruct hot_rows as [|row rows] eqn:Eh; [done|]. rewrite Hstart by done. by apply hot_search_forward. }
    destruct (Z.ltb_spec start cc) as [Hlt|Hge].
    + specialize (Hc Hlt). destruct (VisitLinesAtRetentionBatched _ _ _ _ _ _ _ _ _) as [found [err|]]; [exact Hc|]. cbn [result_bind].
      rewrite <- Hc. destruct found as [m|]; [done|exact Hhot].
    + cbn [result_bind]. rewrite Hpast in Hhot |- * by lia. exact Hhot.
  - assert (Hhot : search_outcome (found_in query constrainedLine minCol maxCol true (start + len cold_rows) (hr_Cells <$> hot_rows))
      (search_hot ctx (visit_line query true constrainedLine minCol maxCol) (Z.min stop (cc + len (lv_hot view)) - 1) (-1) (rev hot_rows) None)).
    { apply hot_outcome_search. destruct hot_rows as [|row rows] eqn:Eh; [done|]. rewrite <- Eh in *. assert (hot_rows ≠ []) by (by rewrite Eh).
      rewrite Hstart, <- Hlen by done. by apply hot_search_backward. }
    unfold found_in in Hhot. destruct (search_hot _ _ _ _ _ _) as [found|err]; cbn [result_bind]; [|exact Hhot]. cbn [search_outcome] in Hhot.
    rewrite <- Hhot. destruct found as [m|]; [done|]. destruct (Z.ltb_spec start cc) as [Hlt|Hge].
    + specialize (Hc Hlt). destruct (VisitLinesAtRetentionBatched _ _ _ _ _ _ _ _ _) as [found [err|]]; exact Hc.
    + by rewrite Hpast.
Qed.
End range.
End views.

(** * A search of a frozen history finds the next match *)

(** ** The reference *)

(** A match before a position. *)
Definition before (from : Z * Z) (m : HistoryCopyRange) : bool :=
  let line := m.(cr_Start).(cp_LineID) - 1 in (line <? from.1) || (line =? from.1) && (m.(cr_Start).(cp_Col) <? from.2).
Definition after (from : Z * Z) (m : HistoryCopyRange) : bool := negb (before from m).

(** The next match in the direction, and whether it was found around the end. *)
Definition next_match (direction : HistorySearchDirection) (from : Z * Z) (all : list HistoryCopyRange) : option (HistoryCopyRange * bool) :=
  match direction with
  | HistorySearchForward =>
      match head (List.filter (after from) all) with Some m => Some (m, false) | None => (λ m, (m, true)) <$> head all end
  | HistorySearchBackward =>
      match last (List.filter (before from) all) with Some m => Some (m, false) | None => (λ m, (m, true)) <$> last all end
  end.

(** Where a search starts: the position asked for, else the end it comes from. *)
Definition search_from (req : HistorySearchRequest) (total : Z) : Z * Z :=
  if negb (req.(sq_Start).(cp_LineID) =? 0) then (clampInt (req.(sq_Start).(cp_LineID) - 1) 0 (total - 1), Z.max 0 req.(sq_Start).(cp_Col))
  else match req.(sq_Direction) with
       | HistorySearchBackward => (total - 1, maxInt64)
       | HistorySearchForward => (0, Z.max 0 req.(sq_Start).(cp_Col))
       end.

Lemma filter_none {A} (f : A → bool) l : List.filter f l = [] → List.filter (λ x, negb (f x)) l = l.
Proof. induction l as [|x l IH]; [done|]. cbn. destruct (f x); [done|]. cbn. intros Hl. by rewrite IH. Qed.

Lemma filter_negb {A} (f : A → bool) l : List.filter (λ x, negb (negb (f x))) l = List.filter f l.
Proof. induction l as [|x l IH]; [done|]. cbn. destruct (f x); cbn; by rewrite IH. Qed.

Lemma next_forward from all :
  next_match HistorySearchForward from all
  = match head (List.filter (after from) all) with
    | Some m => Some (m, false) | None => (λ m, (m, true)) <$> head (List.filter (before from) all) end.
Proof.
  cbn. destruct (List.filter (after from) all) eqn:E; [|done]. cbn. apply filter_none in E. unfold after in E. rewrite filter_negb in E. by rewrite E.
Qed.

Lemma next_backward from all :
  next_match HistorySearchBackward from all
  = match last (List.filter (before from) all) with
    | Some m => Some (m, false) | None => (λ m, (m, true)) <$> last (List.filter (after from) all) end.
Proof.
  cbn. destruct (last (List.filter (before from) all)) eqn:E; [done|]. apply last_None, filter_none in E. unfold after. by rewrite E.
Qed.

(** ** The two ranges of a search *)
Section ranges.
Context `{TextWidth} (Hwidth : ∀ text, 0 ≤ StringWidth text) (query : bytes) (rows : list (list Cell)).
Let all := matches query 0 rows.

Lemma matches_col offset part m : m ∈ matches query offset part → 0 ≤ m.(cr_Start).(cp_Col).
Proof.
  revert offset. induction part as [|cells part IH]; intros offset; [by intros ?%elem_of_nil|]. rewrite matches_cons.
  intros [(x & -> & Hx)%list_elem_of_fmap|Hm%IH]%elem_of_app; [|done]. unfold row_matches in Hx.
  apply list_elem_of_fmap in Hx as (i & -> & _). apply Hwidth.
Qed.

Lemma matches_split line : 0 ≤ line ≤ len rows →
  all = matches query 0 (slice 0 line rows) ++ matches query line (slice line (len rows) rows).
Proof.
  intros Hl. unfold all. rewrite <- (zslice_all (len rows) rows) at 1 by done. rewrite <- (slice_cat 0 line (len rows)), matches_app by lia.
  rewrite slice_len by lia. do 2 f_equal. lia.
Qed.

Lemma filter_all {A} (f : A → bool) l : (∀ x, x ∈ l → f x = true) → List.filter f l = l.
Proof. intros Hf. induction l as [|x l IH]; [done|]. cbn. rewrite Hf by left. f_equal. apply IH. intros y Hy. apply Hf. by right. Qed.
Lemma filter_nothing {A} (f : A → bool) l : (∀ x, x ∈ l → f x = false) → List.filter f l = [].
Proof. intros Hf. induction l as [|x l IH]; [done|]. cbn. rewrite Hf by left. apply IH. intros y Hy. apply Hf. by right. Qed.
Lemma filter_same {A} (f g : A → bool) l : (∀ x, x ∈ l → f x = g x) → List.filter f l = List.filter g l.
Proof. intros Hf. apply List.filter_ext_in. intros x Hx. apply Hf. by apply list_elem_of_In. Qed.

Ltac compare_match Hm :=
  let Hl := fresh "Hl" in let Hc := fresh "Hc" in
  pose proof (matches_line query _ _ _ Hm) as Hl; pose proof (matches_col _ _ _ Hm) as Hc;
  rewrite ?slice_len in Hl by lia; unfold after, before, in_range, inside; cbn [fst snd];
  repeat match goal with
  | |- context [?a =? ?b] => destruct (Z.eqb_spec a b); try lia
  | |- context [?a <? ?b] => destruct (Z.ltb_spec a b); try lia
  | |- context [?a <=? ?b] => destruct (Z.leb_spec a b); try lia
  end; try done.

Lemma after_range line col : 0 ≤ line < len rows → 0 ≤ col →
  range_matches query line col (-1) line (slice line (len rows) rows) = List.filter (after (line, col)) all.
Proof.
  intros Hl0 Hc0. rewrite (matches_split line), List.filter_app by lia.
  rewrite (filter_nothing (after (line, col))) by (intros m Hm; compare_match Hm).
  apply filter_same. intros m Hm. compare_match Hm.
Qed.

Lemma before_range line col : 0 ≤ line < len rows → 0 < col →
  range_matches query line 0 (col - 1) 0 (slice 0 (line + 1) rows) = List.filter (before (line, col)) all.
Proof.
  intros Hl0 Hc0. rewrite (matches_split (line + 1)), List.filter_app by lia.
  rewrite (filter_nothing _ (matches query (line + 1) _)) by (intros m Hm; compare_match Hm).
  rewrite app_nil_r. apply filter_same. intros m Hm. compare_match Hm.
Qed.

Lemma before_line line : 0 ≤ line < len rows →
  range_matches query (-1) 0 (-1) 0 (slice 0 line rows) = List.filter (before (line, 0)) all.
Proof.
  intros Hl0. rewrite (matches_split line), List.filter_app by lia.
  rewrite (filter_nothing _ (matches query line _)) by (intros m Hm; compare_match Hm).
  rewrite app_nil_r. apply filter_same. intros m Hm. compare_match Hm.
Qed.
End ranges.

(** ** A search of a view *)
Section search.
Context `{TextWidth} (Hwidth : ∀ text, 0 ≤ StringWidth text) {F : Type} `{LineStorageLaws F}.
Context (query : bytes) (Hq : starts_rune query) (view : liveView) (cold : list Line) (Hv : view_ok view cold).
Context (ctx : nat → Context) (engine_at : nat → Z → Engine F) (Hengines : ∀ n i, serving (engine_at n i) view cold ∨ expired (engine_at n i) view).
Let rows := view_cells view cold.
Let all := matches query 0 rows.
Let total := viewLogicalTotal view.

Definition either_error (err : goerr) : Prop := ∃ n, search_error view (ctx n) (engine_at n) err.

Lemma then_wrapped_spec n1 n2 a b f1 f2 :
  search_outcome view (ctx n1) (engine_at n1) f1 a → search_outcome view (ctx n2) (engine_at n2) f2 b →
  match then_wrapped a b with
  | Ok found => found = match f1 with Some m => Some (m, false) | None => (λ m, (m, true)) <$> f2 end
  | Err err => either_error err
  end.
Proof.
  unfold then_wrapped. destruct a as [m|err]; [intros ->|intros Ha _; by exists n1]. destruct f1 as [m1|]; [done|].
  destruct b as [m2|err]; cbn [result_bind]; [by intros ->|intros Hb; by exists n2].
Qed.

Lemma range_found n direction start stop cl mn mx : 0 ≤ start ≤ stop → stop ≤ total →
  search_outcome view (ctx n) (engine_at n)
    (pick (match direction with HistorySearchForward => false | HistorySearchBackward => true end)
       (range_matches query cl mn mx start (slice start stop rows)))
    (searchLineRange (ctx n) (engine_at n) view query direction start stop cl mn mx).
Proof. intros. by apply (searchLineRange_spec query Hq view cold (vo_cold _ _ Hv)). Qed.

Lemma searchFrozenView_spec direction line col : 0 ≤ line < total → 0 ≤ col →
  match searchFrozenView ctx engine_at view query direction line col with
  | Ok found => found = next_match direction (line, col) all
  | Err err => either_error err
  end.
Proof.
  intros Hl Hc. assert (Hlen : len rows = total) by (apply view_cells_len, Hv). unfold searchFrozenView. fold total.
  assert (Ht : 0 ≤ line < len rows) by lia.
  pose proof (after_range Hwidth query rows line col Ht Hc) as Ea. rewrite Hlen in Ea. fold all in Ea.
  assert (Hahead : ∀ n direction, search_outcome view (ctx n) (engine_at n)
      (pick (match direction with HistorySearchForward => false | HistorySearchBackward => true end) (List.filter (after (line, col)) all))
      (searchLineRange (ctx n) (engine_at n) view query direction line total line col (-1))).
  { intros n d. rewrite <- Ea. apply range_found; lia. }
  assert (Hbehind : ∀ n direction, search_outcome view (ctx n) (engine_at n)
      (pick (match direction with HistorySearchForward => false | HistorySearchBackward => true end) (List.filter (before (line, col)) all))
      (if col =? 0 then searchLineRange (ctx n) (engine_at n) view query direction 0 line (-1) 0 (-1)
       else searchLineRange (ctx n) (engine_at n) view query direction 0 (line + 1) line 0 (col - 1))).
  { intros n d. destruct (Z.eqb_spec col 0) as [->|Hne].
    - pose proof (before_line Hwidth query rows line Ht) as E. fold all in E. rewrite <- E. apply range_found; lia.
    - pose proof (before_range Hwidth query rows line col Ht ltac:(lia)) as E. fold all in E. rewrite <- E. apply range_found; lia. }
  destruct direction; rewrite ?next_forward, ?next_backward.
  - exact (then_wrapped_spec 0 1 _ _ _ _ (Hahead 0%nat HistorySearchForward) (Hbehind 1%nat HistorySearchForward)).
  - pose proof (then_wrapped_spec 0 1 _ _ _ _ (Hbehind 0%nat HistorySearchBackward) (Hahead 1%nat HistorySearchBackward)) as Hd.
    by destruct (col =? 0).
Qed.

Lemma next_match_in direction from m wrapped : next_match direction from all = Some (m, wrapped) → m ∈ all.
Proof.
  assert (Hin : ∀ f, m ∈ List.filter f all → m ∈ all) by (intros f Hm; apply list_elem_of_In, List.filter_In in Hm as [Hm _]; by apply list_elem_of_In).
  destruct direction; cbn.
  - destruct (head (List.filter _ all)) eqn:E.
    + intros [= -> _]. apply (Hin (after from)). apply head_Some_elem_of. exact E.
    + destruct (head all) eqn:E2; [|done]. intros [= -> _]. by apply head_Some_elem_of.
  - destruct (last (List.filter _ all)) eqn:E.
    + intros [= -> _]. apply (Hin (before from)). by apply last_Some_elem_of.
    + destruct (last all) eqn:E2; [|done]. intros [= -> _]. by apply last_Some_elem_of.
Qed.

Lemma search_from_range req : 0 < total → 0 ≤ (search_from req total).1 < total ∧ 0 ≤ (search_from req total).2.
Proof.
  intros Ht. unfold search_from. destruct (negb _); cbn [fst snd].
  - unfold clampInt. destruct (Z.ltb_spec (cp_LineID (sq_Start req) - 1) 0), (Z.gtb_spec (cp_LineID (sq_Start req) - 1) (total - 1)); lia.
  - destruct (sq_Direction req); cbn [fst snd]; [lia|]. unfold maxInt64. lia.
Qed.

(** The window of a result starts with the row of the match. *)
Definition shows_match (w : HistoryWindow) (m : HistoryCopyRange) : Prop :=
  ∃ stop, w.(hw_Rows) = slice (m.(cr_Start).(cp_LineID) - 1) stop (view_rows view cold) ∧ m.(cr_Start).(cp_LineID) ≤ stop ≤ total.
Definition answers (expected : option (HistoryCopyRange * bool)) (found : option HistorySearchResult) : Prop :=
  match expected, found with
  | Some (m, wrapped), Some r => r.(sr_Match) = m ∧ r.(sr_IsWrapped) = wrapped ∧ shows_match r.(sr_Window) m
  | None, None => True
  | _, _ => False
  end.

Context (last_engine : Engine F) (Hlast : serving last_engine view cold ∨ expired last_engine view).
Context (token : string) (Htoken : token ≠ "").

(** What may interrupt a search. *)
Definition interrupted (s : Store F) : Prop :=
  ¬ live_token s token view ∨ expired last_engine view ∨ (∃ n i, expired (engine_at n i) view)
  ∨ ∃ n i, (ctx n).(ctx_batch) i ≠ None ∨ (ctx n).(ctx_line) i ≠ None.

Lemma either_interrupted s err : either_error err → interrupted s.
Proof.
  intros (n & [[(i & Hi)|[_ (i & Hi)]]|(i & Hi)]); unfold interrupted.
  - right; right; right. exists n, i. left. congruence.
  - right; right; left. by exists n, i.
  - right; right; right. exists n, i. right. congruence.
Qed.

Lemma Search_spec s req : watched s token view cold → req.(sq_Token) = token → req.(sq_Query) = query →
  1 ≤ req.(sq_Limit) ≤ MaxHistoryWindowLines →
  match Search ctx engine_at last_engine s req with
  | Ok found => answers (next_match req.(sq_Direction) (search_from req total) all) found
  | Err _ => interrupted s
  end.
Proof.
  intros Hw Ht Hqr Hlimit. unfold Search. rewrite Ht, Hqr. destruct (String.eqb_spec token ""); [done|].
  assert (Hqne : is_empty query = false) by (by destruct query). rewrite Hqne. cbn [orb].
  unfold normalizedLimit. replace (_ || _) with false by lia. cbn [result_bind]. unfold viewForRequest. cbn [rq_Token rq_Cols rq_TerminalID set_field].
  cbn. destruct (String.eqb_spec token ""); [done|]. destruct Hw as (_ & _ & _ & [Hf|Hf]); rewrite Hf; cbn [result_bind].
  { left. intros [E _]. congruence. }
  fold total. assert (Hn : 0 ≤ total) by (by eapply total_nonneg).
  destruct (Z.eqb_spec total 0) as [E0|E0].
  { assert (E : all = []) by (unfold all; rewrite (nil_length_inv rows); [done|]; pose proof (view_cells_len view cold (vo_cold _ _ Hv)) as El; fold rows total in El; unfold len in El; lia).
    rewrite E. by destruct (sq_Direction req). }
  fold (search_from req total). pose proof (search_from_range req ltac:(lia)) as [H1' H2'].
  destruct (search_from req total) as [line col] eqn:Efrom. cbn [fst snd] in *.
  pose proof (searchFrozenView_spec (sq_Direction req) line col ltac:(lia) ltac:(lia)) as Hs.
  destruct (searchFrozenView _ _ _ _ _ _ _) as [found|err]; [|by eapply either_interrupted]. subst found.
  destruct (next_match (sq_Direction req) (line, col) all) as [[m wrapped]|] eqn:En; [|done].
  apply next_match_in, matches_line in En. unfold rows in En. rewrite (view_cells_len _ _ (vo_cold _ _ Hv)) in En. fold total in En.
  pose proof (windowRowsForward_spec last_engine view cold (cp_LineID (cr_Start m) - 1) (Z.min total (cp_LineID (cr_Start m) - 1 + sq_Limit req))
    (vo_cold _ _ Hv) Hlast ltac:(lia) ltac:(unfold total; lia) ltac:(apply (cheap_slice view cold Hv))) as Hp.
  destruct (windowRowsForward _ _ _ _) as [p|err]; cbn [result_bind]; cycle 1.
  { right; left. destruct Hlast as [Hse|He]; [|exact He]. by destruct Hp as [Hp _]. }
  destruct Hp as (b & -> & Ha & Hb & Hne). cbn. split_and!; [done..|]. exists b. split; [done|lia].
Qed.
End search.
#[local] Existing Instances FileDemo.codecs FileDemo.codec_laws StoreDemo.width StoreDemo.storage StoreDemo.storage_laws.

(** C18: Searching a frozen history is exact: whatever the store does meanwhile, a search that answers gives the first
    occurrence of the query at or after the start (the last before it, backwards), else the first (last) of all, told
    apart as wrapped around; it finds nothing only when no row has the query; and the window it returns starts at the
    row of the match. A search fails only when the token went stale, lines were dropped or a context was cancelled. *)
Theorem search_next_match `{TextWidth} {F : Type} `{LineStorageLaws F} (s s0 store0 last_store : Store F) (lines : list Line)
    (terminalID : string) (cols limit : Z) (fz : FrozenHistorySnapshot) (batch_at : nat → Z → Store F) (ctx : nat → Context)
    (req : HistorySearchRequest)
    (Hh : ls_holds s.(s_engine).(en_file) lines) (Hfreeze : Freeze s terminalID cols limit = (s0, Ok fz))
    (Hread : readable s cols lines) (Hlater : later s0 store0) (Hbatch : ∀ n i, later s0 (batch_at n i)) (Hlast : later s0 last_store)
    (Hreq : req.(sq_Token) = fz.(fz_Token)) (Hlimit : 1 ≤ req.(sq_Limit) ≤ MaxHistoryWindowLines)
    (Hquery : starts_rune req.(sq_Query)) (Hwidth : ∀ text, 0 ≤ StringWidth text) :
  let view := captureLive s cols in
  let rows := frozen_rows s cols lines in
  let engine_at n i := (batch_at n i).(s_engine) in
  match Search ctx engine_at last_store.(s_engine) store0 req with
  | Ok found => answers view lines (next_match req.(sq_Direction) (search_from req (len rows)) (matches req.(sq_Query) 0 (hr_Cells <$> rows))) found
  | Err _ => interrupted view ctx engine_at last_store.(s_engine) fz.(fz_Token) store0
  end.
Proof.
  destruct (freeze_watched _ _ _ _ _ _ _ Hh Hfreeze Hread) as (Hw & Hv & Hne). cbv zeta.
  unfold frozen_rows. rewrite (view_rows_len _ _ (vo_cold _ _ Hv)).
  assert (Hserves : ∀ st, later s0 st → serving st.(s_engine) (captureLive s cols) lines ∨ expired st.(s_engine) (captureLive s cols))
    by (intros st Hst; eapply watched_serves, later_watched; done).
  eapply Search_spec; try done; [intros n i; by apply Hserves|by apply Hserves|by eapply later_watched].
Qed.

Module SearchDemo.
Definition request (direction : HistorySearchDirection) (from : Z) : HistorySearchRequest :=
  mkSearch "" StoreDemo.token 0 3 [Byte.x63] direction (mkPosition from 0).
Definition background (n : nat) : Context := mkContext (λ _, None) (λ _, None).
Definition search (direction : HistorySearchDirection) (from : Z) : result (option HistorySearchResult) :=
  Search background (λ n _, (StoreDemo.store_at n).(s_engine)) (StoreDemo.store_at 2).(s_engine) (StoreDemo.store_at 0) (request direction from).
Definition answer (r : result (option HistorySearchResult)) : option (Z * Z * bool) :=
  match r with
  | Ok (Some res) => Some (res.(sr_Match).(cr_Start).(cp_LineID), res.(sr_Match).(cr_End).(cp_Col), res.(sr_IsWrapped))
  | _ => None
  end.

(** The letter is in the third row: ahead of the second, around the end of the fourth. *)
Example demo_searches :
  answer (search HistorySearchForward 2) = Some (3, 1, false) ∧ answer (search HistorySearchForward 4) = Some (3, 1, true)
  ∧ answer (search HistorySearchBackward 0) = Some (3, 1, false) ∧ answer (search HistorySearchBackward 3) = Some (3, 1, true).
Proof. vm_compute. by split_and!. Qed.
End SearchDemo.

Lemma search_next_match_witness :
  ∃ found, SearchDemo.search HistorySearchForward 4 = Ok found
  ∧ answers (captureLive StoreDemo.store 0) StoreDemo.cold
      (next_match HistorySearchForward (3, 0) (matches [Byte.x63] 0 (hr_Cells <$> frozen_rows StoreDemo.store 0 StoreDemo.cold))) found.
Proof.
  pose proof (search_next_match StoreDemo.store StoreDemo.frozen.1 (StoreDemo.store_at 0) (StoreDemo.store_at 2) StoreDemo.cold "" 0 3
    StoreDemo.snapshot (λ n _, StoreDemo.store_at n) SearchDemo.background (SearchDemo.request HistorySearchForward 4)
    StoreDemo.cold_held StoreDemo.frozen_ok StoreDemo.cold_readable (StoreDemo.later_after 0) (λ n _, StoreDemo.later_after n)
    (StoreDemo.later_after 2) ltac:(vm_compute; reflexivity) ltac:(split; discriminate) ltac:(vm_compute; reflexivity)
    (λ text, len_nonneg text)) as Hs.
  cbv zeta in Hs. change (Search _ _ _ _ _) with (SearchDemo.search HistorySearchForward 4) in Hs.
  assert (Hok : is_ok (SearchDemo.search HistorySearchForward 4) = true) by (vm_compute; reflexivity).
  destruct (SearchDemo.search HistorySearchForward 4) as [found|err]; [|discriminate Hok].
  exists found. split; [reflexivity|]. exact Hs.
Defined.
