(* ===== verification/Directory.v ===== *)
(** * The Controller's live directory

    [cloud/controller/directory/directory.go]: which Edges are online, where their daemons and sessions are, the
    commands that wait for an Edge, the connections admitted for an account and the watchers of the operator console.
    All of it is owned by one goroutine that runs the requests of its mailbox one by one: each method below is the
    request it submits, a function on [directoryState].

    A channel is its number: [dr_results] is the ghost list of what became of the channels of the commands, and
    [dr_mailboxes] has what waits in the channel of each watcher. Clone operations are the identity. *)
From S2P Require Import Prelude GoStd EdgeState.
Local Open Scope Z_scope.
Local Open Scope bool_scope.
Local Open Scope list_scope.

(** ** Messages *)
Record SnapshotBegin := mkBegin { sb_SnapshotId : string; sb_Revision : Z }.
Record SnapshotChunk := mkChunk {
  sc_SnapshotId : string; sc_ChunkIndex : Z; sc_Agents : list AgentPresence; sc_Sessions : list ClientSessionSummary }.
Record SnapshotEnd := mkEnd { se_SnapshotId : string; se_Revision : Z; se_ChunkCount : Z; se_Digest : string }.
(** [cr_Other]: the fields that are only carried along. *)
Record EdgeCommandResult := mkResult { cr_CorrelationId : string; cr_Other : string }.
Inductive OperatorEventOperation := OperationUpsert | OperationDelete | OperationReset.
Record OperatorRuntimeEvent := mkRuntimeEvent {
  oe_ControllerInstanceId : string; oe_EventSeq : Z; oe_ResourceKind : string; oe_ResourceId : string;
  oe_Operation : OperatorEventOperation }.

(** ** Data *)
Inductive EdgeCapability := DAEMON_CONNECTION_ADMISSION | OtherCapability (n : Z).
#[export] Instance EdgeCapability_eq_dec : EqDecision EdgeCapability.
Proof. solve_decision. Defined.

(** A failure that asks the Edge for a new snapshot, or any other. *)
Inductive dir_error := SyncError (ExpectedRevision : Z) (Reason : goerr) | DirError (err : goerr).

Definition ErrClosed : goerr := "Controller Directory is closed".
Definition ErrStaleConnection : goerr := "Edge connection generation is stale".
Definition ErrDaemonConnectionLimit : goerr := "cloud daemon connection limit reached".

Record Attachment := mkAttachment {
  at_EdgeID : string; at_BootID : string; at_ConnectionID : string; at_SoftwareVersion : string;
  at_Capabilities : list EdgeCapability; at_ConnectedAt : Z }.
Record DaemonConnectionAdmission := mkAdmission {
  ad_AdmissionID : string; ad_DaemonID : string; ad_AccountID : string; ad_AgentConnectionID : string }.
#[export] Instance Admission_eq_dec : EqDecision DaemonConnectionAdmission.
Proof. solve_decision. Defined.
Record EdgeProjection := mkProjection {
  ep_Attachment : Attachment; ep_RuntimeRevision : Z; ep_AgentCount : Z; ep_SessionCount : Z; ep_LastHeartbeat : Z }.
Record ObjectLocation := mkLocation { lo_EdgeID : string; lo_BootID : string; lo_ConnectionID : string; lo_Generation : Z }.
Record SessionProjection := mkSessionProjection {
  sp_Session : ClientSessionSummary; sp_Location : option ObjectLocation; sp_ConnectedAt : Z }.

Record pendingCommand := mkPendingCommand { pc_location : ObjectLocation; pc_result : Z }.
Record daemonConnectionAdmission := mkHeld { ha_admission : DaemonConnectionAdmission; ha_controlConnectionID : string }.
Record snapshotBuilder := mkBuilder {
  bu_id : string; bu_revision : Z; bu_nextChunk : Z; bu_agents : list AgentPresence; bu_sessions : list ClientSessionSummary }.
Record connectionState := mkConnection {
  cn_attachment : Attachment; cn_snapshot : option RuntimeSnapshot; cn_staging : option snapshotBuilder; cn_lastHeartbeat : Z }.
#[export] Instance eta_connection : Eta connectionState := λ c,
  mkConnection c.(cn_attachment) c.(cn_snapshot) c.(cn_staging) c.(cn_lastHeartbeat).

Record directoryState := mkDirectory {
  dr_connections : gmap string connectionState;
  dr_current : gmap string string;
  dr_daemons : gmap string ObjectLocation;
  dr_sessions : gmap string ObjectLocation;
  dr_pending : gmap string pendingCommand;
  dr_admissions : gmap string daemonConnectionAdmission;
  dr_watchers : gset Z;
  dr_mailboxes : gmap Z (list OperatorRuntimeEvent);   (* the channels of the watchers, open or closed *)
  dr_nextWatcher : Z;
  dr_eventSeq : Z;
  dr_instanceID : string;
  dr_nextChannel : Z;
  dr_results : list (Z * option EdgeCommandResult) }.   (* a result sent, or the channel closed without one *)
#[export] Instance eta_directory : Eta directoryState := λ d,
  mkDirectory d.(dr_connections) d.(dr_current) d.(dr_daemons) d.(dr_sessions) d.(dr_pending) d.(dr_admissions) d.(dr_watchers)
    d.(dr_mailboxes) d.(dr_nextWatcher) d.(dr_eventSeq) d.(dr_instanceID) d.(dr_nextChannel) d.(dr_results).

(** The state [run] starts with. *)
Definition new_directory (instanceID : string) : directoryState := mkDirectory ∅ ∅ ∅ ∅ ∅ ∅ ∅ ∅ 0 0 instanceID 0 [].

Section directory.
(** The size of a watcher's mailbox, and the digest of a normalised snapshot. *)
Context (mailboxSize : Z) (marshalDigest : RuntimeSnapshot → result string).

(** [runtimesnapshot.Digest]. *)
Definition Digest (snapshot : RuntimeSnapshot) : result string :=
  let? normalized := NormalizeClone snapshot in marshalDigest normalized.

(** ** Helpers *)
Definition connection_at (d : directoryState) (id : string) : option connectionState := d.(dr_connections) !! id.
Definition current_id (d : directoryState) (edgeID : string) : string := default "" (d.(dr_current) !! edgeID).
Definition location_connection (m : gmap string ObjectLocation) (id : string) : string := default "" (lo_ConnectionID <$> m !! id).
Definition put_connection (id : string) (c : connectionState) (d : directoryState) : directoryState :=
  d <| dr_connections := <[id := c]> d.(dr_connections) |>.

Definition currentRevision (c : connectionState) : Z := match c.(cn_snapshot) with Some s => s.(rs_Revision) | None => 0 end.

Definition projection (c : connectionState) (s : RuntimeSnapshot) : EdgeProjection :=
  mkProjection c.(cn_attachment) s.(rs_Revision) (len s.(rs_Agents)) (len s.(rs_Sessions)) c.(cn_lastHeartbeat).

Definition requireConnection (d : directoryState) (id : string) : result connectionState :=
  match connection_at d id with Some c => Ok c | None => Err ErrStaleConnection end.

(** The connection with its snapshot. *)
Definition requireCurrent (d : directoryState) (id : string) : result (connectionState * RuntimeSnapshot) :=
  match connection_at d id with
  | None => Err ErrStaleConnection
  | Some c => match c.(cn_snapshot) with
              | None => Err ErrStaleConnection
              | Some s => if String.eqb (current_id d c.(cn_attachment).(at_EdgeID)) id then Ok (c, s) else Err ErrStaleConnection
              end
  end.

Definition remove_index (connectionID : string) (m : gmap string ObjectLocation) (id : string) : gmap string ObjectLocation :=
  if String.eqb (location_connection m id) connectionID then delete id m else m.

Definition removeIndexes (connectionID : string) (d : directoryState) : directoryState :=
  match connection_at d connectionID ≫= cn_snapshot with
  | None => d
  | Some s =>
      d <| dr_daemons := foldl (remove_index connectionID) d.(dr_daemons) (ap_DaemonId <$> s.(rs_Agents)) |>
        <| dr_sessions := foldl (remove_index connectionID) d.(dr_sessions) (cs_SessionId <$> s.(rs_Sessions)) |>
  end.

Definition removeAdmissions (connectionID : string) (d : directoryState) : directoryState :=
  d <| dr_admissions := filter (λ kv, kv.2.(ha_controlConnectionID) ≠ connectionID) d.(dr_admissions) |>.

Definition location_of (a : Attachment) (connectionID : string) (generation : Z) : ObjectLocation :=
  mkLocation a.(at_EdgeID) a.(at_BootID) connectionID generation.

Definition addIndexes (connectionID : string) (d : directoryState) : directoryState :=
  match connection_at d connectionID with
  | None => d
  | Some c =>
      match c.(cn_snapshot) with
      | None => d
      | Some s =>
          d <| dr_daemons := foldl (λ m a, <[a.(ap_DaemonId) := location_of c.(cn_attachment) connectionID a.(ap_Generation)]> m)
                               d.(dr_daemons) s.(rs_Agents) |>
            <| dr_sessions := foldl (λ m x, <[x.(cs_SessionId) := location_of c.(cn_attachment) connectionID x.(cs_Generation)]> m)
                               d.(dr_sessions) s.(rs_Sessions) |>
      end
  end.

(** The daemons of an account, online or admitted. *)
Definition online_of (accountID : string) (c : connectionState) : gset string :=
  match c.(cn_snapshot) with
  | None => ∅
  | Some s => list_to_set (ap_DaemonId <$> filter (λ a, a.(ap_AccountId) = accountID) s.(rs_Agents))
  end.
Definition accountDaemonIDs (d : directoryState) (accountID : string) : gset string :=
  ⋃ ((λ id, from_option (online_of accountID) ∅ (connection_at d id)) <$> (map_to_list d.(dr_current)).*2)
  ∪ ⋃ ((λ h, if String.eqb h.(ha_admission).(ad_AccountID) accountID then {[ h.(ha_admission).(ad_DaemonID) ]} else ∅)
        <$> (map_to_list d.(dr_admissions)).*2).

(** [publish]: a watcher whose mailbox is full is closed and dropped. *)
Definition dir_publish (kind id : string) (operation : OperatorEventOperation) (d : directoryState) : directoryState :=
  if String.eqb kind "" || String.eqb id "" then d
  else
    let seq := u64 (d.(dr_eventSeq) + 1) in
    let event := mkRuntimeEvent d.(dr_instanceID) seq kind id operation in
    let full := filter (λ w, len (default [] (d.(dr_mailboxes) !! w)) >=? mailboxSize = true) d.(dr_watchers) in
    let rest := d.(dr_watchers) ∖ full in
    d <| dr_eventSeq := seq |>
      <| dr_mailboxes := map_imap (λ w mailbox, Some (if decide (w ∈ rest) then mailbox ++ [event] else mailbox)) d.(dr_mailboxes) |>
      <| dr_watchers := rest |>.

(** ** Deltas *)
(** The loops over the agents and over the sessions of a snapshot, for objects with a key and a generation. *)
Section objects.
Context {A : Type} (key : A → string) (generation : A → Z) (regressed stale : goerr).

Fixpoint upsert_object (object : A) (objects : list A) : result (list A) :=
  match objects with
  | [] => Ok [object]
  | current :: objects =>
      if String.eqb (key current) (key object) then
        if generation object <? generation current then Err regressed else Ok (object :: objects)
      else let? objects := upsert_object object objects in Ok (current :: objects)
  end.
Fixpoint remove_object (id : string) (g : Z) (objects : list A) : result (list A) :=
  match objects with
  | [] => Err stale
  | current :: objects =>
      if String.eqb (key current) id && (generation current =? g) then Ok objects
      else let? objects := remove_object id g objects in Ok (current :: objects)
  end.
End objects.

Definition upsert_agent := upsert_object ap_DaemonId ap_Generation "agent generation regressed".
Definition upsert_session := upsert_object cs_SessionId cs_Generation "session generation regressed".
Definition remove_agent := remove_object ap_DaemonId ap_Generation "removed agent generation is not current".
Definition remove_session := remove_object cs_SessionId cs_Generation "removed session generation is not current".

Definition matches_admission (connectionID : string) (agent : AgentPresence) (h : daemonConnectionAdmission) : bool :=
  String.eqb h.(ha_controlConnectionID) connectionID && String.eqb h.(ha_admission).(ad_DaemonID) agent.(ap_DaemonId)
  && String.eqb h.(ha_admission).(ad_AccountID) agent.(ap_AccountId)
  && String.eqb h.(ha_admission).(ad_AgentConnectionID) agent.(ap_ConnectionId).

(** The first admission that matches, in the order the map is ranged over. *)
Definition matchingDaemonAdmission (order : map_order) (d : directoryState) (connectionID : string) (c : connectionState)
    (agent : AgentPresence) : result string :=
  if negb (bool_decide (DAEMON_CONNECTION_ADMISSION ∈ c.(cn_attachment).(at_Capabilities))) then Ok ""
  else match head (filter (λ kv, matches_admission connectionID agent kv.2 = true) (range order d.(dr_admissions))) with
       | Some kv => Ok kv.1
       | None => Err "agent Presence has no matching daemon connection admission"
       end.

Definition put_snapshot (connectionID : string) (c : connectionState) (s : RuntimeSnapshot) : directoryState → directoryState :=
  put_connection connectionID (c <| cn_snapshot := Some s |>).

(** [applyDelta]: the revision of the snapshot is set by the caller. *)
Definition applyDelta (order : map_order) (connectionID : string) (c : connectionState) (s : RuntimeSnapshot) (change : option DeltaChange)
    (d : directoryState) : result directoryState :=
  match change with
  | Some (AgentUpserted agent) =>
      let? admissionID := matchingDaemonAdmission order d connectionID c agent in
      let? agents := upsert_agent agent s.(rs_Agents) in
      Ok (put_snapshot connectionID c (mkSnapshot s.(rs_Revision) agents s.(rs_Sessions)) d
            <| dr_daemons := <[agent.(ap_DaemonId) := location_of c.(cn_attachment) connectionID agent.(ap_Generation)]> d.(dr_daemons) |>
            <| dr_admissions := delete admissionID d.(dr_admissions) |>)
  | Some (AgentRemoved id generation) =>
      let? agents := remove_agent id generation s.(rs_Agents) in
      Ok (put_snapshot connectionID c (mkSnapshot s.(rs_Revision) agents s.(rs_Sessions)) d
            <| dr_daemons := remove_index connectionID d.(dr_daemons) id |>)
  | Some (SessionUpserted session) =>
      let? sessions := upsert_session session s.(rs_Sessions) in
      Ok (put_snapshot connectionID c (mkSnapshot s.(rs_Revision) s.(rs_Agents) sessions) d
            <| dr_sessions := <[session.(cs_SessionId) := location_of c.(cn_attachment) connectionID session.(cs_Generation)]> d.(dr_sessions) |>)
  | Some (SessionRemoved id generation) =>
      let? sessions := remove_session id generation s.(rs_Sessions) in
      Ok (put_snapshot connectionID c (mkSnapshot s.(rs_Revision) s.(rs_Agents) sessions) d
            <| dr_sessions := remove_index connectionID d.(dr_sessions) id |>)
  | None => Err "runtime delta change is required"
  end.

Definition runtimeDeltaEvent (change : option DeltaChange) : string * string * OperatorEventOperation :=
  match change with
  | Some (AgentUpserted a) => ("daemon", a.(ap_DaemonId), OperationUpsert)
  | Some (AgentRemoved id _) => ("daemon", id, OperationDelete)
  | Some (SessionUpserted s) => ("session", s.(cs_SessionId), OperationUpsert)
  | Some (SessionRemoved id _) => ("session", id, OperationDelete)
  | None => ("", "", OperationUpsert)
  end%string.

(** ** The control stream *)
(** [now] is the clock. *)
Definition Attach (now : Z) (a : Attachment) (d : directoryState) : directoryState * option dir_error :=
  let a := mkAttachment (TrimSpace a.(at_EdgeID)) (TrimSpace a.(at_BootID)) (TrimSpace a.(at_ConnectionID)) (TrimSpace a.(at_SoftwareVersion))
             a.(at_Capabilities) (if IsZero a.(at_ConnectedAt) then now else a.(at_ConnectedAt)) in
  if String.eqb a.(at_EdgeID) "" || String.eqb a.(at_BootID) "" || String.eqb a.(at_ConnectionID) "" || String.eqb a.(at_SoftwareVersion) ""
  then (d, Some (DirError "Edge attachment identity and software version are required"))
  else match connection_at d a.(at_ConnectionID) with
       | Some _ => (d, Some (DirError "Edge connection already attached"))
       | None => (put_connection a.(at_ConnectionID) (mkConnection a None None zero_time) d, None)
       end.

Definition BeginSnapshot (id : string) (begin : option SnapshotBegin) (d : directoryState) : directoryState * option dir_error :=
  match requireConnection d id with
  | Err err => (d, Some (DirError err))
  | Ok c =>
      match begin with
      | Some b =>
          if String.eqb (TrimSpace b.(sb_SnapshotId)) "" then (d, Some (SyncError (currentRevision c) "snapshot identity is required"))
          else (put_connection id (c <| cn_staging := Some (mkBuilder b.(sb_SnapshotId) b.(sb_Revision) 0 [] []) |>) d, None)
      | None => (d, Some (SyncError (currentRevision c) "snapshot identity is required"))
      end
  end.

Definition AppendSnapshot (id : string) (chunk : option SnapshotChunk) (d : directoryState) : directoryState * option dir_error :=
  match requireConnection d id with
  | Err err => (d, Some (DirError err))
  | Ok c =>
      let mismatch := (d, Some (SyncError (currentRevision c) "snapshot chunk identity or sequence mismatch")) in
      match chunk, c.(cn_staging) with
      | Some k, Some b =>
          if negb (String.eqb k.(sc_SnapshotId) b.(bu_id)) || negb (k.(sc_ChunkIndex) =? b.(bu_nextChunk)) then mismatch
          else (put_connection id (c <| cn_staging := Some (mkBuilder b.(bu_id) b.(bu_revision) (u32 (b.(bu_nextChunk) + 1))
                                       (b.(bu_agents) ++ k.(sc_Agents)) (b.(bu_sessions) ++ k.(sc_Sessions))) |>) d, None)
      | _, _ => mismatch
      end
  end.

(** The snapshot that an end message completes. *)
Definition completed (staging : option snapshotBuilder) (stop : option SnapshotEnd) : result RuntimeSnapshot :=
  match stop, staging with
  | Some e, Some b =>
      if negb (String.eqb e.(se_SnapshotId) b.(bu_id)) || negb (e.(se_Revision) =? b.(bu_revision)) || negb (e.(se_ChunkCount) =? b.(bu_nextChunk))
      then Err "snapshot end does not match begin/chunks"
      else
        let? snapshot := NormalizeClone (mkSnapshot b.(bu_revision) b.(bu_agents) b.(bu_sessions)) in
        match Digest snapshot with
        | Ok digest => if String.eqb digest e.(se_Digest) then Ok snapshot else Err "snapshot digest mismatch"
        | Err _ => Err "snapshot digest mismatch"
        end
  | _, _ => Err "snapshot end does not match begin/chunks"
  end.

Definition CommitSnapshot (now : Z) (id : string) (stop : option SnapshotEnd) (d : directoryState) : directoryState * option dir_error :=
  match requireConnection d id with
  | Err err => (d, Some (DirError err))
  | Ok c =>
      match completed c.(cn_staging) stop with
      | Err reason => (put_connection id (c <| cn_staging := None |>) d, Some (SyncError (currentRevision c) reason))
      | Ok snapshot =>
          let edge := c.(cn_attachment).(at_EdgeID) in
          let oldID := current_id d edge in
          let d := if negb (String.eqb oldID "") && negb (String.eqb oldID id) then removeAdmissions oldID (removeIndexes oldID d) else d in
          let d := removeIndexes id d in
          let d := put_connection id (mkConnection c.(cn_attachment) (Some snapshot) None now) d in
          let d := d <| dr_current := <[edge := id]> d.(dr_current) |> in
          (dir_publish "edge" edge OperationReset (addIndexes id d), None)
      end
  end.

(** [ApplyDelta] on a delta that is not nil, with the parts of [ValidateDelta]. *)
Definition ApplyDelta (order : map_order) (id : string) (revision : Z) (change : option DeltaChange) (d : directoryState)
    : directoryState * option dir_error :=
  match ValidateDelta revision change with
  | Some err => (d, Some (DirError err))
  | None =>
      match requireCurrent d id with
      | Err err => (d, Some (DirError err))
      | Ok (c, s) =>
          let expected := u64 (s.(rs_Revision) + 1) in
          if negb (revision =? expected) then (d, Some (SyncError expected "runtime delta revision is not contiguous"))
          else match applyDelta order id c (mkSnapshot revision s.(rs_Agents) s.(rs_Sessions)) change d with
               | Err reason => (d, Some (SyncError expected reason))
               | Ok d => let '(kind, object, operation) := runtimeDeltaEvent change in (dir_publish kind object operation d, None)
               end
      end
  end.

Definition Heartbeat (now : Z) (id : string) (heartbeat : option Z) (d : directoryState) : directoryState * option dir_error :=
  match requireCurrent d id with
  | Err err => (d, Some (DirError err))
  | Ok (c, s) =>
      let mismatch := (d, Some (SyncError (u64 (s.(rs_Revision) + 1)) "heartbeat runtime revision mismatch")) in
      match heartbeat with
      | Some revision => if revision =? s.(rs_Revision) then (put_connection id (c <| cn_lastHeartbeat := now |>) d, None) else mismatch
      | None => mismatch
      end
  end.

(** What the timer of [Detach] runs after the grace period. *)
Definition Detach (id : string) (d : directoryState) : directoryState :=
  match connection_at d id with
  | None => d
  | Some c =>
      let edge := c.(cn_attachment).(at_EdgeID) in
      let d := if String.eqb (current_id d edge) id then
                 let d := removeIndexes id d in
                 dir_publish "edge" edge OperationDelete (d <| dr_current := delete edge d.(dr_current) |>)
               else d in
      let d := removeAdmissions id d in
      d <| dr_connections := delete id d.(dr_connections) |>
  end.

(** ** Admissions *)
Definition trim_admission (a : DaemonConnectionAdmission) : DaemonConnectionAdmission :=
  mkAdmission (TrimSpace a.(ad_AdmissionID)) (TrimSpace a.(ad_DaemonID)) (TrimSpace a.(ad_AccountID)) (TrimSpace a.(ad_AgentConnectionID)).
Definition admission_incomplete (a : DaemonConnectionAdmission) : bool :=
  String.eqb a.(ad_AdmissionID) "" || String.eqb a.(ad_DaemonID) "" || String.eqb a.(ad_AccountID) "" || String.eqb a.(ad_AgentConnectionID) "".

(** An admission of the same Agent connection. *)
Definition holds_agent (id agentConnectionID : string) (d : directoryState) : bool :=
  existsb (λ h, String.eqb h.(ha_controlConnectionID) id && String.eqb h.(ha_admission).(ad_AgentConnectionID) agentConnectionID)
    (map_to_list d.(dr_admissions)).*2.

Definition AdmitDaemonConnection (id : string) (admission : DaemonConnectionAdmission) (limit : Z) (d : directoryState)
    : directoryState * option dir_error :=
  let a := trim_admission admission in
  if admission_incomplete a || (limit =? 0)
  then (d, Some (DirError "daemon connection admission identity and positive limit are required"))
  else match requireCurrent d id with
       | Err err => (d, Some (DirError err))
       | Ok _ =>
           match d.(dr_admissions) !! a.(ad_AdmissionID) with
           | Some h => if String.eqb h.(ha_controlConnectionID) id && bool_decide (h.(ha_admission) = a) then (d, None)
                       else (d, Some (DirError "daemon connection admission identity conflicts"))
           | None =>
               if holds_agent id a.(ad_AgentConnectionID) d then (d, Some (DirError "agent connection already has a daemon admission"))
               else
                 let daemons := accountDaemonIDs d a.(ad_AccountID) in
                 if negb (bool_decide (a.(ad_DaemonID) ∈ daemons)) && (u32 (Z.of_nat (size daemons)) >=? limit)
                 then (d, Some (DirError ErrDaemonConnectionLimit))
                 else (d <| dr_admissions := <[a.(ad_AdmissionID) := mkHeld a id]> d.(dr_admissions) |>, None)
           end
       end.

Definition ReleaseDaemonConnection (id : string) (admission : DaemonConnectionAdmission) (d : directoryState)
    : directoryState * option dir_error :=
  let a := trim_admission admission in
  if admission_incomplete a then (d, Some (DirError "complete daemon connection admission identity is required"))
  else match requireConnection d id with
       | Err err => (d, Some (DirError err))
       | Ok _ =>
           match d.(dr_admissions) !! a.(ad_AdmissionID) with
           | None => (d, None)
           | Some h => if String.eqb h.(ha_controlConnectionID) id && bool_decide (h.(ha_admission) = a)
                       then (d <| dr_admissions := delete a.(ad_AdmissionID) d.(dr_admissions) |>, None)
                       else (d, Some (DirError ErrStaleConnection))
           end
       end.

(** ** Queries *)
Definition online (d : directoryState) (id : string) : option (connectionState * RuntimeSnapshot) :=
  match connection_at d id with Some c => (λ s, (c, s)) <$> c.(cn_snapshot) | None => None end.

Definition Edge (edgeID : string) (d : directoryState) : option EdgeProjection :=
  (λ cs, projection cs.1 cs.2) <$> online d (current_id d edgeID).

Definition projection_before (a b : EdgeProjection) : Prop := string_le a.(ep_Attachment).(at_EdgeID) b.(ep_Attachment).(at_EdgeID) = true.
#[export] Instance projection_before_dec : RelDecision projection_before.
Proof. intros a b. unfold projection_before. apply _. Defined.
Definition ListEdges (order : map_order) (d : directoryState) : list EdgeProjection :=
  merge_sort projection_before (omap (λ kv, (λ cs, projection cs.1 cs.2) <$> online d kv.2) (range order d.(dr_current))).

Definition LocateDaemon (daemonID : string) (d : directoryState) : option ObjectLocation := d.(dr_daemons) !! daemonID.
Definition LocateSession (sessionID : string) (d : directoryState) : option ObjectLocation := d.(dr_sessions) !! sessionID.

Definition Session (sessionID : string) (d : directoryState) : option (ClientSessionSummary * ObjectLocation) :=
  match d.(dr_sessions) !! TrimSpace sessionID with
  | None => None
  | Some l =>
      match online d l.(lo_ConnectionID) with
      | None => None
      | Some (_, s) =>
          if String.eqb (current_id d l.(lo_EdgeID)) l.(lo_ConnectionID) then
            (λ x, (x, l)) <$> head (filter (λ x, x.(cs_SessionId) = TrimSpace sessionID ∧ x.(cs_Generation) = l.(lo_Generation)) s.(rs_Sessions))
          else None
      end
  end.

(** [sort.Slice] leaves the order of equal sessions open: here it is that of the range. *)
Definition session_projection_before (a b : SessionProjection) : Prop :=
  string_le a.(sp_Session).(cs_SessionId) b.(sp_Session).(cs_SessionId) = true.
#[export] Instance session_projection_before_dec : RelDecision session_projection_before.
Proof. intros a b. unfold session_projection_before. apply _. Defined.
Definition ListSessions (order : map_order) (d : directoryState) : list SessionProjection :=
  merge_sort session_projection_before
    (concat (omap (λ kv,
       (λ cs, (λ x, mkSessionProjection x (d.(dr_sessions) !! x.(cs_SessionId)) cs.1.(cn_attachment).(at_ConnectedAt)) <$> cs.2.(rs_Sessions))
         <$> online d kv.2)
     (range order d.(dr_current)))).

(** ** Commands *)
Definition BeginCommand (correlationID objectID : string) (generation : Z) (daemon : bool) (d : directoryState)
    : directoryState * result (ObjectLocation * Z) :=
  if String.eqb correlationID "" || String.eqb objectID "" || (generation =? 0)
  then (d, Err "command correlation, object, and generation are required")
  else match d.(dr_pending) !! correlationID with
       | Some _ => (d, Err "command correlation already exists")
       | None =>
           match (if daemon then d.(dr_daemons) else d.(dr_sessions)) !! objectID with
           | None => (d, Err ErrStaleConnection)
           | Some l =>
               if negb (l.(lo_Generation) =? generation) then (d, Err ErrStaleConnection)
               else
                 let waiter := d.(dr_nextChannel) in
                 (d <| dr_nextChannel := waiter + 1 |>
                    <| dr_pending := <[correlationID := mkPendingCommand l waiter]> d.(dr_pending) |>, Ok (l, waiter))
           end
       end.

Definition CompleteCommand (connectionID : string) (res : option EdgeCommandResult) (d : directoryState)
    : directoryState * option dir_error :=
  match res with
  | None => (d, Some (DirError "command result is required"))
  | Some r =>
      if String.eqb r.(cr_CorrelationId) "" then (d, Some (DirError "command result is required"))
      else match d.(dr_pending) !! r.(cr_CorrelationId) with
           | None => (d, Some (DirError ErrStaleConnection))
           | Some p =>
               if negb (String.eqb p.(pc_location).(lo_ConnectionID) connectionID) then (d, Some (DirError ErrStaleConnection))
               else (d <| dr_pending := delete r.(cr_CorrelationId) d.(dr_pending) |>
                       <| dr_results := d.(dr_results) ++ [(p.(pc_result), Some r)] |>, None)
           end
  end.

Definition CancelCommand (correlationID : string) (d : directoryState) : directoryState :=
  match d.(dr_pending) !! correlationID with
  | None => d
  | Some p => d <| dr_pending := delete correlationID d.(dr_pending) |> <| dr_results := d.(dr_results) ++ [(p.(pc_result), None)] |>
  end.

(** ** Watchers *)
Definition Watch (d : directoryState) : directoryState * Z :=
  let id := u64 (d.(dr_nextWatcher) + 1) in
  (d <| dr_nextWatcher := id |> <| dr_mailboxes := <[id := []]> d.(dr_mailboxes) |> <| dr_watchers := {[ id ]} ∪ d.(dr_watchers) |>, id).

Definition unwatch (id : Z) (d : directoryState) : directoryState := d <| dr_watchers := d.(dr_watchers) ∖ {[ id ]} |>.

(** The consumer of a watcher takes the oldest event of its channel. *)
Definition take_event (id : Z) (d : directoryState) : directoryState * option OperatorRuntimeEvent :=
  match d.(dr_mailboxes) !! id with
  | Some (event :: rest) => (d <| dr_mailboxes := <[id := rest]> d.(dr_mailboxes) |>, Some event)
  | _ => (d, None)
  end.
End directory.
