(* ===== verification/DirectoryInv.v ===== *)
(** * The indexes of the directory

    What the two indexes promise: a location is that of the current connection of its Edge, which shows the object at
    that generation. [tables_ok] collects this with what the connections promise, and is kept by the parts of the
    operations. *)
From S2P Require Import Prelude GoStd EdgeState EdgeWorld EdgeInv Directory.
Local Open Scope Z_scope.
Local Open Scope bool_scope.
Local Open Scope list_scope.

(** ** Snapshots that are fit to be published *)
Definition agent_items (s : RuntimeSnapshot) : list (string * Z) := (λ a, (a.(ap_DaemonId), a.(ap_Generation))) <$> s.(rs_Agents).
Definition session_items (s : RuntimeSnapshot) : list (string * Z) := (λ x, (x.(cs_SessionId), x.(cs_Generation))) <$> s.(rs_Sessions).

Record snapshot_ok (s : RuntimeSnapshot) : Prop := {
  so_agents : NoDup (ap_DaemonId <$> s.(rs_Agents));
  so_sessions : NoDup (cs_SessionId <$> s.(rs_Sessions)) }.

Lemma agent_keys s : (agent_items s).*1 = ap_DaemonId <$> s.(rs_Agents).
Proof. unfold agent_items. by rewrite <- list_fmap_compose. Qed.
Lemma session_keys s : (session_items s).*1 = cs_SessionId <$> s.(rs_Sessions).
Proof. unfold session_items. by rewrite <- list_fmap_compose. Qed.

Lemma checked_agents seen l : check_agents seen l = None → NoDup (ap_DaemonId <$> l) ∧ ∀ a, a ∈ l → a.(ap_DaemonId) ∉ seen.
Proof.
  revert seen. induction l as [|a l IH]; intros seen; [split; [constructor|by intros a ?%elem_of_nil]|].
  cbn [check_agents fmap list_fmap]. destruct (validateAgent (Some a)); [done|]. case_bool_decide as Hs; [done|].
  intros [Hnd Hseen]%IH. split.
  - constructor; [|done]. intros (b & E & Hb)%list_elem_of_fmap. apply (Hseen b Hb). set_solver.
  - intros b [->|Hb]%elem_of_cons; [done|]. specialize (Hseen b Hb). set_solver.
Qed.

Lemma checked_sessions seen l : check_sessions seen l = None → NoDup (cs_SessionId <$> l) ∧ ∀ s, s ∈ l → s.(cs_SessionId) ∉ seen.
Proof.
  revert seen. induction l as [|a l IH]; intros seen; [split; [constructor|by intros a ?%elem_of_nil]|].
  cbn [check_sessions fmap list_fmap]. destruct (validateSession (Some a)); [done|]. case_bool_decide as Hs; [done|].
  intros [Hnd Hseen]%IH. split.
  - constructor; [|done]. intros (b & E & Hb)%list_elem_of_fmap. apply (Hseen b Hb). set_solver.
  - intros b [->|Hb]%elem_of_cons; [done|]. specialize (Hseen b Hb). set_solver.
Qed.

Lemma normalized_ok s n : NormalizeClone s = Ok n → snapshot_ok n.
Proof.
  unfold NormalizeClone. destruct (check_agents _ _) eqn:Ha; [done|]. destruct (check_sessions _ _) eqn:Hs; [done|]. intros [= <-].
  split; cbn [rs_Agents rs_Sessions]; [by apply checked_agents in Ha as [? _]|by apply checked_sessions in Hs as [? _]].
Qed.

(** ** Editing a snapshot *)
Section objects.
Context {A : Type} (key : A → string) (generation : A → Z) (regressed stale : goerr).

Lemma upsert_object_spec x l l' : NoDup (key <$> l) → upsert_object key generation regressed x l = Ok l' →
  NoDup (key <$> l') ∧ ∀ a, a ∈ l' ↔ a = x ∨ a ∈ l ∧ key a ≠ key x.
Proof.
  revert l'. induction l as [|c l IH]; intros l'; cbn [upsert_object fmap list_fmap].
  { intros _ [= <-]. split; [apply NoDup_singleton|]. intros a. set_solver. }
  rewrite NoDup_cons. intros [Hc Hnd]. destruct (String.eqb_spec (key c) (key x)) as [E|Hne].
  - destruct (_ <? _); [done|]. intros [= <-]. cbn [fmap list_fmap]. split; [by rewrite NoDup_cons, <- E|].
    intros a. rewrite !elem_of_cons. split; [intros [->|Ha]; [by left|]|intros [->|[[->|Ha] Hn]]; [by left|done|by right]].
    right. split; [by right|]. intros Ea. apply Hc. rewrite E, <- Ea. by apply list_elem_of_fmap_2.
  - destruct (upsert_object _ _ _ x l) as [l1|] eqn:El; [|done]. intros [= <-]. destruct (IH l1 Hnd eq_refl) as [Hnd1 Hin].
    cbn [fmap list_fmap]. split.
    + constructor; [|done]. intros (b & Eb & Hb)%list_elem_of_fmap. apply Hin in Hb as [->|[Hb _]]; [congruence|].
      apply Hc. rewrite Eb. by apply list_elem_of_fmap_2.
    + intros a. rewrite !elem_of_cons, Hin. split; [|by intros [->|[[->|Ha] Hn]]; eauto]. intros [->|[->|[Ha Hn]]]; eauto.
Qed.

Lemma remove_object_spec id g l l' : NoDup (key <$> l) → remove_object key generation stale id g l = Ok l' →
  NoDup (key <$> l') ∧ ∀ a, a ∈ l' ↔ a ∈ l ∧ key a ≠ id.
Proof.
  revert l'. induction l as [|c l IH]; intros l'; cbn [remove_object fmap list_fmap]; [done|].
  rewrite NoDup_cons. intros [Hc Hnd]. destruct (String.eqb_spec (key c) id) as [E|Hne]; cbn [andb].
  - destruct (_ =? _); [|destruct (remove_object _ _ _ id g l) as [l1|] eqn:El; [|done]]; intros [= <-].
    + split; [done|]. intros a. rewrite elem_of_cons. split; [|by intros [[->|Ha] Hn]]. intros Ha. split; [by right|].
      intros Ea. apply Hc. rewrite E, <- Ea. by apply list_elem_of_fmap_2.
    + exfalso. apply Hc. rewrite E. clear -El Hnd. revert l1 El. induction l as [|b l IH]; intros l1; cbn [remove_object]; [done|].
      destruct (String.eqb_spec (key b) id) as [Eb|]; cbn [andb]; [intros _; rewrite <- Eb; left|].
      destruct (remove_object _ _ _ id g l) as [l2|] eqn:El; [|done]. intros _. right. inversion Hnd. by eapply IH.
  - destruct (remove_object _ _ _ id g l) as [l1|] eqn:El; [|done]. intros [= <-]. destruct (IH l1 Hnd eq_refl) as [Hnd1 Hin].
    cbn [fmap list_fmap]. split.
    + constructor; [|done]. intros (b & Eb & Hb)%list_elem_of_fmap. apply Hin in Hb as [Hb _]. apply Hc. rewrite Eb. by apply list_elem_of_fmap_2.
    + intros a. rewrite !elem_of_cons, Hin. split; [by intros [->|[Ha Hn]]; eauto|]. intros [[->|Ha] Hn]; eauto.
Qed.
End objects.

(** ** Folds over an index *)
Lemma fold_remove id ids (m : gmap string ObjectLocation) x l :
  foldl (remove_index id) m ids !! x = Some l ↔ m !! x = Some l ∧ (x ∈ ids → l.(lo_ConnectionID) ≠ id).
Proof.
  revert m. induction ids as [|y ids IH]; intros m; cbn [foldl].
  { split; [intros H; split; [done|by intros ?%elem_of_nil]|by intros []]. }
  rewrite IH. unfold remove_index at 1. unfold location_connection. rewrite elem_of_cons.
  destruct (String.eqb_spec (default "" (lo_ConnectionID <$> m !! y)) id) as [E|E]; [rewrite lookup_delete_Some|].
  - split; [intros [[Hne Hm] Hin]; split; [done|]; by intros [->|?]; [done|auto]|].
    intros [Hm Hin]. split_and!; [|done|by auto]. intros ->. rewrite Hm in E. by apply Hin; [left|].
  - split; [intros [Hm Hin]; split; [done|]|intros [Hm Hin]; split; [done|by auto]].
    intros [->|?]; [|by auto]. rewrite Hm in E. done.
Qed.

Lemma fold_insert (f : Z → ObjectLocation) items (m : gmap string ObjectLocation) x l : NoDup items.*1 →
  foldl (λ m kv, <[kv.1 := f kv.2]> m) m items !! x = Some l
  ↔ (∃ g, (x, g) ∈ items ∧ l = f g) ∨ x ∉ items.*1 ∧ m !! x = Some l.
Proof.
  revert m. induction items as [|[k g] items IH]; intros m; cbn [foldl fmap list_fmap].
  { intros _. split; [intros H; right; split; [apply not_elem_of_nil|done]|by intros [(g & ?%elem_of_nil & _)|[_ ?]]]. }
  intros [Hk Hnd]%NoDup_cons. rewrite IH by done. cbn [fst snd]. rewrite not_elem_of_cons. split.
  - intros [(g' & Hin & ->)|[Hn Hm]]; [left; exists g'; by rewrite elem_of_cons; auto|].
    apply lookup_insert_Some in Hm as [[-> <-]|[Hne Hm]]; [left; exists g; split; [left|done]|right; split; [by split|done]].
  - intros [(g' & [[= -> ->]|Hin]%elem_of_cons & ->)|[[Hne Hn] Hm]].
    + right. split; [done|apply lookup_insert_eq].
    + left. by exists g'.
    + right. split; [done|]. by rewrite lookup_insert_ne.
Qed.

Lemma foldl_items {A B C} (f : C → B → C) (g : A → B) (l : list A) c : foldl (λ c a, f c (g a)) c l = foldl f c (g <$> l).
Proof. revert c. induction l as [|a l IH]; intros c; [done|]. apply IH. Qed.

(** ** What a location says *)
Section tables.
Implicit Types (d : directoryState) (items : RuntimeSnapshot → list (string * Z)).

Definition located d items (x : string) (l : ObjectLocation) : Prop :=
  ∃ c s, connection_at d l.(lo_ConnectionID) = Some c ∧ c.(cn_snapshot) = Some s
    ∧ d.(dr_current) !! c.(cn_attachment).(at_EdgeID) = Some l.(lo_ConnectionID)
    ∧ l = location_of c.(cn_attachment) l.(lo_ConnectionID) l.(lo_Generation) ∧ (x, l.(lo_Generation)) ∈ items s.
Definition index_ok d items (m : gmap string ObjectLocation) : Prop := ∀ x l, m !! x = Some l → located d items x l.

Record tables_ok d : Prop := {
  to_connection id c : connection_at d id = Some c →
    c.(cn_attachment).(at_ConnectionID) = id ∧ id ≠ "" ∧ c.(cn_attachment).(at_EdgeID) ≠ "";
  to_current e id : d.(dr_current) !! e = Some id →
    ∃ c s, connection_at d id = Some c ∧ c.(cn_snapshot) = Some s ∧ c.(cn_attachment).(at_EdgeID) = e;
  to_snapshot id c s : connection_at d id = Some c → c.(cn_snapshot) = Some s → snapshot_ok s;
  to_daemons : index_ok d agent_items d.(dr_daemons);
  to_sessions : index_ok d session_items d.(dr_sessions) }.

Definition tables d := (d.(dr_connections), d.(dr_current), d.(dr_daemons), d.(dr_sessions)).

Lemma tables_same d d' : tables d' = tables d → tables_ok d → tables_ok d'.
Proof.
  unfold tables. intros [= H1 H2 H3 H4] [T1 T2 T3 T4 T5]. unfold index_ok, located, connection_at in *.
  split; unfold index_ok, located, connection_at; rewrite ?H1, ?H2, ?H3, ?H4; assumption.
Qed.

(** Nothing points at a connection any more once its indexes are removed. *)
Lemma removed_indexes d id : tables_ok d →
  let d' := removeIndexes id d in
  (∀ x l, d'.(dr_daemons) !! x = Some l ↔ d.(dr_daemons) !! x = Some l ∧ l.(lo_ConnectionID) ≠ id)
  ∧ (∀ x l, d'.(dr_sessions) !! x = Some l ↔ d.(dr_sessions) !! x = Some l ∧ l.(lo_ConnectionID) ≠ id)
  ∧ d'.(dr_connections) = d.(dr_connections) ∧ d'.(dr_current) = d.(dr_current).
Proof.
  intros T. unfold removeIndexes.
  assert (Hall : ∀ items (m : gmap string ObjectLocation) ids, index_ok d items m →
      (∀ c s, connection_at d id = Some c → c.(cn_snapshot) = Some s → ids = (items s).*1) →
      ∀ x l, m !! x = Some l ∧ (x ∈ ids → l.(lo_ConnectionID) ≠ id) ↔ m !! x = Some l ∧ l.(lo_ConnectionID) ≠ id).
  { intros items m ids Hm Hids x l. split; [|by intros []]. intros [Hx Hin]. split; [done|]. intros E.
    destruct (Hm x l Hx) as (c & s & Hc & Hs & _ & _ & Hi). rewrite E in Hc. apply Hin; [|done].
    rewrite (Hids c s Hc Hs). by apply (list_elem_of_fmap_2 fst) in Hi. }
  destruct (connection_at d id ≫= cn_snapshot) as [s|] eqn:Es; cbn.
  - apply bind_Some in Es as (c & Hc & Hs). split_and!; try done.
    + intros x l. rewrite fold_remove. apply (Hall agent_items); [apply T|]. intros c' s' Hc' Hs'. rewrite agent_keys. congruence.
    + intros x l. rewrite fold_remove. apply (Hall session_items); [apply T|]. intros c' s' Hc' Hs'. rewrite session_keys. congruence.
  - assert (Hno : ∀ items m, index_ok d items m → ∀ x l, m !! x = Some l ↔ m !! x = Some l ∧ l.(lo_ConnectionID) ≠ id).
    { intros items m Hm x l. split; [|by intros []]. intros Hx. split; [done|]. intros E.
      destruct (Hm x l Hx) as (c & s & Hc & Hs & _). rewrite E in Hc. rewrite Hc in Es. cbn in Es. congruence. }
    split_and!; try done; [apply (Hno agent_items), T|apply (Hno session_items), T].
Qed.

Lemma index_part d items (m m' : gmap string ObjectLocation) : (∀ x l, m' !! x = Some l → m !! x = Some l) → index_ok d items m → index_ok d items m'.
Proof. intros Hm Hi x l Hx. by apply Hi, Hm. Qed.

(** A connection changes outside of what the indexes see. *)
Lemma put_quiet d id c c' : tables_ok d → connection_at d id = Some c → c'.(cn_attachment) = c.(cn_attachment) → c'.(cn_snapshot) = c.(cn_snapshot) →
  tables_ok (put_connection id c' d).
Proof.
  intros [T1 T2 T3 T4 T5] Hc Ha Hs.
  assert (Hat : ∀ i b, connection_at (put_connection id c' d) i = Some b →
      ∃ b0, connection_at d i = Some b0 ∧ b.(cn_attachment) = b0.(cn_attachment) ∧ b.(cn_snapshot) = b0.(cn_snapshot)).
  { intros i b. unfold connection_at, put_connection. cbn. intros [[-> <-]|[Hne Hb]]%lookup_insert_Some; [by exists c|by exists b]. }
  assert (Hto : ∀ i b, connection_at d i = Some b →
      ∃ b', connection_at (put_connection id c' d) i = Some b' ∧ b'.(cn_attachment) = b.(cn_attachment) ∧ b'.(cn_snapshot) = b.(cn_snapshot)).
  { intros i b Hb. unfold connection_at, put_connection. cbn. destruct (decide (id = i)) as [<-|Hne].
    - exists c'. rewrite lookup_insert_eq. split_and!; congruence.
    - exists b. by rewrite lookup_insert_ne. }
  assert (Hix : ∀ items m, index_ok d items m → index_ok (put_connection id c' d) items m).
  { intros items m Hm x l Hx. destruct (Hm x l Hx) as (b & s & Hb & Hsb & Hcur & Hl & Hin).
    destruct (Hto _ _ Hb) as (b' & Hb' & Ea & Es). exists b', s. rewrite Ea, Es. done. }
  split.
  - intros i b (b0 & Hb & -> & _)%Hat. by apply T1.
  - intros e i (b & s & Hb & Hsb & He)%T2. destruct (Hto _ _ Hb) as (b' & Hb' & Ea & Es). exists b', s. by rewrite Ea, Es.
  - intros i b s (b0 & Hb & _ & ->)%Hat. by eapply T3.
  - by apply Hix.
  - by apply Hix.
Qed.

(** A snapshot is published: what an index then holds of the connection is in the new snapshot, and nothing in it is of
    the connection that was current before. *)
Definition reindexed d (id : string) (a : Attachment) (listed : list (string * Z)) (m m' : gmap string ObjectLocation) : Prop :=
  ∀ x l, m' !! x = Some l →
    (∃ g, l = location_of a id g ∧ (x, g) ∈ listed)
    ∨ l.(lo_ConnectionID) ≠ id ∧ d.(dr_current) !! a.(at_EdgeID) ≠ Some l.(lo_ConnectionID) ∧ m !! x = Some l.

Lemma publish_ok d d' id c c' s :
  tables_ok d → connection_at d id = Some c → c'.(cn_attachment) = c.(cn_attachment) → c'.(cn_snapshot) = Some s → snapshot_ok s →
  d'.(dr_connections) = <[id := c']> d.(dr_connections) → d'.(dr_current) = <[c.(cn_attachment).(at_EdgeID) := id]> d.(dr_current) →
  reindexed d id c.(cn_attachment) (agent_items s) d.(dr_daemons) d'.(dr_daemons) →
  reindexed d id c.(cn_attachment) (session_items s) d.(dr_sessions) d'.(dr_sessions) → tables_ok d'.
Proof.
  intros [T1 T2 T3 T4 T5] Hc Ha Hs Hok Ec Ecur Hd Hse.
  assert (Hat : ∀ i b, connection_at d' i = Some b → i = id ∧ b = c' ∨ i ≠ id ∧ connection_at d i = Some b).
  { intros i b. unfold connection_at. rewrite Ec. intros [[-> <-]|[Hne Hb]]%lookup_insert_Some; [by left|by right]. }
  assert (Hid : connection_at d' id = Some c') by (unfold connection_at; rewrite Ec; apply lookup_insert_eq).
  assert (Hto : ∀ i b, i ≠ id → connection_at d i = Some b → connection_at d' i = Some b)
    by (intros i b Hne Hb; unfold connection_at; rewrite Ec; by rewrite lookup_insert_ne).
  assert (Hix : ∀ items m m', index_ok d items m → reindexed d id c.(cn_attachment) (items s) m m' → index_ok d' items m').
  { intros items m m' Hm Hr x l Hx. destruct (Hr x l Hx) as [(g & -> & Hin)|(Hne & Hcur & Hx0)].
    - exists c', s. cbn. rewrite Ha. split_and!; try done. rewrite Ecur. apply lookup_insert_eq.
    - destruct (Hm x l Hx0) as (b & sb & Hb & Hsb & Hcb & Hl & Hin). exists b, sb. split_and!; try done; [by apply Hto|].
      rewrite Ecur, lookup_insert_ne; [done|]. intros E. apply Hcur. by rewrite E. }
  split.
  - intros i b [[-> ->]|[Hne Hb]]%Hat; [rewrite Ha|]; by apply T1.
  - intros e i. rewrite Ecur. intros [[<- <-]|[Hne He]]%lookup_insert_Some; [exists c', s; by rewrite Ha|].
    destruct (T2 e i He) as (b & sb & Hb & Hsb & Hbe). destruct (decide (i = id)) as [->|Hni].
    + rewrite Hc in Hb. injection Hb as <-. congruence.
    + exists b, sb. split_and!; [by apply Hto|done|done].
  - intros i b sb [[-> ->]|[Hne Hb]]%Hat Hsb; [congruence|by eapply T3].
  - by eapply Hix.
  - by eapply Hix.
Qed.

(** What an index gets to hold of the rest of a snapshot, and of one that is all indexed again. *)
Lemma reindexed_edit d id c s items (s' : RuntimeSnapshot) (m m' : gmap string ObjectLocation) y :
  tables_ok d → connection_at d id = Some c → c.(cn_snapshot) = Some s → d.(dr_current) !! c.(cn_attachment).(at_EdgeID) = Some id →
  index_ok d items m → (∀ x g, (x, g) ∈ items s → x ≠ y → (x, g) ∈ items s') →
  (∀ x l, m' !! x = Some l → x ≠ y ∧ m !! x = Some l ∨ x = y ∧ (l.(lo_ConnectionID) ≠ id ∧ m !! x = Some l
                                                                  ∨ ∃ g, l = location_of c.(cn_attachment) id g ∧ (y, g) ∈ items s')) →
  reindexed d id c.(cn_attachment) (items s') m m'.
Proof.
  intros T Hc Hs Hcur Hm Hin Hm' x l Hx. destruct (Hm' x l Hx) as [[Hne Hx0]|[-> [[Hne Hx0]|Hg]]]; [|right|by left].
  - destruct (decide (l.(lo_ConnectionID) = id)) as [E|Hnid]; [left|right].
    + destruct (Hm x l Hx0) as (b & sb & Hb & Hsb & _ & Hl & Hi). rewrite E in Hb, Hl. rewrite Hc in Hb. injection Hb as <-.
      rewrite Hs in Hsb. injection Hsb as <-. eexists. split; [exact Hl|]. by apply Hin.
    + split_and!; [done| |done]. rewrite Hcur. congruence.
  - split_and!; [done| |done]. rewrite Hcur. congruence.
Qed.

Lemma reindexed_same d id c s items (s' : RuntimeSnapshot) (m : gmap string ObjectLocation) :
  tables_ok d → connection_at d id = Some c → c.(cn_snapshot) = Some s → d.(dr_current) !! c.(cn_attachment).(at_EdgeID) = Some id →
  index_ok d items m → items s' = items s → reindexed d id c.(cn_attachment) (items s') m m.
Proof.
  intros T Hc Hs Hcur Hm He x l Hx. destruct (decide (l.(lo_ConnectionID) = id)) as [E|Hnid]; [left|right].
  - destruct (Hm x l Hx) as (b & sb & Hb & Hsb & _ & Hl & Hi). rewrite E in Hb, Hl. rewrite Hc in Hb. injection Hb as <-.
    rewrite Hs in Hsb. injection Hsb as <-. eexists. split; [exact Hl|]. by rewrite He.
  - split_and!; [done| |done]. rewrite Hcur. congruence.
Qed.
End tables.

(** * The directory keeps its promises

    The requests as a type, the states they reach, and that every request keeps [tables_ok]. *)

(** ** The requests *)
Inductive dir_op :=
| DAttach (a : Attachment)
| DBegin (id : string) (begin : option SnapshotBegin)
| DAppend (id : string) (chunk : option SnapshotChunk)
| DCommit (id : string) (stop : option SnapshotEnd)
| DDelta (id : string) (revision : Z) (change : option DeltaChange)
| DHeartbeat (id : string) (heartbeat : option Z)
| DDetach (id : string)
| DAdmit (id : string) (a : DaemonConnectionAdmission) (limit : Z)
| DRelease (id : string) (a : DaemonConnectionAdmission)
| DBeginCommand (correlationID objectID : string) (generation : Z) (daemon : bool)
| DComplete (id : string) (res : option EdgeCommandResult)
| DCancel (correlationID : string)
| DWatch
| DUnwatch (id : Z)
| DTake (id : Z).

Section directory.
Context (mailboxSize : Z) (marshalDigest : RuntimeSnapshot → result string).
Implicit Types (d : directoryState).

(** [now] and [order] are the clock and the order of maps at the request. *)
Definition run_dir (now : Z) (order : map_order) (o : dir_op) d : directoryState :=
  match o with
  | DAttach a => (Attach now a d).1
  | DBegin id b => (BeginSnapshot id b d).1
  | DAppend id k => (AppendSnapshot id k d).1
  | DCommit id e => (CommitSnapshot mailboxSize marshalDigest now id e d).1
  | DDelta id r c => (ApplyDelta mailboxSize order id r c d).1
  | DHeartbeat id h => (Heartbeat now id h d).1
  | DDetach id => Detach mailboxSize id d
  | DAdmit id a limit => (AdmitDaemonConnection id a limit d).1
  | DRelease id a => (ReleaseDaemonConnection id a d).1
  | DBeginCommand c o g daemon => (BeginCommand c o g daemon d).1
  | DComplete id r => (CompleteCommand id r d).1
  | DCancel c => CancelCommand c d
  | DWatch => (Watch d).1
  | DUnwatch id => unwatch id d
  | DTake id => (take_event id d).1
  end.

Inductive dir_reaches (instanceID : string) : list dir_op → directoryState → Prop :=
| reaches_new : dir_reaches instanceID [] (new_directory instanceID)
| reaches_snoc ops d now order o : dir_reaches instanceID ops d → OrderOk order → dir_reaches instanceID (ops ++ [o]) (run_dir now order o d).

(** ** Guards *)
Lemma require_connection d id c : requireConnection d id = Ok c → connection_at d id = Some c.
Proof. unfold requireConnection. destruct (connection_at d id); [|done]. by intros [= ->]. Qed.

Lemma require_current d id c s : tables_ok d → requireCurrent d id = Ok (c, s) →
  connection_at d id = Some c ∧ c.(cn_snapshot) = Some s ∧ d.(dr_current) !! c.(cn_attachment).(at_EdgeID) = Some id ∧ snapshot_ok s.
Proof.
  intros T. unfold requireCurrent. destruct (connection_at d id) as [c'|] eqn:Hc; [|done]. destruct (cn_snapshot c') as [s'|] eqn:Hs; [|done].
  unfold current_id. destruct (String.eqb_spec (default "" (dr_current d !! at_EdgeID (cn_attachment c'))) id) as [E|]; [|done].
  intros [= <- <-]. split_and!; [done..| |by eapply to_snapshot].
  destruct (to_connection d T _ _ Hc) as (_ & Hne & _). destruct (dr_current d !! _); cbn in E; congruence.
Qed.

Lemma publish_tables kind id o d : tables (dir_publish mailboxSize kind id o d) = tables d.
Proof. unfold dir_publish. by destruct (_ || _). Qed.

Lemma admissions_tables id d : tables (removeAdmissions id d) = tables d.
Proof. done. Qed.

(** ** Each request *)
Lemma new_tables instanceID : tables_ok (new_directory instanceID).
Proof.
  split; unfold connection_at, index_ok; cbn; intros; by match goal with H : ∅ !! _ = Some _ |- _ => rewrite lookup_empty in H end.
Qed.

Lemma attach_tables now a d : tables_ok d → tables_ok (Attach now a d).1.
Proof.
  intros T. unfold Attach. set (a' := mkAttachment _ _ _ _ _ _). destruct (_ || _) eqn:Hg; [done|].
  destruct (connection_at d (at_ConnectionID a')) eqn:Hc; [done|]. cbn [fst].
  apply orb_false_iff in Hg as [[[Hg1 Hg2]%orb_false_iff Hg3]%orb_false_iff Hg4].
  apply String.eqb_neq in Hg1, Hg3. set (d' := put_connection _ _ _).
  assert (Hat : ∀ i b, connection_at d' i = Some b → i = at_ConnectionID a' ∧ b = mkConnection a' None None zero_time ∨ connection_at d i = Some b).
  { intros i b. unfold connection_at, d', put_connection. cbn [dr_connections set_field]. intros [[<- <-]|[_ Hb]]%lookup_insert_Some; [by left|by right]. }
  assert (Hto : ∀ i b, connection_at d i = Some b → connection_at d' i = Some b).
  { intros i b Hb. unfold connection_at, d', put_connection in *. cbn. rewrite lookup_insert_ne; [done|]. intros <-. unfold connection_at in Hc. cbn in Hc. congruence. }
  assert (Hix : ∀ items m, index_ok d items m → index_ok d' items m).
  { intros items m Hm x l Hx. destruct (Hm x l Hx) as (b & s & Hb & Hr). exists b, s. split; [by apply Hto|done]. }
  destruct T as [T1 T2 T3 T4 T5]. split.
  - intros i b [[-> ->]|Hb]%Hat; [done|by apply T1].
  - intros e i (b & s & Hb & Hr)%T2. exists b, s. split; [by apply Hto|done].
  - intros i b s [[-> ->]|Hb]%Hat; [done|by eapply T3].
  - by apply Hix.
  - by apply Hix.
Qed.

Lemma begin_tables id b d : tables_ok d → tables_ok (BeginSnapshot id b d).1.
Proof.
  intros T. unfold BeginSnapshot. destruct (requireConnection d id) as [c|] eqn:Hc; [|done]. apply require_connection in Hc.
  destruct b as [b|]; [|done]. destruct (String.eqb _ _); [done|]. by eapply put_quiet.
Qed.

Lemma append_tables id k d : tables_ok d → tables_ok (AppendSnapshot id k d).1.
Proof.
  intros T. unfold AppendSnapshot. destruct (requireConnection d id) as [c|] eqn:Hc; [|done]. apply require_connection in Hc.
  destruct k as [k|], (cn_staging c) as [b|]; try done. destruct (_ || _); [done|]. by eapply put_quiet.
Qed.

Lemma heartbeat_tables now id h d : tables_ok d → tables_ok (Heartbeat now id h d).1.
Proof.
  intros T. unfold Heartbeat. destruct (requireCurrent d id) as [[c s]|] eqn:Hc; [|done].
  apply require_current in Hc as (Hc & _); [|done]. destruct h as [r|]; [|done]. destruct (_ =? _); [|done]. by eapply put_quiet.
Qed.

Lemma located_same items d d' x l : d'.(dr_connections) = d.(dr_connections) → d'.(dr_current) = d.(dr_current) →
  located d items x l → located d' items x l.
Proof. intros E1 E2. unfold located, connection_at. by rewrite E1, E2. Qed.

Lemma remove_tables d id : tables_ok d → tables_ok (removeIndexes id d).
Proof.
  intros T. destruct (removed_indexes d id T) as (Hd & Hs & Ec & Ecur). destruct T as [T1 T2 T3 T4 T5].
  split; unfold connection_at; rewrite ?Ec, ?Ecur; try done.
  - intros x l [Hx _]%Hd. eapply located_same; [done..|]. by apply T4.
  - intros x l [Hx _]%Hs. eapply located_same; [done..|]. by apply T5.
Qed.

(** A snapshot that is complete and agrees with its digest. *)
Lemma completed_ok staging stop s : completed marshalDigest staging stop = Ok s → snapshot_ok s.
Proof.
  unfold completed. destruct stop as [e|]; [|done]. destruct staging as [b|]; [|done]. destruct (_ || _); [done|].
  destruct (NormalizeClone _) as [n|] eqn:Hn; cbn [result_bind]; [|done]. destruct (Digest _ n); [|done]. destruct (String.eqb _ _); [|done].
  intros [= <-]. by eapply normalized_ok.
Qed.

Lemma added_indexes d id c s : connection_at d id = Some c → c.(cn_snapshot) = Some s → snapshot_ok s →
  let d' := addIndexes id d in
  (∀ x l, d'.(dr_daemons) !! x = Some l ↔ (∃ g, (x, g) ∈ agent_items s ∧ l = location_of c.(cn_attachment) id g)
                                           ∨ x ∉ (agent_items s).*1 ∧ d.(dr_daemons) !! x = Some l)
  ∧ (∀ x l, d'.(dr_sessions) !! x = Some l ↔ (∃ g, (x, g) ∈ session_items s ∧ l = location_of c.(cn_attachment) id g)
                                           ∨ x ∉ (session_items s).*1 ∧ d.(dr_sessions) !! x = Some l)
  ∧ d'.(dr_connections) = d.(dr_connections) ∧ d'.(dr_current) = d.(dr_current) ∧ d'.(dr_admissions) = d.(dr_admissions).
Proof.
  intros Hc Hs Hok. unfold addIndexes. rewrite Hc, Hs. cbn. split_and!; try done; intros x l.
  - rewrite (foldl_items (λ m kv, <[kv.1 := location_of (cn_attachment c) id kv.2]> m) (λ a, (ap_DaemonId a, ap_Generation a))).
    apply (fold_insert (location_of (cn_attachment c) id)). rewrite agent_keys. apply Hok.
  - rewrite (foldl_items (λ m kv, <[kv.1 := location_of (cn_attachment c) id kv.2]> m) (λ a, (cs_SessionId a, cs_Generation a))).
    apply (fold_insert (location_of (cn_attachment c) id)). rewrite session_keys. apply Hok.
Qed.

(** The state when the new snapshot is put in place: nothing points at this connection nor at the one it replaces. *)
Definition cleared (id edge : string) d : directoryState :=
  let oldID := current_id d edge in
  removeIndexes id (if negb (String.eqb oldID "") && negb (String.eqb oldID id) then removeAdmissions oldID (removeIndexes oldID d) else d).

Lemma cleared_spec d id edge : tables_ok d →
  let d' := cleared id edge d in
  tables_ok d' ∧ d'.(dr_connections) = d.(dr_connections) ∧ d'.(dr_current) = d.(dr_current)
  ∧ (∀ x l, d'.(dr_daemons) !! x = Some l → d.(dr_daemons) !! x = Some l ∧ l.(lo_ConnectionID) ≠ id ∧ d.(dr_current) !! edge ≠ Some l.(lo_ConnectionID))
  ∧ (∀ x l, d'.(dr_sessions) !! x = Some l → d.(dr_sessions) !! x = Some l ∧ l.(lo_ConnectionID) ≠ id ∧ d.(dr_current) !! edge ≠ Some l.(lo_ConnectionID)).
Proof.
  intros T. unfold cleared. set (old := current_id d edge).
  assert (Hold : ∀ k, d.(dr_current) !! edge = Some k → old = k ∧ k ≠ "").
  { intros k Hk. split; [unfold old, current_id; by rewrite Hk|]. destruct (to_current d T _ _ Hk) as (c & s & Hc & _). by eapply to_connection in Hc as (_ & ? & _). }
  destruct (String.eqb_spec old "") as [E|Hne]; cbn [negb andb].
  { destruct (removed_indexes d id T) as (Hd & Hs & Ec & Ecur). split_and!; [by apply remove_tables|done..| |].
    - intros x l [Hx Hn]%Hd. split_and!; [done..|]. intros [Hk Hk0]%Hold. congruence.
    - intros x l [Hx Hn]%Hs. split_and!; [done..|]. intros [Hk Hk0]%Hold. congruence. }
  destruct (String.eqb_spec old id) as [E|Hni]; cbn [negb].
  { destruct (removed_indexes d id T) as (Hd & Hs & Ec & Ecur). split_and!; [by apply remove_tables|done..| |].
    - intros x l [Hx Hn]%Hd. split_and!; [done..|]. intros [Hk Hk0]%Hold. congruence.
    - intros x l [Hx Hn]%Hs. split_and!; [done..|]. intros [Hk Hk0]%Hold. congruence. }
  pose proof (remove_tables d old T) as T'. destruct (removed_indexes d old T) as (Hd & Hs & Ec & Ecur).
  set (d1 := removeAdmissions old (removeIndexes old d)).
  assert (T1 : tables_ok d1) by (by apply (tables_same (removeIndexes old d))).
  destruct (removed_indexes d1 id T1) as (Hd' & Hs' & Ec' & Ecur'). split_and!; [by apply remove_tables|by rewrite Ec'|by rewrite Ecur'| |].
  - intros x l [[Hx Ho]%Hd Hn]%Hd'. split_and!; [done..|]. intros [Hk Hk0]%Hold. congruence.
  - intros x l [[Hx Ho]%Hs Hn]%Hs'. split_and!; [done..|]. intros [Hk Hk0]%Hold. congruence.
Qed.

Lemma commit_tables now id stop d : tables_ok d → tables_ok (CommitSnapshot mailboxSize marshalDigest now id stop d).1.
Proof.
  intros T. unfold CommitSnapshot. destruct (requireConnection d id) as [c|] eqn:Hc; [|done]. apply require_connection in Hc.
  destruct (completed marshalDigest (cn_staging c) stop) as [s|err] eqn:Hs; cbn [fst]; [|by eapply put_quiet]. apply completed_ok in Hs.
  fold (cleared id (at_EdgeID (cn_attachment c)) d). set (edge := at_EdgeID (cn_attachment c)).
  destruct (cleared_spec d id edge T) as (T' & Ec & Ecur & Hd & Hse). set (d1 := cleared id edge d) in *.
  set (c' := mkConnection (cn_attachment c) (Some s) None now). set (d2 := put_connection id c' d1 <| dr_current := <[edge := id]> d1.(dr_current) |>).
  eapply (tables_same (addIndexes id d2)); [apply publish_tables|].
  assert (Hc2 : connection_at d2 id = Some c') by (unfold connection_at, d2; apply lookup_insert_eq).
  destruct (added_indexes d2 id c' s Hc2 eq_refl Hs) as (Hd2 & Hs2 & Ec2 & Ecur2 & _).
  assert (Hc1 : connection_at d1 id = Some c) by (unfold connection_at; by rewrite Ec).
  eapply (publish_ok d1 _ id c c' s T' Hc1); [done..|by rewrite Ec2|by rewrite Ecur2| |].
  - intros x l [(g & Hin & ->)|[_ Hx]]%Hd2; [left; by exists g|right]. pose proof (Hd x l Hx) as (_ & ? & ?). rewrite Ecur. done.
  - intros x l [(g & Hin & ->)|[_ Hx]]%Hs2; [left; by exists g|right]. pose proof (Hse x l Hx) as (_ & ? & ?). rewrite Ecur. done.
Qed.

Lemma remove_index_lookup id (m : gmap string ObjectLocation) y x l :
  remove_index id m y !! x = Some l → m !! x = Some l ∧ (x = y → l.(lo_ConnectionID) ≠ id).
Proof. pose proof (fold_remove id [y] m x l) as H. cbn in H. rewrite H, list_elem_of_singleton. done. Qed.

(** The new snapshot of a delta, in place of the one it changes. *)
Lemma delta_tables order id c s revision change d d' :
  tables_ok d → connection_at d id = Some c → c.(cn_snapshot) = Some s → d.(dr_current) !! c.(cn_attachment).(at_EdgeID) = Some id →
  applyDelta order id c (mkSnapshot revision s.(rs_Agents) s.(rs_Sessions)) change d = Ok d' → tables_ok d'.
Proof.
  intros T Hc Hs Hcur. pose proof (to_snapshot d T _ _ _ Hc Hs) as [Hna Hns].
  assert (Ecur : d.(dr_current) = <[c.(cn_attachment).(at_EdgeID) := id]> d.(dr_current)) by (by rewrite insert_id).
  unfold applyDelta. cbn [rs_Agents rs_Sessions rs_Revision]. destruct change as [[a|y g|x0|y g]|]; [..|done].
  - destruct (matchingDaemonAdmission _ _ _ _ _) as [k|]; cbn [result_bind]; [|done].
    destruct (upsert_agent _ _) as [l|] eqn:E; cbn [result_bind]; [|done]. intros [= <-].
    apply upsert_object_spec in E as [Hnd Hin]; [|done]. set (s' := mkSnapshot revision l (rs_Sessions s)).
    eapply (publish_ok d _ id c (mkConnection c.(cn_attachment) (Some s') c.(cn_staging) c.(cn_lastHeartbeat)) s' T Hc); [done|done|by split|reflexivity|exact Ecur| |].
    + eapply (reindexed_edit d id c s agent_items s' _ _ (ap_DaemonId a) T Hc Hs Hcur); [apply T| |].
      * intros x g (b & [= -> ->] & Hb)%list_elem_of_fmap Hne. unfold agent_items. apply list_elem_of_fmap. exists b. split; [done|]. apply Hin. by right.
      * intros x l' Hx. cbn in Hx. apply lookup_insert_Some in Hx as [[<- <-]|[Hne Hx]]; [right|by left]. split; [done|right]. eexists. split; [done|].
        unfold agent_items. apply list_elem_of_fmap. exists a. split; [done|]. apply Hin. by left.
    + exact (reindexed_same d id c s session_items s' _ T Hc Hs Hcur (to_sessions d T) eq_refl).
  - destruct (remove_agent _ _ _) as [l|] eqn:E; cbn [result_bind]; [|done]. intros [= <-].
    apply remove_object_spec in E as [Hnd Hin]; [|done]. set (s' := mkSnapshot revision l (rs_Sessions s)).
    eapply (publish_ok d _ id c (mkConnection c.(cn_attachment) (Some s') c.(cn_staging) c.(cn_lastHeartbeat)) s' T Hc); [done|done|by split|reflexivity|exact Ecur| |].
    + eapply (reindexed_edit d id c s agent_items s' _ _ y T Hc Hs Hcur); [apply T| |].
      * intros x g' (b & [= -> ->] & Hb)%list_elem_of_fmap Hne. unfold agent_items. apply list_elem_of_fmap. exists b. split; [done|]. by apply Hin.
      * intros x l' Hx. cbn in Hx. apply remove_index_lookup in Hx as [Hx Hn]. destruct (decide (x = y)) as [->|]; [right|by left]. split; [done|]. left. by auto.
    + exact (reindexed_same d id c s session_items s' _ T Hc Hs Hcur (to_sessions d T) eq_refl).
  - destruct (upsert_session _ _) as [l|] eqn:E; cbn [result_bind]; [|done]. intros [= <-].
    apply upsert_object_spec in E as [Hnd Hin]; [|done]. set (s' := mkSnapshot revision (rs_Agents s) l).
    eapply (publish_ok d _ id c (mkConnection c.(cn_attachment) (Some s') c.(cn_staging) c.(cn_lastHeartbeat)) s' T Hc); [done|done|by split|reflexivity|exact Ecur|exact (reindexed_same d id c s agent_items s' _ T Hc Hs Hcur (to_daemons d T) eq_refl)|].
    eapply (reindexed_edit d id c s session_items s' _ _ (cs_SessionId x0) T Hc Hs Hcur); [apply T| |].
    + intros x g (b & [= -> ->] & Hb)%list_elem_of_fmap Hne. unfold session_items. apply list_elem_of_fmap. exists b. split; [done|]. apply Hin. by right.
    + intros x l' Hx. cbn in Hx. apply lookup_insert_Some in Hx as [[<- <-]|[Hne Hx]]; [right|by left]. split; [done|right]. eexists. split; [done|].
      unfold session_items. apply list_elem_of_fmap. exists x0. split; [done|]. apply Hin. by left.
  - destruct (remove_session _ _ _) as [l|] eqn:E; cbn [result_bind]; [|done]. intros [= <-].
    apply remove_object_spec in E as [Hnd Hin]; [|done]. set (s' := mkSnapshot revision (rs_Agents s) l).
    eapply (publish_ok d _ id c (mkConnection c.(cn_attachment) (Some s') c.(cn_staging) c.(cn_lastHeartbeat)) s' T Hc); [done|done|by split|reflexivity|exact Ecur|exact (reindexed_same d id c s agent_items s' _ T Hc Hs Hcur (to_daemons d T) eq_refl)|].
    eapply (reindexed_edit d id c s session_items s' _ _ y T Hc Hs Hcur); [apply T| |].
    + intros x g' (b & [= -> ->] & Hb)%list_elem_of_fmap Hne. unfold session_items. apply list_elem_of_fmap. exists b. split; [done|]. by apply Hin.
    + intros x l' Hx. cbn in Hx. apply remove_index_lookup in Hx as [Hx Hn]. destruct (decide (x = y)) as [->|]; [right|by left]. split; [done|]. left. by auto.
Qed.

Lemma apply_delta_tables order id r change d : tables_ok d → tables_ok (ApplyDelta mailboxSize order id r change d).1.
Proof.
  intros T. unfold ApplyDelta. destruct (ValidateDelta _ _); [done|]. destruct (requireCurrent d id) as [[c s]|] eqn:Hc; [|done].
  apply require_current in Hc as (Hc & Hs & Hcur & Hok); [|done]. destruct (negb _); [done|].
  destruct (applyDelta _ _ _ _ _ _) as [d'|] eqn:E; [|done]. destruct (runtimeDeltaEvent change) as [[kind x] o]. cbn [fst].
  eapply (tables_same d'); [apply publish_tables|]. by eapply delta_tables.
Qed.

Lemma detach_tables id d : tables_ok d → tables_ok (Detach mailboxSize id d).
Proof.
  intros T. unfold Detach. destruct (connection_at d id) as [c|] eqn:Hc; [|done]. set (edge := at_EdgeID (cn_attachment c)).
  destruct (to_connection d T _ _ Hc) as (_ & Hne & _). destruct (removed_indexes d id T) as (Hd & Hs & Ec & Ecur).
  (* the connections of the others and what points at them stay *)
  assert (Hdrop : ∀ d1 : directoryState, d1.(dr_connections) = delete id d.(dr_connections) →
      (∀ e k, d1.(dr_current) !! e = Some k ↔ d.(dr_current) !! e = Some k ∧ k ≠ id) →
      (∀ x l, d1.(dr_daemons) !! x = Some l → d.(dr_daemons) !! x = Some l ∧ l.(lo_ConnectionID) ≠ id) →
      (∀ x l, d1.(dr_sessions) !! x = Some l → d.(dr_sessions) !! x = Some l ∧ l.(lo_ConnectionID) ≠ id) → tables_ok d1).
  { intros d1 E1 Hcur1 Hd1 Hs1. destruct T as [T1 T2 T3 T4 T5].
    assert (Hix : ∀ items m, (∀ x l, m !! x = Some l → located d items x l ∧ l.(lo_ConnectionID) ≠ id) → index_ok d1 items m).
    { intros items m Hm x l Hx. destruct (Hm x l Hx) as [(b & s & Hb & Hsb & Hcb & Hr) Hn]. exists b, s.
      unfold connection_at. rewrite E1, lookup_delete_ne, Hcur1 by congruence. done. }
    split; unfold connection_at; rewrite ?E1.
    - intros i b [_ Hb]%lookup_delete_Some. by apply T1.
    - intros e i [He Hi]%Hcur1. destruct (T2 e i He) as (b & s & Hb & Hr). exists b, s. rewrite lookup_delete_ne by congruence. done.
    - intros i b s [_ Hb]%lookup_delete_Some. by eapply T3.
    - apply Hix. intros x l [Hx Hn]%Hd1. split; [by apply T4|done].
    - apply Hix. intros x l [Hx Hn]%Hs1. split; [by apply T5|done]. }
  unfold current_id. destruct (String.eqb_spec (default "" (dr_current d !! edge)) id) as [E|E].
  - assert (Hcur : d.(dr_current) !! edge = Some id) by (destruct (dr_current d !! edge); cbn in E; congruence).
    set (d1 := dir_publish _ _ _ _ _). assert (Et : tables d1 = tables ((removeIndexes id d) <| dr_current := delete edge (removeIndexes id d).(dr_current) |>)) by apply publish_tables.
    unfold tables in Et. cbn in Et. injection Et as E1 E2 E3 E4. apply Hdrop; cbn.
    + by rewrite E1, Ec.
    + rewrite E2, Ecur. intros e k. rewrite lookup_delete_Some. split; [|by intros [He Hk]; split; [congruence|]].
      intros [Hee He]. split; [done|]. intros ->. destruct (to_current d T _ _ He) as (b & s & Hb & _ & Hbe). unfold edge in *. congruence.
    + intros x l. rewrite E3. apply Hd.
    + intros x l. rewrite E4. apply Hs.
  - assert (Hcur : d.(dr_current) !! edge ≠ Some id) by (intros H; rewrite H in E; done).
    assert (Hno : ∀ items m, index_ok d items m → ∀ x l, m !! x = Some l → l.(lo_ConnectionID) ≠ id).
    { intros items m Hm x l Hx Hl. destruct (Hm x l Hx) as (b & s & Hb & _ & Hcb & _). rewrite Hl in *. rewrite Hc in Hb. injection Hb as <-. done. }
    apply Hdrop; cbn; [done| | |].
    + intros e k. split; [|by intros []]. intros He. split; [done|]. intros ->. destruct (to_current d T _ _ He) as (b & s & Hb & _ & Hbe). unfold edge in *. congruence.
    + intros x l Hx. split; [done|]. exact (Hno agent_items _ (to_daemons d T) x l Hx).
    + intros x l Hx. split; [done|]. exact (Hno session_items _ (to_sessions d T) x l Hx).
Qed.

(** The other requests leave these tables alone. *)
Definition other_tables (o : dir_op) : Prop :=
  match o with
  | DAdmit _ _ _ | DRelease _ _ | DBeginCommand _ _ _ _ | DComplete _ _ | DCancel _ | DWatch | DUnwatch _ | DTake _ => True
  | _ => False
  end.

Lemma run_other now order o d : other_tables o → tables (run_dir now order o d) = tables d.
Proof.
  destruct o; cbn [other_tables run_dir]; try done; intros _.
  - unfold AdmitDaemonConnection. destruct (_ || _); [done|]. destruct (requireCurrent d id); [|done].
    destruct (dr_admissions d !! _); [by destruct (_ && _)|]. destruct (holds_agent _ _ _); [done|]. by destruct (_ && _).
  - unfold ReleaseDaemonConnection. destruct (admission_incomplete _); [done|]. destruct (requireConnection d id); [|done].
    destruct (dr_admissions d !! _); [|done]. by destruct (_ && _).
  - unfold BeginCommand. destruct (_ || _); [done|]. destruct (dr_pending d !! _); [done|]. destruct ((if daemon then _ else _) !! _); [|done]. by destruct (negb _).
  - unfold CompleteCommand. destruct res; [|done]. destruct (String.eqb _ _); [done|]. destruct (dr_pending d !! _); [|done]. by destruct (negb _).
  - unfold CancelCommand. by destruct (dr_pending d !! _).
  - unfold take_event. by destruct (dr_mailboxes d !! _) as [[]|].
Qed.

Lemma run_tables now order o d : tables_ok d → tables_ok (run_dir now order o d).
Proof.
  intros T. destruct o; try (apply (tables_same d); [by apply run_other|done]); cbn [run_dir];
    eauto using attach_tables, begin_tables, append_tables, commit_tables, apply_delta_tables, heartbeat_tables, detach_tables.
Qed.

Lemma reached_tables instanceID ops d : dir_reaches instanceID ops d → tables_ok d.
Proof. induction 1; [apply new_tables|by apply run_tables]. Qed.
End directory.
