(* ===== verification/DirectoryTheorems.v ===== *)
(** * What the directory promises *)
From S2P Require Import Prelude GoStd EdgeState EdgeWorld EdgeInv Directory DirectoryInv.
Local Open Scope Z_scope.
Local Open Scope bool_scope.
Local Open Scope list_scope.

(** ** The daemons of an account *)
Section account.
Implicit Types (d : directoryState).

(** A connection counts an agent of the account, or an admission does. *)
Definition counted_online (acc x : string) d : Prop :=
  ∃ e id c s a, d.(dr_current) !! e = Some id ∧ connection_at d id = Some c ∧ c.(cn_snapshot) = Some s
    ∧ a ∈ s.(rs_Agents) ∧ a.(ap_AccountId) = acc ∧ a.(ap_DaemonId) = x.
Definition counted_admitted (acc x : string) d : Prop :=
  ∃ k h, d.(dr_admissions) !! k = Some h ∧ h.(ha_admission).(ad_AccountID) = acc ∧ h.(ha_admission).(ad_DaemonID) = x.

Lemma elem_account d acc x : x ∈ accountDaemonIDs d acc ↔ counted_online acc x d ∨ counted_admitted acc x d.
Proof.
  unfold accountDaemonIDs. rewrite elem_of_union, !elem_of_union_list.  split; (intros [H|H]; [left|right]).
  - destruct H as (X & HX & Hx). apply list_elem_of_fmap in HX as (id & -> & Hid). apply list_elem_of_fmap in Hid as ([e id'] & -> & Hin).
    apply elem_of_map_to_list in Hin. cbn [snd] in Hx. destruct (connection_at d id') as [c|] eqn:Hc; cbn in Hx; [|set_solver].
    unfold online_of in Hx. destruct (cn_snapshot c) as [s|] eqn:Hs; [|set_solver]. apply elem_of_list_to_set, list_elem_of_fmap in Hx as (a & -> & Ha).
    apply list_elem_of_filter in Ha as [Hacc Ha]. by exists e, id', c, s, a.
  - destruct H as (X & HX & Hx). apply list_elem_of_fmap in HX as (h & -> & Hh). apply list_elem_of_fmap in Hh as ([k h'] & -> & Hin).
    apply elem_of_map_to_list in Hin. cbn [snd] in Hx. destruct (String.eqb_spec (ad_AccountID (ha_admission h')) acc) as [E|]; [|set_solver].
    apply elem_of_singleton in Hx as ->. by exists k, h'.
  - destruct H as (e & id & c & s & a & He & Hc & Hs & Ha & Hacc & Hx). exists (online_of acc c). split.
    + apply list_elem_of_fmap. exists id. rewrite Hc. split; [done|]. apply list_elem_of_fmap. exists (e, id). split; [done|]. by apply elem_of_map_to_list.
    + unfold online_of. rewrite Hs. apply elem_of_list_to_set, list_elem_of_fmap. exists a. split; [done|]. by apply list_elem_of_filter.
  - destruct H as (k & h & Hk & Hacc & Hx). exists {[ x ]}. split; [|by apply elem_of_singleton].
    apply list_elem_of_fmap. exists h. rewrite Hacc, String.eqb_refl, Hx. split; [done|]. apply list_elem_of_fmap. exists (k, h). split; [done|]. by apply elem_of_map_to_list.
Qed.

(** The tables the count reads. *)
Definition counts d := (d.(dr_connections), d.(dr_current), d.(dr_admissions)).

Lemma counted d acc e id c s a : d.(dr_current) !! e = Some id → connection_at d id = Some c → c.(cn_snapshot) = Some s →
  a ∈ s.(rs_Agents) → a.(ap_AccountId) = acc → a.(ap_DaemonId) ∈ accountDaemonIDs d acc.
Proof. intros. apply elem_account. left. by exists e, id, c, s, a. Qed.

(** Nothing is counted that was not. *)
Lemma account_shrinks d d' acc :
  (∀ e id c s a, d'.(dr_current) !! e = Some id → connection_at d' id = Some c → c.(cn_snapshot) = Some s → a ∈ s.(rs_Agents) →
     a.(ap_AccountId) = acc → a.(ap_DaemonId) ∈ accountDaemonIDs d acc) →
  (∀ k h, d'.(dr_admissions) !! k = Some h → d.(dr_admissions) !! k = Some h) →
  accountDaemonIDs d' acc ⊆ accountDaemonIDs d acc.
Proof.
  intros Hon Had x [(e & id & c & s & a & He & Hc & Hs & Ha & Hacc & <-)|(k & h & Hk%Had & Hacc & Hx)]%elem_account; [by eapply Hon|].
  apply elem_account. right. by exists k, h.
Qed.

Lemma account_same d d' acc : counts d' = counts d → accountDaemonIDs d' acc ⊆ accountDaemonIDs d acc.
Proof.
  unfold counts. intros [= E1 E2 E3]. apply account_shrinks; unfold connection_at; rewrite ?E1, ?E2, ?E3; [|done]. intros. by eapply counted.
Qed.

(** A connection changes, or comes without a snapshot. *)
Lemma account_put d acc id c' :
  (∀ s', c'.(cn_snapshot) = Some s' → ∃ c s, connection_at d id = Some c ∧ c.(cn_snapshot) = Some s ∧ s.(rs_Agents) = s'.(rs_Agents)) →
  accountDaemonIDs (put_connection id c' d) acc ⊆ accountDaemonIDs d acc.
Proof.
  intros Hc. apply account_shrinks; [|done]. intros e i b s a He Hb Hs Ha Hacc. unfold connection_at, put_connection in Hb. cbn in He, Hb.
  apply lookup_insert_Some in Hb as [[<- <-]|[Hne Hb]]; [|by eapply counted].
  destruct (Hc s Hs) as (c0 & s0 & Hc0 & Hs0 & E). rewrite <- E in Ha. by eapply counted.
Qed.

Section step.
Context (mailboxSize : Z) (marshalDigest : RuntimeSnapshot → result string).

Lemma publish_counts kind id o d : counts (dir_publish mailboxSize kind id o d) = counts d.
Proof. unfold dir_publish. by destruct (_ || _). Qed.

(** What a request may add to an account: an admission within the limit. An Edge that commits a snapshot, or that
    publishes agents without having promised to have them admitted, is not asked. *)
Definition within_limit (acc : string) (limit : Z) d (o : dir_op) : Prop :=
  match o with
  | DCommit _ _ => False
  | DDelta id _ (Some (AgentUpserted _)) =>
      ∀ c, connection_at d id = Some c → DAEMON_CONNECTION_ADMISSION ∈ c.(cn_attachment).(at_Capabilities)
  | DAdmit _ a l => TrimSpace a.(ad_AccountID) = acc → l ≤ limit
  | _ => True
  end.

Lemma upsert_counted order id c s revision agent d d' acc :
  tables_ok d → OrderOk order → connection_at d id = Some c → c.(cn_snapshot) = Some s → d.(dr_current) !! c.(cn_attachment).(at_EdgeID) = Some id →
  DAEMON_CONNECTION_ADMISSION ∈ c.(cn_attachment).(at_Capabilities) →
  applyDelta order id c (mkSnapshot revision s.(rs_Agents) s.(rs_Sessions)) (Some (AgentUpserted agent)) d = Ok d' →
  accountDaemonIDs d' acc ⊆ accountDaemonIDs d acc.
Proof.
  intros T Ho Hc Hs Hcur Hcap. unfold applyDelta, matchingDaemonAdmission. rewrite bool_decide_true by done. cbn [negb].
  destruct (head _) as [[k h]|] eqn:Hh; cbn [result_bind]; [|done].
  apply head_Some_elem_of, list_elem_of_filter in Hh as [Hm Hin]. apply elem_of_range in Hin; [|done]. cbn [fst snd] in *.
  destruct (upsert_agent _ _) as [l|] eqn:E; cbn [result_bind]; [|done]. intros [= <-].
  apply upsert_object_spec in E as [_ Hl]; [|by apply (to_snapshot d T _ _ _ Hc Hs)]. cbn [rs_Agents] in Hl.
  unfold matches_admission in Hm. rewrite !andb_true_iff, !String.eqb_eq in Hm. destruct Hm as [[[_ Hd] Ha] _].
  apply account_shrinks; cbn.
  - intros e i b sb x He Hb Hsb Hx Hacc. unfold connection_at, put_snapshot, put_connection in Hb. cbn in Hb.
    apply lookup_insert_Some in Hb as [[<- <-]|[Hne Hb]]; [|by eapply counted]. cbn in Hsb. injection Hsb as <-. cbn in Hx.
    apply Hl in Hx as [->|[Hx _]]; [|by eapply counted]. apply elem_account. right. exists k, h. by rewrite Hd, Ha.
  - intros k' h'. by intros [_ ?]%lookup_delete_Some.
Qed.

Lemma delta_counted order id r change d acc :
  tables_ok d → OrderOk order → within_limit acc 0 d (DDelta id r change) →
  accountDaemonIDs (ApplyDelta mailboxSize order id r change d).1 acc ⊆ accountDaemonIDs d acc.
Proof.
  intros T Ho Hw. unfold ApplyDelta. destruct (ValidateDelta _ _); [done|]. destruct (requireCurrent d id) as [[c s]|] eqn:Hc; [|done].
  apply require_current in Hc as (Hc & Hs & Hcur & Hok); [|done]. destruct (negb _); [done|].
  destruct (applyDelta _ _ _ _ _ _) as [d'|] eqn:E; [|done]. destruct (runtimeDeltaEvent change) as [[kind x] o]. cbn [fst].
  transitivity (accountDaemonIDs d' acc); [apply account_same, publish_counts|].
  destruct change as [[a|y g|x0|y g]|]; [by eapply upsert_counted; eauto|..|done]; revert E; unfold applyDelta; cbn [rs_Agents rs_Sessions rs_Revision].
  - destruct (remove_agent _ _ _) as [l|] eqn:E; cbn [result_bind]; [|done]. intros [= <-].
    apply remove_object_spec in E as [_ Hl]; [|apply Hok]. apply account_shrinks; [|done]. cbn.
    intros e i b sb z He Hb Hsb Hz Hacc. unfold connection_at, put_snapshot, put_connection in Hb. cbn in Hb.
    apply lookup_insert_Some in Hb as [[<- <-]|[Hne Hb]]; [|by eapply counted]. cbn in Hsb. injection Hsb as <-. cbn in Hz.
    apply Hl in Hz as [Hz _]. by eapply counted.
  - destruct (upsert_session _ _) as [l|]; cbn [result_bind]; [|done]. intros [= <-].
    etransitivity; [|apply (account_put d acc id (mkConnection c.(cn_attachment) (Some (mkSnapshot r (rs_Agents s) l)) c.(cn_staging) c.(cn_lastHeartbeat)))];
      [by apply account_same|]. cbn. intros s' [= <-]. by exists c, s.
  - destruct (remove_session _ _ _) as [l|]; cbn [result_bind]; [|done]. intros [= <-].
    etransitivity; [|apply (account_put d acc id (mkConnection c.(cn_attachment) (Some (mkSnapshot r (rs_Agents s) l)) c.(cn_staging) c.(cn_lastHeartbeat)))];
      [by apply account_same|]. cbn. intros s' [= <-]. by exists c, s.
Qed.

Lemma detach_counted id d acc : tables_ok d → accountDaemonIDs (Detach mailboxSize id d) acc ⊆ accountDaemonIDs d acc.
Proof.
  intros T. unfold Detach. destruct (connection_at d id) as [c|] eqn:Hc; [|done]. destruct (removed_indexes d id T) as (_ & _ & Ec & Ecur).
  set (d1 := if String.eqb _ _ then _ else _).
  assert (H1 : d1.(dr_connections) = d.(dr_connections) ∧ (∀ e k, d1.(dr_current) !! e = Some k → d.(dr_current) !! e = Some k) ∧ d1.(dr_admissions) = d.(dr_admissions)).
  { unfold d1. destruct (String.eqb _ _); [|done]. cbn zeta. set (d2 := _ <| dr_current := _ |>).
    pose proof (publish_counts "edge" (at_EdgeID (cn_attachment c)) OperationDelete d2) as E. unfold counts in E. injection E as -> -> ->.
    unfold d2. cbn. rewrite Ec. split_and!; [done| |].
    - rewrite Ecur. by intros e k [_ ?]%lookup_delete_Some.
    - unfold removeIndexes. by destruct (connection_at d id ≫= cn_snapshot). }
  destruct H1 as (E1 & E2 & E3). apply account_shrinks; cbn.
  - intros e i b s a He%E2 Hb Hs Ha Hacc. unfold connection_at in Hb. cbn in Hb. rewrite E1 in Hb. apply lookup_delete_Some in Hb as [_ Hb]. by eapply counted.
  - intros k h. rewrite E3. by intros [? _]%map_lookup_filter_Some.
Qed.

Lemma admit_counted id a limit bound d acc :
  (TrimSpace a.(ad_AccountID) = acc → limit ≤ bound) → bound < 2 ^ 32 →
  Z.of_nat (size (accountDaemonIDs d acc)) ≤ bound →
  Z.of_nat (size (accountDaemonIDs (AdmitDaemonConnection id a limit d).1 acc)) ≤ bound.
Proof.
  intros Hl Hb Hs. unfold AdmitDaemonConnection. set (a' := trim_admission a). destruct (_ || _); [done|].
  destruct (requireCurrent d id); [|done]. destruct (dr_admissions d !! ad_AdmissionID a') eqn:Hk; [by destruct (_ && _)|].
  destruct (holds_agent _ _ _); [done|]. cbn zeta. destruct (_ && _) eqn:Hg; [done|]. cbn [fst]. set (d' := d <| dr_admissions := _ |>).
  assert (Hsub : ∀ x, x ∈ accountDaemonIDs d' acc → x ∈ accountDaemonIDs d acc ∨ x = a'.(ad_DaemonID) ∧ TrimSpace a.(ad_AccountID) = acc).
  { intros x [Hx|(k & h & Hkh & Hacc & Hx)]%elem_account; [left; apply elem_account; by left|]. unfold d' in Hkh. cbn in Hkh.
    apply lookup_insert_Some in Hkh as [[<- <-]|[_ Hkh]]; [by right|]. left. apply elem_account. right. by exists k, h. }
  destruct (decide (TrimSpace (ad_AccountID a) = acc)) as [E|Hne]; cycle 1.
  { etransitivity; [|exact Hs]. apply inj_le, subseteq_size. intros x Hx%Hsub. naive_solver. }
  specialize (Hl E). change (ad_AccountID a') with (TrimSpace (ad_AccountID a)) in Hg. rewrite E in Hg.
  destruct (decide (ad_DaemonID a' ∈ accountDaemonIDs d acc)) as [Hin|Hnin].
  { etransitivity; [|exact Hs]. apply inj_le, subseteq_size. intros x [Hx|[-> _]]%Hsub; done. }
  rewrite bool_decide_false in Hg by done. cbn [negb andb] in Hg. rewrite u32_small in Hg by lia.
  assert (Hsz : (size (accountDaemonIDs d' acc) ≤ size (accountDaemonIDs d acc ∪ {[ ad_DaemonID a' ]}))%nat).
  { apply subseteq_size. intros x [Hx|[-> _]]%Hsub; set_solver. }
  rewrite size_union, size_singleton in Hsz by set_solver. lia.
Qed.

Lemma step_counted now order o bound d acc : tables_ok d → OrderOk order → within_limit acc bound d o → bound < 2 ^ 32 →
  Z.of_nat (size (accountDaemonIDs d acc)) ≤ bound → Z.of_nat (size (accountDaemonIDs (run_dir mailboxSize marshalDigest now order o d) acc)) ≤ bound.
Proof.
  intros T Ho Hw Hb Hs.
  assert (Hshrink : accountDaemonIDs (run_dir mailboxSize marshalDigest now order o d) acc ⊆ accountDaemonIDs d acc →
    Z.of_nat (size (accountDaemonIDs (run_dir mailboxSize marshalDigest now order o d) acc)) ≤ bound) by (intros Hsub%subseteq_size; lia).
  destruct o; cbn [within_limit] in Hw; 
    lazymatch goal with
    | |- context [DAdmit _ _ _] => exact (admit_counted _ _ _ _ _ _ Hw Hb Hs)
    | |- _ => apply Hshrink; cbn [run_dir]
    end.
  - unfold Attach. destruct (_ || _); [done|]. destruct (connection_at d _); [done|]. by apply account_put.
  - unfold BeginSnapshot. destruct (requireConnection d id) as [c|] eqn:Hc; [|done]. apply require_connection in Hc. destruct begin; [|done].
    destruct (String.eqb _ _); [done|]. apply account_put. cbn. intros s' Hs'. by exists c, s'.
  - unfold AppendSnapshot. destruct (requireConnection d id) as [c|] eqn:Hc; [|done]. apply require_connection in Hc.
    destruct chunk, (cn_staging c); try done. destruct (_ || _); [done|]. apply account_put. cbn. intros s' Hs'. by exists c, s'.
  - done.
  - by apply delta_counted.
  - unfold Heartbeat. destruct (requireCurrent d id) as [[c s]|] eqn:Hc; [|done]. apply require_current in Hc as (Hc & Hcs & _); [|done].
    destruct heartbeat; [|done]. destruct (_ =? _); [|done]. apply account_put. cbn. intros s' Hs'. by exists c, s'.
  - by apply detach_counted.
  - unfold ReleaseDaemonConnection. destruct (admission_incomplete _); [done|]. destruct (requireConnection d id); [|done].
    destruct (dr_admissions d !! _); [|done]. destruct (_ && _); [|done]. apply account_shrinks; [intros; by eapply counted|].
    cbn. by intros k h [_ ?]%lookup_delete_Some.
  - apply account_same. unfold BeginCommand. destruct (_ || _); [done|]. destruct (dr_pending d !! _); [done|]. destruct ((if daemon then _ else _) !! _); [|done]. by destruct (negb _).
  - apply account_same. unfold CompleteCommand. destruct res; [|done]. destruct (String.eqb _ _); [done|]. destruct (dr_pending d !! _); [|done]. by destruct (negb _).
  - apply account_same. unfold CancelCommand. by destruct (dr_pending d !! _).
  - by apply account_same.
  - by apply account_same.
  - apply account_same. unfold take_event. by destruct (dr_mailboxes d !! _) as [[]|].
Qed.
End step.
End account.

(** ** Two Edges *)
Module DirectoryDemo.
Definition digest (s : RuntimeSnapshot) : result string := Ok "digest"%string.
Definition edge (name : string) (capabilities : list EdgeCapability) : Attachment :=
  mkAttachment name "boot" ("c-" +:+ name) "1.0" capabilities 1.
(** An Edge attaches and publishes a snapshot without agents. *)
Definition join (name : string) (capabilities : list EdgeCapability) : list dir_op :=
  [DAttach (edge name capabilities); DBegin ("c-" +:+ name) (Some (mkBegin "s" 1)); DCommit ("c-" +:+ name) (Some (mkEnd "s" 1 0 "digest"))].
Definition agent (id : string) (generation : Z) : AgentPresence :=
  mkAgent id "account" "boot" "agent-connection" generation "binding" (Some (mkTimestamp 1 0)).
Definition run (ops : list dir_op) : directoryState :=
  foldl (λ d o, run_dir 8 digest 0 id_order o d) (new_directory "controller") ops.

Lemma demo_reaches ops : dir_reaches 8 digest "controller" ops (run ops).
Proof.
  induction ops as [|o ops IH] using rev_ind; [constructor|]. unfold run. rewrite foldl_app. cbn [foldl].
  apply (reaches_snoc 8 digest "controller" ops (run ops) 0 id_order o IH). apply _.
Qed.

Definition ops : list dir_op :=
  join "a" [DAEMON_CONNECTION_ADMISSION]
  ++ [DAdmit "c-a" (mkAdmission "ad" "daemon" "account" "agent-connection") 1; DDelta "c-a" 2 (Some (AgentUpserted (agent "daemon" 7)))].
Definition d : directoryState := run ops.

Example demo_located :
  LocateDaemon "daemon" d = Some (mkLocation "a" "boot" "c-a" 7) ∧ accountDaemonIDs d "account" = {[ "daemon"%string ]}
  ∧ (AdmitDaemonConnection "c-a" (mkAdmission "ad2" "other" "account" "agent-2") 1 d).2 = Some (DirError ErrDaemonConnectionLimit).
Proof. vm_compute. by split_and!. Qed.

(** Messages of two Edges may come in any order: the late end of the daemon's visit to Edge b hides it at Edge a. *)
Example demo_hidden :
  let d := run (join "a" [] ++ join "b" []
    ++ [DDelta "c-a" 2 (Some (AgentUpserted (agent "daemon" 1))); DDelta "c-a" 3 (Some (AgentRemoved "daemon" 1));
        DDelta "c-a" 4 (Some (AgentUpserted (agent "daemon" 2))); DDelta "c-b" 2 (Some (AgentUpserted (agent "daemon" 1)));
        DDelta "c-b" 3 (Some (AgentRemoved "daemon" 1))]) in
  LocateDaemon "daemon" d = None ∧ (ep_AgentCount <$> Edge "a" d) = Some 1.
Proof. vm_compute. by split_and!. Qed.
End DirectoryDemo.

(** C25: The directory never points astray: a location it gives for a daemon or a session is on the current control
    connection of its Edge, whose published snapshot shows the object at exactly that generation, with the identity and
    boot the connection was attached with. *)
Theorem locations_sound mailboxSize marshalDigest instanceID ops d :
  dir_reaches mailboxSize marshalDigest instanceID ops d →
  (∀ id l, LocateDaemon id d = Some l → ∃ c s a, online d l.(lo_ConnectionID) = Some (c, s)
     ∧ current_id d l.(lo_EdgeID) = l.(lo_ConnectionID) ∧ l = location_of c.(cn_attachment) l.(lo_ConnectionID) a.(ap_Generation)
     ∧ a ∈ s.(rs_Agents) ∧ a.(ap_DaemonId) = id)
  ∧ (∀ id l, LocateSession id d = Some l → ∃ c s x, online d l.(lo_ConnectionID) = Some (c, s)
     ∧ current_id d l.(lo_EdgeID) = l.(lo_ConnectionID) ∧ l = location_of c.(cn_attachment) l.(lo_ConnectionID) x.(cs_Generation)
     ∧ x ∈ s.(rs_Sessions) ∧ x.(cs_SessionId) = id).
Proof.
  intros [_ _ _ Hd Hs]%reached_tables. split; intros id l Hl.
  - destruct (Hd id l Hl) as (c & s & Hc & Hsn & Hcur & E & Hin). unfold agent_items in Hin. apply list_elem_of_fmap in Hin as (a & [= -> Eg] & Ha).
    assert (Ee : l.(lo_EdgeID) = at_EdgeID (cn_attachment c)) by (by rewrite E).
    exists c, s, a. unfold online, current_id. rewrite Hc, Hsn, <- Eg, Ee, Hcur. by split_and!.
  - destruct (Hs id l Hl) as (c & s & Hc & Hsn & Hcur & E & Hin). unfold session_items in Hin. apply list_elem_of_fmap in Hin as (x & [= -> Eg] & Hx).
    assert (Ee : l.(lo_EdgeID) = at_EdgeID (cn_attachment c)) by (by rewrite E).
    exists c, s, x. unfold online, current_id. rewrite Hc, Hsn, <- Eg, Ee, Hcur. by split_and!.
Qed.

Lemma locations_sound_witness :
  ∃ c s a, online DirectoryDemo.d "c-a" = Some (c, s) ∧ a ∈ s.(rs_Agents) ∧ a.(ap_DaemonId) = "daemon"%string.
Proof.
  pose proof (locations_sound 8 DirectoryDemo.digest "controller" DirectoryDemo.ops DirectoryDemo.d (DirectoryDemo.demo_reaches _)) as [H _].
  destruct (H "daemon"%string (mkLocation "a" "boot" "c-a" 7)) as (c & s & a & H1 & _ & _ & H2 & H3); [vm_compute; reflexivity|].
  exists c, s, a. split; [exact H1|split; [exact H2|exact H3]].
Defined.

(** The daemon limit of an account holds over all Edges: the distinct daemons that are online or admitted stay
    within a bound under every request whose admissions for the account name a limit within it, as long as each Edge
    that publishes an agent has promised to have it admitted. Only the commit of a whole snapshot is not checked. *)
Theorem daemon_limit mailboxSize marshalDigest instanceID ops d now order o acc bound
    (Hreach : dir_reaches mailboxSize marshalDigest instanceID ops d) (Horder : OrderOk order)
    (Hstep : within_limit acc bound d o) (Hbound : bound < 2 ^ 32) (Hcount : Z.of_nat (size (accountDaemonIDs d acc)) ≤ bound) :
  Z.of_nat (size (accountDaemonIDs (run_dir mailboxSize marshalDigest now order o d) acc)) ≤ bound.
Proof. apply step_counted; try done. by eapply reached_tables. Qed.

Lemma daemon_limit_witness :
  let o := DAdmit "c-a" (mkAdmission "ad2" "other" "account" "agent-2") 2 in
  Z.of_nat (size (accountDaemonIDs (run_dir 8 DirectoryDemo.digest 0 id_order o DirectoryDemo.d) "account")) ≤ 2.
Proof.
  apply (daemon_limit 8 DirectoryDemo.digest "controller" DirectoryDemo.ops DirectoryDemo.d 0 id_order _ "account" 2 (DirectoryDemo.demo_reaches _) id_order_ok).
  - intros _. lia.
  - reflexivity.
  - vm_compute. discriminate.
Defined.
