(* ===== verification/EdgeLink.v ===== *)
(** * The control stream between an Edge and the Controller

    [cloud/edge/controllerlink/link.go], the part of the link's loop that sends the runtime snapshot, the deltas and the
    heartbeats and reacts to what the Controller says of them; and [cloud/controller/control/service.go], the loop that
    applies the events of the stream to the directory. Messages about certificates, configuration, the Relay and
    commands pass through the same queues and are not of interest here. *)
From S2P Require Import Prelude GoStd EdgeState Directory.
Local Open Scope Z_scope.
Local Open Scope bool_scope.
Local Open Scope list_scope.

(** ** Messages *)
Inductive EdgeEvent :=
| EvSnapshotBegin (begin : SnapshotBegin)
| EvSnapshotChunk (chunk : SnapshotChunk)
| EvSnapshotEnd (stop : SnapshotEnd)
| EvRuntimeDelta (delta : RuntimeDelta)
| EvHeartbeat (revision : Z).
Inductive ControllerCommand := SnapshotAccepted (SnapshotId : string) (Revision : Z) | ResyncRequired (ExpectedRevision : Z) (Reason : goerr).

(** ** The link of the Edge *)

(** [lk_feed] and [lk_snapshot] are the open feed; [lk_result] is how the session finished. *)
Record link := mkLink {
  lk_feed : option Z; lk_snapshot : RuntimeSnapshot; lk_latestRevision : Z; lk_snapshotAccepted : bool;
  lk_outbound : list EdgeEvent; lk_result : option goerr }.
#[export] Instance eta_link : Eta link := λ l,
  mkLink l.(lk_feed) l.(lk_snapshot) l.(lk_latestRevision) l.(lk_snapshotAccepted) l.(lk_outbound) l.(lk_result).

Definition snapshotChunkSize : nat := 256.

Section link.
(** The size of the queue of the writer, and the digest of a normalised snapshot. *)
Context (writerQueueSize : Z) (marshalDigest : RuntimeSnapshot → result string).

Definition finish (err : goerr) (l : link) : link := match l.(lk_result) with None => l <| lk_result := Some err |> | Some _ => l end.

Definition queueEvent (event : EdgeEvent) (l : link) : result link :=
  if len l.(lk_outbound) >=? writerQueueSize then Err "EdgeControl writer queue is full"
  else Ok (l <| lk_outbound := l.(lk_outbound) ++ [event] |>).

(** The chunks of a snapshot. Each takes at least one object: their number is enough fuel. *)
Fixpoint snapshot_chunks (fuel : nat) (snapshotID : string) (chunkIndex : Z) (agents : list AgentPresence) (sessions : list ClientSessionSummary)
    : list SnapshotChunk :=
  match fuel with
  | O => []
  | S fuel =>
      match agents, sessions with
      | [], [] => []
      | _, _ =>
          let taken := take snapshotChunkSize agents in
          let remaining := (snapshotChunkSize - length taken)%nat in
          mkChunk snapshotID chunkIndex taken (take remaining sessions)
            :: snapshot_chunks fuel snapshotID (u32 (chunkIndex + 1)) (drop snapshotChunkSize agents) (drop remaining sessions)
      end
  end.

(** The events of [queueSnapshot]. *)
Definition snapshot_events (snapshotID : string) (snapshot : RuntimeSnapshot) : result (list EdgeEvent) :=
  let? normalized := NormalizeClone snapshot in
  let? digest := Digest marshalDigest normalized in
  let chunks := snapshot_chunks (length normalized.(rs_Agents) + length normalized.(rs_Sessions)) snapshotID 0
                  normalized.(rs_Agents) normalized.(rs_Sessions) in
  Ok (EvSnapshotBegin (mkBegin snapshotID normalized.(rs_Revision)) :: (EvSnapshotChunk <$> chunks)
        ++ [EvSnapshotEnd (mkEnd snapshotID normalized.(rs_Revision) (u32 (len chunks)) digest)]).

(** The events before a full queue are sent all the same. *)
Fixpoint queue_all (events : list EdgeEvent) (l : link) : link * option goerr :=
  match events with
  | [] => (l, None)
  | event :: events => match queueEvent event l with Err err => (l, Some err) | Ok l => queue_all events l end
  end.
Definition queueSnapshot (snapshotID : string) (snapshot : RuntimeSnapshot) (l : link) : link * option goerr :=
  match snapshot_events snapshotID snapshot with Err err => (l, Some err) | Ok events => queue_all events l end.

(** [startSnapshot]: the old feed is closed and a new one opened by the actor of the Edge. *)
Definition close_feed (l : link) (d : stateData) : stateData := match l.(lk_feed) with Some id => unsubscribe id d | None => d end.
Definition startSnapshot (e : env) (snapshotID : string) (l : link) (d : stateData) : link * stateData :=
  let d := close_feed l d in
  let l := l <| lk_feed := None |> in
  match OpenFeed e d with
  | (d, Err err) => (finish err l, d)
  | (d, Ok (snapshot, id)) =>
      let l := l <| lk_feed := Some id |> <| lk_snapshot := snapshot |> in
      match queueSnapshot snapshotID snapshot l with
      | (l, Some err) => (finish err l, d)
      | (l, None) => (l <| lk_latestRevision := snapshot.(rs_Revision) |>, d)
      end
  end.

(** A command of the Controller. *)
Definition link_command (e : env) (snapshotID : string) (command : ControllerCommand) (l : link) (d : stateData) : link * stateData :=
  match command with
  | SnapshotAccepted _ revision =>
      match l.(lk_feed) with
      | Some _ => if revision =? l.(lk_snapshot).(rs_Revision) then (l <| lk_snapshotAccepted := true |>, d) else (l, d)
      | None => (l, d)
      end
  | ResyncRequired _ _ =>
      let '(l, d) := startSnapshot e snapshotID l d in
      match l.(lk_result) with Some _ => (l, d) | None => (l <| lk_snapshotAccepted := false |>, d) end
  end.

(** A delta of the feed, or its end. *)
Definition link_delta (l : link) (d : stateData) : link * stateData :=
  match l.(lk_feed) with
  | None => (l, d)
  | Some id =>
      match receive id d with
      | (d, Some delta) =>
          match queueEvent (EvRuntimeDelta delta) l with
          | Err err => (finish err l, d)
          | Ok l => (l <| lk_latestRevision := delta.(rd_Revision) |>, d)
          end
      | (d, None) => if decide (id ∈ d.(subscribers)) then (l, d) else (finish "runtime delta buffer overflowed" l, d)
      end
  end.

Definition link_heartbeat (l : link) : link :=
  match queueEvent (EvHeartbeat l.(lk_latestRevision)) l with Err err => finish err l | Ok l => l end.
End link.

(** ** The stream at the Controller *)

(** [cs_status] is the error the stream ended with; [cs_outbound] are the commands queued for the Edge. *)
Record control_stream := mkStream {
  cs_connectionID : string; cs_expectedEventSeq : Z; cs_outbound : list ControllerCommand; cs_status : option goerr }.
#[export] Instance eta_stream : Eta control_stream := λ s,
  mkStream s.(cs_connectionID) s.(cs_expectedEventSeq) s.(cs_outbound) s.(cs_status).

Definition controllerQueueSize : Z := 64.

Section service.
Context (mailboxSize : Z) (marshalDigest : RuntimeSnapshot → result string).

Definition send_command (command : ControllerCommand) (s : control_stream) : control_stream :=
  if len s.(cs_outbound) >=? controllerQueueSize then s <| cs_status := Some "Controller writer queue is full"%string |>
  else s <| cs_outbound := s.(cs_outbound) ++ [command] |>.

Definition applyEvent (now : Z) (order : map_order) (connectionID : string) (event : EdgeEvent) (d : directoryState)
    : directoryState * option ControllerCommand * option dir_error :=
  match event with
  | EvSnapshotBegin b => let '(d, err) := BeginSnapshot connectionID (Some b) d in (d, None, err)
  | EvSnapshotChunk k => let '(d, err) := AppendSnapshot connectionID (Some k) d in (d, None, err)
  | EvSnapshotEnd e =>
      match CommitSnapshot mailboxSize marshalDigest now connectionID (Some e) d with
      | (d, Some err) => (d, None, Some err)
      | (d, None) => (d, Some (SnapshotAccepted e.(se_SnapshotId) e.(se_Revision)), None)
      end
  | EvRuntimeDelta delta => let '(d, err) := ApplyDelta mailboxSize order connectionID delta.(rd_Revision) (Some delta.(rd_Change)) d in (d, None, err)
  | EvHeartbeat revision => let '(d, err) := Heartbeat now connectionID (Some revision) d in (d, None, err)
  end.

(** One event from the stream, with its number. *)
Definition receive_event (now : Z) (order : map_order) (seq : Z) (event : EdgeEvent) (s : control_stream) (d : directoryState)
    : control_stream * directoryState :=
  if negb (seq =? s.(cs_expectedEventSeq)) then
    (send_command (ResyncRequired 0 "Edge event stream sequence has a gap") (s <| cs_expectedEventSeq := u64 (seq + 1) |>), d)
  else
    let s := s <| cs_expectedEventSeq := u64 (s.(cs_expectedEventSeq) + 1) |> in
    match applyEvent now order s.(cs_connectionID) event d with
    | (d, _, Some (SyncError expected reason)) => (send_command (ResyncRequired expected reason) s, d)
    | (d, _, Some (DirError err)) => (s <| cs_status := Some err |>, d)
    | (d, Some response, None) => (send_command response s, d)
    | (d, None, None) => (s, d)
    end.
End service.
