(* ===== verification/EdgeMirror.v ===== *)
(** * A feed only grows

    Whatever the Edge does, what a feed has been sent stays as it is, and a new delta is appended to it and to its queue:
    only its own consumer takes from the queue. *)
From S2P Require Import Prelude GoStd Limiter EdgeState Relay EdgeWorld EdgeFacts EdgeInv Directory DirectoryInv EdgeLink.
Local Open Scope Z_scope.

Section feed.
Context (id : Z).
Implicit Types (d : stateData).

Definition fed d d' : Prop :=
  ∀ f, d.(feeds) !! id = Some f → ∃ more, d'.(feeds) !! id = Some (mkFeed f.(fd_snapshot) (f.(fd_queue) ++ more) (f.(fd_sent) ++ more)).

Lemma fed_refl d : fed d d.
Proof. intros f Hf. exists []. rewrite !app_nil_r. by destruct f. Qed.
Lemma fed_trans d1 d2 d3 : fed d1 d2 → fed d2 d3 → fed d1 d3.
Proof.
  intros H1 H2 f Hf. destruct (H1 f Hf) as [x Hx]. destruct (H2 _ Hx) as [y Hy]. exists (x ++ y). rewrite Hy. cbn. by rewrite !app_assoc.
Qed.
Lemma fed_same d d' : d'.(feeds) = d.(feeds) → fed d d'.
Proof. intros E f Hf. rewrite E. by apply fed_refl. Qed.

Lemma fed_commit change d d' : d'.(feeds) = d.(feeds) → fed d (commit change d').
Proof.
  intros E f Hf. unfold commit. set (d1 := d' <| revision := _ |>). rewrite publish_lookup. change (feeds d1) with (feeds d'). rewrite E, Hf. cbn.
  case_decide; [by eexists|]. exists []. rewrite !app_nil_r. by destruct f.
Qed.

(** ** Draining *)
Lemma fed_remove daemonID d : fed d (removeBusinessAgent daemonID d).
Proof. unfold removeBusinessAgent. destruct (agents d !! daemonID); [by apply fed_commit|apply fed_refl]. Qed.

Lemma cancel_feeds e daemonID g d : (cancelAgentSignals e daemonID g d).(feeds) = d.(feeds).
Proof.
  unfold cancelAgentSignals. generalize (range (order e) (pendingSignals d)) as l. intros l. revert d.
  induction l as [|x l IH]; intros d; [done|]. cbn [fold_left]. rewrite IH. by destruct (_ && _).
Qed.

Lemma fed_sessions daemonID l d cl : fed d (fold_left (drain_session daemonID) l (d, cl)).1.
Proof.
  revert d cl. induction l as [|[k s] l IH]; intros d cl; [apply fed_refl|]. cbn [fold_left]. unfold drain_session at 2.
  destruct (negb _); [apply IH|]. eapply fed_trans; [|apply IH]. by apply fed_commit.
Qed.

Lemma fed_drain e daemonID d : fed d (drainDaemonBusiness e daemonID d).1.
Proof.
  unfold drainDaemonBusiness. set (d1 := removeBusinessAgent daemonID d).
  match goal with |- context [range e.(order) (sessions ?x)] => set (d2 := x) end.
  pose proof (fed_sessions daemonID (range (order e) (sessions d2)) d2 []) as H3. destruct (fold_left _ _ _) as [d3 cl3]. cbn [fst] in *.
  eapply fed_trans; [apply fed_remove|]. fold d1. eapply fed_trans; [|eapply fed_trans; [exact H3|by apply fed_same]].
  apply fed_same. unfold d2. destruct (agentPresences d1 !! daemonID); [apply cancel_feeds|done].
Qed.

Lemma fed_reconcile e daemonID d : fed d (reconcileDaemonState e daemonID d).1.
Proof.
  unfold reconcileDaemonState. destruct (daemonStates d !! daemonID); [|apply fed_drain]. destruct (agentPresences d !! daemonID); [|apply fed_drain].
  destruct (aw_send _); [|apply fed_drain]. destruct (negb _); [apply fed_drain|].
  set (acc := if bool_decide _ then _ else _). assert (Hacc : fed d acc.1) by (unfold acc; case_bool_decide; [apply fed_remove|apply fed_drain]).
  clearbody acc. destruct acc as [d1 cl]. cbn [fst] in *. destruct (negb _); (eapply fed_trans; [exact Hacc|by apply fed_same]).
Qed.

(** ** The requests *)
Lemma fed_lifecycle daemonID g res d : fed d (ApplyDaemonLifecycleResult daemonID g res d).1.1.
Proof.
  unfold ApplyDaemonLifecycleResult. destruct (daemonStates d !! daemonID) as [c|]; [|apply fed_refl].
  destruct (agentPresences d !! daemonID) as [p|]; [|apply fed_refl]. destruct res as [r|]; [|apply fed_refl].
  destruct (_ || _ || _ || _ || _); [apply fed_refl|]. destruct (negb _); [apply fed_refl|].
  destruct (ds_State c); cbn [fst]; try apply fed_remove; try apply fed_refl.
  unfold publishBusinessAgent. destruct (bool_decide _); [apply fed_refl|by apply fed_commit].
Qed.

(** Our own consumer takes nothing, and the number of the feed is not given to another one. *)
Definition leaves_feed (o : op) d : Prop :=
  match o with
  | OReceive id' => id' ≠ id
  | OOpenFeed => u64 (d.(nextSubscriber) + 1) ≠ id
  | _ => True
  end.

Ltac fed_steps := repeat first [apply fed_refl | case_match | by apply fed_same | by apply fed_commit].

Lemma exec_fed digest lim e o d : leaves_feed o d → fed d (exec digest lim e o d).
Proof.
  intros Hl. destruct (relay_op o) eqn:Er.
  { pose proof (relay_op_business digest lim e o d Er) as H. unfold not_relay, business, feed_part in H. apply fed_same. congruence. }
  destruct o; try discriminate Er; cbn [exec leaves_feed] in *.
  - unfold UpsertAgent. destruct agent; [|apply fed_refl]. destruct (NormalizeClone _); [|apply fed_refl]. cbn zeta.
    destruct (_ && _); [apply fed_refl|]. destruct (from_option _ _ _); [apply fed_refl|]. apply fed_commit. by destruct (_ >? _).
  - unfold AttachAuthenticatedAgent. destruct agent as [a|]; [|apply fed_refl]. destruct claims as [c|]; [|apply fed_refl].
    destruct (_ || _ || _); [apply fed_refl|]. destruct (is_nil send || is_nil close); [apply fed_refl|].
    destruct (requireDaemonState _ _); [|apply fed_refl]. destruct (_ && _); [apply fed_refl|]. destruct (_ =? _); [apply fed_refl|]. cbn zeta.
    destruct (NormalizeClone _); [|apply fed_refl]. set (d1 := d <| nextAgentGeneration := _ |>).
    pose proof (fed_drain e (ap_DaemonId (a <| ap_Generation := u64 (nextAgentGeneration d + 1) |>)) d1) as Hd.
    destruct (drainDaemonBusiness _ _ _) as [d2 cl]. cbn [fst] in *. eapply fed_trans; [|eapply fed_trans; [exact Hd|]]; by apply fed_same.
  - unfold DetachAgent. destruct (agentPresences d !! _); [|apply fed_refl]. destruct (_ || _); [apply fed_refl|].
    pose proof (fed_drain e daemonID d) as Hd. destruct (drainDaemonBusiness _ _ _) as [d2 cl]. cbn [fst] in *.
    eapply fed_trans; [exact Hd|by apply fed_same].
  - unfold SendAgentCommand. fed_steps.
  - unfold CloseAgentConnection. fed_steps.
  - unfold RemoveAgent. fed_steps.
  - unfold BeginAgentSignal. fed_steps.
  - unfold ResolveAgentSignal. fed_steps.
  - unfold CancelAgentSignal. fed_steps.
  - unfold AttachSession. fed_steps.
  - unfold CloseSession. fed_steps.
  - unfold RemoveSession. fed_steps.
  - unfold OpenFeed. destruct (snapshot e d) as [s|]; [|apply fed_refl]. intros f Hf. exists []. rewrite !app_nil_r. cbn.
    rewrite lookup_insert_ne by done. rewrite Hf. by destruct f.
  - unfold unsubscribe. case_decide; [by apply fed_same|apply fed_refl].
  - unfold receive. destruct (feeds d !! _) as [g|]; [|apply fed_refl]. destruct (fd_queue g); [apply fed_refl|]. intros f Hf. exists [].
    rewrite !app_nil_r. cbn. rewrite lookup_insert_ne by done. rewrite Hf. by destruct f.
  - unfold ApplyDaemonStateSnapshot. destruct (normalizeDaemonStateSnapshot _) as [st|]; [|apply fed_refl]. cbn [fst].
    apply (for_daemons_inv (fed d)); [|by apply fed_same]. intros k d' Hd. eapply fed_trans; [exact Hd|apply fed_reconcile].
  - unfold ApplyDaemonStateDelta. destruct (normalizeDaemonStateRecord _) as [r|]; [|apply fed_refl]. destruct (negb _); [apply fed_refl|].
    cbn zeta. set (R := reconcileDaemonState _ _ _). assert (HR : fed d R.1) by (eapply fed_trans; [|apply fed_reconcile]; by apply fed_same).
    clearbody R. destruct (daemonStates d !! _); [|exact HR]. destruct (_ <? _); [apply fed_refl|].
    destruct (_ =? _); [destruct (bool_decide _); apply fed_refl|]. destruct (bool_decide _); [apply fed_refl|exact HR].
  - unfold InvalidateDaemonStates. apply (invalidate_fold (fed d)); [|by apply fed_same]. intros k d' Hd. eapply fed_trans; [exact Hd|apply fed_drain].
  - apply fed_lifecycle.
Qed.
End feed.

(** * What the events of a stream make the Controller show

    A control connection seen from its Edge: the snapshot under way and the view that is published. An event that the
    directory accepts changes it by [mirror_step], whatever else is in the directory; the events of a snapshot always
    end in that snapshot. *)

Local Open Scope bool_scope.
Local Open Scope list_scope.

(** ** Views of edited lists *)
Section keyed.
Context {A : Type} (key : A → string).
Definition keyed (l : list A) : gmap string A := list_to_map ((λ a, (key a, a)) <$> l).

Lemma keyed_lookup l k a : NoDup (key <$> l) → keyed l !! k = Some a ↔ a ∈ l ∧ key a = k.
Proof.
  intros Hnd. unfold keyed. rewrite <- elem_of_list_to_map by (by rewrite <- list_fmap_compose). rewrite list_elem_of_fmap. split.
  - by intros (b & [= -> ->] & Hb).
  - intros [Ha <-]. by exists a.
Qed.

Lemma keyed_upsert l l' x : NoDup (key <$> l) → NoDup (key <$> l') → (∀ a, a ∈ l' ↔ a = x ∨ a ∈ l ∧ key a ≠ key x) →
  keyed l' = <[key x := x]> (keyed l).
Proof.
  intros Hnd Hnd' Hin. apply map_eq. intros k. apply option_eq. intros a. rewrite keyed_lookup, Hin, lookup_insert_Some, keyed_lookup by done.
  split; [intros [[->|[Ha Hn]] <-]; [by left|by right]|intros [[<- <-]|[Hn [Ha <-]]]; [by split; [left|]|by split; [right|]]].
Qed.

Lemma keyed_remove l l' k : NoDup (key <$> l) → NoDup (key <$> l') → (∀ a, a ∈ l' ↔ a ∈ l ∧ key a ≠ k) → keyed l' = delete k (keyed l).
Proof.
  intros Hnd Hnd' Hin. apply map_eq. intros j. apply option_eq. intros a. rewrite keyed_lookup, Hin, lookup_delete_Some, keyed_lookup by done.
  split; [by intros [[Ha Hn] <-]|by intros [Hn [Ha <-]]].
Qed.

Lemma removed_object (generation : A → Z) stale id g l l' : remove_object key generation stale id g l = Ok l' →
  ∃ a, a ∈ l ∧ key a = id ∧ generation a = g.
Proof.
  revert l'. induction l as [|c l IH]; intros l'; cbn [remove_object]; [done|].
  destruct (_ && _) eqn:E; [apply andb_true_iff in E as [E1%String.eqb_eq E2%Z.eqb_eq]; intros _; exists c; by split; [left|]|].
  destruct (remove_object _ _ _ _ _ l) as [l1|]; [|done]. intros _. destruct (IH l1 eq_refl) as (a & Ha & Hr). exists a. by split; [right|].
Qed.
End keyed.

(** ** The mirror *)
Record mirror := mkMirror { mi_staging : option snapshotBuilder; mi_view : option view }.
Definition mirror_of (c : connectionState) : mirror := mkMirror c.(cn_staging) (view_of_snapshot <$> c.(cn_snapshot)).

Section mirror.
Context (mailboxSize : Z) (marshalDigest : RuntimeSnapshot → result string).

Definition mirror_step (m : mirror) (event : EdgeEvent) : option mirror :=
  match event with
  | EvSnapshotBegin b =>
      if String.eqb (TrimSpace b.(sb_SnapshotId)) "" then None
      else Some (mkMirror (Some (mkBuilder b.(sb_SnapshotId) b.(sb_Revision) 0 [] [])) m.(mi_view))
  | EvSnapshotChunk k =>
      match m.(mi_staging) with
      | Some b =>
          if negb (String.eqb k.(sc_SnapshotId) b.(bu_id)) || negb (k.(sc_ChunkIndex) =? b.(bu_nextChunk)) then None
          else Some (mkMirror (Some (mkBuilder b.(bu_id) b.(bu_revision) (u32 (b.(bu_nextChunk) + 1))
                                       (b.(bu_agents) ++ k.(sc_Agents)) (b.(bu_sessions) ++ k.(sc_Sessions)))) m.(mi_view))
      | None => None
      end
  | EvSnapshotEnd e =>
      match completed marshalDigest m.(mi_staging) (Some e) with
      | Ok s => Some (mkMirror None (Some (view_of_snapshot s)))
      | Err _ => None
      end
  | EvRuntimeDelta delta => m.(mi_view) ≫= λ v, (λ v', mkMirror m.(mi_staging) (Some v')) <$> apply_delta v delta
  | EvHeartbeat revision => m.(mi_view) ≫= λ v, if revision =? v.(v_revision) then Some m else None
  end.
Definition mirror_run (m : mirror) (events : list EdgeEvent) : option mirror := foldl (λ m event, m ≫= λ m, mirror_step m event) (Some m) events.

Lemma mirror_run_cons m event events : mirror_run m (event :: events) = mirror_step m event ≫= λ m', mirror_run m' events.
Proof.
  unfold mirror_run at 1. cbn [foldl]. change (Some m ≫= _) with (mirror_step m event). destruct (mirror_step m event) as [m'|]; [done|].
  cbn. induction events as [|ev events IH]; [done|]. apply IH.
Qed.

Lemma mirror_run_app m a b : mirror_run m (a ++ b) = mirror_run m a ≫= λ m', mirror_run m' b.
Proof.
  revert m. induction a as [|event a IH]; intros m; [done|]. cbn [app]. rewrite !mirror_run_cons. destruct (mirror_step m event) as [m'|]; [|done].
  cbn. apply IH.
Qed.

(** ** An accepted event *)
Lemma publish_connections kind id o d : (dir_publish mailboxSize kind id o d).(dr_connections) = d.(dr_connections).
Proof. pose proof (publish_tables mailboxSize kind id o d) as E. unfold tables in E. by injection E. Qed.

Lemma delta_mirror order id c s delta d d' : snapshot_ok s → delta.(rd_Revision) = u64 (s.(rs_Revision) + 1) →
  applyDelta order id c (mkSnapshot delta.(rd_Revision) s.(rs_Agents) s.(rs_Sessions)) (Some delta.(rd_Change)) d = Ok d' →
  ∃ s', d'.(dr_connections) = <[id := c <| cn_snapshot := Some s' |>]> d.(dr_connections)
    ∧ apply_delta (view_of_snapshot s) delta = Some (view_of_snapshot s').
Proof.
  intros [Ha Hs] Hr. unfold applyDelta, apply_delta. cbn [rs_Agents rs_Sessions rs_Revision view_of_snapshot v_revision]. rewrite <- Hr, Z.eqb_refl.
  destruct (rd_Change delta) as [a|id0 g|x|id0 g].
  - destruct (matchingDaemonAdmission _ _ _ _ _); cbn [result_bind]; [|done]. destruct (upsert_agent _ _) as [l|] eqn:E; cbn [result_bind]; [|done].
    intros [= <-]. apply upsert_object_spec in E as [Hnd Hin]; [|done]. eexists. split; [reflexivity|]. unfold view_of_snapshot. cbn. f_equal. f_equal.
    symmetry. by apply (keyed_upsert ap_DaemonId).
  - destruct (remove_agent _ _ _) as [l|] eqn:E; cbn [result_bind]; [|done]. intros [= <-].
    pose proof (removed_object _ _ _ _ _ _ _ E) as (b & Hb & Hk & Hg). apply remove_object_spec in E as [Hnd Hin]; [|done].
    eexists. split; [reflexivity|]. unfold view_of_snapshot. cbn. change (list_to_map _) with (keyed ap_DaemonId (rs_Agents s)) at 1.
    rewrite (proj2 (keyed_lookup ap_DaemonId _ id0 b Ha)) by done. rewrite Hg, Z.eqb_refl. do 2 f_equal. symmetry. by apply (keyed_remove ap_DaemonId).
  - destruct (upsert_session _ _) as [l|] eqn:E; cbn [result_bind]; [|done].
    intros [= <-]. apply upsert_object_spec in E as [Hnd Hin]; [|done]. eexists. split; [reflexivity|]. unfold view_of_snapshot. cbn. f_equal. f_equal.
    symmetry. by apply (keyed_upsert cs_SessionId).
  - destruct (remove_session _ _ _) as [l|] eqn:E; cbn [result_bind]; [|done]. intros [= <-].
    pose proof (removed_object _ _ _ _ _ _ _ E) as (b & Hb & Hk & Hg). apply remove_object_spec in E as [Hnd Hin]; [|done].
    eexists. split; [reflexivity|]. unfold view_of_snapshot. cbn. change (list_to_map _) with (keyed cs_SessionId (rs_Sessions s)) at 1.
    rewrite (proj2 (keyed_lookup cs_SessionId _ id0 b Hs)) by done. rewrite Hg, Z.eqb_refl. do 2 f_equal. symmetry. by apply (keyed_remove cs_SessionId).
Qed.

(** The connection after an event that was accepted. *)
Definition mirrors (id : string) (d : directoryState) (a : Attachment) (m : mirror) : Prop :=
  ∃ c, connection_at d id = Some c ∧ c.(cn_attachment) = a ∧ mirror_of c = m.

Lemma put_mirrors id c d a m : c.(cn_attachment) = a → mirror_of c = m → mirrors id (put_connection id c d) a m.
Proof. intros Ha Hm. exists c. split_and!; [|done|done]. unfold connection_at. apply lookup_insert_eq. Qed.

Lemma accepted_mirror now order id event d d' response m a : tables_ok d → mirrors id d a m →
  applyEvent mailboxSize marshalDigest now order id event d = (d', response, None) →
  ∃ m', mirrors id d' a m' ∧ mirror_step m event = Some m'.
Proof.
  intros T (c & Hc & <- & <-). destruct event as [b|k|e|delta|revision]; cbn [applyEvent mirror_step mirror_of mi_staging mi_view].
  - unfold BeginSnapshot, requireConnection. rewrite Hc. destruct (String.eqb _ _); [done|]. intros [= <- _]. eexists. split; [by apply put_mirrors|done].
  - unfold AppendSnapshot, requireConnection. rewrite Hc. destruct (cn_staging c) as [b|]; [|done]. destruct (_ || _); [done|].
    intros [= <- _]. eexists. split; [by apply put_mirrors|done].
  - unfold CommitSnapshot, requireConnection. rewrite Hc. destruct (completed _ _ _) as [s|]; [|done]. intros [= <- _]. eexists. split; [|reflexivity].
    set (d1 := removeIndexes id _). exists (mkConnection c.(cn_attachment) (Some s) None now). split_and!; [|done|done].
    unfold connection_at. rewrite publish_connections. unfold addIndexes. set (d2 := _ <| dr_current := _ |>).
    assert (H2 : d2.(dr_connections) !! id = Some (mkConnection c.(cn_attachment) (Some s) None now)) by apply lookup_insert_eq.
    unfold connection_at. by rewrite H2.
  - unfold ApplyDelta. destruct (ValidateDelta _ _); [done|]. destruct (requireCurrent d id) as [[c' s]|] eqn:Hcur; [|done].
    apply require_current in Hcur as (Hc' & Hs & _ & Hok); [|done]. rewrite Hc in Hc'. injection Hc' as <-.
    destruct (Z.eqb_spec (rd_Revision delta) (u64 (rs_Revision s + 1))) as [Hr|]; [|done]. cbn [negb].
    destruct (applyDelta _ _ _ _ _ _) as [d1|] eqn:E; [|done]. destruct (runtimeDeltaEvent _) as [[kind x] o]. intros [= <- _].
    destruct (delta_mirror _ _ _ _ _ _ _ Hok Hr E) as (s' & Ec & Ev). rewrite Hs. cbn. rewrite Ev. cbn. eexists. split; [|reflexivity].
    exists (mkConnection c.(cn_attachment) (Some s') c.(cn_staging) c.(cn_lastHeartbeat)). split_and!; [|done|done].
    unfold connection_at. rewrite publish_connections, Ec. apply lookup_insert_eq.
  - unfold Heartbeat. destruct (requireCurrent d id) as [[c' s]|] eqn:Hcur; [|done].
    apply require_current in Hcur as (Hc' & Hs & _ & _); [|done]. rewrite Hc in Hc'. injection Hc' as <-. rewrite Hs. cbn.
    destruct (revision =? rs_Revision s); [|done]. intros [= <- _]. eexists. split; [|reflexivity].
    exists (c <| cn_lastHeartbeat := now |>). split_and!; [|done|].
    + unfold connection_at. apply lookup_insert_eq.
    + unfold mirror_of. cbn. by rewrite Hs.
Qed.

(** An event that is refused leaves what is published. *)
Lemma refused_mirror now order id event d d' response err m a : mirrors id d a m →
  applyEvent mailboxSize marshalDigest now order id event d = (d', response, Some err) → ∃ m', mirrors id d' a m'.
Proof.
  intros (c & Hc & <- & <-). destruct event as [b|k|e|delta|revision]; cbn [applyEvent].
  - unfold BeginSnapshot, requireConnection. rewrite Hc. destruct (String.eqb _ _); [|done]. intros [= <- _ _]. by exists (mirror_of c), c.
  - unfold AppendSnapshot, requireConnection. rewrite Hc. destruct (cn_staging c) as [b|]; [destruct (_ || _); [|done]|];
      intros [= <- _ _]; by exists (mirror_of c), c.
  - unfold CommitSnapshot, requireConnection. rewrite Hc. destruct (completed _ _ _) as [s|]; [done|]. intros [= <- _ _]. eexists. by apply put_mirrors.
  - unfold ApplyDelta. destruct (ValidateDelta _ _); [intros [= <- _ _]; by exists (mirror_of c), c|].
    destruct (requireCurrent d id) as [[c' s]|]; [|intros [= <- _ _]; by exists (mirror_of c), c].
    destruct (negb _); [intros [= <- _ _]; by exists (mirror_of c), c|]. destruct (applyDelta _ _ _ _ _ _); [|intros [= <- _ _]; by exists (mirror_of c), c].
    by destruct (runtimeDeltaEvent _) as [[??]?].
  - unfold Heartbeat. destruct (requireCurrent d id) as [[c' s]|]; [|intros [= <- _ _]; by exists (mirror_of c), c].
    destruct (_ =? _); [done|intros [= <- _ _]; by exists (mirror_of c), c].
Qed.

End mirror.

(** ** Sorted snapshots *)
Lemma normalize_idempotent s n : NormalizeClone s = Ok n → NormalizeClone n = Ok n.
Proof.
  intros Hn. pose proof (normalized_ok _ _ Hn) as [Ha Hs]. revert Hn. unfold NormalizeClone.
  destruct (check_agents _ _) eqn:Ea; [done|]. destruct (check_sessions _ _) eqn:Es; [done|]. intros [= <-]. cbn [rs_Agents rs_Sessions rs_Revision] in *.
  set (A := merge_sort agent_before (rs_Agents s)) in *. set (S := merge_sort session_before (rs_Sessions s)) in *.
  assert (EA : merge_sort agent_before A = A).
  { symmetry. apply (sorted_unique ap_DaemonId); [done|..|symmetry; apply merge_sort_Permutation];
      apply Sorted_merge_sort; intros ??; unfold agent_before, string_le; apply String.leb_total. }
  assert (ES : merge_sort session_before S = S).
  { symmetry. apply (sorted_unique cs_SessionId); [done|..|symmetry; apply merge_sort_Permutation];
      apply Sorted_merge_sort; intros ??; unfold session_before, string_le; apply String.leb_total. }
  by rewrite EA, ES, Ea, Es.
Qed.

(** ** The events of a snapshot *)
Section events.
Context (marshalDigest : RuntimeSnapshot → result string).
Notation mirror_run := (mirror_run marshalDigest).

Lemma chunks_run fuel id revision index agents sessions a0 s0 v :
  (length agents + length sessions ≤ fuel)%nat →
  let chunks := snapshot_chunks fuel id index agents sessions in
  mirror_run (mkMirror (Some (mkBuilder id revision index a0 s0)) v) (EvSnapshotChunk <$> chunks)
  = Some (mkMirror (Some (mkBuilder id revision (match chunks with [] => index | _ => u32 (index + len chunks) end) (a0 ++ agents) (s0 ++ sessions))) v).
Proof.
  revert index agents sessions a0 s0. induction fuel as [|fuel IH]; intros index agents sessions a0 s0 Hf chunks; unfold chunks; cbn [snapshot_chunks].
  { destruct agents, sessions; cbn in Hf; try lia. by rewrite !app_nil_r. }
  destruct (decide (agents = [] ∧ sessions = [])) as [[-> ->]|Hne]; [by rewrite !app_nil_r|].
  set (taken := take snapshotChunkSize agents). set (remaining := (snapshotChunkSize - length taken)%nat).
  set (chunk := mkChunk id index taken (take remaining sessions)).
  set (rest := snapshot_chunks fuel id (u32 (index + 1)) (drop snapshotChunkSize agents) (drop remaining sessions)).
  assert (E : (match agents, sessions with [], [] => [] | _, _ => chunk :: rest end) = chunk :: rest) by (destruct agents, sessions; naive_solver).
  rewrite E. cbn [fmap list_fmap]. rewrite mirror_run_cons. cbn [mirror_step mi_staging bu_id bu_nextChunk sc_SnapshotId sc_ChunkIndex chunk].
  rewrite String.eqb_refl, Z.eqb_refl. cbn [negb orb option_bind]. cbn [mbind option_bind bu_revision bu_agents bu_sessions mi_view sc_Agents sc_Sessions].
  assert (Hsmaller : (length (drop snapshotChunkSize agents) + length (drop remaining sessions) ≤ fuel)%nat).
  { rewrite !length_drop. unfold remaining, taken. rewrite length_take. unfold snapshotChunkSize.
    destruct agents as [|x agents], sessions as [|y sessions]; cbn [length] in *; lia. }
  pose proof (IH (u32 (index + 1)) _ _ (a0 ++ taken) (s0 ++ take remaining sessions) Hsmaller) as Hrun. cbv zeta in Hrun. fold rest in Hrun.
  assert (Ec : (match rest with [] => u32 (index + 1) | _ => u32 (u32 (index + 1) + len rest) end) = u32 (index + len (chunk :: rest))).
  { unfold len. cbn [length]. destruct rest as [|c rest]; cbn [length]; [done|]. unfold u32. rewrite Zplus_mod_idemp_l. f_equal. lia. }
  rewrite Ec, <- !app_assoc, take_drop in Hrun. unfold taken in Hrun at 2. rewrite take_drop in Hrun. exact Hrun.
Qed.
End events.
