(* ===== verification/EdgeSync.v ===== *)
(** * What the Controller shows of an Edge

    An Edge with its link, the stream to the Controller with the events and the commands on their way, and the directory
    with everything else it is asked for: the link of [cloud/edge/controllerlink] and the service of
    [cloud/controller/control] keep the published snapshot a mirror of the runtime state of the Edge. *)
From S2P Require Import Prelude GoStd EdgeState EdgeWorld EdgeFacts EdgeInv EdgeTheorems Directory DirectoryInv DirectoryTheorems EdgeLink EdgeMirror.
Local Open Scope Z_scope.
Local Open Scope bool_scope.
Local Open Scope list_scope.

(** ** The world *)

(** [w_sequence] is the number of the last event written; what is written and not yet received is on the wire. *)
Record world := mkWorld {
  w_edge : stateData; w_link : link; w_sequence : Z; w_wire : list (Z * EdgeEvent);
  w_stream : control_stream; w_commands : list ControllerCommand; w_directory : directoryState }.

Section sync.
Context (digest : RelayPolicySnapshot → result string) (lim : stateLimits).
Context (writerQueueSize mailboxSize : Z) (marshalDigest : RuntimeSnapshot → result string).
Context (id : string).

(** Another request to the directory: not one of this control connection. *)
Definition elsewhere (o : dir_op) : Prop :=
  match o with
  | DBegin i _ | DAppend i _ | DCommit i _ | DDelta i _ _ | DHeartbeat i _ | DDetach i => i ≠ id
  | _ => True
  end.

Inductive world_step : world → world → Prop :=
| step_edge d l n ws s cs dir e o : OrderOk e.(order) → op_ok o → (∀ feed, l.(lk_feed) = Some feed → leaves_feed feed o d) →
    world_step (mkWorld d l n ws s cs dir) (mkWorld (exec digest lim e o d) l n ws s cs dir)
| step_delta d l n ws s cs dir : l.(lk_result) = None →
    world_step (mkWorld d l n ws s cs dir) (mkWorld (link_delta writerQueueSize l d).2 (link_delta writerQueueSize l d).1 n ws s cs dir)
| step_heartbeat d l n ws s cs dir : l.(lk_result) = None →
    world_step (mkWorld d l n ws s cs dir) (mkWorld d (link_heartbeat writerQueueSize l) n ws s cs dir)
| step_command d l n ws s c cs dir e snapshotID : l.(lk_result) = None → OrderOk e.(order) → TrimSpace snapshotID ≠ ""%string →
    let r := link_command writerQueueSize marshalDigest e snapshotID c l d in
    world_step (mkWorld d l n ws s (c :: cs) dir) (mkWorld r.2 r.1 n ws s cs dir)
| step_write d l n ws s cs dir event rest : l.(lk_outbound) = event :: rest →
    world_step (mkWorld d l n ws s cs dir) (mkWorld d (l <| lk_outbound := rest |>) (u64 (n + 1)) (ws ++ [(u64 (n + 1), event)]) s cs dir)
| step_receive d l n seq event ws s cs dir now o : s.(cs_status) = None → OrderOk o →
    let r := receive_event mailboxSize marshalDigest now o seq event s dir in
    world_step (mkWorld d l n ((seq, event) :: ws) s cs dir) (mkWorld d l n ws r.1 cs r.2)
| step_answer d l n ws s cs dir c rest : s.(cs_outbound) = c :: rest →
    world_step (mkWorld d l n ws s cs dir) (mkWorld d l n ws (s <| cs_outbound := rest |>) (cs ++ [c]) dir)
| step_elsewhere d l n ws s cs dir now o op : OrderOk o → elsewhere op →
    world_step (mkWorld d l n ws s cs dir) (mkWorld d l n ws s cs (run_dir mailboxSize marshalDigest now o op dir)).

(** The link after the handshake: the Controller has attached the connection, and the Edge starts with a snapshot. *)
Definition new_link : link := mkLink None (mkSnapshot 0 [] []) 0 false [] None.
Definition connected (e : env) (snapshotID : string) (d : stateData) (dir : directoryState) : world :=
  let r := startSnapshot writerQueueSize marshalDigest e snapshotID new_link d in
  mkWorld r.2 r.1 1 [] (mkStream id 2 [] None) [] dir.

Definition world_reaches (w w' : world) : Prop := rtc world_step w w'.

(** ** The invariant *)
Definition alive (w : world) : Prop := w.(w_link).(lk_result) = None ∧ w.(w_stream).(cs_status) = None.
Definition in_flight (w : world) : list EdgeEvent := w.(w_wire).*2 ++ w.(w_link).(lk_outbound).
Definition is_resync (c : ControllerCommand) : Prop := match c with ResyncRequired _ _ => True | _ => False end.
#[local] Instance is_resync_dec c : Decision (is_resync c).
Proof. destruct c; [right; by intros []|by left]. Defined.
Definition resync_pending (w : world) : Prop := Exists is_resync (w.(w_commands) ++ w.(w_stream).(cs_outbound)).

(** The view that the link has passed on: the snapshot of its feed with the deltas it has taken. *)
Definition passed_on (d : stateData) (l : link) (v : view) : Prop :=
  ∃ feed f taken, l.(lk_feed) = Some feed ∧ d.(feeds) !! feed = Some f ∧ f.(fd_sent) = taken ++ f.(fd_queue)
    ∧ replay f.(fd_snapshot) taken = Some v ∧ l.(lk_latestRevision) = v.(v_revision).

(** What is in flight will be refused and ask for a new snapshot, or make the mirror the view passed on. *)
Definition on_course (d : stateData) (l : link) (m : mirror) (events : list EdgeEvent) : Prop :=
  mirror_run marshalDigest m events = None
  ∨ ∃ staging v, mirror_run marshalDigest m events = Some (mkMirror staging (Some v)) ∧ passed_on d l v.

Fixpoint numbered (first : Z) (numbers : list Z) (last : Z) : Prop :=
  match numbers with [] => first = u64 (last + 1) | n :: numbers => n = first ∧ numbered (u64 (first + 1)) numbers last end.

Record in_sync (a : Attachment) (w : world) : Prop := {
  is_edge : edge_inv lim w.(w_edge);
  is_tables : tables_ok w.(w_directory);
  is_stream : w.(w_stream).(cs_connectionID) = id;
  is_numbered : w.(w_stream).(cs_status) = None → numbered w.(w_stream).(cs_expectedEventSeq) w.(w_wire).*1 w.(w_sequence);
  is_mirror : ∃ m, mirrors id w.(w_directory) a m
    ∧ (alive w → resync_pending w ∨ on_course w.(w_edge) w.(w_link) m (in_flight w)) }.

Lemma numbered_snoc a l n : numbered a l n → numbered a (l ++ [u64 (n + 1)]) (u64 (n + 1)).
Proof. revert a. induction l as [|x l IH]; intros a; cbn [app numbered]; [by intros ->|]. intros [-> H]. split; [done|by apply IH]. Qed.

(** ** The events of a snapshot *)
Lemma snapshot_run sid s events m : TrimSpace sid ≠ ""%string → NormalizeClone s = Ok s →
  snapshot_events marshalDigest sid s = Ok events →
  mirror_run marshalDigest m events = Some (mkMirror None (Some (view_of_snapshot s))).
Proof.
  intros Hid Hn. unfold snapshot_events. rewrite Hn. cbn [result_bind]. destruct (Digest marshalDigest s) as [g|] eqn:Hg; [|done]. cbn [result_bind].
  intros [= <-]. rewrite mirror_run_cons. cbn [mirror_step sb_SnapshotId sb_Revision]. rewrite (proj2 (String.eqb_neq _ _) Hid). cbn [mbind option_bind mi_view].
  rewrite mirror_run_app, chunks_run by done. cbn [mbind option_bind]. rewrite mirror_run_cons. cbn [mirror_step mi_staging].
  set (chunks := snapshot_chunks _ _ _ _ _). unfold completed. cbn [se_SnapshotId bu_id se_Revision bu_revision se_ChunkCount bu_nextChunk bu_agents bu_sessions].
  assert (Ec : (match chunks with [] => 0 | _ => u32 (0 + len chunks) end) = u32 (len chunks)) by (by destruct chunks).
  rewrite Ec, String.eqb_refl, !Z.eqb_refl. cbn [negb orb app]. destruct s as [rev agents sessions]. cbn [rs_Revision rs_Agents rs_Sessions] in *.
  rewrite Hn. cbn [result_bind]. rewrite Hg. cbn [se_Digest]. by rewrite String.eqb_refl.
Qed.

(** ** The link *)
Lemma queue_event event l l' : queueEvent writerQueueSize event l = Ok l' → l' = l <| lk_outbound := l.(lk_outbound) ++ [event] |>.
Proof. unfold queueEvent. destruct (_ >=? _); [done|]. by intros [= <-]. Qed.

Lemma queue_all_spec events l l' : queue_all writerQueueSize events l = (l', None) → l' = l <| lk_outbound := l.(lk_outbound) ++ events |>.
Proof.
  revert l. induction events as [|event events IH]; intros l; cbn [queue_all].
  - intros [= <-]. destruct l. cbn. unfold set_field. cbn. by rewrite app_nil_r.
  - destruct (queueEvent _ event l) as [l1|] eqn:E; [|done]. apply queue_event in E as ->. intros ->%IH. cbn. by rewrite <- app_assoc.
Qed.

Lemma finish_result err l : (finish err l).(lk_result) ≠ None.
Proof. unfold finish. destruct l as [? ? ? ? ? [?|]]; done. Qed.

Lemma close_feed_inv l d : edge_inv lim d → edge_inv lim (close_feed l d).
Proof. intros Hi. unfold close_feed. destruct (lk_feed l); [by apply unsubscribe_inv|done]. Qed.

Lemma start_snapshot e sid l d : OrderOk e.(order) → TrimSpace sid ≠ ""%string → edge_inv lim d →
  let r := startSnapshot writerQueueSize marshalDigest e sid l d in
  edge_inv lim r.2 ∧ (r.1.(lk_result) = None → ∃ events v, r.1.(lk_outbound) = l.(lk_outbound) ++ events ∧ passed_on r.2 r.1 v
    ∧ ∀ m, mirror_run marshalDigest m events = Some (mkMirror None (Some v))).
Proof.
  intros Ho Hid Hi. unfold startSnapshot. pose proof (close_feed_inv l d Hi) as Hi1. set (d1 := close_feed l d) in *.
  pose proof (open_feed_inv lim e d1 Ho Hi1) as Hi2. revert Hi2. unfold OpenFeed.
  destruct (snapshot e d1) as [s|err] eqn:Hs; cbn [fst]; intros Hi2; cbn [fst snd]; [|split; [done|intros []%finish_result]].
  set (feed := u64 _) in *. set (d2 := _ <| subscribers := _ |>) in *. set (l1 := l <| lk_feed := None |> <| lk_feed := Some feed |> <| lk_snapshot := s |>).
  unfold queueSnapshot. destruct (snapshot_events marshalDigest sid s) as [events|err] eqn:He; cbn [fst snd]; [|split; [done|intros []%finish_result]].
  destruct (queue_all _ events l1) as [l2 [err|]] eqn:Hq; cbn [fst snd]; (split; [done|]); [intros []%finish_result|]. intros _.
  apply queue_all_spec in Hq as ->. exists events, (view_of_snapshot s). split; [done|]. split.
  - exists feed, (mkFeed s [] []), []. split; [done|]. split; [apply lookup_insert_eq|done].
  - intros m. apply (snapshot_run sid); [done| |done]. revert Hs. unfold snapshot. destruct (NormalizeClone _) as [s1|] eqn:E; [|done].
    intros [= ->]. by eapply normalize_idempotent.
Qed.

Lemma passed_on_same d l l' v : l'.(lk_feed) = l.(lk_feed) → l'.(lk_latestRevision) = l.(lk_latestRevision) → passed_on d l v → passed_on d l' v.
Proof. unfold passed_on. by intros -> ->. Qed.

Lemma passed_on_fed d d' l v : (∀ feed, l.(lk_feed) = Some feed → fed feed d d') → passed_on d l v → passed_on d' l v.
Proof.
  intros Hf (feed & f & taken & Hl & Hd & Hs & Hr). destruct (Hf feed Hl f Hd) as [more Hm].
  eexists feed, _, taken. split; [done|]. split; [exact Hm|]. cbn. split; [by rewrite Hs, app_assoc|done].
Qed.

Lemma on_course_more d d' l l' m es events :
  (∀ staging v, passed_on d l v → ∃ staging' v', mirror_run marshalDigest (mkMirror staging (Some v)) events = Some (mkMirror staging' (Some v')) ∧ passed_on d' l' v') →
  on_course d l m es → on_course d' l' m (es ++ events).
Proof.
  intros H. unfold on_course. rewrite mirror_run_app. intros [->|(staging & v & -> & Hv)]; [by left|right]. cbn [mbind option_bind]. by apply H.
Qed.

Lemma replay_after s a b : replay s (a ++ b) = foldl (λ v delta, v ≫= λ v, apply_delta v delta) (replay s a) b.
Proof. unfold replay. by rewrite foldl_app. Qed.

Lemma replay_none b : foldl (λ v delta, v ≫= λ v, apply_delta v delta) None b = None.
Proof. by induction b. Qed.

Lemma taken_delta d l v feed f x q : edge_inv lim d → lk_feed l = Some feed → feeds d !! feed = Some f → f.(fd_queue) = x :: q → passed_on d l v →
  ∃ v', apply_delta v x = Some v' ∧ passed_on (receive feed d).1 (l <| lk_latestRevision := x.(rd_Revision) |>) v'.
Proof.
  intros Hi Hl Hf Hq (feed' & f' & taken & Hl' & Hf' & Hs & Hr & Hlatest). assert (feed' = feed) as -> by congruence. assert (f' = f) as -> by congruence.
  destruct (ei_feeds _ _ Hi) as [_ Hh]. destruct (Hh feed f Hf) as ([w Hw] & _). rewrite Hs, replay_after, Hr, Hq in Hw. cbn [foldl mbind option_bind] in Hw.
  destruct (apply_delta v x) as [v'|] eqn:Ha; [|by rewrite replay_none in Hw]. exists v'. split; [done|]. unfold receive. rewrite Hf, Hq. cbn [fst].
  exists feed, (f <| fd_queue := q |>), (taken ++ [x]). split; [done|]. split; [apply lookup_insert_eq|]. cbn. split_and!.
  - by rewrite Hs, Hq, <- app_assoc.
  - by rewrite (replay_snoc _ _ _ _ Hr).
  - revert Ha. unfold apply_delta. destruct (_ =? _); [|done]. destruct (rd_Change x) as [a|i g|y|i g]; [by intros [= <-]| |by intros [= <-]|];
      case_match; try done; case_match; try done; by intros [= <-].
Qed.

Lemma link_delta_course d l : edge_inv lim d → l.(lk_result) = None →
  let r := link_delta writerQueueSize l d in
  edge_inv lim r.2 ∧ (r.1.(lk_result) = None → ∃ events, r.1.(lk_outbound) = l.(lk_outbound) ++ events
    ∧ ∀ m es, on_course d l m es → on_course r.2 r.1 m (es ++ events)).
Proof.
  intros Hi Hl. unfold link_delta. assert (Hsame : ∃ events, l.(lk_outbound) = l.(lk_outbound) ++ events ∧ ∀ m es, on_course d l m es → on_course d l m (es ++ events)).
  { exists []. split; [by rewrite app_nil_r|]. intros m es. by rewrite app_nil_r. }
  destruct (lk_feed l) as [feed|] eqn:Hf; [|done]. pose proof (receive_inv lim feed d Hi) as Hi'.
  destruct (receive feed d) as [d' [x|]] eqn:Hr; cbn [fst] in Hi'.
  - destruct (queueEvent _ _ l) as [l'|] eqn:Hq; cbn [fst snd]; (split; [done|]); [|intros []%finish_result]. apply queue_event in Hq as ->. intros _.
    exists [EvRuntimeDelta x]. split; [done|]. intros m es. apply on_course_more. intros staging v Hv.
    assert (∃ f q, feeds d !! feed = Some f ∧ f.(fd_queue) = x :: q) as (f & q & Hfeed & Hqueue).
    { revert Hr. unfold receive. destruct (feeds d !! feed) as [f|] eqn:E; [|done]. destruct (fd_queue f) as [|y q] eqn:Eq; [done|].
      intros [= _ ->]. by exists f, q. }
    destruct (taken_delta d l v feed f x q Hi Hf Hfeed Hqueue Hv) as (v' & Ha & Hv'). rewrite Hr in Hv'. exists staging, v'. split.
    + rewrite mirror_run_cons. cbn [mirror_step mi_view mi_staging mbind option_bind]. by rewrite Ha.
    + eapply passed_on_same; [..|exact Hv']; done.
  - assert (d' = d) as ->. { revert Hr. unfold receive. destruct (feeds d !! feed) as [f|]; [|by intros [= ->]]. destruct (fd_queue f); [by intros [= ->]|done]. }
    case_decide; [done|]. cbn [fst snd]. split; [done|intros []%finish_result].
Qed.

Lemma link_heartbeat_course d l : l.(lk_result) = None → let l' := link_heartbeat writerQueueSize l in
  l'.(lk_result) = None → ∃ events, l'.(lk_outbound) = l.(lk_outbound) ++ events ∧ ∀ m es, on_course d l m es → on_course d l' m (es ++ events).
Proof.
  intros Hl. unfold link_heartbeat. destruct (queueEvent _ _ l) as [l'|] eqn:Hq; cbn zeta; [|intros []%finish_result]. apply queue_event in Hq as ->. intros _.
  eexists. split; [done|]. intros m es. apply on_course_more. intros staging v Hv. exists staging, v. split; [|by eapply passed_on_same; [..|exact Hv]].
  destruct Hv as (? & ? & ? & _ & _ & _ & _ & ->). rewrite mirror_run_cons. cbn [mirror_step mi_view mbind option_bind]. by rewrite Z.eqb_refl.
Qed.

Lemma link_command_course e sid c d l : OrderOk e.(order) → TrimSpace sid ≠ ""%string → edge_inv lim d → l.(lk_result) = None →
  let r := link_command writerQueueSize marshalDigest e sid c l d in
  edge_inv lim r.2 ∧ (r.1.(lk_result) = None → ∃ events, r.1.(lk_outbound) = l.(lk_outbound) ++ events
    ∧ ∀ m es, is_resync c ∨ on_course d l m es → on_course r.2 r.1 m (es ++ events)).
Proof.
  intros Ho Hid Hi Hl. unfold link_command. destruct c as [sid' revision|expected reason].
  - assert (Hsame : ∀ l', l'.(lk_feed) = l.(lk_feed) → l'.(lk_latestRevision) = l.(lk_latestRevision) → l'.(lk_outbound) = l.(lk_outbound) →
      ∃ events, l'.(lk_outbound) = l.(lk_outbound) ++ events ∧ ∀ m es, False ∨ on_course d l m es → on_course d l' m (es ++ events)).
    { intros l' E1 E2 E3. exists []. split; [by rewrite E3, app_nil_r|]. intros m es [[]|[H|(staging & v & H & Hv)]]; rewrite app_nil_r; [by left|right].
      exists staging, v. split; [done|]. by eapply passed_on_same; [..|exact Hv]. }
    destruct (lk_feed l) eqn:Hf; [destruct (revision =? _)|]; (split; [done|intros _; apply Hsame; by rewrite ?Hf]).
  - pose proof (start_snapshot e sid l d Ho Hid Hi) as (Hi' & Hs). destruct (startSnapshot _ _ _ _ _ _) as [l' d'] eqn:E. cbn [fst snd] in *.
    destruct (lk_result l') as [err|] eqn:Hr; cbn [fst snd]; (split; [done|]); [by rewrite Hr|]. intros _. destruct (Hs eq_refl) as (events & v & Hout & Hv & Hrun).
    exists events. split; [done|]. intros m es _. unfold on_course. rewrite mirror_run_app. destruct (mirror_run _ m es) as [m'|]; [right|by left].
    cbn [mbind option_bind]. exists None, v. split; [done|]. by eapply passed_on_same; [..|exact Hv].
Qed.

(** ** The stream *)
Lemma apply_event_tables now o cid event dir : tables_ok dir → OrderOk o → tables_ok (applyEvent mailboxSize marshalDigest now o cid event dir).1.1.
Proof.
  intros T Ho. destruct event as [b|k|e|delta|revision]; cbn [applyEvent].
  - pose proof (begin_tables cid (Some b) dir T) as H. by destruct (BeginSnapshot cid _ dir).
  - pose proof (append_tables cid (Some k) dir T) as H. by destruct (AppendSnapshot cid _ dir).
  - pose proof (commit_tables mailboxSize marshalDigest now cid (Some e) dir T) as H. by destruct (CommitSnapshot _ _ now cid _ dir) as [dir' [err|]].
  - pose proof (apply_delta_tables mailboxSize o cid (rd_Revision delta) (Some (rd_Change delta)) dir T) as H. by destruct (ApplyDelta _ _ cid _ _ dir).
  - pose proof (heartbeat_tables now cid (Some revision) dir T) as H. by destruct (Heartbeat now cid _ dir).
Qed.

Lemma send_command_spec c s : s.(cs_status) = None →
  cs_connectionID (send_command c s) = cs_connectionID s ∧ cs_expectedEventSeq (send_command c s) = cs_expectedEventSeq s
  ∧ (cs_status (send_command c s) = None → cs_outbound (send_command c s) = s.(cs_outbound) ++ [c]).
Proof. intros Hs. unfold send_command. by destruct (_ >=? _). Qed.

(** The event that is next: the mirror takes a step, or a new snapshot is asked for. *)
Lemma receive_course now o event s dir a m : s.(cs_status) = None → s.(cs_connectionID) = id → tables_ok dir → OrderOk o → mirrors id dir a m →
  let r := receive_event mailboxSize marshalDigest now o s.(cs_expectedEventSeq) event s dir in
  r.1.(cs_connectionID) = id ∧ tables_ok r.2 ∧ r.1.(cs_expectedEventSeq) = u64 (s.(cs_expectedEventSeq) + 1)
  ∧ ∃ m', mirrors id r.2 a m' ∧ (r.1.(cs_status) = None →
      ∃ answers, r.1.(cs_outbound) = s.(cs_outbound) ++ answers ∧ (Exists is_resync answers ∨ mirror_step marshalDigest m event = Some m')).
Proof.
  intros Hs Hid T Ho Hm. unfold receive_event. rewrite Z.eqb_refl. cbn [negb].
  set (s1 := s <| cs_expectedEventSeq := _ |>). pose proof (apply_event_tables now o id event dir T Ho) as T'.
  destruct (applyEvent _ _ _ _ _ _ _) as [[dir' response] err] eqn:E. cbn [fst] in T'. change (cs_connectionID s1) with (cs_connectionID s). rewrite Hid, E.
  destruct err as [[expected reason|err]|].
  - destruct (refused_mirror _ _ _ _ _ _ _ _ _ _ _ _ Hm E) as [m' Hm']. destruct (send_command_spec (ResyncRequired expected reason) s1 Hs) as (H1 & H2 & H3).
    destruct response; cbn [fst snd]; rewrite H1, H2; (split_and!; [done..|]); exists m'; (split; [done|]); intros H;
      exists [ResyncRequired expected reason]; (split; [by apply H3|left; by left]).
  - destruct (refused_mirror _ _ _ _ _ _ _ _ _ _ _ _ Hm E) as [m' Hm']. destruct response; cbn [fst snd]; (split_and!; [done..|]); by exists m'.
  - destruct (accepted_mirror _ _ _ _ _ _ _ _ _ _ _ T Hm E) as (m' & Hm' & Hstep). destruct response as [c|]; cbn [fst snd].
    + destruct (send_command_spec c s1 Hs) as (H1 & H2 & H3). rewrite H1, H2. split_and!; [done..|]. exists m'. split; [done|].
      intros H. exists [c]. split; [by apply H3|by right].
    + split_and!; [done..|]. exists m'. split; [done|]. intros _. exists []. split; [by rewrite app_nil_r|by right].
Qed.

(** ** Other requests to the directory *)
Lemma remove_connections i dir : (removeIndexes i dir).(dr_connections) = dir.(dr_connections).
Proof. unfold removeIndexes. by destruct (connection_at dir i ≫= cn_snapshot). Qed.
Lemma add_connections i dir : (addIndexes i dir).(dr_connections) = dir.(dr_connections).
Proof. unfold addIndexes. by destruct (connection_at dir i) as [[? [?|] ? ?]|]. Qed.

Lemma connection_put i c dir : i ≠ id → connection_at (put_connection i c dir) id = connection_at dir id.
Proof. intros H. unfold connection_at, put_connection. cbn. by rewrite lookup_insert_ne. Qed.

Lemma other_connection now o op dir i : other_tables op →
  connection_at (run_dir mailboxSize marshalDigest now o op dir) i = connection_at dir i.
Proof.
  intros Ho. pose proof (run_other mailboxSize marshalDigest now o op dir Ho) as E. unfold tables in E. unfold connection_at.
  by injection E as -> _ _ _.
Qed.

Lemma elsewhere_connection now o op dir : tables_ok dir → is_Some (connection_at dir id) → elsewhere op →
  connection_at (run_dir mailboxSize marshalDigest now o op dir) id = connection_at dir id.
Proof.
  intros T [c0 Hc0]. destruct op as [a|i b|i k|i e|i r x|i h|i| | | | | | | |]; cbn [elsewhere]; intros Hi;
    try (by apply other_connection); cbn [run_dir].
  - unfold Attach. destruct (_ || _ || _ || _); [done|]. destruct (connection_at dir (at_ConnectionID _)) eqn:E; [done|]. apply connection_put. intros Ei. rewrite Ei in E. congruence.
  - unfold BeginSnapshot. destruct (requireConnection dir i); [|done]. destruct b; [|done]. destruct (String.eqb _ _); [done|by apply connection_put].
  - unfold AppendSnapshot. destruct (requireConnection dir i) as [c|]; [|done]. destruct k, (cn_staging c); try done. destruct (_ || _); [done|by apply connection_put].
  - unfold CommitSnapshot. destruct (requireConnection dir i) as [c|]; [|done]. destruct (completed _ _ _) as [s|]; cbn [fst]; [|by apply connection_put].
    unfold connection_at. rewrite publish_connections, add_connections. cbn. rewrite lookup_insert_ne, remove_connections by done. destruct (_ && _); [|done].
    cbn. by rewrite remove_connections.
  - unfold ApplyDelta. destruct (ValidateDelta r x); [done|]. destruct (requireCurrent dir i) as [[c s]|] eqn:Hc; [|done].
    apply require_current in Hc as (Hc & Hs & _ & Hok); [|done]. destruct (negb _); [done|]. destruct x as [x|]; [|done].
    destruct (applyDelta _ _ _ _ _ _) as [d'|] eqn:E; [|done]. destruct (runtimeDeltaEvent _) as [[kind y] op]. cbn [fst].
    unfold connection_at. rewrite publish_connections. revert E. unfold applyDelta. destruct x; cbn [rs_Agents rs_Sessions rs_Revision].
    + destruct (matchingDaemonAdmission _ _ _ _ _); cbn [result_bind]; [|done]. destruct (upsert_agent _ _); cbn [result_bind]; [|done].
      intros [= <-]. cbn. by rewrite lookup_insert_ne.
    + destruct (remove_agent _ _ _); cbn [result_bind]; [|done]. intros [= <-]. cbn. by rewrite lookup_insert_ne.
    + destruct (upsert_session _ _); cbn [result_bind]; [|done]. intros [= <-]. cbn. by rewrite lookup_insert_ne.
    + destruct (remove_session _ _ _); cbn [result_bind]; [|done]. intros [= <-]. cbn. by rewrite lookup_insert_ne.
  - unfold Heartbeat. destruct (requireCurrent dir i) as [[c s]|]; [|done]. destruct h; [|done]. destruct (_ =? _); [by apply connection_put|done].
  - unfold Detach. destruct (connection_at dir i) as [c|]; [|done]. unfold connection_at. cbn. rewrite lookup_delete_ne by done.
    destruct (String.eqb _ _); [|done]. rewrite publish_connections. cbn. by rewrite remove_connections.
Qed.

(** ** A step keeps the invariant *)

(** A step of the link: what it queues goes to the end of what is in flight. *)
Lemma link_moves a d l n ws s cs cs' dir d' l' : in_sync a (mkWorld d l n ws s cs dir) → l.(lk_result) = None → edge_inv lim d' →
  (l'.(lk_result) = None → ∃ events, l'.(lk_outbound) = l.(lk_outbound) ++ events
     ∧ ∀ m es, Exists is_resync cs ∧ ¬ Exists is_resync cs' ∨ on_course d l m es → on_course d' l' m (es ++ events)) →
  in_sync a (mkWorld d' l' n ws s cs' dir).
Proof.
  intros [? ? ? ? (m & Hm & Hc)] Hl Hi Hev. split; try done. exists m. split; [done|]. intros [Hl' Hs].
  destruct (Hev Hl') as (events & Hout & Hon). unfold resync_pending, in_flight in *. cbn [w_commands w_stream w_edge w_link w_wire] in *.
  destruct (Hc (conj Hl Hs)) as [Hr|Hr].
  - apply Exists_app in Hr as [Hr|Hr]; [|left; apply Exists_app; by right]. destruct (decide (Exists is_resync cs')) as [H'|H'].
    + left. apply Exists_app. by left.
    + right. rewrite Hout, app_assoc. apply Hon. by left.
  - right. rewrite Hout, app_assoc. apply Hon. by right.
Qed.

Lemma stream_moves a d l n ws s cs dir seq event now o : in_sync a (mkWorld d l n ((seq, event) :: ws) s cs dir) → s.(cs_status) = None → OrderOk o →
  let r := receive_event mailboxSize marshalDigest now o seq event s dir in in_sync a (mkWorld d l n ws r.1 cs r.2).
Proof.
  intros [Hi T Hid Hn (m & Hm & Hc)] Hs Ho. cbn [w_edge w_directory w_stream w_wire w_sequence] in *. specialize (Hn Hs). cbn [numbered fmap list_fmap fst] in Hn. destruct Hn as [-> Hn'].
  destruct (receive_course now o event s dir a m Hs Hid T Ho Hm) as (Hid' & T' & He & m' & Hm' & Hev).
  split; cbn [w_edge w_directory w_stream w_wire w_sequence]; [done..|by rewrite He|]. exists m'. split; [done|]. intros [Hl Hs'].
  destruct (Hev Hs') as (answers & Hout & Hres). unfold resync_pending, in_flight, on_course in *. cbn [w_commands w_stream w_edge w_link w_wire fmap list_fmap snd app] in *.
  rewrite Hout. destruct Hres as [Hr|Hstep]; [left; rewrite !Exists_app; by right; right|].
  destruct (Hc (conj Hl Hs)) as [Hr|Hr]; [left; rewrite !Exists_app in *; tauto|right].
  rewrite mirror_run_cons, Hstep in Hr. exact Hr.
Qed.

Lemma step_in_sync a w w' : world_step w w' → in_sync a w → in_sync a w'.
Proof.
  destruct 1 as [d l n ws s cs dir e o Ho Hop Hleaves|d l n ws s cs dir Hl|d l n ws s cs dir Hl|d l n ws s c cs dir e sid Hl Ho Hsid
    |d l n ws s cs dir event rest Hout|d l n seq event ws s cs dir now o Hs Ho|d l n ws s cs dir c rest Hout|d l n ws s cs dir now o op Ho Hel]; intros Hw.
  - destruct Hw as [Hi T Hid Hn (m & Hm & Hc)]. split; try done; [by apply exec_inv|]. exists m. split; [done|]. intros Halive.
    destruct (Hc Halive) as [Hr|[Hr|(staging & v & Hr & Hv)]]; [by left|by right; left|]. right; right. exists staging, v. split; [done|].
    eapply passed_on_fed; [|exact Hv]. intros feed Hf. apply exec_fed. by apply Hleaves.
  - destruct (link_delta_course d l (is_edge _ _ Hw) Hl) as [Hi Hev]. eapply link_moves; [done..|]. intros Hl'. destruct (Hev Hl') as (events & Hout & Hon).
    exists events. split; [done|]. intros m es [[]|]; [done|by apply Hon].
  - eapply link_moves; [done..|apply Hw|]. intros Hl'. destruct (link_heartbeat_course d l Hl Hl') as (events & Hout & Hon).
    exists events. split; [done|]. intros m es [[]|]; [done|by apply Hon].
  - destruct (link_command_course e sid c d l Ho Hsid (is_edge _ _ Hw) Hl) as [Hi Hev]. eapply link_moves; [done..|]. intros Hl'.
    destruct (Hev Hl') as (events & Hout & Hon). exists events. split; [done|]. intros m es H. apply Hon.
    destruct H as [[Hr Hnr]|]; [left|by right]. apply Exists_cons in Hr as [|]; done.
  - destruct Hw as [Hi T Hid Hn (m & Hm & Hc)]. split; try done.
    + intros Hs. cbn. rewrite fmap_app. cbn. apply numbered_snoc. by apply Hn.
    + exists m. split; [done|]. intros Halive. destruct (Hc Halive) as [Hr|Hr]; [by left|right]. unfold in_flight in *. cbn in *.
      rewrite fmap_app, <- app_assoc. cbn. rewrite Hout in Hr. destruct Hr as [Hr|(staging & v & Hr & Hv)]; [by left|right].
      exists staging, v. split; [done|]. by eapply passed_on_same; [..|exact Hv].
  - by eapply stream_moves.
  - destruct Hw as [Hi T Hid Hn (m & Hm & Hc)]. split; try done. exists m. split; [done|]. intros Halive.
    destruct (Hc Halive) as [Hr|Hr]; [left|by right]. unfold resync_pending in *. cbn in *. rewrite Hout in Hr. by rewrite <- app_assoc.
  - destruct Hw as [Hi T Hid Hn (m & Hm & Hc)]. split; try done; [by apply run_tables|]. exists m. split; [|done].
    destruct Hm as (c & Hcon & Hr). exists c. cbn in *. rewrite elsewhere_connection; [done..|by eexists|done].
Qed.

Lemma reached_in_sync a w w' : world_reaches w w' → in_sync a w → in_sync a w'.
Proof. induction 1 as [|w w1 w2 Hs _ IH]; [done|]. intros Hw. apply IH. by eapply step_in_sync. Qed.

Lemma connected_in_sync e sid d dir a : OrderOk e.(order) → TrimSpace sid ≠ ""%string → edge_inv lim d → tables_ok dir →
  mirrors id dir a (mkMirror None None) → in_sync a (connected e sid d dir).
Proof.
  intros Ho Hsid Hi T Hm. destruct (start_snapshot e sid new_link d Ho Hsid Hi) as [Hi' Hev]. unfold connected. split; try done.
  exists (mkMirror None None). split; [done|]. intros [Hl _]. destruct (Hev Hl) as (events & v & Hout & Hv & Hrun). right. right.
  exists None, v. split; [|done]. unfold in_flight. cbn [w_wire w_link fmap list_fmap app]. by rewrite Hout.
Qed.
End sync.

(** ** A run *)
Module SyncDemo.
Inductive act := AEdge (o : op) | ADelta | AHeartbeat | ACommand | AWrite | AReceive | AAnswer.
Definition digest (s : RuntimeSnapshot) : result string := Ok "digest"%string.

Definition play (a : act) (w : world) : option world :=
  let '(mkWorld d l n ws s cs dir) := w in
  match a with
  | AEdge (ORemoveSession k g as o) => Some (mkWorld (exec Demo.digest Demo.lim Demo.e o d) l n ws s cs dir)
  | AEdge _ => None
  | ADelta => match l.(lk_result) with None => Some (mkWorld (link_delta 8 l d).2 (link_delta 8 l d).1 n ws s cs dir) | _ => None end
  | AHeartbeat => match l.(lk_result) with None => Some (mkWorld d (link_heartbeat 8 l) n ws s cs dir) | _ => None end
  | ACommand =>
      match l.(lk_result), cs with
      | None, c :: cs => let r := link_command 8 digest Demo.e "snapshot" c l d in Some (mkWorld r.2 r.1 n ws s cs dir)
      | _, _ => None
      end
  | AWrite =>
      match l.(lk_outbound) with
      | event :: rest => Some (mkWorld d (l <| lk_outbound := rest |>) (u64 (n + 1)) (ws ++ [(u64 (n + 1), event)]) s cs dir)
      | [] => None
      end
  | AReceive =>
      match s.(cs_status), ws with
      | None, (seq, event) :: ws => let r := receive_event 8 digest 0 id_order seq event s dir in Some (mkWorld d l n ws r.1 cs r.2)
      | _, _ => None
      end
  | AAnswer => match s.(cs_outbound) with c :: rest => Some (mkWorld d l n ws (s <| cs_outbound := rest |>) (cs ++ [c]) dir) | [] => None end
  end.

Lemma play_step a w w' : play a w = Some w' → world_step Demo.digest Demo.lim 8 8 digest "c-a" w w'.
Proof.
  destruct w as [d l n ws s cs dir]. destruct a as [o| | | | | |]; cbn [play].
  - destruct o; try done. intros [= <-]. by apply (step_edge Demo.digest Demo.lim 8 8 digest "c-a" d l n ws s cs dir Demo.e (ORemoveSession sessionID generation)); [apply _|..].
  - destruct (lk_result l) eqn:E; [done|]. intros [= <-]. by constructor.
  - destruct (lk_result l) eqn:E; [done|]. intros [= <-]. by constructor.
  - destruct (lk_result l) eqn:E; [done|]. destruct cs as [|c cs]; [done|]. intros [= <-].
    by apply (step_command Demo.digest Demo.lim 8 8 digest "c-a" d l n ws s c cs dir Demo.e "snapshot"); [|apply _|].
  - destruct (lk_outbound l) eqn:E; [done|]. intros [= <-]. by constructor.
  - destruct (cs_status s) eqn:E; [done|]. destruct ws as [|[seq event] ws]; [done|]. intros [= <-].
    by apply (step_receive Demo.digest Demo.lim 8 8 digest "c-a" d l n seq event ws s cs dir 0 id_order); [|apply _].
  - destruct (cs_outbound s) eqn:E; [done|]. intros [= <-]. by constructor.
Qed.

Definition plays (acts : list act) (w : world) : option world := foldl (λ w a, w ≫= play a) (Some w) acts.
Lemma plays_reaches acts w w' : plays acts w = Some w' → world_reaches Demo.digest Demo.lim 8 8 digest "c-a" w w'.
Proof.
  unfold plays. revert w'. induction acts as [|a acts IH] using rev_ind; intros w'; [intros [= <-]; apply rtc_refl|].
  rewrite foldl_app. cbn. intros (w1 & Hw & Hs)%bind_Some. eapply rtc_r; [by apply IH|by eapply play_step].
Qed.

(** The Edge with a daemon and a session, at a Controller that has attached it. *)
Definition dir : directoryState := DirectoryDemo.run [DAttach (DirectoryDemo.edge "a" [])].
Definition start : world := connected 8 digest "c-a" Demo.e "snapshot" Demo.early dir.
(** The snapshot is published and accepted; then the session is closed, and the Controller learns of it. *)
Definition acts : list act :=
  [AWrite; AWrite; AReceive; AWrite; AReceive; AReceive; AAnswer; ACommand; AEdge (ORemoveSession "s1" 1); ADelta; AHeartbeat; AWrite; AReceive; AWrite; AReceive].
Definition w : world := default start (plays acts start).

Example demo_synced :
  (ep_SessionCount <$> Edge "a" w.(w_directory)) = Some 0 ∧ (ep_AgentCount <$> Edge "a" w.(w_directory)) = Some 1
  ∧ w.(w_link).(lk_snapshotAccepted) = true ∧ (v_revision (view_of w.(w_edge)), w.(w_link).(lk_result)) = (3, None).
Proof. vm_compute. by split_and!. Qed.
End SyncDemo.

(** ** The guarantee *)

(** Nothing is under way: the queues are empty, no new snapshot was asked for, and the feed is open and drained. *)
Definition quiet (w : world) : Prop :=
  in_flight w = [] ∧ ¬ resync_pending w
  ∧ ∃ feed f, w.(w_link).(lk_feed) = Some feed ∧ feed ∈ w.(w_edge).(subscribers) ∧ w.(w_edge).(feeds) !! feed = Some f ∧ f.(fd_queue) = [].

(** C2: The Controller shows what the Edge runs. However the requests to the Edge, the work of both ends of the control
    stream and the other requests to the directory interleave, with snapshots in chunks, deltas, heartbeats and new
    snapshots after a refusal: while the stream lives and nothing is under way, the snapshot the directory publishes for
    the connection holds exactly the revision, the agents and the sessions of the runtime state of the Edge. *)
Theorem directory_mirrors_edge digest lim writerQueueSize mailboxSize marshalDigest id buffer ops d instanceID dops dir c e snapshotID w
    (Hedge : reaches digest lim buffer ops d) (Hdir : dir_reaches mailboxSize marshalDigest instanceID dops dir)
    (Hattached : connection_at dir id = Some c) (Hfresh : c.(cn_snapshot) = None ∧ c.(cn_staging) = None)
    (Horder : OrderOk e.(order)) (Hid : TrimSpace snapshotID ≠ ""%string)
    (Hrun : world_reaches digest lim writerQueueSize mailboxSize marshalDigest id (connected writerQueueSize marshalDigest id e snapshotID d dir) w)
    (Halive : alive w) (Hquiet : quiet w) :
  ∃ c' s, connection_at w.(w_directory) id = Some c' ∧ c'.(cn_attachment) = c.(cn_attachment) ∧ c'.(cn_snapshot) = Some s
    ∧ view_of_snapshot s = view_of w.(w_edge).
Proof.
  assert (Hm : mirrors id dir c.(cn_attachment) (mkMirror None None)).
  { exists c. split_and!; [done..|]. unfold mirror_of. by destruct Hfresh as [-> ->]. }
  assert (Hs : in_sync lim marshalDigest id c.(cn_attachment) (connected writerQueueSize marshalDigest id e snapshotID d dir)).
  { eapply connected_in_sync; [done|done|by eapply reaches_inv|by eapply reached_tables|done]. }
  destruct (reached_in_sync _ _ _ _ _ _ _ _ _ Hrun Hs) as [Hi _ _ _ (m & (c' & Hc & Ha & Hmc) & Hcourse)].
  destruct Hquiet as (Hf & Hnr & feed & f & Hl & Hsub & Hfeed & Hq). destruct (Hcourse Halive) as [?|Hon]; [done|]. rewrite Hf in Hon.
  destruct Hon as [|(staging & v & [= ->] & feed' & f' & taken & Hl' & Hfeed' & Hsent & Hr & _)]; [done|].
  assert (feed' = feed) as -> by congruence. assert (f' = f) as -> by congruence. rewrite Hq, app_nil_r in Hsent. subst taken.
  destruct (fo_open _ (ei_feeds _ _ Hi) feed Hsub) as (f' & Hf' & Hv). assert (f' = f) as -> by congruence. rewrite Hr in Hv. injection Hv as ->.
  assert (Hv : view_of_snapshot <$> c'.(cn_snapshot) = Some (view_of (w_edge w))) by (change (mi_view (mirror_of c') = Some (view_of (w_edge w))); by rewrite Hmc).
  apply fmap_Some in Hv as (s & Es & Hv). by exists c', s.
Qed.

Lemma directory_mirrors_edge_witness :
  ∃ c s, connection_at SyncDemo.w.(w_directory) "c-a" = Some c ∧ c.(cn_snapshot) = Some s ∧ view_of_snapshot s = view_of SyncDemo.w.(w_edge).
Proof.
  assert (Hw : SyncDemo.plays SyncDemo.acts SyncDemo.start = Some SyncDemo.w) by (vm_compute; reflexivity).
  assert (Hc : is_Some (connection_at SyncDemo.dir "c-a")) by (vm_compute; eexists; reflexivity). destruct Hc as [c Hc].
  destruct (directory_mirrors_edge Demo.digest Demo.lim 8 8 SyncDemo.digest "c-a" 8 Demo.business_ops Demo.early "controller" _ SyncDemo.dir c
    Demo.e "snapshot" SyncDemo.w Demo.reached_early (DirectoryDemo.demo_reaches _) Hc) as (c' & s & H1 & _ & H2 & H3).
  - revert Hc. vm_compute. intros [= <-]. split; reflexivity.
  - apply _.
  - vm_compute. discriminate.
  - exact (SyncDemo.plays_reaches _ _ _ Hw).
  - split; vm_compute; reflexivity.
  - split; [vm_compute; reflexivity|]. split; [intros H; vm_compute in H; inversion H|]. exists 2, (default (mkFeed (mkSnapshot 0 [] []) [] []) (SyncDemo.w.(w_edge).(feeds) !! 2)).
    split; [vm_compute; reflexivity|]. split; [vm_compute; reflexivity|]. split; vm_compute; reflexivity.
  - exists c', s. split; [exact H1|split; [exact H2|exact H3]].
Defined.
