(* ===== verification/GoText.v ===== *)
(** * Text in Go: UTF-8, [strings.Split] and base64

    What [shared/remoteauth] uses of [unicode/utf8], [strings] and [base64.RawURLEncoding], on byte strings. *)
From S2P Require Import Prelude GoStd.
From Stdlib Require Import Ascii String.
Local Open Scope Z_scope.
Local Open Scope bool_scope.
Local Open Scope list_scope.

Definition byte_of (c : ascii) : Z := Z.of_N (N_of_ascii c).
Definition of_byte (z : Z) : ascii := ascii_of_N (Z.to_N z).

(** ** UTF-8 *)
Definition in_range (lo hi : Z) (c : ascii) : bool := (lo <=? byte_of c) && (byte_of c <=? hi).
Definition tail_byte := in_range 128 191.

(** The encodings [utf8.ValidString] accepts: no overlong one, no surrogate, nothing above U+10FFFF. *)
Fixpoint utf8_valid (s : list ascii) : bool :=
  match s with
  | [] => true
  | c :: s =>
      let b := byte_of c in
      if b <? 128 then utf8_valid s
      else if (194 <=? b) && (b <=? 223) then
        match s with c1 :: s => tail_byte c1 && utf8_valid s | _ => false end
      else if (224 <=? b) && (b <=? 239) then
        match s with
        | c1 :: c2 :: s => in_range (if b =? 224 then 160 else 128) (if b =? 237 then 159 else 191) c1 && tail_byte c2 && utf8_valid s
        | _ => false
        end
      else if (240 <=? b) && (b <=? 244) then
        match s with
        | c1 :: c2 :: c3 :: s =>
            in_range (if b =? 240 then 144 else 128) (if b =? 244 then 143 else 191) c1 && tail_byte c2 && tail_byte c3 && utf8_valid s
        | _ => false
        end
      else false
  end.
Definition ValidString (s : string) : bool := utf8_valid (string_bytes s).

(** [unicode.IsControl] on the runes of a valid text: U+0000 to U+001F, and U+007F to U+009F. *)
Fixpoint has_control (s : list ascii) : bool :=
  match s with
  | [] => false
  | c :: s =>
      (byte_of c <? 32) || (byte_of c =? 127)
      || (byte_of c =? 194) && match s with c1 :: _ => in_range 128 159 c1 | [] => false end
      || has_control s
  end.

(** ** [strings.Split] at one character, and [strings.Join] *)
Fixpoint split_at (sep : ascii) (s : list ascii) : list (list ascii) :=
  match s with
  | [] => [[]]
  | c :: s => if Ascii.eqb c sep then [] :: split_at sep s
              else match split_at sep s with [] => [[c]] | part :: parts => (c :: part) :: parts end
  end.
Definition Split (s : string) (sep : ascii) : list string := bytes_string <$> split_at sep (string_bytes s).
Definition Join (parts : list string) (sep : string) : string := String.concat sep parts.

(** ** [base64.RawURLEncoding] *)
Definition sextet_char (v : Z) : ascii :=
  if v <? 26 then of_byte (65 + v) else if v <? 52 then of_byte (71 + v) else if v <? 62 then of_byte (v - 4)
  else if v =? 62 then "-"%char else "_"%char.
Definition char_sextet (c : ascii) : option Z :=
  let b := byte_of c in
  if (65 <=? b) && (b <=? 90) then Some (b - 65) else if (97 <=? b) && (b <=? 122) then Some (b - 71)
  else if (48 <=? b) && (b <=? 57) then Some (b + 4) else if b =? 45 then Some 62 else if b =? 95 then Some 63 else None.

Fixpoint b64_encode (s : list ascii) : list ascii :=
  match s with
  | [] => []
  | [a] => [sextet_char (byte_of a / 4); sextet_char (byte_of a `mod` 4 * 16)]
  | [a; b] => [sextet_char (byte_of a / 4); sextet_char (byte_of a `mod` 4 * 16 + byte_of b / 16); sextet_char (byte_of b `mod` 16 * 4)]
  | a :: b :: c :: s =>
      sextet_char (byte_of a / 4) :: sextet_char (byte_of a `mod` 4 * 16 + byte_of b / 16)
        :: sextet_char (byte_of b `mod` 16 * 4 + byte_of c / 64) :: sextet_char (byte_of c `mod` 64) :: b64_encode s
  end.

(** The quantums of the decoder: the bits of the last sextet that are not used are not looked at. *)
Fixpoint b64_quantums (s : list Z) : option (list ascii) :=
  match s with
  | [] => Some []
  | [_] => None
  | [v; w] => Some [of_byte (v * 4 + w / 16)]
  | [v; w; x] => Some [of_byte (v * 4 + w / 16); of_byte (w `mod` 16 * 16 + x / 4)]
  | v :: w :: x :: y :: s =>
      (λ rest, of_byte (v * 4 + w / 16) :: of_byte (w `mod` 16 * 16 + x / 4) :: of_byte (x `mod` 4 * 64 + y) :: rest) <$> b64_quantums s
  end.
(** The decoder skips line ends. *)
Definition line_end (c : ascii) : bool := (byte_of c =? 13) || (byte_of c =? 10).
Definition b64_decode (s : list ascii) : option (list ascii) :=
  mapM char_sextet (filter (λ c, line_end c = false) s) ≫= b64_quantums.

Definition EncodeToString (s : string) : string := bytes_string (b64_encode (string_bytes s)).
Definition DecodeString (s : string) : result string :=
  match b64_decode (string_bytes s) with Some l => Ok (bytes_string l) | None => Err "illegal base64 data" end.

Example base64_known : EncodeToString "any TTY?>" = "YW55IFRUWT8-"%string ∧ DecodeString "YW55IFRUWT8-" = Ok "any TTY?>"%string
  ∧ DecodeString "YW5" = Ok "an"%string ∧ DecodeString "Y" = Err "illegal base64 data".
Proof. vm_compute. by split_and!. Qed.

(** ** Lemmas *)
Lemma byte_range c : 0 ≤ byte_of c < 256.
Proof. unfold byte_of. pose proof (N_ascii_bounded c). lia. Qed.
Lemma of_byte_of c : of_byte (byte_of c) = c.
Proof. unfold of_byte, byte_of. rewrite N2Z.id. apply ascii_N_embedding. Qed.
Lemma byte_of_byte z : 0 ≤ z < 256 → byte_of (of_byte z) = z.
Proof. intros H. unfold of_byte, byte_of. rewrite N_ascii_embedding; lia. Qed.

Lemma bytes_of_string s : bytes_string (string_bytes s) = s.
Proof. apply string_of_list_ascii_of_string. Qed.
Lemma string_of_bytes l : string_bytes (bytes_string l) = l.
Proof. apply list_ascii_of_string_of_list_ascii. Qed.

Lemma sextet_roundtrip v : 0 ≤ v < 64 → char_sextet (sextet_char v) = Some v.
Proof.
  intros Hv. unfold sextet_char. assert (Hc : ∀ z, 0 ≤ z < 256 → char_sextet (of_byte z) = (let b := z in
    if (65 <=? b) && (b <=? 90) then Some (b - 65) else if (97 <=? b) && (b <=? 122) then Some (b - 71)
    else if (48 <=? b) && (b <=? 57) then Some (b + 4) else if b =? 45 then Some 62 else if b =? 95 then Some 63 else None)).
  { intros z Hz. unfold char_sextet. by rewrite byte_of_byte. }
  repeat match goal with |- context [if ?b then _ else _] => destruct b eqn:? end; try (rewrite Hc by lia; cbv zeta);
    repeat match goal with |- context [if ?b then _ else _] => destruct b eqn:? end; try (f_equal; lia); try lia; [|].
  - assert (v = 62) as -> by lia. reflexivity.
  - assert (v = 63) as -> by lia. reflexivity.
Qed.

(** What base64 text is made of. *)
Definition b64_char (c : ascii) : Prop := is_Some (char_sextet c).
Lemma sextet_b64 v : 0 ≤ v < 64 → b64_char (sextet_char v).
Proof. intros H. exists v. by apply sextet_roundtrip. Qed.

Lemma b64_char_range c : b64_char c → 33 ≤ byte_of c < 127 ∧ byte_of c ≠ 46 ∧ line_end c = false.
Proof. intros [v H]. unfold char_sextet, line_end in *. repeat case_match; try done; lia. Qed.

(** Induction three bytes at a time. *)
Lemma triple_ind {A} (P : list A → Prop) :
  P [] → (∀ a, P [a]) → (∀ a b, P [a; b]) → (∀ a b c l, P l → P (a :: b :: c :: l)) → ∀ l, P l.
Proof. intros H0 H1 H2 H3. fix IH 1. intros [|a [|b [|c l]]]; [done|apply H1|apply H2|apply H3, IH]. Qed.

Lemma encode_chars l : Forall b64_char (b64_encode l).
Proof.
  induction l as [|a|a b|a b c l IH] using triple_ind; cbn [b64_encode]; [done|..];
    pose proof (byte_range a); try pose proof (byte_range b); try pose proof (byte_range c);
    repeat constructor; try (apply sextet_b64; Z.to_euclidean_division_equations; lia); done.
Qed.

Lemma b64_decode_encode l : b64_decode (b64_encode l) = Some l.
Proof.
  unfold b64_decode. rewrite list_filter_all by (intros c Hc; pose proof (proj1 (Forall_forall _ _) (encode_chars l) c Hc); by apply b64_char_range).
  enough (∃ vs, mapM char_sextet (b64_encode l) = Some vs ∧ b64_quantums vs = Some l) as (vs & -> & H) by done.
  induction l as [|a|a b|a b c l (vs & Hm & Hq)] using triple_ind; cbn [b64_encode mapM].
  - by exists [].
  - pose proof (byte_range a). rewrite !sextet_roundtrip by (Z.to_euclidean_division_equations; lia). cbn. eexists. split; [done|]. cbn.
    do 2 f_equal. rewrite <- (of_byte_of a) at 3. f_equal. Z.to_euclidean_division_equations; lia.
  - pose proof (byte_range a). pose proof (byte_range b). rewrite !sextet_roundtrip by (Z.to_euclidean_division_equations; lia). cbn. eexists. split; [done|]. cbn.
    do 2 f_equal; [|f_equal]; [rewrite <- (of_byte_of a) at 3|rewrite <- (of_byte_of b) at 3]; f_equal; Z.to_euclidean_division_equations; lia.
  - pose proof (byte_range a). pose proof (byte_range b). pose proof (byte_range c).
    rewrite !sextet_roundtrip by (Z.to_euclidean_division_equations; lia). cbn. rewrite Hm. cbn. eexists. split; [done|]. cbn [b64_quantums]. rewrite Hq. cbn.
    f_equal. f_equal; [|f_equal; [|f_equal]]; [rewrite <- (of_byte_of a) at 3|rewrite <- (of_byte_of b) at 3|rewrite <- (of_byte_of c) at 3]; f_equal;
      Z.to_euclidean_division_equations; lia.
Qed.

Lemma DecodeString_Encode s : DecodeString (EncodeToString s) = Ok s.
Proof. unfold DecodeString, EncodeToString. by rewrite string_of_bytes, b64_decode_encode, bytes_of_string. Qed.

Lemma EncodeToString_inj s t : EncodeToString s = EncodeToString t → s = t.
Proof. intros E. pose proof (DecodeString_Encode s) as H. rewrite E, DecodeString_Encode in H. by injection H. Qed.

(** ** Trimming *)
Definition plain (c : ascii) : Prop := 33 ≤ byte_of c < 127.
Definition plain_text (s : string) : Prop := Forall plain (string_bytes s).

Lemma strip_prefix sp s t r : strip sp s = Some r → strip sp (s ++ t) = Some (r ++ t).
Proof. revert s. induction sp as [|a sp IH]; intros s; [by intros [= ->]|]. destruct s as [|b s]; [done|]. cbn. destruct (Ascii.eqb a b); [apply IH|done]. Qed.

Lemma strip_any_None sps s : strip_any sps s = None ↔ ∀ sp, sp ∈ sps → strip sp s = None.
Proof.
  induction sps as [|sp sps IH]; cbn [strip_any]; [split; [by intros _ ? ?%elem_of_nil|done]|]. destruct (strip sp s) eqn:E.
  - split; [done|]. intros H. rewrite H in E; [done|by left].
  - rewrite IH. split; [intros H sp' [->|?]%elem_of_cons; auto|]. intros H sp' ?. apply H. by right.
Qed.

Lemma strip_any_prefix sps s t : strip_any sps (s ++ t) = None → strip_any sps s = None.
Proof.
  rewrite !strip_any_None. intros H sp Hsp. specialize (H sp Hsp). destruct (strip sp s) as [r|] eqn:E; [|done].
  by rewrite (strip_prefix _ _ t _ E) in H.
Qed.

Lemma strip_shorter sp s r : sp ≠ [] → strip sp s = Some r → (List.length r < List.length s)%nat.
Proof.
  intros Hsp E. assert (Hs : s = sp ++ r) by (revert s E; clear Hsp; induction sp as [|a sp IH]; intros [|b s] E; cbn in *; try congruence;
    destruct (Ascii.eqb_spec a b); [subst; f_equal; by apply IH|done]).
  rewrite Hs, length_app. destruct sp; [done|]. cbn. lia.
Qed.

Lemma strip_any_Some sps s r : strip_any sps s = Some r → ∃ sp, sp ∈ sps ∧ strip sp s = Some r.
Proof.
  induction sps as [|sp sps IH]; cbn [strip_any]; [done|]. destruct (strip sp s) eqn:E; [intros [= ->]; exists sp; by split; [left|]|].
  intros (sp' & Hin & H)%IH. exists sp'. by split; [right|].
Qed.

Lemma trim_front_done sps fuel s : [] ∉ sps → (List.length s ≤ fuel)%nat →
  strip_any sps (trim_front sps fuel s) = None ∧ ∃ p, s = p ++ trim_front sps fuel s.
Proof.
  intros Hsps. revert s. induction fuel as [|fuel IH]; intros s Hl; cbn [trim_front].
  - destruct s; [|cbn in Hl; lia]. split; [|by exists []]. apply strip_any_None. intros [|a sp] Hin; done.
  - destruct (strip_any sps s) as [r|] eqn:E; [|split; [done|by exists []]].
    apply strip_any_Some in E as (sp & Hin & Hr). assert (Hne : sp ≠ []) by (by intros ->).
    pose proof (strip_shorter _ _ _ Hne Hr). destruct (IH r) as [Hd [p Hp]]; [lia|]. split; [done|].
    exists (sp ++ p). rewrite <- app_assoc, <- Hp. clear -Hr. revert s Hr. induction sp as [|a sp IH]; intros [|b s] E; cbn in *; try congruence.
    destruct (Ascii.eqb_spec a b); [subst; f_equal; by apply IH|done].
Qed.

Lemma trim_front_id sps fuel s : strip_any sps s = None → trim_front sps fuel s = s.
Proof. intros H. destruct fuel; cbn; [done|]. by rewrite H. Qed.

Lemma no_empty_space : [] ∉ spaces ∧ [] ∉ ((λ sp, rev sp) <$> spaces).
Proof. split; vm_compute; intros H; repeat (apply elem_of_cons in H as [H|H]; [done|]); by apply elem_of_nil in H. Qed.

Lemma TrimSpace_trimmed s : strip_any spaces (string_bytes s) = None → strip_any ((λ sp, rev sp) <$> spaces) (rev (string_bytes s)) = None → TrimSpace s = s.
Proof. intros H1 H2. unfold TrimSpace. cbv zeta. rewrite (trim_front_id spaces) by done. rewrite (trim_front_id (_ <$> spaces)) by done. rewrite rev_involutive. apply bytes_of_string. Qed.

Lemma TrimSpace_idemp s : TrimSpace (TrimSpace s) = TrimSpace s.
Proof.
  pose proof no_empty_space as [N1 N2]. set (l := string_bytes s). destruct (trim_front_done spaces (List.length l) l N1 (le_n _)) as [D1 _].
  set (l1 := trim_front spaces (List.length l) l) in *.
  destruct (trim_front_done ((λ sp, rev sp) <$> spaces) (List.length l1) (rev l1) N2) as [D2 [p Hp]]; [by rewrite length_rev|].
  apply TrimSpace_trimmed; unfold TrimSpace; fold l; fold l1; rewrite string_of_bytes; [|by rewrite rev_involutive].
  apply (strip_any_prefix _ _ (rev p)). rewrite <- rev_app_distr, <- Hp. by rewrite rev_involutive.
Qed.

Lemma strip_any_plain c s : plain c → strip_any spaces (c :: s) = None ∧ strip_any ((λ sp, rev sp) <$> spaces) (c :: s) = None.
Proof.
  intros Hc. assert (Hhead : ∀ sps, Forall (λ sp, match sp with a :: _ => byte_of a < 33 ∨ 127 ≤ byte_of a | [] => False end) sps → strip_any sps (c :: s) = None).
  { intros sps H. apply strip_any_None. intros sp Hsp. pose proof (proj1 (Forall_forall _ _) H sp Hsp) as Ha. destruct sp as [|a sp]; [done|]. cbn.
    destruct (Ascii.eqb_spec a c) as [->|]; [|done]. unfold plain in Hc. lia. }
  split; apply Hhead; vm_compute; repeat (constructor; [first [left; reflexivity|right; discriminate]|]); constructor.
Qed.

Lemma TrimSpace_plain s : plain_text s → TrimSpace s = s.
Proof.
  intros H. unfold plain_text in H. apply TrimSpace_trimmed.
  - destruct (string_bytes s) as [|c l]; [done|]. destruct (strip_any_plain c l) as [E _]; [by apply Forall_cons in H as [? _]|exact E].
  - apply Forall_rev in H. destruct (rev (string_bytes s)) as [|c l]; [done|]. destruct (strip_any_plain c l) as [_ E]; [by apply Forall_cons in H as [? _]|exact E].
Qed.

Lemma utf8_plain s : plain_text s → ValidString s = true.
Proof.
  unfold plain_text, ValidString. induction (string_bytes s) as [|c l IH]; [done|]. intros [Hc Hl]%Forall_cons. cbn. unfold plain in Hc.
  rewrite (proj2 (Z.ltb_lt (byte_of c) 128)) by lia. by apply IH.
Qed.

Lemma string_bytes_app s t : string_bytes (s +:+ t) = string_bytes s ++ string_bytes t.
Proof. unfold string_bytes. induction s as [|c s IH]; [done|]. cbn. by rewrite <- IH. Qed.
Lemma plain_app s t : plain_text s → plain_text t → plain_text (s +:+ t).
Proof. unfold plain_text. rewrite string_bytes_app. intros. by apply Forall_app. Qed.
Lemma plain_base64 s : plain_text (EncodeToString s).
Proof.
  unfold plain_text, EncodeToString. rewrite string_of_bytes. eapply Forall_impl; [apply encode_chars|]. intros c Hc. by apply b64_char_range in Hc as [? _].
Qed.

(** ** Splitting *)
Lemma split_at_app sep a s : sep ∉ a → split_at sep (a ++ sep :: s) = a :: split_at sep s.
Proof.
  induction a as [|c a IH]; intros Ha; cbn.
  - by rewrite Ascii.eqb_refl.
  - apply not_elem_of_cons in Ha as [Hc Ha]. destruct (Ascii.eqb_spec c sep) as [->|]; [done|]. by rewrite IH.
Qed.
Lemma split_at_last sep a : sep ∉ a → split_at sep a = [a].
Proof.
  induction a as [|c a IH]; intros Ha; cbn; [done|]. apply not_elem_of_cons in Ha as [Hc Ha]. destruct (Ascii.eqb_spec c sep) as [->|]; [done|]. by rewrite IH.
Qed.

Lemma no_dot s : ("."%char : ascii) ∉ string_bytes (EncodeToString s).
Proof.
  unfold EncodeToString. rewrite string_of_bytes. intros H. pose proof (proj1 (Forall_forall _ _) (encode_chars (string_bytes s)) _ H) as Hc.
  by apply b64_char_range in Hc as (_ & ? & _).
Qed.

(** ** Trimming keeps valid text *)
Lemma in_range_tail lo hi c : 128 ≤ lo → hi ≤ 191 → in_range lo hi c = true → tail_byte c = true.
Proof. unfold tail_byte, in_range. lia. Qed.

(** Before a byte that starts a character a valid text may be cut. *)
Lemma utf8_cut p c q : utf8_valid (p ++ c :: q) = true → tail_byte c = false → utf8_valid p = true.
Proof.
  intros Hv Hc. revert Hv. remember (List.length p) as n eqn:Hn. assert (Hle : (List.length p ≤ n)%nat) by lia. clear Hn. revert p Hle.
  assert (Ht : ∀ lo hi, 128 ≤ lo → hi ≤ 191 → in_range lo hi c = false).
  { intros lo hi H1 H2. destruct (in_range lo hi c) eqn:E; [|done]. by rewrite (in_range_tail lo hi) in Hc. }
  assert (Ht' : ∀ b, in_range (if b =? 224 then 160 else 128) (if b =? 237 then 159 else 191) c = false
                   ∧ in_range (if b =? 240 then 144 else 128) (if b =? 244 then 143 else 191) c = false).
  { intros b. split; apply Ht; case_match; lia. }
  induction n as [|n IH]; intros p Hle; [by destruct p; [|cbn in Hle; lia]|].
  destruct p as [|b p]; [done|]. cbn [app utf8_valid List.length] in *. destruct (byte_of b <? 128); [intros H; apply IH; [lia|exact H]|].
  destruct (_ && _).
  { destruct p as [|b1 p]; cbn [app List.length] in *; [by rewrite Hc|]. intros [H1 H2]%andb_true_iff. rewrite H1. apply IH; [lia|exact H2]. }
  destruct (_ && _).
  { destruct p as [|b1 [|b2 p]]; cbn [app List.length] in *.
    - destruct q; [done|]. by rewrite (proj1 (Ht' _)).
    - rewrite Hc, andb_false_r. done.
    - intros [[H1 H2]%andb_true_iff H3]%andb_true_iff. rewrite H1, H2. apply IH; [lia|exact H3]. }
  destruct (_ && _); [|done].
  destruct p as [|b1 [|b2 [|b3 p]]]; cbn [app List.length] in *.
  - destruct q as [|? [|??]]; [done..|]. by rewrite (proj2 (Ht' _)).
  - destruct q; [done|]. rewrite Hc, andb_false_r. done.
  - rewrite Hc, andb_false_r. done.
  - intros [[[H1 H2]%andb_true_iff H3]%andb_true_iff H4]%andb_true_iff. rewrite H1, H2, H3. apply IH; [lia|exact H4].
Qed.

Lemma utf8_after_space r : Forall (λ sp, utf8_valid (sp ++ r) = utf8_valid r) spaces.
Proof. unfold spaces. cbn. repeat (constructor; [reflexivity|]). constructor. Qed.
Lemma space_heads : Forall (λ sp, match sp with a :: _ => tail_byte a = false | [] => False end) spaces.
Proof. unfold spaces. cbn. repeat (constructor; [reflexivity|]). constructor. Qed.

Lemma strip_spec sp s r : strip sp s = Some r → s = sp ++ r.
Proof.
  revert s. induction sp as [|a sp IH]; intros [|b s] E; cbn in *; try congruence.
  destruct (Ascii.eqb_spec a b); [subst; f_equal; by apply IH|done].
Qed.

Lemma TrimSpace_valid s : ValidString s = true → ValidString (TrimSpace s) = true.
Proof.
  unfold ValidString, TrimSpace. rewrite string_of_bytes. generalize (string_bytes s) as l. intros l Hl.
  assert (Hfront : ∀ fuel l, utf8_valid l = true → utf8_valid (trim_front spaces fuel l) = true).
  { clear. induction fuel as [|fuel IH]; intros l Hl; cbn [trim_front]; [done|]. destruct (strip_any spaces l) as [r|] eqn:E; [|done].
    apply IH. apply strip_any_Some in E as (sp & Hin & ->%strip_spec). pose proof (proj1 (Forall_forall _ _) (utf8_after_space r) sp Hin) as <-. done. }
  assert (Hback : ∀ fuel l, utf8_valid (rev l) = true → utf8_valid (rev (trim_front ((λ sp, rev sp) <$> spaces) fuel l)) = true).
  { clear. induction fuel as [|fuel IH]; intros l Hl; cbn [trim_front]; [done|]. destruct (strip_any _ l) as [r|] eqn:E; [|done].
    apply IH. apply strip_any_Some in E as (sp' & (sp & -> & Hin)%list_elem_of_fmap & ->%strip_spec). rewrite rev_app_distr, rev_involutive in Hl.
    pose proof (proj1 (Forall_forall _ _) space_heads sp Hin) as Hh. destruct sp as [|a sp]; [done|]. by eapply utf8_cut. }
  apply Hback. rewrite rev_involutive. by apply Hfront.
Qed.
