(* ===== verification/RemoteGrant.v ===== *)
(** * Capability grants

    [shared/remoteauth/grant.go] and the scope lists of [pairing.go]: what a client may do ([Scope]), the claims a
    daemon signs for one client key, the text of a grant and how a daemon checks one.

    Ed25519, SHA-256 and the JSON encoding of the claims are a class with the laws that are relied on. Keys, digests and
    signatures are byte strings. *)
From S2P Require Import Prelude GoStd GoText.
From Stdlib Require Import Ascii String.
Local Open Scope string_scope.
Local Open Scope Z_scope.
Local Open Scope bool_scope.

Definition ErrGrantMalformed : goerr := "remote capability grant malformed".
Definition ErrGrantFingerprintMismatch : goerr := "remote capability grant fingerprint mismatch".
Definition ErrGrantSignatureInvalid : goerr := "remote capability grant signature invalid".
Definition ErrGrantNotActive : goerr := "remote capability grant not active".
Definition ErrGrantExpired : goerr := "remote capability grant expired".
Definition ErrGrantRevoked : goerr := "remote capability grant revoked".
Definition ErrGrantScopeInvalid : goerr := "remote capability grant scope invalid".
(** [fmt.Errorf("%w: ...")]. *)
Definition wrap (err detail : goerr) : goerr := err +:+ ": " +:+ detail.

(** ** Scopes *)
Record Scope := mkScope {
  AllowDaemon : bool; TerminalID : string; MachineEventsOnly : bool; FileReadMetadata : bool; FileReadContent : bool;
  FileWriteContent : bool; FileMutate : bool; ManageClientAccess : bool }.
#[export] Instance Scope_eq_dec : EqDecision Scope.
Proof. solve_decision. Defined.
#[export] Instance eta_Scope : Eta Scope := λ s,
  mkScope s.(AllowDaemon) s.(TerminalID) s.(MachineEventsOnly) s.(FileReadMetadata) s.(FileReadContent) s.(FileWriteContent)
    s.(FileMutate) s.(ManageClientAccess).

Definition FullDaemonScope : Scope := mkScope true "" false true true true true false.
Definition no_scope : Scope := mkScope false "" false false false false false false.

Definition validateScope (scope : Scope) : option goerr :=
  if negb (ValidString scope.(TerminalID)) then Some (wrap ErrGrantScopeInvalid "terminal ID must be valid UTF-8")
  else
    let terminal := negb (String.eqb (TrimSpace scope.(TerminalID)) "") in
    let capabilities := Z.b2z scope.(AllowDaemon) + Z.b2z terminal + Z.b2z scope.(MachineEventsOnly) in
    if (capabilities =? 0) then Some (wrap ErrGrantScopeInvalid "requires explicit scope")
    else if negb (capabilities =? 1) then Some (wrap ErrGrantScopeInvalid "scopes are mutually exclusive")
    else if (scope.(FileReadMetadata) || scope.(FileReadContent) || scope.(FileWriteContent) || scope.(FileMutate))
              && negb scope.(AllowDaemon)
    then Some (wrap ErrGrantScopeInvalid "file permissions require daemon scope")
    else None.

Definition pairingScopeDaemon : string := "base:daemon".
Definition pairingScopeMachineEvent : string := "base:machine_events".
Definition pairingScopeTerminal : string := "base:terminal:".
Definition pairingScopeFileMetadata : string := "file:read_metadata".
Definition pairingScopeFileRead : string := "file:read_content".
Definition pairingScopeFileWrite : string := "file:write_content".
Definition pairingScopeFileMutate : string := "file:mutate".
Definition pairingScopeManageAccess : string := "manage:client_access".

(** [sort.Strings]. *)
Definition string_before (a b : string) : Prop := string_le a b = true.
#[export] Instance string_before_dec : RelDecision string_before.
Proof. intros a b. unfold string_before. apply _. Defined.

Definition pairingScopeStrings (scope : Scope) : result (list string) :=
  match validateScope scope with
  | Some err => Err err
  | None =>
      let base :=
        if scope.(AllowDaemon) then [pairingScopeDaemon]
        else if negb (String.eqb scope.(TerminalID) "") then [pairingScopeTerminal +:+ EncodeToString (TrimSpace scope.(TerminalID))]
        else if scope.(MachineEventsOnly) then [pairingScopeMachineEvent] else [] in
      let add (b : bool) (value : string) := if b then [value] else [] in
      Ok (merge_sort string_before
            (base ++ add scope.(FileReadMetadata) pairingScopeFileMetadata ++ add scope.(FileReadContent) pairingScopeFileRead
               ++ add scope.(FileWriteContent) pairingScopeFileWrite ++ add scope.(FileMutate) pairingScopeFileMutate
               ++ add scope.(ManageClientAccess) pairingScopeManageAccess)%list)
  end.

(** One value of the list, read into the scope. *)
Definition scope_value (scope : Scope) (value : string) : result Scope :=
  if String.eqb value pairingScopeDaemon then Ok (scope <| AllowDaemon := true |>)
  else if String.eqb value pairingScopeMachineEvent then Ok (scope <| MachineEventsOnly := true |>)
  else if String.eqb value pairingScopeFileMetadata then Ok (scope <| FileReadMetadata := true |>)
  else if String.eqb value pairingScopeFileRead then Ok (scope <| FileReadContent := true |>)
  else if String.eqb value pairingScopeFileWrite then Ok (scope <| FileWriteContent := true |>)
  else if String.eqb value pairingScopeFileMutate then Ok (scope <| FileMutate := true |>)
  else if String.eqb value pairingScopeManageAccess then Ok (scope <| ManageClientAccess := true |>)
  else if negb (String.prefix pairingScopeTerminal value) then Err (wrap ErrGrantScopeInvalid "unknown pairing scope")
  else match DecodeString (String.substring (String.length pairingScopeTerminal) (String.length value) value) with
       | Err _ => Err (wrap ErrGrantScopeInvalid "terminal pairing scope is invalid")
       | Ok terminalID =>
           if String.eqb terminalID "" || negb (String.eqb terminalID (TrimSpace terminalID))
           then Err (wrap ErrGrantScopeInvalid "terminal pairing scope is invalid")
           else Ok (scope <| TerminalID := terminalID |>)
       end.
Fixpoint scope_values (scope : Scope) (previous : string) (values : list string) : result Scope :=
  match values with
  | [] => Ok scope
  | value :: values =>
      if String.eqb value "" || negb (String.eqb value (TrimSpace value))
         || negb (String.eqb previous "") && string_le value previous
      then Err (wrap ErrGrantScopeInvalid "pairing scope list is not canonical")
      else let? scope := scope_value scope value in scope_values scope value values
  end.
Definition pairingScopeFromStrings (values : list string) : result Scope :=
  let? scope := scope_values no_scope "" values in
  match validateScope scope with Some err => Err err | None => Ok scope end.

(** ** Claims *)

(** A [time.Time] is the nanoseconds since the Unix epoch: [UTC] is the identity. *)
Record Claims := mkGrantClaims {
  gc_Version : Z; gc_GrantID : string; gc_IssuerDeviceID : string; gc_IssuerDeviceFingerprint : string;
  gc_SubjectKeyFingerprint : string; gc_Scope : Scope; gc_IssuedAt : Z; gc_NotBefore : Z; gc_ExpiresAt : Z;
  gc_RevocationID : string; gc_Nonce : string }.
#[export] Instance Claims_eq_dec : EqDecision Claims.
Proof. solve_decision. Defined.
#[export] Instance eta_Claims : Eta Claims := λ c,
  mkGrantClaims c.(gc_Version) c.(gc_GrantID) c.(gc_IssuerDeviceID) c.(gc_IssuerDeviceFingerprint) c.(gc_SubjectKeyFingerprint)
    c.(gc_Scope) c.(gc_IssuedAt) c.(gc_NotBefore) c.(gc_ExpiresAt) c.(gc_RevocationID) c.(gc_Nonce).

Definition normalizeClaims (c : Claims) : Claims :=
  mkGrantClaims c.(gc_Version) (TrimSpace c.(gc_GrantID)) (TrimSpace c.(gc_IssuerDeviceID)) (TrimSpace c.(gc_IssuerDeviceFingerprint))
    (TrimSpace c.(gc_SubjectKeyFingerprint)) (c.(gc_Scope) <| TerminalID := TrimSpace c.(gc_Scope).(TerminalID) |>)
    c.(gc_IssuedAt) c.(gc_NotBefore) c.(gc_ExpiresAt) (TrimSpace c.(gc_RevocationID)) (TrimSpace c.(gc_Nonce)).

Definition validateClaims (c : Claims) : option goerr :=
  if negb (c.(gc_Version) =? 2) then Some (wrap ErrGrantMalformed "unsupported version")
  else if String.eqb c.(gc_GrantID) "" then Some (wrap ErrGrantMalformed "requires grant_id")
  else if String.eqb c.(gc_IssuerDeviceID) "" then Some (wrap ErrGrantMalformed "requires issuer_device_id")
  else if String.eqb c.(gc_IssuerDeviceFingerprint) "" then Some (wrap ErrGrantMalformed "requires issuer_device_fingerprint")
  else if String.eqb c.(gc_SubjectKeyFingerprint) "" then Some (wrap ErrGrantMalformed "requires subject_key_fingerprint")
  else if String.eqb c.(gc_RevocationID) "" || String.eqb c.(gc_Nonce) "" then Some (wrap ErrGrantMalformed "requires revocation_id and nonce")
  else match validateScope c.(gc_Scope) with
       | Some err => Some err
       | None =>
           if IsZero c.(gc_IssuedAt) || IsZero c.(gc_NotBefore) || IsZero c.(gc_ExpiresAt)
              || negb (After c.(gc_ExpiresAt) c.(gc_NotBefore)) || negb (After c.(gc_ExpiresAt) c.(gc_IssuedAt))
           then Some (wrap ErrGrantMalformed "requires valid issued_at, not_before and expires_at")
           else None
       end.

(** ** Cryptography and JSON *)
Definition PublicKeySize : Z := 32.
Definition PrivateKeySize : Z := 64.
Definition SignatureSize : Z := 64.
Definition byte_len (s : string) : Z := Z.of_nat (String.length s).

Class RemoteCrypto := {
  Sum256 : string → string;
  Public : string → string;                     (* the public key of a private one *)
  Sign : string → string → string;
  VerifySignature : string → string → string → bool;
  marshalClaims : Claims → result string;
  unmarshalClaims : string → result Claims }.   (* strict: no unknown field, no trailing data *)

(** JSON keeps strings that are valid UTF-8. *)
Definition claims_text (c : Claims) : Prop :=
  Forall (λ s, ValidString s = true)
    [c.(gc_GrantID); c.(gc_IssuerDeviceID); c.(gc_IssuerDeviceFingerprint); c.(gc_SubjectKeyFingerprint); c.(gc_Scope).(TerminalID);
     c.(gc_RevocationID); c.(gc_Nonce)].

Class RemoteCryptoLaws `{RemoteCrypto} : Prop := {
  sum_size m : byte_len (Sum256 m) = 32;
  public_size sk : byte_len sk = PrivateKeySize → byte_len (Public sk) = PublicKeySize;
  sign_size sk m : byte_len (Sign sk m) = SignatureSize;
  sign_verifies sk m : byte_len sk = PrivateKeySize → VerifySignature (Public sk) m (Sign sk m) = true;
  claims_roundtrip c p : claims_text c → marshalClaims c = Ok p → unmarshalClaims p = Ok c }.

(** ** Grants *)
Section grant.
Context `{RemoteCrypto}.

Definition grantPrefix : string := "anytty-grant-v2".
Definition Fingerprint (publicKey : string) : string := "ed25519-sha256:" +:+ EncodeToString (Sum256 publicKey).

(** The claims [Issue] signs; [nonce] is what [rand.Read] gives. *)
Definition issued_claims (publicKey : string) (claims : Claims) (nonce : option string) : result Claims :=
  let c := normalizeClaims claims in
  let c := if c.(gc_Version) =? 0 then c <| gc_Version := 2 |> else c in
  let c := if IsZero c.(gc_NotBefore) then c <| gc_NotBefore := c.(gc_IssuedAt) |> else c in
  let c := if String.eqb c.(gc_RevocationID) "" then c <| gc_RevocationID := c.(gc_GrantID) |> else c in
  let c := c <| gc_IssuerDeviceFingerprint := Fingerprint publicKey |> in
  if String.eqb c.(gc_Nonce) "" then
    match nonce with
    | Some nonce => Ok (c <| gc_Nonce := EncodeToString nonce |>)
    | None => Err "generate remote capability nonce"
    end
  else Ok c.

Definition signingInput (payload publicKey : string) : string := Join [grantPrefix; EncodeToString payload; EncodeToString publicKey] ".".

Definition Issue (privateKey : string) (claims : Claims) (nonce : option string) : result string :=
  if negb (byte_len privateKey =? PrivateKeySize) then Err (wrap ErrGrantMalformed "requires ed25519 private key")
  else
    let publicKey := Public privateKey in
    let? c := issued_claims publicKey claims nonce in
    match validateClaims c with
    | Some err => Err err
    | None =>
        let? payload := marshalClaims c in
        let input := signingInput payload publicKey in
        Ok (input +:+ "." +:+ EncodeToString (Sign privateKey input))
    end.

Definition verifyGrantEnvelope (grant expectedFingerprint : string) : result Claims :=
  match Split (TrimSpace grant) "." with
  | [prefix; payloadPart; publicPart; signaturePart] =>
      if negb (String.eqb prefix grantPrefix) then Err (wrap ErrGrantMalformed "unsupported envelope")
      else match DecodeString publicPart with
           | Err _ => Err (wrap ErrGrantMalformed "invalid public key")
           | Ok publicKey =>
               if negb (byte_len publicKey =? PublicKeySize) then Err (wrap ErrGrantMalformed "invalid public key")
               else
                 let fingerprint := Fingerprint publicKey in
                 if negb (String.eqb fingerprint (TrimSpace expectedFingerprint)) then Err ErrGrantFingerprintMismatch
                 else match DecodeString signaturePart with
                      | Err _ => Err ErrGrantSignatureInvalid
                      | Ok signature =>
                          if negb (VerifySignature publicKey (Join [prefix; payloadPart; publicPart] ".") signature) then Err ErrGrantSignatureInvalid
                          else match DecodeString payloadPart with
                               | Err _ => Err (wrap ErrGrantMalformed "decode payload")
                               | Ok payload =>
                                   match unmarshalClaims payload with
                                   | Err _ => Err (wrap ErrGrantMalformed "decode claims")
                                   | Ok claims =>
                                       let claims := normalizeClaims claims in
                                       if negb (String.eqb claims.(gc_IssuerDeviceFingerprint) fingerprint) then Err ErrGrantFingerprintMismatch
                                       else match validateClaims claims with Some err => Err err | None => Ok claims end
                                   end
                               end
                      end
           end
  | _ => Err (wrap ErrGrantMalformed "unsupported envelope")
  end.

(** [clock] is the time read when [now] is zero; [revocations] may be nil. *)
Definition Verify (grant expectedFingerprint : string) (now clock : Z) (revocations : option (string → bool)) : result Claims :=
  let? claims := verifyGrantEnvelope grant expectedFingerprint in
  let now := if IsZero now then clock else now in
  if now <? claims.(gc_NotBefore) then Err ErrGrantNotActive
  else if negb (now <? claims.(gc_ExpiresAt)) then Err ErrGrantExpired
  else match revocations with
       | Some revoked => if revoked claims.(gc_RevocationID) then Err ErrGrantRevoked else Ok claims
       | None => Ok claims
       end.
End grant.
