(* ===== verification/RemoteGrantTheorems.v ===== *)
(** * Grants and scope lists survive their text *)
From S2P Require Import Prelude GoStd GoText RemoteGrant.
From Stdlib Require Import Ascii String.
Local Open Scope string_scope.
Local Open Scope Z_scope.
Local Open Scope bool_scope.

(** ** Scope lists *)
Lemma substring_all s m : (String.length s ≤ m)%nat → String.substring 0 m s = s.
Proof. revert m. induction s as [|c s IH]; intros [|m] Hm; cbn in *; try done; [lia|]. rewrite IH; [done|lia]. Qed.
Lemma drop_prefix p s m : (String.length s ≤ m)%nat → String.substring (String.length p) m (p +:+ s) = s.
Proof. intros Hm. induction p as [|c p IH]; [by apply substring_all|]. exact IH. Qed.
Lemma length_prefix p s : String.length (p +:+ s) = (String.length p + String.length s)%nat.
Proof. induction p as [|c p IH]; cbn; [done|]. by rewrite <- IH. Qed.

Lemma prefix_app p s : String.prefix p (p +:+ s) = true.
Proof. induction p as [|c p IH]; [by destruct s|]. change (String c p +:+ s) with (String c (p +:+ s)). cbn [String.prefix]. destruct (Ascii.ascii_dec c c); [exact IH|done]. Qed.

Definition terminal_value (x : string) : string := pairingScopeTerminal +:+ EncodeToString x.

Lemma terminal_value_plain x : plain_text (terminal_value x).
Proof. apply plain_app; [|apply plain_base64]. unfold plain_text. vm_compute. repeat (constructor; [split; [discriminate|reflexivity]|]). constructor. Qed.

Lemma scope_value_terminal scope x : x ≠ "" → TrimSpace x = x → scope_value scope (terminal_value x) = Ok (scope <| TerminalID := x |>).
Proof.
  intros Hne Ht. unfold scope_value, terminal_value. set (v := EncodeToString x).
  assert (E : ∀ k, String.prefix pairingScopeTerminal k = false → String.eqb (pairingScopeTerminal +:+ v) k = false).
  { intros k Hk. apply String.eqb_neq. intros <-. by rewrite prefix_app in Hk. }
  rewrite !E by reflexivity. rewrite prefix_app. cbn [negb]. rewrite drop_prefix by (rewrite length_prefix; lia).
  unfold v. rewrite DecodeString_Encode, Ht, String.eqb_refl, (proj2 (String.eqb_neq x "") Hne). done.
Qed.

Lemma terminal_scope (manage : bool) x : x ≠ "" → TrimSpace x = x →
  scope_values no_scope "" (merge_sort string_before (terminal_value x :: if manage then [pairingScopeManageAccess] else []))
  = Ok (no_scope <| TerminalID := x |> <| ManageClientAccess := manage |>).
Proof.
  intros Hne Ht. pose proof (TrimSpace_plain _ (terminal_value_plain x)) as Hv.
  assert (Hn : String.eqb (terminal_value x) "" = false) by reflexivity.
  assert (Hfirst : ∀ rest, scope_values no_scope "" (terminal_value x :: rest) = scope_values (no_scope <| TerminalID := x |>) (terminal_value x) rest).
  { intros rest. cbn [scope_values]. rewrite Hv, String.eqb_refl, Hn, scope_value_terminal by done. reflexivity. }
  destruct manage.
  - assert (Es : merge_sort string_before [terminal_value x; pairingScopeManageAccess] = [terminal_value x; pairingScopeManageAccess]) by reflexivity.
    rewrite Es, Hfirst. cbn [scope_values]. rewrite Hn. reflexivity.
  - assert (Es : merge_sort string_before [terminal_value x] = [terminal_value x]) by reflexivity. rewrite Es, Hfirst. reflexivity.
Qed.

Ltac scope_cases := repeat match goal with b : bool |- _ => destruct b end.

(** A scope survives its list of strings: what [pairingScopeStrings] writes for a valid scope, [pairingScopeFromStrings]
    reads as the same capabilities, the terminal trimmed of white space; no capability appears or is lost. A terminal of
    white space alone is not covered: it is written as a terminal although the scope counts it as none. *)
Theorem scope_roundtrip scope values (Hterminal : scope.(TerminalID) = "" ∨ TrimSpace scope.(TerminalID) ≠ "")
    (Hwrite : pairingScopeStrings scope = Ok values) :
  pairingScopeFromStrings values = Ok (scope <| TerminalID := TrimSpace scope.(TerminalID) |>).
Proof.
  revert Hwrite. unfold pairingScopeStrings. destruct (validateScope scope) eqn:Hv; [done|]. intros [= <-].
  destruct scope as [daemon x machine meta content write mutate manage]. cbn [TerminalID AllowDaemon MachineEventsOnly FileReadMetadata FileReadContent FileWriteContent FileMutate ManageClientAccess] in *.
  unfold validateScope in Hv. cbn [TerminalID AllowDaemon MachineEventsOnly FileReadMetadata FileReadContent FileWriteContent FileMutate] in Hv.
  destruct (ValidString x) eqn:Hu; [cbn [negb] in Hv|done].
  destruct (String.eqb_spec (TrimSpace x) "") as [Et|Et]; cbn [negb Z.b2z] in Hv.
  - destruct Hterminal as [->|?]; [|done]. clear Hu Et. destruct daemon; [|destruct machine; [|done]]; scope_cases; try discriminate Hv; vm_compute; reflexivity.
  - destruct daemon; [by destruct machine|]. destruct machine; [done|]. cbn [negb] in Hv. rewrite andb_true_r in Hv. destruct (_ || _) eqn:Hfiles in Hv; [done|].
    apply orb_false_iff in Hfiles as [[[-> ->]%orb_false_iff ->]%orb_false_iff ->].
    assert (Hx : String.eqb x "" = false) by (apply String.eqb_neq; intros ->; by apply Et). rewrite Hx. cbn [negb app].
    fold (terminal_value (TrimSpace x)). unfold pairingScopeFromStrings. rewrite (terminal_scope manage _ Et (TrimSpace_idemp x)). cbn [result_bind].
    change (no_scope <| TerminalID := TrimSpace x |> <| ManageClientAccess := manage |>) with (mkScope false (TrimSpace x) false false false false false manage).
    unfold validateScope. cbn [TerminalID AllowDaemon MachineEventsOnly FileReadMetadata FileReadContent FileWriteContent FileMutate].
    rewrite (TrimSpace_valid _ Hu), TrimSpace_idemp, (proj2 (String.eqb_neq _ _) Et). reflexivity.
Qed.

Lemma scope_roundtrip_witness :
  let scope := mkScope false " term-1 " false false false false false true in
  pairingScopeStrings scope = Ok ["base:terminal:dGVybS0x"; "manage:client_access"]
  ∧ pairingScopeFromStrings ["base:terminal:dGVybS0x"; "manage:client_access"] = Ok (scope <| TerminalID := "term-1" |>).
Proof.
  split; [vm_compute; reflexivity|].
  rewrite (scope_roundtrip (mkScope false " term-1 " false false false false false true) ["base:terminal:dGVybS0x"; "manage:client_access"]).
  - vm_compute. reflexivity.
  - right. vm_compute. discriminate.
  - vm_compute. reflexivity.
Defined.

(** ** Grants *)
Section grant.
Context `{RemoteCryptoLaws}.

Lemma fingerprint_plain k : plain_text (Fingerprint k).
Proof. apply plain_app; [|apply plain_base64]. unfold plain_text. vm_compute. repeat (constructor; [split; [discriminate|reflexivity]|]). constructor. Qed.

Definition trimmed (s : string) : Prop := TrimSpace s = s.
Record claims_normal (c : Claims) : Prop := {
  cn_fields : Forall trimmed [c.(gc_GrantID); c.(gc_IssuerDeviceID); c.(gc_IssuerDeviceFingerprint); c.(gc_SubjectKeyFingerprint);
                              c.(gc_Scope).(TerminalID); c.(gc_RevocationID); c.(gc_Nonce)] }.

Lemma normal_fixed c : claims_normal c → normalizeClaims c = c.
Proof.
  intros [Hf]. repeat apply Forall_cons in Hf as [? Hf]. unfold trimmed, normalizeClaims in *. destruct c as [v1 v2 v3 v4 v5 [w1 w2 w3 w4 w5 w6 w7 w8] v7 v8 v9 v10 v11].
  cbn [gc_Version gc_GrantID gc_IssuerDeviceID gc_IssuerDeviceFingerprint gc_SubjectKeyFingerprint gc_Scope gc_IssuedAt gc_NotBefore gc_ExpiresAt gc_RevocationID gc_Nonce TerminalID] in *.
  repeat match goal with E : TrimSpace _ = _ |- _ => rewrite E; clear E end. reflexivity.
Qed.

Lemma normalize_normal c : claims_normal (normalizeClaims c).
Proof. split. unfold normalizeClaims. cbn. repeat (constructor; [apply TrimSpace_idemp|]). constructor. Qed.

Lemma issued_spec k claims nonce c : claims_text (normalizeClaims claims) → issued_claims k claims nonce = Ok c →
  claims_normal c ∧ claims_text c ∧ c.(gc_IssuerDeviceFingerprint) = Fingerprint k
  ∧ (c.(gc_GrantID), c.(gc_IssuerDeviceID), c.(gc_SubjectKeyFingerprint), c.(gc_Scope), c.(gc_IssuedAt), c.(gc_ExpiresAt))
    = (let n := normalizeClaims claims in (n.(gc_GrantID), n.(gc_IssuerDeviceID), n.(gc_SubjectKeyFingerprint), n.(gc_Scope), n.(gc_IssuedAt), n.(gc_ExpiresAt)))
  ∧ c.(gc_NotBefore) = (if IsZero claims.(gc_NotBefore) then claims.(gc_IssuedAt) else claims.(gc_NotBefore)).
Proof.
  intros Ht. destruct (normalize_normal claims) as [Hf]. unfold claims_text in Ht.
  repeat apply Forall_cons in Ht as [? Ht]. repeat apply Forall_cons in Hf as [? Hf]. unfold issued_claims.
  set (n := normalizeClaims claims) in *. assert (En : gc_NotBefore n = gc_NotBefore claims ∧ gc_IssuedAt n = gc_IssuedAt claims) by done. destruct En as [En1 En2].
  rewrite <- En1, <- En2. clearbody n.
  destruct n as [version gid dev fp sub sc ia nb ea rev non]. cbn [gc_Version gc_GrantID gc_IssuerDeviceID gc_IssuerDeviceFingerprint gc_SubjectKeyFingerprint gc_Scope gc_IssuedAt gc_NotBefore gc_ExpiresAt gc_RevocationID gc_Nonce] in *.
  pose proof (fingerprint_plain k) as Hp. pose proof (TrimSpace_plain _ Hp). pose proof (utf8_plain _ Hp).
  assert (Hb : ∀ x, TrimSpace (EncodeToString x) = EncodeToString x ∧ ValidString (EncodeToString x) = true)
    by (intros x; pose proof (plain_base64 x); split; [by apply TrimSpace_plain|by apply utf8_plain]).
  destruct (version =? 0); cbn -[TrimSpace ValidString Fingerprint EncodeToString IsZero]; destruct (IsZero nb); cbn -[TrimSpace ValidString Fingerprint EncodeToString IsZero];
    destruct (String.eqb rev ""); cbn -[TrimSpace ValidString Fingerprint EncodeToString IsZero];
    (destruct (String.eqb non ""); [destruct nonce as [x|]; [|done]; destruct (Hb x)|]); intros [= <-];
    (split; [split; repeat (constructor; [assumption|]); constructor|]); (split; [unfold claims_text; repeat (constructor; [assumption|]); constructor|]);
    done.
Qed.

Lemma plain_dot : plain_text ".".
Proof. unfold plain_text. vm_compute. repeat (constructor; [split; [discriminate|reflexivity]|]). constructor. Qed.
Lemma prefix_plain : plain_text grantPrefix.
Proof. unfold plain_text. vm_compute. repeat (constructor; [split; [discriminate|reflexivity]|]). constructor. Qed.

Lemma join_three a b c : Join [a; b; c] "." = a +:+ "." +:+ b +:+ "." +:+ c.
Proof. reflexivity. Qed.

Lemma split_grant a b c d : Forall (λ s, ("."%char : ascii) ∉ string_bytes s) [a; b; c; d] →
  Split ((a +:+ "." +:+ b +:+ "." +:+ c) +:+ "." +:+ d) "." = [a; b; c; d].
Proof.
  intros Hd. repeat apply Forall_cons in Hd as [? Hd]. unfold Split.
  assert (E : string_bytes ((a +:+ "." +:+ b +:+ "." +:+ c) +:+ "." +:+ d)
    = (string_bytes a ++ "."%char :: string_bytes b ++ "."%char :: string_bytes c ++ "."%char :: string_bytes d)%list).
  { rewrite !string_bytes_app. cbn [string_bytes String.list_ascii_of_string]. by rewrite <- !app_assoc. }
  rewrite E, !split_at_app, split_at_last by done. cbn. by rewrite !bytes_of_string.
Qed.

Lemma envelope_issued sk claims nonce g : claims_text (normalizeClaims claims) → Issue sk claims nonce = Ok g →
  ∃ c, issued_claims (Public sk) claims nonce = Ok c ∧ validateClaims c = None ∧ ∀ fp, verifyGrantEnvelope g fp
    = if String.eqb (Fingerprint (Public sk)) (TrimSpace fp) then Ok c else Err ErrGrantFingerprintMismatch.
Proof.
  intros Ht. unfold Issue. destruct (Z.eqb_spec (byte_len sk) PrivateKeySize) as [Hsk|]; [cbn [negb]|done].
  destruct (issued_claims _ claims nonce) as [c|] eqn:Hc; cbn [result_bind]; [|done]. destruct (validateClaims c) eqn:Hv; [done|].
  destruct (marshalClaims c) as [payload|] eqn:Hm; cbn [result_bind]; [|done]. intros [= <-]. exists c. split; [done|]. split; [done|]. intros fp.
  destruct (issued_spec _ _ _ _ Ht Hc) as (Hn & Htext & Hfp & _). unfold verifyGrantEnvelope, signingInput. rewrite join_three.
  rewrite TrimSpace_plain by repeat (apply plain_app || apply plain_base64 || apply plain_dot || apply prefix_plain).
  rewrite split_grant by (repeat constructor; try apply no_dot; vm_compute; intros Hin; repeat (apply elem_of_cons in Hin as [Hin|Hin]; [done|]); by apply elem_of_nil in Hin).
  rewrite String.eqb_refl. cbn [negb]. rewrite !DecodeString_Encode, public_size by done. change (PublicKeySize =? PublicKeySize) with true. cbn [negb].
  destruct (String.eqb _ (TrimSpace fp)); [cbn [negb]|done]. rewrite join_three, sign_verifies by done. cbn [negb].
  rewrite (claims_roundtrip c payload) by done. rewrite (normal_fixed c Hn), Hfp, String.eqb_refl. cbn [negb]. by rewrite Hv.
Qed.
End grant.

(** C27: a grant says exactly what was issued, within exactly its window. Whatever [Issue] signs, [Verify] against the
    fingerprint of the signing key returns with the grant, device, subject key, scope and times that were asked for,
    from [not_before] on, before [expires_at], unless it is revoked; outside it gives the matching error, and against
    any other fingerprint it refuses the grant. *)
Theorem grant_roundtrip `{RemoteCryptoLaws} sk claims nonce g (Htext : claims_text (normalizeClaims claims)) (Hissue : Issue sk claims nonce = Ok g) :
  ∃ c, (let n := normalizeClaims claims in
        (c.(gc_GrantID), c.(gc_IssuerDeviceID), c.(gc_SubjectKeyFingerprint), c.(gc_Scope), c.(gc_IssuedAt), c.(gc_ExpiresAt))
        = (n.(gc_GrantID), n.(gc_IssuerDeviceID), n.(gc_SubjectKeyFingerprint), n.(gc_Scope), n.(gc_IssuedAt), n.(gc_ExpiresAt)))
    ∧ c.(gc_NotBefore) = (if IsZero claims.(gc_NotBefore) then claims.(gc_IssuedAt) else claims.(gc_NotBefore))
    ∧ ∀ fingerprint now clock revoked, now ≠ zero_time →
        Verify g fingerprint now clock (Some revoked)
        = if negb (String.eqb (Fingerprint (Public sk)) (TrimSpace fingerprint)) then Err ErrGrantFingerprintMismatch
          else if now <? c.(gc_NotBefore) then Err ErrGrantNotActive
          else if c.(gc_ExpiresAt) <=? now then Err ErrGrantExpired
          else if revoked c.(gc_RevocationID) then Err ErrGrantRevoked else Ok c.
Proof.
  destruct (envelope_issued _ _ _ _ Htext Hissue) as (c & Hc & _ & Hv). destruct (issued_spec _ _ _ _ Htext Hc) as (_ & _ & _ & Hf & Hnb).
  exists c. split; [exact Hf|]. split; [exact Hnb|]. intros fp now clock revoked Hnow. unfold Verify. rewrite Hv.
  destruct (String.eqb _ _); [cbn [negb result_bind]|done]. unfold IsZero. rewrite (proj2 (Z.eqb_neq now zero_time) Hnow).
  destruct (now <? gc_NotBefore c); [done|]. rewrite Z.leb_antisym. by destruct (now <? gc_ExpiresAt c).
Qed.

(** ** A concrete instance, for the witnesses *)
Module RemoteDemo.
(** A text for a value, and the value and the rest of a text. *)
Class Text (A : Type) := { put : A → list ascii; get : list ascii → option (A * list ascii); get_put x l : get (put x ++ l) = Some (x, l) }.

Local Open Scope char_scope.
Fixpoint put_string (s : string) : list ascii := match s with EmptyString => ["0"] | String c s => "1" :: c :: put_string s end.
Fixpoint get_string (l : list ascii) : option (string * list ascii) :=
  match l with
  | "1" :: c :: l => (λ sl, (String c sl.1, sl.2)) <$> get_string l
  | "0" :: l => Some (EmptyString, l)
  | _ => None
  end.
#[export] Instance text_string : Text string.
Proof.
  refine {| put := put_string; get := get_string |}.
  intros s l. induction s as [|c s IH]; [done|]. cbn. by rewrite IH.
Defined.

#[export] Instance text_bool : Text bool.
Proof.
  refine {| put b := [if b : bool then "1" else "0"]; get l := match l with c :: l => Some (Ascii.eqb c "1", l) | [] => None end |}.
  by intros [] l.
Defined.

Fixpoint put_pos (p : positive) : list ascii := match p with xH => ["."] | xO p => "0" :: put_pos p | xI p => "1" :: put_pos p end.
Fixpoint get_pos (l : list ascii) : option (positive * list ascii) :=
  match l with
  | "." :: l => Some (xH, l)
  | "0" :: l => (λ pl, (xO pl.1, pl.2)) <$> get_pos l
  | "1" :: l => (λ pl, (xI pl.1, pl.2)) <$> get_pos l
  | _ => None
  end.
Lemma pos_put p l : get_pos (put_pos p ++ l) = Some (p, l).
Proof. induction p as [p IH|p IH|]; cbn; by rewrite ?IH. Qed.
#[export] Instance text_Z : Text Z.
Proof.
  refine {| put z := match z with Z0 => ["0"] | Zpos p => "+" :: put_pos p | Zneg p => "-" :: put_pos p end;
     get l := match l with
              | "0" :: l => Some (0%Z, l)
              | "+" :: l => (λ pl, (Zpos pl.1, pl.2)) <$> get_pos l
              | "-" :: l => (λ pl, (Zneg pl.1, pl.2)) <$> get_pos l
              | _ => None
              end |}.
  intros [|p|p] l; cbn; by rewrite ?pos_put.
Defined.

#[export] Instance text_pair {A B} `{Text A, Text B} : Text (A * B).
Proof.
  refine {| put ab := (put ab.1 ++ put ab.2)%list; get l := al ← get l; bl ← get al.2; Some ((al.1, bl.1), bl.2) |}.
  intros [a b] l. cbn. rewrite <- app_assoc, get_put. cbn. by rewrite get_put.
Defined.

#[export] Instance text_option {A} `{Text A} : Text (option A).
Proof.
  refine {| put o := match o with Some x => "1" :: put x | None => ["0"] end;
     get l := match l with "1" :: l => (λ xl, (Some xl.1, xl.2)) <$> get l | "0" :: l => Some (None, l) | _ => None end |}.
  intros [x|] l; cbn; by rewrite ?get_put.
Defined.

Fixpoint put_list {A} `{Text A} (xs : list A) : list ascii := match xs with [] => [] | x :: xs => (put x ++ put_list xs)%list end.
Fixpoint get_list {A} `{Text A} (n : nat) (l : list ascii) : option (list A * list ascii) :=
  match n with O => Some ([], l) | S n => xl ← get l; rl ← get_list n xl.2; Some (xl.1 :: rl.1, rl.2) end.
Lemma list_put {A} `{Text A} (xs : list A) l : get_list (List.length xs) (put_list xs ++ l) = Some (xs, l).
Proof. induction xs as [|x xs IH]; [done|]. cbn. rewrite <- app_assoc, get_put. cbn. by rewrite IH. Qed.
#[export] Instance text_list {A} `{Text A} : Text (list A).
Proof.
  refine {| put xs := (put (Z.of_nat (List.length xs)) ++ put_list xs)%list; get l := nl ← get l; get_list (Z.to_nat nl.1) nl.2 |}.
  intros xs l. rewrite <- app_assoc, get_put. cbn. by rewrite Nat2Z.id, list_put.
Defined.

(** A type that is another one in disguise. *)
Definition text_iso {A B} `{Text B} (f : A → B) (g : B → A) (gf : ∀ x, g (f x) = x) : Text A.
Proof. refine {| put x := put (f x); get l := (λ bl, (g bl.1, bl.2)) <$> get l |}. intros x l. rewrite get_put. cbn. by rewrite gf. Defined.

#[export] Instance text_map {A} `{Text A} : Text (gmap string A) := text_iso map_to_list (list_to_map (M := gmap string A)) list_to_map_to_list.
#[export] Instance text_scope : Text Scope.
Proof.
  refine (text_iso (λ s, (s.(AllowDaemon), s.(TerminalID), s.(MachineEventsOnly), s.(FileReadMetadata), s.(FileReadContent), s.(FileWriteContent), s.(FileMutate), s.(ManageClientAccess)))
            (λ '(a, b, c, d, e, f, g, h), mkScope a b c d e f g h) _). by intros [].
Defined.
#[export] Instance text_claims : Text Claims.
Proof.
  refine (text_iso (λ c, (c.(gc_Version), c.(gc_GrantID), c.(gc_IssuerDeviceID), c.(gc_IssuerDeviceFingerprint), c.(gc_SubjectKeyFingerprint), c.(gc_Scope),
                          c.(gc_IssuedAt), c.(gc_NotBefore), c.(gc_ExpiresAt), c.(gc_RevocationID), c.(gc_Nonce)))
            (λ '(a, b, c, d, e, f, g, h, i, j, k), mkGrantClaims a b c d e f g h i j k) _). by intros [].
Defined.
Local Open Scope string_scope.

Definition to_text {A} `{Text A} (x : A) : string := bytes_string (put x).
Definition of_text {A} `{Text A} (s : string) : result A := match get (string_bytes s) with Some (x, _) => Ok x | None => Err "text" end.
Lemma text_roundtrip {A} `{Text A} (x : A) rest : of_text (to_text x +:+ rest) = Ok x.
Proof. unfold of_text, to_text. by rewrite string_bytes_app, string_of_bytes, get_put. Qed.
Lemma text_all {A} `{Text A} (x : A) : of_text (to_text x) = Ok x.
Proof. unfold of_text, to_text. rewrite string_of_bytes. rewrite <- (app_nil_r (put x)). by rewrite get_put. Qed.

(** The first [n] bytes, filled up with zero digits. *)
Fixpoint pad (n : nat) (s : string) : string :=
  match n, s with O, _ => "" | S n, String c s => String c (pad n s) | S n, "" => String "0" (pad n "") end.
Lemma pad_length n s : String.length (pad n s) = n.
Proof. revert s. induction n as [|n IH]; intros s; [by destruct s|]. destruct s; cbn; by rewrite IH. Qed.
Lemma pad_pad n s : pad n (pad n s) = pad n s.
Proof. revert s. induction n as [|n IH]; intros s; [by destruct s|]. destruct s; cbn; by rewrite IH. Qed.

#[export] Instance crypto : RemoteCrypto := {
  Sum256 := pad 32;
  Public := pad 32;
  Sign sk m := pad 64 (pad 32 sk +:+ m);
  VerifySignature pk m s := String.eqb s (pad 64 (pad 32 pk +:+ m));
  marshalClaims c := Ok (to_text c);
  unmarshalClaims := of_text }.
#[export] Instance crypto_laws : RemoteCryptoLaws.
Proof.
  split; unfold byte_len; cbn [Sum256 Public Sign VerifySignature marshalClaims unmarshalClaims crypto]; intros.
  - by rewrite pad_length.
  - by rewrite pad_length.
  - by rewrite pad_length.
  - by rewrite pad_pad, String.eqb_refl.
  - match goal with E : Ok _ = Ok _ |- _ => injection E as <- end. apply text_all.
Qed.

Definition private_key : string := pad 64 "daemon".
Definition claims : Claims := mkGrantClaims 0 "grant-1" "device" "" "client" FullDaemonScope 1000 0 5000 "" "nonce".
End RemoteDemo.

Section grant_witness.
Import RemoteDemo.
Lemma grant_roundtrip_witness :
  ∃ g c, Issue RemoteDemo.private_key RemoteDemo.claims None = Ok g ∧ gc_Scope c = FullDaemonScope
    ∧ Verify g (Fingerprint (Public RemoteDemo.private_key)) 2000 0 (Some (λ _, false)) = Ok c
    ∧ Verify g (Fingerprint (Public RemoteDemo.private_key)) 5000 0 (Some (λ _, false)) = Err ErrGrantExpired.
Proof.
  assert (Hg : is_Some (match Issue RemoteDemo.private_key RemoteDemo.claims None with Ok g => Some g | Err _ => None end)) by (vm_compute; eexists; reflexivity).
  destruct (Issue RemoteDemo.private_key RemoteDemo.claims None) as [g|] eqn:E; [|exfalso; destruct Hg; discriminate]. exists g.
  destruct (grant_roundtrip RemoteDemo.private_key RemoteDemo.claims None g) as (c & Hf & Hn & Hv); [|exact E|].
  - repeat constructor.
  - exists c. split; [reflexivity|]. cbn zeta in Hf. injection Hf as _ _ _ Hs _ He. split; [exact Hs|]. rewrite !Hv by (vm_compute; discriminate). rewrite Hn, He. split; vm_compute; reflexivity.
Defined.
End grant_witness.
