(* ===== verification/EndpointContracts.v ===== *)
(** * The bootstrap bundle a daemon signs

    [client/endpoint/contracts.go], as far as the bundle with a pairing ticket goes: the fields of the two messages, the
    checks of [ParseEndpointBootstrapBundle] and its variants, the texts that are signed, and the one encoding that is
    accepted. Also [DaemonIdentity.Validate] and [validateIdentifier] of [client/endpoint/registry.go].

    The messages are generated from [remote_auth.proto]. Their deterministic encoding, and the routes with the check of
    one route, are a class. *)
From S2P Require Import Prelude GoStd GoText RemoteGrant.
From Stdlib Require Import Ascii String.
Local Open Scope string_scope.
Local Open Scope Z_scope.
Local Open Scope bool_scope.

Definition EndpointBootstrapBundleVersion : Z := 2.
Definition EndpointBootstrapSignatureProtocol : string := "anytty.endpoint-bootstrap.signature".
Definition PairingTicketSignatureProtocol : string := "anytty.pairing-ticket.signature".
Definition PortableSignatureVersion : Z := 1.
Definition MaxPortableContractBytes : Z := 262144.
Definition portableClockSkew : Z := 300 * nanos_per_second.

(** ** Messages *)
Record EndpointDaemonIdentity := mkWireIdentity { wi_DeviceId : string; wi_DevicePublicKey : string; wi_DeviceFingerprint : string }.

Record PairingTicketDescriptor := mkTicketDescriptor {
  td_TicketId : string; td_ScopeCeiling : list string; td_ExpiresAtUnixNano : Z; td_Nonce : string; td_MaxRedemptions : Z;
  td_Signature : string; td_IssuedAtUnixNano : Z; td_GrantLifetimeSeconds : Z }.
#[export] Instance eta_PairingTicketDescriptor : Eta PairingTicketDescriptor := λ t,
  mkTicketDescriptor t.(td_TicketId) t.(td_ScopeCeiling) t.(td_ExpiresAtUnixNano) t.(td_Nonce) t.(td_MaxRedemptions)
    t.(td_Signature) t.(td_IssuedAtUnixNano) t.(td_GrantLifetimeSeconds).

(** The [oneof] of [EndpointAuthorizationBootstrap]. *)
Inductive Authorization := AuthorizationEmpty | AuthorizationTicket (ticket : PairingTicketDescriptor) | AuthorizationGrant (grant : string).

Record Bundle (Route : Type) := mkBundle {
  pb_SchemaVersion : Z; pb_BundleId : string; pb_Identity : option EndpointDaemonIdentity; pb_SuggestedLabel : string;
  pb_Routes : list Route; pb_Authorization : option Authorization; pb_IssuedAtUnixNano : Z; pb_ExpiresAtUnixNano : Z;
  pb_BundleSignature : string }.
Arguments mkBundle {Route}.
Arguments pb_SchemaVersion {Route}. Arguments pb_BundleId {Route}. Arguments pb_Identity {Route}. Arguments pb_SuggestedLabel {Route}.
Arguments pb_Routes {Route}. Arguments pb_Authorization {Route}. Arguments pb_IssuedAtUnixNano {Route}.
Arguments pb_ExpiresAtUnixNano {Route}. Arguments pb_BundleSignature {Route}.
#[export] Instance eta_Bundle Route : Eta (Bundle Route) := λ b,
  mkBundle b.(pb_SchemaVersion) b.(pb_BundleId) b.(pb_Identity) b.(pb_SuggestedLabel) b.(pb_Routes) b.(pb_Authorization)
    b.(pb_IssuedAtUnixNano) b.(pb_ExpiresAtUnixNano) b.(pb_BundleSignature).

(** [GetPairingTicket] through a nil authorization too. *)
Definition GetPairingTicket {Route} (b : Bundle Route) : option PairingTicketDescriptor :=
  match b.(pb_Authorization) with Some (AuthorizationTicket t) => Some t | _ => None end.

(** The generated messages: deterministic [proto.Marshal], [proto.Unmarshal] with whether a field was unknown, and what
    is asked of a route. *)
Class EndpointProto := {
  Route : Type;
  GetRouteId : Route → string;
  GetManagedWebrtc : Route → bool;              (* not nil *)
  route_unknown : Route → bool;
  validatePortableRoute : Route → EndpointDaemonIdentity → bool → option goerr;
  marshalBundle : Bundle Route → result string;
  unmarshalBundle : string → result (Bundle Route * bool);
  marshalTicketInput : string → Z → string → string → PairingTicketDescriptor → result string;
  marshalBundleInput : string → Z → Bundle Route → result string }.

(** What is encoded is read back, with the unknown fields of its routes. *)
Class EndpointProtoLaws `{EndpointProto} : Prop := {
  bundle_roundtrip b p : marshalBundle b = Ok p → unmarshalBundle p = Ok (b, existsb route_unknown b.(pb_Routes));
  bundle_not_empty b p : marshalBundle b = Ok p → p ≠ "" }.

(** ** Identifiers *)
Definition identifier_char (c : ascii) : bool :=
  in_range 97 122 c || in_range 65 90 c || in_range 48 57 c || Ascii.eqb c "-" || Ascii.eqb c "_" || Ascii.eqb c ".".
Definition validateIdentifier (value : string) : option goerr :=
  if String.eqb value "" then Some "id is required"
  else if byte_len value >? 128 then Some "id is longer than 128 characters"
  else if negb (forallb identifier_char (string_bytes value)) then Some "id contains invalid character"
  else None.

(** [strings.IndexFunc(value, unicode.IsSpace) >= 0]. *)
Fixpoint has_space (s : list ascii) : bool :=
  match s with [] => false | _ :: rest => (if strip_any spaces s then true else false) || has_space rest end.
Definition invalid_identity_text (s : string) : bool := has_space (string_bytes s) || has_control (string_bytes s).

(** [DaemonIdentity.Validate(true)]. *)
Definition DaemonIdentity_Validate (deviceID fingerprint : string) : option goerr :=
  if String.eqb (TrimSpace deviceID) "" || String.eqb (TrimSpace fingerprint) ""
  then Some "daemon identity requires both device_id and device_fingerprint"
  else if negb (String.eqb deviceID (TrimSpace deviceID)) || negb (String.eqb fingerprint (TrimSpace fingerprint))
          || invalid_identity_text (TrimSpace deviceID) || invalid_identity_text (TrimSpace fingerprint)
  then Some "daemon identity fields must not contain whitespace or control characters"
  else None.

Section contracts.
Context `{RemoteCrypto} `{EndpointProto}.

Definition daemonPublicKeyFingerprint (publicKey : string) : string := "ed25519-sha256:" +:+ EncodeToString (Sum256 publicKey).

Definition validateWireIdentity (identity : option EndpointDaemonIdentity) (requirePublicKey : bool) : option goerr :=
  match identity with
  | None => Some "daemon identity is required"
  | Some identity =>
      match DaemonIdentity_Validate identity.(wi_DeviceId) identity.(wi_DeviceFingerprint) with
      | Some err => Some err
      | None =>
          if (byte_len identity.(wi_DevicePublicKey) =? 0) && negb requirePublicKey then None
          else if negb (byte_len identity.(wi_DevicePublicKey) =? PublicKeySize)
                  || negb (String.eqb (daemonPublicKeyFingerprint identity.(wi_DevicePublicKey)) identity.(wi_DeviceFingerprint))
          then Some "daemon public key does not match device_fingerprint"
          else None
      end
  end.

(** The scopes of a ticket: trimmed, in one line, strictly sorted. *)
Fixpoint ticket_scopes (previous : option string) (seen : list string) (scopes : list string) : option goerr :=
  match scopes with
  | [] => None
  | scope :: scopes =>
      if negb (String.eqb scope (TrimSpace scope)) || String.eqb scope "" || existsb (λ c, Ascii.eqb c "013" || Ascii.eqb c "010") (string_bytes scope)
      then Some "pairing ticket scope is invalid"
      else if existsb (String.eqb scope) seen then Some "pairing ticket scope is repeated"
      else if (match previous with Some previous => string_le scope previous | None => false end) then Some "pairing ticket scopes are not canonical"
      else ticket_scopes (Some scope) (scope :: seen) scopes
  end.

(** [fresh] is the time against which freshness is required, [None] when it is not. *)
Definition stale (issued expires : Z) (fresh : option Z) : bool :=
  match fresh with
  | Some now => (expires <=? i64 now) || (issued >? i64 (now + portableClockSkew))
  | None => false
  end.

Definition validatePairingTicketFields (ticket : option PairingTicketDescriptor) (requireSignature : bool) (fresh : option Z) : option goerr :=
  match ticket with
  | None => Some "pairing ticket is invalid"
  | Some t =>
      if (if validateIdentifier t.(td_TicketId) then true else false)
         || (len t.(td_ScopeCeiling) =? 0) || (t.(td_IssuedAtUnixNano) <=? 0) || (t.(td_ExpiresAtUnixNano) <=? t.(td_IssuedAtUnixNano))
         || (byte_len t.(td_Nonce) <? 16) || negb (t.(td_MaxRedemptions) =? 1) || (t.(td_GrantLifetimeSeconds) <=? 0)
         || (t.(td_GrantLifetimeSeconds) >? 365 * 24 * 3600)
      then Some "pairing ticket is invalid"
      else if stale t.(td_IssuedAtUnixNano) t.(td_ExpiresAtUnixNano) fresh then Some "pairing ticket is invalid"
      else match ticket_scopes None [] t.(td_ScopeCeiling) with
           | Some err => Some err
           | None =>
               if requireSignature && negb (byte_len t.(td_Signature) =? SignatureSize) then Some "pairing ticket signature is invalid"
               else if negb requireSignature && negb (byte_len t.(td_Signature) =? 0) then Some "pairing ticket signature must be empty while signing"
               else None
           end
  end.

(** ** Texts to sign *)
Definition bounded (payload : string) : result string :=
  if byte_len payload >? MaxPortableContractBytes then Err "portable endpoint contract exceeds 262144 bytes" else Ok payload.

Definition pairingTicketSigningBytesUnchecked (identity : EndpointDaemonIdentity) (ticket : PairingTicketDescriptor) : result string :=
  let? payload := marshalTicketInput PairingTicketSignatureProtocol PortableSignatureVersion identity.(wi_DeviceId)
                    identity.(wi_DeviceFingerprint) (ticket <| td_Signature := "" |>) in
  bounded payload.

Definition endpointBootstrapSigningBytesUnchecked (bundle : Bundle Route) : result string :=
  if existsb route_unknown bundle.(pb_Routes) then Err "portable endpoint contract contains unknown fields"
  else
    let? payload := marshalBundleInput EndpointBootstrapSignatureProtocol PortableSignatureVersion (bundle <| pb_BundleSignature := "" |>) in
    bounded payload.

Definition PairingTicketSigningBytes (identity : EndpointDaemonIdentity) (ticket : PairingTicketDescriptor) : result string :=
  match validateWireIdentity (Some identity) true with
  | Some err => Err err
  | None =>
      match validatePairingTicketFields (Some ticket) false None with
      | Some err => Err err
      | None =>
          if negb (byte_len ticket.(td_Signature) =? 0) then Err "pairing ticket signature must be empty while computing signing bytes"
          else pairingTicketSigningBytesUnchecked identity ticket
      end
  end.

(** ** Bundles *)
Fixpoint validate_routes (identity : EndpointDaemonIdentity) (seen : list string) (routes : list Route) : option goerr :=
  match routes with
  | [] => None
  | route :: routes =>
      match validatePortableRoute route identity false with
      | Some err => Some err
      | None => if existsb (String.eqb (GetRouteId route)) seen then Some "endpoint bootstrap repeats route_id"
                else validate_routes identity (GetRouteId route :: seen) routes
      end
  end.

Definition validate_authorization (bundle : Bundle Route) (identity : EndpointDaemonIdentity) (fresh : option Z) : option goerr :=
  match bundle.(pb_Authorization) with
  | None | Some AuthorizationEmpty => Some "endpoint bootstrap requires an authorization bootstrap"
  | Some (AuthorizationTicket ticket) =>
      if (if validatePairingTicketFields (Some ticket) true fresh then true else false)
         || negb (ticket.(td_IssuedAtUnixNano) =? bundle.(pb_IssuedAtUnixNano))
         || (ticket.(td_ExpiresAtUnixNano) >? bundle.(pb_ExpiresAtUnixNano))
      then Some "pairing ticket is invalid"
      else match pairingTicketSigningBytesUnchecked identity ticket with
           | Err err => Some err
           | Ok signingBytes =>
               if negb (VerifySignature identity.(wi_DevicePublicKey) signingBytes ticket.(td_Signature))
               then Some "pairing ticket signature does not match daemon identity" else None
           end
  | Some (AuthorizationGrant grant) =>
      if byte_len grant =? 0 then Some "authorization bootstrap is empty" else Some "bound capability grant verification is not available"
  end.

Definition validateEndpointBootstrapPayload (bundle : Bundle Route) (requireBundleSignature : bool) (fresh : option Z) : option goerr :=
  if negb (bundle.(pb_SchemaVersion) =? EndpointBootstrapBundleVersion) then Some "endpoint bootstrap version or bundle_id is invalid"
  else match validateIdentifier bundle.(pb_BundleId) with
  | Some _ => Some "endpoint bootstrap bundle_id is invalid"
  | None =>
  match validateWireIdentity bundle.(pb_Identity) true, bundle.(pb_Identity) with
  | Some err, _ => Some err
  | None, None => Some "daemon identity is required"
  | None, Some identity =>
      if (bundle.(pb_IssuedAtUnixNano) <=? 0) || (bundle.(pb_ExpiresAtUnixNano) <=? bundle.(pb_IssuedAtUnixNano))
      then Some "endpoint bootstrap timestamps or signature are invalid"
      else if stale bundle.(pb_IssuedAtUnixNano) bundle.(pb_ExpiresAtUnixNano) fresh then Some "endpoint bootstrap timestamps or signature are invalid"
      else if requireBundleSignature && negb (byte_len bundle.(pb_BundleSignature) =? SignatureSize) then Some "endpoint bootstrap signature is invalid"
      else if negb requireBundleSignature && negb (byte_len bundle.(pb_BundleSignature) =? 0) then Some "endpoint bootstrap signature must be empty while signing"
      else match validate_routes identity [] bundle.(pb_Routes) with
           | Some err => Some err
           | None => validate_authorization bundle identity fresh
           end
  end
  end.

Definition EndpointBootstrapSigningBytes (bundle : Bundle Route) : result string :=
  match validateEndpointBootstrapPayload bundle false None with
  | Some err => Err err
  | None =>
      if negb (byte_len bundle.(pb_BundleSignature) =? 0) then Err "endpoint bootstrap signature must be empty while computing signing bytes"
      else endpointBootstrapSigningBytesUnchecked bundle
  end.

Definition validateEndpointBootstrapBundleAt (bundle : Bundle Route) (fresh : option Z) : option goerr :=
  match validateEndpointBootstrapPayload bundle true fresh with
  | Some err => Some err
  | None =>
      match endpointBootstrapSigningBytesUnchecked bundle with
      | Err err => Some err
      | Ok signingBytes =>
          if negb (VerifySignature (match bundle.(pb_Identity) with Some identity => identity.(wi_DevicePublicKey) | None => "" end) signingBytes
                     bundle.(pb_BundleSignature))
          then Some "endpoint bootstrap signature does not match daemon identity" else None
      end
  end.

(** ** The one encoding *)
Definition marshalPortableContract (bundle : Bundle Route) : result string :=
  if existsb route_unknown bundle.(pb_Routes) then Err "portable endpoint contract contains unknown fields"
  else let? payload := marshalBundle bundle in bounded payload.

Definition unmarshalPortableContract (payload : string) : result (Bundle Route) :=
  if byte_len payload >? MaxPortableContractBytes then Err "portable endpoint contract exceeds 262144 bytes"
  else if byte_len payload =? 0 then Err "portable endpoint contract is empty"
  else match unmarshalBundle payload with
       | Err _ => Err "decode portable endpoint contract"
       | Ok (bundle, unknown) =>
           if unknown then Err "portable endpoint contract contains unknown fields"
           else match marshalBundle bundle with
                | Err _ => Err "canonicalize portable endpoint contract"
                | Ok canonical =>
                    if negb (String.eqb payload canonical) then Err "portable endpoint contract is not canonical deterministic protobuf"
                    else Ok bundle
                end
       end.

Definition MarshalEndpointBootstrapBundle (bundle : Bundle Route) : result string :=
  match validateEndpointBootstrapBundleAt bundle None with Some err => Err err | None => marshalPortableContract bundle end.

Definition parseEndpointBootstrapBundle (payload : string) (fresh : option Z) : result (Bundle Route) :=
  let? bundle := unmarshalPortableContract payload in
  match validateEndpointBootstrapBundleAt bundle fresh with Some err => Err err | None => Ok bundle end.
(** [clock] is [time.Now()], read when [now] is zero. *)
Definition ParseEndpointBootstrapBundleAt (payload : string) (now clock : Z) : result (Bundle Route) :=
  parseEndpointBootstrapBundle payload (Some (if IsZero now then clock else now)).
Definition ParseEndpointBootstrapBundleForExchange (payload : string) : result (Bundle Route) := parseEndpointBootstrapBundle payload None.
End contracts.
