(* ===== verification/Pairing.v ===== *)
(** * Pairing tickets

    [shared/remoteauth/pairing.go]: the claims of a one-time ticket, how a daemon issues the signed bundle that carries
    it and how the bundle is read back. Also [Identity.Validate] of [identity.go]. *)
From S2P Require Import Prelude GoStd GoText RemoteGrant EndpointContracts.
From Stdlib Require Import Ascii String.
Local Open Scope string_scope.
Local Open Scope Z_scope.
Local Open Scope bool_scope.

Definition second : Z := nanos_per_second.
Definition hour : Z := 3600 * second.
Definition pairingTicketVersion : Z := PortableSignatureVersion.
Definition defaultPairingTicketTTL : Z := 600 * second.
Definition defaultPairingGrantTTL : Z := 90 * 24 * hour.
Definition maxPairingTicketTTL : Z := 24 * hour.
Definition maxPairingGrantTTL : Z := 365 * 24 * hour.
Definition maxPairingLabelBytes : Z := 128.

Definition ErrPairingTicketMalformed : goerr := "remote pairing ticket malformed".
Definition ErrPairingTicketExpired : goerr := "remote pairing ticket expired".
Definition ErrPairingTicketConsumed : goerr := "remote pairing ticket consumed".

Definition Before (a b : Z) : bool := a <? b.
(** [t.Sub(u)] saturates. *)
Definition Sub (t u : Z) : Z := Z.max (- 2 ^ 63) (Z.min (2 ^ 63 - 1) (t - u)).
(** [t.UnixNano()] wraps outside of the years 1678 to 2262. *)
Definition UnixNano (t : Z) : Z := i64 t.

(** [io.ReadFull] into [n] bytes: [None] is a failing reader. *)
Definition ReadFull (n : Z) (random : option string) : result string :=
  match random with
  | Some raw => if byte_len raw =? n then Ok raw else Err "unexpected EOF"
  | None => Err "random source"
  end.
Definition randomIdentifier (random : option string) (prefix : string) : result string :=
  let? raw := ReadFull 18 random in Ok (prefix +:+ EncodeToString raw).

(** ** The identity of a daemon *)
Record Identity := mkIdentity { id_DeviceID : string; id_Fingerprint : string; id_PublicKey : string; id_PrivateKey : string }.

Definition Identity_Validate `{RemoteCrypto} (identity : Identity) : option goerr :=
  if String.eqb (TrimSpace identity.(id_DeviceID)) "" || negb (byte_len identity.(id_PublicKey) =? PublicKeySize)
     || negb (byte_len identity.(id_PrivateKey) =? PrivateKeySize)
  then Some "incomplete DeviceIdentity"
  else if negb (String.eqb (Fingerprint identity.(id_PublicKey)) identity.(id_Fingerprint))
          || negb (String.eqb identity.(id_PublicKey) (Public identity.(id_PrivateKey)))
  then Some "DeviceIdentity key and fingerprint mismatch"
  else None.

(** ** Claims *)
Record PairingTicketClaims := mkTicketClaims {
  pc_Version : Z; pc_TicketID : string; pc_IssuerDeviceID : string; pc_IssuerDeviceFingerprint : string; pc_ScopeCeiling : Scope;
  pc_IssuedAt : Z; pc_NotBefore : Z; pc_ExpiresAt : Z; pc_GrantLifetimeSeconds : Z; pc_Nonce : string; pc_MaxRedemptions : Z }.

Definition normalizePairingTicketClaims (c : PairingTicketClaims) : PairingTicketClaims :=
  mkTicketClaims c.(pc_Version) (TrimSpace c.(pc_TicketID)) (TrimSpace c.(pc_IssuerDeviceID)) (TrimSpace c.(pc_IssuerDeviceFingerprint))
    (c.(pc_ScopeCeiling) <| TerminalID := TrimSpace c.(pc_ScopeCeiling).(TerminalID) |>) c.(pc_IssuedAt) c.(pc_NotBefore) c.(pc_ExpiresAt)
    c.(pc_GrantLifetimeSeconds) (TrimSpace c.(pc_Nonce)) c.(pc_MaxRedemptions).

Definition validatePairingTicketClaims (c : PairingTicketClaims) : option goerr :=
  if negb (c.(pc_Version) =? pairingTicketVersion) || String.eqb c.(pc_TicketID) "" || String.eqb c.(pc_IssuerDeviceID) ""
     || String.eqb c.(pc_IssuerDeviceFingerprint) "" || String.eqb c.(pc_Nonce) ""
  then Some (wrap ErrPairingTicketMalformed "incomplete claims")
  else if negb (c.(pc_MaxRedemptions) =? 1) || (c.(pc_GrantLifetimeSeconds) <=? 0)
          || (c.(pc_GrantLifetimeSeconds) >? maxPairingGrantTTL / second)
  then Some (wrap ErrPairingTicketMalformed "ticket must allow exactly one bounded redemption")
  else match validateScope c.(pc_ScopeCeiling) with
       | Some err => Some err
       | None =>
           if IsZero c.(pc_IssuedAt) || IsZero c.(pc_NotBefore) || IsZero c.(pc_ExpiresAt) || Before c.(pc_NotBefore) c.(pc_IssuedAt)
              || negb (After c.(pc_ExpiresAt) c.(pc_NotBefore)) || (Sub c.(pc_ExpiresAt) c.(pc_IssuedAt) >? maxPairingTicketTTL)
           then Some (wrap ErrPairingTicketMalformed "invalid time window")
           else None
       end.

(** [clock] is the time read when [now] is zero. *)
Definition validatePairingTicketTime (c : PairingTicketClaims) (now clock : Z) : option goerr :=
  let now := if IsZero now then clock else now in
  if Before now c.(pc_NotBefore) || negb (Before now c.(pc_ExpiresAt)) then Some ErrPairingTicketExpired else None.

Definition normalizePairingLabel (value : string) : result string :=
  let value := TrimSpace value in
  if negb (ValidString value) || (byte_len value >? maxPairingLabelBytes) then Err "label must be valid UTF-8 and at most 128 bytes"
  else if has_control (string_bytes value) then Err "label cannot contain control characters"
  else Ok value.

(** ** Bundles *)
Record PairingIssueOptions (Route : Type) := mkIssueOptions {
  io_Label : string; io_Scope : Scope; io_TicketTTL : Z; io_GrantLifetime : Z; io_Now : Z; io_Routes : list (option Route) }.
Arguments mkIssueOptions {Route}.
Arguments io_Label {Route}. Arguments io_Scope {Route}. Arguments io_TicketTTL {Route}. Arguments io_GrantLifetime {Route}.
Arguments io_Now {Route}. Arguments io_Routes {Route}.

Section pairing.
Context `{RemoteCrypto} `{EndpointProto}.

Definition clonePairingRoutes (routes : list (option Route)) : list Route := omap id routes.

Definition pairingTicketClaimsFromBundle (bundle : Bundle Route) : result PairingTicketClaims :=
  match bundle.(pb_Identity), GetPairingTicket bundle with
  | Some identity, Some ticket =>
      let? scope := pairingScopeFromStrings ticket.(td_ScopeCeiling) in
      let claims := normalizePairingTicketClaims
        (mkTicketClaims pairingTicketVersion ticket.(td_TicketId) identity.(wi_DeviceId) identity.(wi_DeviceFingerprint) scope
           ticket.(td_IssuedAtUnixNano) ticket.(td_IssuedAtUnixNano) ticket.(td_ExpiresAtUnixNano) ticket.(td_GrantLifetimeSeconds)
           (EncodeToString ticket.(td_Nonce)) ticket.(td_MaxRedemptions)) in
      match validatePairingTicketClaims claims with Some err => Err err | None => Ok claims end
  | _, _ => Err (wrap ErrPairingTicketMalformed "bootstrap does not contain a pairing ticket")
  end.

(** The three reads of the random source: for the ticket, the bundle and the nonce. *)
Definition issuePairingBundle (identity : Identity) (options : PairingIssueOptions Route) (clock : Z)
    (randomTicket randomBundle randomNonce : option string) : result (Bundle Route * PairingTicketClaims) :=
  match Identity_Validate identity with
  | Some err => Err err
  | None =>
  match validateScope options.(io_Scope) with
  | Some err => Err err
  | None =>
      let? label := normalizePairingLabel options.(io_Label) in
      let now := if IsZero options.(io_Now) then clock else options.(io_Now) in
      let ticketTTL := if options.(io_TicketTTL) =? 0 then defaultPairingTicketTTL else options.(io_TicketTTL) in
      let grantLifetime := if options.(io_GrantLifetime) =? 0 then defaultPairingGrantTTL else options.(io_GrantLifetime) in
      if (ticketTTL <=? 0) || (ticketTTL >? maxPairingTicketTTL) || (grantLifetime <=? 0) || (grantLifetime >? maxPairingGrantTTL)
      then Err "pairing ticket lifetime must be at most 24 hours and grant lifetime at most one year"
      else
        let? ticketID := randomIdentifier randomTicket "ticket-" in
        let? bundleID := randomIdentifier randomBundle "bundle-" in
        let? nonce := ReadFull 18 randomNonce in
        let? scopeCeiling := pairingScopeStrings options.(io_Scope) in
        let ticket := mkTicketDescriptor ticketID scopeCeiling (UnixNano (now + ticketTTL)) nonce 1 "" (UnixNano now) (Z.quot grantLifetime second) in
        let wireIdentity := mkWireIdentity identity.(id_DeviceID) identity.(id_PublicKey) identity.(id_Fingerprint) in
        let? ticketSigningBytes := PairingTicketSigningBytes wireIdentity ticket in
        let ticket := ticket <| td_Signature := Sign identity.(id_PrivateKey) ticketSigningBytes |> in
        let bundle := mkBundle EndpointBootstrapBundleVersion bundleID (Some wireIdentity) label (clonePairingRoutes options.(io_Routes))
                        (Some (AuthorizationTicket ticket)) (UnixNano now) ticket.(td_ExpiresAtUnixNano) "" in
        let? bundleSigningBytes := EndpointBootstrapSigningBytes bundle in
        let bundle := bundle <| pb_BundleSignature := Sign identity.(id_PrivateKey) bundleSigningBytes |> in
        let? claims := pairingTicketClaimsFromBundle bundle in
        Ok (bundle, claims)
  end
  end.

Definition EncodePairingBundle (bundle : Bundle Route) : result string := MarshalEndpointBootstrapBundle bundle.

Definition ParsePairingBundleForExchange (payload : string) : result (Bundle Route * PairingTicketClaims) :=
  match ParseEndpointBootstrapBundleForExchange payload with
  | Err err => Err (wrap ErrPairingTicketMalformed err)
  | Ok bundle => let? claims := pairingTicketClaimsFromBundle bundle in Ok (bundle, claims)
  end.
Definition ParsePairingBundle (payload : string) (now clock : Z) : result (Bundle Route * PairingTicketClaims) :=
  let now := if IsZero now then clock else now in
  let? parsed := ParsePairingBundleForExchange payload in
  match validatePairingTicketTime parsed.2 now clock with Some err => Err err | None => Ok parsed end.

Definition bundle_fingerprint (bundle : Bundle Route) : string :=
  match bundle.(pb_Identity) with Some identity => identity.(wi_DeviceFingerprint) | None => "" end.
Definition VerifyPairingTicket (payload expectedFingerprint : string) (now clock : Z) : result PairingTicketClaims :=
  let? parsed := ParsePairingBundle payload now clock in
  if negb (String.eqb (bundle_fingerprint parsed.1) (TrimSpace expectedFingerprint)) then Err ErrGrantFingerprintMismatch else Ok parsed.2.
End pairing.
