(* ===== verification/PairingFacts.v ===== *)
(** * What an issued bundle says

    A bundle that is accepted has one encoding; the claims of an issued ticket are well formed, and reading the payload of
    the bundle gives them back. *)
From S2P Require Import Prelude GoStd GoText RemoteGrant RemoteGrantTheorems EndpointContracts Pairing.
From Stdlib Require Import Ascii String.
Local Open Scope string_scope.
Local Open Scope Z_scope.
Local Open Scope bool_scope.

(** ** One encoding *)
Section contracts.
Context `{RemoteCrypto} `{EndpointProto}.

Lemma bounded_spec p q : bounded p = Ok q → q = p ∧ byte_len p ≤ MaxPortableContractBytes.
Proof. unfold bounded. destruct (Z.gtb_spec (byte_len p) MaxPortableContractBytes); [done|]. by intros [= <-]. Qed.

Lemma marshal_spec b p : marshalPortableContract b = Ok p →
  existsb route_unknown b.(pb_Routes) = false ∧ marshalBundle b = Ok p ∧ byte_len p ≤ MaxPortableContractBytes.
Proof.
  unfold marshalPortableContract. destruct (existsb _ _); [done|]. destruct (marshalBundle b) as [q|] eqn:E; cbn [result_bind]; [|done].
  intros [-> ?]%bounded_spec. done.
Qed.

Lemma unmarshal_spec p b : unmarshalPortableContract p = Ok b → unmarshalBundle p = Ok (b, false) ∧ marshalBundle b = Ok p.
Proof.
  unfold unmarshalPortableContract. destruct (_ >? _); [done|]. destruct (_ =? 0); [done|].
  destruct (unmarshalBundle p) as [[b' [|]]|] eqn:E; [done| |done]. destruct (marshalBundle b') as [q|] eqn:Eq; [|done].
  destruct (String.eqb_spec p q) as [<-|]; [|done]. by intros [= <-].
Qed.

Lemma encode_parsed p b c q : ParsePairingBundleForExchange p = Ok (b, c) → EncodePairingBundle b = Ok q → q = p.
Proof.
  unfold ParsePairingBundleForExchange, ParseEndpointBootstrapBundleForExchange, parseEndpointBootstrapBundle, EncodePairingBundle, MarshalEndpointBootstrapBundle.
  destruct (unmarshalPortableContract p) as [b'|] eqn:E; cbn [result_bind]; [|done]. apply unmarshal_spec in E as [_ E].
  destruct (validateEndpointBootstrapBundleAt b' None); [done|]. destruct (pairingTicketClaimsFromBundle b'); cbn [result_bind]; [|done].
  intros [= -> ->]. destruct (validateEndpointBootstrapBundleAt b None); [done|]. intros (_ & Eq & _)%marshal_spec. congruence.
Qed.

(** What is encoded is read back as the same bundle, with the same claims. *)
Lemma parse_encoded `{!EndpointProtoLaws} b p : EncodePairingBundle b = Ok p →
  ParsePairingBundleForExchange p = (let? c := pairingTicketClaimsFromBundle b in Ok (b, c)).
Proof.
  unfold EncodePairingBundle, MarshalEndpointBootstrapBundle. destruct (validateEndpointBootstrapBundleAt b None) eqn:Hv; [done|].
  intros (Hu & Hm & Hl)%marshal_spec. pose proof (bundle_not_empty b p Hm) as Hne.
  unfold ParsePairingBundleForExchange, ParseEndpointBootstrapBundleForExchange, parseEndpointBootstrapBundle, unmarshalPortableContract.
  assert (E : byte_len p >? MaxPortableContractBytes = false) by (rewrite Z.gtb_ltb; by apply Z.ltb_ge). rewrite E.
  assert (E0 : byte_len p =? 0 = false) by (apply Z.eqb_neq; unfold byte_len; destruct p; [done|cbn; lia]). rewrite E0.
  rewrite (bundle_roundtrip b p Hm), Hu, Hm, String.eqb_refl. cbn [negb result_bind]. by rewrite Hv.
Qed.
End contracts.

(** ** Issued claims *)
Section issued.
Context `{RemoteCrypto} `{EndpointProto}.
Context (identity : Identity).

Definition ticket_text (c : PairingTicketClaims) : Prop :=
  Forall (λ s, ValidString s = true)
    [c.(pc_TicketID); c.(pc_IssuerDeviceID); c.(pc_IssuerDeviceFingerprint); c.(pc_ScopeCeiling).(TerminalID); c.(pc_Nonce)].

Record identity_ok : Prop := {
  io_valid : Identity_Validate identity = None;
  io_text : ValidString identity.(id_DeviceID) = true }.

Record claims_ok (c : PairingTicketClaims) : Prop := {
  co_normal : normalizePairingTicketClaims c = c;
  co_valid : validatePairingTicketClaims c = None;
  co_device : c.(pc_IssuerDeviceID) = identity.(id_DeviceID);
  co_fingerprint : c.(pc_IssuerDeviceFingerprint) = identity.(id_Fingerprint);
  co_text : ticket_text c;
  co_times : - 2 ^ 63 ≤ c.(pc_NotBefore) < 2 ^ 63 ∧ - 2 ^ 63 ≤ c.(pc_ExpiresAt) < 2 ^ 63 }.

Lemma normalize_ticket_idemp c : normalizePairingTicketClaims (normalizePairingTicketClaims c) = normalizePairingTicketClaims c.
Proof. destruct c as [v t d f [] i n e g no m]. unfold normalizePairingTicketClaims. cbn -[TrimSpace]. by rewrite !TrimSpace_idemp. Qed.

Lemma identity_spec : Identity_Validate identity = None →
  identity.(id_PublicKey) = Public identity.(id_PrivateKey) ∧ identity.(id_Fingerprint) = Fingerprint (Public identity.(id_PrivateKey))
  ∧ byte_len identity.(id_PrivateKey) = PrivateKeySize.
Proof.
  unfold Identity_Validate. destruct (String.eqb (TrimSpace _) ""); [done|]. destruct (byte_len (id_PublicKey _) =? _); [cbn [negb orb]|done].
  destruct (Z.eqb_spec (byte_len identity.(id_PrivateKey)) PrivateKeySize) as [Hs|]; [cbn [negb]|done].
  destruct (String.eqb_spec (Fingerprint identity.(id_PublicKey)) identity.(id_Fingerprint)) as [Hf|]; [cbn [negb orb]|done].
  destruct (String.eqb_spec identity.(id_PublicKey) (Public identity.(id_PrivateKey))) as [Hp|]; [|done].
  intros _. by rewrite <- Hp, Hf.
Qed.

Lemma random_id_plain r prefix id : plain_text prefix → randomIdentifier r prefix = Ok id → plain_text id.
Proof.
  intros Hp. unfold randomIdentifier, ReadFull. destruct r as [raw|]; [|done]. destruct (_ =? 18); [|done]. cbn [result_bind]. intros [= <-].
  apply plain_app; [done|apply plain_base64].
Qed.

Lemma wire_identity_device d k f b : validateWireIdentity (Some (mkWireIdentity d k f)) b = None → TrimSpace d = d ∧ TrimSpace f = f.
Proof.
  unfold validateWireIdentity. cbn [wi_DeviceId wi_DeviceFingerprint]. destruct (DaemonIdentity_Validate d f) eqn:E; [done|]. intros _. revert E.
  unfold DaemonIdentity_Validate. destruct (String.eqb (TrimSpace d) "" || _); [done|].
  destruct (String.eqb_spec d (TrimSpace d)) as [Hd|]; [cbn [negb orb]|done]. destruct (String.eqb_spec f (TrimSpace f)) as [Hf|]; [|done]. done.
Qed.
Lemma scope_valid_text scope : validateScope scope = None → ValidString scope.(TerminalID) = true.
Proof. unfold validateScope. by destruct (ValidString scope.(TerminalID)). Qed.
Lemma scope_from_valid values scope : pairingScopeFromStrings values = Ok scope → validateScope scope = None.
Proof. unfold pairingScopeFromStrings. destruct (scope_values _ _ _) as [sc|]; cbn [result_bind]; [|done]. destruct (validateScope sc) eqn:E; [done|]. by intros [= <-]. Qed.

Lemma i64_range z : - 2 ^ 63 ≤ i64 z < 2 ^ 63.
Proof. unfold i64. pose proof (Z.mod_pos_bound (z + 2 ^ 63) (2 ^ 64)). lia. Qed.

(** The claims of a bundle of this daemon whose ticket has these fields. *)
Lemma claims_from_ticket b c (ticket : PairingTicketDescriptor) : identity_ok →
  b.(pb_Identity) = Some (mkWireIdentity identity.(id_DeviceID) identity.(id_PublicKey) identity.(id_Fingerprint)) →
  GetPairingTicket b = Some ticket → plain_text ticket.(td_TicketId) → TrimSpace identity.(id_DeviceID) = identity.(id_DeviceID) →
  - 2 ^ 63 ≤ ticket.(td_IssuedAtUnixNano) < 2 ^ 63 → - 2 ^ 63 ≤ ticket.(td_ExpiresAtUnixNano) < 2 ^ 63 →
  pairingTicketClaimsFromBundle b = Ok c → claims_ok c ∧ c.(pc_TicketID) = ticket.(td_TicketId).
Proof.
  intros [Hid Htext] Eb Et Hplain Htrim Hi He. unfold pairingTicketClaimsFromBundle. rewrite Eb, Et. cbn [wi_DeviceId wi_DeviceFingerprint].
  destruct (pairingScopeFromStrings _) as [scope|] eqn:Hs; cbn [result_bind]; [|done]. apply scope_from_valid, scope_valid_text in Hs.
  set (raw := mkTicketClaims _ _ _ _ _ _ _ _ _ _ _). destruct (validatePairingTicketClaims (normalizePairingTicketClaims raw)) eqn:Hv; [done|]. intros [= <-].
  destruct (identity_spec Hid) as (_ & Hf & _). pose proof (fingerprint_plain (Public identity.(id_PrivateKey))) as Hp. rewrite <- Hf in Hp.
  pose proof (plain_base64 ticket.(td_Nonce)) as Hn.
  split; [split|].
  - apply normalize_ticket_idemp.
  - exact Hv.
  - exact Htrim.
  - exact (TrimSpace_plain _ Hp).
  - unfold ticket_text, raw, normalizePairingTicketClaims. cbn -[TrimSpace ValidString EncodeToString]. rewrite Htrim, (TrimSpace_plain _ Hplain), (TrimSpace_plain _ Hp), (TrimSpace_plain _ Hn).
    repeat (apply Forall_cons; split; [first [by apply utf8_plain|done|by apply TrimSpace_valid]|]). apply Forall_nil_2.
  - done.
  - exact (TrimSpace_plain _ Hplain).
Qed.

Lemma issued_claims_spec options clock r1 r2 r3 b c : identity_ok → issuePairingBundle identity options clock r1 r2 r3 = Ok (b, c) →
  claims_ok c ∧ pairingTicketClaimsFromBundle b = Ok c ∧ randomIdentifier r1 "ticket-" = Ok c.(pc_TicketID).
Proof.
  intros Hok. pose proof Hok as [Hid _]. unfold issuePairingBundle. rewrite Hid. destruct (validateScope options.(io_Scope)); [done|].
  destruct (normalizePairingLabel options.(io_Label)) as [label|]; cbn [result_bind]; [|done]. cbv zeta. set (now := if IsZero (io_Now options) then clock else io_Now options).
  set (ttl := if io_TicketTTL options =? 0 then _ else _). set (life := if io_GrantLifetime options =? 0 then _ else _).
  destruct (_ || _); [done|]. destruct (randomIdentifier r1 "ticket-") as [ticketID|] eqn:Er; cbn [result_bind]; [|done].
  destruct (randomIdentifier r2 "bundle-") as [bundleID|]; cbn [result_bind]; [|done]. destruct (ReadFull 18 r3) as [nonce|]; cbn [result_bind]; [|done].
  destruct (pairingScopeStrings options.(io_Scope)) as [scopes|]; cbn [result_bind]; [|done].
  set (wire := mkWireIdentity _ _ _). set (t0 := mkTicketDescriptor _ _ _ _ _ _ _ _).
  destruct (PairingTicketSigningBytes wire t0) as [signing|] eqn:Hs; cbn [result_bind]; [|done].
  assert (Htrim : TrimSpace identity.(id_DeviceID) = identity.(id_DeviceID)).
  { revert Hs. unfold PairingTicketSigningBytes. destruct (validateWireIdentity (Some wire) true) eqn:Hw; [done|]. intros _. by apply wire_identity_device in Hw as [? _]. }
  set (t1 := t0 <| td_Signature := _ |>). set (b0 := mkBundle _ _ _ _ _ _ _ _ _). destruct (EndpointBootstrapSigningBytes b0) as [bs|]; cbn [result_bind]; [|done].
  set (b1 := b0 <| pb_BundleSignature := _ |>). destruct (pairingTicketClaimsFromBundle b1) as [c'|] eqn:Hc; cbn [result_bind]; [|done]. intros [= <- <-].
  assert (Hprefix : plain_text "ticket-") by (unfold plain_text; vm_compute; repeat (constructor; [split; [discriminate|reflexivity]|]); constructor).
  destruct (claims_from_ticket b1 c' t1 Hok eq_refl eq_refl (random_id_plain _ _ _ Hprefix Er) Htrim (i64_range _) (i64_range _) Hc) as [? Eid].
  split; [done|]. split; [done|]. by rewrite Eid.
Qed.
End issued.
