(* ===== verification/AccessStore.v ===== *)
(** * The client access store of a daemon

    [shared/remoteauth/access_store.go]: the one-time tickets a daemon has issued, the grants they were redeemed for and
    the revocations, in memory and in one signed file. Every operation holds the lock of the store, so that each is one
    step. The file is written through a temporary file and a rename ([writePrivateFile] of [identity.go]): a write can
    fail before the rename, or after it, when the new file is in place but perhaps not yet durable. *)
From S2P Require Import Prelude GoStd GoText RemoteGrant EndpointContracts Pairing.
From Stdlib Require Import Ascii String.
Local Open Scope string_scope.
Local Open Scope Z_scope.
Local Open Scope bool_scope.

Definition accessStoreVersion : Z := 4.
Definition accessStateSignatureDomain : string := "anytty.remoteauth.access-state.v3".
Definition pairingReceiptDomain : string := "anytty.remoteauth.pairing-receipt.v1".
Definition defaultDeliveryGrace : Z := 24 * hour.
Definition expiredTicketRetention : Z := 24 * hour.
Definition expiredGrantRecordRetention : Z := 30 * 24 * hour.
Definition defaultClockSkew : Z := 120 * second.

(** ** Data *)
Record PairingExchangeResult := mkExchange {
  er_TicketID : string; er_Grant : string; er_GrantID : string; er_DeliveryReceipt : string; er_SubjectKeyFingerprint : string;
  er_Scope : Scope; er_ExpiresAt : Z; er_CloudRouteGrant : string; er_CloudEdgeLocator : string }.

Record ClientAccessRecord := mkAccessRecord {
  cr_GrantID : string; cr_RevocationID : string; cr_SubjectKeyFingerprint : string; cr_ClientLabel : string; cr_Scope : Scope;
  cr_IssuedAt : Z; cr_ExpiresAt : Z; cr_RevokedAt : Z }.

Record storedPairingTicket := mkStoredTicket {
  st_Claims : PairingTicketClaims; st_TicketDigest : string; st_SubjectKeyFingerprint : string; st_ClientLabel : string;
  st_GrantID : string; st_ResultGrantDigest : string; st_DeliveryReceiptDigest : string; st_RedeemedAt : Z; st_DeliveryGraceUntil : Z;
  st_CloudRouteGrantDigest : string; st_CloudEdgeLocatorDigest : string }.
(** A ticket that was not redeemed. *)
Definition new_ticket (claims : PairingTicketClaims) (digest : string) : storedPairingTicket :=
  mkStoredTicket claims digest "" "" "" "" "" zero_time zero_time "" "".

Record storedAccessGrant := mkStoredGrant {
  sg_Claims : Claims; sg_ClientLabel : string; sg_RevokedAt : Z; sg_CloudRouteGrant : string; sg_CloudEdgeLocator : string }.
#[export] Instance eta_storedAccessGrant : Eta storedAccessGrant := λ g,
  mkStoredGrant g.(sg_Claims) g.(sg_ClientLabel) g.(sg_RevokedAt) g.(sg_CloudRouteGrant) g.(sg_CloudEdgeLocator).

Record storedAccessState := mkStoredState {
  ss_Version : Z; ss_IssuerDeviceID : string; ss_IssuerFingerprint : string; ss_Tickets : gmap string storedPairingTicket;
  ss_Grants : gmap string storedAccessGrant; ss_StateSignature : string; ss_AccessProjectionRevision : Z }.
#[export] Instance eta_storedAccessState : Eta storedAccessState := λ s,
  mkStoredState s.(ss_Version) s.(ss_IssuerDeviceID) s.(ss_IssuerFingerprint) s.(ss_Tickets) s.(ss_Grants) s.(ss_StateSignature)
    s.(ss_AccessProjectionRevision).

(** [json.Marshal], [json.MarshalIndent] and the strict decoder with its check for trailing data, on the state. *)
Class AccessJson := {
  json_Marshal : storedAccessState → result string;
  json_MarshalIndent : storedAccessState → result string;
  json_decode : string → result storedAccessState }.

(** The issuer of managed routes: client key, product, from, until. *)
Definition RouteIssuer : Type := string → Z → Z → Z → result (string * string).

(** What the file holds of a store. *)
Record content := mkContent { c_tickets : gmap string storedPairingTicket; c_grants : gmap string storedAccessGrant; c_revision : Z }.
Definition empty_content : content := mkContent ∅ ∅ 0.

Record AccessStore := mkAccessStore {
  as_identity : Identity; as_content : content; as_closed : bool; as_changes : bool; as_managedRouteGrantIssuer : option RouteIssuer;
  as_managedPairingBootstrapIssue : bool; as_clientGrants : gmap string (gset string) }.
#[export] Instance eta_AccessStore : Eta AccessStore := λ s,
  mkAccessStore s.(as_identity) s.(as_content) s.(as_closed) s.(as_changes) s.(as_managedRouteGrantIssuer)
    s.(as_managedPairingBootstrapIssue) s.(as_clientGrants).
#[export] Instance eta_content : Eta content := λ c, mkContent c.(c_tickets) c.(c_grants) c.(c_revision).
Definition tickets (s : AccessStore) := s.(as_content).(c_tickets).
Definition grants (s : AccessStore) := s.(as_content).(c_grants).

(** ** The file

    [d_visible] is what a reader of the file gets, [d_durable] what a power loss may bring back. *)
Record disk := mkDisk { d_visible : option string; d_durable : option string }.
Inductive write_outcome :=
| WriteOk                        (* renamed, and the directory synced *)
| WritePublished (err : goerr)   (* renamed, then an error *)
| WriteFailed (err : goerr).     (* an error before the rename *)

(** The error of a write, with [privateFileWritePublished]. *)
Definition writePrivateFile (d : disk) (payload : string) (w : write_outcome) : disk * option (goerr * bool) :=
  match w with
  | WriteOk => (mkDisk (Some payload) (Some payload), None)
  | WritePublished err => (mkDisk (Some payload) d.(d_durable), Some (err, true))
  | WriteFailed err => (d, Some (err, false))
  end.

Section access.
Context `{RemoteCrypto} `{EndpointProto} `{AccessJson}.

Definition nul : string := String "000"%char "".
Definition newline : string := String "010"%char "".

Definition accessStateSigningBytes (state : storedAccessState) : result string :=
  match json_Marshal (state <| ss_StateSignature := "" |>) with
  | Err _ => Err "encode client access state signature input"
  | Ok payload => Ok (accessStateSignatureDomain +:+ nul +:+ payload)
  end.

Definition payloadDigest (payload : string) : string := EncodeToString (Sum256 payload).
Definition validPayloadDigest (value : string) : bool :=
  match DecodeString (TrimSpace value) with Ok decoded => byte_len decoded =? 32 | Err _ => false end.

Definition pairingDeliveryReceipt (privateKey ticketID subjectFingerprint grantID : string) : string :=
  let digest := Sum256 (pairingReceiptDomain +:+ nul +:+ ticketID +:+ nul +:+ subjectFingerprint +:+ nul +:+ grantID) in
  "anytty-pairing-receipt-v1" +:+ "." +:+ EncodeToString (Sign privateKey digest).

Definition clientAccessRecordFromStored (record : storedAccessGrant) : ClientAccessRecord :=
  mkAccessRecord record.(sg_Claims).(gc_GrantID) record.(sg_Claims).(gc_RevocationID) record.(sg_Claims).(gc_SubjectKeyFingerprint)
    record.(sg_ClientLabel) record.(sg_Claims).(gc_Scope) record.(sg_Claims).(gc_IssuedAt) record.(sg_Claims).(gc_ExpiresAt)
    record.(sg_RevokedAt).

(** ** The index of the keys *)
Definition indexGrant (index : gmap string (gset string)) (fingerprint grantID : string) : gmap string (gset string) :=
  <[fingerprint := {[grantID]} ∪ index !!! fingerprint]> index.
Definition rebuildClientGrantIndex (grants : gmap string storedAccessGrant) : gmap string (gset string) :=
  map_fold (λ grantID record index, indexGrant index record.(sg_Claims).(gc_SubjectKeyFingerprint) grantID) ∅ grants.

(** ** Cleaning up *)
Definition keeps_ticket (now : Z) (record : storedPairingTicket) : bool :=
  if String.eqb record.(st_GrantID) "" then Before now (record.(st_Claims).(pc_ExpiresAt) + expiredTicketRetention)
  else negb (negb (IsZero record.(st_DeliveryGraceUntil)) && negb (Before now record.(st_DeliveryGraceUntil))).
Definition keeps_grant (now : Z) (record : storedAccessGrant) : bool :=
  Before now (record.(sg_Claims).(gc_ExpiresAt) + expiredGrantRecordRetention).
(** Whether a grant was removed. *)
Definition compactLocked (now : Z) (s : AccessStore) : AccessStore * bool :=
  let tickets := filter (λ kr, keeps_ticket now kr.2 = true) (tickets s) in
  let kept := filter (λ kr, keeps_grant now kr.2 = true) (grants s) in
  let changed := negb (bool_decide (dom kept = dom (grants s))) in
  let s' := s <| as_content := mkContent tickets kept s.(as_content).(c_revision) |> in
  (if changed then s' <| as_clientGrants := rebuildClientGrantIndex kept |> else s', changed).

(** ** Writing *)
Definition state_of (identity : Identity) (c : content) : storedAccessState :=
  mkStoredState accessStoreVersion identity.(id_DeviceID) identity.(id_Fingerprint) c.(c_tickets) c.(c_grants) "" c.(c_revision).
Definition state_payload (identity : Identity) (c : content) : result string :=
  let state := state_of identity c in
  let? signingBytes := accessStateSigningBytes state in
  let state := state <| ss_StateSignature := EncodeToString (Sign identity.(id_PrivateKey) signingBytes) |> in
  match json_MarshalIndent state with
  | Err _ => Err "encode client access store"
  | Ok payload => Ok (payload +:+ newline)
  end.
Definition persistLocked (s : AccessStore) (d : disk) (w : write_outcome) : disk * option (goerr * bool) :=
  match state_payload s.(as_identity) s.(as_content) with
  | Err err => (d, Some (err, false))
  | Ok payload => writePrivateFile d payload w
  end.

(** The content of before, unless the file was replaced. *)
Definition rollback (old : content) (published : bool) (s : AccessStore) : AccessStore :=
  if published then s else s <| as_content := old |>.

Definition ensureOpenLocked (s : AccessStore) : option goerr := if s.(as_closed) then Some "client access store is closed" else None.
Definition notifyAccessChangedLocked (s : AccessStore) : AccessStore := s <| as_changes := true |>.
Definition next_revision (s : AccessStore) : AccessStore :=
  s <| as_content := s.(as_content) <| c_revision := u64 (s.(as_content).(c_revision) + 1) |> |>.
Definition set_ticket (ticketID : string) (record : storedPairingTicket) (s : AccessStore) : AccessStore :=
  s <| as_content := s.(as_content) <| c_tickets := <[ticketID := record]> (tickets s) |> |>.
Definition set_grant (grantID : string) (record : storedAccessGrant) (s : AccessStore) : AccessStore :=
  s <| as_content := s.(as_content) <| c_grants := <[grantID := record]> (grants s) |> |>.

(** ** Issuing *)
Definition persistPairingBundleLocked (payload : string) (claims : PairingTicketClaims) (now : Z) (w : write_outcome)
    (s : AccessStore) (d : disk) : AccessStore * disk * option goerr :=
  match tickets s !! claims.(pc_TicketID) with
  | Some _ => (s, d, Some "pairing ticket id collision")
  | None =>
      let old := s.(as_content) in
      let '(s, changed) := compactLocked now s in
      let s := if changed then next_revision s else s in
      let s := set_ticket claims.(pc_TicketID) (new_ticket claims (payloadDigest payload)) s in
      let '(d, failed) := persistLocked s d w in
      match failed with
      | Some (err, published) => (rollback old published s, d, Some err)
      | None => (if s.(as_content).(c_revision) =? old.(c_revision) then s else notifyAccessChangedLocked s, d, None)
      end
  end.

(** [clock] is [store.now()]. *)
Definition IssuePairingBundle (options : PairingIssueOptions Route) (clock : Z) (randomTicket randomBundle randomNonce : option string)
    (w : write_outcome) (s : AccessStore) (d : disk) : AccessStore * disk * result (Bundle Route * PairingTicketClaims) :=
  match ensureOpenLocked s with
  | Some err => (s, d, Err err)
  | None =>
      let now := if IsZero options.(io_Now) then clock else options.(io_Now) in
      let options := mkIssueOptions options.(io_Label) options.(io_Scope) options.(io_TicketTTL) options.(io_GrantLifetime) now options.(io_Routes) in
      match issuePairingBundle s.(as_identity) options clock randomTicket randomBundle randomNonce with
      | Err err => (s, d, Err err)
      | Ok (bundle, claims) =>
          match EncodePairingBundle bundle with
          | Err err => (s, d, Err err)
          | Ok payload =>
              let '(s, d, failed) := persistPairingBundleLocked payload claims now w s d in
              (s, d, match failed with Some err => Err err | None => Ok (bundle, claims) end)
          end
      end
  end.

(** ** Results *)

(** The stored claims have a nonce, so that [Issue] reads no randomness. *)
Definition pairingResultFromStored (identity : Identity) (grants : gmap string storedAccessGrant) (ticket : storedPairingTicket)
    : result PairingExchangeResult :=
  match grants !! ticket.(st_GrantID) with
  | None => Err "stored pairing grant is missing"
  | Some grant =>
      match Issue identity.(id_PrivateKey) grant.(sg_Claims) None with
      | Err _ => Err "stored pairing grant cannot be reconstructed"
      | Ok boundGrant =>
          if negb (String.eqb (payloadDigest boundGrant) ticket.(st_ResultGrantDigest)) then Err "stored pairing grant digest mismatch"
          else
            let receipt := pairingDeliveryReceipt identity.(id_PrivateKey) ticket.(st_Claims).(pc_TicketID)
                             ticket.(st_SubjectKeyFingerprint) ticket.(st_GrantID) in
            if negb (String.eqb (payloadDigest receipt) ticket.(st_DeliveryReceiptDigest)) then Err "stored pairing receipt digest mismatch"
            else if negb (String.eqb ticket.(st_CloudRouteGrantDigest) "")
                    && negb (String.eqb (payloadDigest grant.(sg_CloudRouteGrant)) ticket.(st_CloudRouteGrantDigest))
            then Err "stored managed Route grant digest mismatch"
            else if negb (String.eqb ticket.(st_CloudEdgeLocatorDigest) "")
                    && negb (String.eqb (payloadDigest grant.(sg_CloudEdgeLocator)) ticket.(st_CloudEdgeLocatorDigest))
            then Err "stored managed Edge locator digest mismatch"
            else Ok (mkExchange ticket.(st_Claims).(pc_TicketID) boundGrant ticket.(st_GrantID) receipt ticket.(st_SubjectKeyFingerprint)
                       grant.(sg_Claims).(gc_Scope) grant.(sg_Claims).(gc_ExpiresAt) grant.(sg_CloudRouteGrant) grant.(sg_CloudEdgeLocator))
      end
  end.

(** ** Redeeming *)
Definition pairingBundleHasManagedRoute (bundle : Bundle Route) : bool := existsb GetManagedWebrtc bundle.(pb_Routes).

(** The material of a managed route, empty without one. *)
Definition managed_route (s : AccessStore) (bundle : Bundle Route) (clientPublicKey : string) (product now expires : Z) : result (string * string) :=
  let hasManagedRoute := pairingBundleHasManagedRoute bundle in
  if hasManagedRoute && (product =? 0) then Err "managed Route pairing requires a client product"
  else if hasManagedRoute then
    match s.(as_managedRouteGrantIssuer) with
    | None => Err "managed Route grant issuer is unavailable"
    | Some issuer =>
        match issuer clientPublicKey product now expires with
        | Err _ => Err "issue managed Route grant"
        | Ok (cloudRouteGrant, cloudEdgeLocator) =>
            if (byte_len cloudRouteGrant =? 0) || (byte_len cloudEdgeLocator =? 0)
            then Err "managed Route grant issuer returned incomplete route material" else Ok (cloudRouteGrant, cloudEdgeLocator)
        end
    end
  else Ok ("", "").

(** The claims of the grant for one redemption. *)
Definition grant_claims (identity : Identity) (claims : PairingTicketClaims) (grantID nonce subjectFingerprint : string) (now : Z) : Claims :=
  normalizeClaims (mkGrantClaims 2 grantID identity.(id_DeviceID) identity.(id_Fingerprint) subjectFingerprint claims.(pc_ScopeCeiling) now
    (now - defaultClockSkew) (now + i64 (claims.(pc_GrantLifetimeSeconds) * second)) grantID nonce).

Definition updated_ticket (record : storedPairingTicket) (subjectFingerprint clientLabel grantID boundGrant receipt : string) (now : Z)
    (cloudRouteGrant cloudEdgeLocator : string) : storedPairingTicket :=
  mkStoredTicket record.(st_Claims) record.(st_TicketDigest) subjectFingerprint clientLabel grantID (payloadDigest boundGrant)
    (payloadDigest receipt) now (now + defaultDeliveryGrace)
    (if byte_len cloudRouteGrant =? 0 then record.(st_CloudRouteGrantDigest) else payloadDigest cloudRouteGrant)
    (if byte_len cloudRouteGrant =? 0 then record.(st_CloudEdgeLocatorDigest) else payloadDigest cloudEdgeLocator).

(** The first redemption of the ticket [record]. *)
Definition redeem_ticket (bundle : Bundle Route) (claims : PairingTicketClaims) (record : storedPairingTicket) (clientPublicKey clientLabel : string)
    (product now clock : Z) (randomGrant randomNonce : option string) (w : write_outcome) (s : AccessStore) (d : disk)
    : AccessStore * disk * result PairingExchangeResult :=
  let subjectFingerprint := Fingerprint clientPublicKey in
  match validatePairingTicketTime claims now clock with
  | Some err => (s, d, Err err)
  | None =>
  match randomIdentifier randomGrant "grant-" with
  | Err _ => (s, d, Err "generate bound grant id")
  | Ok grantID =>
  match grants s !! grantID with
  | Some _ => (s, d, Err "bound grant id collision")
  | None =>
  match randomIdentifier randomNonce "" with
  | Err _ => (s, d, Err "generate bound grant nonce")
  | Ok grantNonce =>
      let grantClaims := grant_claims s.(as_identity) claims grantID grantNonce subjectFingerprint now in
      match Issue s.(as_identity).(id_PrivateKey) grantClaims None with
      | Err err => (s, d, Err err)
      | Ok boundGrant =>
          let receipt := pairingDeliveryReceipt s.(as_identity).(id_PrivateKey) claims.(pc_TicketID) subjectFingerprint grantID in
          match managed_route s bundle clientPublicKey product now grantClaims.(gc_ExpiresAt) with
          | Err err => (s, d, Err err)
          | Ok (cloudRouteGrant, cloudEdgeLocator) =>
              let updatedTicket := updated_ticket record subjectFingerprint clientLabel grantID boundGrant receipt now cloudRouteGrant cloudEdgeLocator in
              let grantRecord := mkStoredGrant grantClaims clientLabel zero_time cloudRouteGrant cloudEdgeLocator in
              let old := s.(as_content) in
              let '(s, _) := compactLocked now s in
              let s := set_grant grantID grantRecord (set_ticket claims.(pc_TicketID) updatedTicket s) in
              let s := s <| as_clientGrants := indexGrant s.(as_clientGrants) subjectFingerprint grantID |> in
              let s := next_revision s in
              let '(d, failed) := persistLocked s d w in
              match failed with
              | Some (err, published) =>
                  let s := rollback old published s in
                  (if published then s else s <| as_clientGrants := rebuildClientGrantIndex (grants s) |>, d, Err err)
              | None =>
                  (notifyAccessChangedLocked s, d,
                   Ok (mkExchange claims.(pc_TicketID) boundGrant grantID receipt subjectFingerprint grantClaims.(gc_Scope)
                         grantClaims.(gc_ExpiresAt) cloudRouteGrant cloudEdgeLocator))
              end
          end
      end
  end end end end.

Definition redeemPairingBundle (payload clientPublicKey clientLabel : string) (product now clock : Z)
    (randomGrant randomNonce : option string) (w : write_outcome) (s : AccessStore) (d : disk)
    : AccessStore * disk * result PairingExchangeResult :=
  if negb (byte_len clientPublicKey =? PublicKeySize) then (s, d, Err (wrap ErrPairingTicketMalformed "client public key is invalid"))
  else
    let now := if IsZero now then clock else now in
    match normalizePairingLabel clientLabel with
    | Err err => (s, d, Err err)
    | Ok clientLabel =>
    match ParsePairingBundleForExchange payload with
    | Err err => (s, d, Err err)
    | Ok (bundle, claims) =>
        if negb (String.eqb claims.(pc_IssuerDeviceID) s.(as_identity).(id_DeviceID))
           || negb (String.eqb (bundle_fingerprint bundle) s.(as_identity).(id_Fingerprint))
        then (s, d, Err ErrGrantFingerprintMismatch)
        else match EncodePairingBundle bundle with
        | Err err => (s, d, Err err)
        | Ok canonicalPayload =>
            match ensureOpenLocked s with
            | Some err => (s, d, Err err)
            | None =>
                match tickets s !! claims.(pc_TicketID) with
                | None => (s, d, Err ErrPairingTicketMalformed)
                | Some record =>
                    if negb (String.eqb record.(st_TicketDigest) (payloadDigest canonicalPayload)) then (s, d, Err ErrPairingTicketMalformed)
                    else if negb (String.eqb record.(st_GrantID) "") then
                      if negb (String.eqb record.(st_SubjectKeyFingerprint) (Fingerprint clientPublicKey)) then (s, d, Err ErrPairingTicketConsumed)
                      else if IsZero record.(st_DeliveryGraceUntil) || negb (Before now record.(st_DeliveryGraceUntil))
                      then (s, d, Err ErrPairingTicketConsumed)
                      else (s, d, pairingResultFromStored s.(as_identity) (grants s) record)
                    else redeem_ticket bundle claims record clientPublicKey clientLabel product now clock randomGrant randomNonce w s d
                end
            end
        end
    end end.
Definition RedeemPairingBundle (payload clientPublicKey clientLabel : string) (now clock : Z) := redeemPairingBundle payload clientPublicKey clientLabel 0 now clock.
Definition RedeemPairingBundleForProduct := redeemPairingBundle.

(** ** Queries *)
Definition AllowsClientPublicKey (publicKey : string) (now clock : Z) (s : AccessStore) : bool :=
  (byte_len publicKey =? PublicKeySize) &&
  let now := if IsZero now then clock else now in
  negb s.(as_closed) &&
  existsb (λ grantID,
      match grants s !! grantID with
      | Some record => IsZero record.(sg_RevokedAt) && Before record.(sg_Claims).(gc_NotBefore) (now + defaultClockSkew)
                       && After record.(sg_Claims).(gc_ExpiresAt) (now - defaultClockSkew)
      | None => false
      end) (elements (s.(as_clientGrants) !!! Fingerprint publicKey)).

Definition record_before (a b : ClientAccessRecord) : Prop := string_le a.(cr_GrantID) b.(cr_GrantID) = true.
#[export] Instance record_before_dec : RelDecision record_before.
Proof. intros a b. unfold record_before. apply _. Defined.
Definition ListClientAccess (s : AccessStore) : list ClientAccessRecord :=
  if s.(as_closed) then []
  else merge_sort record_before ((λ kr, clientAccessRecordFromStored kr.2) <$> map_to_list (grants s)).

Definition GrantActive (grantID : string) (expiresAt now clock : Z) (s : AccessStore) : bool :=
  let grantID := TrimSpace grantID in
  if String.eqb grantID "" || IsZero expiresAt then false
  else
    let now := if IsZero now then clock else now in
    match grants s !! grantID with
    | Some record => negb s.(as_closed) && IsZero record.(sg_RevokedAt) && String.eqb record.(sg_Claims).(gc_GrantID) grantID
                     && (record.(sg_Claims).(gc_ExpiresAt) =? expiresAt) && Before now record.(sg_Claims).(gc_ExpiresAt)
    | None => false
    end.

Definition Revoked (s : AccessStore) (revocationID : string) : bool :=
  s.(as_closed) || match grants s !! TrimSpace revocationID with Some record => negb (IsZero record.(sg_RevokedAt)) | None => true end.
Definition AccessProjectionRevision (s : AccessStore) : Z := if s.(as_closed) then 0 else s.(as_content).(c_revision).
Definition Available (s : AccessStore) : bool := negb s.(as_closed).

(** ** Revoking and closing *)
Definition RevokeGrant (grantID : string) (clock : Z) (w : write_outcome) (s : AccessStore) (d : disk)
    : AccessStore * disk * result ClientAccessRecord :=
  let grantID := TrimSpace grantID in
  if String.eqb grantID "" then (s, d, Err "client access revoke requires grant_id")
  else match ensureOpenLocked s with
  | Some err => (s, d, Err err)
  | None =>
      match grants s !! grantID with
      | None => (s, d, Err "client access grant not found")
      | Some record =>
          if negb (IsZero record.(sg_RevokedAt)) then (s, d, Ok (clientAccessRecordFromStored record))
          else
            let old := s.(as_content) in
            let '(s, _) := compactLocked clock s in
            let record := record <| sg_RevokedAt := clock |> in
            let s := next_revision (set_grant grantID record s) in
            let '(d, failed) := persistLocked s d w in
            match failed with
            | Some (err, published) => (rollback old published s, d, Err err)
            | None => (notifyAccessChangedLocked s, d, Ok (clientAccessRecordFromStored record))
            end
      end
  end.

Definition Close (s : AccessStore) : AccessStore := s <| as_closed := true |>.

Definition ConfigureManagedRouteGrantIssuer (issuer : option RouteIssuer) (s : AccessStore) : AccessStore * option goerr :=
  match issuer with
  | None => (s, Some "managed Route grant issuer is required")
  | Some issuer =>
      match ensureOpenLocked s with
      | Some err => (s, Some err)
      | None => if s.(as_managedRouteGrantIssuer) then (s, Some "managed Route grant issuer is already configured")
                else (s <| as_managedRouteGrantIssuer := Some issuer |>, None)
      end
  end.
Definition ConfigureManagedPairingBootstrapIssuer (issuer : bool) (s : AccessStore) : AccessStore * option goerr :=
  if negb issuer then (s, Some "managed pairing bootstrap issuer is required")
  else match ensureOpenLocked s with
       | Some err => (s, Some err)
       | None => if s.(as_managedPairingBootstrapIssue) then (s, Some "managed pairing bootstrap issuer is already configured")
                 else (s <| as_managedPairingBootstrapIssue := true |>, None)
       end.
Definition DisableManagedCloudRoute (s : AccessStore) : AccessStore * option goerr :=
  match ensureOpenLocked s with
  | Some err => (s, Some err)
  | None => (s <| as_managedRouteGrantIssuer := None |> <| as_managedPairingBootstrapIssue := false |>, None)
  end.

(** ** Loading *)
Definition loadStoredAccessState (identity : Identity) (file : result (option string)) : result (option storedAccessState) :=
  match file with
  | Err _ => Err "read client access store"
  | Ok None => Ok None
  | Ok (Some payload) =>
      match json_decode payload with
      | Err _ => Err "decode client access store"
      | Ok state =>
          if negb (state.(ss_Version) =? accessStoreVersion) || negb (String.eqb state.(ss_IssuerDeviceID) identity.(id_DeviceID))
             || negb (String.eqb state.(ss_IssuerFingerprint) identity.(id_Fingerprint))
          then Err "client access store version or issuer identity is invalid"
          else match DecodeString (TrimSpace state.(ss_StateSignature)) with
               | Err _ => Err "client access store signature is invalid"
               | Ok signature =>
                   if negb (byte_len signature =? SignatureSize) then Err "client access store signature is invalid"
                   else match accessStateSigningBytes state with
                        | Err _ => Err "client access store signature does not match daemon identity"
                        | Ok signingBytes =>
                            if negb (VerifySignature identity.(id_PublicKey) signingBytes signature)
                            then Err "client access store signature does not match daemon identity" else Ok (Some state)
                        end
               end
      end
  end.

Definition partial_redemption (r : storedPairingTicket) : bool :=
  negb (String.eqb r.(st_SubjectKeyFingerprint) "") || negb (String.eqb r.(st_ClientLabel) "") || negb (String.eqb r.(st_ResultGrantDigest) "")
  || negb (String.eqb r.(st_DeliveryReceiptDigest) "") || negb (String.eqb r.(st_CloudRouteGrantDigest) "")
  || negb (String.eqb r.(st_CloudEdgeLocatorDigest) "") || negb (IsZero r.(st_RedeemedAt)) || negb (IsZero r.(st_DeliveryGraceUntil)).
Definition grant_link_broken (grants : gmap string storedAccessGrant) (r : storedPairingTicket) : bool :=
  match grants !! r.(st_GrantID) with
  | None => true
  | Some g =>
      negb (String.eqb g.(sg_Claims).(gc_GrantID) r.(st_GrantID)) || negb (String.eqb g.(sg_Claims).(gc_SubjectKeyFingerprint) r.(st_SubjectKeyFingerprint))
      || negb (String.eqb g.(sg_ClientLabel) r.(st_ClientLabel)) || negb (r.(st_RedeemedAt) =? g.(sg_Claims).(gc_IssuedAt))
      || negb (After r.(st_DeliveryGraceUntil) r.(st_RedeemedAt)) || negb (validPayloadDigest r.(st_ResultGrantDigest))
      || negb (validPayloadDigest r.(st_DeliveryReceiptDigest))
  end.
Definition managed_incomplete (grants : gmap string storedAccessGrant) (r : storedPairingTicket) : bool :=
  match grants !! r.(st_GrantID) with
  | None => true
  | Some g =>
      let material := negb (byte_len g.(sg_CloudRouteGrant) =? 0) || negb (byte_len g.(sg_CloudEdgeLocator) =? 0)
                      || negb (String.eqb r.(st_CloudRouteGrantDigest) "") || negb (String.eqb r.(st_CloudEdgeLocatorDigest) "") in
      material && ((byte_len g.(sg_CloudRouteGrant) =? 0) || (byte_len g.(sg_CloudEdgeLocator) =? 0)
                   || negb (validPayloadDigest r.(st_CloudRouteGrantDigest)) || negb (validPayloadDigest r.(st_CloudEdgeLocatorDigest)))
  end.

(** One turn of the loop over the tickets. *)
Definition ticket_invalid (identity : Identity) (grants : gmap string storedAccessGrant) (ticketID : string) (r : storedPairingTicket) : bool :=
  let claims := normalizePairingTicketClaims r.(st_Claims) in
  if negb (String.eqb ticketID claims.(pc_TicketID)) || negb (String.eqb claims.(pc_IssuerDeviceID) identity.(id_DeviceID))
     || negb (String.eqb claims.(pc_IssuerDeviceFingerprint) identity.(id_Fingerprint))
     || (if validatePairingTicketClaims claims then true else false) || negb (validPayloadDigest r.(st_TicketDigest))
  then true
  else if String.eqb r.(st_GrantID) "" then partial_redemption r
  else if grant_link_broken grants r then true
  else if managed_incomplete grants r then true
  else match pairingResultFromStored identity grants r with
       | Ok result => negb (bool_decide (result.(er_Scope) = claims.(pc_ScopeCeiling)))
       | Err _ => true
       end.
(** One turn of the loop over the grants. *)
Definition grant_invalid (identity : Identity) (grantID : string) (record : storedAccessGrant) : bool :=
  let claims := normalizeClaims record.(sg_Claims) in
  if negb (String.eqb grantID claims.(gc_GrantID)) || negb (String.eqb claims.(gc_RevocationID) grantID)
     || negb (String.eqb claims.(gc_IssuerDeviceID) identity.(id_DeviceID))
     || negb (String.eqb claims.(gc_IssuerDeviceFingerprint) identity.(id_Fingerprint)) || (if validateClaims claims then true else false)
  then true
  else match Issue identity.(id_PrivateKey) claims None with
       | Err _ => true
       | Ok grant =>
           match verifyGrantEnvelope grant identity.(id_Fingerprint) with
           | Ok parsed => negb (bool_decide (parsed = claims))
           | Err _ => true
           end
       end.
(** The first record in the order of the maps that is wrong is named; here any one is an error. *)
Definition validateLoadedState (identity : Identity) (c : content) : option goerr :=
  if (c.(c_revision) =? 0) && negb (bool_decide (c.(c_grants) = ∅)) then Some "client access store projection revision is invalid"
  else if existsb (λ kr, ticket_invalid identity c.(c_grants) kr.1 kr.2) (map_to_list c.(c_tickets)) then Some "client access store ticket is invalid"
  else if existsb (λ kr, grant_invalid identity kr.1 kr.2) (map_to_list c.(c_grants)) then Some "client access store grant is invalid"
  else None.

(** What the surroundings of a load give: the directory and its lock, reading the file, its permissions. *)
Record load_env := mkLoadEnv { le_lock : option goerr; le_read : option goerr; le_secure : option goerr }.
Definition load_content (s : storedAccessState) : content := mkContent s.(ss_Tickets) s.(ss_Grants) s.(ss_AccessProjectionRevision).

Definition LoadAccessStore (identity : Identity) (env : load_env) (d : disk) : result AccessStore :=
  match Identity_Validate identity with
  | Some err => Err err
  | None =>
  match env.(le_lock) with
  | Some err => Err err
  | None =>
      let file := match env.(le_read) with Some err => Err err | None => Ok d.(d_visible) end in
      let? found := loadStoredAccessState identity file in
      match found with
      | None => Ok (mkAccessStore identity empty_content false false None false ∅)
      | Some state =>
          let c := load_content state in
          match validateLoadedState identity c with
          | Some err => Err err
          | None =>
              match env.(le_secure) with
              | Some _ => Err "secure client access store"
              | None => Ok (mkAccessStore identity c false false None false (rebuildClientGrantIndex c.(c_grants)))
              end
          end
      end
  end end.

(** [LoadAccessSnapshot], and [Revoked] of a snapshot. *)
Definition LoadAccessSnapshot (identity : Identity) (read : option goerr) (d : disk) : result (gmap string storedAccessGrant) :=
  match Identity_Validate identity with
  | Some err => Err err
  | None =>
      let? found := loadStoredAccessState identity (match read with Some err => Err err | None => Ok d.(d_visible) end) in
      match found with
      | None => Ok ∅
      | Some state => match validateLoadedState identity (load_content state) with Some err => Err err | None => Ok state.(ss_Grants) end
      end
  end.
Definition snapshot_Revoked (snapshot : gmap string storedAccessGrant) (revocationID : string) : bool :=
  match snapshot !! TrimSpace revocationID with Some record => negb (IsZero record.(sg_RevokedAt)) | None => true end.
End access.
