(* ===== verification/AccessFacts.v ===== *)
(** * Records of the access store that pass its checks

    What a redemption writes is what [validateLoadedState] accepts, and what it answers is what is rebuilt from the
    records later. *)
From S2P Require Import Prelude GoStd GoText RemoteGrant RemoteGrantTheorems EndpointContracts Pairing PairingFacts AccessStore.
From Stdlib Require Import Ascii String.
Local Open Scope string_scope.
Local Open Scope Z_scope.
Local Open Scope bool_scope.

(** ** Digests and random identifiers *)
Section digests.
Context `{RemoteCryptoLaws}.

Lemma digest_plain p : plain_text (payloadDigest p).
Proof. apply plain_base64. Qed.
Lemma digest_valid p : validPayloadDigest (payloadDigest p) = true.
Proof. unfold validPayloadDigest. rewrite (TrimSpace_plain _ (digest_plain p)). unfold payloadDigest. rewrite DecodeString_Encode, sum_size. done. Qed.
Lemma digest_not_empty p : payloadDigest p ≠ "".
Proof. intros E. pose proof (digest_valid p) as Hv. rewrite E in Hv. vm_compute in Hv. discriminate Hv. Qed.
End digests.

Lemma byte_len_empty s : byte_len s = 0 → s = "".
Proof. unfold byte_len. destruct s; [done|cbn; lia]. Qed.

Lemma random_id_spec r prefix id : randomIdentifier r prefix = Ok id → ∃ raw, r = Some raw ∧ byte_len raw = 18 ∧ id = prefix +:+ EncodeToString raw.
Proof.
  unfold randomIdentifier, ReadFull. destruct r as [raw|]; [|done]. destruct (Z.eqb_spec (byte_len raw) 18); [|done]. cbn [result_bind]. intros [= <-]. by exists raw.
Qed.
Lemma nonce_not_empty r id : randomIdentifier r "" = Ok id → id ≠ "".
Proof.
  intros (raw & _ & Hl & ->)%random_id_spec. change (EncodeToString raw ≠ ""). intros E. pose proof (DecodeString_Encode raw) as Hd. rewrite E in Hd.
  vm_compute in Hd. injection Hd as <-. done.
Qed.
Lemma empty_plain : plain_text "".
Proof. constructor. Qed.
Lemma grant_prefix_plain : plain_text "grant-".
Proof. unfold plain_text. vm_compute. repeat (constructor; [split; [discriminate|reflexivity]|]). constructor. Qed.
Lemma grant_id_spec r id : randomIdentifier r "grant-" = Ok id → plain_text id ∧ id ≠ "".
Proof.
  intros Hr. split; [exact (random_id_plain r _ id grant_prefix_plain Hr)|]. apply random_id_spec in Hr as (raw & _ & _ & ->). done.
Qed.

Lemma validate_claims_spec c : validateClaims c = None →
  c.(gc_Version) = 2 ∧ c.(gc_NotBefore) ≠ zero_time ∧ c.(gc_RevocationID) ≠ "" ∧ c.(gc_Nonce) ≠ "" ∧ c.(gc_IssuedAt) < c.(gc_ExpiresAt).
Proof.
  unfold validateClaims, IsZero, After. destruct (Z.eqb_spec c.(gc_Version) 2); [cbn [negb]|done].
  destruct (String.eqb c.(gc_GrantID) ""); [done|]. destruct (String.eqb c.(gc_IssuerDeviceID) ""); [done|].
  destruct (String.eqb c.(gc_IssuerDeviceFingerprint) ""); [done|]. destruct (String.eqb c.(gc_SubjectKeyFingerprint) ""); [done|].
  destruct (String.eqb_spec c.(gc_RevocationID) ""); [done|]. destruct (String.eqb_spec c.(gc_Nonce) ""); [done|]. cbn [orb].
  destruct (validateScope _); [done|]. destruct (Z.eqb_spec c.(gc_IssuedAt) zero_time); [done|]. destruct (Z.eqb_spec c.(gc_NotBefore) zero_time); [done|].
  destruct (Z.eqb_spec c.(gc_ExpiresAt) zero_time); [done|]. destruct (Z.ltb_spec c.(gc_NotBefore) c.(gc_ExpiresAt)); [|done].
  by destruct (Z.ltb_spec c.(gc_IssuedAt) c.(gc_ExpiresAt)).
Qed.

(** ** The index *)
Definition index_of (grants : gmap string storedAccessGrant) (fingerprint grantID : string) : Prop :=
  ∃ g, grants !! grantID = Some g ∧ g.(sg_Claims).(gc_SubjectKeyFingerprint) = fingerprint.

Lemma index_grant_spec index fp id f i : i ∈ indexGrant index fp id !!! f ↔ (f = fp ∧ i = id) ∨ i ∈ index !!! f.
Proof.
  unfold indexGrant. destruct (decide (f = fp)) as [->|Hne].
  - rewrite lookup_total_insert_eq, elem_of_union, elem_of_singleton. naive_solver.
  - rewrite lookup_total_insert_ne by done. naive_solver.
Qed.

Lemma rebuild_spec grants f i : i ∈ rebuildClientGrantIndex grants !!! f ↔ index_of grants f i.
Proof.
  unfold rebuildClientGrantIndex, index_of. revert f i.
  apply (map_fold_weak_ind (λ index m, ∀ f i, i ∈ index !!! f ↔ ∃ g, m !! i = Some g ∧ g.(sg_Claims).(gc_SubjectKeyFingerprint) = f)).
  - intros f i. rewrite lookup_total_empty. split; [by intros ?%elem_of_empty|]. intros (g & Hg & _). by rewrite lookup_empty in Hg.
  - intros k g m index Hk IH f i. rewrite index_grant_spec, IH. split.
    + intros [[-> ->]|(g' & Hg & <-)]; [exists g; by rewrite lookup_insert_eq|]. exists g'. split; [|done].
      rewrite lookup_insert_ne; [done|]. intros ->. by rewrite Hk in Hg.
    + intros (g' & Hg & Hf). apply lookup_insert_Some in Hg as [[-> ->]|[Hne Hg]]; [by left|]. right. by exists g'.
Qed.

(** ** Compacting *)
Lemma compact_tickets now s id r : tickets (compactLocked now s).1 !! id = Some r ↔ tickets s !! id = Some r ∧ keeps_ticket now r = true.
Proof.
  assert (E : tickets (compactLocked now s).1 = filter (λ kr, keeps_ticket now kr.2 = true) (tickets s)) by (unfold compactLocked; by destruct (negb _)).
  rewrite E, map_lookup_filter_Some. done.
Qed.
Lemma compact_grants now s id g : grants (compactLocked now s).1 !! id = Some g ↔ grants s !! id = Some g ∧ keeps_grant now g = true.
Proof.
  assert (E : grants (compactLocked now s).1 = filter (λ kr, keeps_grant now kr.2 = true) (grants s)) by (unfold compactLocked; by destruct (negb _)).
  rewrite E, map_lookup_filter_Some. done.
Qed.
Lemma compact_rest now s : (compactLocked now s).1.(as_identity) = s.(as_identity) ∧ (compactLocked now s).1.(as_closed) = s.(as_closed)
  ∧ (compactLocked now s).1.(as_content).(c_revision) = s.(as_content).(c_revision)
  ∧ (compactLocked now s).1.(as_managedRouteGrantIssuer) = s.(as_managedRouteGrantIssuer).
Proof. unfold compactLocked. by destruct (negb _). Qed.

(** ** Grants that were redeemed *)
Section redeemed.
Context `{RemoteCryptoLaws} `{EndpointProto}.
Context (identity : Identity) (Hidentity : identity_ok identity).

(** Nothing is left for [Issue] to fill in. *)
Lemma issue_fixed k c : claims_normal c → c.(gc_Version) = 2 → c.(gc_NotBefore) ≠ zero_time → c.(gc_RevocationID) ≠ "" → c.(gc_Nonce) ≠ "" →
  c.(gc_IssuerDeviceFingerprint) = Fingerprint k → issued_claims k c None = Ok c.
Proof.
  intros Hn Hv Hb Hr Hnonce Hf. unfold issued_claims. rewrite (normal_fixed c Hn). destruct c as [v gi dv fp sf sc ia nb ea ri no].
  cbn [gc_Version gc_NotBefore gc_RevocationID gc_Nonce gc_IssuerDeviceFingerprint] in *. subst v fp.
  cbn -[Fingerprint IsZero]. unfold IsZero. rewrite (proj2 (Z.eqb_neq nb zero_time) Hb). cbn -[Fingerprint].
  rewrite (proj2 (String.eqb_neq ri "") Hr). cbn -[Fingerprint]. by rewrite (proj2 (String.eqb_neq no "") Hnonce).
Qed.

(** The claims of a grant of this daemon. *)
Record grant_ok (id : string) (c : Claims) : Prop := {
  go_normal : claims_normal c;
  go_text : claims_text c;
  go_id : c.(gc_GrantID) = id;
  go_revocation : c.(gc_RevocationID) = id;
  go_device : c.(gc_IssuerDeviceID) = identity.(id_DeviceID);
  go_fingerprint : c.(gc_IssuerDeviceFingerprint) = identity.(id_Fingerprint);
  go_valid : validateClaims c = None;
  go_issued : is_ok (Issue identity.(id_PrivateKey) c None) = true }.

(** What the daemon signs for such claims, it verifies as these claims. *)
Lemma grant_verifies id c : grant_ok id c → ∃ g, Issue identity.(id_PrivateKey) c None = Ok g
  ∧ ∀ fp, verifyGrantEnvelope g fp = if String.eqb identity.(id_Fingerprint) (TrimSpace fp) then Ok c else Err ErrGrantFingerprintMismatch.
Proof.
  intros [Hn Ht _ _ _ Hf Hv Hi]. destruct (Issue _ _ _) as [g|] eqn:E; [|done]. exists g. split; [done|]. intros fp.
  destruct (identity_spec identity (io_valid _ Hidentity)) as (_ & Hid & _).
  destruct (envelope_issued _ _ _ _ ltac:(rewrite (normal_fixed c Hn); exact Ht) E) as (c' & Hc & _ & Hver).
  rewrite Hver, <- Hid. rewrite (issue_fixed (Public identity.(id_PrivateKey)) c) in Hc; [by injection Hc as <-|done|..|by rewrite Hf].
  all: by apply validate_claims_spec in Hv as (? & ? & ? & ? & _).
Qed.

Lemma fingerprint_trimmed : TrimSpace identity.(id_Fingerprint) = identity.(id_Fingerprint).
Proof. destruct (identity_spec identity (io_valid _ Hidentity)) as (_ & -> & _). apply TrimSpace_plain, fingerprint_plain. Qed.

Lemma grant_ok_valid id g : grant_ok id g.(sg_Claims) → grant_invalid identity id g = false.
Proof.
  intros Hg. destruct (grant_verifies _ _ Hg) as (t & Hi & Hver). destruct Hg as [Hn Ht Hid Hr Hd Hf Hv _].
  unfold grant_invalid. rewrite (normal_fixed _ Hn), Hid, Hr, Hd, Hf, Hv, !String.eqb_refl, Hi. cbn [negb orb].
  rewrite Hver, fingerprint_trimmed, String.eqb_refl. by rewrite bool_decide_eq_true_2.
Qed.

(** The claims of a redemption inside the window of the ticket. *)
Lemma window_spec claims now clock : claims_ok identity claims → now ≠ zero_time → validatePairingTicketTime claims now clock = None →
  claims.(pc_NotBefore) ≤ now < claims.(pc_ExpiresAt) ∧ - 2 ^ 63 ≤ now < 2 ^ 63.
Proof.
  intros Hc Hnow. unfold validatePairingTicketTime, Before. unfold IsZero. rewrite (proj2 (Z.eqb_neq now zero_time) Hnow).
  destruct (Z.ltb_spec now claims.(pc_NotBefore)); [done|]. destruct (Z.ltb_spec now claims.(pc_ExpiresAt)); [|done]. intros _. pose proof (co_times _ _ Hc). lia.
Qed.

Lemma lifetime_spec claims : claims_ok identity claims → 0 < claims.(pc_GrantLifetimeSeconds) ≤ 365 * 24 * 3600
  ∧ i64 (claims.(pc_GrantLifetimeSeconds) * second) = claims.(pc_GrantLifetimeSeconds) * second.
Proof.
  intros Hc. pose proof (co_valid _ _ Hc) as Hv. revert Hv. unfold validatePairingTicketClaims. destruct (_ || _ || _ || _ || _) eqn:?; [done|].
  destruct (_ =? 1); [cbn [negb orb]|done]. destruct (Z.leb_spec claims.(pc_GrantLifetimeSeconds) 0); [done|]. cbn [orb].
  change (maxPairingGrantTTL / second) with 31536000. destruct (Z.gtb_spec claims.(pc_GrantLifetimeSeconds) 31536000); [done|]. intros _.
  split; [lia|]. apply i64_small. unfold second, nanos_per_second. lia.
Qed.

Lemma grant_claims_ok claims id nonce key now clock g rid rnonce : claims_ok identity claims → now ≠ zero_time →
  validatePairingTicketTime claims now clock = None → randomIdentifier rid "grant-" = Ok id → randomIdentifier rnonce "" = Ok nonce →
  Issue identity.(id_PrivateKey) (grant_claims identity claims id nonce (Fingerprint key) now) None = Ok g →
  grant_ok id (grant_claims identity claims id nonce (Fingerprint key) now).
Proof.
  intros Hc Hnow Hwin Hid Hnonce Hissue. destruct (window_spec _ _ _ Hc Hnow Hwin) as [_ Hr]. destruct (grant_id_spec _ _ Hid) as [Hpid Hneid].
  pose proof (nonce_not_empty _ _ Hnonce) as Hnen. pose proof (random_id_plain _ _ _ empty_plain Hnonce) as Hpn. pose proof (fingerprint_plain key) as Hpk.
  destruct (identity_spec identity (io_valid _ Hidentity)) as (_ & Hidf & _). pose proof (fingerprint_plain (Public identity.(id_PrivateKey))) as Hpf. rewrite <- Hidf in Hpf.
  pose proof (co_text _ _ Hc) as Ht. unfold ticket_text in Ht. rewrite !Forall_cons in Ht. destruct Ht as (_ & Hdt & _ & Hst & _).
  pose proof (co_device _ _ Hc) as Hdev. pose proof (co_normal _ _ Hc) as Hnorm.
  assert (Hdtrim : TrimSpace identity.(id_DeviceID) = identity.(id_DeviceID)) by (rewrite <- Hdev, <- Hnorm; apply TrimSpace_idemp).
  assert (Hstrim : TrimSpace claims.(pc_ScopeCeiling).(TerminalID) = claims.(pc_ScopeCeiling).(TerminalID)) by (rewrite <- Hnorm; apply TrimSpace_idemp).
  revert Hissue. unfold grant_claims. set (raw := mkGrantClaims _ _ _ _ _ _ _ _ _ _ _). intros Hissue.
  assert (Hraw : normalizeClaims raw = raw).
  { unfold normalizeClaims, raw. cbn -[TrimSpace Fingerprint]. rewrite Hdtrim, (TrimSpace_plain _ Hpid), (TrimSpace_plain _ Hpf), (TrimSpace_plain _ Hpk), (TrimSpace_plain _ Hpn).
    f_equal. destruct (pc_ScopeCeiling claims). cbn -[TrimSpace] in *. unfold set_field. cbn -[TrimSpace]. by rewrite Hstrim. }
  assert (Htext : claims_text raw).
  { unfold claims_text, raw. cbn -[ValidString Fingerprint]. rewrite Hdev in Hdt.
    repeat (apply Forall_cons; split; [first [by apply utf8_plain|done]|]). apply Forall_nil_2. }
  assert (Hnormal : claims_normal raw) by (rewrite <- Hraw; apply normalize_normal). rewrite Hraw in *.
  assert (Hfix : issued_claims (Public identity.(id_PrivateKey)) raw None = Ok raw).
  { apply issue_fixed; [done|done| |exact Hneid|exact Hnen|exact Hidf]. unfold raw. cbn. unfold zero_time, defaultClockSkew, second, nanos_per_second in *. lia. }
  split; try done; [|by rewrite Hissue].
  destruct (envelope_issued _ _ _ _ ltac:(rewrite Hraw; exact Htext) Hissue) as (c' & Hc' & Hv & _). rewrite Hfix in Hc'. by injection Hc' as <-.
Qed.

(** ** Tickets that were redeemed *)
Lemma managed_route_spec s b key product now expires r l : managed_route s b key product now expires = Ok (r, l) →
  (r = "" ∧ l = "") ∨ (byte_len r ≠ 0 ∧ byte_len l ≠ 0).
Proof.
  unfold managed_route. destruct (_ && _); [done|]. destruct (pairingBundleHasManagedRoute b); [|intros [= <- <-]; by left].
  destruct (as_managedRouteGrantIssuer s) as [issuer|]; [|done]. destruct (issuer _ _ _ _) as [[x y]|]; [|done].
  destruct (Z.eqb_spec (byte_len x) 0); [done|]. destruct (Z.eqb_spec (byte_len y) 0); [done|]. intros [= <- <-]. by right.
Qed.

(** The same grant, perhaps revoked. *)
Definition same_grant (g g' : storedAccessGrant) : Prop := g' = g <| sg_RevokedAt := g'.(sg_RevokedAt) |>.
Definition keeps_link (grants grants' : gmap string storedAccessGrant) (r : storedPairingTicket) : Prop :=
  r.(st_GrantID) = "" ∨ ∀ g, grants !! r.(st_GrantID) = Some g → ∃ g', grants' !! r.(st_GrantID) = Some g' ∧ same_grant g g'.

Lemma result_agree grants grants' r : keeps_link grants grants' r → r.(st_GrantID) ≠ "" → is_ok (pairingResultFromStored identity grants r) = true →
  pairingResultFromStored identity grants' r = pairingResultFromStored identity grants r.
Proof.
  intros [?|Hk] Hne Hok; [done|]. unfold pairingResultFromStored in *. destruct (grants !! st_GrantID r) as [g|] eqn:E; [|done].
  destruct (Hk g eq_refl) as (g' & -> & Hs). by rewrite Hs.
Qed.

Lemma ticket_agree grants grants' id r : keeps_link grants grants' r → ticket_invalid identity grants id r = false → ticket_invalid identity grants' id r = false.
Proof.
  intros Hk. unfold ticket_invalid. destruct (_ || _ || _ || _ || _); [done|]. destruct (String.eqb_spec r.(st_GrantID) "") as [|Hne]; [done|].
  destruct (grant_link_broken grants r) eqn:Hl; [done|]. destruct (managed_incomplete grants r) eqn:Hm; [done|].
  destruct (pairingResultFromStored identity grants r) as [res|] eqn:Hr; [|done]. intros Hb.
  rewrite (result_agree grants grants' r Hk Hne) by (by rewrite Hr). rewrite Hr, Hb.
  unfold grant_link_broken, managed_incomplete in *. destruct (grants !! st_GrantID r) as [g|] eqn:E; [|done].
  destruct Hk as [?|Hk]; [done|]. destruct (Hk g E) as (g' & -> & ->). cbn. by rewrite Hl, Hm.
Qed.

Lemma unredeemed_spec grants id r : ticket_invalid identity grants id r = false → r.(st_GrantID) = "" → r = new_ticket r.(st_Claims) r.(st_TicketDigest).
Proof.
  unfold ticket_invalid. destruct (_ || _ || _ || _ || _); [done|]. intros Hp Hg. rewrite Hg in Hp. cbn [String.eqb] in Hp. unfold partial_redemption in Hp.
  rewrite !orb_false_iff, !negb_false_iff, !String.eqb_eq in Hp. unfold IsZero in Hp. rewrite !Z.eqb_eq in Hp.
  destruct r as [c d k l g rd dd ra gr cr ce]. cbn in Hp, Hg. by destruct Hp as [[[[[[[-> ->] ->] ->] ->] ->] ->] ->]; subst g.
Qed.

Lemma ticket_claims_invalid id r : claims_ok identity r.(st_Claims) → r.(st_Claims).(pc_TicketID) = id → validPayloadDigest r.(st_TicketDigest) = true →
  ticket_invalid identity ∅ id r = false ∨ r.(st_GrantID) ≠ "" ∨ partial_redemption r = true.
Proof.
  intros [Hn Hv Hd Hf _ _] Hid Hdig. unfold ticket_invalid. rewrite Hn, Hid, Hd, Hf, Hv, Hdig, !String.eqb_refl. cbn [negb orb].
  destruct (String.eqb_spec r.(st_GrantID) ""); [|by right; left]. destruct (partial_redemption r); [by right; right|by left].
Qed.

Lemma new_ticket_valid grants id claims payload : claims_ok identity claims → claims.(pc_TicketID) = id →
  ticket_invalid identity grants id (new_ticket claims (payloadDigest payload)) = false.
Proof.
  intros Hc Hid. apply (ticket_agree ∅); [by left|]. destruct (ticket_claims_invalid id (new_ticket claims (payloadDigest payload))) as [?|[?|?]]; try done. apply digest_valid.
Qed.

(** What a redemption stores and answers. *)
Section redemption.
Context (claims : PairingTicketClaims) (key label grantID nonce bound route locator digest : string) (now : Z).
Let gclaims := grant_claims identity claims grantID nonce (Fingerprint key) now.
Let receipt := pairingDeliveryReceipt identity.(id_PrivateKey) claims.(pc_TicketID) (Fingerprint key) grantID.
Let record := updated_ticket (new_ticket claims digest) (Fingerprint key) label grantID bound receipt now route locator.
Context (Hclaims : claims_ok identity claims) (Hdigest : validPayloadDigest digest = true).
Context (Hbound : Issue identity.(id_PrivateKey) gclaims None = Ok bound) (Hgrant : grant_ok grantID gclaims) (Hid : grantID ≠ "").
Context (Hroute : (route = "" ∧ locator = "") ∨ (byte_len route ≠ 0 ∧ byte_len locator ≠ 0)).
Context (grants : gmap string storedAccessGrant) (Hgrants : grants !! grantID = Some (mkStoredGrant gclaims label zero_time route locator)).

Lemma redeemed_result : pairingResultFromStored identity grants record
  = Ok (mkExchange claims.(pc_TicketID) bound grantID receipt (Fingerprint key) gclaims.(gc_Scope) gclaims.(gc_ExpiresAt) route locator).
Proof.
  unfold pairingResultFromStored, record, updated_ticket.
  cbn [st_GrantID st_ResultGrantDigest st_Claims st_SubjectKeyFingerprint st_DeliveryReceiptDigest st_CloudRouteGrantDigest st_CloudEdgeLocatorDigest new_ticket].
  rewrite Hgrants. cbn [sg_Claims sg_CloudRouteGrant sg_CloudEdgeLocator]. rewrite Hbound, String.eqb_refl. cbn [negb]. fold receipt. rewrite String.eqb_refl. cbn [negb].
  destruct Hroute as [[-> ->]|[Hr Hl]].
  - reflexivity.
  - rewrite (proj2 (Z.eqb_neq _ _) Hr), !String.eqb_refl. by rewrite !andb_false_r.
Qed.

Lemma redeemed_valid : ticket_invalid identity grants claims.(pc_TicketID) record = false.
Proof.
  destruct Hclaims as [Hn Hv Hd Hf _ _]. unfold ticket_invalid.
  change (st_Claims record) with claims. change (st_TicketDigest record) with digest. change (st_GrantID record) with grantID.
  rewrite Hn, Hd, Hf, Hv, Hdigest, !String.eqb_refl, (proj2 (String.eqb_neq _ _) Hid). cbn [negb orb].
  assert (Hgid : gclaims.(gc_GrantID) = grantID) by apply Hgrant.
  assert (Es : gclaims.(gc_Scope) = claims.(pc_ScopeCeiling)).
  { transitivity (normalizePairingTicketClaims claims).(pc_ScopeCeiling); [reflexivity|by rewrite Hn]. }
  assert (Hk : TrimSpace (Fingerprint key) = Fingerprint key) by apply TrimSpace_plain, fingerprint_plain.
  unfold grant_link_broken. change (st_GrantID record) with grantID. rewrite Hgrants.
  change (sg_Claims (mkStoredGrant gclaims label zero_time route locator)) with gclaims. rewrite Hgid.
  change (gc_SubjectKeyFingerprint gclaims) with (TrimSpace (Fingerprint key)). rewrite Hk.
  change (st_SubjectKeyFingerprint record) with (Fingerprint key). change (st_ClientLabel record) with label.
  change (st_RedeemedAt record) with now. change (gc_IssuedAt gclaims) with now. change (st_DeliveryGraceUntil record) with (now + defaultDeliveryGrace).
  change (st_ResultGrantDigest record) with (payloadDigest bound). change (st_DeliveryReceiptDigest record) with (payloadDigest receipt).
  cbn [sg_ClientLabel]. rewrite !String.eqb_refl, Z.eqb_refl, !digest_valid. unfold After.
  assert (Ea : now <? now + defaultDeliveryGrace = true) by (apply Z.ltb_lt; unfold defaultDeliveryGrace, hour, second, nanos_per_second; lia). rewrite Ea. cbn [negb orb].
  unfold managed_incomplete. change (st_GrantID record) with grantID. rewrite Hgrants. cbn [sg_CloudRouteGrant sg_CloudEdgeLocator].
  rewrite redeemed_result. cbn [er_Scope]. rewrite Es, bool_decide_eq_true_2 by done.
  destruct Hroute as [[-> ->]|[Hr Hl]]; [reflexivity|]. rewrite (proj2 (Z.eqb_neq _ _) Hr), (proj2 (Z.eqb_neq _ _) Hl). cbn [negb orb andb].
  assert (E1 : st_CloudRouteGrantDigest record = payloadDigest route) by (unfold record, updated_ticket; cbn [st_CloudRouteGrantDigest]; by rewrite (proj2 (Z.eqb_neq _ _) Hr)).
  assert (E2 : st_CloudEdgeLocatorDigest record = payloadDigest locator) by (unfold record, updated_ticket; cbn [st_CloudEdgeLocatorDigest]; by rewrite (proj2 (Z.eqb_neq _ _) Hr)).
  by rewrite E1, E2, !digest_valid.
Qed.
End redemption.
End redeemed.
