(* ===== verification/AccessWorld.v ===== *)
(** * A daemon that keeps its access store through restarts and power losses

    The requests to the store one after the other, with every way a write can end, the process stopping and starting
    again, and power losses. *)
From S2P Require Import Prelude GoStd GoText RemoteGrant RemoteGrantTheorems EndpointContracts Pairing PairingFacts AccessStore AccessFacts.
From Stdlib Require Import Ascii String.
Local Open Scope string_scope.
Local Open Scope Z_scope.
Local Open Scope bool_scope.

(** ** Requests *)
Inductive access_op `{EndpointProto} :=
| OLoad (env : load_env)
| OExit
| OPowerLoss (keep : bool)     (* whether the file is still the one that was renamed last *)
| OIssue (options : PairingIssueOptions Route) (clock : Z) (randomTicket randomBundle randomNonce : option string) (w : write_outcome)
| ORedeem (payload clientPublicKey clientLabel : string) (product now clock : Z) (randomGrant randomNonce : option string) (w : write_outcome)
| ORevoke (grantID : string) (clock : Z) (w : write_outcome)
| OClose
| OConfigure (issuer : option RouteIssuer)
| OBootstrap (issuer : bool)
| ODisable.

Inductive reply `{EndpointProto} :=
| RDone
| RFailed (err : goerr)
| RIssued (bundle : Bundle Route) (claims : PairingTicketClaims)
| RRedeemed (result : PairingExchangeResult)
| RRevoked (record : ClientAccessRecord).

Record access_world `{EndpointProto} := mkAccessWorld {
  aw_store : option AccessStore; aw_disk : disk; aw_past : list (access_op * reply) }.
Arguments mkAccessWorld {_} _ _ _.

Section world.
Context `{RemoteCrypto} `{EndpointProto} `{AccessJson}.
Context (identity : Identity).

Definition reply_of {A} (k : A → reply) (r : result A) : reply := match r with Ok a => k a | Err err => RFailed err end.
Definition reply_error (r : option goerr) : reply := match r with Some err => RFailed err | None => RDone end.

(** The store and the file after a request, and what it answers. Only one open store holds the lock of the directory. *)
Definition access_run (o : access_op) (store : option AccessStore) (d : disk) : option AccessStore * disk * reply :=
  match o, store with
  | OLoad env, store =>
      if (match store with Some s => Available s | None => false end) then (store, d, RFailed "acquire client access owner lock")
      else match LoadAccessStore identity env d with Ok s => (Some s, d, RDone) | Err err => (store, d, RFailed err) end
  | OExit, _ => (None, d, RDone)
  | OPowerLoss keep, _ => let file := if keep then d.(d_visible) else d.(d_durable) in (None, mkDisk file file, RDone)
  | _, None => (None, d, RFailed "client access store is nil")
  | OIssue options clock r1 r2 r3 w, Some s =>
      let '(s, d, r) := IssuePairingBundle options clock r1 r2 r3 w s d in (Some s, d, reply_of (λ bc, RIssued bc.1 bc.2) r)
  | ORedeem payload key label product now clock r1 r2 w, Some s =>
      let '(s, d, r) := redeemPairingBundle payload key label product now clock r1 r2 w s d in (Some s, d, reply_of RRedeemed r)
  | ORevoke grantID clock w, Some s => let '(s, d, r) := RevokeGrant grantID clock w s d in (Some s, d, reply_of RRevoked r)
  | OClose, Some s => (Some (Close s), d, RDone)
  | OConfigure issuer, Some s => let '(s, r) := ConfigureManagedRouteGrantIssuer issuer s in (Some s, d, reply_error r)
  | OBootstrap issuer, Some s => let '(s, r) := ConfigureManagedPairingBootstrapIssuer issuer s in (Some s, d, reply_error r)
  | ODisable, Some s => let '(s, r) := DisableManagedCloudRoute s in (Some s, d, reply_error r)
  end.

Definition access_step (w : access_world) (o : access_op) : access_world :=
  let '(s, d, r) := access_run o w.(aw_store) w.(aw_disk) in mkAccessWorld s d (w.(aw_past) ++ [(o, r)]).
(** From a directory without the file. *)
Definition no_access : access_world := mkAccessWorld None (mkDisk None None) [].
Definition access_runs (ops : list access_op) : access_world := foldl access_step no_access ops.

(** ** What is random, and what is hashed *)

(** The bundle a request issues, as long as the store is open. *)
Definition issued_by (o : access_op) : option (string * PairingTicketClaims) :=
  match o with
  | OIssue options clock r1 r2 r3 _ =>
      let now := if IsZero options.(io_Now) then clock else options.(io_Now) in
      match issuePairingBundle identity (mkIssueOptions options.(io_Label) options.(io_Scope) options.(io_TicketTTL) options.(io_GrantLifetime)
                                           now options.(io_Routes)) clock r1 r2 r3 with
      | Ok (bundle, claims) => match EncodePairingBundle bundle with Ok payload => Some (payload, claims) | Err _ => None end
      | Err _ => None
      end
  | _ => None
  end.
Definition ticket_draw (o : access_op) : option string := (λ pc, pc.2.(pc_TicketID)) <$> issued_by o.
Definition grant_draw (o : access_op) : option string :=
  match o with
  | ORedeem _ _ _ _ _ _ r1 _ _ => match randomIdentifier r1 "grant-" with Ok grantID => Some grantID | Err _ => None end
  | _ => None
  end.
Definition payload_of (o : access_op) : option string :=
  match o with ORedeem payload _ _ _ _ _ _ _ _ => Some payload | _ => fst <$> issued_by o end.
Definition is_power_loss (o : access_op) : Prop := match o with OPowerLoss _ => True | _ => False end.

(** A clock does not show the year 1. *)
Definition clock_ok (o : access_op) : Prop :=
  match o with
  | ORedeem _ _ _ _ now clock _ _ _ => (if IsZero now then clock else now) ≠ zero_time
  | ORevoke _ clock _ => clock ≠ zero_time
  | _ => True
  end.

(** No two of the payloads seen have the same digest. *)
Definition digests_differ (ops : list access_op) : Prop :=
  ∀ p q, p ∈ omap payload_of ops → q ∈ omap payload_of ops → payloadDigest p = payloadDigest q → p = q.

Record sane (ops : list access_op) : Prop := {
  sn_clock : Forall clock_ok ops;
  sn_digest : digests_differ ops;
  sn_steps : Z.of_nat (List.length ops) < 2 ^ 64 }.

Lemma sane_prefix ops k : sane (ops ++ k) → sane ops.
Proof.
  intros [Hc Hd Hs]. apply Forall_app in Hc as [Hc _]. split; [done| |rewrite length_app in Hs; lia].
  intros p q Hp Hq. apply Hd; rewrite omap_app; set_solver.
Qed.

Lemma runs_snoc ops o : access_runs (ops ++ [o]) = access_step (access_runs ops) o.
Proof. unfold access_runs. by rewrite foldl_app. Qed.
Lemma past_ops ops : (access_runs ops).(aw_past).*1 = ops.
Proof.
  induction ops as [|o ops IH] using rev_ind; [done|]. rewrite runs_snoc. unfold access_step. destruct (access_run _ _ _) as [[s d] r].
  cbn [aw_past]. by rewrite fmap_app, IH.
Qed.
End world.

(** ** What the encoding keeps *)
Definition record_text (r : storedPairingTicket) : Prop :=
  ticket_text r.(st_Claims) ∧ Forall (λ s, ValidString s = true)
    [r.(st_TicketDigest); r.(st_SubjectKeyFingerprint); r.(st_ClientLabel); r.(st_GrantID); r.(st_ResultGrantDigest);
     r.(st_DeliveryReceiptDigest); r.(st_CloudRouteGrantDigest); r.(st_CloudEdgeLocatorDigest)].
Definition state_text (s : storedAccessState) : Prop :=
  Forall (λ s, ValidString s = true) [s.(ss_IssuerDeviceID); s.(ss_IssuerFingerprint); s.(ss_StateSignature)]
  ∧ map_Forall (λ id r, ValidString id = true ∧ record_text r) s.(ss_Tickets)
  ∧ map_Forall (λ id g, ValidString id = true ∧ claims_text g.(sg_Claims) ∧ ValidString g.(sg_ClientLabel) = true) s.(ss_Grants).

(** JSON keeps texts that are valid UTF-8; bytes are base64. *)
Class AccessJsonLaws `{AccessJson} : Prop := {
  json_roundtrip s p : state_text s → json_MarshalIndent s = Ok p → json_decode (p +:+ newline) = Ok s }.
