(* ===== verification/AccessSteps.v ===== *)
(** * The invariant of the access store

    What the file and the memory hold is well formed whatever requests were made, every write leads from one such content
    to the next, and such a content is read back. *)
From S2P Require Import Prelude GoStd GoText RemoteGrant RemoteGrantTheorems EndpointContracts Pairing PairingFacts AccessStore AccessFacts AccessWorld.
From Stdlib Require Import Ascii String.
Local Open Scope string_scope.
Local Open Scope Z_scope.
Local Open Scope bool_scope.

Section invariant.
Context `{RemoteCryptoLaws} `{EndpointProtoLaws} `{AccessJsonLaws}.
Context (identity : Identity) (Hidentity : identity_ok identity).

(** ** Well-formed contents *)

(** The daemon issued this payload, with these claims. *)
Definition issued (ops : list access_op) (payload : string) (claims : PairingTicketClaims) : Prop :=
  ∃ o, o ∈ ops ∧ issued_by identity o = Some (payload, claims).

(** The grant is what the ticket allows: its scope, made out inside its window, for its lifetime. *)
Definition for_ticket (claims : PairingTicketClaims) (c : Claims) : Prop :=
  c.(gc_Scope) = claims.(pc_ScopeCeiling)
    ∧ claims.(pc_NotBefore) ≤ c.(gc_IssuedAt) < claims.(pc_ExpiresAt)
    ∧ c.(gc_NotBefore) = c.(gc_IssuedAt) - defaultClockSkew
    ∧ c.(gc_ExpiresAt) = c.(gc_IssuedAt) + claims.(pc_GrantLifetimeSeconds) * second
    ∧ 0 < claims.(pc_GrantLifetimeSeconds) ≤ 365 * 24 * 3600.

Record ticket_good (ops : list access_op) (c : content) (id : string) (r : storedPairingTicket) : Prop := {
  tg_valid : ticket_invalid identity c.(c_grants) id r = false;
  tg_claims : claims_ok identity r.(st_Claims);
  tg_text : ValidString id = true ∧ record_text r;
  tg_issued : ∃ p, issued ops p r.(st_Claims) ∧ r.(st_TicketDigest) = payloadDigest p;
  tg_grant g : r.(st_GrantID) ≠ "" → c.(c_grants) !! r.(st_GrantID) = Some g → for_ticket r.(st_Claims) g.(sg_Claims);
  tg_grace : r.(st_GrantID) ≠ "" → r.(st_DeliveryGraceUntil) = r.(st_RedeemedAt) + defaultDeliveryGrace ∧ r.(st_DeliveryGraceUntil) ≠ zero_time }.

Record grant_good (ops : list access_op) (id : string) (g : storedAccessGrant) : Prop := {
  gg_ok : grant_ok identity id g.(sg_Claims);
  gg_text : ValidString id = true ∧ ValidString g.(sg_ClientLabel) = true;
  gg_drawn : id ∈ omap grant_draw ops }.

Record good (ops : list access_op) (c : content) : Prop := {
  gd_ticket id r : c.(c_tickets) !! id = Some r → ticket_good ops c id r;
  gd_grant id g : c.(c_grants) !! id = Some g → grant_good ops id g;
  gd_revision : 0 ≤ c.(c_revision) ≤ Z.of_nat (List.length ops) ∧ (c.(c_revision) = 0 → c.(c_grants) = ∅) }.

Lemma good_empty ops : good ops empty_content.
Proof. split; cbn [c_tickets c_grants c_revision empty_content]; [by intros ?? ?%lookup_empty_Some..|]. split; [lia|done]. Qed.

Lemma issued_mono ops o p c : issued ops p c → issued (ops ++ [o]) p c.
Proof. intros (o' & Ho & ?). exists o'. split; [set_solver|done]. Qed.
Lemma grant_good_mono ops o id g : grant_good ops id g → grant_good (ops ++ [o]) id g.
Proof. intros []. split; [done|done|rewrite omap_app; set_solver]. Qed.
Lemma ticket_good_mono ops o c id r : ticket_good ops c id r → ticket_good (ops ++ [o]) c id r.
Proof. intros [Hv Hc Ht (p & Hi & ?) Hgr Hg]. split; try done. exists p. split; [by apply issued_mono|done]. Qed.
Lemma good_mono ops o c : good ops c → good (ops ++ [o]) c.
Proof.
  intros [Ht Hg Hr]. split; [intros id r ?; by apply ticket_good_mono, Ht|intros id g ?; by apply grant_good_mono, Hg|].
  rewrite length_app. cbn. split; [lia|apply Hr].
Qed.

(** ** A well-formed content is read back *)
Lemma good_valid ops c : good ops c → validateLoadedState identity c = None.
Proof.
  intros [Ht Hg [_ Hr]]. unfold validateLoadedState.
  assert (E : (c_revision c =? 0) && negb (bool_decide (c_grants c = ∅)) = false).
  { destruct (Z.eqb_spec c.(c_revision) 0) as [E|]; [|done]. by rewrite (bool_decide_eq_true_2 _ (Hr E)). }
  rewrite E. assert (Hall : ∀ {A} (l : list A) f, (∀ x, x ∈ l → f x = false) → existsb f l = false).
  { intros A l f Hl. apply not_true_is_false. intros (x & Hx & Hf)%existsb_exists. apply list_elem_of_In in Hx. by rewrite (Hl x Hx) in Hf. }
  rewrite Hall; [|intros [id r] Hin%elem_of_map_to_list; by apply (tg_valid _ _ _ _ (Ht _ _ Hin))].
  rewrite Hall; [done|]. intros [id g] Hin%elem_of_map_to_list. cbn. by apply (grant_ok_valid identity Hidentity), (gg_ok _ _ _ (Hg _ _ Hin)).
Qed.

Lemma good_text ops c sig : good ops c → ValidString sig = true → state_text ((state_of identity c) <| ss_StateSignature := sig |>).
Proof.
  intros [Ht Hg _] Hs. split; [|split].
  - cbn [ss_IssuerDeviceID ss_IssuerFingerprint ss_StateSignature state_of]. destruct (identity_spec identity (io_valid _ Hidentity)) as (_ & Hf & _).
    repeat (apply Forall_cons; split); [apply Hidentity| |exact Hs|done].
    change (ValidString identity.(id_Fingerprint) = true). rewrite Hf. apply utf8_plain, fingerprint_plain.
  - intros id r Hr. apply (tg_text _ _ _ _ (Ht id r Hr)).
  - intros id g Hr. destruct (Hg id g Hr) as [Ho [? ?] _]. split; [done|]. split; [apply Ho|done].
Qed.

Definition holds (file : option string) (c : content) : Prop :=
  match file with Some p => state_payload identity c = Ok p | None => c = empty_content end.

Definition loads (file : option string) (c : content) : Prop :=
  ∀ env, env.(le_lock) = None → env.(le_read) = None → env.(le_secure) = None → ∀ durable,
  LoadAccessStore identity env (mkDisk file durable) = Ok (mkAccessStore identity c false false None false (rebuildClientGrantIndex c.(c_grants))).

Lemma stored_state p c ops : good ops c → state_payload identity c = Ok p →
  ∃ sig, loadStoredAccessState identity (Ok (Some p)) = Ok (Some ((state_of identity c) <| ss_StateSignature := sig |>)).
Proof.
  intros Hg. unfold state_payload. destruct (accessStateSigningBytes _) as [bytes|] eqn:Hb; cbn [result_bind]; [|done]. set (sig := EncodeToString _).
  destruct (json_MarshalIndent _) as [q|] eqn:Hq; [|done]. intros [= <-]. exists sig. unfold loadStoredAccessState.
  rewrite (json_roundtrip _ _ (good_text _ _ sig Hg (utf8_plain _ (plain_base64 _))) Hq).
  set (state := set_field _ _ _). change (ss_Version state) with accessStoreVersion. change (ss_IssuerDeviceID state) with identity.(id_DeviceID).
  change (ss_IssuerFingerprint state) with identity.(id_Fingerprint). change (ss_StateSignature state) with sig. rewrite Z.eqb_refl, !String.eqb_refl. cbn [negb orb].
  rewrite (TrimSpace_plain sig (plain_base64 _)). unfold sig at 1. rewrite DecodeString_Encode, sign_size.
  change (SignatureSize =? SignatureSize) with true. cbn [negb].
  assert (Eb : accessStateSigningBytes state = Ok bytes) by exact Hb. rewrite Eb.
  destruct (identity_spec identity (io_valid _ Hidentity)) as (-> & _ & Hk). by rewrite (sign_verifies _ _ Hk).
Qed.

Lemma good_loads ops file c : good ops c → holds file c → loads file c.
Proof.
  intros Hg Hh env El Er Es durable. unfold LoadAccessStore. rewrite (io_valid _ Hidentity), El, Er. cbn [d_visible].
  destruct file as [p|]; cbn [holds] in Hh.
  - destruct (stored_state p c ops Hg Hh) as [sig ->]. cbn [result_bind]. change (load_content _) with (mkContent c.(c_tickets) c.(c_grants) c.(c_revision)).
    assert (Ec : mkContent c.(c_tickets) c.(c_grants) c.(c_revision) = c) by (by destruct c). by rewrite Ec, (good_valid _ _ Hg), Es.
  - subst c. reflexivity.
Qed.

(** ** How a request moves the content *)
Record evolves (o : access_op) (c next : content) : Prop := {
  ev_ticket id r : next.(c_tickets) !! id = Some r → c.(c_tickets) !! id = Some r ∨ ticket_draw identity o = Some id
    ∨ ∃ r', c.(c_tickets) !! id = Some r' ∧ r'.(st_GrantID) = "";
  ev_link id r : next.(c_tickets) !! id = Some r → c.(c_tickets) !! id = Some r → keeps_link c.(c_grants) next.(c_grants) r;
  ev_grant id g : next.(c_grants) !! id = Some g → grant_draw o = Some id
    ∨ ∃ g', c.(c_grants) !! id = Some g' ∧ same_grant g' g ∧ (g'.(sg_RevokedAt) ≠ zero_time → g.(sg_RevokedAt) ≠ zero_time) }.

Lemma same_grant_refl g : same_grant g g.
Proof. by destruct g. Qed.
Lemma keeps_link_refl grants r : keeps_link grants grants r.
Proof. right. intros g Hg. exists g. split; [done|apply same_grant_refl]. Qed.
Lemma evolves_refl o c : evolves o c c.
Proof. split; [by left|intros; apply keeps_link_refl|]. intros id g Hg. right. exists g. split; [done|]. split; [apply same_grant_refl|done]. Qed.

(** The file is written with the next content, or stays. *)
Definition moves (c next : content) (d d' : disk) (c' : content) (synced : bool) : Prop :=
  (c' = c ∧ d' = d ∧ synced = false)
  ∨ (c' = next ∧ ∃ p, state_payload identity next = Ok p ∧ d' = mkDisk (Some p) (if synced then Some p else d.(d_durable))).

Lemma persist_moves s d w old d' failed : s.(as_identity) = identity → persistLocked s d w = (d', failed) →
  ∃ synced, moves old s.(as_content) d d' (match failed with Some (_, published) => (rollback old published s).(as_content) | None => s.(as_content) end) synced
    ∧ (failed = None → synced = true).
Proof.
  intros Hid. unfold persistLocked. rewrite Hid. destruct (state_payload identity s.(as_content)) as [p|] eqn:E.
  - destruct w as [|err|err]; cbn [writePrivateFile]; intros [= <- <-]; cbn [rollback].
    + exists true. split; [|done]. right. split; [done|]. by exists p.
    + exists false. split; [|done]. right. split; [done|]. by exists p.
    + exists false. split; [|done]. by left.
  - intros [= <- <-]. exists false. split; [|done]. by left.
Qed.

(** ** Compacting *)
Definition compacted (now : Z) (c : content) : content :=
  mkContent (filter (λ kr, keeps_ticket now kr.2 = true) c.(c_tickets)) (filter (λ kr, keeps_grant now kr.2 = true) c.(c_grants)) c.(c_revision).

Lemma compact_content now s : (compactLocked now s).1.(as_content) = compacted now s.(as_content).
Proof. unfold compactLocked. by destruct (negb _). Qed.
Lemma compacted_ticket now c id r : (compacted now c).(c_tickets) !! id = Some r ↔ c.(c_tickets) !! id = Some r ∧ keeps_ticket now r = true.
Proof. unfold compacted. cbn [c_tickets]. by rewrite map_lookup_filter_Some. Qed.
Lemma compacted_grant now c id g : (compacted now c).(c_grants) !! id = Some g ↔ c.(c_grants) !! id = Some g ∧ keeps_grant now g = true.
Proof. unfold compacted. cbn [c_grants]. by rewrite map_lookup_filter_Some. Qed.

(** A ticket that is kept, within its delivery grace, keeps its grant. *)
Lemma compacted_link ops c now id r : good ops c → (compacted now c).(c_tickets) !! id = Some r → keeps_link c.(c_grants) (compacted now c).(c_grants) r.
Proof.
  intros Hg [Hr Hk]%compacted_ticket. destruct (gd_ticket _ _ Hg id r Hr) as [Hv _ _ _ _ Hgrace].
  destruct (decide (r.(st_GrantID) = "")) as [|Hne]; [by left|right]. intros g Hl. exists g. split; [|apply same_grant_refl].
  apply compacted_grant. split; [done|]. destruct (Hgrace Hne) as [Eg Hz].
  assert (E : r.(st_RedeemedAt) = g.(sg_Claims).(gc_IssuedAt)).
  { unfold ticket_invalid in Hv. destruct (_ || _ || _ || _ || _); [done|]. rewrite (proj2 (String.eqb_neq _ _) Hne) in Hv.
    unfold grant_link_broken in Hv. rewrite Hl in Hv. destruct (Z.eqb_spec r.(st_RedeemedAt) g.(sg_Claims).(gc_IssuedAt)); [done|].
    cbn [negb] in Hv. by rewrite !orb_true_r in Hv. }
  destruct (validate_claims_spec _ (go_valid _ _ _ (gg_ok _ _ _ (gd_grant _ _ Hg _ _ Hl)))) as (_ & _ & _ & _ & Hlt).
  unfold keeps_ticket in Hk. rewrite (proj2 (String.eqb_neq _ _) Hne) in Hk. unfold IsZero in Hk. rewrite (proj2 (Z.eqb_neq _ _) Hz) in Hk. cbn [negb andb] in Hk.
  rewrite negb_involutive in Hk. unfold Before in *. apply Z.ltb_lt in Hk. unfold keeps_grant, Before. apply Z.ltb_lt.
  unfold defaultDeliveryGrace, expiredGrantRecordRetention, hour, second, nanos_per_second in *. lia.
Qed.

(** The grant of a redeemed ticket is there. *)
Lemma linked_grant grants id r : ticket_invalid identity grants id r = false → r.(st_GrantID) ≠ "" → is_Some (grants !! r.(st_GrantID)).
Proof.
  intros Hv Hne. unfold ticket_invalid in Hv. destruct (_ || _ || _ || _ || _); [done|]. rewrite (proj2 (String.eqb_neq _ _) Hne) in Hv.
  unfold grant_link_broken in Hv. destruct (grants !! _); [done|]. cbn in Hv. by rewrite ?orb_true_r in Hv.
Qed.
Lemma same_grant_claims g g' : same_grant g g' → g'.(sg_Claims) = g.(sg_Claims).
Proof. unfold same_grant. destruct g, g'. unfold set_field. cbn. congruence. Qed.

Lemma ticket_good_grants ops c c' id r : keeps_link c.(c_grants) c'.(c_grants) r → ticket_good ops c id r → ticket_good ops c' id r.
Proof.
  intros Hk [Hv Hc Ht Hi Hgr Hg]. split; try done; [by apply (ticket_agree identity c.(c_grants))|]. intros g' Hne Hg'.
  destruct Hk as [?|Hk]; [done|]. destruct (linked_grant _ _ _ Hv Hne) as [g El]. destruct (Hk g El) as (g2 & E2 & Hs).
  rewrite Hg' in E2. injection E2 as <-. rewrite (same_grant_claims _ _ Hs). by apply Hgr.
Qed.

Lemma compacted_good ops c now : good ops c → good ops (compacted now c).
Proof.
  intros Hg. split.
  - intros id r Hr. apply (ticket_good_grants ops c); [by apply (compacted_link ops c now id)|]. apply compacted_ticket in Hr as [Hr _]. by apply Hg.
  - intros id g [Hr _]%compacted_grant. by apply Hg.
  - destruct (gd_revision _ _ Hg) as [Hr He]. split; [done|]. intros E. unfold compacted. cbn [c_grants c_revision] in *. by rewrite (He E), map_filter_empty.
Qed.

Lemma same_grant_trans g1 g2 g3 : same_grant g1 g2 → same_grant g2 g3 → same_grant g1 g3.
Proof. unfold same_grant. destruct g1, g2, g3. unfold set_field. cbn. congruence. Qed.
Lemma keeps_link_trans g1 g2 g3 r : keeps_link g1 g2 r → keeps_link g2 g3 r → keeps_link g1 g3 r.
Proof.
  intros [?|H1'] [?|H2']; [by left..|]. right. intros g Hg. destruct (H1' g Hg) as (g' & Hg' & Hs). destruct (H2' g' Hg') as (g'' & Hg'' & Hs').
  exists g''. split; [done|]. by apply (same_grant_trans _ g').
Qed.

Lemma next_revision_content s (ops : list access_op) : s.(as_content).(c_revision) ≤ Z.of_nat (List.length ops) → 0 ≤ s.(as_content).(c_revision) → Z.of_nat (List.length ops) + 1 < 2 ^ 64 →
  (next_revision s).(as_content) = mkContent (tickets s) (grants s) (s.(as_content).(c_revision) + 1).
Proof. intros ? ? ?. unfold next_revision. cbn. unfold set_field. cbn. by rewrite u64_small by lia. Qed.

(** One more ticket or grant. *)
Lemma add_ticket_good ops c id r : good ops c → ticket_good ops c id r → good ops (mkContent (<[id := r]> c.(c_tickets)) c.(c_grants) c.(c_revision)).
Proof.
  intros Hg Hr. split; [|apply Hg|apply Hg]. intros i r' Hi. apply (ticket_good_grants ops c); [apply keeps_link_refl|].
  cbn [c_tickets] in Hi. apply lookup_insert_Some in Hi as [[<- <-]|[_ Hi]]; [done|by apply Hg].
Qed.
Lemma add_grant_good ops c id g n : good ops c → grant_good ops id g → (∀ g', c.(c_grants) !! id = Some g' → same_grant g' g) → n = c.(c_revision) + 1 →
  n ≤ Z.of_nat (List.length ops) → good ops (mkContent c.(c_tickets) (<[id := g]> c.(c_grants)) n).
Proof.
  intros Hg Hgr Hsame -> Hn. pose proof (gd_revision _ _ Hg) as [Hr _]. split; cbn [c_tickets c_grants c_revision].
  - intros i r Hi. apply (ticket_good_grants ops c); [|by apply Hg]. cbn [c_grants]. right. intros g' Hg'.
    destruct (decide (st_GrantID r = id)) as [E|Hne].
    + rewrite E in *. exists g. rewrite lookup_insert_eq. split; [done|by apply Hsame].
    + exists g'. rewrite lookup_insert_ne by done. split; [done|apply same_grant_refl].
  - intros i g' Hi. apply lookup_insert_Some in Hi as [[<- <-]|[_ Hi]]; [done|by apply Hg].
  - split; [lia|]. intros; lia.
Qed.
End invariant.

(** * Every request leads from one well-formed content to the next

    Issuing, redeeming and revoking, with every way the write can end; and what a redemption or a revocation that was
    answered has left in memory. *)

Section steps.
Context `{RemoteCryptoLaws} `{EndpointProtoLaws} `{AccessJsonLaws}.
Context (identity : Identity) (Hidentity : identity_ok identity).
Notation good := (good identity).
Notation evolves := (evolves identity).
Notation moves := (moves identity).

Record steps_to (ops : list access_op) (o : access_op) (s : AccessStore) (d : disk) (s' : AccessStore) (d' : disk) (synced : bool) : Prop := {
  to_identity : s'.(as_identity) = identity;
  to_next : ∃ next, good (ops ++ [o]) next ∧ evolves o s.(as_content) next ∧ moves s.(as_content) next d d' s'.(as_content) synced }.

Lemma stays ops o s d : s.(as_identity) = identity → good ops s.(as_content) → steps_to ops o s d s d false.
Proof. intros Hid Hg. split; [done|]. exists s.(as_content). split; [by apply good_mono|]. split; [apply evolves_refl|by left]. Qed.

(** ** Issuing *)
Lemma next_revision_good ops c n : good ops c → n = c.(c_revision) + 1 → n ≤ Z.of_nat (List.length ops) → good ops (mkContent c.(c_tickets) c.(c_grants) n).
Proof.
  intros Hg -> Hn. pose proof (gd_revision _ _ _ Hg) as [Hr _]. split; cbn [c_tickets c_grants c_revision]; [|apply Hg|lia].
  intros i r Hi. apply (ticket_good_grants identity ops c); [apply keeps_link_refl|by apply Hg].
Qed.

Lemma new_ticket_good ops o p claims c : o ∈ ops → issued_by identity o = Some (p, claims) → claims_ok identity claims → plain_text claims.(pc_TicketID) →
  ticket_good identity ops c claims.(pc_TicketID) (new_ticket claims (payloadDigest p)).
Proof.
  intros Ho Hi Hc Hp. split.
  - by apply new_ticket_valid.
  - done.
  - split; [by apply utf8_plain|]. split; [apply Hc|]. cbn [new_ticket st_TicketDigest st_SubjectKeyFingerprint st_ClientLabel st_GrantID st_ResultGrantDigest
      st_DeliveryReceiptDigest st_CloudRouteGrantDigest st_CloudEdgeLocatorDigest].
    repeat (apply Forall_cons; split; [first [apply utf8_plain, digest_plain|reflexivity]|]). apply Forall_nil_2.
  - exists p. split; [by exists o|done].
  - done.
  - done.
Qed.

Lemma issued_ticket o p claims : issued_by identity o = Some (p, claims) →
  claims_ok identity claims ∧ plain_text claims.(pc_TicketID) ∧ ∃ b, EncodePairingBundle b = Ok p ∧ pairingTicketClaimsFromBundle b = Ok claims.
Proof.
  destruct o; cbn [issued_by]; try discriminate. destruct (issuePairingBundle _ _ _ _ _ _) as [[b c]|] eqn:Hi; [|done].
  destruct (EncodePairingBundle b) as [q|] eqn:He; [|done]. intros [= -> ->].
  destruct (issued_claims_spec identity _ _ _ _ _ _ _ Hidentity Hi) as (Hc & Hb & Hr). split; [done|]. split; [|by exists b].
  apply (random_id_plain _ "ticket-" _) in Hr; [done|]. unfold plain_text. vm_compute. repeat (constructor; [split; [discriminate|reflexivity]|]). constructor.
Qed.

Lemma issue_step ops options clock r1 r2 r3 w s d s' d' r : s.(as_identity) = identity → good ops s.(as_content) → Z.of_nat (List.length ops) + 1 < 2 ^ 64 →
  IssuePairingBundle options clock r1 r2 r3 w s d = (s', d', r) → ∃ synced, steps_to ops (OIssue options clock r1 r2 r3 w) s d s' d' synced.
Proof.
  intros Hid Hg Hlen. set (o := OIssue options clock r1 r2 r3 w). pose proof (stays ops o s d Hid Hg) as Hstay. unfold IssuePairingBundle.
  destruct (ensureOpenLocked s); [intros [= <- <- <-]; by eexists|]. rewrite Hid.
  destruct (issuePairingBundle identity _ clock r1 r2 r3) as [[b claims]|] eqn:Hi; [|intros [= <- <- <-]; by eexists].
  destruct (EncodePairingBundle b) as [p|] eqn:He; [|intros [= <- <- <-]; by eexists].
  assert (Ho : issued_by identity o = Some (p, claims)) by (cbn [issued_by o]; by rewrite Hi, He).
  unfold persistPairingBundleLocked. destruct (tickets s !! claims.(pc_TicketID)) as [?|] eqn:Hn; [intros [= <- <- <-]; by eexists|].
  destruct (compactLocked _ s) as [s1 changed] eqn:Hc. pose proof (compact_content (if IsZero (io_Now options) then clock else io_Now options) s) as Ec.
  pose proof (compact_rest (if IsZero (io_Now options) then clock else io_Now options) s) as (Eid & _). rewrite Hc in Ec, Eid. cbn [fst] in Ec, Eid.
  set (now := if IsZero (io_Now options) then clock else io_Now options) in *. set (s2 := if changed then next_revision s1 else s1).
  set (s3 := set_ticket _ _ s2).
  assert (Hg1 : good (ops ++ [o]) s1.(as_content)) by (rewrite Ec; by apply compacted_good, good_mono).
  destruct (issued_ticket _ _ _ Ho) as (Hok & Hplain & _).
  pose proof (gd_revision _ _ _ Hg) as [Hrev _]. assert (E1 : c_revision s1.(as_content) = c_revision s.(as_content)) by (by rewrite Ec).
  assert (Hbump : ∃ n, s2.(as_content) = mkContent (tickets s1) (grants s1) n ∧ good (ops ++ [o]) (mkContent (tickets s1) (grants s1) n)).
  { unfold s2. destruct changed.
    - exists (c_revision s1.(as_content) + 1). rewrite (next_revision_content s1 ops) by lia. split; [done|]. apply next_revision_good; [done|done|].
      rewrite length_app. cbn. lia.
    - exists (c_revision s1.(as_content)). unfold tickets, grants. by destruct s1.(as_content). }
  destruct Hbump as (n & E2 & Hg2).
  assert (E3 : s3.(as_content) = mkContent (<[claims.(pc_TicketID) := new_ticket claims (payloadDigest p)]> (tickets s1)) (grants s1) n).
  { unfold s3, set_ticket, tickets. cbn. unfold set_field. cbn. by rewrite E2. }
  assert (Hid3 : s3.(as_identity) = identity).
  { unfold s3, s2. rewrite <- Hid, <- Eid. by destruct changed. }
  destruct (persistLocked s3 d w) as [d1 failed] eqn:Hp. destruct (persist_moves identity s3 d w s.(as_content) d1 failed Hid3 Hp) as (synced & Hm & _).
  intros Heq. exists synced. assert (Hs' : s'.(as_content) = match failed with Some (_, published) => (rollback s.(as_content) published s3).(as_content) | None => s3.(as_content) end ∧ s'.(as_identity) = identity ∧ d' = d1).
  { destruct failed as [[err published]|]; injection Heq as <- <- _.
    - split; [done|]. split; [|done]. rewrite <- Hid3. by destruct published.
    - rewrite <- Hid3. by destruct (_ =? _). }
  destruct Hs' as (Es' & Eid' & ->). split; [done|]. exists s3.(as_content). rewrite <- Es' in Hm. split; [|split]; [..|done].
  - rewrite E3. apply (add_ticket_good identity (ops ++ [o]) (mkContent (tickets s1) (grants s1) n)); [done|].
    by apply (new_ticket_good _ o); [set_solver|..].
  - assert (Eg : ∀ i, grants s1 !! i = (compacted now s.(as_content)).(c_grants) !! i) by (unfold grants; by rewrite Ec).
    assert (Et : ∀ i, tickets s1 !! i = (compacted now s.(as_content)).(c_tickets) !! i) by (unfold tickets; by rewrite Ec).
    rewrite E3. split; cbn [c_tickets c_grants].
    + intros i r' Hi'. apply lookup_insert_Some in Hi' as [[<- <-]|[_ Hi']].
      * right; left. unfold ticket_draw. by rewrite Ho.
      * left. rewrite Et in Hi'. by apply compacted_ticket in Hi' as [? _].
    + intros i r' Hi' Hold. apply lookup_insert_Some in Hi' as [[<- <-]|[_ Hi']]; [by left|].
      rewrite Et in Hi'. unfold grants. rewrite Ec. by apply (compacted_link identity ops _ _ i).
    + intros i g Hi'. rewrite Eg in Hi'. apply compacted_grant in Hi' as [Hi' _]. right. exists g. split; [done|]. split; [apply same_grant_refl|done].
Qed.

(** ** Redeeming *)
Definition answers (key : string) (s s' : AccessStore) (claims : PairingTicketClaims) (res : PairingExchangeResult) : Prop :=
  res.(er_SubjectKeyFingerprint) = Fingerprint key ∧ ∃ r, tickets s' !! claims.(pc_TicketID) = Some r ∧ r.(st_Claims) = claims ∧ r.(st_GrantID) ≠ "" ∧ pairingResultFromStored identity (grants s') r = Ok res
    ∧ ∀ r0, tickets s !! claims.(pc_TicketID) = Some r0 → r0.(st_GrantID) ≠ "" → pairingResultFromStored identity (grants s) r0 = Ok res.

Lemma stored_subject gs r res : pairingResultFromStored identity gs r = Ok res → res.(er_SubjectKeyFingerprint) = r.(st_SubjectKeyFingerprint).
Proof. unfold pairingResultFromStored. intros E. split_result E. by injection E as <-. Qed.

Lemma valid_label label l : normalizePairingLabel label = Ok l → ValidString l = true.
Proof. unfold normalizePairingLabel. destruct (ValidString (TrimSpace label)) eqn:E; [|done]. cbn [negb orb]. destruct (_ >? _); [done|]. destruct (has_control _); [done|]. by intros [= <-]. Qed.

Lemma redeem_ticket_step ops o b claims record key label product now clock r1 r2 w s d s' d' r :
  s.(as_identity) = identity → good ops s.(as_content) → Z.of_nat (List.length ops) + 1 < 2 ^ 64 → now ≠ zero_time →
  tickets s !! claims.(pc_TicketID) = Some record → record.(st_GrantID) = "" → record.(st_Claims) = claims → ValidString label = true →
  (∀ id, randomIdentifier r1 "grant-" = Ok id → grant_draw o = Some id) →
  redeem_ticket b claims record key label product now clock r1 r2 w s d = (s', d', r) →
  ∃ synced, steps_to ops o s d s' d' synced ∧ ∀ res, r = Ok res → answers key s s' claims res.
Proof.
  intros Hid Hg Hlen Hnow Hticket Hfree Hclaims Hlabel Hdraw. pose proof (stays ops o s d Hid Hg) as Hstay.
  destruct (gd_ticket _ _ _ Hg _ _ Hticket) as [Hvalid Hok Htext Hissued _ _]. pose proof (unredeemed_spec identity _ _ _ Hvalid Hfree) as Hrec. rewrite Hclaims in *.
  unfold redeem_ticket. destruct (validatePairingTicketTime claims now clock) eqn:Hwin; [intros [= <- <- <-]; exists false; by split|].
  destruct (randomIdentifier r1 "grant-") as [gid|] eqn:Hr1; [|intros [= <- <- <-]; exists false; by split].
  destruct (grants s !! gid) eqn:Hfresh; [intros [= <- <- <-]; exists false; by split|].
  destruct (randomIdentifier r2 "") as [nonce|] eqn:Hr2; [|intros [= <- <- <-]; exists false; by split]. rewrite Hid. cbv zeta.
  set (gclaims := grant_claims identity claims gid nonce (Fingerprint key) now).
  destruct (Issue identity.(id_PrivateKey) gclaims None) as [bound|] eqn:Hissue; [|intros [= <- <- <-]; exists false; by split].
  destruct (managed_route s b key product now gclaims.(gc_ExpiresAt)) as [[route locator]|] eqn:Hroute; [|intros [= <- <- <-]; exists false; by split].
  apply managed_route_spec in Hroute. set (receipt := pairingDeliveryReceipt _ _ _ _). set (upd := updated_ticket record _ _ _ _ _ _ _ _).
  set (gnew := mkStoredGrant gclaims label zero_time route locator).
  destruct (compactLocked now s) as [s1 changed] eqn:Hc. pose proof (compact_content now s) as Ec. pose proof (compact_rest now s) as (Eid & _).
  rewrite Hc in Ec, Eid. cbn [fst] in Ec, Eid.
  set (s4 := set_grant gid gnew _). set (s5 := s4 <| as_clientGrants := _ |>). set (s6 := next_revision s5).
  pose proof (grant_claims_ok identity Hidentity claims gid nonce key now clock bound r1 r2 Hok Hnow Hwin Hr1 Hr2 Hissue) as Hgok. fold gclaims in Hgok.
  destruct (grant_id_spec _ _ Hr1) as [Hgplain Hgne].
  destruct Hissued as (pi & Hpi & Edig).
  assert (Hupd : upd = updated_ticket (new_ticket claims record.(st_TicketDigest)) (Fingerprint key) label gid bound receipt now route locator)
    by (unfold upd; by rewrite Hrec at 1).
  assert (Hg1 : good (ops ++ [o]) s1.(as_content)) by (rewrite Ec; by apply compacted_good, good_mono).
  pose proof (gd_revision _ _ _ Hg) as [Hrev _]. assert (E1 : c_revision s1.(as_content) = c_revision s.(as_content)) by (by rewrite Ec).
  set (c2 := mkContent (tickets s1) (<[gid := gnew]> (grants s1)) (c_revision s1.(as_content) + 1)).
  assert (E6 : s6.(as_content) = mkContent (<[claims.(pc_TicketID) := upd]> c2.(c_tickets)) c2.(c_grants) c2.(c_revision)).
  { unfold s6. rewrite (next_revision_content s5 ops); [reflexivity|change (c_revision s1.(as_content) ≤ Z.of_nat (List.length ops))|change (0 ≤ c_revision s1.(as_content))|]; lia. }
  assert (Hgnew : grant_good identity (ops ++ [o]) gid gnew).
  { split; [done|split; [by apply utf8_plain|done]|]. rewrite omap_app. cbn. rewrite (Hdraw gid eq_refl). set_solver. }
  assert (Hft : for_ticket claims gclaims).
  { destruct (window_spec identity claims now clock Hok Hnow Hwin) as [Hin _]. destruct (lifetime_spec identity claims Hok) as [Hl El].
    split; [|split; [exact Hin|split; [reflexivity|split; [|exact Hl]]]].
    - transitivity (normalizePairingTicketClaims claims).(pc_ScopeCeiling); [reflexivity|by rewrite (co_normal _ _ Hok)].
    - change (now + i64 (claims.(pc_GrantLifetimeSeconds) * second) = now + claims.(pc_GrantLifetimeSeconds) * second). by rewrite El. }
  assert (Hfresh1 : ∀ g, grants s1 !! gid = Some g → False).
  { intros g Hg'. unfold grants in Hg'. rewrite Ec in Hg'. apply compacted_grant in Hg' as [Hg' _]. unfold grants in Hfresh. by rewrite Hfresh in Hg'. }
  assert (Hg2 : good (ops ++ [o]) c2).
  { apply (add_grant_good identity (ops ++ [o]) s1.(as_content)); [done|done| |done|rewrite length_app; cbn; lia]. intros g' Hg'. by destruct (Hfresh1 g'). }
  assert (Hlookup : c2.(c_grants) !! gid = Some gnew) by (unfold c2; cbn [c_grants]; by rewrite lookup_insert_eq).
  assert (Hdv : validPayloadDigest record.(st_TicketDigest) = true) by (rewrite Edig; apply digest_valid).
  pose proof (redeemed_result identity claims key label gid nonce bound route locator record.(st_TicketDigest) now Hissue Hroute c2.(c_grants) Hlookup) as Hres.
  fold gclaims receipt in Hres. rewrite <- Hupd in Hres.
  assert (Htg : ticket_good identity (ops ++ [o]) c2 claims.(pc_TicketID) upd).
  { split.
    - rewrite Hupd. by apply (redeemed_valid identity claims key label gid nonce bound route locator _ now).
    - by rewrite Hupd.
    - split; [apply Htext|]. rewrite Hupd. split; [apply Hok|]. unfold updated_ticket. cbn [new_ticket st_TicketDigest st_SubjectKeyFingerprint st_ClientLabel st_GrantID st_ResultGrantDigest
        st_DeliveryReceiptDigest st_CloudRouteGrantDigest st_CloudEdgeLocatorDigest].
      assert (Hd : ∀ (bb : bool) x, ValidString (if bb then "" else payloadDigest x) = true) by (intros [] x; [done|apply utf8_plain, digest_plain]).
      repeat (apply Forall_cons; split; [first [apply Hd|apply utf8_plain; first [done|apply digest_plain|apply fingerprint_plain|rewrite Edig; apply digest_plain]|done]|]). apply Forall_nil_2.
    - rewrite Hupd. exists pi. split; [by apply issued_mono|done].
    - rewrite Hupd. intros g' _ Hg'. change (c2.(c_grants) !! gid = Some g') in Hg'. rewrite Hlookup in Hg'. injection Hg' as <-. exact Hft.
    - rewrite Hupd. intros _. split; [done|]. cbn. destruct (window_spec identity claims now clock Hok Hnow Hwin) as [_ Hr64].
      unfold zero_time, defaultDeliveryGrace, hour, second, nanos_per_second in *. lia. }
  assert (Hid6 : s6.(as_identity) = identity) by (rewrite <- Hid, <- Eid; reflexivity).
  destruct (persistLocked s6 d w) as [d1 failed] eqn:Hp. destruct (persist_moves identity s6 d w s.(as_content) d1 failed Hid6 Hp) as (synced & Hm & _).
  intros Heq. exists synced.
  assert (Hs' : s'.(as_content) = match failed with Some (_, published) => (rollback s.(as_content) published s6).(as_content) | None => s6.(as_content) end
    ∧ s'.(as_identity) = identity ∧ d' = d1 ∧ (∀ res, r = Ok res → failed = None
      ∧ res = mkExchange claims.(pc_TicketID) bound gid receipt (Fingerprint key) gclaims.(gc_Scope) gclaims.(gc_ExpiresAt) route locator)).
  { destruct failed as [[err published]|]; injection Heq as <- <- <-.
    - split; [by destruct published|]. split; [rewrite <- Hid6; by destruct published|]. done.
    - split; [done|]. split; [done|]. split; [done|]. by intros res [= <-]. }
  destruct Hs' as (Es' & Eid' & -> & Hreply). rewrite <- Es' in Hm. split.
  - split; [done|]. exists s6.(as_content). split; [|split]; [..|done].
    + rewrite E6. by apply add_ticket_good.
    + assert (Eg : grants s1 = (compacted now s.(as_content)).(c_grants)) by (unfold grants; by rewrite Ec).
      assert (Et : tickets s1 = (compacted now s.(as_content)).(c_tickets)) by (unfold tickets; by rewrite Ec).
      rewrite E6. split; unfold c2; cbn [c_tickets c_grants].
      * intros i r' Hi'. apply lookup_insert_Some in Hi' as [[<- <-]|[_ Hi']]; [right; right; by exists record|].
        left. rewrite Et in Hi'. by apply compacted_ticket in Hi' as [? _].
      * intros i r' Hi' Hold. apply lookup_insert_Some in Hi' as [[<- <-]|[_ Hi']].
        { unfold tickets in Hticket. rewrite Hold in Hticket. injection Hticket as Hu. left. by rewrite Hu. }
        apply (keeps_link_trans _ (grants s1)); [rewrite Eg; rewrite Et in Hi'; by apply (compacted_link identity ops _ _ i)|].
        right. intros g' Hg'. destruct (decide (st_GrantID r' = gid)) as [Egid|Hne]; [destruct (Hfresh1 g'); by rewrite <- Egid|].
        exists g'. rewrite lookup_insert_ne by done. split; [done|apply same_grant_refl].
      * intros i g' Hi'. apply lookup_insert_Some in Hi' as [[<- <-]|[_ Hi']]; [left; by apply Hdraw|].
        right. exists g'. rewrite Eg in Hi'. apply compacted_grant in Hi' as [Hi' _]. split; [done|]. split; [apply same_grant_refl|done].
  - intros res [Hf ->]%Hreply. rewrite Hf in Es'. split; [done|]. exists upd. unfold tickets, grants. rewrite Es', E6. cbn [c_tickets c_grants]. rewrite lookup_insert_eq.
    split; [done|]. split; [by rewrite Hupd|]. split; [by rewrite Hupd|]. split; [done|]. intros r0 Hr0 Hne. unfold tickets in Hticket. rewrite Hticket in Hr0. injection Hr0 as <-. by destruct Hne.
Qed.

Lemma issued_payload o p c : issued_by identity o = Some (p, c) → payload_of identity o = Some p.
Proof. destruct o; cbn [issued_by payload_of]; try discriminate. by intros ->. Qed.

Lemma redeem_step ops o payload key label product now clock r1 r2 w s d s' d' r : o = ORedeem payload key label product now clock r1 r2 w →
  s.(as_identity) = identity → good ops s.(as_content) → sane identity (ops ++ [o]) →
  redeemPairingBundle payload key label product now clock r1 r2 w s d = (s', d', r) →
  ∃ synced, steps_to ops o s d s' d' synced
    ∧ ∀ res, r = Ok res → ∃ b claims, ParsePairingBundleForExchange payload = Ok (b, claims) ∧ issued identity ops payload claims ∧ is_Some (tickets s !! claims.(pc_TicketID)) ∧ answers key s s' claims res.
Proof.
  intros Eo Hid Hg Hsane. pose proof (stays ops o s d Hid Hg) as Hstay.
  assert (Hnone : ∀ err res, Err err = Ok res → ∃ b claims, ParsePairingBundleForExchange payload = Ok (b, claims) ∧ issued identity ops payload claims ∧ is_Some (tickets s !! claims.(pc_TicketID)) ∧ answers key s s claims res) by done.
  unfold redeemPairingBundle. destruct (negb _); [intros [= <- <- <-]; exists false; by split|].
  set (at_ := if IsZero now then clock else now). destruct (normalizePairingLabel label) as [l|] eqn:Hl; [|intros [= <- <- <-]; exists false; by split].
  destruct (ParsePairingBundleForExchange payload) as [[b claims]|] eqn:Hp; [|intros [= <- <- <-]; exists false; by split].
  destruct (_ || _); [intros [= <- <- <-]; exists false; by split|].
  destruct (EncodePairingBundle b) as [q|] eqn:He; [|intros [= <- <- <-]; exists false; by split]. pose proof (encode_parsed _ _ _ _ Hp He) as ->.
  destruct (ensureOpenLocked s); [intros [= <- <- <-]; exists false; by split|].
  destruct (tickets s !! claims.(pc_TicketID)) as [record|] eqn:Ht; [|intros [= <- <- <-]; exists false; by split].
  destruct (String.eqb_spec record.(st_TicketDigest) (payloadDigest payload)) as [Hd|]; [cbn [negb]|intros [= <- <- <-]; exists false; by split].
  assert (Hc : record.(st_Claims) = claims ∧ issued identity ops payload claims).
  { destruct (tg_issued _ _ _ _ _ (gd_ticket _ _ _ Hg _ _ Ht)) as (pi & (oi & Hoi & Hpi) & Ed). rewrite Ed in Hd.
    assert (pi = payload) as ->.
    { apply (sn_digest _ _ Hsane); [| |done]; apply list_elem_of_omap.
      - exists oi. split; [set_solver|by apply (issued_payload _ _ _ Hpi)].
      - exists o. split; [set_solver|by rewrite Eo]. }
    destruct (issued_ticket _ _ _ Hpi) as (_ & _ & b' & He' & Hc'). pose proof Hp as Hp'. rewrite (parse_encoded _ _ He'), Hc' in Hp'. injection Hp' as _ Ec.
    rewrite <- Ec. split; [done|by exists oi]. }
  destruct Hc as [Hc Hiss]. destruct (String.eqb_spec record.(st_GrantID) "") as [Hfree|Hbound]; cbn [negb].
  - intros Hr.
    destruct (redeem_ticket_step ops o b claims record key l product at_ clock r1 r2 w s d s' d' r) as (synced & Hto & Hans); try done.
    + pose proof (sn_steps _ _ Hsane) as Hs. rewrite length_app in Hs. cbn in Hs. lia.
    + pose proof (sn_clock _ _ Hsane) as Hck. rewrite Forall_app, Forall_singleton, Eo in Hck. apply Hck.
    + by apply (valid_label label).
    + intros gid Hgid. rewrite Eo. cbn. by rewrite Hgid.
    + exists synced. split; [done|]. intros res Er. exists b, claims. split; [done|]. split; [done|]. split; [done|by apply Hans].
  - destruct (String.eqb_spec record.(st_SubjectKeyFingerprint) (Fingerprint key)) as [Hkey|]; cbn [negb]; [|intros [= <- <- <-]; exists false; by split].
    destruct (_ || _); [intros [= <- <- <-]; exists false; by split|].
    intros [= <- <- <-]. exists false. split; [done|]. intros res Hres. rewrite Hid in Hres. exists b, claims. split; [done|]. split; [done|]. split; [done|].
    split; [by rewrite (stored_subject _ _ _ Hres)|]. exists record. split; [done|]. split; [done|]. split; [done|]. split; [done|]. intros r0 Hr0 _. rewrite Ht in Hr0. by injection Hr0 as <-.
Qed.

(** ** Revoking *)
Definition revoked (c : content) (id : string) : Prop := ∀ g, c.(c_grants) !! id = Some g → g.(sg_RevokedAt) ≠ zero_time.

Lemma revoke_step ops o grantID clock w s d s' d' r : o = ORevoke grantID clock w →
  s.(as_identity) = identity → good ops s.(as_content) → sane identity (ops ++ [o]) → RevokeGrant grantID clock w s d = (s', d', r) →
  ∃ synced, steps_to ops o s d s' d' synced
    ∧ ∀ rec, r = Ok rec → is_Some (grants s !! TrimSpace grantID) ∧ revoked s'.(as_content) (TrimSpace grantID)
        ∧ (synced = true ∨ s' = s ∧ revoked s.(as_content) (TrimSpace grantID)).
Proof.
  intros Eo Hid Hg Hsane. pose proof (stays ops o s d Hid Hg) as Hstay.
  assert (Hlen : Z.of_nat (List.length ops) + 1 < 2 ^ 64) by (pose proof (sn_steps _ _ Hsane) as Hs; rewrite length_app in Hs; cbn in Hs; lia).
  assert (Hclock : clock ≠ zero_time) by (pose proof (sn_clock _ _ Hsane) as Hck; rewrite Forall_app, Forall_singleton, Eo in Hck; apply Hck).
  unfold RevokeGrant. set (gid := TrimSpace grantID). destruct (String.eqb gid ""); [intros [= <- <- <-]; exists false; by split|].
  destruct (ensureOpenLocked s); [intros [= <- <- <-]; exists false; by split|].
  destruct (grants s !! gid) as [record|] eqn:Hr; [|intros [= <- <- <-]; exists false; by split]. unfold IsZero.
  destruct (Z.eqb_spec record.(sg_RevokedAt) zero_time) as [Ez|Hz]; cbn [negb]; cycle 1.
  { intros [= <- <- <-]. exists false. split; [done|]. intros rec _. split; [done|].
    assert (Hrev : revoked s.(as_content) gid) by (intros g Hg'; unfold grants in Hr; rewrite Hr in Hg'; by injection Hg' as <-).
    split; [done|]. by right. }
  destruct (compactLocked clock s) as [s1 changed] eqn:Hc. pose proof (compact_content clock s) as Ec. pose proof (compact_rest clock s) as (Eid & _).
  rewrite Hc in Ec, Eid. cbn [fst] in Ec, Eid. set (rnew := record <| sg_RevokedAt := clock |>). set (s2 := set_grant gid rnew s1). set (s3 := next_revision s2).
  assert (Hg1 : good (ops ++ [o]) s1.(as_content)) by (rewrite Ec; by apply compacted_good, good_mono).
  pose proof (gd_revision _ _ _ Hg) as [Hrev _]. assert (E1 : c_revision s1.(as_content) = c_revision s.(as_content)) by (by rewrite Ec).
  assert (E3 : s3.(as_content) = mkContent (tickets s1) (<[gid := rnew]> (grants s1)) (c_revision s1.(as_content) + 1)).
  { unfold s3. rewrite (next_revision_content s2 ops); [reflexivity|change (c_revision s1.(as_content) ≤ Z.of_nat (List.length ops))|change (0 ≤ c_revision s1.(as_content))|]; lia. }
  assert (Hsame : same_grant record rnew) by (by destruct record).
  assert (Hold : ∀ g, grants s1 !! gid = Some g → g = record).
  { intros g Hg'. unfold grants in Hg'. rewrite Ec in Hg'. apply compacted_grant in Hg' as [Hg' _]. unfold grants in Hr. rewrite Hr in Hg'. by injection Hg' as <-. }
  assert (Hgood : good (ops ++ [o]) s3.(as_content)).
  { rewrite E3. apply (add_grant_good identity (ops ++ [o]) s1.(as_content)); [done| |intros g' Hg'; by rewrite (Hold g' Hg')|done|rewrite length_app; cbn; lia].
    destruct (grant_good_mono identity Hidentity ops o _ _ (gd_grant _ _ _ Hg _ _ Hr)) as [Ho Htx Hdr]. by split. }
  assert (Hid3 : s3.(as_identity) = identity) by (rewrite <- Hid, <- Eid; reflexivity).
  destruct (persistLocked s3 d w) as [d1 failed] eqn:Hp. destruct (persist_moves identity s3 d w s.(as_content) d1 failed Hid3 Hp) as (synced & Hm & Hsync).
  intros Heq. exists synced.
  assert (Hs' : s'.(as_content) = match failed with Some (_, published) => (rollback s.(as_content) published s3).(as_content) | None => s3.(as_content) end
    ∧ s'.(as_identity) = identity ∧ d' = d1 ∧ (∀ rec, r = Ok rec → failed = None)).
  { destruct failed as [[err published]|]; injection Heq as <- <- <-.
    - split; [by destruct published|]. split; [rewrite <- Hid3; by destruct published|]. done.
    - done. }
  destruct Hs' as (Es' & Eid' & -> & Hreply). rewrite <- Es' in Hm. split.
  - split; [done|]. exists s3.(as_content). split; [done|]. split; [|done]. rewrite E3.
    assert (Eg : grants s1 = (compacted clock s.(as_content)).(c_grants)) by (unfold grants; by rewrite Ec).
    assert (Et : tickets s1 = (compacted clock s.(as_content)).(c_tickets)) by (unfold tickets; by rewrite Ec). split; cbn [c_tickets c_grants].
    + intros i r' Hi'. left. rewrite Et in Hi'. by apply compacted_ticket in Hi' as [? _].
    + intros i r' Hi' _. apply (keeps_link_trans _ (grants s1)); [rewrite Eg; rewrite Et in Hi'; by apply (compacted_link identity ops _ _ i)|].
      right. intros g' Hg'. destruct (decide (st_GrantID r' = gid)) as [E|Hne].
      * rewrite E in *. exists rnew. rewrite lookup_insert_eq. split; [done|]. by rewrite (Hold g' Hg').
      * exists g'. rewrite lookup_insert_ne by done. split; [done|apply same_grant_refl].
    + intros i g' Hi'. right. apply lookup_insert_Some in Hi' as [[<- <-]|[_ Hi']]; [by exists record|].
      exists g'. rewrite Eg in Hi'. apply compacted_grant in Hi' as [Hi' _]. split; [done|]. split; [apply same_grant_refl|done].
  - intros rec Hrec. pose proof (Hreply rec Hrec) as Hf. split; [done|]. split; [|left; by apply Hsync].
    rewrite Hf in Es'. intros g Hg'. rewrite Es', E3 in Hg'. cbn [c_grants] in Hg'. rewrite lookup_insert_eq in Hg'. by injection Hg' as <-.
Qed.
End steps.
