(* ===== verification/AccessTheorems.v ===== *)
(** * What the access store promises over restarts and power losses *)
From S2P Require Import Prelude GoStd GoText RemoteGrant RemoteGrantTheorems EndpointContracts Pairing PairingFacts AccessStore AccessFacts AccessWorld AccessSteps.
From Stdlib Require Import Ascii String.
Local Open Scope string_scope.
Local Open Scope Z_scope.
Local Open Scope bool_scope.
Local Open Scope list_scope.

Section theorems.
Context `{RemoteCryptoLaws} `{EndpointProtoLaws} `{AccessJsonLaws}.
Context (identity : Identity) (Hidentity : identity_ok identity).
Notation good := (good identity).
Notation evolves := (evolves identity).
Notation access_run := (access_run identity).
Notation access_runs := (access_runs identity).
Notation access_step := (access_step identity).

(** ** The invariant of a run *)

(** What readers of the file get is in memory; both files that a restart may find are well formed. *)
Record access_inv (ops : list access_op) (w : access_world) (cv cd : content) : Prop := {
  ai_visible : holds identity w.(aw_disk).(d_visible) cv;
  ai_durable : holds identity w.(aw_disk).(d_durable) cd;
  ai_good : good ops cv ∧ good ops cd;
  ai_store s : w.(aw_store) = Some s → s.(as_identity) = identity ∧ s.(as_content) = cv }.

(** How a request moves the two contents. *)
Definition file_step (o : access_op) (cv cd cv' cd' : content) : Prop :=
  (evolves o cv cv' ∧ (cd' = cd ∨ cd' = cv')) ∨ (is_power_loss o ∧ cd' = cv' ∧ (cv' = cv ∨ cv' = cd)).

(** A write that was synced leaves the two equal. *)
Definition answered (ops : list access_op) (o : access_op) (s s' : AccessStore) (r : reply) (cv' cd' : content) : Prop :=
  match o, r with
  | ORedeem payload key _ _ _ _ _ _ _, RRedeemed res =>
      ∃ b claims, ParsePairingBundleForExchange payload = Ok (b, claims) ∧ issued identity ops payload claims ∧ is_Some (tickets s !! claims.(pc_TicketID)) ∧ answers identity key s s' claims res
  | ORevoke grantID _ _, RRevoked _ =>
      is_Some (grants s !! TrimSpace grantID) ∧ revoked cv' (TrimSpace grantID) ∧ (cd' = cv' ∨ revoked s.(as_content) (TrimSpace grantID))
  | _, RRedeemed _ | _, RRevoked _ => False
  | _, _ => True
  end.

(** A request to a running store. *)
Lemma written ops o w cv cd s s' d' r synced : access_inv ops w cv cd → w.(aw_store) = Some s → steps_to identity ops o s w.(aw_disk) s' d' synced →
  ∃ cv' cd', access_inv (ops ++ [o]) (mkAccessWorld (Some s') d' (w.(aw_past) ++ [(o, r)])) cv' cd' ∧ evolves o cv cv' ∧ (cd' = cd ∨ cd' = cv')
    ∧ s'.(as_content) = cv' ∧ (synced = true → cd' = cv').
Proof.
  intros [Hv Hd [Hgv Hgd] Hst] Es [Hid (next & Hn & He & Hm)]. destruct (Hst s Es) as [_ Ec]. rewrite Ec in *.
  destruct Hm as [(E & -> & ->)|(E & p & Hp & ->)].
  - exists cv, cd. split; [split; cbn [aw_store aw_disk]; try done; [by split; apply good_mono|by intros ? [= <-]]|]. split; [apply evolves_refl|]. split; [by left|]. by split.
  - exists next, (if synced then next else cd). split; [split; cbn [aw_store aw_disk d_visible d_durable]; try done|].
    + by destruct synced.
    + split; [done|]. destruct synced; [done|by apply good_mono].
    + by intros ? [= <-].
    + split; [done|]. split; [destruct synced; [by right|by left]|]. split; [done|]. by intros ->.
Qed.

(** Nothing but the memory of the process changes. *)
Lemma unwritten ops o w cv cd store r : access_inv ops w cv cd → (∀ s, store = Some s → s.(as_identity) = identity ∧ s.(as_content) = cv) →
  access_inv (ops ++ [o]) (mkAccessWorld store w.(aw_disk) (w.(aw_past) ++ [(o, r)])) cv cd.
Proof. intros [Hv Hd [Hgv Hgd] _] Hs. split; [done|done|by split; apply good_mono|done]. Qed.

Lemma load_spec ops file c env durable s : good ops c → holds identity file c → LoadAccessStore identity env (mkDisk file durable) = Ok s →
  s.(as_identity) = identity ∧ s.(as_content) = c.
Proof.
  intros Hg Hh. unfold LoadAccessStore. rewrite (io_valid _ Hidentity). destruct (le_lock env); [done|]. destruct (le_read env); [done|]. cbn [d_visible].
  destruct file as [p|]; cbn [holds] in Hh.
  - destruct (stored_state identity Hidentity p c ops Hg Hh) as [sig ->]. cbn [result_bind]. change (load_content _) with (mkContent c.(c_tickets) c.(c_grants) c.(c_revision)).
    assert (Ec : mkContent c.(c_tickets) c.(c_grants) c.(c_revision) = c) by (by destruct c). rewrite Ec, (good_valid _ Hidentity _ _ Hg).
    destruct (le_secure env); [done|]. by intros [= <-].
  - subst c. cbn. by intros [= <-].
Qed.

Definition quiet (o : access_op) : Prop := match o with OIssue _ _ _ _ _ _ | ORedeem _ _ _ _ _ _ _ _ _ | ORevoke _ _ _ => False | _ => True end.

(** What does not write leaves the content. *)
Lemma quiet_run ops o w cv cd store d r : access_inv ops w cv cd → quiet o → access_run o w.(aw_store) w.(aw_disk) = (store, d, r) →
  (match r with RRedeemed _ | RRevoked _ => False | _ => True end)
  ∧ (d = w.(aw_disk) ∧ (∀ s, store = Some s → s.(as_identity) = identity ∧ s.(as_content) = cv)
     ∨ ∃ keep, o = OPowerLoss keep ∧ store = None ∧ d = (let file := if keep : bool then w.(aw_disk).(d_visible) else w.(aw_disk).(d_durable) in mkDisk file file)).
Proof.
  intros Hinv Hq. pose proof (ai_store _ _ _ _ Hinv) as Hst. destruct w as [[s|] dk past]; cbn [aw_store aw_disk] in *.
  - destruct (Hst s eq_refl) as [Hid Ec]. destruct o; try done; cbn [AccessWorld.access_run].
    + destruct (Available s); [intros [= <- <- <-]; split; [done|left; by split]|]. destruct (LoadAccessStore _ _ _) as [s'|] eqn:El.
      * intros [= <- <- <-]. split; [done|]. left. split; [done|]. intros ? [= <-]. destruct dk as [v du]. by apply (load_spec ops v cv env du); [apply Hinv|apply (ai_visible _ _ _ _ Hinv)|].
      * intros [= <- <- <-]. split; [done|left; by split].
    + intros [= <- <- <-]. split; [done|left; by split].
    + intros [= <- <- <-]. split; [done|right; by exists keep].
    + intros [= <- <- <-]. split; [done|left; split; [done|by intros ? [= <-]]].
    + unfold ConfigureManagedRouteGrantIssuer. destruct issuer, (ensureOpenLocked s), (as_managedRouteGrantIssuer s); intros [= <- <- <-]; (split; [done|left; split; [done|by intros ? [= <-]]]).
    + unfold ConfigureManagedPairingBootstrapIssuer. destruct issuer, (ensureOpenLocked s), (as_managedPairingBootstrapIssue s); intros [= <- <- <-]; (split; [done|left; split; [done|by intros ? [= <-]]]).
    + unfold DisableManagedCloudRoute. destruct (ensureOpenLocked s); intros [= <- <- <-]; (split; [done|left; split; [done|by intros ? [= <-]]]).
  - destruct o; try done; cbn [AccessWorld.access_run]; try (intros [= <- <- <-]; split; [done|left; by split]).
    + destruct (LoadAccessStore _ _ _) as [s'|] eqn:El.
      * intros [= <- <- <-]. split; [done|]. left. split; [done|]. intros ? [= <-]. destruct dk as [v du]. by apply (load_spec ops v cv env du); [apply Hinv|apply (ai_visible _ _ _ _ Hinv)|].
      * intros [= <- <- <-]. split; [done|left; by split].
    + intros [= <- <- <-]. split; [done|right; by exists keep].
Qed.

Definition step_result (ops : list access_op) (o : access_op) (w : access_world) (cv cd : content) : Prop :=
  ∃ cv' cd', access_inv (ops ++ [o]) (access_step w o) cv' cd' ∧ file_step o cv cd cv' cd'
    ∧ ∀ s s' d' r, w.(aw_store) = Some s → access_run o (Some s) w.(aw_disk) = (Some s', d', r) → answered ops o s s' r cv' cd'.

Lemma quiet_step ops o w cv cd : access_inv ops w cv cd → quiet o → step_result ops o w cv cd.
Proof.
  intros Hinv Hq. destruct (access_run o w.(aw_store) w.(aw_disk)) as [[store d] r] eqn:E.
  destruct (quiet_run _ _ _ _ _ _ _ _ Hinv Hq E) as [Hr [[-> Hs]|(keep & -> & -> & ->)]].
  - exists cv, cd. unfold AccessWorld.access_step. rewrite E. split; [by apply unwritten|]. split; [left; split; [apply evolves_refl|by left]|].
    intros s s' d' r' Es E'. rewrite Es, E' in E. injection E as _ _ <-. by destruct o, r'.
  - cbn zeta in *. exists (if keep then cv else cd), (if keep then cv else cd). unfold AccessWorld.access_step. rewrite E. destruct Hinv as [Hv Hd [Hgv Hgd] _]. split; [|split].
    + split; cbn [aw_disk aw_store d_visible d_durable]; [by destruct keep..| |done]. destruct keep; by split; apply good_mono.
    + right. split; [done|]. split; [done|]. destruct keep; [by left|by right].
    + done.
Qed.

Lemma step_spec ops o w cv cd : sane identity (ops ++ [o]) → access_inv ops w cv cd → step_result ops o w cv cd.
Proof.
  intros Hsane Hinv. pose proof (ai_store _ _ _ _ Hinv) as Hst.
  assert (Hlen : Z.of_nat (List.length ops) + 1 < 2 ^ 64) by (pose proof (sn_steps _ _ Hsane) as Hs; rewrite length_app in Hs; cbn in Hs; lia).
  assert (Hnone : aw_store w = None → ¬ quiet o → step_result ops o w cv cd).
  { intros E Hq. exists cv, cd. unfold AccessWorld.access_step. rewrite E. split; [|split; [left; split; [apply evolves_refl|by left]|done]].
    destruct o; try (by destruct Hq); cbn [AccessWorld.access_run]; by apply unwritten. }
  destruct (aw_store w) as [s|] eqn:Es; cycle 1.
  { destruct o; first [by apply quiet_step|apply Hnone; [done|intros []]]. }
  destruct (Hst s eq_refl) as [Hid Ec]. assert (Hg : good ops s.(as_content)) by (rewrite Ec; apply Hinv). unfold step_result, AccessWorld.access_step. rewrite Es.
  destruct o as [env| |keep|options clock r1 r2 r3 wr|payload key label product now clock r1 r2 wr|grantID clock wr| |issuer|issuer|];
    try (rewrite <- Es; apply quiet_step; done); cbn [AccessWorld.access_run].
  - destruct (IssuePairingBundle options clock r1 r2 r3 wr s (aw_disk w)) as [[s' d'] r] eqn:E.
    destruct (issue_step identity Hidentity ops _ _ _ _ _ _ _ _ _ _ _ Hid Hg Hlen E) as [synced Hto].
    destruct (written ops _ w cv cd s s' d' (reply_of (λ bc, RIssued bc.1 bc.2) r) synced Hinv Es Hto) as (cv' & cd' & Hinv' & Hev & Hcd & _).
    exists cv', cd'. split; [exact Hinv'|]. split; [left; by split|]. intros s0 s'' d'' r' [= <-]. rewrite E. intros [= _ _ <-]. by destruct r.
  - destruct (redeemPairingBundle payload key label product now clock r1 r2 wr s (aw_disk w)) as [[s' d'] r] eqn:E.
    destruct (redeem_step identity Hidentity ops _ payload key label product now clock r1 r2 wr s _ s' d' r eq_refl Hid Hg Hsane E) as (synced & Hto & Hans).
    destruct (written ops _ w cv cd s s' d' (reply_of RRedeemed r) synced Hinv Es Hto) as (cv' & cd' & Hinv' & Hev & Hcd & _).
    exists cv', cd'. split; [exact Hinv'|]. split; [left; by split|]. intros s0 s'' d'' r' [= <-]. rewrite E. intros [= <- _ <-]. destruct r as [res|]; [|done]. by apply Hans.
  - destruct (RevokeGrant grantID clock wr s (aw_disk w)) as [[s' d'] r] eqn:E.
    destruct (revoke_step identity Hidentity ops _ grantID clock wr s _ s' d' r eq_refl Hid Hg Hsane E) as (synced & Hto & Hans).
    destruct (written ops _ w cv cd s s' d' (reply_of RRevoked r) synced Hinv Es Hto) as (cv' & cd' & Hinv' & Hev & Hcd & Ecv & Hsync).
    exists cv', cd'. split; [exact Hinv'|]. split; [left; by split|]. intros s0 s'' d'' r' [= <-]. rewrite E. intros [= <- _ <-]. destruct r as [rec|]; [|done].
    destruct (Hans rec eq_refl) as (Hsome & Hrev & Hor). split; [done|]. rewrite <- Ecv. split; [done|]. destruct Hor as [Hs|[_ Hs]]; [left; by rewrite Ecv; apply Hsync|by right].
Qed.

Lemma run_spec ops : sane identity ops → ∃ cv cd, access_inv ops (access_runs ops) cv cd.
Proof.
  induction ops as [|o ops IH] using rev_ind; intros Hsane.
  - exists empty_content, empty_content. split; [done|done|by split; apply good_empty|done].
  - destruct (IH (sane_prefix _ _ _ Hsane)) as (cv & cd & Hinv). rewrite runs_snoc. destruct (step_spec _ _ _ _ _ Hsane Hinv) as (cv' & cd' & Hinv' & _). by exists cv', cd'.
Qed.

(** ** Redeemed tickets *)
Definition redeemed (w : access_world) (payload key : string) (res : PairingExchangeResult) : Prop :=
  ∃ label product now clock r1 r2 wr, (ORedeem payload key label product now clock r1 r2 wr, RRedeemed res) ∈ w.(aw_past).

(** What was answered for a payload is what its ticket is bound to, as long as the ticket is there. *)
Record bound_to (ops : list access_op) (c : content) (payload key : string) (res : PairingExchangeResult) : Prop := {
  bo_subject : res.(er_SubjectKeyFingerprint) = Fingerprint key;
  bo_ticket : ∃ b claims, ParsePairingBundleForExchange payload = Ok (b, claims) ∧ claims.(pc_TicketID) ∈ omap (ticket_draw identity) ops
    ∧ ∀ r, c.(c_tickets) !! claims.(pc_TicketID) = Some r → r.(st_GrantID) ≠ "" ∧ pairingResultFromStored identity c.(c_grants) r = Ok res }.

Lemma ticket_drawn (ops : list access_op) c id r : good ops c → c.(c_tickets) !! id = Some r → id ∈ omap (ticket_draw identity) ops.
Proof.
  intros Hg Hr. destruct (gd_ticket _ _ _ Hg _ _ Hr) as [Hv Hc _ (p & (o & Ho & Hi) & _) _ _]. apply list_elem_of_omap. exists o. split; [done|].
  unfold ticket_draw. rewrite Hi. cbn. f_equal. unfold ticket_invalid in Hv. rewrite (co_normal _ _ Hc) in Hv.
  destruct (String.eqb_spec id (pc_TicketID (st_Claims r))) as [->|]; [done|]. done.
Qed.

Lemma bound_evolves (ops : list access_op) o c c' payload key res : evolves o c c' → NoDup (omap (ticket_draw identity) (ops ++ [o])) → bound_to ops c payload key res → bound_to (ops ++ [o]) c' payload key res.
Proof.
  intros [Ht Hl _] Hnd [Hs (b & claims & Hp & Hd & Hb)]. split; [done|]. exists b, claims. rewrite omap_app in Hnd |- *. split; [done|]. split; [set_solver|].
  intros r Hr. destruct (Ht _ _ Hr) as [Hold|[Hnew|(r' & Hold & Hfree)]].
  - destruct (Hb r Hold) as [Hne Hres]. split; [done|]. rewrite <- Hres. apply result_agree; [by apply (Hl (pc_TicketID claims))|done|by rewrite Hres].
  - apply NoDup_app in Hnd as (_ & Hnd & _). destruct (Hnd _ Hd). cbn. rewrite Hnew. set_solver.
  - by destruct (Hb r' Hold).
Qed.

Definition grants_reply (r : reply) : Prop := match r with RRedeemed _ | RRevoked _ => True | _ => False end.
Lemma reply_running o store d store' d' r : access_run o store d = (store', d', r) → grants_reply r → ∃ s s', store = Some s ∧ store' = Some s'.
Proof.
  destruct store as [s|]; destruct o; cbn [AccessWorld.access_run].
  all: try (intros [= <- <- <-] []).
  - destruct (Available s); [by intros [= <- <- <-]|]. destruct (LoadAccessStore _ _ _); by intros [= <- <- <-].
  - destruct (IssuePairingBundle _ _ _ _ _ _ _ _) as [[s1 d1] [bc|]]; by intros [= <- <- <-].
  - destruct (redeemPairingBundle _ _ _ _ _ _ _ _ _ _ _) as [[s1 d1] res]. intros [= <- _ _] _. by exists s, s1.
  - destruct (RevokeGrant _ _ _ _ _) as [[s1 d1] res]. intros [= <- _ _] _. by exists s, s1.
  - destruct (ConfigureManagedRouteGrantIssuer _ _) as [s1 [e|]]; by intros [= <- <- <-].
  - destruct (ConfigureManagedPairingBootstrapIssuer _ _) as [s1 [e|]]; by intros [= <- <- <-].
  - destruct (DisableManagedCloudRoute _) as [s1 [e|]]; by intros [= <- <- <-].
  - destruct (LoadAccessStore _ _ _); by intros [= <- <- <-].
Qed.

Lemma past_snoc ops o : ∃ r, (access_runs (ops ++ [o])).(aw_past) = (access_runs ops).(aw_past) ++ [(o, r)]
  ∧ (grants_reply r → ∃ s s' d', (access_runs ops).(aw_store) = Some s ∧ access_run o (Some s) (access_runs ops).(aw_disk) = (Some s', d', r)
      ∧ (access_runs (ops ++ [o])).(aw_store) = Some s').
Proof.
  rewrite runs_snoc. set (w := access_runs ops). unfold AccessWorld.access_step. destruct (access_run o w.(aw_store) w.(aw_disk)) as [[store d] r] eqn:E.
  exists r. split; [done|]. intros Hr. destruct (reply_running _ _ _ _ _ _ E Hr) as (s & s' & Es & ->). rewrite Es in E. by exists s, s', d.
Qed.

Lemma tickets_bound ops : sane identity ops → Forall (λ o, ¬ is_power_loss o) ops → NoDup (omap (ticket_draw identity) ops) →
  ∃ cv cd, access_inv ops (access_runs ops) cv cd
    ∧ (∀ p k res, redeemed (access_runs ops) p k res → bound_to ops cv p k res)
    ∧ (∀ p k1 k2 res1 res2, redeemed (access_runs ops) p k1 res1 → redeemed (access_runs ops) p k2 res2 → res1 = res2).
Proof.
  induction ops as [|o ops IH] using rev_ind; intros Hsane Hloss Hnd.
  { exists empty_content, empty_content. split; [split; [done|done|by split; apply good_empty|done]|].
    split; [intros p k res (? & ? & ? & ? & ? & ? & ? & Hin)|intros p k1 k2 res1 res2 (? & ? & ? & ? & ? & ? & ? & Hin)]; by apply elem_of_nil in Hin. }
  apply Forall_app in Hloss as [Hloss Ho]. rewrite Forall_singleton in Ho. pose proof Hnd as Hnd'. rewrite omap_app in Hnd'. apply NoDup_app in Hnd' as (Hnd' & _ & _).
  destruct (IH (sane_prefix _ _ _ Hsane) Hloss Hnd') as (cv & cd & Hinv & Hb & Hu).
  destruct (step_spec _ _ _ _ _ Hsane Hinv) as (cv' & cd' & Hinv' & Hfs & Hans). exists cv', cd'. rewrite <- runs_snoc in Hinv'. split; [done|].
  destruct Hfs as [[Hev _]|[? _]]; [|by destruct Ho].
  destruct (past_snoc ops o) as (r & Ep & Hr).
  (* a redemption is an old one or this one *)
  assert (Hcases : ∀ p k res, redeemed (access_runs (ops ++ [o])) p k res → redeemed (access_runs ops) p k res
    ∨ (∃ label product now clock r1 r2 wr, o = ORedeem p k label product now clock r1 r2 wr) ∧ r = RRedeemed res).
  { intros p k res (l & pr & n & c & r1 & r2 & wr & Hin). rewrite Ep in Hin. apply elem_of_app in Hin as [Hin|Hin].
    - left. by exists l, pr, n, c, r1, r2, wr.
    - right. apply list_elem_of_singleton in Hin. injection Hin as <- <-. split; [|done]. by exists l, pr, n, c, r1, r2, wr. }
  assert (Hnew : ∀ p k res, (∃ label product now clock r1 r2 wr, o = ORedeem p k label product now clock r1 r2 wr) → r = RRedeemed res →
    bound_to (ops ++ [o]) cv' p k res ∧ ∀ k' res', redeemed (access_runs ops) p k' res' → res' = res).
  { intros p k res (l & pr & n & c & r1 & r2 & wr & Eo) Er. destruct Hr as (s & s' & d' & Es & Erun & Es'); [by rewrite Er|].
    pose proof (Hans s s' d' r Es Erun) as Ha. rewrite Er in Ha. rewrite Eo in Ha. destruct Ha as (b & claims & Hp & _ & [r0 Hr0] & Hsub & rec & Hrec & _ & Hne & Hres & Hold).
    destruct (ai_store _ _ _ _ Hinv' s' Es') as [_ Ec']. destruct (ai_store _ _ _ _ Hinv s Es) as [_ Ec]. unfold tickets, grants in *. rewrite Ec' in Hrec, Hres. rewrite Ec in Hr0, Hold. split.
    - split; [done|]. exists b, claims. split; [done|]. split; [rewrite omap_app; apply elem_of_app; left; by apply (ticket_drawn ops cv _ r0); [apply Hinv|]|].
      intros r3 Hr3. rewrite Hrec in Hr3. injection Hr3 as <-. by split.
    - intros k' res' Hred. destruct (Hb p k' res' Hred) as [_ (b' & claims' & Hp' & _ & Hb')]. rewrite Hp in Hp'. injection Hp' as <- <-.
      destruct (Hb' r0 Hr0) as [Hne0 Hres0]. pose proof (Hold r0 Hr0 Hne0). congruence. }
  split.
  - intros p k res [Hred|[He Er]]%Hcases; [by apply (bound_evolves ops o cv), Hb|]. by apply (Hnew p k res He Er).
  - intros p k1 k2 res1 res2 [Hred1|[He1 Er1]]%Hcases [Hred2|[He2 Er2]]%Hcases.
    + by apply (Hu p k1 k2).
    + by apply (Hnew p k2 res2 He2 Er2) in Hred1.
    + by apply (Hnew p k1 res1 He1 Er1) in Hred2.
    + congruence.
Qed.

Lemma past_at ops n o r : ops !! n = Some o → (access_runs ops).(aw_past).*2 !! n = Some r → (o, r) ∈ (access_runs ops).(aw_past).
Proof.
  rewrite <- (past_ops identity ops) at 1. rewrite !list_lookup_fmap. destruct ((access_runs ops).(aw_past) !! n) as [[o' r']|] eqn:E; [|done].
  intros [= <-] [= <-]. by apply list_elem_of_lookup_2 in E.
Qed.

(** ** Revoked grants *)
Lemma revoked_evolves (ops : list access_op) o c c' id : evolves o c c' → NoDup (omap grant_draw (ops ++ [o])) → id ∈ omap grant_draw ops → revoked c id → revoked c' id.
Proof.
  intros [_ _ Hg] Hnd Hd Hr g Hl. destruct (Hg _ _ Hl) as [Hnew|(g' & Hl' & _ & Hm)]; [|by apply Hm, (Hr g')].
  rewrite omap_app in Hnd. apply NoDup_app in Hnd as (_ & Hnd & _). destruct (Hnd _ Hd). cbn. rewrite Hnew. set_solver.
Qed.

(** [safe]: no power loss from here on, or the file that a power loss leaves has the revocation too. *)
Lemma revoked_later ops k cv cd id : sane identity (ops ++ k) → NoDup (omap grant_draw (ops ++ k)) → access_inv ops (access_runs ops) cv cd →
  id ∈ omap grant_draw ops → revoked cv id → (revoked cd id ∨ Forall (λ o, ¬ is_power_loss o) k) →
  ∃ cv' cd', access_inv (ops ++ k) (access_runs (ops ++ k)) cv' cd' ∧ revoked cv' id.
Proof.
  revert ops cv cd. induction k as [|o k IH]; intros ops cv cd Hsane Hnd Hinv Hd Hr Hsafe; [rewrite app_nil_r; by exists cv, cd|].
  assert (Ek : ops ++ o :: k = (ops ++ [o]) ++ k) by (by rewrite <- app_assoc). rewrite Ek in *.
  destruct (step_spec _ _ _ _ _ (sane_prefix _ _ _ Hsane) Hinv) as (cv' & cd' & Hinv' & Hfs & _). rewrite <- runs_snoc in Hinv'.
  assert (Hnd' : NoDup (omap grant_draw (ops ++ [o]))) by (rewrite omap_app in Hnd; by apply NoDup_app in Hnd as (? & _)).
  apply (IH _ cv' cd'); try done.
  - rewrite omap_app. set_solver.
  - destruct Hfs as [[Hev _]|(Hl & -> & [->| ->])]; [by apply (revoked_evolves ops o cv)|done|]. destruct Hsafe as [?|Hn]; [done|]. by apply Forall_cons in Hn as [? _].
  - destruct Hsafe as [Hcd|Hn]; [left|right; by apply Forall_cons in Hn as [_ ?]].
    destruct Hfs as [[Hev [->| ->]]|(_ & -> & [->| ->])]; try done. by apply (revoked_evolves ops o cv).
Qed.

(** The request that revokes the grant has synced its write. *)
Lemma revoke_synced grantID clock wr s d s' d' rec : RevokeGrant grantID clock wr s d = (s', d', Ok rec) → Revoked s grantID = false → d'.(d_visible) = d'.(d_durable).
Proof.
  unfold RevokeGrant, Revoked. destruct (String.eqb _ _); [done|]. destruct (ensureOpenLocked s); [done|]. destruct (grants s !! TrimSpace grantID) as [record|]; [|done].
  intros Hr [_ Hz]%orb_false_elim. rewrite Hz in Hr. destruct (compactLocked clock s) as [s1 ?]. revert Hr. unfold persistLocked. destruct (state_payload _ _); [|done].
  destruct wr; cbn [writePrivateFile]; [|done..]. by intros [= _ <- _].
Qed.

(** When nothing waits for the directory to be synced, a power loss brings back what readers see. *)
Lemma synced_same ops w cv cd : access_inv ops w cv cd → w.(aw_disk).(d_visible) = w.(aw_disk).(d_durable) → cv = cd.
Proof.
  intros [Hv Hd [Hgv Hgd] _] E. rewrite E in Hv. pose proof (good_loads identity Hidentity ops _ _ Hgv Hv (mkLoadEnv None None None) eq_refl eq_refl eq_refl None) as Lv.
  pose proof (good_loads identity Hidentity ops _ _ Hgd Hd (mkLoadEnv None None None) eq_refl eq_refl eq_refl None) as Ld. rewrite Lv in Ld. by injection Ld.
Qed.

(** ** Properties *)

(** C5: a restart changes nothing, and no crash locks the daemon out. Whatever requests were made, whatever writes failed
    before or after the rename, the file that is there loads into exactly the tickets, grants and revision that were in
    memory, and the file a power loss may bring back loads too. *)
Theorem access_restart_exact ops (Hsane : sane identity ops) :
  let w := access_runs ops in
  ∃ cv cd, loads identity w.(aw_disk).(d_visible) cv ∧ loads identity w.(aw_disk).(d_durable) cd ∧ ∀ s, w.(aw_store) = Some s → s.(as_content) = cv.
Proof.
  destruct (run_spec ops Hsane) as (cv & cd & [Hv Hd [Hgv Hgd] Hst]). exists cv, cd.
  split; [by apply (good_loads identity Hidentity ops)|]. split; [by apply (good_loads identity Hidentity ops)|]. intros s Hs. by apply Hst.
Qed.

(** C3: a ticket is redeemed once. Without a power loss, whatever fails and however often the daemon restarts, every
    redemption of a payload that succeeds gives the same grant, receipt and route material, for the same client key. *)
Theorem ticket_redeemed_once ops payload key1 key2 res1 res2 (Hsane : sane identity ops) (Hpower : Forall (λ o, ¬ is_power_loss o) ops)
    (Hrandom : NoDup (omap (ticket_draw identity) ops)) (Hfirst : redeemed (access_runs ops) payload key1 res1)
    (Hsecond : redeemed (access_runs ops) payload key2 res2) :
  res1 = res2 ∧ Fingerprint key1 = Fingerprint key2.
Proof.
  destruct (tickets_bound ops Hsane Hpower Hrandom) as (cv & cd & _ & Hb & Hu). pose proof (Hu _ _ _ _ _ Hfirst Hsecond) as <-. split; [done|].
  rewrite <- (bo_subject _ _ _ _ _ (Hb _ _ _ Hfirst)). apply (bo_subject _ _ _ _ _ (Hb _ _ _ Hsecond)).
Qed.

(** C4: a revocation is permanent. The request that revokes a grant answers only once the directory is synced; and once
    [RevokeGrant] has answered, the grant is refused after any further requests, failing writes and restarts, and after
    power losses too unless the file that holds the revocation is still not synced. (That is so when an earlier request
    had revoked the grant and failed in its sync: then this request finds it revoked and answers without writing.) *)
Theorem revocation_permanent ops grantID clock wr k s s' d' rec (Hsane : sane identity (ops ++ ORevoke grantID clock wr :: k))
    (Hrandom : NoDup (omap grant_draw (ops ++ ORevoke grantID clock wr :: k))) (Hstore : (access_runs ops).(aw_store) = Some s)
    (Hrevoke : RevokeGrant grantID clock wr s (access_runs ops).(aw_disk) = (s', d', Ok rec)) :
  (Revoked s grantID = false → d'.(d_visible) = d'.(d_durable))
  ∧ (d'.(d_visible) = d'.(d_durable) ∨ Forall (λ o, ¬ is_power_loss o) k →
     ∀ s'', (access_runs (ops ++ ORevoke grantID clock wr :: k)).(aw_store) = Some s'' → Revoked s'' grantID = true).
Proof.
  split; [by apply (revoke_synced _ _ _ _ _ _ _ _ Hrevoke)|]. intros Hpower.
  set (o := ORevoke grantID clock wr) in *. assert (Ek : ops ++ o :: k = (ops ++ [o]) ++ k) by (by rewrite <- app_assoc). rewrite Ek in *.
  pose proof (sane_prefix _ _ _ Hsane) as Hsane1. destruct (run_spec ops (sane_prefix _ _ _ Hsane1)) as (cv & cd & Hinv).
  destruct (step_spec _ _ _ _ _ Hsane1 Hinv) as (cv' & cd' & Hinv' & _ & Hans). rewrite <- runs_snoc in Hinv'.
  assert (Hrun : access_run o (Some s) (access_runs ops).(aw_disk) = (Some s', d', RRevoked rec)) by (cbn [AccessWorld.access_run o]; by rewrite Hrevoke).
  destruct (Hans _ _ _ _ Hstore Hrun) as ([g Hg] & Hrev & _). destruct (ai_store _ _ _ _ Hinv s Hstore) as [_ Ec]. unfold grants in Hg. rewrite Ec in Hg.
  assert (Ed : (access_runs (ops ++ [o])).(aw_disk) = d') by (rewrite runs_snoc; unfold AccessWorld.access_step; by rewrite Hstore, Hrun).
  destruct (revoked_later (ops ++ [o]) k cv' cd' (TrimSpace grantID) Hsane Hrandom Hinv') as (cv'' & cd'' & Hinv'' & Hfin); [|done| |].
  - rewrite omap_app. apply elem_of_app. left. apply (gg_drawn _ _ _ _ (gd_grant _ _ _ (proj1 (ai_good _ _ _ _ Hinv)) _ _ Hg)).
  - destruct Hpower as [Hp|Hp]; [left|by right]. by rewrite <- (synced_same _ _ _ _ Hinv'); [|rewrite Ed].
  - intros s'' Hs''. destruct (ai_store _ _ _ _ Hinv'' s'' Hs'') as [_ Ec'']. unfold Revoked, grants. rewrite Ec''.
    destruct (c_grants cv'' !! TrimSpace grantID) as [g''|] eqn:E; [|by rewrite orb_true_r]. unfold IsZero. rewrite (proj2 (Z.eqb_neq _ _) (Hfin g'' E)). by rewrite orb_true_r.
Qed.

(** C26: a redeemed grant admits the client exactly as far as its ticket allowed. The payload that was redeemed is one the
    daemon issued, and the grant verifies against the fingerprint of the daemon as claims with the scope of the ticket in
    that payload, made out inside the window of that ticket for the key of the client, for the lifetime of the ticket, at
    most one year; with the store as the list of revocations it is refused before its window, after it, and once revoked. *)
Theorem redeemed_grant_admits ops o s s' d' res payload key label product at_ at_clock r1 r2 wr
    (Hop : o = ORedeem payload key label product at_ at_clock r1 r2 wr) (Hsane : sane identity (ops ++ [o]))
    (Hstore : (access_runs ops).(aw_store) = Some s)
    (Hredeem : redeemPairingBundle payload key label product at_ at_clock r1 r2 wr s (access_runs ops).(aw_disk) = (s', d', Ok res)) :
  ∃ b claims c, ParsePairingBundleForExchange payload = Ok (b, claims) ∧ issued identity ops payload claims ∧ for_ticket claims c
    ∧ c.(gc_Scope) = res.(er_Scope) ∧ c.(gc_SubjectKeyFingerprint) = Fingerprint key
    ∧ c.(gc_ExpiresAt) = res.(er_ExpiresAt)
    ∧ ∀ now clock, now ≠ zero_time → Verify res.(er_Grant) identity.(id_Fingerprint) now clock (Some (Revoked s'))
        = if now <? c.(gc_NotBefore) then Err ErrGrantNotActive
          else if c.(gc_ExpiresAt) <=? now then Err ErrGrantExpired
          else if Revoked s' res.(er_GrantID) then Err ErrGrantRevoked else Ok c.
Proof.
  destruct (run_spec ops (sane_prefix _ _ _ Hsane)) as (cv & cd & Hinv). destruct (step_spec _ _ _ _ _ Hsane Hinv) as (cv' & cd' & Hinv' & _ & Hans).
  assert (Hrun : access_run o (Some s) (access_runs ops).(aw_disk) = (Some s', d', RRedeemed res)) by (rewrite Hop; cbn [AccessWorld.access_run]; by rewrite Hredeem).
  pose proof (Hans _ _ _ _ Hstore Hrun) as Ha. rewrite Hop in Ha. destruct Ha as (b & claims & Hp & Hiss & _ & Hsub & rec & Hrec & Ecl & Hne & Hres & _).
  assert (Es' : (access_step (access_runs ops) o).(aw_store) = Some s') by (unfold AccessWorld.access_step; by rewrite Hstore, Hrun).
  destruct (ai_store _ _ _ _ Hinv' s' Es') as [_ Ec']. destruct (ai_good _ _ _ _ Hinv') as [Hg _].
  unfold tickets, grants in *. rewrite Ec' in Hrec, Hres. pose proof (tg_valid _ _ _ _ _ (gd_ticket _ _ _ Hg _ _ Hrec)) as Hv.
  pose proof (λ g, tg_grant _ _ _ _ _ (gd_ticket _ _ _ Hg _ _ Hrec) g Hne) as Hft. rewrite Ecl in Hft.
  unfold pairingResultFromStored in Hres. destruct (c_grants cv' !! st_GrantID rec) as [g|] eqn:Eg; [|done]. destruct (gd_grant _ _ _ Hg _ _ Eg) as [Hok _ _].
  destruct (grant_verifies identity Hidentity _ _ Hok) as (t & Hissue & Hver). rewrite Hissue in Hres. split_result Hres. injection Hres as <-.
  cbn [er_Scope er_ExpiresAt er_Grant er_GrantID er_SubjectKeyFingerprint] in *. exists b, claims, g.(sg_Claims). split; [done|]. split; [done|]. split; [by apply Hft|]. split; [done|]. split; [|split; [done|]].
  - rewrite <- Hsub. unfold ticket_invalid in Hv. destruct (_ || _ || _ || _ || _); [done|]. rewrite (proj2 (String.eqb_neq _ _) Hne) in Hv.
    unfold grant_link_broken in Hv. rewrite Eg in Hv. destruct (String.eqb_spec (gc_SubjectKeyFingerprint (sg_Claims g)) (st_SubjectKeyFingerprint rec)); [done|].
    cbn [negb] in Hv. by rewrite !orb_true_r in Hv.
  - intros now clock Hnow. unfold Verify. rewrite Hver, (fingerprint_trimmed identity Hidentity), String.eqb_refl. cbn [result_bind].
    unfold IsZero. rewrite (proj2 (Z.eqb_neq now zero_time) Hnow). destruct (now <? _); [done|]. rewrite Z.leb_antisym.
    destruct (now <? gc_ExpiresAt (sg_Claims g)); [|done]. cbn [negb]. by rewrite (go_revocation _ _ _ Hok).
Qed.
End theorems.

(** ** A concrete daemon, for the witnesses *)
Module AccessDemo.
Import RemoteDemo.
Local Open Scope string_scope.

#[export] Instance text_ticket_claims : Text PairingTicketClaims.
Proof.
  refine (text_iso (λ c, (c.(pc_Version), c.(pc_TicketID), c.(pc_IssuerDeviceID), c.(pc_IssuerDeviceFingerprint), c.(pc_ScopeCeiling), c.(pc_IssuedAt),
                          c.(pc_NotBefore), c.(pc_ExpiresAt), c.(pc_GrantLifetimeSeconds), c.(pc_Nonce), c.(pc_MaxRedemptions)))
            (λ '(a, b, c, d, e, f, g, h, i, j, k), mkTicketClaims a b c d e f g h i j k) _). by intros [].
Defined.
#[export] Instance text_ticket : Text storedPairingTicket.
Proof.
  refine (text_iso (λ t, (t.(st_Claims), t.(st_TicketDigest), t.(st_SubjectKeyFingerprint), t.(st_ClientLabel), t.(st_GrantID), t.(st_ResultGrantDigest),
                          t.(st_DeliveryReceiptDigest), t.(st_RedeemedAt), t.(st_DeliveryGraceUntil), t.(st_CloudRouteGrantDigest), t.(st_CloudEdgeLocatorDigest)))
            (λ '(a, b, c, d, e, f, g, h, i, j, k), mkStoredTicket a b c d e f g h i j k) _). by intros [].
Defined.
#[export] Instance text_grant : Text storedAccessGrant.
Proof.
  refine (text_iso (λ g, (g.(sg_Claims), g.(sg_ClientLabel), g.(sg_RevokedAt), g.(sg_CloudRouteGrant), g.(sg_CloudEdgeLocator)))
            (λ '(a, b, c, d, e), mkStoredGrant a b c d e) _). by intros [].
Defined.
#[export] Instance text_state : Text storedAccessState.
Proof.
  refine (text_iso (λ s, (s.(ss_Version), s.(ss_IssuerDeviceID), s.(ss_IssuerFingerprint), s.(ss_Tickets), s.(ss_Grants), s.(ss_StateSignature), s.(ss_AccessProjectionRevision)))
            (λ '(a, b, c, d, e, f, g), mkStoredState a b c d e f g) _). by intros [].
Defined.
#[export] Instance text_descriptor : Text PairingTicketDescriptor.
Proof.
  refine (text_iso (λ t, (t.(td_TicketId), t.(td_ScopeCeiling), t.(td_ExpiresAtUnixNano), t.(td_Nonce), t.(td_MaxRedemptions), t.(td_Signature),
                          t.(td_IssuedAtUnixNano), t.(td_GrantLifetimeSeconds)))
            (λ '(a, b, c, d, e, f, g, h), mkTicketDescriptor a b c d e f g h) _). by intros [].
Defined.
#[export] Instance text_wire_identity : Text EndpointDaemonIdentity.
Proof. refine (text_iso (λ i, (i.(wi_DeviceId), i.(wi_DevicePublicKey), i.(wi_DeviceFingerprint))) (λ '(a, b, c), mkWireIdentity a b c) _). by intros []. Defined.
#[export] Instance text_authorization : Text Authorization.
Proof.
  refine (text_iso (λ a, match a with AuthorizationEmpty => (None, None) | AuthorizationTicket t => (Some t, None) | AuthorizationGrant g => (None, Some g) end)
            (λ p, match p with (Some t, _) => AuthorizationTicket t | (None, Some g) => AuthorizationGrant g | _ => AuthorizationEmpty end) _). by intros [].
Defined.
#[export] Instance text_bundle : Text (Bundle string).
Proof.
  refine (text_iso (λ b, (b.(pb_BundleId), b.(pb_SchemaVersion), b.(pb_Identity), b.(pb_SuggestedLabel), b.(pb_Routes), b.(pb_Authorization), b.(pb_IssuedAtUnixNano),
                          b.(pb_ExpiresAtUnixNano), b.(pb_BundleSignature)))
            (λ '(a, b, c, d, e, f, g, h, i), mkBundle b a c d e f g h i) _). by intros [].
Defined.

(** A route is its name; the managed ones say so. *)
#[export] Instance proto : EndpointProto := {
  Route := string; GetRouteId := λ r, r; GetManagedWebrtc := String.prefix "managed"; route_unknown := λ _, false;
  validatePortableRoute := λ r _ _, validateIdentifier r;
  marshalBundle := λ b, Ok ("B" +:+ to_text b);
  unmarshalBundle := λ p, match p with String _ p => let? b := of_text p in Ok (b, false) | "" => Err "empty" end;
  marshalTicketInput := λ p v d f t, Ok (to_text (p, v, d, f, t));
  marshalBundleInput := λ p v b, Ok (to_text (p, v, b)) }.
#[export] Instance proto_laws : EndpointProtoLaws.
Proof.
  split; cbn [marshalBundle unmarshalBundle proto Route route_unknown]; intros b p [= <-]; [|done].
  change ((let? b := of_text (to_text b) in Ok (b, false)) = Ok (b, existsb (λ _, false) b.(pb_Routes))). rewrite text_all. cbn [result_bind].
  induction (pb_Routes b) as [|r rs IH]; [done|exact IH].
Qed.
#[export] Instance json : AccessJson := { json_Marshal := λ s, Ok (to_text s); json_MarshalIndent := λ s, Ok (to_text s); json_decode := of_text }.
#[export] Instance json_laws : AccessJsonLaws.
Proof. split. intros s p _ [= <-]. apply text_roundtrip. Qed.

Definition identity : Identity := mkIdentity "device-7" (Fingerprint (Public private_key)) (Public private_key) private_key.
Lemma identity_valid : identity_ok identity.
Proof. split; vm_compute; reflexivity. Qed.

Definition minute : Z := 60 * second.
Definition start : Z := 1700000000 * second.
Definition env : load_env := mkLoadEnv None None None.
Definition random (c : ascii) : option string := Some (pad 18 (String c "")).
Definition key : string := pad 32 "client".
Definition issue : access_op := OIssue (mkIssueOptions "desk" (mkScope false "term-1" false false false false false false) 0 (3600 * second) start []) start (random "a") (random "b") (random "c") WriteOk.
Definition payload : string := match issued_by identity issue with Some (p, _) => p | None => "" end.
Definition redeem (c : ascii) (at_ : Z) (w : write_outcome) : access_op := ORedeem payload key "phone" 0 at_ at_ (random c) (random "n") w.
Definition grant_id : string := "grant-" +:+ EncodeToString (pad 18 "g").

(** The grant is made out, but the sync of the directory fails; the client tries again, before and after a restart. *)
Definition ops : list access_op :=
  [OLoad env; issue; redeem "g" (start + minute) (WritePublished "sync"); redeem "h" (start + 2 * minute) WriteOk; OExit; OLoad env; redeem "i" (start + 3 * minute) WriteOk].
Definition revoke (w : write_outcome) : access_op := ORevoke grant_id (start + 5 * minute) w.
Definition restart : list access_op := [OPowerLoss false; OLoad env].

Lemma one_payload (l : list access_op) : Forall (λ p, p = payload) (omap (payload_of identity) l) → digests_differ identity l.
Proof. intros Hl p q Hp Hq _. rewrite Forall_forall in Hl. by rewrite (Hl p Hp), (Hl q Hq). Qed.
Ltac run_sane := split; [repeat (apply Forall_cons; split; [first [exact I|vm_compute; discriminate]|]); apply Forall_nil_2|apply one_payload; vm_compute; repeat (apply Forall_cons; split; [reflexivity|]); apply Forall_nil_2|reflexivity].
Lemma ops_sane : sane identity ops.
Proof. run_sane. Qed.
End AccessDemo.

Section access_witnesses.
Import RemoteDemo AccessDemo.

Lemma access_restart_exact_witness : ∃ cv cd,
  loads identity (access_runs identity ops).(aw_disk).(d_visible) cv ∧ loads identity (access_runs identity ops).(aw_disk).(d_durable) cd ∧ map_size cv.(c_grants) = 1%nat.
Proof.
  destruct (access_restart_exact identity identity_valid ops ops_sane) as (cv & cd & Hv & Hd & Hs). exists cv, cd. split; [exact Hv|]. split; [exact Hd|].
  assert (E : (λ s, map_size s.(as_content).(c_grants)) <$> (access_runs identity ops).(aw_store) = Some 1%nat) by (vm_compute; reflexivity).
  destruct (aw_store (access_runs identity ops)) as [s|] eqn:Es; [|discriminate E]. injection E as E. by rewrite <- (Hs s eq_refl).
Defined.

Lemma ticket_redeemed_once_witness : ∃ res1 res2,
  (aw_past (access_runs identity ops)).*2 !! 2%nat = Some (RFailed "sync") ∧ (aw_past (access_runs identity ops)).*2 !! 3%nat = Some (RRedeemed res1)
  ∧ (aw_past (access_runs identity ops)).*2 !! 6%nat = Some (RRedeemed res2) ∧ res1 = res2 ∧ res1.(er_GrantID) = grant_id.
Proof.
  assert (Hanswers : match (aw_past (access_runs identity ops)).*2 with
                     | [_; _; RFailed e; RRedeemed r1; _; _; RRedeemed r2] => e = "sync" ∧ r1.(er_GrantID) = grant_id | _ => False end) by (vm_compute; split; reflexivity).
  destruct (aw_past (access_runs identity ops)).*2 as [|? [|? [|[] [|[] [|? [|? [|[| | |r2|] [|]]]]]]]] eqn:E; try (exfalso; exact Hanswers). destruct Hanswers as [-> Hid].
  exists result, r2. split; [reflexivity|]. split; [reflexivity|]. split; [reflexivity|]. split; [|exact Hid].
  apply (ticket_redeemed_once identity identity_valid ops payload key key result r2 ops_sane).
  - repeat (apply Forall_cons; split; [intros []|]). apply Forall_nil_2.
  - apply (bool_decide_unpack _). vm_compute. exact I.
  - do 7 eexists. apply (past_at identity ops 3); [reflexivity|]. rewrite E. reflexivity.
  - do 7 eexists. apply (past_at identity ops 6); [reflexivity|]. rewrite E. reflexivity.
Defined.

Lemma revocation_permanent_witness : (λ s, Revoked s grant_id) <$> (access_runs identity (ops ++ revoke WriteOk :: restart)).(aw_store) = Some true.
Proof.
  assert (Hup : (λ s, s.(as_closed)) <$> (access_runs identity (ops ++ revoke WriteOk :: restart)).(aw_store) = Some false) by (vm_compute; reflexivity).
  destruct (aw_store (access_runs identity (ops ++ revoke WriteOk :: restart))) as [s''|] eqn:Es''; [|discriminate Hup]. cbn. f_equal.
  destruct (aw_store (access_runs identity ops)) as [s|] eqn:Es; [|vm_compute in Es; discriminate Es].
  destruct (RevokeGrant grant_id (start + 5 * minute) WriteOk s (access_runs identity ops).(aw_disk)) as [[s' d'] r] eqn:Er.
  assert (Hr : is_ok (RevokeGrant grant_id (start + 5 * minute) WriteOk s (access_runs identity ops).(aw_disk)).2 = true) by (vm_compute in Es; injection Es as <-; vm_compute; reflexivity).
  rewrite Er in Hr. destruct r as [rec|]; [|discriminate Hr].
  assert (Hlive : Revoked s grant_id = false) by (vm_compute in Es; injection Es as <-; vm_compute; reflexivity).
  destruct (revocation_permanent identity identity_valid ops grant_id (start + 5 * minute) WriteOk restart s s' d' rec) as [Hsync Hlater].
  - run_sane.
  - apply (bool_decide_unpack _). vm_compute. exact I.
  - exact Es.
  - exact Er.
  - apply Hlater; [left; exact (Hsync Hlive)|exact Es''].
Defined.

(** The sync of the revocation fails, the owner asks again and is told that the grant is revoked, and after a power loss
    it is not. *)
Example revoke_retry_lost : let w := access_runs identity [OLoad env; issue; redeem "g" (start + minute) WriteOk; revoke (WritePublished "sync"); revoke WriteOk] in
  (match last w.(aw_past).*2 with Some (RRevoked rec) => negb (IsZero rec.(cr_RevokedAt)) | _ => false end) = true
  ∧ (λ s, Revoked s grant_id) <$> (foldl (access_step identity) w restart).(aw_store) = Some false.
Proof. vm_compute. split; reflexivity. Qed.

Lemma redeemed_grant_admits_witness : ∃ res c, res.(er_GrantID) = grant_id ∧ c.(gc_ExpiresAt) = start + minute + 3600 * second ∧ TerminalID c.(gc_Scope) = "term-1"
  ∧ ∃ s', Verify res.(er_Grant) identity.(id_Fingerprint) (start + minute + 3599 * second) 0 (Some (Revoked s')) = Ok c
      ∧ Verify res.(er_Grant) identity.(id_Fingerprint) (start + minute + 3600 * second) 0 (Some (Revoked s')) = Err ErrGrantExpired.
Proof.
  set (before := [OLoad env; issue]). destruct (aw_store (access_runs identity before)) as [s|] eqn:Es; [|vm_compute in Es; discriminate Es].
  destruct (redeemPairingBundle payload key "phone" 0 (start + minute) (start + minute) (random "g") (random "n") WriteOk s (access_runs identity before).(aw_disk)) as [[s' d'] r] eqn:Er.
  assert (Hr : match r with Ok res => (res.(er_GrantID), TerminalID res.(er_Scope), res.(er_ExpiresAt)) = (grant_id, "term-1", start + minute + 3600 * second) ∧ Revoked s' grant_id = false | Err _ => False end).
  { vm_compute in Es. injection Es as <-. vm_compute in Er. injection Er as <- _ <-. split; vm_compute; reflexivity. }
  destruct r as [res|]; [|destruct Hr]. destruct Hr as [Hr Hrev]. injection Hr as Hid Hscope Hexp.
  destruct (redeemed_grant_admits identity identity_valid before (redeem "g" (start + minute) WriteOk) s s' d' res payload key "phone" 0 (start + minute) (start + minute) (random "g") (random "n") WriteOk
              eq_refl ltac:(run_sane) Es Er) as (b & cl & c & Hp & Hi & Hg & Hs & _ & He & Hv).
  exists res, c. rewrite Hs, He, Hid. split; [reflexivity|]. split; [exact Hexp|]. split; [exact Hscope|]. exists s'.
  destruct Hg as (_ & _ & Hb & Hx & Hl).
  rewrite !Hv by (vm_compute; discriminate). rewrite Hid, Hrev, He, Hexp.
  assert (Hnb : start + minute + 3599 * second <? c.(gc_NotBefore) = false ∧ start + minute + 3600 * second <? c.(gc_NotBefore) = false).
  { rewrite Hb, !Z.ltb_ge. rewrite He, Hexp in Hx. unfold defaultClockSkew, second, nanos_per_second in *. lia. }
  destruct Hnb as [-> ->]. split; reflexivity.
Defined.
End access_witnesses.
