(* ===== verification/EndpointRegistry.v ===== *)
(** * The endpoints of a client and their routes

    [client/endpoint/registry.go] with its checks and defaults, the edits of [policy.go], the route plan of [planner.go]
    and the merging of candidates of [assembler.go].

    Values are copied deeply in the code wherever they leave it; here they are values. An error is its [ErrorCode]: the
    message is for display. All errors of one loop over a map have the same code, so that the order of the map does not
    show. *)
From S2P Require Import Prelude GoStd GoText RemoteGrant EndpointContracts.
From Stdlib Require Import Ascii String.
From stdpp Require Import pretty.
Local Open Scope string_scope.
Local Open Scope Z_scope.
Local Open Scope bool_scope.

(** ** Constants *)
Definition RegistryVersion : Z := 3.
Definition DefaultEndpointID : string := "local".
Definition DefaultLocalRouteID : string := "local".

Definition RouteLocalUnix : string := "local-unix".
Definition RouteSSHWebRTCTCP : string := "ssh-webrtc-tcp".
Definition RouteDirectWebRTCTCP : string := "direct-webrtc-tcp".
Definition RouteManagedWebRTC : string := "managed-webrtc".

Definition ConnectAuto : string := "auto".
Definition ConnectOnDemand : string := "on_demand".
Definition ConnectManual : string := "manual".

Definition RelayAuto : string := "auto".
Definition RelayDirect : string := "direct".
Definition RelayOnly : string := "relay_only".
Definition RelaySmart : string := "smart_route".

Definition SourceLocal : string := "local".
Definition SourceCloud : string := "cloud".
Definition SourceBootstrap : string := "bootstrap".
Definition SourceManual : string := "manual".
Definition SourceShare : string := "share".
Definition SourceLAN : string := "lan".
Definition SourceUser : string := "user".

Definition CredentialSSHAgent : string := "ssh-agent".
Definition CredentialSSHPrivateKey : string := "ssh-private-key".
Definition CredentialSSHPassword : string := "ssh-password".
Definition CredentialCapabilityGrant : string := "capability-grant".
Definition CredentialCloudProfile : string := "cloud-profile".

Definition ErrorConfig : goerr := "config_invalid".
Definition ErrorUnsupportedVersion : goerr := "unsupported_version".
Definition ErrorIdentityConflict : goerr := "identity_conflict".
Definition ErrorRouteConflict : goerr := "route_conflict".
Definition ErrorRouteUnavailable : goerr := "route_unavailable".
Definition ErrorCredentialRequired : goerr := "credential_required".

Definition RoutePreferenceAuto : string := "auto".
Definition RoutePreferenceDirect : string := "direct".
Definition RoutePreferenceSSH : string := "ssh".
Definition RoutePreferenceManagedCloud : string := "managed_cloud".
Definition RelayTransportAuto : string := "auto".
Definition RelayTransportUDP : string := "udp".
Definition RelayTransportTCP : string := "tcp".

Definition one_of (value : string) (values : list string) : bool := existsb (String.eqb value) values.
Definition millisecond : Z := 1000000.

(** ** Data *)
Record DaemonIdentity := mkDaemonIdentity { di_DeviceID : string; di_DeviceFingerprint : string }.
#[export] Instance DaemonIdentity_eq_dec : EqDecision DaemonIdentity.
Proof. solve_decision. Defined.

Record SelectionPolicy := mkSelectionPolicy { sp_HedgeDelay : Z; sp_HedgeDelayConfigured : bool; sp_RoutePreference : string }.
#[export] Instance SelectionPolicy_eq_dec : EqDecision SelectionPolicy.
Proof. solve_decision. Defined.
#[export] Instance eta_SelectionPolicy : Eta SelectionPolicy := λ p, mkSelectionPolicy p.(sp_HedgeDelay) p.(sp_HedgeDelayConfigured) p.(sp_RoutePreference).

Record CredentialDescriptor := mkCredentialDescriptor { cd_DescriptorID : string; cd_Kind : string; cd_Exportable : bool }.
#[export] Instance CredentialDescriptor_eq_dec : EqDecision CredentialDescriptor.
Proof. solve_decision. Defined.

Record AccessRoute := mkAccessRoute {
  ar_ID : string; ar_DisplayName : string; ar_Kind : string; ar_Enabled : bool; ar_ManualOnly : bool; ar_Priority : option Z;
  ar_CredentialRef : string; ar_SSHCredentialRef : string; ar_Source : string; ar_PolicySource : string;
  ar_Socket : string;
  ar_Host : string; ar_Port : Z; ar_User : string; ar_ProxyJump : string; ar_HostKeyFingerprints : list string;
  ar_CredentialDescriptor : option CredentialDescriptor; ar_RemoteSignalingAddress : string; ar_RemoteICETCPAddress : string;
  ar_SignalingAddresses : list string; ar_ICETCPAddresses : list string; ar_AdvertisedAddresses : list string; ar_ServerName : string;
  ar_TargetDeviceID : string; ar_AccountProfileRef : string; ar_RelayMode : string; ar_RelayTransport : string }.
#[export] Instance AccessRoute_eq_dec : EqDecision AccessRoute.
Proof. solve_decision. Defined.
#[export] Instance eta_AccessRoute : Eta AccessRoute := λ r,
  mkAccessRoute r.(ar_ID) r.(ar_DisplayName) r.(ar_Kind) r.(ar_Enabled) r.(ar_ManualOnly) r.(ar_Priority) r.(ar_CredentialRef) r.(ar_SSHCredentialRef)
    r.(ar_Source) r.(ar_PolicySource) r.(ar_Socket) r.(ar_Host) r.(ar_Port) r.(ar_User) r.(ar_ProxyJump) r.(ar_HostKeyFingerprints)
    r.(ar_CredentialDescriptor) r.(ar_RemoteSignalingAddress) r.(ar_RemoteICETCPAddress) r.(ar_SignalingAddresses) r.(ar_ICETCPAddresses)
    r.(ar_AdvertisedAddresses) r.(ar_ServerName) r.(ar_TargetDeviceID) r.(ar_AccountProfileRef) r.(ar_RelayMode) r.(ar_RelayTransport).
(** A route with only the fields every kind has. *)
Definition blank_route (id kind source policySource : string) : AccessRoute :=
  mkAccessRoute id "" kind true false None "" "" source policySource "" "" 0 "" "" [] None "" "" [] [] [] "" "" "" "" "".

Record Endpoint := mkEndpoint {
  ep_ID : string; ep_Label : string; ep_LabelSource : string; ep_DaemonIdentity : DaemonIdentity; ep_ConnectMode : string;
  ep_Enabled : bool; ep_SelectionPolicy : SelectionPolicy; ep_Routes : gmap string AccessRoute }.
#[export] Instance eta_Endpoint : Eta Endpoint := λ e,
  mkEndpoint e.(ep_ID) e.(ep_Label) e.(ep_LabelSource) e.(ep_DaemonIdentity) e.(ep_ConnectMode) e.(ep_Enabled) e.(ep_SelectionPolicy) e.(ep_Routes).
#[export] Instance Endpoint_eq_dec : EqDecision Endpoint.
Proof. solve_decision. Defined.

Record Registry := mkRegistry { rg_Version : Z; rg_Default : string; rg_Endpoints : gmap string Endpoint }.
#[export] Instance eta_Registry : Eta Registry := λ r, mkRegistry r.(rg_Version) r.(rg_Default) r.(rg_Endpoints).
#[export] Instance Registry_eq_dec : EqDecision Registry.
Proof. solve_decision. Defined.

(** ** Identities, identifiers and texts *)
Definition normalizeEndpointID (id : string) : string := TrimSpace id.
Definition normalizeRouteID (id : string) : string := TrimSpace id.
Definition identifier_ok (id : string) : bool := if validateIdentifier id then false else true.

Definition identity_Empty (i : DaemonIdentity) : bool := String.eqb i.(di_DeviceID) "" && String.eqb i.(di_DeviceFingerprint) "".
(** [DaemonIdentity.Validate] returns nil. *)
Definition identity_ok (i : DaemonIdentity) (required : bool) : bool :=
  if String.eqb (TrimSpace i.(di_DeviceID)) "" && String.eqb (TrimSpace i.(di_DeviceFingerprint)) "" && negb required then identity_Empty i
  else if DaemonIdentity_Validate i.(di_DeviceID) i.(di_DeviceFingerprint) then false else true.

Definition validSource (source : string) : bool :=
  one_of source [SourceLocal; SourceCloud; SourceBootstrap; SourceManual; SourceShare; SourceLAN; SourceUser].

Definition canonical_text (value : string) (required : bool) : bool :=
  if String.eqb value "" then negb required else String.eqb value (TrimSpace value) && negb (has_control (string_bytes value)).
Fixpoint no_repeat (values : list string) : bool :=
  match values with [] => true | v :: values => negb (one_of v values) && no_repeat values end.
Definition canonical_list (values : list string) (required : bool) : bool :=
  negb (required && (len values =? 0)) && forallb (λ v, canonical_text v true) values && no_repeat values.

Definition descriptor_ok (d : CredentialDescriptor) : bool :=
  identifier_ok d.(cd_DescriptorID)
  && (one_of d.(cd_Kind) [CredentialSSHPrivateKey; CredentialSSHPassword]
      || one_of d.(cd_Kind) [CredentialSSHAgent; CredentialCapabilityGrant; CredentialCloudProfile] && negb d.(cd_Exportable)).

(** ** Routes *)
Definition is_empty (s : string) : bool := String.eqb s "".
Definition hasSSHFields (r : AccessRoute) : bool :=
  negb (is_empty (TrimSpace r.(ar_Host))) || negb (r.(ar_Port) =? 0) || negb (is_empty (TrimSpace r.(ar_User))) || negb (is_empty (TrimSpace r.(ar_ProxyJump)))
  || negb (is_empty (TrimSpace r.(ar_RemoteSignalingAddress))) || negb (is_empty (TrimSpace r.(ar_RemoteICETCPAddress)))
  || negb (is_empty (TrimSpace r.(ar_SSHCredentialRef))) || negb (len r.(ar_HostKeyFingerprints) =? 0)
  || (if r.(ar_CredentialDescriptor) then true else false).
Definition hasDirectFields (r : AccessRoute) : bool :=
  negb (len r.(ar_SignalingAddresses) =? 0) || negb (len r.(ar_ICETCPAddresses) =? 0) || negb (len r.(ar_AdvertisedAddresses) =? 0)
  || negb (is_empty (TrimSpace r.(ar_ServerName))).
Definition hasManagedFields (r : AccessRoute) : bool :=
  negb (is_empty (TrimSpace r.(ar_TargetDeviceID))) || negb (is_empty (TrimSpace r.(ar_AccountProfileRef))) || negb (is_empty r.(ar_RelayMode)).

Definition kind_ok (r : AccessRoute) (identity : DaemonIdentity) : bool :=
  if String.eqb r.(ar_Kind) RouteLocalUnix then
    negb (is_empty r.(ar_Socket)) && negb (hasSSHFields r || hasDirectFields r || hasManagedFields r || negb (is_empty r.(ar_CredentialRef)))
  else if String.eqb r.(ar_Kind) RouteSSHWebRTCTCP then
    negb (is_empty r.(ar_Host) || is_empty r.(ar_RemoteSignalingAddress) || is_empty r.(ar_RemoteICETCPAddress))
    && negb (negb (is_empty r.(ar_Socket)) || hasDirectFields r || hasManagedFields r)
  else if String.eqb r.(ar_Kind) RouteDirectWebRTCTCP then
    negb ((len r.(ar_SignalingAddresses) =? 0) || (len r.(ar_ICETCPAddresses) =? 0)) && identity_ok identity true
    && negb (negb (is_empty r.(ar_Socket)) || hasSSHFields r || hasManagedFields r)
  else if String.eqb r.(ar_Kind) RouteManagedWebRTC then
    negb (is_empty r.(ar_TargetDeviceID)) && identity_ok identity true && String.eqb r.(ar_TargetDeviceID) identity.(di_DeviceID)
    && one_of r.(ar_RelayMode) [RelayAuto; RelayDirect; RelayOnly; RelaySmart]
    && one_of r.(ar_RelayTransport) [""; RelayTransportAuto; RelayTransportUDP; RelayTransportTCP]
    && negb (negb (is_empty r.(ar_Socket)) || hasSSHFields r || hasDirectFields r)
  else false.

(** [AccessRoute.Validate] returns nil; every error is a [config_invalid]. *)
Definition route_valid (r : AccessRoute) (identity : DaemonIdentity) : bool :=
  identifier_ok r.(ar_ID)
  && String.eqb (TrimSpace r.(ar_DisplayName)) r.(ar_DisplayName) && (byte_len r.(ar_DisplayName) <=? 128)
  && match r.(ar_Priority) with Some p => (0 <=? p) && (p <=? 2147483647) | None => true end
  && forallb (λ v, canonical_text v false)
       [r.(ar_CredentialRef); r.(ar_SSHCredentialRef); r.(ar_Socket); r.(ar_Host); r.(ar_User); r.(ar_ProxyJump); r.(ar_RemoteSignalingAddress);
        r.(ar_RemoteICETCPAddress); r.(ar_ServerName); r.(ar_TargetDeviceID); r.(ar_AccountProfileRef)]
  && canonical_list r.(ar_HostKeyFingerprints) false
  && canonical_list r.(ar_SignalingAddresses) (String.eqb r.(ar_Kind) RouteDirectWebRTCTCP)
  && canonical_list r.(ar_ICETCPAddresses) (String.eqb r.(ar_Kind) RouteDirectWebRTCTCP)
  && canonical_list r.(ar_AdvertisedAddresses) false
  && match r.(ar_CredentialDescriptor) with Some d => String.eqb r.(ar_Kind) RouteSSHWebRTCTCP && descriptor_ok d | None => true end
  && validSource r.(ar_Source) && validSource r.(ar_PolicySource)
  && kind_ok r identity.

(** The order [sort.Strings] sorts by. *)
Definition string_before (a b : string) : Prop := string_le a b = true.
#[export] Instance string_before_dec : RelDecision string_before.
Proof. intros a b. unfold string_before. apply _. Defined.
Definition normalizeStrings (values : list string) : list string := merge_sort string_before values.

Definition or_default (value default : string) : string := if is_empty value then default else value.
Definition route_withDefaults (r : AccessRoute) : AccessRoute :=
  let r := r <| ar_ID := normalizeRouteID r.(ar_ID) |> in
  let r := r <| ar_Source := or_default r.(ar_Source) SourceManual |> in
  let r := r <| ar_PolicySource := or_default r.(ar_PolicySource) r.(ar_Source) |> in
  let r :=
    if String.eqb r.(ar_Kind) RouteLocalUnix then r <| ar_Socket := or_default r.(ar_Socket) "auto" |>
    else if String.eqb r.(ar_Kind) RouteSSHWebRTCTCP then (if r.(ar_Port) =? 0 then r <| ar_Port := 22 |> else r)
    else if String.eqb r.(ar_Kind) RouteManagedWebRTC then
      r <| ar_RelayMode := or_default r.(ar_RelayMode) RelayAuto |> <| ar_RelayTransport := or_default r.(ar_RelayTransport) RelayTransportAuto |>
    else r in
  r <| ar_HostKeyFingerprints := normalizeStrings r.(ar_HostKeyFingerprints) |>
    <| ar_SignalingAddresses := normalizeStrings r.(ar_SignalingAddresses) |>
    <| ar_ICETCPAddresses := normalizeStrings r.(ar_ICETCPAddresses) |>
    <| ar_AdvertisedAddresses := normalizeStrings r.(ar_AdvertisedAddresses) |>.

(** ** Endpoints *)
Definition hedge_ok (p : SelectionPolicy) : bool :=
  if p.(sp_HedgeDelayConfigured)
  then (0 <=? p.(sp_HedgeDelay)) && (p.(sp_HedgeDelay) <=? 30 * nanos_per_second) && (Z.rem p.(sp_HedgeDelay) millisecond =? 0)
  else p.(sp_HedgeDelay) =? 0.
Definition preference_ok (p : SelectionPolicy) : bool :=
  one_of p.(sp_RoutePreference) [""; RoutePreferenceAuto; RoutePreferenceDirect; RoutePreferenceSSH; RoutePreferenceManagedCloud].

Definition automatic (r : AccessRoute) : bool := r.(ar_Enabled) && negb r.(ar_ManualOnly).
Definition prioritized (r : AccessRoute) : bool := if r.(ar_Priority) then true else false.
(** One turn of the loop over the routes. *)
Definition route_entry_ok (identity : DaemonIdentity) (kr : string * AccessRoute) : bool :=
  let key := normalizeRouteID kr.1 in
  let id := normalizeRouteID (or_default kr.2.(ar_ID) key) in
  negb (negb (is_empty key) && negb (String.eqb key id)) && route_valid (kr.2 <| ar_ID := id |>) identity.
(** [Endpoint.Validate] returns nil. *)
Definition endpoint_valid (e : Endpoint) : bool :=
  identifier_ok e.(ep_ID) && one_of e.(ep_ConnectMode) [ConnectAuto; ConnectOnDemand; ConnectManual]
  && hedge_ok e.(ep_SelectionPolicy) && preference_ok e.(ep_SelectionPolicy) && validSource e.(ep_LabelSource)
  && identity_ok e.(ep_DaemonIdentity) false && negb (bool_decide (e.(ep_Routes) = ∅))
  && forallb (route_entry_ok e.(ep_DaemonIdentity)) (map_to_list e.(ep_Routes))
  && (let routes := filter (λ r, automatic r = true) (map_to_list e.(ep_Routes)).*2 in
      negb (existsb prioritized routes && negb (forallb prioritized routes))).

(** One turn of the loop over the routes. *)
Definition default_route (routes : gmap string AccessRoute) (kr : string * AccessRoute) : gmap string AccessRoute :=
  let r := route_withDefaults (kr.2 <| ar_ID := or_default kr.2.(ar_ID) (normalizeRouteID kr.1) |>) in <[r.(ar_ID) := r]> routes.
Definition endpoint_withDefaults (e : Endpoint) : Endpoint :=
  let e := e <| ep_ID := normalizeEndpointID e.(ep_ID) |> in
  let e := if is_empty (TrimSpace e.(ep_Label)) then e <| ep_Label := e.(ep_ID) |> else e in
  let e := e <| ep_LabelSource := or_default e.(ep_LabelSource) SourceManual |> in
  let e := e <| ep_ConnectMode := or_default e.(ep_ConnectMode) (if String.eqb e.(ep_ID) DefaultEndpointID then ConnectAuto else ConnectOnDemand) |> in
  let routes := foldl default_route ∅ (map_to_list e.(ep_Routes)) in
  e <| ep_Routes := routes |>.

(** ** The registry *)

(** The identifiers of the routes, before the defaults. *)
Fixpoint route_keys_ok (seen : list string) (routes : list (string * AccessRoute)) : bool :=
  match routes with
  | [] => true
  | (key, r) :: routes =>
      let id := or_default r.(ar_ID) key in
      identifier_ok key && identifier_ok id && String.eqb (normalizeRouteID key) (normalizeRouteID id)
      && negb (one_of (normalizeRouteID id) seen) && route_keys_ok (normalizeRouteID id :: seen) routes
  end.

Record normalized := mkNormalized { nm_Endpoints : gmap string Endpoint; nm_deviceIDs : gmap string string; nm_fingerprints : gmap string string }.

(** One turn of the loop over the sorted keys. *)
Definition normalize_endpoint (registry : Registry) (n : normalized) (key : string) : result normalized :=
  match registry.(rg_Endpoints) !! key with
  | None => Ok n
  | Some e =>
      if negb (identifier_ok key) then Err ErrorConfig
      else
        let key := normalizeEndpointID key in
        if negb (is_empty e.(ep_ID)) && negb (identifier_ok e.(ep_ID)) then Err ErrorConfig
        else
          let e := e <| ep_ID := normalizeEndpointID (or_default e.(ep_ID) key) |> in
          if negb (String.eqb key e.(ep_ID)) then Err ErrorConfig
          else if negb (route_keys_ok [] (map_to_list e.(ep_Routes))) then Err ErrorConfig
          else
            let e := endpoint_withDefaults e in
            if negb (endpoint_valid e) then Err ErrorConfig
            else if bool_decide (is_Some (n.(nm_Endpoints) !! e.(ep_ID))) then Err ErrorConfig
            else
              let i := e.(ep_DaemonIdentity) in
              if identity_Empty i then Ok (mkNormalized (<[e.(ep_ID) := e]> n.(nm_Endpoints)) n.(nm_deviceIDs) n.(nm_fingerprints))
              else if bool_decide (is_Some (n.(nm_deviceIDs) !! i.(di_DeviceID))) then Err ErrorIdentityConflict
              else if bool_decide (is_Some (n.(nm_fingerprints) !! i.(di_DeviceFingerprint))) then Err ErrorIdentityConflict
              else Ok (mkNormalized (<[e.(ep_ID) := e]> n.(nm_Endpoints)) (<[i.(di_DeviceID) := e.(ep_ID)]> n.(nm_deviceIDs))
                         (<[i.(di_DeviceFingerprint) := e.(ep_ID)]> n.(nm_fingerprints)))
  end.
Fixpoint normalize_endpoints (registry : Registry) (n : normalized) (keys : list string) : result normalized :=
  match keys with
  | [] => Ok n
  | key :: keys => let? n := normalize_endpoint registry n key in normalize_endpoints registry n keys
  end.
Definition sorted_keys {A} (m : gmap string A) : list string := merge_sort string_before (map_to_list m).*1.

Definition Normalize (registry : Registry) : result Registry :=
  let version := if registry.(rg_Version) =? 0 then RegistryVersion else registry.(rg_Version) in
  if negb (version =? RegistryVersion) then Err ErrorUnsupportedVersion
  else if bool_decide (registry.(rg_Endpoints) = ∅) then
    if negb (is_empty (normalizeEndpointID registry.(rg_Default))) then Err ErrorConfig else Ok (mkRegistry RegistryVersion "" ∅)
  else
    let? n := normalize_endpoints registry (mkNormalized ∅ ∅ ∅) (sorted_keys registry.(rg_Endpoints)) in
    let default := normalizeEndpointID registry.(rg_Default) in
    if is_empty default then Err ErrorConfig
    else match n.(nm_Endpoints) !! default with
         | None => Err ErrorConfig
         | Some e => if negb e.(ep_Enabled) then Err ErrorConfig else Ok (mkRegistry RegistryVersion default n.(nm_Endpoints))
         end.

Definition sorted_values {A} (m : gmap string A) : list A := omap (λ key, m !! key) (sorted_keys m).
Definition List (registry : Registry) : list Endpoint := sorted_values registry.(rg_Endpoints).
Definition RouteList (e : Endpoint) : list AccessRoute := sorted_values e.(ep_Routes).
Definition DefaultEndpoint (registry : Registry) : option Endpoint := registry.(rg_Endpoints) !! registry.(rg_Default).
Definition Route_ (e : Endpoint) (id : string) : option AccessRoute := e.(ep_Routes) !! normalizeRouteID id.

(** ** Constructors *)
Definition no_identity : DaemonIdentity := mkDaemonIdentity "" "".
Definition no_policy : SelectionPolicy := mkSelectionPolicy 0 false "".
(** [hostname] is what [os.Hostname] gives. *)
Definition DefaultRegistry (hostname : option string) : Registry :=
  let label := match hostname with Some h => if is_empty (TrimSpace h) then "local" else TrimSpace h | None => "local" end in
  let route := (blank_route DefaultLocalRouteID RouteLocalUnix SourceLocal SourceLocal) <| ar_Socket := "auto" |> in
  let e := mkEndpoint DefaultEndpointID label SourceLocal no_identity ConnectAuto true no_policy {[DefaultLocalRouteID := route]} in
  mkRegistry RegistryVersion DefaultEndpointID {[DefaultEndpointID := e]}.
Definition NewLocalEndpoint (id label socket mode : string) : Endpoint :=
  mkEndpoint (or_default id DefaultEndpointID) label SourceManual no_identity mode true no_policy
    {["local" := (blank_route "local" RouteLocalUnix SourceManual SourceManual) <| ar_Socket := socket |>]}.
Definition NewSSHEndpoint (id label host sshCredentialRef remoteSignalingAddress remoteICETCPAddress mode : string) : Endpoint :=
  mkEndpoint id label SourceManual no_identity mode true no_policy
    {["ssh" := (blank_route "ssh" RouteSSHWebRTCTCP SourceManual SourceManual) <| ar_Host := host |> <| ar_SSHCredentialRef := sshCredentialRef |>
                 <| ar_RemoteSignalingAddress := remoteSignalingAddress |> <| ar_RemoteICETCPAddress := remoteICETCPAddress |>]}.
Definition NewManagedEndpoint (id label : string) (identity : DaemonIdentity) (targetDeviceID credentialRef relayMode mode : string) : Endpoint :=
  mkEndpoint id label SourceCloud identity mode true no_policy
    {["cloud" := (blank_route "cloud" RouteManagedWebRTC SourceCloud SourceLocal) <| ar_TargetDeviceID := targetDeviceID |>
                   <| ar_CredentialRef := credentialRef |> <| ar_RelayMode := relayMode |>]}.

(** ** Comparing with the next version *)
Record DialIdentity_ := mkDialIdentity {
  dl_Kind : string; dl_texts : list string; dl_Port : Z; dl_CredentialDescriptor : string; dl_lists : list string; dl_RelayMode : string }.
#[export] Instance DialIdentity_eq_dec : EqDecision DialIdentity_.
Proof. solve_decision. Defined.
Definition nul_text : string := String "000"%char "".
(** The texts are the credential references, socket, host, user, proxy jump, remote addresses, server name, target device
    and account profile; the lists the host keys and the signaling, ICE-TCP and advertised addresses. *)
Definition DialIdentity (r : AccessRoute) : DialIdentity_ :=
  mkDialIdentity r.(ar_Kind)
    (TrimSpace <$> [r.(ar_CredentialRef); r.(ar_SSHCredentialRef); r.(ar_Socket); r.(ar_Host); r.(ar_User); r.(ar_ProxyJump); r.(ar_RemoteSignalingAddress);
                    r.(ar_RemoteICETCPAddress); r.(ar_ServerName); r.(ar_TargetDeviceID); r.(ar_AccountProfileRef)])
    r.(ar_Port)
    (match r.(ar_CredentialDescriptor) with Some d => d.(cd_DescriptorID) +:+ nul_text +:+ d.(cd_Kind) | None => "" end)
    ((λ l : list string, GoText.Join (merge_sort string_before l) nul_text) <$> [r.(ar_HostKeyFingerprints); r.(ar_SignalingAddresses); r.(ar_ICETCPAddresses); r.(ar_AdvertisedAddresses)])
    r.(ar_RelayMode).
Definition RequiresReconnect (e next : Endpoint) : bool :=
  negb (bool_decide (e.(ep_DaemonIdentity) = next.(ep_DaemonIdentity))) || negb (Nat.eqb (size e.(ep_Routes)) (size next.(ep_Routes)))
  || existsb (λ kr : string * AccessRoute,
        match next.(ep_Routes) !! kr.1 with Some r => negb (bool_decide (DialIdentity kr.2 = DialIdentity r)) | None => true end) (map_to_list e.(ep_Routes)).
Definition DisplayChanged (e next : Endpoint) : bool := negb (String.eqb (TrimSpace e.(ep_Label)) (TrimSpace next.(ep_Label))).

(** ** Facts *)
Lemma identifier_plain s : identifier_ok s = true → plain_text s ∧ s ≠ "".
Proof.
  unfold identifier_ok, validateIdentifier. destruct (String.eqb_spec s "") as [|Hne]; [done|]. destruct (_ >? _); [done|].
  destruct (forallb identifier_char (string_bytes s)) eqn:E; [|done]. intros _. split; [|done].
  apply Forall_forall. intros c Hc%list_elem_of_In. rewrite forallb_forall in E. specialize (E c Hc).
  unfold identifier_char, in_range in E. unfold plain.
  repeat (apply orb_true_iff in E as [E|E]); try (apply Ascii.eqb_eq in E; subst; vm_compute; by split); lia.
Qed.
Lemma identifier_trim s : identifier_ok s = true → TrimSpace s = s.
Proof. intros [Hp _]%identifier_plain. by apply TrimSpace_plain. Qed.

#[export] Instance string_before_trans : Transitive string_before.
Proof. intros a b c. apply string_le_trans. Qed.
#[export] Instance string_before_total : Total string_before.
Proof. intros a b. unfold string_before, string_le. destruct (String.leb_total a b); [by left|by right]. Qed.
#[export] Instance string_before_antisym : AntiSymm (=) string_before.
Proof. intros a b. apply String.leb_antisym. Qed.

Lemma normalizeStrings_idemp l : normalizeStrings (normalizeStrings l) = normalizeStrings l.
Proof.
  unfold normalizeStrings. apply (Sorted_unique string_before); [apply Sorted_merge_sort, _..|apply merge_sort_Permutation].
Qed.
Lemma len_normalizeStrings l : len (normalizeStrings l) = len l.
Proof. unfold len, normalizeStrings. by rewrite merge_sort_Permutation. Qed.

Section sorted_maps.
Context {A : Type}.
Implicit Types m : gmap string A.

Lemma sorted_keys_perm m : sorted_keys m ≡ₚ (map_to_list m).*1.
Proof. apply merge_sort_Permutation. Qed.
Lemma sorted_keys_NoDup m : NoDup (sorted_keys m).
Proof. rewrite sorted_keys_perm. apply NoDup_fst_map_to_list. Qed.
Lemma elem_of_sorted_keys m k : k ∈ sorted_keys m ↔ is_Some (m !! k).
Proof.
  rewrite sorted_keys_perm, list_elem_of_fmap. split.
  - intros ([k' x] & -> & Hx%elem_of_map_to_list). by exists x.
  - intros [x Hx]. exists (k, x). by rewrite elem_of_map_to_list.
Qed.
Lemma elem_of_sorted_values m x : x ∈ sorted_values m ↔ ∃ k, m !! k = Some x.
Proof.
  unfold sorted_values. rewrite list_elem_of_omap. split; [intros (k & _ & Hk); by exists k|].
  intros [k Hk]. exists k. split; [|done]. apply elem_of_sorted_keys. by exists x.
Qed.
Lemma sorted_values_keys (key : A → string) m :
  (∀ k x, m !! k = Some x → key x = k) → key <$> sorted_values m = sorted_keys m.
Proof.
  intros Hkey. unfold sorted_values. assert (Hin : ∀ k, k ∈ sorted_keys m → is_Some (m !! k)) by (intros k; apply elem_of_sorted_keys).
  induction (sorted_keys m) as [|k ks IH]; [done|]. cbn [omap list_omap].
  destruct (Hin k (list_elem_of_here _ _)) as [x Hx]. rewrite Hx. cbn [fmap list_fmap]. rewrite (Hkey _ _ Hx). f_equal. apply IH.
  intros k' Hk'. apply Hin. by right.
Qed.
Lemma sorted_keys_sorted m : Sorted string_before (sorted_keys m).
Proof. apply Sorted_merge_sort, _. Qed.
Lemma sorted_keys_proper m1 (m2 : gmap string A) : dom m1 = dom m2 → sorted_keys m1 = sorted_keys m2.
Proof.
  intros Hd. apply (Sorted_unique string_before); [apply sorted_keys_sorted..|]. apply NoDup_Permutation; [apply sorted_keys_NoDup..|].
  intros k. by rewrite !elem_of_sorted_keys, <- !elem_of_dom, Hd.
Qed.
End sorted_maps.

(** *** Defaults *)
Lemma or_default_idemp s d : or_default (or_default s d) d = or_default s d.
Proof. unfold or_default, is_empty. destruct (String.eqb_spec s "") as [->|]; [by destruct (String.eqb_spec d "")|]. by destruct (String.eqb_spec s ""). Qed.
Lemma or_default_set s d : s ≠ "" → or_default s d = s.
Proof. unfold or_default, is_empty. by destruct (String.eqb_spec s ""). Qed.
Lemma or_default_nonempty s d : d ≠ "" → or_default s d ≠ "".
Proof. unfold or_default, is_empty. by destruct (String.eqb_spec s ""). Qed.

(** The fields [withDefaults] gives. *)
Lemma route_withDefaults_eq r :
  let by_kind {A} (local ssh managed other : A) : A :=
    if String.eqb r.(ar_Kind) RouteLocalUnix then local else if String.eqb r.(ar_Kind) RouteSSHWebRTCTCP then ssh
    else if String.eqb r.(ar_Kind) RouteManagedWebRTC then managed else other in
  let socket := r.(ar_Socket) in let port := r.(ar_Port) in let mode := r.(ar_RelayMode) in let transport := r.(ar_RelayTransport) in
  let source := or_default r.(ar_Source) SourceManual in
  route_withDefaults r
  = mkAccessRoute (TrimSpace r.(ar_ID)) r.(ar_DisplayName) r.(ar_Kind) r.(ar_Enabled) r.(ar_ManualOnly) r.(ar_Priority) r.(ar_CredentialRef)
      r.(ar_SSHCredentialRef) source (or_default r.(ar_PolicySource) source)
      (by_kind (or_default socket "auto") socket socket socket) r.(ar_Host) (by_kind port (if port =? 0 then 22 else port) port port)
      r.(ar_User) r.(ar_ProxyJump) (normalizeStrings r.(ar_HostKeyFingerprints)) r.(ar_CredentialDescriptor) r.(ar_RemoteSignalingAddress)
      r.(ar_RemoteICETCPAddress) (normalizeStrings r.(ar_SignalingAddresses)) (normalizeStrings r.(ar_ICETCPAddresses))
      (normalizeStrings r.(ar_AdvertisedAddresses)) r.(ar_ServerName) r.(ar_TargetDeviceID) r.(ar_AccountProfileRef)
      (by_kind mode mode (or_default mode RelayAuto) mode) (by_kind transport transport (or_default transport RelayTransportAuto) transport).
Proof.
  destruct r. cbv -[normalizeStrings or_default TrimSpace Z.eqb String.eqb RouteLocalUnix RouteSSHWebRTCTCP RouteManagedWebRTC SourceManual RelayAuto RelayTransportAuto].
  destruct (String.eqb ar_Kind0 RouteLocalUnix); [done|]. destruct (String.eqb ar_Kind0 RouteSSHWebRTCTCP); [by destruct (ar_Port0 =? 0)|].
  by destruct (String.eqb ar_Kind0 RouteManagedWebRTC).
Qed.
Lemma route_withDefaults_idemp r : route_withDefaults (route_withDefaults r) = route_withDefaults r.
Proof.
  rewrite !route_withDefaults_eq. cbn -[normalizeStrings or_default TrimSpace Z.eqb String.eqb].
  destruct (String.eqb r.(ar_Kind) RouteLocalUnix); [|destruct (String.eqb r.(ar_Kind) RouteSSHWebRTCTCP);
    [|destruct (String.eqb r.(ar_Kind) RouteManagedWebRTC)]]; rewrite ?normalizeStrings_idemp, ?or_default_idemp, ?TrimSpace_idemp; try done.
  by destruct (r.(ar_Port) =? 0) eqn:E; rewrite ?E.
Qed.
Lemma route_withDefaults_ID r : (route_withDefaults r).(ar_ID) = normalizeRouteID r.(ar_ID).
Proof. by rewrite route_withDefaults_eq. Qed.

(** A route after [withDefaults], in the entry [key]. *)
Definition route_at (key : string) (r : AccessRoute) : AccessRoute := route_withDefaults (r <| ar_ID := key |>).

Lemma foldl_insert_lookup {A B} (g : string * A → B) (l : list (string * A)) (acc : gmap string B) k :
  NoDup l.*1 →
  foldl (λ m kr, <[kr.1 := g kr]> m) acc l !! k
  = match (list_to_map l : gmap string A) !! k with Some x => Some (g (k, x)) | None => acc !! k end.
Proof.
  revert acc. induction l as [|[k' x'] l IH]; intros acc Hnd; [done|]. cbn in Hnd. apply NoDup_cons in Hnd as [Hk' Hnd].
  cbn [foldl list_to_map fst foldr]. rewrite (IH _ Hnd). change (foldr _ ∅ l) with (list_to_map l : gmap string A).
  destruct (decide (k = k')) as [->|Hne].
  - rewrite lookup_insert_eq. rewrite not_elem_of_list_to_map_1 by done. cbn. by rewrite lookup_insert_eq.
  - cbn. rewrite lookup_insert_ne by done. by rewrite lookup_insert_ne by done.
Qed.

Definition entry_named (kr : string * AccessRoute) : Prop := identifier_ok kr.1 = true ∧ or_default kr.2.(ar_ID) kr.1 = kr.1.
Lemma route_keys_ok_named seen l : route_keys_ok seen l = true → Forall entry_named l.
Proof.
  revert seen. induction l as [|[k r] l IH]; intros seen; [by constructor|]. cbn [route_keys_ok].
  intros [[[[Hk Hid]%andb_true_iff Heq]%andb_true_iff _]%andb_true_iff Hl]%andb_true_iff. constructor; [|by eapply IH].
  split; [done|]. cbn. apply String.eqb_eq in Heq. unfold normalizeRouteID in Heq.
  by rewrite (identifier_trim _ Hk), (identifier_trim _ Hid) in Heq.
Qed.
Lemma named_route_keys_ok seen l :
  Forall entry_named l → NoDup l.*1 → (∀ k, k ∈ l.*1 → k ∉ seen) → route_keys_ok seen l = true.
Proof.
  intros Hl. revert seen. induction Hl as [|[k r] l [Hk Hid] Hl IH]; intros seen Hnd Hs; [done|]. cbn in *. apply NoDup_cons in Hnd as [Hk' Hnd].
  rewrite Hid, Hk. unfold normalizeRouteID. rewrite (identifier_trim _ Hk), String.eqb_refl. cbn.
  rewrite (IH (k :: seen)); [|done|].
  - rewrite andb_true_r. unfold one_of. apply negb_true_iff, not_true_is_false. intros (v & Hv%list_elem_of_In & ->%String.eqb_eq)%existsb_exists.
    by apply (Hs v (list_elem_of_here _ _)).
  - intros k2 H2 [->|H3]%elem_of_cons; [done|]. apply (Hs k2); [by right|done].
Qed.

Lemma withDefaults_lookup e k : route_keys_ok [] (map_to_list e.(ep_Routes)) = true →
  (endpoint_withDefaults e).(ep_Routes) !! k = route_at k <$> e.(ep_Routes) !! k.
Proof.
  intros Hok%route_keys_ok_named. assert (Hf : ∀ acc,
    foldl default_route acc (map_to_list e.(ep_Routes)) = foldl (λ m kr, <[kr.1 := route_at kr.1 kr.2]> m) acc (map_to_list e.(ep_Routes))).
  { induction Hok as [|[k' r'] l [Hk' Hid] _ IH]; intros acc; [done|]. cbn [foldl]. rewrite IH. f_equal. unfold default_route. cbn [fst snd] in *.
    unfold normalizeRouteID. rewrite (identifier_trim _ Hk'). rewrite Hid.
    fold (route_at k' r'). unfold route_at at 1. rewrite route_withDefaults_ID. unfold normalizeRouteID. change (ar_ID _) with k'. by rewrite (identifier_trim _ Hk'). }
  unfold endpoint_withDefaults. destruct (is_empty _); cbn [ep_Routes set_field]; rewrite Hf, (foldl_insert_lookup (λ kr, route_at kr.1 kr.2)) by apply NoDup_fst_map_to_list;
    rewrite list_to_map_to_list; cbn; by destruct (_ !! k).
Qed.

(** *** Normalizing an entry *)

(** An endpoint after [withDefaults], in the entry [key]. *)
Definition endpoint_at (key : string) (e : Endpoint) : Endpoint := endpoint_withDefaults (e <| ep_ID := key |>).
Definition entry_ok (key : string) (e : Endpoint) : Prop :=
  identifier_ok key = true ∧ or_default e.(ep_ID) key = key ∧ route_keys_ok [] (map_to_list e.(ep_Routes)) = true ∧ endpoint_valid (endpoint_at key e) = true.

Lemma endpoint_at_eq key e : identifier_ok key = true →
  endpoint_at key e
  = mkEndpoint key (if is_empty (TrimSpace e.(ep_Label)) then key else e.(ep_Label)) (or_default e.(ep_LabelSource) SourceManual) e.(ep_DaemonIdentity)
      (or_default e.(ep_ConnectMode) (if String.eqb key DefaultEndpointID then ConnectAuto else ConnectOnDemand)) e.(ep_Enabled) e.(ep_SelectionPolicy)
      (foldl default_route ∅ (map_to_list e.(ep_Routes))).
Proof.
  intros Hk. unfold endpoint_at, endpoint_withDefaults, normalizeEndpointID. cbn [ep_ID ep_Label set_field]. rewrite (identifier_trim _ Hk).
  by destruct (is_empty _).
Qed.
Lemma endpoint_at_fields key e : identifier_ok key = true →
  (endpoint_at key e).(ep_ID) = key ∧ (endpoint_at key e).(ep_DaemonIdentity) = e.(ep_DaemonIdentity)
  ∧ (endpoint_at key e).(ep_Enabled) = e.(ep_Enabled) ∧ (endpoint_at key e).(ep_SelectionPolicy) = e.(ep_SelectionPolicy).
Proof. intros Hk. by rewrite endpoint_at_eq. Qed.
Lemma route_at_idemp k r : identifier_ok k = true → route_at k (route_at k r) = route_at k r.
Proof.
  intros Hk. assert (E : (route_at k r) <| ar_ID := k |> = route_at k r).
  { assert (HI : (route_at k r).(ar_ID) = k).
    { unfold route_at. rewrite route_withDefaults_ID. unfold normalizeRouteID. cbn. by apply identifier_trim. }
    destruct (route_at k r) eqn:E. cbn in HI. subst. by unfold set_field. }
  unfold route_at at 1. rewrite E. apply route_withDefaults_idemp.
Qed.
Lemma route_keys_at e key : route_keys_ok [] (map_to_list e.(ep_Routes)) = true →
  route_keys_ok [] (map_to_list (endpoint_at key e).(ep_Routes)) = true.
Proof.
  intros Hok. pose proof (route_keys_ok_named _ _ Hok) as Hn. rewrite Forall_forall in Hn.
  apply named_route_keys_ok; [|apply NoDup_fst_map_to_list|intros ? _; apply not_elem_of_nil]. apply Forall_forall. intros [k r] Hr%elem_of_map_to_list.
  unfold endpoint_at in Hr. rewrite withDefaults_lookup in Hr by done. cbn in Hr. apply fmap_Some in Hr as (r0 & Hr0 & ->).
  destruct (Hn (k, r0)) as [Hk _]; [by apply elem_of_map_to_list|]. split; [done|]. cbn [fst snd] in *. unfold route_at.
  rewrite route_withDefaults_ID. unfold normalizeRouteID. change (ar_ID (r0 <| ar_ID := k |>)) with k. rewrite (identifier_trim _ Hk). apply or_default_set.
  by destruct (identifier_plain _ Hk).
Qed.
Lemma endpoint_at_idemp k e : identifier_ok k = true → route_keys_ok [] (map_to_list e.(ep_Routes)) = true →
  endpoint_at k (endpoint_at k e) = endpoint_at k e.
Proof.
  intros Hk Hok. assert (HR : (endpoint_at k (endpoint_at k e)).(ep_Routes) = (endpoint_at k e).(ep_Routes)).
  { apply map_eq. intros id. pose proof (route_keys_at e k Hok) as Hok'. unfold endpoint_at at 1. rewrite withDefaults_lookup by exact Hok'.
    cbn [ep_Routes set_field]. unfold endpoint_at. rewrite withDefaults_lookup by done. cbn. destruct (_ !! id) as [r|] eqn:Er; [|done]. cbn. f_equal.
    apply route_at_idemp. apply route_keys_ok_named in Hok. rewrite Forall_forall in Hok. by apply (Hok (id, r)), elem_of_map_to_list. }
  rewrite endpoint_at_eq in HR at 1 by done. rewrite (endpoint_at_eq k (endpoint_at k e)) by done.
  rewrite (endpoint_at_eq k e) in HR |- * by done. cbn [ep_Routes] in HR. cbn [ep_Label ep_LabelSource ep_DaemonIdentity ep_ConnectMode ep_Enabled ep_SelectionPolicy ep_Routes].
  rewrite HR, !or_default_idemp. destruct (is_empty (TrimSpace e.(ep_Label))) eqn:El; rewrite ?El; [|done]. by destruct (is_empty (TrimSpace k)).
Qed.

(** *** The loop over the entries *)
Definition pinned (e : Endpoint) : Prop := identity_Empty e.(ep_DaemonIdentity) = false.
(** No device and no fingerprint belongs to two endpoints. *)
Definition pinned_apart (m : gmap string Endpoint) : Prop :=
  ∀ k1 k2 e1 e2, m !! k1 = Some e1 → m !! k2 = Some e2 → pinned e1 → pinned e2 →
    e1.(ep_DaemonIdentity).(di_DeviceID) = e2.(ep_DaemonIdentity).(di_DeviceID)
    ∨ e1.(ep_DaemonIdentity).(di_DeviceFingerprint) = e2.(ep_DaemonIdentity).(di_DeviceFingerprint) → k1 = k2.
Definition index_of (part : DaemonIdentity → string) (m : gmap string Endpoint) (index : gmap string string) : Prop :=
  ∀ d k, index !! d = Some k ↔ ∃ e, m !! k = Some e ∧ pinned e ∧ part e.(ep_DaemonIdentity) = d.
Definition indexed (n : normalized) : Prop :=
  index_of di_DeviceID n.(nm_Endpoints) n.(nm_deviceIDs) ∧ index_of di_DeviceFingerprint n.(nm_Endpoints) n.(nm_fingerprints).
Definition normal_endpoints (m : gmap string Endpoint) : gmap string Endpoint := map_imap (λ key e, Some (endpoint_at key e)) m.

Lemma normal_endpoints_lookup m k : normal_endpoints m !! k = endpoint_at k <$> m !! k.
Proof. unfold normal_endpoints. rewrite map_lookup_imap. by destruct (m !! k). Qed.

Lemma indexed_apart n : indexed n → pinned_apart n.(nm_Endpoints).
Proof.
  intros [Hd Hf] k1 k2 e1 e2 H1 H2 P1 P2 [E|E].
  - pose proof (proj2 (Hd _ k1) (ex_intro _ e1 (conj H1 (conj P1 eq_refl)))) as A. rewrite E in A.
    pose proof (proj2 (Hd _ k2) (ex_intro _ e2 (conj H2 (conj P2 eq_refl)))) as B. congruence.
  - pose proof (proj2 (Hf _ k1) (ex_intro _ e1 (conj H1 (conj P1 eq_refl)))) as A. rewrite E in A.
    pose proof (proj2 (Hf _ k2) (ex_intro _ e2 (conj H2 (conj P2 eq_refl)))) as B. congruence.
Qed.

Lemma apart_same m1 m2 : (∀ k, ep_DaemonIdentity <$> m1 !! k = ep_DaemonIdentity <$> m2 !! k) → pinned_apart m1 → pinned_apart m2.
Proof.
  intros E H1 k1 k2 e1 e2 He1 He2 P1 P2 Hor. pose proof (E k1) as E1. pose proof (E k2) as E2. rewrite He1 in E1. rewrite He2 in E2.
  apply fmap_Some in E1 as (x1 & Hx1 & I1). apply fmap_Some in E2 as (x2 & Hx2 & I2). unfold pinned in *. rewrite I1 in P1, Hor. rewrite I2 in P2, Hor.
  by eapply H1.
Qed.

Lemma index_insert part m index key e : index_of part m index → m !! key = None → index !! part e.(ep_DaemonIdentity) = None → pinned e →
  index_of part (<[key := e]> m) (<[part e.(ep_DaemonIdentity) := key]> index).
Proof.
  unfold index_of. intros Hi Hk Hp He d k. destruct (decide (part e.(ep_DaemonIdentity) = d)) as [<-|Hne].
  - rewrite lookup_insert_eq. split.
    + intros [= <-]. exists e. by rewrite lookup_insert_eq.
    + intros (e' & He' & P & E). destruct (decide (key = k)) as [->|Hn]; [done|]. rewrite lookup_insert_ne in He' by done.
      assert (index !! part e.(ep_DaemonIdentity) = Some k) by (apply Hi; by exists e'). congruence.
  - rewrite lookup_insert_ne by done. rewrite Hi. split; intros (e' & He' & P & E); exists e'; (split; [|done]).
    + rewrite lookup_insert_ne; [done|]. intros ->. congruence.
    + destruct (decide (key = k)) as [->|Hn]; [|by rewrite lookup_insert_ne in He'].
      rewrite lookup_insert_eq in He'. injection He' as ->. done.
Qed.
Lemma index_insert_empty part m index key e : index_of part m index → m !! key = None → ¬ pinned e → index_of part (<[key := e]> m) index.
Proof.
  unfold index_of. intros Hi Hk He d k. rewrite Hi. split; intros (e' & He' & P & E); exists e'; (split; [|done]).
  - rewrite lookup_insert_ne; [done|]. intros ->. congruence.
  - destruct (decide (key = k)) as [->|Hn]; [|by rewrite lookup_insert_ne in He']. rewrite lookup_insert_eq in He'. by injection He' as ->.
Qed.

(** One turn of the loop on a key not seen yet. *)
Lemma normalize_endpoint_spec registry n key e n' :
  registry.(rg_Endpoints) !! key = Some e → n.(nm_Endpoints) !! key = None → indexed n → normalize_endpoint registry n key = Ok n' →
  entry_ok key e ∧ n'.(nm_Endpoints) = <[key := endpoint_at key e]> n.(nm_Endpoints) ∧ indexed n'.
Proof.
  intros He Hn [Hd Hf]. unfold normalize_endpoint. rewrite He. destruct (identifier_ok key) eqn:Hk; [|done]. cbn [negb]. unfold normalizeEndpointID.
  rewrite (identifier_trim _ Hk). destruct (negb (is_empty e.(ep_ID)) && _) eqn:Hid; [done|]. cbn [ep_ID set_field].
  destruct (String.eqb_spec key (TrimSpace (or_default e.(ep_ID) key))) as [Ekey|]; [|done]. cbn [negb]. rewrite <- Ekey.
  destruct (route_keys_ok _ _) eqn:Hr; [|done]. cbn [negb]. change (endpoint_withDefaults (e <| ep_ID := key |>)) with (endpoint_at key e).
  destruct (endpoint_valid (endpoint_at key e)) eqn:Hv; [|done]. cbn [negb].
  destruct (endpoint_at_fields key e Hk) as (EID & EI & _ & _). rewrite EID. case_bool_decide as Hs; [done|].
  assert (Hentry : entry_ok key e).
  { split_and!; try done. unfold or_default, is_empty in *. destruct (String.eqb_spec e.(ep_ID) ""); [done|]. cbn in Hid.
    apply negb_false_iff in Hid. by rewrite (identifier_trim _ Hid) in Ekey. }
  destruct (identity_Empty _) eqn:Ei.
  { intros [= <-]. split_and!; try done. split; apply index_insert_empty; try done; unfold pinned; congruence. }
  case_bool_decide as Hd'; [done|]. case_bool_decide as Hf'; [done|]. intros [= <-]. rewrite <- eq_None_not_Some in Hd', Hf'.
  split_and!; [done|done|]. split; [exact (index_insert di_DeviceID _ _ key _ Hd Hn Hd' Ei)|exact (index_insert di_DeviceFingerprint _ _ key _ Hf Hn Hf' Ei)].
Qed.

Lemma normalize_endpoint_total registry n key e :
  registry.(rg_Endpoints) !! key = Some e → n.(nm_Endpoints) !! key = None → indexed n → entry_ok key e →
  pinned_apart (<[key := endpoint_at key e]> n.(nm_Endpoints)) → ∃ n', normalize_endpoint registry n key = Ok n'.
Proof.
  intros He Hn [Hd Hf] (Hk & Hid & Hr & Hv) Hap. unfold normalize_endpoint. rewrite He, Hk. cbn [negb]. unfold normalizeEndpointID.
  rewrite (identifier_trim _ Hk). assert (Hid' : negb (is_empty e.(ep_ID)) && negb (identifier_ok e.(ep_ID)) = false).
  { unfold or_default in Hid. destruct (is_empty e.(ep_ID)); [done|]. by rewrite Hid, Hk. }
  rewrite Hid'. cbn [ep_ID set_field]. rewrite Hid, (identifier_trim _ Hk), String.eqb_refl. change (ep_Routes (e <| ep_ID := key |>)) with e.(ep_Routes). rewrite Hr. cbn [negb].
  change (endpoint_withDefaults (e <| ep_ID := key |>)) with (endpoint_at key e). rewrite Hv. cbn [negb].
  destruct (endpoint_at_fields key e Hk) as (EID & _ & _ & _). rewrite EID. rewrite bool_decide_eq_false_2 by (by rewrite Hn; intros []).
  destruct (identity_Empty _) eqn:Ei; [by eexists|].
  assert (Hfresh : ∀ part index, index_of part n.(nm_Endpoints) index → (part = di_DeviceID ∨ part = di_DeviceFingerprint) →
    ¬ is_Some (index !! part (endpoint_at key e).(ep_DaemonIdentity))).
  { intros part index Hi Hpart [k Hk2]. apply Hi in Hk2 as (e2 & H2 & P2 & E2). assert (k ≠ key) by congruence.
    destruct Hpart as [-> | ->]; [assert (key = k); [|done]..];
      (apply (Hap key k (endpoint_at key e) e2); [by rewrite lookup_insert_eq|by rewrite lookup_insert_ne|done|done|]); [by left|by right]. }
  rewrite !bool_decide_eq_false_2 by (eapply Hfresh; [done|by (left + right)]). by eexists.
Qed.

Lemma normalize_endpoints_sound registry ks n n' :
  NoDup ks → (∀ k, k ∈ ks → is_Some (registry.(rg_Endpoints) !! k)) → (∀ k, k ∈ ks → n.(nm_Endpoints) !! k = None) → indexed n →
  normalize_endpoints registry n ks = Ok n' →
  indexed n' ∧ (∀ k e, k ∈ ks → registry.(rg_Endpoints) !! k = Some e → entry_ok k e)
  ∧ (∀ k, n'.(nm_Endpoints) !! k = if decide (k ∈ ks) then normal_endpoints registry.(rg_Endpoints) !! k else n.(nm_Endpoints) !! k).
Proof.
  revert n. induction ks as [|key ks IH]; intros n Hnd Hin Hout Hi; cbn [normalize_endpoints].
  { intros [= <-]. split_and!; [done| |done]. by intros k e Hk%elem_of_nil. }
  apply NoDup_cons in Hnd as [Hkey Hnd]. destruct (Hin key (list_elem_of_here _ _)) as [e He].
  destruct (normalize_endpoint registry n key) as [n1|] eqn:E1; [|done]. cbn [result_bind]. intros Hrun.
  destruct (normalize_endpoint_spec _ _ _ _ _ He (Hout key (list_elem_of_here _ _)) Hi E1) as (Hok & En1 & Hi1).
  destruct (IH n1) as (Hi' & Hoks & Hlook); try done.
  { intros k Hk. apply Hin. by right. }
  { intros k Hk. rewrite En1, lookup_insert_ne; [apply Hout; by right|]. by intros ->. }
  split_and!; [done|..].
  - intros k e' [->|Hk]%elem_of_cons He'; [|by apply Hoks]. by rewrite He in He'; injection He' as <-.
  - intros k. rewrite Hlook, En1. destruct (decide (k = key)) as [->|Hne].
    + rewrite decide_False, decide_True by (done || left). by rewrite lookup_insert_eq, normal_endpoints_lookup, He.
    + rewrite lookup_insert_ne by done. destruct (decide (k ∈ ks)); [by rewrite decide_True by (by right)|].
      rewrite decide_False; [done|]. by intros [?|?]%elem_of_cons.
Qed.

Lemma apart_subset m1 m2 : m1 ⊆ m2 → pinned_apart m2 → pinned_apart m1.
Proof. intros Hs H2 k1 k2 e1 e2 H1 H1'. apply H2; by eapply lookup_weaken. Qed.

Lemma normalize_endpoints_total registry ks n :
  NoDup ks → (∀ k, k ∈ ks → ∃ e, registry.(rg_Endpoints) !! k = Some e ∧ entry_ok k e) → (∀ k, k ∈ ks → n.(nm_Endpoints) !! k = None) → indexed n →
  n.(nm_Endpoints) ⊆ normal_endpoints registry.(rg_Endpoints) → pinned_apart (normal_endpoints registry.(rg_Endpoints)) →
  ∃ n', normalize_endpoints registry n ks = Ok n'.
Proof.
  revert n. induction ks as [|key ks IH]; intros n Hnd Hin Hout Hi Hs Hap; cbn [normalize_endpoints]; [by eexists|].
  apply NoDup_cons in Hnd as [Hkey Hnd]. destruct (Hin key (list_elem_of_here _ _)) as (e & He & Hok).
  assert (Hs' : <[key := endpoint_at key e]> n.(nm_Endpoints) ⊆ normal_endpoints registry.(rg_Endpoints)).
  { apply insert_subseteq_l; [|done]. by rewrite normal_endpoints_lookup, He. }
  destruct (normalize_endpoint_total registry n key e) as [n1 E1]; try done; [by apply Hout; left|by eapply apart_subset|].
  rewrite E1. cbn [result_bind].
  destruct (normalize_endpoint_spec _ _ _ _ _ He (Hout key (list_elem_of_here _ _)) Hi E1) as (_ & En1 & Hi1).
  apply IH; try done; [|rewrite En1..]; [intros k Hk; apply Hin; by right| |done].
  intros k Hk. rewrite lookup_insert_ne; [apply Hout; by right|]. by intros ->.
Qed.

(** *** [Normalize] *)
Definition registry_ok (registry : Registry) : Prop :=
  (∀ k e, registry.(rg_Endpoints) !! k = Some e → entry_ok k e) ∧ pinned_apart (normal_endpoints registry.(rg_Endpoints)).
Definition version_ok (version : Z) : Prop := version = 0 ∨ version = RegistryVersion.
Definition enabled_at (m : gmap string Endpoint) (id : string) : Prop := ∃ e, m !! id = Some e ∧ e.(ep_Enabled) = true.

Lemma indexed_empty : indexed (mkNormalized ∅ ∅ ∅).
Proof. split; intros d k; split; [done|by intros (? & ? & _)|done|by intros (? & ? & _)]. Qed.

Lemma normal_endpoints_run registry n :
  normalize_endpoints registry (mkNormalized ∅ ∅ ∅) (sorted_keys registry.(rg_Endpoints)) = Ok n →
  registry_ok registry ∧ n.(nm_Endpoints) = normal_endpoints registry.(rg_Endpoints).
Proof.
  intros Hrun. apply normalize_endpoints_sound in Hrun as (Hi & Hoks & Hlook);
    [|apply sorted_keys_NoDup|intros k; apply elem_of_sorted_keys|done|apply indexed_empty].
  assert (E : n.(nm_Endpoints) = normal_endpoints registry.(rg_Endpoints)).
  { apply map_eq. intros k. rewrite Hlook. case_decide as Hk; [done|]. rewrite elem_of_sorted_keys in Hk. apply eq_None_not_Some in Hk.
    by rewrite normal_endpoints_lookup, Hk. }
  split; [|done]. split; [|rewrite <- E; by apply indexed_apart].
  intros k e He. apply Hoks; [|done]. apply elem_of_sorted_keys. by exists e.
Qed.
Lemma registry_ok_run registry : registry_ok registry →
  ∃ n, normalize_endpoints registry (mkNormalized ∅ ∅ ∅) (sorted_keys registry.(rg_Endpoints)) = Ok n
    ∧ n.(nm_Endpoints) = normal_endpoints registry.(rg_Endpoints).
Proof.
  intros [Hoks Hap]. destruct (normalize_endpoints_total registry (sorted_keys registry.(rg_Endpoints)) (mkNormalized ∅ ∅ ∅)) as [n Hn];
    [apply sorted_keys_NoDup| |done|apply indexed_empty|apply map_empty_subseteq|done|].
  { intros k [e He]%elem_of_sorted_keys. exists e. split; [done|]. by apply Hoks. }
  exists n. split; [done|]. by apply normal_endpoints_run.
Qed.

(** When [Normalize] succeeds and what it returns. *)
Lemma Normalize_spec registry out : Normalize registry = Ok out ↔
  version_ok registry.(rg_Version) ∧
  ((registry.(rg_Endpoints) = ∅ ∧ normalizeEndpointID registry.(rg_Default) = "" ∧ out = mkRegistry RegistryVersion "" ∅)
   ∨ (registry.(rg_Endpoints) ≠ ∅ ∧ registry_ok registry ∧ normalizeEndpointID registry.(rg_Default) ≠ ""
      ∧ enabled_at (normal_endpoints registry.(rg_Endpoints)) (normalizeEndpointID registry.(rg_Default))
      ∧ out = mkRegistry RegistryVersion (normalizeEndpointID registry.(rg_Default)) (normal_endpoints registry.(rg_Endpoints)))).
Proof.
  unfold Normalize, version_ok. set (v := if _ =? 0 then _ else _).
  assert (Hv : v =? RegistryVersion = true ↔ registry.(rg_Version) = 0 ∨ registry.(rg_Version) = RegistryVersion).
  { unfold v. destruct (Z.eqb_spec registry.(rg_Version) 0) as [->|]; [by split; [left|]|]. rewrite Z.eqb_eq. split; [by right|by intros [|]]. }
  destruct (v =? RegistryVersion); [|by split; [|intros [H _]; apply Hv in H]]. cbn [negb]. rewrite <- Hv. clear Hv v.
  unfold is_empty. case_bool_decide as He.
  { destruct (String.eqb_spec (normalizeEndpointID registry.(rg_Default)) "") as [Ed|Ed]; cbn [negb].
    - split; [intros [= <-]; split; [done|by left]|]. by intros [_ [(_ & _ & ->)|[? _]]].
    - split; [done|]. by intros [_ [(_ & ? & _)|[? _]]]. }
  split.
  - destruct (normalize_endpoints _ _ _) as [n|] eqn:En; [|done]. cbn [result_bind]. apply normal_endpoints_run in En as [Hok E].
    destruct (String.eqb_spec (normalizeEndpointID registry.(rg_Default)) "") as [Ed|Ed]; [done|]. rewrite E.
    destruct (_ !! _) as [e|] eqn:Ee; [|done]. destruct (ep_Enabled e) eqn:Een; [|done]. intros [= <-]. split; [done|right].
    split_and!; try done. by exists e.
  - intros [_ [[? _]|(_ & Hok & Hd & (e & Ee & Een) & ->)]]; [done|]. destruct (registry_ok_run _ Hok) as (n & -> & E). cbn [result_bind]. rewrite E.
    destruct (String.eqb_spec (normalizeEndpointID registry.(rg_Default)) ""); [done|]. by rewrite Ee, Een.
Qed.

Record canonical_endpoint (k : string) (e : Endpoint) : Prop := {
  ce_key : identifier_ok k = true;
  ce_id : e.(ep_ID) = k;
  ce_valid : endpoint_valid e = true;
  ce_defaults : endpoint_at k e = e;
  ce_entry : entry_ok k e;
  ce_routes id r : e.(ep_Routes) !! id = Some r → identifier_ok id = true ∧ r.(ar_ID) = id ∧ route_withDefaults r = r }.

Lemma entry_canonical k e : entry_ok k e → canonical_endpoint k (endpoint_at k e).
Proof.
  intros (Hk & Hid & Hr & Hv). destruct (endpoint_at_fields k e Hk) as (EID & _). split; try done.
  - by apply endpoint_at_idemp.
  - split_and!; [done| |by apply route_keys_at|by rewrite endpoint_at_idemp]. rewrite EID. apply or_default_set. by destruct (identifier_plain _ Hk).
  - intros id r. unfold endpoint_at. rewrite withDefaults_lookup by done. change (ep_Routes (e <| ep_ID := k |>)) with e.(ep_Routes).
    intros (r0 & Hr0 & ->)%fmap_Some. apply route_keys_ok_named in Hr. rewrite Forall_forall in Hr.
    destruct (Hr (id, r0)) as [Hid' _]; [by apply elem_of_map_to_list|]. cbn [fst] in Hid'. split_and!; [done|..].
    + unfold route_at. rewrite route_withDefaults_ID. unfold normalizeRouteID. change (ar_ID (r0 <| ar_ID := id |>)) with id. by apply identifier_trim.
    + apply route_withDefaults_idemp.
Qed.

Lemma registry_ok_canonical registry : registry_ok registry →
  map_Forall canonical_endpoint (normal_endpoints registry.(rg_Endpoints)) ∧ pinned_apart (normal_endpoints registry.(rg_Endpoints)).
Proof.
  intros [Hoks Hap]. split; [|done]. intros k e. rewrite normal_endpoints_lookup. intros (e0 & He0 & ->)%fmap_Some. by apply entry_canonical, Hoks.
Qed.
Lemma canonical_normal m : map_Forall canonical_endpoint m → normal_endpoints m = m.
Proof.
  intros Hc. apply map_eq. intros k. rewrite normal_endpoints_lookup. destruct (m !! k) as [e|] eqn:He; [|done]. cbn. f_equal. by apply ce_defaults, Hc.
Qed.

(** What a normalized registry is. *)
Record canonical_registry (r : Registry) : Prop := {
  cr_version : r.(rg_Version) = RegistryVersion;
  cr_endpoints : map_Forall canonical_endpoint r.(rg_Endpoints);
  cr_apart : pinned_apart r.(rg_Endpoints);
  cr_default : if decide (r.(rg_Endpoints) = ∅) then r.(rg_Default) = "" else enabled_at r.(rg_Endpoints) r.(rg_Default) }.

Lemma canonical_default r : canonical_registry r → normalizeEndpointID r.(rg_Default) = r.(rg_Default).
Proof.
  intros [_ Hc _ Hd]. case_decide as E; [by rewrite Hd|]. destruct Hd as (e & He & _). apply identifier_trim. by apply (ce_key _ _ (Hc _ _ He)).
Qed.
Lemma normalize_sound registry out : Normalize registry = Ok out →
  canonical_registry out ∧ out.(rg_Endpoints) = normal_endpoints registry.(rg_Endpoints) ∧ out.(rg_Default) = normalizeEndpointID registry.(rg_Default).
Proof.
  rewrite Normalize_spec. intros [_ [(He & Hd & ->)|(He & Hok & Hd & Hen & ->)]].
  { rewrite He, Hd. split_and!; [|done|done]. split; [done|done|by intros ????|]. by rewrite decide_True. }
  destruct (registry_ok_canonical _ Hok) as [Hc Hap]. split_and!; [|done|done]. split; try done.
  rewrite decide_False; [done|]. cbn [rg_Endpoints]. intros E. destruct Hen as (e & He' & _). by rewrite E, lookup_empty in He'.
Qed.
Lemma canonical_normalize r : canonical_registry r → Normalize r = Ok r.
Proof.
  intros Hr. pose proof (canonical_default _ Hr) as Ed. destruct Hr as [Hv Hc Hap Hd]. apply Normalize_spec. split; [by right|].
  case_decide as E.
  - left. rewrite Ed. split_and!; [done|done|]. destruct r. cbn in *. by subst.
  - right. rewrite Ed, (canonical_normal _ Hc). destruct Hd as (e & He & Hen). pose proof (Hc _ _ He) as Hce. split_and!; [done|..].
    + split; [|by rewrite canonical_normal]. intros k' e' He'. by apply ce_entry, Hc.
    + by destruct (identifier_plain _ (ce_key _ _ Hce)).
    + by exists e.
    + destruct r. cbn in *. by subst.
Qed.
