(* ===== verification/EndpointPlanner.v ===== *)
(** * Planning the routes to an endpoint

    The planner of [client/endpoint/planner.go] turns the routes of an endpoint into groups of attempts; [policy.go]
    edits the registry and tells which routes could be planned. *)
From S2P Require Import Prelude GoStd GoText RemoteGrant EndpointContracts EndpointRegistry.
From Stdlib Require Import Ascii String.
From stdpp Require Import pretty.
Local Open Scope string_scope.
Local Open Scope Z_scope.
Local Open Scope bool_scope.

(** ** Data *)
Record ConnectIntent := mkIntent { ci_Kind : string; ci_TerminalID : string; ci_RequiredScopes : list string }.
(** The routes of a session are attempted under one generation, a [uint64]. *)
Record RouteAttempt := mkAttempt {
  ra_AttemptID : string; ra_EndpointID : string; ra_ExpectedIdentity : DaemonIdentity; ra_Route : AccessRoute; ra_Intent : ConnectIntent; ra_Generation : Z }.
Record RouteAttemptGroup := mkAttemptGroup { ag_priority : option Z; ag_startDelay : Z; ag_attempts : list RouteAttempt }.

Inductive RoutePlanDiagnosticReason :=
  RoutePlanRouteDisabled | RoutePlanManualOnly | RoutePlanPlatformUnsupported | RoutePlanCredentialUnavailable | RoutePlanPreferenceMismatch.
Record RoutePlanDiagnostic := mkDiagnostic { pd_RouteID : string; pd_Code : goerr; pd_Reason : RoutePlanDiagnosticReason }.
Record RouteSelectionPlan := mkPlan {
  pl_endpointID : string; pl_generation : Z; pl_groups : list RouteAttemptGroup; pl_diagnostics : list RoutePlanDiagnostic }.
Record RouteSelectionRequest := mkRequest {
  rr_Endpoint : Endpoint; rr_Intent : ConnectIntent; rr_RouteOverride : string; rr_Generation : Z; rr_SupportedRouteKinds : list string;
  rr_AvailableCredentialRefs : list string }.

(** ** Filters *)
Definition route_kinds : list string := [RouteLocalUnix; RouteSSHWebRTCTCP; RouteManagedWebRTC; RouteDirectWebRTCTCP].
Definition planned_kind (kind : string) : bool := one_of kind [RouteLocalUnix; RouteDirectWebRTCTCP; RouteSSHWebRTCTCP; RouteManagedWebRTC].

Definition routeKindSet (values : list string) : result (gset string) :=
  if forallb (λ v, one_of v route_kinds) values then Ok (list_to_set values) else Err ErrorConfig.
Definition credential_ref_ok (value : string) : bool :=
  negb (is_empty (TrimSpace value)) && String.eqb (TrimSpace value) value
  && forallb (λ c, negb ((byte_of c =? 13) || (byte_of c =? 10))) (string_bytes value).
Definition credentialRefSet (values : list string) : result (gset string) :=
  if forallb credential_ref_ok values then Ok (list_to_set values) else Err ErrorConfig.

Definition routeMatchesPreference (kind preference : string) : bool :=
  if one_of preference [""; RoutePreferenceAuto] then true
  else if String.eqb preference RoutePreferenceDirect then String.eqb kind RouteDirectWebRTCTCP
  else if String.eqb preference RoutePreferenceSSH then String.eqb kind RouteSSHWebRTCTCP
  else if String.eqb preference RoutePreferenceManagedCloud then String.eqb kind RouteManagedWebRTC
  else false.

Fixpoint missing_ref (credentials : gset string) (references : list string) : string :=
  match references with
  | [] => ""
  | reference :: references =>
      if is_empty reference then missing_ref credentials references
      else if decide (reference ∈ credentials) then missing_ref credentials references else reference
  end.
Definition missingRouteCredential (r : AccessRoute) (credentials : gset string) : string :=
  missing_ref credentials [r.(ar_CredentialRef); r.(ar_SSHCredentialRef)].
Definition validatePlannedRoute (r : AccessRoute) (supported credentials : gset string) : option goerr :=
  if negb (bool_decide (r.(ar_Kind) ∈ supported)) then Some ErrorRouteUnavailable
  else if negb (planned_kind r.(ar_Kind)) then Some ErrorRouteUnavailable
  else if negb (is_empty (missingRouteCredential r credentials)) then Some ErrorCredentialRequired
  else None.

(** ** Groups *)
Record routeGroup := mkGroup { gr_priority : option Z; gr_routes : list AccessRoute }.

(** The values of [priorities] and [byPriority] after the loop; nobody reads the priority of a route without one. *)
Definition priority_of (r : AccessRoute) : Z := default 0 r.(ar_Priority).
Fixpoint collect_priorities (seen : list Z) (routes : list AccessRoute) : list Z :=
  match routes with
  | [] => seen
  | r :: routes => collect_priorities (if decide (priority_of r ∈ seen) then seen else (seen ++ [priority_of r])%list) routes
  end.
Definition groupAutomaticRoutes (routes : list AccessRoute) : list routeGroup :=
  match routes with
  | [] => []
  | first :: _ =>
      match first.(ar_Priority) with
      | None => [mkGroup None routes]
      | Some _ =>
          (λ p, mkGroup (Some p) (filter (λ r, priority_of r = p) routes)) <$> merge_sort Z.le (collect_priorities [] routes)
      end
  end.

Definition attempt_id (endpoint : string) (generation : Z) (route : string) : string := endpoint +:+ ":" +:+ pretty generation +:+ ":" +:+ route.
Definition new_attempt (target : Endpoint) (intent : ConnectIntent) (generation : Z) (r : AccessRoute) : RouteAttempt :=
  mkAttempt (attempt_id target.(ep_ID) generation r.(ar_ID)) target.(ep_ID) target.(ep_DaemonIdentity) r intent generation.
(** The delays are [time.Duration]s. *)
Definition newRouteSelectionPlan (target : Endpoint) (intent : ConnectIntent) (generation : Z) (groups : list routeGroup) (hedgeDelay : Z)
    (diagnostics : list RoutePlanDiagnostic) : RouteSelectionPlan :=
  mkPlan target.(ep_ID) generation
    (imap (λ i g, mkAttemptGroup g.(gr_priority) (i64 (Z.of_nat i * hedgeDelay)) (new_attempt target intent generation <$> g.(gr_routes))) groups)
    diagnostics.

(** ** The plan *)

(** One turn of the loop: [None] adds the route to [automatic]. *)
Definition route_diagnostic (preference : string) (supported credentials : gset string) (r : AccessRoute) : option RoutePlanDiagnostic :=
  if negb r.(ar_Enabled) then Some (mkDiagnostic r.(ar_ID) ErrorRouteUnavailable RoutePlanRouteDisabled)
  else if r.(ar_ManualOnly) then Some (mkDiagnostic r.(ar_ID) ErrorRouteUnavailable RoutePlanManualOnly)
  else if negb (routeMatchesPreference r.(ar_Kind) preference) then Some (mkDiagnostic r.(ar_ID) ErrorRouteUnavailable RoutePlanPreferenceMismatch)
  else if negb (bool_decide (r.(ar_Kind) ∈ supported)) then Some (mkDiagnostic r.(ar_ID) ErrorRouteUnavailable RoutePlanPlatformUnsupported)
  else if negb (is_empty (missingRouteCredential r credentials)) then
    Some (mkDiagnostic r.(ar_ID) ErrorCredentialRequired RoutePlanCredentialUnavailable)
  else if planned_kind r.(ar_Kind) then None
  else Some (mkDiagnostic r.(ar_ID) ErrorRouteUnavailable RoutePlanPlatformUnsupported).
Fixpoint select_routes (diagnose : AccessRoute → option RoutePlanDiagnostic) (routes : list AccessRoute) : list AccessRoute * list RoutePlanDiagnostic :=
  match routes with
  | [] => ([], [])
  | r :: routes =>
      let '(automatic, diagnostics) := select_routes diagnose routes in
      match diagnose r with Some d => (automatic, d :: diagnostics) | None => (r :: automatic, diagnostics) end
  end.
Definition credential_blocked (d : RoutePlanDiagnostic) : bool :=
  match d.(pd_Reason) with RoutePlanCredentialUnavailable => true | _ => false end.
Definition diagnostic_before (a b : RoutePlanDiagnostic) : Prop := string_le a.(pd_RouteID) b.(pd_RouteID) = true.
#[export] Instance diagnostic_before_dec : RelDecision diagnostic_before.
Proof. intros a b. unfold diagnostic_before. apply _. Defined.

Definition Plan (request : RouteSelectionRequest) : result RouteSelectionPlan :=
  let target := request.(rr_Endpoint) in
  if negb (endpoint_valid target) then Err ErrorConfig
  else if negb target.(ep_Enabled) then Err ErrorRouteUnavailable
  else if request.(rr_Generation) =? 0 then Err ErrorConfig
  else if is_empty (TrimSpace request.(rr_Intent).(ci_Kind)) then Err ErrorConfig
  else
    let? supported := routeKindSet request.(rr_SupportedRouteKinds) in
    let? credentials := credentialRefSet request.(rr_AvailableCredentialRefs) in
    if negb (is_empty request.(rr_RouteOverride)) then
      match Route_ target request.(rr_RouteOverride) with
      | None => Err ErrorRouteUnavailable
      | Some r =>
          if negb r.(ar_Enabled) then Err ErrorRouteUnavailable
          else match validatePlannedRoute r supported credentials with
               | Some err => Err err
               | None => Ok (newRouteSelectionPlan target request.(rr_Intent) request.(rr_Generation) [mkGroup r.(ar_Priority) [r]] 0 [])
               end
      end
    else
      let '(automatic, diagnostics) :=
        select_routes (route_diagnostic target.(ep_SelectionPolicy).(sp_RoutePreference) supported credentials) (RouteList target) in
      if len automatic =? 0 then Err (if existsb credential_blocked diagnostics then ErrorCredentialRequired else ErrorRouteUnavailable)
      else Ok (newRouteSelectionPlan target request.(rr_Intent) request.(rr_Generation) (groupAutomaticRoutes automatic)
                 target.(ep_SelectionPolicy).(sp_HedgeDelay) (merge_sort diagnostic_before diagnostics)).

(** ** Availability *)
Inductive RouteAvailabilityReason :=
  RouteAvailabilityAvailable | RouteAvailabilityDisabled | RouteAvailabilityPlatformUnsupported | RouteAvailabilityCredentialUnavailable
| RouteAvailabilityCloudUnavailable.
Record RouteAvailability := mkAvailability { va_RouteID : string; va_Kind : string; va_Available : bool; va_Reason : RouteAvailabilityReason }.

(** One turn of the loop. *)
Definition route_availability (planning : Endpoint) (supported credentials : gset string) (r : AccessRoute) : RouteAvailability :=
  let unavailable := mkAvailability r.(ar_ID) r.(ar_Kind) false in
  if negb r.(ar_Enabled) then unavailable RouteAvailabilityDisabled
  else if String.eqb r.(ar_Kind) RouteManagedWebRTC
          && negb (match planning.(ep_Routes) !! r.(ar_ID) with Some planned => planned.(ar_Enabled) | None => false end)
  then unavailable RouteAvailabilityCloudUnavailable
  else if negb (bool_decide (r.(ar_Kind) ∈ supported)) then unavailable RouteAvailabilityPlatformUnsupported
  else if negb (is_empty (missingRouteCredential r credentials)) then unavailable RouteAvailabilityCredentialUnavailable
  else mkAvailability r.(ar_ID) r.(ar_Kind) true RouteAvailabilityAvailable.
Definition EvaluateRouteAvailability (target planning : Endpoint) (supportedKinds availableRefs : list string) : result (list RouteAvailability) :=
  if negb (endpoint_valid target) then Err ErrorConfig
  else
    let planning := if is_empty planning.(ep_ID) then target else planning in
    if negb (String.eqb planning.(ep_ID) target.(ep_ID)) then Err ErrorConfig
    else if negb (endpoint_valid planning) then Err ErrorConfig
    else
      let? supported := routeKindSet supportedKinds in
      let? credentials := credentialRefSet availableRefs in
      Ok (route_availability planning supported credentials <$> RouteList target).

(** ** Edits of the registry *)
Definition set_endpoint (r : Registry) (id : string) (e : Endpoint) : Registry := r <| rg_Endpoints := <[id := e]> r.(rg_Endpoints) |>.

Definition has_local_route (e : Endpoint) : bool := existsb (λ r, r.(ar_Enabled) && String.eqb r.(ar_Kind) RouteLocalUnix) (RouteList e).
(** The default after the old one is disabled: the first enabled endpoint with an enabled local route, else the first
    enabled one. *)
Fixpoint fallback_default (fallback : string) (candidates : list Endpoint) : string :=
  match candidates with
  | [] => fallback
  | e :: candidates =>
      if negb e.(ep_Enabled) then fallback_default fallback candidates
      else if has_local_route e then e.(ep_ID)
      else fallback_default (or_default fallback e.(ep_ID)) candidates
  end.
Definition SetEndpointEnabled (registry : Registry) (endpointID : string) (enabled : bool) : result Registry :=
  let? next := Normalize registry in
  let id := normalizeEndpointID endpointID in
  match next.(rg_Endpoints) !! id with
  | None => Err ErrorConfig
  | Some target =>
      let next := set_endpoint next id (target <| ep_Enabled := enabled |>) in
      if enabled || negb (String.eqb next.(rg_Default) id) then Normalize next
      else
        let fallback := fallback_default "" (List next) in
        if is_empty fallback then Err ErrorConfig else Normalize (next <| rg_Default := fallback |>)
  end.

Record ConnectionPolicy := mkConnectionPolicy { cp_RoutePreference : string; cp_CloudRelayMode : string; cp_RelayTransport : string }.
Definition SetConnectionPolicy (registry : Registry) (endpointID : string) (policy : ConnectionPolicy) : result Registry :=
  if negb (one_of policy.(cp_RoutePreference) [RoutePreferenceAuto; RoutePreferenceDirect; RoutePreferenceSSH; RoutePreferenceManagedCloud]) then Err ErrorConfig
  else if negb (one_of policy.(cp_CloudRelayMode) [RelayAuto; RelayDirect; RelayOnly; RelaySmart]) then Err ErrorConfig
  else if negb (one_of policy.(cp_RelayTransport) [RelayTransportAuto; RelayTransportUDP; RelayTransportTCP]) then Err ErrorConfig
  else
    let? next := Normalize registry in
    match next.(rg_Endpoints) !! normalizeEndpointID endpointID with
    | None => Err ErrorConfig
    | Some target =>
        let target := target <| ep_SelectionPolicy := (target.(ep_SelectionPolicy)) <| sp_RoutePreference := policy.(cp_RoutePreference) |> |>
          <| ep_Routes := (λ r : AccessRoute,
               if String.eqb r.(ar_Kind) RouteManagedWebRTC
               then r <| ar_RelayMode := policy.(cp_CloudRelayMode) |> <| ar_RelayTransport := policy.(cp_RelayTransport) |> <| ar_PolicySource := SourceUser |>
               else r) <$> target.(ep_Routes) |> in
        Normalize (set_endpoint next target.(ep_ID) target)
    end.

(** The error without a code. *)
Definition ErrorPlain : goerr := "".
Definition set_priority (routes : gmap string AccessRoute) (kp : string * option Z) : gmap string AccessRoute :=
  alter (λ r, r <| ar_Priority := kp.2 |> <| ar_PolicySource := SourceUser |>) kp.1 routes.
Definition SetAutomaticRoutePriorities (registry : Registry) (endpointID : string) (priorities : gmap string (option Z)) : result Registry :=
  let? next := Normalize registry in
  match next.(rg_Endpoints) !! normalizeEndpointID endpointID with
  | None => Err ErrorConfig
  | Some target =>
      let ids : gset string := list_to_set (ar_ID <$> filter (λ r, automatic r = true) (RouteList target)) in
      if negb (Nat.eqb (size priorities) (size ids)) then Err ErrorConfig
      else if negb (forallb (λ kp, bool_decide (kp.1 ∈ ids)) (map_to_list priorities)) then Err ErrorConfig
      else
        let given := (λ kp : string * option Z, if kp.2 then true else false) in
        if existsb given (map_to_list priorities) && negb (forallb given (map_to_list priorities)) then Err ErrorPlain
        else
          let target := target <| ep_Routes := foldl set_priority target.(ep_Routes) (map_to_list priorities) |> in
          Normalize (set_endpoint next target.(ep_ID) target)
  end.

(** ** Facts *)

Lemma select_routes_spec diagnose routes :
  select_routes diagnose routes = (filter (λ r, diagnose r = None) routes, omap diagnose routes).
Proof.
  induction routes as [|r routes IH]; [done|]. cbn [select_routes omap list_omap]. rewrite IH. destruct (diagnose r) as [d|] eqn:E.
  - rewrite filter_cons_False; [done|]. by rewrite E.
  - by rewrite filter_cons_True.
Qed.

(** *** Groups *)
Section groups.
Implicit Types (routes : list AccessRoute).

Lemma collect_priorities_NoDup seen routes : NoDup seen → NoDup (collect_priorities seen routes).
Proof.
  revert seen. induction routes as [|r routes IH]; intros seen Hs; [done|]. cbn [collect_priorities]. apply IH. case_decide as Hp; [done|].
  apply NoDup_app. split_and!; [done| |apply NoDup_singleton]. by intros p Hp1 ->%list_elem_of_singleton.
Qed.
Lemma elem_of_collect_priorities p seen routes : p ∈ collect_priorities seen routes ↔ p ∈ seen ∨ ∃ r, r ∈ routes ∧ priority_of r = p.
Proof.
  revert seen. induction routes as [|r routes IH]; intros seen; cbn [collect_priorities].
  { split; [by left|]. by intros [?|(r & Hr%elem_of_nil & _)]. }
  rewrite IH. setoid_rewrite elem_of_cons. case_decide as Hp.
  - split; [|intros [?|(x & [->|Hx] & <-)]]; [intros [?|(x & Hx & <-)]|..]; eauto 6.
  - rewrite elem_of_app, list_elem_of_singleton. split.
    + intros [[?| ->]|(x & Hx & <-)]; eauto 6.
    + intros [?|(x & [->|Hx] & <-)]; eauto 6.
Qed.

Lemma filter_or_split {A} (P Q : A → Prop) `{∀ x, Decision (P x), ∀ x, Decision (Q x), ∀ x, Decision (P x ∨ Q x)} (l : list A) :
  (∀ x, P x → ¬ Q x) → filter (λ x, P x ∨ Q x) l ≡ₚ filter P l ++ filter Q l.
Proof.
  intros HPQ. induction l as [|x l IH]; [done|]. destruct (decide (P x)) as [Hp|Hp].
  - rewrite filter_cons_True by (by left). rewrite (filter_cons_True P) by done. rewrite (filter_cons_False Q) by (by apply HPQ). cbn. by rewrite IH.
  - rewrite (filter_cons_False P) by done. destruct (decide (Q x)) as [Hq|Hq].
    + rewrite filter_cons_True by (by right). rewrite (filter_cons_True Q) by done. by rewrite <- Permutation_middle, IH.
    + rewrite filter_cons_False by (by intros [?|?]). by rewrite (filter_cons_False Q).
Qed.
Lemma by_priority_perm ps routes : NoDup ps →
  concat ((λ p, filter (λ r, priority_of r = p) routes) <$> ps) ≡ₚ filter (λ r, priority_of r ∈ ps) routes.
Proof.
  induction 1 as [|p ps Hp _ IH].
  - cbn. induction routes as [|r routes IH]; [done|]. rewrite filter_cons_False; [done|apply not_elem_of_nil].
  - cbn [fmap list_fmap concat]. rewrite IH, <- filter_or_split by (by intros r ->).
    assert (E : ∀ l : list AccessRoute, filter (λ r, priority_of r = p ∨ priority_of r ∈ ps) l = filter (λ r, priority_of r ∈ p :: ps) l).
    { intros l. apply list_filter_iff. intros r. by rewrite elem_of_cons. }
    by rewrite E.
Qed.

(** The routes of a plan all have a priority, or none has. *)
Definition uniform routes : Prop := Forall (λ r, r.(ar_Priority) = None) routes ∨ Forall (λ r, is_Some r.(ar_Priority)) routes.

Lemma groups_perm routes : uniform routes → concat (gr_routes <$> groupAutomaticRoutes routes) ≡ₚ routes.
Proof.
  destruct routes as [|first routes]; [done|]. intros Hu. unfold groupAutomaticRoutes. destruct (ar_Priority first) as [p0|]; [|cbn; by rewrite app_nil_r].
  set (all := first :: routes). rewrite <- list_fmap_compose.
  change (gr_routes ∘ _) with (λ p, filter (λ r, priority_of r = p) all). rewrite by_priority_perm.
  - rewrite list_filter_all; [done|]. intros r Hr. rewrite merge_sort_Permutation. apply elem_of_collect_priorities. right. by exists r.
  - rewrite merge_sort_Permutation. apply collect_priorities_NoDup, NoDup_nil_2.
Qed.
Lemma groups_priority routes g r : uniform routes → g ∈ groupAutomaticRoutes routes → r ∈ g.(gr_routes) → r.(ar_Priority) = g.(gr_priority).
Proof.
  destruct routes as [|first routes]; [by intros _ ?%elem_of_nil|]. intros Hu. unfold groupAutomaticRoutes. destruct (ar_Priority first) as [p0|] eqn:E0.
  - intros (p & -> & Hp)%list_elem_of_fmap. cbn [gr_routes gr_priority]. intros [Hpr Hr]%list_elem_of_filter. destruct Hu as [Hn|Hs].
    + apply Forall_cons in Hn as [Hn _]. congruence.
    + rewrite Forall_forall in Hs. destruct (Hs r Hr) as [q Hq]. unfold priority_of in Hpr. rewrite Hq in *. cbn in Hpr. by subst.
  - intros ->%list_elem_of_singleton. cbn. intros Hr. destruct Hu as [Hn|Hs]; [rewrite Forall_forall in Hn; by apply Hn|].
    apply Forall_cons in Hs as [[q Hq] _]. congruence.
Qed.
Lemma groups_nonempty routes g : g ∈ groupAutomaticRoutes routes → g.(gr_routes) ≠ [].
Proof.
  destruct routes as [|first routes]; [by intros ?%elem_of_nil|]. unfold groupAutomaticRoutes. destruct (ar_Priority first).
  - intros (p & -> & Hp)%list_elem_of_fmap. cbn [gr_routes]. rewrite merge_sort_Permutation, elem_of_collect_priorities in Hp.
    destruct Hp as [?%elem_of_nil|(r & Hr & Ep)]; [done|]. intros E. apply (not_elem_of_nil r). rewrite <- E. by apply list_elem_of_filter.
  - by intros ->%list_elem_of_singleton.
Qed.
Lemma groups_sorted routes i j gi gj : (i < j)%nat → groupAutomaticRoutes routes !! i = Some gi → groupAutomaticRoutes routes !! j = Some gj →
  ∃ p q, gi.(gr_priority) = Some p ∧ gj.(gr_priority) = Some q ∧ p < q.
Proof.
  intros Hij. destruct routes as [|first routes]; [done|]. unfold groupAutomaticRoutes. destruct (ar_Priority first) as [p0|].
  - rewrite !list_lookup_fmap. set (ps := merge_sort _ _). intros (p & Hp & ->)%fmap_Some (q & Hq & ->)%fmap_Some. exists p, q. split_and!; [done..|].
    assert (Hnd : NoDup ps) by (unfold ps; rewrite merge_sort_Permutation; apply collect_priorities_NoDup, NoDup_nil_2).
    assert (Hs : StronglySorted Z.le ps) by (apply Sorted_StronglySorted; [intros ???; lia|apply Sorted_merge_sort, _]).
    rewrite <- (take_drop (S i) ps) in Hs. assert (p ≤ q).
    { eapply StronglySorted_app_1_elem_of; [exact Hs|..].
      - apply list_elem_of_lookup_2 with i. by rewrite lookup_take_lt by lia.
      - apply list_elem_of_lookup_2 with (j - S i)%nat. rewrite lookup_drop. by replace (S i + (j - S i))%nat with j by lia. }
    assert (p ≠ q); [|lia]. intros ->. assert (i = j) by (by eapply NoDup_lookup). lia.
  - intros _ Hj. destruct j; [lia|]. done.
Qed.
End groups.

(** *** Routes of a canonical endpoint *)
Section canonical.
Context (k : string) (e : Endpoint) (Hc : canonical_endpoint k e).

Lemma elem_of_RouteList r : r ∈ RouteList e ↔ e.(ep_Routes) !! r.(ar_ID) = Some r.
Proof.
  unfold RouteList. rewrite elem_of_sorted_values. split; [|by eexists]. intros [id Hid]. by destruct (ce_routes _ _ Hc _ _ Hid) as (_ & -> & _).
Qed.
Lemma RouteList_ids : ar_ID <$> RouteList e = sorted_keys e.(ep_Routes).
Proof. apply sorted_values_keys. intros id r Hr. by destruct (ce_routes _ _ Hc _ _ Hr) as (_ & ? & _). Qed.
Lemma RouteList_ids_NoDup : NoDup (ar_ID <$> RouteList e).
Proof. rewrite RouteList_ids. apply sorted_keys_NoDup. Qed.
Lemma Route_id id r : Route_ e id = Some r → e.(ep_Routes) !! r.(ar_ID) = Some r ∧ r.(ar_ID) = normalizeRouteID id.
Proof. unfold Route_. intros Hr. by destruct (ce_routes _ _ Hc _ _ Hr) as (_ & -> & _). Qed.
Lemma Route_at r : e.(ep_Routes) !! r.(ar_ID) = Some r → Route_ e r.(ar_ID) = Some r ∧ r.(ar_ID) ≠ "".
Proof.
  intros Hr. destruct (ce_routes _ _ Hc _ _ Hr) as (Hid & _). unfold Route_, normalizeRouteID. rewrite identifier_trim by done.
  split; [done|]. by destruct (identifier_plain _ Hid).
Qed.
Lemma automatic_uniform routes : (∀ r, r ∈ routes → e.(ep_Routes) !! r.(ar_ID) = Some r ∧ automatic r = true) → uniform routes.
Proof.
  intros Hin. pose proof (ce_valid _ _ Hc) as Hv. unfold endpoint_valid in Hv. apply andb_true_iff in Hv as [_ Hv].
  set (all := filter _ _) in Hv. assert (Hall : ∀ r, r ∈ routes → r ∈ all).
  { intros r Hr. destruct (Hin r Hr) as [Hl Ha]. apply list_elem_of_filter. split; [done|]. apply list_elem_of_fmap. exists (r.(ar_ID), r).
    split; [done|]. by apply elem_of_map_to_list. }
  apply negb_true_iff, andb_false_iff in Hv as [Hv|Hv].
  - left. apply Forall_forall. intros r Hr.
    destruct (ar_Priority r) eqn:Ep; [|done]. exfalso. apply (not_true_iff_false (existsb prioritized all)); [done|].
    apply existsb_exists. exists r. split; [by apply list_elem_of_In, Hall|]. unfold prioritized. by rewrite Ep.
  - apply negb_false_iff in Hv. rewrite forallb_forall in Hv. right. apply Forall_forall. intros r Hr.
    specialize (Hv r (proj1 (list_elem_of_In _ _) (Hall r Hr))). unfold prioritized in Hv. destruct (ar_Priority r) eqn:Ep; [by eexists|done].
Qed.
Lemma canonical_hedge : 0 ≤ e.(ep_SelectionPolicy).(sp_HedgeDelay) ≤ 30000000000.
Proof.
  assert (Hh : hedge_ok e.(ep_SelectionPolicy) = true).
  { pose proof (ce_valid _ _ Hc) as Hv. unfold endpoint_valid in Hv. destruct (hedge_ok _); [done|]. by rewrite andb_false_r in Hv. }
  revert Hh. unfold hedge_ok, nanos_per_second. destruct (sp_HedgeDelayConfigured _); lia.
Qed.
End canonical.

(** *** The default after an endpoint is disabled *)
Lemma fallback_default_spec fallback l : Forall (λ e, e.(ep_ID) ≠ "") l →
  fallback_default fallback l
  = match list_find (λ e, e.(ep_Enabled) && has_local_route e = true) l with
    | Some (_, e) => e.(ep_ID)
    | None => or_default fallback (match list_find (λ e, e.(ep_Enabled) = true) l with Some (_, e) => e.(ep_ID) | None => "" end)
    end.
Proof.
  intros Hne. revert fallback. induction Hne as [|e l He _ IH]; intros fallback; cbn [fallback_default list_find].
  { unfold or_default. by destruct (is_empty fallback) eqn:E; [apply String.eqb_eq in E as ->|]. }
  destruct (ep_Enabled e) eqn:Een; cbn [negb andb].
  - destruct (has_local_route e); cbn [negb]; [by rewrite decide_True|]. rewrite decide_False by done. rewrite decide_True by done.
    rewrite IH. destruct (list_find (λ e, e.(ep_Enabled) && has_local_route e = true) l) as [[i e']|]; cbn; [done|].
    unfold or_default. destruct (is_empty fallback) eqn:Ef; [|by rewrite Ef]. unfold is_empty at 1. by destruct (String.eqb_spec (ep_ID e) "").
  - rewrite !decide_False by done. rewrite IH. destruct (list_find (λ e, e.(ep_Enabled) && has_local_route e = true) l) as [[i e']|]; [done|]. cbn.
    by destruct (list_find _ l) as [[i e']|].
Qed.
(** What the fallback is for the endpoints of a registry. *)
Lemma fallback_default_chosen (m : gmap string Endpoint) : (∀ k e, m !! k = Some e → e.(ep_ID) = k ∧ k ≠ "") →
  let default := fallback_default "" (sorted_values m) in
  if is_empty default then ∀ k e, m !! k = Some e → e.(ep_Enabled) = false
  else ∃ e, m !! default = Some e ∧ e.(ep_Enabled) = true
       ∧ ((∃ k e', m !! k = Some e' ∧ e'.(ep_Enabled) = true ∧ has_local_route e' = true) → has_local_route e = true).
Proof.
  intros Hid. cbv zeta. assert (Hin : ∀ e, e ∈ sorted_values m → m !! e.(ep_ID) = Some e ∧ e.(ep_ID) ≠ "").
  { intros e [k Hk]%elem_of_sorted_values. by destruct (Hid _ _ Hk) as [-> ?]. }
  assert (Hin2 : ∀ k e, m !! k = Some e → e ∈ sorted_values m) by (intros k e Hk; apply elem_of_sorted_values; by exists k).
  rewrite fallback_default_spec by (apply Forall_forall; intros e [_ ?]%Hin; done). unfold or_default. change (is_empty "") with true. cbv iota.
  destruct (list_find (λ e, e.(ep_Enabled) && has_local_route e = true) (sorted_values m)) as [[i e]|] eqn:E1.
  - apply list_find_Some in E1 as (Hx%list_elem_of_lookup_2 & [Hxe Hxl]%andb_true_iff & _). destruct (Hin e Hx) as [Hlook Hne].
    rewrite (proj2 (String.eqb_neq _ _) Hne : is_empty e.(ep_ID) = false). by exists e.
  - apply list_find_None in E1. rewrite Forall_forall in E1.
    destruct (list_find (λ e, e.(ep_Enabled) = true) (sorted_values m)) as [[i e]|] eqn:E2.
    + apply list_find_Some in E2 as (Hx%list_elem_of_lookup_2 & Hxe & _). destruct (Hin e Hx) as [Hlook Hne].
      rewrite (proj2 (String.eqb_neq _ _) Hne : is_empty e.(ep_ID) = false). exists e. split_and!; [done..|].
      intros (k & y & Hy & Hye & Hyl). destruct (E1 y (Hin2 _ _ Hy)). by rewrite Hye, Hyl.
    + apply list_find_None in E2. rewrite Forall_forall in E2. change (is_empty "") with true. cbv iota.
      intros k y Hy. destruct (ep_Enabled y) eqn:Ey; [|done]. by destruct (E2 y (Hin2 _ _ Hy)).
Qed.
