(* ===== verification/EndpointAssembler.v ===== *)
(** * Merging endpoint candidates into the registry

    [client/endpoint/assembler.go]: candidates of the Cloud, of bootstrap bundles, of shares and of the user are merged
    into the registry by the identity they were verified for. The text [json.Marshal] gives a candidate, which only breaks
    ties of the order the candidates are taken in, is a parameter. *)
From S2P Require Import Prelude GoStd GoText RemoteGrant EndpointContracts EndpointRegistry EndpointPlanner.
From Stdlib Require Import Ascii String.
Local Open Scope string_scope.
Local Open Scope list_scope.
Local Open Scope Z_scope.
Local Open Scope bool_scope.

(** ** Data *)
Record EndpointCandidate := mkCandidate {
  ec_Source : string; ec_Identity : DaemonIdentity; ec_SuggestedLabel : string; ec_Routes : list AccessRoute; ec_ConnectMode : string;
  ec_SelectionPolicy : option SelectionPolicy; ec_ApplyClientPolicy : bool; ec_CredentialDescriptors : list CredentialDescriptor }.
#[export] Instance eta_EndpointCandidate : Eta EndpointCandidate := λ c,
  mkCandidate c.(ec_Source) c.(ec_Identity) c.(ec_SuggestedLabel) c.(ec_Routes) c.(ec_ConnectMode) c.(ec_SelectionPolicy) c.(ec_ApplyClientPolicy)
    c.(ec_CredentialDescriptors).
Record ConfirmedIdentityBinding := mkBinding { cb_EndpointID : string; cb_Identity : DaemonIdentity }.
Record EndpointAssemblerInput := mkAssemblerInput {
  ei_Registry : Registry; ei_Candidates : list EndpointCandidate; ei_ConfirmedIdentityBindings : list ConfirmedIdentityBinding }.
Record EndpointAssemblerResult := mkAssemblerResult {
  er_Registry : Registry; er_ResolvedEndpointIDs : list string; er_CredentialDescriptors : list CredentialDescriptor }.

Definition identityKey (i : DaemonIdentity) : string := i.(di_DeviceID) +:+ nul_text +:+ i.(di_DeviceFingerprint).

(** ** What a candidate may change *)
Definition sourceRank (source : string) : Z :=
  if String.eqb source SourceLAN then 0
  else if String.eqb source SourceCloud then 10
  else if String.eqb source SourceBootstrap then 20
  else if String.eqb source SourceLocal then 25
  else if String.eqb source SourceManual then 30
  else if String.eqb source SourceShare then 40
  else if String.eqb source SourceUser then 50
  else -1.
Definition candidateOwnsClientPolicy (c : EndpointCandidate) : bool :=
  if one_of c.(ec_Source) [SourceLocal; SourceManual; SourceUser] then true
  else if String.eqb c.(ec_Source) SourceShare then c.(ec_ApplyClientPolicy)
  else false.
(** [validateCandidateClientPolicy] returns nil; every error is a [config_invalid]. *)
Definition client_policy_ok (c : EndpointCandidate) : bool :=
  let owns := candidateOwnsClientPolicy c in
  negb (c.(ec_ApplyClientPolicy) && negb (String.eqb c.(ec_Source) SourceShare))
  && (is_empty c.(ec_ConnectMode) || one_of c.(ec_ConnectMode) [ConnectAuto; ConnectOnDemand; ConnectManual] && owns)
  && match c.(ec_SelectionPolicy) with Some p => owns && hedge_ok p && preference_ok p | None => true end
  && (owns || forallb (λ r, r.(ar_Enabled) && negb r.(ar_ManualOnly) && negb (prioritized r)) c.(ec_Routes)).
(** The checks of the first loop. *)
Definition candidate_ok (c : EndpointCandidate) : bool :=
  negb (String.eqb c.(ec_Source) SourceLAN || negb (validSource c.(ec_Source))) && identity_ok c.(ec_Identity) true && client_policy_ok c.

Definition mergeRoute (existing incoming : AccessRoute) (applyPolicy forcePolicy : bool) : AccessRoute :=
  let merged :=
    if sourceRank existing.(ar_Source) <=? sourceRank incoming.(ar_Source)
    then incoming <| ar_Enabled := existing.(ar_Enabled) |> <| ar_ManualOnly := existing.(ar_ManualOnly) |> <| ar_Priority := existing.(ar_Priority) |>
           <| ar_PolicySource := existing.(ar_PolicySource) |>
    else existing in
  if applyPolicy && (forcePolicy || (sourceRank existing.(ar_PolicySource) <=? sourceRank incoming.(ar_PolicySource)))
  then merged <| ar_Enabled := incoming.(ar_Enabled) |> <| ar_ManualOnly := incoming.(ar_ManualOnly) |> <| ar_Priority := incoming.(ar_Priority) |>
         <| ar_PolicySource := incoming.(ar_PolicySource) |>
  else merged.
Definition hasPrioritizedAutomaticRoute (routes : gmap string AccessRoute) : bool :=
  existsb (λ r, automatic r && prioritized r) (map_to_list routes).*2.

(** ** The endpoint of an identity *)

(** The loop over the endpoints. Pins are apart, so that at most one endpoint matches and the order does not show. *)
Fixpoint find_identity (identity : DaemonIdentity) (found : option Endpoint) (endpoints : list Endpoint) : result (option Endpoint) :=
  match endpoints with
  | [] => Ok found
  | e :: endpoints =>
      let current := e.(ep_DaemonIdentity) in
      if identity_Empty current then find_identity identity found endpoints
      else if String.eqb current.(di_DeviceFingerprint) identity.(di_DeviceFingerprint) then
        if negb (String.eqb current.(di_DeviceID) identity.(di_DeviceID)) then Err ErrorIdentityConflict
        else find_identity identity (Some e) endpoints
      else if String.eqb current.(di_DeviceID) identity.(di_DeviceID) then Err ErrorIdentityConflict
      else find_identity identity found endpoints
  end.
Definition findEndpointByIdentity (registry : Registry) (identity : DaemonIdentity) : result (option Endpoint) :=
  find_identity identity None (map_to_list registry.(rg_Endpoints)).*2.

Definition hex_digit (v : Z) : ascii := of_byte (if v <? 10 then 48 + v else 87 + v).
Definition hex_encode (s : string) : string := bytes_string (mjoin ((λ c, [hex_digit (byte_of c / 16); hex_digit (byte_of c mod 16)]) <$> string_bytes s)).

(** ** Confirmed bindings *)
Definition binding_before (a b : ConfirmedIdentityBinding) : Prop :=
  (if String.eqb a.(cb_EndpointID) b.(cb_EndpointID) then string_le (identityKey a.(cb_Identity)) (identityKey b.(cb_Identity))
   else string_le a.(cb_EndpointID) b.(cb_EndpointID)) = true.
#[export] Instance binding_before_dec : RelDecision binding_before.
Proof. intros a b. unfold binding_before. apply _. Defined.

(** One turn of the loop; [seen] are the endpoints and the identity keys of the turns before. *)
Definition apply_binding (candidateIdentities : gset string) (registry : Registry) (seen : list string * list string) (b : ConfirmedIdentityBinding) :
    result Registry :=
  let key := identityKey b.(cb_Identity) in
  if negb (identifier_ok b.(cb_EndpointID)) then Err ErrorConfig
  else if negb (identity_ok b.(cb_Identity) true) then Err ErrorConfig
  else if negb (bool_decide (key ∈ candidateIdentities)) then Err ErrorConfig
  else if one_of b.(cb_EndpointID) seen.1 then Err ErrorIdentityConflict
  else if one_of key seen.2 then Err ErrorIdentityConflict
  else match registry.(rg_Endpoints) !! b.(cb_EndpointID) with
       | None => Err ErrorConfig
       | Some e =>
           if negb (identity_Empty e.(ep_DaemonIdentity)) then
             if negb (bool_decide (e.(ep_DaemonIdentity) = b.(cb_Identity))) then Err ErrorIdentityConflict else Ok registry
           else
             let? existing := findEndpointByIdentity registry b.(cb_Identity) in
             match existing with
             | Some x => if negb (String.eqb x.(ep_ID) b.(cb_EndpointID)) then Err ErrorIdentityConflict
                         else Ok (set_endpoint registry b.(cb_EndpointID) (e <| ep_DaemonIdentity := b.(cb_Identity) |>))
             | None => Ok (set_endpoint registry b.(cb_EndpointID) (e <| ep_DaemonIdentity := b.(cb_Identity) |>))
             end
       end.
Fixpoint apply_bindings (candidateIdentities : gset string) (registry : Registry) (seen : list string * list string)
    (bindings : list ConfirmedIdentityBinding) : result Registry :=
  match bindings with
  | [] => Ok registry
  | b :: bindings =>
      let? registry := apply_binding candidateIdentities registry seen b in
      apply_bindings candidateIdentities registry (b.(cb_EndpointID) :: seen.1, identityKey b.(cb_Identity) :: seen.2) bindings
  end.
Definition applyConfirmedIdentityBindings (registry : Registry) (bindings : list ConfirmedIdentityBinding) (candidateIdentities : gset string) : result Registry :=
  let? registry := apply_bindings candidateIdentities registry ([], []) (merge_sort binding_before bindings) in
  if len bindings =? 0 then Ok registry else Normalize registry.

(** ** Credential descriptors *)
Definition descriptor_before (a b : CredentialDescriptor) : Prop :=
  (if String.eqb a.(cd_DescriptorID) b.(cd_DescriptorID) then string_le a.(cd_Kind) b.(cd_Kind) else string_le a.(cd_DescriptorID) b.(cd_DescriptorID)) = true.
#[export] Instance descriptor_before_dec : RelDecision descriptor_before.
Proof. intros a b. unfold descriptor_before. apply _. Defined.
Fixpoint unique_descriptors (seen : gmap string CredentialDescriptor) (values : list CredentialDescriptor) : result (list CredentialDescriptor) :=
  match values with
  | [] => Ok []
  | d :: values =>
      match seen !! d.(cd_DescriptorID) with
      | Some existing =>
          if negb (String.eqb existing.(cd_Kind) d.(cd_Kind)) || negb (Bool.eqb existing.(cd_Exportable) d.(cd_Exportable)) then Err ErrorConfig
          else unique_descriptors seen values
      | None => let? rest := unique_descriptors (<[d.(cd_DescriptorID) := d]> seen) values in Ok (d :: rest)
      end
  end.
Definition normalizeCredentialDescriptors (values : list CredentialDescriptor) : result (list CredentialDescriptor) :=
  unique_descriptors ∅ (merge_sort descriptor_before values).

(** ** Assembling *)
Section assembler.
Context `{RemoteCrypto} (marshalCandidate : EndpointCandidate → string).

Fixpoint derive_id (fuel : nat) (encoded : string) (length : Z) (endpoints : gmap string Endpoint) : string :=
  match fuel with
  | O => "daemon-" +:+ encoded
  | S fuel =>
      if length <=? byte_len encoded then
        let candidate := "daemon-" +:+ String.substring 0 (Z.to_nat length) encoded in
        if endpoints !! candidate then derive_id fuel encoded (length + 4) endpoints else candidate
      else "daemon-" +:+ encoded
  end.
(** Every turn lengthens the name by four, so that the length is enough fuel. *)
Definition deriveEndpointID (fingerprint : string) (endpoints : gmap string Endpoint) : string :=
  let encoded := hex_encode (Sum256 (TrimSpace fingerprint)) in
  derive_id (String.length encoded) encoded 12 endpoints.

(** *** The order of the candidates *)
Definition route_key_before (a b : AccessRoute) : Prop :=
  (if String.eqb a.(ar_ID) b.(ar_ID) then string_le a.(ar_Kind) b.(ar_Kind) else string_le a.(ar_ID) b.(ar_ID)) = true.
#[local] Instance route_key_before_dec : RelDecision route_key_before.
Proof. intros a b. unfold route_key_before. apply _. Defined.
Definition route_before (a b : AccessRoute) : Prop := string_le a.(ar_ID) b.(ar_ID) = true.
#[local] Instance route_before_dec : RelDecision route_before.
Proof. intros a b. unfold route_before. apply _. Defined.

(** What [candidateSortKey] does to the slices it is given. *)
Definition sort_slices (c : EndpointCandidate) : EndpointCandidate :=
  c <| ec_Routes := merge_sort route_key_before c.(ec_Routes) |>
    <| ec_CredentialDescriptors := merge_sort descriptor_before c.(ec_CredentialDescriptors) |>.
Definition candidateSortKey (c : EndpointCandidate) : string :=
  marshalCandidate ((sort_slices c) <| ec_SuggestedLabel := TrimSpace c.(ec_SuggestedLabel) |>).
Definition same_class (a b : EndpointCandidate) : bool :=
  String.eqb a.(ec_Identity).(di_DeviceFingerprint) b.(ec_Identity).(di_DeviceFingerprint) && (sourceRank a.(ec_Source) =? sourceRank b.(ec_Source)).
Definition candidate_before (a b : Z * EndpointCandidate) : Prop :=
  (if negb (String.eqb a.2.(ec_Identity).(di_DeviceFingerprint) b.2.(ec_Identity).(di_DeviceFingerprint))
   then string_le a.2.(ec_Identity).(di_DeviceFingerprint) b.2.(ec_Identity).(di_DeviceFingerprint)
   else if negb (sourceRank a.2.(ec_Source) =? sourceRank b.2.(ec_Source)) then sourceRank a.2.(ec_Source) <? sourceRank b.2.(ec_Source)
   else string_le (candidateSortKey a.2) (candidateSortKey b.2)) = true.
#[local] Instance candidate_before_dec : RelDecision candidate_before.
Proof. intros a b. unfold candidate_before. apply _. Defined.
Definition indexed_candidates (candidates : list EndpointCandidate) : list (Z * EndpointCandidate) := imap (λ i c, (Z.of_nat i, c)) candidates.
(** The keys of two candidates are compared when neither the fingerprint nor the rank decides, and computing a key sorts
    the slices of the candidate in place. A sort that is right for every order compares each candidate to one of its
    class if it has another. *)
Definition settle (all : list (Z * EndpointCandidate)) (ic : Z * EndpointCandidate) : Z * EndpointCandidate :=
  if existsb (λ other, negb (other.1 =? ic.1) && same_class other.2 ic.2) all then (ic.1, sort_slices ic.2) else ic.
Definition ordered_candidates (candidates : list EndpointCandidate) : list (Z * EndpointCandidate) :=
  let all := indexed_candidates candidates in merge_sort candidate_before (settle all <$> all).

(** *** One candidate *)

(** The route of a candidate, checked, as it enters the routes of the endpoint. *)
Definition place_route (c : EndpointCandidate) (applyPolicy : bool) (routes : gmap string AccessRoute) (r : AccessRoute) : result (gmap string AccessRoute) :=
  match routes !! r.(ar_ID) with
  | Some existing =>
      if negb (String.eqb existing.(ar_Kind) r.(ar_Kind)) then Err ErrorRouteConflict
      else
        let r := mergeRoute existing r applyPolicy (String.eqb c.(ec_Source) SourceShare && c.(ec_ApplyClientPolicy)) in
        Ok (<[r.(ar_ID) := r]> routes)
  | None =>
      let r :=
        if applyPolicy then r
        else let r := r <| ar_PolicySource := SourceLocal |> in
             if hasPrioritizedAutomaticRoute routes then r <| ar_ManualOnly := true |> else r in
      Ok (<[r.(ar_ID) := r]> routes)
  end.
Definition sourced_route (c : EndpointCandidate) (r : AccessRoute) : AccessRoute :=
  route_withDefaults (r <| ar_Source := c.(ec_Source) |> <| ar_PolicySource := c.(ec_Source) |>).
(** One turn of the loop over the routes of a candidate. *)
Definition assemble_route (c : EndpointCandidate) (applyPolicy : bool) (routes : gmap string AccessRoute) (r : AccessRoute) : result (gmap string AccessRoute) :=
  if negb (identifier_ok r.(ar_ID)) then Err ErrorConfig
  else if negb (is_empty r.(ar_Source)) && negb (String.eqb r.(ar_Source) c.(ec_Source)) then Err ErrorConfig
  else if negb (is_empty r.(ar_PolicySource)) && negb (String.eqb r.(ar_PolicySource) c.(ec_Source)) then Err ErrorConfig
  else
    let r := sourced_route c r in
    if negb (route_valid r c.(ec_Identity)) then Err ErrorConfig else place_route c applyPolicy routes r.
Fixpoint assemble_routes (c : EndpointCandidate) (applyPolicy : bool) (routes : gmap string AccessRoute) (incoming : list AccessRoute) :
    result (gmap string AccessRoute) :=
  match incoming with
  | [] => Ok routes
  | r :: incoming => let? routes := assemble_route c applyPolicy routes r in assemble_routes c applyPolicy routes incoming
  end.

Record assembly := mkAssembly { as_registry : Registry; as_resolved : list string; as_credentials : list CredentialDescriptor }.

(** The endpoint of a candidate before its routes are merged. *)
Definition new_endpoint (endpoints : gmap string Endpoint) (c : EndpointCandidate) : Endpoint :=
  mkEndpoint (deriveEndpointID c.(ec_Identity).(di_DeviceFingerprint) endpoints)
    (or_default (TrimSpace c.(ec_SuggestedLabel)) c.(ec_Identity).(di_DeviceID)) c.(ec_Source) c.(ec_Identity) ConnectOnDemand true no_policy ∅.
Definition relabel (c : EndpointCandidate) (applyPolicy : bool) (e : Endpoint) : Endpoint :=
  if applyPolicy && negb (String.eqb e.(ep_LabelSource) SourceUser) && (sourceRank e.(ep_LabelSource) <=? sourceRank c.(ec_Source))
     && negb (is_empty (TrimSpace c.(ec_SuggestedLabel)))
  then e <| ep_Label := TrimSpace c.(ec_SuggestedLabel) |> <| ep_LabelSource := c.(ec_Source) |> else e.
Definition apply_policy (c : EndpointCandidate) (applyPolicy : bool) (e : Endpoint) : Endpoint :=
  let e := if applyPolicy && negb (is_empty c.(ec_ConnectMode)) then e <| ep_ConnectMode := c.(ec_ConnectMode) |> else e in
  match c.(ec_SelectionPolicy) with Some p => if applyPolicy then e <| ep_SelectionPolicy := p |> else e | None => e end.

Definition assemble_candidate (a : assembly) (ic : Z * EndpointCandidate) : result assembly :=
  let c := ic.2 in
  let registry := a.(as_registry) in
  let? found := findEndpointByIdentity registry c.(ec_Identity) in
  let applyPolicy := candidateOwnsClientPolicy c in
  let e := match found with Some e => relabel c applyPolicy e | None => new_endpoint registry.(rg_Endpoints) c end in
  let e := apply_policy c applyPolicy e in
  let? routes := assemble_routes c applyPolicy e.(ep_Routes) (merge_sort route_before c.(ec_Routes)) in
  let registry := set_endpoint registry e.(ep_ID) (e <| ep_Routes := routes |>) in
  let registry := registry <| rg_Default := or_default registry.(rg_Default) e.(ep_ID) |> in
  if negb (forallb descriptor_ok c.(ec_CredentialDescriptors)) then Err ErrorConfig
  else Ok (mkAssembly registry (<[Z.to_nat ic.1 := e.(ep_ID)]> a.(as_resolved)) (a.(as_credentials) ++ c.(ec_CredentialDescriptors))).
Fixpoint assemble_candidates (a : assembly) (candidates : list (Z * EndpointCandidate)) : result assembly :=
  match candidates with
  | [] => Ok a
  | ic :: candidates => let? a := assemble_candidate a ic in assemble_candidates a candidates
  end.

Definition AssembleEndpoints (input : EndpointAssemblerInput) : result EndpointAssemblerResult :=
  let? registry := Normalize input.(ei_Registry) in
  if negb (forallb candidate_ok input.(ei_Candidates)) then Err ErrorConfig
  else
    let candidateIdentities : gset string := list_to_set ((λ c, identityKey c.(ec_Identity)) <$> input.(ei_Candidates)) in
    let? registry := applyConfirmedIdentityBindings registry input.(ei_ConfirmedIdentityBindings) candidateIdentities in
    let? a := assemble_candidates (mkAssembly registry (replicate (List.length input.(ei_Candidates)) "") [])
                (ordered_candidates input.(ei_Candidates)) in
    let? normalized := Normalize a.(as_registry) in
    let? credentials := normalizeCredentialDescriptors a.(as_credentials) in
    Ok (mkAssemblerResult normalized a.(as_resolved) credentials).
End assembler.

(** ** Facts *)
Lemma identity_ok_pinned i : identity_ok i true = true → identity_Empty i = false ∧ TrimSpace i.(di_DeviceFingerprint) = i.(di_DeviceFingerprint).
Proof.
  unfold identity_ok, DaemonIdentity_Validate, identity_Empty. cbn [negb]. rewrite andb_false_r.
  destruct (String.eqb (TrimSpace (di_DeviceID i)) "") eqn:E1; [done|]. cbn [orb]. destruct (String.eqb (TrimSpace (di_DeviceFingerprint i)) "") eqn:E2; [done|].
  destruct (negb (String.eqb (di_DeviceID i) _)) eqn:E3; [done|]. cbn [orb]. destruct (negb (String.eqb (di_DeviceFingerprint i) _)) eqn:E4; [done|].
  apply negb_false_iff, String.eqb_eq in E3, E4. rewrite <- E3 in E1. by rewrite E1.
Qed.

(** *** Finding an identity *)
Lemma find_identity_spec identity found l r : find_identity identity found l = Ok r →
  match r with
  | Some e => found = Some e ∨ e ∈ l ∧ pinned e ∧ e.(ep_DaemonIdentity) = identity
  | None => found = None ∧ ∀ e, e ∈ l → pinned e →
              e.(ep_DaemonIdentity).(di_DeviceFingerprint) ≠ identity.(di_DeviceFingerprint) ∧ e.(ep_DaemonIdentity).(di_DeviceID) ≠ identity.(di_DeviceID)
  end.
Proof.
  revert found. induction l as [|e l IH]; intros found; cbn [find_identity].
  { intros [= <-]. destruct found; [by left|]. split; [done|]. by intros e ?%elem_of_nil. }
  destruct (identity_Empty _) eqn:Ei.
  { intros Hr%IH. destruct r as [x|]; [destruct Hr as [?|(? & ?)]; [by left|right; split; [by right|done]]|]. destruct Hr as [-> Hr]. split; [done|].
    intros x [->|Hx]%elem_of_cons Hp; [unfold pinned in Hp; congruence|by apply Hr]. }
  destruct (String.eqb_spec (di_DeviceFingerprint (ep_DaemonIdentity e)) (di_DeviceFingerprint identity)) as [Ef|Ef].
  - destruct (String.eqb_spec (di_DeviceID (ep_DaemonIdentity e)) (di_DeviceID identity)) as [Ed|Ed]; [|done]. cbn [negb].
    intros Hr%IH. destruct r as [x|]; [|by destruct Hr]. right. destruct Hr as [[= ->]|(? & ?)]; [|split; [by right|done]]. split_and!; [by left|done|].
    destruct (ep_DaemonIdentity x), identity. cbn in *. by subst.
  - destruct (String.eqb_spec (di_DeviceID (ep_DaemonIdentity e)) (di_DeviceID identity)) as [Ed|Ed]; [done|].
    intros Hr%IH. destruct r as [x|]; [destruct Hr as [?|(? & ?)]; [by left|right; split; [by right|done]]|]. destruct Hr as [-> Hr]. split; [done|].
    intros x [->|Hx]%elem_of_cons Hp; [done|by apply Hr].
Qed.
Lemma find_found registry identity e : findEndpointByIdentity registry identity = Ok (Some e) →
  ∃ k, registry.(rg_Endpoints) !! k = Some e ∧ pinned e ∧ e.(ep_DaemonIdentity) = identity.
Proof.
  intros Hr%find_identity_spec. destruct Hr as [?|(Hin & ? & ?)]; [done|]. apply list_elem_of_fmap in Hin as ([k x] & -> & Hx%elem_of_map_to_list). by exists k.
Qed.
Lemma find_not_found registry identity : findEndpointByIdentity registry identity = Ok None →
  ∀ k e, registry.(rg_Endpoints) !! k = Some e → pinned e →
    e.(ep_DaemonIdentity).(di_DeviceFingerprint) ≠ identity.(di_DeviceFingerprint) ∧ e.(ep_DaemonIdentity).(di_DeviceID) ≠ identity.(di_DeviceID).
Proof.
  intros [_ Hr]%find_identity_spec k e He. apply Hr, list_elem_of_fmap. exists (k, e). by rewrite elem_of_map_to_list.
Qed.

(** *** Derived names *)
Lemma hex_digit_inj a b : 0 ≤ a < 16 → 0 ≤ b < 16 → hex_digit a = hex_digit b → a = b.
Proof.
  intros Ha Hb E. apply (f_equal byte_of) in E. unfold hex_digit in E.
  destruct (Z.ltb_spec a 10), (Z.ltb_spec b 10); rewrite !byte_of_byte in E by lia; lia.
Qed.
Lemma hex_bytes_inj (l k : list ascii) :
  mjoin ((λ c, [hex_digit (byte_of c / 16); hex_digit (byte_of c mod 16)]) <$> l) = mjoin ((λ c, [hex_digit (byte_of c / 16); hex_digit (byte_of c mod 16)]) <$> k) → l = k.
Proof.
  revert k. induction l as [|a l IH]; intros [|b k]; cbn; try done. intros [= E1 E2 E]. f_equal; [|by apply IH].
  pose proof (byte_range a). pose proof (byte_range b). apply hex_digit_inj in E1; [|split; [apply Z.div_pos; lia|apply Z.div_lt_upper_bound; lia]..].
  apply hex_digit_inj in E2; [|apply Z.mod_pos_bound; lia..]. rewrite <- (of_byte_of a), <- (of_byte_of b). f_equal.
  rewrite (Z.div_mod (byte_of a) 16), (Z.div_mod (byte_of b) 16) by lia. by rewrite E1, E2.
Qed.
Lemma hex_encode_inj s t : hex_encode s = hex_encode t → s = t.
Proof.
  unfold hex_encode. intros E. apply (f_equal string_bytes) in E. rewrite !string_of_bytes in E. apply hex_bytes_inj in E.
  by rewrite <- (bytes_of_string s), <- (bytes_of_string t), E.
Qed.
Lemma hex_encode_length s : String.length (hex_encode s) = (2 * String.length s)%nat.
Proof.
  unfold hex_encode. assert (Hb : ∀ l, String.length (bytes_string l) = List.length l) by (induction l; cbn; congruence).
  rewrite Hb. rewrite <- (bytes_of_string s) at 2. rewrite Hb. set (g := λ c, _).
  induction (string_bytes s) as [|a l IH]; [done|]. rewrite fmap_cons. change (mjoin (g a :: (g <$> l))) with (g a ++ mjoin (g <$> l)).
  rewrite List.length_app, IH. cbn [g List.length]. lia.
Qed.

Lemma substring_full s : String.substring 0 (String.length s) s = s.
Proof. induction s as [|c s IH]; [done|]. cbn. by rewrite IH. Qed.
Lemma substring_length n s : (String.length (String.substring 0 n s) ≤ n)%nat.
Proof. revert n. induction s as [|c s IH]; intros [|n]; cbn; try lia. specialize (IH n). lia. Qed.
Lemma substring_long n s : (String.length s ≤ n)%nat → String.substring 0 n s = s.
Proof. revert n. induction s as [|c s IH]; intros [|n] Hn; cbn in *; try done; [lia|]. rewrite IH; [done|lia]. Qed.
Lemma substring_whole n s t : String.length s = String.length t → String.substring 0 n s = t → s = t.
Proof.
  intros Hlen <-. symmetry. apply substring_long. rewrite Hlen. apply substring_length.
Qed.

Section derive.
Context `{RemoteCrypto}.
(** The names [deriveEndpointID] tries for a fingerprint. *)
Definition digest_of (fingerprint : string) : string := hex_encode (Sum256 (TrimSpace fingerprint)).
Definition name_of (fingerprint : string) (n : nat) : string := "daemon-" +:+ String.substring 0 n (digest_of fingerprint).
Definition full_name (fingerprint : string) : string := "daemon-" +:+ digest_of fingerprint.

Lemma full_name_of fingerprint : full_name fingerprint = name_of fingerprint (String.length (digest_of fingerprint)).
Proof. unfold full_name, name_of. by rewrite substring_full. Qed.

Lemma derive_spec fingerprint m :
  (∃ n, deriveEndpointID fingerprint m = name_of fingerprint n) ∧
  (m !! full_name fingerprint = None → m !! deriveEndpointID fingerprint m = None).
Proof.
  unfold deriveEndpointID. fold (digest_of fingerprint). assert (Hfull : ∃ n, full_name fingerprint = name_of fingerprint n) by (eexists; apply full_name_of).
  unfold full_name in *. generalize (String.length (digest_of fingerprint)) as fuel, 12. intros fuel. induction fuel as [|fuel IH]; intros length; cbn [derive_id]; [done|].
  destruct (length <=? _); [|done]. cbv zeta. fold (name_of fingerprint (Z.to_nat length)).
  destruct (m !! name_of fingerprint (Z.to_nat length)) eqn:E; [apply IH|]. split; [by eexists|done].
Qed.
Lemma digest_length `{!RemoteCryptoLaws} fingerprint : String.length (digest_of fingerprint) = 64%nat.
Proof. unfold digest_of. rewrite hex_encode_length. pose proof (sum_size (TrimSpace fingerprint)) as Hs. unfold byte_len in Hs. lia. Qed.
(** A name tried for one fingerprint is the full name of another only if their digests collide. *)
Lemma full_name_collision `{!RemoteCryptoLaws} f g n : name_of f n = full_name g → Sum256 (TrimSpace f) = Sum256 (TrimSpace g).
Proof.
  unfold name_of, full_name. intros E%(inj (String.append _)). apply substring_whole in E; [by apply hex_encode_inj|]. by rewrite !digest_length.
Qed.
End derive.

(** *** What merging keeps *)
Definition same_route_policy (r r' : AccessRoute) : Prop :=
  r'.(ar_Enabled) = r.(ar_Enabled) ∧ r'.(ar_ManualOnly) = r.(ar_ManualOnly) ∧ r'.(ar_Priority) = r.(ar_Priority) ∧ r'.(ar_PolicySource) = r.(ar_PolicySource).
Definition same_policy (e e' : Endpoint) : Prop :=
  e'.(ep_Label) = e.(ep_Label) ∧ e'.(ep_LabelSource) = e.(ep_LabelSource) ∧ e'.(ep_ConnectMode) = e.(ep_ConnectMode)
  ∧ e'.(ep_SelectionPolicy) = e.(ep_SelectionPolicy).

(** [e'] is [e] after merging candidates; [owns] says that one of them may have owned the client policy. *)
Definition routes_evolve (owns : Prop) (routes routes' : gmap string AccessRoute) : Prop :=
  ∀ id r, routes !! id = Some r → ∃ r', routes' !! id = Some r' ∧ r'.(ar_Kind) = r.(ar_Kind) ∧ (owns ∨ same_route_policy r r').
Record evolves (owns : Prop) (e e' : Endpoint) : Prop := {
  ev_id : e'.(ep_ID) = e.(ep_ID);
  ev_identity : e'.(ep_DaemonIdentity) = e.(ep_DaemonIdentity);
  ev_enabled : e'.(ep_Enabled) = e.(ep_Enabled);
  ev_policy : owns ∨ same_policy e e';
  ev_routes : routes_evolve owns e.(ep_Routes) e'.(ep_Routes) }.
Definition evolve (owns : Prop) (m m' : gmap string Endpoint) : Prop :=
  ∀ k e, m !! k = Some e → ∃ e', m' !! k = Some e' ∧ evolves owns e e'.

Lemma routes_evolve_refl owns m : routes_evolve owns m m.
Proof. intros id r Hr. exists r. split_and!; [done..|]. by right. Qed.
Lemma routes_evolve_trans owns m1 m2 m3 : routes_evolve owns m1 m2 → routes_evolve owns m2 m3 → routes_evolve owns m1 m3.
Proof.
  intros H1 H2 id r Hr. destruct (H1 _ _ Hr) as (r2 & Hr2 & K2 & P2). destruct (H2 _ _ Hr2) as (r3 & Hr3 & K3 & P3). exists r3.
  split_and!; [done|congruence|]. destruct P2 as [?|(?&?&?&?)]; [by left|]. destruct P3 as [?|(?&?&?&?)]; [by left|]. right. split_and!; congruence.
Qed.
Lemma evolves_same owns e : evolves owns e e.
Proof. split; try done; [by right|apply routes_evolve_refl]. Qed.
Lemma evolves_trans owns e1 e2 e3 : evolves owns e1 e2 → evolves owns e2 e3 → evolves owns e1 e3.
Proof.
  intros [] []. split; try congruence; [|by eapply routes_evolve_trans].
  destruct ev_policy0 as [?|(?&?&?&?)]; [by left|]. destruct ev_policy1 as [?|(?&?&?&?)]; [by left|]. right. split_and!; congruence.
Qed.
Lemma evolve_trans owns m1 m2 m3 : evolve owns m1 m2 → evolve owns m2 m3 → evolve owns m1 m3.
Proof.
  intros H1 H2 k e He. destruct (H1 _ _ He) as (e2 & He2 & E2). destruct (H2 _ _ He2) as (e3 & He3 & E3). exists e3. split; [done|by eapply evolves_trans].
Qed.

Lemma mergeRoute_kept existing incoming own force : incoming.(ar_ID) = existing.(ar_ID) → incoming.(ar_Kind) = existing.(ar_Kind) →
  (mergeRoute existing incoming own force).(ar_ID) = existing.(ar_ID) ∧ (mergeRoute existing incoming own force).(ar_Kind) = existing.(ar_Kind)
  ∧ (own = false → same_route_policy existing (mergeRoute existing incoming own force)).
Proof.
  intros Hid Hk. unfold mergeRoute.
  destruct (sourceRank existing.(ar_Source) <=? sourceRank incoming.(ar_Source)), own; cbn [andb]; try destruct (force || _);
    (split_and!; [first [exact Hid|reflexivity]|first [exact Hk|reflexivity]|]); intros Ho; first [discriminate Ho|repeat split; reflexivity].
Qed.

Lemma routes_evolve_weaken (P Q : Prop) m m' : (P → Q) → routes_evolve P m m' → routes_evolve Q m m'.
Proof. intros HPQ He id r Hr. destruct (He _ _ Hr) as (r' & ? & ? & Hp). exists r'. split_and!; [done..|]. destruct Hp; [left; by apply HPQ|by right]. Qed.
Definition routes_named (routes : gmap string AccessRoute) : Prop := ∀ id r, routes !! id = Some r → r.(ar_ID) = id.

(** The route of a candidate that is new to the endpoint. *)
Lemma new_route_id own prioritized (r : AccessRoute) :
  (if own : bool then r else let r := r <| ar_PolicySource := SourceLocal |> in if prioritized : bool then r <| ar_ManualOnly := true |> else r).(ar_ID) = r.(ar_ID).
Proof. by destruct own, prioritized. Qed.
Lemma insert_named routes r : routes_named routes → routes_named (<[r.(ar_ID) := r]> routes).
Proof.
  intros Hn id y. destruct (decide (id = r.(ar_ID))) as [->|Hne]; [rewrite lookup_insert_eq; by intros [= <-]|rewrite lookup_insert_ne by done; apply Hn].
Qed.
Lemma place_route_kept c own routes r routes' : place_route c own routes r = Ok routes' → routes_named routes →
  routes_named routes' ∧ routes_evolve (own = true) routes routes'.
Proof.
  intros Hok Hn. unfold place_route in Hok. destruct (routes !! ar_ID r) as [x|] eqn:Ex.
  - destruct (String.eqb_spec x.(ar_Kind) r.(ar_Kind)) as [Ek|]; [|done]. cbn [negb] in Hok. injection Hok as <-.
    set (force := String.eqb _ _ && _). destruct (mergeRoute_kept x r own force) as (Eid & Ekind & Epol); [by rewrite (Hn _ _ Ex)|done|].
    split; [by apply insert_named|]. rewrite Eid. rewrite <- (Hn _ _ Ex) in Ex. intros id y Hy. destruct (decide (id = x.(ar_ID))) as [->|Hne].
    + rewrite Ex in Hy. injection Hy as <-. eexists. rewrite lookup_insert_eq. split_and!; [done..|]. destruct own; [by left|right; by apply Epol].
    + exists y. rewrite lookup_insert_ne by done. split_and!; [done..|]. right. by split_and!.
  - injection Hok as <-. split; [by apply insert_named|]. rewrite new_route_id. intros id y Hy. exists y.
    rewrite lookup_insert_ne by (intros <-; congruence). split_and!; [done..|]. right. by split_and!.
Qed.
Lemma assemble_route_kept c own routes r routes' : assemble_route c own routes r = Ok routes' → routes_named routes →
  routes_named routes' ∧ routes_evolve (own = true) routes routes'.
Proof.
  unfold assemble_route. destruct (negb _); [done|]. destruct (_ && _); [done|]. destruct (_ && _); [done|]. cbv zeta.
  destruct (negb (route_valid _ _)); [done|]. apply place_route_kept.
Qed.
Lemma assemble_routes_kept c own incoming routes routes' : assemble_routes c own routes incoming = Ok routes' → routes_named routes →
  routes_named routes' ∧ routes_evolve (own = true) routes routes'.
Proof.
  revert routes. induction incoming as [|r incoming IH]; intros routes; cbn [assemble_routes].
  { intros [= <-] ?. split; [done|apply routes_evolve_refl]. }
  destruct (assemble_route c own routes r) as [routes1|] eqn:E; [|done]. cbn [result_bind]. intros Hrun Hn.
  destruct (assemble_route_kept _ _ _ _ _ E Hn) as [Hn1 He1]. destruct (IH _ Hrun Hn1) as [Hn2 He2]. split; [done|by eapply routes_evolve_trans].
Qed.

(** The fields of an endpoint the policy of a candidate leaves alone. *)
Lemma apply_policy_kept c own e : let e' := apply_policy c own e in
  e'.(ep_ID) = e.(ep_ID) ∧ e'.(ep_DaemonIdentity) = e.(ep_DaemonIdentity) ∧ e'.(ep_Enabled) = e.(ep_Enabled) ∧ e'.(ep_Routes) = e.(ep_Routes)
  ∧ (own = false → e' = e).
Proof. unfold apply_policy. destruct own, (is_empty _), (ec_SelectionPolicy c); by split_and!. Qed.
Lemma relabel_kept c own e : let e' := relabel c own e in
  e'.(ep_ID) = e.(ep_ID) ∧ e'.(ep_DaemonIdentity) = e.(ep_DaemonIdentity) ∧ e'.(ep_Enabled) = e.(ep_Enabled) ∧ e'.(ep_Routes) = e.(ep_Routes)
  ∧ (own = false → e' = e).
Proof. unfold relabel. destruct own; cbn [andb]; [|done]. destruct (_ && _); by split_and!. Qed.
Lemma sort_slices_kept c : (sort_slices c).(ec_Identity) = c.(ec_Identity) ∧ candidateOwnsClientPolicy (sort_slices c) = candidateOwnsClientPolicy c.
Proof. done. Qed.

(** *** The loop over the candidates *)
Section loop.
Context `{RemoteCrypto} `{!RemoteCryptoLaws}.
Context (start : gmap string Endpoint) (candidates : list EndpointCandidate).
Context (Hfree : ∀ c, c ∈ candidates → start !! full_name c.(ec_Identity).(di_DeviceFingerprint) = None).
Context (Hcollide : ∀ c c', c ∈ candidates → c' ∈ candidates → Sum256 c.(ec_Identity).(di_DeviceFingerprint) = Sum256 c'.(ec_Identity).(di_DeviceFingerprint) →
  c.(ec_Identity).(di_DeviceFingerprint) = c'.(ec_Identity).(di_DeviceFingerprint)).
Context (Hvalid : ∀ c, c ∈ candidates → identity_ok c.(ec_Identity) true = true).

Definition derived (k : string) (e : Endpoint) : Prop :=
  ∃ c n, c ∈ candidates ∧ e.(ep_DaemonIdentity) = c.(ec_Identity) ∧ k = name_of c.(ec_Identity).(di_DeviceFingerprint) n.
Record loop_inv (m : gmap string Endpoint) : Prop := {
  li_named k e : m !! k = Some e → e.(ep_ID) = k ∧ routes_named e.(ep_Routes);
  li_apart : pinned_apart m;
  li_origin k e : m !! k = Some e → is_Some (start !! k) ∨ derived k e }.

(** Some candidate may change the client policy. *)
Definition some_owner : Prop := ∃ c, c ∈ candidates ∧ candidateOwnsClientPolicy c = true.

Lemma new_name_free m c : loop_inv m → c ∈ candidates →
  (∀ k e, m !! k = Some e → pinned e → e.(ep_DaemonIdentity).(di_DeviceFingerprint) ≠ c.(ec_Identity).(di_DeviceFingerprint)) →
  m !! deriveEndpointID c.(ec_Identity).(di_DeviceFingerprint) m = None.
Proof.
  intros Hi Hc Hnew. apply derive_spec. destruct (m !! full_name _) as [e|] eqn:Ee; [|done]. exfalso.
  destruct (li_origin _ Hi _ _ Ee) as [[x Hx]|(c' & n & Hc' & Eid & Ename)]; [by rewrite (Hfree _ Hc) in Hx|].
  destruct (identity_ok_pinned _ (Hvalid _ Hc)) as [_ T]. destruct (identity_ok_pinned _ (Hvalid _ Hc')) as [P' T'].
  symmetry in Ename. apply full_name_collision in Ename. rewrite T, T' in Ename. apply Hcollide in Ename; [|done..].
  apply (Hnew _ _ Ee); [unfold pinned; by rewrite Eid|by rewrite Eid].
Qed.

Lemma apart_insert_new m k e : pinned_apart m → (∀ k' e', m !! k' = Some e' → pinned e' →
    e'.(ep_DaemonIdentity).(di_DeviceFingerprint) ≠ e.(ep_DaemonIdentity).(di_DeviceFingerprint)
    ∧ e'.(ep_DaemonIdentity).(di_DeviceID) ≠ e.(ep_DaemonIdentity).(di_DeviceID)) → pinned_apart (<[k := e]> m).
Proof.
  intros Hap Hnew k1 k2 e1 e2. destruct (decide (k1 = k)) as [->|N1], (decide (k2 = k)) as [->|N2];
    rewrite ?lookup_insert_eq, ?lookup_insert_ne by done; [done|..].
  - intros [= <-] H2 P1 P2 [E|E]; destruct (Hnew _ _ H2 P2); congruence.
  - intros H1 [= <-] P1 P2 [E|E]; destruct (Hnew _ _ H1 P1); congruence.
  - intros H1 H2. by eapply Hap.
Qed.
Lemma apart_insert_same m k e e' : pinned_apart m → m !! k = Some e → e'.(ep_DaemonIdentity) = e.(ep_DaemonIdentity) → pinned_apart (<[k := e']> m).
Proof.
  intros Hap He Ei. eapply apart_same; [|exact Hap]. intros k'. destruct (decide (k' = k)) as [->|Hne]; [|by rewrite lookup_insert_ne].
  rewrite lookup_insert_eq, He. cbn. by rewrite Ei.
Qed.

(** A candidate as the loop sees it. *)
Definition from_input (c : EndpointCandidate) : Prop := ∃ c0, c0 ∈ candidates ∧ (c = c0 ∨ c = sort_slices c0).

Lemma evolve_insert m k e e' : m !! k = Some e → evolves some_owner e e' → evolve some_owner m (<[k := e']> m).
Proof.
  intros He Hev k' x Hx. destruct (decide (k' = k)) as [->|Hne].
  - rewrite lookup_insert_eq. rewrite He in Hx. injection Hx as <-. by exists e'.
  - rewrite lookup_insert_ne by done. exists x. split; [done|apply evolves_same].
Qed.
Lemma inv_insert m k e : loop_inv m → e.(ep_ID) = k → routes_named e.(ep_Routes) → pinned_apart (<[k := e]> m) → is_Some (start !! k) ∨ derived k e →
  loop_inv (<[k := e]> m).
Proof.
  intros [Hn _ Ho] Hid Hr Hap Horig. split; [|done|]; intros k' x; (destruct (decide (k' = k)) as [->|Hne];
    [rewrite lookup_insert_eq; by intros [= <-]|rewrite lookup_insert_ne by done]); [apply Hn|apply Ho].
Qed.

Lemma assemble_candidate_step a ic a' : loop_inv a.(as_registry).(rg_Endpoints) → from_input ic.2 → assemble_candidate a ic = Ok a' →
  loop_inv a'.(as_registry).(rg_Endpoints) ∧ evolve some_owner a.(as_registry).(rg_Endpoints) a'.(as_registry).(rg_Endpoints)
  ∧ ∃ id e, a'.(as_resolved) = <[Z.to_nat ic.1 := id]> a.(as_resolved) ∧ a'.(as_registry).(rg_Endpoints) !! id = Some e ∧ e.(ep_DaemonIdentity) = ic.2.(ec_Identity).
Proof.
  destruct ic as [i c]. cbn [fst snd]. intros Hi (c0 & Hc0 & Hcc).
  assert (Hsame : c.(ec_Identity) = c0.(ec_Identity) ∧ candidateOwnsClientPolicy c = candidateOwnsClientPolicy c0) by (by destruct Hcc as [-> | ->]).
  destruct Hsame as [EI EO]. unfold assemble_candidate. cbn [fst snd]. set (m := rg_Endpoints (as_registry a)) in *.
  destruct (findEndpointByIdentity _ _) as [found|] eqn:Ef; [|done]. cbn [result_bind]. set (own := candidateOwnsClientPolicy c) in *.
  set (e1 := match found with Some _ => _ | None => _ end). destruct (apply_policy_kept c own e1) as (P1 & P2 & P3 & P4 & P5). cbv zeta.
  set (e2 := apply_policy c own e1) in *. destruct (assemble_routes _ _ _ _) as [routes'|] eqn:Er; [|done]. cbn [result_bind].
  destruct (negb _); [done|]. intros [= <-]. cbn [as_registry as_resolved]. set (e3 := e2 <| ep_Routes := routes' |>).
  change (loop_inv (<[e2.(ep_ID) := e3]> m) ∧ evolve some_owner m (<[e2.(ep_ID) := e3]> m)
    ∧ ∃ id e, <[Z.to_nat i := e2.(ep_ID)]> a.(as_resolved) = <[Z.to_nat i := id]> a.(as_resolved) ∧ <[e2.(ep_ID) := e3]> m !! id = Some e ∧ e.(ep_DaemonIdentity) = c.(ec_Identity)).
  assert (E3 : e3.(ep_ID) = e2.(ep_ID) ∧ e3.(ep_DaemonIdentity) = e2.(ep_DaemonIdentity) ∧ e3.(ep_Enabled) = e2.(ep_Enabled)) by done.
  assert (Hown : own = true → some_owner) by (intros Ho; exists c0; by rewrite <- EO).
  destruct found as [e|].
  - apply find_found in Ef as (k & Hk & Hpin & Eid). destruct (li_named _ Hi _ _ Hk) as [Hke Hrn].
    destruct (relabel_kept c own e) as (R1 & R2 & R3 & R4 & R5). fold e1 in R1, R2, R3, R4, R5. rewrite P4, R4 in Er.
    destruct (assemble_routes_kept _ _ _ _ _ Er Hrn) as [Hrn' Hrev]. assert (Ek : e2.(ep_ID) = k) by congruence. rewrite Ek.
    assert (Hid3 : e3.(ep_DaemonIdentity) = e.(ep_DaemonIdentity)) by (destruct E3 as (_ & -> & _); congruence).
    split_and!; [|apply (evolve_insert _ _ e); [done|]|].
    + apply inv_insert; [done|by rewrite <- Ek|done|by eapply apart_insert_same; [apply li_apart|..]|].
      destruct (li_origin _ Hi _ _ Hk) as [?|(c' & n & ? & ? & ?)]; [by left|right]. exists c', n. split_and!; [done|congruence|done].
    + split; [destruct E3; congruence|done|destruct E3 as (_ & _ & ->); congruence| |by eapply routes_evolve_weaken].
      destruct own eqn:Eo; [left; by apply Hown|right]. unfold e3. rewrite P5 by done. rewrite R5 by done. by split_and!.
    + exists k, e3. rewrite lookup_insert_eq. split_and!; [done|done|congruence].
  - pose proof (find_not_found _ _ Ef) as Hnew. fold m in Hnew. rewrite P4 in Er. change (ep_Routes e1) with (∅ : gmap string AccessRoute) in Er.
    destruct (assemble_routes_kept _ _ _ _ _ Er) as [Hrn' _]; [by intros ???|].
    assert (Ek : e2.(ep_ID) = deriveEndpointID c.(ec_Identity).(di_DeviceFingerprint) m) by (rewrite P1; done). rewrite Ek.
    assert (Hid3 : e3.(ep_DaemonIdentity) = c.(ec_Identity)) by (destruct E3 as (_ & -> & _); rewrite P2; done).
    assert (Hnone : m !! deriveEndpointID c.(ec_Identity).(di_DeviceFingerprint) m = None).
    { rewrite EI. apply new_name_free; [done|done|]. intros k e He Hp. rewrite <- EI. by apply (Hnew k e). }
    split_and!.
    + apply inv_insert; [done|by rewrite <- Ek|done| |].
      * apply apart_insert_new; [by apply li_apart|]. intros k' e' He' Hp'. rewrite Hid3. by apply (Hnew k').
      * right. destruct (derive_spec c.(ec_Identity).(di_DeviceFingerprint) m) as [[n En] _]. exists c0, n. rewrite En, Hid3, EI. by split_and!.
    + intros k e He. exists e. rewrite lookup_insert_ne by (intros <-; congruence). split; [done|apply evolves_same].
    + exists (deriveEndpointID c.(ec_Identity).(di_DeviceFingerprint) m), e3. rewrite lookup_insert_eq. by split_and!.
Qed.
End loop.

(** *** The run of the loop *)
Section run.
Context `{RemoteCrypto} `{!RemoteCryptoLaws}.
Context (start : gmap string Endpoint) (candidates : list EndpointCandidate).
Context (Hfree : ∀ c, c ∈ candidates → start !! full_name c.(ec_Identity).(di_DeviceFingerprint) = None).
Context (Hcollide : ∀ c c', c ∈ candidates → c' ∈ candidates → Sum256 c.(ec_Identity).(di_DeviceFingerprint) = Sum256 c'.(ec_Identity).(di_DeviceFingerprint) →
  c.(ec_Identity).(di_DeviceFingerprint) = c'.(ec_Identity).(di_DeviceFingerprint)).
Context (Hvalid : ∀ c, c ∈ candidates → identity_ok c.(ec_Identity) true = true).
Notation endpoints a := a.(as_registry).(rg_Endpoints).
Notation slot ic := (Z.to_nat (fst ic)).
Implicit Types (ic : Z * EndpointCandidate).

(** The candidate of a slot got an endpoint with its identity. *)
Definition resolved (a : assembly) ic : Prop :=
  ∃ id e, a.(as_resolved) !! slot ic = Some id ∧ endpoints a !! id = Some e ∧ e.(ep_DaemonIdentity) = ic.2.(ec_Identity).

Lemma assemble_candidates_run l a a' :
  loop_inv start candidates (endpoints a) → Forall (λ ic, from_input candidates ic.2 ∧ (slot ic < List.length a.(as_resolved))%nat) l →
  NoDup ((λ ic, slot ic) <$> l) → assemble_candidates a l = Ok a' →
  loop_inv start candidates (endpoints a') ∧ evolve (some_owner candidates) (endpoints a) (endpoints a') ∧ (∀ ic, ic ∈ l → resolved a' ic)
  ∧ (∀ j, j ∉ (λ ic, slot ic) <$> l → a'.(as_resolved) !! j = a.(as_resolved) !! j).
Proof.
  revert a. induction l as [|ic l IH]; intros a Hi Hl Hnd; cbn [assemble_candidates].
  { intros [= <-]. split_and!; [done| |by intros ic ?%elem_of_nil|done]. intros k e He. exists e. split; [done|apply evolves_same]. }
  destruct (assemble_candidate a ic) as [a1|] eqn:E1; [|done]. cbn [result_bind]. intros Hrun.
  apply Forall_cons in Hl as [[Hin Hlen] Hl]. cbn [fmap list_fmap] in Hnd. apply NoDup_cons in Hnd as [Hic Hnd].
  destruct (assemble_candidate_step _ _ Hfree Hcollide Hvalid _ _ _ Hi Hin E1) as (Hi1 & Hev1 & id & e & Eres & He & Eid).
  destruct (IH a1) as (Hi' & Hev' & Hres & Hother); try done.
  { eapply Forall_impl; [exact Hl|]. intros x [? ?]. split; [done|]. by rewrite Eres, length_insert. }
  split_and!; [done|by eapply evolve_trans|..].
  - intros x [->|Hx]%elem_of_cons; [|by apply Hres]. destruct (Hev' _ _ He) as (e' & He' & Ev). exists id, e'. split_and!; [|done|].
    + rewrite Hother by done. rewrite Eres. by apply list_lookup_insert_eq.
    + rewrite (ev_identity _ _ _ Ev). done.
  - intros j Hj. cbn [fmap list_fmap] in Hj. apply not_elem_of_cons in Hj as [Hne Hj]. rewrite Hother by done. rewrite Eres. by apply list_lookup_insert_ne.
Qed.
End run.

(** *** The order of the candidates *)
Section order.
Context (marshalCandidate : EndpointCandidate → string).
Lemma settle_fst all ic : (settle all ic).1 = ic.1.
Proof. unfold settle. by destruct (existsb _ _). Qed.
Lemma settle_snd all ic : (settle all ic).2 = ic.2 ∨ (settle all ic).2 = sort_slices ic.2.
Proof. unfold settle. destruct (existsb _ _); [by right|by left]. Qed.
Lemma indexed_lookup candidates ic : ic ∈ indexed_candidates candidates ↔ 0 ≤ ic.1 ∧ candidates !! Z.to_nat ic.1 = Some ic.2.
Proof.
  unfold indexed_candidates. rewrite list_elem_of_lookup. setoid_rewrite list_lookup_imap. split.
  - intros (i & (c & Hc & ->)%fmap_Some). cbn. rewrite Nat2Z.id. split; [lia|done].
  - intros [H0 Hc]. exists (Z.to_nat ic.1). rewrite Hc. cbn. rewrite Z2Nat.id by done. by destruct ic.
Qed.
Lemma ordered_perm candidates : ordered_candidates marshalCandidate candidates ≡ₚ settle (indexed_candidates candidates) <$> indexed_candidates candidates.
Proof. apply merge_sort_Permutation. Qed.
Lemma ordered_slots candidates : NoDup ((λ ic : Z * EndpointCandidate, Z.to_nat ic.1) <$> ordered_candidates marshalCandidate candidates).
Proof.
  rewrite ordered_perm. rewrite <- list_fmap_compose. assert (E : (λ ic : Z * EndpointCandidate, Z.to_nat ic.1) ∘ settle (indexed_candidates candidates) <$> indexed_candidates candidates
    = seq 0 (List.length candidates)).
  { apply list_eq. intros i. rewrite list_lookup_fmap. unfold indexed_candidates at 2. rewrite list_lookup_imap. destruct (candidates !! i) as [c|] eqn:Hc; cbn.
    - rewrite settle_fst. cbn. rewrite Nat2Z.id. symmetry. apply lookup_seq. split; [done|]. by eapply lookup_lt_Some.
    - symmetry. apply lookup_seq_ge. by apply lookup_ge_None. }
  rewrite E. apply NoDup_seq.
Qed.
Lemma ordered_from candidates ic : ic ∈ ordered_candidates marshalCandidate candidates →
  from_input candidates ic.2 ∧ (Z.to_nat ic.1 < List.length candidates)%nat.
Proof.
  rewrite ordered_perm, list_elem_of_fmap. intros (x & -> & [H0 Hx]%indexed_lookup). rewrite settle_fst. split; [|by eapply lookup_lt_Some].
  exists x.2. split; [by eapply list_elem_of_lookup_2|apply settle_snd].
Qed.
Lemma ordered_complete candidates i c : candidates !! i = Some c →
  ∃ c', (Z.of_nat i, c') ∈ ordered_candidates marshalCandidate candidates ∧ c'.(ec_Identity) = c.(ec_Identity).
Proof.
  intros Hc. set (ic := (Z.of_nat i, c)). set (x := settle (indexed_candidates candidates) ic). exists x.2. split.
  - rewrite ordered_perm. apply list_elem_of_fmap. exists ic. split; [|apply indexed_lookup; cbn; rewrite Nat2Z.id; split; [lia|done]].
    fold x. assert (E : x.1 = Z.of_nat i) by apply settle_fst. rewrite <- E. by destruct x.
  - destruct (settle_snd (indexed_candidates candidates) ic) as [E|E]; unfold x; by rewrite E.
Qed.
End order.

(** *** Confirmed bindings *)

(** What the bindings may do to an endpoint: give one without an identity the identity the user confirmed. *)
Definition bound_by (bindings : list ConfirmedIdentityBinding) (k : string) (e e' : Endpoint) : Prop :=
  e' = e ∨ ¬ pinned e ∧ pinned e' ∧ ∃ b, b ∈ bindings ∧ b.(cb_EndpointID) = k ∧ e' = e <| ep_DaemonIdentity := b.(cb_Identity) |>.
Definition bound (bindings : list ConfirmedIdentityBinding) (m m' : gmap string Endpoint) : Prop :=
  ∀ k, match m !! k, m' !! k with Some e, Some e' => bound_by bindings k e e' | None, None => True | _, _ => False end.

Lemma bound_refl bindings m : bound bindings m m.
Proof. intros k. destruct (m !! k); [by left|done]. Qed.
Lemma bound_trans bindings m1 m2 m3 : bound bindings m1 m2 → bound bindings m2 m3 → bound bindings m1 m3.
Proof.
  intros H1 H2 k. specialize (H1 k). specialize (H2 k). destruct (m1 !! k) as [e1|], (m2 !! k) as [e2|], (m3 !! k) as [e3|]; try done.
  destruct H1 as [->|(? & P2 & ?)]; [done|]. destruct H2 as [->|(N2 & _)]; [by right|done].
Qed.
Lemma apply_binding_bound ids r seen b r' bindings : b ∈ bindings → apply_binding ids r seen b = Ok r' → bound bindings r.(rg_Endpoints) r'.(rg_Endpoints).
Proof.
  intros Hb. unfold apply_binding. destruct (negb (identifier_ok _)); [done|]. destruct (identity_ok _ true) eqn:Eok; [|done]. cbn [negb].
  destruct (negb (bool_decide _)); [done|]. destruct (one_of _ seen.1); [done|]. destruct (one_of _ seen.2); [done|].
  destruct (_ !! cb_EndpointID b) as [e|] eqn:He; [|done]. destruct (identity_Empty (ep_DaemonIdentity e)) eqn:Ei; cbn [negb].
  2: { destruct (negb _); [done|]. intros [= <-]. apply bound_refl. }
  assert (Hset : bound bindings r.(rg_Endpoints) (<[b.(cb_EndpointID) := e <| ep_DaemonIdentity := b.(cb_Identity) |>]> r.(rg_Endpoints))).
  { intros k. destruct (decide (k = b.(cb_EndpointID))) as [->|Hne].
    - rewrite He, lookup_insert_eq. right. split_and!; [unfold pinned; congruence|by apply identity_ok_pinned in Eok as [? _]|by exists b].
    - rewrite lookup_insert_ne by done. destruct (_ !! k); [by left|done]. }
  destruct (findEndpointByIdentity _ _) as [[x|]|]; cbn [result_bind]; [destruct (negb _); [done|]|..|done]; by intros [= <-].
Qed.
Lemma apply_bindings_bound ids all : ∀ bindings r seen r', (∀ b, b ∈ bindings → b ∈ all) → apply_bindings ids r seen bindings = Ok r' →
  bound all r.(rg_Endpoints) r'.(rg_Endpoints).
Proof.
  induction bindings as [|b bindings IH]; intros r seen r' Hin; cbn [apply_bindings]; [intros [= <-]; apply bound_refl|].
  destruct (apply_binding ids r seen b) as [r1|] eqn:E; [|done]. cbn [result_bind]. intros Hrun.
  eapply bound_trans; [eapply apply_binding_bound; [apply Hin; by left|done]|]. eapply IH; [|done]. intros x Hx. apply Hin. by right.
Qed.
Lemma endpoint_at_identity k e i : identifier_ok k = true → endpoint_at k e = e → endpoint_at k (e <| ep_DaemonIdentity := i |>) = e <| ep_DaemonIdentity := i |>.
Proof.
  intros Hk Hd. rewrite endpoint_at_eq in Hd |- * by done. destruct e. cbv [set_field]. cbn -[TrimSpace] in *. injection Hd as -> -> -> -> Hd. by rewrite Hd.
Qed.
Lemma bound_normal bindings m m' : map_Forall canonical_endpoint m → bound bindings m m' → normal_endpoints m' = m'.
Proof.
  intros Hc Hb. apply map_eq. intros k. rewrite normal_endpoints_lookup. specialize (Hb k). destruct (m' !! k) as [e'|]; [|done]. cbn. f_equal.
  destruct (m !! k) as [e|] eqn:He; [|done]. pose proof (Hc _ _ He) as Hce. destruct Hb as [->|(_ & _ & b & _ & _ & ->)]; [by apply ce_defaults|].
  apply endpoint_at_identity; [by eapply ce_key|by apply ce_defaults].
Qed.
Lemma confirmed_bound ids bindings r r' : canonical_registry r → applyConfirmedIdentityBindings r bindings ids = Ok r' →
  canonical_registry r' ∧ bound bindings r.(rg_Endpoints) r'.(rg_Endpoints).
Proof.
  intros Hr. unfold applyConfirmedIdentityBindings. destruct (apply_bindings _ _ _ _) as [r1|] eqn:E; [|done]. cbn [result_bind].
  assert (Hb : bound bindings r.(rg_Endpoints) r1.(rg_Endpoints)).
  { eapply apply_bindings_bound; [|exact E]. intros b. by rewrite merge_sort_Permutation. }
  destruct bindings as [|b0 bindings]; [intros [= <-]; cbn in E; injection E as <-; by split|]. cbn [len List.length Z.of_nat Z.eqb].
  intros HN. destruct (normalize_sound _ _ HN) as (Hc & Em & _). split; [done|]. rewrite Em.
  by rewrite (bound_normal _ _ _ (cr_endpoints _ Hr) Hb).
Qed.

(** *** Normalizing what was merged *)
Lemma canonical_texts k e : canonical_endpoint k e →
  is_empty (TrimSpace e.(ep_Label)) = false ∧ e.(ep_LabelSource) ≠ "" ∧ e.(ep_ConnectMode) ≠ "".
Proof.
  intros Hc. pose proof (ce_key _ _ Hc) as Hk. pose proof (ce_defaults _ _ Hc) as Hd. rewrite endpoint_at_eq in Hd by done. rewrite <- Hd. cbn -[TrimSpace]. split_and!.
  - destruct (is_empty (TrimSpace e.(ep_Label))) eqn:El; [|done]. rewrite identifier_trim by done. apply String.eqb_neq. by destruct (identifier_plain _ Hk).
  - by apply or_default_nonempty.
  - apply or_default_nonempty. by destruct (String.eqb _ _).
Qed.
Lemma route_at_kept id r : let r' := route_at id r in
  r'.(ar_Kind) = r.(ar_Kind) ∧ r'.(ar_Enabled) = r.(ar_Enabled) ∧ r'.(ar_ManualOnly) = r.(ar_ManualOnly) ∧ r'.(ar_Priority) = r.(ar_Priority)
  ∧ (r.(ar_PolicySource) ≠ "" → r'.(ar_PolicySource) = r.(ar_PolicySource)).
Proof. unfold route_at. rewrite route_withDefaults_eq. split_and!; [done..|]. apply or_default_set. Qed.
Lemma canonical_policy_source k e id r : canonical_endpoint k e → e.(ep_Routes) !! id = Some r → r.(ar_PolicySource) ≠ "".
Proof.
  intros Hc Hr. destruct (ce_routes _ _ Hc _ _ Hr) as (_ & _ & Hd). rewrite route_withDefaults_eq in Hd. rewrite <- Hd. by repeat apply or_default_nonempty.
Qed.
Lemma evolves_normal P k e e' : canonical_endpoint k e → evolves P e e' → entry_ok k e' → evolves P e (endpoint_at k e').
Proof.
  intros Hc [E1 E2 E3 E4 E5] (Hk & _ & Hr & _). destruct (endpoint_at_fields k e' Hk) as (F1 & F2 & F3 & F4). split; try congruence.
  - rewrite F1. by rewrite (ce_id _ _ Hc).
  - destruct E4 as [?|(L1 & L2 & L3 & L4)]; [by left|right]. destruct (canonical_texts _ _ Hc) as (T1 & T2 & T3). rewrite endpoint_at_eq by done.
    unfold same_policy. cbn -[TrimSpace]. rewrite L1, L2, L3, T1, !or_default_set by done. by split_and!.
  - intros id r Hid. destruct (E5 _ _ Hid) as (r' & Hr' & K & Hp). unfold endpoint_at. rewrite withDefaults_lookup by done.
    change (ep_Routes (e' <| ep_ID := k |>)) with e'.(ep_Routes). rewrite Hr'. cbn [fmap option_fmap option_map]. eexists. split; [done|].
    destruct (route_at_kept id r') as (K' & A1 & A2 & A3 & A4). split; [by rewrite K'|]. destruct Hp as [?|(B1 & B2 & B3 & B4)]; [by left|right].
    unfold same_route_policy. rewrite A1, A2, A3, A4; [by split_and!|]. rewrite B4. by eapply canonical_policy_source.
Qed.

(** *** The whole merge *)
Section summary.
Context `{RemoteCrypto} `{!RemoteCryptoLaws} (marshalCandidate : EndpointCandidate → string).

(** The full name of no candidate is taken, and no two of their fingerprints have the same digest. *)
Record names_free (m : gmap string Endpoint) (candidates : list EndpointCandidate) : Prop := {
  nf_free c : c ∈ candidates → m !! full_name c.(ec_Identity).(di_DeviceFingerprint) = None;
  nf_digests c c' : c ∈ candidates → c' ∈ candidates → Sum256 c.(ec_Identity).(di_DeviceFingerprint) = Sum256 c'.(ec_Identity).(di_DeviceFingerprint) →
    c.(ec_Identity).(di_DeviceFingerprint) = c'.(ec_Identity).(di_DeviceFingerprint) }.

Lemma start_inv r candidates : canonical_registry r → loop_inv r.(rg_Endpoints) candidates r.(rg_Endpoints).
Proof.
  intros Hr. split; [|by apply cr_apart|intros k e He; left; by exists e]. intros k e He. pose proof (cr_endpoints _ Hr _ _ He) as Hc.
  split; [by apply ce_id|]. intros id x Hx. by destruct (ce_routes _ _ Hc _ _ Hx) as (_ & ? & _).
Qed.

Lemma assemble_summary input res r0 : Normalize input.(ei_Registry) = Ok r0 → names_free r0.(rg_Endpoints) input.(ei_Candidates) →
  AssembleEndpoints marshalCandidate input = Ok res →
  canonical_registry res.(er_Registry)
  ∧ (∃ m, bound input.(ei_ConfirmedIdentityBindings) r0.(rg_Endpoints) m ∧
       ∀ k e, m !! k = Some e → ∃ e', res.(er_Registry).(rg_Endpoints) !! k = Some e' ∧ evolves (some_owner input.(ei_Candidates)) e e')
  ∧ (∀ i c, input.(ei_Candidates) !! i = Some c → ∃ id e', res.(er_ResolvedEndpointIDs) !! i = Some id
       ∧ res.(er_Registry).(rg_Endpoints) !! id = Some e' ∧ e'.(ep_DaemonIdentity) = c.(ec_Identity))
  ∧ (∀ k e, res.(er_Registry).(rg_Endpoints) !! k = Some e → is_Some (r0.(rg_Endpoints) !! k) ∨ ∃ c, c ∈ input.(ei_Candidates) ∧ e.(ep_DaemonIdentity) = c.(ec_Identity)).
Proof.
  intros HN [Hfree Hdig]. unfold AssembleEndpoints. rewrite HN. cbn [result_bind]. destruct (forallb candidate_ok _) eqn:Eok; [|done]. cbn [negb].
  destruct (normalize_sound _ _ HN) as (Hr0 & _ & _). destruct (applyConfirmedIdentityBindings _ _ _) as [r1|] eqn:Eb; [|done]. cbn [result_bind].
  destruct (confirmed_bound _ _ _ _ Hr0 Eb) as [Hr1 Hbound]. destruct (assemble_candidates _ _) as [a|] eqn:Ea; [|done]. cbn [result_bind].
  destruct (Normalize (as_registry a)) as [out|] eqn:Eout; [|done]. cbn [result_bind]. destruct (normalizeCredentialDescriptors _) as [ds|]; [|done].
  cbn [result_bind]. intros [= <-]. cbn [er_Registry er_ResolvedEndpointIDs]. destruct (normalize_sound _ _ Eout) as (Hout & Em & _).
  assert (Hvalid : ∀ c, c ∈ input.(ei_Candidates) → identity_ok c.(ec_Identity) true = true).
  { intros c Hc%list_elem_of_In. rewrite forallb_forall in Eok. specialize (Eok c Hc). unfold candidate_ok in Eok.
    by apply andb_true_iff in Eok as [[_ ?]%andb_true_iff _]. }
  assert (Hdom : ∀ k, r0.(rg_Endpoints) !! k = None → r1.(rg_Endpoints) !! k = None).
  { intros k Hk. specialize (Hbound k). rewrite Hk in Hbound. by destruct (_ !! k). }
  apply (assemble_candidates_run r1.(rg_Endpoints) input.(ei_Candidates)) in Ea as (Hi & Hev & Hres & _);
    [|intros c Hc; by apply Hdom, Hfree|exact Hdig|exact Hvalid|by apply start_inv| |apply ordered_slots].
  2: { apply Forall_forall. intros ic Hic%ordered_from. cbn [as_resolved]. by rewrite length_replicate. }
  cbn [as_registry] in Hev. assert (Hentry : ∀ k e, a.(as_registry).(rg_Endpoints) !! k = Some e → entry_ok k e).
  { intros k e He. apply Normalize_spec in Eout as [_ [(E0 & _)|(_ & [Hoks _] & _)]]; [by rewrite E0 in He|by apply Hoks]. }
  assert (Hlook : ∀ k e, a.(as_registry).(rg_Endpoints) !! k = Some e → out.(rg_Endpoints) !! k = Some (endpoint_at k e)).
  { intros k e He. by rewrite Em, normal_endpoints_lookup, He. }
  assert (Hident : ∀ k e, entry_ok k e → (endpoint_at k e).(ep_DaemonIdentity) = e.(ep_DaemonIdentity)) by (intros k e (Hk & _); by apply endpoint_at_fields).
  split_and!; [done|..].
  - exists r1.(rg_Endpoints). split; [done|]. intros k e He. destruct (Hev _ _ He) as (e2 & He2 & Ev). exists (endpoint_at k e2). split; [by apply Hlook|].
    apply evolves_normal; [by apply (cr_endpoints _ Hr1)|done|by apply Hentry].
  - intros i c Hc. destruct (ordered_complete marshalCandidate _ _ _ Hc) as (c' & Hc' & Ec'). destruct (Hres _ Hc') as (id & e & H1 & H2 & H3).
    cbn in H1. rewrite Nat2Z.id in H1. exists id, (endpoint_at id e). split_and!; [done|by apply Hlook|]. rewrite Hident by (by apply Hentry).
    rewrite H3. exact Ec'.
  - intros k e. rewrite Em, normal_endpoints_lookup. intros (e2 & He2 & ->)%fmap_Some. destruct (li_origin _ _ _ Hi _ _ He2) as [[x Hx]|(c & n & Hc & Ei & _)].
    + left. specialize (Hbound k). rewrite Hx in Hbound. destruct (r0.(rg_Endpoints) !! k) as [y|]; [by exists y|done].
    + right. exists c. split; [done|]. by rewrite Hident by (by apply Hentry).
Qed.
End summary.
