(* ===== verification/EndpointTheorems.v ===== *)
(** * The promises of the endpoint registry

    Normalization is a projection onto the canonical registries, a route plan covers every route exactly once, the
    availability shown to the user is what can be selected, and disabling an endpoint keeps a default. *)
From S2P Require Import Prelude GoStd GoText RemoteGrant RemoteGrantTheorems EndpointContracts EndpointRegistry EndpointPlanner EndpointAssembler.
From Stdlib Require Import Ascii String.
From stdpp Require Import pretty.
Local Open Scope string_scope.
Local Open Scope list_scope.
Local Open Scope Z_scope.
Local Open Scope bool_scope.

(** ** Normalization *)

(** C28: What [Normalize] returns is canonical: normalizing it again changes nothing, every entry has its own identifier,
    its defaults and passes [Validate], no device and no key fingerprint is pinned to two endpoints, and the default is an
    enabled endpoint unless the registry is empty. No endpoint is added, lost or given another identity. *)
Theorem normalize_canonical registry out : Normalize registry = Ok out →
  Normalize out = Ok out
  ∧ (∀ k e, out.(rg_Endpoints) !! k = Some e →
       e.(ep_ID) = k ∧ endpoint_valid e = true ∧ ∀ id r, e.(ep_Routes) !! id = Some r → r.(ar_ID) = id ∧ route_withDefaults r = r)
  ∧ pinned_apart out.(rg_Endpoints)
  ∧ (if decide (out.(rg_Endpoints) = ∅) then out.(rg_Default) = "" else enabled_at out.(rg_Endpoints) out.(rg_Default))
  ∧ ∀ k, ep_DaemonIdentity <$> out.(rg_Endpoints) !! k = ep_DaemonIdentity <$> registry.(rg_Endpoints) !! k.
Proof.
  intros H. destruct (normalize_sound _ _ H) as (Hc & Eout & _). split_and!.
  - by apply canonical_normalize.
  - intros k e He. pose proof (cr_endpoints _ Hc _ _ He) as Hce. split_and!; [by eapply ce_id|by eapply ce_valid|].
    intros id r Hr. by destruct (ce_routes _ _ Hce _ _ Hr) as (_ & ? & ?).
  - by apply cr_apart.
  - by apply cr_default.
  - intros k. destruct (out.(rg_Endpoints) !! k) as [e|] eqn:He.
    + pose proof (ce_key _ _ (cr_endpoints _ Hc _ _ He)) as Hk. rewrite Eout, normal_endpoints_lookup in He. apply fmap_Some in He as (e0 & -> & ->).
      cbn. f_equal. by apply endpoint_at_fields.
    + rewrite Eout, normal_endpoints_lookup in He. by apply fmap_None in He as ->.
Qed.

(** ** The route plan *)

Record request_ok (request : RouteSelectionRequest) : Prop := {
  rq_canonical : canonical_endpoint request.(rr_Endpoint).(ep_ID) request.(rr_Endpoint);
  rq_enabled : request.(rr_Endpoint).(ep_Enabled) = true;
  rq_generation : request.(rr_Generation) ≠ 0;
  rq_intent : TrimSpace request.(rr_Intent).(ci_Kind) ≠ "";
  rq_kinds : Forall (λ v, v ∈ route_kinds) request.(rr_SupportedRouteKinds);
  rq_refs : Forall (λ v, credential_ref_ok v = true) request.(rr_AvailableCredentialRefs) }.

Section plan.
Context (request : RouteSelectionRequest).
Implicit Types (r : AccessRoute).
Notation target := request.(rr_Endpoint).

Definition preferred r : Prop := routeMatchesPreference r.(ar_Kind) target.(ep_SelectionPolicy).(sp_RoutePreference) = true.
Definition supported r : Prop := r.(ar_Kind) ∈ request.(rr_SupportedRouteKinds).
Definition has_credentials r : Prop :=
  ∀ ref, ref ∈ [r.(ar_CredentialRef); r.(ar_SSHCredentialRef)] → ref = "" ∨ ref ∈ request.(rr_AvailableCredentialRefs).
Definition eligible r : Prop := automatic r = true ∧ preferred r ∧ supported r ∧ has_credentials r.
(** Why a route is left out: the conditions exclude each other. *)
Definition left_out r (reason : RoutePlanDiagnosticReason) : Prop :=
  match reason with
  | RoutePlanRouteDisabled => r.(ar_Enabled) = false
  | RoutePlanManualOnly => r.(ar_Enabled) = true ∧ r.(ar_ManualOnly) = true
  | RoutePlanPreferenceMismatch => automatic r = true ∧ ¬ preferred r
  | RoutePlanPlatformUnsupported => automatic r = true ∧ preferred r ∧ ¬ supported r
  | RoutePlanCredentialUnavailable => automatic r = true ∧ preferred r ∧ supported r ∧ ¬ has_credentials r
  end.
Definition reason_code (reason : RoutePlanDiagnosticReason) : goerr :=
  match reason with RoutePlanCredentialUnavailable => ErrorCredentialRequired | _ => ErrorRouteUnavailable end.

Lemma missing_credential r : missingRouteCredential r (list_to_set request.(rr_AvailableCredentialRefs)) = "" ↔ has_credentials r.
Proof.
  unfold missingRouteCredential, has_credentials. generalize [ar_CredentialRef r; ar_SSHCredentialRef r]. intros refs.
  induction refs as [|ref refs IH]; cbn [missing_ref]; [split; [by intros _ ref ?%elem_of_nil|done]|].
  unfold is_empty. destruct (String.eqb_spec ref "") as [->|Hne].
  - rewrite IH. split; [intros H x [->|Hx]%elem_of_cons; [by left|by apply H]|]. intros H x Hx. apply H. by right.
  - case_decide as Hin; rewrite elem_of_list_to_set in Hin.
    + rewrite IH. split; [intros H x [->|Hx]%elem_of_cons; [by right|by apply H]|]. intros H x Hx. apply H. by right.
    + split; [done|]. intros H. destruct (H ref) as [?|?]; [left|done|done].
Qed.

Lemma diagnostic_spec r : planned_kind r.(ar_Kind) = true →
  match route_diagnostic target.(ep_SelectionPolicy).(sp_RoutePreference) (list_to_set request.(rr_SupportedRouteKinds))
          (list_to_set request.(rr_AvailableCredentialRefs)) r with
  | None => eligible r
  | Some d => d = mkDiagnostic r.(ar_ID) (reason_code d.(pd_Reason)) d.(pd_Reason) ∧ left_out r d.(pd_Reason)
  end.
Proof.
  intros Hk. unfold route_diagnostic, left_out, eligible, automatic, preferred, supported.
  destruct (ar_Enabled r) eqn:E1; cbn [negb andb pd_Reason reason_code]; [|done]. destruct (ar_ManualOnly r) eqn:E2; cbn [negb andb pd_Reason reason_code]; [done|].
  destruct (routeMatchesPreference _ _) eqn:E3; cbn [negb pd_Reason reason_code]; [|done].
  case_bool_decide as E4; rewrite elem_of_list_to_set in E4; cbn [negb pd_Reason reason_code]; [|done].
  unfold is_empty. destruct (String.eqb_spec (missingRouteCredential r (list_to_set request.(rr_AvailableCredentialRefs))) "") as [E5|E5];
    rewrite missing_credential in E5; cbn [negb pd_Reason reason_code]; [by rewrite Hk|done].
Qed.
Lemma left_out_not_eligible r reason : left_out r reason → ¬ eligible r.
Proof.
  unfold eligible, automatic. destruct reason; cbn [left_out]; unfold automatic.
  - by intros -> [? _].
  - by intros [-> ->] [? _].
  - by intros (_ & _ & ?) (_ & _ & ? & _).
  - by intros (_ & _ & _ & ?) (_ & _ & _ & ?).
  - by intros (_ & ?) (_ & ? & _).
Qed.
End plan.

Lemma left_out_unique request r a b : left_out request r a → left_out request r b → a = b.
Proof.
  destruct a, b; cbn [left_out]; unfold automatic; try done; destruct (ar_Enabled r), (ar_ManualOnly r); cbn; intuition (done || congruence).
Qed.
Lemma canonical_route_kind k e id r : canonical_endpoint k e → e.(ep_Routes) !! id = Some r → planned_kind r.(ar_Kind) = true.
Proof.
  intros Hc Hr. assert (Hk : forallb (route_entry_ok e.(ep_DaemonIdentity)) (map_to_list e.(ep_Routes)) = true).
  { pose proof (ce_valid _ _ Hc) as Hv. unfold endpoint_valid in Hv. destruct (forallb _ (map_to_list _)); [done|]. by rewrite andb_false_r in Hv. }
  rewrite forallb_forall in Hk. specialize (Hk (id, r)). rewrite <- list_elem_of_In, elem_of_map_to_list in Hk. specialize (Hk Hr).
  unfold route_entry_ok in Hk. apply andb_true_iff in Hk as [_ Hk]. unfold route_valid in Hk. apply andb_true_iff in Hk as [_ Hk].
  unfold kind_ok in Hk. change (ar_Kind (_ <| ar_ID := _ |>)) with r.(ar_Kind) in Hk. unfold planned_kind, one_of. cbn [existsb].
  destruct (String.eqb r.(ar_Kind) RouteLocalUnix); [done|]. destruct (String.eqb r.(ar_Kind) RouteSSHWebRTCTCP); [by rewrite orb_true_r|].
  destruct (String.eqb r.(ar_Kind) RouteDirectWebRTCTCP); [done|]. by destruct (String.eqb r.(ar_Kind) RouteManagedWebRTC).
Qed.

(** What [Plan] and [EvaluateRouteAvailability] read from a request that is well formed. *)
Lemma kinds_ok request : request_ok request → routeKindSet request.(rr_SupportedRouteKinds) = Ok (list_to_set request.(rr_SupportedRouteKinds)).
Proof.
  intros Hok. unfold routeKindSet. rewrite (proj2 (forallb_forall (λ v, one_of v route_kinds) _)); [done|]. intros v Hv%list_elem_of_In.
  pose proof (rq_kinds _ Hok) as H. rewrite Forall_forall in H. apply existsb_exists. exists v. split; [by apply list_elem_of_In, H|apply String.eqb_refl].
Qed.
Lemma refs_ok request : request_ok request → credentialRefSet request.(rr_AvailableCredentialRefs) = Ok (list_to_set request.(rr_AvailableCredentialRefs)).
Proof.
  intros Hok. unfold credentialRefSet. rewrite (proj2 (forallb_forall credential_ref_ok _)); [done|]. intros v Hv%list_elem_of_In.
  pose proof (rq_refs _ Hok) as H. rewrite Forall_forall in H. by apply H.
Qed.
Lemma Plan_request request override : request_ok request →
  let target := request.(rr_Endpoint) in
  let supported : gset string := list_to_set request.(rr_SupportedRouteKinds) in
  let credentials : gset string := list_to_set request.(rr_AvailableCredentialRefs) in
  Plan (mkRequest target request.(rr_Intent) override request.(rr_Generation) request.(rr_SupportedRouteKinds) request.(rr_AvailableCredentialRefs))
  = if negb (is_empty override) then
      match Route_ target override with
      | None => Err ErrorRouteUnavailable
      | Some r =>
          if negb r.(ar_Enabled) then Err ErrorRouteUnavailable
          else match validatePlannedRoute r supported credentials with
               | Some err => Err err
               | None => Ok (newRouteSelectionPlan target request.(rr_Intent) request.(rr_Generation) [mkGroup r.(ar_Priority) [r]] 0 [])
               end
      end
    else
      let diagnose := route_diagnostic target.(ep_SelectionPolicy).(sp_RoutePreference) supported credentials in
      let automatic := filter (λ r, diagnose r = None) (RouteList target) in
      let diagnostics := omap diagnose (RouteList target) in
      if len automatic =? 0 then Err (if existsb credential_blocked diagnostics then ErrorCredentialRequired else ErrorRouteUnavailable)
      else Ok (newRouteSelectionPlan target request.(rr_Intent) request.(rr_Generation) (groupAutomaticRoutes automatic)
                 target.(ep_SelectionPolicy).(sp_HedgeDelay) (merge_sort diagnostic_before diagnostics)).
Proof.
  intros Hok. cbv zeta. unfold Plan.
  cbn [rr_Endpoint rr_Intent rr_RouteOverride rr_Generation rr_SupportedRouteKinds rr_AvailableCredentialRefs].
  rewrite (ce_valid _ _ (rq_canonical _ Hok)), (rq_enabled _ Hok). cbn [negb].
  rewrite (proj2 (Z.eqb_neq _ _) (rq_generation _ Hok)). unfold is_empty at 1. rewrite (proj2 (String.eqb_neq _ _) (rq_intent _ Hok)).
  rewrite (kinds_ok _ Hok), (refs_ok _ Hok). cbn [result_bind]. by rewrite select_routes_spec.
Qed.

(** The promise of a plan. *)
Record plan_of (request : RouteSelectionRequest) (plan : RouteSelectionPlan) : Prop := {
  po_endpoint : plan.(pl_endpointID) = request.(rr_Endpoint).(ep_ID) ∧ plan.(pl_generation) = request.(rr_Generation);
  po_attempts a : a ∈ concat (ag_attempts <$> plan.(pl_groups)) ↔
    ∃ r, request.(rr_Endpoint).(ep_Routes) !! r.(ar_ID) = Some r ∧ eligible request r
      ∧ a = new_attempt request.(rr_Endpoint) request.(rr_Intent) request.(rr_Generation) r;
  po_distinct : NoDup (ra_AttemptID <$> concat (ag_attempts <$> plan.(pl_groups)));
  po_groups i g : plan.(pl_groups) !! i = Some g →
    g.(ag_attempts) ≠ [] ∧ g.(ag_startDelay) = Z.of_nat i * request.(rr_Endpoint).(ep_SelectionPolicy).(sp_HedgeDelay)
    ∧ Forall (λ a, a.(ra_Route).(ar_Priority) = g.(ag_priority)) g.(ag_attempts);
  po_order i j gi gj : (i < j)%nat → plan.(pl_groups) !! i = Some gi → plan.(pl_groups) !! j = Some gj →
    ∃ p q, gi.(ag_priority) = Some p ∧ gj.(ag_priority) = Some q ∧ p < q;
  po_diagnostics d : d ∈ plan.(pl_diagnostics) ↔
    ∃ r, request.(rr_Endpoint).(ep_Routes) !! r.(ar_ID) = Some r ∧ left_out request r d.(pd_Reason)
      ∧ d = mkDiagnostic r.(ar_ID) (reason_code d.(pd_Reason)) d.(pd_Reason);
  po_sorted : Sorted string_before (pd_RouteID <$> plan.(pl_diagnostics)) ∧ NoDup (pd_RouteID <$> plan.(pl_diagnostics)) }.

Section covers.
Context (request : RouteSelectionRequest) (Hok : request_ok request).
Notation target := request.(rr_Endpoint).
Notation hedge := target.(ep_SelectionPolicy).(sp_HedgeDelay).
Let Hc := rq_canonical request Hok.
Let diagnose := route_diagnostic target.(ep_SelectionPolicy).(sp_RoutePreference) (list_to_set request.(rr_SupportedRouteKinds))
                  (list_to_set request.(rr_AvailableCredentialRefs)).
Let automatic_routes := filter (λ r, diagnose r = None) (RouteList target).
Let diagnostics := omap diagnose (RouteList target).

Lemma diagnose_route r : target.(ep_Routes) !! r.(ar_ID) = Some r →
  match diagnose r with
  | None => eligible request r
  | Some d => d = mkDiagnostic r.(ar_ID) (reason_code d.(pd_Reason)) d.(pd_Reason) ∧ left_out request r d.(pd_Reason)
  end.
Proof. intros Hr. apply diagnostic_spec. by eapply canonical_route_kind. Qed.

Lemma elem_of_automatic r : r ∈ automatic_routes ↔ target.(ep_Routes) !! r.(ar_ID) = Some r ∧ eligible request r.
Proof.
  unfold automatic_routes. rewrite list_elem_of_filter, (elem_of_RouteList _ _ Hc). split; intros [H1 H2].
  - split; [done|]. pose proof (diagnose_route r H2) as Hd. by rewrite H1 in Hd.
  - split; [|done]. pose proof (diagnose_route r H1) as Hd. destruct (diagnose r) as [d|]; [|done]. destruct Hd as [_ Hd]. by apply left_out_not_eligible in Hd.
Qed.
Lemma elem_of_diagnostics d : d ∈ diagnostics ↔
  ∃ r, target.(ep_Routes) !! r.(ar_ID) = Some r ∧ left_out request r d.(pd_Reason) ∧ d = mkDiagnostic r.(ar_ID) (reason_code d.(pd_Reason)) d.(pd_Reason).
Proof.
  unfold diagnostics. rewrite list_elem_of_omap. split; intros (r & Hr & H); exists r.
  - apply (elem_of_RouteList _ _ Hc) in Hr. pose proof (diagnose_route r Hr) as Hd. rewrite H in Hd. by destruct Hd.
  - destruct H as [Hl Hd]. split; [by apply (elem_of_RouteList _ _ Hc)|]. pose proof (diagnose_route r Hr) as Hd'.
    destruct (diagnose r) as [d'|]; [|by apply left_out_not_eligible in Hl]. destruct Hd' as [Ed Hl'].
    f_equal. rewrite Ed, Hd. by rewrite (left_out_unique _ _ _ _ Hl Hl').
Qed.
Lemma diagnostics_ids : pd_RouteID <$> diagnostics = ar_ID <$> filter (λ r, ¬ diagnose r = None) (RouteList target).
Proof.
  unfold diagnostics. assert (Hl : ∀ r, r ∈ RouteList target → target.(ep_Routes) !! r.(ar_ID) = Some r) by (intros r; by apply (elem_of_RouteList _ _ Hc)).
  induction (RouteList target) as [|r l IH]; [done|]. cbn [omap list_omap]. pose proof (diagnose_route r (Hl r (list_elem_of_here _ _))) as Hd.
  assert (IH' := IH (λ x Hx, Hl x (list_elem_of_further _ _ _ Hx))). destruct (diagnose r) as [d|] eqn:Ed.
  - rewrite filter_cons_True by (by rewrite Ed). cbn [fmap list_fmap]. destruct Hd as [-> _]. cbn. by f_equal.
  - by rewrite filter_cons_False by (rewrite Ed; intros Hn; by apply Hn).
Qed.
Lemma diagnostics_NoDup : NoDup (pd_RouteID <$> diagnostics).
Proof.
  rewrite diagnostics_ids. eapply sublist_NoDup; [by eapply RouteList_ids_NoDup|]. apply fmap_sublist, sublist_filter.
Qed.
Lemma automatic_ids : NoDup (ar_ID <$> automatic_routes).
Proof. eapply sublist_NoDup; [by eapply RouteList_ids_NoDup|]. apply fmap_sublist, sublist_filter. Qed.
Lemma automatic_is_uniform : uniform automatic_routes.
Proof. eapply automatic_uniform; [done|]. intros r [Hr (Ha & _)]%elem_of_automatic. by split. Qed.
End covers.

(** *** From groups to attempts *)
Lemma concat_imap {A B C} (f : nat → A → list C) (g : A → list B) (h : B → C) (l : list A) :
  (∀ i x, f i x = h <$> g x) → concat (imap f l) = h <$> concat (g <$> l).
Proof.
  intros Hf. revert f Hf. induction l as [|x l IH]; intros f Hf; [done|]. rewrite imap_cons. cbn [concat fmap list_fmap]. rewrite fmap_app, Hf. f_equal.
  apply IH. intros i y. apply Hf.
Qed.
Lemma plan_attempts target intent generation groups hedge diagnostics :
  concat (ag_attempts <$> pl_groups (newRouteSelectionPlan target intent generation groups hedge diagnostics))
  = new_attempt target intent generation <$> concat (gr_routes <$> groups).
Proof. unfold newRouteSelectionPlan. cbn [pl_groups]. rewrite fmap_imap. by apply concat_imap. Qed.
Lemma attempt_ids target intent generation routes : NoDup (ar_ID <$> routes) →
  NoDup (ra_AttemptID <$> (new_attempt target intent generation <$> routes)).
Proof.
  rewrite <- list_fmap_compose. intros H. assert (E : (ra_AttemptID ∘ new_attempt target intent generation) <$> routes
    = attempt_id target.(ep_ID) generation <$> (ar_ID <$> routes)) by by rewrite <- list_fmap_compose. rewrite E. apply NoDup_fmap_2; [|done].
  intros a b. unfold attempt_id. intros E'. by repeat apply (inj (String.append _)) in E'.
Qed.
Lemma groups_length routes : uniform routes → (List.length (groupAutomaticRoutes routes) ≤ List.length routes)%nat.
Proof.
  intros Hu. rewrite <- (groups_perm _ Hu) at 2. pose proof (groups_nonempty routes) as Hne. induction (groupAutomaticRoutes routes) as [|g gs IH]; [done|].
  cbn [fmap list_fmap concat List.length]. rewrite List.length_app. specialize (IH (λ g Hg, Hne g (list_elem_of_further _ _ _ Hg))).
  destruct (gr_routes g) eqn:E; [by destruct (Hne g (list_elem_of_here _ _))|]. cbn. lia.
Qed.

Section plan_exact.
Context (request : RouteSelectionRequest) (Hok : request_ok request).
Notation target := request.(rr_Endpoint).
Let automatic_routes := filter (λ r, route_diagnostic target.(ep_SelectionPolicy).(sp_RoutePreference) (list_to_set request.(rr_SupportedRouteKinds))
                  (list_to_set request.(rr_AvailableCredentialRefs)) r = None) (RouteList target).
Let diagnostics := omap (route_diagnostic target.(ep_SelectionPolicy).(sp_RoutePreference) (list_to_set request.(rr_SupportedRouteKinds))
                  (list_to_set request.(rr_AvailableCredentialRefs))) (RouteList target).

Lemma plan_of_groups : Z.of_nat (size target.(ep_Routes)) ≤ 268435456 →
  plan_of request (newRouteSelectionPlan target request.(rr_Intent) request.(rr_Generation) (groupAutomaticRoutes automatic_routes)
                     target.(ep_SelectionPolicy).(sp_HedgeDelay) (merge_sort diagnostic_before diagnostics)).
Proof.
  intros Hsize. pose proof (automatic_is_uniform request Hok) as Hu. fold automatic_routes in Hu. pose proof (groups_perm _ Hu) as Hp.
  assert (Hlen : (List.length (groupAutomaticRoutes automatic_routes) ≤ size target.(ep_Routes))%nat).
  { etrans; [by apply groups_length|]. etrans; [apply sublist_length, sublist_filter|]. rewrite <- (length_fmap ar_ID), (RouteList_ids _ _ (rq_canonical _ Hok)).
    rewrite sorted_keys_perm, length_fmap, length_map_to_list. done. }
  split.
  - done.
  - intros a. rewrite plan_attempts, Hp, list_elem_of_fmap. split.
    + intros (r & -> & [Hr He]%(elem_of_automatic request Hok)). by exists r.
    + intros (r & Hr & He & ->). exists r. split; [done|]. by apply (elem_of_automatic request Hok).
  - rewrite plan_attempts. apply attempt_ids. rewrite Hp. by apply automatic_ids.
  - intros i g. cbn [pl_groups newRouteSelectionPlan]. rewrite list_lookup_imap. intros (gr & Hgr & ->)%fmap_Some_1.
    cbn [ag_attempts ag_startDelay ag_priority]. pose proof (list_elem_of_lookup_2 _ _ _ Hgr) as Hin. split_and!.
    + intros E%fmap_nil_inv. by apply groups_nonempty in Hin.
    + pose proof (canonical_hedge _ _ (rq_canonical _ Hok)) as Hh. apply lookup_lt_Some in Hgr. unfold i64. rewrite Z.mod_small by nia. lia.
    + apply Forall_fmap, Forall_forall. intros r Hr. by apply (groups_priority _ _ _ Hu Hin).
  - intros i j gi gj Hij. cbn [pl_groups newRouteSelectionPlan]. rewrite !list_lookup_imap.
    intros (gi' & Hi & ->)%fmap_Some_1 (gj' & Hj & ->)%fmap_Some_1. by apply (groups_sorted _ _ _ _ _ Hij Hi Hj).
  - intros d. cbn [pl_diagnostics newRouteSelectionPlan]. rewrite merge_sort_Permutation. by apply elem_of_diagnostics.
  - cbn [pl_diagnostics newRouteSelectionPlan]. split.
    + assert (Hs : Sorted diagnostic_before (merge_sort diagnostic_before diagnostics)).
      { apply Sorted_merge_sort. intros a b. destruct (String.leb_total a.(pd_RouteID) b.(pd_RouteID)); [by left|by right]. }
      induction Hs as [|d l Hl IH Hd]; [constructor|]. cbn. constructor; [done|]. destruct Hd; by constructor.
    + rewrite merge_sort_Permutation. by apply diagnostics_NoDup.
Qed.
End plan_exact.

(** C7: For every request of a normalized, enabled endpoint without an override, [Plan] either returns a plan or says why
    there is none. A plan attempts exactly the routes that are enabled, automatic, preferred, supported and have their
    credentials, each once and under its own attempt identifier; the routes of a group have the group's priority, the
    priorities grow from group to group and group [i] starts after [i] hedge delays; every other route has one diagnostic,
    with the first condition it fails. There is no plan only if no route qualifies, and then a credential is asked for
    exactly when some route lacks nothing else. *)
Theorem plan_exact request : request_ok request → request.(rr_RouteOverride) = "" → Z.of_nat (size request.(rr_Endpoint).(ep_Routes)) ≤ 268435456 →
  match Plan request with
  | Ok plan => plan_of request plan
  | Err err =>
      (∀ id r, request.(rr_Endpoint).(ep_Routes) !! id = Some r → ¬ eligible request r)
      ∧ (err = ErrorCredentialRequired ∧ (∃ id r, request.(rr_Endpoint).(ep_Routes) !! id = Some r ∧ left_out request r RoutePlanCredentialUnavailable)
         ∨ err = ErrorRouteUnavailable ∧ ∀ id r, request.(rr_Endpoint).(ep_Routes) !! id = Some r → ¬ left_out request r RoutePlanCredentialUnavailable)
  end.
Proof.
  intros Hok Hover Hsize. assert (E : Plan request = Plan (mkRequest request.(rr_Endpoint) request.(rr_Intent) "" request.(rr_Generation)
      request.(rr_SupportedRouteKinds) request.(rr_AvailableCredentialRefs))) by (rewrite <- Hover; by destruct request).
  rewrite E, (Plan_request _ _ Hok). clear E. change (is_empty "") with true. cbn [negb].
  pose proof (plan_of_groups request Hok Hsize) as Hplan. pose proof (elem_of_automatic request Hok) as Ha. pose proof (elem_of_diagnostics request Hok) as Hd.
  set (autos := filter _ _) in *. set (diags := omap _ _) in *. destruct autos as [|a rest] eqn:Ea; [|exact Hplan]. cbn [len List.length Z.of_nat Z.eqb].
  assert (Hid : ∀ id r, request.(rr_Endpoint).(ep_Routes) !! id = Some r → request.(rr_Endpoint).(ep_Routes) !! r.(ar_ID) = Some r).
  { intros id r Hr. by destruct (ce_routes _ _ (rq_canonical _ Hok) _ _ Hr) as (_ & -> & _). }
  split; [intros id r Hr%Hid He; apply (not_elem_of_nil r); by apply Ha|].
  destruct (existsb credential_blocked diags) eqn:Eb; [left|right]; (split; [done|]).
  - apply existsb_exists in Eb as (d & Hin%list_elem_of_In & Hb). apply Hd in Hin as (r & Hr & Hl & _). exists r.(ar_ID), r. split; [done|].
    unfold credential_blocked in Hb. by destruct (pd_Reason d).
  - intros id r Hr%Hid Hl. apply not_true_iff_false in Eb. apply Eb, existsb_exists.
    exists (mkDiagnostic r.(ar_ID) ErrorCredentialRequired RoutePlanCredentialUnavailable). split; [|done]. apply list_elem_of_In, Hd. by exists r.
Qed.

(** ** Availability *)

(** C29: A route is shown as available exactly when choosing it gives a plan: [Plan] with the route as its override
    succeeds, with a single attempt at once, and a managed route is still enabled in the planning endpoint. One entry is
    shown for every route. *)
Theorem availability_is_selectable request planning items : request_ok request →
  EvaluateRouteAvailability request.(rr_Endpoint) planning request.(rr_SupportedRouteKinds) request.(rr_AvailableCredentialRefs) = Ok items →
  va_RouteID <$> items = sorted_keys request.(rr_Endpoint).(ep_Routes)
  ∧ ∀ item, item ∈ items → ∃ r, request.(rr_Endpoint).(ep_Routes) !! item.(va_RouteID) = Some r ∧ item.(va_Kind) = r.(ar_Kind)
    ∧ (item.(va_Available) = true ↔
        (r.(ar_Kind) = RouteManagedWebRTC →
           ∃ p, (if is_empty planning.(ep_ID) then request.(rr_Endpoint) else planning).(ep_Routes) !! r.(ar_ID) = Some p ∧ p.(ar_Enabled) = true)
        ∧ Plan (mkRequest request.(rr_Endpoint) request.(rr_Intent) r.(ar_ID) request.(rr_Generation) request.(rr_SupportedRouteKinds)
                  request.(rr_AvailableCredentialRefs))
          = Ok (mkPlan request.(rr_Endpoint).(ep_ID) request.(rr_Generation)
                  [mkAttemptGroup r.(ar_Priority) 0 [new_attempt request.(rr_Endpoint) request.(rr_Intent) request.(rr_Generation) r]] [])).
Proof.
  intros Hok. set (e := request.(rr_Endpoint)). unfold EvaluateRouteAvailability. pose proof (rq_canonical _ Hok) as Hc. fold e in Hc.
  rewrite (ce_valid _ _ Hc). cbn [negb]. set (pe := if is_empty planning.(ep_ID) then e else planning). destruct (negb (String.eqb _ _)); [done|].
  destruct (negb (endpoint_valid pe)); [done|]. rewrite (kinds_ok _ Hok), (refs_ok _ Hok). cbn [result_bind]. intros [= <-]. split.
  { rewrite <- list_fmap_compose, <- (RouteList_ids _ _ Hc). apply list_fmap_ext. intros i r _. cbn. unfold route_availability.
    destruct (negb (ar_Enabled r)); [done|]. destruct (_ && _); [done|]. destruct (negb (bool_decide _)); [done|]. by destruct (negb (is_empty _)). }
  intros item (r & -> & Hr%(elem_of_RouteList _ _ Hc))%list_elem_of_fmap. exists r.
  destruct (Route_at _ _ Hc r Hr) as [Hroute Hne]. pose proof (canonical_route_kind _ _ _ _ Hc Hr) as Hkind.
  rewrite (Plan_request _ _ Hok). fold e. rewrite (proj2 (String.eqb_neq _ _) Hne : is_empty r.(ar_ID) = false). cbn [negb]. rewrite Hroute.
  unfold validatePlannedRoute. rewrite Hkind. cbn [negb].
  unfold route_availability. destruct (ar_Enabled r) eqn:Een; cbn [negb va_RouteID va_Kind va_Available]; [|split_and!; [done..|split; [done|by intros [_ ?]]]].
  destruct (String.eqb_spec r.(ar_Kind) RouteManagedWebRTC) as [Em|Em]; cbn [andb].
  - destruct (ep_Routes pe !! ar_ID r) as [p|] eqn:Ep; [destruct (ar_Enabled p) eqn:Epe|]; cbn [negb].
    2,3: split_and!; [done..|split; [done|]]; intros [H _]; destruct (H Em) as (p' & Hp' & He'); congruence.
    destruct (negb (bool_decide _)); [|destruct (negb (is_empty _))]; (split_and!; [done..|]); cbn [va_Available]; split; try done; try by intros [_ ?].
    intros _. split; [|done]. intros _. by exists p.
  - destruct (negb (bool_decide _)); [|destruct (negb (is_empty _))]; (split_and!; [done..|]); cbn [va_Available]; split; try done; by intros [_ ?].
Qed.

(** ** Switching an endpoint on and off *)
Lemma canonical_enabled k e b : canonical_endpoint k e → canonical_endpoint k (e <| ep_Enabled := b |>).
Proof.
  intros Hc. destruct Hc as [Hk Hid Hv Hd (H1 & H2 & H3 & H4) Hr].
  assert (Hd' : endpoint_at k (e <| ep_Enabled := b |>) = e <| ep_Enabled := b |>).
  { rewrite endpoint_at_eq by done. rewrite endpoint_at_eq in Hd by done. destruct e. cbv [set_field] in *. cbn -[TrimSpace] in *. injection Hd as -> -> -> -> Hd.
    by rewrite Hd. }
  split; try done. split_and!; try done. by rewrite Hd'.
Qed.

(** A registry stays canonical when an entry is replaced by a canonical one of the same identity. *)
Lemma canonical_replace r id e e' default : canonical_registry r → r.(rg_Endpoints) !! id = Some e → canonical_endpoint id e' →
  e'.(ep_DaemonIdentity) = e.(ep_DaemonIdentity) → enabled_at (<[id := e']> r.(rg_Endpoints)) default →
  canonical_registry ((set_endpoint r id e') <| rg_Default := default |>).
Proof.
  intros [Hv Hc Hap _] He Hce Hi Hen. split; cbn; [done|by apply map_Forall_insert_2| |].
  - eapply apart_same; [|exact Hap]. intros k. destruct (decide (k = id)) as [->|Hne]; [|by rewrite lookup_insert_ne].
    rewrite lookup_insert_eq, He. cbn. by f_equal.
  - rewrite decide_False by apply insert_non_empty. done.
Qed.

(** For an endpoint of a normalized registry, [SetEndpointEnabled] changes its switch and nothing else, keeps the
    default unless that is the endpoint being disabled, and then moves it to an enabled endpoint, one with an enabled local
    route when there is one. It fails, as a configuration error, only when no enabled endpoint would be left. *)
Theorem set_enabled_exact registry r id e enabled : Normalize registry = Ok r → r.(rg_Endpoints) !! id = Some e →
  let endpoints := <[id := e <| ep_Enabled := enabled |>]> r.(rg_Endpoints) in
  match SetEndpointEnabled registry id enabled with
  | Ok out =>
      Normalize out = Ok out ∧ out.(rg_Endpoints) = endpoints ∧ enabled_at endpoints out.(rg_Default)
      ∧ (enabled = true ∨ r.(rg_Default) ≠ id → out.(rg_Default) = r.(rg_Default))
      ∧ (enabled = false → r.(rg_Default) = id →
           (∃ k e', endpoints !! k = Some e' ∧ e'.(ep_Enabled) = true ∧ has_local_route e' = true) →
           ∃ e', endpoints !! out.(rg_Default) = Some e' ∧ has_local_route e' = true)
  | Err err => err = ErrorConfig ∧ enabled = false ∧ r.(rg_Default) = id ∧ ∀ k e', endpoints !! k = Some e' → e'.(ep_Enabled) = false
  end.
Proof.
  intros HN He endpoints. destruct (normalize_sound _ _ HN) as (Hr & _ & _). pose proof (cr_endpoints _ Hr _ _ He) as Hce.
  unfold SetEndpointEnabled. rewrite HN. cbn [result_bind]. unfold normalizeEndpointID. rewrite (identifier_trim _ (ce_key _ _ Hce)), He.
  set (e' := e <| ep_Enabled := enabled |>) in *. assert (Hce' : canonical_endpoint id e') by by apply canonical_enabled.
  set (next := set_endpoint r id e'). change (rg_Default next) with r.(rg_Default).
  assert (Hkeep : ∀ default, enabled_at endpoints default → Normalize (next <| rg_Default := default |>) = Ok (next <| rg_Default := default |>)).
  { intros default Hen. apply canonical_normalize. by eapply canonical_replace. }
  assert (Hdefault : enabled_at r.(rg_Endpoints) r.(rg_Default)).
  { pose proof (cr_default _ Hr) as Hd. by rewrite decide_False in Hd by (intros E; by rewrite E in He). }
  destruct (enabled || negb (String.eqb r.(rg_Default) id)) eqn:Eb.
  - assert (Hen : enabled_at endpoints r.(rg_Default)).
    { destruct Hdefault as (d & Hd & Hde). unfold enabled_at, endpoints. destruct (decide (r.(rg_Default) = id)) as [E|Hne].
      - rewrite E, String.eqb_refl, orb_false_r in Eb. exists e'. by rewrite E, lookup_insert_eq.
      - exists d. by rewrite lookup_insert_ne. }
    specialize (Hkeep _ Hen). replace (next <| rg_Default := rg_Default r |>) with next in Hkeep by done. rewrite Hkeep.
    split_and!; try done. intros -> Ed. by rewrite Ed, String.eqb_refl in Eb.
  - apply orb_false_iff in Eb as [Ee Ed%negb_false_iff%String.eqb_eq].
    assert (Hid : ∀ k x, endpoints !! k = Some x → x.(ep_ID) = k ∧ k ≠ "").
    { intros k x Hk. assert (Hx : canonical_endpoint k x).
      { unfold endpoints in Hk. destruct (decide (k = id)) as [->|Hne]; [rewrite lookup_insert_eq in Hk; by injection Hk as <-|].
        rewrite lookup_insert_ne in Hk by done. by apply (cr_endpoints _ Hr). }
      split; [by apply ce_id|]. by destruct (identifier_plain _ (ce_key _ _ Hx)). }
    pose proof (fallback_default_chosen endpoints Hid) as Hf. change (List next) with (sorted_values endpoints).
    cbv zeta in Hf. destruct (is_empty (fallback_default "" (sorted_values endpoints))); [done|]. destruct Hf as (x & Hx & Hxe & Hl).
    assert (Hen : enabled_at endpoints (fallback_default "" (sorted_values endpoints))) by (by exists x). rewrite (Hkeep _ Hen).
    split_and!; [by apply Hkeep|done|done|by intros [?|?]; congruence|]. intros _ _ Hloc. exists x. split; [done|by apply Hl].
Qed.

(** ** Merging candidates *)

(** C6: Merging candidates never changes who an endpoint is. Every endpoint of the registry is still there under its
    identifier, switched on or off as before and with the routes it had, each of the kind it had; its identity is the one
    it was pinned to, and an endpoint without one has none or the one a confirmed binding names for it. Every candidate is
    resolved to an endpoint with exactly its identity, an endpoint that is new belongs to a candidate, and the result is
    normalized, no identity pinned twice. Required: the longest derived name of no candidate is taken, and the digest
    tells the candidates' fingerprints apart. *)
Theorem assemble_keeps_pins `{RemoteCrypto} `{!RemoteCryptoLaws} marshalCandidate input res r0 :
  Normalize input.(ei_Registry) = Ok r0 → names_free r0.(rg_Endpoints) input.(ei_Candidates) → AssembleEndpoints marshalCandidate input = Ok res →
  Normalize res.(er_Registry) = Ok res.(er_Registry) ∧ pinned_apart res.(er_Registry).(rg_Endpoints)
  ∧ (∀ k e, r0.(rg_Endpoints) !! k = Some e → ∃ e', res.(er_Registry).(rg_Endpoints) !! k = Some e' ∧ e'.(ep_Enabled) = e.(ep_Enabled)
       ∧ (e'.(ep_DaemonIdentity) = e.(ep_DaemonIdentity)
          ∨ ¬ pinned e ∧ ∃ b, b ∈ input.(ei_ConfirmedIdentityBindings) ∧ b.(cb_EndpointID) = k ∧ e'.(ep_DaemonIdentity) = b.(cb_Identity))
       ∧ ∀ id r, e.(ep_Routes) !! id = Some r → ∃ r', e'.(ep_Routes) !! id = Some r' ∧ r'.(ar_Kind) = r.(ar_Kind))
  ∧ (∀ i c, input.(ei_Candidates) !! i = Some c → ∃ id e', res.(er_ResolvedEndpointIDs) !! i = Some id
       ∧ res.(er_Registry).(rg_Endpoints) !! id = Some e' ∧ e'.(ep_DaemonIdentity) = c.(ec_Identity))
  ∧ (∀ k e', res.(er_Registry).(rg_Endpoints) !! k = Some e' →
       is_Some (r0.(rg_Endpoints) !! k) ∨ ∃ c, c ∈ input.(ei_Candidates) ∧ e'.(ep_DaemonIdentity) = c.(ec_Identity)).
Proof.
  intros HN Hnames Hres. destruct (assemble_summary _ _ _ _ HN Hnames Hres) as (Hc & (m & Hb & Hev) & Hcand & Hnew).
  split_and!; [by apply canonical_normalize|by apply cr_apart| |done|done].
  intros k e He. specialize (Hb k). rewrite He in Hb. destruct (m !! k) as [e1|] eqn:E1; [|done]. destruct (Hev _ _ E1) as (e' & He' & Ev).
  exists e'. destruct Hb as [->|(Hp & _ & b & Hb & Hk & ->)].
  - split_and!; [done|apply (ev_enabled _ _ _ Ev)|left; apply (ev_identity _ _ _ Ev)|]. intros id r Hr.
    destruct (ev_routes _ _ _ Ev _ _ Hr) as (r' & ? & ? & _). by exists r'.
  - split_and!; [done|apply (ev_enabled _ _ _ Ev)|right; split; [done|]; exists b; split_and!; [done..|apply (ev_identity _ _ _ Ev)]|]. intros id r Hr.
    destruct (ev_routes _ _ _ Ev _ _ Hr) as (r' & ? & ? & _). by exists r'.
Qed.

(** C22: Candidates of the Cloud, of bootstrap bundles and of shares imported without their policy leave the client's policy
    alone: the label, the connect mode and the selection policy of every endpoint, and of every route whether it is
    enabled, manual-only and its priority, are as before. *)
Theorem discovery_keeps_policy `{RemoteCrypto} `{!RemoteCryptoLaws} marshalCandidate input res r0 :
  Normalize input.(ei_Registry) = Ok r0 → names_free r0.(rg_Endpoints) input.(ei_Candidates) → AssembleEndpoints marshalCandidate input = Ok res →
  Forall (λ c, candidateOwnsClientPolicy c = false) input.(ei_Candidates) →
  ∀ k e, r0.(rg_Endpoints) !! k = Some e → ∃ e', res.(er_Registry).(rg_Endpoints) !! k = Some e' ∧ e'.(ep_Enabled) = e.(ep_Enabled) ∧ same_policy e e'
    ∧ ∀ id r, e.(ep_Routes) !! id = Some r → ∃ r', e'.(ep_Routes) !! id = Some r' ∧ r'.(ar_Kind) = r.(ar_Kind) ∧ same_route_policy r r'.
Proof.
  intros HN Hnames Hres Hno k e He. destruct (assemble_summary _ _ _ _ HN Hnames Hres) as (Hc & (m & Hb & Hev) & _).
  assert (Hnone : ¬ some_owner input.(ei_Candidates)).
  { intros (c & Hin & Ho). rewrite Forall_forall in Hno. specialize (Hno c Hin). congruence. }
  specialize (Hb k). rewrite He in Hb. destruct (m !! k) as [e1|] eqn:E1; [|done]. destruct (Hev _ _ E1) as (e' & He' & Ev). exists e'.
  assert (Hsame : e1.(ep_Enabled) = e.(ep_Enabled) ∧ same_policy e e1 ∧ e1.(ep_Routes) = e.(ep_Routes)).
  { destruct Hb as [->|(_ & _ & b & _ & _ & ->)]; by split_and!. }
  destruct Hsame as (S1 & (P1 & P2 & P3 & P4) & S3). split_and!; [done|by rewrite (ev_enabled _ _ _ Ev)|..].
  - destruct (ev_policy _ _ _ Ev) as [?|(Q1 & Q2 & Q3 & Q4)]; [done|]. split_and!; congruence.
  - intros id r Hr. rewrite <- S3 in Hr. destruct (ev_routes _ _ _ Ev _ _ Hr) as (r' & H1 & H2 & [?|Hp]); [done|]. by exists r'.
Qed.

(** ** A client with two endpoints *)
Module EndpointDemo.
Import RemoteDemo.
Definition work_identity : DaemonIdentity := mkDaemonIdentity "dev-1" "fp-1".
Definition direct_route : AccessRoute :=
  (blank_route "direct" RouteDirectWebRTCTCP SourceManual "") <| ar_Priority := Some 1 |> <| ar_SignalingAddresses := ["10.0.0.1:5"; "10.0.0.1:4"] |>
    <| ar_ICETCPAddresses := ["10.0.0.1:6"] |>.
Definition cloud_route : AccessRoute :=
  (blank_route "cloud" RouteManagedWebRTC SourceCloud SourceLocal) <| ar_Priority := Some 0 |> <| ar_TargetDeviceID := "dev-1" |> <| ar_CredentialRef := "grant" |>.
Definition ssh_route : AccessRoute :=
  (blank_route "ssh" RouteSSHWebRTCTCP SourceManual "") <| ar_Enabled := false |> <| ar_Host := "work" |> <| ar_RemoteSignalingAddress := "127.0.0.1:1" |>
    <| ar_RemoteICETCPAddress := "127.0.0.1:2" |>.
Definition work : Endpoint :=
  mkEndpoint "" "" "" work_identity "" true (mkSelectionPolicy 250000000 true "")
    (<["direct" := direct_route]> (<["cloud" := cloud_route]> {["ssh" := ssh_route]})).
Definition registry : Registry :=
  let r := DefaultRegistry (Some "box") in r <| rg_Endpoints := <["work" := work]> r.(rg_Endpoints) |>.
Definition normal : Registry := match Normalize registry with Ok r => r | Err _ => registry end.
Definition normal_work : Endpoint := match normal.(rg_Endpoints) !! "work" with Some e => e | None => work end.
Definition request : RouteSelectionRequest :=
  mkRequest normal_work (mkIntent "attach" "" []) "" 7 [RouteDirectWebRTCTCP; RouteManagedWebRTC] ["grant"].

Lemma normalized : Normalize registry = Ok normal.
Proof. vm_compute. reflexivity. Qed.
Lemma work_normal : normal.(rg_Endpoints) !! "work" = Some normal_work.
Proof. vm_compute. reflexivity. Qed.
Lemma request_well_formed : request_ok request.
Proof.
  destruct (normalize_sound _ _ normalized) as (Hc & _). split; cbn [rr_Endpoint request rr_Generation rr_Intent rr_SupportedRouteKinds rr_AvailableCredentialRefs].
  - pose proof (cr_endpoints _ Hc _ _ work_normal) as Hw. by rewrite (ce_id _ _ Hw).
  - vm_compute. reflexivity.
  - done.
  - intros E. vm_compute in E. discriminate E.
  - repeat constructor; apply (bool_decide_unpack _); vm_compute; exact I.
  - repeat constructor.
Qed.
(** The Cloud knows the endpoint, and another one. *)
Definition from_cloud (device fingerprint : string) : EndpointCandidate :=
  mkCandidate SourceCloud (mkDaemonIdentity device fingerprint) "" [(blank_route "cloud" RouteManagedWebRTC "" "") <| ar_TargetDeviceID := device |>] "" None false [].
Definition input : EndpointAssemblerInput := mkAssemblerInput registry [from_cloud "dev-2" "fp-2"; from_cloud "dev-1" "fp-1"] [].
Definition marshal (c : EndpointCandidate) : string := c.(ec_SuggestedLabel).
Definition assembled : EndpointAssemblerResult :=
  match AssembleEndpoints marshal input with Ok r => r | Err _ => mkAssemblerResult registry [] [] end.
Lemma assembles : AssembleEndpoints marshal input = Ok assembled.
Proof. vm_compute. reflexivity. Qed.
Lemma names : names_free normal.(rg_Endpoints) input.(ei_Candidates).
Proof.
  split.
  - intros c [-> | [-> | []%elem_of_nil]%elem_of_cons]%elem_of_cons; vm_compute; reflexivity.
  - intros c c' [-> | [-> | []%elem_of_nil]%elem_of_cons]%elem_of_cons [-> | [-> | []%elem_of_nil]%elem_of_cons]%elem_of_cons E; vm_compute in E; done.
Qed.
End EndpointDemo.

Import RemoteDemo EndpointDemo.
Lemma normalize_canonical_witness : Normalize normal = Ok normal ∧ pinned_apart normal.(rg_Endpoints).
Proof. destruct (normalize_canonical _ _ normalized) as (H1 & _ & H3 & _). by split. Defined.
Lemma plan_exact_witness :
  match Plan request with Ok plan => plan_of request plan ∧ (ag_startDelay <$> plan.(pl_groups)) = [0; 250000000] | Err _ => False end.
Proof.
  pose proof (plan_exact request request_well_formed eq_refl) as H. assert (Hs : Z.of_nat (size (rr_Endpoint request).(ep_Routes)) ≤ 268435456) by (vm_compute; discriminate).
  specialize (H Hs). destruct (Plan request) as [plan|] eqn:E; [|vm_compute in E; discriminate E]. split; [exact H|].
  vm_compute in E. injection E as <-. vm_compute. reflexivity.
Defined.
Lemma availability_is_selectable_witness :
  match EvaluateRouteAvailability normal_work normal_work request.(rr_SupportedRouteKinds) request.(rr_AvailableCredentialRefs) with
  | Ok items => va_RouteID <$> items = ["cloud"; "direct"; "ssh"] ∧ va_Available <$> items = [true; true; false]
  | Err _ => False
  end.
Proof.
  destruct (EvaluateRouteAvailability _ _ _ _) as [items|] eqn:E; [|vm_compute in E; discriminate E].
  destruct (availability_is_selectable request normal_work items request_well_formed E) as [H _]. split; [rewrite H; vm_compute; reflexivity|].
  vm_compute in E. injection E as <-. vm_compute. reflexivity.
Defined.
Lemma set_enabled_exact_witness :
  match SetEndpointEnabled registry "local" false with Ok out => out.(rg_Default) = "work" | Err _ => False end.
Proof.
  assert (He : is_Some (normal.(rg_Endpoints) !! "local")) by (vm_compute; eexists; reflexivity). destruct He as [e He].
  pose proof (set_enabled_exact registry normal "local" e false normalized He) as H.
  destruct (SetEndpointEnabled registry "local" false) as [out|] eqn:E; vm_compute in E; [|discriminate E]. injection E as <-. vm_compute. reflexivity.
Defined.
Lemma assemble_keeps_pins_witness :
  pinned_apart assembled.(er_Registry).(rg_Endpoints) ∧ assembled.(er_ResolvedEndpointIDs) !! 1%nat = Some "work".
Proof. destruct (assemble_keeps_pins marshal input assembled normal normalized names assembles) as (_ & H & _). split; [exact H|]. vm_compute. reflexivity. Defined.
Lemma discovery_keeps_policy_witness :
  ∃ e', assembled.(er_Registry).(rg_Endpoints) !! "work" = Some e' ∧ same_policy normal_work e'.
Proof.
  destruct (discovery_keeps_policy marshal input assembled normal normalized names assembles ltac:(repeat constructor) "work" normal_work work_normal) as (e' & H1 & _ & H2 & _).
  exists e'. by split.
Defined.

(** ** Where the code falls short *)

(** When every name [deriveEndpointID] tries is taken it returns the last one all the same, and the caller replaces the
    endpoint that has it: its pin is lost. This is the case [names_free] excludes. *)
Module NamesTaken.
Definition taken (id : string) : Endpoint := (NewLocalEndpoint id "" "auto" "") <| ep_DaemonIdentity := mkDaemonIdentity ("dev-" +:+ id) ("fp-" +:+ id) |>.
Definition tried : list string := (λ i, name_of "fp-2" (12 + 4 * i)) <$> seq 0 14.
Definition full : Registry :=
  let r := DefaultRegistry (Some "box") in r <| rg_Endpoints := foldr (λ id m, <[id := taken id]> m) r.(rg_Endpoints) tried |>.
Definition full_input : EndpointAssemblerInput := mkAssemblerInput full [from_cloud "dev-2" "fp-2"] [].
End NamesTaken.
Example derived_name_overwrites :
  let id := full_name "fp-2" in
  match Normalize NamesTaken.full, AssembleEndpoints marshal NamesTaken.full_input with
  | Ok before, Ok after =>
      option_map (λ e, e.(ep_DaemonIdentity)) (before.(rg_Endpoints) !! id) = Some (mkDaemonIdentity ("dev-" +:+ id) ("fp-" +:+ id))
      ∧ option_map (λ e, e.(ep_DaemonIdentity)) (after.(er_Registry).(rg_Endpoints) !! id) = Some (mkDaemonIdentity "dev-2" "fp-2")
  | _, _ => False
  end.
Proof. vm_compute. by split. Qed.

(** [relay_transport] is in no list of the fields a kind owns: any kind accepts it. *)
Example relay_transport_not_exclusive :
  route_valid ((blank_route "local" RouteLocalUnix SourceLocal SourceLocal) <| ar_Socket := "auto" |> <| ar_RelayTransport := "anything" |>) no_identity = true.
Proof. vm_compute. reflexivity. Qed.
(** Another relay mode asks for a reconnect, another relay transport does not. *)
Example relay_transport_keeps_session :
  let with_route r := work <| ep_Routes := {["cloud" := r]} |> in
  RequiresReconnect (with_route cloud_route) (with_route (cloud_route <| ar_RelayMode := RelayOnly |>)) = true
  ∧ RequiresReconnect (with_route cloud_route) (with_route (cloud_route <| ar_RelayTransport := RelayTransportTCP |>)) = false.
Proof. vm_compute. by split. Qed.
