(* ===== verification/EndpointWire.v ===== *)
(** * Endpoints as messages

    [client/endpoint/proto_config.go] writes the registry as the generated messages of [remote_auth.proto] and reads it
    back; [share.go] and the share bundle of [contracts.go] do so for one endpoint that is given to another client, without
    its credentials. A message is a record of its fields, an enumeration the integer on the wire; the elements of a
    repeated field are not nil. The deterministic encoding of a share bundle is a parameter. An error is
    its code, but the checks of [EndpointContracts] give a message. *)
From S2P Require Import Prelude GoStd GoText RemoteGrant RemoteGrantTheorems EndpointContracts EndpointRegistry EndpointPlanner EndpointAssembler EndpointTheorems.
From Stdlib Require Import Ascii String.
Local Open Scope string_scope.
Local Open Scope list_scope.
Local Open Scope Z_scope.
Local Open Scope bool_scope.

(** ** Loops over repeated fields *)
Fixpoint map_result {A B} (f : A → result B) (l : list A) : result (list B) :=
  match l with
  | [] => Ok []
  | x :: l => let? y := f x in let? ys := map_result f l in Ok (y :: ys)
  end.
(** What is read is entered by its key, and a key must be new. *)
Fixpoint collect {W A} (parse : W → result A) (key : A → string) (repeated : goerr) (found : gmap string A) (ws : list W) : result (gmap string A) :=
  match ws with
  | [] => Ok found
  | w :: ws =>
      let? x := parse w in
      if bool_decide (is_Some (found !! key x)) then Err repeated else collect parse key repeated (<[key x := x]> found) ws
  end.

(** ** Messages

    Whether a message holds fields the generated code does not know is a flag of the route, of the endpoint (for itself, its
    identity and its policy) and of the registry (for itself): [hasUnknownFields] goes through all of them. *)
Record WireDescriptor := mkWireDescriptor { wd_DescriptorId : string; wd_Kind : Z; wd_Exportable : bool }.
Record WireSelectionPolicy := mkWirePolicy { wp_HedgeDelayConfigured : bool; wp_HedgeDelayMillis : Z; wp_RoutePreference : Z }.
Inductive WireRouteKind :=
| LocalUnix (socket : string)
| DirectWebrtcTcp (signaling iceTcp advertised : list string) (serverName : string)
| SshWebrtcTcp (host : string) (port : Z) (user : string) (hostKeys : list string) (proxyJump : string) (descriptor : option WireDescriptor)
    (remoteSignaling remoteIceTcp sshCredentialRef : string)
| ManagedWebrtc (targetDeviceId accountProfileRef : string) (relayMode relayTransport : Z).
Record EndpointRouteConfigV1 := mkWireRoute {
  wr_SchemaVersion : Z; wr_RouteId : string; wr_Enabled : bool; wr_ManualOnly : bool; wr_Priority : option Z; wr_CredentialRef : string;
  wr_Source : Z; wr_PolicySource : Z; wr_DisplayName : string; wr_Route : option WireRouteKind; wr_Unknown : bool }.
#[export] Instance eta_EndpointRouteConfigV1 : Eta EndpointRouteConfigV1 := λ r,
  mkWireRoute r.(wr_SchemaVersion) r.(wr_RouteId) r.(wr_Enabled) r.(wr_ManualOnly) r.(wr_Priority) r.(wr_CredentialRef) r.(wr_Source) r.(wr_PolicySource)
    r.(wr_DisplayName) r.(wr_Route) r.(wr_Unknown).
Record EndpointConfigV1 := mkWireEndpoint {
  we_SchemaVersion : Z; we_EndpointId : string; we_Label : string; we_LabelSource : Z; we_Identity : option EndpointDaemonIdentity; we_ConnectMode : Z;
  we_Enabled : bool; we_SelectionPolicy : option WireSelectionPolicy; we_Routes : list EndpointRouteConfigV1; we_Unknown : bool }.
Record EndpointRegistryV1 := mkWireRegistry { wg_SchemaVersion : Z; wg_DefaultEndpointId : string; wg_Endpoints : list EndpointConfigV1; wg_Unknown : bool }.
Record ClientEndpointShareBundleV1 := mkShareBundle {
  sb_SchemaVersion : Z; sb_TransferId : string; sb_Identity : option EndpointDaemonIdentity; sb_SuggestedLabel : string; sb_Routes : list EndpointRouteConfigV1;
  sb_ConnectMode : Z; sb_SelectionPolicy : option WireSelectionPolicy; sb_CredentialDescriptors : list WireDescriptor; sb_BoundGrant : string;
  sb_IssuedAtUnixNano : Z; sb_ExpiresAtUnixNano : Z }.

Definition RouteConfigVersion : Z := 1.
Definition EndpointConfigVersion : Z := 1.
Definition EndpointRegistryContractVersion : Z := 1.
Definition ClientEndpointShareBundleVersion : Z := 1.
Definition ErrorAuthorizationRequired : goerr := "authorization_required".

(** ** Enumerations *)
Definition mapWireConnectMode (mode : Z) : string :=
  match mode with 1 => ConnectAuto | 2 => ConnectOnDemand | 3 => ConnectManual | _ => "" end.
Definition wireConnectMode (mode : string) : Z :=
  if String.eqb mode ConnectAuto then 1 else if String.eqb mode ConnectOnDemand then 2 else if String.eqb mode ConnectManual then 3 else 0.
Definition mapWireSource (source : Z) : string :=
  match source with
  | 4 => SourceLocal | 2 => SourceCloud | 3 => SourceBootstrap | 5 => SourceManual | 6 => SourceShare | 1 => SourceLAN | 7 => SourceUser | _ => "" end.
Definition wireSource (source : string) : Z :=
  if String.eqb source SourceLocal then 4 else if String.eqb source SourceCloud then 2 else if String.eqb source SourceBootstrap then 3
  else if String.eqb source SourceManual then 5 else if String.eqb source SourceShare then 6 else if String.eqb source SourceLAN then 1
  else if String.eqb source SourceUser then 7 else 0.
Definition mapWireRelayMode (mode : Z) : string :=
  match mode with 0 | 1 => RelayAuto | 2 => RelayDirect | 3 => RelayOnly | 4 => RelaySmart | _ => "" end.
Definition wireRelayMode (mode : string) : Z :=
  if String.eqb mode RelayAuto then 1 else if String.eqb mode RelayDirect then 2 else if String.eqb mode RelayOnly then 3
  else if String.eqb mode RelaySmart then 4 else 0.
Definition mapWireRoutePreference (value : Z) : string :=
  match value with
  | 0 | 1 => RoutePreferenceAuto | 2 => RoutePreferenceDirect | 3 => RoutePreferenceSSH | 4 => RoutePreferenceManagedCloud | _ => "" end.
Definition wireRoutePreference (value : string) : Z :=
  if String.eqb value RoutePreferenceAuto then 1 else if String.eqb value RoutePreferenceDirect then 2 else if String.eqb value RoutePreferenceSSH then 3
  else if String.eqb value RoutePreferenceManagedCloud then 4 else 0.
Definition mapWireRelayTransport (value : Z) : string :=
  match value with 0 | 1 => RelayTransportAuto | 2 => RelayTransportUDP | 3 => RelayTransportTCP | _ => "" end.
Definition wireRelayTransport (value : string) : Z :=
  if String.eqb value RelayTransportAuto then 1 else if String.eqb value RelayTransportUDP then 2 else if String.eqb value RelayTransportTCP then 3 else 0.
Definition mapWireCredentialKind (kind : Z) : string :=
  match kind with
  | 1 => CredentialSSHAgent | 2 => CredentialSSHPrivateKey | 3 => CredentialSSHPassword | 4 => CredentialCapabilityGrant | 5 => CredentialCloudProfile | _ => "" end.
Definition wireCredentialKind (kind : string) : Z :=
  if String.eqb kind CredentialSSHAgent then 1 else if String.eqb kind CredentialSSHPrivateKey then 2 else if String.eqb kind CredentialSSHPassword then 3
  else if String.eqb kind CredentialCapabilityGrant then 4 else if String.eqb kind CredentialCloudProfile then 5 else 0.

(** ** Routes *)
Definition wire_descriptor (d : CredentialDescriptor) : WireDescriptor := mkWireDescriptor d.(cd_DescriptorID) (wireCredentialKind d.(cd_Kind)) d.(cd_Exportable).
Definition descriptor_from_wire (d : WireDescriptor) : CredentialDescriptor :=
  mkCredentialDescriptor d.(wd_DescriptorId) (mapWireCredentialKind d.(wd_Kind)) d.(wd_Exportable).

Definition route_config (r : AccessRoute) : option WireRouteKind :=
  if String.eqb r.(ar_Kind) RouteLocalUnix then Some (LocalUnix r.(ar_Socket))
  else if String.eqb r.(ar_Kind) RouteDirectWebRTCTCP then
    Some (DirectWebrtcTcp r.(ar_SignalingAddresses) r.(ar_ICETCPAddresses) r.(ar_AdvertisedAddresses) r.(ar_ServerName))
  else if String.eqb r.(ar_Kind) RouteSSHWebRTCTCP then
    Some (SshWebrtcTcp r.(ar_Host) r.(ar_Port) r.(ar_User) r.(ar_HostKeyFingerprints) r.(ar_ProxyJump) (wire_descriptor <$> r.(ar_CredentialDescriptor))
            r.(ar_RemoteSignalingAddress) r.(ar_RemoteICETCPAddress) r.(ar_SSHCredentialRef))
  else if String.eqb r.(ar_Kind) RouteManagedWebRTC then
    Some (ManagedWebrtc r.(ar_TargetDeviceID) r.(ar_AccountProfileRef) (wireRelayMode r.(ar_RelayMode)) (wireRelayTransport r.(ar_RelayTransport)))
  else None.
Definition routeToProto (r : AccessRoute) : result EndpointRouteConfigV1 :=
  match route_config r with
  | None => Err ErrorConfig
  | Some config =>
      Ok (mkWireRoute RouteConfigVersion r.(ar_ID) r.(ar_Enabled) r.(ar_ManualOnly) (i32 <$> r.(ar_Priority)) r.(ar_CredentialRef) (wireSource r.(ar_Source))
            (wireSource r.(ar_PolicySource)) r.(ar_DisplayName) (Some config) false)
  end.

Definition accessRouteFromWire (w : EndpointRouteConfigV1) (enabled : bool) : result AccessRoute :=
  let source := or_default (mapWireSource w.(wr_Source)) SourceShare in
  let model :=
    (blank_route (TrimSpace w.(wr_RouteId)) "" source (or_default (mapWireSource w.(wr_PolicySource)) source))
      <| ar_DisplayName := w.(wr_DisplayName) |> <| ar_Enabled := enabled |> <| ar_ManualOnly := w.(wr_ManualOnly) |>
      <| ar_CredentialRef := w.(wr_CredentialRef) |> <| ar_Priority := w.(wr_Priority) |> in
  match w.(wr_Route) with
  | Some (LocalUnix socket) => Ok (model <| ar_Kind := RouteLocalUnix |> <| ar_Socket := socket |>)
  | Some (DirectWebrtcTcp signaling iceTcp advertised serverName) =>
      Ok (model <| ar_Kind := RouteDirectWebRTCTCP |> <| ar_SignalingAddresses := signaling |> <| ar_ICETCPAddresses := iceTcp |>
            <| ar_AdvertisedAddresses := advertised |> <| ar_ServerName := serverName |>)
  | Some (SshWebrtcTcp host port user hostKeys proxyJump descriptor remoteSignaling remoteIceTcp sshCredentialRef) =>
      if port >? 65535 then Err ErrorConfig
      else Ok (model <| ar_Kind := RouteSSHWebRTCTCP |> <| ar_Host := host |> <| ar_Port := u16 port |> <| ar_User := user |> <| ar_ProxyJump := proxyJump |>
                 <| ar_HostKeyFingerprints := hostKeys |> <| ar_RemoteSignalingAddress := remoteSignaling |> <| ar_RemoteICETCPAddress := remoteIceTcp |>
                 <| ar_SSHCredentialRef := sshCredentialRef |> <| ar_CredentialDescriptor := descriptor_from_wire <$> descriptor |>)
  | Some (ManagedWebrtc targetDeviceId accountProfileRef relayMode relayTransport) =>
      Ok (model <| ar_Kind := RouteManagedWebRTC |> <| ar_TargetDeviceID := targetDeviceId |> <| ar_AccountProfileRef := accountProfileRef |>
            <| ar_RelayMode := mapWireRelayMode relayMode |> <| ar_RelayTransport := mapWireRelayTransport relayTransport |>)
  | None => Err ErrorConfig
  end.

(** ** Endpoints and the registry *)
Definition normalizedAndValidated (e : Endpoint) : result Endpoint :=
  let e := endpoint_withDefaults e in if endpoint_valid e then Ok e else Err ErrorConfig.
Definition wire_policy (p : SelectionPolicy) : WireSelectionPolicy :=
  mkWirePolicy p.(sp_HedgeDelayConfigured) (u64 (Z.quot p.(sp_HedgeDelay) millisecond)) (wireRoutePreference p.(sp_RoutePreference)).
Definition wire_identity (i : DaemonIdentity) : EndpointDaemonIdentity := mkWireIdentity i.(di_DeviceID) "" i.(di_DeviceFingerprint).
Definition EndpointToProto (e : Endpoint) : result EndpointConfigV1 :=
  let? e := normalizedAndValidated e in
  let? routes := map_result routeToProto (RouteList e) in
  Ok (mkWireEndpoint EndpointConfigVersion e.(ep_ID) e.(ep_Label) (wireSource e.(ep_LabelSource))
        (if identity_Empty e.(ep_DaemonIdentity) then None else Some (wire_identity e.(ep_DaemonIdentity)))
        (wireConnectMode e.(ep_ConnectMode)) e.(ep_Enabled) (Some (wire_policy e.(ep_SelectionPolicy))) routes false).
Definition RegistryToProto (registry : Registry) : result EndpointRegistryV1 :=
  let? normalized := Normalize registry in
  let? endpoints := map_result EndpointToProto (sorted_values normalized.(rg_Endpoints)) in
  Ok (mkWireRegistry EndpointRegistryContractVersion normalized.(rg_Default) endpoints false).

Definition endpoint_unknown (w : EndpointConfigV1) : bool := w.(we_Unknown) || existsb wr_Unknown w.(we_Routes).
Definition registry_unknown (w : EndpointRegistryV1) : bool := w.(wg_Unknown) || existsb endpoint_unknown w.(wg_Endpoints).

(** One turn of the loop over the routes, without the look at the routes before. *)
Definition endpoint_route_from_wire (w : EndpointRouteConfigV1) : result AccessRoute :=
  if negb (w.(wr_SchemaVersion) =? RouteConfigVersion) then Err ErrorUnsupportedVersion
  else
    let? r := accessRouteFromWire w w.(wr_Enabled) in
    let r := if w.(wr_Source) =? 0 then r <| ar_Source := SourceManual |> else r in
    Ok (if w.(wr_PolicySource) =? 0 then r <| ar_PolicySource := r.(ar_Source) |> else r).
Definition routes_from_wire : list EndpointRouteConfigV1 → result (gmap string AccessRoute) := collect endpoint_route_from_wire ar_ID ErrorRouteConflict ∅.
Definition policy_from_wire (policy : option WireSelectionPolicy) : result SelectionPolicy :=
  match policy with
  | None => Ok no_policy
  | Some p =>
      if (p.(wp_HedgeDelayMillis) >? 30000) || negb p.(wp_HedgeDelayConfigured) && negb (p.(wp_HedgeDelayMillis) =? 0) then Err ErrorConfig
      else
        let selection := mkSelectionPolicy (p.(wp_HedgeDelayMillis) * millisecond) p.(wp_HedgeDelayConfigured) (mapWireRoutePreference p.(wp_RoutePreference)) in
        if is_empty selection.(sp_RoutePreference) then Err ErrorConfig else Ok selection
  end.

Section from_proto.
Context `{RemoteCrypto}.

Definition identity_from_wire (identity : option EndpointDaemonIdentity) : result DaemonIdentity :=
  match identity with
  | None => Ok no_identity
  | Some i => match validateWireIdentity identity false with
              | Some err => Err err
              | None => Ok (mkDaemonIdentity i.(wi_DeviceId) i.(wi_DeviceFingerprint))
              end
  end.
Definition EndpointFromProto (config : EndpointConfigV1) : result Endpoint :=
  if negb (config.(we_SchemaVersion) =? EndpointConfigVersion) || endpoint_unknown config then Err ErrorUnsupportedVersion
  else
    let? identity := identity_from_wire config.(we_Identity) in
    let connectMode := mapWireConnectMode config.(we_ConnectMode) in
    if is_empty connectMode then Err ErrorConfig
    else
      let? selection := policy_from_wire config.(we_SelectionPolicy) in
      let? routes := routes_from_wire config.(we_Routes) in
      let model := mkEndpoint config.(we_EndpointId) config.(we_Label) (mapWireSource config.(we_LabelSource)) identity connectMode config.(we_Enabled)
                     selection routes in
      normalizedAndValidated (endpoint_withDefaults model).
Definition endpoints_from_proto : list EndpointConfigV1 → result (gmap string Endpoint) := collect EndpointFromProto ep_ID ErrorConfig ∅.
Definition RegistryFromProto (config : EndpointRegistryV1) : result Registry :=
  if negb (config.(wg_SchemaVersion) =? EndpointRegistryContractVersion) || registry_unknown config then Err ErrorUnsupportedVersion
  else
    let? endpoints := endpoints_from_proto config.(wg_Endpoints) in
    Normalize (mkRegistry RegistryVersion config.(wg_DefaultEndpointId) endpoints).
End from_proto.

(** ** Portable routes *)
Definition is_local_unix (w : EndpointRouteConfigV1) : bool := match w.(wr_Route) with Some (LocalUnix _) => true | _ => false end.
Definition portable_route_error (w : EndpointRouteConfigV1) (identity : EndpointDaemonIdentity) (allowPolicy : bool) : option goerr :=
  if negb (identifier_ok w.(wr_RouteId)) then Some ErrorConfig
  else if negb (w.(wr_SchemaVersion) =? RouteConfigVersion) then Some ErrorUnsupportedVersion
  else if is_local_unix w then Some ErrorConfig
  else if negb (is_empty w.(wr_CredentialRef)) then Some ErrorConfig
  else if negb (w.(wr_Source) =? 0) || negb (w.(wr_PolicySource) =? 0) then Some ErrorConfig
  else if negb allowPolicy && (w.(wr_ManualOnly) || (if w.(wr_Priority) then true else false)) then Some ErrorConfig
  else match accessRouteFromWire w (negb allowPolicy || w.(wr_Enabled)) with
       | Err err => Some err
       | Ok model => if route_valid model (mkDaemonIdentity identity.(wi_DeviceId) identity.(wi_DeviceFingerprint)) then None else Some ErrorConfig
       end.

(** ** Share bundles *)
Section share.
Context `{RemoteCrypto} (protoMarshal : ClientEndpointShareBundleV1 → result string).

Fixpoint share_routes_error (identity : EndpointDaemonIdentity) (seen : list string) (routes : list EndpointRouteConfigV1) : option goerr :=
  match routes with
  | [] => None
  | w :: routes =>
      match portable_route_error w identity true with
      | Some err => Some err
      | None => if one_of w.(wr_RouteId) seen then Some ErrorRouteConflict else share_routes_error identity (w.(wr_RouteId) :: seen) routes
      end
  end.
(** One turn of the loop over the descriptors, without the look at the descriptors before. *)
Definition wire_descriptor_ok (d : WireDescriptor) : bool :=
  identifier_ok d.(wd_DescriptorId)
  && ((d.(wd_Kind) =? 2) || (d.(wd_Kind) =? 3) || ((d.(wd_Kind) =? 1) || (d.(wd_Kind) =? 4) || (d.(wd_Kind) =? 5)) && negb d.(wd_Exportable)).
(** A repeated descriptor is an error whether it is consistent or not. *)
Fixpoint share_descriptors_ok (seen : list string) (ds : list WireDescriptor) : bool :=
  match ds with
  | [] => true
  | d :: ds => wire_descriptor_ok d && negb (one_of d.(wd_DescriptorId) seen) && share_descriptors_ok (d.(wd_DescriptorId) :: seen) ds
  end.
Definition share_hedge_ok (policy : option WireSelectionPolicy) : bool :=
  match policy with
  | None => true
  | Some p => negb (p.(wp_HedgeDelayConfigured) && (p.(wp_HedgeDelayMillis) >? 30000)
                    || negb p.(wp_HedgeDelayConfigured) && negb (p.(wp_HedgeDelayMillis) =? 0))
  end.
(** [clock] is [time.Now()]. *)
Definition share_times_ok (bundle : ClientEndpointShareBundleV1) (clock : Z) : bool :=
  negb ((bundle.(sb_IssuedAtUnixNano) <=? 0) || (bundle.(sb_ExpiresAtUnixNano) <=? bundle.(sb_IssuedAtUnixNano))
        || stale bundle.(sb_IssuedAtUnixNano) bundle.(sb_ExpiresAtUnixNano) (Some clock)).
Definition validateClientEndpointShareBundle (bundle : ClientEndpointShareBundleV1) (clock : Z) : option goerr :=
  if negb (bundle.(sb_SchemaVersion) =? ClientEndpointShareBundleVersion) then Some ErrorUnsupportedVersion
  else if negb (identifier_ok bundle.(sb_TransferId)) then Some ErrorConfig
  else match validateWireIdentity bundle.(sb_Identity) false, bundle.(sb_Identity) with
  | Some err, _ => Some err
  | None, None => Some ErrorConfig
  | None, Some identity =>
      if negb (share_times_ok bundle clock) then Some ErrorConfig
      else if negb (one_of (mapWireConnectMode bundle.(sb_ConnectMode)) [ConnectAuto; ConnectOnDemand; ConnectManual]) then Some ErrorConfig
      else if negb (share_hedge_ok bundle.(sb_SelectionPolicy)) then Some ErrorConfig
      else match share_routes_error identity [] bundle.(sb_Routes) with
           | Some err => Some err
           | None =>
               if negb (share_descriptors_ok [] bundle.(sb_CredentialDescriptors)) then Some ErrorConfig
               else if negb (byte_len bundle.(sb_BoundGrant) =? 0) then Some ErrorAuthorizationRequired
               else None
           end
  end.
Definition MarshalClientEndpointShareBundle (bundle : ClientEndpointShareBundleV1) (clock : Z) : result string :=
  match validateClientEndpointShareBundle bundle clock with
  | Some err => Err err
  | None => if existsb wr_Unknown bundle.(sb_Routes) then Err ErrorConfig else let? payload := protoMarshal bundle in bounded payload
  end.

Definition portable_kind (k : WireRouteKind) : WireRouteKind :=
  match k with
  | SshWebrtcTcp host port user hostKeys proxyJump descriptor remoteSignaling remoteIceTcp _ =>
      SshWebrtcTcp host port user hostKeys proxyJump descriptor remoteSignaling remoteIceTcp ""
  | ManagedWebrtc targetDeviceId _ relayMode relayTransport => ManagedWebrtc targetDeviceId "" relayMode relayTransport
  | k => k
  end.
Definition shared_route (w : EndpointRouteConfigV1) : EndpointRouteConfigV1 :=
  w <| wr_CredentialRef := "" |> <| wr_Source := 0 |> <| wr_PolicySource := 0 |> <| wr_Route := portable_kind <$> w.(wr_Route) |>.
Definition shareCredentialDescriptor (id kind : string) : WireDescriptor := mkWireDescriptor id (wireCredentialKind kind) false.
Definition add_descriptor (ds : gmap string WireDescriptor) (d : WireDescriptor) : gmap string WireDescriptor := <[d.(wd_DescriptorId) := d]> ds.
(** The descriptors a route puts into the map, in their order. *)
Definition route_descriptors (r : AccessRoute) : list WireDescriptor :=
  let capability := shareCredentialDescriptor (r.(ar_ID) +:+ "-capability") CredentialCapabilityGrant in
  if String.eqb r.(ar_Kind) RouteDirectWebRTCTCP then [capability]
  else if String.eqb r.(ar_Kind) RouteSSHWebRTCTCP then
    match r.(ar_CredentialDescriptor) with Some d => [wire_descriptor d; capability] | None => [capability] end
  else if String.eqb r.(ar_Kind) RouteManagedWebRTC then [shareCredentialDescriptor (r.(ar_ID) +:+ "-cloud-profile") CredentialCloudProfile; capability]
  else [].
Fixpoint share_routes (routes : list AccessRoute) : result (list EndpointRouteConfigV1) :=
  match routes with
  | [] => Ok []
  | r :: routes =>
      if String.eqb r.(ar_Kind) RouteLocalUnix then share_routes routes
      else let? w := routeToProto r in let? ws := share_routes routes in Ok (shared_route w :: ws)
  end.
Definition share_descriptors (routes : list AccessRoute) : list WireDescriptor :=
  sorted_values (foldl (λ ds r, foldl add_descriptor ds (route_descriptors r)) ∅ routes).
(** [now] is the argument of the caller, [clock] what [time.Now()] gives the check of the result. *)
Definition NewClientEndpointShareBundle (target : Endpoint) (transferID : string) (now ttl clock : Z) : result ClientEndpointShareBundleV1 :=
  if ttl <=? 0 then Err ErrorConfig
  else
    let? normalized := normalizedAndValidated target in
    if identity_Empty normalized.(ep_DaemonIdentity) then Err ErrorConfig
    else
      let? routes := share_routes (RouteList normalized) in
      if len routes =? 0 then Err ErrorConfig
      else
        let bundle := mkShareBundle ClientEndpointShareBundleVersion (TrimSpace transferID) (Some (wire_identity normalized.(ep_DaemonIdentity)))
                        normalized.(ep_Label) routes (wireConnectMode normalized.(ep_ConnectMode)) (Some (wire_policy normalized.(ep_SelectionPolicy)))
                        (share_descriptors (RouteList normalized)) "" (i64 now) (i64 (now + ttl)) in
        let? _ := MarshalClientEndpointShareBundle bundle clock in
        Ok bundle.

Fixpoint candidate_routes (source : string) (enabled : EndpointRouteConfigV1 → bool) (ws : list EndpointRouteConfigV1) : result (list AccessRoute) :=
  match ws with
  | [] => Ok []
  | w :: ws =>
      let? r := accessRouteFromWire w (enabled w) in
      let? rs := candidate_routes source enabled ws in
      Ok (r <| ar_Source := source |> <| ar_PolicySource := source |> :: rs)
  end.
Definition share_policy (policy : option WireSelectionPolicy) : SelectionPolicy :=
  match policy with
  | None => no_policy
  | Some p => mkSelectionPolicy (p.(wp_HedgeDelayMillis) * millisecond) p.(wp_HedgeDelayConfigured) ""
  end.
Definition EndpointCandidateFromShareBundle (bundle : ClientEndpointShareBundleV1) (clock : Z) : result EndpointCandidate :=
  match validateClientEndpointShareBundle bundle clock, bundle.(sb_Identity) with
  | Some err, _ => Err err
  | None, None => Err ErrorConfig
  | None, Some identity =>
      let? routes := candidate_routes SourceShare wr_Enabled bundle.(sb_Routes) in
      Ok (mkCandidate SourceShare (mkDaemonIdentity identity.(wi_DeviceId) identity.(wi_DeviceFingerprint)) bundle.(sb_SuggestedLabel) routes
            (mapWireConnectMode bundle.(sb_ConnectMode)) (Some (share_policy bundle.(sb_SelectionPolicy))) true
            (descriptor_from_wire <$> bundle.(sb_CredentialDescriptors)))
  end.
End share.

(** ** Bootstrap bundles *)

(** The messages of [EndpointContracts] with these routes. *)
Section bootstrap.
Context `{RemoteCrypto} (marshalBundle : Bundle EndpointRouteConfigV1 → result string)
  (unmarshalBundle : string → result (Bundle EndpointRouteConfigV1 * bool))
  (marshalTicketInput : string → Z → string → string → PairingTicketDescriptor → result string)
  (marshalBundleInput : string → Z → Bundle EndpointRouteConfigV1 → result string).

Definition is_managed (w : EndpointRouteConfigV1) : bool := match w.(wr_Route) with Some (ManagedWebrtc _ _ _ _) => true | _ => false end.
Definition wire_proto : EndpointProto := {|
  Route := EndpointRouteConfigV1; GetRouteId := wr_RouteId; GetManagedWebrtc := is_managed; route_unknown := wr_Unknown;
  validatePortableRoute := portable_route_error; EndpointContracts.marshalBundle := marshalBundle;
  EndpointContracts.unmarshalBundle := unmarshalBundle; EndpointContracts.marshalTicketInput := marshalTicketInput;
  EndpointContracts.marshalBundleInput := marshalBundleInput |}.
Definition EndpointCandidateFromBootstrapBundle (bundle : Bundle EndpointRouteConfigV1) : result EndpointCandidate :=
  match validateEndpointBootstrapBundleAt (H0 := wire_proto) bundle None, bundle.(pb_Identity) with
  | Some err, _ => Err err
  | None, None => Err ErrorConfig
  | None, Some identity =>
      let? routes := candidate_routes SourceBootstrap (λ _, true) bundle.(pb_Routes) in
      Ok (mkCandidate SourceBootstrap (mkDaemonIdentity identity.(wi_DeviceId) identity.(wi_DeviceFingerprint)) (TrimSpace bundle.(pb_SuggestedLabel))
            routes "" None false [])
  end.
End bootstrap.

(** ** Facts *)

(** *** A route and its message *)
Definition pick {A} (kind : string) (local direct ssh managed : A) : A :=
  if String.eqb kind RouteLocalUnix then local else if String.eqb kind RouteDirectWebRTCTCP then direct
  else if String.eqb kind RouteSSHWebRTCTCP then ssh else managed.
(** What a message keeps of a route: the fields of its kind. *)
Definition of_kind (r : AccessRoute) : AccessRoute :=
  let pick {A} := @pick A r.(ar_Kind) in
  mkAccessRoute r.(ar_ID) r.(ar_DisplayName) r.(ar_Kind) r.(ar_Enabled) r.(ar_ManualOnly) r.(ar_Priority) r.(ar_CredentialRef)
    (pick "" "" r.(ar_SSHCredentialRef) "") r.(ar_Source) r.(ar_PolicySource) (pick r.(ar_Socket) "" "" "") (pick "" "" r.(ar_Host) "")
    (pick 0 0 r.(ar_Port) 0) (pick "" "" r.(ar_User) "") (pick "" "" r.(ar_ProxyJump) "") (pick [] [] r.(ar_HostKeyFingerprints) [])
    (pick None None r.(ar_CredentialDescriptor) None) (pick "" "" r.(ar_RemoteSignalingAddress) "") (pick "" "" r.(ar_RemoteICETCPAddress) "")
    (pick [] r.(ar_SignalingAddresses) [] []) (pick [] r.(ar_ICETCPAddresses) [] []) (pick [] r.(ar_AdvertisedAddresses) [] [])
    (pick "" r.(ar_ServerName) "" "") (pick "" "" "" r.(ar_TargetDeviceID)) (pick "" "" "" r.(ar_AccountProfileRef)) (pick "" "" "" r.(ar_RelayMode))
    (pick "" "" "" r.(ar_RelayTransport)).

(** The values the enumerations of a message have. *)
Definition wire_values (r : AccessRoute) : Prop :=
  one_of r.(ar_Kind) [RouteLocalUnix; RouteDirectWebRTCTCP; RouteSSHWebRTCTCP; RouteManagedWebRTC] = true
  ∧ 0 <= r.(ar_Port) <= 65535
  ∧ (∀ d, r.(ar_CredentialDescriptor) = Some d → mapWireCredentialKind (wireCredentialKind d.(cd_Kind)) = d.(cd_Kind))
  ∧ (r.(ar_Kind) = RouteManagedWebRTC → mapWireRelayMode (wireRelayMode r.(ar_RelayMode)) = r.(ar_RelayMode)
       ∧ mapWireRelayTransport (wireRelayTransport r.(ar_RelayTransport)) = r.(ar_RelayTransport)).

Lemma one_of_In v l : one_of v l = true ↔ In v l.
Proof. unfold one_of. rewrite existsb_exists. split; [intros (x & Hx & ->%String.eqb_eq); done|]. intros Hv. exists v. by rewrite String.eqb_refl. Qed.
Lemma kind_cases (P : string → Prop) kind :
  one_of kind [RouteLocalUnix; RouteDirectWebRTCTCP; RouteSSHWebRTCTCP; RouteManagedWebRTC] = true →
  P RouteLocalUnix → P RouteDirectWebRTCTCP → P RouteSSHWebRTCTCP → P RouteManagedWebRTC → P kind.
Proof. rewrite one_of_In. intros [<-|[<-|[<-|[<-|[]]]]]; done. Qed.

(** A message with the configuration of [r], in whatever envelope. *)
Lemma config_from_wire r config w enabled :
  wire_values r → route_config r = Some config → w.(wr_Route) = Some config →
  let source := or_default (mapWireSource w.(wr_Source)) SourceShare in
  accessRouteFromWire w enabled
  = Ok ((of_kind r) <| ar_ID := TrimSpace w.(wr_RouteId) |> <| ar_DisplayName := w.(wr_DisplayName) |> <| ar_Enabled := enabled |>
          <| ar_ManualOnly := w.(wr_ManualOnly) |> <| ar_Priority := w.(wr_Priority) |> <| ar_CredentialRef := w.(wr_CredentialRef) |>
          <| ar_Source := source |> <| ar_PolicySource := or_default (mapWireSource w.(wr_PolicySource)) source |>).
Proof.
  intros (Hk & Hport & Hd & Hm) Hc Hw. cbv zeta. unfold accessRouteFromWire. rewrite Hw. clear Hw.
  destruct r as [id name kind en manual prio cref scref src psrc socket host port user jump keys desc rs ri sa ia aa sn td ap mode transport].
  cbn [ar_Kind ar_Port ar_CredentialDescriptor ar_RelayMode ar_RelayTransport] in *. revert Hm Hc. pattern kind. apply kind_cases; [done|..]; intros Hm Hc; injection Hc as <-.
  - reflexivity.
  - reflexivity.
  - cbn [ar_Port]. destruct (Z.gtb_spec port 65535); [lia|]. unfold u16. rewrite Z.mod_small by lia.
    assert (E : descriptor_from_wire <$> (wire_descriptor <$> desc) = desc).
    { destruct desc as [d|]; [|done]. cbn. unfold descriptor_from_wire. cbn. rewrite (Hd d) by done. by destruct d. }
    cbn [ar_CredentialDescriptor]. rewrite E. reflexivity.
  - destruct (Hm eq_refl) as [E1 E2]. cbn [ar_RelayMode ar_RelayTransport]. rewrite E1, E2. reflexivity.
Qed.

(** *** A normalized route *)
Definition wire_route (r : AccessRoute) : AccessRoute := if String.eqb r.(ar_Kind) RouteManagedWebRTC then r else r <| ar_RelayTransport := "" |>.
Definition port_ok (r : AccessRoute) : Prop := 0 <= r.(ar_Port) <= 65535.
Definition priority_ok (r : AccessRoute) : bool := match r.(ar_Priority) with Some p => (0 <=? p) && (p <=? 2147483647) | None => true end.

Lemma canonical_blank v : canonical_text v false = true → is_empty (TrimSpace v) = true → v = "".
Proof.
  unfold canonical_text, is_empty. destruct (String.eqb_spec v "") as [|]; [done|]. intros [E%String.eqb_eq _]%andb_true_iff E2%String.eqb_eq. congruence.
Qed.
Lemma len_empty {A} (l : list A) : (len l =? 0) = true → l = [].
Proof. intros H%Z.eqb_eq. destruct l; [done|]. unfold len in H. cbn in H. lia. Qed.

(** The parts of [route_valid]. *)
Lemma route_valid_parts r i : route_valid r i = true →
  identifier_ok r.(ar_ID) = true ∧ priority_ok r = true
  ∧ Forall (λ v, canonical_text v false = true)
      [r.(ar_CredentialRef); r.(ar_SSHCredentialRef); r.(ar_Socket); r.(ar_Host); r.(ar_User); r.(ar_ProxyJump); r.(ar_RemoteSignalingAddress);
       r.(ar_RemoteICETCPAddress); r.(ar_ServerName); r.(ar_TargetDeviceID); r.(ar_AccountProfileRef)]
  ∧ match r.(ar_CredentialDescriptor) with Some d => r.(ar_Kind) = RouteSSHWebRTCTCP ∧ descriptor_ok d = true | None => True end
  ∧ validSource r.(ar_Source) = true ∧ validSource r.(ar_PolicySource) = true ∧ kind_ok r i = true.
Proof.
  unfold route_valid. rewrite !andb_true_iff. intros [[[[[[[[[[[[Hid _] _] Hp] Ht] _] _] _] _] Hd] Hs] Hps] Hk].
  split_and!; try done.
  - apply Forall_forall. intros v Hv%list_elem_of_In. rewrite forallb_forall in Ht. by apply Ht.
  - destruct r.(ar_CredentialDescriptor); [|done]. by apply andb_true_iff in Hd as [->%String.eqb_eq ?].
Qed.
Lemma descriptor_kind d : descriptor_ok d = true → mapWireCredentialKind (wireCredentialKind d.(cd_Kind)) = d.(cd_Kind).
Proof.
  unfold descriptor_ok. rewrite andb_true_iff, orb_true_iff, andb_true_iff, !one_of_In.
  intros [_ [[<-|[<-|[]]]|[[<-|[<-|[<-|[]]]] _]]]; done.
Qed.
Lemma source_wire s : validSource s = true → mapWireSource (wireSource s) = s ∧ wireSource s ≠ 0.
Proof. unfold validSource. rewrite one_of_In. intros [<-|[<-|[<-|[<-|[<-|[<-|[<-|[]]]]]]]]; done. Qed.
Lemma validSource_nonempty s : validSource s = true → s ≠ "".
Proof. by intros H ->. Qed.

Lemma kind_ok_known r i : kind_ok r i = true → one_of r.(ar_Kind) [RouteLocalUnix; RouteDirectWebRTCTCP; RouteSSHWebRTCTCP; RouteManagedWebRTC] = true.
Proof.
  unfold kind_ok, one_of. cbn [existsb]. destruct (String.eqb r.(ar_Kind) RouteLocalUnix), (String.eqb r.(ar_Kind) RouteSSHWebRTCTCP),
    (String.eqb r.(ar_Kind) RouteDirectWebRTCTCP), (String.eqb r.(ar_Kind) RouteManagedWebRTC); done.
Qed.
Lemma one_of_map (P : string → Prop) v l : one_of v l = true → Forall P l → P v.
Proof. rewrite one_of_In, Forall_forall. intros Hv HP. by apply HP, list_elem_of_In. Qed.

Lemma kind_ok_managed r i : r.(ar_Kind) = RouteManagedWebRTC →
  kind_ok r i = negb (is_empty r.(ar_TargetDeviceID)) && identity_ok i true && String.eqb r.(ar_TargetDeviceID) i.(di_DeviceID)
    && one_of r.(ar_RelayMode) [RelayAuto; RelayDirect; RelayOnly; RelaySmart]
    && one_of r.(ar_RelayTransport) [""; RelayTransportAuto; RelayTransportUDP; RelayTransportTCP]
    && negb (negb (is_empty r.(ar_Socket)) || hasSSHFields r || hasDirectFields r).
Proof. intros E. unfold kind_ok. rewrite E. reflexivity. Qed.

Lemma valid_wire_values r i : route_valid r i = true → route_withDefaults r = r → port_ok r → wire_values r.
Proof.
  intros Hv Hdef Hport. destruct (route_valid_parts _ _ Hv) as (_ & _ & _ & Hd & _ & _ & Hk). split_and!; [by eapply kind_ok_known|apply Hport..| |].
  - intros d Ed. rewrite Ed in Hd. by apply descriptor_kind, Hd.
  - intros Ek. rewrite kind_ok_managed, !andb_true_iff in Hk by done. destruct Hk as [[[_ Hm] Ht] _]. split; [apply (one_of_map (λ m, mapWireRelayMode (wireRelayMode m) = m) _ _ Hm); by repeat constructor|].
    assert (E : or_default r.(ar_RelayTransport) RelayTransportAuto = r.(ar_RelayTransport)).
    { rewrite <- Hdef at 2. rewrite route_withDefaults_eq. cbn [ar_RelayTransport]. by rewrite Ek. }
    revert E. apply (one_of_map (λ t, or_default t RelayTransportAuto = t → mapWireRelayTransport (wireRelayTransport t) = t) _ _ Ht).
    by repeat constructor.
Qed.

Definition plain_texts (r : AccessRoute) : Prop := Forall (λ v, canonical_text v false = true)
  [r.(ar_CredentialRef); r.(ar_SSHCredentialRef); r.(ar_Socket); r.(ar_Host); r.(ar_User); r.(ar_ProxyJump); r.(ar_RemoteSignalingAddress);
   r.(ar_RemoteICETCPAddress); r.(ar_ServerName); r.(ar_TargetDeviceID); r.(ar_AccountProfileRef)].
#[local] Hint Resolve canonical_blank len_empty : core.
Lemma no_ssh_fields r : plain_texts r → hasSSHFields r = false →
  r.(ar_Host) = "" ∧ r.(ar_Port) = 0 ∧ r.(ar_User) = "" ∧ r.(ar_ProxyJump) = "" ∧ r.(ar_RemoteSignalingAddress) = "" ∧ r.(ar_RemoteICETCPAddress) = ""
  ∧ r.(ar_SSHCredentialRef) = "" ∧ r.(ar_HostKeyFingerprints) = [] ∧ r.(ar_CredentialDescriptor) = None.
Proof.
  unfold plain_texts, hasSSHFields. rewrite !Forall_cons, !orb_false_iff, !negb_false_iff. intros Ht Hf. decompose [and] Ht. decompose [and] Hf.
  split_and!; auto; [by apply Z.eqb_eq|]. by destruct r.(ar_CredentialDescriptor).
Qed.
Lemma no_direct_fields r : plain_texts r → hasDirectFields r = false →
  r.(ar_SignalingAddresses) = [] ∧ r.(ar_ICETCPAddresses) = [] ∧ r.(ar_AdvertisedAddresses) = [] ∧ r.(ar_ServerName) = "".
Proof.
  unfold plain_texts, hasDirectFields. rewrite !Forall_cons, !orb_false_iff, !negb_false_iff. intros Ht Hf. decompose [and] Ht. decompose [and] Hf.
  split_and!; auto.
Qed.
Lemma no_managed_fields r : plain_texts r → hasManagedFields r = false →
  r.(ar_TargetDeviceID) = "" ∧ r.(ar_AccountProfileRef) = "" ∧ r.(ar_RelayMode) = "".
Proof.
  unfold plain_texts, hasManagedFields. rewrite !Forall_cons, !orb_false_iff, !negb_false_iff. intros Ht Hf. decompose [and] Ht. decompose [and] Hf.
  split_and!; auto. by apply String.eqb_eq.
Qed.

(** The fields of the other kinds are empty. *)
Lemma kind_ok_apart r i : kind_ok r i = true →
  pick r.(ar_Kind) (hasSSHFields r = false ∧ hasDirectFields r = false ∧ hasManagedFields r = false)
    (r.(ar_Socket) = "" ∧ hasSSHFields r = false ∧ hasManagedFields r = false)
    (r.(ar_Socket) = "" ∧ hasDirectFields r = false ∧ hasManagedFields r = false)
    (r.(ar_Socket) = "" ∧ hasSSHFields r = false ∧ hasDirectFields r = false).
Proof.
  unfold kind_ok, pick. destruct (String.eqb r.(ar_Kind) RouteLocalUnix).
  { rewrite andb_true_iff, !negb_true_iff, !orb_false_iff. tauto. }
  destruct (String.eqb_spec r.(ar_Kind) RouteSSHWebRTCTCP) as [->|]; [change (String.eqb RouteSSHWebRTCTCP RouteDirectWebRTCTCP) with false; cbn iota|];
    [|destruct (String.eqb r.(ar_Kind) RouteDirectWebRTCTCP); [|destruct (String.eqb r.(ar_Kind) RouteManagedWebRTC); [|done]]];
    unfold is_empty; rewrite !andb_true_iff, !negb_true_iff, !orb_false_iff, !negb_false_iff, !String.eqb_eq; tauto.
Qed.
Lemma of_kind_valid r i : route_valid r i = true → of_kind r = wire_route r.
Proof.
  intros Hv. destruct (route_valid_parts _ _ Hv) as (_ & _ & Ht & _ & _ & _ & Hk). change (plain_texts r) in Ht.
  pose proof (kind_ok_known _ _ Hk) as Hkind. apply kind_ok_apart in Hk.
  pose proof (no_ssh_fields r Ht) as Hs. pose proof (no_direct_fields r Ht) as Hd. pose proof (no_managed_fields r Ht) as Hm. clear Ht Hv. revert Hk Hs Hd Hm.
  unfold wire_route, of_kind. generalize (hasSSHFields r), (hasDirectFields r), (hasManagedFields r).
  destruct r as [id name kind en manual prio cref scref src psrc socket host port user jump keys desc rs ri sa ia aa sn td ap mode transport].
  revert Hkind. intros Hkind bs bd bm. cbn in Hkind |- *. revert Hkind. intros Hkind. pattern kind. apply kind_cases; [exact Hkind|..]; unfold pick; cbn;
    intros (H1 & H2 & H3) Hs Hd Hm;
    repeat match goal with H : ?b = false → _, H' : ?b = false |- _ => specialize (H H') end; intuition subst; reflexivity.
Qed.

Lemma priority_wire r : priority_ok r = true → i32 <$> r.(ar_Priority) = r.(ar_Priority).
Proof. unfold priority_ok. destruct r.(ar_Priority) as [p|]; [|done]. intros H. cbn. f_equal. unfold i32. rewrite Z.mod_small by lia. lia. Qed.
Lemma route_config_known r : one_of r.(ar_Kind) [RouteLocalUnix; RouteDirectWebRTCTCP; RouteSSHWebRTCTCP; RouteManagedWebRTC] = true → is_Some (route_config r).
Proof. unfold route_config. intros Hk. pattern r.(ar_Kind). by apply kind_cases. Qed.

Lemma routeToProto_valid r i : route_valid r i = true → ∃ config,
  route_config r = Some config
  ∧ routeToProto r = Ok (mkWireRoute RouteConfigVersion r.(ar_ID) r.(ar_Enabled) r.(ar_ManualOnly) r.(ar_Priority) r.(ar_CredentialRef) (wireSource r.(ar_Source))
                           (wireSource r.(ar_PolicySource)) r.(ar_DisplayName) (Some config) false).
Proof.
  intros Hv. destruct (route_valid_parts _ _ Hv) as (_ & Hp & _ & _ & _ & _ & Hk). destruct (route_config_known r) as [config Hc]; [by eapply kind_ok_known|].
  exists config. split; [done|]. unfold routeToProto. rewrite Hc. by rewrite priority_wire.
Qed.
Lemma route_roundtrip r i : route_valid r i = true → route_withDefaults r = r → port_ok r →
  ∃ w, routeToProto r = Ok w ∧ w.(wr_Unknown) = false ∧ endpoint_route_from_wire w = Ok (wire_route r).
Proof.
  intros Hv Hdef Hport. destruct (routeToProto_valid _ _ Hv) as (config & Hc & ->). destruct (route_valid_parts _ _ Hv) as (Hid & _ & _ & _ & Hs & Hps & _).
  eexists. split_and!; [done..|]. unfold endpoint_route_from_wire.
  erewrite config_from_wire by (done || by eapply valid_wire_values). cbn [negb Z.eqb RouteConfigVersion Pos.eqb wr_SchemaVersion result_bind].
  cbn [wr_RouteId wr_DisplayName wr_Enabled wr_ManualOnly wr_Priority wr_CredentialRef wr_Source wr_PolicySource].
  destruct (source_wire _ Hs) as [-> Es]. destruct (source_wire _ Hps) as [-> Eps]. apply Z.eqb_neq in Es, Eps. rewrite Es, Eps.
  rewrite !or_default_set by by apply validSource_nonempty. rewrite (identifier_trim _ Hid), <- (of_kind_valid _ _ Hv). reflexivity.
Qed.

Lemma wire_route_valid r i : route_valid (wire_route r) i = route_valid r i.
Proof.
  unfold wire_route. destruct (String.eqb r.(ar_Kind) RouteManagedWebRTC) eqn:Ek; [done|]. unfold route_valid.
  assert (E : kind_ok (r <| ar_RelayTransport := "" |>) i = kind_ok r i).
  { unfold kind_ok. change (ar_Kind (r <| ar_RelayTransport := "" |>)) with (ar_Kind r). rewrite Ek. reflexivity. }
  rewrite E. reflexivity.
Qed.
Lemma wire_route_defaults r : route_withDefaults (wire_route r) = wire_route (route_withDefaults r).
Proof.
  assert (EK : (route_withDefaults r).(ar_Kind) = r.(ar_Kind)) by (rewrite route_withDefaults_eq; reflexivity).
  unfold wire_route. rewrite EK. destruct (String.eqb r.(ar_Kind) RouteManagedWebRTC) eqn:Ek; [done|]. rewrite !route_withDefaults_eq.
  change (ar_Kind (r <| ar_RelayTransport := "" |>)) with (ar_Kind r). rewrite Ek. cbv zeta.
  destruct (String.eqb r.(ar_Kind) RouteLocalUnix), (String.eqb r.(ar_Kind) RouteSSHWebRTCTCP); reflexivity.
Qed.
Lemma wire_route_fields r : (wire_route r).(ar_ID) = r.(ar_ID) ∧ automatic (wire_route r) = automatic r ∧ prioritized (wire_route r) = prioritized r.
Proof. unfold wire_route. by destruct (String.eqb _ _). Qed.

(** *** An endpoint in a message *)
Definition wire_endpoint (e : Endpoint) : Endpoint :=
  e <| ep_SelectionPolicy := e.(ep_SelectionPolicy) <| sp_RoutePreference := or_default e.(ep_SelectionPolicy).(sp_RoutePreference) RoutePreferenceAuto |> |>
    <| ep_Routes := wire_route <$> e.(ep_Routes) |>.
Definition ports_ok (e : Endpoint) : Prop := map_Forall (λ _ r, port_ok r) e.(ep_Routes).

Lemma automatic_wire routes :
  existsb prioritized (filter (λ r, automatic r = true) (wire_route <$> routes)) = existsb prioritized (filter (λ r, automatic r = true) routes)
  ∧ forallb prioritized (filter (λ r, automatic r = true) (wire_route <$> routes)) = forallb prioritized (filter (λ r, automatic r = true) routes).
Proof.
  induction routes as [|r routes [IHe IHf]]; [done|]. destruct (wire_route_fields r) as (_ & Ea & Ep). cbn [fmap list_fmap]. rewrite !filter_cons, Ea.
  case_decide; [|done]. cbn [existsb forallb]. by rewrite Ep, IHe, IHf.
Qed.
Lemma route_entry_wire i k r : route_entry_ok i (k, wire_route r) = route_entry_ok i (k, r).
Proof.
  unfold route_entry_ok. cbn [fst snd]. rewrite (proj1 (wire_route_fields r)). f_equal. set (id := normalizeRouteID _). clearbody id.
  assert (E : (wire_route r) <| ar_ID := id |> = wire_route (r <| ar_ID := id |>)) by (unfold wire_route; destruct (String.eqb r.(ar_Kind) _) eqn:E;
    change (ar_Kind (r <| ar_ID := id |>)) with (ar_Kind r); rewrite E; reflexivity).
  by rewrite E, wire_route_valid.
Qed.
Lemma wire_preference p : preference_ok p = true →
  preference_ok (p <| sp_RoutePreference := or_default p.(sp_RoutePreference) RoutePreferenceAuto |>) = true
  ∧ mapWireRoutePreference (wireRoutePreference p.(sp_RoutePreference)) = or_default p.(sp_RoutePreference) RoutePreferenceAuto.
Proof.
  unfold preference_ok. cbn [sp_RoutePreference set_field]. intros H.
  apply (one_of_map (λ v, one_of (or_default v RoutePreferenceAuto) _ = true ∧ mapWireRoutePreference (wireRoutePreference v) = or_default v RoutePreferenceAuto) _ _ H).
  by repeat constructor.
Qed.
Lemma wire_endpoint_valid e : endpoint_valid e = true → endpoint_valid (wire_endpoint e) = true.
Proof.
  unfold endpoint_valid. cbn [wire_endpoint ep_ID ep_ConnectMode ep_SelectionPolicy ep_LabelSource ep_DaemonIdentity ep_Routes set_field]. rewrite !andb_true_iff.
  intros [[[[[[[[Hid Hm] Hh] Hp] Hl] Hi] Hne] Hr] Hauto]. split_and!; try done.
  - by apply wire_preference.
  - apply negb_true_iff, bool_decide_eq_false. apply negb_true_iff, bool_decide_eq_false in Hne. by rewrite fmap_empty_iff.
  - rewrite map_to_list_fmap, forallb_forall. rewrite forallb_forall in Hr. intros kr Hkr%list_elem_of_In. apply list_elem_of_fmap in Hkr as ([k r] & -> & Hkr).
    cbn. rewrite route_entry_wire. by apply Hr, list_elem_of_In.
  - rewrite map_to_list_fmap, <- list_fmap_compose. change (snd ∘ prod_map id wire_route) with (wire_route ∘ @snd string AccessRoute).
    rewrite list_fmap_compose. destruct (automatic_wire (map_to_list e.(ep_Routes)).*2) as [-> ->]. exact Hauto.
Qed.

(** *** Writing and reading a map *)
Lemma existsb_none {A} (f : A → bool) l : Forall (λ x, f x = false) l → existsb f l = false.
Proof. induction 1 as [|x l Hx _ IH]; [done|]. cbn. by rewrite Hx. Qed.

Section write_read.
Context {A W : Type} (write : A → result W) (parse : W → result A) (key : A → string) (repeated : goerr) (image : A → A) (plain_ : W → Prop).
Hypothesis image_key : ∀ x, key (image x) = key x.
Definition written (x : A) : Prop := ∃ w, write x = Ok w ∧ plain_ w ∧ parse w = Ok (image x).
Definition enter (m : gmap string A) (x : A) : gmap string A := <[key x := image x]> m.

Lemma enter_lookup l m k : NoDup (key <$> l) →
  foldl enter m l !! k = match list_find (λ x, key x = k) l with Some (_, x) => Some (image x) | None => m !! k end.
Proof.
  revert m. induction l as [|x l IH]; intros m Hnd; [done|]. cbn in Hnd. apply NoDup_cons in Hnd as [Hx Hnd]. cbn [foldl]. rewrite (IH _ Hnd). cbn [list_find].
  case_decide as E; [|destruct (list_find _ l) as [[j y]|]; [done|]; unfold enter; by rewrite lookup_insert_ne].
  destruct (list_find _ l) as [[j y]|] eqn:Ef; [|unfold enter; cbn; by rewrite <- E, lookup_insert_eq].
  exfalso. apply list_find_Some in Ef as (Hy & <- & _). apply Hx. rewrite E. apply list_elem_of_fmap. exists y. split; [done|]. by eapply list_elem_of_lookup_2.
Qed.
Lemma enter_sorted m : (∀ k x, m !! k = Some x → key x = k) → foldl enter ∅ (sorted_values m) = image <$> m.
Proof.
  intros Hkey. apply map_eq. intros k. rewrite enter_lookup by (rewrite (sorted_values_keys key) by done; apply sorted_keys_NoDup). rewrite lookup_fmap.
  destruct (list_find _ _) as [[j x]|] eqn:Ef.
  - apply list_find_Some in Ef as (Hx & <- & _). apply list_elem_of_lookup_2, elem_of_sorted_values in Hx as [k' Hx]. rewrite (Hkey _ _ Hx). by rewrite Hx.
  - apply list_find_None in Ef. destruct (m !! k) as [x|] eqn:Ex; [|done]. rewrite Forall_forall in Ef. exfalso. apply (Ef x); [|by apply Hkey].
    apply elem_of_sorted_values. by exists k.
Qed.
Lemma write_read_list l m : Forall written l → NoDup (key <$> l) → (∀ x, x ∈ l → m !! key x = None) →
  ∃ ws, map_result write l = Ok ws ∧ Forall plain_ ws ∧ collect parse key repeated m ws = Ok (foldl enter m l).
Proof.
  intros Hl. revert m. induction Hl as [|x l (w & Hw & Hp & Hx) Hl IH]; intros m Hnd Hm; [by exists []|]. cbn in Hnd. apply NoDup_cons in Hnd as [Hk Hnd].
  destruct (IH (enter m x)) as (ws & Ews & Hps & Hr); [done|..].
  { intros y Hy. unfold enter. rewrite lookup_insert_ne; [apply Hm; by right|]. intros E. apply Hk, list_elem_of_fmap. by exists y. }
  exists (w :: ws). cbn [map_result]. rewrite Hw, Ews. cbn [result_bind]. split_and!; [done|by constructor|]. cbn [collect]. rewrite Hx. cbn [result_bind].
  rewrite image_key, bool_decide_eq_false_2; [exact Hr|]. by rewrite Hm by left; intros [].
Qed.
Lemma write_read m : map_Forall (λ k x, key x = k ∧ written x) m →
  ∃ ws, map_result write (sorted_values m) = Ok ws ∧ Forall plain_ ws ∧ collect parse key repeated ∅ ws = Ok (image <$> m).
Proof.
  intros Hm. assert (Hkey : ∀ k x, m !! k = Some x → key x = k) by (intros k x Hx; by apply (Hm k x)).
  rewrite <- (enter_sorted m Hkey). apply write_read_list; [|rewrite (sorted_values_keys key) by done; apply sorted_keys_NoDup|done].
  apply Forall_forall. intros x [k Hx]%elem_of_sorted_values. by apply (Hm k x).
Qed.
End write_read.

(** *** An endpoint and its message *)
Lemma own_ID r : r <| ar_ID := r.(ar_ID) |> = r.
Proof. by destruct r. Qed.
Lemma wire_canonical k e : canonical_endpoint k e → canonical_endpoint k (wire_endpoint e).
Proof.
  intros [Hk Hid Hv Hdef Hent Hr]. assert (Hroutes : ∀ id r, (wire_endpoint e).(ep_Routes) !! id = Some r →
    identifier_ok id = true ∧ r.(ar_ID) = id ∧ route_withDefaults r = r).
  { intros id r. cbn [wire_endpoint ep_Routes set_field]. rewrite lookup_fmap. intros (r0 & H0 & ->)%fmap_Some. destruct (Hr _ _ H0) as (? & ? & E).
    by rewrite (proj1 (wire_route_fields r0)), wire_route_defaults, E. }
  assert (Hkeys : route_keys_ok [] (map_to_list (wire_endpoint e).(ep_Routes)) = true).
  { apply named_route_keys_ok; [|apply NoDup_fst_map_to_list|intros ? _; apply not_elem_of_nil]. apply Forall_forall. intros [id r] Hin%elem_of_map_to_list.
    destruct (Hroutes _ _ Hin) as (Hi & E & _). split; [done|]. cbn [fst snd]. rewrite E. apply or_default_set. by destruct (identifier_plain _ Hi). }
  assert (Hd : endpoint_at k (wire_endpoint e) = wire_endpoint e).
  { assert (HR : (endpoint_at k (wire_endpoint e)).(ep_Routes) = (wire_endpoint e).(ep_Routes)).
    { apply map_eq. intros id. unfold endpoint_at. rewrite withDefaults_lookup by exact Hkeys. change (ep_Routes (_ <| ep_ID := k |>)) with (wire_endpoint e).(ep_Routes).
      destruct (_ !! id) as [r|] eqn:Er; [|done]. cbn. f_equal. destruct (Hroutes _ _ Er) as (_ & E & Ed). unfold route_at. by rewrite <- E, own_ID. }
    rewrite endpoint_at_eq in HR, Hdef |- * by done. cbn [ep_Routes] in HR. rewrite HR. clear HR Hkeys Hroutes Hr Hent Hv. destruct e. cbn in *. subst.
    injection Hdef as E1 E2 E3 E4. by rewrite E1, E2, E3. }
  split; try done; [by apply wire_endpoint_valid|]. split_and!; [done| |done|by rewrite Hd; apply wire_endpoint_valid].
  cbn [wire_endpoint ep_ID set_field]. rewrite Hid. apply or_default_set. by destruct (identifier_plain _ Hk).
Qed.
Lemma canonical_normalized k e : canonical_endpoint k e → endpoint_withDefaults e = e ∧ normalizedAndValidated e = Ok e.
Proof.
  intros Hc. assert (E : endpoint_withDefaults e = e).
  { rewrite <- (ce_defaults _ _ Hc) at 2. unfold endpoint_at. f_equal. rewrite <- (ce_id _ _ Hc). by destruct e. }
  split; [done|]. unfold normalizedAndValidated. by rewrite E, (ce_valid _ _ Hc).
Qed.
Lemma canonical_route k e id r : canonical_endpoint k e → e.(ep_Routes) !! id = Some r →
  r.(ar_ID) = id ∧ route_withDefaults r = r ∧ route_valid r e.(ep_DaemonIdentity) = true.
Proof.
  intros Hc Hr. destruct (ce_routes _ _ Hc _ _ Hr) as (Hi & E & Hd). split_and!; [done..|]. pose proof (ce_valid _ _ Hc) as Hv. unfold endpoint_valid in Hv.
  rewrite !andb_true_iff in Hv. destruct Hv as [[_ Hv] _]. rewrite forallb_forall in Hv. specialize (Hv (id, r)).
  assert (Hin : In (id, r) (map_to_list e.(ep_Routes))) by by apply list_elem_of_In, elem_of_map_to_list.
  apply Hv in Hin as [_ Hin]%andb_true_iff. cbn [fst snd] in Hin. unfold normalizeRouteID in Hin.
  assert (Ei : TrimSpace (or_default r.(ar_ID) (TrimSpace id)) = id).
  { rewrite E, or_default_set by by destruct (identifier_plain _ Hi). by apply identifier_trim. }
  rewrite Ei in Hin. rewrite <- Hin. f_equal. by rewrite <- E, own_ID.
Qed.

Lemma connect_wire m : one_of m [ConnectAuto; ConnectOnDemand; ConnectManual] = true → mapWireConnectMode (wireConnectMode m) = m ∧ is_empty m = false.
Proof. intros H. apply (one_of_map (λ m, mapWireConnectMode (wireConnectMode m) = m ∧ is_empty m = false) _ _ H). by repeat constructor. Qed.
Lemma hedge_wire p : hedge_ok p = true →
  u64 (Z.quot p.(sp_HedgeDelay) millisecond) * millisecond = p.(sp_HedgeDelay)
  ∧ 0 <= u64 (Z.quot p.(sp_HedgeDelay) millisecond) <= 30000
  ∧ (p.(sp_HedgeDelayConfigured) = false → u64 (Z.quot p.(sp_HedgeDelay) millisecond) = 0).
Proof.
  unfold hedge_ok. destruct p as [d [|] pref]; cbn [sp_HedgeDelay sp_HedgeDelayConfigured].
  - rewrite !andb_true_iff. intros [[H0%Z.leb_le H1%Z.leb_le] Hr%Z.eqb_eq]. unfold nanos_per_second, millisecond in *.
    pose proof (Z.quot_rem' d 1000000) as E. rewrite Hr in E. assert (0 <= Z.quot d 1000000 <= 30000) by lia.
    rewrite u64_small by lia. split_and!; [lia..|done].
  - intros ->%Z.eqb_eq. vm_compute. split_and!; done.
Qed.
Lemma policy_wire p : hedge_ok p = true → preference_ok p = true →
  policy_from_wire (Some (wire_policy p)) = Ok (p <| sp_RoutePreference := or_default p.(sp_RoutePreference) RoutePreferenceAuto |>).
Proof.
  intros Hh Hp. destruct (hedge_wire _ Hh) as (E & Hrange & Hoff). unfold policy_from_wire, wire_policy.
  cbn [wp_HedgeDelayMillis wp_HedgeDelayConfigured wp_RoutePreference sp_RoutePreference]. rewrite E. destruct (Z.gtb_spec (u64 (Z.quot p.(sp_HedgeDelay) millisecond)) 30000); [lia|].
  assert (Ec : negb p.(sp_HedgeDelayConfigured) && negb (u64 (Z.quot p.(sp_HedgeDelay) millisecond) =? 0) = false).
  { destruct p.(sp_HedgeDelayConfigured); [done|]. by rewrite Hoff. }
  cbn [orb]. rewrite Ec. destruct (wire_preference _ Hp) as [_ ->].
  assert (En : is_empty (or_default p.(sp_RoutePreference) RoutePreferenceAuto) = false) by by apply String.eqb_neq, or_default_nonempty.
  rewrite En. by destruct p.
Qed.

Lemma wire_endpoint_idemp e : wire_endpoint (wire_endpoint e) = wire_endpoint e.
Proof.
  assert (HR : wire_route <$> (wire_route <$> e.(ep_Routes)) = wire_route <$> e.(ep_Routes)).
  { rewrite <- map_fmap_compose. apply map_fmap_ext. intros k r _. unfold compose, wire_route. destruct (String.eqb r.(ar_Kind) RouteManagedWebRTC) eqn:E;
      [by rewrite E|]. change (ar_Kind (r <| ar_RelayTransport := "" |>)) with (ar_Kind r). rewrite E. reflexivity. }
  assert (HW : ∀ e, wire_endpoint e = mkEndpoint e.(ep_ID) e.(ep_Label) e.(ep_LabelSource) e.(ep_DaemonIdentity) e.(ep_ConnectMode) e.(ep_Enabled)
    (mkSelectionPolicy e.(ep_SelectionPolicy).(sp_HedgeDelay) e.(ep_SelectionPolicy).(sp_HedgeDelayConfigured)
       (or_default e.(ep_SelectionPolicy).(sp_RoutePreference) RoutePreferenceAuto)) (wire_route <$> e.(ep_Routes))) by reflexivity.
  rewrite !HW. cbn [ep_ID ep_Label ep_LabelSource ep_DaemonIdentity ep_ConnectMode ep_Enabled ep_SelectionPolicy ep_Routes sp_HedgeDelay sp_HedgeDelayConfigured
    sp_RoutePreference]. by rewrite HR, or_default_idemp.
Qed.

Section round_trip.
Context `{RemoteCrypto}.

Lemma identity_wire i : identity_ok i false = true →
  identity_from_wire (if identity_Empty i then None else Some (wire_identity i)) = Ok i.
Proof.
  unfold identity_ok. intros Hok. destruct (identity_Empty i) eqn:Ei.
  { unfold identity_Empty in Ei. apply andb_true_iff in Ei as [E1%String.eqb_eq E2%String.eqb_eq]. destruct i. cbn in *. by subst. }
  destruct (String.eqb (TrimSpace _) "" && _ && _); [done|]. unfold identity_from_wire, validateWireIdentity, wire_identity.
  cbn [wi_DeviceId wi_DeviceFingerprint wi_DevicePublicKey]. destruct (DaemonIdentity_Validate _ _); [done|]. by destruct i.
Qed.
Lemma endpoint_roundtrip k e : canonical_endpoint k e → ports_ok e → written EndpointToProto EndpointFromProto wire_endpoint (λ w, endpoint_unknown w = false) e.
Proof.
  intros Hc Hports. destruct (canonical_normalized _ _ Hc) as [_ En]. pose proof (wire_canonical _ _ Hc) as Hw. destruct (canonical_normalized _ _ Hw) as [Ewd Ewn].
  destruct (write_read routeToProto endpoint_route_from_wire ar_ID ErrorRouteConflict wire_route (λ w, wr_Unknown w = false)
    (λ r, proj1 (wire_route_fields r)) e.(ep_Routes)) as (ws & Ews & Hplain & Hread).
  { intros id r Hr. destruct (canonical_route _ _ _ _ Hc Hr) as (Ei & Hd & Hv). split; [done|]. by apply (route_roundtrip _ _ Hv Hd), (Hports id r). }
  pose proof (ce_valid _ _ Hc) as Hv. unfold endpoint_valid in Hv. rewrite !andb_true_iff in Hv. destruct Hv as [[[[[[[[_ Hm] Hh] Hp] Hl] Hi] _] _] _].
  unfold written, EndpointToProto. rewrite En. cbn [result_bind]. unfold RouteList. rewrite Ews. cbn [result_bind].
  eexists. pose proof (existsb_none _ _ Hplain) as Eu. split_and!; [done|exact Eu|].
  unfold EndpointFromProto, endpoint_unknown. cbn [we_SchemaVersion we_Unknown we_Routes we_Identity we_ConnectMode we_SelectionPolicy we_EndpointId we_Label we_LabelSource we_Enabled].
  rewrite Eu, (identity_wire _ Hi). cbn [negb Z.eqb EndpointConfigVersion Pos.eqb orb result_bind]. destruct (connect_wire _ Hm) as [-> ->].
  rewrite (policy_wire _ Hh Hp). cbn [result_bind]. unfold routes_from_wire. rewrite Hread. cbn [result_bind]. destruct (source_wire _ Hl) as [-> _].
  change (mkEndpoint e.(ep_ID) _ _ _ _ _ _ _) with (wire_endpoint e). rewrite Ewd. exact Ewn.
Qed.

(** *** A registry in a message *)
Definition wire_registry (r : Registry) : Registry := r <| rg_Endpoints := wire_endpoint <$> r.(rg_Endpoints) |>.
Definition registry_ports_ok (r : Registry) : Prop := map_Forall (λ _ e, ports_ok e) r.(rg_Endpoints).

Lemma wire_registry_canonical r : canonical_registry r → canonical_registry (wire_registry r).
Proof.
  intros [Hv Hc Hap Hd]. split; [done|..].
  - intros k e. cbn. rewrite lookup_fmap. intros (e0 & H0 & ->)%fmap_Some. by apply wire_canonical, Hc.
  - eapply apart_same; [|exact Hap]. intros k. cbn. rewrite lookup_fmap. by destruct (_ !! k).
  - cbn [wire_registry rg_Endpoints rg_Default set_field]. destruct (decide (r.(rg_Endpoints) = ∅)) as [->|Hne]; [by rewrite decide_True by apply fmap_empty|].
    rewrite decide_False by by rewrite fmap_empty_iff. destruct Hd as (e & He & Hen). exists (wire_endpoint e). by rewrite lookup_fmap, He.
Qed.
Lemma registry_roundtrip r : canonical_registry r → registry_ports_ok r →
  ∃ w, RegistryToProto r = Ok w ∧ RegistryFromProto w = Ok (wire_registry r).
Proof.
  intros Hr Hports. unfold RegistryToProto. rewrite (canonical_normalize _ Hr). cbn [result_bind].
  destruct (write_read EndpointToProto EndpointFromProto ep_ID ErrorConfig wire_endpoint (λ w, endpoint_unknown w = false) (λ e, eq_refl) r.(rg_Endpoints))
    as (ws & Ews & Hplain & Hread).
  { intros k e He. pose proof (cr_endpoints _ Hr _ _ He) as Hc. split; [apply Hc|]. by apply (endpoint_roundtrip k); [|apply (Hports k)]. }
  rewrite Ews. eexists. split; [done|]. unfold RegistryFromProto, registry_unknown. cbn [wg_SchemaVersion wg_Unknown wg_Endpoints wg_DefaultEndpointId].
  rewrite (existsb_none _ _ Hplain). unfold endpoints_from_proto. rewrite Hread. cbn [negb Z.eqb EndpointRegistryContractVersion Pos.eqb orb result_bind].
  rewrite <- (cr_version _ Hr). exact (canonical_normalize _ (wire_registry_canonical _ Hr)).
Qed.
End round_trip.

(** *** Ports *)

(** What [withDefaults] leaves in the map of the routes. *)
Definition defaulted (k : string) (r : AccessRoute) : Prop := r.(ar_ID) = k ∧ route_withDefaults r = r.
Lemma default_port r : port_ok r → port_ok (route_withDefaults r).
Proof.
  unfold port_ok. rewrite route_withDefaults_eq. cbn [ar_Port]. destruct (String.eqb _ _); [done|]. destruct (String.eqb _ _); [|by destruct (String.eqb _ _)].
  by destruct (r.(ar_Port) =? 0).
Qed.
Lemma withDefaults_routes e : ep_Routes (endpoint_withDefaults e) = foldl default_route ∅ (map_to_list e.(ep_Routes)).
Proof. unfold endpoint_withDefaults. by destruct (is_empty _). Qed.
Lemma default_routes_inv (P : AccessRoute → Prop) l m : (∀ r id, P r → P (route_withDefaults (r <| ar_ID := id |>))) →
  Forall (λ kr, P kr.2) l → map_Forall (λ k r, defaulted k r ∧ P r) m → map_Forall (λ k r, defaulted k r ∧ P r) (foldl default_route m l).
Proof.
  intros HP Hl. revert m. induction Hl as [|[k r] l Hr Hl IH]; intros m Hm; [done|]. cbn [foldl]. apply IH. unfold default_route. apply map_Forall_insert_2; [|done].
  split; [split; [done|apply route_withDefaults_idemp]|by apply HP].
Qed.
Lemma withDefaults_inv (P : AccessRoute → Prop) e : (∀ r id, P r → P (route_withDefaults (r <| ar_ID := id |>))) →
  map_Forall (λ _ r, P r) e.(ep_Routes) → map_Forall (λ k r, defaulted k r ∧ P r) (endpoint_withDefaults e).(ep_Routes).
Proof.
  intros HP Hm. rewrite withDefaults_routes. apply default_routes_inv; [done| |apply map_Forall_empty]. apply Forall_forall. intros [k r] Hr%elem_of_map_to_list.
  by apply (Hm k).
Qed.
Lemma ports_withDefaults e : ports_ok e → ports_ok (endpoint_withDefaults e).
Proof.
  intros Hp k r Hr. eapply (withDefaults_inv port_ok) in Hr; [apply Hr| |done]. intros r0 id H0. by apply default_port.
Qed.

Lemma collect_inv {W A} (parse : W → result A) key repeated (P : A → Prop) ws m m' :
  (∀ w x, parse w = Ok x → P x) → collect parse key repeated m ws = Ok m' → map_Forall (λ _ x, P x) m → map_Forall (λ _ x, P x) m'.
Proof.
  intros HP. revert m. induction ws as [|w ws IH]; intros m; cbn [collect]; [by intros [= <-]|]. destruct (parse w) as [x|] eqn:Ex; [|done]. cbn [result_bind].
  case_bool_decide; [done|]. intros Hc Hm. eapply IH; [done|]. apply map_Forall_insert_2; [by eapply HP|done].
Qed.
Lemma accessRoute_port w enabled r : accessRouteFromWire w enabled = Ok r → port_ok r.
Proof.
  unfold accessRouteFromWire, port_ok. destruct w.(wr_Route) as [[]|]; [..|done]; [by intros [= <-]|by intros [= <-]| |by intros [= <-]].
  destruct (_ >? _); [done|]. intros [= <-]. cbn [ar_Port set_field]. change (0 <= u16 port <= 65535). unfold u16. pose proof (Z.mod_pos_bound port (2 ^ 16)). lia.
Qed.
Lemma read_route_port w r : endpoint_route_from_wire w = Ok r → port_ok r.
Proof.
  unfold endpoint_route_from_wire. destruct (negb _); [done|]. destruct (accessRouteFromWire _ _) as [r0|] eqn:E; [|done]. apply accessRoute_port in E. cbn [result_bind].
  intros [= <-]. by destruct (wr_Source w =? 0), (wr_PolicySource w =? 0).
Qed.
Lemma normalizedAndValidated_ok e e' : normalizedAndValidated e = Ok e' → e' = endpoint_withDefaults e ∧ endpoint_valid e' = true.
Proof. unfold normalizedAndValidated. destruct (endpoint_valid _) eqn:E; [|done]. by intros [= <-]. Qed.

Section read_registry.
Context `{RemoteCrypto}.

Lemma read_endpoint_ports w e : EndpointFromProto w = Ok e → ports_ok e.
Proof.
  unfold EndpointFromProto. destruct (_ || _); [done|]. destruct (identity_from_wire _); [|done]. cbn [result_bind]. destruct (is_empty _); [done|].
  destruct (policy_from_wire _); [|done]. cbn [result_bind]. destruct (routes_from_wire _) as [routes|] eqn:Er; [|done]. cbn [result_bind].
  intros [-> _]%normalizedAndValidated_ok. do 2 apply ports_withDefaults. eapply (collect_inv _ _ _ port_ok); [apply read_route_port|exact Er|apply map_Forall_empty].
Qed.
Lemma normalize_ports r n : Normalize r = Ok n → registry_ports_ok r → registry_ports_ok n.
Proof.
  intros (_ & E & _)%normalize_sound Hp k e. rewrite E, normal_endpoints_lookup. intros (e0 & H0 & ->)%fmap_Some. apply ports_withDefaults. exact (Hp k e0 H0).
Qed.
Lemma read_registry_sound w r : RegistryFromProto w = Ok r → canonical_registry r ∧ registry_ports_ok r.
Proof.
  unfold RegistryFromProto. destruct (_ || _); [done|]. destruct (endpoints_from_proto _) as [es|] eqn:Ee; [|done]. cbn [result_bind]. intros HN. split; [by apply normalize_sound in HN as [? _]|].
  eapply normalize_ports; [exact HN|]. exact (collect_inv _ _ _ ports_ok _ _ _ read_endpoint_ports Ee (map_Forall_empty _)).
Qed.

(** C23: A registry that is written as a message and read back is the normalized registry, with an empty route preference
    as "auto" and without a relay transport on routes that are not managed; the loss happens once. Whatever message is read
    gives a normalized registry, which can be written again and read back to the same result. *)
Theorem registry_wire_roundtrip :
  (∀ registry normalized, Normalize registry = Ok normalized → registry_ports_ok registry →
     ∃ w, RegistryToProto registry = Ok w ∧ RegistryFromProto w = Ok (wire_registry normalized))
  ∧ (∀ registry, wire_registry (wire_registry registry) = wire_registry registry)
  ∧ (∀ w registry, RegistryFromProto w = Ok registry →
       Normalize registry = Ok registry ∧ ∃ w', RegistryToProto registry = Ok w' ∧ RegistryFromProto w' = Ok (wire_registry registry)).
Proof.
  split_and!.
  - intros registry n HN Hp. destruct (normalize_sound _ _ HN) as [Hc _]. destruct (registry_roundtrip _ Hc (normalize_ports _ _ HN Hp)) as (w & Hw & Hr).
    exists w. split; [|done]. rewrite <- Hw. unfold RegistryToProto. by rewrite HN, (canonical_normalize _ Hc).
  - intros [v d m]. change (mkRegistry v d (wire_endpoint <$> (wire_endpoint <$> m)) = mkRegistry v d (wire_endpoint <$> m)). f_equal. rewrite <- map_fmap_compose. apply map_fmap_ext. intros k e _. apply wire_endpoint_idemp.
  - intros w r [Hc Hp]%read_registry_sound. split; [by apply canonical_normalize|]. by apply registry_roundtrip.
Qed.
End read_registry.

(** *** Shares *)

(** A normalized endpoint, not necessarily of a registry. *)
Lemma normalized_routes e e' : normalizedAndValidated e = Ok e' → ports_ok e → ∀ k r, e'.(ep_Routes) !! k = Some r →
  defaulted k r ∧ port_ok r ∧ route_valid r e'.(ep_DaemonIdentity) = true.
Proof.
  intros [-> Hv]%normalizedAndValidated_ok Hp k r Hr. assert (Hinv : defaulted k r ∧ port_ok r).
  { eapply (withDefaults_inv port_ok e); [|exact Hp|exact Hr]. intros r0 id H0. by apply default_port. }
  destruct Hinv as [[Hk Hd] Hpr].
  split_and!; [done..|]. unfold endpoint_valid in Hv. rewrite !andb_true_iff in Hv. destruct Hv as [[_ Hv] _]. rewrite forallb_forall in Hv.
  specialize (Hv (k, r)). rewrite <- list_elem_of_In, elem_of_map_to_list in Hv. apply Hv in Hr as [_ Hr]%andb_true_iff. cbn [fst snd] in Hr.
  assert (Ei : normalizeRouteID (or_default r.(ar_ID) (normalizeRouteID k)) = r.(ar_ID)).
  { unfold normalizeRouteID. assert (Et : TrimSpace r.(ar_ID) = r.(ar_ID)) by (rewrite <- Hd at 2; by rewrite route_withDefaults_ID).
    rewrite <- Hk, Et. unfold or_default. by destruct (is_empty _). }
  by rewrite Ei, own_ID in Hr.
Qed.

(** What the other client gets of a route. *)
Definition without_secrets (r : AccessRoute) : AccessRoute := r <| ar_CredentialRef := "" |> <| ar_SSHCredentialRef := "" |> <| ar_AccountProfileRef := "" |>.
Definition given_route (r : AccessRoute) : AccessRoute :=
  (without_secrets (wire_route r)) <| ar_Source := SourceShare |> <| ar_PolicySource := SourceShare |>.

Lemma portable_config r config : route_config r = Some config → route_config (without_secrets r) = Some (portable_kind config).
Proof.
  unfold route_config. change (ar_Kind (without_secrets r)) with r.(ar_Kind).
  destruct (String.eqb r.(ar_Kind) RouteLocalUnix); [by intros [= <-]|]. destruct (String.eqb r.(ar_Kind) RouteDirectWebRTCTCP); [by intros [= <-]|].
  destruct (String.eqb r.(ar_Kind) RouteSSHWebRTCTCP); [by intros [= <-]|]. by destruct (String.eqb r.(ar_Kind) RouteManagedWebRTC); [intros [= <-]|].
Qed.
Lemma of_kind_secrets r : of_kind (without_secrets r) = without_secrets (of_kind r).
Proof.
  unfold of_kind, pick. change (ar_Kind (without_secrets r)) with r.(ar_Kind). change (ar_CredentialRef (without_secrets r)) with "".
  destruct (String.eqb r.(ar_Kind) RouteLocalUnix), (String.eqb r.(ar_Kind) RouteDirectWebRTCTCP), (String.eqb r.(ar_Kind) RouteSSHWebRTCTCP); reflexivity.
Qed.
Lemma secrets_values r : wire_values r → wire_values (without_secrets r).
Proof. exact (λ H, H). Qed.

Lemma shared_roundtrip r i : route_valid r i = true → route_withDefaults r = r → port_ok r →
  ∃ w, routeToProto r = Ok w ∧ accessRouteFromWire (shared_route w) w.(wr_Enabled)
    = Ok ((without_secrets (wire_route r)) <| ar_Source := SourceShare |> <| ar_PolicySource := SourceShare |>)
  ∧ (shared_route w).(wr_Enabled) = w.(wr_Enabled).
Proof.
  intros Hv Hdef Hport. destruct (routeToProto_valid _ _ Hv) as (config & Hc & ->). destruct (route_valid_parts _ _ Hv) as (Hid & _).
  eexists. split_and!; [done| |done]. rewrite (config_from_wire (without_secrets r) (portable_kind config));
    [|by eapply secrets_values, valid_wire_values|by apply portable_config|reflexivity].
  rewrite of_kind_secrets, (of_kind_valid _ _ Hv). cbn [shared_route wr_RouteId wr_DisplayName wr_Enabled wr_ManualOnly wr_Priority wr_CredentialRef wr_Source wr_PolicySource set_field].
  rewrite (identifier_trim _ Hid). unfold wire_route. destruct (String.eqb _ _); by destruct r.
Qed.

Definition is_portable (r : AccessRoute) : bool := negb (String.eqb r.(ar_Kind) RouteLocalUnix).
Lemma candidate_routes_cons source enabled w ws r rs :
  accessRouteFromWire w (enabled w) = Ok r → candidate_routes source enabled ws = Ok rs →
  candidate_routes source enabled (w :: ws) = Ok (r <| ar_Source := source |> <| ar_PolicySource := source |> :: rs).
Proof. intros Hr Hs. cbn [candidate_routes]. by rewrite Hr, Hs. Qed.
Lemma share_routes_exact i l : Forall (λ r, route_valid r i = true ∧ route_withDefaults r = r ∧ port_ok r) l →
  ∃ ws, share_routes l = Ok ws ∧ candidate_routes SourceShare wr_Enabled ws = Ok (given_route <$> filter (λ r, is_portable r = true) l).
Proof.
  induction 1 as [|r l (Hv & Hd & Hp) Hl (ws & Ews & Er)]; [by exists []|]. cbn [share_routes]. rewrite filter_cons.
  destruct (String.eqb r.(ar_Kind) RouteLocalUnix) eqn:Ek; (assert (Eport : is_portable r = negb (String.eqb r.(ar_Kind) RouteLocalUnix)) by done);
    rewrite Ek in Eport; [exists ws; by rewrite decide_False by by rewrite Eport|]. rewrite decide_True by done.
  destruct (shared_roundtrip _ _ Hv Hd Hp) as (w & Ew & Ea & Een). rewrite Ew, Ews. cbn [result_bind]. eexists. split; [done|].
  cbn [fmap list_fmap]. rewrite <- Een in Ea. rewrite (candidate_routes_cons _ _ _ _ _ _ Ea Er). reflexivity.
Qed.

(** The candidate another client makes of a shared endpoint. *)
Definition given_candidate (e : Endpoint) : EndpointCandidate :=
  mkCandidate SourceShare e.(ep_DaemonIdentity) e.(ep_Label) (given_route <$> filter (λ r, is_portable r = true) (RouteList e)) e.(ep_ConnectMode)
    (Some (mkSelectionPolicy e.(ep_SelectionPolicy).(sp_HedgeDelay) e.(ep_SelectionPolicy).(sp_HedgeDelayConfigured) "")) true
    (descriptor_from_wire <$> share_descriptors (RouteList e)).

Lemma identity_required i : identity_ok i false = true → identity_Empty i = false → identity_ok i true = true.
Proof.
  unfold identity_ok. cbn [negb]. rewrite andb_false_r. intros Hok He. by destruct (_ && _ && true); [rewrite He in Hok|].
Qed.
Lemma given_candidate_ok e : endpoint_valid e = true → identity_Empty e.(ep_DaemonIdentity) = false → candidate_ok (given_candidate e) = true.
Proof.
  unfold endpoint_valid. rewrite !andb_true_iff. intros [[[[[[[[_ Hm] Hh] _] _] Hi] _] _] _] He. unfold candidate_ok.
  change (ec_Identity (given_candidate e)) with e.(ep_DaemonIdentity). rewrite (identity_required _ Hi He).
  unfold client_policy_ok, candidateOwnsClientPolicy. cbn [given_candidate ec_Source ec_Identity ec_ApplyClientPolicy ec_ConnectMode ec_SelectionPolicy].
  rewrite Hm. change (hedge_ok _) with (hedge_ok e.(ep_SelectionPolicy)). rewrite Hh. by rewrite orb_true_r.
Qed.

Section shares.
Context `{RemoteCrypto} (protoMarshal : ClientEndpointShareBundleV1 → result string).

(** The clock decides on the times only. *)
Lemma validate_clock b clock clock' : validateClientEndpointShareBundle b clock = None → share_times_ok b clock' = true →
  validateClientEndpointShareBundle b clock' = None.
Proof.
  unfold validateClientEndpointShareBundle. destruct (negb (_ =? _)); [done|]. destruct (negb (identifier_ok _)); [done|].
  destruct (validateWireIdentity _ _); [done|]. destruct (sb_Identity b); [|done]. intros Hv ->. by destruct (share_times_ok b clock).
Qed.
Lemma marshal_validates b clock p : MarshalClientEndpointShareBundle protoMarshal b clock = Ok p → validateClientEndpointShareBundle b clock = None.
Proof. unfold MarshalClientEndpointShareBundle. by destruct (validateClientEndpointShareBundle b clock). Qed.
Lemma new_share_spec target id now ttl clock b : NewClientEndpointShareBundle protoMarshal target id now ttl clock = Ok b → ∃ e routes,
  normalizedAndValidated target = Ok e ∧ identity_Empty e.(ep_DaemonIdentity) = false ∧ share_routes (RouteList e) = Ok routes
  ∧ validateClientEndpointShareBundle b clock = None
  ∧ b = mkShareBundle ClientEndpointShareBundleVersion (TrimSpace id) (Some (wire_identity e.(ep_DaemonIdentity))) e.(ep_Label) routes
          (wireConnectMode e.(ep_ConnectMode)) (Some (wire_policy e.(ep_SelectionPolicy))) (share_descriptors (RouteList e)) "" (i64 now) (i64 (now + ttl)).
Proof.
  unfold NewClientEndpointShareBundle. destruct (ttl <=? 0); [done|]. destruct (normalizedAndValidated target) as [e|] eqn:Ee; [|done]. cbn [result_bind].
  destruct (identity_Empty _) eqn:Ei; [done|]. destruct (share_routes _) as [routes|] eqn:Er; [|done]. cbn [result_bind]. destruct (_ =? 0); [done|].
  set (bundle := mkShareBundle _ _ _ _ _ _ _ _ _ _ _). destruct (MarshalClientEndpointShareBundle _ bundle clock) as [p|] eqn:Em; [|done]. intros [= <-].
  exists e, routes. split_and!; try done. by eapply marshal_validates.
Qed.
Lemma accepted_share b clock i routes : validateClientEndpointShareBundle b clock = None → b.(sb_Identity) = Some i →
  candidate_routes SourceShare wr_Enabled b.(sb_Routes) = Ok routes →
  EndpointCandidateFromShareBundle b clock
  = Ok (mkCandidate SourceShare (mkDaemonIdentity i.(wi_DeviceId) i.(wi_DeviceFingerprint)) b.(sb_SuggestedLabel) routes (mapWireConnectMode b.(sb_ConnectMode))
          (Some (share_policy b.(sb_SelectionPolicy))) true (descriptor_from_wire <$> b.(sb_CredentialDescriptors))).
Proof. intros Hv Hi Hr. unfold EndpointCandidateFromShareBundle. by rewrite Hv, Hi, Hr. Qed.

(** C24: An endpoint that is shared reaches the other client, as long as the bundle is in its time, exactly as the routes
    that are not local-unix, without the credential references, the SSH secret and the Cloud profile, as routes of the
    source share, with the label, the pinned identity, the connect mode and the hedge delay. The route preference does not
    arrive. The candidate passes the first checks of the assembler. *)
Theorem share_exact target id now ttl clock b :
  NewClientEndpointShareBundle protoMarshal target id now ttl clock = Ok b → ports_ok target →
  let given := given_candidate (endpoint_withDefaults target) in
  (∀ clock', share_times_ok b clock' = true → EndpointCandidateFromShareBundle b clock' = Ok given)
  ∧ candidate_ok given = true
  ∧ Forall (λ r, r.(ar_Kind) ≠ RouteLocalUnix ∧ r.(ar_CredentialRef) = "" ∧ r.(ar_SSHCredentialRef) = "" ∧ r.(ar_AccountProfileRef) = "") given.(ec_Routes).
Proof.
  intros (e & routes & Ee & Ei & Er & Hv & ->)%new_share_spec Hp given. pose proof (normalized_routes _ _ Ee Hp) as Hroutes.
  destruct (normalizedAndValidated_ok _ _ Ee) as [E Hvalid]. unfold given. rewrite <- E. pose proof Hvalid as Hparts. unfold endpoint_valid in Hparts.
  rewrite !andb_true_iff in Hparts. destruct Hparts as [[[[[[[[_ Hm] Hh] _] _] _] _] _] _].
  destruct (share_routes_exact e.(ep_DaemonIdentity) (RouteList e)) as (ws & Ews & Hc).
  { apply Forall_forall. intros r [k Hr]%elem_of_sorted_values. by destruct (Hroutes _ _ Hr) as ([_ Hd] & Hport & Hrv). }
  rewrite Er in Ews. injection Ews as <-. split_and!.
  - intros clock' Ht. rewrite (accepted_share _ clock' _ _ (validate_clock _ _ _ Hv Ht) eq_refl Hc). unfold given_candidate. cbn [sb_SuggestedLabel sb_ConnectMode
      sb_SelectionPolicy sb_CredentialDescriptors wi_DeviceId wi_DeviceFingerprint wire_identity share_policy wire_policy wp_HedgeDelayMillis wp_HedgeDelayConfigured].
    rewrite (proj1 (connect_wire _ Hm)), (proj1 (hedge_wire _ Hh)). by destruct e.(ep_DaemonIdentity).
  - by apply given_candidate_ok.
  - cbn [given_candidate ec_Routes]. apply Forall_forall. intros r (r0 & -> & [Hp0 _]%list_elem_of_filter)%list_elem_of_fmap.
    unfold is_portable in Hp0. apply negb_true_iff, String.eqb_neq in Hp0. unfold given_route, without_secrets, wire_route. by destruct (String.eqb _ RouteManagedWebRTC).
Qed.
End shares.

(** *** Bootstraps *)
Section bootstraps.
Context `{RemoteCrypto} (marshalBundle : Bundle EndpointRouteConfigV1 → result string)
  (unmarshalBundle : string → result (Bundle EndpointRouteConfigV1 * bool))
  (marshalTicketInput : string → Z → string → string → PairingTicketDescriptor → result string)
  (marshalBundleInput : string → Z → Bundle EndpointRouteConfigV1 → result string).
Let proto : EndpointProto := wire_proto marshalBundle unmarshalBundle marshalTicketInput marshalBundleInput.

Lemma validated_identity i required : validateWireIdentity (Some i) required = None → identity_ok (mkDaemonIdentity i.(wi_DeviceId) i.(wi_DeviceFingerprint)) true = true.
Proof.
  unfold validateWireIdentity, identity_ok. cbn [di_DeviceID di_DeviceFingerprint negb]. rewrite andb_false_r. by destruct (DaemonIdentity_Validate _ _).
Qed.
Lemma bootstrap_parts (b : Bundle EndpointRouteConfigV1) fresh : validateEndpointBootstrapBundleAt (H0 := proto) b fresh = None → ∃ i,
  b.(pb_Identity) = Some i ∧ validateWireIdentity (Some i) true = None ∧ validate_routes (H0 := proto) i [] b.(pb_Routes) = None.
Proof.
  unfold validateEndpointBootstrapBundleAt. destruct (validateEndpointBootstrapPayload _ _ _) eqn:Ev; [done|]. intros _. revert Ev. unfold validateEndpointBootstrapPayload.
  change (@Route proto) with EndpointRouteConfigV1. destruct (negb (_ =? _)); [done|]. destruct (validateIdentifier _); [done|]. destruct (pb_Identity b) as [i|]; [|done].
  destruct (validateWireIdentity (Some i) true) eqn:Ei; [done|]. destruct (_ || _); [done|]. destruct (stale _ _ _); [done|]. destruct (_ && _); [done|].
  destruct (_ && _); [done|]. destruct (validate_routes _ _ _) eqn:Er; [done|]. intros _. by exists i.
Qed.
Lemma portable_route_ok w i allow : portable_route_error w i allow = None →
  (allow = false → w.(wr_ManualOnly) = false ∧ w.(wr_Priority) = None) ∧ ∃ r, accessRouteFromWire w (negb allow || w.(wr_Enabled)) = Ok r
    ∧ route_valid r (mkDaemonIdentity i.(wi_DeviceId) i.(wi_DeviceFingerprint)) = true.
Proof.
  unfold portable_route_error. destruct (negb (identifier_ok _)); [done|]. destruct (negb (_ =? _)); [done|]. destruct (is_local_unix _); [done|].
  destruct (negb (is_empty _)); [done|]. destruct (_ || _); [done|]. destruct (negb allow && _) eqn:Ep; [done|].
  destruct (accessRouteFromWire _ _) as [r|]; [|done]. destruct (route_valid r _) eqn:Ev; [|done]. intros _. split; [|by exists r].
  intros ->. cbn in Ep. by destruct (wr_ManualOnly w), (wr_Priority w).
Qed.
Lemma accessRoute_policy w enabled r : accessRouteFromWire w enabled = Ok r →
  r.(ar_Enabled) = enabled ∧ r.(ar_ManualOnly) = w.(wr_ManualOnly) ∧ r.(ar_Priority) = w.(wr_Priority).
Proof.
  unfold accessRouteFromWire. destruct w.(wr_Route) as [[]|]; [..|done]; [by intros [= <-]|by intros [= <-]| |by intros [= <-]].
  destruct (_ >? _); [done|]. by intros [= <-].
Qed.
Lemma bootstrap_routes i seen ws rs : validate_routes (H0 := proto) i seen ws = None → candidate_routes SourceBootstrap (λ _, true) ws = Ok rs →
  Forall (λ r, r.(ar_Enabled) = true ∧ r.(ar_ManualOnly) = false ∧ r.(ar_Priority) = None) rs.
Proof.
  revert seen rs. induction ws as [|w ws IH]; intros seen rs; cbn [candidate_routes]; [by intros _ [= <-]|]. cbn [validate_routes].
  change (validatePortableRoute w i false) with (portable_route_error w i false). destruct (portable_route_error w i false) eqn:Ew; [done|].
  destruct (portable_route_ok _ _ _ Ew) as [Hp _]. destruct (Hp eq_refl) as [Hm Hn]. destruct (existsb _ _); [done|]. intros Hv.
  destruct (accessRouteFromWire w true) as [r|] eqn:Er; [|done]. cbn [result_bind]. destruct (candidate_routes _ _ ws) as [rs'|] eqn:Es; [|done]. intros [= <-].
  constructor; [|by eapply IH]. destruct (accessRoute_policy _ _ _ Er) as (E1 & E2 & E3). rewrite Hm in E2. rewrite Hn in E3. clear - E1 E2 E3. by destruct r.
Qed.
(** A bundle a daemon signed cannot carry the policy of a client: the assembler takes its candidate. *)
Theorem bootstrap_candidate_ok b c :
  EndpointCandidateFromBootstrapBundle marshalBundle unmarshalBundle marshalTicketInput marshalBundleInput b = Ok c → candidate_ok c = true.
Proof.
  unfold EndpointCandidateFromBootstrapBundle. fold proto. destruct (validateEndpointBootstrapBundleAt _ _) eqn:Ev; [done|].
  destruct (bootstrap_parts _ _ Ev) as (i & Ei & Hi & Hr). rewrite Ei. destruct (candidate_routes _ _ _) as [rs|] eqn:Ers; [|done]. cbn [result_bind]. intros [= <-].
  pose proof (bootstrap_routes _ _ _ _ Hr Ers) as Hrs. unfold candidate_ok. cbn [ec_Source ec_Identity]. rewrite (validated_identity _ _ Hi).
  unfold client_policy_ok, candidateOwnsClientPolicy. cbn [ec_Source ec_ApplyClientPolicy ec_ConnectMode ec_SelectionPolicy ec_Routes].
  cbn -[forallb]. apply forallb_forall. intros r Hin%list_elem_of_In. rewrite Forall_forall in Hrs. destruct (Hrs r Hin) as (-> & -> & E).
  unfold prioritized. by rewrite E.
Qed.
End bootstraps.

(** ** Examples *)
Module WireDemo.
Import RemoteDemo EndpointDemo.

Lemma registry_ports : registry_ports_ok registry.
Proof. unfold registry_ports_ok, ports_ok, port_ok. apply (bool_decide_unpack _). vm_compute. exact I. Qed.
Lemma registry_wire_roundtrip_witness :
  ∃ w, RegistryToProto registry = Ok w ∧ RegistryFromProto w = Ok (wire_registry normal).
Proof. apply (proj1 registry_wire_roundtrip registry normal normalized registry_ports). Defined.

(** An endpoint that prefers SSH, with a route to this machine only and with references to secrets. *)
Definition shared : Endpoint :=
  work <| ep_ID := "work" |> <| ep_SelectionPolicy := mkSelectionPolicy 250000000 true RoutePreferenceSSH |>
    <| ep_Routes := <["here" := (blank_route "here" RouteLocalUnix SourceLocal SourceLocal) <| ar_Priority := Some 2 |>]>
         (<["ssh" := ssh_route <| ar_SSHCredentialRef := "key" |>]> work.(ep_Routes)) |>.
Definition payload (b : ClientEndpointShareBundleV1) : result string := Ok b.(sb_TransferId).
Definition made : result ClientEndpointShareBundleV1 := NewClientEndpointShareBundle payload shared " t-1 " 1000 60000000000 2000.
Definition bundle : ClientEndpointShareBundleV1 :=
  match made with Ok b => b | Err _ => mkShareBundle 0 "" None "" [] 0 None [] "" 0 0 end.
Definition given : EndpointCandidate := given_candidate (endpoint_withDefaults shared).

Lemma bundle_made : NewClientEndpointShareBundle payload shared " t-1 " 1000 60000000000 2000 = Ok bundle.
Proof. vm_compute. reflexivity. Qed.
Lemma bundle_times : share_times_ok bundle 3000 = true.
Proof. vm_compute. reflexivity. Qed.
Lemma three_routes : len given.(ec_Routes) = 3.
Proof. vm_compute. reflexivity. Qed.
Lemma shared_ports : ports_ok shared.
Proof. unfold ports_ok, port_ok. apply (bool_decide_unpack _). vm_compute. exact I. Qed.
Lemma share_exact_witness : EndpointCandidateFromShareBundle bundle 3000 = Ok given ∧ len given.(ec_Routes) = 3.
Proof.
  split; [|exact three_routes].
  exact (proj1 (share_exact payload shared " t-1 " 1000 60000000000 2000 bundle bundle_made shared_ports) 3000 bundle_times).
Defined.
(** The bundle says that SSH is preferred; the candidate, which sets the policy of the receiver, does not. *)
Example share_drops_preference :
  wp_RoutePreference <$> bundle.(sb_SelectionPolicy) = Some 3 ∧ sp_RoutePreference <$> given.(ec_SelectionPolicy) = Some "" ∧ given.(ec_ApplyClientPolicy) = true.
Proof. vm_compute. split_and!; reflexivity. Qed.
End WireDemo.
